(* ===== verification/_CoqProject ===== *)
-Q . S2P
Prelude.v
Str.v
BTree.v
Names.v
Repo.v
Rules.v
Json.v
Paths.v
SandboxBlock.v
Fleet.v
Config.v
Status.v
Reconcile.v
Execute.v
Fakes.v
Converge.v
FleetRecord.v
Tree.v
FileStore.v
Actor.v
Queue.v
Kv.v
Sessions.v
Text.v
Delivery.v
Manifest.v
Registry.v
Activation.v
Chain.v
Daemon.v
Reactivate.v
Flow.v
Question.v
Answer.v
Layout.v
Sandbox.v
Launch.v
Bytes.v
Patch.v
Inspect.v
Untracked.v
Version.v
Cmd.v
Git.v
Harvest.v
Reader.v
Render.v
Parts.v
Review.v
PluginConfig.v
GitHub.v
Webhook.v
GhSession.v
Talk.v
Fits.v
Sdk.v
GhActor.v
GhSafety.v
GhRuns.v
Rooms.v
MxActor.v
MxSafety.v
MxRuns.v
Http.v
Mount.v
Web.v
Declared.v
