(* ===== verification/Prelude.v ===== *)
(** * balerix: a verification library for the control plane of coding agents

    balerix runs fleets of coding agents. A daemon ([crates/balerix-server])
    takes a fleet specification over HTTP, resolves and checks it
    ([crates/balerix-config], [balerix-core]), keeps one actor per fleet that
    reconciles what should run with what runs ([balerix-core/src/reconcile]),
    and starts each agent in its own directory tree, environment and sandbox
    ([crates/balerix-runtime]). Plugins ([plugins/*]) observe the agents' hook
    events, answer them, and type into the agents' panes through the daemon.

    The definitions are translated from the Rust sources function by function,
    under the source's names where Rocq allows them, and are executable: the
    examples and witnesses evaluate them. A [Result] is [result] below, [?] is
    its bind; a [BTreeMap] is a [gmap] iterated through [BTree.entries], a
    [str] is the [string] of its UTF-8 bytes, an integer is [N] or [Z] with the
    saturation or the bound of its width written out where the code can reach
    it. State that the code mutates is passed explicitly; concurrent tasks are
    step functions of a shared state, interleaved at the points where the code
    awaits or takes a lock.

    ** Files

    Shared: [Prelude] (results, lists, tactics), [Str] (Rust's string
    operations), [BTree] (ordered maps and sets), [Tree] (a directory tree),
    [Paths] ([std::path]).

    Data and rules: [Names] ([balerix-core/src/name.rs], [agent.rs],
    [version.rs]), [Repo] ([repo.rs]), [Rules] ([balerix-api/src/branch.rs],
    [workspace.rs], [protocol.rs]), [Json] (values and the layered merge,
    [balerix-config/src/merge.rs]), [SandboxBlock] ([balerix-core/src/sandbox.rs]),
    [Fleet] ([balerix-api/src/fleet.rs], [balerix-core/src/fleet.rs]), [Config]
    ([balerix-config/src/resolve.rs] and its checks), [FleetRecord]
    ([balerix-api/src/record.rs]), [Text] ([balerix-api/src/text.rs]).

    The reconciler: [Status] ([reconcile/status.rs]), [Reconcile]
    ([reconcile/mod.rs], [plan]), [Execute] ([reconcile/execute.rs], the ports of
    [ports.rs] as the class [Ports]), [Fakes] (the in-memory ports of
    [fakes.rs], an instance), [Converge] (the law [LawfulPorts], which the fakes
    keep, and convergence over any lawful ports).

    The daemon: [Actor] ([balerix-server/src/actor.rs]), [Daemon] (apply and down
    of [daemon.rs], over the interfaces of the fleets' actors and of the
    plugins), [Reactivate] (re-activation at a hello, same file), [Sessions]
    ([sessions.rs], [auth.rs]), [Manifest] ([balerix-core/src/plugin.rs]),
    [Registry], [Activation], [Chain] and [Kv] ([plugins/registry.rs],
    [activation.rs], [chain.rs], [kv.rs] with [vault.rs]), [FileStore] (the
    fleets' files, [store.rs] with [vault.rs], an instance of what [Actor] takes
    of a store), [Declared] (the operator's plugins in Kubernetes mode,
    [kube/declared.rs]), [Http] (headers and timed bodies, the body limit,
    [balerix-api/src/body_limit.rs]) and [Mount] (the plugins' pages under the
    daemon, [proxy.rs] with the mount's handlers of [api.rs]).

    An agent's surroundings: [Layout] ([balerix-runtime/src/layout.rs], [env.rs],
    [quote.rs]), [Sandbox] ([sandbox.rs], [socket_policy.rs]), [Launch]
    ([launch.rs]).

    Plugins: [Queue], [Delivery], [Question], [Answer], [Render] and [Parts]
    (both [render.rs] with [phases.rs]), [Review], [PluginConfig] (with
    [github/src/config.rs]) ([plugins/common/src]), [Flow] ([plugins/flow/src]),
    [Web] (the cache of the web plugin, its activity poll with the half of the
    page's script that follows it, and the sending of a review,
    [plugins/web/src]).

    The github plugin ([plugins/github/src]): [GitHub] (mentions, names, prompts,
    the status comment and the fleet file, [github.rs], [mention.rs],
    [prompt.rs], [status.rs], [repo_config.rs]), [Webhook] ([webhook.rs]),
    [GhSession] (the rows, [session.rs]), [GhActor] ([actor.rs], all of it),
    [GhSafety] (its invariant, kept by every function) and [GhRuns] (its
    theorems). The matrix plugin ([plugins/matrix/src]): [Rooms] ([config.rs],
    [matrix.rs], [routing.rs], [replay.rs]), [MxActor] ([actor.rs], all of it),
    [MxSafety] (its invariant, which takes a law of the caller's choice along)
    and [MxRuns] (its theorems). Both actors are tasks of [Talk], over an
    environment that answers their calls, hear the errors of [Sdk]
    ([crates/balerix-plugin-sdk/src/lib.rs]) and keep the questions of [Fits]
    answerable.

    Git, the rest of [crates/balerix-runtime]: [Bytes] (byte strings as Rust
    reads them), [Cmd] ([tools.rs], a command and what its exit means), [Git]
    ([workspace.rs] with the git profile of [sandbox.rs]: fallible steps over a
    world, recording what they run, remove and write), [Harvest] (what those
    steps may do), and the reads of a workspace ([inspect.rs]): [Patch] (the
    splitter and the section reader), [Inspect] (the parsers and the limits),
    [Untracked] (what may reach [--no-index]), [Version] (the fingerprint, the
    batches), [Reader] (diff, version, one file, one listing).

    ** How the parts compose

    [Config.resolve] yields only specifications that [Fleet.fleet_try_from]
    accepts; the actor ([Actor.turn]) runs [Execute.reconcile_pass], which is
    [Reconcile.plan] and [Execute.execute], and folds the outcome with
    [Status.apply]. [Daemon.apply_as] takes the difference of [Activation.diff],
    offers it to the plugins through the interface, writes the rows of
    [Registry] and sends the actor its message; [Reactivate] and [Chain] run
    beside it over the same registry. [Sandbox.agent_profile] checks a block
    with [SandboxBlock.check_sandbox_block] before it merges it over the grants
    computed from [Layout]. [Answer] plans keys with [Question.plan]; [Flow] and
    the channels track prompts with [Delivery] and are fed from [Queue].
    [Reader.diff] runs its scripts with [Git.sandboxed_git_script], reads them
    with [Inspect.parse_listing] and [Patch.reader_feed], asks
    [Untracked.untracked_patch] of every untracked path first, and holds the
    result with [Inspect.fit_diff]. [GhActor.handle] takes the events [Webhook]
    hands over, keeps its rows with [GhSession], its prompts with [Delivery], its
    questions with [Answer], applies the file [GitHub.prepare] makes and posts
    what [Render] words and [Parts.split] cuts. [MxActor.handle] routes a reply
    through the maps and past the marks of [Rooms], and shares the rest.

    ** What the theorems show

    - Reconciliation: the plan is the documented table ([plan_table]), is empty
      exactly when nothing is left to do ([plan_quiescent]), a failure is
      contained to what depends on it ([execute_containment]), one pass over
      ports that fail nothing converges ([reconcile_converges]), a crash loop is
      bounded ([crash_loop_bounded]).
    - Configuration: what is accepted is exactly what is valid
      ([fleet_try_from_accepts], [resolve_valid]), survives its encoding
      ([fleet_roundtrip]), and a plugin's file cannot reach the refused settings
      ([restricted_file_keeps_refused]).
    - Isolation: a block hands out nothing outside its allowlists
      ([sandbox_block_complete]); the rendered profile keeps balerix's pins
      ([profile_pins]) and grants nothing that reaches balerix's own trees
      ([profile_grants_confined]); what agents write is apart
      on one machine whose balerix directories are not links
      ([agent_writes_apart]); the launch script says what was planned
      ([launch_script_runs_plan]).
    - The daemon: the hook-secret index, stops and purges of the actor (a purge
      outside Kubernetes mode, over ports that fail nothing and a pool that is
      ready, [down_purges]); a refused apply takes back what it can, and all of
      it over plugins that answer in time by whether they take a config
      ([rejected_apply_rolls_back]), one that succeeds leaves exactly its rows
      ([apply_rows_exact]); hellos are never undone; re-activation is
      single-flight and ends; every event a plugin was to get is accounted for
      against a ledger read off the subscriptions alone ([losses_conserved]);
      the interceptor chain fails open. A listed plugin is called, and calls,
      only as its entry and a checked hello say ([declared_within_grants]).
    - Stores and queues refine a finite map, a list, a ledger ([kv_refines],
      [store_refines], [queue_refines], [sessions_refine]).
    - The mount: a request reaches a plugin only past the daemon's token or a
      session of that scope, and without the daemon's credentials
      ([mount_confined]); an upgrade is joined only when it was asked for
      ([joined_when_asked]); dot segments are refused in every spelling
      ([dot_segments_refused]).
    - Plugins: prompts are settled once ([deliveries_conserved]), Enter is pressed
      only when safe ([nudge_safe]), what is typed opens no other mode
      ([prompt_text_safe]), an answer is the one the operator saw
      ([answers_are_seen]) and the keys select it ([plan_answers_dialog]), a
      long text is cut without loss ([pieces_whole], [split_within]). The flow
      plugin's gauge follows its state in every interleaving, and so does its
      store when no call to it fails, but for an agent first activated during a
      [deactivate] of it that found no gate ([store_follows_state],
      [restart_resumes]; [open_deactivate_deletes] is that case). The page of
      the web plugin shows every event still retained, once and in order,
      however polls fail ([page_follows]).
    - The github actor: no answer of the store, the daemon or GitHub makes it
      panic, as long as every confirm window leaves room for the start-up
      allowance in a [Duration] ([actor_never_panics]; [confirm_window_panics]
      shows an accepted one that does not), it acts only for those who may
      prompt, asked within the life of the cache, and a closed number, which
      nobody is asked about, applies at most its session's fleet without it
      ([only_permitted_act]); every fleet it applies carries the open sessions
      ([applies_carry_sessions]), deliveries and comments are acted on once, a
      comment for as long as it is among the newest a row remembers
      ([webhook_once], [deliver_verified], [comment_once]), and what comes before
      its configuration waits for it ([configure_replays]).
    - The matrix actor: it never panics either ([matrix_never_panics]); a reply
      acts once, on the agent of its thread, as a prompt or as the keys of an
      answer ([reply_reaches_its_agent]), for as long as its id is among the
      newest of a room in use and the record fits its limit ([handled_once]);
      dialogs are followed whatever fails ([dialogs_followed]); a restart has
      the threads, the rooms and the routes of the threads again
      ([rooms_resume]); a refused room waits ([refused_rooms_wait]); the
      record of what was handled fits its store and keeps the newest
      ([record_fits]), and what a join brings is told from what is new
      ([history_exact]).
    - Git: a clone is deleted only when its branch is saved or git said that
      there is none ([removal_keeps_branch], [ensure_clone_keeps]); a read runs
      only its scripts, under a profile that grants reads alone
      ([reads_confined], [git_profile_reads]), shows what git printed
      ([listing_roundtrip], [diff_result], [splitter_sections],
      [reader_reads_frames]) within its limits, and gives git no path that
      leads elsewhere ([untracked_path_safe]).

    ** Fuel and bounds

    Recursions that are not structural take fuel computed from their input, and
    a lemma says it is enough: [Sandbox.resolve_loop] takes the length of the
    path, which every step up shortens ([resolve_loop_enough]); the 40 links are
    the code's own bound. The walks of [Kv] are structural on the tree. The
    liveness and termination theorems state bounds in steps, not in fuel.

    ** Parameters

    Code outside the repository is a parameter: the [regex] crate, serde's
    typed reading and printing, digests, the cipher of the vault, random bytes,
    Unicode tables (case folding, [Debug] escapes), clocks, the file system
    behind [canonicalize] and [read_link], the answers of plugins and ports.
    Hypotheses on them are named, stated where they are used and instantiated in
    the witnesses. An [Instant] is an unbounded [N] of nanoseconds (what the
    sources add to one is far below what its clock holds); a [Duration] is
    bounded where a configured one is added to ([GhActor.duration_add]).

    ** Not modelled

    What subprocesses do (git, mise, tmux, nono, gh, the shell that runs the
    reader's scripts: the world of [Git.Host] answers for them), process
    supervision and seccomp, the axum routes but the plugins' mount, websockets,
    TLS, metrics and logs (with what a log line looks up), the Kubernetes
    operator (its inputs and outputs are generated types), the links to pods and
    the pod sidecar, the HTTP clients of the channels, the web plugin's HTML,
    terminals and diff view, the plugin SDK and the command line. Panics that unwind and calls dropped
    half-way are not modelled either.
*)

From stdpp Require Export base tactics list gmap strings sorting fin_maps pretty.
From Stdlib Require Export Lia.
From Stdlib Require Strings.Ascii.
Export Stdlib.Strings.Ascii (ascii(..), ascii_of_N, N_of_ascii).
Export (notations) Stdlib.Strings.Ascii.

(** ** Results: Rust's [Result<A, E>], the error type first so that
    [result E] is a monad in stdpp's classes and [x ← e; k] is [?]. *)

Inductive result (E A : Type) : Type :=
| Ok (a : A)
| Err (e : E).
Arguments Ok {E A} a.
Arguments Err {E A} e.

#[export] Instance result_ret {E} : MRet (result E) := fun A a => Ok a.
#[export] Instance result_bind {E} : MBind (result E) :=
  fun A B f m => match m with Ok a => f a | Err e => Err e end.
#[export] Instance result_fmap {E} : FMap (result E) :=
  fun A B f m => match m with Ok a => Ok (f a) | Err e => Err e end.
#[export] Instance result_eq_dec `{EqDecision E, EqDecision A} :
  EqDecision (result E A).
Proof. solve_decision. Defined.

Definition is_ok {E A} (r : result E A) : bool :=
  match r with Ok _ => true | Err _ => false end.

(** [map_err]. *)
Definition map_err {E F A} (f : E -> F) (r : result E A) : result F A :=
  match r with Ok a => Ok a | Err e => Err (f e) end.

(** [ok_or]. *)
Definition ok_or {E A} (o : option A) (e : E) : result E A :=
  match o with Some a => Ok a | None => Err e end.

(** [Result::ok]. *)
Definition to_option {E A} (r : result E A) : option A :=
  match r with Ok a => Some a | Err _ => None end.

(** [if !cond { return Err(e) }]. *)
Definition ensure {E} (b : bool) (e : E) : result E unit :=
  if b then Ok tt else Err e.

Section result_lemmas.
Context {E A B : Type}.

Lemma bind_Ok (m : result E A) (f : A -> result E B) b :
  m ≫= f = Ok b <-> exists a, m = Ok a /\ f a = Ok b.
Proof. destruct m; simpl; naive_solver. Qed.

(** A check before the rest: [check()?; rest]. *)
Lemma bind_unit_Ok (m : result E unit) (f : unit -> result E B) b :
  m ≫= f = Ok b <-> m = Ok tt /\ f tt = Ok b.
Proof. destruct m as [[]|]; simpl; naive_solver. Qed.

Lemma bind_Err (m : result E A) (f : A -> result E B) e :
  m ≫= f = Err e <-> m = Err e \/ exists a, m = Ok a /\ f a = Err e.
Proof. destruct m; simpl; naive_solver. Qed.

Lemma map_err_Ok {F} (g : E -> F) (m : result E A) a :
  map_err g m = Ok a <-> m = Ok a.
Proof. destruct m; simpl; naive_solver. Qed.

Lemma ensure_Ok b (e : E) u : ensure b e = Ok u <-> b = true.
Proof. destruct b, u; naive_solver. Qed.

Lemma to_option_Some (m : result E A) a : to_option m = Some a <-> m = Ok a.
Proof. destruct m; naive_solver. Qed.

Lemma is_ok_Ok (m : result E A) : is_ok m = true <-> exists a, m = Ok a.
Proof. destruct m; naive_solver. Qed.

Lemma ok_or_Ok (o : option A) (e : E) a : ok_or o e = Ok a <-> o = Some a.
Proof. destruct o; naive_solver. Qed.
End result_lemmas.

(** Sequencing over a list with early return: Rust's [for x in l { f(x)?; }]. *)
Fixpoint try_each {E A} (f : A -> result E unit) (l : list A) : result E unit :=
  match l with
  | [] => Ok tt
  | x :: l' => _ ← f x; try_each f l'
  end.

(** [for x in l { out.push(f(x)?) }]. *)
Fixpoint try_map {E A B} (f : A -> result E B) (l : list A) : result E (list B) :=
  match l with
  | [] => Ok []
  | x :: l' => y ← f x; ys ← try_map f l'; Ok (y :: ys)
  end.

(** [for x in l { out.extend(f(x)?) }]. *)
Definition try_concat {E A B} (f : A -> result E (list B)) (l : list A) : result E (list B) :=
  ls ← try_map f l; Ok (mjoin (M := list) ls).

Section try_lemmas.
Context {E A B : Type}.

Lemma try_each_Ok (f : A -> result E unit) l :
  try_each f l = Ok tt <-> Forall (fun x => f x = Ok tt) l.
Proof.
  induction l as [|x l IH]; simpl; [naive_solver|].
  rewrite bind_Ok, Forall_cons, <- IH. split.
  - intros ([] & ? & ?); done.
  - intros [? ?]; by exists tt.
Qed.

(** The error is the first failing element's: everything before it passed. *)
Lemma try_each_Err (f : A -> result E unit) l e :
  try_each f l = Err e <->
  exists l1 x l2, l = l1 ++ x :: l2 /\ Forall (fun y => f y = Ok tt) l1 /\ f x = Err e.
Proof.
  induction l as [|x l IH]; simpl.
  { split; [done|]. intros ([] & ? & ? & ? & _); simplify_list_eq. }
  rewrite bind_Err. setoid_rewrite IH. split.
  - intros [Hx|([] & Hx & l1 & y & l2 & -> & ? & ?)].
    + by exists [], x, l.
    + exists (x :: l1), y, l2. by repeat constructor.
  - intros ([|z l1] & y & l2 & ? & Hall & ?); simplify_list_eq; [by left|].
    apply Forall_cons in Hall as [? ?]. right. exists tt. naive_solver.
Qed.

Lemma try_map_Ok (f : A -> result E B) l k :
  try_map f l = Ok k <-> Forall2 (fun x y => f x = Ok y) l k.
Proof.
  revert k; induction l as [|x l IH]; intros k; simpl.
  { split; [intros [= <-]; constructor|by inversion 1]. }
  rewrite bind_Ok. split.
  - intros (y & ? & (ys & ?%IH & [= <-])%bind_Ok). by constructor.
  - inversion 1; simplify_eq. exists y. split; [done|].
    apply bind_Ok. eexists. by rewrite IH.
Qed.

Lemma try_map_Err (f : A -> result E B) l e :
  try_map f l = Err e -> exists x, x ∈ l /\ f x = Err e.
Proof.
  induction l as [|x l IH]; simpl; [done|]. rewrite bind_Err.
  intros [Hx|(y & _ & [(z & ? & ?)%IH|(? & _ & ?)]%bind_Err)]; [..|done].
  - exists x. split; [by left|done].
  - exists z. split; [by right|done].
Qed.
End try_lemmas.

Lemma Forall2_elem_l {A B} (R : A -> B -> Prop) l k x :
  Forall2 R l k -> x ∈ l -> exists y, R x y /\ y ∈ k.
Proof.
  intros H. induction H as [|a b l k ? _ IH]; [by intros ?%not_elem_of_nil|].
  intros [->|(y & ? & ?)%IH]%elem_of_cons; eexists; split; set_solver.
Qed.

Lemma Forall2_elem_r {A B} (R : A -> B -> Prop) l k y :
  Forall2 R l k -> y ∈ k -> exists x, x ∈ l /\ R x y.
Proof.
  intros H. induction H as [|a b l k ? _ IH]; [by intros ?%not_elem_of_nil|].
  intros [->|(x & ? & ?)%IH]%elem_of_cons; eexists; split; set_solver.
Qed.

Lemma try_concat_Ok {E A B} (f : A -> result E (list B)) l out :
  try_concat f l = Ok out ->
  (forall x, x ∈ l -> exists b, f x = Ok b /\ forall y, y ∈ b -> y ∈ out) /\
  (forall y, y ∈ out -> exists x b, x ∈ l /\ f x = Ok b /\ y ∈ b).
Proof.
  unfold try_concat. rewrite bind_Ok. intros (ls & Hls%try_map_Ok & [= <-]). split.
  - intros x Hx. destruct (Forall2_elem_l _ _ _ _ Hls Hx) as (b & Hb & ?).
    exists b. split; [done|]. intros y Hy. apply list_elem_of_join. eauto.
  - intros y (b & Hy & Hb)%list_elem_of_join.
    destruct (Forall2_elem_r _ _ _ _ Hls Hb) as (x & Hx & ?). eauto.
Qed.


Lemma fmap_list_bind {A B C} (h : B -> C) (g : A -> list B) (l : list A) :
  h <$> (l ≫= g) = l ≫= fun x => h <$> g x.
Proof. induction l as [|x l IH]; [done|]. by rewrite !bind_cons, fmap_app, IH. Qed.

(** ** Machine integers. Unsigned Rust integers are [N]; the operations that
    wrap or saturate are written out. *)
Definition u32_max : N := 4294967295.
Definition u64_max : N := 18446744073709551615.

(** [Duration::from_secs], in nanoseconds: how an [Instant] is counted. *)
Definition secs (n : N) : N := (n * 1000000000)%N.

Definition saturating_add_u64 (a b : N) : N := N.min (a + b) u64_max.
Definition saturating_mul_u64 (a b : N) : N := N.min (a * b) u64_max.
Definition wrapping_add_u32 (a b : N) : N := ((a + b) mod (u32_max + 1))%N.
Definition wrapping_add_u64 (a b : N) : N := ((a + b) mod (u64_max + 1))%N.

Lemma filter_keep {A} (P : A -> Prop) `{forall x, Decision (P x)} l : Forall P l -> filter P l = l.
Proof. intros Hl. induction Hl as [|x l Hx _ IH]; [done|]. by rewrite filter_cons_True, IH. Qed.

(** ** Automation *)

Create HintDb balerix discriminated.

Create Rewrite HintDb result.
#[export] Hint Rewrite @bind_Ok @map_err_Ok @ensure_Ok @ok_or_Ok : result.

(** Breaks every [_ ≫= _ = Ok _] hypothesis into the run of its parts. *)
Ltac destruct_result :=
  repeat match goal with
  | H : (_ ≫= _) = Ok _ |- _ => apply bind_Ok in H as (? & ? & H)
  | H : map_err _ _ = Ok _ |- _ => apply map_err_Ok in H
  | H : ensure _ _ = Ok _ |- _ => apply ensure_Ok in H
  | H : ok_or _ _ = Ok _ |- _ => apply ok_or_Ok in H
  | H : Ok _ = Ok _ |- _ => injection H as H; subst
  | H : Err _ = Ok _ |- _ => discriminate H
  | H : Ok _ = Err _ |- _ => discriminate H
  end.

(** Splits boolean conjunctions, disjunctions and negations in hypotheses. *)
Ltac destruct_bools :=
  repeat match goal with
  | H : (_ && _) = true |- _ => apply andb_true_iff in H as [? ?]
  | H : (_ || _) = false |- _ => apply orb_false_iff in H as [? ?]
  | H : negb _ = true |- _ => apply negb_true_iff in H
  | H : negb _ = false |- _ => apply negb_false_iff in H
  | H : bool_decide _ = true |- _ => apply bool_decide_eq_true in H
  | H : bool_decide _ = false |- _ => apply bool_decide_eq_false in H
  end.
