(* ===== verification/Str.v ===== *)
(** Rust's [str] operations over byte strings ([string] holds the UTF-8
    bytes of the Rust value): character classes, prefixes and suffixes,
    substring search, splitting and joining, with the lemmas the parsers
    and the printers are verified by. *)

From S2P Require Import Prelude.

(** ** Byte classes *)

Definition byte_in (lo hi : N) (c : ascii) : bool :=
  (lo <=? N_of_ascii c)%N && (N_of_ascii c <=? hi)%N.

Definition is_ascii_digit : ascii -> bool := byte_in 48 57.
Definition is_ascii_lowercase : ascii -> bool := byte_in 97 122.
Definition is_ascii_uppercase : ascii -> bool := byte_in 65 90.
Definition is_ascii_alphanumeric (c : ascii) : bool :=
  is_ascii_digit c || is_ascii_lowercase c || is_ascii_uppercase c.
Definition is_ascii_control (c : ascii) : bool :=
  byte_in 0 31 c || (N_of_ascii c =? 127)%N.

Definition to_ascii_lowercase_byte (c : ascii) : ascii :=
  if is_ascii_uppercase c then ascii_of_N (N_of_ascii c + 32) else c.

(** ** Traversals *)

Fixpoint bytes_all (p : ascii -> bool) (s : string) : bool :=
  match s with
  | EmptyString => true
  | String c s' => p c && bytes_all p s'
  end.

Definition bytes_any (p : ascii -> bool) (s : string) : bool :=
  negb (bytes_all (fun c => negb (p c)) s).

Fixpoint str_map (f : ascii -> ascii) (s : string) : string :=
  match s with
  | EmptyString => EmptyString
  | String c s' => String (f c) (str_map f s')
  end.

Definition to_ascii_lowercase : string -> string := str_map to_ascii_lowercase_byte.

Definition eq_ignore_ascii_case (a b : string) : bool :=
  bool_decide (to_ascii_lowercase a = to_ascii_lowercase b).

Definition is_empty (s : string) : bool := bool_decide (s = EmptyString).

(** [s] holds no byte [c]. *)
Definition lacks (c : ascii) (s : string) : bool :=
  bytes_all (fun a => negb (Ascii.eqb a c)) s.

(** [matches!(c, 'a' | 'b' | ..)], the alternatives given as a string. *)
Definition byte_among (set : string) (c : ascii) : bool := negb (lacks c set).

(** ** Prefixes, suffixes, substrings *)

Fixpoint strip_prefix (p s : string) : option string :=
  match p, s with
  | EmptyString, _ => Some s
  | String a p', String b s' => if Ascii.eqb a b then strip_prefix p' s' else None
  | String _ _, EmptyString => None
  end.

Definition starts_with (s p : string) : bool := bool_decide (is_Some (strip_prefix p s)).

Fixpoint strip_suffix (suf s : string) : option string :=
  if bool_decide (s = suf) then Some EmptyString
  else match s with
       | EmptyString => None
       | String a s' => String a <$> strip_suffix suf s'
       end.

Definition ends_with (s suf : string) : bool := bool_decide (is_Some (strip_suffix suf s)).

Fixpoint contains (s pat : string) : bool :=
  starts_with s pat ||
  match s with EmptyString => false | String _ s' => contains s' pat end.

(** ** Splitting and joining *)

Fixpoint split_char (c : ascii) (s : string) : list string :=
  match s with
  | EmptyString => [EmptyString]
  | String a s' =>
      if Ascii.eqb a c then EmptyString :: split_char c s'
      else match split_char c s' with
           | [] => [String a EmptyString]
           | h :: t => String a h :: t
           end
  end.

Fixpoint split_once (c : ascii) (s : string) : option (string * string) :=
  match s with
  | EmptyString => None
  | String a s' =>
      if Ascii.eqb a c then Some (EmptyString, s')
      else prod_map (String a) id <$> split_once c s'
  end.

(** [str::splitn(n, c)] for [n >= 1]: at most [n] pieces, the last one whole. *)
Fixpoint splitn (n : nat) (c : ascii) (s : string) : list string :=
  match n with
  | O => []
  | S O => [s]
  | S n' => match split_once c s with
            | Some (a, b) => a :: splitn n' c b
            | None => [s]
            end
  end.

(** [str::trim_end_matches] of a byte. *)
Fixpoint trim_end_byte (c : ascii) (s : string) : string :=
  match s with
  | EmptyString => EmptyString
  | String a s' =>
      match trim_end_byte c s' with
      | EmptyString => if Ascii.eqb a c then EmptyString else String a EmptyString
      | t => String a t
      end
  end.

Fixpoint join (sep : string) (l : list string) : string :=
  match l with
  | [] => EmptyString
  | [x] => x
  | x :: l' => x +:+ sep +:+ join sep l'
  end.

(** ** Lemmas *)

Lemma app_nil_string (s : string) : EmptyString +:+ s = s.
Proof. done. Qed.

Lemma app_cons_string a (s t : string) : String a s +:+ t = String a (s +:+ t).
Proof. done. Qed.

Lemma app_nil_r_string (s : string) : s +:+ EmptyString = s.
Proof. induction s as [|a s IH]; [done|]. by rewrite app_cons_string, IH. Qed.

Lemma app_assoc_string (s t u : string) : (s +:+ t) +:+ u = s +:+ (t +:+ u).
Proof. induction s as [|a s IH]; [done|]. by rewrite !app_cons_string, IH. Qed.

Lemma length_app_string (s t : string) :
  String.length (s +:+ t) = String.length s + String.length t.
Proof. induction s as [|a s IH]; [done|]. rewrite app_cons_string. simpl. by rewrite IH. Qed.

Create Rewrite HintDb string.
#[export] Hint Rewrite app_nil_string app_cons_string app_assoc_string
  app_nil_r_string : string.

Lemma app_inj_l_string (s t1 t2 : string) : s +:+ t1 = s +:+ t2 -> t1 = t2.
Proof. induction s as [|a s IH]; [done|]. rewrite !app_cons_string. intros [= H]. by apply IH. Qed.

Lemma app_inj_r_string (s1 s2 t : string) : s1 +:+ t = s2 +:+ t -> s1 = s2.
Proof.
  revert s2; induction s1 as [|a s1 IH]; intros [|b s2] H; [done|..];
    pose proof (f_equal String.length H) as Hl;
    rewrite !length_app_string in Hl; simpl in Hl; try lia.
  injection H as -> H. f_equal. by apply IH.
Qed.

Lemma bytes_all_app p s t : bytes_all p (s +:+ t) = bytes_all p s && bytes_all p t.
Proof.
  induction s as [|a s IH]; [done|]. rewrite app_cons_string. simpl.
  by rewrite IH, andb_assoc.
Qed.

Lemma bytes_all_impl (p q : ascii -> bool) s :
  (forall c, p c = true -> q c = true) -> bytes_all p s = true -> bytes_all q s = true.
Proof.
  intros Hpq. induction s as [|a s IH]; simpl; [done|].
  intros [?%Hpq ?]%andb_true_iff. apply andb_true_iff. auto.
Qed.

Lemma lacks_app c s t : lacks c (s +:+ t) = lacks c s && lacks c t.
Proof. apply bytes_all_app. Qed.

Lemma lacks_cons c a s : lacks c (String a s) = negb (Ascii.eqb a c) && lacks c s.
Proof. done. Qed.

Lemma strip_prefix_Some p s r : strip_prefix p s = Some r <-> s = p +:+ r.
Proof.
  revert s; induction p as [|a p IH]; intros s; simpl.
  { rewrite app_nil_string. split; congruence. }
  rewrite app_cons_string. destruct s as [|b s]; [done|].
  destruct (Ascii.eqb_spec a b) as [<-|]; [|split; congruence].
  rewrite IH. split; congruence.
Qed.

Lemma strip_prefix_app p r : strip_prefix p (p +:+ r) = Some r.
Proof. by apply strip_prefix_Some. Qed.

Lemma starts_with_spec s p : starts_with s p = true <-> exists r, s = p +:+ r.
Proof.
  unfold starts_with, is_Some. rewrite bool_decide_eq_true.
  by setoid_rewrite strip_prefix_Some.
Qed.

Lemma starts_with_app p r : starts_with (p +:+ r) p = true.
Proof. apply starts_with_spec. eauto. Qed.

Lemma strip_suffix_Some suf s r : strip_suffix suf s = Some r <-> s = r +:+ suf.
Proof.
  revert r; induction s as [|a s IH]; intros r; simpl; case_bool_decide as Heq.
  - subst suf. split; [by intros [= <-]|].
    destruct r; rewrite ?app_cons_string; congruence.
  - split; [done|]. destruct r; rewrite ?app_cons_string, ?app_nil_string; congruence.
  - subst suf. split; [by intros [= <-]|].
    intros H. pose proof (f_equal String.length H) as Hl.
    rewrite length_app_string in Hl. simpl in Hl. destruct r; simpl in *; [done|lia].
  - rewrite fmap_Some. setoid_rewrite IH. split.
    + intros (x & -> & ->). by rewrite app_cons_string.
    + destruct r as [|b r]; rewrite ?app_cons_string, ?app_nil_string; [congruence|].
      intros [= -> ->]. eauto.
Qed.

Lemma strip_suffix_app suf r : strip_suffix suf (r +:+ suf) = Some r.
Proof. by apply strip_suffix_Some. Qed.

Lemma ends_with_spec s suf : ends_with s suf = true <-> exists r, s = r +:+ suf.
Proof.
  unfold ends_with, is_Some. rewrite bool_decide_eq_true.
  by setoid_rewrite strip_suffix_Some.
Qed.

Lemma contains_spec s pat :
  contains s pat = true <-> exists a b, s = a +:+ pat +:+ b.
Proof.
  induction s as [|c s IH]; simpl; rewrite orb_true_iff, starts_with_spec.
  - split; [intros [[r ->]|]; [|done]; by exists EmptyString, r|].
    intros ([|] & b & Ha); [|done]. left. eauto.
  - rewrite IH. split.
    + intros [[r ->]|(a & b & ->)]; [by exists EmptyString, r|].
      by exists (String c a), b.
    + intros ([|c' a] & b & Ha); [left; eauto|].
      rewrite app_cons_string in Ha. injection Ha as <- ->. right. eauto.
Qed.

Lemma contains_byte s c : contains s (String c EmptyString) = negb (lacks c s).
Proof.
  induction s as [|a s IH]; simpl; [done|]. rewrite IH, lacks_cons, negb_andb, negb_involutive.
  f_equal. unfold starts_with. simpl. rewrite Ascii.eqb_sym. by destruct (Ascii.eqb a c).
Qed.

Lemma split_once_Some c s a b :
  split_once c s = Some (a, b) <-> s = a +:+ String c b /\ lacks c a = true.
Proof.
  revert a b; induction s as [|x s IH]; intros a b; simpl.
  { split; [done|]. intros [H _]. destruct a; discriminate H. }
  destruct (Ascii.eqb_spec x c) as [->|Hne].
  - split; [by intros [= <- <-]|]. intros [H Hl].
    destruct a as [|y a]; [by injection H as <-|].
    rewrite app_cons_string in H. injection H as <- _.
    rewrite lacks_cons, Ascii.eqb_refl in Hl. done.
  - rewrite fmap_Some. split.
    + intros ([a' b'] & [-> Hl]%IH & [= -> ->]). split; [done|].
      rewrite lacks_cons, Hl. by rewrite (proj2 (Ascii.eqb_neq _ _) Hne).
    + intros [H Hl]. destruct a as [|y a]; [by injection H|].
      rewrite app_cons_string in H. injection H as <- ->.
      rewrite lacks_cons in Hl. destruct_bools.
      exists (a, b). split; [|done]. by apply IH; split.
Qed.

Lemma split_once_None c s : split_once c s = None <-> lacks c s = true.
Proof.
  induction s as [|x s IH]; simpl; [done|]. rewrite lacks_cons.
  destruct (Ascii.eqb_spec x c); simpl; [done|]. rewrite fmap_None. done.
Qed.

Lemma split_char_nonempty c s : split_char c s <> [].
Proof.
  destruct s as [|a s]; simpl; [done|]. destruct (Ascii.eqb a c); [done|].
  by destruct (split_char c s).
Qed.

Lemma split_char_lacks c s : lacks c s = true -> split_char c s = [s].
Proof.
  induction s as [|a s IH]; simpl; [done|]. rewrite lacks_cons.
  intros [->%negb_true_iff Hs]%andb_true_iff. by rewrite IH.
Qed.

Lemma split_char_app c s t :
  lacks c s = true -> split_char c (s +:+ String c t) = s :: split_char c t.
Proof.
  induction s as [|a s IH]; rewrite ?app_cons_string, ?app_nil_string; simpl.
  { by rewrite Ascii.eqb_refl. }
  rewrite lacks_cons. intros [->%negb_true_iff Hs]%andb_true_iff. by rewrite IH.
Qed.

Lemma split_char_pieces_lack c s : Forall (fun x => lacks c x = true) (split_char c s).
Proof.
  induction s as [|a s IH]; simpl; [by repeat constructor|].
  destruct (Ascii.eqb a c) eqn:E; [by constructor|].
  destruct (split_char c s) as [|h t].
  - constructor; [|done]. by rewrite lacks_cons, E.
  - apply Forall_cons in IH as [? ?]. constructor; [|done]. by rewrite lacks_cons, E.
Qed.

Lemma join_cons sep x l : l <> [] -> join sep (x :: l) = x +:+ sep +:+ join sep l.
Proof. by destruct l. Qed.

(** Splitting at [c] and joining with [c] gives the string back. *)
Lemma join_split_char c s : join (String c EmptyString) (split_char c s) = s.
Proof.
  induction s as [|a s IH]; simpl; [done|].
  pose proof (split_char_nonempty c s) as Hne.
  destruct (Ascii.eqb_spec a c) as [->|].
  - by rewrite join_cons, IH.
  - destruct (split_char c s) as [|h [|h' t]]; [done| |].
    + simpl in *. by rewrite IH.
    + rewrite join_cons in * by done. by rewrite app_cons_string, IH.
Qed.

Lemma split_char_join c l :
  l <> [] -> Forall (fun x => lacks c x = true) l ->
  split_char c (join (String c EmptyString) l) = l.
Proof.
  intros Hne. induction l as [|x l IH]; [done|]. intros [Hx Hl]%Forall_cons.
  destruct l as [|y l]; [by apply split_char_lacks|].
  rewrite join_cons by done. rewrite app_cons_string, app_nil_string.
  rewrite split_char_app by done. f_equal. by apply IH.
Qed.

Lemma split_char_app_sep c s t :
  split_char c (s +:+ String c t) = split_char c s ++ split_char c t.
Proof.
  induction s as [|a s IH]; rewrite ?app_cons_string, ?app_nil_string; simpl.
  { by rewrite Ascii.eqb_refl. }
  rewrite IH. destruct (Ascii.eqb a c); [done|].
  pose proof (split_char_nonempty c s). by destruct (split_char c s).
Qed.

Lemma join_app sep l1 l2 :
  l1 <> [] -> l2 <> [] -> join sep (l1 ++ l2) = join sep l1 +:+ sep +:+ join sep l2.
Proof.
  intros H1 H2. induction l1 as [|x [|y l1] IH]; [done| |].
  - by rewrite <- join_cons.
  - rewrite <- app_comm_cons, join_cons, (join_cons sep x (y :: l1)) by done.
    rewrite IH by done. by autorewrite with string.
Qed.

(** A string has an empty piece when it is empty, starts or ends with the
    separator, or holds it twice in a row. *)
Lemma split_char_empty_piece c s :
  EmptyString ∈ split_char c s <->
  s = EmptyString \/ starts_with s (String c EmptyString) = true \/
  ends_with s (String c EmptyString) = true \/
  contains s (String c (String c EmptyString)) = true.
Proof.
  rewrite starts_with_spec, ends_with_spec, contains_spec. split.
  - intros (l1 & l2 & Hs)%list_elem_of_split.
    rewrite <- (join_split_char c s), Hs. destruct l1 as [|x l1].
    + destruct l2 as [|y l2]; [by left|]. right; left. simpl. eauto.
    + rewrite join_app by done. do 2 right. destruct l2 as [|y l2]; [left; eauto|].
      right. exists (join (String c EmptyString) (x :: l1)), (join (String c EmptyString) (y :: l2)).
      rewrite (join_cons _ EmptyString) by done. by autorewrite with string.
  - intros [->|[[r ->]|[[r ->]|(a & b & ->)]]]; simpl.
    + by left.
    + rewrite ?app_cons_string, ?app_nil_string. simpl. rewrite Ascii.eqb_refl. by left.
    + rewrite split_char_app_sep. simpl. set_solver.
    + rewrite ?app_cons_string, ?app_nil_string, split_char_app_sep. simpl.
      rewrite Ascii.eqb_refl. set_solver.
Qed.

(** ** Characters: the UTF-8 sequences of a string *)

(** A continuation byte, [0b10xxxxxx]. *)
Definition is_continuation : ascii -> bool := byte_in 128 191.

(** [str::chars]: each character as the bytes that encode it. *)
Fixpoint chars (s : string) : list string :=
  match s with
  | EmptyString => []
  | String a s' =>
      match chars s' with
      | String b h :: t =>
          if is_continuation b && (128 <=? N_of_ascii a)%N then String a (String b h) :: t
          else String a EmptyString :: String b h :: t
      | l => String a EmptyString :: l
      end
  end.

(** [p] of the only byte of a one-byte (ASCII) character. *)
Definition one_byte (p : ascii -> bool) (c : string) : bool :=
  match c with String a EmptyString => p a | _ => false end.

Fixpoint continuation_bits (acc : N) (s : string) : N :=
  match s with
  | EmptyString => acc
  | String a s' => continuation_bits (acc * 64 + N_of_ascii a mod 64) s'
  end.

(** The code point a UTF-8 sequence encodes. *)
Definition code_point (c : string) : N :=
  match c with
  | EmptyString => 0
  | String a s' =>
      let n := N_of_ascii a in
      continuation_bits
        (if n <? 128 then n else if n <? 224 then n mod 32
         else if n <? 240 then n mod 16 else n mod 8)%N s'
  end.

(** [char::is_control]: the general category Cc. *)
Definition char_is_control (c : string) : bool :=
  let n := code_point c in (n <? 32)%N || ((127 <=? n)%N && (n <? 160)%N).

(** [char::is_whitespace]: the property White_Space. *)
Definition char_is_whitespace (c : string) : bool :=
  let n := code_point c in
  ((9 <=? n) && (n <=? 13) || (n =? 32) || (n =? 133) || (n =? 160) || (n =? 5760) ||
   (8192 <=? n) && (n <=? 8202) || (n =? 8232) || (n =? 8233) || (n =? 8239) ||
   (n =? 8287) || (n =? 12288))%N.

Fixpoint skip_while {A} (p : A -> bool) (l : list A) : list A :=
  match l with [] => [] | x :: l' => if p x then skip_while p l' else l end.

Fixpoint concat (l : list string) : string :=
  match l with [] => EmptyString | x :: l' => x +:+ concat l' end.

(** [str::trim_start], [trim_end] and [trim]. *)
Definition trim_start (s : string) : string := concat (skip_while char_is_whitespace (chars s)).
Definition trim_end (s : string) : string :=
  concat (rev (skip_while char_is_whitespace (rev (chars s)))).
Definition trim (s : string) : string := trim_end (trim_start s).

(** ** Formatting *)

Definition hex_digit (n : N) : ascii :=
  if (n <? 10)%N then ascii_of_N (48 + n) else ascii_of_N (87 + n).

(** [{:x}], at most [fuel] digits; a code point has at most six. *)
Fixpoint hex (fuel : nat) (n : N) : string :=
  match fuel with
  | O => EmptyString
  | S fuel' =>
      if (n <? 16)%N then String (hex_digit n) EmptyString
      else hex fuel' (n / 16) +:+ String (hex_digit (n mod 16)) EmptyString
  end.

(** The one Unicode table [Debug] consults: the non-ASCII code points it
    escapes (grapheme extenders and what is not printable). It is data of
    the standard library, so a parameter of everything that formats. *)
Class Unicode := unicode_escaped : N -> bool.

Section debug.
Context `{Unicode}.

(** One character as [Debug] writes it inside quotes of byte [q]. *)
Definition debug_char_in (q : N) (c : string) : string :=
  let n := code_point c in
  if (n =? q)%N || (n =? 92)%N then String (ascii_of_N 92) c
  else if (n =? 10)%N then "\n"
  else if (n =? 13)%N then "\r"
  else if (n =? 9)%N then "\t"
  else if (n =? 0)%N then "\0"
  else if (n <? 32)%N || (n =? 127)%N || ((128 <=? n)%N && unicode_escaped n) then
    "\u{" +:+ hex 6 n +:+ "}"
  else c.

Definition quote : string := String (ascii_of_N 34) EmptyString.

(** [format!("{s:?}")] of a [str] and of a [char]. *)
Definition debug_str (s : string) : string :=
  quote +:+ concat (debug_char_in 34 <$> chars s) +:+ quote.
Definition debug_char (c : string) : string := "'" +:+ debug_char_in 39 c +:+ "'".
End debug.

(** [str::lines]: the last line ending is optional, and a carriage return
    goes with the line feed after it. *)
Fixpoint line_pieces (l : list string) : list string :=
  match l with
  | [] => []
  | [x] => if is_empty x then [] else [x]
  | x :: l => default x (strip_suffix (String (ascii_of_N 13) EmptyString) x) :: line_pieces l
  end.
Definition lines (s : string) : list string := line_pieces (split_char (ascii_of_N 10) s).

(** [s.split(pat).next()]: what comes before the first [pat]. *)
Fixpoint before (pat s : string) : string :=
  if starts_with s pat then EmptyString
  else match s with EmptyString => EmptyString | String c r => String c (before pat r) end.

(** [str::trim_start_matches] of a non-empty text. *)
Fixpoint strip_prefixes (fuel : nat) (pat s : string) : string :=
  match fuel with
  | 0 => s
  | S fuel => match strip_prefix pat s with Some r => strip_prefixes fuel pat r | None => s end
  end.
Definition trim_start_str (pat s : string) : string := strip_prefixes (String.length s) pat s.

Lemma concat_chars s : concat (chars s) = s.
Proof.
  induction s as [|a s IH]; simpl; [done|].
  destruct (chars s) as [|[|b h] t]; simpl in *; [|by rewrite app_cons_string, IH|].
  - by rewrite <- IH.
  - destruct (is_continuation b && _); simpl; rewrite !app_cons_string;
      by rewrite <- IH, ?app_cons_string.
Qed.

(** Every ASCII byte is a character of its own: what no one-byte character
    satisfies, no ASCII byte does. *)
Lemma bytes_all_chars (p : ascii -> bool) s :
  (forall a, (128 <=? N_of_ascii a)%N = true -> p a = false) ->
  Forall (fun c => one_byte p c = false) (chars s) <->
  bytes_all (fun a => negb (p a)) s = true.
Proof.
  intros Hp. induction s as [|a s IH]; simpl; [by split; [|constructor]|].
  rewrite andb_true_iff, negb_true_iff, <- IH.
  destruct (chars s) as [|[|b h] t]; try (rewrite Forall_cons; done).
  destruct (is_continuation b && _) eqn:Hb; [|by rewrite !Forall_cons].
  apply andb_true_iff in Hb as [Hb Ha]. rewrite !Forall_cons. simpl.
  assert (p b = false) as Hpb.
  { apply Hp. unfold is_continuation, byte_in in Hb. apply andb_true_iff in Hb as [? _]. done. }
  rewrite (Hp a) by done. destruct h; naive_solver.
Qed.

(** ** Interfaces: [fmt::Display] with [to_string], and [FromStr]. A
    lawful pair prints exactly what it parses. *)

Class Display (A : Type) := to_string : A -> string.
Class FromStr (E A : Type) := from_str : string -> result E A.
Class DisplayParse (E A : Type) `{Display A, FromStr E A} :=
  from_str_Ok : forall s (a : A), from_str (E := E) s = Ok a <-> s = to_string a.

Section display_parse.
Context `{DisplayParse E A}.

Lemma from_to_string (a : A) : from_str (E := E) (to_string a) = Ok a.
Proof. by apply from_str_Ok. Qed.

#[export] Instance to_string_inj : Inj (=) (=) (to_string (A := A)).
Proof.
  intros a b Hab. enough (@Ok E A a = Ok b) by congruence.
  by rewrite <- !from_to_string, Hab.
Qed.
End display_parse.
