(* ===== verification/BTree.v ===== *)
(** Ordered keys and [BTreeMap]/[BTreeSet]: a map is a [gmap] (extensional
    equality, stdpp's lookup lemmas) and its iteration is [entries], the
    key-value pairs sorted by key, which is the order every loop over a
    [BTreeMap] in the source follows. *)

From S2P Require Import Prelude.

(** ** Total orders on keys ([Ord]) *)

Class Ordered (K : Type) := {
  kle : relation K;
  #[global] kle_dec :: RelDecision kle;
  #[global] kle_refl :: Reflexive kle;
  #[global] kle_trans :: Transitive kle;
  #[global] kle_antisym :: AntiSymm (=) kle;
  #[global] kle_total :: Total kle;
}.

(** [Vec::dedup] and [sort] use the strict part. *)
Definition klt `{Ordered K} (a b : K) : Prop := kle a b /\ a <> b.

#[export] Instance string_ordered : Ordered string.
Proof. refine {| kle := String.le |}. Defined.

(** [#[derive(PartialOrd, Ord)]] on a newtype: the order of the field. *)
Definition inj_ordered `{Ordered B} {A} (f : A -> B) `{!Inj (=) (=) f} : Ordered A.
Proof.
  refine {| kle := fun x y => kle (f x) (f y) |}.
  - intros x y. apply kle_dec.
  - intros x. apply kle_refl.
  - intros x y z. apply kle_trans.
  - intros x y ??. apply (inj f). by apply kle_antisym.
  - intros x y. apply kle_total.
Defined.

(** [#[derive(PartialOrd, Ord)]] on two fields, and tuples: lexicographic. *)
Definition lex_le `{Ordered A, EqDecision A, Ordered B} (x y : A * B) : Prop :=
  if decide (x.1 = y.1) then kle x.2 y.2 else kle x.1 y.1.

Section lex.
Context `{Ordered A, EqDecision A, Ordered B}.

#[local] Instance lex_dec : RelDecision (@lex_le A _ _ B _).
Proof. intros x y. unfold lex_le. destruct (decide (x.1 = y.1)); apply kle_dec. Defined.

Lemma lex_trans : Transitive (@lex_le A _ _ B _).
Proof.
  intros [a b] [a' b'] [a'' b'']. unfold lex_le; simpl.
  repeat case_decide; subst; simpl; intros; try done; try by etrans.
  exfalso. by match goal with H : a'' <> a' |- _ => apply H; apply (anti_symm kle) end.
Qed.

Lemma lex_antisym : AntiSymm (=) (@lex_le A _ _ B _).
Proof.
  intros [a b] [a' b']. unfold lex_le; simpl.
  repeat case_decide; subst; intros; try done.
  - f_equal. by apply (anti_symm kle).
  - exfalso. by match goal with H : a <> a' |- _ => apply H; apply (anti_symm kle) end.
Qed.

Lemma lex_total : Total (@lex_le A _ _ B _).
Proof.
  intros [a b] [a' b']. unfold lex_le; simpl.
  repeat case_decide; subst; try done; apply kle_total.
Qed.

#[export] Instance prod_ordered : Ordered (A * B).
Proof.
  refine {| kle := lex_le |}.
  - apply lex_dec.
  - intros [a b]. unfold lex_le. simpl. case_decide; [|done]. apply kle_refl.
  - apply lex_trans.
  - apply lex_antisym.
  - apply lex_total.
Defined.
End lex.

(** ** Sorted iteration *)

Section entries.
Context `{Ordered K, Countable K}.

Definition key_le {V} (x y : K * V) : Prop := kle x.1 y.1.

#[export] Instance key_le_dec {V} : RelDecision (@key_le V).
Proof. intros x y. apply kle_dec. Defined.
#[export] Instance key_le_trans {V} : Transitive (@key_le V).
Proof. intros x y z. apply kle_trans. Qed.
#[export] Instance key_le_total {V} : Total (@key_le V).
Proof. intros x y. apply kle_total. Qed.

(** [BTreeMap::iter]. *)
Definition entries {V} (m : gmap K V) : list (K * V) := merge_sort key_le (map_to_list m).
(** [BTreeMap::keys]. *)
Definition keys {V} (m : gmap K V) : list K := (entries m).*1.
(** [BTreeMap::values]. *)
Definition values {V} (m : gmap K V) : list V := (entries m).*2.
(** [BTreeSet::iter]. *)
Definition elems (s : gset K) : list K := merge_sort kle (elements s).

Lemma entries_perm {V} (m : gmap K V) : entries m ≡ₚ map_to_list m.
Proof. apply merge_sort_Permutation. Qed.

Lemma elem_of_entries {V} (m : gmap K V) k v : (k, v) ∈ entries m <-> m !! k = Some v.
Proof. rewrite entries_perm. apply elem_of_map_to_list. Qed.

Lemma keys_NoDup {V} (m : gmap K V) : NoDup (keys m).
Proof. unfold keys. rewrite entries_perm. apply NoDup_fst_map_to_list. Qed.

Lemma entries_NoDup {V} (m : gmap K V) : NoDup (entries m).
Proof. eapply NoDup_fmap_1. apply keys_NoDup. Qed.

Lemma elem_of_keys {V} (m : gmap K V) k : k ∈ keys m <-> is_Some (m !! k).
Proof.
  unfold keys. rewrite list_elem_of_fmap. split.
  - intros ([k' v] & -> & ?%elem_of_entries). eauto.
  - intros [v ?]. exists (k, v). by rewrite elem_of_entries.
Qed.

Lemma elem_of_values {V} (m : gmap K V) v : v ∈ values m <-> exists k, m !! k = Some v.
Proof.
  unfold values. rewrite list_elem_of_fmap. split.
  - intros ([k v'] & -> & ?%elem_of_entries). eauto.
  - intros [k ?]. exists (k, v). by rewrite elem_of_entries.
Qed.

Lemma keys_sorted {V} (m : gmap K V) : StronglySorted kle (keys m).
Proof.
  unfold keys. apply (StronglySorted_fmap fst key_le kle).
  - done.
  - apply StronglySorted_merge_sort; apply _.
Qed.

Lemma elem_of_elems (s : gset K) k : k ∈ elems s <-> k ∈ s.
Proof. unfold elems. rewrite merge_sort_Permutation. apply elem_of_elements. Qed.

Lemma elems_NoDup (s : gset K) : NoDup (elems s).
Proof. unfold elems. rewrite merge_sort_Permutation. apply NoDup_elements. Qed.

Lemma elems_sorted (s : gset K) : StronglySorted kle (elems s).
Proof. apply StronglySorted_merge_sort; apply _. Qed.

Lemma list_to_map_entries {V} (m : gmap K V) : list_to_map (entries m) = m.
Proof.
  rewrite <- (list_to_map_to_list m) at 2. apply list_to_map_proper.
  - apply keys_NoDup.
  - apply entries_perm.
Qed.

(** Two lists sorted by key, without repetition, with the same elements,
    are the same list. *)
Lemma sorted_keys_unique (l1 l2 : list K) :
  StronglySorted kle l1 -> StronglySorted kle l2 -> l1 ≡ₚ l2 -> l1 = l2.
Proof. apply StronglySorted_unique. apply _. Qed.

Lemma entries_nil {V} (m : gmap K V) : entries m = [] <-> m = ∅.
Proof.
  split; intros Hm.
  - apply map_empty. intros k. destruct (m !! k) as [v|] eqn:E; [|done].
    apply elem_of_entries in E. rewrite Hm in E. by apply not_elem_of_nil in E.
  - subst m. unfold entries. by rewrite map_to_list_empty.
Qed.
End entries.

(** A loop over a sorted map, each entry giving a sorted run, runs of smaller
    keys before runs of larger ones. *)
Lemma sorted_bind `{Ordered K} {V X} (R : relation X) (g : K * V -> list X) (l : list (K * V)) :
  StronglySorted kle l.*1 -> NoDup l.*1 ->
  (forall e, e ∈ l -> StronglySorted R (g e)) ->
  (forall e1 e2 x y, e1 ∈ l -> e2 ∈ l -> klt e1.1 e2.1 -> x ∈ g e1 -> y ∈ g e2 -> R x y) ->
  StronglySorted R (l ≫= g).
Proof.
  induction l as [|e l IH]; intros Hs Hnd Hg Hcross; simpl; [constructor|].
  apply StronglySorted_inv in Hs as [Hs He]. apply NoDup_cons in Hnd as [Hne Hnd].
  assert (forall e', e' ∈ l -> klt e.1 e'.1) as Hlt.
  { intros e' He'. apply (list_elem_of_fmap_2 fst) in He'. rewrite Forall_forall in He.
    split; [by apply He|]. intros Heq. apply Hne. by rewrite Heq. }
  apply StronglySorted_app_2.
  - intros x y Hx (e' & Hy & He')%list_elem_of_bind.
    apply (Hcross e e'); [by left|by right|by apply Hlt|done..].
  - apply Hg. by left.
  - apply IH; [done..| |].
    + intros e' ?. apply Hg. by right.
    + intros e1 e2 x y ??. apply Hcross; by right.
Qed.

(** ** Building a map from pairs *)

(** [for (k, v) in pairs { out.insert(k, v); }] and [collect]: the last
    binding of a key stands. *)
Definition collect `{Countable K} {V} (l : list (K * V)) : gmap K V :=
  foldl (fun out kv => <[kv.1 := kv.2]> out) ∅ l.

Lemma lookup_foldl_insert `{Countable K} {V} (l : list (K * V)) (out : gmap K V) k v :
  NoDup l.*1 ->
  foldl (fun out kv => <[kv.1 := kv.2]> out) out l !! k = Some v <->
  (k, v) ∈ l \/ k ∉ l.*1 /\ out !! k = Some v.
Proof.
  revert out. induction l as [|[k' v'] l IH]; intros out Hnd; simpl.
  { set_solver. }
  apply NoDup_cons in Hnd as [Hk' Hnd]. rewrite (IH _ Hnd).
  destruct (decide (k = k')) as [->|Hne].
  - rewrite lookup_insert_eq, !elem_of_cons. split.
    + intros [Hin|[_ [= ->]]]; [|by left; left].
      exfalso. apply Hk'. by apply (list_elem_of_fmap_2 fst) in Hin.
    + intros [[[= ->]|Hin]|[Hn _]].
      * by right.
      * by left.
      * exfalso. apply Hn. by left.
  - rewrite lookup_insert_ne, !elem_of_cons by done. simpl. naive_solver.
Qed.

Lemma lookup_collect `{Countable K} {V} (l : list (K * V)) k v :
  NoDup l.*1 -> collect l !! k = Some v <-> (k, v) ∈ l.
Proof.
  intros Hnd. unfold collect. rewrite lookup_foldl_insert by done.
  rewrite lookup_empty. naive_solver.
Qed.

(** [for (k, v) in m { out.insert(f(k, v)?); }], where the new key
    determines the old one. *)
Definition try_collect `{Ordered K, Countable K, Countable K'} {V V' E}
    (f : K -> V -> result E (K' * V')) (m : gmap K V) : result E (gmap K' V') :=
  kvs ← try_map (uncurry f) (entries m); Ok (collect kvs).

(** [m.into_iter().map(|(k, v)| (g(k), h(v))).collect()]. *)
Definition rekey `{Ordered K', Countable K', Countable K} {V V'}
    (g : K' -> K) (h : V' -> V) (m : gmap K' V') : gmap K V :=
  collect (prod_map g h <$> entries m).

Section rekey.
Context `{Ordered K, Countable K, Ordered K', Countable K'}.
Context {V V' E : Type} (g : K' -> K) `{!Inj (=) (=) g}.

Lemma lookup_rekey (h : V' -> V) (m : gmap K' V') k v :
  rekey g h m !! k = Some v <-> exists k' v', m !! k' = Some v' /\ k = g k' /\ v = h v'.
Proof.
  unfold rekey. rewrite lookup_collect.
  - rewrite list_elem_of_fmap. split.
    + intros ([k' v'] & [= -> ->] & ?%elem_of_entries). eauto.
    + intros (k' & v' & ? & -> & ->). exists (k', v'). by rewrite elem_of_entries.
  - replace ((prod_map g h <$> entries m).*1) with (g <$> keys m).
    + apply NoDup_fmap_2; [done|]. apply keys_NoDup.
    + unfold keys. by rewrite <- !list_fmap_compose.
Qed.

Context (f : K -> V -> result E (K' * V')).
Context (f_key : forall k v k' v', f k v = Ok (k', v') -> g k' = k).

Lemma try_collect_Ok (m : gmap K V) (m' : gmap K' V') :
  try_collect f m = Ok m' <->
  (forall k v, m !! k = Some v -> exists k' v', f k v = Ok (k', v') /\ m' !! k' = Some v') /\
  (forall k' v', m' !! k' = Some v' ->
     exists v, m !! g k' = Some v /\ f (g k') v = Ok (k', v')).
Proof.
  assert (forall kvs, try_map (uncurry f) (entries m) = Ok kvs ->
    NoDup kvs.*1 /\ (forall k v, m !! k = Some v ->
      exists k' v', f k v = Ok (k', v') /\ (k', v') ∈ kvs) /\
    (forall k' v', (k', v') ∈ kvs -> exists v, m !! g k' = Some v /\ f (g k') v = Ok (k', v')))
    as Hkvs.
  { intros kvs Hkvs%try_map_Ok. split_and!.
    - apply (NoDup_fmap_1 g). enough (g <$> kvs.*1 = keys m) as -> by apply keys_NoDup.
      unfold keys. induction Hkvs as [|[k v] [k' v'] ? ? Hf _ IH]; [done|].
      rewrite !fmap_cons, IH. f_equal. by apply (f_key k v k' v').
    - intros k v Hk. destruct (Forall2_elem_l _ _ _ (k, v) Hkvs) as ([k' v'] & ? & ?);
        [by apply elem_of_entries|]. eauto.
    - intros k' v' Hin. destruct (Forall2_elem_r _ _ _ _ Hkvs Hin) as ([k v] & Hm & Hf).
      simpl in Hf. apply elem_of_entries in Hm. rewrite (f_key _ _ _ _ Hf). eauto. }
  unfold try_collect. rewrite bind_Ok. split.
  - intros (kvs & Hm & [= <-]). destruct (Hkvs kvs Hm) as (Hnd & Hl & Hr). split.
    + intros k v (k' & v' & ? & ?)%Hl. exists k', v'. by rewrite lookup_collect.
    + intros k' v'. rewrite lookup_collect by done. apply Hr.
  - intros [Hl Hr].
    destruct (try_map (uncurry f) (entries m)) as [kvs|e] eqn:Hm; last first.
    { exfalso. apply try_map_Err in Hm as ([k v] & Hin & Hf).
      apply elem_of_entries in Hin. destruct (Hl k v Hin) as (? & ? & ? & _). simpl in Hf.
      congruence. }
    exists kvs. split; [done|]. f_equal. destruct (Hkvs kvs eq_refl) as (Hnd & Hl' & Hr').
    apply map_eq. intros k'. apply option_eq. intros v'. rewrite lookup_collect by done. split.
    + intros (v & Hv & Hf)%Hr'. destruct (Hl _ _ Hv) as (k2 & v2 & ? & ?). congruence.
    + intros (v & Hv & Hf)%Hr. destruct (Hl' _ _ Hv) as (k2 & v2 & ? & ?). congruence.
Qed.

Lemma try_collect_is_ok (m : gmap K V) :
  is_ok (try_collect f m) = true <-> forall k v, m !! k = Some v -> is_ok (f k v) = true.
Proof.
  split.
  - intros [m' [Hl _]%try_collect_Ok]%is_ok_Ok k v (k' & v' & Hf & _)%Hl. by rewrite Hf.
  - intros Hok. unfold try_collect.
    destruct (try_map (uncurry f) (entries m)) as [|e] eqn:Hm; [done|].
    apply try_map_Err in Hm as ([k v] & Hin%elem_of_entries & Hf). simpl in Hf.
    specialize (Hok k v Hin). by rewrite Hf in Hok.
Qed.

(** Printing every entry and reading the result back. *)
Lemma try_collect_rekey (h : V' -> V) (m' : gmap K' V') :
  (forall k' v', m' !! k' = Some v' -> f (g k') (h v') = Ok (k', v')) ->
  try_collect f (rekey g h m') = Ok m'.
Proof.
  intros Hf. apply try_collect_Ok. split.
  - intros k v (k' & v' & ? & -> & ->)%lookup_rekey. eauto.
  - intros k' v' Hk. exists (h v'). split; [|by apply Hf]. apply lookup_rekey. eauto.
Qed.
End rekey.
