(* ===== verification/Names.v ===== *)
(** Validated identifiers ([crates/balerix-core/src/name.rs], [agent.rs]) and
    tool versions ([version.rs]). The three name types come from one macro in
    the source and are one type here, indexed by its kind; the validity proof
    is the newtype's private field ("parse, don't validate"). *)

From S2P Require Import Prelude Str BTree.

(** ** [validate_name] and the [name_type!] macro *)

Definition name_byte (b : ascii) : bool :=
  is_ascii_lowercase b || is_ascii_digit b || Ascii.eqb b "-"%char.

Definition validate_name (s : string) : result string unit :=
  if is_empty s then Err "empty"
  else if 63 <? String.length s then Err "longer than 63 characters"
  else if negb (bytes_all name_byte s) then
    Err "contains characters other than a-z, 0-9 and '-'"
  else if starts_with s "-" || ends_with s "-" then Err "starts or ends with '-'"
  else Ok tt.

Inductive name_kind := KFleet | KCrew | KAgent.

Definition kind_str (k : name_kind) : string :=
  match k with KFleet => "fleet" | KCrew => "crew" | KAgent => "agent" end.

Record NameError := { ne_kind : string; ne_value : string; ne_reason : string }.

Record name (k : name_kind) := mkName {
  name_str : string;
  name_ok : is_ok (validate_name name_str) = true;
}.
Arguments mkName {k} _ _.
Arguments name_str {k} _.
Arguments name_ok {k} _.

Definition FleetName := name KFleet.
Definition CrewName := name KCrew.
Definition AgentName := name KAgent.

(** [TryFrom<String>], and [FromStr] which goes through it: the verdict of
    [validate_name], kept as the newtype's evidence when it is [Ok]. *)
Definition accept (k : name_kind) (value : string) (r : result string unit) :
    validate_name value = r -> result NameError (name k) :=
  match r with
  | Ok _ => fun H => Ok (mkName value (f_equal is_ok H))
  | Err reason => fun _ =>
      Err {| ne_kind := kind_str k; ne_value := value; ne_reason := reason |}
  end.

Definition try_from (k : name_kind) (value : string) : result NameError (name k) :=
  accept k value (validate_name value) eq_refl.

#[export] Instance name_display {k} : Display (name k) := name_str.
#[export] Instance name_from_str {k} : FromStr NameError (name k) := try_from k.

(** ** Agent ids and crew references *)

Record AgentId := { id_fleet : FleetName; id_crew : CrewName; id_agent : AgentName }.
Record CrewRef := { cr_fleet : FleetName; cr_crew : CrewName }.

#[export] Instance agent_id_display : Display AgentId := fun i =>
  to_string (id_fleet i) +:+ "/" +:+ to_string (id_crew i) +:+ "/" +:+ to_string (id_agent i).

#[export] Instance crew_ref_display : Display CrewRef := fun c =>
  to_string (cr_fleet c) +:+ "/" +:+ to_string (cr_crew c).

#[export] Instance agent_id_from_str : FromStr NameError AgentId := fun s =>
  match splitn 4 "/"%char s with
  | [f; c; a] =>
      f' ← from_str f; c' ← from_str c; a' ← from_str a;
      Ok {| id_fleet := f'; id_crew := c'; id_agent := a' |}
  | _ => Err {| ne_kind := "agent id"; ne_value := s;
                ne_reason := "expected exactly fleet/crew/agent" |}
  end.

#[export] Instance crew_ref_from_str : FromStr NameError CrewRef := fun s =>
  let bad := {| ne_kind := "crew ref"; ne_value := s; ne_reason := "expected fleet/crew" |} in
  match split_once "/"%char s with
  | None => Err bad
  | Some (f, c) =>
      if contains c "/" then Err bad
      else f' ← from_str f; c' ← from_str c; Ok {| cr_fleet := f'; cr_crew := c' |}
  end.

Definition crew_ref (i : AgentId) : CrewRef :=
  {| cr_fleet := id_fleet i; cr_crew := id_crew i |}.

(** ** Tool versions *)

Definition numeric_part (p : string) : bool := negb (is_empty p) && bytes_all is_ascii_digit p.

Definition is_exact_version (v : string) : bool :=
  if ends_with v ".x" || contains v "*" || contains v ":" then false
  else if negb (bytes_any is_ascii_digit v) then false
  else
    let numeric_parts := length (filter (fun p => numeric_part p = true) (split_char "."%char v)) in
    let total_parts := length (split_char "."%char v) in
    negb ((numeric_parts =? total_parts) && (total_parts <? 3)).

Definition exact_version_message `{Unicode} (tool version : string) : string :=
  "expected an exact version, got " +:+ debug_str version +:+
  " (try: mise latest " +:+ tool +:+ "@" +:+ version +:+ ")".

(** ** Names: equality, order, parsing *)

Lemma name_eq {k} (a b : name k) : name_str a = name_str b -> a = b.
Proof.
  destruct a as [s Hs], b as [t Ht]; simpl. intros ->. f_equal.
  apply (Eqdep_dec.UIP_dec Bool.bool_dec).
Qed.

#[export] Instance name_str_inj {k} : Inj (=) (=) (@name_str k).
Proof. intros a b. apply name_eq. Qed.

#[export] Instance name_eq_dec {k} : EqDecision (name k).
Proof.
  intros a b. destruct (decide (name_str a = name_str b)) as [H|H].
  - left. by apply name_eq.
  - right. congruence.
Defined.

Lemma accept_cases k s r H :
  (exists n : name k, accept k s r H = Ok n /\ name_str n = s /\ r = Ok tt) \/
  (exists reason, r = Err reason /\
     accept k s r H = Err {| ne_kind := kind_str k; ne_value := s; ne_reason := reason |}).
Proof. destruct r as [[]|reason]; [left|right]; eauto. Qed.

Lemma try_from_Ok k s (n : name k) : try_from k s = Ok n <-> s = name_str n.
Proof.
  unfold try_from.
  destruct (accept_cases k s _ eq_refl) as [(m & H & Hm & _)|(reason & Hr & H)]; rewrite H; clear H.
  - subst s. split; [congruence|]. by intros ->%name_eq.
  - split; [done|]. intros ->. pose proof (name_ok n) as Hn. by rewrite Hr in Hn.
Qed.

Lemma try_from_is_ok k s : is_ok (try_from k s) = is_ok (validate_name s).
Proof.
  unfold try_from.
  by destruct (accept_cases k s _ eq_refl) as [(m & H & _ & Hv)|(reason & Hv & H)];
    rewrite H; rewrite Hv.
Qed.

Lemma try_from_Err k s e :
  try_from k s = Err e <->
  exists reason, validate_name s = Err reason /\
    e = {| ne_kind := kind_str k; ne_value := s; ne_reason := reason |}.
Proof.
  unfold try_from.
  destruct (accept_cases k s _ eq_refl) as [(m & H & _ & Hv)|(reason & Hv & H)];
    rewrite H; rewrite Hv; naive_solver.
Qed.

#[export] Instance name_lawful {k} : DisplayParse NameError (name k).
Proof. intros s n. apply try_from_Ok. Qed.

#[export] Program Instance name_countable {k} : Countable (name k) :=
  inj_countable name_str (fun s => to_option (try_from k s)) _.
Next Obligation.
  intros k n. cbv beta. by rewrite (proj2 (try_from_Ok k _ n) eq_refl).
Qed.

#[export] Instance name_ordered {k} : Ordered (name k) := inj_ordered name_str.

(** ** Agent ids and crew references: equality, the derived order, parsing *)

Definition id_tuple (i : AgentId) : FleetName * (CrewName * AgentName) :=
  (id_fleet i, (id_crew i, id_agent i)).
Definition cr_tuple (c : CrewRef) : FleetName * CrewName := (cr_fleet c, cr_crew c).

#[export] Instance id_tuple_inj : Inj (=) (=) id_tuple.
Proof. intros [] [] [=]. by subst. Qed.
#[export] Instance cr_tuple_inj : Inj (=) (=) cr_tuple.
Proof. intros [] [] [=]. by subst. Qed.

#[export] Instance agent_id_eq_dec : EqDecision AgentId.
Proof. solve_decision. Defined.
#[export] Instance crew_ref_eq_dec : EqDecision CrewRef.
Proof. solve_decision. Defined.

#[export] Program Instance agent_id_countable : Countable AgentId :=
  inj_countable' id_tuple
    (fun t => {| id_fleet := t.1; id_crew := t.2.1; id_agent := t.2.2 |}) _.
Next Obligation. by intros []. Qed.
#[export] Program Instance crew_ref_countable : Countable CrewRef :=
  inj_countable' cr_tuple (fun t => {| cr_fleet := t.1; cr_crew := t.2 |}) _.
Next Obligation. by intros []. Qed.

#[export] Instance agent_id_ordered : Ordered AgentId := inj_ordered id_tuple.
#[export] Instance crew_ref_ordered : Ordered CrewRef := inj_ordered cr_tuple.

Lemma validate_name_Ok s :
  validate_name s = Ok tt <->
  s <> EmptyString /\ String.length s <= 63 /\ bytes_all name_byte s = true /\
  starts_with s "-" = false /\ ends_with s "-" = false.
Proof.
  unfold validate_name, is_empty. case_bool_decide; [naive_solver|].
  destruct (Nat.ltb_spec 63 (String.length s)); [naive_solver lia|].
  destruct (bytes_all name_byte s); simpl; [|naive_solver].
  destruct (starts_with s "-"), (ends_with s "-"); naive_solver.
Qed.

Lemma name_valid {k} (n : name k) : validate_name (name_str n) = Ok tt.
Proof. pose proof (name_ok n). by destruct (validate_name _) as [[]|]. Qed.

Lemma name_lacks {k} (n : name k) c : name_byte c = false -> lacks c (name_str n) = true.
Proof.
  intros Hc. destruct (proj1 (validate_name_Ok _) (name_valid n)) as (_ & _ & Hb & _).
  revert Hb. apply bytes_all_impl. intros a Ha. apply negb_true_iff.
  apply Ascii.eqb_neq. congruence.
Qed.

Lemma name_no_slash {k} (n : name k) : lacks "/"%char (name_str n) = true.
Proof. by apply name_lacks. Qed.

Lemma agent_id_str i :
  to_string i = name_str (id_fleet i) +:+ String "/"
    (name_str (id_crew i) +:+ String "/" (name_str (id_agent i))).
Proof. done. Qed.

Lemma crew_ref_str c :
  to_string c = name_str (cr_fleet c) +:+ String "/" (name_str (cr_crew c)).
Proof. done. Qed.

Lemma splitn4_Some3 c s x y z :
  splitn 4 c s = [x; y; z] <->
  s = x +:+ String c (y +:+ String c z) /\
  lacks c x = true /\ lacks c y = true /\ lacks c z = true.
Proof.
  split.
  - simpl. destruct (split_once c s) as [[a r]|] eqn:E1; [|done].
    destruct (split_once c r) as [[b r']|] eqn:E2; [|done].
    destruct (split_once c r') as [[d r'']|] eqn:E3; [done|].
    intros [= <- <- <-].
    apply split_once_Some in E1 as [-> ?], E2 as [-> ?].
    by apply split_once_None in E3.
  - intros (-> & Hx & Hy & Hz%split_once_None). simpl.
    rewrite (proj2 (split_once_Some c _ x _) (conj eq_refl Hx)).
    rewrite (proj2 (split_once_Some c _ y _) (conj eq_refl Hy)).
    by rewrite Hz.
Qed.

#[export] Instance agent_id_lawful : DisplayParse NameError AgentId.
Proof.
  intros s i. unfold from_str, agent_id_from_str. rewrite agent_id_str. split.
  - destruct (splitn 4 _ s) as [|f [|c [|a [|]]]] eqn:Hs; try done.
    intros H. destruct_result.
    apply splitn4_Some3 in Hs as (-> & _).
    do 3 match goal with H : from_str _ = Ok _ |- _ => apply try_from_Ok in H as -> end.
    done.
  - intros ->.
    rewrite (proj2 (splitn4_Some3 "/"%char _ (name_str (id_fleet i))
      (name_str (id_crew i)) (name_str (id_agent i)))); last first.
    { split; [done|]. by rewrite !name_no_slash. }
    unfold from_str, name_from_str.
    rewrite !(proj2 (try_from_Ok _ _ _) eq_refl). by destruct i.
Qed.

#[export] Instance crew_ref_lawful : DisplayParse NameError CrewRef.
Proof.
  intros s r. unfold from_str, crew_ref_from_str. rewrite crew_ref_str. split.
  - destruct (split_once _ s) as [[f c]|] eqn:Hs; [|done].
    destruct (contains c "/"); [done|]. intros H. destruct_result.
    apply split_once_Some in Hs as [-> _].
    do 2 match goal with H : from_str _ = Ok _ |- _ => apply try_from_Ok in H as -> end.
    done.
  - intros ->. rewrite (proj2 (split_once_Some _ _ _ _) (conj eq_refl (name_no_slash _))).
    rewrite contains_byte, name_no_slash. simpl.
    unfold from_str, name_from_str.
    rewrite !(proj2 (try_from_Ok _ _ _) eq_refl). by destruct r.
Qed.

(** An agent's key starts with ["<fleet>/<crew>/"] exactly when the agent is
    of that crew: a name holds no slash, so ["f/one"] is no prefix of the
    keys of ["f/one-two"]. *)
Lemma split_byte_inj c a b r r' :
  lacks c a = true -> lacks c b = true ->
  a +:+ String c r = b +:+ String c r' -> a = b /\ r = r'.
Proof.
  intros Ha Hb H.
  assert (Some (a, r) = Some (b, r')) as [= -> ->]; [|done].
  rewrite <- (proj2 (split_once_Some c _ a r) (conj eq_refl Ha)).
  by apply split_once_Some.
Qed.

Lemma crew_prefix_spec (i : AgentId) (c : CrewRef) :
  starts_with (to_string i) (to_string c +:+ "/") = true <-> crew_ref i = c.
Proof.
  rewrite starts_with_spec, agent_id_str, crew_ref_str. split.
  - intros [r H]. autorewrite with string in H.
    apply split_byte_inj in H as [Hf H]; [|apply name_no_slash..].
    apply split_byte_inj in H as [Hc _]; [|apply name_no_slash..].
    destruct c. unfold crew_ref. f_equal; by apply name_eq.
  - intros <-. exists (name_str (id_agent i)). simpl.
    by autorewrite with string.
Qed.

(** ** Properties *)

(** The text of an agent id and of a crew reference is a faithful key: a
    text parses to an id exactly when it is that id printed, so two ids never
    share a key, and an agent's key extends ["<fleet>/<crew>/"] exactly when
    the agent is of that crew. *)
Theorem agent_id_text s (i : AgentId) (c : CrewRef) :
  (from_str (E := NameError) s = Ok i <-> s = to_string i) /\
  (from_str (E := NameError) s = Ok c <-> s = to_string c) /\
  (starts_with (to_string i) (to_string c +:+ "/") = true <-> crew_ref i = c).
Proof.
  split_and!; [apply agent_id_lawful|apply crew_ref_lawful|apply crew_prefix_spec].
Qed.
