(* ===== verification/Repo.v ===== *)
(** Repository references ([crates/balerix-core/src/repo.rs]): parsing,
    the clone URL, the GitHub slug, and that the clone URL is a normal form. *)

From S2P Require Import Prelude Str.

Record RepoError := { re_value : string; re_reason : string }.

Inductive RepoRef :=
| GitHub (owner name : string)
| Url (u : string)
| Local (path : string).

#[global] Instance repo_ref_eq_dec : EqDecision RepoRef.
Proof. solve_decision. Defined.

(** [parse_slug]'s [ok] closure. *)
Definition slug_byte (c : ascii) : bool :=
  is_ascii_alphanumeric c || byte_among "-_." c.

Definition slug_part (part : string) : bool :=
  negb (is_empty part) && negb (bool_decide (part = ".")) &&
  negb (bool_decide (part = "..")) && bytes_all slug_byte part.

Definition parse_slug (s : string) : option RepoRef :=
  '(owner, name) ← split_once "/"%char s;
  if slug_part owner && slug_part name then Some (GitHub owner name) else None.

Definition strip_git (s : string) : string := default s (strip_suffix ".git" s).

Definition is_url (s : string) : bool := contains s "://" || (contains s "@" && contains s ":").

(** [RepoRef::parse]. *)
Definition parse (s : string) : result RepoError RepoRef :=
  let err reason := {| re_value := s; re_reason := reason |} in
  let slug_error := err "expected owner/name or a clone URL" in
  if is_empty s then Err (err "empty")
  else match strip_prefix "https://github.com/" s with
  | Some rest => ok_or (parse_slug (strip_git rest)) slug_error
  | None =>
  match strip_prefix "git@github.com:" s with
  | Some rest => ok_or (parse_slug (strip_git rest)) slug_error
  | None =>
  match strip_prefix "file://" s with
  | Some rest =>
      if negb (starts_with rest "/") then Err (err "file:// repos must be absolute paths")
      else Ok (Local rest)
  | None =>
      if is_url s then Ok (Url s)
      else ok_or (parse_slug (strip_git s)) slug_error
  end end end.

(** [clone_url], [github_slug] and [Display]. *)
Definition clone_url (r : RepoRef) : string :=
  match r with
  | GitHub owner name => "https://github.com/" +:+ owner +:+ "/" +:+ name +:+ ".git"
  | Url u => u
  | Local p => "file://" +:+ p
  end.

Definition github_slug (r : RepoRef) : option string :=
  match r with
  | GitHub owner name => Some (owner +:+ "/" +:+ name)
  | Url _ | Local _ => None
  end.

#[global] Instance repo_display : Display RepoRef := clone_url.

(** ** What [parse] produces *)

(** The references a parse can produce. *)
Definition repo_ok (r : RepoRef) : Prop :=
  match r with
  | GitHub owner name => slug_part owner = true /\ slug_part name = true
  | Local p => starts_with p "/" = true
  | Url u => parse u = Ok (Url u)
  end.

Lemma slug_part_no_slash p : slug_part p = true -> lacks "/"%char p = true.
Proof.
  unfold slug_part. intros H. destruct_bools.
  match goal with H : bytes_all _ _ = true |- _ => revert H end.
  apply bytes_all_impl. intros c Hc. apply negb_true_iff, Ascii.eqb_neq.
  by intros ->.
Qed.

Lemma parse_slug_Some s r :
  parse_slug s = Some r <->
  exists owner name, r = GitHub owner name /\ s = owner +:+ String "/" name /\
    slug_part owner = true /\ slug_part name = true.
Proof.
  unfold parse_slug. rewrite bind_Some. split.
  - intros ([o n] & [-> _]%split_once_Some & H).
    destruct (slug_part o) eqn:?, (slug_part n) eqn:?; naive_solver.
  - intros (o & n & -> & -> & Ho & Hn). exists (o, n). split.
    + apply split_once_Some. split; [done|]. by apply slug_part_no_slash.
    + by rewrite Ho, Hn.
Qed.

Lemma parse_repo_ok s r : parse s = Ok r -> repo_ok r.
Proof.
  intros H. pose proof H as Hp. revert H. unfold parse. case_match; [done|].
  repeat case_match; rewrite ?ok_or_Ok, ?parse_slug_Some;
    try (by intros (o & n & -> & _ & ? & ?)); try done.
  - intros [= <-]. simpl. by apply negb_false_iff.
  - intros [= <-]. exact Hp.
Qed.

Lemma parse_clone_url r : repo_ok r -> parse (clone_url r) = Ok r.
Proof.
  destruct r as [o n|u|p]; [intros [Ho Hn]|done|intros Hp]; unfold clone_url, parse.
  - rewrite strip_prefix_app. change (is_empty _) with false. cbv beta iota.
    apply ok_or_Ok, parse_slug_Some. exists o, n. split_and!; try done.
    unfold strip_git. replace (o +:+ "/" +:+ n +:+ ".git")
      with ((o +:+ String "/" n) +:+ ".git") by (by autorewrite with string).
    by rewrite strip_suffix_app.
  - assert (strip_prefix "https://github.com/" ("file://" +:+ p) = None) as -> by done.
    assert (strip_prefix "git@github.com:" ("file://" +:+ p) = None) as -> by done.
    rewrite strip_prefix_app. cbv iota beta. simpl in Hp. by rewrite Hp.
Qed.

Lemma slug_lacks c o n :
  slug_part o = true -> slug_part n = true -> slug_byte c = false -> c <> "/"%char ->
  lacks c (o +:+ String "/" n) = true.
Proof.
  intros Ho Hn Hc Hne. assert (forall p, slug_part p = true -> lacks c p = true) as Hp.
  { intros p Hs. unfold slug_part in Hs. destruct_bools.
    match goal with H : bytes_all _ _ = true |- _ => revert H end.
    apply bytes_all_impl. intros a Ha. apply negb_true_iff, Ascii.eqb_neq. congruence. }
  rewrite lacks_app, lacks_cons, !Hp by done.
  rewrite (proj2 (Ascii.eqb_neq _ _)); done.
Qed.

Lemma lacks_contains c s p : lacks c s = true -> lacks c p = false -> contains s p = false.
Proof.
  intros Hs Hp. apply not_true_iff_false. intros (a & b & ->)%contains_spec.
  rewrite !lacks_app, Hp in Hs. by destruct (lacks c a).
Qed.

Lemma lacks_strip_prefix c s p : lacks c s = true -> lacks c p = false -> strip_prefix p s = None.
Proof.
  intros Hs Hp. destruct (strip_prefix p s) as [r|] eqn:E; [|done].
  apply strip_prefix_Some in E as ->. rewrite lacks_app, Hp in Hs. done.
Qed.

(** The slug, what is printed for GitHub repositories, parses back, unless
    the name itself ends in [.git]: [parse] strips one such suffix. *)
Lemma parse_github_slug r s :
  repo_ok r -> github_slug r = Some s -> ends_with s ".git" = false -> parse s = Ok r.
Proof.
  destruct r as [o n| |]; [|done..]. intros [Ho Hn] [= <-] Hg. unfold parse.
  assert (is_empty (o +:+ "/" +:+ n) = false) as ->.
  { apply bool_decide_eq_false. by destruct o. }
  pose proof (slug_lacks ":"%char o n Ho Hn eq_refl ltac:(done)) as Hcolon.
  change (o +:+ "/" +:+ n) with (o +:+ String "/" n) in *.
  rewrite !(lacks_strip_prefix ":"%char) by done.
  assert (is_url (o +:+ String "/" n) = false) as ->.
  { unfold is_url. rewrite (lacks_contains ":"%char _ "://" Hcolon) by done.
    rewrite (lacks_contains ":"%char _ ":" Hcolon) by done. by rewrite andb_false_r. }
  cbv iota. apply ok_or_Ok, parse_slug_Some. exists o, n. split_and!; try done.
  unfold strip_git. unfold ends_with in Hg. apply bool_decide_eq_false in Hg.
  destruct (strip_suffix _ _); [|done]. by destruct Hg.
Qed.

(** ** Properties *)

(** What [RepoRef::parse] accepts is well formed, its clone URL is a
    normal form that parses to the same reference, and so does the slug of
    a GitHub repository whose name does not itself end in [.git]. *)
Theorem repo_parse_normal_form s r :
  parse s = Ok r ->
  repo_ok r /\ parse (clone_url r) = Ok r /\
  (forall slug, github_slug r = Some slug -> ends_with slug ".git" = false ->
     parse slug = Ok r).
Proof.
  intros H%parse_repo_ok. split_and!; [done|by apply parse_clone_url|].
  intros slug. by apply parse_github_slug.
Qed.

Lemma repo_parse_normal_form_witness :
  parse "git@github.com:acme/payments-api.git" = Ok (GitHub "acme" "payments-api") /\
  parse "https://github.com/acme/payments-api.git" = Ok (GitHub "acme" "payments-api").
Proof.
  assert (parse "git@github.com:acme/payments-api.git" = Ok (GitHub "acme" "payments-api"))
    as H by (vm_compute; reflexivity).
  split; [exact H|]. exact (proj1 (proj2 (repo_parse_normal_form _ _ H))).
Defined.
