(* ===== verification/Rules.v ===== *)
(** The rules the API crate states on strings that reach git, the file
    system and tmux: branch names ([branch.rs]), worktree paths
    ([workspace.rs]), kv keys, plugin actions and attach frames
    ([protocol.rs]), each with what an accepted value is known to satisfy. *)

From S2P Require Import Prelude Str.

Section rules.
Context `{Unicode}.

(** ** Branch names *)

(** The body of [for c in name.chars()]. *)
Definition check_branch_char (c : string) : result string unit :=
  if one_byte is_ascii_control c then Err "contains a control character"
  else if one_byte (Ascii.eqb " "%char) c then Err "contains a space"
  else if one_byte (byte_among "~^:?*[\") c then Err ("contains " +:+ debug_char c)
  else Ok tt.

(** The body of [for component in name.split('/')]. *)
Definition check_branch_component (c : string) : result string unit :=
  if starts_with c "." then Err "a component starts with '.'"
  else if ends_with c ".lock" then
    Err ("a component ends with " +:+ quote +:+ ".lock" +:+ quote)
  else Ok tt.

Definition check_branch_name (name : string) : result string unit :=
  if is_empty name then Err "empty"
  else if 255 <? String.length name then Err "longer than 255 bytes"
  else if bool_decide (name = "@") then Err ("is " +:+ quote +:+ "@" +:+ quote)
  else if starts_with name "-" then Err "starts with '-'"
  else if starts_with name "refs/" then Err ("starts with " +:+ quote +:+ "refs/" +:+ quote)
  else if starts_with name "/" then Err "starts with '/'"
  else if ends_with name "/" then Err "ends with '/'"
  else if ends_with name "." then Err "ends with '.'"
  else if contains name "//" then Err ("contains " +:+ quote +:+ "//" +:+ quote)
  else if contains name ".." then Err ("contains " +:+ quote +:+ ".." +:+ quote)
  else if contains name "@{" then Err ("contains " +:+ quote +:+ "@{" +:+ quote)
  else
    _ ← try_each check_branch_char (chars name);
    try_each check_branch_component (split_char "/"%char name).

(** ** Worktree paths *)

Definition check_path_segment (segment : string) : result string unit :=
  if is_empty segment then Err "empty segment"
  else if bool_decide (segment = ".") || bool_decide (segment = "..") then
    Err (debug_str segment +:+ " segment")
  else if eq_ignore_ascii_case segment ".git" then Err ".git segment"
  else Ok tt.

Definition check_path (path : string) : result string unit :=
  if 4096 <? String.length path then Err "longer than 4096 bytes"
  else if contains path (String (ascii_of_N 0) EmptyString) then Err "contains NUL"
  else if contains path "\" then Err "contains a backslash"
  else if starts_with path "/" then Err "absolute"
  else if is_empty path then Ok tt
  else try_each check_path_segment (split_char "/"%char path).

(** ** Kv keys *)

Definition MAX_KV_KEY : nat := 200.

Definition kv_byte (c : ascii) : bool := is_ascii_alphanumeric c || byte_among "._/-" c.

Definition check_kv_segment (seg : string) : result string unit :=
  if is_empty seg then Err "empty path segment"
  else if bool_decide (seg = ".") || bool_decide (seg = "..") then
    Err ("segment " +:+ debug_str seg +:+ " is not allowed")
  else Ok tt.

Definition check_kv_key (key : string) : result string unit :=
  if is_empty key then Err "empty"
  else if MAX_KV_KEY <? String.length key then Err "longer than 200 bytes"
  else match list_find (fun c => one_byte kv_byte c = false) (chars key) with
  | Some (_, c) => Err ("character " +:+ debug_char c +:+ " is not in [A-Za-z0-9._/-]")
  | None => try_each check_kv_segment (split_char "/"%char key)
  end.

(** ** Plugin actions *)

Inductive Key := Up | Down | Enter | Escape.

Inductive KeyStep :=
| StepKey (k : Key)
| StepText (text : string).

Inductive PluginAction :=
| SendText (text : string) (submit : bool)
| SendKeys (steps : list KeyStep) (delay_ms : N)
| Restart
| Stop.

Definition DEFAULT_KEY_DELAY_MS : N := 100.
Definition MIN_KEY_DELAY_MS : N := 20.
Definition MAX_KEY_DELAY_MS : N := 500.
Definition MAX_KEY_STEPS : nat := 64.
Definition MAX_KEY_TEXT : nat := 1024.
Definition MAX_KEY_SEQUENCE_MS : N := 8000.
Definition MAX_SEND_TEXT : N := 256 * 1024.

(** [str::len]. *)
Definition str_len (s : string) : N := N.of_nat (String.length s).
(** [Vec::len]. *)
Definition vec_len {A} (l : list A) : N := N.of_nat (length l).

Definition label (a : PluginAction) : string :=
  match a with
  | SendText _ _ => "send_text"
  | SendKeys _ _ => "send_keys"
  | Restart => "restart"
  | Stop => "stop"
  end.

(** The body of [for (i, step) in steps.iter().enumerate()]. *)
Definition validate_step (i : nat) (step : KeyStep) : result string unit :=
  match step with
  | StepKey _ => Ok tt
  | StepText text =>
      let at_text := "steps[" +:+ pretty (N.of_nat i) +:+ "].text: " in
      if is_empty text || (N.of_nat MAX_KEY_TEXT <? str_len text)%N then
        Err (at_text +:+ "expected 1 to 1024 bytes, got " +:+ pretty (str_len text))
      else if existsb char_is_control (chars text) then
        Err (at_text +:+ "a control character is not allowed")
      else Ok tt
  end.

Fixpoint validate_steps (i : nat) (steps : list KeyStep) : result string unit :=
  match steps with
  | [] => Ok tt
  | step :: steps' => _ ← validate_step i step; validate_steps (S i) steps'
  end.

(** [u64] multiplication, checked in debug and wrapping in release: the
    bounds above it keep the product far below the width. *)
Definition sequence_ms (steps : list KeyStep) (delay_ms : N) : N :=
  ((vec_len steps * delay_ms) mod (u64_max + 1))%N.

Definition validate (a : PluginAction) : result string unit :=
  match a with
  | SendText text _ =>
      if (MAX_SEND_TEXT <? str_len text)%N then
        Err ("text: expected at most 262144 bytes, got " +:+ pretty (str_len text))
      else Ok tt
  | SendKeys steps delay_ms =>
      let len := length steps in
      if (len =? 0) || (MAX_KEY_STEPS <? len) then
        Err ("steps: expected 1 to 64 steps, got " +:+ pretty (vec_len steps))
      else if negb ((MIN_KEY_DELAY_MS <=? delay_ms)%N && (delay_ms <=? MAX_KEY_DELAY_MS)%N) then
        Err ("delay_ms: expected 20 to 500, got " +:+ pretty delay_ms)
      else
        let total := sequence_ms steps delay_ms in
        if (MAX_KEY_SEQUENCE_MS <? total)%N then
          Err ("steps: " +:+ pretty (vec_len steps) +:+ " steps at " +:+ pretty delay_ms
               +:+ " ms is " +:+ pretty total +:+ " ms, over the 8000 ms limit")
        else validate_steps 0 steps
  | Restart | Stop => Ok tt
  end.
End rules.

(** ** Specifications *)

(** [git check-ref-format --branch], as git documents it: the rules on
    components, on characters and on the whole name. *)
Definition git_forbidden (c : ascii) : bool :=
  is_ascii_control c || byte_among " ~^:?*[\" c.

Record git_branch_ok (name : string) : Prop := {
  gb_components : Forall (fun c =>
    c <> EmptyString /\ starts_with c "." = false /\ ends_with c ".lock" = false)
    (split_char "/"%char name);
  gb_bytes : bytes_all (fun c => negb (git_forbidden c)) name = true;
  gb_no_dotdot : contains name ".." = false;
  gb_no_at_brace : contains name "@{" = false;
  gb_no_trailing_dot : ends_with name "." = false;
}.

(** Lexical resolution of path segments below [stack]: a [..] leaves the
    directory, an empty segment and [.] stay. *)
Fixpoint lexical (stack : list string) (segments : list string) : list string :=
  match segments with
  | [] => stack
  | s :: rest =>
      if is_empty s || bool_decide (s = ".") then lexical stack rest
      else if bool_decide (s = "..") then lexical (removelast stack) rest
      else lexical (stack ++ [s]) rest
  end.

Definition plain_segment (s : string) : Prop := s <> EmptyString /\ s <> "." /\ s <> "..".

Lemma lexical_plain stack segs :
  Forall plain_segment segs -> lexical stack segs = stack ++ segs.
Proof.
  intros H. revert stack; induction H as [|s segs (He & Hd & Hdd) _ IH]; intros stack; simpl.
  { by rewrite app_nil_r. }
  unfold is_empty. rewrite !bool_decide_eq_false_2 by done. simpl.
  rewrite IH. by rewrite <- app_assoc.
Qed.

(** What an action the daemon performs is bounded by, without the width of
    the integers. *)
Definition step_ok (step : KeyStep) : Prop :=
  match step with
  | StepKey _ => True
  | StepText text =>
      (1 <= str_len text <= 1024)%N /\
      Forall (fun c => char_is_control c = false) (chars text)
  end.

Definition action_ok (a : PluginAction) : Prop :=
  match a with
  | SendText text _ => (str_len text <= 256 * 1024)%N
  | SendKeys steps delay_ms =>
      (1 <= vec_len steps <= 64)%N /\ (20 <= delay_ms <= 500)%N /\
      (vec_len steps * delay_ms <= 8000)%N /\ Forall step_ok steps
  | Restart | Stop => True
  end.

(** ** Lemmas *)

Lemma validate_step_Ok `{Unicode} i step : validate_step i step = Ok tt <-> step_ok step.
Proof.
  destruct step as [k|text]; [done|]. unfold validate_step, step_ok, is_empty, str_len.
  change (N.of_nat MAX_KEY_TEXT) with 1024%N.
  case_bool_decide as He; [subst text; split; [done|simpl; lia]|].
  assert (0 < String.length text) by (destruct text; simpl; [done|lia]).
  destruct (N.ltb_spec 1024 (N.of_nat (String.length text))) as [|Hl]; simpl;
    [split; [done|lia]|].
  destruct (existsb char_is_control (chars text)) eqn:Hc.
  - split; [done|]. intros [_ Hf]. apply existsb_exists in Hc as (c & Hin & Hc).
    apply list_elem_of_In in Hin. rewrite Forall_forall in Hf.
    by rewrite Hf in Hc.
  - split; [|done]. intros _. split; [lia|]. apply Forall_forall. intros c Hin.
    apply not_true_iff_false. intros Ht. apply not_true_iff_false in Hc. apply Hc.
    apply existsb_exists. exists c. by rewrite <- list_elem_of_In.
Qed.

Lemma validate_steps_Ok `{Unicode} i steps :
  validate_steps i steps = Ok tt <-> Forall step_ok steps.
Proof.
  revert i; induction steps as [|s steps IH]; intros i; simpl; [by split; [constructor|]|].
  rewrite bind_Ok, Forall_cons. rewrite <- (validate_step_Ok i). split.
  - intros ([] & ? & ?%IH). done.
  - intros [? ?%(IH (S i))]. by exists tt.
Qed.

Lemma is_empty_false s : is_empty s = false <-> s <> EmptyString.
Proof. apply bool_decide_eq_false. Qed.

Lemma check_branch_char_Ok `{Unicode} c :
  check_branch_char c = Ok tt <-> one_byte git_forbidden c = false.
Proof.
  unfold check_branch_char, git_forbidden, one_byte.
  destruct c as [|a [|]]; [done| |done]. rewrite orb_false_iff.
  assert (byte_among " ~^:?*[\" a = Ascii.eqb " "%char a || byte_among "~^:?*[\" a) as ->.
  { unfold byte_among. by rewrite lacks_cons, negb_andb, negb_involutive. }
  rewrite orb_false_iff.
  destruct (is_ascii_control a), (Ascii.eqb " "%char a), (byte_among "~^:?*[\" a);
    split; done || by intros (? & ? & ?).
Qed.

Lemma git_forbidden_ascii a : (128 <=? N_of_ascii a)%N = true -> git_forbidden a = false.
Proof. by destruct a as [[] [] [] [] [] [] [] []]. Qed.

Lemma check_branch_component_Ok c :
  check_branch_component c = Ok tt <->
  starts_with c "." = false /\ ends_with c ".lock" = false.
Proof.
  unfold check_branch_component. destruct (starts_with c "."), (ends_with c ".lock");
    split; done || by intros [? ?].
Qed.

Lemma check_path_segment_Ok `{Unicode} s :
  check_path_segment s = Ok tt <->
  plain_segment s /\ eq_ignore_ascii_case s ".git" = false.
Proof.
  unfold check_path_segment, plain_segment, is_empty.
  repeat case_bool_decide; simpl; try (by split; [|intros [(? & ? & ?) _]]).
  by destruct (eq_ignore_ascii_case _ _); (split; [|intros [_ ?]]).
Qed.

Lemma check_kv_segment_Ok `{Unicode} s : check_kv_segment s = Ok tt <-> plain_segment s.
Proof.
  unfold check_kv_segment, plain_segment, is_empty.
  repeat case_bool_decide; simpl; naive_solver.
Qed.

(** A key of allowed characters is a key of allowed bytes. *)
Lemma kv_bytes_chars key :
  Forall (fun c => one_byte kv_byte c = true) (chars key) <-> bytes_all kv_byte key = true.
Proof.
  induction key as [|a s IH]; simpl; [by split; [|constructor]|].
  rewrite andb_true_iff, <- IH.
  destruct (chars s) as [|[|b h] t]; try (rewrite Forall_cons; done).
  destruct (is_continuation b && _) eqn:Hb; [|by rewrite !Forall_cons].
  apply andb_true_iff in Hb as [_ Ha]. rewrite !Forall_cons. simpl.
  assert (kv_byte a = false) by (revert Ha; clear; by destruct a as [[] [] [] [] [] [] [] []]).
  naive_solver.
Qed.

Lemma no_empty_piece c s :
  s <> EmptyString -> starts_with s (String c EmptyString) = false ->
  ends_with s (String c EmptyString) = false ->
  contains s (String c (String c EmptyString)) = false ->
  Forall (fun x => x <> EmptyString) (split_char c s).
Proof.
  intros H1 H2 H3 H4. apply Forall_forall. intros x Hx ->.
  apply split_char_empty_piece in Hx. intuition congruence.
Qed.

Lemma empty_piece_false c s :
  Forall (fun x => x <> EmptyString) (split_char c s) ->
  s <> EmptyString /\ starts_with s (String c EmptyString) = false /\
  ends_with s (String c EmptyString) = false /\
  contains s (String c (String c EmptyString)) = false.
Proof.
  rewrite Forall_forall. intros H.
  assert (~ EmptyString ∈ split_char c s) as Hn by (intros Hx; by apply H in Hx).
  rewrite split_char_empty_piece in Hn. rewrite <- !not_true_iff_false. tauto.
Qed.

Lemma length_0_empty s : String.length s = 0 <-> s = EmptyString.
Proof. by destruct s. Qed.

(** ** Properties *)

Section properties.
Context `{Unicode}.

(** a branch name is accepted exactly when git's own rules accept it and
    it passes the stricter ones stated here: at most 255 bytes, not a flag
    (no leading [-]), not fully qualified (no leading [refs/]), not [@]. *)
Theorem check_branch_name_git name :
  check_branch_name name = Ok tt <->
  git_branch_ok name /\ String.length name <= 255 /\ name <> "@" /\
  starts_with name "-" = false /\ starts_with name "refs/" = false.
Proof.
  unfold check_branch_name, is_empty.
  case_bool_decide as He.
  { split; [done|]. intros [[Hc _ _ _ _] _]. subst name. simpl in Hc.
    apply Forall_singleton in Hc as [? _]. done. }
  destruct (Nat.ltb_spec 255 (String.length name)); [split; [done|lia]|].
  case_bool_decide as Hat; [by split; [|intros (_ & _ & ? & _)]|].
  destruct (starts_with name "-") eqn:H1; [by split; [|intros (_ & _ & _ & ? & _)]|].
  destruct (starts_with name "refs/") eqn:H2; [by split; [|intros (_ & _ & _ & _ & ?)]|].
  assert (forall x : result string unit,
    (git_branch_ok name -> x = Ok tt) -> (x = Ok tt -> git_branch_ok name) ->
    x = Ok tt <-> git_branch_ok name /\ String.length name <= 255 /\ name <> "@" /\
      false = false /\ false = false) as Hx by (intros; split; [intros; split_and!; auto|tauto]).
  apply Hx; clear Hx.
  - intros [Hc Hb Hdd Hab Hd].
    destruct (empty_piece_false "/"%char name) as (_ & -> & -> & ->).
    { eapply Forall_impl; [exact Hc|]. by intros x [? _]. }
    rewrite Hdd, Hab, Hd. apply bind_Ok. exists tt. split; apply try_each_Ok.
    + eapply Forall_impl; [apply bytes_all_chars; [apply git_forbidden_ascii|exact Hb]|].
      intros c. apply check_branch_char_Ok.
    + eapply Forall_impl; [exact Hc|]. intros c [_ ?]. by apply check_branch_component_Ok.
  - repeat (case_match; [done|]).
    intros ([] & Hc%try_each_Ok & Hs%try_each_Ok)%bind_Ok. split; try done.
    + apply Forall_and. split.
      * by apply no_empty_piece.
      * eapply Forall_impl; [exact Hs|]. intros c. apply check_branch_component_Ok.
    + apply bytes_all_chars; [apply git_forbidden_ascii|].
      eapply Forall_impl; [exact Hc|]. intros c. apply check_branch_char_Ok.
Qed.
(** an accepted worktree path stays below the root: resolving its
    segments from any directory appends them, no segment names [.git] in
    any case, and there is no NUL, no backslash and no leading slash. *)
Theorem check_path_confined path :
  check_path path = Ok tt -> path <> EmptyString ->
  (forall root, lexical root (split_char "/"%char path) = root ++ split_char "/"%char path) /\
  Forall (fun s => eq_ignore_ascii_case s ".git" = false) (split_char "/"%char path) /\
  lacks (ascii_of_N 0) path = true /\ lacks "\"%char path = true /\
  starts_with path "/" = false /\ String.length path <= 4096.
Proof.
  unfold check_path. rewrite !contains_byte.
  destruct (Nat.ltb_spec 4096 (String.length path)); [done|].
  destruct (lacks _ path) eqn:?; [|done]. destruct (lacks "\"%char path) eqn:?; [|done].
  destruct (starts_with path "/") eqn:?; [done|].
  unfold is_empty. case_bool_decide; [done|]. simpl. intros Hs%try_each_Ok _.
  assert (Forall (fun s => plain_segment s /\ eq_ignore_ascii_case s ".git" = false)
    (split_char "/"%char path)) as [Hp Hg]%Forall_and.
  { eapply Forall_impl; [exact Hs|]. intros s. apply check_path_segment_Ok. }
  split_and!; try done. intros root. by apply lexical_plain.
Qed.

(** [check_kv_key] accepts exactly the documented grammar:
    [[A-Za-z0-9._/-]{1,200}], no empty segment, no [.] or [..] segment. *)
Lemma check_kv_key_spec key :
  check_kv_key key = Ok tt <->
  1 <= String.length key <= 200 /\ bytes_all kv_byte key = true /\
  Forall plain_segment (split_char "/"%char key).
Proof.
  unfold check_kv_key, is_empty, MAX_KV_KEY. case_bool_decide as He.
  { subst key. simpl. split; [done|lia]. }
  assert (1 <= String.length key) by (destruct key; simpl; [done|lia]).
  destruct (Nat.ltb_spec 200 (String.length key)); [split; [done|lia]|].
  destruct (list_find _ _) as [[i c]|] eqn:Hf.
  - apply list_find_Some in Hf as (Hi & Hc & _). split; [done|]. intros (_ & Hb & _).
    apply kv_bytes_chars in Hb. rewrite Forall_forall in Hb.
    rewrite Hb in Hc; [done|]. by eapply list_elem_of_lookup_2.
  - apply list_find_None in Hf. rewrite try_each_Ok.
    assert (bytes_all kv_byte key = true).
    { apply kv_bytes_chars. eapply Forall_impl; [exact Hf|]. intros c Hc.
      by apply not_false_iff_true. }
    split.
    + intros Hs. split_and!; [done..|]. eapply Forall_impl; [exact Hs|].
      intros s. apply check_kv_segment_Ok.
    + intros (_ & _ & Hs). eapply Forall_impl; [exact Hs|].
      intros s. apply check_kv_segment_Ok.
Qed.

(** [PluginAction::validate] accepts exactly the actions within the
    documented bounds; the sequence time is the exact product, since the
    two checks before it keep the [u64] multiplication from wrapping. *)
Theorem validate_action_ok a : validate a = Ok tt <-> action_ok a.
Proof.
  destruct a as [text submit|steps delay| |]; simpl; [|..|done|done].
  - unfold MAX_SEND_TEXT. destruct (N.ltb_spec (256 * 1024) (str_len text));
      split; (done || lia).
  - unfold MAX_KEY_STEPS, MIN_KEY_DELAY_MS, MAX_KEY_DELAY_MS, MAX_KEY_SEQUENCE_MS,
      sequence_ms, vec_len.
    destruct (Nat.eqb_spec (length steps) 0); simpl; [split; [done|lia]|].
    destruct (Nat.ltb_spec 64 (length steps)); [split; [done|lia]|].
    destruct (N.leb_spec 20 delay); simpl; [|split; [done|lia]].
    destruct (N.leb_spec delay 500); simpl; [|split; [done|lia]].
    rewrite N.mod_small by (unfold u64_max; nia).
    destruct (N.ltb_spec 8000 (N.of_nat (length steps) * delay)); [split; [done|lia]|].
    rewrite validate_steps_Ok. split; [|tauto]. intros; split_and!; (done || lia).
Qed.
End properties.

Lemma check_path_confined_witness :
  lexical ["srv"; "tree"] (split_char "/"%char "src/.github/ci.yml") =
  ["srv"; "tree"; "src"; ".github"; "ci.yml"].
Proof.
  rewrite (proj1 (@check_path_confined (fun _ => false) "src/.github/ci.yml"
    ltac:(vm_compute; reflexivity) ltac:(discriminate))).
  vm_compute. reflexivity.
Defined.
