(* ===== verification/Json.v ===== *)
(** JSON values as the code handles them ([serde_json::Value] with a
    [BTreeMap] object), and the layered merge of settings blocks
    ([crates/balerix-config/src/merge.rs]). *)

From S2P Require Import Prelude Str BTree.

(** ** Values *)

(** A number is an unsigned, a negative or a floating value, the last kept
    by its bits: the code only compares and forwards it. *)
Inductive number :=
| PosInt (n : N)
| NegInt (z : Z)
| Float (bits : N).

Inductive Value :=
| Null
| VBool (b : bool)
| VNumber (n : number)
| VString (s : string)
| VArray (l : list Value)
| VObject (m : gmap string Value).

#[export] Instance number_eq_dec : EqDecision number.
Proof. solve_decision. Defined.

#[export] Instance value_eq_dec : EqDecision Value.
Proof.
  refine (fix go v1 v2 :=
    let _ : EqDecision Value := go in
    match v1, v2 with
    | Null, Null => left eq_refl
    | VBool a, VBool b => cast_if (decide (a = b))
    | VNumber a, VNumber b => cast_if (decide (a = b))
    | VString a, VString b => cast_if (decide (a = b))
    | VArray a, VArray b => cast_if (decide (a = b))
    | VObject a, VObject b => cast_if (decide (a = b))
    | _, _ => right _
    end); congruence.
Defined.

Fixpoint value_size (v : Value) : nat :=
  match v with
  | VArray l => S (foldr (fun x n => value_size x + n) 0 l)
  | VObject m => S (map_fold (fun _ x n => value_size x + n) 0 m)
  | _ => 1
  end.

Lemma size_entry m k v : m !! k = Some v -> value_size v < value_size (VObject m).
Proof.
  intros Hk. simpl. rewrite (map_fold_delete_L _ _ k v m); [lia|lia|done].
Qed.

Lemma size_element l v : v ∈ l -> value_size v < value_size (VArray l).
Proof. simpl. induction 1; simpl in *; lia. Qed.

(** Induction with the hypothesis for the elements and the entries. *)
Lemma value_ind' (P : Value -> Prop) :
  P Null -> (forall b, P (VBool b)) -> (forall n, P (VNumber n)) ->
  (forall s, P (VString s)) ->
  (forall l, (forall v, v ∈ l -> P v) -> P (VArray l)) ->
  (forall m, (forall k v, m !! k = Some v -> P v) -> P (VObject m)) ->
  forall v, P v.
Proof.
  intros H1 H2 H3 H4 H5 H6 v.
  assert (forall n v, value_size v < n -> P v) as H; [|by apply (H (S (value_size v))); lia].
  clear v. intros n. induction n as [|n IH]; [lia|]. intros [| | | |l|m] Hn; auto.
  - apply H5. intros v Hv. apply IH. apply size_element in Hv. lia.
  - apply H6. intros k v Hv. apply IH. apply size_entry in Hv. lia.
Qed.

Definition is_null (v : Value) : bool := match v with Null => true | _ => false end.
Definition as_object (v : Value) : option (gmap string Value) :=
  match v with VObject m => Some m | _ => None end.
Definition as_array (v : Value) : option (list Value) :=
  match v with VArray l => Some l | _ => None end.
Definition as_str (v : Value) : option string :=
  match v with VString s => Some s | _ => None end.
Definition as_bool (v : Value) : option bool :=
  match v with VBool b => Some b | _ => None end.

(** [Value::get] with a string key. *)
Definition get (v : Value) (k : string) : option Value := m ← as_object v; m !! k.

(** [Value::pointer] along object keys, given as its segments. *)
Fixpoint pointer (v : Value) (path : list string) : option Value :=
  match path with
  | [] => Some v
  | k :: path' => v' ← get v k; pointer v' path'
  end.

(** ** Loops over a map that build a map *)

(** [for (k, v) in m { if let Some(w) = f(k, v) { out.insert(k, w); } }]. *)
Definition insert_each {A B} (f : string -> A -> option B) (m : gmap string A)
    (out : gmap string B) : gmap string B :=
  map_fold (fun k v out => match f k v with Some w => <[k := w]> out | None => out end) out m.

Lemma lookup_insert_each {A B} (f : string -> A -> option B) m out k :
  insert_each f m out !! k =
    match m !! k ≫= f k with Some w => Some w | None => out !! k end.
Proof.
  unfold insert_each. apply (map_fold_weak_ind (fun r m => r !! k =
    match m !! k ≫= f k with Some w => Some w | None => out !! k end)).
  - by rewrite lookup_empty.
  - intros i x m' r Hi IH. destruct (decide (i = k)) as [->|Hne].
    + rewrite lookup_insert_eq. simpl. rewrite Hi in IH. simpl in IH.
      destruct (f k x); [by rewrite lookup_insert_eq|done].
    + rewrite (lookup_insert_ne m') by done. rewrite <- IH.
      destruct (f i x); [by rewrite lookup_insert_ne|done].
Qed.

(** ** [merge.rs] *)

(** Removes [null] map entries at every depth; array elements are kept. *)
Fixpoint strip_nulls (v : Value) : Value :=
  match v with
  | VObject m =>
      VObject (map_fold (fun k v out =>
        match (if is_null v then None else Some (strip_nulls v)) with
        | Some w => <[k := w]> out
        | None => out
        end) ∅ m)
  | VArray a => VArray (strip_nulls <$> a)
  | other => other
  end.

(** Merges [overlay] onto [base]: the two loops over the maps, the second one
    recursing on the overlay's entries. *)
Fixpoint merge (base overlay : Value) {struct overlay} : Value :=
  match overlay with
  | VObject o =>
      match base with
      | VObject b =>
          let out := insert_each (fun k bv =>
            if negb (bool_decide (is_Some (o !! k))) && negb (is_null bv)
            then Some (strip_nulls bv) else None) b ∅ in
          VObject (map_fold (fun k ov out =>
            match (if is_null ov then None
                   else Some (match b !! k with
                              | Some bv => merge bv ov
                              | None => strip_nulls ov
                              end)) with
            | Some w => <[k := w]> out
            | None => out
            end) out o)
      | _ => strip_nulls overlay
      end
  | Null => strip_nulls base
  | _ => strip_nulls overlay
  end.

(** Folds [layers] left to right onto an empty map; later layers win. *)
Definition merge_layers (layers : list Value) : Value :=
  foldl merge (VObject ∅) layers.

(** ** Merge, entry by entry *)

Definition strip_entry (v : Value) : option Value :=
  if is_null v then None else Some (strip_nulls v).

Definition merge_entry (bv ov : option Value) : option Value :=
  match ov with
  | None => bv ≫= strip_entry
  | Some ov =>
      if is_null ov then None
      else Some (match bv with Some bv => merge bv ov | None => strip_nulls ov end)
  end.

Lemma strip_nulls_object m :
  exists m', strip_nulls (VObject m) = VObject m' /\
    forall k, m' !! k = m !! k ≫= strip_entry.
Proof.
  eexists. split; [reflexivity|]. intros k.
  etrans; [exact (lookup_insert_each (fun _ v => strip_entry v) m ∅ k)|].
  rewrite lookup_empty. by destruct (m !! k ≫= _).
Qed.

Lemma merge_object b o :
  exists r, merge (VObject b) (VObject o) = VObject r /\
    forall k, r !! k = merge_entry (b !! k) (o !! k).
Proof.
  eexists. split; [reflexivity|]. intros k.
  etrans; [apply (lookup_insert_each (fun k ov => if is_null ov then None
    else Some (match b !! k with Some bv => merge bv ov | None => strip_nulls ov end)))|].
  rewrite (lookup_insert_each (fun k bv =>
    if negb (bool_decide (is_Some (o !! k))) && negb (is_null bv)
    then Some (strip_nulls bv) else None) b ∅ k), lookup_empty.
  unfold merge_entry, strip_entry. destruct (o !! k) as [ov|]; simpl.
  - destruct (is_null ov); [|done]. by destruct (b !! k).
  - destruct (b !! k) as [bv|]; [|done]. simpl. by destruct (is_null bv).
Qed.

Lemma merge_non_object b o :
  as_object b = None \/ as_object o = None -> o <> Null -> merge b o = strip_nulls o.
Proof. intros [|] ?; destruct b, o; done. Qed.

Lemma value_object_dec v : (exists m, v = VObject m) \/ as_object v = None.
Proof. destruct v; eauto. Qed.

Lemma object_ext m m' : (forall k, m !! k = m' !! k) -> VObject m = VObject m'.
Proof. intros. f_equal. by apply map_eq. Qed.

Lemma is_null_true v : is_null v = true <-> v = Null.
Proof. by destruct v. Qed.
Lemma is_null_false v : is_null v = false <-> v <> Null.
Proof. by destruct v. Qed.

(** ** No [null] entry at any depth *)

Fixpoint no_nulls (v : Value) : bool :=
  match v with
  | VObject m => map_fold (fun _ v ok => ok && negb (is_null v) && no_nulls v) true m
  | VArray l => forallb no_nulls l
  | _ => true
  end.

Lemma no_nulls_object m :
  no_nulls (VObject m) = true <->
  forall k v, m !! k = Some v -> v <> Null /\ no_nulls v = true.
Proof.
  simpl. apply (map_fold_weak_ind (fun (ok : bool) m => ok = true <->
    forall k v, m !! k = Some v -> v <> Null /\ no_nulls v = true)).
  - by split.
  - intros i x m' r Hi IH. rewrite !andb_true_iff, IH, negb_true_iff, is_null_false. split.
    + intros [[H1 H2] H3] k v [[<- <-]|[_ ?]]%lookup_insert_Some; eauto.
    + intros H. split_and!.
      * intros k v Hk. apply (H k v). rewrite lookup_insert_ne; [done|congruence].
      * apply (H i x). by rewrite lookup_insert_eq.
      * apply (H i x). by rewrite lookup_insert_eq.
Qed.

Lemma no_nulls_array l :
  no_nulls (VArray l) = true <-> forall v, v ∈ l -> no_nulls v = true.
Proof.
  simpl. rewrite forallb_forall. by setoid_rewrite list_elem_of_In.
Qed.

Lemma strip_nulls_not_null v : v <> Null -> strip_nulls v <> Null.
Proof. by destruct v. Qed.

Lemma strip_nulls_no_nulls v : no_nulls (strip_nulls v) = true.
Proof.
  induction v as [| | | |l IH|m IH] using value_ind'; try done.
  - change (strip_nulls (VArray l)) with (VArray (strip_nulls <$> l)).
    apply no_nulls_array. intros v (x & -> & Hx)%list_elem_of_fmap. eauto.
  - destruct (strip_nulls_object m) as (m' & -> & Hm). apply no_nulls_object.
    intros k v. rewrite Hm, bind_Some. intros (x & Hx & Hv). unfold strip_entry in Hv.
    destruct (is_null x) eqn:Hn; [done|]. apply is_null_false in Hn. injection Hv as <-.
    eauto using strip_nulls_not_null.
Qed.

Lemma merge_not_null b o : o <> Null -> merge b o <> Null.
Proof. by destruct b, o. Qed.

Lemma merge_null_r b : merge b Null = strip_nulls b.
Proof. by destruct b. Qed.

(** Every merge is a strip at a leaf or a map of merges: the case analysis
    all of the following proofs share. *)
Lemma merge_ind (P : Value -> Value -> Prop) :
  (forall b, P b Null) ->
  (forall b o, as_object b = None \/ as_object o = None -> o <> Null -> P b o) ->
  (forall b o, (forall k ov, o !! k = Some ov -> forall bv, P bv ov) ->
     P (VObject b) (VObject o)) ->
  forall b o, P b o.
Proof.
  intros H1 H2 H3 b o. revert b.
  induction o as [| | | | |o IH] using value_ind'; intros base;
    try (apply H2; auto; done).
  - apply H1.
  - destruct (value_object_dec base) as [[mb ->]|]; [by apply H3|]. by apply H2; [left|].
Qed.

Lemma merge_no_nulls_lemma b o : no_nulls (merge b o) = true.
Proof.
  revert b o. apply merge_ind.
  - intros b. rewrite merge_null_r. apply strip_nulls_no_nulls.
  - intros b o H ?. rewrite merge_non_object by done. apply strip_nulls_no_nulls.
  - intros b o IH. destruct (merge_object b o) as (r & -> & Hr). apply no_nulls_object.
    intros k v. rewrite Hr. unfold merge_entry, strip_entry.
    destruct (o !! k) as [ov|] eqn:Ho.
    + destruct (is_null ov) eqn:Hn; [done|]. apply is_null_false in Hn. intros [= <-].
      destruct (b !! k); split; eauto using merge_not_null, strip_nulls_not_null,
        strip_nulls_no_nulls.
    + rewrite bind_Some. intros (x & _ & Hv). destruct (is_null x) eqn:Hn; [done|].
      apply is_null_false in Hn. injection Hv as <-.
      eauto using strip_nulls_not_null, strip_nulls_no_nulls.
Qed.

(** ** Repeated layers *)

Lemma strip_nulls_array l : strip_nulls (VArray l) = VArray (strip_nulls <$> l).
Proof. done. Qed.

Lemma no_nulls_strip v : no_nulls v = true -> strip_nulls v = v.
Proof.
  induction v as [| | | |l IH|m IH] using value_ind'; try done.
  - rewrite no_nulls_array, strip_nulls_array. intros H. f_equal.
    rewrite <- (list_fmap_id l) at 2. apply list_fmap_ext. intros i x Hi.
    apply list_elem_of_lookup_2 in Hi. by apply IH, H.
  - rewrite no_nulls_object. intros H. destruct (strip_nulls_object m) as (m' & -> & Hm).
    apply object_ext. intros k. rewrite Hm. destruct (m !! k) as [v|] eqn:Hk; [|done].
    simpl. destruct (H k v Hk) as [Hn Hv]. unfold strip_entry.
    apply is_null_false in Hn. rewrite Hn. f_equal. eauto.
Qed.

Lemma strip_nulls_idemp v : strip_nulls (strip_nulls v) = strip_nulls v.
Proof. apply no_nulls_strip, strip_nulls_no_nulls. Qed.

(** Merging a layer onto what it already determined changes nothing. *)
Lemma merge_strip_self o : merge (strip_nulls o) o = strip_nulls o.
Proof.
  induction o as [| | | |l|m IH] using value_ind'; try done.
  destruct (strip_nulls_object m) as (m' & Hs & Hm). rewrite Hs.
  destruct (merge_object m' m) as (r & -> & Hr). apply object_ext. intros k.
  rewrite Hr, Hm. destruct (m !! k) as [v|] eqn:Hk; [|done].
  simpl. unfold strip_entry. destruct (is_null v) eqn:Hn; [done|]. f_equal. eauto.
Qed.

Lemma merge_repeat b o : merge (merge b o) o = merge b o.
Proof.
  revert b o. apply merge_ind.
  - intros b. rewrite !merge_null_r. apply strip_nulls_idemp.
  - intros b o H ?. rewrite (merge_non_object b o) by done. apply merge_strip_self.
  - intros b o IH. destruct (merge_object b o) as (r & -> & Hr).
    destruct (merge_object r o) as (r' & -> & Hr'). apply object_ext. intros k.
    rewrite Hr', Hr. destruct (o !! k) as [ov|] eqn:Ho; simpl.
    + destruct (is_null ov); [done|]. f_equal. destruct (b !! k) as [bv|].
      * eauto.
      * apply merge_strip_self.
    + destruct (b !! k) as [bv|]; [|done]. simpl. unfold strip_entry.
      destruct (is_null bv) eqn:Hn; [done|]. simpl.
      assert (is_null (strip_nulls bv) = false) as ->.
      { apply is_null_false, strip_nulls_not_null. by apply is_null_false. }
      by rewrite strip_nulls_idemp.
Qed.

(** ** Paths an overlay does not touch *)

(** Walking [path] from [o], every value met before the path ends is an
    object and the walk stops at a missing key. *)
Fixpoint untouched (o : Value) (path : list string) : bool :=
  match path, o with
  | k :: path', VObject m =>
      match m !! k with None => true | Some v => untouched v path' end
  | _, _ => false
  end.

Lemma untouched_pointer_strip o path :
  untouched o path = true -> pointer (strip_nulls o) path = None.
Proof.
  revert o; induction path as [|k path IH]; intros [| | | | |m]; try done.
  simpl untouched. intros H. destruct (strip_nulls_object m) as (m' & -> & Hm).
  simpl. unfold get. simpl. rewrite Hm. destruct (m !! k) as [v|]; [|done].
  simpl. unfold strip_entry. destruct (is_null v); [done|]. by apply IH.
Qed.

Lemma untouched_not_null o path : untouched o path = true -> is_null o = false.
Proof. by destruct o, path. Qed.

Lemma untouched_pointer_merge b o path :
  untouched o path = true -> pointer (merge b o) path = pointer (strip_nulls b) path.
Proof.
  revert b o; induction path as [|k path IH]; intros b [| | | | |m]; try done.
  intros H. pose proof (untouched_pointer_strip _ _ H) as Hs.
  destruct (value_object_dec b) as [[mb ->]|Hb]; last first.
  { rewrite merge_non_object, Hs by auto. by destruct b. }
  destruct (merge_object mb m) as (r & -> & Hr).
  destruct (strip_nulls_object mb) as (mb' & -> & Hmb).
  simpl in H |- *. unfold get; simpl. rewrite Hr, Hmb.
  destruct (m !! k) as [v|] eqn:Hk; [|by destruct (mb !! k)].
  simpl. rewrite (untouched_not_null _ _ H). simpl.
  destruct (mb !! k) as [bv|]; simpl.
  - rewrite IH by done. unfold strip_entry. destruct (is_null bv) eqn:Hn; [|done].
    apply is_null_true in Hn as ->. by destruct path, v.
  - by apply untouched_pointer_strip.
Qed.

(** ** Properties *)

(** the settings merge, key by key: a key of the overlay wins (recursively
    when both hold a map), an overlay [null] deletes the key, every other key
    of the base is kept; and no [null] entry is left at any depth of the
    result, whatever the layers hold. *)
Theorem merge_spec b o :
  no_nulls (merge b o) = true /\
  (forall mb mo, b = VObject mb -> o = VObject mo ->
     exists r, merge b o = VObject r /\
     forall k, r !! k =
       match mo !! k with
       | Some Null => None
       | Some ov => Some (match mb !! k with Some bv => merge bv ov | None => strip_nulls ov end)
       | None => match mb !! k with Some Null | None => None | Some bv => Some (strip_nulls bv) end
       end) /\
  ((as_object b = None \/ as_object o = None) -> o <> Null -> merge b o = strip_nulls o).
Proof.
  split_and!; [apply merge_no_nulls_lemma| |apply merge_non_object].
  intros mb mo -> ->. destruct (merge_object mb mo) as (r & Hm & Hr). exists r. split; [done|].
  intros k. rewrite Hr. unfold merge_entry, strip_entry.
  destruct (mo !! k) as [[]|]; [done..|]. by destruct (mb !! k) as [[]|].
Qed.

(** A layer applied twice in a row is a layer applied once, so resolving
    with a repeated layer cannot change a fleet's settings. *)
Theorem merge_layers_repeat layers1 layer layers2 :
  merge_layers (layers1 ++ layer :: layer :: layers2) =
  merge_layers (layers1 ++ layer :: layers2).
Proof.
  unfold merge_layers. rewrite !foldl_app. simpl. by rewrite merge_repeat.
Qed.
