(* ===== verification/Paths.v ===== *)
(** Unix paths as [std::path] reads them: components, prefixes by
    component, joining. A path is its string. *)

From S2P Require Import Prelude Str.

Inductive Component :=
| RootDir
| CurDir
| ParentDir
| Normal (s : string).

#[export] Instance component_eq_dec : EqDecision Component.
Proof. solve_decision. Defined.

Definition is_absolute (p : string) : bool := starts_with p "/".

(** A segment past the first one: empty segments and [.] are skipped. *)
Definition component (s : string) : option Component :=
  if is_empty s || bool_decide (s = ".") then None
  else if bool_decide (s = "..") then Some ParentDir
  else Some (Normal s).

(** [Path::components]: a leading [.] of a relative path is kept. *)
Definition components (p : string) : list Component :=
  if is_absolute p then RootDir :: omap component (split_char "/"%char p)
  else match split_char "/"%char p with
       | first :: rest =>
           (if bool_decide (first = ".") then [CurDir] else omap component [first])
           ++ omap component rest
       | [] => []
       end.

(** [Path::starts_with]: whole components. *)
Definition path_starts_with (p prefix : string) : bool :=
  bool_decide (components prefix `prefix_of` components p).

(** [Path::join]: an absolute argument replaces. *)
Definition path_join (a b : string) : string :=
  if is_absolute b then b
  else if is_empty a || ends_with a "/" then a +:+ b
  else a +:+ "/" +:+ b.

(** A path whose components hold no [..] stays below each of its prefixes. *)
Definition no_parent_dir (p : string) : bool := negb (bool_decide (ParentDir ∈ components p)).

Lemma no_parent_dir_spec p :
  no_parent_dir p = true <-> Forall (fun s => s <> "..") (split_char "/"%char p).
Proof.
  unfold no_parent_dir, components. rewrite negb_true_iff, bool_decide_eq_false.
  assert (forall l : list string, ParentDir ∈ omap component l <-> ".." ∈ l) as Hl.
  { intros l. rewrite list_elem_of_omap. split.
    - intros (s & Hs & Hc). unfold component in Hc.
      destruct (is_empty s || _); [done|]. case_bool_decide; naive_solver.
    - intros H. by exists "..". }
  assert (forall l : list string, Forall (fun s => s <> "..") l <-> ~ ".." ∈ l) as Hf.
  { intros l. rewrite Forall_forall. naive_solver. }
  rewrite Hf. destruct (is_absolute p).
  - rewrite elem_of_cons, Hl. naive_solver.
  - destruct (split_char _ p) as [|f r]; [by rewrite !elem_of_nil|].
    rewrite elem_of_app, Hl, elem_of_cons. case_bool_decide; subst.
    + rewrite elem_of_cons, elem_of_nil. naive_solver.
    + rewrite Hl, elem_of_cons, elem_of_nil. naive_solver.
Qed.
