(* ===== verification/SandboxBlock.v ===== *)
(** What a [sandbox] block may set ([crates/balerix-core/src/sandbox.rs]):
    the key allowlist, the literal-path rule, the grants the walk returns,
    and that what passes hands nothing else out. *)

From S2P Require Import Prelude Str BTree Paths Json.

(** ** Data *)

Inductive SandboxPolicy := PolicyPlugin | PolicyFleet.
Inductive Access := AccessRead | AccessWrite | AccessSocket.

#[export] Instance policy_eq_dec : EqDecision SandboxPolicy.
Proof. solve_decision. Defined.
#[export] Instance access_eq_dec : EqDecision Access.
Proof. solve_decision. Defined.

Record BlockGrant := { bg_at : string; bg_raw : string; bg_path : string; bg_access : Access }.
Record SandboxRefusal := { sr_at : string; sr_message : string }.

Definition refuse (at_ message : string) : SandboxRefusal :=
  {| sr_at := at_; sr_message := message |}.

(** [SandboxRefusal::path_under]. *)
Definition path_under (r : SandboxRefusal) (prefix : string) : string :=
  if is_empty prefix then sr_at r
  else if is_empty (sr_at r) then prefix
  else prefix +:+ "." +:+ sr_at r.

(** ** The allowlists *)

Definition refusal (p : SandboxPolicy) : string :=
  match p with
  | PolicyPlugin => "not accepted in a plugin's sandbox block"
  | PolicyFleet => "not accepted in a fleet's sandbox block"
  end.

Definition SANDBOX_OSES := ["linux"; "macos"; "windows"].
Definition GRANT_KEYS := ["read"; "read_file"; "allow"; "allow_file"; "write"; "write_file"].
Definition UNIX_SOCKET_KEYS :=
  ["unix_socket"; "unix_socket_bind"; "unix_socket_dir"; "unix_socket_dir_bind";
   "unix_socket_subtree"; "unix_socket_subtree_bind"].
Definition NETWORK_KEYS :=
  ["block"; "allow_http2"; "network_profile"; "allow_domain"; "deny_domain"; "open_port";
   "open_port_range"; "connect_port"; "listen_port"; "listen_port_range"; "no_proxy";
   "upstream_proxy"; "upstream_bypass"].
Definition SECURITY_KEYS := ["ipc_mode"].
Definition IPC_MODE := "shared_memory_only".
Definition ENVIRONMENT_OWNED := "balerix-owned; set variables through `env` instead".
Definition META_OWNED := "balerix-owned".
Definition SIGNAL_MODE_OWNED := "balerix-owned; agents stay signal-isolated".
Definition REFUSED_PREFIXES := ["/proc"; "/dev/fd"].

Definition str_in (s : string) (l : list string) : bool := bool_decide (s ∈ l).

Definition grant_access (key : string) : option Access :=
  if str_in key ["read"; "read_file"] then Some AccessRead
  else if str_in key ["allow"; "allow_file"; "write"; "write_file"] then Some AccessWrite
  else None.

(** [SandboxPolicy::access]: [Some None] is a list that grants nothing. *)
Definition access (p : SandboxPolicy) (key : string) : option (option Access) :=
  match grant_access key with
  | Some a => Some (Some a)
  | None =>
      if bool_decide (key = "deny") then Some None
      else if bool_decide (p = PolicyFleet) && str_in key UNIX_SOCKET_KEYS
      then Some (Some AccessSocket) else None
  end.

(** ** Entries *)

(** [entry_text]: a string, or [{ path, when }] with a string path. *)
Definition entry_text (v : Value) : option string :=
  match v with
  | VString s => Some s
  | VObject m =>
      if forallb (fun k => str_in k ["path"; "when"]) (keys m)
      then m !! "path" ≫= as_str else None
  | _ => None
  end.

(** [literal_path]. *)
Definition literal_path (raw : string) : result string string :=
  if starts_with raw "~" then Err (raw +:+ ": `~` is not expanded; name an absolute path")
  else if contains raw "$" then
    Err (raw +:+ ": variables are not expanded; name an absolute path")
  else if bytes_any (byte_among "*?[{") raw then
    Err (raw +:+ ": glob patterns (`*`, `?`, `[`, `{`) are not accepted; name a literal path")
  else if negb (is_absolute raw) then Err (raw +:+ ": must be an absolute path")
  else if negb (no_parent_dir raw) then Err (raw +:+ ": must not contain `..`")
  else if existsb (path_starts_with raw) REFUSED_PREFIXES then
    Err (raw +:+ ": paths under /proc and /dev/fd are not accepted")
  else Ok raw.

(** ** The walk *)

Definition object (v : Value) (at_ : string) : result SandboxRefusal (gmap string Value) :=
  ok_or (as_object v) (refuse at_ "expected an object").

Section walk.
Context `{Unicode} (policy : SandboxPolicy).

Definition not_accepted (at_ : string) : SandboxRefusal := refuse at_ (refusal policy).

Definition keys_in (value : Value) (at_ : string) (allowed : list string)
    : result SandboxRefusal unit :=
  m ← object value at_;
  match list_find (fun k => str_in k allowed = false) (keys m) with
  | Some (_, k) => Err (not_accepted (at_ +:+ "." +:+ k))
  | None => Ok tt
  end.

Definition security (value : Value) (at_ : string) : result SandboxRefusal unit :=
  security ← object value at_;
  _ ← ensure (negb (bool_decide (is_Some (security !! "signal_mode"))))
        (refuse (at_ +:+ ".signal_mode") SIGNAL_MODE_OWNED);
  _ ← keys_in value at_ SECURITY_KEYS;
  match security !! "ipc_mode" with
  | Some mode =>
      ensure (bool_decide (as_str mode = Some IPC_MODE))
        (refuse (at_ +:+ ".ipc_mode") ("only " +:+ debug_str IPC_MODE +:+ " is accepted"))
  | None => Ok tt
  end.

Definition is_string (v : Value) : bool := match v with VString _ => true | _ => false end.

Definition network (value : Value) (at_ : string) : result SandboxRefusal unit :=
  _ ← keys_in value at_ NETWORK_KEYS;
  m ← object value at_;
  match m !! "allow_domain" with
  | None => Ok tt
  | Some domains =>
      let list_at := at_ +:+ ".allow_domain" in
      match domains with
      | VArray items =>
          match list_find (fun d => is_string d = false) items with
          | Some (i, _) =>
              Err (refuse (list_at +:+ "[" +:+ pretty (N.of_nat i) +:+ "]")
                     "expected a domain string; endpoint rules are not accepted")
          | None => Ok tt
          end
      | _ => Err (refuse list_at "expected an array")
      end
  end.

(** The body of [for (i, item) in items.iter().enumerate()]. *)
Definition fs_item (list_at : string) (acc : option Access) (x : nat * Value)
    : result SandboxRefusal (list BlockGrant) :=
  let '(i, item) := x in
  let entry_at := list_at +:+ "[" +:+ pretty (N.of_nat i) +:+ "]" in
  raw ← ok_or (entry_text item)
          (refuse entry_at "expected a path string or { path, when }");
  path ← map_err (refuse entry_at) (literal_path raw);
  Ok (match acc with
      | Some a => [{| bg_at := entry_at; bg_raw := raw; bg_path := path; bg_access := a |}]
      | None => []
      end).

(** The body of [for (key, entries) in fs]. *)
Definition fs_list (at_ : string) (e : string * Value) : result SandboxRefusal (list BlockGrant) :=
  let '(key, items) := e in
  let list_at := at_ +:+ "." +:+ key in
  acc ← ok_or (access policy key) (not_accepted list_at);
  items ← ok_or (as_array items) (refuse list_at "expected an array");
  try_concat (fs_item list_at acc) (imap pair items).

Definition filesystem (fs : gmap string Value) (at_ : string)
    : result SandboxRefusal (list BlockGrant) :=
  try_concat (fs_list at_) (entries fs).

(** [Walk::block]. [patch] is the recursive call, present at the top level
    only ([top]): a patch's own [platform_overrides] is refused. *)
Definition block_entry
    (patch : option (gmap string Value -> string -> result SandboxRefusal (list BlockGrant)))
    (prefix : string) (e : string * Value) : result SandboxRefusal (list BlockGrant) :=
  let '(key, value) := e in
  let at_ := prefix +:+ key in
  let no_grants (r : result SandboxRefusal unit) := _ ← r; Ok [] in
  match patch with
  | Some recur =>
      if bool_decide (key = "environment") then Err (refuse at_ ENVIRONMENT_OWNED)
      else if bool_decide (key = "meta") then Err (refuse at_ META_OWNED)
      else if bool_decide (key = "filesystem") then fs ← object value at_; filesystem fs at_
      else if bool_decide (key = "network") then no_grants (network value at_)
      else if bool_decide (key = "security") then no_grants (security value at_)
      else if bool_decide (key = "platform_overrides") then
        oses ← object value at_;
        try_concat (fun '(os, patch) =>
          let os_at := at_ +:+ "." +:+ os in
          _ ← ensure (str_in os SANDBOX_OSES) (not_accepted os_at);
          u ← object patch os_at;
          recur u (os_at +:+ ".")) (entries oses)
      else Err (not_accepted at_)
  | None =>
      if bool_decide (key = "filesystem") then fs ← object value at_; filesystem fs at_
      else if bool_decide (key = "network") then no_grants (network value at_)
      else if bool_decide (key = "security") then no_grants (security value at_)
      else Err (not_accepted at_)
  end.

Definition block patch (u : gmap string Value) (prefix : string)
    : result SandboxRefusal (list BlockGrant) :=
  try_concat (block_entry patch prefix) (entries u).

Definition check_sandbox_block (v : Value) : result SandboxRefusal (list BlockGrant) :=
  match v with
  | VObject top => block (Some (block None)) top EmptyString
  | _ => Err (refuse EmptyString "expected a mapping")
  end.
End walk.

(** ** What an accepted block is *)

(** A path a sandbox may be granted: absolute, named as written, expanding to
    nothing else, leaving no directory upwards and outside [/proc] and
    [/dev/fd]. *)
Record literal_ok (raw : string) : Prop := {
  lo_absolute : is_absolute raw = true;
  lo_no_parent : Forall (fun s => s <> "..") (split_char "/"%char raw);
  lo_no_expansion : Forall (fun c => lacks c raw = true) ["$"; "*"; "?"; "["; "{"]%char;
  lo_not_proc : path_starts_with raw "/proc" = false;
  lo_not_fd : path_starts_with raw "/dev/fd" = false;
}.

Section specification.
Context (policy : SandboxPolicy) (gs : list BlockGrant).

(** Every entry of a filesystem list is a literal path and, unless the list
    is [deny], one of the grants, with the access its list stands for. *)
Definition filesystem_ok (fs : gmap string Value) : Prop :=
  forall key v, fs !! key = Some v ->
    exists acc items, access policy key = Some acc /\ v = VArray items /\
    forall item, item ∈ items -> exists raw, entry_text item = Some raw /\ literal_ok raw /\
      forall a, acc = Some a ->
        exists g, g ∈ gs /\ bg_raw g = raw /\ bg_path g = raw /\ bg_access g = a.

Definition security_ok (m : gmap string Value) : Prop :=
  forall key v, m !! key = Some v -> key = "ipc_mode" /\ v = VString IPC_MODE.

Definition network_ok (m : gmap string Value) : Prop :=
  (forall key v, m !! key = Some v -> key ∈ NETWORK_KEYS) /\
  forall v, m !! "allow_domain" = Some v ->
    exists items, v = VArray items /\ Forall (fun d => is_string d = true) items.

(** One level of a block: only these sections, each within its rules;
    [overrides] tells the top level from a platform's patch. *)
Definition section_ok (key : string) (v : Value) : Prop :=
  exists m, v = VObject m /\
    (key = "filesystem" /\ filesystem_ok m \/ key = "network" /\ network_ok m \/
     key = "security" /\ security_ok m).

Definition patch_ok (u : gmap string Value) : Prop :=
  forall key v, u !! key = Some v -> section_ok key v.

Definition block_ok (top : gmap string Value) : Prop :=
  forall key v, top !! key = Some v ->
    section_ok key v \/
    key = "platform_overrides" /\ exists oses, v = VObject oses /\
      forall os p, oses !! os = Some p ->
        os ∈ SANDBOX_OSES /\ exists u, p = VObject u /\ patch_ok u.
End specification.

(** ** Lemmas *)

Lemma bytes_any_among set s :
  bytes_any (byte_among set) s = false -> forall c, lacks c set = false -> lacks c s = true.
Proof.
  unfold bytes_any. rewrite negb_false_iff. intros H c Hc. revert H.
  apply bytes_all_impl. intros a Ha. apply negb_true_iff, Ascii.eqb_neq. intros ->.
  unfold byte_among in Ha. by rewrite Hc in Ha.
Qed.

Lemma literal_path_Ok raw p : literal_path raw = Ok p -> p = raw /\ literal_ok raw.
Proof.
  unfold literal_path. rewrite contains_byte.
  destruct (starts_with raw "~"); [done|].
  destruct (lacks _ raw) eqn:Hd; [|done].
  destruct (bytes_any _ raw) eqn:Hg; [done|].
  destruct (is_absolute raw) eqn:Ha; [|done].
  destruct (no_parent_dir raw) eqn:Hp; [|done]. simpl.
  destruct (path_starts_with raw "/proc") eqn:?; [done|].
  destruct (path_starts_with raw "/dev/fd") eqn:?; [done|]. intros [= <-].
  split; [done|]. split; try done.
  - by apply no_parent_dir_spec.
  - pose proof (bytes_any_among _ _ Hg) as Hl. repeat constructor; [done|by apply Hl..].
Qed.

Lemma object_Ok v at_ m : object v at_ = Ok m <-> v = VObject m.
Proof. unfold object. rewrite ok_or_Ok. destruct v; naive_solver. Qed.

Lemma str_in_true s l : str_in s l = true <-> s ∈ l.
Proof. apply bool_decide_eq_true. Qed.

Lemma grants_mono_fs policy gs gs' fs :
  (forall g, g ∈ gs -> g ∈ gs') -> filesystem_ok policy gs fs -> filesystem_ok policy gs' fs.
Proof.
  intros Hsub H key v Hk. destruct (H key v Hk) as (acc & items & ? & ? & Hi).
  exists acc, items. split_and!; [done..|]. intros item Hitem.
  destruct (Hi item Hitem) as (raw & ? & ? & Ha). exists raw. split_and!; [done..|].
  intros a Hacc. destruct (Ha a Hacc) as (g & ? & ?). eauto.
Qed.

Section proofs.
Context `{Unicode} (policy : SandboxPolicy).

Lemma keys_in_Ok value at_ allowed :
  keys_in policy value at_ allowed = Ok tt ->
  exists m, value = VObject m /\ forall k v, m !! k = Some v -> k ∈ allowed.
Proof.
  unfold keys_in. rewrite bind_Ok. intros (m & ->%object_Ok & Hf). exists m. split; [done|].
  destruct (list_find _ _) as [[]|] eqn:E; [done|]. apply list_find_None in E.
  intros k v Hk. rewrite Forall_forall in E. apply str_in_true, not_false_iff_true, E.
  apply elem_of_keys. eauto.
Qed.

Lemma security_Ok value at_ :
  security policy value at_ = Ok tt -> exists m, value = VObject m /\ security_ok m.
Proof.
  unfold security. intros H0. destruct_result.
  repeat match goal with
  | H : object _ _ = Ok _ |- _ => apply object_Ok in H as ->
  | x : () |- _ => destruct x
  | H : keys_in _ _ _ _ = Ok _ |- _ => apply keys_in_Ok in H as (m & [= <-] & Hk)
  end.
  eexists. split; [done|]. intros key v Hv.
  pose proof (Hk _ _ Hv) as ->%list_elem_of_singleton. split; [done|].
  rewrite Hv in H0. destruct_result. destruct_bools.
  destruct v; simpl in *; congruence.
Qed.

Lemma network_Ok value at_ :
  network policy value at_ = Ok tt -> exists m, value = VObject m /\ network_ok m.
Proof.
  unfold network. rewrite bind_Ok. intros ([] & (m & -> & Hk)%keys_in_Ok & Hd).
  exists m. split; [done|]. split; [done|]. intros v Hv. simpl in Hd.
  rewrite Hv in Hd.
  destruct v as [| | | |items|]; try done.
  destruct (list_find _ items) as [[]|] eqn:E; [done|]. exists items. split; [done|].
  apply list_find_None in E. eapply Forall_impl; [exact E|]. intros d.
  apply not_false_iff_true.
Qed.

Lemma fs_item_Ok list_at acc i item b :
  fs_item list_at acc (i, item) = Ok b ->
  exists raw, entry_text item = Some raw /\ literal_ok raw /\
    forall g, g ∈ b <-> acc = Some (bg_access g) /\ bg_raw g = raw /\ bg_path g = raw /\
      bg_at g = list_at +:+ "[" +:+ pretty (N.of_nat i) +:+ "]".
Proof.
  unfold fs_item. intros H0. destruct_result.
  match goal with H : literal_path _ = Ok _ |- _ => apply literal_path_Ok in H as [-> ?] end.
  eexists. split_and!; [done..|]. intros [g1 g2 g3 g4]. destruct acc; simpl; [|set_solver].
  rewrite list_elem_of_singleton. naive_solver.
Qed.

Lemma elem_of_imap_pair {A} (l : list A) (x : A) :
  x ∈ l <-> exists i, (i, x) ∈ imap pair l.
Proof.
  rewrite list_elem_of_lookup. setoid_rewrite list_elem_of_lookup.
  setoid_rewrite list_lookup_imap. split.
  - intros [i Hi]. exists i, i. by rewrite Hi.
  - intros (i & j & Hj). exists j. destruct (l !! j); naive_solver.
Qed.

(** What every grant the walk returns satisfies. *)
Definition grant_ok (g : BlockGrant) : Prop :=
  bg_path g = bg_raw g /\ literal_ok (bg_raw g) /\
  exists key, access policy key = Some (Some (bg_access g)).

Lemma filesystem_Ok fs at_ gs :
  filesystem policy fs at_ = Ok gs -> filesystem_ok policy gs fs /\ Forall grant_ok gs.
Proof.
  unfold filesystem. intros [Hl Hr]%try_concat_Ok.
  assert (forall key v b, fs_list policy at_ (key, v) = Ok b ->
    exists acc items, access policy key = Some acc /\ v = VArray items /\
      try_concat (fs_item (at_ +:+ "." +:+ key) acc) (imap pair items) = Ok b) as Hlist.
  { intros key v b. unfold fs_list. intros H0. destruct_result.
    destruct v; try done. simpl in *. simplify_eq. eauto. }
  split.
  - intros key v Hk. destruct (Hl (key, v)) as (b & Hb & Hsub); [by apply elem_of_entries|].
    destruct (Hlist _ _ _ Hb) as (acc & items & Hacc & -> & [Hi _]%try_concat_Ok).
    exists acc, items. split_and!; [done..|].
    intros item (i & Hit)%elem_of_imap_pair. destruct (Hi _ Hit) as (b' & Hb' & Hsub').
    destruct (fs_item_Ok _ _ _ _ _ Hb') as (raw & ? & ? & Hg). exists raw.
    split_and!; [done..|]. intros a ->.
    eexists (Build_BlockGrant _ raw raw a). split_and!; [|done..].
    apply Hsub, Hsub', Hg. simpl. eauto.
  - apply Forall_forall. intros g ([key v] & b & _ & Hb & Hg)%Hr.
    destruct (Hlist _ _ _ Hb) as (acc & items & Hacc & -> & [_ Hi]%try_concat_Ok).
    destruct (Hi _ Hg) as ([i item] & b' & _ & Hb' & Hgb).
    destruct (fs_item_Ok _ _ _ _ _ Hb') as (raw & _ & ? & Hg').
    destruct (proj1 (Hg' g) Hgb) as (Ha & Hraw & Hpath & _). rewrite Ha in Hacc.
    split_and!; [congruence|by rewrite Hraw|eauto].
Qed.

(** The three sections a level may hold, common to the top and the patches. *)
Definition section_entry (key : string) (value : Value) (at_ : string)
    : result SandboxRefusal (list BlockGrant) :=
  if bool_decide (key = "filesystem") then fs ← object value at_; filesystem policy fs at_
  else if bool_decide (key = "network") then _ ← network policy value at_; Ok []
  else if bool_decide (key = "security") then _ ← security policy value at_; Ok []
  else Err (not_accepted policy at_).

Lemma section_entry_Ok key value at_ gs :
  section_entry key value at_ = Ok gs ->
  section_ok policy gs key value /\ Forall grant_ok gs.
Proof.
  unfold section_entry, section_ok.
  case_bool_decide; [|case_bool_decide; [|case_bool_decide; [|done]]]; rewrite bind_Ok.
  - intros (fs & ->%object_Ok & [? ?]%filesystem_Ok). split; [|done]. eauto 10.
  - intros ([] & (m & -> & ?)%network_Ok & [= <-]). split; [|by constructor]. eauto 10.
  - intros ([] & (m & -> & ?)%security_Ok & [= <-]). split; [|by constructor]. eauto 10.
Qed.

Lemma section_ok_mono gs gs' key v :
  (forall g, g ∈ gs -> g ∈ gs') -> section_ok policy gs key v -> section_ok policy gs' key v.
Proof. unfold section_ok. naive_solver eauto using grants_mono_fs. Qed.

Lemma block_patch_Ok u prefix gs :
  block policy None u prefix = Ok gs -> patch_ok policy gs u /\ Forall grant_ok gs.
Proof.
  unfold block. intros [Hl Hr]%try_concat_Ok.
  assert (forall e, block_entry policy None prefix e =
    section_entry e.1 e.2 (prefix +:+ e.1)) as He by by intros [].
  split.
  - intros key v Hk. destruct (Hl (key, v)) as (b & Hb & Hsub); [by apply elem_of_entries|].
    rewrite He in Hb. apply section_entry_Ok in Hb as [? _].
    by eapply section_ok_mono.
  - apply Forall_forall. intros g (e & b & _ & Hb & Hg)%Hr. rewrite He in Hb.
    apply section_entry_Ok in Hb as [_ Hall]. rewrite Forall_forall in Hall. auto.
Qed.

Lemma patch_ok_mono gs gs' u :
  (forall g, g ∈ gs -> g ∈ gs') -> patch_ok policy gs u -> patch_ok policy gs' u.
Proof. intros Hs H1 key v Hk. eapply section_ok_mono; eauto. Qed.

Lemma block_entry_top_Ok prefix key v gs :
  block_entry policy (Some (block policy None)) prefix (key, v) = Ok gs ->
  block_ok policy gs {[ key := v ]} /\ Forall grant_ok gs.
Proof.
  assert (section_ok policy gs key v \/
    key = "platform_overrides" /\ (exists oses, v = VObject oses /\
      forall os p, oses !! os = Some p ->
        os ∈ SANDBOX_OSES /\ exists u, p = VObject u /\ patch_ok policy gs u) ->
    block_ok policy gs {[ key := v ]}) as Hb.
  { intros Hb k w [<- <-]%lookup_singleton_Some. done. }
  assert (section_entry key v (prefix +:+ key) = Ok gs ->
    block_ok policy gs {[ key := v ]} /\ Forall grant_ok gs) as Hs.
  { intros [? ?]%section_entry_Ok. auto. }
  unfold block_entry. unfold section_entry in Hs. cbv beta iota zeta.
  destruct (bool_decide (key = "environment")); [by intros|].
  destruct (bool_decide (key = "meta")); [by intros|].
  destruct (bool_decide (key = "filesystem")); [exact Hs|].
  destruct (bool_decide (key = "network")); [exact Hs|].
  destruct (bool_decide (key = "security")); [exact Hs|].
  clear Hs. case_bool_decide; [|done].
  rewrite bind_Ok. intros (oses & ->%object_Ok & [Hl Hr]%try_concat_Ok). split.
  - apply Hb. right. split; [done|]. exists oses. split; [done|]. intros os p Hos.
    destruct (Hl (os, p)) as (b & Hp & Hsub); [by apply elem_of_entries|].
    simpl in Hp. destruct_result.
    match goal with H : object _ _ = _ |- _ => apply object_Ok in H as -> end.
    split; [by apply str_in_true|]. eexists. split; [done|].
    apply block_patch_Ok in Hp as [? _]. by eapply patch_ok_mono.
  - apply Forall_forall. intros g ([os p] & b & _ & Hp & Hg)%Hr. simpl in Hp.
    destruct_result. apply block_patch_Ok in Hp as [_ Hall].
    rewrite Forall_forall in Hall. auto.
Qed.

Lemma check_sandbox_block_Ok v gs :
  check_sandbox_block policy v = Ok gs ->
  exists top, v = VObject top /\ block_ok policy gs top /\ Forall grant_ok gs.
Proof.
  destruct v as [| | | | |top]; try done. simpl. unfold block.
  intros [Hl Hr]%try_concat_Ok. exists top. split; [done|]. split.
  - intros key v Hk. destruct (Hl (key, v)) as (b & Hb & Hsub); [by apply elem_of_entries|].
    apply block_entry_top_Ok in Hb as [Hb _].
    destruct (Hb key v) as [?|(? & oses & ? & Ho)]; [by apply lookup_singleton_eq|..].
    + left. by eapply section_ok_mono.
    + right. split; [done|]. exists oses. split; [done|]. intros os p Hp.
      destruct (Ho os p Hp) as (? & u & ? & ?). split; [done|]. exists u. split; [done|].
      by eapply patch_ok_mono.
  - apply Forall_forall. intros g ([key v] & b & _ & Hb & Hg)%Hr.
    apply block_entry_top_Ok in Hb as [_ Hall]. rewrite Forall_forall in Hall. auto.
Qed.

Lemma plugin_access_no_socket key :
  policy = PolicyPlugin -> access policy key <> Some (Some AccessSocket).
Proof.
  intros ->. unfold access, grant_access. simpl.
  repeat case_match; congruence.
Qed.
End proofs.

(** ** Properties *)

(** an accepted [sandbox] block grants only literal paths: every grant
    the check returns names an absolute path as written, with no expansion,
    no [..] and nothing under [/proc] or [/dev/fd], and a plugin's block
    grants no socket. *)
Theorem sandbox_grants_literal `{Unicode} policy v gs :
  check_sandbox_block policy v = Ok gs ->
  Forall (fun g => bg_path g = bg_raw g /\ literal_ok (bg_raw g) /\
    (policy = PolicyPlugin -> bg_access g <> AccessSocket)) gs.
Proof.
  intros (top & _ & _ & Hall)%check_sandbox_block_Ok.
  eapply Forall_impl; [exact Hall|]. intros g (? & ? & key & Hkey).
  split_and!; [done..|]. intros Hp Hs. rewrite Hs in Hkey.
  by eapply plugin_access_no_socket.
Qed.

(** the root check that runs over the grants sees everything: a block is
    accepted only when it holds nothing but the allowlisted sections and
    keys, at the top level and in each platform's patch, [ipc_mode] at its
    default, plain domains, and every entry of every filesystem list but
    [deny] is among the grants with its list's access. *)
Theorem sandbox_block_complete `{Unicode} policy v gs :
  check_sandbox_block policy v = Ok gs -> exists top, v = VObject top /\ block_ok policy gs top.
Proof. intros (top & ? & ? & _)%check_sandbox_block_Ok. eauto. Qed.

Definition no_tables : Unicode := fun _ => false.

Definition sample_block : Value :=
  VObject {[ "filesystem" := VObject {[ "read" := VArray [VString "/srv/data"] ]};
             "security" := VObject {[ "ipc_mode" := VString IPC_MODE ]} ]}.

Definition sample_grant : BlockGrant :=
  {| bg_at := "filesystem.read[0]"; bg_raw := "/srv/data"; bg_path := "/srv/data";
     bg_access := AccessRead |}.

Lemma sandbox_grants_literal_witness :
  check_sandbox_block (H := no_tables) PolicyPlugin sample_block = Ok [sample_grant] /\
  Forall (fun g => bg_path g = bg_raw g /\ literal_ok (bg_raw g) /\
    (PolicyPlugin = PolicyPlugin -> bg_access g <> AccessSocket)) [sample_grant].
Proof.
  assert (check_sandbox_block (H := no_tables) PolicyPlugin sample_block = Ok [sample_grant])
    as Hc by (vm_compute; reflexivity).
  split; [exact Hc|]. exact (@sandbox_grants_literal no_tables _ _ _ Hc).
Defined.

Lemma sandbox_block_complete_witness :
  exists top, sample_block = VObject top /\ block_ok PolicyPlugin [sample_grant] top.
Proof.
  apply (@sandbox_block_complete no_tables). vm_compute. reflexivity.
Defined.
