(* ===== verification/Fleet.v ===== *)
(** The fleet specification as it is sent ([crates/balerix-api/src/fleet.rs],
    [settings.rs]) and the validated fleet the daemon works on
    ([crates/balerix-core/src/fleet.rs], [agent.rs]): the conversion with its
    errors, what it accepts, the round trip, and the agents it resolves to. *)

From S2P Require Import Prelude Str BTree Names Json SandboxBlock.
From S2P Require Repo Rules.

(** ** The wire format *)

Record ClaudeSettings := {
  claude_settings : Value;
  claude_args : list string;
  claude_resume : bool;
  claude_binary : string;
}.

Inductive RunnerSettings :=
| Tmux
| Pod (resources : Value) (storage : option Value)
      (node_selector : gmap string string) (tolerations : list Value).

Inductive RunnerKind := KTmux | KPod.

Definition runner_kind (r : RunnerSettings) : RunnerKind :=
  match r with Tmux => KTmux | Pod _ _ _ _ => KPod end.

Record AgentSettings := {
  as_claude : ClaudeSettings;
  as_sandbox : Value;
  as_tools : gmap string string;
  as_env : gmap string string;
  as_runner : RunnerSettings;
  as_plugins : gmap string Value;
  as_branch : option string;
}.

Definition empty_object : Value := VObject ∅.

Definition default_claude : ClaudeSettings :=
  {| claude_settings := empty_object; claude_args := []; claude_resume := false;
     claude_binary := "claude" |}.

Definition default_settings : AgentSettings :=
  {| as_claude := default_claude; as_sandbox := empty_object; as_tools := ∅; as_env := ∅;
     as_runner := Tmux; as_plugins := ∅; as_branch := None |}.

Inductive GitAuth := AuthGh | AuthNone.
Record GitIdentity := { gi_name : string; gi_email : string }.
Record GitSettings := {
  git_push : bool;
  git_auth : GitAuth;
  git_identity : option GitIdentity;
}.

Definition default_git : GitSettings :=
  {| git_push := true; git_auth := AuthGh; git_identity := None |}.

Record CrewSpec := {
  cs_repo : string;
  cs_ref : string;
  cs_git : GitSettings;
  cs_tools : gmap string string;
  cs_agents : gmap string AgentSettings;
}.

Record FleetSpec := {
  fs_name : string;
  fs_tools : gmap string string;
  fs_crews : gmap string CrewSpec;
}.

#[export] Instance claude_settings_eq_dec : EqDecision ClaudeSettings.
Proof. solve_decision. Defined.
#[export] Instance runner_settings_eq_dec : EqDecision RunnerSettings.
Proof. solve_decision. Defined.
#[export] Instance agent_settings_eq_dec : EqDecision AgentSettings.
Proof. solve_decision. Defined.
#[export] Instance git_auth_eq_dec : EqDecision GitAuth.
Proof. solve_decision. Defined.
#[export] Instance git_identity_eq_dec : EqDecision GitIdentity.
Proof. solve_decision. Defined.
#[export] Instance git_settings_eq_dec : EqDecision GitSettings.
Proof. solve_decision. Defined.

(** ** The validated fleet *)

Record Crew := {
  crew_repo : Repo.RepoRef;
  crew_git_ref : string;
  crew_git : GitSettings;
  crew_tools : gmap string string;
  crew_agents : gmap AgentName AgentSettings;
}.

Record Fleet := {
  fleet_name : FleetName;
  fleet_tools : gmap string string;
  fleet_crews : gmap CrewName Crew;
}.

Inductive FleetError :=
| InvalidName (path : string) (source : NameError)
| InvalidRepo (path : string) (source : Repo.RepoError)
| EmptyRef (path : string)
| ReservedAgentName (path : string)
| EmptyIdentity (path : string)
| InvalidBranch (path reason : string)
| InexactVersion (path tool version : string)
| SandboxError (path message : string).

Definition RESERVED_AGENT_NAME : string := "balerix".

(** ** The conversion *)

Definition check_tools (path : string) (tools : gmap string string) : result FleetError unit :=
  match list_find (fun kv => is_exact_version kv.2 = false) (entries tools) with
  | Some (_, (tool, version)) => Err (InexactVersion (path +:+ "." +:+ tool) tool version)
  | None => Ok tt
  end.

Definition check_identity (path : string) (identity : GitIdentity) : result FleetError unit :=
  try_each (fun '(field, value) =>
      ensure (negb (is_empty (trim value))) (EmptyIdentity (path +:+ ".git.identity." +:+ field)))
    [("name", gi_name identity); ("email", gi_email identity)].

Section convert.
Context `{Unicode}.

(** The body of [for (agent_name, settings) in crew.agents]. *)
Definition convert_agent (path : string) (agent_name : string) (settings : AgentSettings)
    : result FleetError (AgentName * AgentSettings) :=
  let agent_path := path +:+ ".agents." +:+ agent_name in
  if bool_decide (agent_name = RESERVED_AGENT_NAME) then Err (ReservedAgentName agent_path)
  else
    agent_name ← map_err (InvalidName agent_path) (try_from KAgent agent_name);
    _ ← match as_branch settings with
        | Some branch => map_err (InvalidBranch (agent_path +:+ ".branch"))
                           (Rules.check_branch_name branch)
        | None => Ok tt
        end;
    _ ← check_tools (agent_path +:+ ".tools") (as_tools settings);
    _ ← map_err (fun r => SandboxError (path_under r (agent_path +:+ ".sandbox")) (sr_message r))
          (check_sandbox_block PolicyFleet (as_sandbox settings));
    Ok (agent_name, settings).

Definition convert_crew (path : string) (crew : CrewSpec) : result FleetError Crew :=
  repo ← map_err (InvalidRepo (path +:+ ".repo")) (Repo.parse (cs_repo crew));
  if is_empty (cs_ref crew) then Err (EmptyRef (path +:+ ".ref"))
  else
    _ ← match git_identity (cs_git crew) with
        | Some identity => check_identity path identity
        | None => Ok tt
        end;
    _ ← check_tools (path +:+ ".tools") (cs_tools crew);
    agents ← try_collect (convert_agent path) (cs_agents crew);
    Ok {| crew_repo := repo; crew_git_ref := cs_ref crew; crew_git := cs_git crew;
          crew_tools := cs_tools crew; crew_agents := agents |}.

(** The body of [for (crew_name, crew) in spec.crews]. *)
Definition convert_named_crew (crew_name : string) (crew : CrewSpec)
    : result FleetError (CrewName * Crew) :=
  let path := "crews." +:+ crew_name in
  name ← map_err (InvalidName path) (try_from KCrew crew_name);
  crew ← convert_crew path crew;
  Ok (name, crew).

(** [TryFrom<FleetSpec> for Fleet]. *)
Definition fleet_try_from (spec : FleetSpec) : result FleetError Fleet :=
  name ← map_err (InvalidName "name") (try_from KFleet (fs_name spec));
  _ ← check_tools "tools" (fs_tools spec);
  crews ← try_collect convert_named_crew (fs_crews spec);
  Ok {| fleet_name := name; fleet_tools := fs_tools spec; fleet_crews := crews |}.
End convert.

(** [From<Fleet> for FleetSpec]. *)
Definition crew_into (crew : Crew) : CrewSpec :=
  {| cs_repo := Repo.clone_url (crew_repo crew); cs_ref := crew_git_ref crew;
     cs_git := crew_git crew; cs_tools := crew_tools crew;
     cs_agents := rekey name_str id (crew_agents crew) |}.

Definition fleet_into (fleet : Fleet) : FleetSpec :=
  {| fs_name := name_str (fleet_name fleet); fs_tools := fleet_tools fleet;
     fs_crews := rekey name_str crew_into (fleet_crews fleet) |}.

(** ** What the conversion accepts *)

Section valid.
Context `{Unicode}.

Definition tools_ok (tools : gmap string string) : Prop :=
  map_Forall (fun _ version => is_exact_version version = true) tools.

Definition identity_ok (i : option GitIdentity) : Prop :=
  forall x, i = Some x -> trim (gi_name x) <> EmptyString /\ trim (gi_email x) <> EmptyString.

Definition settings_ok (s : AgentSettings) : Prop :=
  (forall b, as_branch s = Some b -> Rules.check_branch_name b = Ok tt) /\
  tools_ok (as_tools s) /\
  exists grants, check_sandbox_block PolicyFleet (as_sandbox s) = Ok grants.

(** The wire format: names as strings, repositories as written. *)
Definition crew_spec_ok (c : CrewSpec) : Prop :=
  is_ok (Repo.parse (cs_repo c)) = true /\ cs_ref c <> EmptyString /\
  identity_ok (git_identity (cs_git c)) /\ tools_ok (cs_tools c) /\
  map_Forall (fun a s => validate_name a = Ok tt /\ a <> RESERVED_AGENT_NAME /\ settings_ok s)
    (cs_agents c).

Definition fleet_spec_ok (f : FleetSpec) : Prop :=
  validate_name (fs_name f) = Ok tt /\ tools_ok (fs_tools f) /\
  map_Forall (fun n c => validate_name n = Ok tt /\ crew_spec_ok c) (fs_crews f).

(** The domain: what every [Fleet] the conversion makes satisfies. *)
Definition crew_wf (c : Crew) : Prop :=
  Repo.repo_ok (crew_repo c) /\ crew_git_ref c <> EmptyString /\
  identity_ok (git_identity (crew_git c)) /\ tools_ok (crew_tools c) /\
  map_Forall (fun a s => name_str a <> RESERVED_AGENT_NAME /\ settings_ok s) (crew_agents c).

Definition fleet_wf (f : Fleet) : Prop :=
  tools_ok (fleet_tools f) /\ map_Forall (fun _ c => crew_wf c) (fleet_crews f).

Lemma check_tools_Ok path tools : check_tools path tools = Ok tt <-> tools_ok tools.
Proof.
  unfold check_tools, tools_ok. destruct (list_find _ _) as [[i [t v]]|] eqn:E.
  - apply list_find_Some in E as (Hi & Hv & _). split; [done|]. intros Ht.
    apply list_elem_of_lookup_2, elem_of_entries, Ht in Hi. simpl in Hv. congruence.
  - apply list_find_None in E. split; [|done]. intros _ t v Hk. rewrite Forall_forall in E.
    apply not_false_iff_true. apply (E (t, v)). by apply elem_of_entries.
Qed.

Lemma check_identity_Ok path i :
  check_identity path i = Ok tt <->
  trim (gi_name i) <> EmptyString /\ trim (gi_email i) <> EmptyString.
Proof.
  unfold check_identity. rewrite try_each_Ok, !Forall_cons, Forall_nil, !ensure_Ok.
  unfold is_empty. rewrite !negb_true_iff, !bool_decide_eq_false. tauto.
Qed.

Lemma identity_match_Ok path i :
  match i with Some x => check_identity path x | None => Ok tt end = Ok tt <-> identity_ok i.
Proof.
  unfold identity_ok. destruct i as [i|]; [rewrite check_identity_Ok|done]. split.
  - by intros ? x [= <-].
  - intros Hi. by apply Hi.
Qed.

Lemma convert_agent_Ok path a s n s' :
  convert_agent path a s = Ok (n, s') <->
  a = name_str n /\ s' = s /\ name_str n <> RESERVED_AGENT_NAME /\ settings_ok s.
Proof.
  unfold convert_agent, settings_ok. case_bool_decide as Hr.
  { split; [done|]. by intros (-> & _ & ? & _). }
  split.
  - intros H0. destruct_result. repeat match goal with x : () |- _ => destruct x end.
    match goal with H : try_from _ _ = Ok _ |- _ => apply try_from_Ok in H as -> end.
    match goal with H : check_tools _ _ = Ok _ |- _ => apply check_tools_Ok in H end.
    split_and!; try done; [|eauto].
    intros b Hb. rewrite Hb in *. by destruct_result.
  - intros (-> & -> & _ & Hb & Ht & grants & Hg).
    rewrite (proj2 (try_from_Ok KAgent _ n) eq_refl). simpl.
    destruct (as_branch s) as [b|]; simpl; [rewrite (Hb b eq_refl); simpl|];
      rewrite (proj2 (check_tools_Ok _ _) Ht); simpl; by rewrite Hg.
Qed.

Lemma convert_crew_Ok path c c' :
  convert_crew path c = Ok c' <->
  Repo.parse (cs_repo c) = Ok (crew_repo c') /\ cs_ref c <> EmptyString /\
  identity_ok (git_identity (cs_git c)) /\ tools_ok (cs_tools c) /\
  try_collect (convert_agent path) (cs_agents c) = Ok (crew_agents c') /\
  crew_git_ref c' = cs_ref c /\ crew_git c' = cs_git c /\ crew_tools c' = cs_tools c.
Proof.
  unfold convert_crew, is_empty. rewrite <- (identity_match_Ok path), <- (check_tools_Ok (path +:+ ".tools")).
  split.
  - intros H0. destruct_result. case_bool_decide; [done|]. destruct_result.
    repeat match goal with x : () |- _ => destruct x end. naive_solver.
  - intros (Hp & Hr & Hi & Ht & Ha & H1 & H2 & H3). rewrite Hp. simpl.
    rewrite bool_decide_eq_false_2 by done. rewrite Hi. simpl. rewrite Ht. simpl. rewrite Ha.
    simpl. rewrite <- H1, <- H2, <- H3. by destruct c'.
Qed.

Lemma convert_named_crew_Ok n c n' c' :
  convert_named_crew n c = Ok (n', c') <->
  n = name_str n' /\ convert_crew ("crews." +:+ n) c = Ok c'.
Proof.
  unfold convert_named_crew. split.
  - intros H0. destruct_result.
    match goal with H : try_from _ _ = Ok _ |- _ => by apply try_from_Ok in H as -> end.
  - intros [-> Hc]. rewrite (proj2 (try_from_Ok KCrew _ n') eq_refl). simpl. by rewrite Hc.
Qed.

Lemma fleet_try_from_Ok spec f :
  fleet_try_from spec = Ok f <->
  fs_name spec = name_str (fleet_name f) /\ tools_ok (fs_tools spec) /\
  fleet_tools f = fs_tools spec /\
  try_collect convert_named_crew (fs_crews spec) = Ok (fleet_crews f).
Proof.
  unfold fleet_try_from. rewrite <- (check_tools_Ok "tools"). split.
  - intros H0. destruct_result. repeat match goal with x : () |- _ => destruct x end.
    match goal with H : try_from _ _ = Ok _ |- _ => by apply try_from_Ok in H end.
  - intros (-> & Ht & H1 & Hc). rewrite (proj2 (try_from_Ok KFleet _ _) eq_refl). simpl.
    rewrite Ht. simpl. rewrite Hc. simpl. rewrite <- H1. by destruct f.
Qed.

Lemma convert_agent_key path a s n s' : convert_agent path a s = Ok (n, s') -> name_str n = a.
Proof. by intros (-> & _)%convert_agent_Ok. Qed.

Lemma convert_named_crew_key n c n' c' :
  convert_named_crew n c = Ok (n', c') -> name_str n' = n.
Proof. by intros (-> & _)%convert_named_crew_Ok. Qed.

Lemma convert_agents_Ok path (m : gmap string AgentSettings) m' :
  try_collect (convert_agent path) m = Ok m' <->
  m = rekey name_str id m' /\
  map_Forall (fun a s => name_str a <> RESERVED_AGENT_NAME /\ settings_ok s) m'.
Proof.
  split.
  - intros Hm. apply (try_collect_Ok _ _ (convert_agent_key path)) in Hm as [Hl Hr]. split.
    + apply map_eq. intros a. apply option_eq. intros s. rewrite (lookup_rekey name_str). split.
      * intros (n & s' & (-> & -> & _)%convert_agent_Ok & ?)%Hl. by exists n, s.
      * intros (n & s' & (s2 & ? & (_ & -> & _)%convert_agent_Ok)%Hr & -> & ->). done.
    + intros n s (s' & _ & (_ & -> & ? & ?)%convert_agent_Ok)%Hr. done.
  - intros [-> Hok]. apply (try_collect_rekey _ _ (convert_agent_key path)).
    intros n s Hn. apply convert_agent_Ok. split_and!; [done..| |]; by apply (Hok n s).
Qed.

Lemma convert_crew_wf path c c' : convert_crew path c = Ok c' -> crew_wf c'.
Proof.
  rewrite convert_crew_Ok, convert_agents_Ok.
  intros (?%Repo.parse_repo_ok & ? & ? & ? & [_ ?] & Hr & Hg & Ht).
  unfold crew_wf. by rewrite Hr, Hg, Ht.
Qed.

Lemma convert_crew_into path c : crew_wf c -> convert_crew path (crew_into c) = Ok c.
Proof.
  intros (Hr & ? & ? & ? & ?). apply convert_crew_Ok. simpl. split_and!; try done.
  - by apply Repo.parse_clone_url.
  - by apply convert_agents_Ok.
Qed.

Lemma fleet_try_from_wf spec f : fleet_try_from spec = Ok f -> fleet_wf f.
Proof.
  rewrite fleet_try_from_Ok. intros (_ & Ht & Hf & Hc). split; [by rewrite Hf|].
  apply (try_collect_Ok _ _ convert_named_crew_key) in Hc as [_ Hr].
  intros n c (c0 & _ & [_ ?%convert_crew_wf]%convert_named_crew_Ok)%Hr. done.
Qed.

Lemma fleet_into_try_from f : fleet_wf f -> fleet_try_from (fleet_into f) = Ok f.
Proof.
  intros [Ht Hc]. apply fleet_try_from_Ok. simpl. split_and!; [done..|].
  apply (try_collect_rekey _ _ convert_named_crew_key). intros n c Hn.
  apply convert_named_crew_Ok. split; [done|]. apply convert_crew_into. by apply (Hc n).
Qed.

Lemma validate_name_is_ok s : is_ok (validate_name s) = true <-> validate_name s = Ok tt.
Proof. destruct (validate_name s) as [[]|]; naive_solver. Qed.

Lemma try_from_exists k s : validate_name s = Ok tt <-> exists n : name k, try_from k s = Ok n.
Proof.
  by rewrite <- is_ok_Ok, try_from_is_ok, validate_name_is_ok.
Qed.

Lemma convert_agent_is_ok path a s :
  is_ok (convert_agent path a s) = true <->
  validate_name a = Ok tt /\ a <> RESERVED_AGENT_NAME /\ settings_ok s.
Proof.
  rewrite is_ok_Ok, (try_from_exists KAgent). split.
  - intros [[n s'] (-> & -> & ? & ?)%convert_agent_Ok]. split_and!; [|done..].
    exists n. by apply try_from_Ok.
  - intros ([n ->%try_from_Ok] & ? & ?). exists (n, s). by apply convert_agent_Ok.
Qed.

Lemma convert_crew_is_ok path c : is_ok (convert_crew path c) = true <-> crew_spec_ok c.
Proof.
  unfold crew_spec_ok, map_Forall. setoid_rewrite <- (convert_agent_is_ok path).
  rewrite <- (try_collect_is_ok _ _ (convert_agent_key path)). split.
  - intros [c' (Hp & ? & ? & ? & Ha & _)%convert_crew_Ok]%is_ok_Ok.
    rewrite Hp, Ha. by split_and!.
  - intros ([r Hr]%is_ok_Ok & ? & ? & ? & [agents Ha]%is_ok_Ok). apply is_ok_Ok.
    exists {| crew_repo := r; crew_git_ref := cs_ref c; crew_git := cs_git c;
              crew_tools := cs_tools c; crew_agents := agents |}.
    apply convert_crew_Ok. by split_and!.
Qed.

Lemma fleet_try_from_is_ok spec : is_ok (fleet_try_from spec) = true <-> fleet_spec_ok spec.
Proof.
  assert (forall n c, is_ok (convert_named_crew n c) = true <->
    validate_name n = Ok tt /\ crew_spec_ok c) as Hcrew.
  { intros n c. rewrite <- (convert_crew_is_ok ("crews." +:+ n)), !is_ok_Ok,
      (try_from_exists KCrew). split.
    - intros [[n' c'] [-> Hc]%convert_named_crew_Ok]. split; [|eauto].
      exists n'. by apply try_from_Ok.
    - intros [[n' ->%try_from_Ok] [c' ?]]. exists (n', c'). by apply convert_named_crew_Ok. }
  unfold fleet_spec_ok, map_Forall. setoid_rewrite <- Hcrew.
  rewrite <- (try_collect_is_ok _ _ convert_named_crew_key), (try_from_exists KFleet), !is_ok_Ok.
  split.
  - intros [f (Hn & ? & _ & ?)%fleet_try_from_Ok]. split_and!; [|done|eauto].
    exists (fleet_name f). by apply try_from_Ok.
  - intros ([n Hn%try_from_Ok] & ? & [crews ?]).
    exists {| fleet_name := n; fleet_tools := fs_tools spec; fleet_crews := crews |}.
    by apply fleet_try_from_Ok.
Qed.
End valid.

(** ** Resolved agents ([agent.rs]) *)

Record ResolvedAgent := {
  ra_id : AgentId;
  ra_repo : Repo.RepoRef;
  ra_git_ref : string;
  ra_git : GitSettings;
  ra_settings : AgentSettings;
}.

#[export] Instance resolved_agent_eq_dec : EqDecision ResolvedAgent.
Proof. solve_decision. Defined.

Definition resolve_agent (f : Fleet) (crew_name : CrewName) (crew : Crew)
    (e : AgentName * AgentSettings) : ResolvedAgent :=
  {| ra_id := {| id_fleet := fleet_name f; id_crew := crew_name; id_agent := e.1 |};
     ra_repo := crew_repo crew; ra_git_ref := crew_git_ref crew; ra_git := crew_git crew;
     ra_settings := e.2 |}.

(** [ResolvedAgent::from_fleet]: every agent of the fleet, sorted by id. *)
Definition from_fleet (f : Fleet) : list ResolvedAgent :=
  '(crew_name, crew) ← entries (fleet_crews f);
  resolve_agent f crew_name crew <$> entries (crew_agents crew).

Definition branch (a : ResolvedAgent) : string :=
  match as_branch (ra_settings a) with
  | Some b => b
  | None => "balerix/" +:+ to_string (ra_id a)
  end.

Definition start_ref (a : ResolvedAgent) : string :=
  default (ra_git_ref a) (as_branch (ra_settings a)).

(** [HashInput]: exactly the fields that, when changed, restart the agent. *)
Definition WORKSPACE_LAYOUT : N := 2.

Record HashInput := {
  hi_layout : N;
  hi_repo : string;
  hi_git_ref : string;
  hi_git : GitSettings;
  hi_settings : AgentSettings;
}.

Definition hash_input (layout : N) (a : ResolvedAgent) : HashInput :=
  {| hi_layout := layout; hi_repo := Repo.clone_url (ra_repo a);
     hi_git_ref := ra_git_ref a; hi_git := ra_git a; hi_settings := ra_settings a |}.

(** The SHA-256, in hex, of the canonical JSON of a [HashInput]: code of
    [sha2], [hex] and [serde_json]. *)
Class Digest := digest : HashInput -> string.

(** [ResolvedAgent::hash_for_layout] and [hash]. *)
Definition hash_for_layout `{Digest} (layout : N) (a : ResolvedAgent) : string :=
  digest (hash_input layout a).
Definition hash `{Digest} (a : ResolvedAgent) : string := hash_for_layout WORKSPACE_LAYOUT a.

(** The agents of a fleet, in the order of their ids, each once. *)
Lemma from_fleet_elem f a :
  a ∈ from_fleet f <->
  exists crew s, fleet_crews f !! id_crew (ra_id a) = Some crew /\
    crew_agents crew !! id_agent (ra_id a) = Some s /\ id_fleet (ra_id a) = fleet_name f /\
    ra_repo a = crew_repo crew /\ ra_git_ref a = crew_git_ref crew /\
    ra_git a = crew_git crew /\ ra_settings a = s.
Proof.
  unfold from_fleet. rewrite list_elem_of_bind. split.
  - intros ([cn c] & ([an s] & -> & Ha%elem_of_entries)%list_elem_of_fmap & Hc%elem_of_entries).
    simpl. eauto 12.
  - intros (c & s & Hc & Ha & H1 & H2 & H3 & H4 & H5).
    exists (id_crew (ra_id a), c). split; [|by apply elem_of_entries].
    apply list_elem_of_fmap. exists (id_agent (ra_id a), s).
    split; [|by apply elem_of_entries]. destruct a as [[] ? ? ? ?]. simpl in *.
    unfold resolve_agent. simpl. congruence.
Qed.

Definition id_le (a b : ResolvedAgent) : Prop := kle (ra_id a) (ra_id b).

Lemma from_fleet_sorted f : StronglySorted id_le (from_fleet f).
Proof.
  unfold from_fleet. apply sorted_bind.
  - apply keys_sorted.
  - apply keys_NoDup.
  - intros [cn c] _. apply (StronglySorted_fmap (resolve_agent f cn c) key_le id_le).
    + intros [a1 s1] [a2 s2] Hle. unfold id_le; simpl.
      unfold kle; simpl. unfold kle; simpl. unfold lex_le; simpl.
      rewrite !decide_True by done. unfold kle; simpl. unfold lex_le; simpl.
      rewrite decide_True by done. exact Hle.
    + apply StronglySorted_merge_sort; apply _.
  - intros [cn1 c1] [cn2 c2] x y _ _ [Hle Hne]. simpl.
    intros ([a1 s1] & -> & _)%list_elem_of_fmap ([a2 s2] & -> & _)%list_elem_of_fmap.
    unfold id_le; simpl. unfold kle; simpl. unfold kle; simpl. unfold lex_le; simpl.
    rewrite decide_True by done. unfold kle; simpl. unfold lex_le; simpl.
    rewrite decide_False by done. exact Hle.
Qed.

Lemma from_fleet_NoDup f : NoDup (ra_id <$> from_fleet f).
Proof.
  unfold from_fleet. rewrite fmap_list_bind.
  apply NoDup_bind.
  - intros [c1 ?] [c2 ?] x H1%elem_of_entries H2%elem_of_entries.
    intros (y & -> & (e & -> & _)%list_elem_of_fmap)%list_elem_of_fmap.
    intros (y & Heq & (e' & -> & _)%list_elem_of_fmap)%list_elem_of_fmap.
    injection Heq as -> _. congruence.
  - intros [cn c] _. rewrite <- list_fmap_compose.
    apply (NoDup_fmap_1 id_agent). rewrite <- list_fmap_compose. apply keys_NoDup.
  - apply entries_NoDup.
Qed.

(** ** Properties *)

Section properties.
Context `{Unicode}.

(** the conversion accepts exactly the valid specifications: valid
    names, a readable repository, a base ref, a non-blank identity, exact
    tool versions, no agent named after the anchor window, well-formed
    branches and sandbox blocks within the fleet allowlist. *)
Theorem fleet_try_from_accepts spec :
  is_ok (fleet_try_from spec) = true <-> fleet_spec_ok spec.
Proof. apply fleet_try_from_is_ok. Qed.

(** parse, don't validate: a fleet the conversion made is well formed,
    and turning it back into the wire format and converting again gives the
    same fleet. *)
Theorem fleet_roundtrip spec f :
  fleet_try_from spec = Ok f -> fleet_wf f /\ fleet_try_from (fleet_into f) = Ok f.
Proof.
  intros Hf%fleet_try_from_wf. split; [done|]. by apply fleet_into_try_from.
Qed.

(** The resolved agents are the agents of the fleet, each once, in the
    order of their ids, with their crew's repository, ref and git settings. *)
Theorem from_fleet_agents f :
  StronglySorted id_le (from_fleet f) /\ NoDup (ra_id <$> from_fleet f) /\
  forall a, a ∈ from_fleet f <->
    exists crew s, fleet_crews f !! id_crew (ra_id a) = Some crew /\
      crew_agents crew !! id_agent (ra_id a) = Some s /\ id_fleet (ra_id a) = fleet_name f /\
      ra_repo a = crew_repo crew /\ ra_git_ref a = crew_git_ref crew /\
      ra_git a = crew_git crew /\ ra_settings a = s.
Proof.
  split_and!; [apply from_fleet_sorted|apply from_fleet_NoDup|apply from_fleet_elem].
Qed.
End properties.

Definition sample_crew : CrewSpec :=
  {| cs_repo := "acme/api"; cs_ref := "main"; cs_git := default_git; cs_tools := ∅;
     cs_agents := {[ "alice" := default_settings ]} |}.
Definition sample_spec : FleetSpec :=
  {| fs_name := "payments"; fs_tools := {[ "node" := "22.11.0" ]};
     fs_crews := {[ "backend" := sample_crew ]} |}.
#[local] Instance sample_tables : Unicode := no_tables.

Lemma fleet_roundtrip_witness :
  exists f, fleet_try_from sample_spec = Ok f /\ fleet_try_from (fleet_into f) = Ok f.
Proof.
  destruct (fleet_try_from sample_spec) as [f|e] eqn:Hf.
  - exists f. split; [done|]. exact (proj2 (fleet_roundtrip _ _ Hf)).
  - exfalso. assert (is_ok (fleet_try_from sample_spec) = true) as Hok
      by (vm_compute; reflexivity). rewrite Hf in Hok. discriminate Hok.
Defined.
