(* ===== verification/Config.v ===== *)
(** Resolution of a fleet file into a specification
    ([crates/balerix-config/src/{file,validate,restricted,resolve}.rs] and the
    reserved names of [crates/balerix-core/src/plugin.rs]): the checks on each
    raw layer, the merge, the checks on the result, and what a restricted
    (plugin-applied) file cannot change. *)

From S2P Require Import Prelude Str BTree Names Json SandboxBlock Fleet.
From S2P Require Rules.

(** ** Data *)

Inductive ConfigError :=
| Invalid (path message : string)
| Yaml (message : string)
| FleetInvalid (e : FleetError).

Record CrewFile := {
  cf_repo : string;
  cf_ref : string;
  cf_git : GitSettings;
  cf_defaults : Value;
  cf_agents : gmap string Value;
}.

Record FleetFile := {
  ff_api_version : string;
  ff_kind : string;
  ff_name : option string;
  ff_defaults : Value;
  ff_crews : gmap string CrewFile;
}.

Record ResolveOptions := {
  ro_name_override : option string;
  ro_host_claude_settings : option Value;
  ro_operator_layer : option Value;
  ro_operator_layer_name : option string;
  ro_restricted : bool;
  ro_runner : RunnerKind;
}.

#[export] Instance runner_kind_eq_dec : EqDecision RunnerKind.
Proof. solve_decision. Defined.

(** Deserialization into the typed settings ([serde]'s derive), the only
    step between the merged value and the checks. *)
Class SettingsFromValue := settings_from_value : Value -> result string AgentSettings.

Section config.
Context `{Unicode}.

(** ** [file.rs] *)

Definition API_VERSION : string := "balerix/v1".
Definition KIND : string := "Fleet".

Definition check_header (file : FleetFile) : result ConfigError unit :=
  if negb (bool_decide (ff_api_version file = API_VERSION)) then
    Err (Invalid "apiVersion" ("expected " +:+ debug_str API_VERSION +:+ ", got "
                               +:+ debug_str (ff_api_version file)))
  else if negb (bool_decide (ff_kind file = KIND)) then
    Err (Invalid "kind" ("expected " +:+ debug_str KIND +:+ ", got "
                         +:+ debug_str (ff_kind file)))
  else Ok tt.

(** ** Reserved fleet names *)

Definition RESERVED_FLEET : string := "balerix".

Definition reserved_fleet_reason (name : string) : option string :=
  if bool_decide (name = RESERVED_FLEET) then Some "reserved for the daemon's plugins"
  else if bool_decide (name = "watch") then
    Some "reserved: it would shadow the plugin host's fleets/watch route"
  else None.

(** ** [validate.rs] *)

Definition RESERVED_ENV_PREFIXES : list string :=
  ["HOME"; "XDG_"; "CLAUDE_CONFIG_DIR"; "GH_CONFIG_DIR"; "MISE_"; "BALERIX_"; "PATH";
   "TMPDIR"; "CLAUDE_CODE_TMPDIR"].

Definition env_reserved (key : string) : bool :=
  existsb (fun r => if ends_with r "_" then starts_with key r else bool_decide (key = r))
    RESERVED_ENV_PREFIXES.

Definition is_object (v : Value) : bool := match v with VObject _ => true | _ => false end.

Definition validate_agent (path : string) (s : AgentSettings) : result ConfigError unit :=
  let invalid suffix message := Invalid (path +:+ "." +:+ suffix) message in
  _ ← try_each (fun '(tool, version) =>
        ensure (is_exact_version version)
          (invalid ("tools." +:+ tool) (exact_version_message tool version)))
      (entries (as_tools s));
  claude_settings ← ok_or (as_object (claude_settings (as_claude s)))
      (invalid "claude.settings" "expected a mapping");
  _ ← ensure (negb (bool_decide (is_Some (claude_settings !! "hooks"))))
      (invalid "claude.settings.hooks"
         "balerix owns this key; configure hook behaviour via `plugins` instead");
  _ ← ensure (is_object (as_sandbox s)) (invalid "sandbox" "expected a mapping");
  _ ← try_each (fun '(name, cfg) =>
        _ ← map_err (fun reason => invalid ("plugins." +:+ name)
                                     ("invalid plugin name: " +:+ reason)) (validate_name name);
        ensure (is_object cfg) (invalid ("plugins." +:+ name) "expected a mapping"))
      (entries (as_plugins s));
  _ ← match as_branch s with
      | Some branch => map_err (invalid "branch") (Rules.check_branch_name branch)
      | None => Ok tt
      end;
  try_each (fun key =>
    _ ← ensure (negb (is_empty key)) (invalid "env" "empty variable name");
    ensure (negb (env_reserved key))
      (invalid ("env." +:+ key) "reserved; balerix sets this variable")) (keys (as_env s)).

Definition sandbox_layer (path : string) (layer : Value) : result ConfigError unit :=
  match get layer "sandbox" with
  | None | Some Null => Ok tt
  | Some block =>
      _ ← map_err (fun r => Invalid (path_under r (path +:+ ".sandbox")) (sr_message r))
            (check_sandbox_block PolicyFleet (strip_nulls block));
      Ok tt
  end.

(** The body of [for (tool, value) in tools]: [Ok None] is [continue]. *)
Definition tool_entry (path tool : string) (value : Value)
    : result ConfigError (option string) :=
  let invalid message := Invalid (path +:+ ".tools." +:+ tool) message in
  match value with
  | Null => Ok None
  | VString version =>
      if negb (is_exact_version version) then Err (invalid (exact_version_message tool version))
      else Ok (Some version)
  | _ => Err (invalid "expected a version string")
  end.

Definition tools_layer (path : string) (layer : Value) : result ConfigError (gmap string string) :=
  match get layer "tools" with
  | None | Some Null => Ok ∅
  | Some (VObject t) =>
      kvs ← try_concat (fun '(tool, value) =>
              v ← tool_entry path tool value;
              Ok (match v with Some version => [(tool, version)] | None => [] end)) (entries t);
      Ok (collect kvs)
  | Some _ => Err (Invalid (path +:+ ".tools") "expected a mapping")
  end.

(** ** [restricted.rs] *)

Definition REFUSED_KEYS : list string := ["claude.binary"; "claude.args"; "env"; "sandbox"].
Definition REFUSED_SETTINGS : list string := ["env"; "apiKeyHelper"; "disableAllHooks"].
Definition WHY : string := "not allowed in a plugin-applied fleet file; the host's default applies".

(** [for depth in 1..=segments.len()], the segments before [depth] in [seen]. *)
Fixpoint check_segments (path : string) (layer : Value) (seen segments : list string)
    : result ConfigError unit :=
  match segments with
  | [] => Ok tt
  | s :: rest =>
      let prefix := seen ++ [s] in
      match pointer layer prefix with
      | None => Ok tt
      | Some found =>
          if bool_decide (rest = []) || negb (is_object found)
          then Err (Invalid (path +:+ "." +:+ join "." prefix) WHY)
          else check_segments path layer prefix rest
      end
  end.

Definition refused_keys : list string :=
  REFUSED_KEYS ++ ((fun key => "claude.settings." +:+ key) <$> REFUSED_SETTINGS).

Definition check_layer (path : string) (layer : Value) : result ConfigError unit :=
  try_each (fun key => check_segments path layer [] (split_char "."%char key)) refused_keys.

(** ** [resolve.rs] *)

Definition expect_mapping (path : string) (v : Value) : result ConfigError unit :=
  ensure (is_object v || is_null v) (Invalid path "expected a mapping").

(** The host's settings with balerix's own key dropped, as a layer. *)
Definition host_layer (opts : ResolveOptions) : list Value :=
  match ro_host_claude_settings opts with
  | None => []
  | Some s =>
      let s := match s with VObject obj => VObject (delete "hooks" obj) | _ => s end in
      [VObject {[ "claude" := VObject {[ "settings" := s ]} ]}]
  end.

Definition operator_layer (opts : ResolveOptions) : list Value :=
  match ro_operator_layer opts with Some l => [l] | None => [] end.

(** The checks every raw layer of the file gets before it is merged. *)
Definition check_file_layer (opts : ResolveOptions) (path : string) (layer : Value)
    : result ConfigError unit :=
  _ ← expect_mapping path layer;
  _ ← (if ro_restricted opts then check_layer path layer else Ok tt);
  sandbox_layer path layer.

Context `{SettingsFromValue}.

(** The body of [for (agent_name, layer) in &crew.agents]. *)
Definition resolve_layers (opts : ResolveOptions) (defaults crew_defaults : Value)
    (crew_path agent_name : string) (layer : Value)
    : result ConfigError (string * AgentSettings) :=
  let agent_path := crew_path +:+ ".agents." +:+ agent_name in
  _ ← check_file_layer opts agent_path layer;
  let merged := merge_layers
    (host_layer opts ++ operator_layer opts ++ [defaults; crew_defaults; layer]) in
  settings ← map_err (Invalid agent_path) (settings_from_value merged);
  _ ← validate_agent agent_path settings;
  _ ← ensure (bool_decide (runner_kind (as_runner settings) = ro_runner opts))
        (Invalid (agent_path +:+ ".runner.type")
           (match ro_runner opts with
            | KTmux => "`pod` runs only on Kubernetes; this daemon runs agents in tmux"
            | KPod => "`tmux` is not available on Kubernetes; a Fleet's agents run as pods"
            end));
  Ok (agent_name, settings).

(** The body of [for (crew_name, crew) in &file.crews]. *)
Definition resolve_crew (opts : ResolveOptions) (defaults : Value) (crew_name : string)
    (crew : CrewFile) : result ConfigError (string * CrewSpec) :=
  let crew_path := "crews." +:+ crew_name in
  _ ← check_file_layer opts (crew_path +:+ ".defaults") (cf_defaults crew);
  crew_tools ← tools_layer (crew_path +:+ ".defaults") (cf_defaults crew);
  agents ← try_collect (resolve_layers opts defaults (cf_defaults crew) crew_path)
             (cf_agents crew);
  Ok (crew_name, {| cs_repo := cf_repo crew; cs_ref := cf_ref crew; cs_git := cf_git crew;
                    cs_tools := crew_tools; cs_agents := agents |}).

Definition resolve (file : FleetFile) (opts : ResolveOptions) : result ConfigError FleetSpec :=
  name ← ok_or (match ro_name_override opts with Some n => Some n | None => ff_name file end)
           (Invalid "name" "required; set `name` in the file or pass --name");
  _ ← match reserved_fleet_reason name with
      | Some why => Err (Invalid "name" (debug_str name +:+ " is " +:+ why))
      | None => Ok tt
      end;
  _ ← match ro_operator_layer opts with
      | Some layer =>
          let lname := default "fleetDefaults" (ro_operator_layer_name opts) in
          _ ← expect_mapping lname layer; sandbox_layer lname layer
      | None => Ok tt
      end;
  _ ← check_file_layer opts "defaults" (ff_defaults file);
  fleet_tools ← tools_layer "defaults" (ff_defaults file);
  crews ← try_collect (resolve_crew opts (ff_defaults file)) (ff_crews file);
  let spec := {| fs_name := name; fs_tools := fleet_tools; fs_crews := crews |} in
  _ ← map_err FleetInvalid (fleet_try_from spec);
  Ok spec.
End config.

(** ** What resolution guarantees *)

Section lemmas.
Context `{Unicode, SettingsFromValue}.

(** The key paths a restricted file may not set. *)
Definition refused_paths : list (list string) := split_char "."%char <$> refused_keys.

Lemma check_segments_Ok path layer seen segments o :
  pointer layer seen = Some o -> segments <> [] -> as_object o <> None ->
  check_segments path layer seen segments = Ok tt -> untouched o segments = true.
Proof.
  revert seen o; induction segments as [|s rest IH]; intros seen o Hp Hne Ho; [done|]; clear Hne.
  destruct o as [| | | | |m]; try done. simpl.
  assert (pointer layer (seen ++ [s]) = m !! s) as ->.
  { clear -Hp. revert layer Hp. induction seen as [|k seen IH]; intros layer; simpl.
    - intros [= ->]. unfold get. simpl. by destruct (m !! s).
    - destruct (get layer k); [|done]. apply IH. }
  destruct (m !! s) as [v|] eqn:Hs; [|done].
  destruct (bool_decide (rest = [])) eqn:Hr; [done|]. apply bool_decide_eq_false in Hr.
  destruct (is_object v) eqn:Hv; [|done]. simpl. intros Hc.
  apply (IH (seen ++ [s])); [|done| |done].
  - clear -Hp Hs. revert layer Hp. induction seen as [|k seen IH]; intros layer; simpl.
    + intros [= ->]. unfold get. simpl. by rewrite Hs.
    + destruct (get layer k); [|done]. apply IH.
  - by destruct v.
Qed.

Lemma check_layer_untouched path layer p :
  check_layer path layer = Ok tt -> is_object layer = true -> p ∈ refused_paths ->
  untouched layer p = true.
Proof.
  unfold check_layer, refused_paths. rewrite try_each_Ok, Forall_forall.
  intros Hc Ho (key & -> & Hk)%list_elem_of_fmap.
  apply (check_segments_Ok path layer []); [done| | |by apply Hc].
  - apply split_char_nonempty.
  - by destruct layer.
Qed.

(** A layer that was checked leaves every refused path of what is below it
    as it is. *)
Lemma check_layer_merge path base layer p :
  check_layer path layer = Ok tt -> is_object layer || is_null layer = true ->
  no_nulls base = true -> p ∈ refused_paths ->
  pointer (merge base layer) p = pointer base p.
Proof.
  intros Hc Hm Hb Hp. apply orb_true_iff in Hm as [Ho| ->%is_null_true].
  - rewrite untouched_pointer_merge by (by eapply check_layer_untouched).
    by rewrite no_nulls_strip.
  - by rewrite merge_null_r, no_nulls_strip.
Qed.

Lemma merge_layers_no_nulls layers : no_nulls (merge_layers layers) = true.
Proof.
  unfold merge_layers. destruct layers as [|l layers _] using rev_ind; [done|].
  rewrite foldl_app. simpl. apply merge_no_nulls_lemma.
Qed.

Lemma merge_layers_snoc layers layer :
  merge_layers (layers ++ [layer]) = merge (merge_layers layers) layer.
Proof. unfold merge_layers. by rewrite foldl_app. Qed.

(** Any number of checked layers leave the refused paths of the trusted
    layers beneath them as they are. *)
Lemma checked_layers_merge trusted layers p :
  Forall (fun l => (exists path, check_layer path l = Ok tt) /\ is_object l || is_null l = true)
    layers ->
  p ∈ refused_paths ->
  pointer (merge_layers (trusted ++ layers)) p = pointer (merge_layers trusted) p.
Proof.
  intros Hall Hp. induction layers as [|l layers IH] using rev_ind; [by rewrite app_nil_r|].
  apply Forall_app in Hall as [Hall [[path Hc] Hm]%Forall_singleton].
  rewrite app_assoc, merge_layers_snoc, <- IH by done.
  apply (check_layer_merge path); [done..|apply merge_layers_no_nulls|done].
Qed.

Lemma check_file_layer_Ok opts path layer :
  check_file_layer opts path layer = Ok tt ->
  is_object layer || is_null layer = true /\
  (ro_restricted opts = true -> check_layer path layer = Ok tt) /\
  sandbox_layer path layer = Ok tt.
Proof.
  unfold check_file_layer, expect_mapping. intros H1. destruct_result.
  repeat match goal with x : () |- _ => destruct x end.
  destruct (ro_restricted opts); naive_solver.
Qed.

Lemma resolve_layers_key opts d cd path a l n s :
  resolve_layers opts d cd path a l = Ok (n, s) -> id n = a.
Proof. unfold resolve_layers. intros H1. by destruct_result. Qed.

Lemma resolve_crew_key opts d n c n' c' : resolve_crew opts d n c = Ok (n', c') -> id n' = n.
Proof. unfold resolve_crew. intros H1. by destruct_result. Qed.

Lemma resolve_Ok file opts spec :
  resolve file opts = Ok spec ->
  reserved_fleet_reason (fs_name spec) = None /\ fleet_spec_ok spec /\
  check_file_layer opts "defaults" (ff_defaults file) = Ok tt /\
  try_collect (resolve_crew opts (ff_defaults file)) (ff_crews file) = Ok (fs_crews spec).
Proof.
  unfold resolve. intros H1. destruct_result. cbn [fs_name fs_crews].
  repeat match goal with x : () |- _ => destruct x end. split_and!; try done.
  - by destruct (reserved_fleet_reason _).
  - apply fleet_try_from_is_ok, is_ok_Ok. eauto.
Qed.

Lemma resolve_agent_Ok file opts spec cn crew an settings :
  resolve file opts = Ok spec -> fs_crews spec !! cn = Some crew ->
  cs_agents crew !! an = Some settings ->
  exists cfile layer path, ff_crews file !! cn = Some cfile /\ cf_agents cfile !! an = Some layer /\
    check_file_layer opts (path +:+ ".defaults") (cf_defaults cfile) = Ok tt /\
    resolve_layers opts (ff_defaults file) (cf_defaults cfile) path an layer = Ok (an, settings).
Proof.
  intros (_ & _ & _ & Hc)%resolve_Ok Hcrew Ha.
  apply (try_collect_Ok id _ (resolve_crew_key opts _)) in Hc as [_ Hr].
  destruct (Hr _ _ Hcrew) as (cfile & Hcf & Hres). exists cfile.
  unfold resolve_crew in Hres. destruct_result. cbn [cs_agents] in Ha.
  match goal with H : try_collect _ _ = Ok _ |- _ =>
    apply (try_collect_Ok id _ (resolve_layers_key opts _ _ _)) in H as [_ Hr'] end.
  destruct (Hr' _ _ Ha) as (layer & Hl & Hrl). unfold id in *.
  repeat match goal with x : () |- _ => destruct x end. eauto 10.
Qed.
End lemmas.

(** What a resolved agent satisfies beyond [settings_ok]. *)
Definition agent_valid `{Unicode} (s : AgentSettings) : Prop :=
  tools_ok (as_tools s) /\
  (exists m, claude_settings (as_claude s) = VObject m /\ m !! "hooks" = None) /\
  is_object (as_sandbox s) = true /\
  map_Forall (fun name cfg => validate_name name = Ok tt /\ is_object cfg = true) (as_plugins s) /\
  (forall b, as_branch s = Some b -> Rules.check_branch_name b = Ok tt) /\
  map_Forall (fun key _ => key <> EmptyString /\ env_reserved key = false) (as_env s).

Lemma map_Forall_entries {A} (P : string -> A -> Prop) (m : gmap string A) :
  map_Forall P m <-> Forall (fun kv => P kv.1 kv.2) (entries m).
Proof.
  rewrite Forall_forall. split.
  - intros H [k v] ?%elem_of_entries. by apply H.
  - intros H k v ?%elem_of_entries. by apply (H (k, v)).
Qed.

Lemma map_Forall_keys {A} (P : string -> Prop) (m : gmap string A) :
  map_Forall (fun k _ => P k) m <-> Forall P (keys m).
Proof. unfold keys. by rewrite map_Forall_entries, Forall_fmap. Qed.

Lemma plugin_entry_Ok (f : string -> ConfigError) (e : ConfigError) name cfg :
  (_ ← map_err f (validate_name name); ensure (is_object cfg) e) = Ok tt <->
  validate_name name = Ok tt /\ is_object cfg = true.
Proof. by rewrite bind_unit_Ok, map_err_Ok, ensure_Ok. Qed.

Lemma env_entry_Ok (e1 e2 : ConfigError) key :
  (_ ← ensure (negb (is_empty key)) e1; ensure (negb (env_reserved key)) e2) = Ok tt <->
  key <> EmptyString /\ env_reserved key = false.
Proof.
  rewrite bind_unit_Ok, !ensure_Ok, !negb_true_iff. unfold is_empty.
  by rewrite bool_decide_eq_false.
Qed.

Lemma branch_option_Ok `{Unicode} (f : string -> ConfigError) b :
  match b with
  | Some branch => map_err f (Rules.check_branch_name branch)
  | None => Ok tt
  end = Ok tt <-> forall x, b = Some x -> Rules.check_branch_name x = Ok tt.
Proof.
  destruct b; [rewrite map_err_Ok|done]. split; [by intros ? ? [= <-]|auto].
Qed.

Lemma validate_agent_Ok `{Unicode} path s : validate_agent path s = Ok tt <-> agent_valid s.
Proof.
  unfold validate_agent, agent_valid, tools_ok.
  rewrite (map_Forall_entries (fun _ v => _ v = true)), (map_Forall_entries (fun name cfg => _ /\ _)),
    (map_Forall_keys (fun key => _ /\ _)).
  rewrite bind_unit_Ok, bind_Ok. setoid_rewrite bind_unit_Ok. setoid_rewrite bind_unit_Ok.
  setoid_rewrite bind_unit_Ok. setoid_rewrite bind_unit_Ok.
  setoid_rewrite ok_or_Ok. setoid_rewrite ensure_Ok. setoid_rewrite try_each_Ok.
  setoid_rewrite branch_option_Ok. setoid_rewrite env_entry_Ok.
  setoid_rewrite negb_true_iff. setoid_rewrite bool_decide_eq_false.
  setoid_rewrite <- eq_None_not_Some.
  assert (forall l, Forall (fun x : string * string => (let '(tool, version) := x in
    ensure (is_exact_version version) (Invalid (path +:+ "." +:+ "tools." +:+ tool)
      (exact_version_message tool version))) = Ok tt) l <->
    Forall (fun kv => is_exact_version kv.2 = true) l) as ->.
  { intros l. apply Forall_iff. intros [? ?]. apply ensure_Ok. }
  assert (forall (f : string -> string -> ConfigError) (e : string -> ConfigError) l,
    Forall (fun x : string * Value => (let '(name, cfg) := x in
    _ ← map_err (f name) (validate_name name); ensure (is_object cfg) (e name)) = Ok tt) l <->
    Forall (fun kv => validate_name kv.1 = Ok tt /\ is_object kv.2 = true) l) as Hp.
  { intros f e l. apply Forall_iff. intros [? ?]. apply plugin_entry_Ok. }
  setoid_rewrite Hp.
  assert (forall v m, as_object v = Some m <-> v = VObject m) as Hobj by (intros []; naive_solver).
  setoid_rewrite Hobj. split.
  - intros (? & m & ? & ? & ? & ? & ? & ?). eauto 10.
  - intros (? & (m & ? & ?) & ? & ? & ? & ?). eauto 10.
Qed.

(** ** Properties *)

(** C4: a restricted (plugin-applied) file cannot choose what its agents run
    as: whatever its layers hold, the merged settings of every agent have at
    [claude.binary], [claude.args], [env], [sandbox] and the refused keys of
    [claude.settings] exactly what the host's and the operator's layers
    give. *)
Theorem restricted_file_keeps_refused `{Unicode, SettingsFromValue} file opts spec cn crew an s :
  resolve file opts = Ok spec -> ro_restricted opts = true ->
  fs_crews spec !! cn = Some crew -> cs_agents crew !! an = Some s ->
  exists merged, settings_from_value merged = Ok s /\
    forall p, p ∈ refused_paths ->
      pointer merged p = pointer (merge_layers (host_layer opts ++ operator_layer opts)) p.
Proof.
  intros Hres Hr Hcrew Ha.
  destruct (resolve_agent_Ok _ _ _ _ _ _ _ Hres Hcrew Ha) as (cfile & layer & path & _ & _ & Hd & Hl).
  apply resolve_Ok in Hres as (_ & _ & Hf & _).
  unfold resolve_layers in Hl. destruct_result.
  repeat match goal with
  | x : () |- _ => destruct x
  | H : check_file_layer _ _ _ = Ok tt |- _ => apply check_file_layer_Ok in H as (? & ? & _)
  end.
  eexists. split; [done|]. intros p Hp. rewrite app_assoc.
  apply checked_layers_merge; [|done]. repeat constructor; eauto.
Qed.

(** C15: resolution returns only specifications the daemon accepts: not under
    a reserved name, valid for [Fleet::try_from], every agent valid on the
    client's checks (no key balerix owns, no reserved variable) and of the
    runner the resolution is for. *)
Theorem resolve_valid `{Unicode, SettingsFromValue} file opts spec :
  resolve file opts = Ok spec ->
  fs_name spec <> "balerix" /\ fs_name spec <> "watch" /\
  is_ok (fleet_try_from spec) = true /\
  forall cn crew an s, fs_crews spec !! cn = Some crew -> cs_agents crew !! an = Some s ->
    agent_valid s /\ runner_kind (as_runner s) = ro_runner opts.
Proof.
  intros Hres. pose proof Hres as (Hn & Hs & _)%resolve_Ok.
  unfold reserved_fleet_reason, RESERVED_FLEET in Hn.
  repeat (case_bool_decide; [done|]). split_and!; [done..|by apply fleet_try_from_is_ok|].
  intros cn crew an s Hcrew Ha.
  destruct (resolve_agent_Ok _ _ _ _ _ _ _ Hres Hcrew Ha) as (cfile & layer & path & _ & _ & _ & Hl).
  unfold resolve_layers in Hl. destruct_result. destruct_bools.
  repeat match goal with x : () |- _ => destruct x end.
  split; [by eapply validate_agent_Ok|done].
Qed.

(** A concrete reader for the witnesses: the binary of the merged value over
    the default settings. *)
#[local] Instance read_binary : SettingsFromValue := fun v =>
  Ok {| as_claude := {| claude_settings := empty_object; claude_args := []; claude_resume := false;
          claude_binary := default "claude" (pointer v ["claude"; "binary"] ≫= as_str) |};
        as_sandbox := empty_object; as_tools := ∅; as_env := ∅; as_runner := Tmux;
        as_plugins := ∅; as_branch := None |}.
#[local] Instance config_tables : Unicode := no_tables.

Definition sample_file : FleetFile :=
  {| ff_api_version := API_VERSION; ff_kind := KIND; ff_name := Some "payments";
     ff_defaults := VObject {[ "tools" := VObject {[ "node" := VString "22.11.0" ]} ]};
     ff_crews := {[ "backend" :=
       {| cf_repo := "acme/api"; cf_ref := "main"; cf_git := default_git; cf_defaults := Null;
          cf_agents := {[ "alice" := VObject {[ "claude" := VObject {[ "resume" := VBool true ]} ]} ]}
       |} ]} |}.

Definition sample_options : ResolveOptions :=
  {| ro_name_override := None; ro_host_claude_settings := None;
     ro_operator_layer := Some (VObject {[ "claude" := VObject {[ "binary" := VString "/opt/claude" ]} ]});
     ro_operator_layer_name := None; ro_restricted := true; ro_runner := KTmux |}.

Definition sample_agent_settings : option AgentSettings :=
  spec ← to_option (resolve sample_file sample_options);
  crew ← fs_crews spec !! "backend"; cs_agents crew !! "alice".

Lemma restricted_file_keeps_refused_witness :
  exists s merged, sample_agent_settings = Some s /\ settings_from_value merged = Ok s /\
    pointer merged ["claude"; "binary"] = Some (VString "/opt/claude").
Proof.
  assert (bool_decide (is_Some sample_agent_settings) = true) as [s Hs]%bool_decide_eq_true
    by (vm_compute; reflexivity).
  pose proof Hs as (spec & Hr & (crew & Hc & Ha)%bind_Some)%bind_Some.
  apply to_option_Some in Hr.
  destruct (restricted_file_keeps_refused _ _ _ _ _ _ _ Hr eq_refl Hc Ha) as (merged & Hm & Hp).
  exists s, merged. split_and!; [done..|].
  rewrite (Hp ["claude"; "binary"]) by (vm_compute; left). vm_compute. reflexivity.
Defined.

Lemma resolve_valid_witness :
  exists spec, resolve sample_file sample_options = Ok spec /\
    is_ok (fleet_try_from spec) = true /\ fs_name spec <> "watch".
Proof.
  destruct (resolve sample_file sample_options) as [spec|e] eqn:Hr;
    [|exfalso; assert (is_ok (resolve sample_file sample_options) = true) as Hok
        by (vm_compute; reflexivity); rewrite Hr in Hok; discriminate Hok].
  exists spec. pose proof (resolve_valid _ _ _ Hr) as (_ & Hw & Hv & _).
  split; [reflexivity|]. split; [exact Hv|exact Hw].
Defined.
