(* ===== verification/Status.v ===== *)
(** Fleet status ([crates/balerix-api/src/status.rs]) and how the reconciler
    folds step outcomes and signals into it
    ([crates/balerix-core/src/reconcile/{mod,status}.rs]): backoff, [apply],
    [agent_ready], the fleet phase. *)

From S2P Require Import Prelude Str BTree Names.

(** ** Data *)

Definition Timestamp := N.
Definition SpecHash := string.

(** [Timestamp::plus_secs]. *)
Definition plus_secs (t : Timestamp) (s : N) : Timestamp := saturating_add_u64 t s.

Module FleetPhase.
Inductive t := Pending | Reconciling | Ready | Degraded | Terminating | Down | Unknown.
End FleetPhase.

Module AgentPhase.
Inductive t :=
| Pending | Materializing | Starting | Ready | Failed | Dead | Stopped | Unknown.
End AgentPhase.

#[export] Instance fleet_phase_eq_dec : EqDecision FleetPhase.t.
Proof. solve_decision. Defined.
#[export] Instance agent_phase_eq_dec : EqDecision AgentPhase.t.
Proof. solve_decision. Defined.

Inductive ActivationState := ActPending | ActActive | ActRejected.
Record PluginActivation := { pa_state : ActivationState; pa_message : string }.

Definition act_pending : PluginActivation := {| pa_state := ActPending; pa_message := EmptyString |}.
Definition act_active : PluginActivation := {| pa_state := ActActive; pa_message := EmptyString |}.
Definition act_rejected (message : string) : PluginActivation :=
  {| pa_state := ActRejected; pa_message := message |}.

Record AgentStatus := {
  st_phase : AgentPhase.t;
  st_message : string;
  st_last_event_at : option Timestamp;
  st_applied_hash : option SpecHash;
  st_restarts : N;
  st_next_restart_at : option Timestamp;
  st_plugins : gmap string PluginActivation;
  st_plugin_hello : N;
}.

Definition agent_status_default : AgentStatus :=
  {| st_phase := AgentPhase.Pending; st_message := EmptyString; st_last_event_at := None;
     st_applied_hash := None; st_restarts := 0; st_next_restart_at := None; st_plugins := ∅;
     st_plugin_hello := 0 |}.

Record FleetStatus := {
  generation : N;
  observed_generation : N;
  phase : FleetPhase.t;
  agents : gmap string AgentStatus;
}.

Definition fleet_status_default : FleetStatus :=
  {| generation := 0; observed_generation := 0; phase := FleetPhase.Pending; agents := ∅ |}.

(** Field assignments. *)
Definition set_st_phase p a : AgentStatus :=
  {| st_phase := p; st_message := st_message a; st_last_event_at := st_last_event_at a;
     st_applied_hash := st_applied_hash a; st_restarts := st_restarts a;
     st_next_restart_at := st_next_restart_at a; st_plugins := st_plugins a;
     st_plugin_hello := st_plugin_hello a |}.
Definition set_st_message m a : AgentStatus :=
  {| st_phase := st_phase a; st_message := m; st_last_event_at := st_last_event_at a;
     st_applied_hash := st_applied_hash a; st_restarts := st_restarts a;
     st_next_restart_at := st_next_restart_at a; st_plugins := st_plugins a;
     st_plugin_hello := st_plugin_hello a |}.
Definition set_st_last_event_at t a : AgentStatus :=
  {| st_phase := st_phase a; st_message := st_message a; st_last_event_at := t;
     st_applied_hash := st_applied_hash a; st_restarts := st_restarts a;
     st_next_restart_at := st_next_restart_at a; st_plugins := st_plugins a;
     st_plugin_hello := st_plugin_hello a |}.
Definition set_st_applied_hash h a : AgentStatus :=
  {| st_phase := st_phase a; st_message := st_message a; st_last_event_at := st_last_event_at a;
     st_applied_hash := h; st_restarts := st_restarts a;
     st_next_restart_at := st_next_restart_at a; st_plugins := st_plugins a;
     st_plugin_hello := st_plugin_hello a |}.
Definition set_st_restarts n a : AgentStatus :=
  {| st_phase := st_phase a; st_message := st_message a; st_last_event_at := st_last_event_at a;
     st_applied_hash := st_applied_hash a; st_restarts := n;
     st_next_restart_at := st_next_restart_at a; st_plugins := st_plugins a;
     st_plugin_hello := st_plugin_hello a |}.
Definition set_st_next_restart_at t a : AgentStatus :=
  {| st_phase := st_phase a; st_message := st_message a; st_last_event_at := st_last_event_at a;
     st_applied_hash := st_applied_hash a; st_restarts := st_restarts a;
     st_next_restart_at := t; st_plugins := st_plugins a;
     st_plugin_hello := st_plugin_hello a |}.
Definition set_st_plugin_hello g a : AgentStatus :=
  {| st_phase := st_phase a; st_message := st_message a; st_last_event_at := st_last_event_at a;
     st_applied_hash := st_applied_hash a; st_restarts := st_restarts a;
     st_next_restart_at := st_next_restart_at a; st_plugins := st_plugins a;
     st_plugin_hello := g |}.

Definition set_agents m s : FleetStatus :=
  {| generation := generation s; observed_generation := observed_generation s;
     phase := phase s; agents := m |}.
Definition set_phase p s : FleetStatus :=
  {| generation := generation s; observed_generation := observed_generation s;
     phase := p; agents := agents s |}.
Definition set_generation g s : FleetStatus :=
  {| generation := g; observed_generation := observed_generation s;
     phase := phase s; agents := agents s |}.
Definition set_observed_generation g s : FleetStatus :=
  {| generation := generation s; observed_generation := g;
     phase := phase s; agents := agents s |}.

(** [status.entry(id)], created as [Pending] if absent, then updated by [f]. *)
Definition entry (id : string) (f : AgentStatus -> AgentStatus) (s : FleetStatus) : FleetStatus :=
  set_agents (<[id := f (default agent_status_default (agents s !! id))]> (agents s)) s.

(** [status.agents.get_mut(id)], updated by [f] when present. *)
Definition get_mut (id : string) (f : AgentStatus -> AgentStatus) (s : FleetStatus) : FleetStatus :=
  set_agents (alter f id (agents s)) s.

(** ** Policy and steps *)

Record ReconcilePolicy := {
  max_restarts : N;
  backoff_base_secs : N;
  backoff_cap_secs : N;
}.

Definition default_policy : ReconcilePolicy :=
  {| max_restarts := 5; backoff_base_secs := 2; backoff_cap_secs := 300 |}.

Record Keep := { keep_repos : bool; keep_sessions : bool }.

Inductive Step :=
| Stop (id : AgentId)
| RemoveAgent (id : AgentId)
| RemoveCrew (crew : CrewRef) (keep : Keep)
| EnsureCrew (crew : CrewRef)
| Materialize (id : AgentId)
| Start (id : AgentId) (hash : SpecHash)
| NoteExit (id : AgentId) (code : option Z).

#[export] Instance keep_eq_dec : EqDecision Keep.
Proof. solve_decision. Defined.
#[export] Instance step_eq_dec : EqDecision Step.
Proof. solve_decision. Defined.

Definition step_agent_id (s : Step) : option AgentId :=
  match s with
  | Stop id | RemoveAgent id | Materialize id | Start id _ | NoteExit id _ => Some id
  | RemoveCrew _ _ | EnsureCrew _ => None
  end.

Definition bool_str (b : bool) : string := if b then "true" else "false".

#[export] Instance step_display : Display Step := fun s =>
  match s with
  | Stop id => "stop " +:+ to_string id
  | RemoveAgent id => "remove-agent " +:+ to_string id
  | RemoveCrew c k => "remove-crew " +:+ to_string c +:+ " keep-repos=" +:+ bool_str (keep_repos k)
                      +:+ " keep-sessions=" +:+ bool_str (keep_sessions k)
  | EnsureCrew c => "ensure-crew " +:+ to_string c
  | Materialize id => "materialize " +:+ to_string id
  | Start id h => "start " +:+ to_string id +:+ " " +:+ String.substring 0 8 h
  | NoteExit id code =>
      "note-exit " +:+ to_string id +:+ " " +:+
      match code with Some c => "Some(" +:+ pretty c +:+ ")" | None => "None" end
  end.

(** ** Backoff *)

(** [1u64.checked_shl(n).unwrap_or(u64::MAX)]. *)
Definition shl_factor (n : N) : N := if (n <? 64)%N then 2 ^ n else u64_max.

Definition backoff_secs (policy : ReconcilePolicy) (restarts : N) : N :=
  if (restarts =? 0)%N then 0
  else N.min (saturating_mul_u64 (backoff_base_secs policy) (shl_factor (restarts - 1)))
         (backoff_cap_secs policy).

(** ** [apply] *)

Definition StepOutcome := result string unit.

(** What a noted exit does to its agent: [restarts] is a [u32]. *)
Definition note_exit (policy : ReconcilePolicy) (now : Timestamp) (code : option Z)
    (a : AgentStatus) : AgentStatus :=
  let a := set_st_restarts (wrapping_add_u32 (st_restarts a) 1) a in
  let a := set_st_message (match code with
                           | Some c => "exited with status " +:+ pretty c
                           | None => "exited (killed by signal)"
                           end) a in
  if (max_restarts policy <? st_restarts a)%N then
    let a := set_st_next_restart_at None (set_st_phase AgentPhase.Dead a) in
    set_st_message (st_message a +:+ "; gave up after " +:+ pretty (max_restarts policy)
                    +:+ " restarts") a
  else set_st_next_restart_at (Some (plus_secs now (backoff_secs policy (st_restarts a)))) a.

Definition started (hash : SpecHash) (a : AgentStatus) : AgentStatus :=
  let a := if bool_decide (st_applied_hash a = Some hash) then a else set_st_restarts 0 a in
  set_st_message EmptyString (set_st_next_restart_at None
    (set_st_applied_hash (Some hash) (set_st_phase AgentPhase.Starting a))).

Definition apply (status : FleetStatus) (step : Step) (outcome : StepOutcome)
    (policy : ReconcilePolicy) (now : Timestamp) : FleetStatus :=
  match step, outcome with
  | Stop id, Ok _ =>
      get_mut (to_string id)
        (fun a => set_st_next_restart_at None (set_st_phase AgentPhase.Stopped a)) status
  | RemoveAgent id, Ok _ => set_agents (delete (to_string id) (agents status)) status
  | RemoveCrew crew _, Ok _ =>
      let prefix := to_string crew +:+ "/" in
      set_agents (filter (fun kv => starts_with kv.1 prefix = false) (agents status)) status
  | RemoveCrew crew _, Err e =>
      let prefix := to_string crew +:+ "/" in
      set_agents (map_imap (fun k a =>
        Some (if starts_with k prefix then set_st_message e a else a)) (agents status)) status
  | EnsureCrew _, _ => status
  | Materialize id, Ok _ =>
      entry (to_string id)
        (fun a => set_st_message EmptyString (set_st_phase AgentPhase.Materializing a)) status
  | Start id hash, Ok _ => entry (to_string id) (started hash) status
  | NoteExit id code, Ok _ => entry (to_string id) (note_exit policy now code) status
  | (Materialize id | Start id _), Err e =>
      entry (to_string id)
        (fun a => set_st_message e (set_st_phase AgentPhase.Failed a)) status
  | (Stop id | RemoveAgent id | NoteExit id _), Err e =>
      entry (to_string id) (set_st_message e) status
  end.

(** ** Fleet phases *)

Definition phases (status : FleetStatus) : list AgentPhase.t := st_phase <$> values (agents status).

Definition phase_among (ps : list AgentPhase.t) (p : AgentPhase.t) : bool := bool_decide (p ∈ ps).

Definition no_agents (status : FleetStatus) : bool := bool_decide (agents status = ∅).

Definition derive_fleet_phase (status : FleetStatus) (terminating all_ok : bool) : FleetPhase.t :=
  if terminating then
    if all_ok && no_agents status then FleetPhase.Down else FleetPhase.Terminating
  else if negb all_ok ||
          existsb (phase_among [AgentPhase.Dead; AgentPhase.Failed]) (phases status)
  then FleetPhase.Degraded
  else if existsb (phase_among [AgentPhase.Pending; AgentPhase.Materializing; AgentPhase.Starting])
            (phases status)
  then FleetPhase.Reconciling
  else if negb (no_agents status) &&
          forallb (phase_among [AgentPhase.Ready; AgentPhase.Stopped]) (phases status)
  then FleetPhase.Ready
  else if no_agents status then FleetPhase.Pending
  else FleetPhase.Reconciling.

Definition terminating_phase (p : FleetPhase.t) : bool :=
  match p with FleetPhase.Terminating | FleetPhase.Down => true | _ => false end.

(** [SessionStart] reached the daemon. *)
Definition agent_ready (status : FleetStatus) (agent : AgentId) (now : Timestamp) : FleetStatus :=
  match agents status !! to_string agent with
  | None => status
  | Some _ =>
      let status := get_mut (to_string agent) (fun a =>
        set_st_message EmptyString (set_st_last_event_at (Some now)
          (set_st_next_restart_at None (set_st_restarts 0
            (set_st_phase AgentPhase.Ready a))))) status in
      set_phase (derive_fleet_phase status (terminating_phase (phase status)) true) status
  end.

Definition set_desired (status : FleetStatus) (gen : N) : FleetStatus := set_generation gen status.

Definition finish_pass (status : FleetStatus) (terminating all_ok : bool) : FleetStatus :=
  let status := set_phase (derive_fleet_phase status terminating all_ok) status in
  if all_ok then set_observed_generation (generation status) status else status.

(** ** Lemmas *)

Lemma lookup_entry id f s k :
  agents (entry id f s) !! k =
    if decide (k = id) then Some (f (default agent_status_default (agents s !! id)))
    else agents s !! k.
Proof.
  unfold entry. simpl. case_decide as Hk; [subst; apply lookup_insert_eq|].
  by rewrite lookup_insert_ne by congruence.
Qed.

Lemma lookup_get_mut id f s k :
  agents (get_mut id f s) !! k =
    if decide (k = id) then f <$> agents s !! id else agents s !! k.
Proof.
  unfold get_mut. simpl. case_decide as Hk; [subst; apply lookup_alter_eq|].
  by rewrite lookup_alter_ne by congruence.
Qed.

(** The keys of a status are printed agent ids. *)
Definition keys_ok (s : FleetStatus) : Prop :=
  forall k, is_Some (agents s !! k) -> exists id : AgentId, k = to_string id.

Lemma keys_ok_entry (id : AgentId) f s : keys_ok s -> keys_ok (entry (to_string id) f s).
Proof. intros H k. rewrite lookup_entry. case_decide; [eauto|apply H]. Qed.

Lemma keys_ok_sub s m :
  keys_ok s -> (forall k, is_Some (m !! k) -> is_Some (agents s !! k)) -> keys_ok (set_agents m s).
Proof. intros H Hm k Hk. by apply H, Hm. Qed.

Lemma keys_ok_get_mut id f s : keys_ok s -> keys_ok (get_mut id f s).
Proof.
  intros H. apply keys_ok_sub; [done|]. intros k. destruct (decide (k = id)) as [->|].
  - rewrite lookup_alter_eq. by rewrite fmap_is_Some.
  - by rewrite lookup_alter_ne.
Qed.

Lemma keys_ok_apply s step outcome policy now : keys_ok s -> keys_ok (apply s step outcome policy now).
Proof.
  intros H. destruct step, outcome; simpl; try (by apply keys_ok_entry); try done.
  - by apply keys_ok_get_mut.
  - apply keys_ok_sub; [done|]. intros k [b [_ ?]%lookup_delete_Some]. eauto.
  - apply keys_ok_sub; [done|]. intros k [b [? _]%map_lookup_filter_Some]. eauto.
  - apply keys_ok_sub; [done|]. intros k. rewrite map_lookup_imap.
    by destruct (agents s !! k).
Qed.

Lemma keys_ok_agent_ready s id now : keys_ok s -> keys_ok (agent_ready s id now).
Proof.
  intros H. unfold agent_ready. destruct (agents s !! _); [|done].
  intros k. apply (keys_ok_get_mut _ _ _ H k).
Qed.

Lemma keys_ok_finish_pass s t ok : keys_ok s -> keys_ok (finish_pass s t ok).
Proof. intros H. unfold finish_pass. by destruct ok. Qed.

Lemma remove_crew_lookup s crew keep policy now (id : AgentId) u :
  agents (apply s (RemoveCrew crew keep) (Ok u) policy now) !! to_string id =
    if decide (crew_ref id = crew) then None else agents s !! to_string id.
Proof.
  simpl. case_decide as Hc.
  - apply map_lookup_filter_None. right. intros a _. simpl.
    by rewrite (proj2 (crew_prefix_spec id crew) Hc).
  - destruct (agents s !! to_string id) as [a|] eqn:Ha.
    + apply map_lookup_filter_Some. split; [done|]. simpl. apply not_true_iff_false.
      by rewrite crew_prefix_spec.
    + apply map_lookup_filter_None. by left.
Qed.

(** ** Backoff and restarts *)

Lemma backoff_secs_min policy r :
  (backoff_cap_secs policy <= u64_max)%N -> (1 <= r)%N ->
  backoff_secs policy r = N.min (backoff_base_secs policy * 2 ^ (r - 1)) (backoff_cap_secs policy).
Proof.
  intros Hcap Hr. unfold backoff_secs, shl_factor, saturating_mul_u64.
  destruct (N.eqb_spec r 0); [lia|]. destruct (N.ltb_spec (r - 1) 64) as [|Hge]; [lia|].
  assert (2 ^ 64 <= 2 ^ (r - 1))%N by (apply N.pow_le_mono_r; lia).
  change (2 ^ 64)%N with (u64_max + 1)%N in *.
  destruct (N.eqb_spec (backoff_base_secs policy) 0) as [->|]; [lia|]. nia.
Qed.

(** One round of a crash loop: the exit is noted, the backoff elapses and the
    agent is started again with the same specification. *)
Definition crash_round (policy : ReconcilePolicy) (id : AgentId) (h : SpecHash) (code : option Z)
    (s : FleetStatus) (now : Timestamp) : FleetStatus :=
  let s := apply s (NoteExit id code) (Ok tt) policy now in
  let s := apply s (Materialize id) (Ok tt) policy now in
  apply s (Start id h) (Ok tt) policy now.

Definition crash_rounds policy id h code (times : list Timestamp) (s : FleetStatus) : FleetStatus :=
  foldl (crash_round policy id h code) s times.

Lemma entry_entry id f g s : entry id g (entry id f s) = entry id (fun a => g (f a)) s.
Proof.
  unfold entry, set_agents. simpl. f_equal. by rewrite lookup_insert_eq, insert_insert_eq.
Qed.

Lemma crash_round_agent policy id h code s now a :
  agents s !! to_string id = Some a -> st_applied_hash a = Some h ->
  (st_restarts a < u32_max)%N ->
  exists a', agents (crash_round policy id h code s now) !! to_string id = Some a' /\
    st_applied_hash a' = Some h /\ st_restarts a' = (st_restarts a + 1)%N /\
    st_phase a' = AgentPhase.Starting /\ st_next_restart_at a' = None.
Proof.
  intros Ha Hh Hr. unfold crash_round, apply. cbv zeta. rewrite !entry_entry, lookup_entry.
  rewrite decide_True by done. eexists. split; [done|]. rewrite Ha. simpl.
  unfold started, note_exit. simpl.
  assert (wrapping_add_u32 (st_restarts a) 1 = st_restarts a + 1)%N as Hw.
  { unfold wrapping_add_u32. apply N.mod_small. lia. }
  rewrite Hw. destruct (_ <? _)%N; simpl; rewrite Hh, bool_decide_eq_true_2 by done; done.
Qed.

Lemma crash_rounds_agent policy id h code times s a :
  agents s !! to_string id = Some a -> st_applied_hash a = Some h ->
  (st_restarts a + N.of_nat (length times) <= u32_max)%N ->
  exists a', agents (crash_rounds policy id h code times s) !! to_string id = Some a' /\
    st_applied_hash a' = Some h /\
    st_restarts a' = (st_restarts a + N.of_nat (length times))%N.
Proof.
  revert s a. induction times as [|now times IH]; intros s a Ha Hh Hr; simpl.
  { exists a. rewrite N.add_0_r. done. }
  simpl in Hr. destruct (crash_round_agent policy id h code s now a Ha Hh) as (b & Hb & Hbh & Hbr & _);
    [lia|].
  destruct (IH _ b Hb Hbh) as (a' & ? & ? & Hr'); [lia|].
  exists a'. split_and!; [done..|lia].
Qed.

(** ** Phases *)

Lemma phases_elem s p : p ∈ phases s <-> exists k a, agents s !! k = Some a /\ st_phase a = p.
Proof.
  unfold phases. rewrite list_elem_of_fmap. setoid_rewrite elem_of_values. naive_solver.
Qed.

Lemma phases_exists s ps :
  existsb (phase_among ps) (phases s) = true <->
  exists k a, agents s !! k = Some a /\ st_phase a ∈ ps.
Proof.
  rewrite existsb_exists. unfold phase_among. setoid_rewrite <- list_elem_of_In.
  setoid_rewrite phases_elem. setoid_rewrite bool_decide_eq_true. naive_solver.
Qed.

Lemma phases_forall s ps :
  forallb (phase_among ps) (phases s) = true <->
  map_Forall (fun _ a => st_phase a ∈ ps) (agents s).
Proof.
  rewrite forallb_forall. unfold phase_among, map_Forall. setoid_rewrite <- list_elem_of_In.
  setoid_rewrite phases_elem. setoid_rewrite bool_decide_eq_true. naive_solver.
Qed.

(** What each fleet phase says, given [terminating] and whether the pass ran
    clean. *)
Definition phase_means (s : FleetStatus) (terminating all_ok : bool) (p : FleetPhase.t) : Prop :=
  let some_in ps := exists k a, agents s !! k = Some a /\ st_phase a ∈ ps in
  let broken := all_ok = false \/ some_in [AgentPhase.Dead; AgentPhase.Failed] in
  let settled := map_Forall (fun _ a => st_phase a ∈ [AgentPhase.Ready; AgentPhase.Stopped])
                   (agents s) in
  match p with
  | FleetPhase.Down => terminating = true /\ all_ok = true /\ agents s = ∅
  | FleetPhase.Terminating => terminating = true /\ (all_ok = false \/ agents s <> ∅)
  | FleetPhase.Degraded => terminating = false /\ broken
  | FleetPhase.Ready => terminating = false /\ ~ broken /\ settled /\ agents s <> ∅
  | FleetPhase.Pending => terminating = false /\ ~ broken /\ agents s = ∅
  | FleetPhase.Reconciling => terminating = false /\ ~ broken /\ ~ settled
  | FleetPhase.Unknown => False
  end.

Lemma phase_means_derived s terminating all_ok :
  phase_means s terminating all_ok (derive_fleet_phase s terminating all_ok).
Proof.
  unfold derive_fleet_phase, no_agents. destruct terminating.
  { destruct all_ok; simpl; [case_bool_decide; simpl; auto|simpl; auto]. }
  destruct (existsb (phase_among [AgentPhase.Dead; AgentPhase.Failed]) (phases s)) eqn:Hd.
  { rewrite orb_true_r. apply phases_exists in Hd. simpl. auto. }
  rewrite orb_false_r. destruct all_ok; simpl; [|auto].
  assert (~ (true = false \/ exists k a, agents s !! k = Some a /\
    st_phase a ∈ [AgentPhase.Dead; AgentPhase.Failed])) as Hnb.
  { rewrite <- phases_exists, Hd. by intros [|]. }
  destruct (existsb (phase_among [AgentPhase.Pending; AgentPhase.Materializing;
    AgentPhase.Starting]) (phases s)) eqn:Hp.
  { apply phases_exists in Hp as (k & a & Hk & Hin). split; [done|]. split; [done|].
    intros Hs. apply Hs, (proj2 (bool_decide_eq_true _)) in Hk.
    apply (proj2 (bool_decide_eq_true _)) in Hin. by destruct (st_phase a). }
  case_bool_decide as He; simpl; [done|].
  destruct (forallb _ _) eqn:Hs; simpl.
  - apply phases_forall in Hs. done.
  - split; [done|]. split; [done|]. rewrite <- phases_forall. by rewrite Hs.
Qed.

Lemma phase_means_unique s terminating all_ok p :
  phase_means s terminating all_ok p -> p = derive_fleet_phase s terminating all_ok.
Proof.
  pose proof (phase_means_derived s terminating all_ok) as Hd.
  destruct (derive_fleet_phase s terminating all_ok), p; simpl in *; intros Hp;
    try done; exfalso; try (intuition congruence).
  all: destruct Hd as (? & Hnb & Hd), Hp as (? & _ & Hp).
  all: try (apply Hp; rewrite Hd; apply map_Forall_empty).
  all: try (apply Hd; rewrite Hp; apply map_Forall_empty).
  all: naive_solver.
Qed.

(** ** Properties *)

(** The wait before restart [r] is exactly [base * 2^(r-1)] seconds,
    capped: neither the shift nor the multiplication of the [u64] code can
    wrap into a shorter wait, however many restarts there were. *)
Theorem backoff_exact policy r :
  (backoff_cap_secs policy <= u64_max)%N -> (1 <= r)%N ->
  backoff_secs policy r = N.min (backoff_base_secs policy * 2 ^ (r - 1)) (backoff_cap_secs policy).
Proof. apply backoff_secs_min. Qed.

Lemma backoff_exact_witness : backoff_secs default_policy 70 = 300%N.
Proof.
  rewrite (backoff_exact default_policy 70 ltac:(vm_compute; discriminate) ltac:(lia)).
  vm_compute. reflexivity.
Defined.

(** C40: a crash loop is bounded: an agent started once and crashing again
    and again is restarted [max_restarts] times, each exit putting the next
    start off by the capped exponential backoff, and the exit after the last
    restart leaves it [Dead] with no restart scheduled. *)
Theorem crash_loop_bounded policy (id : AgentId) h code times s a now :
  agents s !! to_string id = Some a -> st_applied_hash a = Some h -> st_restarts a = 0%N ->
  (N.of_nat (length times) <= max_restarts policy)%N ->
  (max_restarts policy < u32_max)%N -> (backoff_cap_secs policy <= u64_max)%N ->
  let n := N.of_nat (length times) in
  exists b, agents (apply (crash_rounds policy id h code times s) (NoteExit id code) (Ok tt) policy now)
              !! to_string id = Some b /\
    st_restarts b = (n + 1)%N /\
    if (n <? max_restarts policy)%N then
      st_next_restart_at b =
        Some (plus_secs now (N.min (backoff_base_secs policy * 2 ^ n) (backoff_cap_secs policy)))
    else st_phase b = AgentPhase.Dead /\ st_next_restart_at b = None.
Proof.
  intros Ha Hh Hr0 Hn Hmax Hcap n.
  destruct (crash_rounds_agent policy id h code times s a Ha Hh) as (b & Hb & _ & Hr); [lia|].
  rewrite Hr0, N.add_0_l in Hr. fold n in Hr, Hn.
  unfold apply. rewrite lookup_entry, decide_True, Hb by done.
  eexists. split; [done|]. simpl. unfold note_exit. simpl.
  assert (wrapping_add_u32 (st_restarts b) 1 = n + 1)%N as ->.
  { unfold wrapping_add_u32. rewrite Hr. apply N.mod_small. lia. }
  destruct (N.ltb_spec n (max_restarts policy)).
  - rewrite (proj2 (N.ltb_ge _ _)) by lia. simpl. split; [done|]. f_equal. f_equal.
    rewrite backoff_secs_min by (done || lia). by replace (n + 1 - 1)%N with n by lia.
  - rewrite (proj2 (N.ltb_lt _ _)) by lia. done.
Qed.

Definition no_name_error {k} (s : string) (H : is_ok (validate_name s) = true) : name k :=
  mkName s H.

Definition sample_id : AgentId :=
  {| id_fleet := no_name_error "payments" eq_refl; id_crew := no_name_error "backend" eq_refl;
     id_agent := no_name_error "alice" eq_refl |}.

Definition sample_status : FleetStatus :=
  set_agents {[ to_string sample_id := set_st_applied_hash (Some "h1") agent_status_default ]}
    fleet_status_default.

Lemma crash_loop_bounded_witness :
  exists b, agents (apply (crash_rounds default_policy sample_id "h1" (Some 1%Z)
                      [0; 10; 20; 40; 80]%N sample_status) (NoteExit sample_id (Some 1%Z)) (Ok tt)
                      default_policy 200%N) !! to_string sample_id = Some b /\
    st_phase b = AgentPhase.Dead.
Proof.
  destruct (crash_loop_bounded default_policy sample_id "h1" (Some 1%Z) [0; 10; 20; 40; 80]%N
    sample_status (set_st_applied_hash (Some "h1") agent_status_default) 200%N
    ltac:(vm_compute; reflexivity) ltac:(reflexivity) ltac:(reflexivity)
    ltac:(vm_compute; discriminate) ltac:(vm_compute; reflexivity) ltac:(vm_compute; discriminate))
    as (b & Hb & _ & Hd).
  exists b. split; [exact Hb|]. exact (proj1 Hd).
Defined.

(** The fleet phase a pass ends with is the one whose meaning holds:
    [Down] only after a clean terminating pass with no agent left, [Ready]
    only when every agent is ready or stopped and nothing failed, and the
    observed generation advances exactly on a clean pass. *)
Theorem finish_pass_phase s terminating all_ok p :
  (phase (finish_pass s terminating all_ok) = p <-> phase_means s terminating all_ok p) /\
  agents (finish_pass s terminating all_ok) = agents s /\
  observed_generation (finish_pass s terminating all_ok) =
    (if all_ok then generation s else observed_generation s).
Proof.
  split_and!; [|by destruct all_ok..]. unfold finish_pass. split.
  - intros <-. destruct all_ok; apply phase_means_derived.
  - intros ->%phase_means_unique. by destruct all_ok.
Qed.

(** A removed crew takes exactly its own agents' entries with it: for a
    status keyed by agent ids, the entries of every other crew stay, those of
    a crew whose name merely starts the same among them. *)
Theorem remove_crew_exact s crew keep policy now (id : AgentId) :
  keys_ok s ->
  let s' := apply s (RemoveCrew crew keep) (Ok tt) policy now in
  keys_ok s' /\
  agents s' !! to_string id =
    (if decide (crew_ref id = crew) then None else agents s !! to_string id).
Proof.
  intros Hs. split; [by apply keys_ok_apply|]. apply remove_crew_lookup.
Qed.

Lemma remove_crew_exact_witness :
  agents (apply sample_status
    (RemoveCrew {| cr_fleet := no_name_error "payments" eq_refl; cr_crew := no_name_error "back" eq_refl |}
       {| keep_repos := false; keep_sessions := false |}) (Ok tt) default_policy 0%N)
    !! to_string sample_id = Some (set_st_applied_hash (Some "h1") agent_status_default).
Proof.
  assert (keys_ok sample_status) as Hk.
  { intros k [a Ha]. unfold sample_status, set_agents in Ha. cbn [agents] in Ha.
    apply lookup_singleton_Some in Ha as [<- _]. by exists sample_id. }
  rewrite (proj2 (remove_crew_exact _ _ _ _ _ sample_id Hk)). vm_compute. reflexivity.
Defined.
