(* ===== verification/Reconcile.v ===== *)
(** The reconciler's decision ([crates/balerix-core/src/reconcile/mod.rs]):
    what the runner observes ([ports.rs]) and [plan], with the order of a
    plan, what it does to each agent, and when there is nothing left to do. *)

From S2P Require Import Prelude Str BTree Names Fleet Status.

(** ** Observed state *)

Inductive ProcessState :=
| Running (pid : N)
| Exited (code : option Z).

#[export] Instance process_state_eq_dec : EqDecision ProcessState.
Proof. solve_decision. Defined.

Record ObservedState := { crews : gmap CrewName (gmap AgentName ProcessState) }.

Definition observed_get (o : ObservedState) (id : AgentId) : option ProcessState :=
  m ← crews o !! id_crew id; m !! id_agent id.

Definition observed_set (id : AgentId) (p : ProcessState) (o : ObservedState) : ObservedState :=
  {| crews := <[id_crew id := <[id_agent id := p]> (default ∅ (crews o !! id_crew id))]> (crews o) |}.

Definition observed_remove (id : AgentId) (o : ObservedState) : ObservedState :=
  {| crews := alter (delete (id_agent id)) (id_crew id) (crews o) |}.

(** Every observed agent, as ids in [fleet], sorted. *)
Definition agent_ids (o : ObservedState) (fleet : FleetName) : list AgentId :=
  '(crew, m) ← entries (crews o);
  (fun a => {| id_fleet := fleet; id_crew := crew; id_agent := a |}) <$> keys m.

(** ** [plan] *)

(** The stable sort of the stops by [agent_id()]; [None] sorts first. *)
Definition step_key_le (s t : Step) : Prop :=
  match step_agent_id s, step_agent_id t with
  | None, _ => True
  | Some _, None => False
  | Some a, Some b => kle a b
  end.

#[export] Instance step_key_le_dec : RelDecision step_key_le.
Proof.
  intros s t. unfold step_key_le.
  destruct (step_agent_id s), (step_agent_id t); [apply kle_dec|..]; solve_decision.
Defined.

Section plan.
Context `{Digest}.
Context (fleet : FleetName) (desired : option Fleet) (keep : Keep) (stopped : gset AgentId).
Context (status : FleetStatus) (observed : ObservedState) (now : Timestamp).

Definition desired_agents : gmap AgentId ResolvedAgent :=
  match desired with
  | Some f => collect ((fun a => (ra_id a, a)) <$> from_fleet f)
  | None => ∅
  end.

Definition desired_crews : gset CrewRef := list_to_set (crew_ref <$> keys desired_agents).

Definition known_agents : gset AgentId :=
  list_to_set (omap (fun k => to_option (from_str (E := NameError) k)) (keys (agents status))) ∪
  list_to_set (agent_ids observed fleet).

Definition known_crews : gset CrewRef :=
  list_to_set (crew_ref <$> elems known_agents) ∪
  list_to_set ((fun c => {| cr_fleet := fleet; cr_crew := c |}) <$> keys (crews observed)).

Definition is_observed (id : AgentId) : bool := bool_decide (is_Some (observed_get observed id)).
Definition is_desired (id : AgentId) : bool := bool_decide (is_Some (desired_agents !! id)).

(** The first loop: agents known and not desired. *)
Definition undesired : list AgentId :=
  filter (fun id => is_desired id = false) (elems known_agents).
Definition undesired_stops : list Step := Stop <$> filter (fun id => is_observed id = true) undesired.
Definition remove_agents : list Step :=
  match desired with Some _ => RemoveAgent <$> undesired | None => [] end.
Definition remove_crews : list Step :=
  (fun c => RemoveCrew c keep) <$> filter (fun c => c ∉ desired_crews) (elems known_crews).
Definition ensures : list Step := EnsureCrew <$> elems desired_crews.

(** What the loop reads of one agent: [unsettled], [changed], [dead] and
    [next_restart_at]. *)
Definition agent_unsettled (id : AgentId) : bool :=
  match agents status !! to_string id with
  | Some s => negb (bool_decide (st_phase s = AgentPhase.Stopped))
  | None => false
  end.
Definition agent_changed (id : AgentId) (agent : ResolvedAgent) : bool :=
  negb (bool_decide ((s ← agents status !! to_string id; st_applied_hash s) = Some (hash agent))).
Definition agent_dead (id : AgentId) : bool :=
  match agents status !! to_string id with
  | Some s => bool_decide (st_phase s = AgentPhase.Dead)
  | None => false
  end.
Definition next_restart (id : AgentId) : option Timestamp :=
  s ← agents status !! to_string id; st_next_restart_at s.

(** The body of [for (id, agent) in &desired_agents]: what it adds to the
    stops and to the agent steps. *)
Definition plan_agent (id : AgentId) (agent : ResolvedAgent) : list Step * list Step :=
  if bool_decide (id ∈ stopped) then
    (if is_observed id || agent_unsettled id then [Stop id] else [], [])
  else
    let changed := agent_changed id agent in
    let dead := agent_dead id in
    let restart := [Materialize id; Start id (hash agent)] in
    match observed_get observed id with
    | Some (Running _) => if changed then ([Stop id], restart) else ([], [])
    | Some (Exited code) =>
        if changed then ([], restart)
        else if dead then ([], [])
        else match next_restart id with
             | None => ([], [NoteExit id code])
             | Some due => if (due <=? now)%N then ([], restart) else ([], [])
             end
    | None => if dead && negb changed then ([], []) else ([], restart)
    end.

Definition agent_plans : list (list Step * list Step) :=
  (fun '(id, agent) => plan_agent id agent) <$> entries desired_agents.

Definition stops : list Step :=
  merge_sort step_key_le (undesired_stops ++ mjoin (M := list) agent_plans.*1).
Definition agent_steps : list Step := mjoin (M := list) agent_plans.*2.

Definition plan : list Step := stops ++ remove_agents ++ remove_crews ++ ensures ++ agent_steps.
End plan.

(** ** Lemmas *)

(** The steps of one agent, in plan order. *)
Definition steps_of (id : AgentId) (p : list Step) : list Step :=
  filter (fun s => step_agent_id s = Some id) p.

Lemma steps_of_app id p q : steps_of id (p ++ q) = steps_of id p ++ steps_of id q.
Proof. apply filter_app. Qed.

Lemma steps_of_none id p : Forall (fun s => step_agent_id s <> Some id) p -> steps_of id p = [].
Proof.
  induction 1 as [|s p Hs _ IH]; [done|]. unfold steps_of. by rewrite filter_cons_False.
Qed.

Lemma steps_of_all id p : Forall (fun s => step_agent_id s = Some id) p -> steps_of id p = p.
Proof.
  induction 1 as [|s p Hs _ IH]; [done|]. unfold steps_of in *.
  by rewrite filter_cons_True, IH.
Qed.

(** A list with at most one element is fixed by what it permutes to. *)
Lemma steps_of_sort id p l :
  steps_of id p = l -> length l <= 1 -> steps_of id (merge_sort step_key_le p) = l.
Proof.
  intros Hp Hl. assert (steps_of id (merge_sort step_key_le p) ≡ₚ l) as Hperm.
  { unfold steps_of. rewrite merge_sort_Permutation. by rewrite <- Hp. }
  destruct l as [|x [|y l]]; simpl in Hl; [|..|lia].
  - by apply Permutation_nil_r.
  - by apply Permutation_singleton_r.
Qed.

Lemma steps_of_fmap id (f : AgentId -> Step) l :
  (forall x, step_agent_id (f x) = Some x) -> NoDup l ->
  steps_of id (f <$> l) = if decide (id ∈ l) then [f id] else [].
Proof.
  intros Hf. induction 1 as [|x l Hx _ IH]; [done|].
  rewrite fmap_cons. unfold steps_of in *. destruct (decide (x = id)) as [->|Hne].
  - rewrite filter_cons_True, IH by done.
    rewrite (decide_False (P := id ∈ l)), decide_True by (done || by left). done.
  - rewrite filter_cons_False, IH by (rewrite Hf; congruence).
    destruct (decide (id ∈ l)); [rewrite decide_True by by right|rewrite decide_False]; [done..|].
    set_solver.
Qed.

Lemma steps_of_join {V} id (l : list (AgentId * V)) (g : AgentId * V -> list Step) :
  (forall e, Forall (fun s => step_agent_id s = Some e.1) (g e)) -> NoDup l.*1 ->
  (forall v, (id, v) ∈ l -> steps_of id (mjoin (M := list) (g <$> l)) = g (id, v)) /\
  (id ∉ l.*1 -> steps_of id (mjoin (M := list) (g <$> l)) = []).
Proof.
  intros Hg. induction l as [|[k w] l IH]; intros Hnd; [by split; [intros v ?%not_elem_of_nil|]|].
  apply NoDup_cons in Hnd as [Hk Hnd]. destruct (IH Hnd) as [IH1 IH2].
  rewrite fmap_cons.
  change (mjoin (g (k, w) :: (g <$> l))) with (g (k, w) ++ mjoin (M := list) (g <$> l)).
  rewrite steps_of_app.
  destruct (decide (k = id)) as [->|Hne].
  - rewrite (steps_of_all id (g (id, w))), IH2 by (done || apply (Hg (id, w))).
    rewrite app_nil_r. split.
    + intros v [[= ->]|Hin]%elem_of_cons; [done|]. exfalso. apply Hk.
      by apply (list_elem_of_fmap_2 fst) in Hin.
    + intros Hn. exfalso. apply Hn. by left.
  - rewrite (steps_of_none id (g (k, w))).
    + simpl. split.
      * intros v [[= -> ->]|Hin]%elem_of_cons; [done|]. by apply IH1.
      * intros Hn. apply IH2. set_solver.
    + eapply Forall_impl; [apply (Hg (k, w))|]. simpl. congruence.
Qed.

Section plan_lemmas.
Context `{Digest}.
Context (fleet : FleetName) (desired : option Fleet) (keep : Keep) (stopped : gset AgentId).
Context (status : FleetStatus) (observed : ObservedState) (now : Timestamp).
Notation plan := (plan fleet desired keep stopped status observed now).
Notation desired_agents := (desired_agents desired).
Notation known_agents := (known_agents fleet status observed).
Notation plan_agent := (plan_agent stopped status observed now).

Lemma lookup_desired id a :
  desired_agents !! id = Some a <-> exists f, desired = Some f /\ a ∈ from_fleet f /\ ra_id a = id.
Proof.
  unfold Reconcile.desired_agents. destruct desired as [f|]; [|rewrite lookup_empty; naive_solver].
  rewrite lookup_collect.
  - rewrite list_elem_of_fmap. split.
    + intros (x & [= -> ->] & ?). eauto.
    + intros (? & [= <-] & ? & <-). eauto.
  - rewrite <- list_fmap_compose. apply from_fleet_NoDup.
Qed.

Lemma elem_of_known id :
  id ∈ known_agents <->
  is_Some (agents status !! to_string id) \/ id ∈ agent_ids observed fleet.
Proof.
  unfold Reconcile.known_agents. rewrite elem_of_union, !elem_of_list_to_set, list_elem_of_omap.
  setoid_rewrite elem_of_keys. setoid_rewrite to_option_Some. split.
  - intros [(k & ? & ->%from_str_Ok)|?]; auto.
  - intros [?|?]; [left|by right]. exists (to_string id). by rewrite from_str_Ok.
Qed.

Lemma elem_of_agent_ids id :
  id ∈ agent_ids observed fleet <-> id_fleet id = fleet /\ is_Some (observed_get observed id).
Proof.
  unfold agent_ids, observed_get. rewrite list_elem_of_bind. split.
  - intros ([c m] & (a & -> & Ha%elem_of_keys)%list_elem_of_fmap & Hc%elem_of_entries).
    simpl. by rewrite Hc.
  - intros [Hf Ha]. destruct (crews observed !! id_crew id) as [m|] eqn:Hm; [|by destruct Ha].
    exists (id_crew id, m). split; [|by apply elem_of_entries].
    apply list_elem_of_fmap. exists (id_agent id). split; [|by apply elem_of_keys].
    destruct id. simpl in *. congruence.
Qed.

Lemma plan_agent_steps id agent :
  Forall (fun s => step_agent_id s = Some id) ((plan_agent id agent).1 ++ (plan_agent id agent).2) /\
  length (plan_agent id agent).1 <= 1.
Proof.
  unfold Reconcile.plan_agent. repeat (case_match; simpl);
    (split; [repeat constructor|lia]).
Qed.

Lemma undesired_elem id : id ∈ undesired fleet desired status observed <->
  id ∈ known_agents /\ desired_agents !! id = None.
Proof.
  unfold undesired, is_desired. rewrite list_elem_of_filter, elem_of_elems, bool_decide_eq_false.
  rewrite <- eq_None_not_Some. tauto.
Qed.

Lemma undesired_NoDup : NoDup (undesired fleet desired status observed).
Proof. apply NoDup_filter, elems_NoDup. Qed.

(** The steps of one agent. *)
Lemma steps_of_plan id :
  steps_of id plan =
    match desired_agents !! id with
    | Some agent => (plan_agent id agent).1 ++ (plan_agent id agent).2
    | None =>
        if bool_decide (id ∈ known_agents) then
          (if is_observed observed id then [Stop id] else []) ++
          (match desired with Some _ => [RemoveAgent id] | None => [] end)
        else []
    end.
Proof.
  unfold Reconcile.plan. rewrite !steps_of_app.
  rewrite (steps_of_none id (remove_crews _ _ _ _ _)), (steps_of_none id (ensures _));
    [|by apply Forall_fmap, Forall_true..]. simpl.
  assert (forall P `{!forall x, Decision (P x)}, NoDup (filter P (undesired fleet desired status observed)))
    as Hnd by (intros; apply NoDup_filter, undesired_NoDup).
  set (us := undesired_stops fleet desired status observed).
  assert (steps_of id us = if decide (id ∈ known_agents /\ desired_agents !! id = None /\
    is_observed observed id = true) then [Stop id] else []) as Hus.
  { unfold us, undesired_stops. rewrite steps_of_fmap by auto.
    apply decide_ext. rewrite list_elem_of_filter, undesired_elem. tauto. }
  assert (steps_of id (remove_agents fleet desired status observed) =
    if decide (id ∈ known_agents /\ desired_agents !! id = None) then
      match desired with Some _ => [RemoveAgent id] | None => [] end else []) as Hrm.
  { unfold remove_agents.
    assert (steps_of id (RemoveAgent <$> undesired fleet desired status observed) =
      if decide (id ∈ known_agents /\ desired_agents !! id = None) then [RemoveAgent id] else [])
      as Hu.
    { rewrite steps_of_fmap by (done || apply undesired_NoDup).
      apply decide_ext. by rewrite undesired_elem. }
    destruct desired; [exact Hu|].
    by match goal with |- _ = if ?d then _ else _ => destruct d end. }
  set (ap := agent_plans desired stopped status observed now).
  assert (forall (pr : list Step * list Step -> list Step),
    (forall e : AgentId * ResolvedAgent, Forall (fun s => step_agent_id s = Some e.1)
       (pr (plan_agent e.1 e.2))) ->
    steps_of id (mjoin (M := list) (pr <$> ap)) =
      match desired_agents !! id with Some agent => pr (plan_agent id agent) | None => [] end) as Hap.
  { intros pr Hpr. unfold ap, agent_plans. rewrite <- list_fmap_compose.
    destruct (steps_of_join id (entries desired_agents)
      (pr ∘ fun '(id, agent) => plan_agent id agent)) as [H1 H2].
    - intros [k a]. apply (Hpr (k, a)).
    - apply keys_NoDup.
    - destruct (desired_agents !! id) as [a|] eqn:Hd.
      + apply (H1 a). by apply elem_of_entries.
      + apply H2. intros Hk%elem_of_keys. rewrite Hd in Hk. by destruct Hk. }
  assert (forall e, Forall (fun s => step_agent_id s = Some e.1) (plan_agent e.1 e.2).1 /\
    Forall (fun s => step_agent_id s = Some e.1) (plan_agent e.1 e.2).2) as Hpa.
  { intros [k a]. by apply Forall_app, plan_agent_steps. }
  unfold agent_steps. fold ap. rewrite (Hap snd), Hrm by (intros; apply Hpa).
  assert (steps_of id (stops fleet desired stopped status observed now) =
    match desired_agents !! id with
    | Some agent => (plan_agent id agent).1
    | None => if bool_decide (id ∈ known_agents) && is_observed observed id then [Stop id] else []
    end) as ->.
  { unfold stops. fold us ap. apply steps_of_sort.
    - rewrite steps_of_app, Hus, (Hap fst) by (intros; apply Hpa).
      destruct (desired_agents !! id).
      + by rewrite decide_False by (by intros (_ & ? & _)).
      + rewrite app_nil_r. clear Hus Hrm Hap. destruct (is_observed observed id);
          case_bool_decide; case_decide as Hd; try done;
          ((by destruct Hd as (? & _ & ?)) || (exfalso; apply Hd; auto)).
    - destruct (desired_agents !! id) as [a|]; [apply plan_agent_steps|].
      destruct (_ && _); simpl; lia. }
  destruct (desired_agents !! id) as [a|].
  - by rewrite decide_False by (by intros (_ & ?)).
  - case_bool_decide as Hk.
    + rewrite decide_True by done. by rewrite app_nil_r.
    + by rewrite decide_False by (by intros [? _]).
Qed.

(** ** Order *)

Lemma elem_of_stops s :
  s ∈ stops fleet desired stopped status observed now ->
  exists id, s = Stop id.
Proof.
  unfold stops. rewrite merge_sort_Permutation, elem_of_app. intros [Hs|Hs].
  - unfold undesired_stops in Hs. apply list_elem_of_fmap in Hs as (id & -> & _). eauto.
  - apply list_elem_of_join in Hs as (l & Hs & (pr & -> & Hl)%list_elem_of_fmap).
    unfold agent_plans in Hl. apply list_elem_of_fmap in Hl as ([k a] & -> & _).
    revert Hs. unfold Reconcile.plan_agent.
    repeat (case_match; simpl); rewrite ?list_elem_of_singleton, ?elem_of_nil; naive_solver.
Qed.

Lemma elem_of_agent_steps s :
  s ∈ agent_steps desired stopped status observed now ->
  (exists id, s = Materialize id) \/ (exists id h, s = Start id h) \/ (exists id c, s = NoteExit id c).
Proof.
  unfold agent_steps. intros (l & Hs & (pr & -> & Hl)%list_elem_of_fmap)%list_elem_of_join.
  unfold agent_plans in Hl. apply list_elem_of_fmap in Hl as ([k a] & -> & _).
  revert Hs. unfold Reconcile.plan_agent.
  repeat (case_match; simpl); rewrite ?elem_of_cons, ?elem_of_nil; naive_solver.
Qed.
End plan_lemmas.

(** The order of the documentation: stops, agent removals, crew removals,
    crew ensures, agent steps. *)
Definition rank (s : Step) : nat :=
  match s with
  | Stop _ => 0
  | RemoveAgent _ => 1
  | RemoveCrew _ _ => 2
  | EnsureCrew _ => 3
  | Materialize _ | Start _ _ | NoteExit _ _ => 4
  end.

Definition rank_le (s t : Step) : Prop := rank s <= rank t.

Lemma ranked_const n l : (forall s, s ∈ l -> rank s = n) -> StronglySorted rank_le l.
Proof.
  induction l as [|s l IH]; intros Hl; constructor.
  - apply IH. intros t Ht. apply Hl. by right.
  - apply Forall_forall. intros t Ht. unfold rank_le.
    rewrite (Hl s), (Hl t); [lia|by right|by left].
Qed.

Lemma ranked_app n l1 l2 :
  (forall s, s ∈ l1 -> rank s = n) -> (forall s, s ∈ l2 -> n <= rank s) ->
  StronglySorted rank_le l2 -> StronglySorted rank_le (l1 ++ l2).
Proof.
  intros H1 H2 Hs. apply StronglySorted_app_2; [|by eapply ranked_const|done].
  intros s t Hs1 Ht. unfold rank_le. rewrite (H1 s Hs1). by apply H2.
Qed.

Section plan_order.
Context `{Digest}.
Context (fleet : FleetName) (desired : option Fleet) (keep : Keep) (stopped : gset AgentId).
Context (status : FleetStatus) (observed : ObservedState) (now : Timestamp).

Lemma remove_agents_rank s : s ∈ remove_agents fleet desired status observed -> rank s = 1.
Proof.
  unfold remove_agents. destruct desired; [|by intros ?%not_elem_of_nil].
  by intros (? & -> & _)%list_elem_of_fmap.
Qed.

Lemma remove_crews_rank s : s ∈ remove_crews fleet desired keep status observed -> rank s = 2.
Proof. by intros (? & -> & _)%list_elem_of_fmap. Qed.

Lemma ensures_rank s : s ∈ ensures desired -> rank s = 3.
Proof. by intros (? & -> & _)%list_elem_of_fmap. Qed.

Lemma agent_steps_rank s : s ∈ agent_steps desired stopped status observed now -> rank s = 4.
Proof. intros Hs. apply elem_of_agent_steps in Hs. naive_solver. Qed.

Lemma plan_ranked : StronglySorted rank_le (plan fleet desired keep stopped status observed now).
Proof.
  unfold plan.
  apply (ranked_app 0); [by intros s (id & ->)%elem_of_stops|intros; lia|].
  apply (ranked_app 1); [apply remove_agents_rank| |].
  { intros s. rewrite !elem_of_app.
    intros [->%remove_crews_rank|[->%ensures_rank| ->%agent_steps_rank]]; lia. }
  apply (ranked_app 2); [apply remove_crews_rank| |].
  { intros s. rewrite !elem_of_app. intros [->%ensures_rank| ->%agent_steps_rank]; lia. }
  apply (ranked_app 3); [apply ensures_rank| |].
  { intros s ->%agent_steps_rank. lia. }
  apply (ranked_const 4), agent_steps_rank.
Qed.

Lemma elem_of_desired_crews c :
  c ∈ desired_crews desired <->
  exists id, is_Some (desired_agents desired !! id) /\ crew_ref id = c.
Proof.
  unfold desired_crews. rewrite elem_of_list_to_set, list_elem_of_fmap.
  setoid_rewrite elem_of_keys. naive_solver.
Qed.

Lemma elem_of_known_crews c :
  c ∈ known_crews fleet status observed <->
  (exists id, id ∈ known_agents fleet status observed /\ crew_ref id = c) \/
  (cr_fleet c = fleet /\ is_Some (crews observed !! cr_crew c)).
Proof.
  unfold known_crews. rewrite elem_of_union, !elem_of_list_to_set, !list_elem_of_fmap.
  setoid_rewrite elem_of_elems. setoid_rewrite elem_of_keys. split.
  - intros [(id & -> & ?)|(n & -> & ?)]; [left; eauto|by right].
  - intros [(id & ? & <-)|[Hf Hc]]; [left; eauto|right].
    exists (cr_crew c). split; [|done]. destruct c. simpl in *. congruence.
Qed.

Lemma plan_crew_steps c k :
  (EnsureCrew c ∈ plan fleet desired keep stopped status observed now <->
     c ∈ desired_crews desired) /\
  (RemoveCrew c k ∈ plan fleet desired keep stopped status observed now <->
     k = keep /\ c ∈ known_crews fleet status observed /\ c ∉ desired_crews desired).
Proof.
  unfold plan. rewrite !elem_of_app.
  assert (forall s n, rank s = n -> n <> 0 -> s ∉ stops fleet desired stopped status observed now)
    as Hst by (intros s n <- Hn (id & ->)%elem_of_stops; done).
  assert (forall s n, rank s = n -> n <> 1 -> s ∉ remove_agents fleet desired status observed)
    as Hra by (intros s n <- Hn ?%remove_agents_rank; done).
  assert (forall s n, rank s = n -> n <> 4 -> s ∉ agent_steps desired stopped status observed now)
    as Has by (intros s n <- Hn ?%agent_steps_rank; done).
  split; split.
  - intros [Hx|[Hx|[Hx|[Hx|Hx]]]].
    + by apply (Hst _ 3) in Hx.
    + by apply (Hra _ 3) in Hx.
    + by apply remove_crews_rank in Hx.
    + apply list_elem_of_fmap in Hx as (c' & [= <-] & Hx). by apply elem_of_elems.
    + by apply (Has _ 3) in Hx.
  - intros Hc. do 3 right. left. apply list_elem_of_fmap. exists c. by rewrite elem_of_elems.
  - intros [Hx|[Hx|[Hx|[Hx|Hx]]]].
    + by apply (Hst _ 2) in Hx.
    + by apply (Hra _ 2) in Hx.
    + apply list_elem_of_fmap in Hx as (c' & [= <- ->] & Hx).
      apply list_elem_of_filter in Hx as [? Hx]. by rewrite elem_of_elems in Hx.
    + by apply ensures_rank in Hx.
    + by apply (Has _ 2) in Hx.
  - intros (-> & Hk & Hd). do 2 right. left. apply list_elem_of_fmap. exists c.
    by rewrite list_elem_of_filter, elem_of_elems.
Qed.
End plan_order.

(** ** Specifications *)

Section plan_spec.
Context `{Digest}.
Context (stopped : gset AgentId) (status : FleetStatus) (observed : ObservedState) (now : Timestamp).

(** The fields of an agent's status the table reads. *)
Definition changed (id : AgentId) (agent : ResolvedAgent) : Prop :=
  (s ← agents status !! to_string id; st_applied_hash s) <> Some (hash agent).
Definition dead (id : AgentId) : Prop :=
  exists s, agents status !! to_string id = Some s /\ st_phase s = AgentPhase.Dead.
Definition unsettled (id : AgentId) : Prop :=
  exists s, agents status !! to_string id = Some s /\ st_phase s <> AgentPhase.Stopped.
(** The table of [plan]'s documentation, one constructor per row. *)
Inductive plan_row (id : AgentId) (agent : ResolvedAgent) : list Step -> Prop :=
| row_stopped : id ∈ stopped ->
    is_Some (observed_get observed id) \/ unsettled id -> plan_row id agent [Stop id]
| row_stopped_settled : id ∈ stopped ->
    observed_get observed id = None -> ~ unsettled id -> plan_row id agent []
| row_running pid : id ∉ stopped ->
    observed_get observed id = Some (Running pid) -> ~ changed id agent -> plan_row id agent []
| row_running_changed pid : id ∉ stopped ->
    observed_get observed id = Some (Running pid) -> changed id agent ->
    plan_row id agent [Stop id; Materialize id; Start id (hash agent)]
| row_exited_changed code : id ∉ stopped ->
    observed_get observed id = Some (Exited code) -> changed id agent ->
    plan_row id agent [Materialize id; Start id (hash agent)]
| row_exited_dead code : id ∉ stopped ->
    observed_get observed id = Some (Exited code) -> ~ changed id agent -> dead id ->
    plan_row id agent []
| row_exited_noted code : id ∉ stopped ->
    observed_get observed id = Some (Exited code) -> ~ changed id agent -> ~ dead id ->
    next_restart status id = None -> plan_row id agent [NoteExit id code]
| row_exited_due code due : id ∉ stopped ->
    observed_get observed id = Some (Exited code) -> ~ changed id agent -> ~ dead id ->
    next_restart status id = Some due -> (due <= now)%N ->
    plan_row id agent [Materialize id; Start id (hash agent)]
| row_exited_waiting code due : id ∉ stopped ->
    observed_get observed id = Some (Exited code) -> ~ changed id agent -> ~ dead id ->
    next_restart status id = Some due -> (now < due)%N -> plan_row id agent []
| row_absent_dead : id ∉ stopped ->
    observed_get observed id = None -> dead id -> ~ changed id agent -> plan_row id agent []
| row_absent : id ∉ stopped ->
    observed_get observed id = None -> ~ (dead id /\ ~ changed id agent) ->
    plan_row id agent [Materialize id; Start id (hash agent)].

Lemma changed_decide id agent : reflect (changed id agent) (agent_changed status id agent).
Proof. unfold agent_changed, changed. case_bool_decide; constructor; auto. Qed.

Lemma dead_decide id : reflect (dead id) (agent_dead status id).
Proof.
  unfold dead, agent_dead. destruct (agents status !! to_string id); [|constructor; naive_solver].
  case_bool_decide; constructor; naive_solver.
Qed.

Lemma unsettled_decide id : reflect (unsettled id) (agent_unsettled status id).
Proof.
  unfold unsettled, agent_unsettled.
  destruct (agents status !! to_string id); [|constructor; naive_solver].
  case_bool_decide; constructor; naive_solver.
Qed.

Lemma plan_agent_row id agent :
  plan_row id agent ((plan_agent stopped status observed now id agent).1 ++
                     (plan_agent stopped status observed now id agent).2).
Proof.
  unfold plan_agent, is_observed. case_bool_decide as Hs.
  - destruct (observed_get observed id) as [p|] eqn:Ho.
    + rewrite bool_decide_eq_true_2 by eauto. apply row_stopped; eauto.
    + rewrite bool_decide_eq_false_2 by (by intros []).
      destruct (unsettled_decide id); [apply row_stopped; auto|by apply row_stopped_settled].
  - destruct (observed_get observed id) as [[pid|code]|] eqn:Ho;
      destruct (changed_decide id agent).
    + by eapply row_running_changed.
    + by eapply row_running.
    + by eapply row_exited_changed.
    + destruct (dead_decide id); [by eapply row_exited_dead|].
      destruct (next_restart status id) as [due|] eqn:Hn; [|by eapply row_exited_noted].
      destruct (N.leb_spec due now); [by eapply row_exited_due|by eapply row_exited_waiting].
    + rewrite andb_false_r. apply row_absent; tauto.
    + destruct (dead_decide id); [by apply row_absent_dead|apply row_absent; tauto].
Qed.

(** The rows are exclusive: the table names one list of steps. *)
Lemma plan_row_unique id agent p q : plan_row id agent p -> plan_row id agent q -> p = q.
Proof.
  intros Hp Hq. destruct Hp, Hq; try done; try congruence; try (exfalso; tauto || congruence || lia).
  all: exfalso; match goal with
  | H : is_Some _ \/ _ |- _ => destruct H as [[? ?]|]; [congruence|tauto]
  | _ => simplify_eq; lia
  end.
Qed.
End plan_spec.

(** An agent the plan leaves alone. *)
Definition agent_settled `{Digest} (stopped : gset AgentId) (status : FleetStatus)
    (observed : ObservedState) (now : Timestamp) (id : AgentId) (agent : ResolvedAgent) : Prop :=
  if decide (id ∈ stopped) then observed_get observed id = None /\ ~ unsettled status id
  else ~ changed status id agent /\
    ((exists pid, observed_get observed id = Some (Running pid)) \/
     (~ (exists pid, observed_get observed id = Some (Running pid)) /\ dead status id) \/
     (exists code due, observed_get observed id = Some (Exited code) /\ ~ dead status id /\
        next_restart status id = Some due /\ (now < due)%N)).

Lemma plan_row_nil `{Digest} stopped status observed now id agent :
  plan_row stopped status observed now id agent [] <->
  agent_settled stopped status observed now id agent.
Proof.
  unfold agent_settled. split.
  - inversion 1; first [rewrite decide_True by done|rewrite decide_False by done];
      (split; [done|]); eauto 10; try done.
    all: right; left; split; [|done]; intros [? ?]; congruence.
  - case_decide as Hs.
    + intros [? ?]. by apply row_stopped_settled.
    + intros [Hc [[pid ?]|[[Hr Hd]|(code & due & ? & ? & ? & ?)]]].
      * by eapply row_running.
      * destruct (observed_get observed id) as [[pid|code]|] eqn:Ho; [naive_solver|..].
        -- by eapply row_exited_dead.
        -- by apply row_absent_dead.
      * by eapply row_exited_waiting.
Qed.

Section settled.
Context `{Digest}.
Context (fleet : FleetName) (desired : option Fleet) (keep : Keep) (stopped : gset AgentId).
Context (status : FleetStatus) (observed : ObservedState) (now : Timestamp).
Notation plan := (plan fleet desired keep stopped status observed now).

Lemma plan_only_ensures :
  plan = ensures desired <->
  remove_crews fleet desired keep status observed = [] /\ forall id, steps_of id plan = [].
Proof.
  split.
  - intros Hp. split.
    + assert (length plan = length (ensures desired)) as Hl by (by rewrite Hp).
      unfold Reconcile.plan in Hl. rewrite !length_app in Hl.
      apply length_zero_iff_nil. lia.
    + intros id. rewrite Hp. by apply steps_of_none, Forall_fmap, Forall_true.
  - intros [Hrc Hsteps].
    assert (forall l, (forall s, s ∈ l -> s ∈ plan /\ is_Some (step_agent_id s)) -> l = []) as Hnil.
    { intros [|s l] Hl; [done|]. destruct (Hl s) as [Hin [id Hid]]; [by left|].
      specialize (Hsteps id). exfalso. apply (not_elem_of_nil s). rewrite <- Hsteps.
      by apply list_elem_of_filter. }
    unfold Reconcile.plan in Hnil |- *. rewrite Hrc in *.
    rewrite (Hnil (stops _ _ _ _ _ _)), (Hnil (remove_agents _ _ _ _)),
      (Hnil (agent_steps _ _ _ _ _)); [by rewrite app_nil_r|..]; intros s Hs.
    + split; [rewrite !elem_of_app; tauto|]. apply elem_of_agent_steps in Hs. naive_solver.
    + split; [rewrite !elem_of_app; tauto|]. apply remove_agents_rank in Hs.
      by destruct s.
    + split; [rewrite !elem_of_app; tauto|]. apply elem_of_stops in Hs. naive_solver.
Qed.
End settled.

Lemma remove_crews_nil fleet desired keep status observed :
  remove_crews fleet desired keep status observed = [] <->
  forall c, c ∈ known_crews fleet status observed -> c ∈ desired_crews desired.
Proof.
  split.
  - intros Hn c Hc. destruct (decide (c ∈ desired_crews desired)) as [|Hd]; [done|].
    exfalso. apply (not_elem_of_nil (RemoveCrew c keep)). rewrite <- Hn.
    apply list_elem_of_fmap. exists c. by rewrite list_elem_of_filter, elem_of_elems.
  - intros Hc. unfold remove_crews.
    destruct (filter _ (elems (known_crews fleet status observed))) as [|c l] eqn:Hf; [done|].
    assert (c ∈ c :: l) as Hin by by left. rewrite <- Hf in Hin.
    apply list_elem_of_filter in Hin as [Hn Hk]. rewrite elem_of_elems in Hk.
    by destruct Hn; apply Hc.
Qed.

(** ** Properties *)

(** C2: what a plan does to one agent is the documented table: for a desired
    agent, the plan's steps for it, in order, are exactly the row its
    observation and status select; an agent known but not desired is stopped
    when observed and removed unless the fleet is down; no other agent is
    touched. *)
Theorem plan_table `{Digest} fleet desired keep stopped status observed now (id : AgentId) :
  match desired_agents desired !! id with
  | Some agent => forall steps,
      plan_row stopped status observed now id agent steps <->
      steps = steps_of id (plan fleet desired keep stopped status observed now)
  | None =>
      steps_of id (plan fleet desired keep stopped status observed now) =
      if bool_decide (is_Some (agents status !! to_string id) \/
                      id_fleet id = fleet /\ is_Some (observed_get observed id))
      then (if is_observed observed id then [Stop id] else []) ++
           (match desired with Some _ => [RemoveAgent id] | None => [] end)
      else []
  end.
Proof.
  pose proof (steps_of_plan fleet desired keep stopped status observed now id) as Hp.
  destruct (desired_agents desired !! id) as [agent|].
  - intros steps. rewrite Hp. split.
    + intros Hrow. eapply plan_row_unique; [exact Hrow|]. apply plan_agent_row.
    + intros ->. apply plan_agent_row.
  - rewrite Hp.
    assert (id ∈ known_agents fleet status observed <->
      is_Some (agents status !! to_string id) \/
      id_fleet id = fleet /\ is_Some (observed_get observed id)) as Hk.
    { by rewrite elem_of_known, elem_of_agent_ids. }
    by rewrite (bool_decide_ext _ _ Hk).
Qed.

(** A plan runs its stops first, then the agent removals, the crew
    removals, the crew ensures and the agents' own steps; it ensures exactly
    the crews of desired agents and removes, with the caller's [keep],
    exactly the known crews that have none. *)
Theorem plan_order `{Digest} fleet desired keep stopped status observed now :
  let p := plan fleet desired keep stopped status observed now in
  StronglySorted rank_le p /\
  forall c k,
    (EnsureCrew c ∈ p <-> exists id, is_Some (desired_agents desired !! id) /\ crew_ref id = c) /\
    (RemoveCrew c k ∈ p <->
       k = keep /\ ~ (exists id, is_Some (desired_agents desired !! id) /\ crew_ref id = c) /\
       ((exists id, (is_Some (agents status !! to_string id) \/
                     id_fleet id = fleet /\ is_Some (observed_get observed id)) /\ crew_ref id = c) \/
        (cr_fleet c = fleet /\ is_Some (crews observed !! cr_crew c)))).
Proof.
  intros p. split; [apply plan_ranked|]. intros c k. subst p.
  destruct (plan_crew_steps fleet desired keep stopped status observed now c k) as [-> ->].
  rewrite <- elem_of_desired_crews, elem_of_known_crews.
  setoid_rewrite elem_of_known. setoid_rewrite elem_of_agent_ids. tauto.
Qed.

(** the reconciler is quiescent exactly when there is nothing left to do:
    a plan holds only the crew ensures if and only if no known crew is
    undesired, no known agent is, and every desired agent is settled (running
    its current specification, given up, waiting out a backoff, or stopped on
    request and gone). *)
Theorem plan_quiescent `{Digest} fleet desired keep stopped status observed now :
  plan fleet desired keep stopped status observed now = ensures desired <->
  (forall c, c ∈ known_crews fleet status observed -> c ∈ desired_crews desired) /\
  (forall id, id ∈ known_agents fleet status observed -> is_Some (desired_agents desired !! id)) /\
  (forall id agent, desired_agents desired !! id = Some agent ->
     agent_settled stopped status observed now id agent).
Proof.
  rewrite plan_only_ensures, remove_crews_nil. setoid_rewrite steps_of_plan.
  split.
  - intros [Hc Hs]. split_and!; [done|..].
    + intros id Hid. specialize (Hs id).
      destruct (desired_agents desired !! id); [eauto|].
      rewrite bool_decide_eq_true_2 in Hs by done.
      destruct desired; [by destruct (is_observed observed id)|].
      exfalso. assert (crew_ref id ∈ desired_crews None) as Hd.
      { apply Hc, elem_of_known_crews. left. eauto. }
      apply elem_of_desired_crews in Hd as (id' & [a Ha] & _).
      unfold desired_agents in Ha. by rewrite lookup_empty in Ha.
    + intros id agent Ha. specialize (Hs id). rewrite Ha in Hs.
      apply plan_row_nil. rewrite <- Hs. apply plan_agent_row.
  - intros (Hc & Hk & Ha). split; [done|]. intros id.
    destruct (desired_agents desired !! id) as [agent|] eqn:Hd.
    + eapply plan_row_unique; [apply plan_agent_row|]. by apply plan_row_nil, Ha.
    + rewrite bool_decide_eq_false_2; [done|]. intros Hid%Hk. rewrite Hd in Hid. by destruct Hid.
Qed.
