(* ===== verification/Execute.v ===== *)
(** Walking a plan through the ports ([crates/balerix-core/src/ports.rs],
    [reconcile/execute.rs]): the port interface and its errors, [execute],
    [reconcile_pass], and how one agent's failure is contained. *)

From S2P Require Import Prelude Str BTree Names Json Fleet Status Reconcile.
From S2P Require Repo.

(** ** Values that cross the ports *)

Record LaunchPlan := {
  lp_cwd : string;
  lp_env : gmap string string;
  lp_argv : list string;
  lp_script : string;
}.

Record HookTarget := { ht_url : string; ht_secret : string }.

Record CredentialBundle := {
  claude_credentials : option Value;
  claude_account : option Value;
  gh_token : option string;
}.

Record CrewTools := { ct_fleet : gmap string string; ct_crew : gmap string string }.

(** [str::lines]. *)
Definition lines (s : string) : list string :=
  let pieces := split_char (ascii_of_N 10) s in
  let pieces := match last pieces with
                | Some EmptyString => removelast pieces
                | _ => pieces
                end in
  (fun l => default l (strip_suffix (String (ascii_of_N 13) EmptyString) l)) <$> pieces.

(** First line of a tool's stderr, for one-line error displays. *)
Definition first_line (s : string) : string :=
  trim (default EmptyString (snd <$> list_find (fun l => is_empty (trim l) = false) (lines s))).

Inductive MaterializeError :=
| MTool (id tool subcommand : string) (args : list string) (stderr : string)
| MIo (id path message : string)
| MSandboxConflict (id path message : string)
| MInvalid (id message : string).

#[export] Instance materialize_error_display : Display MaterializeError := fun e =>
  match e with
  | MTool id tool subcommand _ stderr =>
      id +:+ ": " +:+ tool +:+ " " +:+ subcommand +:+ ": " +:+ first_line stderr
  | MIo id path message => id +:+ ": " +:+ path +:+ ": " +:+ message
  | MSandboxConflict id path message => id +:+ ": sandbox." +:+ path +:+ ": " +:+ message
  | MInvalid id message => id +:+ ": " +:+ message
  end.

Inductive RunnerError :=
| RTool (id subcommand : string) (args : list string) (stderr : string)
| RParse (id message : string)
| RStillRunning (id : string) (pid : N)
| RProc (id message : string)
| RLink (id message : string).

#[export] Instance runner_error_display : Display RunnerError := fun e =>
  match e with
  | RTool id subcommand _ stderr =>
      id +:+ ": tmux " +:+ subcommand +:+ ": " +:+ first_line stderr
  | RParse id message => id +:+ ": cannot parse tmux output: " +:+ message
  | RStillRunning id pid =>
      id +:+ ": agent processes still running after stop (pid " +:+ pretty pid +:+ ")"
  | RProc id message =>
      id +:+ ": cannot tell whether the agent's processes are gone: " +:+ message
  | RLink id message => id +:+ ": " +:+ message
  end.

(** ** The ports ([AgentRunner], [Materializer], [Clock]) over a world [W] *)

Class Ports (W : Type) := {
  clock_now : W -> Timestamp * W;
  runner_ensure_crew : CrewRef -> W -> result RunnerError unit * W;
  runner_ensure_agent : AgentId -> LaunchPlan -> W -> result RunnerError unit * W;
  runner_stop_agent : AgentId -> W -> result RunnerError unit * W;
  runner_stop_crew : CrewRef -> W -> result RunnerError unit * W;
  runner_observe : FleetName -> W -> result RunnerError ObservedState * W;
  mat_ensure_crew : CrewRef -> Repo.RepoRef -> string -> GitSettings -> CredentialBundle ->
    CrewTools -> W -> result MaterializeError unit * W;
  mat_materialize : ResolvedAgent -> CredentialBundle -> HookTarget -> W ->
    result MaterializeError LaunchPlan * W;
  mat_remove_agent : AgentId -> W -> result MaterializeError unit * W;
  mat_remove_crew : CrewRef -> Keep -> W -> result MaterializeError unit * W;
}.

Record ReconcileContext := {
  cx_fleet : FleetName;
  cx_desired : option Fleet;
  cx_keep : Keep;
  cx_stopped : gset AgentId;
  cx_creds : CredentialBundle;
  cx_hooks : AgentId -> HookTarget;
  cx_policy : ReconcilePolicy;
}.

Record ExecuteReport := { failures : list (Step * string); skipped : list Step }.

Definition all_ok (r : ExecuteReport) : bool :=
  match failures r, skipped r with [], [] => true | _, _ => false end.

(** The locals of [execute]'s loop. *)
Record ExecState := {
  ex_status : FleetStatus;
  ex_report : ExecuteReport;
  ex_failed_agents : list AgentId;
  ex_failed_removals : list AgentId;
  ex_failed_crews : gmap CrewRef string;
  ex_plans : gmap AgentId LaunchPlan;
}.

Definition exec_init (status : FleetStatus) : ExecState :=
  {| ex_status := status; ex_report := {| failures := []; skipped := [] |};
     ex_failed_agents := []; ex_failed_removals := []; ex_failed_crews := ∅; ex_plans := ∅ |}.

(** [report.skipped.push(step); continue], with the status so far. *)
Definition skip (s : ExecState) (step : Step) (status : FleetStatus) : ExecState :=
  {| ex_status := status;
     ex_report := {| failures := failures (ex_report s);
                     skipped := skipped (ex_report s) ++ [step] |};
     ex_failed_agents := ex_failed_agents s; ex_failed_removals := ex_failed_removals s;
     ex_failed_crews := ex_failed_crews s; ex_plans := ex_plans s |}.

Definition of_crew (crew : CrewRef) (id : AgentId) : bool := bool_decide (crew_ref id = crew).

(** What a crew held back appends to the agents whose removal failed. *)
Definition hold_message (crew : CrewRef) : string :=
  "; crew " +:+ to_string crew +:+ " is kept until this is fixed, or `balerix down "
  +:+ to_string (cr_fleet crew) +:+ " --purge` deletes it unharvested".

Definition hold_crew (crew : CrewRef) (removals : list AgentId) (status : FleetStatus) : FleetStatus :=
  foldl (fun status id =>
    entry (to_string id) (fun a => set_st_message (st_message a +:+ hold_message crew) a) status)
    status (filter (fun id => of_crew crew id = true) removals).

Section execute.
Context `{Ports W} (ctx : ReconcileContext).

Definition ex_agents : gmap AgentId ResolvedAgent := desired_agents (cx_desired ctx).

(** A port call with its error displayed. *)
Definition show {E A} `{Display E} (r : result E A * W) : result string A * W :=
  (map_err to_string r.1, r.2).

Definition ensure_crew (crew : CrewRef) (w : W) : result string unit * W :=
  let missing := to_string crew +:+ ": not in the desired fleet" in
  match cx_desired ctx with
  | None => (Err missing, w)
  | Some fleet =>
      match fleet_crews fleet !! cr_crew crew with
      | None => (Err missing, w)
      | Some desired =>
          match mat_ensure_crew crew (crew_repo desired) (crew_git_ref desired)
                  (crew_git desired) (cx_creds ctx)
                  {| ct_fleet := fleet_tools fleet; ct_crew := crew_tools desired |} w with
          | (Err e, w) => (Err (to_string e), w)
          | (Ok _, w) => show (runner_ensure_crew crew w)
          end
      end
  end.

(** The [match step] of the loop: the outcome, and the launch plans with the
    one a materialization returned. *)
Definition run_step (plans : gmap AgentId LaunchPlan) (step : Step) (w : W)
    : result string unit * gmap AgentId LaunchPlan * W :=
  let keep_plans (r : result string unit * W) := (r.1, plans, r.2) in
  match step with
  | Stop id => keep_plans (show (runner_stop_agent id w))
  | RemoveAgent id => keep_plans (show (mat_remove_agent id w))
  | RemoveCrew crew keep =>
      match runner_stop_crew crew w with
      | (Err e, w) => (Err (to_string e), plans, w)
      | (Ok _, w) => keep_plans (show (mat_remove_crew crew keep w))
      end
  | EnsureCrew crew => keep_plans (ensure_crew crew w)
  | Materialize id =>
      match ex_agents !! id with
      | Some agent =>
          match mat_materialize agent (cx_creds ctx) (cx_hooks ctx id) w with
          | (Ok p, w) => (Ok tt, <[id := p]> plans, w)
          | (Err e, w) => (Err (to_string e), plans, w)
          end
      | None => (Err (to_string id +:+ ": not in the desired fleet"), plans, w)
      end
  | Start id _ =>
      match plans !! id with
      | Some p => keep_plans (show (runner_ensure_agent id p w))
      | None => (Err (to_string id +:+ ": no launch plan (materialize did not run)"), plans, w)
      end
  | NoteExit _ _ => (Ok tt, plans, w)
  end.

(** A step that runs: the clock is read, the port called, the outcome folded
    into the status and, when it failed, into the report. *)
Definition perform (s : ExecState) (step : Step) (w : W) : ExecState * W :=
  let '(now, w) := clock_now w in
  let '(outcome, plans, w) := run_step (ex_plans s) step w in
  let status := apply (ex_status s) step outcome (cx_policy ctx) now in
  match outcome with
  | Ok _ =>
      ({| ex_status := status; ex_report := ex_report s; ex_failed_agents := ex_failed_agents s;
          ex_failed_removals := ex_failed_removals s; ex_failed_crews := ex_failed_crews s;
          ex_plans := plans |}, w)
  | Err e =>
      ({| ex_status := status;
          ex_report := {| failures := failures (ex_report s) ++ [(step, e)];
                          skipped := skipped (ex_report s) |};
          ex_failed_agents := ex_failed_agents s ++
            match step with
            | EnsureCrew _ => []
            | _ => match step_agent_id step with Some id => [id] | None => [] end
            end;
          ex_failed_removals := ex_failed_removals s ++
            match step with RemoveAgent id => [id] | _ => [] end;
          ex_failed_crews :=
            match step with
            | EnsureCrew crew => <[crew := e]> (ex_failed_crews s)
            | _ => ex_failed_crews s
            end;
          ex_plans := plans |}, w)
  end.

(** The body of [for step in plan]. *)
Definition exec_step (s : ExecState) (step : Step) (w : W) : ExecState * W :=
  match step_agent_id step with
  | Some id =>
      if bool_decide (id ∈ ex_failed_agents s) then (skip s step (ex_status s), w)
      else match ex_failed_crews s !! crew_ref id with
           | Some err =>
               (skip s step (entry (to_string id) (set_st_message err) (ex_status s)), w)
           | None => perform s step w
           end
  | None =>
      match step with
      | RemoveCrew crew _ =>
          if existsb (of_crew crew) (ex_failed_agents s)
          then (skip s step (hold_crew crew (ex_failed_removals s) (ex_status s)), w)
          else perform s step w
      | _ => perform s step w
      end
  end.

Fixpoint exec_steps (p : list Step) (s : ExecState) (w : W) : ExecState * W :=
  match p with
  | [] => (s, w)
  | step :: p' => let '(s, w) := exec_step s step w in exec_steps p' s w
  end.

Definition execute (p : list Step) (status : FleetStatus) (w : W)
    : FleetStatus * ExecuteReport * W :=
  let '(s, w) := exec_steps p (exec_init status) w in
  (finish_pass (ex_status s) (bool_decide (cx_desired ctx = None)) (all_ok (ex_report s)),
   ex_report s, w).

(** One full pass: observe, plan, execute. *)
Definition reconcile_pass `{Digest} (status : FleetStatus) (w : W)
    : result RunnerError (FleetStatus * list Step * ExecuteReport) * W :=
  match runner_observe (cx_fleet ctx) w with
  | (Err e, w) => (Err e, w)
  | (Ok observed, w) =>
      let '(now, w) := clock_now w in
      let p := plan (cx_fleet ctx) (cx_desired ctx) (cx_keep ctx) (cx_stopped ctx) status
                 observed now in
      let '(status, report, w) := execute p status w in
      (Ok (status, p, report), w)
  end.
End execute.

(** ** Containment of failures *)

Section containment.
Context `{Ports W} (ctx : ReconcileContext).
Notation exec_step := (exec_step ctx).
Notation exec_steps := (exec_steps ctx).

Lemma exec_steps_app p q s w :
  exec_steps (p ++ q) s w = let '(s, w) := exec_steps p s w in exec_steps q s w.
Proof.
  revert s w; induction p as [|step p IH]; intros s w; simpl; [done|].
  destruct (exec_step s step w). apply IH.
Qed.

(** What a step can do to the failure records: nothing is ever taken back. *)
Record grows (s s' : ExecState) : Prop := {
  gr_failed : forall id, id ∈ ex_failed_agents s -> id ∈ ex_failed_agents s';
  gr_crews : forall c, is_Some (ex_failed_crews s !! c) -> is_Some (ex_failed_crews s' !! c);
}.

#[local] Instance grows_preorder : PreOrder grows.
Proof.
  split; [by split|]. intros s1 s2 s3 [H1 H2] [H3 H4]. split; eauto.
Qed.

Lemma perform_grows s step w s' w' : perform ctx s step w = (s', w') -> grows s s'.
Proof.
  unfold perform. destruct (clock_now w) as [now w1].
  destruct (run_step ctx (ex_plans s) step w1) as [[[u|e] plans] w2]; intros [= <- _]; [by split|].
  split; simpl.
  - intros id. rewrite elem_of_app. by left.
  - intros c Hc. destruct step; try done. destruct (decide (c = crew)) as [->|].
    + rewrite lookup_insert_eq. eauto.
    + by rewrite lookup_insert_ne.
Qed.

Lemma exec_step_grows s step w s' w' : exec_step s step w = (s', w') -> grows s s'.
Proof.
  unfold Execute.exec_step. destruct (step_agent_id step) as [id|].
  - case_bool_decide; [by intros [= <- _]|].
    destruct (ex_failed_crews s !! _); [by intros [= <- _]|]. apply perform_grows.
  - destruct step; try apply perform_grows.
    destruct (existsb _ _); [by intros [= <- _]|]. apply perform_grows.
Qed.

Lemma exec_steps_grows p s w s' w' : exec_steps p s w = (s', w') -> grows s s'.
Proof.
  revert s w; induction p as [|step p IH]; intros s w; simpl; [by intros [= <- _]|].
  destruct (exec_step s step w) as [s1 w1] eqn:Hs. intros Hp%IH.
  etrans; [by eapply exec_step_grows|done].
Qed.

(** A failed step puts its agent (or its crew) among the failed ones. *)
Lemma failed_step_recorded s step w s' w' :
  exec_step s step w = (s', w') -> failures (ex_report s') <> failures (ex_report s) ->
  match step_agent_id step, step with
  | Some id, _ => id ∈ ex_failed_agents s'
  | None, EnsureCrew c => is_Some (ex_failed_crews s' !! c)
  | None, _ => True
  end.
Proof.
  assert (perform ctx s step w = (s', w') -> failures (ex_report s') <> failures (ex_report s) ->
    match step_agent_id step, step with
    | Some id, _ => id ∈ ex_failed_agents s'
    | None, EnsureCrew c => is_Some (ex_failed_crews s' !! c)
    | None, _ => True
    end) as Hperf.
  { unfold perform. destruct (clock_now w) as [now w1].
    destruct (run_step ctx (ex_plans s) step w1) as [[[u|e] plans] w2]; intros [= <- _]; [done|].
    intros _. destruct step; simpl; try done; rewrite ?lookup_insert_eq; try (by eauto);
      rewrite elem_of_app; right; by left. }
  unfold Execute.exec_step. destruct (step_agent_id step) as [id|] eqn:Hid; [|by destruct step].
  case_bool_decide; [by intros [= <- _]|].
  destruct (ex_failed_crews s !! _); [by intros [= <- _]|]. done.
Qed.

(** Steps of a failed agent, and of an agent of a failed crew, touch nothing
    but the report (and the agent's message). *)
Lemma failed_agent_skipped s step w id :
  step_agent_id step = Some id -> id ∈ ex_failed_agents s ->
  exec_step s step w = (skip s step (ex_status s), w).
Proof.
  intros Hid Hf. unfold Execute.exec_step. rewrite Hid. by rewrite bool_decide_eq_true_2.
Qed.

Lemma failed_crew_skipped s step w id :
  step_agent_id step = Some id -> is_Some (ex_failed_crews s !! crew_ref id) ->
  exists status, exec_step s step w = (skip s step status, w).
Proof.
  intros Hid [e He]. unfold Execute.exec_step. rewrite Hid, He.
  case_bool_decide; eauto.
Qed.

Lemma crew_held s crew keep w id :
  id ∈ ex_failed_agents s -> crew_ref id = crew ->
  exec_step s (RemoveCrew crew keep) w =
    (skip s (RemoveCrew crew keep) (hold_crew crew (ex_failed_removals s) (ex_status s)), w).
Proof.
  intros Hf Hc. unfold Execute.exec_step. simpl.
  rewrite (proj2 (existsb_exists _ _)); [done|]. exists id.
  split; [by apply list_elem_of_In|]. by apply bool_decide_eq_true.
Qed.

(** Every key a pass writes is a printed agent id. *)
Lemma keys_ok_hold_crew crew removals status :
  keys_ok status -> keys_ok (hold_crew crew removals status).
Proof.
  unfold hold_crew. generalize (filter (fun id => of_crew crew id = true) removals). intros l.
  revert status. induction l as [|id l IH]; intros status Hs; [done|]. simpl.
  by apply IH, keys_ok_entry.
Qed.

Lemma keys_ok_perform s step w s' w' :
  perform ctx s step w = (s', w') -> keys_ok (ex_status s) -> keys_ok (ex_status s').
Proof.
  unfold perform. destruct (clock_now w) as [now w1].
  destruct (run_step ctx (ex_plans s) step w1) as [[[u|e] plans] w2]; intros [= <- _] Hk;
    by apply keys_ok_apply.
Qed.

Lemma keys_ok_exec_step s step w s' w' :
  exec_step s step w = (s', w') -> keys_ok (ex_status s) -> keys_ok (ex_status s').
Proof.
  unfold Execute.exec_step. intros Hs Hk. destruct (step_agent_id step) as [id|].
  - case_bool_decide; [by injection Hs as <- _|].
    destruct (ex_failed_crews s !! _); [|by eapply keys_ok_perform].
    injection Hs as <- _. by apply keys_ok_entry.
  - destruct step; try (by eapply keys_ok_perform).
    destruct (existsb _ _); [|by eapply keys_ok_perform].
    injection Hs as <- _. by apply keys_ok_hold_crew.
Qed.

Lemma keys_ok_exec_steps p s w s' w' :
  exec_steps p s w = (s', w') -> keys_ok (ex_status s) -> keys_ok (ex_status s').
Proof.
  revert s w; induction p as [|step p IH]; intros s w; simpl; [by intros [= <- _]|].
  destruct (exec_step s step w) as [s1 w1] eqn:Hs. intros Hp Hk.
  eapply IH; [exact Hp|]. by eapply keys_ok_exec_step.
Qed.
End containment.

(** ** Generations: a pass keeps the status's generation, and the observed
    one moves to it or stays *)

Definition gens_le (st st' : FleetStatus) : Prop :=
  generation st' = generation st /\
  (observed_generation st' = observed_generation st \/ observed_generation st' = generation st).

#[export] Instance gens_le_preorder : PreOrder gens_le.
Proof.
  split; [by split; auto|]. unfold gens_le. intros s1 s2 s3 [H1 H2] [H3 H4].
  rewrite H3, H1. rewrite H1 in H4. split; [done|].
  destruct H2, H4; (left; congruence) || (right; congruence).
Qed.

Lemma gens_le_same st st' :
  generation st' = generation st -> observed_generation st' = observed_generation st -> gens_le st st'.
Proof. split; auto. Qed.

Lemma gens_le_apply st step outcome policy now : gens_le st (apply st step outcome policy now).
Proof. destruct step, outcome; by apply gens_le_same. Qed.

Lemma gens_le_finish_pass st t ok : gens_le st (finish_pass st t ok).
Proof. unfold finish_pass. destruct ok; split; auto. Qed.

Lemma gens_le_fold {A} (f : FleetStatus -> A -> FleetStatus) l st :
  (forall st x, gens_le st (f st x)) -> gens_le st (foldl f st l).
Proof.
  intros Hf. revert st. induction l as [|x l IH]; intros st; simpl; [done|].
  etrans; [apply Hf|apply IH].
Qed.

Section gens.
Context `{Ports W} (ctx : ReconcileContext).

Lemma gens_le_perform s step w s' w' :
  perform ctx s step w = (s', w') -> gens_le (ex_status s) (ex_status s').
Proof.
  unfold perform. destruct (clock_now w) as [now w1].
  destruct (run_step ctx (ex_plans s) step w1) as [[[u|e] plans] w2]; intros [= <- _];
    apply gens_le_apply.
Qed.

Lemma gens_le_exec_step s step w s' w' :
  exec_step ctx s step w = (s', w') -> gens_le (ex_status s) (ex_status s').
Proof.
  unfold exec_step. intros Hs. destruct (step_agent_id step) as [id|].
  - case_bool_decide; [by injection Hs as <- _|].
    destruct (ex_failed_crews s !! _); [|by eapply gens_le_perform].
    injection Hs as <- _. by apply gens_le_same.
  - destruct step; try (by eapply gens_le_perform).
    destruct (existsb _ _); [|by eapply gens_le_perform].
    injection Hs as <- _. simpl. unfold hold_crew.
    apply gens_le_fold. intros st x. by apply gens_le_same.
Qed.

Lemma gens_le_exec_steps p s w s' w' :
  exec_steps ctx p s w = (s', w') -> gens_le (ex_status s) (ex_status s').
Proof.
  revert s w; induction p as [|step p IH]; intros s w; simpl; [by intros [= <- _]|].
  destruct (exec_step ctx s step w) as [s1 w1] eqn:Hs. intros Hp.
  etrans; [by eapply gens_le_exec_step|by eapply IH].
Qed.

Lemma gens_le_reconcile_pass `{Digest} status w status' p report w' :
  reconcile_pass ctx status w = (Ok (status', p, report), w') -> gens_le status status'.
Proof.
  unfold reconcile_pass. destruct (runner_observe _ w) as [[o|e] w1]; [|done].
  destruct (clock_now w1) as [now w2]. unfold execute.
  destruct (exec_steps _ _ _ w2) as [s w3] eqn:Hs. intros [= <- <- <- <-].
  etrans; [|apply gens_le_finish_pass]. by apply gens_le_exec_steps in Hs.
Qed.
End gens.

(** ** What the report says, and what it decides *)

(** A step is blocked by the failures before it: its agent failed, its
    agent's crew could not be ensured, or it removes the crew of an agent that
    failed. *)
Definition blocked (fs : list (Step * string)) (step : Step) : Prop :=
  exists f e, (f, e) ∈ fs /\
    match step_agent_id step, step with
    | Some id, _ => step_agent_id f = Some id \/ f = EnsureCrew (crew_ref id)
    | None, RemoveCrew crew _ => exists id, step_agent_id f = Some id /\ crew_ref id = crew
    | None, _ => False
    end.

(** The locals of the loop are what the report's failures say. *)
Record consistent (s : ExecState) : Prop := {
  co_agents : forall id, id ∈ ex_failed_agents s <->
    exists f e, (f, e) ∈ failures (ex_report s) /\ step_agent_id f = Some id;
  co_crews : forall c, is_Some (ex_failed_crews s !! c) <->
    exists e, (EnsureCrew c, e) ∈ failures (ex_report s);
}.

Section accounting.
Context `{Ports W} (ctx : ReconcileContext).
Notation exec_step := (exec_step ctx).
Notation exec_steps := (exec_steps ctx).

Lemma consistent_init status : consistent (exec_init status).
Proof.
  split; simpl.
  - intros id. rewrite elem_of_nil. split; [done|]. by intros (? & ? & ?%not_elem_of_nil & _).
  - intros c. rewrite lookup_empty. split; [by intros []|]. by intros (? & ?%not_elem_of_nil).
Qed.

Lemma consistent_skip s step status : consistent s -> consistent (skip s step status).
Proof. intros [Ha Hc]. by split. Qed.

Lemma elem_of_snoc_failure (fs : list (Step * string)) step e (P : Step -> string -> Prop) :
  (exists f e', (f, e') ∈ fs ++ [(step, e)] /\ P f e') <->
  (exists f e', (f, e') ∈ fs /\ P f e') \/ P step e.
Proof.
  setoid_rewrite elem_of_app. setoid_rewrite list_elem_of_singleton. naive_solver.
Qed.

Lemma consistent_perform s step w s' w' :
  perform ctx s step w = (s', w') -> consistent s -> consistent s'.
Proof.
  unfold perform. destruct (clock_now w) as [now w1].
  destruct (run_step ctx (ex_plans s) step w1) as [[[u|e] plans] w2]; intros [= <- _] [Ha Hc];
    [by split|].
  split; simpl.
  - intros id.
    rewrite (elem_of_snoc_failure _ step e (fun f _ => step_agent_id f = Some id)), elem_of_app, Ha.
    apply or_iff_compat_l.
    destruct step; simpl; rewrite ?list_elem_of_singleton, ?elem_of_nil; naive_solver.
  - intros c. setoid_rewrite elem_of_app. setoid_rewrite list_elem_of_singleton.
    destruct step; try (rewrite Hc; naive_solver).
    destruct (decide (crew = c)) as [->|Hne].
    + rewrite lookup_insert_eq. split; eauto.
    + rewrite lookup_insert_ne, Hc by done. naive_solver.
Qed.

(** The loop body, decided by the report alone. *)
Lemma exec_step_blocked s step w : consistent s ->
  (blocked (failures (ex_report s)) step ->
     exists status, exec_step s step w = (skip s step status, w)) /\
  (~ blocked (failures (ex_report s)) step -> exec_step s step w = perform ctx s step w).
Proof.
  intros [Ha Hc]. unfold blocked, Execute.exec_step.
  destruct (step_agent_id step) as [id|] eqn:Hid.
  - case_bool_decide as Hf.
    + split; [eauto|]. intros Hn. apply Ha in Hf. destruct Hn. naive_solver.
    + rewrite Ha in Hf. specialize (Hc (crew_ref id)).
      destruct (ex_failed_crews s !! crew_ref id) as [e|].
      * split; [eauto|]. intros Hn. destruct Hn. destruct Hc as [[e' Hc] _]; [eauto|]. naive_solver.
      * split; [|done]. intros (f & e & Hin & [Hs| ->]); [naive_solver|].
        destruct Hc as [_ [? ?]]; [eauto|done].
  - destruct step as [| |crew k|crew| | |]; try done; [|naive_solver].
    destruct (existsb (of_crew crew) (ex_failed_agents s)) eqn:Hex.
    + split; [eauto|]. intros Hn. destruct Hn.
      apply existsb_exists in Hex as (id & Hin%list_elem_of_In & Heq%bool_decide_eq_true).
      apply Ha in Hin. naive_solver.
    + split; [|done]. intros (f & e & Hin & id & Hs & Heq). exfalso.
      rewrite (proj2 (existsb_exists (of_crew crew) (ex_failed_agents s))) in Hex; [done|].
      exists id. split; [|by apply bool_decide_eq_true]. apply list_elem_of_In, Ha. eauto.
Qed.

Lemma consistent_exec_step s step w s' w' :
  exec_step s step w = (s', w') -> consistent s -> consistent s'.
Proof.
  intros Hs Hc. destruct (exec_step_blocked s step w Hc) as [Hb Hn].
  unfold Execute.exec_step in Hs. destruct (step_agent_id step) as [id|].
  - case_bool_decide; [injection Hs as <- _; by apply consistent_skip|].
    destruct (ex_failed_crews s !! _); [injection Hs as <- _; by apply consistent_skip|].
    by eapply consistent_perform.
  - destruct step; try (by eapply consistent_perform).
    destruct (existsb _ _); [injection Hs as <- _; by apply consistent_skip|].
    by eapply consistent_perform.
Qed.

Lemma consistent_exec_steps p s w s' w' :
  exec_steps p s w = (s', w') -> consistent s -> consistent s'.
Proof.
  revert s w; induction p as [|step p IH]; intros s w; simpl; [by intros [= <- _]|].
  destruct (exec_step s step w) as [s1 w1] eqn:Hs. intros Hp Hk.
  eapply IH; [exact Hp|]. by eapply consistent_exec_step.
Qed.

(** Every launch plan the loop holds was materialized, in this run, from the
    desired agent. *)
Definition plans_materialized (p : list Step) (plans : gmap AgentId LaunchPlan) : Prop :=
  forall id lp, plans !! id = Some lp ->
    Materialize id ∈ p /\ exists agent w0 w1, ex_agents ctx !! id = Some agent /\
      mat_materialize agent (cx_creds ctx) (cx_hooks ctx id) w0 = (Ok lp, w1).

Lemma run_step_plans s step w r plans w' :
  run_step ctx s step w = (r, plans, w') ->
  plans = s \/ exists id agent lp w1, step = Materialize id /\ plans = <[id := lp]> s /\
    ex_agents ctx !! id = Some agent /\
    mat_materialize agent (cx_creds ctx) (cx_hooks ctx id) w = (Ok lp, w1).
Proof.
  destruct step as [i|i|c k|c|i|i h|i code]; simpl; intros Hr;
    repeat (case_match; simplify_eq; simpl in * ); try (left; congruence).
  right. eauto 10.
Qed.

Lemma perform_plans s step w s' w' p :
  perform ctx s step w = (s', w') -> plans_materialized p (ex_plans s) ->
  plans_materialized (p ++ [step]) (ex_plans s').
Proof.
  unfold perform. destruct (clock_now w) as [now w1].
  destruct (run_step ctx (ex_plans s) step w1) as [[o plans] w2] eqn:Hr. intros Hs Hp.
  assert (ex_plans s' = plans) as -> by (destruct o; by injection Hs as <- _).
  intros id lp. apply run_step_plans in Hr as [->|(i & agent & lp' & w3 & -> & -> & Ha & Hm)].
  - intros (Hin & ?)%Hp. rewrite elem_of_app. eauto.
  - rewrite elem_of_app, list_elem_of_singleton. destruct (decide (i = id)) as [->|Hne].
    + rewrite lookup_insert_eq. intros [= ->]. eauto 10.
    + rewrite lookup_insert_ne by done. intros (Hin & ?)%Hp. eauto.
Qed.

Lemma skip_plans s step status p :
  plans_materialized p (ex_plans s) -> plans_materialized (p ++ [step]) (ex_plans (skip s step status)).
Proof. intros Hp id lp (Hin & ?)%Hp. rewrite elem_of_app. eauto. Qed.

Lemma exec_steps_plans p q s w s' w' :
  exec_steps p s w = (s', w') -> consistent s -> plans_materialized q (ex_plans s) ->
  plans_materialized (q ++ p) (ex_plans s').
Proof.
  revert q s w; induction p as [|step p IH]; intros q s w; simpl.
  { intros [= <- _] _. by rewrite app_nil_r. }
  destruct (exec_step s step w) as [s1 w1] eqn:Hs. intros Hp Hc Hq.
  rewrite cons_middle, app_assoc. eapply IH; [exact Hp|by eapply consistent_exec_step|].
  unfold Execute.exec_step in Hs. destruct (step_agent_id step) as [id|].
  - case_bool_decide; [injection Hs as <- _; by apply skip_plans|].
    destruct (ex_failed_crews s !! _); [injection Hs as <- _; by apply skip_plans|].
    by eapply perform_plans.
  - destruct step; try (by eapply perform_plans).
    destruct (existsb _ _); [injection Hs as <- _; by apply skip_plans|].
    by eapply perform_plans.
Qed.
End accounting.

(** ** Properties *)

Section properties.
Context `{Ports W} (ctx : ReconcileContext).

(** C3: one agent's failure is contained, exactly: wherever a step stands in
    a plan, if a failure the report holds by then blocks it (its agent's, its
    agent's crew's, or, for a crew removal, one of the crew's agents') no
    port is called and the step is reported as skipped, and otherwise it is
    performed as if nothing had failed. *)
Theorem execute_containment p status w s w' step :
  exec_steps ctx p (exec_init status) w = (s, w') ->
  (blocked (failures (ex_report s)) step ->
     exists s', exec_step ctx s step w' = (s', w') /\
       failures (ex_report s') = failures (ex_report s) /\
       skipped (ex_report s') = skipped (ex_report s) ++ [step]) /\
  (~ blocked (failures (ex_report s)) step ->
     exec_step ctx s step w' = perform ctx s step w').
Proof.
  intros Hex. assert (consistent s) as Hc.
  { eapply consistent_exec_steps; [exact Hex|apply consistent_init]. }
  destruct (exec_step_blocked ctx s step w' Hc) as [Hb Hn]. split; [|exact Hn].
  intros [st Hst]%Hb. exists (skip s step st). by rewrite Hst.
Qed.

(** An agent is started only on a launch plan that the materializer
    returned for it earlier in the same run, from the desired agent and with
    the context's credentials and the agent's own hook target. *)
Theorem start_materialized p status w s w' id hash lp :
  exec_steps ctx p (exec_init status) w = (s, w') -> ex_plans s !! id = Some lp ->
  (Materialize id ∈ p /\ exists agent w0 w1, ex_agents ctx !! id = Some agent /\
     mat_materialize agent (cx_creds ctx) (cx_hooks ctx id) w0 = (Ok lp, w1)) /\
  forall w2, run_step ctx (ex_plans s) (Start id hash) w2 =
    let '(r, w3) := runner_ensure_agent id lp w2 in (map_err to_string r, ex_plans s, w3).
Proof.
  intros Hex Hlp. split.
  - apply (exec_steps_plans ctx p [] _ _ _ _ Hex (consistent_init status)); [|exact Hlp].
    intros i l. simpl. by rewrite lookup_empty.
  - intros w2. simpl. rewrite Hlp. unfold show. by destruct (runner_ensure_agent id lp w2).
Qed.
End properties.
