(* ===== verification/Fakes.v ===== *)
(** The in-memory ports ([crates/balerix-core/src/fakes.rs]): the world the
    reconciler's own tests run it in, and a concrete [Ports] instance. *)

From S2P Require Import Prelude Str BTree Names Fleet Status Reconcile Execute.
From S2P Require Repo.

(** ** [Recorder]: the calls made, and the failures armed *)

Record Recorder := {
  rec_calls : list string;
  rec_fail_next : list (string * string * string);
}.

(** Records the call; returns the stderr to fail with, if one was armed. *)
Definition record (method id : string) (r : Recorder) : option string * Recorder :=
  let calls := rec_calls r ++ [method +:+ " " +:+ id] in
  match list_find (fun '(m, i, _) => m = method /\ i = id) (rec_fail_next r) with
  | None => (None, {| rec_calls := calls; rec_fail_next := rec_fail_next r |})
  | Some (pos, (_, _, stderr)) =>
      (Some stderr, {| rec_calls := calls; rec_fail_next := delete pos (rec_fail_next r) |})
  end.

Record FakeWorld := {
  fw_mat : Recorder;
  fw_crew_tools : list (string * list string * list string);
  fw_run : Recorder;
  fw_state : gmap FleetName ObservedState;
  fw_next_pid : N;
  fw_fail_observe : bool;
  fw_now : Timestamp;
}.

Definition empty_observed : ObservedState := {| crews := ∅ |}.

Definition set_fw_mat r w : FakeWorld :=
  {| fw_mat := r; fw_crew_tools := fw_crew_tools w; fw_run := fw_run w; fw_state := fw_state w;
     fw_next_pid := fw_next_pid w; fw_fail_observe := fw_fail_observe w; fw_now := fw_now w |}.
Definition set_fw_run r w : FakeWorld :=
  {| fw_mat := fw_mat w; fw_crew_tools := fw_crew_tools w; fw_run := r; fw_state := fw_state w;
     fw_next_pid := fw_next_pid w; fw_fail_observe := fw_fail_observe w; fw_now := fw_now w |}.
Definition set_fw_state s w : FakeWorld :=
  {| fw_mat := fw_mat w; fw_crew_tools := fw_crew_tools w; fw_run := fw_run w; fw_state := s;
     fw_next_pid := fw_next_pid w; fw_fail_observe := fw_fail_observe w; fw_now := fw_now w |}.
Definition set_fw_next_pid n w : FakeWorld :=
  {| fw_mat := fw_mat w; fw_crew_tools := fw_crew_tools w; fw_run := fw_run w; fw_state := fw_state w;
     fw_next_pid := n; fw_fail_observe := fw_fail_observe w; fw_now := fw_now w |}.
Definition push_crew_tools t w : FakeWorld :=
  {| fw_mat := fw_mat w; fw_crew_tools := fw_crew_tools w ++ [t]; fw_run := fw_run w;
     fw_state := fw_state w; fw_next_pid := fw_next_pid w; fw_fail_observe := fw_fail_observe w;
     fw_now := fw_now w |}.

(** ** [FakeMaterializer] *)

Definition mat_check (method id tool : string) (w : FakeWorld)
    : result MaterializeError unit * FakeWorld :=
  let '(armed, r) := record method id (fw_mat w) in
  (match armed with
   | Some stderr => Err (MTool id tool method [] stderr)
   | None => Ok tt
   end, set_fw_mat r w).

Definition flat (t : gmap string string) : list string :=
  (fun '(k, v) => k +:+ "=" +:+ v) <$> entries t.

Definition fake_mat_ensure_crew (crew : CrewRef) (tools : CrewTools) (w : FakeWorld)
    : result MaterializeError unit * FakeWorld :=
  mat_check "ensure_crew" (to_string crew) "git"
    (push_crew_tools (to_string crew, flat (ct_fleet tools), flat (ct_crew tools)) w).

Definition fake_materialize (agent : ResolvedAgent) (w : FakeWorld)
    : result MaterializeError LaunchPlan * FakeWorld :=
  let id := to_string (ra_id agent) in
  match mat_check "materialize" id "mise" w with
  | (Err e, w) => (Err e, w)
  | (Ok _, w) =>
      let root := "/fake/" +:+ id in
      (Ok {| lp_cwd := root +:+ "/workspace"; lp_env := ∅; lp_argv := ["fake"];
             lp_script := root +:+ "/launch.sh" |}, w)
  end.

Definition fake_remove_agent (agent : AgentId) (w : FakeWorld)
    : result MaterializeError unit * FakeWorld :=
  mat_check "remove_agent" (to_string agent) "rm" w.

Definition fake_remove_crew (crew : CrewRef) (keep : Keep) (w : FakeWorld)
    : result MaterializeError unit * FakeWorld :=
  let tag := to_string crew +:+ " repos=" +:+ bool_str (keep_repos keep)
             +:+ " sessions=" +:+ bool_str (keep_sessions keep) in
  match mat_check "remove_crew" tag "rm" w with
  | (Err (MTool _ tool subcommand args stderr), w) =>
      (Err (MTool (to_string crew) tool subcommand args stderr), w)
  | r => r
  end.

(** ** [FakeRunner] *)

Definition run_check (method id : string) (w : FakeWorld) : result RunnerError unit * FakeWorld :=
  let '(armed, r) := record method id (fw_run w) in
  (match armed with
   | Some stderr => Err (RTool id method [] stderr)
   | None => Ok tt
   end, set_fw_run r w).

(** [set_state]: the fleet's entry is created when absent. *)
Definition set_state (id : AgentId) (p : ProcessState) (w : FakeWorld) : FakeWorld :=
  set_fw_state
    (<[id_fleet id := observed_set id p (default empty_observed (fw_state w !! id_fleet id))]>
       (fw_state w)) w.

Definition fake_ensure_crew (crew : CrewRef) (w : FakeWorld) : result RunnerError unit * FakeWorld :=
  match run_check "ensure_crew" (to_string crew) w with
  | (Err e, w) => (Err e, w)
  | (Ok _, w) =>
      let o := default empty_observed (fw_state w !! cr_fleet crew) in
      (Ok tt, set_fw_state (<[cr_fleet crew :=
         {| crews := <[cr_crew crew := default ∅ (crews o !! cr_crew crew)]> (crews o) |}]>
         (fw_state w)) w)
  end.

Definition fake_ensure_agent (agent : AgentId) (w : FakeWorld)
    : result RunnerError unit * FakeWorld :=
  match run_check "ensure_agent" (to_string agent) w with
  | (Err e, w) => (Err e, w)
  | (Ok _, w) =>
      let pid := wrapping_add_u32 (fw_next_pid w) 1 in
      (Ok tt, set_state agent (Running pid) (set_fw_next_pid pid w))
  end.

Definition fake_stop_agent (agent : AgentId) (w : FakeWorld) : result RunnerError unit * FakeWorld :=
  match run_check "stop_agent" (to_string agent) w with
  | (Err e, w) => (Err e, w)
  | (Ok _, w) =>
      (Ok tt, set_fw_state (alter (observed_remove agent) (id_fleet agent) (fw_state w)) w)
  end.

Definition fake_stop_crew (crew : CrewRef) (w : FakeWorld) : result RunnerError unit * FakeWorld :=
  match run_check "stop_crew" (to_string crew) w with
  | (Err e, w) => (Err e, w)
  | (Ok _, w) =>
      (Ok tt, set_fw_state (alter (fun o => {| crews := delete (cr_crew crew) (crews o) |})
                              (cr_fleet crew) (fw_state w)) w)
  end.

Definition fake_observe (fleet : FleetName) (w : FakeWorld)
    : result RunnerError ObservedState * FakeWorld :=
  match run_check "observe" (to_string fleet) w with
  | (Err e, w) => (Err e, w)
  | (Ok _, w) =>
      if fw_fail_observe w then (Err (RTool (to_string fleet) "observe" [] "fake observe failure"), w)
      else (Ok (default empty_observed (fw_state w !! fleet)), w)
  end.

#[export] Instance fake_ports : Ports FakeWorld := {|
  clock_now := fun w => (fw_now w, w);
  runner_ensure_crew := fake_ensure_crew;
  runner_ensure_agent := fun id _ => fake_ensure_agent id;
  runner_stop_agent := fake_stop_agent;
  runner_stop_crew := fake_stop_crew;
  runner_observe := fake_observe;
  mat_ensure_crew := fun crew _ _ _ _ tools => fake_mat_ensure_crew crew tools;
  mat_materialize := fun agent _ _ => fake_materialize agent;
  mat_remove_agent := fake_remove_agent;
  mat_remove_crew := fake_remove_crew;
|}.

(** ** A concrete world and context *)

Definition fresh_world : FakeWorld :=
  {| fw_mat := {| rec_calls := []; rec_fail_next := [] |}; fw_crew_tools := [];
     fw_run := {| rec_calls := []; rec_fail_next := [] |};
     fw_state := {[ id_fleet sample_id := observed_set sample_id (Running 7%N) empty_observed ]};
     fw_next_pid := 100%N; fw_fail_observe := false; fw_now := 1000%N |}.

Definition sample_context (desired : option Fleet) : ReconcileContext :=
  {| cx_fleet := id_fleet sample_id; cx_desired := desired;
     cx_keep := {| keep_repos := false; keep_sessions := true |}; cx_stopped := ∅;
     cx_creds := {| claude_credentials := None; claude_account := None; gh_token := None |};
     cx_hooks := fun _ => {| ht_url := ""; ht_secret := "" |}; cx_policy := default_policy |}.

(** The crew [backend] with the agent [bob], where [alice] runs. *)
Definition sample_fleet : Fleet :=
  {| fleet_name := id_fleet sample_id; fleet_tools := ∅;
     fleet_crews := {[ id_crew sample_id :=
       {| crew_repo := Repo.GitHub "acme" "api"; crew_git_ref := "main"; crew_git := default_git;
          crew_tools := ∅;
          crew_agents := {[ no_name_error "bob" eq_refl := default_settings ]} |} ]} |}.

(** The same world with a failure armed for stopping [alice]. *)
Definition failing_world : FakeWorld :=
  set_fw_run {| rec_calls := [];
                rec_fail_next := [("stop_agent", to_string sample_id, "no server")] |} fresh_world.

Definition failed_run : ExecState * FakeWorld :=
  exec_steps (sample_context (Some sample_fleet)) [Stop sample_id] (exec_init sample_status)
    failing_world.

Lemma execute_containment_witness :
  exists s', exec_step (sample_context (Some sample_fleet)) failed_run.1 (Materialize sample_id)
      failed_run.2 = (s', failed_run.2) /\
    skipped (ex_report s') = [Materialize sample_id].
Proof.
  assert (failures (ex_report failed_run.1) =
    [(Stop sample_id, "payments/backend/alice: tmux stop_agent: no server")]) as Hf
    by (vm_compute; reflexivity).
  assert (skipped (ex_report failed_run.1) = []) as Hk by (vm_compute; reflexivity).
  destruct (execute_containment (sample_context (Some sample_fleet)) [Stop sample_id] sample_status
    failing_world failed_run.1 failed_run.2 (Materialize sample_id) (surjective_pairing _)) as [Hb _].
  rewrite Hf, Hk in Hb.
  destruct Hb as (s' & Hs & _ & Hk').
  - eexists _, _. split; [by left|by left].
  - exists s'. by split.
Defined.

Definition bob : AgentId :=
  {| id_fleet := id_fleet sample_id; id_crew := id_crew sample_id;
     id_agent := no_name_error "bob" eq_refl |}.

Definition bob_run : ExecState * FakeWorld :=
  exec_steps (sample_context (Some sample_fleet)) [Materialize bob] (exec_init sample_status)
    fresh_world.
Definition bob_plan : LaunchPlan :=
  {| lp_cwd := "/fake/payments/backend/bob/workspace"; lp_env := ∅; lp_argv := ["fake"];
     lp_script := "/fake/payments/backend/bob/launch.sh" |}.

Lemma start_materialized_witness :
  run_step (sample_context (Some sample_fleet)) (ex_plans bob_run.1) (Start bob "h") bob_run.2 =
    let '(r, w3) := runner_ensure_agent bob bob_plan bob_run.2 in
    (map_err to_string r, ex_plans bob_run.1, w3).
Proof.
  apply (start_materialized (sample_context (Some sample_fleet)) [Materialize bob] sample_status
    fresh_world bob_run.1 bob_run.2 bob "h" bob_plan).
  - apply surjective_pairing.
  - vm_compute. reflexivity.
Defined.
