(* ===== verification/Converge.v ===== *)
(** Convergence of the reconciler: what the runner and the materializer
    promise when nothing fails, as an interface ([LawfulPorts]); that the
    in-memory ports keep the promise; and that against any such ports one pass
    of [plan] and [execute] leaves nothing to do. *)

From S2P Require Import Prelude Str BTree Names Fleet Status Reconcile Execute Fakes.

(** ** The interface *)

(** [view w f] is what [observe] answers for fleet [f]. *)
Class LawfulPorts (W : Type) `{Ports W} := {
  healthy : W -> Prop;
  view : W -> FleetName -> ObservedState;
  seen : W -> AgentId -> option ProcessState := fun w id => observed_get (view w (id_fleet id)) id;
  has_crew : W -> CrewRef -> Prop := fun w c => is_Some (crews (view w (cr_fleet c)) !! cr_crew c);
  same_view : W -> W -> Prop := fun w w' =>
    (forall id, seen w' id = seen w id) /\ (forall c, has_crew w' c <-> has_crew w c);
  law_clock w : healthy w ->
    healthy (clock_now w).2 /\ view (clock_now w).2 = view w;
  law_observe f w : healthy w -> exists w',
    runner_observe f w = (Ok (view w f), w') /\ healthy w' /\ view w' = view w;
  law_run_ensure_crew c w : healthy w -> exists w',
    runner_ensure_crew c w = (Ok tt, w') /\ healthy w' /\
    (forall id, seen w' id = seen w id) /\ (forall c', has_crew w' c' <-> has_crew w c' \/ c' = c);
  law_ensure_agent id p w : healthy w -> exists w' pid,
    runner_ensure_agent id p w = (Ok tt, w') /\ healthy w' /\
    (forall id', seen w' id' = if decide (id' = id) then Some (Running pid) else seen w id') /\
    (forall c, has_crew w' c <-> has_crew w c \/ c = crew_ref id);
  law_stop_agent id w : healthy w -> exists w',
    runner_stop_agent id w = (Ok tt, w') /\ healthy w' /\
    (forall id', seen w' id' = if decide (id' = id) then None else seen w id') /\
    (forall c, has_crew w' c <-> has_crew w c);
  law_stop_crew c w : healthy w -> exists w',
    runner_stop_crew c w = (Ok tt, w') /\ healthy w' /\
    (forall id, seen w' id = if decide (crew_ref id = c) then None else seen w id) /\
    (forall c', has_crew w' c' <-> has_crew w c' /\ c' <> c);
  law_mat_ensure_crew c r g gs cr t w : healthy w -> exists w',
    mat_ensure_crew c r g gs cr t w = (Ok tt, w') /\ healthy w' /\ same_view w w';
  law_materialize a cr h w : healthy w -> exists p w',
    mat_materialize a cr h w = (Ok p, w') /\ healthy w' /\ same_view w w';
  law_remove_agent id w : healthy w -> exists w',
    mat_remove_agent id w = (Ok tt, w') /\ healthy w' /\ same_view w w';
  law_remove_crew c k w : healthy w -> exists w',
    mat_remove_crew c k w = (Ok tt, w') /\ healthy w' /\ same_view w w';
}.

(** ** The in-memory ports keep it, while no failure is armed *)

Definition fake_healthy (w : FakeWorld) : Prop :=
  rec_fail_next (fw_mat w) = [] /\ rec_fail_next (fw_run w) = [] /\ fw_fail_observe w = false.

Definition fake_view (w : FakeWorld) (f : FleetName) : ObservedState :=
  default empty_observed (fw_state w !! f).

Lemma record_healthy m i r : rec_fail_next r = [] ->
  exists r', record m i r = (None, r') /\ rec_fail_next r' = [].
Proof. intros Hr. unfold record. rewrite Hr. simpl. eauto. Qed.

Lemma mat_check_healthy m i t w : fake_healthy w ->
  exists w', mat_check m i t w = (Ok tt, w') /\ fake_healthy w' /\ fw_state w' = fw_state w.
Proof.
  intros (Hm & Hr & Ho). unfold mat_check.
  destruct (record_healthy m i _ Hm) as (r' & -> & ?). eexists. by split_and!.
Qed.

Lemma run_check_healthy m i w : fake_healthy w ->
  exists w', run_check m i w = (Ok tt, w') /\ fake_healthy w' /\ fw_state w' = fw_state w.
Proof.
  intros (Hm & Hr & Ho). unfold run_check.
  destruct (record_healthy m i _ Hr) as (r' & -> & ?). eexists. by split_and!.
Qed.

Lemma observed_get_set id p o id' :
  observed_get (observed_set id p o) id' =
    if decide (id_crew id' = id_crew id /\ id_agent id' = id_agent id) then Some p
    else observed_get o id'.
Proof.
  unfold observed_get, observed_set. simpl.
  destruct (decide (id_crew id' = id_crew id)) as [Hc|Hc].
  - rewrite Hc, lookup_insert_eq. simpl.
    destruct (decide (id_agent id' = id_agent id)) as [Ha|Ha].
    + rewrite Ha, lookup_insert_eq. by rewrite decide_True.
    + rewrite lookup_insert_ne, decide_False by naive_solver.
      destruct (crews o !! id_crew id); simpl; by rewrite ?lookup_empty.
  - rewrite lookup_insert_ne, decide_False by naive_solver. done.
Qed.

Lemma observed_get_remove id o id' :
  observed_get (observed_remove id o) id' =
    if decide (id_crew id' = id_crew id /\ id_agent id' = id_agent id) then None
    else observed_get o id'.
Proof.
  unfold observed_get, observed_remove. simpl.
  destruct (decide (id_crew id' = id_crew id)) as [Hc|Hc].
  - rewrite Hc, lookup_alter_eq. destruct (crews o !! id_crew id) as [m|]; simpl; [|by case_decide].
    destruct (decide (id_agent id' = id_agent id)) as [Ha|Ha].
    + rewrite Ha, lookup_delete_eq. by rewrite decide_True.
    + rewrite lookup_delete_ne, decide_False by naive_solver. done.
  - rewrite lookup_alter_ne, decide_False by naive_solver. done.
Qed.

(** A change of one fleet's entry, seen from one agent and from one crew. *)
Lemma fake_view_update w f o f' :
  fake_view (set_fw_state (<[f := o]> (fw_state w)) w) f' =
    if decide (f' = f) then o else fake_view w f'.
Proof.
  unfold fake_view. simpl. case_decide as Hf; [subst; by rewrite lookup_insert_eq|].
  by rewrite lookup_insert_ne by congruence.
Qed.

Lemma fake_view_alter w f g f' : g empty_observed = empty_observed ->
  fake_view (set_fw_state (alter g f (fw_state w)) w) f' =
    if decide (f' = f) then g (fake_view w f') else fake_view w f'.
Proof.
  intros Hg. unfold fake_view. simpl. case_decide as Hf.
  - subst. rewrite lookup_alter_eq. by destruct (fw_state w !! f).
  - by rewrite lookup_alter_ne by congruence.
Qed.

Definition fake_seen (w : FakeWorld) (id : AgentId) : option ProcessState :=
  observed_get (fake_view w (id_fleet id)) id.
Definition fake_has_crew (w : FakeWorld) (c : CrewRef) : Prop :=
  is_Some (crews (fake_view w (cr_fleet c)) !! cr_crew c).

Lemma fake_ensure_crew_law c w : fake_healthy w -> exists w',
  fake_ensure_crew c w = (Ok tt, w') /\ fake_healthy w' /\
  (forall id, fake_seen w' id = fake_seen w id) /\
  (forall c', fake_has_crew w' c' <-> fake_has_crew w c' \/ c' = c).
Proof.
  intros Hw. unfold fake_ensure_crew.
  destruct (run_check_healthy "ensure_crew" (to_string c) w Hw) as (w1 & -> & Hh & Hst).
  eexists. split; [done|]. split; [exact Hh|].
  unfold fake_seen, fake_has_crew.
  assert (forall f, fake_view w1 f = fake_view w f) as Hv by (intros; unfold fake_view; by rewrite Hst).
  change (default empty_observed (fw_state w1 !! cr_fleet c)) with (fake_view w1 (cr_fleet c)).
  split.
  - intros id. rewrite fake_view_update, !Hv. case_decide as Hf; [|done]. rewrite Hf. unfold observed_get. simpl.
    destruct (decide (id_crew id = cr_crew c)) as [->|].
    + rewrite lookup_insert_eq. simpl.
      destruct (crews _ !! cr_crew c); simpl; by rewrite ?lookup_empty.
    + by rewrite lookup_insert_ne.
  - intros c'. rewrite fake_view_update, !Hv. case_decide as Hf; simpl; [|naive_solver]. rewrite Hf.
    destruct (decide (cr_crew c' = cr_crew c)) as [Hc|Hc].
    + rewrite Hc, lookup_insert_eq. split; [|eauto]. intros _. right.
      destruct c, c'. simpl in *. congruence.
    + rewrite lookup_insert_ne by done. naive_solver.
Qed.

Lemma fake_ensure_agent_law id w : fake_healthy w -> exists w' pid,
  fake_ensure_agent id w = (Ok tt, w') /\ fake_healthy w' /\
  (forall id', fake_seen w' id' = if decide (id' = id) then Some (Running pid) else fake_seen w id') /\
  (forall c, fake_has_crew w' c <-> fake_has_crew w c \/ c = crew_ref id).
Proof.
  intros Hw. unfold fake_ensure_agent.
  destruct (run_check_healthy "ensure_agent" (to_string id) w Hw) as (w1 & -> & Hh & Hst).
  eexists _, _. split; [done|]. split; [exact Hh|].
  unfold fake_seen, fake_has_crew, set_state.
  set (w2 := set_fw_next_pid _ w1).
  assert (forall f, fake_view w2 f = fake_view w f) as Hv by (intros; unfold fake_view; simpl; by rewrite Hst).
  change (default empty_observed (fw_state w2 !! id_fleet id)) with (fake_view w2 (id_fleet id)).
  split.
  - intros id'. rewrite fake_view_update, !Hv. destruct (decide (id_fleet id' = id_fleet id)) as [Hf|Hf].
    + rewrite Hf, observed_get_set.
      destruct (decide (id' = id)) as [->|Hne]; [by rewrite decide_True|].
      rewrite decide_False; [done|]. intros [Hc Ha]. apply Hne. destruct id, id'. simpl in *. congruence.
    + rewrite decide_False; [done|]. congruence.
  - intros c. rewrite fake_view_update, !Hv. destruct (decide (cr_fleet c = id_fleet id)) as [Hf|Hf].
    + rewrite Hf. unfold observed_set. simpl.
      destruct (decide (cr_crew c = id_crew id)) as [Hc|Hc].
      * rewrite Hc, lookup_insert_eq. split; [|eauto]. intros _. right.
        destruct c. unfold crew_ref. simpl in *. congruence.
      * rewrite lookup_insert_ne by done. unfold crew_ref. naive_solver.
    + unfold crew_ref. naive_solver.
Qed.

Lemma fake_stop_agent_law id w : fake_healthy w -> exists w',
  fake_stop_agent id w = (Ok tt, w') /\ fake_healthy w' /\
  (forall id', fake_seen w' id' = if decide (id' = id) then None else fake_seen w id') /\
  (forall c, fake_has_crew w' c <-> fake_has_crew w c).
Proof.
  intros Hw. unfold fake_stop_agent.
  destruct (run_check_healthy "stop_agent" (to_string id) w Hw) as (w1 & -> & Hh & Hst).
  eexists. split; [done|]. split; [exact Hh|].
  unfold fake_seen, fake_has_crew.
  assert (forall f, fake_view w1 f = fake_view w f) as Hv by (intros; unfold fake_view; by rewrite Hst).
  assert (observed_remove id empty_observed = empty_observed) as He
    by (unfold observed_remove, empty_observed; simpl; by rewrite alter_empty).
  assert (forall f, fake_view (set_fw_state (alter (observed_remove id) (id_fleet id) (fw_state w1)) w1) f =
    if decide (f = id_fleet id) then observed_remove id (fake_view w f) else fake_view w f) as Hva.
  { intros f. rewrite (fake_view_alter w1 (id_fleet id) (observed_remove id) f He). by rewrite Hv. }
  split.
  - intros id'. rewrite Hva. destruct (decide (id_fleet id' = id_fleet id)) as [Hf|Hf].
    + rewrite observed_get_remove.
      destruct (decide (id' = id)) as [->|Hne]; [by rewrite decide_True|].
      rewrite decide_False; [done|]. intros [Hc Ha]. apply Hne. destruct id, id'. simpl in *. congruence.
    + rewrite decide_False; [done|]. congruence.
  - intros c. rewrite Hva. case_decide; [|done]. unfold observed_remove. simpl.
    destruct (decide (cr_crew c = id_crew id)) as [->|Hc].
    + rewrite lookup_alter_eq. apply fmap_is_Some.
    + by rewrite lookup_alter_ne.
Qed.

Lemma fake_stop_crew_law c w : fake_healthy w -> exists w',
  fake_stop_crew c w = (Ok tt, w') /\ fake_healthy w' /\
  (forall id, fake_seen w' id = if decide (crew_ref id = c) then None else fake_seen w id) /\
  (forall c', fake_has_crew w' c' <-> fake_has_crew w c' /\ c' <> c).
Proof.
  intros Hw. unfold fake_stop_crew.
  destruct (run_check_healthy "stop_crew" (to_string c) w Hw) as (w1 & -> & Hh & Hst).
  eexists. split; [done|]. split; [exact Hh|].
  unfold fake_seen, fake_has_crew.
  assert (forall f, fake_view w1 f = fake_view w f) as Hv by (intros; unfold fake_view; by rewrite Hst).
  set (g := fun o => {| crews := delete (cr_crew c) (crews o) |}).
  assert (g empty_observed = empty_observed) as He by (unfold g, empty_observed; simpl; by rewrite delete_empty).
  assert (forall f, fake_view (set_fw_state (alter g (cr_fleet c) (fw_state w1)) w1) f =
    if decide (f = cr_fleet c) then g (fake_view w f) else fake_view w f) as Hva.
  { intros f. rewrite (fake_view_alter w1 (cr_fleet c) g f He). by rewrite Hv. }
  split.
  - intros id. rewrite Hva. destruct (decide (crew_ref id = c)) as [<-|Hne].
    + unfold observed_get, g, crew_ref. simpl. rewrite decide_True by done. simpl.
      by rewrite lookup_delete_eq.
    + case_decide as Hf; [|done]. unfold observed_get, g. simpl.
      rewrite lookup_delete_ne; [done|]. intros Hc. apply Hne. destruct c. unfold crew_ref.
      simpl in *. congruence.
  - intros c'. rewrite Hva. case_decide as Hf.
    + unfold g. simpl. destruct (decide (cr_crew c' = cr_crew c)) as [Hc|Hc].
      * rewrite Hc, lookup_delete_eq. split; [by intros []|]. intros [_ Hn]. exfalso. apply Hn.
        destruct c, c'. simpl in *. congruence.
      * rewrite lookup_delete_ne by done. naive_solver.
    + split; [|tauto]. intros ?. split; [done|]. congruence.
Qed.

Lemma fake_same_view w w' : fw_state w' = fw_state w ->
  (forall id, fake_seen w' id = fake_seen w id) /\ (forall c, fake_has_crew w' c <-> fake_has_crew w c).
Proof. intros Hs. unfold fake_seen, fake_has_crew, fake_view. by rewrite Hs. Qed.

#[export] Program Instance fake_lawful : LawfulPorts FakeWorld := {|
  healthy := fake_healthy;
  view := fake_view;
|}.
Next Obligation. done. Qed.
Next Obligation.
  intros f w Hw. destruct (run_check_healthy "observe" (to_string f) w Hw) as (w' & Hc & Hh & Hst).
  exists w'. simpl. unfold fake_observe. rewrite Hc. destruct Hh as (H1 & H2 & H3).
  rewrite H3. unfold fake_view. by rewrite Hst.
Qed.
Next Obligation. apply fake_ensure_crew_law. Qed.
Next Obligation. intros id p. apply fake_ensure_agent_law. Qed.
Next Obligation. apply fake_stop_agent_law. Qed.
Next Obligation. apply fake_stop_crew_law. Qed.
Next Obligation.
  intros c r g gs cr tl w Hw.
  destruct (mat_check_healthy "ensure_crew" (to_string c) "git"
    (push_crew_tools (to_string c, flat (ct_fleet tl), flat (ct_crew tl)) w) Hw) as (w' & Hc & Hh & Hst).
  exists w'. split; [exact Hc|]. split; [exact Hh|]. by apply fake_same_view.
Qed.
Next Obligation.
  intros a cr h w Hw.
  destruct (mat_check_healthy "materialize" (to_string (ra_id a)) "mise" w Hw) as (w' & Hc & Hh & Hst).
  eexists _, w'. simpl. unfold fake_materialize. rewrite Hc.
  split; [done|]. split; [exact Hh|]. by apply fake_same_view.
Qed.
Next Obligation.
  intros id w Hw.
  destruct (mat_check_healthy "remove_agent" (to_string id) "rm" w Hw) as (w' & Hc & Hh & Hst).
  exists w'. split; [exact Hc|]. split; [exact Hh|]. by apply fake_same_view.
Qed.
Next Obligation.
  intros c k w Hw. simpl. unfold fake_remove_crew. cbv zeta.
  match goal with |- context [mat_check _ ?tag _ _] =>
    destruct (mat_check_healthy "remove_crew" tag "rm" w Hw) as (w' & Hc & Hh & Hst) end.
  exists w'. rewrite Hc. split; [done|]. split; [exact Hh|]. by apply fake_same_view.
Qed.

(** ** What one step does to one agent and to one crew when nothing fails *)

Definition view_of : Type := option ProcessState * option AgentStatus.

(** The step's effect on agent [id], its process and its status entry. *)
Definition seen_effect (step : Step) (id : AgentId) (o o' : option ProcessState) : Prop :=
  match step with
  | Stop i => o' = if decide (id = i) then None else o
  | RemoveCrew c _ => o' = if decide (crew_ref id = c) then None else o
  | Start i _ => if decide (id = i) then exists pid, o' = Some (Running pid) else o' = o
  | _ => o' = o
  end.

Definition status_effect (policy : ReconcilePolicy) (now : Timestamp) (step : Step) (id : AgentId)
    (o : option AgentStatus) : option AgentStatus :=
  let on i (x : option AgentStatus) := if decide (id = i) then x else o in
  let a := default agent_status_default o in
  match step with
  | Stop i =>
      on i ((fun a => set_st_next_restart_at None (set_st_phase AgentPhase.Stopped a)) <$> o)
  | RemoveAgent i => on i None
  | RemoveCrew c _ => if decide (crew_ref id = c) then None else o
  | EnsureCrew _ => o
  | Materialize i => on i (Some (set_st_message EmptyString (set_st_phase AgentPhase.Materializing a)))
  | Start i h => on i (Some (started h a))
  | NoteExit i code => on i (Some (note_exit policy now code a))
  end.

Definition crew_effect (step : Step) (c : CrewRef) (h h' : Prop) : Prop :=
  match step with
  | RemoveCrew c' _ => h' <-> h /\ c <> c'
  | EnsureCrew c' => h' <-> h \/ c = c'
  | Start i _ => h' <-> h \/ c = crew_ref i
  | _ => h' <-> h
  end.

Lemma to_string_decide {A} (id i : AgentId) (x y : A) :
  (if decide (to_string id = to_string i) then x else y) = if decide (id = i) then x else y.
Proof.
  destruct (decide (id = i)) as [->|Hne]; [by rewrite decide_True|].
  rewrite decide_False; [done|]. intros H. apply Hne.
  by apply (inj (to_string (A := AgentId))) in H.
Qed.

Lemma apply_status_effect policy now step status (id : AgentId) :
  agents (apply status step (Ok tt) policy now) !! to_string id =
  status_effect policy now step id (agents status !! to_string id).
Proof.
  destruct step as [i|i|c k|c|i|i h|i code]; try (by apply remove_crew_lookup); simpl apply;
    rewrite ?lookup_entry, ?lookup_get_mut, ?to_string_decide; unfold status_effect.
  - by destruct (decide (id = i)) as [->|].
  - simpl. destruct (decide (id = i)) as [->|Hne]; [apply lookup_delete_eq|].
    apply lookup_delete_ne. intros H. apply Hne. by apply (inj (to_string (A := AgentId))) in H.
  - done.
  - by destruct (decide (id = i)) as [->|].
  - by destruct (decide (id = i)) as [->|].
  - by destruct (decide (id = i)) as [->|].
Qed.

(** A run of steps, seen from one agent; the clock is not tracked. *)
Inductive agent_run (policy : ReconcilePolicy) (id : AgentId) : list Step -> view_of -> view_of -> Prop :=
| agent_run_nil v : agent_run policy id [] v v
| agent_run_cons step p o s o' now v :
    seen_effect step id o o' ->
    agent_run policy id p (o', status_effect policy now step id s) v ->
    agent_run policy id (step :: p) (o, s) v.

Inductive crew_run (c : CrewRef) : list Step -> Prop -> Prop -> Prop :=
| crew_run_nil h h' : (h' <-> h) -> crew_run c [] h h'
| crew_run_cons step p h h1 h' :
    crew_effect step c h h1 -> crew_run c p h1 h' -> crew_run c (step :: p) h h'.

(** Steps of other agents, and of other crews, change nothing. *)
Lemma agent_run_steps_of policy id p v v' :
  (forall k, RemoveCrew (crew_ref id) k ∉ p) ->
  agent_run policy id p v v' -> agent_run policy id (steps_of id p) v v'.
Proof.
  intros Hc Hr. induction Hr as [|step p o s o' now v Hs Hr IH]; [constructor|].
  assert (forall k, RemoveCrew (crew_ref id) k ∉ p) as Hc' by (intros k ?; apply (Hc k); by right).
  specialize (IH Hc'). unfold steps_of in *. rewrite filter_cons. case_decide as Hid.
  - by econstructor.
  - assert (o' = o /\ status_effect policy now step id s = s) as [-> Hst]; [|by rewrite Hst in IH].
    destruct step as [i|i|c k|c|i|i h|i code]; simpl in *;
      try (rewrite decide_False in Hs by congruence);
      try (rewrite decide_False by congruence); try done.
    assert (crew_ref id <> c) as Hne by (intros <-; apply (Hc k); by left).
    rewrite decide_False in Hs by done. by rewrite decide_False.
Qed.

(** Steps that start nothing leave what is gone gone. *)
Definition starts_agent (id : AgentId) (step : Step) : Prop :=
  step_agent_id step = Some id /\ rank step = 4.

Lemma seen_effect_none step id o' :
  ~ starts_agent id step -> seen_effect step id None o' -> o' = None.
Proof.
  intros Hn. destruct step as [i|i|c k|c|i|i h|i code]; simpl; try case_decide as Hi; try done.
  by destruct Hn; subst.
Qed.

Lemma status_effect_none policy now step id :
  ~ starts_agent id step -> status_effect policy now step id None = None.
Proof.
  intros Hn. destruct step as [i|i|c k|c|i|i h|i code]; simpl; try case_decide as Hi; try done;
    by destruct Hn; subst.
Qed.

(** Steps after which the agent is not seen, and has no status. *)
Definition clears_seen (id : AgentId) (step : Step) : Prop :=
  step = Stop id \/ exists k, step = RemoveCrew (crew_ref id) k.
Definition clears_status (id : AgentId) (step : Step) : Prop :=
  step = RemoveAgent id \/ exists k, step = RemoveCrew (crew_ref id) k.

Lemma clears_seen_effect id step o o' :
  clears_seen id step -> seen_effect step id o o' -> o' = None.
Proof. intros [->|[k ->]]; simpl; by rewrite decide_True. Qed.

Lemma clears_status_effect policy now id step o :
  clears_status id step -> status_effect policy now step id o = None.
Proof. intros [->|[k ->]]; simpl; by rewrite decide_True. Qed.

Lemma agent_run_gone policy id p v v' :
  (forall step, step ∈ p -> ~ starts_agent id step) -> agent_run policy id p v v' ->
  (v.1 = None \/ Exists (clears_seen id) p -> v'.1 = None) /\
  (v.2 = None \/ Exists (clears_status id) p -> v'.2 = None).
Proof.
  intros Hns Hr. induction Hr as [|step p o s o' now v Hs Hr IH].
  { split; intros [?|?%Exists_nil]; done. }
  destruct IH as [IH1 IH2]; [intros; apply Hns; by right|].
  assert (~ starts_agent id step) as Hn by (apply Hns; by left).
  simpl in IH1, IH2 |- *. rewrite !Exists_cons. split.
  - intros [->|[Hc|Hp]]; apply IH1; [left|left|by right].
    + by eapply seen_effect_none.
    + by eapply clears_seen_effect.
  - intros [->|[Hc|Hp]]; apply IH2; [left|left|by right].
    + by apply status_effect_none.
    + by apply clears_status_effect.
Qed.

Lemma crew_run_gone c p h h' :
  (forall step, step ∈ p -> step <> EnsureCrew c /\
     (forall i hash, step = Start i hash -> crew_ref i <> c)) ->
  crew_run c p h h' -> ~ h \/ (exists k, RemoveCrew c k ∈ p) -> ~ h'.
Proof.
  intros Hns Hr. induction Hr as [h h' Hh|step p h h1 h' Hs Hr IH].
  { rewrite Hh. intros [?|[k ?%not_elem_of_nil]]; done. }
  intros Ho. apply IH; [intros; apply Hns; by right|].
  destruct (Hns step) as [H1 H2]; [by left|].
  destruct step as [i|i|c' k|c'|i|i hs|i code]; simpl in Hs; rewrite Hs;
    (destruct Ho as [Ho|[k' [Heq|Ho]%elem_of_cons]]; [left|try discriminate Heq|right; by exists k']);
    try done.
  - tauto.
  - injection Heq as -> _. left. tauto.
  - intros [?| ->]; done.
  - intros [?| ->]; [done|]. by apply (H2 i hs).
Qed.

(** ** Execution without failures *)

Section clean.
Context `{LawfulPorts W} (ctx : ReconcileContext).

Definition clean (s : ExecState) : Prop :=
  ex_failed_agents s = [] /\ ex_failed_crews s = ∅ /\ all_ok (ex_report s) = true.

(** What a step needs to be possible at all. *)
Definition possible (plans : gmap AgentId LaunchPlan) (step : Step) : Prop :=
  match step with
  | Materialize id => is_Some (ex_agents ctx !! id)
  | Start id _ => is_Some (plans !! id)
  | EnsureCrew c => exists f, cx_desired ctx = Some f /\ is_Some (fleet_crews f !! cr_crew c)
  | _ => True
  end.

Lemma run_step_ok plans step w : healthy w -> possible plans step ->
  exists plans' w', run_step ctx plans step w = (Ok tt, plans', w') /\ healthy w' /\
    (forall id, is_Some (plans' !! id) <-> is_Some (plans !! id) \/ step = Materialize id) /\
    (forall id, seen_effect step id (seen w id) (seen w' id)) /\
    (forall c, crew_effect step c (has_crew w c) (has_crew w' c)).
Proof.
  intros Hw Hp. destruct step as [i|i|c k|c|i|i h|i code]; simpl in Hp |- *.
  - destruct (law_stop_agent i w Hw) as (w' & -> & Hh & Hs & Hc). eexists _, _. split; [done|].
    split_and!; try done. naive_solver.
  - destruct (law_remove_agent i w Hw) as (w' & -> & Hh & Hs & Hc). eexists _, _. split; [done|].
    split_and!; try done. naive_solver.
  - destruct (law_stop_crew c w Hw) as (w1 & -> & Hh1 & Hs1 & Hc1).
    destruct (law_remove_crew c k w1 Hh1) as (w' & -> & Hh & Hs & Hc). eexists _, _. split; [done|].
    split_and!; try done; [naive_solver|..].
    + intros id. by rewrite Hs, Hs1.
    + intros c'. by rewrite Hc, Hc1.
  - destruct Hp as (f & Hf & [crew Hcrew]). unfold ensure_crew. rewrite Hf, Hcrew.
    edestruct (law_mat_ensure_crew c (crew_repo crew)) as (w1 & -> & Hh1 & Hs1 & Hc1); [exact Hw|].
    destruct (law_run_ensure_crew c w1 Hh1) as (w' & -> & Hh & Hs & Hc). eexists _, _. split; [done|].
    split_and!; try done; [naive_solver|..].
    + intros id. by rewrite Hs, Hs1.
    + intros c'. by rewrite Hc, Hc1.
  - destruct Hp as [agent Ha]. rewrite Ha.
    edestruct (law_materialize agent) as (p & w' & -> & Hh & Hs & Hc); [exact Hw|].
    eexists _, _. split; [done|]. split_and!; try done.
    intros id. destruct (decide (i = id)) as [->|Hne].
    + rewrite lookup_insert_eq. naive_solver.
    + rewrite lookup_insert_ne by done. naive_solver.
  - destruct Hp as [p ->].
    destruct (law_ensure_agent i p w Hw) as (w' & pid & -> & Hh & Hs & Hc). eexists _, _.
    split; [done|]. split_and!; try done; [naive_solver|].
    intros id. rewrite Hs. case_decide; eauto.
  - eexists _, _. split; [done|]. split_and!; try done. naive_solver.
Qed.

Lemma exec_step_ok s step w : healthy w -> clean s -> possible (ex_plans s) step ->
  exists s' w' now, exec_step ctx s step w = (s', w') /\ healthy w' /\ clean s' /\
    (forall id, is_Some (ex_plans s' !! id) <-> is_Some (ex_plans s !! id) \/ step = Materialize id) /\
    (forall id, seen_effect step id (seen w id) (seen w' id)) /\
    (forall c, crew_effect step c (has_crew w c) (has_crew w' c)) /\
    ex_status s' = apply (ex_status s) step (Ok tt) (cx_policy ctx) now.
Proof.
  intros Hw (Hfa & Hfc & Hr) Hp.
  assert (exec_step ctx s step w = perform ctx s step w) as ->.
  { unfold exec_step. rewrite Hfa, Hfc. destruct (step_agent_id step) eqn:Hid.
    - rewrite bool_decide_eq_false_2 by apply not_elem_of_nil. by rewrite lookup_empty.
    - by destruct step. }
  unfold perform. destruct (clock_now w) as [now w1] eqn:Hclk.
  destruct (law_clock w Hw) as [Hw1 Hv1]. rewrite Hclk in Hw1, Hv1. simpl in Hw1, Hv1.
  destruct (run_step_ok (ex_plans s) step w1 Hw1 Hp) as (plans' & w' & -> & Hh & Hpl & Hs & Hc).
  eexists _, w', now. split; [done|]. split_and!; try done.
  - intros id. specialize (Hs id). unfold seen in Hs |- *. by rewrite Hv1 in Hs.
  - intros c. specialize (Hc c). unfold has_crew in Hc |- *. by rewrite Hv1 in Hc.
Qed.

(** Every step is possible where it stands, given the plans there are. *)
Fixpoint all_possible (plans : AgentId -> Prop) (p : list Step) : Prop :=
  match p with
  | [] => True
  | step :: p' =>
      match step with
      | Materialize id => is_Some (ex_agents ctx !! id)
      | Start id _ => plans id
      | EnsureCrew c => exists f, cx_desired ctx = Some f /\ is_Some (fleet_crews f !! cr_crew c)
      | _ => True
      end /\
      all_possible (fun id => plans id \/ step = Materialize id) p'
  end.

Lemma all_possible_impl (P Q : AgentId -> Prop) p :
  (forall id, P id -> Q id) -> all_possible P p -> all_possible Q p.
Proof.
  revert P Q; induction p as [|step p IH]; intros P Q HPQ; simpl; [done|].
  intros [H1 H2]. split; [destruct step; auto|]. eapply IH; [|exact H2]. naive_solver.
Qed.

Lemma exec_steps_ok p s w : healthy w -> clean s ->
  all_possible (fun id => is_Some (ex_plans s !! id)) p ->
  exists s' w', exec_steps ctx p s w = (s', w') /\ healthy w' /\ clean s' /\
    (forall id : AgentId, agent_run (cx_policy ctx) id p
       (seen w id, agents (ex_status s) !! to_string id)
       (seen w' id, agents (ex_status s') !! to_string id)) /\
    (forall c, crew_run c p (has_crew w c) (has_crew w' c)).
Proof.
  revert s w; induction p as [|step p IH]; intros s w Hw Hcl Hp; simpl.
  { exists s, w. split_and!; try done; intros; constructor; done. }
  destruct Hp as [Hp Hrest].
  destruct (exec_step_ok s step w Hw Hcl) as (s1 & w1 & now & -> & Hw1 & Hcl1 & Hpl & Hs & Hc & Hst).
  { by destruct step. }
  destruct (IH s1 w1 Hw1 Hcl1) as (s' & w' & Hex & Hw' & Hcl' & Hrun & Hcrun).
  { eapply all_possible_impl; [|exact Hrest]. intros id. apply Hpl. }
  exists s', w'. split_and!; try done.
  - intros id. eapply (agent_run_cons _ _ _ _ _ _ _ now); [apply Hs|].
    rewrite <- apply_status_effect, <- Hst. apply Hrun.
  - intros c. econstructor; [apply Hc|apply Hcrun].
Qed.
End clean.

(** ** Every step of a plan is possible *)

Section possible.
Context (ctx : ReconcileContext).
Notation all_possible := (all_possible ctx).

Lemma all_possible_app (P : AgentId -> Prop) p q :
  all_possible P p -> all_possible P q -> all_possible P (p ++ q).
Proof.
  revert P; induction p as [|step p IH]; intros P; simpl; [done|].
  intros [H1 H2] Hq. split; [done|]. apply IH; [done|].
  eapply all_possible_impl; [|exact Hq]. auto.
Qed.

Lemma all_possible_Forall (P : AgentId -> Prop) p :
  Forall (fun step => all_possible P [step]) p -> all_possible P p.
Proof.
  induction 1 as [|step p Hs _ IH]; [done|].
  change (step :: p) with ([step] ++ p). by apply all_possible_app.
Qed.

Lemma all_possible_join (P : AgentId -> Prop) l :
  Forall (all_possible P) l -> all_possible P (mjoin (M := list) l).
Proof.
  induction 1 as [|p l Hp _ IH]; [done|].
  change (mjoin (p :: l)) with (p ++ mjoin (M := list) l). by apply all_possible_app.
Qed.

Lemma plan_agent_possible `{Digest} (P : AgentId -> Prop) stopped status observed now id agent :
  is_Some (ex_agents ctx !! id) ->
  all_possible P (plan_agent stopped status observed now id agent).2.
Proof.
  intros Hid. unfold plan_agent. repeat (case_match; simpl); auto.
Qed.

Lemma ensure_possible (P : AgentId -> Prop) c :
  c ∈ desired_crews (cx_desired ctx) -> all_possible P [EnsureCrew c].
Proof.
  intros (id & [a Ha] & <-)%elem_of_desired_crews. simpl. split; [|done].
  apply lookup_desired in Ha as (f & Hf & (crew & s & Hc & _)%from_fleet_elem & Hid).
  exists f. split; [done|]. exists crew. by rewrite <- Hid.
Qed.

Lemma plan_possible `{Digest} (P : AgentId -> Prop) status observed now :
  all_possible P (plan (cx_fleet ctx) (cx_desired ctx) (cx_keep ctx) (cx_stopped ctx)
                    status observed now).
Proof.
  unfold plan. repeat apply all_possible_app.
  - apply all_possible_Forall, Forall_forall. by intros s (id & ->)%elem_of_stops.
  - unfold remove_agents. destruct (cx_desired ctx); [|done].
    by apply all_possible_Forall, Forall_fmap, Forall_true.
  - by apply all_possible_Forall, Forall_fmap, Forall_true.
  - apply all_possible_Forall, Forall_fmap, Forall_forall. intros c Hc%elem_of_elems.
    by apply ensure_possible.
  - apply all_possible_join, Forall_fmap, Forall_forall. intros pr Hin.
    unfold agent_plans in Hin. apply list_elem_of_fmap in Hin as ([id agent] & -> & Hin).
    apply elem_of_entries in Hin. apply plan_agent_possible. by exists agent.
Qed.
End possible.

(** ** What a pass leaves of one agent *)

(** Every restart the status schedules is later than [now]. *)
Definition before_restarts (now : Timestamp) (status : FleetStatus) : Prop :=
  forall k s due, agents status !! k = Some s -> st_next_restart_at s = Some due -> (now < due)%N.

Lemma agent_run_nil_inv policy id v v' : agent_run policy id [] v v' -> v' = v.
Proof. by inversion 1. Qed.

Lemma agent_run_cons_inv policy id step p o s v :
  agent_run policy id (step :: p) (o, s) v -> exists o' now,
    seen_effect step id o o' /\ agent_run policy id p (o', status_effect policy now step id s) v.
Proof. inversion 1; subst. eauto. Qed.

Ltac run_inv :=
  repeat match goal with
  | H : agent_run _ _ [] _ _ |- _ => apply agent_run_nil_inv in H; injection H as ? ?
  | H : agent_run _ _ (_ :: _) _ _ |- _ =>
      let o := fresh "o" in let t := fresh "t" in let Hs := fresh "Hs" in
      apply agent_run_cons_inv in H as (o & t & Hs & H);
      simpl in Hs, H; rewrite ?decide_True in Hs by done; rewrite ?decide_True in H by done
  end.

Section row_settles.
Context `{Digest}.
Context (policy : ReconcilePolicy) (stopped : gset AgentId) (id : AgentId) (agent : ResolvedAgent).
Context (status status' : FleetStatus) (observed observed' : ObservedState) (now now' : Timestamp).
Notation run steps := (agent_run policy id steps
  (observed_get observed id, agents status !! to_string id)
  (observed_get observed' id, agents status' !! to_string id)).
Notation settled := (agent_settled stopped status' observed' now' id agent).

(** What the table reads of an agent, carried over to an equal view. *)
Lemma same_reads :
  run [] ->
  observed_get observed' id = observed_get observed id /\
  (changed status' id agent <-> changed status id agent) /\
  (dead status' id <-> dead status id) /\ (unsettled status' id <-> unsettled status id) /\
  next_restart status' id = next_restart status id.
Proof.
  intros Hr. apply agent_run_nil_inv in Hr. injection Hr as -> Hs.
  unfold changed, dead, unsettled, next_restart. by rewrite Hs.
Qed.

Lemma settled_unchanged :
  run [] -> plan_row stopped status observed now id agent [] ->
  before_restarts now' status' -> settled.
Proof.
  intros Hr Hrow Hb. destruct (same_reads Hr) as (Ho & Hc & Hd & Hu & Hn).
  apply plan_row_nil. inversion Hrow; subst.
  - apply row_stopped_settled; [done|congruence|tauto].
  - eapply row_running; [done|rewrite Ho; eassumption|tauto].
  - eapply row_exited_dead; [done|rewrite Ho; eassumption|tauto|tauto].
  - assert (next_restart status' id = Some due) as Hn' by congruence.
    eapply row_exited_waiting; [done|rewrite Ho; eassumption|tauto|tauto|exact Hn'|].
    unfold next_restart in Hn'. destruct (agents status' !! to_string id) as [s|] eqn:Hs; [|done].
    by eapply Hb.
  - apply row_absent_dead; [done|congruence|tauto|tauto].
Qed.

Lemma settled_started pid s :
  id ∉ stopped -> observed_get observed' id = Some (Running pid) ->
  agents status' !! to_string id = Some s -> st_applied_hash s = Some (hash agent) -> settled.
Proof.
  intros Hn Ho Hs Hh. unfold agent_settled. rewrite decide_False by done.
  split; [|left; eauto]. unfold changed. rewrite Hs. simpl. congruence.
Qed.

Lemma settled_stopped :
  id ∈ stopped -> run [Stop id] -> settled.
Proof.
  intros Hin Hr. run_inv. unfold agent_settled, unsettled. rewrite decide_True by done.
  match goal with H : observed_get _ _ = _ |- _ => rewrite H; subst; split; [done|clear H] end.
  match goal with H : _ !! _ = _ |- _ => rewrite H end.
  destruct (agents status !! to_string id); simpl; naive_solver.
Qed.

Lemma started_hash h a : st_applied_hash (started h a) = Some h.
Proof. unfold started. by case_bool_decide. Qed.

Lemma settled_restart (pre : list Step) :
  id ∉ stopped -> pre = [] \/ pre = [Stop id] ->
  run (pre ++ [Materialize id; Start id (hash agent)]) -> settled.
Proof.
  intros Hn Hpre Hr.
  destruct Hpre as [->| ->]; simpl in Hr; run_inv;
    match goal with H : exists pid, _ |- _ => destruct H as [pid Hpid] end;
    match goal with Ho : observed_get observed' id = _, Hs : agents status' !! _ = _ |- _ =>
      eapply (settled_started pid); [done|by rewrite Ho|exact Hs|apply started_hash] end.
Qed.

Lemma settled_noted code :
  id ∉ stopped -> observed_get observed id = Some (Exited code) -> ~ changed status id agent ->
  before_restarts now' status' -> run [NoteExit id code] -> settled.
Proof.
  intros Hn Ho Hc Hb Hr. run_inv. unfold agent_settled. rewrite decide_False by done.
  match goal with H : agents status' !! _ = Some ?x |- _ => rename H into Hst; set (a := x) in Hst end.
  assert (st_applied_hash a = st_applied_hash (default agent_status_default (agents status !! to_string id)))
    as Hh by (unfold a, note_exit; by case_match).
  split.
  - unfold changed in *. rewrite Hst. simpl. rewrite Hh. revert Hc.
    destruct (agents status !! to_string id); simpl; [done|]. intros Hc Heq. by apply Hc.
  - right. unfold dead, next_restart. rewrite Hst. simpl.
    destruct (decide (st_phase a = AgentPhase.Dead)) as [Hd|Hd].
    + left. split; [|eauto]. intros [pid Hp]. congruence.
    + right. destruct (st_next_restart_at a) as [due|] eqn:Hdue.
      * exists code, due. split_and!; [congruence|naive_solver|done|]. by eapply Hb.
      * exfalso. revert Hd Hdue. unfold a, note_exit. by case_match.
Qed.

Lemma row_settles steps :
  plan_row stopped status observed now id agent steps -> run steps ->
  before_restarts now' status' -> settled.
Proof.
  intros Hrow Hr Hb.
  destruct Hrow eqn:Hrow'; try (by eapply settled_unchanged); clear Hrow'.
  - by apply settled_stopped.
  - apply (settled_restart [Stop id]); auto.
  - apply (settled_restart []); auto.
  - by eapply settled_noted.
  - apply (settled_restart []); auto.
  - apply (settled_restart []); auto.
Qed.
End row_settles.

(** ** What a pass leaves of what is not desired *)

Section undesired.
Context `{Digest}.
Context (fleet : FleetName) (desired : option Fleet) (keep : Keep) (stopped : gset AgentId).
Context (status : FleetStatus) (observed : ObservedState) (now : Timestamp).
Notation p := (plan fleet desired keep stopped status observed now).
Notation desired_agents := (desired_agents desired).

Lemma steps_of_elem id step l :
  step ∈ steps_of id l <-> step_agent_id step = Some id /\ step ∈ l.
Proof. unfold steps_of. by rewrite list_elem_of_filter. Qed.

Lemma starts_desired id step :
  step ∈ p -> starts_agent id step -> is_Some (desired_agents !! id).
Proof.
  intros Hp [Hid Hrank].
  assert (step ∈ steps_of id p) as Hin by by apply steps_of_elem.
  rewrite steps_of_plan in Hin.
  destruct (desired_agents !! id); [eauto|].
  case_bool_decide; [|by apply not_elem_of_nil in Hin].
  apply elem_of_app in Hin as [Hin|Hin].
  - destruct (is_observed observed id); [|by apply not_elem_of_nil in Hin].
    apply list_elem_of_singleton in Hin as ->. done.
  - destruct desired; [|by apply not_elem_of_nil in Hin].
    apply list_elem_of_singleton in Hin as ->. done.
Qed.

(** The plan clears an agent that is known and not desired. *)
Lemma undesired_cleared id :
  id ∈ known_agents fleet status observed -> desired_agents !! id = None ->
  (is_Some (observed_get observed id) -> Exists (clears_seen id) p) /\
  Exists (clears_status id) p.
Proof.
  intros Hk Hn. destruct desired as [f|] eqn:Hd.
  - pose proof (steps_of_plan fleet (Some f) keep stopped status observed now id) as Hs.
    rewrite Hn, bool_decide_eq_true_2 in Hs by done.
    rewrite !Exists_exists. split.
    + intros Ho. exists (Stop id). split; [|by left]. apply (steps_of_elem id). rewrite Hs.
      unfold is_observed. rewrite bool_decide_eq_true_2 by done. by left.
    + exists (RemoveAgent id). split; [|by left]. apply (steps_of_elem id). rewrite Hs.
      rewrite elem_of_app. right. by left.
  - assert (RemoveCrew (crew_ref id) keep ∈ p) as Hin.
    { apply plan_crew_steps. split; [done|]. rewrite elem_of_known_crews. split; [eauto|].
      rewrite elem_of_desired_crews. intros (id' & [a Ha] & _).
      apply lookup_desired in Ha as (? & ? & _). congruence. }
    rewrite Hd in Hin. rewrite !Exists_exists.
    split; [intros _|]; exists (RemoveCrew (crew_ref id) keep); (split; [exact Hin|]); right; eauto.
Qed.
End undesired.

(** ** The pass *)

Section pass.
Context `{LawfulPorts W} `{Digest} (ctx : ReconcileContext).

(** What the pass assumes of its caller: the desired fleet is the one it
    reconciles, and the status holds agents of that fleet only. *)
Definition of_fleet (status : FleetStatus) : Prop :=
  (forall f, cx_desired ctx = Some f -> fleet_name f = cx_fleet ctx) /\
  (forall id : AgentId, is_Some (agents status !! to_string id) -> id_fleet id = cx_fleet ctx).

Lemma desired_fleet status id :
  of_fleet status -> is_Some (desired_agents (cx_desired ctx) !! id) -> id_fleet id = cx_fleet ctx.
Proof.
  intros [Hf _] [a (f & Hd & (crew & s & _ & _ & Hid & _)%from_fleet_elem & <-)%lookup_desired].
  rewrite Hid. by apply Hf.
Qed.

Notation the_plan status observed now :=
  (plan (cx_fleet ctx) (cx_desired ctx) (cx_keep ctx) (cx_stopped ctx) status observed now).

Section after.
Context (status status' : FleetStatus) (w w' : W) (now : Timestamp).
Notation observed := (view w (cx_fleet ctx)).
Notation observed' := (view w' (cx_fleet ctx)).
Notation p := (the_plan status observed now).
Context (Hof : of_fleet status).
Context (Hrun : forall id : AgentId, agent_run (cx_policy ctx) id p
  (seen w id, agents status !! to_string id) (seen w' id, agents status' !! to_string id)).
Context (Hcrun : forall c, crew_run c p (has_crew w c) (has_crew w' c)).

Lemma after_undesired id :
  desired_agents (cx_desired ctx) !! id = None ->
  (id_fleet id = cx_fleet ctx -> seen w' id = None) /\ agents status' !! to_string id = None.
Proof.
  intros Hn.
  destruct (agent_run_gone (cx_policy ctx) id p _ _
    ltac:(intros step Hin Hst; destruct (starts_desired _ _ _ _ _ _ _ _ _ Hin Hst); congruence)
    (Hrun id)) as [Hg1 Hg2].
  simpl in Hg1, Hg2. split.
  - intros Hf. apply Hg1. unfold seen in *. rewrite Hf in *.
    destruct (observed_get observed id) as [o|] eqn:Ho; [right|by left].
    apply undesired_cleared; eauto. apply elem_of_known. right.
    rewrite elem_of_agent_ids, Ho. eauto.
  - apply Hg2. destruct (agents status !! to_string id) as [s|] eqn:Hs; [right|by left].
    apply undesired_cleared; [|done]. apply elem_of_known. rewrite Hs. eauto.
Qed.

Lemma after_desired id agent now' :
  desired_agents (cx_desired ctx) !! id = Some agent -> before_restarts now' status' ->
  agent_settled (cx_stopped ctx) status' observed' now' id agent.
Proof.
  intros Hd Hb. pose proof (desired_fleet status id Hof ltac:(eauto)) as Hf.
  eapply (row_settles (cx_policy ctx) (cx_stopped ctx) id agent status status' observed observed' now);
    [apply plan_agent_row| |done].
  pose proof (Hrun id) as Hr. apply agent_run_steps_of in Hr.
  - rewrite steps_of_plan, Hd in Hr. unfold seen in Hr. by rewrite Hf in Hr.
  - intros k (_ & _ & Hnd)%plan_crew_steps. apply Hnd, elem_of_desired_crews. eauto.
Qed.

Lemma after_crew c :
  cr_fleet c = cx_fleet ctx -> has_crew w' c -> c ∈ desired_crews (cx_desired ctx).
Proof.
  intros Hf Hh. destruct (decide (c ∈ desired_crews (cx_desired ctx))) as [|Hn]; [done|].
  exfalso. revert Hh. eapply crew_run_gone; [|apply Hcrun|].
  - intros step Hin. split.
    + intros ->. apply plan_crew_steps in Hin; [done|exact (cx_keep ctx)].
    + intros i hash -> <-. apply Hn, elem_of_desired_crews. exists i. split; [|done].
      by apply (starts_desired _ _ _ _ _ _ _ _ _ Hin).
  - destruct (decide (is_Some (crews observed !! cr_crew c))) as [Ho|Ho].
    + right. exists (cx_keep ctx). apply plan_crew_steps. split_and!; try done.
      apply elem_of_known_crews. by right.
    + left. unfold has_crew. by rewrite Hf.
Qed.

Lemma after_quiescent now' :
  before_restarts now' status' -> the_plan status' observed' now' = ensures (cx_desired ctx).
Proof.
  intros Hb.
  assert (forall id, id ∈ known_agents (cx_fleet ctx) status' observed' ->
    is_Some (desired_agents (cx_desired ctx) !! id)) as Hknown.
  { intros id Hk. destruct (desired_agents (cx_desired ctx) !! id) eqn:Hd; [eauto|].
    destruct (after_undesired id Hd) as [Hg1 Hg2]. exfalso.
    apply elem_of_known in Hk as [Hk|[Hf Hk]%elem_of_agent_ids]; [rewrite Hg2 in Hk; by destruct Hk|].
    specialize (Hg1 Hf). unfold seen in Hg1. rewrite Hf in Hg1. rewrite Hg1 in Hk. by destruct Hk. }
  apply plan_quiescent. split_and!.
  - intros c [(id & Hid%Hknown & <-)|[Hf Hc]]%elem_of_known_crews.
    + apply elem_of_desired_crews. eauto.
    + apply after_crew; [done|]. unfold has_crew. by rewrite Hf.
  - done.
  - intros id agent Hd. by apply after_desired.
Qed.
End after.

(** One pass over healthy ports, with what it did. *)
Lemma pass_runs status w : healthy w ->
  exists s now w1 w', reconcile_pass ctx status w =
      (Ok (finish_pass (ex_status s) (bool_decide (cx_desired ctx = None)) (all_ok (ex_report s)),
           the_plan status (view w (cx_fleet ctx)) now, ex_report s), w') /\
    healthy w' /\ all_ok (ex_report s) = true /\ view w1 = view w /\
    exec_steps ctx (the_plan status (view w (cx_fleet ctx)) now) (exec_init status) w1 = (s, w') /\
    (forall id : AgentId, agent_run (cx_policy ctx) id (the_plan status (view w (cx_fleet ctx)) now)
      (seen w id, agents status !! to_string id) (seen w' id, agents (ex_status s) !! to_string id)) /\
    (forall c, crew_run c (the_plan status (view w (cx_fleet ctx)) now) (has_crew w c) (has_crew w' c)).
Proof.
  intros Hw. unfold reconcile_pass.
  destruct (law_observe (cx_fleet ctx) w Hw) as (w0 & -> & Hw0 & Hv0).
  destruct (law_clock w0 Hw0) as [Hw1 Hv1].
  destruct (clock_now w0) as [now w1]. simpl in Hw1, Hv1. rewrite Hv0 in Hv1.
  set (p := the_plan status _ now).
  destruct (exec_steps_ok ctx p (exec_init status) w1 Hw1) as (s & w' & Hex & Hw' & (_ & _ & Hok) & Hr & Hcr).
  - done.
  - apply plan_possible.
  - exists s, now, w1, w'. unfold execute. rewrite Hex. split_and!; try done.
    + intros id. specialize (Hr id). unfold seen in Hr |- *. by rewrite Hv1 in Hr.
    + intros c. specialize (Hcr c). unfold has_crew in Hcr |- *. by rewrite Hv1 in Hcr.
Qed.

Lemma finish_pass_agents s t ok : agents (finish_pass s t ok) = agents s.
Proof. unfold finish_pass. by destruct ok. Qed.

(** C1: the reconciler converges: over ports that fail nothing, one pass of
    observe, plan and execute succeeds with every step done, and from the
    world and the status it leaves, a plan made before the restarts it has
    scheduled does nothing but ensure the desired crews. *)
Theorem reconcile_converges status w : healthy w -> of_fleet status ->
  exists status' p report w',
    reconcile_pass ctx status w = (Ok (status', p, report), w') /\
    all_ok report = true /\ healthy w' /\
    forall now', before_restarts now' status' ->
      the_plan status' (view w' (cx_fleet ctx)) now' = ensures (cx_desired ctx).
Proof.
  intros Hw Hof. destruct (pass_runs status w Hw) as (s & now & w1 & w' & -> & Hw' & Hok & _ & _ & Hr & Hc).
  eexists _, _, _, w'. split_and!; [done..|]. intros now' Hb.
  eapply (after_quiescent status); [exact Hof| |exact Hc|exact Hb].
  intros id. rewrite finish_pass_agents. apply Hr.
Qed.

(** A pass with no desired fleet. *)
Lemma down_pass status w : healthy w -> keys_ok status ->
  cx_desired ctx = None ->
  exists status' p report w',
    reconcile_pass ctx status w = (Ok (status', p, report), w') /\
    all_ok report = true /\ healthy w' /\ agents status' = ∅ /\ phase status' = FleetPhase.Down /\
    forall c, cr_fleet c = cx_fleet ctx -> ~ has_crew w' c.
Proof.
  intros Hw Hk Hd.
  destruct (pass_runs status w Hw) as (s & now & w1 & w' & -> & Hw' & Hok & _ & Hex & Hr & Hc).
  assert (agents (ex_status s) = ∅) as He.
  { apply map_empty. intros k. destruct (agents (ex_status s) !! k) as [a|] eqn:Ha; [|done].
    destruct (keys_ok_exec_steps ctx _ _ _ _ _ Hex Hk k ltac:(eauto)) as [id ->].
    rewrite <- Ha. eapply after_undesired; [exact Hr|]. unfold desired_agents. by rewrite Hd. }
  eexists _, _, _, w'. split; [done|]. rewrite finish_pass_agents. split_and!; [done..| |].
  - unfold finish_pass. rewrite Hok. simpl. unfold derive_fleet_phase, no_agents.
    by rewrite Hd, He, !bool_decide_eq_true_2.
  - intros c Hf Hh. eapply after_crew in Hh; [|exact Hc|exact Hf].
    apply elem_of_desired_crews in Hh as (id & [a Ha] & _). unfold desired_agents in Ha.
    rewrite Hd in Ha. by rewrite lookup_empty in Ha.
Qed.

(** Taking a fleet down completes: over ports that fail nothing, one
    pass with no desired fleet leaves a status without agents, in phase
    [Down], and a runner that sees no crew of the fleet. *)
Theorem down_completes status w : healthy w -> keys_ok status ->
  cx_desired ctx = None ->
  exists status' p report w',
    reconcile_pass ctx status w = (Ok (status', p, report), w') /\
    agents status' = ∅ /\ phase status' = FleetPhase.Down /\
    forall c, cr_fleet c = cx_fleet ctx -> ~ has_crew w' c.
Proof.
  intros Hw Hk Hd. destruct (down_pass status w Hw Hk Hd) as (st & p & r & w' & ? & _ & _ & ?).
  by exists st, p, r, w'.
Qed.
End pass.

(** ** Witnesses *)

#[local] Instance sample_digest : Digest := fun _ => "0123456789abcdef".

Lemma sample_keys (id : AgentId) : is_Some (agents sample_status !! to_string id) -> id = sample_id.
Proof.
  intros [a Ha]. unfold sample_status in Ha. cbn [agents set_agents] in Ha.
  apply lookup_singleton_Some in Ha as [Ha _].
  symmetry. by apply (inj (to_string (A := AgentId))).
Qed.

Lemma sample_of_fleet : of_fleet (sample_context (Some sample_fleet)) sample_status.
Proof.
  split; [by intros f [= <-]|]. by intros id ->%sample_keys.
Qed.

Lemma sample_keys_ok : keys_ok sample_status.
Proof.
  intros k [a Ha]. unfold sample_status in Ha. cbn [agents set_agents] in Ha.
  apply lookup_singleton_Some in Ha as [<- _]. by exists sample_id.
Qed.

Lemma reconcile_converges_witness :
  exists status' p report w',
    reconcile_pass (sample_context (Some sample_fleet)) sample_status fresh_world =
      (Ok (status', p, report), w') /\ all_ok report = true /\ healthy w' /\
    forall now', before_restarts now' status' ->
      plan (id_fleet sample_id) (Some sample_fleet) {| keep_repos := false; keep_sessions := true |}
        ∅ status' (view w' (id_fleet sample_id)) now' = ensures (Some sample_fleet).
Proof.
  apply (reconcile_converges (sample_context (Some sample_fleet)) sample_status fresh_world).
  - done.
  - apply sample_of_fleet.
Defined.

Lemma down_completes_witness :
  exists status' p report w',
    reconcile_pass (sample_context None) sample_status fresh_world =
      (Ok (status', p, report), w') /\
    agents status' = ∅ /\ phase status' = FleetPhase.Down /\
    forall c, cr_fleet c = id_fleet sample_id -> ~ has_crew w' c.
Proof.
  apply (down_completes (sample_context None) sample_status fresh_world).
  - done.
  - apply sample_keys_ok.
  - reflexivity.
Defined.
