(* ===== verification/FleetRecord.v ===== *)
(** What the daemon stores of a fleet ([crates/balerix-api/src/record.rs],
    [crates/balerix-core/src/store.rs]): the record, its desired state, the
    secrets beside it and the store's errors. *)

From S2P Require Import Prelude Str BTree Names Json Fleet Status Execute.

Inductive Desired :=
| Up
| DesiredDown (keep : Keep) (purge : bool).

Record FleetRecord := {
  rec_spec : FleetSpec;
  rec_owner : option string;
  rec_generation : N;
  rec_desired : Desired;
  rec_stopped : gset string;
  rec_status : FleetStatus;
}.

(** [FleetRecord::with_owner] and [FleetRecord::new]. *)
Definition with_owner (spec : FleetSpec) (owner : option string) : FleetRecord :=
  {| rec_spec := spec; rec_owner := owner; rec_generation := 0; rec_desired := Up;
     rec_stopped := ∅; rec_status := fleet_status_default |}.

Definition new_record (spec : FleetSpec) : FleetRecord := with_owner spec None.

Definition desired_down (d : Desired) : bool :=
  match d with DesiredDown _ _ => true | Up => false end.

Definition desired_purge (d : Desired) : bool :=
  match d with DesiredDown _ purge => purge | Up => false end.

(** Downed and settled. *)
Definition is_down (r : FleetRecord) : bool :=
  desired_down (rec_desired r) && bool_decide (phase (rec_status r) = FleetPhase.Down).

Record FleetSummary := {
  su_name : string;
  su_phase : FleetPhase.t;
  su_generation : N;
  su_observed_generation : N;
  su_agents : nat;
  su_managed_by : option string;
}.

Definition summary (r : FleetRecord) : FleetSummary :=
  {| su_name := fs_name (rec_spec r); su_phase := phase (rec_status r);
     su_generation := rec_generation r;
     su_observed_generation := observed_generation (rec_status r);
     su_agents := size (agents (rec_status r)); su_managed_by := rec_owner r |}.

Record FleetSecrets := {
  sec_credentials : CredentialBundle;
  sec_hook_secrets : gmap string string;
}.

Inductive StoreError :=
| StoreIo (path message : string)
| StoreCorrupt (path message : string).

#[export] Instance store_error_display : Display StoreError := fun e =>
  match e with
  | StoreIo path message | StoreCorrupt path message => path +:+ ": " +:+ message
  end.

(** Field updates. *)
Definition set_rec_status (st : FleetStatus) (r : FleetRecord) : FleetRecord :=
  {| rec_spec := rec_spec r; rec_owner := rec_owner r; rec_generation := rec_generation r;
     rec_desired := rec_desired r; rec_stopped := rec_stopped r; rec_status := st |}.
Definition set_rec_desired (d : Desired) (r : FleetRecord) : FleetRecord :=
  {| rec_spec := rec_spec r; rec_owner := rec_owner r; rec_generation := rec_generation r;
     rec_desired := d; rec_stopped := rec_stopped r; rec_status := rec_status r |}.
Definition set_rec_stopped (st : gset string) (r : FleetRecord) : FleetRecord :=
  {| rec_spec := rec_spec r; rec_owner := rec_owner r; rec_generation := rec_generation r;
     rec_desired := rec_desired r; rec_stopped := st; rec_status := rec_status r |}.
