(* ===== verification/Tree.v ===== *)
(** The file system calls the key/value store makes, on the tree below one
    plugin's [kv/] directory ([std::fs] as used by
    [crates/balerix-server/src/plugins/kv.rs] and [fsutil.rs]), and what each
    does to the files stored in it.

    A directory is a [gmap] from names to nodes; each call answers the error
    Linux answers. Permissions, failing disks and temporary files are not
    modelled: a write that succeeds replaces the file at once ([rename] is
    atomic). *)

From S2P Require Import Prelude Str.

(** ** The file system below [kv/] *)

Inductive node :=
| File (content : string)
| Dir (children : gmap string node).

Notation dir := (gmap string node).

Inductive Errno := NotFound | IsADirectory | NotADirectory | AlreadyExists | DirectoryNotEmpty.

#[export] Instance errno_eq_dec : EqDecision Errno.
Proof. solve_decision. Defined.

(** [fs::read] of a path given as its segments. *)
Fixpoint fs_read (p : list string) (m : dir) : result Errno string :=
  match p with
  | [] => Err IsADirectory
  | s :: p' =>
      match m !! s, p' with
      | None, _ => Err NotFound
      | Some (File b), [] => Ok b
      | Some (File _), _ => Err NotADirectory
      | Some (Dir m'), _ => fs_read p' m'
      end
  end.

(** [Path::is_file]. *)
Definition is_file (p : list string) (m : dir) : bool := is_ok (fs_read p m).

(** [fs::create_dir_all]: what is missing is made; a file in the way is
    [EEXIST] at the end of the path and [ENOTDIR] before it. *)
Fixpoint create_dir_all (p : list string) (m : dir) : result Errno dir :=
  match p with
  | [] => Ok m
  | s :: p' =>
      match m !! s with
      | None => m' ← create_dir_all p' ∅; Ok (<[s := Dir m']> m)
      | Some (Dir m') => m' ← create_dir_all p' m'; Ok (<[s := Dir m']> m)
      | Some (File _) => Err (if decide (p' = []) then AlreadyExists else NotADirectory)
      end
  end.

(** [fs::rename] of the temporary file onto the path. *)
Fixpoint rename_onto (p : list string) (b : string) (m : dir) : result Errno dir :=
  match p with
  | [] => Err IsADirectory
  | s :: p' =>
      match p', m !! s with
      | [], Some (Dir _) => Err IsADirectory
      | [], _ => Ok (<[s := File b]> m)
      | _, Some (Dir m') => m' ← rename_onto p' b m'; Ok (<[s := Dir m']> m)
      | _, Some (File _) => Err NotADirectory
      | _, None => Err NotFound
      end
  end.

(** [fs::remove_file] and [fs::remove_dir]. *)
Fixpoint remove_file (p : list string) (m : dir) : result Errno dir :=
  match p with
  | [] => Err IsADirectory
  | s :: p' =>
      match m !! s, p' with
      | None, _ => Err NotFound
      | Some (File _), [] => Ok (delete s m)
      | Some (File _), _ => Err NotADirectory
      | Some (Dir _), [] => Err IsADirectory
      | Some (Dir m'), _ => m' ← remove_file p' m'; Ok (<[s := Dir m']> m)
      end
  end.

Fixpoint remove_dir (p : list string) (m : dir) : result Errno dir :=
  match p with
  | [] => Err DirectoryNotEmpty
  | s :: p' =>
      match m !! s, p' with
      | None, _ => Err NotFound
      | Some (File _), _ => Err NotADirectory
      | Some (Dir m'), [] => if decide (m' = ∅) then Ok (delete s m) else Err DirectoryNotEmpty
      | Some (Dir m'), _ => m' ← remove_dir p' m'; Ok (<[s := Dir m']> m)
      end
  end.

(** [write_private]: the parents, then the file; what was made stays when the
    rename fails. *)
Definition write_private (p : list string) (b : string) (m : dir) : result Errno unit * dir :=
  match create_dir_all (removelast p) m with
  | Err e => (Err e, m)
  | Ok m =>
      match rename_onto p b m with
      | Err e => (Err e, m)
      | Ok m => (Ok tt, m)
      end
  end.

(** ** What is stored *)

Definition stored (p : list string) (m : dir) : option string := to_option (fs_read p m).

Fixpoint at_path (p : list string) (m : dir) : option node :=
  match p with
  | [] => Some (Dir m)
  | s :: p' =>
      match m !! s, p' with
      | Some (Dir m'), _ => at_path p' m'
      | Some (File b), [] => Some (File b)
      | _, _ => None
      end
  end.

Lemma stored_nil m : stored [] m = None.
Proof. done. Qed.

Lemma stored_empty p : stored p ∅ = None.
Proof. destruct p; [done|]. unfold stored. simpl. by rewrite lookup_empty. Qed.

Lemma stored_cons s p m :
  stored (s :: p) m =
    match m !! s with
    | Some (Dir m') => stored p m'
    | Some (File b) => if decide (p = []) then Some b else None
    | None => None
    end.
Proof. unfold stored. simpl. destruct (m !! s) as [[b|m']|]; [by destruct p|by destruct p|done]. Qed.

Lemma at_path_cons s p m :
  at_path (s :: p) m =
    match m !! s with
    | Some (Dir m') => at_path p m'
    | Some (File b) => if decide (p = []) then Some (File b) else None
    | None => None
    end.
Proof. simpl. destruct (m !! s) as [[b|m']|]; by destruct p. Qed.

(** A proper prefix of the path, not empty. *)
Definition above (q p : list string) : Prop := exists s x, p = q ++ s :: x /\ q <> [].

Lemma above_cons s q p : above q p -> above (s :: q) (s :: p).
Proof. intros (t & x & -> & _). by exists t, x. Qed.

Lemma above_cons_inv s q p : above q (s :: p) -> exists q', q = s :: q' /\ (q' = [] \/ above q' p) /\ p <> [].
Proof.
  intros (t & x & Heq & Hq). destruct q as [|s' q]; [done|]. simpl in Heq. injection Heq as <- ->.
  exists q. split; [done|]. split; [|by destruct q].
  destruct (decide (q = [])); [by left|right]. by exists t, x.
Qed.

(** [write_private], one segment at a time. *)
Lemma write_private_one s b m :
  write_private [s] b m =
    match m !! s with Some (Dir _) => (Err IsADirectory, m) | _ => (Ok tt, <[s := File b]> m) end.
Proof. unfold write_private. simpl. by destruct (m !! s) as [[|]|]. Qed.

Lemma create_dir_all_empty p : exists m, create_dir_all p ∅ = Ok m.
Proof.
  induction p as [|s p [m IH]]; simpl; [eauto|]. rewrite lookup_empty, IH. simpl. eauto.
Qed.

Lemma rename_onto_made s t p b m m' :
  rename_onto (s :: t :: p) b (<[s := Dir m']> m) =
    (m'' ← rename_onto (t :: p) b m'; Ok (<[s := Dir m'']> m)).
Proof.
  cbn [rename_onto]. rewrite lookup_insert_eq.
  destruct (match p with [] => _ | _ => _ end); simpl; [|done].
  by rewrite insert_insert_eq.
Qed.

Lemma write_private_cons s t p b m :
  write_private (s :: t :: p) b m =
    match m !! s with
    | None => let '(r, m') := write_private (t :: p) b ∅ in (r, <[s := Dir m']> m)
    | Some (Dir m0) => let '(r, m') := write_private (t :: p) b m0 in (r, <[s := Dir m']> m)
    | Some (File _) => (Err (if decide (p = []) then AlreadyExists else NotADirectory), m)
    end.
Proof.
  unfold write_private. change (removelast (s :: t :: p)) with (s :: removelast (t :: p)).
  set (q := removelast (t :: p)). cbn [create_dir_all].
  assert (q = [] <-> p = []) as Hq by (unfold q; by destruct p).
  destruct (m !! s) as [[c|m0]|] eqn:Hs.
  - f_equal. f_equal. repeat case_decide; tauto.
  - destruct (create_dir_all q m0) as [m1|e]; cbn [mbind result_bind].
    + rewrite rename_onto_made. by destruct (rename_onto (t :: p) b m1).
    + by rewrite insert_id.
  - destruct (create_dir_all_empty q) as [m1 Hm1]. rewrite Hm1. cbn [mbind result_bind].
    rewrite rename_onto_made. by destruct (rename_onto (t :: p) b m1).
Qed.

(** No empty directory below this one. *)
Inductive tidy : node -> Prop :=
| tidy_file b : tidy (File b)
| tidy_dir m : m <> ∅ -> (forall s n, m !! s = Some n -> tidy n) -> tidy (Dir m).

Definition all_tidy (m : dir) : Prop := forall s n, m !! s = Some n -> tidy n.

Lemma all_tidy_insert s n m : tidy n -> all_tidy m -> all_tidy (<[s := n]> m).
Proof.
  intros Hn Hm t x. destruct (decide (t = s)) as [->|Hne].
  - rewrite lookup_insert_eq. by intros [= <-].
  - rewrite lookup_insert_ne by done. apply Hm.
Qed.

Lemma insert_not_empty s (n : node) m : <[s := n]> m <> (∅ : dir).
Proof. apply insert_non_empty. Qed.

(** What a write does to a tree, and when it cannot. *)
Definition written (p : list string) (b : string) (m m' : dir) : Prop :=
  (forall q, stored q m' = if decide (q = p) then Some b else stored q m) /\
  (forall q, above q p -> stored q m = None) /\
  (forall m0, at_path p m <> Some (Dir m0)) /\
  (all_tidy m -> all_tidy m').

Definition obstructed (p : list string) (m : dir) (e : Errno) : Prop :=
  (e = IsADirectory /\ exists m0, at_path p m = Some (Dir m0)) \/
  ((e = AlreadyExists \/ e = NotADirectory) /\ exists q b, above q p /\ stored q m = Some b).

Lemma write_private_spec p b m : p <> [] ->
  match write_private p b m with
  | (Ok _, m') => m' <> ∅ /\ written p b m m'
  | (Err e, m') => m' = m /\ obstructed p m e
  end.
Proof.
  revert m. induction p as [|s p IH]; intros m Hp; [done|]. clear Hp.
  destruct p as [|t p].
  - rewrite write_private_one.
    assert ((forall m0, m !! s <> Some (Dir m0)) ->
      <[s := File b]> m <> ∅ /\ written [s] b m (<[s := File b]> m)) as Hok.
    { intros Hs. split; [apply insert_not_empty|]. split_and!.
      - intros [|s' q]; [done|]. rewrite !stored_cons. destruct (decide (s' = s)) as [->|Hne].
        + rewrite lookup_insert_eq. destruct (decide (q = [])) as [->|Hq].
          * by rewrite decide_True.
          * rewrite decide_False by congruence. destruct (m !! s) as [[|]|]; [done|by edestruct Hs|done].
        + rewrite lookup_insert_ne, (decide_False (P := s' :: q = _)) by congruence. done.
      - intros q (q' & -> & _ & ?)%above_cons_inv. done.
      - intros m0. rewrite at_path_cons. destruct (m !! s) as [[|m1]|]; [by destruct (decide _)|by edestruct Hs|done].
      - intros Hm. apply all_tidy_insert; [constructor|done]. }
    destruct (m !! s) as [[c|m0]|] eqn:Hs.
    + by apply Hok.
    + split; [done|]. left. split; [done|]. exists m0. by rewrite at_path_cons, Hs.
    + by apply Hok.
  - rewrite write_private_cons.
    assert (forall m0, (m !! s = Some (Dir m0) \/ m !! s = None /\ m0 = ∅) ->
      match (let '(r, m') := write_private (t :: p) b m0 in (r, <[s := Dir m']> m)) with
      | (Ok _, m') => m' <> ∅ /\ written (s :: t :: p) b m m'
      | (Err e, m') => m !! s = Some (Dir m0) /\ m' = m /\ obstructed (s :: t :: p) m e
      end) as Hsub.
    { intros m0 Hs. specialize (IH m0 ltac:(done)).
      assert (forall q, q <> [] -> stored (s :: q) m = stored q m0) as Hst.
      { intros q Hq. rewrite stored_cons. destruct Hs as [->|[-> ->]]; [done|].
        by rewrite stored_empty. }
      assert (forall x, at_path (s :: t :: p) m = Some (Dir x) <-> at_path (t :: p) m0 = Some (Dir x)) as Hat.
      { intros x. rewrite (at_path_cons s). destruct Hs as [->|[-> ->]]; [done|].
        rewrite at_path_cons, lookup_empty. done. }
      destruct (write_private (t :: p) b m0) as [[u|e] m'].
      - destruct IH as (Hne & Hw1 & Hw2 & Hw3 & Hw4). split; [apply insert_not_empty|]. split_and!.
        + intros [|s' q]; [done|]. rewrite stored_cons. destruct (decide (s' = s)) as [->|Hs'].
          * rewrite lookup_insert_eq, Hw1. destruct (decide (q = t :: p)) as [->|Hq].
            -- by rewrite decide_True.
            -- rewrite decide_False by congruence. destruct q as [|t' q]; [|by rewrite Hst].
               rewrite stored_cons, stored_nil. by destruct Hs as [->|[-> ->]].
          * rewrite lookup_insert_ne, decide_False, stored_cons by congruence. done.
        + intros q (q' & -> & Hq' & _)%above_cons_inv. destruct Hq' as [->|Hq'].
          * rewrite stored_cons. by destruct Hs as [->|[-> _]].
          * rewrite Hst; [by apply Hw2|]. by destruct Hq' as (? & ? & _ & ?).
        + intros x. rewrite Hat. apply Hw3.
        + intros Hm. apply all_tidy_insert; [|done]. constructor; [done|]. apply Hw4.
          destruct Hs as [Hs|[_ ->]]; [apply Hm in Hs; by inversion Hs|]. intros ? ?.
          by rewrite lookup_empty.
      - destruct IH as [-> Hob]. destruct Hs as [Hs|[Hs ->]].
        + split; [done|]. split; [by apply insert_id|].
          destruct Hob as [[-> [x Hx]]|[He (q & c & Hq & Hc)]].
          * left. split; [done|]. exists x. by apply Hat.
          * right. split; [done|]. exists (s :: q), c. split; [by apply above_cons|].
            rewrite Hst; [done|]. by destruct Hq as (? & ? & _ & ?).
        + exfalso. destruct Hob as [[_ [x Hx]]|[_ (q & c & _ & Hc)]].
          * rewrite at_path_cons, lookup_empty in Hx. done.
          * by rewrite stored_empty in Hc. }
    destruct (m !! s) as [[c|m0]|] eqn:Hs.
    + split; [done|]. right. split; [case_decide; auto|]. exists [s], c.
      split; [by exists t, p|]. by rewrite stored_cons, Hs, decide_True.
    + specialize (Hsub m0 (or_introl eq_refl)).
      destruct (write_private (t :: p) b m0) as [[u|e] m']; [done|]. by destruct Hsub as (_ & ? & ?).
    + specialize (Hsub ∅ (or_intror (conj eq_refl eq_refl))).
      destruct (write_private (t :: p) b ∅) as [[u|e] m']; [done|]. by destruct Hsub as (? & _).
Qed.

(** A tidy directory that is not empty holds a file. *)
Lemma tidy_file_below n : tidy n ->
  match n with File _ => True | Dir m => exists q b, stored q m = Some b end.
Proof.
  induction 1 as [|m Hne Hm IH]; [done|].
  destruct (map_choose m Hne) as (s & x & Hs). specialize (IH _ _ Hs). destruct x as [b|m'].
  - exists [s], b. by rewrite stored_cons, Hs, decide_True.
  - destruct IH as (q & b & Hq). exists (s :: q), b. by rewrite stored_cons, Hs.
Qed.

Lemma at_path_tidy p m m0 : p <> [] -> all_tidy m -> at_path p m = Some (Dir m0) -> tidy (Dir m0).
Proof.
  revert m. induction p as [|s p IH]; intros m Hp Hm; [done|]. rewrite at_path_cons.
  destruct (m !! s) as [[b|m1]|] eqn:Hs; [by destruct (decide _)| |done].
  apply Hm in Hs. destruct p as [|t p]; [by intros [= <-]|].
  apply IH; [done|]. by inversion Hs.
Qed.

Lemma stored_below p q m m0 : at_path p m = Some (Dir m0) -> stored (p ++ q) m = stored q m0.
Proof.
  revert m. induction p as [|s p IH]; intros m; [by intros [= ->]|]. simpl app.
  rewrite at_path_cons, stored_cons.
  destruct (m !! s) as [[b|m1]|]; [by destruct (decide _)|apply IH|done].
Qed.

Lemma stored_below_dir p s q b m : stored (p ++ s :: q) m = Some b -> exists m0, at_path p m = Some (Dir m0).
Proof.
  revert m. induction p as [|t p IH]; intros m; [by exists m|]. simpl app.
  rewrite at_path_cons, stored_cons. destruct (m !! t) as [[c|m1]|]; [|apply IH|done].
  rewrite decide_False by by destruct p. done.
Qed.

(** [rmdir] takes no directory that holds something. *)
Lemma remove_dir_full p m m0 : at_path p m = Some (Dir m0) -> m0 <> ∅ -> is_ok (remove_dir p m) = false.
Proof.
  revert m. induction p as [|s p IH]; intros m; [done|]. rewrite at_path_cons. intros Hp Hne. simpl.
  destruct (m !! s) as [[b|m1]|]; [done| |done]. specialize (IH m1 Hp Hne).
  destruct p as [|t p]; [injection Hp as <-; by rewrite decide_False|].
  by destruct (remove_dir (t :: p) m1).
Qed.

(** What is left where a directory was removed: its parent. *)
Lemma remove_dir_parent p s m m' : remove_dir (p ++ [s]) m = Ok m' ->
  exists m0, at_path p m' = Some (Dir m0).
Proof.
  revert m m'. induction p as [|t p IH]; intros m m'; [eexists; done|]. simpl app. cbn [remove_dir].
  destruct (m !! t) as [[b|m1]|]; [done| |done].
  destruct (p ++ [s]) as [|t' p'] eqn:Hp; [by destruct p|].
  destruct (remove_dir (t' :: p') m1) as [m2|e] eqn:Hr; [|done].
  cbn [mbind result_bind]. intros [= <-]. rewrite at_path_cons, lookup_insert_eq. by eapply IH.
Qed.
