(* ===== verification/FileStore.v ===== *)
(** The daemon's files ([crates/balerix-server/src/store.rs], [vault.rs]): a
    directory per fleet with the record in the clear and the secrets sealed
    under the fleet's name. The tree below the fleets directory is [Tree.v]'s
    (a missing one is the empty tree); JSON, the cipher and the random source
    are parameters. *)

From S2P Require Import Prelude Str BTree Names Json Fleet Status Execute FleetRecord Tree.

Definition RECORD : string := "fleet.json".
Definition SECRETS : string := "secrets.enc".
Definition KEY_LEN : nat := 32.
Definition NONCE_LEN : nat := 24.

(** serde_json on a record and on secrets, XChaCha20-Poly1305 (key, nonce,
    associated data, text), UTF-8 and the text of an I/O error. *)
Class StoreCodec := {
  record_text : FleetRecord -> result string string;
  record_of : string -> result string FleetRecord;
  secrets_text : FleetSecrets -> result string string;
  secrets_of : string -> result string FleetSecrets;
  encrypt : string -> string -> string -> string -> option string;
  decrypt : string -> string -> string -> string -> option string;
  is_utf8 : string -> bool;
  io_text : Errno -> string;
  not_utf8_text : string;
}.

(** ** The vault *)

Record Vault := { v_key : string }.

Inductive VaultError :=
| VaultIo (path message : string)
| BadKey (path : string) (len : nat)
| SealFailed
| Tampered.

Definition vault_error_text (e : VaultError) : string :=
  match e with
  | VaultIo path message => path +:+ ": " +:+ message
  | BadKey path len => path +:+ ": expected a " +:+ pretty KEY_LEN +:+ "-byte key, found " +:+ pretty len +:+ " bytes"
  | SealFailed => "encryption failed"
  | Tampered => "ciphertext rejected (wrong key, wrong fleet, or tampered)"
  end.

Section codec.
Context `{!StoreCodec}.

(** [load_or_create] below the directory of the key; [fresh] is what the
    random source fills the new key with. *)
Definition load_or_create (path : list string) (fresh : string) (m : dir) : result VaultError Vault * dir :=
  let shown := join "/" path in
  match fs_read path m with
  | Ok bytes =>
      (if decide (String.length bytes = KEY_LEN) then Ok {| v_key := bytes |} else Err (BadKey shown (String.length bytes)), m)
  | Err NotFound =>
      let '(r, m) := write_private path fresh m in
      (map_err (fun e => VaultIo shown (io_text e)) (_ ← r; Ok {| v_key := fresh |}), m)
  | Err e => (Err (VaultIo shown (io_text e)), m)
  end.

Definition seal (v : Vault) (nonce aad plain : string) : result VaultError string :=
  match encrypt (v_key v) nonce aad plain with
  | Some ct => Ok (nonce +:+ ct)
  | None => Err SealFailed
  end.

Definition open (v : Vault) (aad blob : string) : result VaultError string :=
  if String.length blob <? NONCE_LEN then Err Tampered
  else
    match decrypt (v_key v) (String.substring 0 NONCE_LEN blob) aad (String.substring NONCE_LEN (String.length blob - NONCE_LEN) blob) with
    | Some plain => Ok plain
    | None => Err Tampered
    end.

(** ** The store *)

Section store.
Context (root : string) (vault : Vault).

Definition fleet_dir (name : FleetName) : string := root +:+ "/" +:+ to_string name.
Definition file_path (name file : string) : string := root +:+ "/" +:+ name +:+ "/" +:+ file.

Definition load_one (name : string) (m : dir) : result StoreError (option (FleetRecord * FleetSecrets)) :=
  let record_path := file_path name RECORD in
  match fs_read [name; RECORD] m with
  | Err NotFound => Ok None
  | Err e => Err (StoreIo record_path (io_text e))
  | Ok text =>
      if negb (is_utf8 text) then Err (StoreIo record_path not_utf8_text)
      else
        record ← map_err (StoreCorrupt record_path) (record_of text);
        let secrets_path := file_path name SECRETS in
        secrets ← (match fs_read [name; SECRETS] m with
                   | Ok blob =>
                       plain ← map_err (fun e => StoreCorrupt secrets_path (vault_error_text e))
                                 (open vault (fs_name (rec_spec record)) blob);
                       map_err (StoreCorrupt secrets_path) (secrets_of plain)
                   | Err NotFound => Ok {| sec_credentials := {| claude_credentials := None; claude_account := None; gh_token := None |};
                                           sec_hook_secrets := ∅ |}
                   | Err e => Err (StoreIo secrets_path (io_text e))
                   end);
        Ok (Some (record, secrets))
  end.

Definition is_dir (e : string * node) : bool := match e.2 with Dir _ => true | File _ => false end.
Definition load_all (m : dir) : result StoreError (list (FleetRecord * FleetSecrets)) :=
  try_concat (fun name => r ← load_one name m; Ok (option_list r)) (filter (fun e => is_dir e = true) (entries m)).*1.

(** The first half of [put]: the directory and the secrets. *)
Definition put_secrets (record : FleetRecord) (secrets : FleetSecrets) (nonce : string) (m : dir) : result StoreError unit * dir :=
  let name := fs_name (rec_spec record) in
  let io e := StoreIo (file_path name SECRETS) e in
  match create_dir_all [name] m with
  | Err e => (Err (StoreIo (root +:+ "/" +:+ name) (io_text e)), m)
  | Ok m =>
      match plain ← map_err io (secrets_text secrets);
            map_err (fun e => io (vault_error_text e)) (seal vault nonce name plain) with
      | Err e => (Err e, m)
      | Ok blob => let '(r, m) := write_private [name; SECRETS] blob m in (map_err (fun e => io (io_text e)) r, m)
      end
  end.

Definition put_record (record : FleetRecord) (m : dir) : result StoreError unit * dir :=
  let name := fs_name (rec_spec record) in
  let io e := StoreIo (file_path name RECORD) e in
  match map_err io (record_text record) with
  | Err e => (Err e, m)
  | Ok text => let '(r, m) := write_private [name; RECORD] text m in (map_err (fun e => io (io_text e)) r, m)
  end.

Definition put (record : FleetRecord) (secrets : FleetSecrets) (nonce : string) (m : dir) : result StoreError unit * dir :=
  match put_secrets record secrets nonce m with
  | (Err e, m) => (Err e, m)
  | (Ok _, m) => put_record record m
  end.

(** [fs::remove_dir_all] of an entry of the tree. *)
Definition remove_dir_all (name : string) (m : dir) : result Errno dir :=
  match m !! name with
  | None => Err NotFound
  | Some (File _) => Err NotADirectory
  | Some (Dir _) => Ok (delete name m)
  end.

Definition purge (name : FleetName) (m : dir) : result StoreError unit * dir :=
  match remove_dir_all (to_string name) m with
  | Ok m => (Ok tt, m)
  | Err NotFound => (Ok tt, m)
  | Err e => (Err (StoreIo (fleet_dir name) (io_text e)), m)
  end.
End store.
End codec.

(** ** What the files hold *)

Section refinement.
Context `{!StoreCodec} (root : string) (vault : Vault).

(** What anyone does to the fleets directory: a whole [put], one the daemon
    did not survive, a [purge], or the runtime making something else in a
    fleet's directory. *)
Inductive StoreOp :=
| OpPut (r : FleetRecord) (x : FleetSecrets) (nonce : string)
| OpCut (r : FleetRecord) (x : FleetSecrets) (nonce : string)
| OpPurge (name : FleetName)
| OpMade (name : FleetName) (entry : string) (n : node).

Definition make_entry (name entry : string) (n : node) (m : dir) : dir :=
  let d := match m !! name with Some (Dir d) => d | _ => ∅ end in <[name := Dir (<[entry := n]> d)]> m.

Definition run_op (o : StoreOp) (m : dir) : result StoreError unit * dir :=
  match o with
  | OpPut r x nonce => put root vault r x nonce m
  | OpCut r x nonce => put_secrets root vault r x nonce m
  | OpPurge name => purge root name m
  | OpMade name entry n => (Ok tt, make_entry (to_string name) entry n m)
  end.

Fixpoint run_ops (os : list StoreOp) (m : dir) : list (result StoreError unit) * dir :=
  match os with
  | [] => ([], m)
  | o :: os => let '(r, m) := run_op o m in let '(rs, m) := run_ops os m in (r :: rs, m)
  end.

(** The store as a map: what is known of each fleet. *)
Notation Known := (gmap string (option FleetRecord * option FleetSecrets)).
Definition known (name : string) (st : Known) : option FleetRecord * option FleetSecrets := default (None, None) (st !! name).

Definition spec_op (o : StoreOp) (st : Known) : Known :=
  match o with
  | OpPut r x _ => <[fs_name (rec_spec r) := (Some r, Some x)]> st
  | OpCut r x _ => let name := fs_name (rec_spec r) in <[name := ((known name st).1, Some x)]> st
  | OpPurge name => delete (to_string name) st
  | OpMade name _ _ => <[to_string name := known (to_string name) st]> st
  end.

Definition no_secrets : FleetSecrets :=
  {| sec_credentials := {| claude_credentials := None; claude_account := None; gh_token := None |}; sec_hook_secrets := ∅ |}.
Definition loaded (e : string * (option FleetRecord * option FleetSecrets)) : option (FleetRecord * FleetSecrets) :=
  r ← e.2.1; Some (r, default no_secrets e.2.2).

(** JSON and the cipher give back what they were given. *)
Definition codes (o : StoreOp) : Prop :=
  match o with
  | OpPut r x nonce | OpCut r x nonce =>
      String.length nonce = NONCE_LEN /\
      (exists text, record_text r = Ok text /\ record_of text = Ok r /\ is_utf8 text = true) /\
      exists plain ct, secrets_text x = Ok plain /\ secrets_of plain = Ok x /\
        encrypt (v_key vault) nonce (fs_name (rec_spec r)) plain = Some ct /\
        decrypt (v_key vault) nonce (fs_name (rec_spec r)) ct = Some plain
  | OpPurge _ => True
  | OpMade _ entry _ => entry <> RECORD /\ entry <> SECRETS
  end.

Definition holds_record (name : string) (d : dir) (r : option FleetRecord) : Prop :=
  match r with
  | None => d !! RECORD = None
  | Some r => fs_name (rec_spec r) = name /\
      exists text, d !! RECORD = Some (File text) /\ record_of text = Ok r /\ is_utf8 text = true
  end.
Definition holds_secrets (name : string) (d : dir) (x : option FleetSecrets) : Prop :=
  match x with
  | None => d !! SECRETS = None
  | Some x => exists blob plain, d !! SECRETS = Some (File blob) /\ open vault name blob = Ok plain /\ secrets_of plain = Ok x
  end.
Definition represents (m : dir) (st : Known) : Prop := forall name,
  match st !! name with
  | None => m !! name = None
  | Some (r, x) => exists d, m !! name = Some (Dir d) /\ holds_record name d r /\ holds_secrets name d x
  end.

Lemma substring_prefix a b : String.substring 0 (String.length a) (a +:+ b) = a.
Proof. induction a as [|c a IH]; simpl; [by destruct b|by rewrite IH]. Qed.
Lemma substring_suffix a b : String.substring (String.length a) (String.length b) (a +:+ b) = b.
Proof.
  induction a as [|c a IH]; simpl; [|exact IH].
  pose proof (substring_prefix b EmptyString) as Hb. by rewrite app_nil_r_string in Hb.
Qed.

Lemma vault_open_seal nonce aad plain ct : String.length nonce = NONCE_LEN ->
  decrypt (v_key vault) nonce aad ct = Some plain -> open vault aad (nonce +:+ ct) = Ok plain.
Proof.
  intros Hn Hd. unfold open. rewrite length_app_string, Hn. rewrite (proj2 (Nat.ltb_ge _ _)) by lia.
  replace (NONCE_LEN + String.length ct - NONCE_LEN) with (String.length ct) by lia.
  rewrite <- Hn at 1 2. rewrite substring_prefix, substring_suffix. by rewrite Hd.
Qed.

(** A file written in a directory that is there. *)
Lemma write_in name file bytes d (m : dir) :
  m !! name = Some (Dir d) -> (forall d', d !! file <> Some (Dir d')) ->
  write_private [name; file] bytes m = (Ok tt, <[name := Dir (<[file := File bytes]> d)]> m).
Proof.
  intros Hm Hd. unfold write_private. cbn [removelast create_dir_all]. rewrite Hm. cbn.
  rewrite lookup_insert_eq. destruct (d !! file) as [[b|d']|] eqn:Hf; [|by destruct (Hd d')|]; cbn;
    by rewrite insert_insert_eq.
Qed.

Lemma make_there name m : (forall b, m !! name <> Some (File b)) ->
  create_dir_all [name] m = Ok (<[name := Dir (match m !! name with Some (Dir d) => d | _ => ∅ end)]> m).
Proof. intros Hm. cbn [create_dir_all]. destruct (m !! name) as [[b|d]|]; [by destruct (Hm b)|done..]. Qed.

Section steps.
Context (m : dir) (st : Known) (Hrep : represents m st).

(** The directory of a fleet, made if it is missing, with what is known of it. *)
Definition dir_of (name : string) : dir := match m !! name with Some (Dir d) => d | _ => ∅ end.

Lemma dir_of_known name :
  (forall b, m !! name <> Some (File b)) /\
  holds_record name (dir_of name) (known name st).1 /\ holds_secrets name (dir_of name) (known name st).2.
Proof.
  unfold dir_of, known. specialize (Hrep name). destruct (st !! name) as [[r x]|].
  - destruct Hrep as (d & -> & ? & ?). done.
  - rewrite Hrep. cbn. unfold holds_record, holds_secrets. rewrite !lookup_empty. done.
Qed.

Lemma represents_insert name d r x :
  holds_record name d r -> holds_secrets name d x -> represents (<[name := Dir d]> m) (<[name := (r, x)]> st).
Proof.
  intros Hr Hx name'. destruct (decide (name = name')) as [<-|Hne].
  - rewrite !lookup_insert_eq. by exists d.
  - rewrite !lookup_insert_ne by done. apply Hrep.
Qed.

Lemma holds_no_dir name : (forall d', dir_of name !! SECRETS <> Some (Dir d')) /\ (forall d', dir_of name !! RECORD <> Some (Dir d')).
Proof.
  destruct (dir_of_known name) as (_ & Hr & Hx). split; intros d' Hd.
  - destruct (known name st).2 as [x|]; cbn in Hx; [destruct Hx as (? & ? & Hx & _)|]; congruence.
  - destruct (known name st).1 as [r|]; cbn in Hr; [destruct Hr as (_ & ? & Hr & _)|]; congruence.
Qed.

Lemma put_secrets_step r x nonce : codes (OpCut r x nonce) ->
  exists blob, let name := fs_name (rec_spec r) in
    put_secrets root vault r x nonce m = (Ok tt, <[name := Dir (<[SECRETS := File blob]> (dir_of name))]> m) /\
    holds_record name (<[SECRETS := File blob]> (dir_of name)) (known name st).1 /\
    holds_secrets name (<[SECRETS := File blob]> (dir_of name)) (Some x).
Proof.
  intros (Hn & _ & plain & ct & Htext & Hof & Henc & Hdec). exists (nonce +:+ ct). cbv zeta. set (name := fs_name (rec_spec r)) in *.
  destruct (dir_of_known name) as (Hfile & Hr & _). split_and!.
  - unfold put_secrets. fold name. rewrite make_there by done. fold (dir_of name). rewrite Htext. cbn [map_err mbind result_bind].
    unfold seal. rewrite Henc. cbn [map_err]. rewrite (write_in _ _ _ (dir_of name)), insert_insert_eq by (try apply holds_no_dir; by rewrite lookup_insert_eq).
    done.
  - destruct (known name st).1 as [r'|]; cbn in *; rewrite lookup_insert_ne; done.
  - cbn. exists (nonce +:+ ct), plain. rewrite lookup_insert_eq. split; [done|]. split; [|done]. by apply vault_open_seal.
Qed.

Lemma run_op_step o : codes o -> exists m', run_op o m = (Ok tt, m') /\ represents m' (spec_op o st).
Proof.
  destruct o as [r x nonce|r x nonce|name|name entry n]; intros Ho.
  - destruct (put_secrets_step r x nonce Ho) as (blob & Hput & Hr & Hx). cbv zeta in *. set (name := fs_name (rec_spec r)) in *.
    destruct Ho as (_ & (text & Htext & Hof & Hutf) & _). cbn [run_op spec_op]. unfold put. rewrite Hput. unfold put_record. fold name. rewrite Htext. cbn [map_err].
    rewrite (write_in _ _ _ (<[SECRETS := File blob]> (dir_of name))), insert_insert_eq
      by (rewrite ?lookup_insert_eq, ?lookup_insert_ne by done; by try apply holds_no_dir).
    eexists. split; [done|]. fold name. apply represents_insert.
    + split; [done|]. exists text. by rewrite lookup_insert_eq.
    + destruct Hx as (b & plain & Hl & Hrest). exists b, plain. by rewrite lookup_insert_ne.
  - destruct (put_secrets_step r x nonce Ho) as (blob & Hput & Hr & Hx). cbv zeta in *. cbn [run_op spec_op]. rewrite Hput.
    eexists. split; [done|]. by apply represents_insert.
  - cbn [run_op spec_op]. unfold purge, remove_dir_all. destruct (dir_of_known (to_string name)) as (Hfile & _). pose proof Hrep as Hall.
    specialize (Hrep (to_string name)). destruct (m !! to_string name) as [[b|d]|] eqn:Hm; [by destruct (Hfile b)| |].
    + eexists. split; [done|]. intros name'. destruct (decide (to_string name = name')) as [<-|Hne].
      * by rewrite !lookup_delete_eq.
      * rewrite !lookup_delete_ne by done. apply Hall.
    + eexists. split; [done|]. destruct (st !! to_string name) as [[r x]|] eqn:Hst; [by destruct Hrep as (? & ? & _)|].
      rewrite delete_id by done. done.
  - cbn [run_op spec_op]. destruct Ho as [Hr1 Hx1]. destruct (dir_of_known (to_string name)) as (_ & Hr & Hx). unfold make_entry.
    fold (dir_of (to_string name)). eexists. split; [done|]. destruct (known (to_string name) st) as [r x] eqn:Hk. cbn [fst snd] in *.
    apply represents_insert.
    + destruct r; cbn in *; by rewrite lookup_insert_ne.
    + destruct x; cbn in *; by rewrite lookup_insert_ne.
Qed.
End steps.

Lemma load_one_known m st name r x : represents m st -> st !! name = Some (r, x) ->
  load_one root vault name m = Ok (loaded (name, (r, x))).
Proof.
  intros Hrep Hst. specialize (Hrep name). rewrite Hst in Hrep. destruct Hrep as (d & Hm & Hr & Hx).
  unfold load_one. cbn [fs_read]. rewrite Hm. destruct r as [r|]; cbn in Hr; [|by rewrite Hr].
  destruct Hr as (<- & text & -> & Hof & ->). cbn [negb]. rewrite Hof. cbn [map_err mbind result_bind].
  destruct x as [x|]; cbn in Hx; [|by rewrite Hx].
  destruct Hx as (blob & plain & -> & -> & Hs). cbn [map_err mbind result_bind]. by rewrite Hs.
Qed.

(** All entries of a represented tree are directories, in the order of the map. *)
Lemma dirs_known m st : represents m st -> (filter (fun e => is_dir e = true) (entries m)).*1 = keys st.
Proof.
  intros Hrep. assert (filter (fun e => is_dir e = true) (entries m) = entries m) as ->.
  { apply filter_keep, Forall_forall. intros [k v] Hkv%elem_of_entries. specialize (Hrep k).
    destruct (st !! k) as [[r x]|]; [destruct Hrep as (d & Hd & _); by simplify_eq|congruence]. }
  change (keys m = keys st). apply (sorted_keys_unique (K := string)); [apply keys_sorted..|]. apply NoDup_Permutation; [apply keys_NoDup..|].
  intros k. change (k ∈ keys m <-> k ∈ keys st). rewrite !elem_of_keys. specialize (Hrep k). destruct (st !! k) as [[r x]|].
  - destruct Hrep as (d & -> & _). by split; intros _; eexists.
  - rewrite Hrep. done.
Qed.

Lemma load_all_known m st : represents m st -> load_all root vault m = Ok (omap loaded (entries st)).
Proof.
  intros Hrep. unfold load_all. rewrite (dirs_known _ _ Hrep). unfold keys, try_concat.
  assert (forall e, e ∈ entries st -> st !! e.1 = Some e.2) as Hin by by intros [k' v] ?%elem_of_entries.
  revert Hin. generalize (entries st). intros l Hin.
  assert (try_map (fun name => r ← load_one root vault name m; Ok (option_list r)) l.*1 = Ok ((fun e => option_list (loaded e)) <$> l)) as ->.
  { induction l as [|[k [r x]] l IH]; [done|]. cbn [fmap list_fmap try_map fst].
    rewrite (load_one_known m st k r x Hrep (Hin (k, (r, x)) ltac:(left))). cbn [mbind result_bind].
    rewrite IH by (intros; apply Hin; by right). done. }
  match goal with |- _ = ?r => change (Ok (E := StoreError) (mjoin ((fun e => option_list (loaded e)) <$> l)) = r) end.
  f_equal. clear Hin. induction l as [|e l IH]; [done|]. cbn [omap list_omap].
  destruct (loaded e) eqn:He; [etrans; [|exact (f_equal (cons _) IH)]|etrans; [|exact IH]]; cbn [fmap list_fmap]; by rewrite He.
Qed.

Lemma run_ops_steps os m st : represents m st -> Forall codes os ->
  (run_ops os m).1 = replicate (length os) (Ok tt) /\ represents (run_ops os m).2 (foldl (fun st o => spec_op o st) st os).
Proof.
  intros Hrep Hos. revert m st Hrep. induction Hos as [|o os Ho _ IH]; intros m st Hrep; [done|].
  destruct (run_op_step m st Hrep o Ho) as (m' & Hrun & Hrep'). cbn [run_ops foldl length replicate]. rewrite Hrun.
  destruct (IH m' _ Hrep') as [H1 H2]. destruct (run_ops os m') as [rs m'']. cbn [fst snd] in *. by rewrite H1.
Qed.

(** The daemon gets back what it stored: after any puts, puts cut short
    between their two files, purges and directories others make in a fleet's
    own, none of which fails, loading gives, in the order of their names,
    exactly the fleets that were put and not purged since, each with the record
    last put and the secrets last written. *)
Theorem store_refines os : Forall codes os ->
  (run_ops os ∅).1 = replicate (length os) (Ok tt) /\
  load_all root vault (run_ops os ∅).2 = Ok (omap loaded (entries (foldl (fun st o => spec_op o st) ∅ os))).
Proof.
  intros Hos. destruct (run_ops_steps os ∅ ∅) as [Hok Hrep]; [intros name; by rewrite !lookup_empty|done|].
  split; [done|]. by apply load_all_known.
Qed.
End refinement.

(** ** Only directories *)

(** Whatever comes of a [put], the fleets directory holds directories alone. *)
Definition all_dirs (m : dir) : Prop := forall name n, m !! name = Some n -> exists d, n = Dir d.

Lemma all_dirs_insert name d m : all_dirs m -> all_dirs (<[name := Dir d]> m).
Proof. intros Hm name' n [[<- <-]|[_ Hn]]%lookup_insert_Some; [by exists d|by eapply Hm]. Qed.

Lemma made_dirs name m m' : all_dirs m -> create_dir_all [name] m = Ok m' -> all_dirs m'.
Proof.
  intros Hm. cbn [create_dir_all]. destruct (m !! name) as [[b|d]|]; [done|..]; cbn; intros [= <-]; by apply all_dirs_insert.
Qed.

Lemma write_dirs name file bytes m : all_dirs m -> all_dirs (write_private [name; file] bytes m).2.
Proof.
  intros Hm. unfold write_private. cbn [removelast]. destruct (create_dir_all [name] m) as [m1|e] eqn:Hc; [|done].
  pose proof (made_dirs _ _ _ Hm Hc) as Hm1. cbn [rename_onto]. destruct (m1 !! name) as [[b|d]|]; [done| |done].
  destruct (d !! file) as [[b|d']|]; cbn; [by apply all_dirs_insert|done|by apply all_dirs_insert].
Qed.

Lemma put_dirs `{!StoreCodec} root vault r x nonce m : all_dirs m -> all_dirs (put root vault r x nonce m).2.
Proof.
  intros Hm. unfold put, put_secrets. destruct (create_dir_all _ m) as [m1|e] eqn:Hc; [|done].
  pose proof (made_dirs _ _ _ Hm Hc) as Hm1. destruct (_ ≫= _) as [blob|e]; [|done].
  pose proof (write_dirs (fs_name (rec_spec r)) SECRETS blob m1 Hm1) as Hw. destruct (write_private _ blob m1) as [[[]|e] m2]; [|done].
  cbn in *. unfold put_record. destruct (map_err _ _) as [text|e]; [|done].
  pose proof (write_dirs (fs_name (rec_spec r)) RECORD text m2 Hw) as Hw'. by destruct (write_private _ text m2).
Qed.

Lemma purge_dirs `{!StoreCodec} root name m : all_dirs m ->
  purge root name m = (Ok tt, delete (to_string name) m) /\ all_dirs (delete (to_string name) m).
Proof.
  intros Hm. split.
  - unfold purge, remove_dir_all. destruct (m !! to_string name) as [[b|d]|] eqn:Hn; [by destruct (Hm _ _ Hn)|done|].
    by rewrite delete_id.
  - intros name' n [_ Hn]%lookup_delete_Some. by eapply Hm.
Qed.

(** ** An example *)

Section example.
Definition spec_named (name : string) : FleetSpec := {| fs_name := name; fs_tools := ∅; fs_crews := ∅ |}.
Definition token_secrets (token : string) : FleetSecrets :=
  {| sec_credentials := {| claude_credentials := None; claude_account := None; gh_token := Some token |}; sec_hook_secrets := ∅ |}.

(** Codecs of such records and secrets, and a cipher that marks a text with
    the key and what it belongs to. *)
#[local] Instance sample_codec : StoreCodec := {|
  record_text := fun r => Ok (fs_name (rec_spec r));
  record_of := fun t => Ok (new_record (spec_named t));
  secrets_text := fun x => ok_or (gh_token (sec_credentials x)) "no token";
  secrets_of := fun t => Ok (token_secrets t);
  encrypt := fun key _ aad plain => Some (key +:+ "|" +:+ aad +:+ "|" +:+ plain);
  decrypt := fun key _ aad ct => strip_prefix (key +:+ "|" +:+ aad +:+ "|") ct;
  is_utf8 := fun _ => true;
  io_text := fun _ => "io";
  not_utf8_text := "stream did not contain valid UTF-8";
|}.

Definition sample_nonce : string := "012345678901234567890123".
Definition record_a : FleetRecord := new_record (spec_named "a").
Definition record_b : FleetRecord := new_record (spec_named "b").
Definition sample_ops : list StoreOp :=
  [OpMade (mkName "c" eq_refl) "crews" (Dir ∅); OpPut record_b (token_secrets "one") sample_nonce;
   OpPut record_a (token_secrets "two") sample_nonce; OpMade (mkName "a" eq_refl) "crews" (Dir ∅);
   OpCut record_b (token_secrets "three") sample_nonce; OpPut record_a (token_secrets "four") sample_nonce].

Lemma store_refines_witness :
  (run_ops "/s/fleets" {| v_key := "key" |} sample_ops ∅).1 = replicate 6 (Ok tt) /\
  load_all "/s/fleets" {| v_key := "key" |} (run_ops "/s/fleets" {| v_key := "key" |} sample_ops ∅).2 =
    Ok [(record_a, token_secrets "four"); (record_b, token_secrets "three")].
Proof.
  destruct (store_refines "/s/fleets" {| v_key := "key" |} sample_ops) as [H1 H2].
  - repeat constructor; try discriminate; first [(eexists; split; [reflexivity|]; split; reflexivity)|
      (do 2 eexists; split; [reflexivity|]; split; [reflexivity|]; split; reflexivity)].
  - split; [exact H1|]. refine (eq_trans H2 _). vm_compute. reflexivity.
Defined.
End example.
