(* ===== verification/Actor.v ===== *)
(** The fleet actor ([crates/balerix-server/src/actor.rs]): the single writer
    of one fleet's record, secrets and status. Its messages, what each does
    to the actor, to the hook-secret index it shares with the other actors
    and to the world behind the ports, and its loop as a step relation.

    Log lines and the counters of [Metrics] are left out; a panic of the
    blocking task a pass runs in is not modelled (no port of the model
    panics). *)

From S2P Require Import Prelude Str BTree Names Json Rules Fleet Status Reconcile Execute Fakes Converge FleetRecord.
From S2P Require Tree FileStore.

(** ** Messages *)

(** [LinkOp] ([crates/balerix-api/src/link.rs]). *)
Inductive LinkOp :=
| LinkSendText (text : string) (submit : bool)
| LinkSendKeys (steps : list KeyStep) (delay_ms : N)
| LinkStop
| LinkRestart
| LinkAttach (session : string)
| LinkWorkspaceDiff (base_ref : string)
| LinkWorkspaceFile (path : string)
| LinkWorkspaceTree (path : string)
| LinkWorkspaceVersion (base_ref : string).

Record LinkStatus := {
  ls_status : AgentStatus;
  ls_pid : option N;
  ls_hook_failures : N;
}.

Inductive Msg :=
| Apply (spec : FleetSpec) (credentials : CredentialBundle) (agent_tokens : gmap string string)
| Down (keep : Keep) (purge : bool)
| SetStopped (agent : AgentId) (stopped : bool)
| Event (agent : AgentId) (event_name : string) (at_ : Timestamp)
| PluginHello (agent : AgentId) (hello_generation : N) (at_ : Timestamp)
| LinkStatusMsg (agent : AgentId) (status : LinkStatus) (first : bool)
| LinkDown (agent : AgentId)
| Barrier.

(** What goes back on a message's [reply] channel. *)
Inductive Reply :=
| NoReply
| Recorded (r : FleetRecord)
| Ran (ran : bool).

Definition READY_EVENT : string := "SessionStart".

Definition MIN_TICK : N := secs 1.

Inductive SystemPoolState := PoolPending | PoolReady | PoolUnready (reason : string).

#[export] Instance pool_state_eq_dec : EqDecision SystemPoolState.
Proof. solve_decision. Defined.

(** ** What the actor uses besides the reconciler's ports: the store, the
    random source, the link hub and the pool's state. *)
Class ActorPorts (W : Type) `{Ports W} := {
  store_put : FleetRecord -> FleetSecrets -> W -> result StoreError unit * W;
  store_purge : FleetName -> W -> result StoreError unit * W;
  random_hex : N -> W -> string * W;
  hub_call : AgentId -> LinkOp -> W -> W;
  hub_linked : AgentId -> W -> bool;
  system_pool : W -> SystemPoolState;
}.

(** The fields of [Ports] that are values, and the actor's own name. *)
Record ActorConfig := {
  ac_name : FleetName;
  ac_policy : ReconcilePolicy;
  ac_hook_url : string;
  ac_resync : N;
  ac_kube : bool;
}.

(** [Actor] with what it shares: the index of hook secrets, the purge
    announcements and the world. *)
Record Sys (W : Type) := mkSys {
  sys_record : FleetRecord;
  sys_secrets : FleetSecrets;
  sys_published : FleetRecord;
  sys_last_pass_clean : bool;
  sys_plugin_hellos : gmap string N;
  sys_index : gmap AgentId string;
  sys_purged : list FleetName;
  sys_world : W;
}.
Arguments mkSys {W}.
Arguments sys_record {W}.
Arguments sys_secrets {W}.
Arguments sys_published {W}.
Arguments sys_last_pass_clean {W}.
Arguments sys_plugin_hellos {W}.
Arguments sys_index {W}.
Arguments sys_purged {W}.
Arguments sys_world {W}.

Section fields.
Context {W : Type}.
Definition set_record (r : FleetRecord) (s : Sys W) : Sys W :=
  mkSys r (sys_secrets s) (sys_published s) (sys_last_pass_clean s) (sys_plugin_hellos s)
    (sys_index s) (sys_purged s) (sys_world s).
Definition set_secrets (x : FleetSecrets) (s : Sys W) : Sys W :=
  mkSys (sys_record s) x (sys_published s) (sys_last_pass_clean s) (sys_plugin_hellos s)
    (sys_index s) (sys_purged s) (sys_world s).
Definition set_published (r : FleetRecord) (s : Sys W) : Sys W :=
  mkSys (sys_record s) (sys_secrets s) r (sys_last_pass_clean s) (sys_plugin_hellos s)
    (sys_index s) (sys_purged s) (sys_world s).
Definition set_clean (b : bool) (s : Sys W) : Sys W :=
  mkSys (sys_record s) (sys_secrets s) (sys_published s) b (sys_plugin_hellos s)
    (sys_index s) (sys_purged s) (sys_world s).
Definition set_hellos (h : gmap string N) (s : Sys W) : Sys W :=
  mkSys (sys_record s) (sys_secrets s) (sys_published s) (sys_last_pass_clean s) h
    (sys_index s) (sys_purged s) (sys_world s).
Definition set_index (i : gmap AgentId string) (s : Sys W) : Sys W :=
  mkSys (sys_record s) (sys_secrets s) (sys_published s) (sys_last_pass_clean s)
    (sys_plugin_hellos s) i (sys_purged s) (sys_world s).
Definition push_purged (n : FleetName) (s : Sys W) : Sys W :=
  mkSys (sys_record s) (sys_secrets s) (sys_published s) (sys_last_pass_clean s)
    (sys_plugin_hellos s) (sys_index s) (sys_purged s ++ [n]) (sys_world s).
Definition set_world (w : W) (s : Sys W) : Sys W :=
  mkSys (sys_record s) (sys_secrets s) (sys_published s) (sys_last_pass_clean s)
    (sys_plugin_hellos s) (sys_index s) (sys_purged s) w.
Definition set_status (st : FleetStatus) (s : Sys W) : Sys W :=
  set_record (set_rec_status st (sys_record s)) s.
End fields.

(** ** The operations *)

Section actor.
Context `{ActorPorts W} `{Unicode} `{Digest} (cfg : ActorConfig).
Notation Sys := (Sys W).

(** The agents a specification wants: none if it does not convert. *)
Definition wants (spec : FleetSpec) : list AgentId :=
  match fleet_try_from spec with Ok f => ra_id <$> from_fleet f | Err _ => [] end.

Definition wanted_agents (s : Sys) : list AgentId := wants (rec_spec (sys_record s)).

Definition deadline (s : Sys) : N :=
  let resync := ac_resync cfg in
  if negb (sys_last_pass_clean s) then resync
  else
    let now := (clock_now (sys_world s)).1 in
    match omap st_next_restart_at (values (agents (rec_status (sys_record s)))) with
    | [] => resync
    | due :: dues =>
        N.min (N.max (secs (foldl N.min due dues - now)) MIN_TICK) resync
    end.

Definition seed_index (s : Sys) : Sys :=
  set_index
    (foldl (fun idx '(id, secret) =>
              match from_str (E := NameError) id with
              | Ok id => <[id := secret]> idx
              | Err _ => idx
              end) (sys_index s) (entries (sec_hook_secrets (sys_secrets s)))) s.

Definition persist (s : Sys) : Sys :=
  set_world (store_put (sys_record s) (sys_secrets s) (sys_world s)).2 s.

(** The newest generations said hello with, stamped on the entries there are. *)
Definition stamp_hellos (hellos : gmap string N) (st : FleetStatus) : FleetStatus :=
  foldl (fun st '(id, generation) =>
           get_mut id (fun a => set_st_plugin_hello (N.max (st_plugin_hello a) generation) a) st)
    st (entries hellos).

Definition publish (s : Sys) : Sys :=
  let s := set_status (stamp_hellos (sys_plugin_hellos s) (rec_status (sys_record s))) s in
  set_published (sys_record s) s.

Definition link_op (agent : AgentId) (op : LinkOp) (s : Sys) : Sys :=
  if ac_kube cfg then set_world (hub_call agent op (sys_world s)) s else s.

(** [let secret = agent_tokens.get(..).or_else(..).unwrap_or_else(..)] over
    the wanted agents. *)
Fixpoint next_secrets (tokens held : gmap string string) (wanted : list AgentId)
    (next : gmap string string) (w : W) : gmap string string * W :=
  match wanted with
  | [] => (next, w)
  | id :: wanted =>
      let key := to_string id in
      match tokens !! key, held !! key with
      | Some secret, _ | None, Some secret => next_secrets tokens held wanted (<[key := secret]> next) w
      | None, None =>
          let '(secret, w) := random_hex 32 w in
          next_secrets tokens held wanted (<[key := secret]> next) w
      end
  end.

(** The index after an apply: the fleet's old entries go, the wanted agents'
    come. *)
Definition index_wanted (secrets : gmap string string) (wanted : list AgentId)
    (idx : gmap AgentId string) : gmap AgentId string :=
  foldl (fun idx id => match secrets !! to_string id with
                       | Some secret => <[id := secret]> idx
                       | None => idx
                       end)
    (filter (fun e => id_fleet e.1 <> ac_name cfg) idx) wanted.

Definition is_wanted (wanted : list AgentId) (k : string) : bool :=
  bool_decide (k ∈ (to_string <$> wanted)).

(** Kubernetes mode: an entry per wanted agent, and no other. *)
Definition show_wanted (wanted : list AgentId) (st : FleetStatus) : FleetStatus :=
  foldl (fun st id => entry (to_string id) (fun a => a) st)
    (set_agents (filter (fun e => is_wanted wanted e.1 = true) (agents st)) st) wanted.

Definition restart_linked (wanted : list AgentId) (s : Sys) : Sys :=
  foldl (fun s id =>
           if hub_linked id (sys_world s) && negb (bool_decide (to_string id ∈ rec_stopped (sys_record s)))
           then link_op id LinkRestart s else s) s wanted.

(** Non-Kubernetes: an apply wins over a plugin's stop. Kubernetes mode: it
    keeps the stop and forgets the agents the specification dropped. *)
Definition retain_stopped (wanted : list AgentId) (stopped : gset string) : gset string :=
  filter (fun k => (if ac_kube cfg then is_wanted wanted k else negb (is_wanted wanted k)) = true)
    stopped.

(** [apply] up to its first [persist]: the record, the secrets, the status
    entries and the index. *)
Definition apply_fields (spec : FleetSpec) (credentials : CredentialBundle)
    (agent_tokens : gmap string string) (s : Sys) : Sys :=
  let r := sys_record s in
  let gen := wrapping_add_u64 (rec_generation r) 1 in
  let wanted := wants spec in
  let st := set_desired (rec_status r) gen in
  let '(next, w) := next_secrets agent_tokens (sec_hook_secrets (sys_secrets s)) wanted ∅ (sys_world s) in
  mkSys {| rec_spec := spec; rec_owner := rec_owner r; rec_generation := gen; rec_desired := Up;
           rec_stopped := retain_stopped wanted (rec_stopped r);
           rec_status := if ac_kube cfg then show_wanted wanted st else st |}
    {| sec_credentials := credentials; sec_hook_secrets := next |}
    (sys_published s) (sys_last_pass_clean s) (sys_plugin_hellos s)
    (index_wanted next wanted (sys_index s)) (sys_purged s) w.

Definition apply_spec (spec : FleetSpec) (credentials : CredentialBundle)
    (agent_tokens : gmap string string) (s : Sys) : Sys :=
  let was_down := desired_down (rec_desired (sys_record s)) in
  let s := publish (persist (apply_fields spec credentials agent_tokens s)) in
  if was_down && ac_kube cfg then restart_linked (wanted_agents s) s else s.

Definition event (agent : AgentId) (event_name : string) (at_ : Timestamp) (s : Sys) : Sys :=
  let s :=
    if bool_decide (event_name = READY_EVENT)
    then persist (set_status (agent_ready (rec_status (sys_record s)) agent at_) s)
    else set_status (get_mut (to_string agent) (set_st_last_event_at (Some at_))
                       (rec_status (sys_record s))) s in
  publish s.

(** Kubernetes mode's pass. *)
Definition mirror_pass (s : Sys) : Sys :=
  let terminating := desired_down (rec_desired (sys_record s)) in
  publish (persist (set_clean true
    (set_status (finish_pass (rec_status (sys_record s)) terminating true) s))).

Definition UNKNOWN_PHASE : string := "the sidecar reported a phase this daemon does not know".

Definition known_phase (a : AgentStatus) : AgentStatus :=
  if bool_decide (st_phase a = AgentPhase.Unknown) then
    let a := set_st_phase AgentPhase.Starting a in
    if is_empty (st_message a) then set_st_message UNKNOWN_PHASE a else a
  else a.

Definition link_status (agent : AgentId) (status : LinkStatus) (first : bool) (s : Sys) : Sys :=
  let st := known_phase (ls_status status) in
  let reported_stopped := bool_decide (st_phase st = AgentPhase.Stopped) in
  if desired_down (rec_desired (sys_record s)) then
    if first && negb reported_stopped then link_op agent LinkStop s else s
  else if negb (bool_decide (agent ∈ wanted_agents s)) then s
  else
    let key := to_string agent in
    let wanted_stopped := bool_decide (key ∈ rec_stopped (sys_record s)) in
    let s := set_status (set_agents (<[key := st]> (agents (rec_status (sys_record s))))
                           (rec_status (sys_record s))) s in
    let s := if first && negb (Bool.eqb wanted_stopped reported_stopped)
             then link_op agent (if wanted_stopped then LinkStop else LinkRestart) s else s in
    mirror_pass s.

(** The context a pass runs [reconcile_pass] in. *)
Definition pass_context (s : Sys) (desired : option Fleet) : ReconcileContext :=
  {| cx_fleet := ac_name cfg; cx_desired := desired;
     cx_keep := match rec_desired (sys_record s) with
                | DesiredDown keep _ => keep
                | Up => {| keep_repos := false; keep_sessions := false |}
                end;
     cx_stopped := list_to_set (omap (fun k => to_option (from_str (E := NameError) k))
                                  (elements (rec_stopped (sys_record s))));
     cx_creds := sec_credentials (sys_secrets s);
     cx_hooks := fun id => {| ht_url := ac_hook_url cfg;
                              ht_secret := default EmptyString
                                (sec_hook_secrets (sys_secrets s) !! to_string id) |};
     cx_policy := ac_policy cfg |}.

(** The blocking task: the new status, and whether the pass was clean. *)
Definition run_pass (s : Sys) : FleetStatus * bool * W :=
  let status := rec_status (sys_record s) in
  let reconcile desired :=
    match reconcile_pass (pass_context s desired) status (sys_world s) with
    | (Ok (status, _, report), w) => (status, all_ok report, w)
    | (Err _, w) => (status, false, w)
    end in
  match rec_desired (sys_record s) with
  | Up => match fleet_try_from (rec_spec (sys_record s)) with
          | Ok f => reconcile (Some f)
          | Err _ => (status, false, sys_world s)
          end
  | DesiredDown _ _ => reconcile None
  end.

Definition pass (s : Sys) : bool * Sys :=
  if ac_kube cfg then (true, mirror_pass s)
  else if negb (bool_decide (system_pool (sys_world s) = PoolReady)) then (false, s)
  else
    let '(status, clean, w) := run_pass s in
    (true, publish (persist (set_clean clean (set_status status (set_world w s))))).

Definition purge (s : Sys) : Sys :=
  let s := set_world (store_purge (ac_name cfg) (sys_world s)).2 s in
  let s := set_index (filter (fun e => id_fleet e.1 <> ac_name cfg) (sys_index s)) s in
  push_purged (ac_name cfg) s.

(** [stopped.insert(key)] or [stopped.remove(&key)]. *)
Definition hold (stopped : bool) (key : string) (set : gset string) : gset string :=
  if stopped then {[key]} ∪ set else set ∖ {[key]}.

(** The [match msg] of [run]; [None] is a tick. *)
Definition handle (msg : option Msg) (s : Sys) : Reply * Sys :=
  match msg with
  | Some (Apply spec credentials agent_tokens) =>
      let s := apply_spec spec credentials agent_tokens s in
      (Recorded (sys_record s), (pass s).2)
  | Some (Down keep purge) =>
      let s := publish (persist (set_record (set_rec_desired (DesiredDown keep purge) (sys_record s)) s)) in
      if ac_kube cfg then
        let s := foldl (fun s id => link_op id LinkStop s) s (wanted_agents s) in
        let s := mirror_pass (set_status (set_agents ∅ (rec_status (sys_record s))) s) in
        (Recorded (sys_record s), s)
      else (Recorded (sys_record s), (pass s).2)
  | Some (SetStopped agent stopped) =>
      let key := to_string agent in
      let set := rec_stopped (sys_record s) in
      let s := set_record (set_rec_stopped (hold stopped key set) (sys_record s)) s in
      let s := publish (persist s) in
      let s := link_op agent (if stopped then LinkStop else LinkRestart) s in
      let s := (pass s).2 in
      (Recorded (sys_record s), s)
  | Some (Event agent event_name at_) => (NoReply, event agent event_name at_ s)
  | Some (PluginHello agent hello_generation at_) =>
      let key := to_string agent in
      let newest := default 0%N (sys_plugin_hellos s !! key) in
      let s := set_hellos (<[key := N.max newest hello_generation]> (sys_plugin_hellos s)) s in
      (NoReply, event agent READY_EVENT at_ s)
  | Some (LinkStatusMsg agent status first) => (NoReply, link_status agent status first s)
  | Some (LinkDown agent) =>
      (NoReply, publish (set_status (get_mut (to_string agent) (set_st_message "link down")
                                       (rec_status (sys_record s))) s))
  | Some Barrier => let '(ran, s) := pass s in (Ran ran, s)
  | None => (NoReply, (pass s).2)
  end.

(** One turn of the loop; [None] when the actor purges itself and returns. *)
Definition turn (msg : option Msg) (s : Sys) : Reply * Sys * bool :=
  let '(reply, s) := handle msg s in
  if desired_purge (rec_desired (sys_record s)) && is_down (sys_record s)
  then (reply, purge s, false) else (reply, s, true).

(** [run] up to its loop, from the record and secrets [spawn] got. *)
Definition start (initial_pass : bool) (s : Sys) : Sys :=
  let s := seed_index s in
  if initial_pass && negb (is_down (sys_record s)) then (pass s).2 else s.
End actor.

(** ** What the operations leave alone *)

Section frames.
Context `{ActorPorts W} `{Unicode} `{Digest} (cfg : ActorConfig).
Notation Sys := (Sys W).

(** Everything a pass does not touch. *)
Definition core (s : Sys) :=
  (rec_spec (sys_record s), rec_owner (sys_record s), rec_generation (sys_record s),
   rec_desired (sys_record s), rec_stopped (sys_record s), sys_secrets s, sys_index s, sys_purged s).

Record quiet (s s' : Sys) : Prop := {
  qu_core : core s' = core s;
  qu_gens : gens_le (rec_status (sys_record s)) (rec_status (sys_record s'));
}.

#[export] Instance quiet_preorder : PreOrder quiet.
Proof.
  split; [by split|]. intros s1 s2 s3 [? ?] [? ?]. split; [congruence|by etrans].
Qed.

Lemma quiet_status st s : gens_le (rec_status (sys_record s)) st -> quiet s (set_status st s).
Proof. by split. Qed.

Lemma quiet_persist s : quiet s (persist s).
Proof. by split. Qed.

Lemma quiet_publish s : quiet s (publish s).
Proof.
  split; [done|]. apply gens_le_fold. intros st [k g]. by apply gens_le_same.
Qed.

Lemma quiet_link_op id op s : quiet s (link_op cfg id op s).
Proof. unfold link_op. by destruct (ac_kube cfg). Qed.

Lemma quiet_fold {A} (f : Sys -> A -> Sys) l s :
  (forall s x, quiet s (f s x)) -> quiet s (foldl f s l).
Proof.
  intros Hf. revert s. induction l as [|x l IH]; intros s; simpl; [done|].
  etrans; [apply Hf|apply IH].
Qed.

Lemma quiet_mirror_pass s : quiet s (mirror_pass s).
Proof.
  unfold mirror_pass. etrans; [|apply quiet_publish]. split; [done|]. apply gens_le_finish_pass.
Qed.

Lemma run_pass_gens s st clean w :
  run_pass cfg s = (st, clean, w) -> gens_le (rec_status (sys_record s)) st.
Proof.
  unfold run_pass.
  assert (forall d, match reconcile_pass (pass_context cfg s d) (rec_status (sys_record s)) (sys_world s) with
    | (Ok (status, _, report), w) => (status, all_ok report, w)
    | (Err _, w) => (rec_status (sys_record s), false, w)
    end = (st, clean, w) -> gens_le (rec_status (sys_record s)) st) as Hr.
  { intros d. destruct (reconcile_pass _ _ _) as [[[[st' p] report]|e] w'] eqn:Hp; intros [= <- <- <-]; [|done].
    by eapply gens_le_reconcile_pass. }
  destruct (rec_desired (sys_record s)); [|apply Hr].
  destruct (fleet_try_from _); [apply Hr|by intros [= <- _ _]].
Qed.

Lemma quiet_pass s : quiet s (pass cfg s).2.
Proof.
  unfold pass. destruct (ac_kube cfg); [apply quiet_mirror_pass|].
  case_bool_decide; [|done]. simpl.
  destruct (run_pass cfg s) as [[st clean] w] eqn:Hp. simpl.
  etrans; [|apply quiet_publish]. split; [done|]. simpl. by eapply run_pass_gens.
Qed.

Lemma quiet_event id n t s : quiet s (event id n t s).
Proof.
  unfold event. etrans; [|apply quiet_publish]. case_bool_decide.
  - split; [done|]. simpl. unfold agent_ready.
    destruct (agents _ !! _); [|done]. by apply gens_le_same.
  - split; [done|]. by apply gens_le_same.
Qed.

Lemma quiet_link_status id ls first s : quiet s (link_status cfg id ls first s).
Proof.
  unfold link_status. destruct (desired_down _); [destruct (_ && _); [apply quiet_link_op|done]|].
  destruct (negb _); [done|].
  set (s1 := set_status _ s). assert (quiet s s1) as Hq by (split; [done|by apply gens_le_same]).
  etrans; [|apply quiet_mirror_pass].
  destruct (_ && _); [|done]. etrans; [exact Hq|]. apply quiet_link_op.
Qed.

Lemma quiet_restart_linked l s : quiet s (restart_linked cfg l s).
Proof. apply quiet_fold. intros s' x. destruct (_ && _); [apply quiet_link_op|done]. Qed.

(** Every message but [Apply], [Down] and [SetStopped] is quiet; those are
    quiet after the change they are for. *)
Definition changes (msg : option Msg) : bool :=
  match msg with Some (Apply _ _ _ | Down _ _ | SetStopped _ _) => true | _ => false end.

Lemma quiet_handle msg s : changes msg = false -> quiet s (handle cfg msg s).2.
Proof.
  destruct msg as [[spec c t|k p|id b|id n t|id g t|id ls f|id|]|]; intros Hc; try discriminate Hc;
    simpl; clear Hc.
  - apply quiet_event.
  - etrans; [|apply quiet_event]. by split.
  - apply quiet_link_status.
  - etrans; [|apply quiet_publish]. split; [done|by apply gens_le_same].
  - pose proof (quiet_pass s). by destruct (pass cfg s).
  - apply quiet_pass.
Qed.

Lemma quiet_down keep purge s :
  quiet (set_record (set_rec_desired (DesiredDown keep purge) (sys_record s)) s)
    (handle cfg (Some (Down keep purge)) s).2.
Proof.
  simpl. set (s1 := set_record _ s). 
  assert (quiet s1 (publish (persist s1))) as Hq.
  { etrans; [apply quiet_persist|apply quiet_publish]. }
  destruct (ac_kube cfg); simpl; [|by etrans; [exact Hq|apply quiet_pass]].
  etrans; [|apply quiet_mirror_pass].
  etrans; [exact Hq|].
  etrans; [apply (quiet_fold (fun s id => link_op cfg id LinkStop s)); intros; apply quiet_link_op|].
  split; [done|by apply gens_le_same].
Qed.

Lemma quiet_set_stopped id b s :
  quiet (set_record (set_rec_stopped (hold b (to_string id) (rec_stopped (sys_record s))) (sys_record s)) s)
    (handle cfg (Some (SetStopped id b)) s).2.
Proof.
  simpl. set (s1 := set_record _ s). etrans; [apply quiet_persist|].
  etrans; [apply quiet_publish|]. etrans; [apply quiet_link_op|]. apply quiet_pass.
Qed.
End frames.

(** ** What an apply changes *)

Section applies.
Context `{ActorPorts W} `{Unicode} `{Digest} (cfg : ActorConfig).
Notation Sys := (Sys W).

(** The secret an apply leaves under a wanted agent's key. *)
Definition secret_after (tokens held : gmap string string) (k : string) (next : option string) : Prop :=
  match tokens !! k, held !! k with
  | Some secret, _ | None, Some secret => next = Some secret
  | None, None => is_Some next
  end.

Lemma next_secrets_lookup tokens held wanted next w next' w' k :
  next_secrets tokens held wanted next w = (next', w') ->
  if decide (k ∈ to_string <$> wanted) then secret_after tokens held k (next' !! k)
  else next' !! k = next !! k.
Proof.
  assert (forall secret, match tokens !! k, held !! k with
    | Some x, _ | None, Some x => secret = x | None, None => True end ->
    secret_after tokens held k (Some secret)) as Hsec.
  { intros secret. unfold secret_after. destruct (tokens !! k), (held !! k); naive_solver. }
  revert next w. induction wanted as [|id wanted IH]; intros next w; simpl.
  { by intros [= <- _]. }
  intros Hn.
  assert (exists secret w1, next_secrets tokens held wanted (<[to_string id := secret]> next) w1 = (next', w') /\
    match tokens !! to_string id, held !! to_string id with
    | Some x, _ | None, Some x => secret = x | None, None => True end) as (secret & w1 & Hn' & Hs).
  { destruct (tokens !! to_string id), (held !! to_string id); eauto.
    destruct (random_hex 32 w); eauto. }
  apply IH in Hn'. clear IH Hn.
  destruct (decide (k ∈ to_string <$> wanted)).
  - rewrite decide_True by by right. done.
  - destruct (decide (k = to_string id)) as [->|Hne].
    + rewrite decide_True by by left. rewrite Hn', lookup_insert_eq. by apply Hsec.
    + rewrite decide_False by (rewrite not_elem_of_cons; done). by rewrite Hn', lookup_insert_ne.
Qed.

Lemma index_wanted_lookup secrets wanted idx (id : AgentId) :
  index_wanted cfg secrets wanted idx !! id =
  match (if decide (id ∈ wanted) then secrets !! to_string id else None) with
  | Some secret => Some secret
  | None => if decide (id_fleet id = ac_name cfg) then None else idx !! id
  end.
Proof.
  unfold index_wanted. set (idx0 := filter _ idx).
  assert (idx0 !! id = if decide (id_fleet id = ac_name cfg) then None else idx !! id) as Hi.
  { unfold idx0. rewrite map_lookup_filter. destruct (idx !! id); simpl; repeat case_guard; simpl;
      by case_decide. }
  rewrite <- Hi. clearbody idx0. clear Hi.
  revert idx0. induction wanted as [|x wanted IH]; intros idx0; simpl.
  { done. }
  rewrite IH. destruct (decide (x = id)) as [->|Hne].
  - rewrite (decide_True (P := id ∈ id :: wanted)) by by left.
    destruct (secrets !! to_string id) eqn:Hs; [|by case_decide].
    case_decide; [done|]. by rewrite lookup_insert_eq.
  - rewrite (decide_ext (id ∈ x :: wanted) (id ∈ wanted)) by set_solver.
    destruct (secrets !! to_string x); [|done]. by rewrite lookup_insert_ne.
Qed.

Lemma quiet_apply spec creds tokens s :
  quiet (apply_fields cfg spec creds tokens s) (apply_spec cfg spec creds tokens s).
Proof.
  unfold apply_spec. set (s1 := apply_fields _ _ _ _ _).
  assert (quiet s1 (publish (persist s1))) as Hq by (etrans; [apply quiet_persist|apply quiet_publish]).
  destruct (_ && _); [|done]. etrans; [done|]. apply quiet_restart_linked.
Qed.

Lemma apply_fields_secrets spec creds tokens s k :
  let s' := apply_fields cfg spec creds tokens s in
  if decide (k ∈ to_string <$> wants spec)
  then secret_after tokens (sec_hook_secrets (sys_secrets s)) k (sec_hook_secrets (sys_secrets s') !! k)
  else sec_hook_secrets (sys_secrets s') !! k = None.
Proof.
  unfold apply_fields. cbv zeta.
  destruct (next_secrets _ _ _ _ _) as [next w] eqn:Hn. simpl.
  by apply (next_secrets_lookup _ _ _ _ _ _ _ k) in Hn.
Qed.

Lemma apply_fields_index spec creds tokens s :
  let s' := apply_fields cfg spec creds tokens s in
  sys_index s' = index_wanted cfg (sec_hook_secrets (sys_secrets s')) (wants spec) (sys_index s).
Proof. unfold apply_fields. cbv zeta. by destruct (next_secrets _ _ _ _ _). Qed.

Lemma gens_le_apply_fields spec creds tokens s :
  gens_le (set_desired (rec_status (sys_record s)) (wrapping_add_u64 (rec_generation (sys_record s)) 1))
    (rec_status (sys_record (apply_fields cfg spec creds tokens s))).
Proof.
  unfold apply_fields. cbv zeta. destruct (next_secrets _ _ _ _ _). simpl.
  destruct (ac_kube cfg); [|done]. unfold show_wanted.
  etrans; [|apply gens_le_fold; intros; by apply gens_le_same]. by apply gens_le_same.
Qed.
End applies.

(** ** The loop, among the other actors *)

Section reach.
Context `{ActorPorts W} `{Unicode} `{Digest} (cfg : ActorConfig).
Notation Sys := (Sys W).

(** What the daemon guarantees of a message: an apply is of this fleet, and
    there are fewer than 2^64 of them. *)
Definition msg_ok (s : Sys) (msg : option Msg) : Prop :=
  match msg with
  | Some (Apply spec _ _) =>
      fs_name spec = name_str (ac_name cfg) /\ (rec_generation (sys_record s) < u64_max)%N
  | _ => True
  end.

(** Between two turns the world moves on and the other fleets' actors write
    their own entries of the index. *)
Record others (s s' : Sys) : Prop := {
  ot_record : sys_record s' = sys_record s;
  ot_secrets : sys_secrets s' = sys_secrets s;
  ot_index : forall id, id_fleet id = ac_name cfg -> sys_index s' !! id = sys_index s !! id;
}.

(** A record and secrets as [spawn] gets them. *)
Record spawned (s : Sys) : Prop := {
  sp_index : forall id, id_fleet id = ac_name cfg -> sys_index s !! id = None;
  sp_generation : generation (rec_status (sys_record s)) = rec_generation (sys_record s);
  sp_observed : (observed_generation (rec_status (sys_record s)) <= rec_generation (sys_record s))%N;
}.

Inductive reachable : Sys -> Prop :=
| reach_start s initial_pass : spawned s -> reachable (start cfg initial_pass s)
| reach_turn s msg reply s' :
    reachable s -> msg_ok s msg -> turn cfg msg s = (reply, s', true) -> reachable s'
| reach_others s s' : reachable s -> others s s' -> reachable s'.

(** The invariants. *)
Definition index_ok (s : Sys) : Prop :=
  forall id, id_fleet id = ac_name cfg ->
    sys_index s !! id = sec_hook_secrets (sys_secrets s) !! to_string id.

Definition generation_ok (s : Sys) : Prop :=
  generation (rec_status (sys_record s)) = rec_generation (sys_record s) /\
  (observed_generation (rec_status (sys_record s)) <= rec_generation (sys_record s))%N.

Lemma core_fields (s s' : Sys) : core s' = core s ->
  sys_index s' = sys_index s /\ sys_secrets s' = sys_secrets s /\
  rec_generation (sys_record s') = rec_generation (sys_record s) /\
  rec_stopped (sys_record s') = rec_stopped (sys_record s) /\
  rec_desired (sys_record s') = rec_desired (sys_record s) /\
  rec_spec (sys_record s') = rec_spec (sys_record s).
Proof. unfold core. intros Heq. injection Heq. intros. by split_and!. Qed.

Lemma index_ok_quiet s s' : quiet s s' -> index_ok s -> index_ok s'.
Proof. intros [(Hi & Hs & _)%core_fields _] Hok id. rewrite Hi, Hs. apply Hok. Qed.

Lemma generation_ok_quiet s s' : quiet s s' -> generation_ok s -> generation_ok s'.
Proof.
  intros [(_ & _ & Hg & _)%core_fields [Hg1 Hg2]] [Hs1 Hs2]. unfold generation_ok.
  rewrite Hg, Hg1. split; [done|]. destruct Hg2 as [->| ->]; [done|]. by rewrite Hs1.
Qed.

Lemma wants_fleet spec id :
  fs_name spec = name_str (ac_name cfg) -> id ∈ wants spec -> id_fleet id = ac_name cfg.
Proof.
  intros Hn. unfold wants. destruct (fleet_try_from spec) as [f|] eqn:Hf; [|by intros ?%not_elem_of_nil].
  intros (a & -> & (crew & st & _ & _ & Hid & _)%from_fleet_elem)%list_elem_of_fmap.
  rewrite Hid. apply name_eq. rewrite <- Hn. by apply fleet_try_from_Ok in Hf as [? _].
Qed.

Lemma elem_of_wanted_keys (id : AgentId) (l : list AgentId) :
  to_string id ∈ to_string (A := AgentId) <$> l <-> id ∈ l.
Proof.
  rewrite list_elem_of_fmap. split; [|eauto].
  by intros (x & ->%(inj (to_string (A := AgentId))) & ?).
Qed.

Lemma apply_index spec creds tokens s :
  fs_name spec = name_str (ac_name cfg) ->
  let s' := apply_fields cfg spec creds tokens s in
  index_ok s' /\
  (forall id, id_fleet id <> ac_name cfg -> sys_index s' !! id = sys_index s !! id).
Proof.
  intros Hn s'. subst s'. split.
  - intros id Hid. pose proof (apply_fields_secrets cfg spec creds tokens s (to_string id)) as Hs.
    rewrite apply_fields_index, index_wanted_lookup, (decide_True (P := id_fleet id = _)) by done.
    cbv zeta in Hs. destruct (decide (id ∈ wants spec)) as [Hw|Hw].
    + by destruct (sec_hook_secrets _ !! _).
    + rewrite decide_False in Hs by by rewrite elem_of_wanted_keys. done.
  - intros id Hid. rewrite apply_fields_index, index_wanted_lookup.
    rewrite (decide_False (P := id ∈ _)), decide_False; [done..|].
    intros Hw. by apply Hid, (wants_fleet spec).
Qed.

(** What one message does to the index. *)
Lemma handle_index msg s : msg_ok s msg -> index_ok s ->
  index_ok (handle cfg msg s).2 /\
  (forall id, id_fleet id <> ac_name cfg -> sys_index (handle cfg msg s).2 !! id = sys_index s !! id).
Proof.
  intros Hm Hok.
  assert (forall s1 s2, quiet s1 s2 -> sys_index s1 = sys_index s -> sys_secrets s1 = sys_secrets s ->
    index_ok s2 /\ (forall id, id_fleet id <> ac_name cfg -> sys_index s2 !! id = sys_index s !! id)) as Hq.
  { intros s1 s2 Hq Hi Hs. split.
    - eapply index_ok_quiet; [exact Hq|]. intros id Hid. rewrite Hi, Hs. by apply Hok.
    - intros id _. destruct Hq as [(-> & _)%core_fields _]. by rewrite Hi. }
  destruct (changes msg) eqn:Hc; [|eapply Hq; [by apply quiet_handle|done..]].
  destruct msg as [[spec c t|k p|id b| | | | |]|]; try discriminate Hc; clear Hc.
  - destruct Hm as [Hm _]. destruct (apply_index spec c t s Hm) as [H1' H2'].
    assert (quiet (apply_fields cfg spec c t s) (handle cfg (Some (Apply spec c t)) s).2) as Hqa.
    { etrans; [apply quiet_apply|apply quiet_pass]. }
    split; [by eapply index_ok_quiet|]. intros id Hid.
    destruct Hqa as [(-> & _)%core_fields _]. by apply H2'.
  - eapply Hq; [apply quiet_down|done..].
  - eapply Hq; [apply quiet_set_stopped|done..].
Qed.

Lemma handle_generation msg s : msg_ok s msg -> generation_ok s -> generation_ok (handle cfg msg s).2.
Proof.
  intros Hm Hok.
  destruct (changes msg) eqn:Hc; [|eapply generation_ok_quiet; [by apply quiet_handle|done]].
  destruct msg as [[spec c t|k p|id b| | | | |]|]; try discriminate Hc; clear Hc.
  - eapply generation_ok_quiet; [etrans; [apply quiet_apply|apply quiet_pass]|].
    destruct (gens_le_apply_fields cfg spec c t s) as [Hg1 Hg2].
    destruct Hok as [Ho1 Ho2], Hm as [_ Hmax].
    assert (rec_generation (sys_record (apply_fields cfg spec c t s)) = (rec_generation (sys_record s) + 1)%N)
      as Hr.
    { unfold apply_fields. cbv zeta. destruct (next_secrets _ _ _ _ _). simpl.
      unfold wrapping_add_u64. apply N.mod_small. lia. }
    assert (wrapping_add_u64 (rec_generation (sys_record s)) 1 = (rec_generation (sys_record s) + 1)%N) as Hw.
    { unfold wrapping_add_u64. apply N.mod_small. lia. }
    unfold generation_ok. rewrite Hr, Hg1. simpl. rewrite Hw in Hg2 |- *. split; [done|].
    destruct Hg2 as [->| ->]; simpl; lia.
  - eapply generation_ok_quiet; [apply quiet_down|done].
  - eapply generation_ok_quiet; [apply quiet_set_stopped|done].
Qed.

(** A turn is a message handled, then perhaps the purge. *)
Lemma turn_cases msg s reply s' alive : turn cfg msg s = (reply, s', alive) ->
  let s1 := (handle cfg msg s).2 in
  if alive then s' = s1 else s' = purge cfg s1 /\ is_down (sys_record s1) = true.
Proof.
  unfold turn. destruct (handle cfg msg s) as [r s1]. simpl.
  destruct (_ && _) eqn:Hp; intros [= <- <- <-]; [|done].
  by apply andb_true_iff in Hp as [_ ?].
Qed.

Lemma purge_index s id :
  sys_index (purge cfg s) !! id = if decide (id_fleet id = ac_name cfg) then None else sys_index s !! id.
Proof.
  unfold purge. simpl. rewrite map_lookup_filter. destruct (sys_index s !! id); simpl;
    [|by case_decide]. case_guard; case_decide; done.
Qed.

Lemma seed_lookup (l : list (string * string)) (idx : gmap AgentId string) id :
  NoDup l.*1 ->
  foldl (fun idx '(k, secret) => match from_str (E := NameError) k with
                                 | Ok i => <[i := secret]> idx | Err _ => idx end) idx l !! id =
  match list_find (fun e => e.1 = to_string id) l with
  | Some (_, e) => Some e.2
  | None => idx !! id
  end.
Proof.
  revert idx. induction l as [|[k v] l IH]; intros idx; [done|].
  rewrite fmap_cons, NoDup_cons. simpl. intros [Hk Hnd]. rewrite IH by done.
  destruct (decide (k = to_string id)) as [->|Hne]; simpl.
  - assert (list_find (fun e : string * string => e.1 = to_string id) l = None) as ->.
    { apply list_find_None, Forall_forall. intros [k' v'] Hin Heq. simpl in Heq. subst k'.
      apply Hk. by apply (list_elem_of_fmap_2 fst) in Hin. }
    rewrite from_to_string. by rewrite lookup_insert_eq.
  - destruct (list_find _ l) as [[i e]|]; simpl; [done|].
    destruct (from_str k) as [i|] eqn:Hf; [|done].
    apply from_str_Ok in Hf as ->. rewrite lookup_insert_ne; [done|]. by intros ->.
Qed.

Lemma seed_index_ok s :
  (forall id, id_fleet id = ac_name cfg -> sys_index s !! id = None) -> index_ok (seed_index s).
Proof.
  intros Hn id Hid. unfold seed_index. simpl. rewrite seed_lookup by apply keys_NoDup.
  destruct (list_find _ _) as [[i [k v]]|] eqn:Hf.
  - apply list_find_Some in Hf as (Hi & Hk & _). simpl in *. subst k. symmetry.
    apply elem_of_entries. by eapply list_elem_of_lookup_2.
  - rewrite Hn by done. symmetry. apply eq_None_not_Some. intros [v Hv%elem_of_entries].
    apply list_find_None, Forall_forall with (x := (to_string id, v)) in Hf; done.
Qed.

Lemma quiet_start initial_pass s : quiet (seed_index s) (start cfg initial_pass s).
Proof. unfold start. destruct (_ && _); [apply quiet_pass|done]. Qed.

Lemma reachable_ok s : reachable s -> index_ok s /\ generation_ok s.
Proof.
  induction 1 as [s b [Hi Hg Ho]|s msg reply s' Hr [IH1 IH2] Hm Ht|s s' Hr [IH1 IH2] [Hr' Hs Hi]].
  - split.
    + eapply index_ok_quiet; [apply quiet_start|]. by apply seed_index_ok.
    + eapply generation_ok_quiet; [apply quiet_start|]. by split.
  - apply turn_cases in Ht. simpl in Ht. subst s'.
    split; [by apply handle_index|by apply handle_generation].
  - split.
    + intros id Hid. rewrite Hi, Hs by done. by apply IH1.
    + unfold generation_ok. by rewrite Hr'.
Qed.
End reach.

(** ** Stopping, waking, purging *)

Section behaviour.
Context `{ActorPorts W} `{Unicode} `{Digest} (cfg : ActorConfig).
Notation Sys := (Sys W).

(** Whether a message may release an agent held in the stopped set. *)
Definition releases (msg : option Msg) (id : AgentId) : bool :=
  match msg with
  | Some (Apply spec _ _) =>
      if ac_kube cfg then negb (bool_decide (id ∈ wants spec)) else bool_decide (id ∈ wants spec)
  | Some (SetStopped agent false) => bool_decide (agent = id)
  | _ => false
  end.

Lemma handle_stopped msg s id :
  to_string id ∈ rec_stopped (sys_record s) -> releases msg id = false ->
  to_string id ∈ rec_stopped (sys_record (handle cfg msg s).2).
Proof.
  intros Hin Hrel.
  assert (forall s1 s2 : Sys, quiet s1 s2 -> to_string id ∈ rec_stopped (sys_record s1) ->
    to_string id ∈ rec_stopped (sys_record s2)) as Hq.
  { intros s1 s2 [(_ & _ & _ & -> & _)%core_fields _]. done. }
  destruct (changes msg) eqn:Hc; [|eapply Hq; [by apply quiet_handle|done]].
  destruct msg as [[spec c t|k p|i b| | | | |]|]; try discriminate Hc; clear Hc.
  - eapply Hq; [etrans; [apply quiet_apply|apply quiet_pass]|].
    unfold apply_fields. cbv zeta. destruct (next_secrets _ _ _ _ _). simpl.
    unfold retain_stopped. rewrite elem_of_filter. split; [|done].
    unfold is_wanted. simpl in Hrel.
    rewrite (bool_decide_ext _ _ (elem_of_wanted_keys id (wants spec))).
    destruct (ac_kube cfg); [by apply negb_false_iff|by apply negb_true_iff].
  - eapply Hq; [apply quiet_down|done].
  - eapply Hq; [apply quiet_set_stopped|]. simpl. unfold hold. destruct b; [set_solver|].
    simpl in Hrel. apply bool_decide_eq_false in Hrel.
    rewrite elem_of_difference, elem_of_singleton. split; [done|].
    intros Heq%(inj (to_string (A := AgentId))). by symmetry in Heq.
Qed.

Lemma elem_of_cx_stopped (s : Sys) desired (id : AgentId) :
  id ∈ cx_stopped (pass_context cfg s desired) <-> to_string id ∈ rec_stopped (sys_record s).
Proof.
  simpl. rewrite elem_of_list_to_set, list_elem_of_omap. setoid_rewrite elem_of_elements.
  setoid_rewrite to_option_Some. split.
  - by intros (k & ? & ->%from_str_Ok).
  - intros ?. exists (to_string id). by rewrite from_str_Ok.
Qed.

Lemma foldl_min_le (d : N) l x : x = d \/ x ∈ l -> (foldl N.min d l <= x)%N.
Proof.
  revert d x; induction l as [|y l IH]; intros d x; simpl.
  { intros [->|?%not_elem_of_nil]; [lia|done]. }
  intros [->|[->|Hin]%elem_of_cons].
  - etrans; [by apply IH; left|]. lia.
  - etrans; [by apply IH; left|]. lia.
  - apply IH. by right.
Qed.

(** The actor wakes when it should: never later than a resync, never
    busier than once a tick, and, after a clean pass, no later than the
    earliest restart its agents wait for (or the next tick, if that is past). *)
Theorem deadline_bounds (s : Sys) :
  (deadline cfg s <= ac_resync cfg)%N /\
  ((MIN_TICK <= ac_resync cfg)%N -> (MIN_TICK <= deadline cfg s)%N) /\
  (sys_last_pass_clean s = true -> forall k a due,
     agents (rec_status (sys_record s)) !! k = Some a -> st_next_restart_at a = Some due ->
     (deadline cfg s <= N.max (secs (due - (clock_now (sys_world s)).1)) MIN_TICK)%N).
Proof.
  unfold deadline. destruct (sys_last_pass_clean s); simpl; [|split_and!; [lia|lia|done]].
  destruct (omap _ _) as [|d ds] eqn:Hds.
  - split_and!; [lia|lia|]. intros _ k a due Ha Hdue. exfalso.
    apply (not_elem_of_nil due). rewrite <- Hds, list_elem_of_omap. exists a. split; [|done].
    apply elem_of_values. eauto.
  - split_and!; [lia|lia|]. intros _ k a due Ha Hdue.
    assert (due ∈ d :: ds) as Hin.
    { rewrite <- Hds, list_elem_of_omap. exists a. split; [|done]. apply elem_of_values. eauto. }
    apply elem_of_cons in Hin. apply foldl_min_le in Hin. unfold secs. nia.
Qed.

(** the index the hook ingress authenticates against is the fleet's
    secrets: in every reachable state, a turn of the actor leaves, for its own
    agents, exactly the secrets it stores (none after the purge) and does not
    touch another fleet's entries. *)
Theorem index_follows_secrets s msg reply s' alive (id : AgentId) :
  reachable cfg s -> msg_ok cfg s msg -> turn cfg msg s = (reply, s', alive) ->
  sys_index s' !! id =
    if decide (id_fleet id = ac_name cfg)
    then (if alive then sec_hook_secrets (sys_secrets s') !! to_string id else None)
    else sys_index s !! id.
Proof.
  intros [Hok _]%reachable_ok Hm Ht%turn_cases. simpl in Ht.
  destruct (handle_index cfg msg s Hm Hok) as [Hown Hother].
  destruct alive; [subst s'|destruct Ht as [-> _]]; [|rewrite purge_index]; case_decide; auto.
Qed.

(** the status of a fleet never claims a generation that was not
    applied: in every state the actor reaches, its generation is the
    record's and the observed one is not ahead of it. *)
Theorem generation_observed s msg reply s' :
  reachable cfg s -> msg_ok cfg s msg -> turn cfg msg s = (reply, s', true) ->
  generation (rec_status (sys_record s')) = rec_generation (sys_record s') /\
  (observed_generation (rec_status (sys_record s')) <= rec_generation (sys_record s'))%N.
Proof.
  intros [_ Hok]%reachable_ok Hm Ht%turn_cases. simpl in Ht. subst s'.
  by apply handle_generation.
Qed.

(** a stop holds: while an agent is in the stopped set, no pass plans to
    materialize or start it or to note its exit, whatever is observed, and
    only a [SetStopped] of that agent or an apply (one that wants it, or in
    Kubernetes mode one that drops it) takes it out. *)
Theorem stop_holds (s : Sys) (id : AgentId) :
  to_string id ∈ rec_stopped (sys_record s) ->
  (forall desired status observed now step,
     let cx := pass_context cfg s desired in
     step ∈ plan (cx_fleet cx) (cx_desired cx) (cx_keep cx) (cx_stopped cx) status observed now ->
     step_agent_id step = Some id -> step = Stop id \/ step = RemoveAgent id) /\
  (forall msg, releases msg id = false ->
     to_string id ∈ rec_stopped (sys_record (handle cfg msg s).2)).
Proof.
  intros Hin. split; [|by intros; apply handle_stopped].
  intros desired status observed now step cx Hp Hid.
  assert (step ∈ steps_of id (plan (cx_fleet cx) (cx_desired cx) (cx_keep cx) (cx_stopped cx)
    status observed now)) as Hs by by apply steps_of_elem.
  rewrite steps_of_plan in Hs. destruct (desired_agents (cx_desired cx) !! id) as [agent|].
  - unfold plan_agent in Hs. rewrite bool_decide_eq_true_2 in Hs by by apply elem_of_cx_stopped.
    destruct (_ || _) in Hs; simpl in Hs; [|by apply not_elem_of_nil in Hs].
    apply list_elem_of_singleton in Hs. by left.
  - revert Hs. case_bool_decide; intros Hs; [|by apply not_elem_of_nil in Hs].
    apply elem_of_app in Hs as [Hs|Hs].
    + destruct (is_observed observed id); [|by apply not_elem_of_nil in Hs].
      apply list_elem_of_singleton in Hs. by left.
    + destruct (cx_desired cx); [|by apply not_elem_of_nil in Hs].
      apply list_elem_of_singleton in Hs. by right.
Qed.
End behaviour.

(** ** Purging *)

(** What a purge relies on ([FleetStore]'s contract): writing to the store
    touches neither the agents nor the pool, and [purge] removes the fleet's
    whole directory and no other's. *)
Class LawfulActorPorts (W : Type) `{LawfulPorts W, !ActorPorts W} := {
  has_dir : W -> FleetName -> Prop;
  law_store_put r x w : healthy w ->
    healthy (store_put r x w).2 /\ view (store_put r x w).2 = view w /\
    system_pool (store_put r x w).2 = system_pool w;
  law_store_purge n w : healthy w -> exists w', store_purge n w = (Ok tt, w') /\
    healthy w' /\ view w' = view w /\ forall m, has_dir w' m <-> has_dir w m /\ m <> n;
}.

Lemma keys_ok_stamp hellos st : keys_ok st -> keys_ok (stamp_hellos hellos st).
Proof.
  unfold stamp_hellos. generalize (entries hellos). intros l. revert st.
  induction l as [|[k g] l IH]; intros st Hst; simpl; [done|]. by apply IH, keys_ok_get_mut.
Qed.

Lemma stamp_hellos_empty hellos st : agents st = ∅ -> agents (stamp_hellos hellos st) = ∅.
Proof.
  unfold stamp_hellos. generalize (entries hellos). intros l. revert st.
  induction l as [|[k g] l IH]; intros st Hst; simpl; [done|]. apply IH.
  simpl. rewrite Hst. apply alter_empty.
Qed.

Lemma stamp_hellos_phase hellos st : phase (stamp_hellos hellos st) = phase st.
Proof.
  unfold stamp_hellos. generalize (entries hellos). intros l. revert st.
  induction l as [|[k g] l IH]; intros st; simpl; [done|]. by rewrite IH.
Qed.

Section purging.
Context `{LawfulActorPorts W} `{Unicode} `{Digest} (cfg : ActorConfig).

(** C16: a purge completes: outside Kubernetes mode, over ports that fail
    nothing, with the daemon's pool ready and every status filed under an
    agent's own id, one [Down] with [purge] takes the fleet down and ends the
    actor: no agent is left in the status, the runner sees no crew of the fleet,
    the fleet's directory is gone from the store and no other was touched by its
    removal, its secrets are out of the index and its name is announced. *)
Theorem down_purges (s : Sys W) keep :
  ac_kube cfg = false -> healthy (sys_world s) -> keys_ok (rec_status (sys_record s)) ->
  system_pool (sys_world s) = PoolReady ->
  exists reply s' w,
    turn cfg (Some (Down keep true)) s = (reply, s', false) /\
    agents (rec_status (sys_record s')) = ∅ /\
    sys_world s' = (store_purge (ac_name cfg) w).2 /\ healthy (sys_world s') /\
    (forall c, cr_fleet c = ac_name cfg -> ~ has_crew (sys_world s') c) /\
    ~ has_dir (sys_world s') (ac_name cfg) /\
    (forall n, n <> ac_name cfg -> has_dir (sys_world s') n <-> has_dir w n) /\
    (forall id, id_fleet id = ac_name cfg -> sys_index s' !! id = None) /\
    sys_purged s' = sys_purged s ++ [ac_name cfg].
Proof.
  intros Hkube Hw Hk Hpool. unfold turn, handle. rewrite Hkube. cbv zeta.
  set (s1 := set_record (set_rec_desired (DesiredDown keep true) (sys_record s)) s).
  set (s2 := publish (persist s1)).
  destruct (law_store_put (sys_record s1) (sys_secrets s1) (sys_world s) Hw) as (Hw2 & Hv2 & Hp2).
  unfold pass. rewrite Hkube. rewrite bool_decide_eq_true_2 by (etrans; [exact Hp2|exact Hpool]).
  unfold run_pass. change (rec_desired (sys_record s2)) with (DesiredDown keep true). cbv iota zeta beta.
  assert (keys_ok (rec_status (sys_record s2))) as Hk2 by by apply keys_ok_stamp.
  destruct (down_pass (pass_context cfg s2 None) (rec_status (sys_record s2)) (sys_world s2))
    as (st & p & report & w3 & Hrun & _ & Hw3 & He & Hph & Hc); [exact Hw2|exact Hk2|done|].
  rewrite Hrun. set (s3 := publish _).
  assert (agents (rec_status (sys_record s3)) = ∅) as He3 by by apply stamp_hellos_empty.
  assert (phase (rec_status (sys_record s3)) = FleetPhase.Down) as Hph3.
  { simpl. by rewrite stamp_hellos_phase. }
  change (negb true) with false. cbv iota. simpl (_.2).
  assert (desired_purge (rec_desired (sys_record s3)) = true) as -> by done.
  unfold is_down. rewrite Hph3, bool_decide_eq_true_2 by done.
  assert (desired_down (rec_desired (sys_record s3)) = true) as -> by done. simpl (_ && _).
  assert (healthy (sys_world s3) /\ view (sys_world s3) = view w3) as [Hw4 Hv4] by (simpl; split; by apply law_store_put).
  destruct (law_store_purge (ac_name cfg) (sys_world s3) Hw4) as (w5 & Hpurge & Hw5 & Hv5 & Hdir).
  eexists _, _, (sys_world s3). split; [done|].
  assert (sys_world (purge cfg s3) = w5) as Hlast by (change ((store_purge (ac_name cfg) (sys_world s3)).2 = w5); by rewrite Hpurge).
  split_and!; [exact He3|done|by rewrite Hlast| | | | |done].
  - intros c Hf. rewrite Hlast. unfold has_crew. rewrite Hv5.
    assert (view (sys_world s3) = view w3) as -> by exact Hv4. by apply Hc.
  - rewrite Hlast, Hdir. by intros [_ ?].
  - intros n Hn. rewrite Hlast, Hdir. by split; [intros [? _]|].
  - intros id Hf. simpl. apply map_lookup_filter_None. right. intros x _. simpl. tauto.
Qed.
End purging.

(** ** Witnesses: an actor over the in-memory ports *)

#[local] Instance actor_tables : Unicode := fun _ => false.
#[local] Instance actor_digest : Digest := fun _ => "0123456789abcdef".

(** The in-memory ports with the daemon's own files beside them. *)
Definition lift {A} (f : FakeWorld -> A * FakeWorld) (x : FakeWorld * Tree.dir) : A * (FakeWorld * Tree.dir) :=
  let '(a, w) := f x.1 in (a, (w, x.2)).

Lemma lift_run {A} (f : FakeWorld -> A * FakeWorld) x a w : f x.1 = (a, w) -> lift f x = (a, (w, x.2)).
Proof. unfold lift. by intros ->. Qed.

#[local] Instance stored_ports : Ports (FakeWorld * Tree.dir) := {|
  clock_now := lift clock_now;
  runner_ensure_crew := fun c => lift (runner_ensure_crew c);
  runner_ensure_agent := fun id p => lift (runner_ensure_agent id p);
  runner_stop_agent := fun id => lift (runner_stop_agent id);
  runner_stop_crew := fun c => lift (runner_stop_crew c);
  runner_observe := fun f => lift (runner_observe f);
  mat_ensure_crew := fun c r g gs cr t => lift (mat_ensure_crew c r g gs cr t);
  mat_materialize := fun a cr h => lift (mat_materialize a cr h);
  mat_remove_agent := fun id => lift (mat_remove_agent id);
  mat_remove_crew := fun c k => lift (mat_remove_crew c k);
|}.

#[local] Instance stored_lawful : LawfulPorts (FakeWorld * Tree.dir).
Proof.
  refine {| healthy x := healthy x.1 /\ FileStore.all_dirs x.2; view x := view x.1 |};
    [intros w [Hw Hd]|intros f w [Hw Hd]|intros c w [Hw Hd]|intros id p w [Hw Hd]|intros id w [Hw Hd]|intros c w [Hw Hd]
    |intros c r g gs cr t w [Hw Hd]|intros a cr h w [Hw Hd]|intros id w [Hw Hd]|intros c k w [Hw Hd]].
  - destruct (law_clock w.1 Hw) as [Hh Hv]. exact (conj (conj Hh Hd) Hv).
  - destruct (law_observe f w.1 Hw) as (w' & Hrun & Hh & Hrest). exists (w', w.2).
    split; [by apply lift_run|exact (conj (conj Hh Hd) Hrest)].
  - destruct (law_run_ensure_crew c w.1 Hw) as (w' & Hrun & Hh & Hrest). exists (w', w.2).
    split; [by apply lift_run|exact (conj (conj Hh Hd) Hrest)].
  - destruct (law_ensure_agent id p w.1 Hw) as (w' & pid & Hrun & Hh & Hrest). exists (w', w.2), pid.
    split; [by apply lift_run|exact (conj (conj Hh Hd) Hrest)].
  - destruct (law_stop_agent id w.1 Hw) as (w' & Hrun & Hh & Hrest). exists (w', w.2).
    split; [by apply lift_run|exact (conj (conj Hh Hd) Hrest)].
  - destruct (law_stop_crew c w.1 Hw) as (w' & Hrun & Hh & Hrest). exists (w', w.2).
    split; [by apply lift_run|exact (conj (conj Hh Hd) Hrest)].
  - destruct (law_mat_ensure_crew c r g gs cr t w.1 Hw) as (w' & Hrun & Hh & Hrest). exists (w', w.2).
    split; [by apply lift_run|exact (conj (conj Hh Hd) Hrest)].
  - destruct (law_materialize a cr h w.1 Hw) as (p & w' & Hrun & Hh & Hrest). exists p, (w', w.2).
    split; [by apply lift_run|exact (conj (conj Hh Hd) Hrest)].
  - destruct (law_remove_agent id w.1 Hw) as (w' & Hrun & Hh & Hrest). exists (w', w.2).
    split; [by apply lift_run|exact (conj (conj Hh Hd) Hrest)].
  - destruct (law_remove_crew c k w.1 Hw) as (w' & Hrun & Hh & Hrest). exists (w', w.2).
    split; [by apply lift_run|exact (conj (conj Hh Hd) Hrest)].
Defined.

(** The store is [FileStore]'s, over a constant random source and an idle hub. *)
#[local] Instance sample_actor_ports : ActorPorts (FakeWorld * Tree.dir) := {|
  store_put := fun r x w => let '(res, d) := @FileStore.put FileStore.sample_codec "/s/fleets" {| FileStore.v_key := "key" |} r x FileStore.sample_nonce w.2 in (res, (w.1, d));
  store_purge := fun n w => let '(res, d) := @FileStore.purge FileStore.sample_codec "/s/fleets" n w.2 in (res, (w.1, d));
  random_hex := fun _ w => ("00ff", w);
  hub_call := fun _ _ w => w;
  hub_linked := fun _ _ => false;
  system_pool := fun _ => PoolReady;
|}.

#[local] Instance sample_lawful_actor_ports : LawfulActorPorts (FakeWorld * Tree.dir).
Proof.
  refine {| has_dir w n := is_Some (w.2 !! to_string n) |}.
  - intros r x w [Hw Hd]. simpl. pose proof (@FileStore.put_dirs FileStore.sample_codec "/s/fleets" {| FileStore.v_key := "key" |} r x
      FileStore.sample_nonce w.2 Hd) as Hput. by destruct (FileStore.put _ _ _ _ _ _).
  - intros n w [Hw Hd]. simpl. destruct (@FileStore.purge_dirs FileStore.sample_codec "/s/fleets" n w.2 Hd) as [-> Hd'].
    eexists. split; [done|]. split; [done|]. split; [done|]. intros m. simpl.
    destruct (decide (to_string m = to_string n)) as [He|Hne].
    + rewrite He, lookup_delete_eq. apply name_eq in He. split; [by intros []|by intros [_ []]].
    + rewrite lookup_delete_ne by done. split; [|by intros [? _]]. intros Hm. split; [done|]. by intros ->.
Qed.

Definition sample_config : ActorConfig :=
  {| ac_name := id_fleet sample_id; ac_policy := default_policy; ac_hook_url := "http://127.0.0.1:1";
     ac_resync := secs 30; ac_kube := false |}.

Definition no_credentials : CredentialBundle :=
  {| claude_credentials := None; claude_account := None; gh_token := None |}.

Definition sample_sys (stopped : gset string) : Sys (FakeWorld * Tree.dir) :=
  mkSys (set_rec_stopped stopped (set_rec_status sample_status (new_record sample_spec)))
    {| sec_credentials := no_credentials; sec_hook_secrets := ∅ |} (new_record sample_spec) true ∅
    {[ {| id_fleet := no_name_error "other" eq_refl; id_crew := id_crew sample_id;
          id_agent := id_agent sample_id |} := "theirs" ]} []
    (fresh_world, {[ "payments" := Tree.Dir {[ "crews" := Tree.Dir ∅ ]}; "other" := Tree.Dir ∅ ]}).

Lemma sample_spawned : spawned sample_config (sample_sys ∅).
Proof.
  split; [|done|vm_compute; discriminate]. intros id Hid. simpl.
  apply lookup_singleton_None. intros <-. simpl in Hid. vm_compute in Hid. discriminate Hid.
Qed.

Definition sample_start : Sys (FakeWorld * Tree.dir) := start sample_config false (sample_sys ∅).
Definition sample_apply : option Msg := Some (Apply sample_spec no_credentials ∅).
#[local] Notation applied := (turn sample_config sample_apply sample_start).

Lemma alive_eq {A B} (x : A * B * bool) : x.2 = true -> x = (x.1.1, x.1.2, true).
Proof. destruct x as [[a b] c]. simpl. by intros ->. Qed.

Lemma applied_alive : applied.2 = true.
Proof. vm_compute. reflexivity. Qed.

Lemma applied_eq : applied = (applied.1.1, applied.1.2, true).
Proof. exact (alive_eq applied applied_alive). Qed.

Lemma sample_msg_ok : msg_ok sample_config sample_start sample_apply.
Proof. split; [reflexivity|vm_compute; reflexivity]. Qed.

Lemma sample_reachable : reachable sample_config sample_start.
Proof. apply reach_start, sample_spawned. Qed.

Lemma sample_id_own : id_fleet sample_id = ac_name sample_config.
Proof. reflexivity. Qed.

Lemma index_follows_secrets_witness :
  sys_index applied.1.2 !! sample_id = sec_hook_secrets (sys_secrets applied.1.2) !! to_string sample_id.
Proof.
  pose proof (index_follows_secrets sample_config sample_start sample_apply applied.1.1 applied.1.2
    true sample_id sample_reachable sample_msg_ok applied_eq) as Hi.
  rewrite (decide_True _ _ sample_id_own) in Hi. exact Hi.
Defined.

Lemma generation_observed_witness :
  generation (rec_status (sys_record applied.1.2)) = rec_generation (sys_record applied.1.2).
Proof.
  exact (proj1 (generation_observed sample_config sample_start sample_apply applied.1.1 applied.1.2
    sample_reachable sample_msg_ok applied_eq)).
Defined.

Lemma stop_holds_witness :
  to_string sample_id ∈
    rec_stopped (sys_record (handle sample_config (Some Barrier) (sample_sys {[to_string sample_id]})).2).
Proof.
  apply (stop_holds sample_config (sample_sys {[to_string sample_id]}) sample_id).
  - set_solver.
  - reflexivity.
Defined.

Lemma down_purges_witness :
  exists reply s' w,
    turn sample_config (Some (Down {| keep_repos := false; keep_sessions := false |} true)) (sample_sys ∅) =
      (reply, s', false) /\
    agents (rec_status (sys_record s')) = ∅ /\
    sys_world s' = (store_purge (ac_name sample_config) w).2 /\ healthy (sys_world s') /\
    (forall c, cr_fleet c = ac_name sample_config -> ~ has_crew (sys_world s') c) /\
    ~ has_dir (sys_world s') (ac_name sample_config) /\
    (forall n, n <> ac_name sample_config -> has_dir (sys_world s') n <-> has_dir w n) /\
    (forall id, id_fleet id = ac_name sample_config -> sys_index s' !! id = None) /\
    sys_purged s' = [ac_name sample_config].
Proof.
  apply (down_purges sample_config (sample_sys ∅)).
  - reflexivity.
  - split; [done|]. intros name n Hn. simpl in Hn. apply lookup_insert_Some in Hn as [[_ <-]|[_ Hn]]; [by eexists|].
    apply lookup_singleton_Some in Hn as [_ <-]. by eexists.
  - apply sample_keys_ok.
  - reflexivity.
Defined.
