(* ===== verification/Queue.v ===== *)
(** The command queue every observer plugin feeds its actor from
    ([plugins/common/src/queue.rs]): two lanes stamped with arrivals, and the
    single first-in first-out list they implement. *)

From S2P Require Import Prelude.

(** ** The code *)

Inductive Lane := Control | Inbound | Lossy | Latest.

#[export] Instance lane_eq_dec : EqDecision Lane.
Proof. solve_decision. Defined.

Definition OBSERVER_QUEUE : N := 1024.
Definition QUEUE : N := OBSERVER_QUEUE.
Definition KEPT : N := 4096.
Definition KEPT_BYTES : N := N.shiftl 64 20.

(** A command that knows its lane and, roughly, the bytes it holds. *)
Class Laned (C : Type) := {
  lane : C -> Lane;
  bytes : C -> N;
}.

(** [Lanes] with what [Queue] keeps beside it: the counter of dropped events
    and the mark of a gap. *)
Record Lanes (C : Type) := mkLanes {
  q_kept : list (N * C);
  q_lossy : list (N * C);
  q_inbound : N;
  q_inbound_bytes : N;
  q_latest : bool;
  q_next : N;
  q_dropped : N;
  q_gap : bool;
}.
Arguments mkLanes {C}.
Arguments q_kept {C}.
Arguments q_lossy {C}.
Arguments q_inbound {C}.
Arguments q_inbound_bytes {C}.
Arguments q_latest {C}.
Arguments q_next {C}.
Arguments q_dropped {C}.
Arguments q_gap {C}.

Definition new_queue {C} : Lanes C := mkLanes [] [] 0 0 false 0 0 false.

Section queue.
Context `{Laned C}.

(** [Queue::push]; [Err] is [Full(command)]. *)
Definition push (command : C) (q : Lanes C) : result C unit * Lanes C :=
  let seq := q_next q in
  let next := wrapping_add_u64 seq 1 in
  match lane command with
  | Control =>
      (Ok tt, mkLanes (q_kept q ++ [(seq, command)]) (q_lossy q) (q_inbound q) (q_inbound_bytes q)
                (q_latest q) next (q_dropped q) (q_gap q))
  | Inbound =>
      let b := bytes command in
      if (KEPT <=? q_inbound q)%N || (KEPT_BYTES <? saturating_add_u64 (q_inbound_bytes q) b)%N
      then (Err command, q)
      else (Ok tt, mkLanes (q_kept q ++ [(seq, command)]) (q_lossy q) (q_inbound q + 1)%N
                     (q_inbound_bytes q + b)%N (q_latest q) next (q_dropped q) (q_gap q))
  | Latest =>
      if q_latest q then (Ok tt, q)
      else (Ok tt, mkLanes (q_kept q ++ [(seq, command)]) (q_lossy q) (q_inbound q)
                     (q_inbound_bytes q) true next (q_dropped q) (q_gap q))
  | Lossy =>
      if (QUEUE <=? N.of_nat (length (q_lossy q)))%N
      then (Ok tt, mkLanes (q_kept q) (tail (q_lossy q) ++ [(seq, command)]) (q_inbound q)
                     (q_inbound_bytes q) (q_latest q) next (q_dropped q + 1)%N true)
      else (Ok tt, mkLanes (q_kept q) (q_lossy q ++ [(seq, command)]) (q_inbound q)
                     (q_inbound_bytes q) (q_latest q) next (q_dropped q) (q_gap q))
  end.

Definition set_lossy (l : list (N * C)) (q : Lanes C) : Lanes C :=
  mkLanes (q_kept q) l (q_inbound q) (q_inbound_bytes q) (q_latest q) (q_next q) (q_dropped q) (q_gap q).

(** [Queue::try_pop]. *)
Definition try_pop (q : Lanes C) : option C * Lanes C :=
  let kept_first :=
    match q_kept q, q_lossy q with
    | (k, _) :: _, (l, _) :: _ => (k <? l)%N
    | k :: _, [] => true
    | [], _ => false
    end in
  if negb kept_first then
    match q_lossy q with
    | (_, c) :: l => (Some c, set_lossy l q)
    | [] => (None, q)
    end
  else
    match q_kept q with
    | (_, command) :: k =>
        let inbound := match lane command with Inbound => (q_inbound q - 1)%N | _ => q_inbound q end in
        let inbound_bytes :=
          match lane command with Inbound => (q_inbound_bytes q - bytes command)%N | _ => q_inbound_bytes q end in
        let latest := match lane command with Latest => false | _ => q_latest q end in
        (Some command, mkLanes k (q_lossy q) inbound inbound_bytes latest (q_next q) (q_dropped q) (q_gap q))
    | [] => (None, q)
    end.

(** [Queue::take_gap], [len] and [is_empty]. *)
Definition take_gap (q : Lanes C) : bool * Lanes C :=
  (q_gap q, mkLanes (q_kept q) (q_lossy q) (q_inbound q) (q_inbound_bytes q) (q_latest q) (q_next q)
              (q_dropped q) false).
Definition queue_len (q : Lanes C) : nat := length (q_kept q) + length (q_lossy q).
Definition queue_is_empty (q : Lanes C) : bool := bool_decide (queue_len q = 0).

(** ** The specification: one list, in the order of arrival *)

Definition in_lane (l : Lane) (c : C) : Prop := lane c = l.
#[export] Instance in_lane_dec l c : Decision (in_lane l c).
Proof. unfold in_lane. apply _. Defined.
#[local] Typeclasses Opaque in_lane.

Definition count_lane (l : Lane) (cs : list C) : N := N.of_nat (length (filter (in_lane l) cs)).
Fixpoint total_bytes (cs : list C) : N :=
  match cs with
  | [] => 0
  | c :: cs => (if decide (lane c = Inbound) then bytes c else 0) + total_bytes cs
  end%N.

(** The list without its oldest lossy command. *)
Fixpoint drop_oldest (cs : list C) : list C :=
  match cs with
  | [] => []
  | c :: cs => if decide (in_lane Lossy c) then cs else c :: drop_oldest cs
  end.

Definition spec_push (command : C) (cs : list C) : result C unit * list C :=
  match lane command with
  | Control => (Ok tt, cs ++ [command])
  | Inbound =>
      if (KEPT <=? count_lane Inbound cs)%N || (KEPT_BYTES <? total_bytes cs + bytes command)%N
      then (Err command, cs) else (Ok tt, cs ++ [command])
  | Latest => if (0 <? count_lane Latest cs)%N then (Ok tt, cs) else (Ok tt, cs ++ [command])
  | Lossy =>
      (Ok tt, (if (QUEUE <=? count_lane Lossy cs)%N then drop_oldest cs else cs) ++ [command])
  end.

Definition spec_pop (cs : list C) : option C * list C :=
  match cs with [] => (None, []) | c :: cs => (Some c, cs) end.

(** ** The abstraction: both lanes merged by stamp *)

Definition older (a b : N * C) : Prop := (a.1 < b.1)%N.
#[export] Instance older_dec : RelDecision older.
Proof. intros a b. unfold older. apply _. Defined.

Definition merged (q : Lanes C) : list (N * C) := list_merge older (q_kept q) (q_lossy q).
Definition contents (q : Lanes C) : list C := (merged q).*2.

Record queue_ok (q : Lanes C) : Prop := {
  qk_kept : StronglySorted older (q_kept q);
  qk_lossy : StronglySorted older (q_lossy q);
  qk_apart : forall a b, a ∈ q_kept q -> b ∈ q_lossy q -> a.1 <> b.1;
  qk_next : Forall (fun a => a.1 < q_next q)%N (q_kept q ++ q_lossy q);
  qk_lanes : Forall (fun a => lane a.2 <> Lossy) (q_kept q) /\ Forall (fun a => lane a.2 = Lossy) (q_lossy q);
  qk_inbound : q_inbound q = count_lane Inbound (q_kept q).*2;
  qk_bytes : q_inbound_bytes q = total_bytes (q_kept q).*2;
  qk_latest : (if q_latest q then 1 else 0)%N = count_lane Latest (q_kept q).*2;
  qk_bounds : (q_inbound q <= KEPT)%N /\ (q_inbound_bytes q <= KEPT_BYTES)%N /\
              (N.of_nat (length (q_lossy q)) <= QUEUE)%N;
}.

(** ** Merging *)

Lemma merge_snoc_l k l x :
  Forall (fun a => older a x) (k ++ l) -> list_merge older (k ++ [x]) l = list_merge older k l ++ [x].
Proof.
  revert l. induction k as [|a k IHk]; intros l.
  - rewrite list_merge_nil_l. simpl. induction l as [|b l IHl]; [done|].
    intros [Hb Hl]%Forall_cons. simpl app. rewrite list_merge_cons.
    rewrite decide_False; [by rewrite IHl|]. unfold older in *. lia.
  - induction l as [|b l IHl].
    + intros _. by rewrite !list_merge_nil_r.
    + intros Hall. simpl app. rewrite !list_merge_cons.
      destruct (decide (older a b)).
      * simpl. f_equal. apply IHk. by apply Forall_cons in Hall as [_ ?].
      * simpl. f_equal. apply IHl.
        apply Forall_app in Hall as [? [_ ?]%Forall_cons]. by apply Forall_app.
Qed.

Lemma merge_snoc_r k l x :
  Forall (fun a => older a x) (k ++ l) -> list_merge older k (l ++ [x]) = list_merge older k l ++ [x].
Proof.
  revert l. induction k as [|a k IHk]; intros l.
  - by rewrite !list_merge_nil_l.
  - induction l as [|b l IHl].
    + intros Hall. simpl app. rewrite list_merge_cons, list_merge_nil_r.
      apply Forall_app in Hall as [[Ha Hk]%Forall_cons _].
      rewrite decide_True by done. simpl. f_equal.
      specialize (IHk []). rewrite list_merge_nil_r in IHk. apply IHk. by rewrite app_nil_r.
    + intros Hall. simpl app. rewrite !list_merge_cons.
      destruct (decide (older a b)).
      * simpl. f_equal. apply (IHk (b :: l)). by apply Forall_cons in Hall as [_ ?].
      * simpl. f_equal. apply IHl.
        apply Forall_app in Hall as [? [_ ?]%Forall_cons]. by apply Forall_app.
Qed.

Lemma merge_tail k b l :
  Forall (fun a => lane a.2 <> Lossy) k -> lane b.2 = Lossy ->
  StronglySorted older (b :: l) ->
  (list_merge older k l).*2 = drop_oldest (list_merge older k (b :: l)).*2.
Proof.
  intros Hk Hb Hs. induction Hk as [|a k Ha Hk IH].
  - rewrite !list_merge_nil_l. simpl. by rewrite decide_True.
  - rewrite list_merge_cons. destruct (decide (older a b)) as [Hab|Hab].
    + rewrite fmap_cons. cbn [drop_oldest]. rewrite decide_False by done. rewrite <- IH.
      destruct l as [|b' l]; [by rewrite !list_merge_nil_r|].
      rewrite list_merge_cons, decide_True; [done|].
      apply StronglySorted_inv in Hs as [_ [Hbb _]%Forall_cons]. unfold older in *. lia.
    + rewrite fmap_cons. cbn [drop_oldest]. by rewrite decide_True.
Qed.

Lemma merge_perm k l : (list_merge older k l).*2 ≡ₚ k.*2 ++ l.*2.
Proof. by rewrite <- fmap_app, (merge_Permutation older k l). Qed.

(** ** Counting *)

Lemma count_lane_app l cs ds : count_lane l (cs ++ ds) = (count_lane l cs + count_lane l ds)%N.
Proof. unfold count_lane. rewrite filter_app, length_app. lia. Qed.

Lemma count_lane_one l c : count_lane l [c] = if decide (lane c = l) then 1%N else 0%N.
Proof.
  unfold count_lane, in_lane. destruct (decide (lane c = l)).
  - by rewrite filter_cons_True.
  - by rewrite filter_cons_False.
Qed.

Lemma count_lane_cons l c cs :
  count_lane l (c :: cs) = ((if decide (lane c = l) then 1 else 0) + count_lane l cs)%N.
Proof. change (c :: cs) with ([c] ++ cs). by rewrite count_lane_app, count_lane_one. Qed.

Lemma count_lane_perm l cs ds : cs ≡ₚ ds -> count_lane l cs = count_lane l ds.
Proof. intros Hp. unfold count_lane. by rewrite Hp. Qed.

Lemma count_lane_all l cs :
  Forall (fun c => lane c = l) cs -> count_lane l cs = N.of_nat (length cs).
Proof.
  induction 1 as [|c cs Hc _ IH]; [done|]. rewrite count_lane_cons, decide_True, IH by done. simpl. lia.
Qed.

Lemma count_lane_none l cs : Forall (fun c => lane c <> l) cs -> count_lane l cs = 0%N.
Proof.
  induction 1 as [|c cs Hc _ IH]; [done|]. by rewrite count_lane_cons, decide_False, IH.
Qed.

Lemma total_bytes_app cs ds : total_bytes (cs ++ ds) = (total_bytes cs + total_bytes ds)%N.
Proof. induction cs as [|c cs IH]; simpl; [done|]. rewrite IH. lia. Qed.

Lemma total_bytes_perm cs ds : cs ≡ₚ ds -> total_bytes cs = total_bytes ds.
Proof. induction 1; simpl; lia. Qed.

Lemma total_bytes_none cs : Forall (fun c => lane c <> Inbound) cs -> total_bytes cs = 0%N.
Proof.
  induction 1 as [|c cs Hc _ IH]; simpl; [done|]. unfold in_lane. by rewrite decide_False, IH.
Qed.

(** What the lists of the specification count, read off the lanes. *)
Lemma contents_counts q : queue_ok q ->
  count_lane Inbound (contents q) = q_inbound q /\
  total_bytes (contents q) = q_inbound_bytes q /\
  count_lane Latest (contents q) = (if q_latest q then 1 else 0)%N /\
  count_lane Lossy (contents q) = N.of_nat (length (q_lossy q)).
Proof.
  intros [_ _ _ _ [Hk Hl] -> -> -> _].
  unfold contents, merged.
  rewrite !(count_lane_perm _ _ _ (merge_perm _ _)), (total_bytes_perm _ _ (merge_perm _ _)).
  rewrite !count_lane_app, total_bytes_app.
  assert (Forall (fun c => lane c = Lossy) (q_lossy q).*2) as Hl2 by by rewrite Forall_fmap.
  assert (Forall (fun c => lane c <> Lossy) (q_kept q).*2) as Hk2 by by rewrite Forall_fmap.
  rewrite (count_lane_all Lossy (q_lossy q).*2), (count_lane_none Lossy (q_kept q).*2),
    (count_lane_none Inbound (q_lossy q).*2), (count_lane_none Latest (q_lossy q).*2),
    (total_bytes_none (q_lossy q).*2), length_fmap;
    try done; try (eapply Forall_impl; [exact Hl2|]; simpl; congruence).
  split_and!; lia.
Qed.

Lemma sorted_snoc (l : list (N * C)) x :
  StronglySorted older l -> Forall (fun a => older a x) l -> StronglySorted older (l ++ [x]).
Proof.
  intros Hl Hx. apply StronglySorted_app_2; [|done|by repeat constructor].
  intros a b Ha ->%list_elem_of_singleton. rewrite Forall_forall in Hx. by apply Hx.
Qed.

(** ** The lanes implement the list *)

Lemma next_stamp (q : Lanes C) : (q_next q < u64_max)%N -> wrapping_add_u64 (q_next q) 1 = (q_next q + 1)%N.
Proof. intros Hn. unfold wrapping_add_u64. apply N.mod_small. lia. Qed.

Lemma all_older q c : queue_ok q -> Forall (fun a => older a (q_next q, c)) (q_kept q ++ q_lossy q).
Proof. intros [_ _ _ Hn _ _ _ _ _]. exact Hn. Qed.

(** One more entry in the kept lane. *)
Lemma push_kept (c : C) (q : Lanes C) (ib ibb : N) (lt : bool) :
  queue_ok q -> (q_next q < u64_max)%N -> lane c <> Lossy ->
  ib = count_lane Inbound ((q_kept q).*2 ++ [c]) -> ibb = total_bytes ((q_kept q).*2 ++ [c]) ->
  (if lt then 1 else 0)%N = count_lane Latest ((q_kept q).*2 ++ [c]) ->
  (ib <= KEPT)%N -> (ibb <= KEPT_BYTES)%N ->
  let q' := mkLanes (q_kept q ++ [(q_next q, c)]) (q_lossy q) ib ibb lt
              (wrapping_add_u64 (q_next q) 1) (q_dropped q) (q_gap q) in
  queue_ok q' /\ contents q' = contents q ++ [c].
Proof.
  intros Hok Hn Hc Hib Hibb Hlt Hb1 Hb2 q'. pose proof (all_older q c Hok) as Hold.
  pose proof Hold as [Hok1 Hok2]%Forall_app.
  pose proof Hok as [Hk Hl Ha Hnx [Hkl Hll] _ _ _ (_ & _ & Hb3)]. subst q'. split.
  - split; cbn [q_kept q_lossy q_inbound q_inbound_bytes q_latest q_next]; rewrite ?fmap_app; try done.
    + by apply sorted_snoc.
    + intros a b [Ha'| ->%list_elem_of_singleton]%elem_of_app Hb; [by apply Ha|]. simpl.
      rewrite Forall_forall in Hok2. apply Hok2 in Hb. unfold older in Hb. simpl in Hb. lia.
    + rewrite next_stamp by done. rewrite <- app_assoc. apply Forall_app in Hnx as [Hn1 Hn2].
      apply Forall_app. split; [eapply Forall_impl; [exact Hn1|]; simpl; lia|].
      apply Forall_cons. split; [simpl; lia|]. eapply Forall_impl; [exact Hn2|]. simpl. lia.
    + split; [|done]. apply Forall_app. split; [done|]. by apply Forall_singleton.
  - unfold contents, merged. cbn [q_kept q_lossy]. rewrite merge_snoc_l by exact Hold.
    by rewrite fmap_app.
Qed.

(** One more entry in a lossy lane that holds some of the old ones. *)
Lemma push_lossy (c : C) (q : Lanes C) l (drops : N) (gap : bool) :
  queue_ok q -> (q_next q < u64_max)%N -> lane c = Lossy ->
  (l = q_lossy q \/ exists b, q_lossy q = b :: l) -> (N.of_nat (length l) < QUEUE)%N ->
  let q' := mkLanes (q_kept q) (l ++ [(q_next q, c)]) (q_inbound q) (q_inbound_bytes q) (q_latest q)
              (wrapping_add_u64 (q_next q) 1) drops gap in
  queue_ok q' /\ contents q' = (list_merge older (q_kept q) l).*2 ++ [c].
Proof.
  intros Hok Hn Hc Hsub Hlen q'. pose proof (all_older q c Hok) as Hold.
  pose proof Hok as [Hk Hl Ha Hnx [Hkl Hll] Hi Hib Hlt (Hb1 & Hb2 & _)].
  assert (StronglySorted older l /\ (forall b, b ∈ l -> b ∈ q_lossy q)) as [Hsl Hin].
  { destruct Hsub as [->|[b Heq]]; [done|]. rewrite Heq in *.
    split; [by apply StronglySorted_inv in Hl as []|]. intros x ?. by right. }
  assert (forall (P : N * C -> Prop), Forall P (q_kept q ++ q_lossy q) -> Forall P (q_kept q ++ l)) as Hsubl.
  { intros P. rewrite !Forall_forall. intros HP x Hx. apply HP. apply elem_of_app.
    apply elem_of_app in Hx as [?|?]; auto. }
  apply Hsubl in Hold, Hnx. pose proof Hold as [Ho1 Ho2]%Forall_app. subst q'. split.
  - split; cbn [q_kept q_lossy q_inbound q_inbound_bytes q_latest q_next]; try done.
    + by apply sorted_snoc.
    + intros a b Ha' [Hb| ->%list_elem_of_singleton]%elem_of_app; [by apply Ha; auto|]. simpl.
      rewrite Forall_forall in Ho1. apply Ho1 in Ha'. unfold older in Ha'. simpl in Ha'. lia.
    + rewrite next_stamp by done. rewrite app_assoc. apply Forall_app.
      split; [eapply Forall_impl; [exact Hnx|]; simpl; lia|]. apply Forall_singleton. simpl. lia.
    + split; [done|]. apply Forall_app. split; [|by apply Forall_singleton].
      rewrite Forall_forall in Hll |- *. auto.
    + split_and!; [done..|]. rewrite length_app. simpl. lia.
  - unfold contents, merged. cbn [q_kept q_lossy]. rewrite merge_snoc_r by exact Hold.
    by rewrite fmap_app.
Qed.

Lemma push_refines c q : queue_ok q -> (q_next q < u64_max)%N ->
  queue_ok (push c q).2 /\ spec_push c (contents q) = ((push c q).1, contents (push c q).2).
Proof.
  intros Hok Hn. destruct (contents_counts q Hok) as (Ci & Cb & Ct & Cl).
  pose proof (qk_inbound q Hok) as Hi. pose proof (qk_bytes q Hok) as Hb.
  pose proof (qk_latest q Hok) as Ht. pose proof (qk_bounds q Hok) as (B1 & B2 & B3).
  assert (KEPT_BYTES < u64_max)%N as Hmax by (vm_compute; reflexivity).
  unfold push, spec_push. destruct (lane c) eqn:Hc.
  - destruct (push_kept c q (q_inbound q) (q_inbound_bytes q) (q_latest q)) as [H1 H2]; try done;
      rewrite ?count_lane_app, ?total_bytes_app, ?count_lane_one; simpl; unfold in_lane;
      rewrite ?decide_False by congruence; try congruence; try lia.
    cbn [fst snd]. by rewrite H2.
  - rewrite Ci, Cb. destruct (N.leb_spec KEPT (q_inbound q)); cbn [orb]; [by split|].
    assert (saturating_add_u64 (q_inbound_bytes q) (bytes c) =
      N.min (q_inbound_bytes q + bytes c) u64_max) as Hsat by done.
    destruct (N.ltb_spec KEPT_BYTES (q_inbound_bytes q + bytes c)) as [Hgt|Hle].
    + rewrite (proj2 (N.ltb_lt _ _)) by lia. by split.
    + rewrite (proj2 (N.ltb_ge _ _)) by lia.
      destruct (push_kept c q (q_inbound q + 1) (q_inbound_bytes q + bytes c) (q_latest q)) as [H1 H2];
        try done; rewrite ?count_lane_app, ?total_bytes_app, ?count_lane_one; simpl; unfold in_lane;
        rewrite ?(decide_True (P := lane c = Inbound)), ?(decide_False (P := lane c = Latest)) by congruence;
        try congruence; try lia.
      cbn [fst snd]. by rewrite H2.
  - rewrite Cl. destruct (N.leb_spec QUEUE (N.of_nat (length (q_lossy q)))) as [Hfull|Hroom].
    + destruct (q_lossy q) as [|b l] eqn:Hq; [vm_compute in Hfull; by destruct Hfull|].
      destruct (push_lossy c q l (q_dropped q + 1) true) as [H1 H2]; try done.
      { right. by exists b. }
      { simpl in B3, Hfull. lia. }
      cbn [fst snd tail]. split; [done|]. rewrite H2. f_equal. f_equal. symmetry.
      unfold contents, merged. rewrite Hq. apply merge_tail.
      * apply (qk_lanes q Hok).
      * destruct (qk_lanes q Hok) as [_ Hl]. rewrite Hq in Hl. by apply Forall_cons in Hl as [? _].
      * rewrite <- Hq. apply (qk_lossy q Hok).
    + destruct (push_lossy c q (q_lossy q) (q_dropped q) (q_gap q)) as [H1 H2]; try done; [by left|].
      cbn [fst snd]. split; [done|]. by rewrite H2.
  - rewrite Ct. destruct (q_latest q) eqn:Hlt; [by split|].
    destruct (push_kept c q (q_inbound q) (q_inbound_bytes q) true) as [H1 H2]; try done;
      rewrite ?count_lane_app, ?total_bytes_app, ?count_lane_one; simpl; unfold in_lane;
      rewrite ?(decide_True (P := lane c = Latest)), ?(decide_False (P := lane c = Inbound)) by congruence;
      try congruence; try lia.
    cbn [fst snd]. by rewrite H2.
Qed.

(** Taking the head of a lane. *)
Lemma pop_lossy_ok q x l : queue_ok q -> q_lossy q = x :: l -> queue_ok (set_lossy l q).
Proof.
  intros [Hk Hl Ha Hn [Hkl Hll] Hi Hb Ht (B1 & B2 & B3)] Hq. rewrite Hq in *.
  split; cbn [set_lossy q_kept q_lossy q_inbound q_inbound_bytes q_latest q_next]; try done.
  - by apply StronglySorted_inv in Hl as [].
  - intros a b ? ?. apply Ha; [done|by right].
  - apply Forall_app in Hn as [? [_ ?]%Forall_cons]. by apply Forall_app.
  - split; [done|]. by apply Forall_cons in Hll as [_ ?].
  - simpl in B3. split_and!; [done..|lia].
Qed.

Lemma pop_kept_ok q n c k :
  queue_ok q -> q_kept q = (n, c) :: k ->
  queue_ok (mkLanes k (q_lossy q)
    (match lane c with Inbound => (q_inbound q - 1)%N | _ => q_inbound q end)
    (match lane c with Inbound => (q_inbound_bytes q - bytes c)%N | _ => q_inbound_bytes q end)
    (match lane c with Latest => false | _ => q_latest q end) (q_next q) (q_dropped q) (q_gap q)).
Proof.
  intros [Hk Hl Ha Hn [Hkl Hll] Hi Hb Ht (B1 & B2 & B3)] Hq. rewrite Hq in *.
  rewrite fmap_cons, count_lane_cons in Hi, Ht. rewrite fmap_cons in Hb. simpl in Hi, Hb, Ht.
  unfold in_lane in Hb.
  split; cbn [q_kept q_lossy q_inbound q_inbound_bytes q_latest q_next]; try done.
  - by apply StronglySorted_inv in Hk as [].
  - intros a b ? ?. apply Ha; [by right|done].
  - by apply Forall_cons in Hn as [_ ?].
  - split; [|done]. by apply Forall_cons in Hkl as [_ ?].
  - clear Hb Ht. destruct (lane c); case_decide; try done; lia.
  - clear Hi Ht. destruct (lane c); case_decide; try done; lia.
  - clear Hi Hb. destruct (lane c); case_decide; try done; destruct (q_latest q); lia.
  - destruct (lane c); split_and!; lia.
Qed.

Lemma pop_refines q : queue_ok q ->
  queue_ok (try_pop q).2 /\ spec_pop (contents q) = ((try_pop q).1, contents (try_pop q).2).
Proof.
  intros Hok. unfold try_pop, contents, merged.
  destruct (q_kept q) as [|[n c] k] eqn:Hk; destruct (q_lossy q) as [|[m d] l] eqn:Hl; cbn [negb].
  - split; [done|]. simpl. by rewrite Hk, Hl.
  - split; [by eapply pop_lossy_ok|]. cbn [fst snd set_lossy q_kept q_lossy].
    by rewrite Hk, !list_merge_nil_l.
  - split; [rewrite <- Hl; by eapply pop_kept_ok|]. cbn [fst snd q_kept q_lossy].
    by rewrite !list_merge_nil_r.
  - rewrite list_merge_cons. unfold older at 1. cbn [fst snd].
    destruct (N.ltb_spec n m) as [Hnm|Hnm]; cbn [negb].
    + rewrite decide_True by done.
      split; [rewrite <- Hl; by eapply pop_kept_ok|]. by cbn [fst snd q_kept q_lossy].
    + case_decide; [lia|].
      split; [by eapply pop_lossy_ok|]. cbn [fst snd set_lossy q_kept q_lossy]. by rewrite Hk.
Qed.

Lemma queue_ok_new : queue_ok (new_queue (C := C)).
Proof.
  split; simpl; try done; try constructor; try (by intros ? ? ?%not_elem_of_nil).
Qed.

(** ** Runs of the queue *)

Inductive Op := OpPush (c : C) | OpPop | OpTakeGap.

(** What a run accepted and what it handed out. *)
Record Trace := { tr_pushed : list C; tr_popped : list C; tr_queue : Lanes C }.

Definition run_op (t : Trace) (op : Op) : Trace :=
  match op with
  | OpPush c =>
      let '(r, q) := push c (tr_queue t) in
      {| tr_pushed := tr_pushed t ++ (if is_ok r then [c] else []); tr_popped := tr_popped t;
         tr_queue := q |}
  | OpPop =>
      let '(o, q) := try_pop (tr_queue t) in
      {| tr_pushed := tr_pushed t; tr_popped := tr_popped t ++ option_list o; tr_queue := q |}
  | OpTakeGap =>
      {| tr_pushed := tr_pushed t; tr_popped := tr_popped t; tr_queue := (take_gap (tr_queue t)).2 |}
  end.

Definition run_ops (ops : list Op) : Trace :=
  foldl run_op {| tr_pushed := []; tr_popped := []; tr_queue := new_queue |} ops.

(** Commands the queue may never lose. *)
Definition keeps (c : C) : Prop := lane c = Control \/ lane c = Inbound.
#[export] Instance keeps_dec c : Decision (keeps c).
Proof. unfold keeps. apply _. Defined.

Lemma drop_oldest_keeps cs : filter keeps (drop_oldest cs) = filter keeps cs.
Proof.
  induction cs as [|c cs IH]; [done|]. cbn [drop_oldest]. destruct (decide (in_lane Lossy c)) as [Hc|Hc].
  - rewrite filter_cons_False; [done|]. unfold keeps, in_lane in *. intros [?|?]; congruence.
  - rewrite !filter_cons. by rewrite IH.
Qed.

Lemma spec_push_keeps c cs : 
  filter keeps (spec_push c cs).2 = filter keeps cs ++ filter keeps (if is_ok (spec_push c cs).1 then [c] else []).
Proof.
  unfold spec_push. destruct (lane c) eqn:Hc.
  - cbn [fst snd is_ok]. by rewrite filter_app.
  - destruct (_ || _); cbn [fst snd is_ok]; [by rewrite app_nil_r|by rewrite filter_app].
  - cbn [fst snd is_ok]. rewrite filter_app. by destruct (_ <=? _)%N; rewrite ?drop_oldest_keeps.
  - destruct (_ <? _)%N; cbn [fst snd is_ok]; [|by rewrite filter_app].
    rewrite (filter_cons_False keeps); [by rewrite app_nil_r|]. unfold keeps. intros [?|?]; congruence.
Qed.

Lemma push_next c q : (q_next q < u64_max)%N -> (q_next (push c q).2 <= q_next q + 1)%N.
Proof.
  intros Hn. unfold push.
  destruct (lane c); [|destruct (_ || _)|destruct (_ <=? _)%N|destruct (q_latest q)];
    cbn [snd q_next]; rewrite ?next_stamp by done; lia.
Qed.

Lemma pop_next q : q_next (try_pop q).2 = q_next q.
Proof. unfold try_pop. by repeat case_match. Qed.

Lemma run_ops_ok (ops : list Op) : (N.of_nat (length ops) < u64_max)%N ->
  let t := run_ops ops in
  queue_ok (tr_queue t) /\ (q_next (tr_queue t) <= N.of_nat (length ops))%N /\
  filter keeps (tr_pushed t) = filter keeps (tr_popped t) ++ filter keeps (contents (tr_queue t)).
Proof.
  induction ops as [|op ops IH] using rev_ind; intros Hlen t; subst t.
  { split; [apply queue_ok_new|]. split; [simpl; lia|done]. }
  rewrite length_app in Hlen. simpl in Hlen.
  destruct IH as (Hok & Hnext & Hk); [lia|].
  unfold run_ops in *. rewrite foldl_app, length_app. cbn [foldl length].
  set (t := foldl run_op _ ops) in *. destruct op as [c| |]; unfold run_op.
  - assert (q_next (tr_queue t) < u64_max)%N as Hn by lia.
    destruct (push_refines c (tr_queue t) Hok Hn) as [Hok' Hs].
    pose proof (spec_push_keeps c (contents (tr_queue t))) as Hsk. rewrite Hs in Hsk.
    pose proof (push_next c (tr_queue t) Hn) as Hn'.
    destruct (push c (tr_queue t)) as [r q]. cbn [fst snd tr_queue tr_pushed tr_popped] in *.
    split_and!; [done|lia|]. by rewrite filter_app, Hk, Hsk, app_assoc.
  - destruct (pop_refines (tr_queue t) Hok) as [Hok' Hs].
    pose proof (pop_next (tr_queue t)) as Hn'.
    destruct (try_pop (tr_queue t)) as [o q]. cbn [fst snd tr_queue tr_pushed tr_popped] in *.
    split_and!; [done|lia|]. rewrite Hk, filter_app, <- app_assoc. f_equal.
    destruct (contents (tr_queue t)) as [|c cs]; simpl in Hs; injection Hs as <- <-; [done|].
    by rewrite <- filter_app.
  - split_and!; [by destruct Hok|simpl; lia|done].
Qed.

(** ** Properties *)

(** the two stamped lanes are one first-in first-out list: on every
    state a run of the queue reaches, [push] and [try_pop] do to the lanes,
    merged by stamp, exactly what the specification does to the list (refuse
    an inbound item past the bounds, merge a second tick into the first, drop
    the oldest event for a new one, hand out the head). *)
Theorem queue_refines (ops : list Op) (c : C) :
  (N.of_nat (length ops) + 1 < u64_max)%N ->
  let q := tr_queue (run_ops ops) in
  spec_push c (contents q) = ((push c q).1, contents (push c q).2) /\
  spec_pop (contents q) = ((try_pop q).1, contents (try_pop q).2).
Proof.
  intros Hlen q. destruct (run_ops_ok ops) as (Hok & Hn & _); [lia|].
  split; [apply push_refines; [done|unfold q; lia]|by apply pop_refines].
Qed.

(** the queue loses no control command and no accepted reply, and holds
    its bounds: in any run, the control and inbound commands pushed (and not
    refused) are, in order, those handed out followed by those still queued,
    and the lanes never hold more than their limits. *)
Theorem queue_keeps (ops : list Op) :
  (N.of_nat (length ops) < u64_max)%N ->
  let t := run_ops ops in
  filter keeps (tr_pushed t) = filter keeps (tr_popped t ++ contents (tr_queue t)) /\
  (count_lane Lossy (contents (tr_queue t)) <= QUEUE)%N /\
  (count_lane Inbound (contents (tr_queue t)) <= KEPT)%N /\
  (total_bytes (contents (tr_queue t)) <= KEPT_BYTES)%N /\
  (count_lane Latest (contents (tr_queue t)) <= 1)%N.
Proof.
  intros Hlen t. destruct (run_ops_ok ops Hlen) as (Hok & _ & Hk). fold t in Hok, Hk.
  split; [by rewrite filter_app|].
  destruct (contents_counts _ Hok) as (-> & -> & -> & ->).
  pose proof (qk_bounds _ Hok) as (? & ? & ?). split_and!; try done.
  destruct (q_latest _); lia.
Qed.
End queue.

#[local] Instance sample_laned : Laned (bool * string) := {|
  lane := fun c : bool * string => if c.1 then Lossy else Control;
  bytes := fun c : bool * string => N.of_nat (String.length c.2);
|}.

Lemma queue_refines_witness :
  let q := tr_queue (run_ops [OpPush (true, "event"); OpPush (false, "deactivate")]) in
  spec_pop (contents q) = ((try_pop q).1, contents (try_pop q).2) /\ (try_pop q).1 = Some (true, "event").
Proof.
  split; [|reflexivity].
  apply (queue_refines [OpPush (true, "event"); OpPush (false, "deactivate")] (true, "x")).
  vm_compute. reflexivity.
Defined.

Lemma queue_keeps_witness :
  let t := run_ops [OpPush (false, "activate"); OpPush (true, "event"); OpPop] in
  filter keeps (tr_pushed t) = filter keeps (tr_popped t ++ contents (tr_queue t)).
Proof.
  apply (queue_keeps [OpPush (false, "activate"); OpPush (true, "event"); OpPop]).
  vm_compute. reflexivity.
Defined.
