(* ===== verification/Kv.v ===== *)
(** The per-plugin key/value store ([crates/balerix-server/src/plugins/kv.rs]
    and [vault.rs]): files of one directory tree, one per key, secret entries
    sealed by the vault; and the finite map it implements.

    Each call runs alone (the [tree] lock and the atomic rename), on the tree of
    [Tree]; a missing [kv/] is the empty tree. *)

From S2P Require Import Prelude Str BTree Names Rules Tree.

(** ** The vault *)

(** The AEAD of [chacha20poly1305] under the vault's key, with what it
    promises: decryption inverts encryption. *)
Class Aead := {
  aead_encrypt : string -> string -> string -> option string;
  aead_decrypt : string -> string -> string -> option string;
}.
Class LawfulAead `{Aead} := {
  law_decrypt nonce aad plain ct :
    aead_encrypt nonce aad plain = Some ct -> aead_decrypt nonce aad ct = Some plain;
}.

Definition NONCE_LEN : nat := 24.

Inductive VaultError := VaultSeal | VaultTampered.
#[export] Instance vault_error_display : Display VaultError := fun e =>
  match e with
  | VaultSeal => "encryption failed"
  | VaultTampered => "ciphertext rejected (wrong key, wrong fleet, or tampered)"
  end.

(** [Vault::seal] with the random nonce it drew, and [Vault::open]. *)
Definition seal `{Aead} (nonce aad plain : string) : result VaultError string :=
  match aead_encrypt nonce aad plain with
  | Some ct => Ok (nonce +:+ ct)
  | None => Err VaultSeal
  end.

Definition open_ `{Aead} (aad blob : string) : result VaultError string :=
  if String.length blob <? NONCE_LEN then Err VaultTampered
  else
    let nonce := String.substring 0 NONCE_LEN blob in
    let ct := String.substring NONCE_LEN (String.length blob - NONCE_LEN) blob in
    match aead_decrypt nonce aad ct with
    | Some plain => Ok plain
    | None => Err VaultTampered
    end.

(** ** The store *)

Inductive KvError :=
| KvKey (reason : string)
| KvConflict (key : string)
| KvStorage (path : list string) (message : string).

Definition PLAIN : ascii := "p".
Definition SEALED : ascii := "s".

Definition errno_str (e : Errno) : string :=
  match e with
  | NotFound => "entity not found"
  | IsADirectory => "is a directory"
  | NotADirectory => "not a directory"
  | AlreadyExists => "entity already exists"
  | DirectoryNotEmpty => "directory not empty"
  end.

Definition collides (e : Errno) : bool :=
  match e with IsADirectory | NotADirectory => true | _ => false end.

Definition absent (e : Errno) : bool := bool_decide (e = NotFound) || collides e.

(** Some proper prefix of the key is a value. *)
Definition under_value (p : list string) (m : dir) : bool :=
  existsb (fun i => is_file (take i p) m) (seq 1 (length p - 1)).

Definition put_collides (p : list string) (m : dir) (e : Errno) : bool :=
  collides e || (bool_decide (e = AlreadyExists) && under_value p m).

Definition is_temp (file_name : string) : bool :=
  starts_with file_name "." && contains file_name ".tmp~".

Section kv.
Context `{Unicode} `{Aead} (name : AgentName).

Definition path (key : string) : result KvError (list string) :=
  _ ← map_err KvKey (check_kv_key key); Ok (split_char "/"%char key).

Definition aad (key : string) : string := to_string name +:+ "/" +:+ key.

(** The stored bytes, back to the value. *)
Definition decode (p : list string) (key raw : string) : result KvError string :=
  match raw with
  | String c rest =>
      if Ascii.eqb c PLAIN then Ok rest
      else if Ascii.eqb c SEALED then
        map_err (fun e => KvStorage p (to_string e)) (open_ (aad key) rest)
      else Err (KvStorage p "unknown entry format")
  | EmptyString => Err (KvStorage p "unknown entry format")
  end.

Definition kv_get (key : string) (m : dir) : result KvError (option string) :=
  p ← path key;
  match fs_read p m with
  | Err e => if absent e then Ok None else Err (KvStorage p (errno_str e))
  | Ok raw => bytes ← decode p key raw; Ok (Some bytes)
  end.

(** The bytes [put] writes. *)
Definition entry_bytes (p : list string) (nonce key bytes : string) (secret : bool) : result KvError string :=
  if secret then
    sealed ← map_err (fun e => KvStorage p (to_string e)) (seal nonce (aad key) bytes);
    Ok (String SEALED sealed)
  else Ok (String PLAIN bytes).

(** The write, healed once when an empty directory is in its place. *)
Definition put_write (p : list string) (out : string) (m : dir) : result Errno unit * dir :=
  match write_private p out m with
  | (Err IsADirectory, m) =>
      match remove_dir p m with
      | Ok m => write_private p out m
      | Err _ => (Err IsADirectory, m)
      end
  | r => r
  end.

Definition kv_put (nonce key bytes : string) (secret : bool) (m : dir) : result KvError unit * dir :=
  match (p ← path key; out ← entry_bytes p nonce key bytes secret; Ok (p, out)) with
  | Err e => (Err e, m)
  | Ok (p, out) =>
      let '(r, m) := put_write p out m in
      (map_err (fun e => if put_collides p m e then KvConflict key else KvStorage p (errno_str e)) r, m)
  end.

(** [prune]: the directories above the key, deepest first, while empty. *)
Fixpoint prune (n : nat) (p : list string) (m : dir) : dir :=
  match n with
  | 0 => m
  | S n' =>
      match remove_dir (take n p) m with
      | Ok m => prune n' p m
      | Err _ => m
      end
  end.

Definition kv_delete (key : string) (m : dir) : result KvError bool * dir :=
  match path key with
  | Err e => (Err e, m)
  | Ok p =>
      match remove_file p m with
      | Ok m => (Ok true, prune (length p - 1) p m)
      | Err e => (if absent e then Ok false else Err (KvStorage p (errno_str e)), m)
      end
  end.

(** [walk], in the order of the directory's iteration. *)
Fixpoint walk (rel : list string) (n : node) : list (list string) :=
  match n with
  | File _ => [rel]
  | Dir m => map_fold (fun s n out => if is_temp s then out else walk (rel ++ [s]) n ++ out) [] m
  end.

Definition kv_list (prefix : string) (m : dir) : list string :=
  merge_sort kle (filter (fun k => starts_with k prefix = true) (join "/" <$> walk [] (Dir m))).
End kv.

(** ** Deleting and pruning *)

Lemma remove_dir_cons s p m m0 : p <> [] ->
  remove_dir (s :: p) (<[s := Dir m0]> m) = (m' ← remove_dir p m0; Ok (<[s := Dir m']> m)).
Proof.
  intros Hp. destruct p as [|t p]; [done|].
  transitivity (m' ← remove_dir (t :: p) m0; Ok (<[s := Dir m']> (<[s := Dir m0]> m))).
  - by simpl; rewrite lookup_insert_eq.
  - destruct (remove_dir (t :: p) m0) as [m1|e]; [|done]. cbn [mbind result_bind].
    by rewrite insert_insert_eq.
Qed.

Lemma remove_file_cons s p m : p <> [] ->
  remove_file (s :: p) m =
    match m !! s with
    | Some (Dir m0) => m' ← remove_file p m0; Ok (<[s := Dir m']> m)
    | Some (File _) => Err NotADirectory
    | None => Err NotFound
    end.
Proof. intros Hp. destruct p as [|t p]; [done|]. by destruct (m !! s) as [[]|] eqn:Hs; simpl; rewrite Hs. Qed.

Lemma prune_S n p m :
  prune (S n) p m = match remove_dir (take (S n) p) m with Ok m => prune n p m | Err _ => m end.
Proof. done. Qed.

(** Pruning below a segment, then the segment's directory. *)
Lemma prune_under n s p m m0 :
  n <= length p -> (exists d, at_path (take n p) m0 = Some (Dir d)) ->
  prune (S n) (s :: p) (<[s := Dir m0]> m) =
    let y := prune n p m0 in if decide (y = ∅) then delete s m else <[s := Dir y]> m.
Proof.
  revert m0. induction n as [|n IH]; intros m0 Hn [d Hd].
  - simpl. rewrite lookup_insert_eq. case_decide; [|done]. by rewrite delete_insert_eq.
  - destruct p as [|t p]; [simpl in Hn; lia|].
    rewrite (prune_S (S n)), (prune_S n). change (take (S (S n)) (s :: t :: p)) with (s :: take (S n) (t :: p)).
    rewrite remove_dir_cons by done.
    destruct (remove_dir (take (S n) (t :: p)) m0) as [m1|e] eqn:Hr; cbn [mbind result_bind].
    + apply IH; [simpl in *; lia|].
      destruct (lookup_lt_is_Some_2 (t :: p) n Hn) as [x Hx].
      rewrite (take_S_r _ _ _ Hx) in Hr. by eapply remove_dir_parent.
    + cbn zeta. rewrite decide_False; [done|]. intros ->. by simpl in Hd; rewrite lookup_empty in Hd.
Qed.

(** What [delete] does to a tree. *)
Lemma delete_tree p m : p <> [] ->
  match remove_file p m with
  | Ok m1 =>
      let m2 := prune (length p - 1) p m1 in
      (exists d, at_path (take (length p - 1) p) m1 = Some (Dir d)) /\
      (exists b, stored p m = Some b) /\
      (forall q, stored q m2 = if decide (q = p) then None else stored q m) /\
      (all_tidy m -> all_tidy m2)
  | Err e => stored p m = None /\ absent e = true
  end.
Proof.
  revert m. induction p as [|s p IH]; intros m Hp; [done|]. clear Hp.
  destruct (decide (p = [])) as [->|Hp].
  - cbn [remove_file]. rewrite stored_cons. destruct (m !! s) as [[b|m0]|] eqn:Hs; [|done..].
    simpl. split; [by eexists|]. split; [by eexists|]. split.
    + intros [|s' q]; [done|]. rewrite !stored_cons. destruct (decide (s' = s)) as [->|Hne].
      * rewrite lookup_delete_eq, Hs. by repeat case_decide; simplify_eq.
      * rewrite lookup_delete_ne, decide_False by congruence. done.
    + intros Hm t n. rewrite lookup_delete_Some. intros [_ ?]. by eapply Hm.
  - rewrite (remove_file_cons _ _ _ Hp), stored_cons.
    destruct (m !! s) as [[b|m0]|] eqn:Hs; [by rewrite decide_False|..|done].
    specialize (IH m0 Hp). destruct (remove_file p m0) as [m1|e]; cbn [mbind result_bind]; [|done].
    destruct IH as (Hd & Hb & Hq & Ht). cbn [length]. destruct (length p) as [|n] eqn:Hl; [by destruct p|].
    replace (S (S n) - 1) with (S n) by lia. replace (S n - 1) with n in * by lia.
    split_and!; [|done|..].
    + simpl take. rewrite at_path_cons, lookup_insert_eq. by destruct p.
    + rewrite prune_under by (done || lia). intros [|s' q]; [by rewrite !stored_nil, decide_False|].
      assert (stored (s' :: q) m = if decide (s' = s) then stored q m0 else stored (s' :: q) m) as Heq.
      { case_decide; [|done]. subst. by rewrite stored_cons, Hs. }
      rewrite Heq. clear Heq. cbn zeta. set (y := prune n p m1) in *.
      assert (stored (s' :: q) (if decide (y = ∅) then delete s m else <[s := Dir y]> m) =
        if decide (s' = s) then stored q y else stored (s' :: q) m) as ->.
      { rewrite stored_cons. destruct (decide (s' = s)) as [->|Hne]; destruct (decide (y = ∅)) as [Hy|Hy].
        - rewrite lookup_delete_eq, Hy. by rewrite stored_empty.
        - by rewrite lookup_insert_eq.
        - by rewrite lookup_delete_ne, stored_cons.
        - by rewrite lookup_insert_ne, stored_cons. }
      rewrite Hq. repeat case_decide; simplify_eq; done.
    + rewrite prune_under by (done || lia). cbn zeta. set (y := prune n p m1) in *. intros Hm.
      destruct (decide (y = ∅)).
      * intros t x. rewrite lookup_delete_Some. intros [_ ?]. by eapply Hm.
      * apply all_tidy_insert; [|done]. constructor; [done|]. apply Ht.
        apply Hm in Hs. by inversion Hs.
Qed.

(** ** Walking *)

Definition held (q : list string) (n : node) : Prop :=
  match n with File _ => q = [] | Dir m => is_Some (stored q m) end.

Definition real (s : string) : Prop := is_temp s = false.

Definition walks (n : node) : Prop := forall rel,
  NoDup (walk rel n) /\
  forall p, p ∈ walk rel n <-> exists q, p = rel ++ q /\ held q n /\ Forall real q.

Lemma stored_held s q m : is_Some (stored (s :: q) m) <-> exists n, m !! s = Some n /\ held q n.
Proof.
  rewrite stored_cons. destruct (m !! s) as [[b|m0]|]; simpl.
  - case_decide; naive_solver.
  - naive_solver.
  - split; [by intros [? ?]|naive_solver].
Qed.

Lemma walk_dir m : (forall s n, m !! s = Some n -> walks n) -> walks (Dir m).
Proof.
  intros Hm rel. cbn [walk held]. revert Hm.
  apply (map_fold_weak_ind (fun out m => (forall s n, m !! s = Some n -> walks n) ->
    NoDup out /\
    forall p, p ∈ out <-> exists q, p = rel ++ q /\ is_Some (stored q m) /\ Forall real q)).
  { intros _. split; [constructor|]. intros p. rewrite elem_of_nil. split; [done|].
    intros (q & _ & [b Hb] & _). by rewrite stored_empty in Hb. }
  intros s n m0 out Hs IH Hm.
  assert (forall t x, m0 !! t = Some x -> walks x) as Hm0.
  { intros t x Ht. apply (Hm t). rewrite lookup_insert_ne; [done|congruence]. }
  destruct (IH Hm0) as [Hnd Hel]. clear IH.
  assert (forall q, is_Some (stored q (<[s := n]> m0)) <->
    (exists q', q = s :: q' /\ held q' n) \/ is_Some (stored q m0)) as Hst.
  { intros [|t q]; [rewrite !stored_nil; naive_solver|]. rewrite !stored_held.
    destruct (decide (t = s)) as [->|Hne].
    - rewrite lookup_insert_eq, Hs. naive_solver.
    - rewrite lookup_insert_ne by done. naive_solver. }
  destruct (is_temp s) eqn:Ht.
  - split; [done|]. intros p. rewrite Hel. setoid_rewrite Hst. split; [naive_solver|].
    intros (q & -> & [(q' & -> & _)|Hq] & Hr); [|by exists q].
    apply Forall_cons in Hr as [Hr _]. unfold real in Hr. congruence.
  - destruct (Hm s n (lookup_insert_eq _ _ _) (rel ++ [s])) as [Hnd' Hel'].
    setoid_rewrite <- app_assoc in Hel'. split.
    + apply NoDup_app. split; [done|]. split; [|done]. intros p. rewrite Hel', Hel.
      intros (q & -> & _) (q' & Heq & Hq' & _). apply app_inv_head in Heq. subst q'.
      apply stored_held in Hq' as (x & Hx & _). congruence.
    + intros p. rewrite elem_of_app, Hel', Hel. setoid_rewrite Hst. split.
      * intros [(q & -> & Hq & Hr)|(q & -> & Hq & Hr)]; [|by exists q; auto].
        exists (s :: q). split; [done|]. split; [left; eauto|]. by constructor.
      * intros (q & -> & [(q' & -> & Hq')|Hq] & Hr); [left|right; by exists q].
        exists q'. by apply Forall_cons in Hr as [_ ?].
Qed.

Lemma walk_all m : all_tidy m -> walks (Dir m).
Proof.
  intros Hm. apply walk_dir. intros s n Hs%Hm. induction Hs as [b|m' _ _ IH]; [|by apply walk_dir].
  intros rel. simpl. split; [apply NoDup_singleton|]. intros p. rewrite list_elem_of_singleton.
  split; [intros ->; exists []; by rewrite app_nil_r|]. intros (q & -> & -> & _). apply app_nil_r.
Qed.

(** ** The map the store implements *)

Definition segs (key : string) : list string := split_char "/"%char key.

(** [k] names a directory of [k']'s path. *)
Definition over (k k' : string) : bool :=
  bool_decide (segs k `prefix_of` segs k') && negb (bool_decide (segs k = segs k')).

Definition clashes (key : string) (A : gmap string string) : bool :=
  existsb (fun k => over k key || over key k) (keys A).

Inductive KvOp :=
| KvGet (key : string)
| KvPut (nonce key bytes : string) (secret : bool)
| KvDelete (key : string)
| KvList (prefix : string).

Inductive KvAnswer :=
| KvValue (r : result KvError (option string))
| KvDone (r : result KvError unit)
| KvDeleted (r : result KvError bool)
| KvKeys (ks : list string).

(** The nonce is a [[u8; NONCE_LEN]]. *)
Definition nonce_ok (op : KvOp) : Prop :=
  match op with KvPut nonce _ _ _ => String.length nonce = NONCE_LEN | _ => True end.

Section spec.
Context `{Unicode} `{Aead} (name : AgentName).

(** The store's calls on the tree, and what each does to the map: a key is
    refused as the grammar says, a put of a key over or under another one is a
    conflict, and nothing else fails but the vault. *)
Definition kv_step (op : KvOp) (m : dir) : KvAnswer * dir :=
  match op with
  | KvGet key => (KvValue (kv_get name key m), m)
  | KvPut nonce key bytes secret =>
      let '(r, m) := kv_put name nonce key bytes secret m in (KvDone r, m)
  | KvDelete key => let '(r, m) := kv_delete key m in (KvDeleted r, m)
  | KvList prefix => (KvKeys (kv_list prefix m), m)
  end.

Definition map_step (op : KvOp) (A : gmap string string) : KvAnswer * gmap string string :=
  match op with
  | KvGet key => (KvValue (_ ← map_err KvKey (check_kv_key key); Ok (A !! key)), A)
  | KvPut nonce key bytes secret =>
      match (_ ← map_err KvKey (check_kv_key key); entry_bytes name (segs key) nonce key bytes secret) with
      | Err e => (KvDone (Err e), A)
      | Ok _ =>
          if clashes key A then (KvDone (Err (KvConflict key)), A)
          else (KvDone (Ok tt), <[key := bytes]> A)
      end
  | KvDelete key =>
      match map_err KvKey (check_kv_key key) with
      | Err e => (KvDeleted (Err e), A)
      | Ok _ => (KvDeleted (Ok (bool_decide (is_Some (A !! key)))), delete key A)
      end
  | KvList prefix => (KvKeys (elems (filter (fun k => starts_with k prefix = true) (dom A))), A)
  end.

Fixpoint run_ops {S} (step : KvOp -> S -> KvAnswer * S) (ops : list KvOp) (st : S) : list KvAnswer :=
  match ops with
  | [] => []
  | op :: ops => let '(a, st) := step op st in a :: run_ops step ops st
  end.

(** The tree that holds a map. *)
Record holds (A : gmap string string) (m : dir) : Prop := {
  holds_tidy : all_tidy m;
  holds_keys p : is_Some (stored p m) -> exists k, p = segs k /\ is_Some (A !! k);
  holds_values k v : A !! k = Some v ->
    check_kv_key k = Ok tt /\ exists raw, stored (segs k) m = Some raw /\ decode name (segs k) k raw = Ok v;
}.
End spec.

(** ** The store against the map *)

Lemma is_file_stored p m : is_file p m = true <-> is_Some (stored p m).
Proof. unfold is_file, stored. destruct (fs_read p m); simpl; naive_solver. Qed.

Lemma under_value_above q p b m : above q p -> stored q m = Some b -> under_value p m = true.
Proof.
  intros (s & x & -> & Hq) Hb. apply existsb_exists. exists (length q). split.
  - apply in_seq. rewrite length_app. simpl. destruct q; simpl in *; [done|lia].
  - apply is_file_stored. rewrite take_app_length. eauto.
Qed.

(** The write of [put], into a tree without empty directories. *)
Lemma put_write_spec p out m : p <> [] -> all_tidy m ->
  match put_write p out m with
  | (Ok _, m') => written p out m m'
  | (Err e, m') => m' = m /\ put_collides p m e = true /\
      exists q b, stored q m = Some b /\ (above q p \/ above p q)
  end.
Proof.
  intros Hp Hm. unfold put_write. pose proof (write_private_spec p out m Hp) as Hw.
  destruct (write_private p out m) as [[u|e] m']; [by apply Hw|]. destruct Hw as [-> Hob].
  destruct Hob as [[-> [m0 Hat]]|[He (q & b & Hq & Hb)]].
  - pose proof (at_path_tidy _ _ _ Hp Hm Hat) as Ht. inversion Ht as [|? Hne _]; subst.
    pose proof (remove_dir_full _ _ _ Hat Hne) as Hr. destruct (remove_dir p m); [done|].
    split; [done|]. split; [done|]. destruct (tidy_file_below _ Ht) as (q & b & Hq).
    exists (p ++ q), b. rewrite (stored_below _ _ _ _ Hat). split; [done|]. right.
    destruct q as [|s q]; [done|]. by exists s, q.
  - destruct He as [-> | ->]; (split; [done|]); (split; [|by exists q, b; auto]); unfold put_collides; simpl.
    + by eapply under_value_above.
    + done.
Qed.

Lemma written_clear p out m m' q b : written p out m m' -> stored q m = Some b -> ~ (above q p \/ above p q).
Proof.
  intros (_ & Hab & Hat & _) Hq [Ha|(s & x & -> & _)].
  - rewrite Hab in Hq by done. done.
  - apply stored_below_dir in Hq as [m0 Hm0]. by eapply Hat.
Qed.

Lemma segs_nonempty k : segs k <> [].
Proof. apply split_char_nonempty. Qed.

#[export] Instance segs_inj : Inj (=) (=) segs.
Proof. intros a b Hab. rewrite <- (join_split_char "/" a), <- (join_split_char "/" b). by f_equal. Qed.

Lemma over_above k k' : over k k' = true <-> above (segs k) (segs k').
Proof.
  unfold over, above. rewrite andb_true_iff, negb_true_iff, bool_decide_eq_true, bool_decide_eq_false.
  split.
  - intros [[l ->] Hne]. destruct l as [|s l]; [by rewrite app_nil_r in Hne|]. exists s, l.
    split; [done|apply segs_nonempty].
  - intros (s & x & -> & _). split; [by eexists|]. intros Heq%(f_equal length).
    rewrite length_app in Heq. simpl in Heq. lia.
Qed.

Lemma clashes_spec key (A : gmap string string) :
  clashes key A = true <-> exists k, is_Some (A !! k) /\ (above (segs k) (segs key) \/ above (segs key) (segs k)).
Proof.
  unfold clashes. rewrite existsb_exists. setoid_rewrite <- list_elem_of_In.
  setoid_rewrite elem_of_keys. setoid_rewrite orb_true_iff. by setoid_rewrite over_above.
Qed.

Lemma pieces_bytes (f : ascii -> bool) c s : bytes_all f s = true -> Forall (fun x => bytes_all f x = true) (split_char c s).
Proof.
  induction s as [|a s IH]; simpl; [by repeat constructor|].
  intros [Ha Hs]%andb_true_iff. specialize (IH Hs). destruct (Ascii.eqb a c); [by constructor|].
  destruct (split_char c s) as [|h t]; [by repeat constructor; simpl; rewrite Ha|].
  apply Forall_cons in IH as [Hh Ht]. constructor; [|done]. simpl. by rewrite Ha.
Qed.

Lemma valid_real `{Unicode} key : check_kv_key key = Ok tt -> Forall real (segs key).
Proof.
  intros (_ & Hb & _)%check_kv_key_spec. eapply Forall_impl; [by apply pieces_bytes|].
  intros s Hs. unfold real, is_temp. apply andb_false_iff. right.
  apply not_true_iff_false. intros (a & b & ->)%contains_spec.
  rewrite !bytes_all_app in Hs. apply andb_true_iff in Hs as [_ [Hs _]%andb_true_iff]. done.
Qed.

Lemma substring_app_l a b : String.substring 0 (String.length a) (a +:+ b) = a.
Proof. induction a as [|c a IH]; simpl; [by destruct b|]. by rewrite IH. Qed.

Lemma substring_all b : String.substring 0 (String.length b) b = b.
Proof. rewrite <- (app_nil_r_string b) at 2. apply substring_app_l. Qed.

Lemma substring_app_r a b : String.substring (String.length a) (String.length b) (a +:+ b) = b.
Proof. induction a as [|c a IH]; simpl; [apply substring_all|done]. Qed.

(** The vault opens what it sealed. *)
Lemma open_seal `{LawfulAead} nonce aad plain blob :
  String.length nonce = NONCE_LEN -> seal nonce aad plain = Ok blob -> open_ aad blob = Ok plain.
Proof.
  unfold seal, open_. intros Hn. destruct (aead_encrypt nonce aad plain) as [ct|] eqn:He; [|done].
  intros [= <-]. rewrite length_app_string, Hn.
  destruct (Nat.ltb_spec (NONCE_LEN + String.length ct) NONCE_LEN); [lia|].
  rewrite <- Hn, substring_app_l, Nat.add_comm, Nat.add_sub, substring_app_r.
  by rewrite (law_decrypt _ _ _ _ He).
Qed.

Section holds.
Context `{Unicode} `{LawfulAead} (name : AgentName).
Implicit Types (A : gmap string string) (m : dir).

Lemma decode_entry p nonce key bytes secret out :
  String.length nonce = NONCE_LEN -> entry_bytes name p nonce key bytes secret = Ok out ->
  decode name p key out = Ok bytes.
Proof.
  intros Hn. unfold entry_bytes. destruct secret; [|by intros [= <-]].
  intros (blob & Hs & [= <-])%bind_Ok. apply map_err_Ok in Hs. simpl.
  by rewrite (open_seal _ _ _ _ Hn Hs).
Qed.

Lemma holds_empty : holds name ∅ ∅.
Proof.
  split.
  - intros s n. by rewrite lookup_empty.
  - intros p [b Hb]. by rewrite stored_empty in Hb.
  - intros k v. by rewrite lookup_empty.
Qed.

Lemma holds_stored A m k : holds name A m -> is_Some (stored (segs k) m) <-> is_Some (A !! k).
Proof.
  intros Hh. split.
  - intros (k' & Heq & Hk)%(holds_keys _ _ _ Hh). apply (inj segs) in Heq. by subst.
  - intros [v (_ & raw & Hr & _)%(holds_values _ _ _ Hh)]. eauto.
Qed.

Lemma fs_read_absent p m e : fs_read p m = Err e -> absent e = true.
Proof.
  revert m. induction p as [|s p IH]; intros m; simpl; [by intros [= <-]|].
  destruct (m !! s) as [[b|m0]|]; [destruct p; [done|by intros [= <-]]|apply IH|by intros [= <-]].
Qed.

Lemma get_step A m key : holds name A m ->
  kv_get name key m = (_ ← map_err KvKey (check_kv_key key); Ok (A !! key)).
Proof.
  intros Hh. unfold kv_get, path. destruct (check_kv_key key) as [[]|e] eqn:Hk; [|done].
  cbn [map_err mbind result_bind]. fold (segs key).
  pose proof (holds_stored A m key Hh) as Hst. unfold stored in Hst.
  destruct (fs_read (segs key) m) as [raw|e] eqn:Hr; simpl in Hst.
  - destruct (proj1 Hst ltac:(eauto)) as [v Hv].
    destruct (holds_values _ _ _ Hh _ _ Hv) as (_ & raw' & Hraw & Hd).
    unfold stored in Hraw. rewrite Hr in Hraw. injection Hraw as <-. by rewrite Hd, Hv.
  - rewrite (fs_read_absent _ _ _ Hr). destruct (A !! key) eqn:Hv; [|done].
    destruct (proj2 Hst ltac:(eauto)); done.
Qed.

Lemma put_step A m nonce key bytes secret :
  holds name A m -> String.length nonce = NONCE_LEN ->
  let '(a, m') := kv_step name (KvPut nonce key bytes secret) m in
  let '(a', A') := map_step name (KvPut nonce key bytes secret) A in
  a = a' /\ holds name A' m'.
Proof.
  intros Hh Hn. cbn [kv_step map_step]. unfold kv_put, path.
  destruct (check_kv_key key) as [[]|e] eqn:Hk; [|done].
  cbn [map_err mbind result_bind]. fold (segs key).
  destruct (entry_bytes name (segs key) nonce key bytes secret) as [out|e] eqn:He; [|done].
  cbn [mbind result_bind].
  pose proof (put_write_spec (segs key) out m (segs_nonempty key) (holds_tidy _ _ _ Hh)) as Hw.
  destruct (put_write (segs key) out m) as [[[]|e] m']; simpl.
  - destruct (clashes key A) eqn:Hc.
    + exfalso. apply clashes_spec in Hc as (k & Hk' & Hab). apply (holds_stored _ _ _ Hh) in Hk' as [b Hb].
      eapply written_clear; eauto.
    + split; [done|]. destruct Hw as (Hst & _ & _ & Ht). split.
      * apply Ht, (holds_tidy _ _ _ Hh).
      * intros p. rewrite Hst. case_decide as Hp.
        -- intros _. exists key. by rewrite lookup_insert_eq.
        -- intros (k & -> & Hv)%(holds_keys _ _ _ Hh). exists k. split; [done|].
           rewrite lookup_insert_ne; [done|congruence].
      * intros k v. destruct (decide (k = key)) as [->|Hne].
        -- rewrite lookup_insert_eq. intros [= <-]. split; [done|]. exists out. rewrite Hst, decide_True by done.
           split; [done|]. by eapply decode_entry.
        -- rewrite lookup_insert_ne by done. intros Hv. rewrite Hst, decide_False by (by intros ?%(inj segs)).
           by apply (holds_values _ _ _ Hh).
  - destruct Hw as (-> & -> & q & b & Hq & Hab). assert (clashes key A = true) as ->; [|done].
    apply clashes_spec. destruct (holds_keys _ _ _ Hh q ltac:(eauto)) as (k & -> & Hv). eauto.
Qed.

Lemma delete_step A m key : holds name A m ->
  let '(a, m') := kv_step name (KvDelete key) m in
  let '(a', A') := map_step name (KvDelete key) A in
  a = a' /\ holds name A' m'.
Proof.
  intros Hh. cbn [kv_step map_step]. unfold kv_delete, path.
  destruct (check_kv_key key) as [[]|e] eqn:Hk; [|done]. cbn [map_err mbind result_bind]. fold (segs key).
  pose proof (delete_tree (segs key) m (segs_nonempty key)) as Hd.
  pose proof (holds_stored A m key Hh) as Hv.
  destruct (remove_file (segs key) m) as [m1|e].
  - destruct Hd as (_ & Hb & Hst & Ht). split; [by rewrite bool_decide_true by tauto|]. split.
    + apply Ht, (holds_tidy _ _ _ Hh).
    + intros p. rewrite Hst. case_decide as Hp; [by intros [? ?]|].
      intros (k & -> & Hk')%(holds_keys _ _ _ Hh). exists k. split; [done|].
      rewrite lookup_delete_ne; [done|congruence].
    + intros k v. rewrite lookup_delete_Some. intros [Hne Hk'].
      rewrite Hst, decide_False by (by intros ?%(inj segs)). by apply (holds_values _ _ _ Hh).
  - destruct Hd as [Hd ->]. assert (A !! key = None) as HA.
    { apply eq_None_not_Some. rewrite <- Hv, Hd. by intros [? ?]. }
    rewrite delete_id by done. rewrite bool_decide_false; [done|]. rewrite HA. by intros [? ?].
Qed.

Lemma list_step A m prefix : holds name A m ->
  kv_list prefix m = elems (filter (fun k => starts_with k prefix = true) (dom A)).
Proof.
  intros Hh. unfold kv_list. destruct (walk_all m (holds_tidy _ _ _ Hh) []) as [Hnd Hel].
  assert (forall p, p ∈ walk [] (Dir m) <-> exists k, p = segs k /\ is_Some (A !! k)) as Hw.
  { intros p. rewrite Hel. simpl. split.
    - intros (q & -> & Hq & _). by apply (holds_keys _ _ _ Hh).
    - intros (k & -> & Hk). exists (segs k). split; [done|]. split; [by apply (holds_stored _ _ _ Hh)|].
      destruct Hk as [v Hk]. by apply (holds_values _ _ _ Hh) in Hk as [?%valid_real _]. }
  apply sorted_keys_unique; [apply StronglySorted_merge_sort; apply _|apply elems_sorted|].
  rewrite merge_sort_Permutation. apply NoDup_Permutation; [|apply elems_NoDup|].
  - apply NoDup_filter. apply NoDup_fmap_2_strong; [|done].
    intros p q (k & -> & _)%Hw (k' & -> & _)%Hw. unfold segs. rewrite !join_split_char. by intros ->.
  - intros k. rewrite list_elem_of_filter, elem_of_elems, elem_of_filter, elem_of_dom, list_elem_of_fmap.
    split.
    + intros [? (p & -> & (k' & -> & Hk)%Hw)]. unfold segs in *. by rewrite join_split_char in *.
    + intros [? Hk]. split; [done|]. exists (segs k). split; [symmetry; apply join_split_char|]. apply Hw. eauto.
Qed.

Lemma op_step A m op : holds name A m -> nonce_ok op ->
  let '(a, m') := kv_step name op m in
  let '(a', A') := map_step name op A in
  a = a' /\ holds name A' m'.
Proof.
  intros Hh Hop. destruct op; [|by apply put_step|by apply delete_step|].
  - cbn [kv_step map_step]. by rewrite (get_step A).
  - cbn [kv_step map_step]. by rewrite (list_step A).
Qed.

Lemma run_holds A m ops : holds name A m -> Forall nonce_ok ops ->
  run_ops (kv_step name) ops m = run_ops (map_step name) ops A.
Proof.
  intros Hh Hops. revert A m Hh. induction Hops as [|op ops Hop _ IH]; intros A m Hh; [done|]. simpl.
  pose proof (op_step A m op Hh Hop) as Hs.
  destruct (kv_step name op m) as [a m'], (map_step name op A) as [a' A'].
  destruct Hs as [-> Hh']. f_equal. by apply IH.
Qed.
End holds.

(** C36: The key/value store of a plugin is a finite map: over any sequence of
    gets, puts, deletes and lists from an empty directory, the files on disk
    give exactly the answers of a map from keys to values. A put of a key that
    is a path segment of another one, or has one as its segment, answers a
    conflict and changes nothing; a delete leaves no empty directory that would
    make a later put a conflict; sealed values come back as they were put; and
    a list names each key with the prefix once, in order. *)
Theorem kv_refines `{Unicode} `{LawfulAead} name ops :
  Forall nonce_ok ops ->
  run_ops (kv_step name) ops ∅ = run_ops (map_step name) ops ∅.
Proof.
  intros Hops. by apply run_holds; [apply holds_empty|].
Qed.

(** An AEAD that only binds the associated data, and a key that takes the
    place of a directory another key's delete emptied. *)
#[local] Instance kv_tables : Unicode := fun _ => false.
#[local] Instance tag_aead : Aead := {|
  aead_encrypt _ aad plain := Some (aad +:+ plain);
  aead_decrypt _ aad ct := strip_prefix aad ct;
|}.
#[local] Instance tag_aead_lawful : LawfulAead.
Proof. split. intros nonce aad plain ct [= <-]. apply strip_prefix_app. Qed.

Definition sample_nonce : string := "0123456789abcdef01234567".

Definition sample_ops : list KvOp :=
  [KvPut sample_nonce "a/b" "token" true; KvPut sample_nonce "a" "1" false; KvGet "a/b"; KvList "a";
   KvDelete "a/b"; KvPut sample_nonce "a" "2" false; KvGet "a"; KvList ""].

Lemma kv_refines_witness :
  let name := @mkName KAgent "web" eq_refl in
  run_ops (kv_step name) sample_ops ∅ = run_ops (map_step name) sample_ops ∅ /\
  run_ops (kv_step name) sample_ops ∅ =
    [KvDone (Ok tt); KvDone (Err (KvConflict "a")); KvValue (Ok (Some "token")); KvKeys ["a/b"];
     KvDeleted (Ok true); KvDone (Ok tt); KvValue (Ok (Some "2")); KvKeys ["a"]].
Proof. split; [apply kv_refines; by repeat constructor|vm_compute; reflexivity]. Defined.
