(* ===== verification/Sessions.v ===== *)
(** Browser sessions ([crates/balerix-server/src/sessions.rs]) and the
    comparison they use ([auth.rs]): one-time login codes, the sessions they
    are exchanged for, where a login may send the browser, and which requests
    count as the daemon's own origin.

    An [Instant] is a number of nanoseconds; [random_hex] is the caller's: each
    operation that mints something takes what the generator answered. *)

From S2P Require Import Prelude Str.

(** ** [auth.rs] *)

(** [constant_time_eq]: the lengths, then the or of every byte's xor. *)
Fixpoint xor_acc (acc : N) (a b : string) : N :=
  match a, b with
  | String x a, String y b => xor_acc (N.lor acc (N.lxor (N_of_ascii x) (N_of_ascii y))) a b
  | _, _ => acc
  end.

Definition constant_time_eq (a b : string) : bool :=
  if negb (String.length a =? String.length b) then false else (xor_acc 0 a b =? 0)%N.

(** [bearer], of the [Authorization] header's text. *)
Definition bearer (authorization : option string) : option string :=
  v ← authorization;
  '(scheme, rest) ← split_once " "%char (trim v);
  if negb (eq_ignore_ascii_case scheme "bearer") then None
  else let tok := trim rest in if is_empty tok then None else Some tok.

(** ** The state *)

Definition CODE_TTL : N := secs 60.
Definition SESSION_TTL : N := secs (12 * 60 * 60).
Definition TOMBSTONE_TTL : N := secs (10 * 60).

Inductive CodeRejected :=
| CodeUnknown
| CodeUsed (ago : N)
| CodeExpired (ago : N).

Inductive Fate := FateUsed | FateExpired.

Record Inner := mkInner {
  codes : gmap string N;
  dead : gmap string (N * Fate);
  sessions : gmap string (string * N);
}.

Record NewSession := { ns_id : string; ns_scope : string }.

Definition new_sessions : Inner := mkInner ∅ ∅ ∅.

(** [prune]: lapsed codes become tombstones, old tombstones and sessions go. *)
Definition prune (now : N) (i : Inner) : Inner :=
  let lapsed := filter (fun kv => (kv.2 <= now)%N) (codes i) in
  let dead := ((fun expiry => (expiry, FateExpired)) <$> lapsed) ∪ dead i in
  mkInner (filter (fun kv => (now < kv.2)%N) (codes i))
    (filter (fun kv => (now < kv.2.1 + TOMBSTONE_TTL)%N) dead)
    (filter (fun kv => (now < kv.2.2)%N) (sessions i)).

(** [find]: every entry compared in constant time. *)
Definition find {V} (m : gmap string V) (code : string) : option (string * V) :=
  snd <$> list_find (fun kv => constant_time_eq kv.1 code = true) (map_to_list m).

(** [issue_code_at], of the code [random_hex] answered. *)
Definition issue_code (code : string) (now : N) (i : Inner) : Inner :=
  let i := prune now i in
  mkInner (<[code := (now + CODE_TTL)%N]> (codes i)) (dead i) (sessions i).

(** [redeem_at], of the id and the scope [random_hex] answered. *)
Definition redeem (code id scope : string) (now : N) (i : Inner)
    : result CodeRejected NewSession * Inner :=
  let i := prune now i in
  match find (codes i) code with
  | None =>
      (Err match find (dead i) code with
           | Some (_, (at_, FateUsed)) => CodeUsed (now - at_)
           | Some (_, (at_, FateExpired)) => CodeExpired (now - at_)
           | None => CodeUnknown
           end, i)
  | Some (key, _) =>
      (Ok {| ns_id := id; ns_scope := scope |},
       mkInner (delete key (codes i)) (<[key := (now, FateUsed)]> (dead i))
         (<[id := (scope, (now + SESSION_TTL)%N)]> (sessions i)))
  end.

(** [is_valid_for_at]. *)
Definition is_valid_for (id scope : string) (now : N) (i : Inner) : bool * Inner :=
  let i := prune now i in
  (match find (sessions i) id with
   | Some (_, (s, _)) => constant_time_eq s scope
   | None => false
   end, i).

(** [is_live]. *)
Definition is_live (id : string) (now : N) (i : Inner) : bool * Inner :=
  let i := prune now i in (bool_decide (is_Some (find (sessions i) id)), i).

(** ** Paths, cookies and origins *)

Definition COOKIE : string := "balerix_session".
Definition MOUNT_PREFIX : string := "/v1/plugins/".
Definition SCOPED_PREFIX : string := "/v1/s/".
Definition SCOPE_BYTES : nat := 16.

Definition scope_shape_ok (scope : string) : bool :=
  (String.length scope =? SCOPE_BYTES * 2) &&
  bytes_all (fun b => is_ascii_digit b || byte_in 97 102 b) scope.

Definition scoped_target (scope to : string) : string :=
  let below := default to (strip_prefix "/v1/" to) in
  SCOPED_PREFIX +:+ scope +:+ "/" +:+ below.

Definition scope_path (scope : string) : string := SCOPED_PREFIX +:+ scope +:+ "/".

(** [cookie_values], of the text of every [Cookie] header. *)
Definition cookie_values (headers : list string) (name : string) : list string :=
  omap (fun pair => '(k, v) ← split_once "="%char (trim pair);
                    if bool_decide (trim k = name) then Some (trim v) else None)
    (headers ≫= split_char ";"%char).

Definition cookie_value (headers : list string) (name : string) : option string :=
  head (cookie_values headers name).

Definition set_cookie (id scope : string) (secure : bool) : string :=
  COOKIE +:+ "=" +:+ id +:+ "; HttpOnly; SameSite=Strict; Path=" +:+ scope_path scope +:+
  (if secure then "; Secure" else EmptyString).

Definition safe_byte (b : ascii) : bool := is_ascii_alphanumeric b || byte_among "/._~-" b.

Definition login_target (to : option string) : option string :=
  let to := default MOUNT_PREFIX to in
  let charset_ok := bytes_all safe_byte to in
  let no_dot_segments :=
    forallb (fun s => negb (bool_decide (s = ".") || bool_decide (s = ".."))) (split_char "/"%char to) in
  match strip_prefix MOUNT_PREFIX to with
  | Some rest =>
      if charset_ok && no_dot_segments then
        let bare_root := negb (is_empty rest) && negb (contains rest "/") in
        Some (if bare_root then to +:+ "/" else to)
      else None
  | None => None
  end.

Inductive Method := GET | HEAD | OtherMethod.
#[export] Instance method_eq_dec : EqDecision Method.
Proof. solve_decision. Defined.

(** [str::split_once] of a text. *)
Fixpoint split_once_str (pat s : string) : option (string * string) :=
  match strip_prefix pat s with
  | Some rest => Some (EmptyString, rest)
  | None =>
      match s with
      | EmptyString => None
      | String a s' => prod_map (String a) id <$> split_once_str pat s'
      end
  end.

(** [same_origin], of the texts of [Sec-Fetch-Site] and [Origin]. *)
Definition same_origin (method : Method) (upgrade : bool) (sec_fetch_site origin_header : option string)
    (authority origin : option string) : bool :=
  match sec_fetch_site, origin_header with
  | Some site, _ => bool_decide (trim site = "same-origin") || bool_decide (trim site = "none")
  | None, None => (bool_decide (method = GET) || bool_decide (method = HEAD)) && negb upgrade
  | None, Some o =>
      let o := trim_end_byte "/"%char (trim o) in
      if bool_decide (origin = Some o) then true
      else match trim <$> authority, snd <$> split_once_str "://" o with
           | Some h, Some a => negb (is_empty a) && bool_decide (a = h)
           | _, _ => false
           end
  end.

(** ** What the sessions promise *)

(** Everything ever minted: when each code was printed and when it was
    redeemed, and when each session was opened and for which scope. *)
Record Ledger := mkLedger {
  printed : gmap string (N * option N);
  opened : gmap string (string * N);
}.

Inductive SessOp :=
| SIssue (code : string)
| SRedeem (code id scope : string)
| SValid (id scope : string)
| SLive (id : string).

Inductive SessAnswer :=
| SIssued
| SRedeemed (r : result CodeRejected NewSession)
| SIsValid (b : bool).

Definition sess_step (now : N) (op : SessOp) (i : Inner) : SessAnswer * Inner :=
  match op with
  | SIssue code => (SIssued, issue_code code now i)
  | SRedeem code id scope => let '(r, i) := redeem code id scope now i in (SRedeemed r, i)
  | SValid id scope => let '(b, i) := is_valid_for id scope now i in (SIsValid b, i)
  | SLive id => let '(b, i) := is_live id now i in (SIsValid b, i)
  end.

(** A code is exchanged once, before it lapses; a dead one is named for ten
    minutes after its death. A session is good for its own scope until it
    ends. *)
Definition ledger_step (now : N) (op : SessOp) (l : Ledger) : SessAnswer * Ledger :=
  match op with
  | SIssue code => (SIssued, mkLedger (<[code := (now, None)]> (printed l)) (opened l))
  | SRedeem code id scope =>
      match printed l !! code with
      | None => (SRedeemed (Err CodeUnknown), l)
      | Some (_, Some t1) =>
          (SRedeemed (Err (if decide (now < t1 + TOMBSTONE_TTL)%N then CodeUsed (now - t1) else CodeUnknown)), l)
      | Some (t0, None) =>
          let lapses := (t0 + CODE_TTL)%N in
          if decide (now < lapses)%N then
            (SRedeemed (Ok {| ns_id := id; ns_scope := scope |}),
             mkLedger (<[code := (t0, Some now)]> (printed l)) (<[id := (scope, now)]> (opened l)))
          else
            (SRedeemed (Err (if decide (now < lapses + TOMBSTONE_TTL)%N then CodeExpired (now - lapses)
                             else CodeUnknown)), l)
      end
  | SValid id scope =>
      (SIsValid match opened l !! id with
                | Some (s, t1) => bool_decide (s = scope) && bool_decide (now < t1 + SESSION_TTL)%N
                | None => false
                end, l)
  | SLive id =>
      (SIsValid match opened l !! id with
                | Some (_, t1) => bool_decide (now < t1 + SESSION_TTL)%N
                | None => false
                end, l)
  end.

Fixpoint run_sess {St} (step : N -> SessOp -> St -> SessAnswer * St) (ops : list (N * SessOp)) (st : St)
    : list SessAnswer :=
  match ops with
  | [] => []
  | (now, op) :: ops => let '(a, st) := step now op st in a :: run_sess step ops st
  end.

(** The generator never repeats itself. *)
Definition minted_code (op : SessOp) : option string :=
  match op with SIssue code => Some code | _ => None end.
Definition minted_id (op : SessOp) : option string :=
  match op with SRedeem _ id _ => Some id | _ => None end.

(** The state the daemon holds at [now] once pruned, from the ledger. *)
Definition held_code (now : N) (c : N * option N) : option N :=
  match c with
  | (t0, None) => if decide (now < t0 + CODE_TTL)%N then Some (t0 + CODE_TTL)%N else None
  | (_, Some _) => None
  end.

Definition held_dead (now : N) (c : N * option N) : option (N * Fate) :=
  match c with
  | (t0, None) =>
      let lapses := (t0 + CODE_TTL)%N in
      if decide (lapses <= now < lapses + TOMBSTONE_TTL)%N then Some (lapses, FateExpired) else None
  | (_, Some t1) => if decide (now < t1 + TOMBSTONE_TTL)%N then Some (t1, FateUsed) else None
  end.

Definition held_session (now : N) (s : string * N) : option (string * N) :=
  if decide (now < s.2 + SESSION_TTL)%N then Some (s.1, (s.2 + SESSION_TTL)%N) else None.

Definition held_at (now : N) (l : Ledger) : Inner :=
  mkInner (omap (held_code now) (printed l)) (omap (held_dead now) (printed l))
    (omap (held_session now) (opened l)).

(** ** Lemmas *)

Lemma xor_acc_zero acc a b : String.length a = String.length b ->
  (xor_acc acc a b = 0)%N <-> (acc = 0)%N /\ a = b.
Proof.
  revert acc b. induction a as [|x a IH]; intros acc [|y b] Hl; simpl in *; [tauto|done..|].
  rewrite IH by congruence. rewrite N.lor_eq_0_iff, N.lxor_eq_0_iff. split.
  - intros [[-> Hxy] ->]. split; [done|]. f_equal.
    rewrite <- (Ascii.ascii_N_embedding x), <- (Ascii.ascii_N_embedding y). by f_equal.
  - by intros [-> [= -> ->]].
Qed.

(** Comparing in constant time is comparing. *)
Lemma constant_time_eq_eq a b : constant_time_eq a b = bool_decide (a = b).
Proof.
  unfold constant_time_eq. destruct (Nat.eqb_spec (String.length a) (String.length b)) as [Hl|Hl]; simpl.
  - apply eq_true_iff_eq. rewrite N.eqb_eq, bool_decide_eq_true, xor_acc_zero by done. tauto.
  - symmetry. apply bool_decide_eq_false. congruence.
Qed.

Lemma find_lookup {V} (m : gmap string V) code : find m code = (fun v => (code, v)) <$> m !! code.
Proof.
  unfold find. destruct (list_find _ _) as [[n [k v]]|] eqn:Hf; simpl.
  - apply list_find_Some in Hf as (Hn & Hk & _). simpl in Hk.
    rewrite constant_time_eq_eq, bool_decide_eq_true in Hk. subst k.
    apply list_elem_of_lookup_2, elem_of_map_to_list in Hn. by rewrite Hn.
  - apply list_find_None in Hf. destruct (m !! code) as [v|] eqn:Hm; [|done].
    apply elem_of_map_to_list in Hm. rewrite Forall_forall in Hf. apply Hf in Hm. simpl in Hm.
    by rewrite constant_time_eq_eq, bool_decide_eq_true_2 in Hm.
Qed.

Lemma union_none_l {A} (x : option A) : None ∪ x = x.
Proof. by destruct x. Qed.

Lemma union_none_r {A} (x : option A) : x ∪ None = x.
Proof. by destruct x. Qed.

(** Splits every time comparison and keeps the possible orders. *)
Ltac by_times := repeat (case_decide; simpl in *); solve [done | lia].

(** Pruning what is held at one time gives what is held at a later one. *)
Lemma prune_held t now l : (t <= now)%N -> prune now (held_at t l) = held_at now l.
Proof.
  intros Ht. unfold prune, held_at. simpl. f_equal; apply map_eq; intros k.
  - rewrite map_lookup_filter, !lookup_omap. destruct (printed l !! k) as [[t0 [t1|]]|]; simpl; by_times.
  - rewrite map_lookup_filter, lookup_union, lookup_fmap, map_lookup_filter, !lookup_omap.
    destruct (printed l !! k) as [[t0 [t1|]]|]; simpl; [| |done].
    + rewrite union_none_l. by_times.
    + repeat (case_decide; simpl); rewrite ?union_none_l, ?union_none_r; simpl; by_times.
  - rewrite map_lookup_filter, !lookup_omap. destruct (opened l !! k) as [[s t1]|]; [|done].
    unfold held_session. simpl. by_times.
Qed.

Lemma omap_insert_held {A B} (f : A -> option B) (m : gmap string A) k x :
  omap f (<[k := x]> m) = match f x with Some y => <[k := y]> (omap f m) | None => delete k (omap f m) end.
Proof.
  apply map_eq. intros j. rewrite lookup_omap. destruct (decide (j = k)) as [->|Hne].
  - rewrite lookup_insert_eq. simpl. destruct (f x); [by rewrite lookup_insert_eq|by rewrite lookup_delete_eq].
  - rewrite lookup_insert_ne by done. destruct (f x).
    + by rewrite lookup_insert_ne, lookup_omap.
    + by rewrite lookup_delete_ne, lookup_omap.
Qed.

(** What the generator answered was never minted before. *)
Definition unseen (l : Ledger) (op : SessOp) : Prop :=
  (forall c, minted_code op = Some c -> printed l !! c = None) /\
  (forall id, minted_id op = Some id -> opened l !! id = None).

Lemma sess_step_held t now op l : (t <= now)%N -> unseen l op ->
  sess_step now op (held_at t l) =
    let '(a, l') := ledger_step now op l in (a, held_at now l').
Proof.
  intros Ht [Hc Hi]. destruct op as [code|code id scope|id scope|id]; cbn [sess_step ledger_step].
  - unfold issue_code. rewrite (prune_held _ _ _ Ht). specialize (Hc code eq_refl).
    unfold held_at at 4. simpl. rewrite !omap_insert_held. simpl. rewrite decide_True by (unfold CODE_TTL, secs; lia).
    rewrite decide_False by (unfold CODE_TTL, secs; lia). f_equal. unfold held_at. simpl. f_equal.
    rewrite delete_id; [done|]. by rewrite lookup_omap, Hc.
  - unfold redeem. rewrite (prune_held _ _ _ Ht), !find_lookup. specialize (Hi id eq_refl).
    unfold held_at at 1 2. simpl. rewrite !lookup_omap.
    destruct (printed l !! code) as [[t0 [t1|]]|] eqn:Hp; simpl; [by_times|..|done].
    destruct (decide (now < t0 + CODE_TTL)%N) as [Hl|Hl]; simpl.
    + f_equal. unfold held_at. simpl. rewrite !omap_insert_held. simpl.
      rewrite decide_True by (unfold TOMBSTONE_TTL, secs; lia). unfold held_session at 2. simpl.
      rewrite decide_True by (unfold SESSION_TTL, secs; lia). done.
    + f_equal. f_equal. f_equal. by_times.
  - unfold is_valid_for. rewrite (prune_held _ _ _ Ht), find_lookup. unfold held_at at 1. simpl.
    rewrite lookup_omap. destruct (opened l !! id) as [[s t1]|]; simpl; [|done].
    unfold held_session. simpl. f_equal. f_equal. rewrite <- constant_time_eq_eq.
    destruct (decide _) as [Hl|Hl]; simpl.
    + by rewrite (bool_decide_eq_true_2 _ Hl), andb_true_r.
    + by rewrite (bool_decide_eq_false_2 _ Hl), andb_false_r.
  - unfold is_live. rewrite (prune_held _ _ _ Ht), find_lookup. unfold held_at at 1. simpl.
    rewrite lookup_omap. destruct (opened l !! id) as [[s t1]|]; simpl.
    + unfold held_session. simpl. f_equal. f_equal. by_times.
    + done.
Qed.

Lemma ledger_printed now op l c :
  printed l !! c = None -> minted_code op <> Some c -> printed (ledger_step now op l).2 !! c = None.
Proof.
  intros Hc Hop. destruct op as [code|code id scope|id scope|id]; simpl in *.
  - rewrite lookup_insert_ne; [done|congruence].
  - destruct (printed l !! code) as [[t0 [t1|]]|] eqn:Hp; [done| |done]. case_decide; simpl; [|done].
    rewrite lookup_insert_ne; [done|congruence].
  - done.
  - done.
Qed.

Lemma ledger_opened now op l id :
  opened l !! id = None -> minted_id op <> Some id -> opened (ledger_step now op l).2 !! id = None.
Proof.
  intros Hi Hop. destruct op as [code|code id' scope|id' scope|id']; simpl in *; try done.
  destruct (printed l !! code) as [[t0 [t1|]]|]; [done| |done]. case_decide; simpl; [|done].
  rewrite lookup_insert_ne; [done|congruence].
Qed.

Lemma run_sess_held t l ops :
  StronglySorted N.le (t :: ops.*1) -> NoDup (omap minted_code ops.*2) -> NoDup (omap minted_id ops.*2) ->
  (forall c, c ∈ omap minted_code ops.*2 -> printed l !! c = None) ->
  (forall id, id ∈ omap minted_id ops.*2 -> opened l !! id = None) ->
  run_sess sess_step ops (held_at t l) = run_sess ledger_step ops l.
Proof.
  revert t l. induction ops as [|[now op] ops IH]; intros t l Ht Hc Hi Hpc Hpi; [done|]. simpl in *.
  apply StronglySorted_inv in Ht as [Hs Ht]. apply Forall_cons in Ht as [Ht _].
  assert (unseen l op) as Hun.
  { split; intros x Hx; rewrite Hx in *; [apply Hpc|apply Hpi]; apply elem_of_cons; auto. }
  rewrite (sess_step_held t now op l Ht Hun).
  destruct (ledger_step now op l) as [a l'] eqn:Hl. f_equal.
  replace l' with (ledger_step now op l).2 by by rewrite Hl.
  apply IH; [done|..].
  - destruct (minted_code op); [by apply NoDup_cons in Hc as [_ ?]|done].
  - destruct (minted_id op); [by apply NoDup_cons in Hi as [_ ?]|done].
  - intros c Hin. apply ledger_printed; destruct (minted_code op) as [c'|] eqn:Hop; try done.
    + apply Hpc. apply elem_of_cons; auto.
    + by apply Hpc.
    + intros [= ->]. by apply NoDup_cons in Hc as [? _].
  - intros id Hin. apply ledger_opened; destruct (minted_id op) as [c'|] eqn:Hop; try done.
    + apply Hpi. apply elem_of_cons; auto.
    + by apply Hpi.
    + intros [= ->]. by apply NoDup_cons in Hi as [? _].
Qed.

(** C38: browser logins: whatever the order of prints, logins and requests, as
    long as time does not run backwards and the generator never repeats itself,
    the daemon's pruned maps answer as a ledger of everything ever minted: a
    code is exchanged for a session at most once and only within its minute, a
    dead one is told apart as used or lapsed for ten minutes, and a session is
    accepted exactly under its own scope and until its twelve hours end. *)
Theorem sessions_refine ops :
  StronglySorted N.le ops.*1 -> NoDup (omap minted_code ops.*2) -> NoDup (omap minted_id ops.*2) ->
  run_sess sess_step ops new_sessions = run_sess ledger_step ops (mkLedger ∅ ∅).
Proof.
  intros Ht Hc Hi. change new_sessions with (held_at 0 (mkLedger ∅ ∅)). apply run_sess_held; try done.
  constructor; [done|]. apply Forall_forall. intros x _. lia.
Qed.

Lemma sessions_refine_witness :
  let ops := [(secs 1, SIssue "c0"); (secs 2, SIssue "c1"); (secs 3, SRedeem "c0" "i0" "s0");
              (secs 4, SRedeem "c0" "i1" "s1"); (secs 5, SValid "i0" "s0"); (secs 5, SValid "i0" "s1");
              (secs 70, SRedeem "c1" "i2" "s2"); (secs 43204, SValid "i0" "s0")] in
  run_sess sess_step ops new_sessions = run_sess ledger_step ops (mkLedger ∅ ∅) /\
  run_sess sess_step ops new_sessions =
    [SIssued; SIssued; SRedeemed (Ok {| ns_id := "i0"; ns_scope := "s0" |});
     SRedeemed (Err (CodeUsed (secs 1))); SIsValid true; SIsValid false;
     SRedeemed (Err (CodeExpired (secs 8))); SIsValid false].
Proof.
  split; [|vm_compute; reflexivity]. apply sessions_refine.
  - repeat first [apply SSorted_cons | apply SSorted_nil | apply Forall_cons; split | apply Forall_nil; done];
      vm_compute; discriminate.
  - apply (bool_decide_unpack _). vm_compute. exact I.
  - apply (bool_decide_unpack _). vm_compute. exact I.
Defined.

Lemma no_dots_spec s :
  forallb (fun s => negb (bool_decide (s = ".") || bool_decide (s = ".."))) (split_char "/"%char s) = true <->
  Forall (fun s => s <> "." /\ s <> "..") (split_char "/"%char s).
Proof.
  rewrite forallb_forall, Forall_forall. setoid_rewrite <- list_elem_of_In.
  setoid_rewrite negb_true_iff. setoid_rewrite orb_false_iff. by setoid_rewrite bool_decide_eq_false.
Qed.

Lemma login_target_spec to p :
  login_target to = Some p <->
  exists rest, default MOUNT_PREFIX to = MOUNT_PREFIX +:+ rest /\
    bytes_all safe_byte (MOUNT_PREFIX +:+ rest) = true /\
    Forall (fun s => s <> "." /\ s <> "..") (split_char "/"%char (MOUNT_PREFIX +:+ rest)) /\
    p = MOUNT_PREFIX +:+ rest +:+ (if negb (is_empty rest) && negb (contains rest "/") then "/" else EmptyString).
Proof.
  unfold login_target. destruct (strip_prefix MOUNT_PREFIX (default MOUNT_PREFIX to)) as [rest|] eqn:Hs.
  - apply strip_prefix_Some in Hs. rewrite Hs. set (f := forallb _ _).
    assert (f = true <-> Forall (fun s => s <> "." /\ s <> "..") (split_char "/"%char (MOUNT_PREFIX +:+ rest)))
      as Hf by apply no_dots_spec.
    destruct (bytes_all safe_byte (MOUNT_PREFIX +:+ rest)) eqn:Hb; [|split; [done|]]; simpl andb.
    + destruct f.
      * split.
        -- intros [= <-]. exists rest. split_and!; [done..|by apply Hf|].
           destruct (_ && _); by rewrite ?app_assoc_string, ?app_nil_r_string.
        -- intros (rest' & Heq & _ & _ & ->). apply app_inj_l_string in Heq. subst rest'.
           destruct (_ && _); by rewrite ?app_assoc_string, ?app_nil_r_string.
      * split; [done|]. intros (rest' & Heq & _ & Hd & _). apply app_inj_l_string in Heq. subst rest'.
        by apply Hf in Hd.
    + intros (rest' & Heq & Hb' & _). apply app_inj_l_string in Heq. subst rest'. by rewrite Hb in Hb'.
  - split; [done|]. intros (rest & Heq & _). rewrite Heq, strip_prefix_app in Hs. done.
Qed.

(** where a login may send the browser: an accepted target lies under the
    plugins' mount, holds only bytes that need no encoding and no [.] or [..]
    segment, never names the bare plugin path (the admin's purge route), keeps
    its place below the session's own cookie path, and is its own target. *)
Theorem login_target_confined to p :
  login_target to = Some p ->
  exists rest, p = MOUNT_PREFIX +:+ rest /\ bytes_all safe_byte p = true /\
    Forall (fun s => s <> "." /\ s <> "..") (split_char "/"%char p) /\
    (rest = EmptyString \/ contains rest "/" = true) /\
    (forall scope, scoped_target scope p = scope_path scope +:+ "plugins/" +:+ rest) /\
    login_target (Some p) = Some p.
Proof.
  intros (rest & _ & Hb & Hd & ->)%login_target_spec.
  set (rest' := rest +:+ if negb (is_empty rest) && negb (contains rest "/") then "/" else EmptyString).
  assert (bytes_all safe_byte (MOUNT_PREFIX +:+ rest') = true) as Hb'.
  { unfold rest'. rewrite <- app_assoc_string, bytes_all_app, Hb. by destruct (_ && _). }
  assert (Forall (fun s => s <> "." /\ s <> "..") (split_char "/"%char (MOUNT_PREFIX +:+ rest'))) as Hd'.
  { unfold rest'. rewrite <- app_assoc_string. destruct (_ && _); [|by rewrite app_nil_r_string].
    rewrite split_char_app_sep. apply Forall_app. split; [done|]. by repeat constructor. }
  assert (rest' = EmptyString \/ contains rest' "/" = true) as Hr.
  { unfold rest', is_empty. case_bool_decide as He; simpl; [subst rest; by left|].
    destruct (contains rest "/") eqn:Hc; simpl; [by rewrite app_nil_r_string; right|].
    right. apply contains_spec. by exists rest, EmptyString. }
  exists rest'. split_and!; [done..| |].
  - intros scope. unfold scoped_target, scope_path.
    change (MOUNT_PREFIX +:+ rest') with ("/v1/" +:+ ("plugins/" +:+ rest')). rewrite strip_prefix_app. simpl.
    by rewrite !app_assoc_string.
  - apply login_target_spec. exists rest'. split_and!; [done..|].
    destruct Hr as [->|Hr]; [done|]. rewrite Hr, andb_false_r. by rewrite app_nil_r_string.
Qed.

Lemma login_target_confined_witness :
  exists rest, "/v1/plugins/web/" = MOUNT_PREFIX +:+ rest /\ contains rest "/" = true /\
    login_target (Some "/v1/plugins/web") = Some "/v1/plugins/web/".
Proof.
  destruct (login_target_confined (Some "/v1/plugins/web") "/v1/plugins/web/" ltac:(vm_compute; reflexivity))
    as (rest & Heq & _ & _ & [->|Hr] & _ & _); [discriminate Heq|].
  exists rest. split; [exact Heq|]. split; [exact Hr|vm_compute; reflexivity].
Defined.
