(* ===== verification/Text.v ===== *)
(** Text typed into an agent's pane ([crates/balerix-api/src/text.rs]): what
    is stripped before it is typed, what keeps it from opening Claude's input
    line in another mode, and the texts a submitted prompt may stand for.

    A Rust [str] is valid UTF-8; [utf8] says so of a string of bytes, and the
    properties are stated of such strings. *)

From S2P Require Import Prelude Str.

(** ** Characters of valid UTF-8 *)

(** A lead byte and, when it is not ASCII, its continuation bytes. *)
Definition char_ok (c : string) : Prop :=
  match c with
  | EmptyString => False
  | String a EmptyString => is_continuation a = false
  | String a s => is_continuation a = false /\ (128 <= N_of_ascii a)%N /\ bytes_all is_continuation s = true
  end.

Definition utf8 (s : string) : Prop := Forall char_ok (chars s).

(** [char] ranges. *)
Definition char_in (lo hi : N) (c : string) : bool := ((lo <=? code_point c) && (code_point c <=? hi))%N.
Definition char_is (n : N) (c : string) : bool := (code_point c =? n)%N.

(** [str::trim_start_matches] of a character predicate. *)
Definition trim_start_matches (p : string -> bool) (s : string) : string := concat (skip_while p (chars s)).

(** [str::split_whitespace]. *)
Fixpoint words (word : string) (cs : list string) : list string :=
  match cs with
  | [] => if is_empty word then [] else [word]
  | c :: cs =>
      if char_is_whitespace c then if is_empty word then words EmptyString cs else word :: words EmptyString cs
      else words (word +:+ c) cs
  end.
Definition split_whitespace (s : string) : list string := words EmptyString (chars s).

(** ** [text.rs] *)

(** ['!'], ['#'] and ['&']. *)
Definition MODE_CHARS : list N := [33; 35; 38]%N.

Definition newline : string := String (ascii_of_N 10) EmptyString.

(** A control other than [\n] and [\t]. *)
Definition is_terminal_control (c : string) : bool :=
  char_is_control c && negb (char_is 10 c) && negb (char_is 9 c).

Definition strip_terminal_controls (text : string) : string :=
  concat (filter (fun c => is_terminal_control c = false) (chars text)).

Definition is_format (c : string) : bool :=
  char_is 173 c || char_in 1536 1541 c || char_is 1564 c || char_is 1757 c || char_is 1807 c ||
  char_in 2192 2193 c || char_is 2274 c || char_is 6158 c || char_in 8203 8207 c || char_in 8234 8238 c ||
  char_in 8288 8292 c || char_in 8294 8303 c || char_is 65279 c || char_in 65529 65531 c ||
  char_is 69821 c || char_is 69837 c || char_in 78896 78911 c || char_in 113824 113827 c ||
  char_in 119155 119162 c || char_is 917505 c || char_in 917536 917631 c.

Definition is_ignorable (c : string) : bool :=
  char_is 847 c || char_in 4447 4448 c || char_in 6068 6069 c || char_in 6155 6157 c || char_is 6159 c ||
  char_in 8203 8207 c || char_in 8234 8238 c || char_in 8288 8303 c || char_is 12644 c ||
  char_in 65024 65039 c || char_is 65279 c || char_is 65440 c || char_in 65520 65528 c || char_is 69759 c ||
  char_is 94180 c || char_is 917504 c || char_in 917506 917535 c || char_in 917632 921599 c.

Definition is_blank (c : string) : bool :=
  char_is_whitespace c || char_is_control c || is_format c || is_ignorable c.

(** [body.starts_with(MODE_CHARS)]. *)
Definition opens_mode (body : string) : bool :=
  match chars body with
  | c :: _ => bool_decide (code_point c ∈ MODE_CHARS)
  | [] => false
  end.

Definition backslash : string := String (ascii_of_N 92) EmptyString.

(** The third branch of the code ([body.len() == text.len()]) borrows the text
    it would rebuild. *)
Definition prompt_text (text : string) : string :=
  let stripped := strip_terminal_controls text in
  let body := trim_start_matches is_blank stripped in
  if opens_mode body then backslash +:+ body
  else if String.length body =? String.length text then text
  else body.

Definition PASTE_LEAD : string := " Act on the message above as this turn's request.".
Definition PASTE_LEAD_ABOVE : nat := 500.

Definition needs_paste_lead (text : string) : bool :=
  negb (starts_with (trim_start_matches is_blank text) "/") &&
  (contains text newline || (PASTE_LEAD_ABOVE <? String.length text)).

Definition strip_paste_lead (prompt : string) : option string :=
  body ← strip_suffix (trim_start PASTE_LEAD) (trim_end prompt); Some (trim body).

Definition unwrap_pasted (text : string) : option string :=
  rest ← strip_prefix "<pasted_content" (trim text);
  '(attrs, inner) ← split_once ">"%char rest;
  if negb (lacks "<"%char attrs) then None
  else
    match strip_suffix ("</pasted_content" +:+ attrs +:+ ">") inner with
    | Some body => Some body
    | None => strip_suffix "</pasted_content>" inner
    end.

(** [Vec::dedup]. *)
Fixpoint dedup (l : list string) : list string :=
  match l with
  | x :: (y :: _) as l' => if bool_decide (x = y) then dedup l' else x :: dedup l'
  | l => l
  end.

Definition submitted_candidates (prompt : string) : list string :=
  let unled := strip_paste_lead prompt in
  dedup ([prompt] ++ option_list unled ++ option_list (unwrap_pasted (default prompt unled))).

Definition submitted_text (prompt : string) : string :=
  default prompt (last (submitted_candidates prompt)).

(** [normalize] of [plugins/common/src/delivery.rs]. *)
Definition normalize (text : string) : string := join " " (split_whitespace text).

(** ** Lemmas on characters *)

Definition starts_char (s : string) : Prop :=
  match s with EmptyString => True | String b _ => is_continuation b = false end.

Lemma chars_head b s : exists h t, chars (String b s) = String b h :: t.
Proof.
  simpl. destruct (chars s) as [|[|c h] t]; eauto. destruct (_ && _); eauto.
Qed.

Lemma chars_ascii a s : (N_of_ascii a < 128)%N -> chars (String a s) = String a EmptyString :: chars s.
Proof.
  intros Ha. simpl. destruct (chars s) as [|[|b h] t]; [done..|].
  replace (128 <=? N_of_ascii a)%N with false by (symmetry; by apply N.leb_gt).
  by rewrite andb_false_r.
Qed.

(** A run of continuation bytes joins what leads it. *)
Lemma chars_run a t s :
  (128 <= N_of_ascii a)%N -> bytes_all is_continuation t = true -> starts_char s ->
  chars (String a (t +:+ s)) = String a t :: chars s.
Proof.
  revert a. induction t as [|b t IH]; intros a Ha Ht Hs.
  - rewrite app_nil_string. simpl. destruct s as [|c s]; [done|].
    destruct (chars_head c s) as (h & l & Hc). rewrite Hc. simpl in Hs. by rewrite Hs.
  - simpl in Ht. apply andb_true_iff in Ht as [Hb Ht]. rewrite app_cons_string.
    assert (128 <= N_of_ascii b)%N as Hb'.
    { unfold is_continuation, byte_in in Hb. apply andb_true_iff in Hb as [Hb _]. by apply N.leb_le. }
    change (chars (String a (String b (t +:+ s)))) with
      (match chars (String b (t +:+ s)) with
       | String b h :: l =>
           if is_continuation b && (128 <=? N_of_ascii a)%N then String a (String b h) :: l
           else String a EmptyString :: String b h :: l
       | l => String a EmptyString :: l
       end).
    rewrite (IH b Hb' Ht Hs), Hb. apply N.leb_le in Ha. by rewrite Ha.
Qed.

Lemma chars_app c s : char_ok c -> starts_char s -> chars (c +:+ s) = c :: chars s.
Proof.
  destruct c as [|a c]; [done|]. rewrite app_cons_string. destruct c as [|b c].
  - simpl. intros Ha Hs. rewrite app_nil_string.
    destruct (N.ltb_spec (N_of_ascii a) 128) as [H|H]; [by apply chars_ascii|].
    pose proof (chars_run a EmptyString s H eq_refl Hs) as Hr. by rewrite app_nil_string in Hr.
  - intros (_ & Ha & Hc) Hs. by apply chars_run.
Qed.

Lemma char_ok_starts c s : char_ok c -> starts_char (c +:+ s).
Proof. destruct c as [|a [|b c]]; [done|done|]. by intros (? & _). Qed.

(** Valid characters, put together, come apart as they were. *)
Lemma chars_concat l : Forall char_ok l -> chars (concat l) = l /\ starts_char (concat l).
Proof.
  induction 1 as [|c l Hc _ [IH Hs]]; [done|]. simpl. rewrite chars_app, IH by done.
  split; [done|by apply char_ok_starts].
Qed.

Lemma utf8_concat l : Forall char_ok l -> utf8 (concat l).
Proof. intros Hl. unfold utf8. by rewrite (proj1 (chars_concat l Hl)). Qed.

Lemma concat_app l1 l2 : concat (l1 ++ l2) = concat l1 +:+ concat l2.
Proof. induction l1 as [|c l IH]; simpl; [done|]. by rewrite app_assoc_string, IH. Qed.

Lemma chars_str_app s t : utf8 s -> utf8 t -> chars (s +:+ t) = chars s ++ chars t.
Proof.
  intros Hs Ht. rewrite <- (concat_chars s), <- (concat_chars t), <- concat_app, !concat_chars.
  by apply chars_concat, Forall_app.
Qed.

Lemma utf8_app s t : utf8 s -> utf8 t -> utf8 (s +:+ t).
Proof. intros Hs Ht. unfold utf8. rewrite chars_str_app by done. by apply Forall_app. Qed.

Lemma filter_keeps {A} (P Q : A -> Prop) `{!forall x, Decision (Q x)} l : Forall P l -> Forall P (filter Q l).
Proof. rewrite !Forall_forall. intros Hl x [_ Hx]%list_elem_of_filter. by apply Hl. Qed.

Lemma skip_while_suffix {A} (p : A -> bool) l : exists k, l = k ++ skip_while p l /\ Forall (fun x => p x = true) k.
Proof.
  induction l as [|x l (k & Hl & Hk)]; simpl; [by exists []|].
  destruct (p x) eqn:Hp; [|by exists []]. exists (x :: k). simpl. split; [congruence|by constructor].
Qed.

Lemma skip_while_Forall {A} (P : A -> Prop) p l : Forall P l -> Forall P (skip_while p l).
Proof. destruct (skip_while_suffix p l) as (k & Hl & _). rewrite Hl at 1. by intros [_ ?]%Forall_app. Qed.

Lemma skip_while_head {A} (p : A -> bool) l :
  match skip_while p l with x :: _ => p x = false | [] => True end.
Proof. induction l as [|x l IH]; simpl; [done|]. by destruct (p x) eqn:Hp. Qed.

Lemma skip_while_stop {A} (p : A -> bool) l :
  match l with x :: _ => p x = false | [] => True end -> skip_while p l = l.
Proof. destruct l as [|x l]; simpl; [done|]. by intros ->. Qed.

(** ** Trimming and normalising *)

Definition space (c : string) : Prop := char_is_whitespace c = true.

(** Neither the first nor the last character is blank. *)
Definition tight (l : list string) : Prop :=
  skip_while char_is_whitespace l = l /\ skip_while char_is_whitespace (rev l) = rev l.

Lemma skip_while_all {A} (p : A -> bool) k l :
  Forall (fun x => p x = true) k -> skip_while p (k ++ l) = skip_while p l.
Proof. induction 1 as [|x k Hx _ IH]; simpl; [done|]. by rewrite Hx. Qed.

Lemma trim_chars s : utf8 s ->
  chars (trim s) = rev (skip_while char_is_whitespace (rev (skip_while char_is_whitespace (chars s)))) /\ utf8 (trim s).
Proof.
  intros Hs. unfold trim, trim_start, trim_end.
  assert (Forall char_ok (skip_while char_is_whitespace (chars s))) as H1 by by apply skip_while_Forall.
  rewrite (proj1 (chars_concat _ H1)).
  assert (Forall char_ok (rev (skip_while char_is_whitespace (rev (skip_while char_is_whitespace (chars s)))))) as H2.
  { apply Forall_rev, skip_while_Forall. by apply Forall_rev. }
  split; [by apply chars_concat|by apply utf8_concat].
Qed.

Lemma words_lead k l : Forall space k -> words EmptyString (k ++ l) = words EmptyString l.
Proof. induction 1 as [|c k Hc _ IH]; simpl; [done|]. rewrite Hc. done. Qed.

Lemma words_trail w l k : Forall space k -> words w (l ++ k) = words w l.
Proof.
  intros Hk. revert w. induction l as [|c l IH]; intros w; simpl.
  - revert w. induction Hk as [|c k Hc Hk IH]; intros w; simpl; [done|]. rewrite Hc.
    case_match; by rewrite IH.
  - case_match; [case_match|]; by rewrite IH.
Qed.

Lemma normalize_chars s t : split_whitespace s = split_whitespace t -> normalize s = normalize t.
Proof. unfold normalize. by intros ->. Qed.

Lemma words_untrail l : words EmptyString (rev (skip_while char_is_whitespace (rev l))) = words EmptyString l.
Proof.
  destruct (skip_while_suffix char_is_whitespace (rev l)) as (k & Hk & Hsp).
  set (x := skip_while char_is_whitespace (rev l)) in *. clearbody x.
  assert (l = rev x ++ rev k) as -> by by rewrite <- rev_app_distr, <- Hk, rev_involutive.
  rewrite words_trail; [done|]. by apply Forall_rev.
Qed.

(** Blanks around a text do not change what it normalises to. *)
Lemma normalize_trim s : utf8 s -> normalize (trim s) = normalize s.
Proof.
  intros Hs. apply normalize_chars. unfold split_whitespace. rewrite (proj1 (trim_chars s Hs)).
  rewrite words_untrail. destruct (skip_while_suffix char_is_whitespace (chars s)) as (k & Hk & Hsp).
  set (x := skip_while char_is_whitespace (chars s)) in *. clearbody x. rewrite Hk. by rewrite words_lead.
Qed.

Lemma normalize_trail s k : utf8 s -> utf8 k -> Forall space (chars k) -> normalize (s +:+ k) = normalize s.
Proof.
  intros Hs Hu Hk. apply normalize_chars. unfold split_whitespace. rewrite chars_str_app by done.
  by apply words_trail.
Qed.

(** A text that starts and ends visibly is what trimming leaves of it, with or
    without blanks after it. *)
Lemma trim_tight s k : utf8 s -> utf8 k -> tight (chars s) -> Forall space (chars k) -> trim (s +:+ k) = s.
Proof.
  intros Hs Hk [H1 H2] Hsp. unfold trim, trim_start, trim_end. rewrite chars_str_app by done.
  assert (skip_while char_is_whitespace (chars s ++ chars k) =
    if is_empty s then [] else chars s ++ chars k) as ->.
  { unfold is_empty. case_bool_decide as He.
    - subst s. simpl. rewrite <- (app_nil_r (chars k)), skip_while_all by done. done.
    - pose proof (concat_chars s) as Hc. destruct (chars s) as [|c l]; [by destruct He|].
      simpl in H1 |- *. destruct (char_is_whitespace c); [|done].
      destruct (skip_while_suffix char_is_whitespace l) as (x & Hx & _). rewrite H1 in Hx.
      apply (f_equal length) in Hx. rewrite length_app in Hx. simpl in Hx. lia. }
  unfold is_empty. case_bool_decide as He; [by subst s|].
  rewrite (proj1 (chars_concat (chars s ++ chars k) ltac:(by apply Forall_app))).
  rewrite rev_app_distr, skip_while_all by by apply Forall_rev. rewrite H2, rev_involutive. apply concat_chars.
Qed.

(** ** What is typed *)

Definition no_terminal_control (s : string) : Prop := Forall (fun c => is_terminal_control c = false) (chars s).

Lemma chars_strip text : utf8 text ->
  chars (strip_terminal_controls text) = filter (fun c => is_terminal_control c = false) (chars text).
Proof. intros Ht. by apply chars_concat, filter_keeps. Qed.

Lemma chars_trim p s : utf8 s -> chars (trim_start_matches p s) = skip_while p (chars s).
Proof. intros Hs. by apply chars_concat, skip_while_Forall. Qed.

(** The text less its terminal controls and leading blanks. *)
Definition body_chars (text : string) : list string :=
  skip_while is_blank (filter (fun c => is_terminal_control c = false) (chars text)).

(** A part of a text as long as the text is the text. *)
Lemma sublist_length l1 l2 : l1 `sublist_of` l2 -> Forall char_ok l2 ->
  String.length (concat l1) <= String.length (concat l2) /\
  (String.length (concat l1) = String.length (concat l2) -> l1 = l2).
Proof.
  induction 1 as [|c l1 l2 _ IH|c l1 l2 _ IH]; intros Hok; [done|..];
    apply Forall_cons in Hok as [Hc Hok]; destruct (IH Hok) as [Hle Heq]; simpl; rewrite !length_app_string.
  - split; [lia|]. intros Hl. f_equal. apply Heq. lia.
  - destruct c as [|a c]; [done|]. simpl. split; lia.
Qed.

Lemma body_sublist text : body_chars text `sublist_of` chars text.
Proof.
  unfold body_chars. set (l := filter _ _). transitivity l.
  - destruct (skip_while_suffix is_blank l) as (k & Hl & _). rewrite Hl at 2. by apply sublist_inserts_l.
  - unfold l. clear l. induction (chars text) as [|c l IH]; [done|]. rewrite filter_cons.
    case_decide; by constructor.
Qed.

Definition opens_with_mode (l : list string) : bool :=
  match l with c :: _ => bool_decide (code_point c ∈ MODE_CHARS) | [] => false end.

(** The two shapes of an answer. *)
Lemma prompt_text_eq text : utf8 text ->
  prompt_text text = (if opens_with_mode (body_chars text) then backslash +:+ concat (body_chars text)
                      else concat (body_chars text)).
Proof.
  intros Ht. unfold prompt_text, opens_mode.
  assert (trim_start_matches is_blank (strip_terminal_controls text) = concat (body_chars text)) as ->.
  { unfold trim_start_matches. by rewrite chars_strip. }
  assert (Forall char_ok (body_chars text)) as Hok by by apply skip_while_Forall, filter_keeps.
  rewrite (proj1 (chars_concat _ Hok)). fold (opens_with_mode (body_chars text)).
  destruct (opens_with_mode _); [done|].
  destruct (Nat.eqb_spec (String.length (concat (body_chars text))) (String.length text)) as [Hl|]; [|done].
  rewrite <- (concat_chars text) in Hl at 2. apply sublist_length in Hl; [|apply body_sublist|done].
  by rewrite Hl, concat_chars.
Qed.

Definition prompt_chars (text : string) : list string :=
  if opens_with_mode (body_chars text) then backslash :: body_chars text else body_chars text.

Lemma prompt_chars_ok text : utf8 text ->
  Forall char_ok (prompt_chars text) /\ Forall (fun c => is_terminal_control c = false) (prompt_chars text) /\
  opens_with_mode (prompt_chars text) = false /\
  match prompt_chars text with c :: _ => is_blank c = false | [] => True end.
Proof.
  intros Ht. unfold prompt_chars.
  assert (Forall char_ok (body_chars text)) as Hok by by apply skip_while_Forall, filter_keeps.
  assert (Forall (fun c => is_terminal_control c = false) (body_chars text)) as Hc.
  { apply skip_while_Forall. apply Forall_forall. by intros c [? _]%list_elem_of_filter. }
  destruct (opens_with_mode (body_chars text)) eqn:Ho.
  - split_and!; [by constructor|by constructor|done|done].
  - split_and!; [done..|apply skip_while_head].
Qed.

Lemma prompt_text_chars text : utf8 text ->
  chars (prompt_text text) = prompt_chars text /\ prompt_text text = concat (prompt_chars text).
Proof.
  intros Ht. destruct (prompt_chars_ok text Ht) as (Hok & _).
  assert (prompt_text text = concat (prompt_chars text)) as Heq.
  { rewrite prompt_text_eq by done. unfold prompt_chars. by destruct (opens_with_mode _). }
  split; [|done]. rewrite Heq. by apply chars_concat.
Qed.

(** C39: what a channel's text becomes before it is typed: it never opens the
    input line in another input mode, holds no terminal control, starts with a
    character the input line keeps, is the text less its controls and leading
    blanks (after one backslash where it would have opened a mode), and passes
    through unchanged a second time. *)
Theorem prompt_text_safe text : utf8 text ->
  let p := prompt_text text in
  utf8 p /\ no_terminal_control p /\ opens_mode p = false /\
  match chars p with c :: _ => is_blank c = false | [] => True end /\
  chars p = (if opens_with_mode (body_chars text) then [backslash] else []) ++ body_chars text /\
  prompt_text p = p.
Proof.
  intros Ht p. destruct (prompt_chars_ok text Ht) as (Hok & Hc & Ho & Hb).
  destruct (prompt_text_chars text Ht) as [Hch Hp]. fold p in Hch, Hp.
  assert (utf8 p) as Hu by by rewrite Hp; apply utf8_concat.
  assert (body_chars p = prompt_chars text) as Hbody.
  { unfold body_chars. rewrite Hch, filter_keep by done. by apply skip_while_stop. }
  unfold no_terminal_control, opens_mode. rewrite Hch. split_and!; [done..| |].
  - unfold prompt_chars. by destruct (opens_with_mode (body_chars text)).
  - destruct (prompt_text_chars p Hu) as [_ ->]. rewrite Hp at 2. f_equal.
    unfold prompt_chars at 1. by rewrite Hbody, Ho.
Qed.

Lemma prompt_text_safe_witness :
  utf8 " !ls" /\ prompt_text (prompt_text " !ls") = prompt_text " !ls" /\ prompt_text " !ls" = "\!ls".
Proof.
  assert (utf8 " !ls") as Hu by (unfold utf8; repeat constructor).
  split; [exact Hu|]. split; [apply (prompt_text_safe " !ls" Hu)|vm_compute; reflexivity].
Defined.

(** ** What is submitted *)

(** The prompts a text typed by [send_text] may be submitted as: as it was
    typed; with the lead after it, joined by a version that does not wrap; in
    Claude's wrapper, with the lead after a blank line or, from a daemon that
    typed none, alone. *)
Definition wrapper (attrs text : string) : string :=
  "<pasted_content" +:+ attrs +:+ ">" +:+ text +:+ "</pasted_content" +:+ attrs +:+ ">".

Inductive submission (text : string) : string -> Prop :=
| sub_plain : submission text text
| sub_lead : submission text (text +:+ PASTE_LEAD)
| sub_wrapped attrs :
    utf8 attrs -> lacks "<"%char attrs = true -> lacks ">"%char attrs = true ->
    submission text (wrapper attrs text +:+ newline +:+ newline +:+ trim_start PASTE_LEAD)
| sub_wrapped_alone attrs :
    utf8 attrs -> lacks "<"%char attrs = true -> lacks ">"%char attrs = true ->
    submission text (wrapper attrs text).

Lemma elem_of_dedup x l : x ∈ dedup l <-> x ∈ l.
Proof.
  induction l as [|y l IH]; [done|]. destruct l as [|z l]; [done|].
  change (dedup (y :: z :: l)) with (if bool_decide (y = z) then dedup (z :: l) else y :: dedup (z :: l)).
  case_bool_decide; subst; rewrite ?elem_of_cons, IH, ?elem_of_cons; naive_solver.
Qed.

Lemma last_byte s t a b : s +:+ String a EmptyString = t +:+ String b EmptyString -> a = b.
Proof.
  revert t. induction s as [|c s IH]; intros [|d t]; rewrite ?app_nil_string, ?app_cons_string.
  - by intros [= ->].
  - intros [= _ H]. by destruct t.
  - intros [= _ H]. by destruct s.
  - intros [= _ H]. by eapply IH.
Qed.

Lemma trim_end_tight s : utf8 s -> skip_while char_is_whitespace (rev (chars s)) = rev (chars s) -> trim_end s = s.
Proof. intros Hs Ht. unfold trim_end. rewrite Ht, rev_involutive. apply concat_chars. Qed.

Lemma ascii_utf8 a : (N_of_ascii a < 128)%N -> utf8 (String a EmptyString) /\ char_ok (String a EmptyString).
Proof.
  intros Ha. assert (char_ok (String a EmptyString)) as Hc.
  { simpl. unfold is_continuation, byte_in. apply andb_false_iff. left. by apply N.leb_gt. }
  split; [|done]. by repeat constructor.
Qed.

Lemma end_tight s a : utf8 s -> (N_of_ascii a < 128)%N -> char_is_whitespace (String a EmptyString) = false ->
  utf8 (s +:+ String a EmptyString) /\
  skip_while char_is_whitespace (rev (chars (s +:+ String a EmptyString))) = rev (chars (s +:+ String a EmptyString)).
Proof.
  intros Hs Ha Hw. destruct (ascii_utf8 a Ha) as [Hu Hc].
  split; [by apply utf8_app|]. rewrite chars_str_app by done. simpl chars. rewrite rev_app_distr. simpl.
  by rewrite Hw.
Qed.

Lemma ascii_only_utf8 s : bytes_all (fun a => (N_of_ascii a <? 128)%N) s = true -> utf8 s.
Proof.
  induction s as [|a s IH]; simpl; [by constructor|]. intros [Ha%N.ltb_lt Hs]%andb_true_iff.
  unfold utf8. rewrite chars_ascii by done. constructor; [by apply ascii_utf8|by apply IH].
Qed.

Lemma lead_split : PASTE_LEAD = " " +:+ trim_start PASTE_LEAD.
Proof. vm_compute. reflexivity. Qed.

Lemma lead_dot : exists x, trim_start PASTE_LEAD = x +:+ "." /\ utf8 x.
Proof.
  exists "Act on the message above as this turn's request". split; [vm_compute; reflexivity|].
  apply ascii_only_utf8. vm_compute. reflexivity.
Qed.

(** A prompt that ends in the lead, without it. *)
Lemma strip_paste_lead_app s : utf8 s -> strip_paste_lead (s +:+ trim_start PASTE_LEAD) = Some (trim s).
Proof.
  intros Hs. unfold strip_paste_lead. destruct lead_dot as (x & Hx & Hux).
  rewrite trim_end_tight; [by rewrite strip_suffix_app|..];
    rewrite Hx, <- app_assoc_string; apply end_tight; try done; by apply utf8_app.
Qed.

Definition opening : string := "<pasted_content".
Definition closing : string := "</pasted_content".

Lemma wrapper_eq attrs text :
  wrapper attrs text = ("<" +:+ "pasted_content" +:+ attrs +:+ ">" +:+ text +:+ closing +:+ attrs) +:+ ">".
Proof. unfold wrapper, closing. by rewrite !app_assoc_string. Qed.

Section wrapper.
Context (attrs text : string).
Context (Ha : utf8 attrs) (Hl : lacks "<"%char attrs = true) (Hg : lacks ">"%char attrs = true) (Ht : utf8 text).

Lemma wrapper_tight : utf8 (wrapper attrs text) /\ tight (chars (wrapper attrs text)).
Proof.
  assert (forall s, bytes_all (fun a => (N_of_ascii a <? 128)%N) s = true -> utf8 s) as Hu by apply ascii_only_utf8.
  rewrite wrapper_eq. set (x := "<" +:+ _).
  assert (utf8 x) as Hx.
  { unfold x. repeat apply utf8_app; try done; by apply Hu. }
  destruct (end_tight x ">" Hx ltac:(done) ltac:(done)) as [Hux Hr]. split; [done|]. split; [|done].
  unfold x. rewrite !app_assoc_string, app_cons_string, chars_ascii by done. done.
Qed.

(** The wrapper with its own attributes at both ends comes off. *)
Lemma unwrap_wrapper : unwrap_pasted (wrapper attrs text) = Some text.
Proof.
  destruct wrapper_tight as [Hu Htight]. unfold unwrap_pasted.
  rewrite <- (app_nil_r_string (wrapper attrs text)), trim_tight by (done || constructor).
  unfold wrapper at 1. fold opening. rewrite strip_prefix_app. cbn [mbind option_bind].
  replace (split_once _ _) with (Some (attrs, text +:+ closing +:+ attrs +:+ ">")).
  2: { symmetry. by apply split_once_Some. }
  cbn [mbind option_bind]. rewrite Hl. cbn [negb]. fold closing. by rewrite strip_suffix_app.
Qed.
End wrapper.

(** Whatever form Claude submits a typed text in (as typed, with the paste
    lead joined to it, or inside its wrapper with or without the lead), one of
    the candidates read from the prompt is the text, up to blanks. *)
Lemma submission_matches text prompt : utf8 text -> submission text prompt ->
  exists c, c ∈ submitted_candidates prompt /\ normalize c = normalize text.
Proof.
  intros Ht Hsub. unfold submitted_candidates. setoid_rewrite elem_of_dedup.
  assert (forall attrs, utf8 attrs -> lacks "<"%char attrs = true -> lacks ">"%char attrs = true ->
    strip_paste_lead (wrapper attrs text) = None) as Hnone.
  { intros attrs Ha Hl Hg. destruct (wrapper_tight attrs text Ha Ht) as [Hu [_ Htight]].
    unfold strip_paste_lead. rewrite (trim_end_tight _ Hu Htight).
    destruct (strip_suffix _ _) as [r|] eqn:Hs; [|done]. exfalso. apply strip_suffix_Some in Hs.
    destruct lead_dot as (x & Hx & _). rewrite Hx, wrapper_eq, <- (app_assoc_string r x) in Hs.
    by apply last_byte in Hs. }
  destruct Hsub as [| |attrs Ha Hl Hg|attrs Ha Hl Hg].
  - exists text. split; [|done]. apply elem_of_app. left. by apply list_elem_of_singleton.
  - destruct (ascii_utf8 " " ltac:(done)) as [Hsp _].
    rewrite lead_split, <- app_assoc_string, strip_paste_lead_app by by apply utf8_app.
    exists (trim (text +:+ " ")). split; [simpl; set_solver|].
    rewrite normalize_trim by by apply utf8_app. apply normalize_trail; [done..|]. by repeat constructor.
  - destruct (wrapper_tight attrs text Ha Ht) as [Hu Htight].
    assert (utf8 (newline +:+ newline)) as Hn by by apply ascii_only_utf8.
    rewrite <- (app_assoc_string newline), <- (app_assoc_string (wrapper attrs text)).
    rewrite strip_paste_lead_app by by apply utf8_app.
    rewrite trim_tight by (done || by repeat constructor). simpl default.
    rewrite (unwrap_wrapper attrs text Ha Hl Hg Ht). exists text. split; [simpl; set_solver|done].
  - rewrite (Hnone attrs Ha Hl Hg). simpl default. rewrite (unwrap_wrapper attrs text Ha Hl Hg Ht).
    exists text. split; [simpl; set_solver|done].
Qed.
