(* ===== verification/Delivery.v ===== *)
(** Delivery confirmation ([plugins/common/src/delivery.rs]): which prompts
    typed into an agent's pane Claude took, which ones were swallowed, and when
    Enter is pressed once more; the slash commands a channel may send.

    [HashMap] iteration has no order: [expire] answers its markers in the order
    of [map_to_list], and the properties speak of them up to permutation. *)

From S2P Require Import Prelude Str BTree Json Text.

(** [HookEvent] of [crates/balerix-api/src/hook.rs]. *)
Record HookEvent := {
  he_agent : string;
  he_name : string;
  he_session_id : option string;
  he_received_at : N;
  he_payload : Value;
}.

(** [payload.get(key).and_then(Value::as_str)]. *)
Definition str_field (v : Value) (key : string) : option string :=
  match v with
  | VObject m => match m !! key with Some (VString s) => Some s | _ => None end
  | _ => None
  end.

(** ** Commands *)

Inductive Kind := KindPrompt | KindCommand.

Definition classify (text : string) : Kind :=
  if starts_with (trim_start text) "/" then KindCommand else KindPrompt.

Definition DEFAULT_COMMANDS : list string :=
  ["/compact"; "/clear"; "/context"; "/usage"; "/status"; "/help"].

Definition Allowlist := gset string.
Definition allowlist_default : Allowlist := list_to_set DEFAULT_COMMANDS.
Definition allowlist_with (extra : list string) : Allowlist := allowlist_default ∪ list_to_set extra.

Definition valid_command (entry : string) : bool :=
  let name := default EmptyString (strip_prefix "/" entry) in
  negb (is_empty name || starts_with name "/" ||
        existsb (fun c => char_is_whitespace c || char_is_control c) (chars entry)).

(** [Allowlist::validate]: the path of the entry and what is wrong with it. *)
Definition allowlist_validate `{Unicode} (path : string) (entries : list string) : result (string * string) unit :=
  try_each (fun '(i, entry) =>
    ensure (valid_command entry)
      (path +:+ "[" +:+ pretty i +:+ "]", "expected /name with no whitespace, got " +:+ debug_str entry))
    (imap (fun (i : nat) entry => (i, entry)) entries).

(** [Allowlist::allows]. *)
Definition allows (list : Allowlist) (text : string) : bool :=
  let name := default EmptyString (head (split_whitespace text)) in
  (1 <? String.length name) && bool_decide (name ∈ list).

(** ** The tracker *)

Definition MAX_PENDING : nat := 64.
Definition NUDGE_AFTER : N := secs 5.
Definition NUDGE_FOR : N := secs 90.

Inductive Turn := TurnUnknown | TurnIdle | TurnBusy.
#[export] Instance turn_eq_dec : EqDecision Turn.
Proof. solve_decision. Defined.

Definition QUESTION_TOOL : string := "AskUserQuestion".
Definition QUIET_NOTIFICATIONS : list string := ["idle_prompt"; "auth_success"].

Section tracker.
Context {M : Type}.

Record Outcome := mkOutcome { oc_confirmed : option M; oc_skipped : list M }.
Definition no_outcome : Outcome := mkOutcome None [].

Record Pending := { pd_text : string; pd_marker : M; pd_sent_at : N; pd_window : N }.

Record AgentState := mkState {
  as_pending : list Pending;
  as_turn : Turn;
  as_prompt_open : bool;
  as_question_open : bool;
  as_last_stop : option N;
  as_last_nudge : option N;
  as_last_event : option N;
}.

Definition default_state : AgentState := mkState [] TurnUnknown false false None None None.

Definition set_pending (l : list Pending) (s : AgentState) : AgentState :=
  mkState l (as_turn s) (as_prompt_open s) (as_question_open s) (as_last_stop s) (as_last_nudge s) (as_last_event s).
Definition set_turn (t : Turn) (s : AgentState) : AgentState :=
  mkState (as_pending s) t (as_prompt_open s) (as_question_open s) (as_last_stop s) (as_last_nudge s) (as_last_event s).
Definition set_prompt_open (b : bool) (s : AgentState) : AgentState :=
  mkState (as_pending s) (as_turn s) b (as_question_open s) (as_last_stop s) (as_last_nudge s) (as_last_event s).
Definition set_question_open (b : bool) (s : AgentState) : AgentState :=
  mkState (as_pending s) (as_turn s) (as_prompt_open s) b (as_last_stop s) (as_last_nudge s) (as_last_event s).
Definition set_last_stop (t : N) (s : AgentState) : AgentState :=
  mkState (as_pending s) (as_turn s) (as_prompt_open s) (as_question_open s) (Some t) (as_last_nudge s) (as_last_event s).
Definition set_last_nudge (t : N) (s : AgentState) : AgentState :=
  mkState (as_pending s) (as_turn s) (as_prompt_open s) (as_question_open s) (as_last_stop s) (Some t) (as_last_event s).
Definition set_last_event (t : N) (s : AgentState) : AgentState :=
  mkState (as_pending s) (as_turn s) (as_prompt_open s) (as_question_open s) (as_last_stop s) (as_last_nudge s) (Some t).

Definition settle (turn : Turn) (s : AgentState) : AgentState :=
  set_question_open false (set_prompt_open false (set_turn turn s)).

(** [Instant::duration_since] saturates at zero. *)
Definition takes_enter (now : N) (s : AgentState) : bool :=
  bool_decide (as_turn s = TurnIdle) && negb (as_prompt_open s) && negb (as_question_open s) &&
  match as_last_event s with None => true | Some e => (NUDGE_AFTER <=? now - e)%N end.

#[local] Notation Deliveries := (gmap string AgentState).

(** [self.agents.entry(agent).or_default()]. *)
Definition entry_of (agent : string) (d : Deliveries) : AgentState := default default_state (d !! agent).

Definition sent (agent text : string) (marker : M) (now window : N) (d : Deliveries) : option M * Deliveries :=
  let text := normalize text in
  if is_empty text then (None, d)
  else
    let s := entry_of agent d in
    let l := as_pending s ++ [{| pd_text := text; pd_marker := marker; pd_sent_at := now; pd_window := window |}] in
    if MAX_PENDING <? length l then
      match l with
      | p :: l => (Some (pd_marker p), <[agent := set_pending l s]> d)
      | [] => (None, <[agent := set_pending l s]> d)
      end
    else (None, <[agent := set_pending l s]> d).

(** The first candidate some pending prompt matches, and the oldest such. *)
Fixpoint find_submitted (candidates : list string) (l : list Pending) : option nat :=
  match candidates with
  | [] => None
  | c :: cs =>
      match list_find (fun p => pd_text p = normalize c) l with
      | Some (i, _) => Some i
      | None => find_submitted cs l
      end
  end.

(** The arms of [on_event], on the agent's state. *)
Definition event_state (event : HookEvent) (now : N) (s : AgentState) : Outcome * AgentState :=
  let s := set_last_event now s in
  let field := str_field (he_payload event) in
  let name := he_name event in
  if bool_decide (name = "UserPromptSubmit") then
    let s := set_turn TurnBusy s in
    let prompt := default EmptyString (field "prompt") in
    match find_submitted (submitted_candidates prompt) (as_pending s) with
    | None => (no_outcome, s)
    | Some i =>
        (mkOutcome (pd_marker <$> head (drop i (as_pending s))) (pd_marker <$> take i (as_pending s)),
         set_pending (tail (drop i (as_pending s))) s)
    end
  else if bool_decide (name = "Stop") then (no_outcome, set_last_stop now (settle TurnIdle s))
  else if bool_decide (name = "SessionEnd") then (no_outcome, set_last_stop now (settle TurnUnknown s))
  else if bool_decide (name = "SessionStart") then
    (no_outcome, if bool_decide (field "source" = Some "compact") then s else settle TurnIdle s)
  else if bool_decide (name = "Notification") then
    let quiet := match field "notification_type" with
                 | Some k => bool_decide (k ∈ QUIET_NOTIFICATIONS)
                 | None => false
                 end in
    (no_outcome, if quiet then s else set_prompt_open true s)
  else
    let s := set_turn TurnBusy s in
    (no_outcome,
     if bool_decide (field "tool_name" = Some QUESTION_TOOL) then
       if bool_decide (name = "PreToolUse") then set_question_open true s
       else if bool_decide (name = "PostToolUse") then set_question_open false s
       else s
     else s).

Definition on_event (event : HookEvent) (now : N) (d : Deliveries) : Outcome * Deliveries :=
  let '(o, s) := event_state event now (entry_of (he_agent event) d) in
  (o, <[he_agent event := s]> d).

(** The later of a prompt's send and the agent's last [Stop]. *)
Definition start_of (last_stop : option N) (p : Pending) : N :=
  match last_stop with None => pd_sent_at p | Some s => N.max s (pd_sent_at p) end.

Definition lapsed (now : N) (last_stop : option N) (p : Pending) : bool :=
  negb (pd_window p =? 0)%N && (pd_window p <=? now - start_of last_stop p)%N.

Definition expire_state (now : N) (s : AgentState) : list M * AgentState :=
  if bool_decide (as_turn s = TurnBusy) then ([], s)
  else
    (pd_marker <$> filter (fun p => lapsed now (as_last_stop s) p = true) (as_pending s),
     set_pending (filter (fun p => lapsed now (as_last_stop s) p = false) (as_pending s)) s).

Definition expire (now : N) (d : Deliveries) : list M * Deliveries :=
  (map_to_list d ≫= (fun kv => (expire_state now kv.2).1), (fun s => (expire_state now s).2) <$> d).

Definition due (now : N) (last_stop last_nudge : option N) (p : Pending) : bool :=
  let start := start_of last_stop p in
  let waited := (now - start)%N in
  let since_nudge := match last_nudge with None => waited | Some n => (now - N.max n start)%N end in
  (waited <? NUDGE_FOR)%N && ((pd_window p =? 0)%N || (waited <? pd_window p)%N) && (NUDGE_AFTER <=? since_nudge)%N.

Definition nudged (now : N) (s : AgentState) : bool :=
  takes_enter now s && existsb (due now (as_last_stop s) (as_last_nudge s)) (as_pending s).

Definition nudge (now : N) (d : Deliveries) : list string * Deliveries :=
  (keys (filter (fun kv => nudged now kv.2 = true) d),
   (fun s => if nudged now s then set_last_nudge now s else s) <$> d).

Definition lose_turn (s : AgentState) : AgentState :=
  if bool_decide (as_turn s = TurnIdle) then set_turn TurnUnknown s else s.

Definition lose_track (d : Deliveries) : Deliveries := lose_turn <$> d.
Definition lose_track_agent (agent : string) (d : Deliveries) : Deliveries := alter lose_turn agent d.

Definition forget (agent : string) (d : Deliveries) : list M * Deliveries :=
  (match d !! agent with Some s => pd_marker <$> as_pending s | None => [] end, delete agent d).

Definition idle (agent : string) (d : Deliveries) : bool :=
  match d !! agent with Some s => bool_decide (as_turn s = TurnIdle) | None => false end.
Definition pending (agent : string) (d : Deliveries) : nat :=
  match d !! agent with Some s => length (as_pending s) | None => 0 end.
End tracker.
Arguments Outcome : clear implicits.
Arguments Pending : clear implicits.
Arguments AgentState : clear implicits.
Notation Deliveries M := (gmap string (AgentState M)).

(** ** Runs *)

Section runs.
Context {M : Type}.
Implicit Types (d : Deliveries M) (s : AgentState M).

(** What a plugin does with the tracker. *)
Inductive DOp :=
| OSent (agent text : string) (marker : M) (window : N)
| OEvent (event : HookEvent)
| OExpire
| ONudge
| OLoseTrack
| OLoseTrackAgent (agent : string)
| OForget (agent : string).

(** An operation, when it ran, the markers it settled (evicted, confirmed,
    skipped, expired or forgotten) and the agents whose Enter it pressed. *)
Record Entry := mkEntry { en_time : N; en_op : DOp; en_settled : list M; en_nudged : list string }.

Definition dstep (now : N) (op : DOp) (d : Deliveries M) : list M * list string * Deliveries M :=
  match op with
  | OSent agent text marker window =>
      let '(evicted, d) := sent agent text marker now window d in (option_list evicted, [], d)
  | OEvent event =>
      let '(o, d) := on_event event now d in (option_list (oc_confirmed o) ++ oc_skipped o, [], d)
  | OExpire => let '(out, d) := expire now d in (out, [], d)
  | ONudge => let '(out, d) := nudge now d in ([], out, d)
  | OLoseTrack => ([], [], lose_track d)
  | OLoseTrackAgent agent => ([], [], lose_track_agent agent d)
  | OForget agent => let '(out, d) := forget agent d in (out, [], d)
  end.

(** The history, latest first, and the tracker. *)
Definition drun_op (st : list Entry * Deliveries M) (x : N * DOp) : list Entry * Deliveries M :=
  let '(settled, nudged, d) := dstep x.1 x.2 st.2 in (mkEntry x.1 x.2 settled nudged :: st.1, d).

Definition drun (ops : list (N * DOp)) : list Entry * Deliveries M := foldl drun_op ([], ∅) ops.

(** The markers a run began to track, and those still pending. *)
Definition tracked (op : DOp) : option M :=
  match op with
  | OSent _ text marker _ => if is_empty (normalize text) then None else Some marker
  | _ => None
  end.

Definition markers (s : AgentState M) : list M := pd_marker <$> as_pending s.
Definition all_pending (d : Deliveries M) : list M := map_to_list d ≫= (fun kv => markers kv.2).

(** ** Every prompt is accounted for *)

Lemma all_pending_insert agent s d :
  all_pending (<[agent := s]> d) ≡ₚ markers s ++ all_pending (delete agent d).
Proof.
  rewrite <- insert_delete_eq. unfold all_pending.
  rewrite map_to_list_insert by apply lookup_delete_eq. done.
Qed.

Lemma all_pending_entry agent d : all_pending d ≡ₚ markers (entry_of agent d) ++ all_pending (delete agent d).
Proof.
  unfold entry_of. destruct (d !! agent) as [s|] eqn:Hd; simpl.
  - rewrite <- all_pending_insert. by rewrite insert_id.
  - by rewrite delete_id.
Qed.

Lemma all_pending_fmap (f : AgentState M -> AgentState M) d :
  (forall s, markers (f s) = markers s) -> all_pending (f <$> d) = all_pending d.
Proof.
  intros Hf. unfold all_pending. rewrite map_to_list_fmap. induction (map_to_list d) as [|[k s] l IH]; [done|].
  rewrite fmap_cons, !bind_cons. simpl. rewrite Hf. f_equal. exact IH.
Qed.

Lemma sent_conserves agent text marker now window d :
  let '(evicted, d') := sent agent text marker now window d in
  option_list (tracked (OSent agent text marker window)) ++ all_pending d ≡ₚ option_list evicted ++ all_pending d'.
Proof.
  unfold sent, tracked. destruct (is_empty (normalize text)); [done|]. simpl option_list.
  set (p := {| pd_text := normalize text |}). set (l := as_pending (entry_of agent d)).
  assert (forall l', (pd_marker <$> l' : list M) ≡ₚ marker :: (pd_marker <$> l) ->
    [marker] ++ all_pending d ≡ₚ all_pending (<[agent := set_pending l' (entry_of agent d)]> d)) as Hins.
  { intros l' Hl. rewrite all_pending_insert, (all_pending_entry agent d). unfold markers at 2. simpl.
    rewrite Hl. done. }
  assert ((pd_marker <$> l ++ [p]) ≡ₚ marker :: (pd_marker <$> l)) as Hlp.
  { rewrite fmap_app. simpl. by rewrite <- Permutation_cons_append. }
  destruct (MAX_PENDING <? length (l ++ [p])); [|simpl; by rewrite <- Hins].
  destruct (l ++ [p]) as [|q l'] eqn:Hq; [by destruct l|]. simpl.
  rewrite all_pending_insert, (all_pending_entry agent d). unfold markers at 2. simpl.
  change (markers (entry_of agent d)) with (pd_marker <$> l). by rewrite app_comm_cons, <- Hlp.
Qed.

Lemma event_conserves event now d :
  let '(o, d') := on_event event now d in
  all_pending d ≡ₚ option_list (oc_confirmed o) ++ oc_skipped o ++ all_pending d'.
Proof.
  unfold on_event. set (s := entry_of (he_agent event) d).
  assert (let '(o, s') := event_state event now s in
    markers s ≡ₚ option_list (oc_confirmed o) ++ oc_skipped o ++ markers s') as Hs.
  { unfold event_state, markers. simpl.
    repeat case_bool_decide; try (simpl; done); [|by repeat (case_match; simpl)..].
    destruct (find_submitted _ _) as [i|]; [|done]. simpl.
    rewrite <- (take_drop i (as_pending s)) at 1. rewrite fmap_app.
    destruct (drop i (as_pending s)) as [|p l]; simpl; [done|].
    by rewrite <- Permutation_middle. }
  destruct (event_state event now s) as [o s']. rewrite all_pending_insert, (all_pending_entry (he_agent event) d).
  fold s. rewrite Hs. by rewrite <- !app_assoc.
Qed.

Lemma expire_conserves now d :
  let '(out, d') := expire now d in all_pending d ≡ₚ out ++ all_pending d'.
Proof.
  unfold expire, all_pending. rewrite map_to_list_fmap.
  induction (map_to_list d) as [|[k s] l IH]; [done|]. rewrite fmap_cons, !bind_cons, IH. simpl.
  assert (markers s ≡ₚ (expire_state now s).1 ++ markers (expire_state now s).2) as Hs.
  { unfold expire_state, markers. case_bool_decide; [done|]. simpl. rewrite <- fmap_app.
    apply fmap_Permutation. induction (as_pending s) as [|p q IHq]; [done|].
    rewrite !filter_cons. destruct (lapsed now (as_last_stop s) p); simpl.
    - by rewrite <- IHq.
    - by rewrite <- Permutation_middle, <- IHq. }
  rewrite Hs, <- !app_assoc. apply Permutation_app_head.
  rewrite !app_assoc. apply Permutation_app_tail, Permutation_app_comm.
Qed.

Lemma dstep_conserves now op d :
  let '(settled, _, d') := dstep now op d in
  option_list (tracked op) ++ all_pending d ≡ₚ settled ++ all_pending d'.
Proof.
  destruct op as [agent text marker window|event| | | |agent|agent]; cbn [dstep].
  - pose proof (sent_conserves agent text marker now window d) as Hs.
    by destruct (sent agent text marker now window d).
  - pose proof (event_conserves event now d) as Hs. destruct (on_event event now d) as [o d'].
    simpl. by rewrite <- app_assoc.
  - pose proof (expire_conserves now d) as Hs. by destruct (expire now d).
  - simpl. rewrite all_pending_fmap; [done|]. intros s. by destruct (nudged now s).
  - simpl. unfold lose_track. rewrite all_pending_fmap; [done|]. intros s. unfold lose_turn. by case_bool_decide.
  - simpl. unfold lose_track_agent. destruct (d !! agent) as [s|] eqn:Hd.
    + rewrite <- (insert_id d agent s Hd) at 2. rewrite alter_insert_eq, all_pending_insert.
      rewrite (all_pending_entry agent d). unfold entry_of. rewrite Hd. simpl. unfold lose_turn.
      by case_bool_decide.
    + by rewrite alter_id' by by rewrite Hd.
  - simpl. rewrite (all_pending_entry agent d). unfold entry_of. by destruct (d !! agent).
Qed.

(** ** The bound *)

Definition bounded d : Prop := forall a s, d !! a = Some s -> length (as_pending s) <= MAX_PENDING.

Lemma bounded_insert a s d : length (as_pending s) <= MAX_PENDING -> bounded d -> bounded (<[a := s]> d).
Proof.
  intros Hs Hd b s'. destruct (decide (b = a)) as [->|Hne].
  - rewrite lookup_insert_eq. by intros [= <-].
  - rewrite lookup_insert_ne by done. apply Hd.
Qed.

Lemma bounded_entry a d : bounded d -> length (as_pending (entry_of a d)) <= MAX_PENDING.
Proof.
  intros Hd. unfold entry_of. destruct (d !! a) eqn:Ha; simpl; [by eapply Hd|]. unfold MAX_PENDING. lia.
Qed.

Lemma bounded_fmap (f : AgentState M -> AgentState M) d :
  (forall s, length (as_pending (f s)) <= length (as_pending s)) -> bounded d -> bounded (f <$> d).
Proof.
  intros Hf Hd a s. rewrite lookup_fmap. destruct (d !! a) as [s0|] eqn:Ha; [|done].
  intros [= <-]. specialize (Hd _ _ Ha). specialize (Hf s0). lia.
Qed.

Lemma event_state_length event now s :
  length (as_pending (event_state event now s).2) <= length (as_pending s).
Proof.
  unfold event_state. simpl. repeat case_bool_decide; simpl; try lia; [|by repeat (case_match; simpl)..].
  destruct (find_submitted _ _) as [i|]; simpl; [|lia].
  rewrite length_tl, length_drop. lia.
Qed.

Lemma dstep_bounded now op d : bounded d -> bounded (dstep now op d).2.
Proof.
  intros Hd. destruct op as [agent text marker window|event| | | |agent|agent]; cbn [dstep].
  - pose proof (bounded_entry agent d Hd) as Hl. unfold sent. destruct (is_empty _); [done|].
    set (p := {| pd_text := normalize text |}).
    destruct (Nat.ltb_spec MAX_PENDING (length (as_pending (entry_of agent d) ++ [p]))) as [Hlt|Hlt].
    + destruct (as_pending (entry_of agent d) ++ [p]) as [|q l] eqn:Hq; simpl.
      * apply bounded_insert; [simpl; lia|done].
      * apply bounded_insert; [|done]. simpl. apply (f_equal length) in Hq.
        rewrite length_app in Hq. simpl in Hq. lia.
    + simpl. apply bounded_insert; [simpl; lia|done].
  - unfold on_event. pose proof (event_state_length event now (entry_of (he_agent event) d)) as Hl.
    destruct (event_state event now _) as [o s]. simpl in *. apply bounded_insert; [|done].
    pose proof (bounded_entry (he_agent event) d Hd). lia.
  - simpl. apply bounded_fmap; [|done]. intros s. unfold expire_state. case_bool_decide; simpl; [lia|].
    apply length_filter.
  - simpl. apply bounded_fmap; [|done]. intros s. destruct (nudged now s); simpl; lia.
  - simpl. apply bounded_fmap; [|done]. intros s. unfold lose_turn. case_bool_decide; simpl; lia.
  - simpl. intros a s. unfold lose_track_agent. rewrite lookup_alter. case_decide as Hag; [subst a|].
    + destruct (d !! agent) eqn:Ha; [|done]. simpl. intros [= <-]. unfold lose_turn.
      case_bool_decide; simpl; by eapply Hd.
    + apply Hd.
  - simpl. intros a s. rewrite lookup_delete_Some. intros [_ ?]. by eapply Hd.
Qed.

Lemma drun_snoc ops x : drun (ops ++ [x]) = drun_op (drun ops) x.
Proof. unfold drun. by rewrite foldl_app. Qed.

(** C37: no prompt is lost: in any run of the tracker, the prompts it was told
    of are, each once, either settled (confirmed, skipped, expired, evicted or
    forgotten, each answered to the caller) or still pending; and no agent has
    more than [MAX_PENDING] of them. *)
Theorem deliveries_conserved ops :
  let '(h, d) := drun ops in
  omap tracked ops.*2 ≡ₚ (h ≫= en_settled) ++ all_pending d /\ bounded d.
Proof.
  induction ops as [|[now op] ops IH] using rev_ind.
  - simpl. split; [done|]. intros a s. by rewrite lookup_empty.
  - rewrite drun_snoc. destruct (drun ops) as [h d]. destruct IH as [IH Hb]. unfold drun_op. simpl.
    pose proof (dstep_conserves now op d) as Hs. pose proof (dstep_bounded now op d Hb) as Hb'.
    destruct (dstep now op d) as [[settled nudged] d']. split; [|done].
    rewrite fmap_app, omap_app, IH, bind_cons. simpl en_settled.
    transitivity ((h ≫= en_settled) ++ (option_list (tracked op) ++ all_pending d)).
    + simpl. destruct (tracked op); solve_Permutation.
    + rewrite Hs. solve_Permutation.
Qed.

(** ** When Enter is pressed again *)

(** An event that says the agent waits for a prompt, and one that says
    nothing of its turn. *)
Definition settles (event : HookEvent) : bool :=
  bool_decide (he_name event = "Stop") ||
  bool_decide (he_name event = "SessionStart") &&
  negb (bool_decide (str_field (he_payload event) "source" = Some "compact")).

Definition neutral (event : HookEvent) : bool :=
  bool_decide (he_name event = "SessionStart") ||
  bool_decide (he_name event = "Notification") &&
  match str_field (he_payload event) "notification_type" with
  | Some k => bool_decide (k ∈ QUIET_NOTIFICATIONS)
  | None => false
  end.

(** What the history, latest first, says of an agent's turn. *)
Fixpoint known_idle (a : string) (h : list Entry) : bool :=
  match h with
  | [] => false
  | x :: h =>
      match en_op x with
      | OEvent event =>
          if bool_decide (he_agent event = a) then
            settles event || neutral event && known_idle a h
          else known_idle a h
      | OLoseTrack => false
      | OLoseTrackAgent b => negb (bool_decide (b = a)) && known_idle a h
      | OForget b => negb (bool_decide (b = a)) && known_idle a h
      | _ => known_idle a h
      end
  end.

Definition event_of (a : string) (x : Entry) : Prop :=
  match en_op x with OEvent event => he_agent event = a | _ => False end.

(** The prompt was sent by an operation of the history. *)
Definition sent_in (a : string) (h : list Entry) (p : Pending M) : Prop :=
  exists x text, x ∈ h /\ en_op x = OSent a text (pd_marker p) (pd_window p) /\
    pd_text p = normalize text /\ pd_sent_at p = en_time x.

Definition open_for_enter (s : AgentState M) : Prop :=
  as_turn s = TurnIdle /\ as_prompt_open s = false /\ as_question_open s = false.

Record agent_ok (a : string) (h : list Entry) (s : AgentState M) : Prop := {
  ok_idle : open_for_enter s -> known_idle a h = true;
  ok_event : open_for_enter s -> exists e, as_last_event s = Some e /\
    forall x, x ∈ h -> (event_of a x -> (en_time x <= e)%N) /\
      (a ∈ en_nudged x -> (en_time x <= e)%N \/ exists n, as_last_nudge s = Some n /\ (en_time x <= n)%N);
  ok_pending p : p ∈ as_pending s -> sent_in a h p;
}.

Definition ignored (a : string) (x : Entry) : Prop :=
  (forall h, known_idle a (x :: h) = known_idle a h) /\ ~ event_of a x /\ a ∉ en_nudged x.

Lemma sent_in_cons a x h p : sent_in a h p -> sent_in a (x :: h) p.
Proof. intros (y & t & Hy & ?). exists y, t. split; [by right|done]. Qed.

Lemma agent_ok_default a h : agent_ok a h default_state.
Proof. split; [by intros [? _]|by intros [? _]|]. intros p. by intros ?%elem_of_nil. Qed.

(** An operation that says nothing of the agent, which keeps its turn and its
    clocks. *)
Lemma agent_ok_ignored a x h s s' :
  ignored a x -> agent_ok a h s ->
  (open_for_enter s' -> open_for_enter s /\ as_last_event s' = as_last_event s /\ as_last_nudge s' = as_last_nudge s) ->
  (forall p, p ∈ as_pending s' -> p ∈ as_pending s \/ sent_in a (x :: h) p) ->
  agent_ok a (x :: h) s'.
Proof.
  intros (Hk & He & Hn) [H1 H2 H3] Hs Hp. split.
  - intros [Ho _]%Hs. rewrite Hk. by apply H1.
  - intros (Ho & -> & ->)%Hs. destruct (H2 Ho) as (e & Hl & Hall). exists e. split; [done|].
    intros y [->|Hy]%elem_of_cons; [done|by apply Hall].
  - intros p Hin. destruct (Hp p Hin) as [Hold|]; [by apply sent_in_cons, H3|done].
Qed.

(** An event of the agent, at a time no earlier one follows. *)
Lemma agent_ok_fresh a x h s' :
  Forall (fun y => (en_time y <= en_time x)%N) h ->
  (open_for_enter s' -> known_idle a (x :: h) = true /\ as_last_event s' = Some (en_time x)) ->
  (forall p, p ∈ as_pending s' -> sent_in a h p) ->
  agent_ok a (x :: h) s'.
Proof.
  intros Ht Hs Hp. split.
  - by intros [? _]%Hs.
  - intros [_ He]%Hs. exists (en_time x). split; [done|]. intros y Hy.
    assert (en_time y <= en_time x)%N; [|tauto].
    apply elem_of_cons in Hy as [->|Hy]; [lia|]. rewrite Forall_forall in Ht. by apply Ht.
  - intros p Hin. by apply sent_in_cons, Hp.
Qed.

Lemma event_state_open event now s :
  open_for_enter (event_state event now s).2 ->
  as_last_event (event_state event now s).2 = Some now /\
  (settles event = true \/ neutral event = true /\ open_for_enter s).
Proof.
  unfold event_state, settles, neutral, open_for_enter. simpl.
  case_bool_decide as H1; [by destruct (find_submitted _ _); intros [? _]|].
  case_bool_decide as H2; [simpl; auto|].
  case_bool_decide as H3; [simpl; by intros [? _]|].
  case_bool_decide as H4; [simpl; case_bool_decide; simpl; naive_solver|].
  case_bool_decide as H5; [|simpl; by repeat case_bool_decide; simpl; intros [? _]].
  destruct (match str_field (he_payload event) "notification_type" with
            | Some k => bool_decide (k ∈ QUIET_NOTIFICATIONS) | None => false end); simpl; [naive_solver|].
  by intros (_ & ? & _).
Qed.

Lemma event_state_pending event now s p :
  p ∈ as_pending (event_state event now s).2 -> p ∈ as_pending s.
Proof.
  unfold event_state. simpl. repeat case_bool_decide; simpl; try done; [|by repeat (case_match; simpl)..].
  destruct (find_submitted _ _) as [i|]; simpl; [|done]. intros Hp.
  rewrite <- (take_drop i (as_pending s)). apply elem_of_app. right.
  destruct (drop i (as_pending s)); [by apply elem_of_nil in Hp|by right].
Qed.

Definition trackers_ok (h : list Entry) d : Prop := forall a s, d !! a = Some s -> agent_ok a h s.

Lemma entry_ok a h d : trackers_ok h d -> agent_ok a h (entry_of a d).
Proof. intros Hd. unfold entry_of. destruct (d !! a) eqn:Ha; simpl; [by apply Hd|apply agent_ok_default]. Qed.

Lemma sent_ok h agent text marker now window d :
  trackers_ok h d ->
  let '(evicted, d') := sent agent text marker now window d in
  trackers_ok (mkEntry now (OSent agent text marker window) (option_list evicted) [] :: h) d'.
Proof.
  intros Hd. set (x := fun settled => mkEntry now (OSent agent text marker window) settled []).
  assert (forall a settled, ignored a (x settled)) as Hx.
  { intros a settled. split; [done|]. split; [by intros ?|apply not_elem_of_nil]. }
  assert (forall settled, trackers_ok (x settled :: h) d) as Hsame.
  { intros settled a s Ha. by apply (agent_ok_ignored a (x settled) h s s); auto. }
  unfold sent. destruct (is_empty (normalize text)); [apply Hsame|].
  set (p := {| pd_text := normalize text |}).
  assert (forall settled l, (forall q, q ∈ l -> q ∈ as_pending (entry_of agent d) ++ [p]) ->
    trackers_ok (x settled :: h) (<[agent := set_pending l (entry_of agent d)]> d)) as Hins.
  { intros settled l Hl a s. destruct (decide (a = agent)) as [->|Hne].
    - rewrite lookup_insert_eq. intros [= <-].
      apply (agent_ok_ignored agent (x settled) h (entry_of agent d)); [done|by apply entry_ok|done|].
      intros q Hq. apply Hl, elem_of_app in Hq as [Hq|Hq]; [by left|right].
      apply list_elem_of_singleton in Hq as ->. exists (x settled), text. by split; [left|].
    - rewrite lookup_insert_ne by done. apply Hsame. }
  destruct (MAX_PENDING <? _); [|by apply Hins].
  destruct (as_pending (entry_of agent d) ++ [p]) as [|q l] eqn:Hq;
    apply Hins; intros r Hr; [done|by right].
Qed.

Lemma fmap_ok x h (f : AgentState M -> AgentState M) d :
  trackers_ok h d ->
  (forall a s, d !! a = Some s -> agent_ok a h s -> agent_ok a (x :: h) (f s)) ->
  trackers_ok (x :: h) (f <$> d).
Proof.
  intros Hd Hf a s. rewrite lookup_fmap. destruct (d !! a) as [s0|] eqn:Ha; [|done].
  intros [= <-]. by apply Hf; [|apply Hd].
Qed.

Lemma dstep_ok now op h d :
  Forall (fun y => (en_time y <= now)%N) h -> trackers_ok h d ->
  let '(settled, nudged, d') := dstep now op d in trackers_ok (mkEntry now op settled nudged :: h) d'.
Proof.
  intros Ht Hd. destruct op as [agent text marker window|event| | | |agent|agent]; cbn [dstep].
  - pose proof (sent_ok h agent text marker now window d Hd) as Hs.
    by destruct (sent agent text marker now window d).
  - unfold on_event. pose proof (event_state_open event now (entry_of (he_agent event) d)) as Ho.
    pose proof (event_state_pending event now (entry_of (he_agent event) d)) as Hp.
    destruct (event_state event now _) as [o s']. simpl in Ho, Hp. intros a s.
    destruct (decide (a = he_agent event)) as [->|Hne].
    + rewrite lookup_insert_eq. intros [= <-]. pose proof (entry_ok (he_agent event) h d Hd) as Hok.
      apply agent_ok_fresh; [done|..].
      * intros Hopen. destruct (Ho Hopen) as [-> Hs]. split; [|done]. simpl.
        rewrite bool_decide_eq_true_2 by done. destruct Hs as [->|[-> Hs]]; [done|].
        rewrite (ok_idle _ _ _ Hok Hs). by destruct (settles event).
      * intros p Hin. apply (ok_pending _ _ _ Hok). by apply Hp.
    + rewrite lookup_insert_ne by done. intros Ha.
      apply (agent_ok_ignored a (mkEntry now (OEvent event) _ []) h s s); [|by apply Hd|done|auto].
      split; [intros h'; simpl; by rewrite bool_decide_eq_false_2 by congruence|].
      split; [by intros ?|apply not_elem_of_nil].
  - apply fmap_ok; [done|]. intros a s Ha Hok. apply (agent_ok_ignored a (mkEntry now OExpire _ []) h s);
      [split; [done|split; [by intros ?|apply not_elem_of_nil]]|done|..];
      unfold expire_state; case_bool_decide; simpl; auto.
    intros p [_ ?]%list_elem_of_filter. by left.
  - simpl. apply fmap_ok; [done|]. intros a s Ha [H1 H2 H3]. split.
    + intros Ho. simpl. apply H1. by destruct (nudged now s).
    + intros Ho. destruct H2 as (e & He & Hall); [by destruct (nudged now s)|].
      exists e. split; [by destruct (nudged now s)|].
      intros y [->|Hy]%elem_of_cons; simpl.
      * split; [by intros ?|]. rewrite elem_of_keys. intros [s' Hs'].
        apply map_lookup_filter_Some in Hs' as [Hs' Hn]. simpl in Hn. rewrite Ha in Hs'. injection Hs' as <-.
        rewrite Hn. right. exists now. done.
      * destruct (Hall y Hy) as [Hev Hnu]. split; [done|]. intros Hin. destruct (nudged now s).
        -- right. exists now. split; [done|]. rewrite Forall_forall in Ht. by apply Ht.
        -- by apply Hnu.
    + intros p Hp. apply sent_in_cons, H3. by destruct (nudged now s).
  - simpl. apply fmap_ok; [done|]. intros a s Ha [H1 H2 H3].
    assert (~ open_for_enter (lose_turn s)) as Hno.
    { unfold lose_turn. intros [Ho _]. case_bool_decide; simpl in Ho; congruence. }
    split; [done|done|]. intros p Hp. apply sent_in_cons, H3. unfold lose_turn in Hp. by case_bool_decide.
  - simpl. intros a s. unfold lose_track_agent. rewrite lookup_alter. case_decide as Heq.
    + subst a. destruct (d !! agent) as [s0|] eqn:Ha; [|done]. simpl. intros [= <-].
      assert (~ open_for_enter (lose_turn s0)) as Hno.
      { unfold lose_turn. intros [Ho _]. case_bool_decide; simpl in Ho; congruence. }
      split; [done|done|]. intros p Hp. apply sent_in_cons, (ok_pending _ _ _ (Hd _ _ Ha)).
      unfold lose_turn in Hp. by case_bool_decide.
    + intros Ha. apply (agent_ok_ignored a (mkEntry now (OLoseTrackAgent agent) [] []) h s s);
        [|by apply Hd|done|auto].
      split; [intros h'; simpl; by rewrite bool_decide_eq_false_2|]. split; [by intros ?|apply not_elem_of_nil].
  - simpl. intros a s. rewrite lookup_delete_Some. intros [Hne Ha].
    apply (agent_ok_ignored a (mkEntry now (OForget agent) _ []) h s s); [|by apply Hd|done|auto].
    split; [intros h'; simpl; by rewrite bool_decide_eq_false_2|]. split; [by intros ?|apply not_elem_of_nil].
Qed.

Lemma drun_times ops y : y ∈ (drun ops).1 -> en_time y ∈ ops.*1.
Proof.
  induction ops as [|[now op] ops IH] using rev_ind; [by intros ?%elem_of_nil|].
  rewrite drun_snoc. unfold drun_op. destruct (dstep _ _ _) as [[settled out] d']. simpl.
  rewrite fmap_app. intros [->|Hy]%elem_of_cons; apply elem_of_app; [right; by left|left; by apply IH].
Qed.

Lemma drun_ok ops : StronglySorted N.le ops.*1 -> trackers_ok (drun ops).1 (drun ops).2.
Proof.
  induction ops as [|[now op] ops IH] using rev_ind; intros Hs.
  - intros a s. simpl. by rewrite lookup_empty.
  - rewrite fmap_app in Hs. apply StronglySorted_app in Hs as (Hle & Hs & _). specialize (IH Hs).
    rewrite drun_snoc. unfold drun_op. pose proof (dstep_ok now op (drun ops).1 (drun ops).2) as Hd.
    simpl. destruct (dstep now op (drun ops).2) as [[settled out] d']. simpl. apply Hd; [|done].
    apply Forall_forall. intros y Hy. apply Hle; [by apply drun_times|by left].
Qed.

(** Enter is pressed again only where it can do nothing but submit a
    waiting prompt: on an agent whose last word was a [Stop] or a fresh
    [SessionStart], with no sign of a turn, no dialog, no lost events since; not
    within five seconds of any of its events nor of an earlier press; and for a
    prompt the plugin sent it, still pending, whose clock has run less than
    [NUDGE_FOR] and less than its window. *)
Theorem nudge_safe ops now a :
  StronglySorted N.le (ops.*1 ++ [now]) ->
  let '(h, d) := drun ops in
  a ∈ (nudge now d).1 ->
  known_idle a h = true /\
  (forall x, x ∈ h -> event_of a x \/ a ∈ en_nudged x -> (en_time x + NUDGE_AFTER <= now)%N) /\
  exists s p, d !! a = Some s /\ p ∈ as_pending s /\ sent_in a h p /\
    (start_of (as_last_stop s) p + NUDGE_AFTER <= now < start_of (as_last_stop s) p + NUDGE_FOR)%N /\
    (pd_window p = 0%N \/ (now < start_of (as_last_stop s) p + pd_window p)%N).
Proof.
  intros Hs. apply StronglySorted_app in Hs as (_ & Hs & _). pose proof (drun_ok ops Hs) as Hok.
  destruct (drun ops) as [h d]. simpl in Hok. simpl. rewrite elem_of_keys.
  intros [s [Ha Hn]%map_lookup_filter_Some]. simpl in Hn. specialize (Hok a s Ha).
  unfold nudged, takes_enter in Hn. destruct_bools. destruct (ok_event _ _ _ Hok) as (e & He & Hall); [done|].
  rewrite He in *. split; [by apply (ok_idle _ _ _ Hok)|].
  match goal with H : existsb _ _ = true |- _ => apply existsb_exists in H as (p & Hp & Hdue) end.
  apply list_elem_of_In in Hp. unfold due in Hdue. destruct_bools.
  repeat match goal with H : (_ <=? _)%N = true |- _ => apply N.leb_le in H
                       | H : (_ <? _)%N = true |- _ => apply N.ltb_lt in H end.
  assert (0 < NUDGE_AFTER)%N by done. split.
  - intros x Hx Hor. destruct (Hall x Hx) as [Hev Hnu].
    assert ((en_time x <= e)%N \/ exists n, as_last_nudge s = Some n /\ (en_time x <= n)%N) as [?|(n & Hnn & ?)]
      by (destruct Hor; auto); [lia|].
    rewrite Hnn in *. lia.
  - exists s, p. split_and!; [done..|by apply (ok_pending _ _ _ Hok)| | |].
    + destruct (as_last_nudge s); lia.
    + lia.
    + match goal with H : _ || _ = true |- _ => apply orb_true_iff in H as [?%N.eqb_eq|?%N.ltb_lt] end; [by left|].
      right. destruct (as_last_nudge s); lia.
Qed.

(** ** What a submitted prompt confirms *)

Lemma list_find_app_first {A} (P : A -> Prop) `{!forall x, Decision (P x)} l1 x l2 :
  Forall (fun y => ~ P y) l1 -> P x -> list_find P (l1 ++ x :: l2) = Some (length l1, x).
Proof.
  intros H1 Hx. induction H1 as [|y l1 Hy _ IH]; simpl; [by rewrite decide_True|].
  rewrite decide_False by done. by rewrite IH.
Qed.

Lemma find_submitted_first cs older p newer :
  (exists c, c ∈ cs /\ normalize c = pd_text p) ->
  (forall c q, c ∈ cs -> q ∈ older -> pd_text q <> normalize c) ->
  (forall c q, c ∈ cs -> q ∈ newer -> pd_text q = normalize c -> pd_text q = pd_text p) ->
  find_submitted (M := M) cs (older ++ p :: newer) = Some (length older).
Proof.
  intros (c & Hc & Hcp) Hold Hnew. induction cs as [|c' cs IH]; [by apply elem_of_nil in Hc|]. cbn [find_submitted].
  destruct (decide (normalize c' = pd_text p)) as [Heq|Hne].
  - rewrite (list_find_app_first _ older p newer); [done| |done].
    apply Forall_forall. intros q Hq. apply Hold; [by left|done].
  - destruct (list_find _ _) as [[i q]|] eqn:Hf.
    + exfalso. apply list_find_Some in Hf as (Hi & Hq & _). apply list_elem_of_lookup_2 in Hi.
      apply elem_of_app in Hi as [Hi|[->|Hi]%elem_of_cons].
      * by eapply (Hold c' q); [left|..].
      * congruence.
      * apply Hne. rewrite <- Hq. eapply Hnew; [by left|done..].
    + apply IH.
      * apply elem_of_cons in Hc as [->|Hc]; done.
      * intros c0 q H0 Hq. apply Hold; [by right|done].
      * intros c0 q H0 Hq. apply Hnew; [by right|done].
Qed.

(** a submitted prompt confirms the text that was typed: when the agent's
    [UserPromptSubmit] carries the text of a pending prompt in any form Claude
    submits it in, and none of the readings of that form is another pending
    prompt's text, that prompt is confirmed, the older ones are skipped (each
    answered), and the newer ones stay pending. *)
Theorem submit_confirms event now (d : Deliveries M) s text prompt older p newer :
  utf8 text -> submission text prompt ->
  he_name event = "UserPromptSubmit" -> str_field (he_payload event) "prompt" = Some prompt ->
  d !! he_agent event = Some s -> as_pending s = older ++ p :: newer -> pd_text p = normalize text ->
  (forall c q, c ∈ submitted_candidates prompt -> q ∈ older -> pd_text q <> normalize c) ->
  (forall c q, c ∈ submitted_candidates prompt -> q ∈ newer -> pd_text q = normalize c -> pd_text q = pd_text p) ->
  let '(o, d') := on_event event now d in
  oc_confirmed o = Some (pd_marker p) /\ oc_skipped o = pd_marker <$> older /\
  exists s', d' !! he_agent event = Some s' /\ as_pending s' = newer /\ as_turn s' = TurnBusy.
Proof.
  intros Hu Hsub Hname Hprompt Hd Hs Hp Hold Hnew.
  destruct (submission_matches text prompt Hu Hsub) as (c & Hc & Hcn).
  assert (find_submitted (submitted_candidates prompt) (older ++ p :: newer) = Some (length older)) as Hf.
  { apply find_submitted_first; [|done..]. exists c. split; [done|congruence]. }
  unfold on_event, entry_of. rewrite Hd. simpl. unfold event_state. rewrite bool_decide_eq_true_2 by done.
  rewrite Hprompt. simpl. rewrite Hs, Hf, drop_app_length, take_app_length. simpl.
  split; [done|]. split; [done|]. eexists. by rewrite lookup_insert_eq.
Qed.
End runs.

Definition plain_event (agent name : string) (fields : list (string * Value)) : HookEvent :=
  {| he_agent := agent; he_name := name; he_session_id := None; he_received_at := 0; he_payload := VObject (list_to_map fields) |}.

(** An agent that started, was sent a prompt whose Enter was swallowed, and is
    nudged seven seconds later. *)
Definition sample_ops : list (N * DOp (M := string)) :=
  [(secs 1, OEvent (plain_event "f/c/a" "SessionStart" [])); (secs 2, OSent "f/c/a" "fix  the bug" "m1" (secs 60))].

Lemma nudge_safe_witness :
  (nudge (secs 9) (drun sample_ops).2).1 = ["f/c/a"] /\ known_idle "f/c/a" (drun sample_ops).1 = true.
Proof.
  split; [vm_compute; reflexivity|].
  refine (proj1 (nudge_safe sample_ops (secs 9) "f/c/a" _ _)).
  - repeat first [apply SSorted_cons | apply SSorted_nil | apply Forall_cons; split | apply Forall_nil; done];
      vm_compute; discriminate.
  - apply (bool_decide_unpack _). vm_compute. exact I.
Defined.

Definition submit_event : HookEvent :=
  plain_event "f/c/a" "UserPromptSubmit" [("prompt", VString ("fix  the bug" +:+ PASTE_LEAD))].

Lemma submit_confirms_witness :
  oc_confirmed (on_event submit_event (secs 20) (drun sample_ops).2).1 = Some "m1".
Proof.
  pose proof (submit_confirms submit_event (secs 20) (drun sample_ops).2
    (entry_of "f/c/a" (drun sample_ops).2) "fix  the bug" ("fix  the bug" +:+ PASTE_LEAD) []
    {| pd_text := "fix the bug"; pd_marker := "m1"; pd_sent_at := secs 2; pd_window := secs 60 |} []) as H.
  destruct (on_event submit_event (secs 20) (drun sample_ops).2) as [o d'].
  apply H; clear H;
    [by apply ascii_only_utf8|apply sub_lead|reflexivity|vm_compute; reflexivity..
    |by intros c q _ ?%elem_of_nil|by intros c q _ ?%elem_of_nil].
Defined.
