(* ===== verification/Manifest.v ===== *)
(** Plugins as the daemon sees them ([crates/balerix-core/src/plugin.rs], the
    manifest types of [crates/balerix-api/src/plugin.rs]): the package manifest
    and the rules it passes, the resolved plugin and what of it restarts the
    plugin, and the synthetic fleet the reconciler drives plugins through. *)

From S2P Require Import Prelude Str BTree Names Json SandboxBlock Fleet Config.
From S2P Require Repo.

(** ** The package manifest *)

Definition PLUGIN_PROTOCOL : N := 1.
Definition PLUGIN_KIND : string := "Plugin".

Definition HOOK_EVENTS : list string :=
  ["SessionStart"; "SessionEnd"; "UserPromptSubmit"; "PreToolUse"; "PostToolUse";
   "Notification"; "Stop"; "SubagentStop"; "PreCompact"].

Inductive Capability := CapFleets | CapActions | CapAttach | CapKv | CapWorkspace | CapManage.
#[export] Instance capability_eq_dec : EqDecision Capability.
Proof. solve_decision. Defined.
#[export] Program Instance capability_countable : Countable Capability :=
  inj_countable
    (fun c => match c with CapFleets => 0 | CapActions => 1 | CapAttach => 2
                         | CapKv => 3 | CapWorkspace => 4 | CapManage => 5 end)%nat
    (fun n => nth_error [CapFleets; CapActions; CapAttach; CapKv; CapWorkspace; CapManage] n) _.
Next Obligation. by intros []. Qed.

Record HookSubscriptions := {
  hooks_observe : gset string;
  hooks_intercept : gset string;
}.

Record PluginManifest := {
  pm_api_version : string;
  pm_kind : string;
  pm_name : string;
  pm_version : string;
  pm_protocol : N;
  pm_start : string;
  pm_hooks : HookSubscriptions;
  pm_needs : gset Capability;
  pm_routes : bool;
  pm_sandbox : Value;
}.

#[export] Instance hook_subscriptions_eq_dec : EqDecision HookSubscriptions.
Proof. solve_decision. Defined.
#[export] Instance plugin_manifest_eq_dec : EqDecision PluginManifest.
Proof. solve_decision. Defined.

(** ** Reserved names and ids *)

Definition PLUGIN_CREW : string := "plugins".

Definition is_reserved_fleet (name : string) : bool := bool_decide (name = RESERVED_FLEET).

Definition reserved_plugin_reason (name : string) : option string :=
  if bool_decide (name = "kubernetes") then Some "reserved: it is the owner name of the operator's fleets"
  else None.

(** [RESERVED_FLEET.parse()] and [PLUGIN_CREW.parse()]: [reserved_names_parse]
    is why the [unreachable!] arms are. *)
Definition reserved_fleet : FleetName := @mkName KFleet RESERVED_FLEET eq_refl.
Definition plugin_crew : CrewName := @mkName KCrew PLUGIN_CREW eq_refl.

Lemma reserved_names_parse :
  from_str RESERVED_FLEET = Ok reserved_fleet /\ from_str PLUGIN_CREW = Ok plugin_crew.
Proof. split; by apply try_from_Ok. Qed.

Definition plugin_id (name : AgentName) : AgentId :=
  {| id_fleet := reserved_fleet; id_crew := plugin_crew; id_agent := name |}.

(** ** Resolved plugins *)

Record ResolvedPlugin := {
  rp_name : AgentName;
  rp_package : string;
  rp_manifest : PluginManifest;
  rp_config : Value;
  rp_fleet_defaults : Value;
  rp_digest : option string;
}.

Record PluginHashInput := {
  phi_package : string;
  phi_manifest : PluginManifest;
  phi_config : Value;
  phi_digest : option string;
}.

Definition plugin_hash_input (p : ResolvedPlugin) : PluginHashInput :=
  {| phi_package := rp_package p; phi_manifest := rp_manifest p;
     phi_config := rp_config p; phi_digest := rp_digest p |}.

(** The SHA-256, in hex, of the canonical JSON of a [PluginHashInput]: code of
    [sha2], [hex] and [serde_json]. *)
Class PluginDigest := plugin_digest : PluginHashInput -> string.

(** [ResolvedPlugin::hash]. *)
Definition plugin_hash `{PluginDigest} (p : ResolvedPlugin) : string :=
  plugin_digest (plugin_hash_input p).

(** ** The rules on a manifest *)

Inductive ManifestError :=
| EManifest (path message : string)
| EMiseToml (path message : string).

(** The text of a [ManifestError] ([path_prefix] included). *)
Definition path_prefix (path : string) : string :=
  if is_empty path then EmptyString else path +:+ ": ".
Definition manifest_error_text (e : ManifestError) : string :=
  match e with
  | EManifest path message => "balerix-plugin.yaml: " +:+ path +:+ ": " +:+ message
  | EMiseToml path message => "mise.toml: " +:+ path_prefix path +:+ message
  end.

(** [toml::Value]; the scalars that are no string are not told apart. *)
Inductive TomlValue :=
| TomlString (s : string)
| TomlTable (m : gmap string TomlValue)
| TomlOther.

(** [text.parse::<toml::Table>()] of the [toml] crate. *)
Class TomlParse := toml_parse : string -> result string (gmap string TomlValue).

Section rules.
Context `{Unicode}.

Definition unknown_event (e : string) : Prop := e ∉ HOOK_EVENTS.

Definition check_events (list : string) (events : gset string) : result ManifestError unit :=
  match filter unknown_event (elems events) with
  | e :: _ => Err (EManifest list ("unknown event " +:+ debug_str e))
  | [] => Ok tt
  end.

Definition validate_manifest_fields (m : PluginManifest) : result ManifestError unit :=
  if negb (bool_decide (pm_api_version m = API_VERSION)) then
    Err (EManifest "apiVersion" ("expected " +:+ debug_str API_VERSION +:+ ", got "
                                 +:+ debug_str (pm_api_version m)))
  else if negb (bool_decide (pm_kind m = PLUGIN_KIND)) then
    Err (EManifest "kind" ("expected " +:+ debug_str PLUGIN_KIND +:+ ", got "
                           +:+ debug_str (pm_kind m)))
  else match validate_name (pm_name m) with
  | Err reason =>
      Err (EManifest "name" ("invalid plugin name " +:+ debug_str (pm_name m) +:+ ": " +:+ reason))
  | Ok _ =>
  if is_empty (trim (pm_version m)) then Err (EManifest "version" "must not be empty")
  else if negb (pm_protocol m =? PLUGIN_PROTOCOL)%N then
    Err (EManifest "protocol" ("this daemon speaks protocol " +:+ pretty PLUGIN_PROTOCOL
                               +:+ ", got " +:+ pretty (pm_protocol m)))
  else if is_empty (trim (pm_start m)) then Err (EManifest "start" "must not be empty")
  else
    _ ← check_events "hooks.observe" (hooks_observe (pm_hooks m));
    _ ← check_events "hooks.intercept" (hooks_intercept (pm_hooks m));
    if negb (is_object (pm_sandbox m)) then Err (EManifest "sandbox" "expected a mapping")
    else Ok tt
  end.

Definition not_a_table (key : string) : ManifestError := EMiseToml key "expected a table".

(** The version a tool of [mise.toml] is given: the string, or its table's. *)
Definition tool_version (k : string) (v : TomlValue) : result ManifestError string :=
  let bad := EMiseToml ("tools." +:+ k) "expected a version string" in
  match v with
  | TomlString s => Ok s
  | TomlTable t => match t !! "version" with Some (TomlString s) => Ok s | _ => Err bad end
  | TomlOther => Err bad
  end.

(** The body of [for (k, v) in tools]. *)
Definition check_tool (e : string * TomlValue) : result ManifestError unit :=
  let '(k, v) := e in
  version ← tool_version k v;
  ensure (is_exact_version version)
    (EMiseToml ("tools." +:+ k) (exact_version_message k version)).

Definition validate_mise_toml `{TomlParse} (text start : string) : result ManifestError unit :=
  doc ← map_err (EMiseToml EmptyString) (toml_parse text);
  tools ← match doc !! "tools" with
          | None => Ok None
          | Some (TomlTable t) => Ok (Some t)
          | Some _ => Err (not_a_table "tools")
          end;
  _ ← match tools with Some t => try_each check_tool (entries t) | None => Ok tt end;
  defined ← match doc !! "tasks" with
            | None => Ok false
            | Some (TomlTable t) => Ok (bool_decide (is_Some (t !! start)))
            | Some _ => Err (not_a_table "tasks")
            end;
  ensure defined
    (EMiseToml ("tasks." +:+ start) "the manifest's `start` task is not defined").

Definition validate_manifest `{TomlParse} (m : PluginManifest) (mise_toml : string)
    : result ManifestError unit :=
  _ ← validate_manifest_fields m;
  _ ← map_err (fun r => EManifest (path_under r "sandbox") (sr_message r))
        (check_sandbox_block PolicyPlugin (pm_sandbox m));
  validate_mise_toml mise_toml (pm_start m).
End rules.

(** ** The plugin fleet *)

Definition plugin_settings `{PluginDigest} (p : ResolvedPlugin) : AgentSettings :=
  {| as_claude := default_claude; as_sandbox := empty_object; as_tools := ∅;
     as_env := <["BALERIX_PLUGIN_HASH" := plugin_hash p]> ∅;
     as_runner := Tmux; as_plugins := ∅; as_branch := None |}.

Definition plugin_fleet `{PluginDigest} (plugins : list ResolvedPlugin) : Fleet :=
  {| fleet_name := reserved_fleet; fleet_tools := ∅;
     fleet_crews :=
       {[ plugin_crew :=
          {| crew_repo := Repo.Local "/dev/null"; crew_git_ref := "none";
             crew_git := {| git_push := false; git_auth := AuthNone; git_identity := None |};
             crew_tools := ∅;
             crew_agents := collect ((fun p => (rp_name p, plugin_settings p)) <$> plugins) |} ]} |}.

(** ** What the rules accept *)

Section accepts.
Context `{Unicode, TomlParse}.

Definition events_known (events : gset string) : Prop := forall e, e ∈ events -> e ∈ HOOK_EVENTS.

Record fields_ok (m : PluginManifest) : Prop := {
  fo_version : pm_api_version m = "balerix/v1";
  fo_kind : pm_kind m = "Plugin";
  fo_name : validate_name (pm_name m) = Ok tt;
  fo_plugin_version : trim (pm_version m) <> EmptyString;
  fo_protocol : pm_protocol m = 1%N;
  fo_start : trim (pm_start m) <> EmptyString;
  fo_observe : events_known (hooks_observe (pm_hooks m));
  fo_intercept : events_known (hooks_intercept (pm_hooks m));
  fo_sandbox : exists o, pm_sandbox m = VObject o;
}.

(** Every tool a version of which is named is pinned, and the start task is there. *)
Definition toml_ok (doc : gmap string TomlValue) (start : string) : Prop :=
  (forall v, doc !! "tools" = Some v -> exists tools, v = TomlTable tools /\
     forall k t, tools !! k = Some t -> exists version,
       (t = TomlString version \/
        exists table, t = TomlTable table /\ table !! "version" = Some (TomlString version)) /\
       is_exact_version version = true) /\
  exists tasks, doc !! "tasks" = Some (TomlTable tasks) /\ is_Some (tasks !! start).

Lemma check_events_Ok l events : check_events l events = Ok tt <-> events_known events.
Proof.
  unfold check_events, events_known.
  destruct (filter unknown_event (elems events)) as [|e es] eqn:He; (split; [|try done]).
  - intros _ e Hin. destruct (decide (e ∈ HOOK_EVENTS)) as [|Hn]; [done|].
    assert (e ∈ filter unknown_event (elems events)) as Hf
      by (apply list_elem_of_filter; split; [done|by apply elem_of_elems]).
    rewrite He in Hf. by apply not_elem_of_nil in Hf.
  - done.
  - intros Hk. assert (e ∈ filter unknown_event (elems events)) as [Hu Hin]%list_elem_of_filter
      by (rewrite He; left).
    by apply elem_of_elems, Hk in Hin.
Qed.

Lemma validate_manifest_fields_Ok m : validate_manifest_fields m = Ok tt <-> fields_ok m.
Proof.
  unfold validate_manifest_fields.
  case_bool_decide as H1; simpl; [|split; [done|by intros []]].
  case_bool_decide as H2; simpl; [|split; [done|by intros []]].
  destruct (validate_name (pm_name m)) as [[]|] eqn:H3; [|split; [done|intros []; congruence]].
  unfold is_empty. case_bool_decide as H4; [split; [done|by intros []]|].
  destruct (N.eqb_spec (pm_protocol m) PLUGIN_PROTOCOL) as [H5|H5]; simpl;
    [|split; [done|by intros []]].
  case_bool_decide as H6; [split; [done|by intros []]|].
  rewrite !bind_unit_Ok, !check_events_Ok.
  split.
  - intros (H7 & H8 & H9). destruct (pm_sandbox m) eqn:Hs; simpl in H9; try done.
    split; try done. by eexists.
  - intros []. destruct fo_sandbox0 as [o ->]. done.
Qed.

Lemma check_tool_Ok k t : check_tool (k, t) = Ok tt <->
  exists version, (t = TomlString version \/
    exists table, t = TomlTable table /\ table !! "version" = Some (TomlString version)) /\
    is_exact_version version = true.
Proof.
  unfold check_tool. rewrite bind_Ok. setoid_rewrite ensure_Ok. unfold tool_version.
  split; intros (v & Hv & ?); exists v; (split; [|done]).
  - destruct t as [s|table|]; simplify_eq; [by left|].
    destruct (table !! "version") as [[]|] eqn:?; simplify_eq. right. eauto.
  - destruct Hv as [->|(table & -> & ->)]; done.
Qed.

Lemma tasks_defined (tasks : option TomlValue) start :
  (exists a : bool, match tasks with
     | Some (TomlTable t) => Ok (bool_decide (is_Some (t !! start)))
     | Some _ => Err (not_a_table "tasks")
     | None => Ok false
     end = Ok a /\ a = true) <->
  exists table, tasks = Some (TomlTable table) /\ is_Some (table !! start).
Proof.
  split.
  - intros (a & Ha & ->). destruct tasks as [[s|t|]|]; simplify_eq.
    apply bool_decide_eq_true in Ha. eauto.
  - intros (t & -> & Ht). exists true. by rewrite bool_decide_eq_true_2.
Qed.

Lemma validate_mise_toml_Ok text start :
  validate_mise_toml text start = Ok tt <->
  exists doc, toml_parse text = Ok doc /\ toml_ok doc start.
Proof.
  unfold validate_mise_toml. rewrite bind_Ok. setoid_rewrite map_err_Ok.
  f_equiv. intros doc. apply and_iff_compat_l. unfold toml_ok.
  destruct (doc !! "tools") as [[s|tools|]|] eqn:Ht; simpl;
    try (split; [done|]; intros [Htools _]; by destruct (Htools _ eq_refl) as (? & ? & _)).
  all: rewrite ?bind_unit_Ok, ?try_each_Ok, bind_Ok; setoid_rewrite ensure_Ok.
  - assert (Forall (fun x => check_tool x = Ok tt) (entries tools) <->
      forall v, Some (TomlTable tools) = Some v -> exists tools0, v = TomlTable tools0 /\
        forall k t, tools0 !! k = Some t -> exists version,
          (t = TomlString version \/
           exists table, t = TomlTable table /\ table !! "version" = Some (TomlString version)) /\
          is_exact_version version = true) as ->.
    { rewrite Forall_forall. split.
      - intros Hall v [= <-]. exists tools. split; [done|]. intros k t Hk.
        by apply (proj1 (check_tool_Ok k t)), Hall, elem_of_entries.
      - intros Hall [k t] Hin%elem_of_entries. apply (proj2 (check_tool_Ok k t)).
        destruct (Hall _ eq_refl) as (? & [= <-] & Hall'). eauto. }
    apply and_iff_compat_l.
    by apply tasks_defined.
  - rewrite tasks_defined. naive_solver.
Qed.
End accepts.

(** [validate_manifest] accepts a package exactly when the manifest's
    fields follow the rules, its sandbox block is one a plugin may ask for,
    and its [mise.toml] parses, pins every tool it names to an exact version
    and defines the start task. *)
Theorem validate_manifest_accepts `{Unicode, TomlParse} m mise_toml :
  validate_manifest m mise_toml = Ok tt <->
  fields_ok m /\ (exists gs, check_sandbox_block PolicyPlugin (pm_sandbox m) = Ok gs) /\
  exists doc, toml_parse mise_toml = Ok doc /\ toml_ok doc (pm_start m).
Proof.
  unfold validate_manifest.
  rewrite bind_unit_Ok, validate_manifest_fields_Ok, bind_Ok.
  setoid_rewrite map_err_Ok. rewrite <- validate_mise_toml_Ok. naive_solver.
Qed.

(** ** What the plugin fleet resolves to *)

Section plugin_fleet.
Context `{Digest, PluginDigest}.

Lemma lookup_plugin_agents ps p : NoDup (rp_name <$> ps) -> p ∈ ps ->
  collect ((fun p => (rp_name p, plugin_settings p)) <$> ps) !! rp_name p = Some (plugin_settings p).
Proof.
  intros Hnd Hp. apply lookup_collect.
  - by rewrite <- list_fmap_compose.
  - apply list_elem_of_fmap. by exists p.
Qed.

Lemma plugin_agent ps p : NoDup (rp_name <$> ps) -> p ∈ ps ->
  exists a, a ∈ from_fleet (plugin_fleet ps) /\ ra_id a = plugin_id (rp_name p) /\
    ra_settings a = plugin_settings p /\ ra_repo a = Repo.Local "/dev/null" /\
    ra_git_ref a = "none" /\
    ra_git a = {| git_push := false; git_auth := AuthNone; git_identity := None |}.
Proof.
  intros Hnd Hp. eexists {| ra_id := plugin_id (rp_name p); ra_settings := plugin_settings p |}.
  split; [|done]. apply from_fleet_elem. simpl. eexists _, _.
  rewrite lookup_singleton_eq. split; [done|].
  split; [simpl; by apply lookup_plugin_agents|]. done.
Qed.

Lemma plugin_agent_unique ps p a : NoDup (rp_name <$> ps) -> p ∈ ps ->
  a ∈ from_fleet (plugin_fleet ps) -> ra_id a = plugin_id (rp_name p) ->
  hash_input WORKSPACE_LAYOUT a =
  {| hi_layout := WORKSPACE_LAYOUT; hi_repo := Repo.clone_url (Repo.Local "/dev/null");
     hi_git_ref := "none";
     hi_git := {| git_push := false; git_auth := AuthNone; git_identity := None |};
     hi_settings := plugin_settings p |}.
Proof.
  intros Hnd Hp (crew & s & Hc & Hs & _ & Hr & Hg & Hgit & Hset)%from_fleet_elem Hid.
  rewrite Hid in Hc, Hs. simpl in Hc, Hs. rewrite lookup_singleton_eq in Hc.
  injection Hc as <-. simpl in *. rewrite lookup_plugin_agents in Hs by done.
  injection Hs as <-. unfold hash_input. by rewrite Hr, Hg, Hgit, Hset.
Qed.

Lemma plugin_agent_id ps a : NoDup (rp_name <$> ps) -> a ∈ from_fleet (plugin_fleet ps) ->
  exists q, q ∈ ps /\ ra_id a = plugin_id (rp_name q).
Proof.
  intros Hnd (crew & s & Hc & Hs & Hf & _)%from_fleet_elem. simpl in Hc, Hf.
  apply lookup_singleton_Some in Hc as [Hcrew <-]. simpl in Hs.
  apply lookup_collect in Hs; [|by rewrite <- list_fmap_compose].
  apply list_elem_of_fmap in Hs as (q & [= Hq _] & Hqin). exists q. split; [done|].
  destruct (ra_id a); simpl in *. by subst.
Qed.

Lemma plugin_settings_inj p p' : plugin_settings p = plugin_settings p' <->
  plugin_hash p = plugin_hash p'.
Proof.
  assert (forall q, as_env (plugin_settings q) !! "BALERIX_PLUGIN_HASH" = Some (plugin_hash q)) as He
    by (intros q; apply lookup_insert_eq).
  split.
  - intros Heq. apply (inj Some). by rewrite <- !He, Heq.
  - unfold plugin_settings. by intros ->.
Qed.
End plugin_fleet.

(** The plugin fleet has one agent per plugin, [balerix/plugins/<name>],
    and between two syncs that agent's hash, a change of which restarts it,
    changes exactly when the plugin's package, manifest, config or digest
    did: never for its [fleetDefaults], never for what the other plugins are
    or the order they are listed in. The digests are taken not to collide
    on what the two syncs hash. *)
Theorem plugin_restart_exact `{Digest, PluginDigest}
    (ps ps' : list ResolvedPlugin) (p p' : ResolvedPlugin)
    (Hd : forall a a', a ∈ from_fleet (plugin_fleet ps) -> a' ∈ from_fleet (plugin_fleet ps') ->
       hash a = hash a' -> hash_input WORKSPACE_LAYOUT a = hash_input WORKSPACE_LAYOUT a')
    (Hp : plugin_hash p = plugin_hash p' -> plugin_hash_input p = plugin_hash_input p')
    (Hnd : NoDup (rp_name <$> ps)) (Hnd' : NoDup (rp_name <$> ps'))
    (Hin : p ∈ ps) (Hin' : p' ∈ ps') (Hname : rp_name p = rp_name p') :
  (forall i, (exists a, a ∈ from_fleet (plugin_fleet ps) /\ ra_id a = i) <->
     exists q, q ∈ ps /\ i = plugin_id (rp_name q)) /\
  exists a a', a ∈ from_fleet (plugin_fleet ps) /\ ra_id a = plugin_id (rp_name p) /\
    a' ∈ from_fleet (plugin_fleet ps') /\ ra_id a' = ra_id a /\
    (hash a = hash a' <->
     rp_package p = rp_package p' /\ rp_manifest p = rp_manifest p' /\
     rp_config p = rp_config p' /\ rp_digest p = rp_digest p').
Proof.
  split.
  { intros i. split.
    - intros (a & Ha & <-). by apply plugin_agent_id.
    - intros (q & Hq & ->). destruct (plugin_agent ps q Hnd Hq) as (a & ? & ? & _). eauto. }
  destruct (plugin_agent ps p Hnd Hin) as (a & Ha & Hid & _).
  destruct (plugin_agent ps' p' Hnd' Hin') as (a' & Ha' & Hid' & _).
  exists a, a'. split_and!; [done..|congruence|].
  pose proof (plugin_agent_unique ps p a Hnd Hin Ha Hid) as Hi.
  pose proof (plugin_agent_unique ps' p' a' Hnd' Hin' Ha' Hid') as Hi'.
  transitivity (plugin_hash p = plugin_hash p').
  - rewrite <- plugin_settings_inj. split.
    + intros Heq%Hd; [|done..]. rewrite Hi, Hi' in Heq. exact (f_equal hi_settings Heq).
    + intros Heq. unfold hash, hash_for_layout. by rewrite Hi, Hi', Heq.
  - split.
    + intros Heq%Hp. unfold plugin_hash_input in Heq. by injection Heq.
    + intros (H1 & H2 & H3 & H4). unfold plugin_hash, plugin_hash_input. congruence.
Qed.

Definition sample_manifest : PluginManifest :=
  {| pm_api_version := API_VERSION; pm_kind := PLUGIN_KIND; pm_name := "web"; pm_version := "1.0";
     pm_protocol := PLUGIN_PROTOCOL; pm_start := "serve";
     pm_hooks := {| hooks_observe := {["Stop"]}; hooks_intercept := ∅ |};
     pm_needs := ∅; pm_routes := true; pm_sandbox := empty_object |}.

(** A digest that tells apart what differs in the samples. *)
Definition sample_digest : Digest := fun i =>
  default EmptyString (as_env (hi_settings i) !! "BALERIX_PLUGIN_HASH").
Definition sample_plugin_digest : PluginDigest := fun i => phi_package i.
#[local] Existing Instances sample_digest sample_plugin_digest.

Definition sample_plugin (package : string) (fleet_defaults : Value) : ResolvedPlugin :=
  {| rp_name := @mkName KAgent "web" eq_refl; rp_package := package; rp_manifest := sample_manifest;
     rp_config := empty_object; rp_fleet_defaults := fleet_defaults; rp_digest := None |}.

(** An edit of [fleetDefaults] does not restart the plugin. *)
Lemma plugin_restart_exact_witness :
  let p := sample_plugin "/opt/web" empty_object in
  let p' := sample_plugin "/opt/web" Null in
  exists a a', a ∈ from_fleet (plugin_fleet [p]) /\
    a' ∈ from_fleet (plugin_fleet [p']) /\
    hash a = hash a'.
Proof.
  intros p p'.
  destruct (plugin_restart_exact [p] [p'] p p')
    as (_ & a & a' & Ha & _ & Ha' & _ & Hiff).
  - intros a a' Ha Ha' _.
    destruct (plugin_agent_id [p] a) as (q & ->%list_elem_of_singleton & Hq); [apply NoDup_singleton|done|].
    destruct (plugin_agent_id [p'] a') as (q & ->%list_elem_of_singleton & Hq'); [apply NoDup_singleton|done|].
    rewrite (plugin_agent_unique [p] p a), (plugin_agent_unique [p'] p' a');
      [reflexivity|apply NoDup_singleton|by left|done|done|apply NoDup_singleton|by left|done|done].
  - reflexivity.
  - apply NoDup_singleton.
  - apply NoDup_singleton.
  - by left.
  - by left.
  - reflexivity.
  - exists a, a'. split_and!; [done..|]. by apply Hiff.
Defined.
