(* ===== verification/Registry.v ===== *)
(** The plugin registry ([crates/balerix-server/src/plugins/registry.rs]): the
    load order, where each plugin listens and whether it is ready, and the
    [(agent, plugin)] activation rows. Every method takes the one lock once, so
    a method is a step of the state. *)

From S2P Require Import Prelude Str BTree Names Json Fleet Status FleetRecord Config Manifest.

(** ** State *)

Record PluginAddr := { pa_listen : string; pa_token : string }.

(** [PluginAddr::base]. *)
Definition base (a : PluginAddr) : string :=
  if starts_with (pa_listen a) "https://" || starts_with (pa_listen a) "http://" then
    trim_end_byte "/"%char (pa_listen a)
  else "http://" +:+ pa_listen a.

Record PluginInfo := {
  pi_manifest : PluginManifest;
  pi_listen : option string;
  pi_token : option string;
  pi_ready : bool;
  pi_degraded : option string;
  pi_fleet_defaults : Value;
}.

Record ActivationRow := { row_config : Value; row_activation : PluginActivation }.

Record Subscribed := {
  sub_ready : list (AgentName * PluginAddr);
  sub_unready : list AgentName;
}.

Record Registry := {
  reg_order : list AgentName;
  reg_plugins : gmap AgentName PluginInfo;
  reg_rows : gmap (AgentId * AgentName) ActivationRow;
  reg_hello_seq : N;
  reg_hellos : gmap AgentName N;
}.

#[export] Instance plugin_addr_eq_dec : EqDecision PluginAddr.
Proof. solve_decision. Defined.
#[export] Instance activation_state_eq_dec : EqDecision ActivationState.
Proof. solve_decision. Defined.
#[export] Instance plugin_activation_eq_dec : EqDecision PluginActivation.
Proof. solve_decision. Defined.
#[export] Instance activation_row_eq_dec : EqDecision ActivationRow.
Proof. solve_decision. Defined.

(** [placeholder_manifest]: a declared plugin before its first hello. *)
Definition placeholder_manifest (name : AgentName) : PluginManifest :=
  {| pm_api_version := "balerix/v1"; pm_kind := PLUGIN_KIND; pm_name := to_string name;
     pm_version := EmptyString; pm_protocol := PLUGIN_PROTOCOL; pm_start := EmptyString;
     pm_hooks := {| hooks_observe := ∅; hooks_intercept := ∅ |}; pm_needs := ∅;
     pm_routes := false; pm_sandbox := empty_object |}.

Definition new_registry : Registry :=
  {| reg_order := []; reg_plugins := ∅; reg_rows := ∅; reg_hello_seq := 0; reg_hellos := ∅ |}.

Definition set_plugins (m : gmap AgentName PluginInfo) (r : Registry) : Registry :=
  {| reg_order := reg_order r; reg_plugins := m; reg_rows := reg_rows r;
     reg_hello_seq := reg_hello_seq r; reg_hellos := reg_hellos r |}.
Definition set_rows (m : gmap (AgentId * AgentName) ActivationRow) (r : Registry) : Registry :=
  {| reg_order := reg_order r; reg_plugins := reg_plugins r; reg_rows := m;
     reg_hello_seq := reg_hello_seq r; reg_hellos := reg_hellos r |}.

(** [if let Some(p) = plugins.get_mut(name) { .. }]. *)
Definition with_plugin (name : AgentName) (f : PluginInfo -> PluginInfo) (r : Registry) : Registry :=
  set_plugins (alter f name (reg_plugins r)) r.

(** ** What a sync writes *)

(** [names.contains(p)] over the new map's keys. *)
Definition retain_rows (plugins : gmap AgentName PluginInfo)
    (rows : gmap (AgentId * AgentName) ActivationRow) : gmap (AgentId * AgentName) ActivationRow :=
  filter (fun '((_, p), _) => is_Some (plugins !! p)) rows.

Definition synced_info (old : gmap AgentName PluginInfo) (keep_listen : list string)
    (p : ResolvedPlugin) : PluginInfo :=
  let prev := if bool_decide (to_string (rp_name p) ∈ keep_listen)
              then old !! rp_name p else None in
  {| pi_manifest := rp_manifest p;
     pi_listen := i ← prev; pi_listen i;
     pi_token := i ← prev; pi_token i;
     pi_ready := match prev with Some i => pi_ready i | None => false end;
     pi_degraded := i ← prev; pi_degraded i;
     pi_fleet_defaults := rp_fleet_defaults p |}.

Definition replace_plugins (plugins : list ResolvedPlugin) (keep_listen : list string)
    (r : Registry) : Registry :=
  let now := collect ((fun p => (rp_name p, synced_info (reg_plugins r) keep_listen p)) <$> plugins) in
  {| reg_order := rp_name <$> plugins; reg_plugins := now;
     reg_rows := retain_rows now (reg_rows r);
     reg_hello_seq := reg_hello_seq r; reg_hellos := reg_hellos r |}.

Definition declared_info (old : gmap AgentName PluginInfo) (keep : list AgentName)
    (e : AgentName * Value) : PluginInfo :=
  let '(name, fleet_defaults) := e in
  match (if bool_decide (name ∈ keep) then old !! name else None) with
  | Some p =>
      {| pi_manifest := pi_manifest p; pi_listen := pi_listen p; pi_token := pi_token p;
         pi_ready := pi_ready p; pi_degraded := pi_degraded p;
         pi_fleet_defaults := fleet_defaults |}
  | None =>
      {| pi_manifest := placeholder_manifest name; pi_listen := None; pi_token := None;
         pi_ready := false; pi_degraded := None; pi_fleet_defaults := fleet_defaults |}
  end.

Definition declare (entries : list (AgentName * Value)) (keep : list AgentName)
    (r : Registry) : Registry :=
  let now := collect ((fun e => (e.1, declared_info (reg_plugins r) keep e)) <$> entries) in
  {| reg_order := entries.*1; reg_plugins := now;
     reg_rows := retain_rows now (reg_rows r);
     reg_hello_seq := reg_hello_seq r; reg_hellos := reg_hellos r |}.

(** ** Hellos and readiness *)

(** [Inner::next_hello]. *)
Definition next_hello (name : AgentName) (r : Registry) : N * Registry :=
  let seq := wrapping_add_u64 (reg_hello_seq r) 1 in
  (seq, {| reg_order := reg_order r; reg_plugins := reg_plugins r; reg_rows := reg_rows r;
           reg_hello_seq := seq; reg_hellos := <[name := seq]> (reg_hellos r) |}).

Definition greeted (manifest : option PluginManifest) (listen token : string) (p : PluginInfo) : PluginInfo :=
  {| pi_manifest := default (pi_manifest p) manifest; pi_listen := Some listen;
     pi_token := Some token; pi_ready := true; pi_degraded := None;
     pi_fleet_defaults := pi_fleet_defaults p |}.

Definition set_listen (name : AgentName) (listen token : string) (r : Registry) : N * Registry :=
  let '(generation, r) := next_hello name r in
  (generation, with_plugin name (greeted None listen token) r).

Definition accept_hello (name : AgentName) (manifest : PluginManifest) (url token : string)
    (r : Registry) : Registry :=
  let '(_, r) := next_hello name r in
  with_plugin name (greeted (Some manifest) url token) r.

Definition hello_generation (name : AgentName) (r : Registry) : N := default 0%N (reg_hellos r !! name).

Definition info_ready (ready : bool) (p : PluginInfo) : PluginInfo :=
  {| pi_manifest := pi_manifest p; pi_listen := pi_listen p; pi_token := pi_token p;
     pi_ready := ready; pi_degraded := pi_degraded p; pi_fleet_defaults := pi_fleet_defaults p |}.
Definition info_degraded (reason : option string) (p : PluginInfo) : PluginInfo :=
  {| pi_manifest := pi_manifest p; pi_listen := pi_listen p; pi_token := pi_token p;
     pi_ready := pi_ready p; pi_degraded := reason; pi_fleet_defaults := pi_fleet_defaults p |}.
Definition info_unhello (name : AgentName) (p : PluginInfo) : PluginInfo :=
  {| pi_manifest := placeholder_manifest name; pi_listen := None; pi_token := None;
     pi_ready := false; pi_degraded := None; pi_fleet_defaults := pi_fleet_defaults p |}.

Definition clear_ready_if (name : AgentName) (stamp : N) (r : Registry) : bool * Registry :=
  let newest := hello_generation name r in
  match reg_plugins r !! name with
  | Some _ => if (newest <=? stamp)%N then (true, with_plugin name (info_ready false) r) else (false, r)
  | None => (false, r)
  end.

Definition unhello (name : AgentName) (r : Registry) : Registry := with_plugin name (info_unhello name) r.
Definition set_ready (name : AgentName) (ready : bool) (r : Registry) : Registry :=
  with_plugin name (info_ready ready) r.
Definition set_degraded (name : AgentName) (reason : option string) (r : Registry) : Registry :=
  with_plugin name (info_degraded reason) r.

Definition plugin (name : AgentName) (r : Registry) : option PluginInfo := reg_plugins r !! name.
Definition names (r : Registry) : list AgentName := reg_order r.
Definition is_installed (name : string) (r : Registry) : bool :=
  existsb (fun n => bool_decide (to_string n = name)) (keys (reg_plugins r)).
Definition has (name : AgentName) (cap : Capability) (r : Registry) : bool :=
  match reg_plugins r !! name with
  | Some p => bool_decide (cap ∈ pm_needs (pi_manifest p))
  | None => false
  end.

Definition ready_addr (name : AgentName) (r : Registry) : option PluginAddr :=
  p ← reg_plugins r !! name;
  if negb (pi_ready p) then None
  else listen ← pi_listen p; token ← pi_token p; Some {| pa_listen := listen; pa_token := token |}.

(** ** Activation rows *)

Definition set_row (agent : AgentId) (plugin : AgentName) (row : ActivationRow) (r : Registry) : Registry :=
  set_rows (<[(agent, plugin) := row]> (reg_rows r)) r.

Definition set_state (agent : AgentId) (plugin : AgentName) (config : Value)
    (activation : PluginActivation) (r : Registry) : bool * Registry :=
  match reg_rows r !! (agent, plugin) with
  | Some row =>
      if bool_decide (row_config row = config) then
        (true, set_rows (<[(agent, plugin) :=
                  {| row_config := row_config row; row_activation := activation |}]> (reg_rows r)) r)
      else (false, r)
  | None => (false, r)
  end.

Definition remove_row (agent : AgentId) (plugin : AgentName) (r : Registry)
    : option ActivationRow * Registry :=
  (reg_rows r !! (agent, plugin), set_rows (delete (agent, plugin) (reg_rows r)) r).

Definition remove_fleet (fleet : FleetName) (r : Registry) : list (AgentId * AgentName) * Registry :=
  let gone := filter (fun k => id_fleet k.1 = fleet) (keys (reg_rows r)) in
  (gone, set_rows (foldl (fun m k => delete k m) (reg_rows r) gone) r).

Definition row (agent : AgentId) (plugin : AgentName) (r : Registry) : option ActivationRow :=
  reg_rows r !! (agent, plugin).

Definition rows_for_fleet (fleet : FleetName) (r : Registry) : list (AgentId * AgentName * ActivationRow) :=
  filter (fun e => id_fleet e.1.1 = fleet) (entries (reg_rows r)).

Definition rows_for_plugin (name : AgentName) (r : Registry) : list (AgentId * ActivationRow) :=
  (fun e => (e.1.1, e.2)) <$> filter (fun e => e.1.2 = name) (entries (reg_rows r)).

Definition is_active (agent : AgentId) (plugin : AgentName) (r : Registry) : bool :=
  match reg_rows r !! (agent, plugin) with
  | Some row => bool_decide (pa_state (row_activation row) = ActActive)
  | None => false
  end.

Definition active_agents (name : AgentName) (r : Registry) : N :=
  N.min u32_max (N.of_nat (length (filter (fun e =>
    e.1.2 = name /\ pa_state (row_activation e.2) = ActActive) (entries (reg_rows r))))).

(** ** Who hears an event *)

(** One turn of [for name in &r.order]. *)
Definition subscribe_one (agent : AgentId) (pick : PluginManifest -> bool) (r : Registry)
    (out : Subscribed) (name : AgentName) : Subscribed :=
  match reg_plugins r !! name with
  | None => out
  | Some p =>
      if negb (is_active agent name r) || negb (pick (pi_manifest p)) then out
      else match (if pi_ready p then pi_listen p else None), pi_token p with
           | Some listen, Some token =>
               {| sub_ready := sub_ready out ++ [(name, {| pa_listen := listen; pa_token := token |})];
                  sub_unready := sub_unready out |}
           | _, _ => {| sub_ready := sub_ready out; sub_unready := sub_unready out ++ [name] |}
           end
  end.

Definition subscribed (agent : AgentId) (pick : PluginManifest -> bool) (r : Registry) : Subscribed :=
  foldl (subscribe_one agent pick r) {| sub_ready := []; sub_unready := [] |} (reg_order r).

Definition intercepting (agent : AgentId) (event : string) : Registry -> Subscribed :=
  subscribed agent (fun m => bool_decide (event ∈ hooks_intercept (pm_hooks m))).
Definition observing (agent : AgentId) (event : string) : Registry -> Subscribed :=
  subscribed agent (fun m => bool_decide (event ∈ hooks_observe (pm_hooks m))).
Definition interceptors (agent : AgentId) (event : string) (r : Registry) : list (AgentName * PluginAddr) :=
  sub_ready (intercepting agent event r).
Definition observers (agent : AgentId) (event : string) (r : Registry) : list (AgentName * PluginAddr) :=
  sub_ready (observing agent event r).

(** ** [overlay]: the rows of a fleet's agents, into its record *)

Definition rows_of (id : string) (r : Registry) : gmap string PluginActivation :=
  collect ((fun e => (to_string e.1.2, row_activation e.2)) <$>
    filter (fun e => to_string e.1.1 = id) (entries (reg_rows r))).

Definition set_st_plugins (p : gmap string PluginActivation) (a : AgentStatus) : AgentStatus :=
  {| st_phase := st_phase a; st_message := st_message a; st_last_event_at := st_last_event_at a;
     st_applied_hash := st_applied_hash a; st_restarts := st_restarts a;
     st_next_restart_at := st_next_restart_at a; st_plugins := p;
     st_plugin_hello := st_plugin_hello a |}.

Definition overlay (record : FleetRecord) (r : Registry) : FleetRecord :=
  let st := rec_status record in
  set_rec_status
    {| generation := generation st; observed_generation := observed_generation st;
       phase := phase st;
       agents := map_imap (fun id a => Some (set_st_plugins (rows_of id r) a)) (agents st) |}
    record.

(** ** Steps of the registry *)

Inductive RegOp :=
| OpReplace (plugins : list ResolvedPlugin) (keep_listen : list string)
| OpDeclare (entries : list (AgentName * Value)) (keep : list AgentName)
| OpSetListen (name : AgentName) (listen token : string)
| OpAcceptHello (name : AgentName) (manifest : PluginManifest) (url token : string)
| OpClearReady (name : AgentName) (stamp : N)
| OpUnhello (name : AgentName)
| OpSetReady (name : AgentName) (ready : bool)
| OpSetDegraded (name : AgentName) (reason : option string)
| OpSetRow (agent : AgentId) (plugin : AgentName) (row : ActivationRow)
| OpSetState (agent : AgentId) (plugin : AgentName) (config : Value) (activation : PluginActivation)
| OpRemoveRow (agent : AgentId) (plugin : AgentName)
| OpRemoveFleet (fleet : FleetName).

Definition reg_step (r : Registry) (op : RegOp) : Registry :=
  match op with
  | OpReplace plugins keep => replace_plugins plugins keep r
  | OpDeclare entries keep => declare entries keep r
  | OpSetListen name listen token => (set_listen name listen token r).2
  | OpAcceptHello name manifest url token => accept_hello name manifest url token r
  | OpClearReady name stamp => (clear_ready_if name stamp r).2
  | OpUnhello name => unhello name r
  | OpSetReady name ready => set_ready name ready r
  | OpSetDegraded name reason => set_degraded name reason r
  | OpSetRow agent plugin row => set_row agent plugin row r
  | OpSetState agent plugin config activation => (set_state agent plugin config activation r).2
  | OpRemoveRow agent plugin => (remove_row agent plugin r).2
  | OpRemoveFleet fleet => (remove_fleet fleet r).2
  end.

Definition run (ops : list RegOp) (r : Registry) : Registry := foldl reg_step r ops.

(** A hello of [name] that left it listening at [addr]. *)
Definition is_hello (op : RegOp) (name : AgentName) (addr : PluginAddr) : Prop :=
  match op with
  | OpSetListen n listen token | OpAcceptHello n _ listen token =>
      n = name /\ addr = {| pa_listen := listen; pa_token := token |}
  | _ => False
  end.

(** The steps that leave a hello of [name] standing: a sync that keeps it,
    another plugin's steps, and a record whose stamp is at most [seq]. *)
Definition upholds (name : AgentName) (seq : N) (op : RegOp) : Prop :=
  match op with
  | OpReplace plugins keep => name ∈ rp_name <$> plugins /\ to_string name ∈ keep
  | OpDeclare entries keep => name ∈ entries.*1 /\ name ∈ keep
  | OpSetListen n _ _ | OpAcceptHello n _ _ _ | OpUnhello n => n <> name
  | OpClearReady n stamp => n = name -> (stamp <= seq)%N
  | OpSetReady n ready => n = name -> ready = true
  | _ => True
  end.

(** ** Lemmas *)

Lemma collect_elem `{Countable K} {V} (l : list (K * V)) k :
  k ∈ l.*1 -> exists v, (k, v) ∈ l /\ collect l !! k = Some v.
Proof.
  unfold collect. induction l as [|[k' v'] l IH] using rev_ind; [by intros ?%not_elem_of_nil|].
  rewrite fmap_app, foldl_app. simpl. intros Hk. destruct (decide (k = k')) as [->|Hne].
  - exists v'. rewrite lookup_insert_eq. set_solver.
  - assert (k ∈ l.*1) as (v & ? & ?)%IH by set_solver.
    exists v. rewrite lookup_insert_ne by done. set_solver.
Qed.

Lemma lookup_with_plugin n name f r : reg_plugins (with_plugin name f r) !! n =
  if decide (n = name) then f <$> reg_plugins r !! n else reg_plugins r !! n.
Proof.
  simpl. case_decide as Hn; [subst; apply lookup_alter_eq|by apply lookup_alter_ne].
Qed.

Lemma ready_addr_Some name r addr : ready_addr name r = Some addr <->
  exists p, reg_plugins r !! name = Some p /\ pi_ready p = true /\
    pi_listen p = Some (pa_listen addr) /\ pi_token p = Some (pa_token addr).
Proof.
  unfold ready_addr. destruct (reg_plugins r !! name) as [p|] eqn:Hp; simpl; [|naive_solver].
  split.
  - destruct (pi_ready p) eqn:Hr; [|done]. simpl.
    destruct (pi_listen p) as [l|] eqn:Hl, (pi_token p) as [t|] eqn:Ht; simpl; try done.
    intros [= <-]. eauto 8.
  - intros (? & [= <-] & -> & -> & ->). by destruct addr.
Qed.

(** A step that upholds a hello keeps the plugin listening where it was. *)
Lemma upholds_ready name seq op r addr :
  upholds name seq op -> (seq < hello_generation name r)%N ->
  ready_addr name r = Some addr -> ready_addr name (reg_step r op) = Some addr.
Proof.
  rewrite !ready_addr_Some. intros Hop Hseq (p & Hp & Hr & Hl & Ht).
  destruct op as [ps keep_listen|es keep|name0 ? ?|name0 ? ? ?|name0 stamp|name0|name0 b|name0 o|a p0 w|a p0 c v|a p0|f];
    simpl in Hop |- *.
  - destruct Hop as [Hin Hkeep].
    destruct (collect_elem ((fun p => (rp_name p, synced_info (reg_plugins r) keep_listen p)) <$> ps) name)
      as (i & (q & [= Hname ->] & _)%list_elem_of_fmap & Hi).
    { by rewrite <- list_fmap_compose. }
    eexists. split; [exact Hi|]. unfold synced_info. simpl.
    rewrite <- Hname, bool_decide_eq_true_2, Hp by done. done.
  - destruct Hop as [Hin Hkeep].
    destruct (collect_elem ((fun e => (e.1, declared_info (reg_plugins r) keep e)) <$> es) name)
      as (i & ([n d] & [= Hname ->] & _)%list_elem_of_fmap & Hi).
    { by rewrite <- list_fmap_compose. }
    eexists. split; [exact Hi|]. simpl in *. subst n.
    rewrite bool_decide_eq_true_2, Hp by done. done.
  - rewrite lookup_alter_ne by done. eauto.
  - rewrite lookup_alter_ne by done. eauto.
  - unfold clear_ready_if. destruct (decide (name0 = name)) as [->|Hne].
    + rewrite Hp. destruct (N.leb_spec (hello_generation name r) stamp); [|simpl; eauto].
      specialize (Hop eq_refl). lia.
    + destruct (reg_plugins r !! name0); [|simpl; eauto].
      case_match; simpl; [rewrite lookup_alter_ne by done|]; eauto.
  - rewrite lookup_alter_ne by done. eauto.
  - destruct (decide (name0 = name)) as [->|Hne].
    + rewrite lookup_alter_eq, Hp. eexists. split; [done|]. simpl. auto.
    + rewrite lookup_alter_ne by done. eauto.
  - destruct (decide (name0 = name)) as [->|Hne].
    + rewrite lookup_alter_eq, Hp. eexists. by split.
    + rewrite lookup_alter_ne by done. eauto.
  - eauto.
  - unfold set_state. repeat case_match; simpl; eauto.
  - eauto.
  - eauto.
Qed.

(** The steps that take a hello number. *)
Lemma step_hellos op r :
  (reg_hello_seq (reg_step r op) = reg_hello_seq r /\ reg_hellos (reg_step r op) = reg_hellos r) \/
  exists name addr, is_hello op name addr /\
    reg_hello_seq (reg_step r op) = wrapping_add_u64 (reg_hello_seq r) 1 /\
    reg_hellos (reg_step r op) = <[name := wrapping_add_u64 (reg_hello_seq r) 1]> (reg_hellos r).
Proof.
  destruct op; simpl; eauto 8.
  - unfold clear_ready_if. repeat case_match; auto.
  - unfold set_state. repeat case_match; auto.
Qed.

Lemma upholds_generation name seq op r : upholds name seq op ->
  hello_generation name (reg_step r op) = hello_generation name r.
Proof.
  intros Hop. unfold hello_generation.
  destruct (step_hellos op r) as [[_ ->]|(n & addr & Hh & _ & ->)]; [done|].
  destruct op; simpl in Hh; try done; destruct Hh as [<- _]; simpl in Hop;
    by rewrite lookup_insert_ne.
Qed.

Lemma wrapping_add_u64_exact n : (n < u64_max)%N -> wrapping_add_u64 n 1 = (n + 1)%N.
Proof. intros. unfold wrapping_add_u64. apply N.mod_small. lia. Qed.

Lemma run_hello_seq ops : (N.of_nat (length ops) < u64_max)%N ->
  (reg_hello_seq (run ops new_registry) <= N.of_nat (length ops))%N /\
  forall n, (hello_generation n (run ops new_registry) <= reg_hello_seq (run ops new_registry))%N.
Proof.
  unfold run. induction ops as [|op ops IH] using rev_ind; intros Hb.
  { split; [done|]. intros n. unfold hello_generation. simpl. by rewrite lookup_empty. }
  rewrite length_app in *. simpl in *. destruct IH as [IH1 IH2]; [lia|].
  rewrite foldl_app. simpl. set (r := foldl reg_step new_registry ops) in *.
  unfold hello_generation in *.
  destruct (step_hellos op r) as [[-> ->]|(n & addr & _ & -> & ->)]; [split; [lia|done]|].
  rewrite wrapping_add_u64_exact by lia. split; [lia|]. intros m. specialize (IH2 m).
  destruct (decide (n = m)) as [->|Hne]; [by rewrite lookup_insert_eq|].
  rewrite lookup_insert_ne by done. lia.
Qed.

Lemma hello_ready op name addr r : is_hello op name addr -> is_Some (reg_plugins r !! name) ->
  ready_addr name (reg_step r op) = Some addr /\
  hello_generation name (reg_step r op) = wrapping_add_u64 (reg_hello_seq r) 1.
Proof.
  intros Hh [p Hp]. destruct op; simpl in Hh; try done; destruct Hh as [-> ->].
  all: split; [apply ready_addr_Some; simpl; rewrite lookup_alter_eq, Hp; eexists; by split|].
  all: unfold hello_generation; simpl; by rewrite lookup_insert_eq.
Qed.

Lemma uphold_all name seq ops : forall r addr, Forall (upholds name seq) ops ->
  (seq < hello_generation name r)%N -> ready_addr name r = Some addr ->
  ready_addr name (run ops r) = Some addr /\ hello_generation name (run ops r) = hello_generation name r.
Proof.
  unfold run. induction ops as [|op ops IH]; intros r addr Hops Hseq Hr; [done|].
  apply Forall_cons in Hops as [Hop Hops]. simpl.
  destruct (IH (reg_step r op) addr) as [-> ->]; [done|..].
  - by rewrite (upholds_generation _ _ _ _ Hop).
  - by eapply upholds_ready.
  - split; [done|]. by apply (upholds_generation _ seq).
Qed.

(** A hello is never undone by a record older than it. From any history of
    the registry, once an installed plugin says hello it is ready at the
    address of that hello, and stays so under every later step that is not
    about taking this plugin down: in particular under [clear_ready_if] with
    any stamp handed out before the hello, and every generation any plugin
    had reached before it is such a stamp. The bound is the width of the
    hello counter. *)
Theorem hello_never_undone (before after : list RegOp) (hello : RegOp) (name : AgentName)
    (addr : PluginAddr)
    (Hbound : (N.of_nat (length before) < u64_max)%N)
    (Hhello : is_hello hello name addr)
    (Hinst : is_Some (reg_plugins (run before new_registry) !! name))
    (Hafter : Forall (upholds name (reg_hello_seq (run before new_registry))) after) :
  let r := run before new_registry in
  let r' := run after (reg_step r hello) in
  (forall n, (hello_generation n r <= reg_hello_seq r)%N) /\
  (reg_hello_seq r < hello_generation name r')%N /\
  ready_addr name r' = Some addr /\
  forall stamp, (stamp <= reg_hello_seq r)%N -> clear_ready_if name stamp r' = (false, r').
Proof.
  intros r r'. destruct (run_hello_seq before Hbound) as [Hseq Hgen].
  destruct (hello_ready hello name addr r Hhello Hinst) as [Hr Hg].
  rewrite wrapping_add_u64_exact in Hg by (unfold r; lia).
  destruct (uphold_all name (reg_hello_seq r) after (reg_step r hello) addr) as [Ha Hg'];
    [done|unfold r in *; lia|done|].
  assert (reg_hello_seq r < hello_generation name r')%N as Hlt by (unfold r'; rewrite Hg', Hg; lia).
  split_and!; [done..|]. intros stamp Hs. unfold clear_ready_if.
  destruct (reg_plugins r' !! name); [|done].
  destruct (N.leb_spec (hello_generation name r') stamp); [lia|done].
Qed.

(** ** What a row says *)

Lemma lookup_foldl_delete `{Countable K} {V} (ks : list K) (m : gmap K V) k :
  foldl (fun m k => delete k m) m ks !! k = if decide (k ∈ ks) then None else m !! k.
Proof.
  revert m. induction ks as [|k' ks IH]; intros m; cbn [foldl].
  - case_decide as Hk; [by apply not_elem_of_nil in Hk|done].
  - rewrite IH. case_decide as Hks; case_decide as Hk; [done|set_solver| |].
    + apply elem_of_cons in Hk as [->|?]; [apply lookup_delete_eq|done].
    + apply lookup_delete_ne. set_solver.
Qed.

(** Where a row in the registry after a step comes from. *)
Lemma row_step op agent plugin w r :
  reg_rows (reg_step r op) !! (agent, plugin) = Some w ->
  reg_rows r !! (agent, plugin) = Some w \/
  op = OpSetRow agent plugin w \/
  op = OpSetState agent plugin (row_config w) (row_activation w) /\
    exists w0, reg_rows r !! (agent, plugin) = Some w0 /\ row_config w0 = row_config w.
Proof.
  intros Hw.
  destruct op as [ps keep_listen|es keep|name0 ? ?|name0 ? ? ?|name0 stamp|name0|name0 b|name0 o|a p0 w'|a p0 c v|a p0|f];
    simpl in Hw; try by left.
  - apply map_lookup_filter_Some in Hw as [? _]. by left.
  - apply map_lookup_filter_Some in Hw as [? _]. by left.
  - unfold clear_ready_if in Hw. repeat case_match; by left.
  - destruct (decide ((a, p0) = (agent, plugin))) as [[= -> ->]|Hne].
    + rewrite lookup_insert_eq in Hw. simplify_eq. by right; left.
    + rewrite lookup_insert_ne in Hw by done. by left.
  - unfold set_state in Hw. destruct (reg_rows r !! (a, p0)) as [w0|] eqn:H0; [|by left].
    case_bool_decide as Hc; [|by left]. simpl in Hw.
    destruct (decide ((a, p0) = (agent, plugin))) as [[= -> ->]|Hne].
    + rewrite lookup_insert_eq in Hw. injection Hw as <-. simpl. right. right.
      split; [by rewrite Hc|]. eauto.
    + rewrite lookup_insert_ne in Hw by done. by left.
  - apply lookup_delete_Some in Hw as [_ ?]. by left.
  - left. rewrite lookup_foldl_delete in Hw. by case_decide.
Qed.

(** Whatever interleaving of applies, hellos and re-activations wrote the
    rows, a row's state answers for the row's own config: the row was written
    whole, or its config was and a plugin's answer to that very config came
    after. *)
Theorem row_answers_its_config (ops : list RegOp) (agent : AgentId) (plugin : AgentName)
    (w : ActivationRow) (Hw : row agent plugin (run ops new_registry) = Some w) :
  (exists w0, OpSetRow agent plugin w0 ∈ ops /\ row_config w0 = row_config w) /\
  (OpSetRow agent plugin w ∈ ops \/
   OpSetState agent plugin (row_config w) (row_activation w) ∈ ops).
Proof.
  unfold row, run in *. revert w Hw.
  induction ops as [|op ops IH] using rev_ind; intros w; [simpl; by rewrite lookup_empty|].
  rewrite foldl_app. simpl. set (r := foldl reg_step new_registry ops) in *. intros Hw.
  pose proof (row_step op agent plugin w r Hw) as Hcases.
  destruct Hcases as [Hw'|[->|(-> & w0 & Hw0 & Hc)]].
  - destruct (IH w Hw') as [(w0 & ? & ?) [?|?]]; (split; [exists w0|]); set_solver.
  - split; [exists w|]; set_solver.
  - destruct (IH w0 Hw0) as [(w1 & ? & ?) _]. split; [|set_solver].
    exists w1. split; [set_solver|congruence].
Qed.

(** ** Who hears an event *)

(** Installed, active for the agent, and picked by its manifest. *)
Definition hears (agent : AgentId) (pick : PluginManifest -> bool) (r : Registry) (name : AgentName) : bool :=
  match reg_plugins r !! name with
  | Some p => is_active agent name r && pick (pi_manifest p)
  | None => false
  end.

Definition called_at (agent : AgentId) (pick : PluginManifest -> bool) (r : Registry) (name : AgentName)
    : option (AgentName * PluginAddr) :=
  if hears agent pick r name then (fun a => (name, a)) <$> ready_addr name r else None.

Lemma subscribe_one_spec agent pick r out name :
  subscribe_one agent pick r out name =
  {| sub_ready := sub_ready out ++ option_list (called_at agent pick r name);
     sub_unready := sub_unready out ++
       if hears agent pick r name && bool_decide (ready_addr name r = None) then [name] else [] |}.
Proof.
  unfold subscribe_one, called_at, hears, ready_addr.
  destruct (reg_plugins r !! name) as [p|]; simpl; [|by rewrite !app_nil_r; destruct out].
  destruct (is_active agent name r), (pick (pi_manifest p)); simpl;
    rewrite ?app_nil_r; [|by destruct out..].
  destruct (pi_ready p); simpl; [|by rewrite app_nil_r].
  destruct (pi_listen p), (pi_token p); simpl; by rewrite ?app_nil_r.
Qed.

(** The plugins an event is offered to are exactly the installed ones that
    are active for the agent and subscribe to it, in load order, each in one of
    the two lists: those that can be called, with the address and token of
    their hello, and those that cannot, which miss the event. *)
Theorem subscribed_spec (agent : AgentId) (pick : PluginManifest -> bool) (r : Registry) :
  sub_ready (subscribed agent pick r) = omap (called_at agent pick r) (reg_order r) /\
  sub_unready (subscribed agent pick r) =
    filter (fun n => hears agent pick r n = true /\ ready_addr n r = None) (reg_order r) /\
  filter (fun n => hears agent pick r n = true) (reg_order r) ≡ₚ
    (sub_ready (subscribed agent pick r)).*1 ++ sub_unready (subscribed agent pick r).
Proof.
  unfold subscribed.
  assert (forall l out,
    let s := foldl (subscribe_one agent pick r) out l in
    sub_ready s = sub_ready out ++ omap (called_at agent pick r) l /\
    sub_unready s = sub_unready out ++
      filter (fun n => hears agent pick r n = true /\ ready_addr n r = None) l) as Hfold.
  { induction l as [|n l IH]; intros out; simpl; [by rewrite !app_nil_r|].
    destruct (IH (subscribe_one agent pick r out n)) as [-> ->].
    rewrite subscribe_one_spec. cbn [sub_ready sub_unready]. rewrite <- !app_assoc. split; f_equal.
    - by destruct (called_at agent pick r n).
    - rewrite filter_cons. case_decide as Hd.
      + destruct Hd as [-> Hd]. by rewrite bool_decide_eq_true_2.
      + destruct (hears agent pick r n); simpl; [|done].
        rewrite bool_decide_eq_false_2 by naive_solver. done. }
  destruct (Hfold (reg_order r) {| sub_ready := []; sub_unready := [] |}) as [-> ->].
  split_and!; [done..|]. simpl. clear Hfold. induction (reg_order r) as [|n l IH]; [done|].
  rewrite !filter_cons. simpl. unfold called_at at 1.
  destruct (hears agent pick r n) eqn:Hh; simpl.
  - destruct (ready_addr n r) eqn:Ha; simpl.
    + by rewrite IH.
    + rewrite IH. apply Permutation_middle.
  - rewrite ?decide_False by naive_solver. done.
Qed.

(** ** A concrete history *)

Definition sample_agent : AgentId :=
  {| id_fleet := @mkName KFleet "f" eq_refl; id_crew := @mkName KCrew "c" eq_refl;
     id_agent := @mkName KAgent "a" eq_refl |}.
Definition web : AgentName := @mkName KAgent "web" eq_refl.
Definition sample_addr : PluginAddr := {| pa_listen := "127.0.0.1:9"; pa_token := "t" |}.

(** The plugin's record still carries the stamp of its first life. *)
Lemma hello_never_undone_witness :
  let before := [OpReplace [sample_plugin "/opt/web" empty_object] []; OpSetListen web "127.0.0.1:8" "s"] in
  let hello := OpSetListen web "127.0.0.1:9" "t" in
  let after := [OpClearReady web 1; OpSetDegraded web None] in
  hello_generation web (run before new_registry) = 1%N /\
  ready_addr web (run after (reg_step (run before new_registry) hello)) = Some sample_addr.
Proof.
  intros before hello after. split; [reflexivity|].
  destruct (hello_never_undone before after hello web sample_addr) as (_ & _ & H & _).
  - reflexivity.
  - by split.
  - vm_compute. eauto.
  - constructor; [|constructor; [done|constructor]]. intros _. by vm_compute.
  - exact H.
Defined.

Lemma row_answers_its_config_witness :
  let ops := [OpSetRow sample_agent web {| row_config := Null; row_activation := act_pending |};
              OpSetRow sample_agent web {| row_config := VBool true; row_activation := act_pending |};
              OpSetState sample_agent web Null act_active;
              OpSetState sample_agent web (VBool true) (act_rejected "no")] in
  let w := {| row_config := VBool true; row_activation := act_rejected "no" |} in
  OpSetRow sample_agent web w ∈ ops \/ OpSetState sample_agent web (row_config w) (row_activation w) ∈ ops.
Proof.
  intros ops w. destruct (row_answers_its_config ops sample_agent web w) as [_ H]; [|exact H].
  vm_compute. reflexivity.
Defined.
