(* ===== verification/Activation.v ===== *)
(** Which [(agent, plugin)] pairs a specification wants and what changes
    between two ([crates/balerix-server/src/plugins/activation.rs], the errors of
    [plugins/mod.rs]): the difference takes the old activations to the new
    ones and touches nothing that did not change. *)

From S2P Require Import Prelude Str BTree Names Json Fleet Manifest.

Inductive PluginError :=
| PConfig (path message : string)
| PManifest (e : ManifestError)
| PManifestParse (m : string)
| PIo (path message : string)
| PFetch (url message : string)
| PPackage (m : string)
| PDigest (expected got : string)
| PStillDeclared (name : string)
| PInternal (m : string)
| PActivation (path message : string)
| PCapability (cap : string)
| PKvKey (m : string)
| PKvConflict (key : string)
| PNotActive (agent : string)
| PKv (path message : string)
| PUnavailable (m : string)
| PManaged (m : string).

(** [NameError]'s [Display]. *)
Definition name_error_text `{Unicode} (e : NameError) : string :=
  "invalid " +:+ ne_kind e +:+ " name " +:+ debug_str (ne_value e) +:+ ": " +:+ ne_reason e.

Record Pair := { pr_agent : AgentId; pr_plugin : AgentName; pr_config : Value }.
#[export] Instance pair_eq_dec : EqDecision Pair.
Proof. solve_decision. Defined.

Record ActivationDiff := {
  ad_activate : list Pair;
  ad_deactivate : list (AgentId * AgentName);
}.

Definition pair_key (p : Pair) : AgentId * AgentName := (pr_agent p, pr_plugin p).

Definition config_path (agent : AgentId) (plugin : AgentName) : string :=
  "crews." +:+ to_string (id_crew agent) +:+ ".agents." +:+ to_string (id_agent agent)
  +:+ ".plugins." +:+ to_string plugin.

Section pairs.
Context `{Unicode}.

(** The body of [for (name, config) in &settings.plugins]. *)
Definition plugin_pair (crew agent : string) (id : AgentId) (e : string * Value) : result PluginError Pair :=
  let '(name, config) := e in
  let path := "crews." +:+ crew +:+ ".agents." +:+ agent +:+ ".plugins." +:+ name in
  match validate_name name with
  | Err reason => Err (PActivation path ("invalid plugin name: " +:+ reason))
  | Ok _ =>
      plugin ← map_err (fun e => PActivation path (name_error_text e)) (from_str name);
      Ok {| pr_agent := id; pr_plugin := plugin; pr_config := config |}
  end.

(** The body of [for (agent, settings) in &c.agents]. *)
Definition agent_pairs (fleet : FleetName) (crew : string) (e : string * AgentSettings)
    : result PluginError (list Pair) :=
  let '(agent, settings) := e in
  id ← map_err (fun e => PActivation ("crews." +:+ crew +:+ ".agents." +:+ agent) (name_error_text e))
         (from_str (to_string fleet +:+ "/" +:+ crew +:+ "/" +:+ agent));
  try_map (plugin_pair crew agent id) (entries (as_plugins settings)).

Definition pair_le (x y : Pair) : Prop := kle (pair_key x) (pair_key y).
#[export] Instance pair_le_dec : RelDecision pair_le.
Proof. intros x y. apply kle_dec. Defined.
#[export] Instance pair_le_trans : Transitive pair_le.
Proof. intros x y z. apply kle_trans. Qed.
#[export] Instance pair_le_total : Total pair_le.
Proof. intros x y. apply kle_total. Qed.

Definition pairs (fleet : FleetName) (spec : FleetSpec) : result PluginError (list Pair) :=
  out ← try_concat (fun '(crew, c) => try_concat (agent_pairs fleet crew) (entries (cs_agents c)))
          (entries (fs_crews spec));
  Ok (merge_sort pair_le out).
End pairs.

(** The closure [find] of [diff]. *)
Definition find_pair (set : list Pair) (p : Pair) : option Pair :=
  snd <$> list_find (fun q => pr_agent q = pr_agent p /\ pr_plugin q = pr_plugin p) set.

Definition activates (old : list Pair) (p : Pair) : bool :=
  match find_pair old p with
  | Some prev => negb (bool_decide (pr_config prev = pr_config p))
  | None => true
  end.

Definition diff (old new : list Pair) : ActivationDiff :=
  {| ad_activate := filter (fun p => activates old p = true) new;
     ad_deactivate := merge_sort kle
       (pair_key <$> filter (fun p => find_pair new p = None) old) |}.

(** ** What the difference does *)

(** The activations a list of pairs stands for. *)
Definition held (ps : list Pair) : gmap (AgentId * AgentName) Value :=
  list_to_map ((fun p => (pair_key p, pr_config p)) <$> ps).

Definition play (d : ActivationDiff) (m : gmap (AgentId * AgentName) Value)
    : gmap (AgentId * AgentName) Value :=
  held (ad_activate d) ∪ foldr delete m (ad_deactivate d).

Lemma held_Some ps k v : NoDup (pair_key <$> ps) ->
  held ps !! k = Some v <-> exists p, p ∈ ps /\ pair_key p = k /\ pr_config p = v.
Proof.
  intros Hnd. unfold held. rewrite <- elem_of_list_to_map.
  - rewrite list_elem_of_fmap. split.
    + intros (p & [= -> ->] & ?). eauto.
    + intros (p & ? & <- & <-). eauto.
  - by rewrite <- list_fmap_compose.
Qed.

Lemma find_pair_held ps p : NoDup (pair_key <$> ps) ->
  pr_config <$> find_pair ps p = held ps !! pair_key p.
Proof.
  intros Hnd. apply option_eq. intros v. rewrite held_Some by done.
  unfold find_pair. destruct (list_find _ ps) as [[i q]|] eqn:Hf; simpl.
  - apply list_find_Some in Hf as (Hi & [Ha Hp] & _). split.
    + intros [= <-]. exists q. unfold pair_key. rewrite Ha, Hp.
      split; [by eapply list_elem_of_lookup_2|done].
    + intros (q' & (j & Hj)%list_elem_of_lookup & Hk & <-). f_equal. f_equal.
      assert (i = j) as <-; [|congruence].
      eapply (NoDup_lookup _ _ _ (pair_key q) Hnd); rewrite list_lookup_fmap.
      * by rewrite Hi.
      * rewrite Hj. simpl. f_equal. rewrite Hk. unfold pair_key. by rewrite Ha, Hp.
  - apply list_find_None in Hf. split; [done|].
    intros (q & Hq & Hk & _). rewrite Forall_forall in Hf. exfalso.
    apply (Hf q Hq). unfold pair_key in Hk. naive_solver.
Qed.

Lemma find_pair_None ps p : NoDup (pair_key <$> ps) ->
  find_pair ps p = None <-> held ps !! pair_key p = None.
Proof.
  intros Hnd. rewrite <- find_pair_held by done. by rewrite fmap_None.
Qed.

Lemma activates_held old p : NoDup (pair_key <$> old) ->
  activates old p = true <-> held old !! pair_key p <> Some (pr_config p).
Proof.
  intros Hnd. rewrite <- find_pair_held by done. unfold activates.
  destruct (find_pair old p) as [q|]; simpl; [|done].
  rewrite negb_true_iff, bool_decide_eq_false.
  split; [by intros ? [=]|intros Hne Heq; apply Hne; by f_equal].
Qed.

Lemma lookup_foldr_delete `{Countable K} {V} (ks : list K) (m : gmap K V) k v :
  foldr delete m ks !! k = Some v <-> k ∉ ks /\ m !! k = Some v.
Proof.
  induction ks as [|k' ks IH]; simpl; [set_solver|].
  rewrite lookup_delete_Some, IH, not_elem_of_cons. naive_solver.
Qed.

Section diff.
Context (old new : list Pair).
Context (Hold : NoDup (pair_key <$> old)) (Hnew : NoDup (pair_key <$> new)).

Let d := diff old new.

Lemma elem_of_activate p :
  p ∈ ad_activate d <-> p ∈ new /\ held old !! pair_key p <> Some (pr_config p).
Proof.
  unfold d, diff. cbn [ad_activate]. rewrite list_elem_of_filter, activates_held by done. tauto.
Qed.

Lemma NoDup_activate : NoDup (pair_key <$> ad_activate d).
Proof. eapply sublist_NoDup; [exact Hnew|]. apply fmap_sublist, sublist_filter. Qed.

Lemma elem_of_deactivate k :
  k ∈ ad_deactivate d <-> is_Some (held old !! k) /\ held new !! k = None.
Proof.
  unfold d, diff. cbn [ad_deactivate]. rewrite merge_sort_Permutation, list_elem_of_fmap.
  setoid_rewrite list_elem_of_filter. setoid_rewrite find_pair_None; [|done]. split.
  - intros (p & -> & Hn & Hp). split; [|done]. exists (pr_config p). apply held_Some; eauto.
  - intros [[v (p & Hp & <- & _)%held_Some] Hn]; [|done]. eauto.
Qed.

Lemma NoDup_deactivate : NoDup (ad_deactivate d).
Proof.
  unfold d, diff. cbn [ad_deactivate]. rewrite merge_sort_Permutation.
  eapply sublist_NoDup; [exact Hold|]. apply fmap_sublist, sublist_filter.
Qed.

Lemma held_elem ps p : NoDup (pair_key <$> ps) -> p ∈ ps -> held ps !! pair_key p = Some (pr_config p).
Proof. intros. apply held_Some; eauto. Qed.

Lemma held_activate_None k v : held old !! k = Some v -> held new !! k = Some v ->
  held (ad_activate d) !! k = None.
Proof.
  intros Ho Hn. apply eq_None_not_Some.
  intros [w (q & [Hq Hqo]%elem_of_activate & <- & _)%held_Some]; [|apply NoDup_activate].
  apply held_elem in Hq; [|done]. congruence.
Qed.

Lemma play_diff : play d (held old) = held new.
Proof.
  apply map_eq. intros k. apply option_eq. intros v. unfold play.
  rewrite lookup_union_Some_raw, lookup_foldr_delete, elem_of_deactivate.
  destruct (held new !! k) as [w|] eqn:Hw.
  - destruct (decide (held old !! k = Some w)) as [He|He].
    + rewrite (held_activate_None k w), He by done. naive_solver.
    + assert (held (ad_activate d) !! k = Some w) as ->; [|naive_solver].
      apply held_Some in Hw as (p & Hp & <- & <-); [|done].
      apply held_elem; [apply NoDup_activate|]. by apply elem_of_activate.
  - assert (held (ad_activate d) !! k = None) as ->.
    { apply eq_None_not_Some. intros [w (q & [Hq _]%elem_of_activate & <- & _)%held_Some];
        [|apply NoDup_activate]. apply held_elem in Hq; [|done]. congruence. }
    split; [|done]. intros [?|(_ & Hn & Hv)]; [done|]. exfalso. apply Hn. eauto.
Qed.

Lemma diff_same : held old = held new -> d = {| ad_activate := []; ad_deactivate := [] |}.
Proof.
  intros Heq. destruct (ad_activate d) as [|p l] eqn:Ha.
  - destruct (ad_deactivate d) as [|k l] eqn:Hb; [by destruct d; simpl in *; subst|].
    assert (k ∈ ad_deactivate d) as [[? ?] ?]%elem_of_deactivate by (rewrite Hb; by left). congruence.
  - assert (p ∈ ad_activate d) as [Hp Hne]%elem_of_activate by (rewrite Ha; by left).
    exfalso. apply Hne. rewrite Heq. by apply held_elem.
Qed.
End diff.

(** The difference of two sets of pairs takes the activations of the old
    to exactly those of the new, and is minimal: it activates a pair exactly
    when it is new or its config changed, it deactivates exactly the dropped
    pairs, sorted and each once, never one it activates, and between equal
    sets it is empty. *)
Theorem diff_takes_old_to_new (old new : list Pair)
    (Hold : NoDup (pair_key <$> old)) (Hnew : NoDup (pair_key <$> new)) :
  let d := diff old new in
  play d (held old) = held new /\
  (forall p, p ∈ ad_activate d <-> p ∈ new /\ held old !! pair_key p <> Some (pr_config p)) /\
  (forall k, k ∈ ad_deactivate d <-> is_Some (held old !! k) /\ held new !! k = None) /\
  StronglySorted kle (ad_deactivate d) /\ NoDup (ad_deactivate d) /\
  (held old = held new -> d = {| ad_activate := []; ad_deactivate := [] |}).
Proof.
  intros d. split_and!.
  - by apply play_diff.
  - intros p. by apply elem_of_activate.
  - intros k. by apply elem_of_deactivate.
  - apply StronglySorted_merge_sort; apply _.
  - by apply NoDup_deactivate.
  - by apply diff_same.
Qed.

(** ** What a specification wants *)

Lemma try_concat_NoDup {E A B K} (f : A -> result E (list B)) (g : B -> K) l out :
  try_concat f l = Ok out -> NoDup l ->
  (forall x b, x ∈ l -> f x = Ok b -> NoDup (g <$> b)) ->
  (forall x y bx by', x ∈ l -> y ∈ l -> f x = Ok bx -> f y = Ok by' -> forall u v, u ∈ bx -> v ∈ by' -> g u = g v -> x = y) ->
  NoDup (g <$> out).
Proof.
  unfold try_concat. intros (ls & Hls%try_map_Ok & [= <-])%bind_Ok Hnd Heach Hdis.
  induction Hls as [|x b l ls Hx Hls IH]; [constructor|].
  apply NoDup_cons in Hnd as [Hxl Hnd]. simpl. rewrite fmap_app. apply NoDup_app. split_and!.
  - eapply Heach; [by left|done].
  - intros k (u & -> & Hu)%list_elem_of_fmap (v & Hk & (b' & Hv & Hb')%list_elem_of_join)%list_elem_of_fmap.
    destruct (Forall2_elem_r _ _ _ _ Hls Hb') as (y & Hy & Hfy).
    rewrite (Hdis x y b b') with (u := u) (v := v) in Hxl by (done || set_solver). done.
  - apply IH; [done|..].
    + intros. eapply Heach; [by right|done].
    + intros x' y bx by' ? ?. apply Hdis; by right.
Qed.

Section pairs_spec.
Context `{Unicode}.

Lemma split_char_single c s x : split_char c s = [x] -> s = x.
Proof. intros Hs. by rewrite <- (join_split_char c s), Hs. Qed.

Lemma id_text (fleet : FleetName) crew agent (id : AgentId) :
  from_str (E := NameError) (to_string fleet +:+ "/" +:+ crew +:+ "/" +:+ agent) = Ok id <->
  id_fleet id = fleet /\ crew = name_str (id_crew id) /\ agent = name_str (id_agent id).
Proof.
  rewrite (agent_id_lawful _ id), agent_id_str. split.
  - change (to_string fleet +:+ "/" +:+ crew +:+ "/" +:+ agent)
      with (name_str fleet +:+ String "/" (crew +:+ String "/" agent)).
    intros [Hf Hrest]%split_byte_inj; [|apply name_no_slash..].
    apply (f_equal (split_char "/"%char)) in Hrest. rewrite !split_char_app_sep in Hrest.
    rewrite (split_char_lacks _ (name_str (id_crew id))), (split_char_lacks _ (name_str (id_agent id)))
      in Hrest by apply name_no_slash.
    destruct (split_char "/" crew) as [|c [|]] eqn:Hc; simplify_list_eq;
      try (by apply split_char_nonempty in Hc);
      try (by match goal with Hl : _ ++ split_char _ ?s = [] |- _ =>
             apply app_eq_nil in Hl as [_ Hl%split_char_nonempty] end).
    split_and!; [done|by eapply split_char_single..].
  - intros (<- & -> & ->). done.
Qed.

(** The pairs a crew's agents contribute. *)
Definition wants_pair (fleet : FleetName) (spec : FleetSpec) (p : Pair) : Prop :=
  id_fleet (pr_agent p) = fleet /\
  exists c s, fs_crews spec !! name_str (id_crew (pr_agent p)) = Some c /\
    cs_agents c !! name_str (id_agent (pr_agent p)) = Some s /\
    as_plugins s !! name_str (pr_plugin p) = Some (pr_config p).

Lemma plugin_pair_Ok crew agent id name config p :
  plugin_pair crew agent id (name, config) = Ok p <->
  pr_agent p = id /\ name = name_str (pr_plugin p) /\ config = pr_config p.
Proof.
  unfold plugin_pair. split.
  - destruct (validate_name name); [|done]. intros H'. destruct_result.
    match goal with Hx : from_str _ = Ok _ |- _ => apply try_from_Ok in Hx as -> end. done.
  - intros (<- & -> & ->). rewrite name_valid. unfold from_str, name_from_str.
    rewrite (proj2 (try_from_Ok _ _ _) eq_refl). by destruct p.
Qed.

Lemma agent_pairs_elem fleet crew agent s ps p :
  agent_pairs fleet crew (agent, s) = Ok ps ->
  p ∈ ps <-> (id_fleet (pr_agent p) = fleet /\ crew = name_str (id_crew (pr_agent p)) /\
              agent = name_str (id_agent (pr_agent p))) /\
             as_plugins s !! name_str (pr_plugin p) = Some (pr_config p).
Proof.
  unfold agent_pairs. intros (id & Hid%map_err_Ok & Hps%try_map_Ok)%bind_Ok.
  pose proof (proj1 (id_text _ _ _ _) Hid) as Hparts. split.
  - intros Hp. destruct (Forall2_elem_r _ _ _ _ Hps Hp) as ([n v] & Hin%elem_of_entries & Hx).
    apply plugin_pair_Ok in Hx as (-> & -> & ->). done.
  - intros [Hp%id_text Hv]. rewrite Hid in Hp. injection Hp as Hp.
    destruct (Forall2_elem_l _ _ _ (name_str (pr_plugin p), pr_config p) Hps) as (q & Hq & Hin).
    { by apply elem_of_entries. }
    apply plugin_pair_Ok in Hq as (Ha & Hn%name_str_inj & Hc).
    destruct p, q; simpl in *; by subst.
Qed.

Lemma pairs_elem fleet spec ps p : pairs fleet spec = Ok ps -> p ∈ ps <-> wants_pair fleet spec p.
Proof.
  unfold pairs, wants_pair. intros (out & [Hall Hout]%try_concat_Ok & [= <-])%bind_Ok.
  rewrite merge_sort_Permutation. split.
  - intros ([crew c] & b & Hc%elem_of_entries & Hb%try_concat_Ok & Hin)%Hout.
    destruct Hb as [_ Hb].
    destruct (Hb _ Hin) as ([agent s] & l & Hs%elem_of_entries & Hl & Hp).
    apply (agent_pairs_elem _ _ _ _ _ _ Hl) in Hp as [(Hf & -> & ->) Hv]. eauto 8.
  - intros (Hf & c & s & Hc & Hs & Hv).
    destruct (Hall (name_str (id_crew (pr_agent p)), c)) as (b & Hb & Hsub); [by apply elem_of_entries|].
    apply Hsub. apply try_concat_Ok in Hb as [Hb _].
    destruct (Hb (name_str (id_agent (pr_agent p)), s)) as (l & Hl & Hsub'); [by apply elem_of_entries|].
    apply Hsub'. by apply (agent_pairs_elem _ _ _ _ _ _ Hl).
Qed.

Lemma pairs_NoDup fleet spec ps : pairs fleet spec = Ok ps -> NoDup (pair_key <$> ps).
Proof.
  unfold pairs. intros (out & Hout & [= <-])%bind_Ok. rewrite merge_sort_Permutation.
  eapply try_concat_NoDup; [exact Hout|apply entries_NoDup|..].
  - intros [crew c] b _ Hb. eapply try_concat_NoDup; [exact Hb|apply entries_NoDup|..].
    + intros [agent s] l _ Hl. unfold agent_pairs in Hl.
      apply bind_Ok in Hl as (id & _ & Hps%try_map_Ok). clear -Hps.
      pose proof (keys_NoDup (as_plugins s)) as Hnd. unfold keys in Hnd.
      induction Hps as [|[n v] p es ps Hp Hps IH]; [constructor|].
      simpl in *. apply NoDup_cons in Hnd as [Hn Hnd]. apply NoDup_cons. split; [|by apply IH].
      intros (q & Hk & Hq)%list_elem_of_fmap. apply plugin_pair_Ok in Hp as (_ & -> & _).
      destruct (Forall2_elem_r _ _ _ _ Hps Hq) as ([n' v'] & Hin & (_ & -> & _)%plugin_pair_Ok).
      apply Hn. injection Hk as _ ->. apply list_elem_of_fmap. by exists (name_str (pr_plugin q), v').
    + intros [a s] [a' s'] l l' Hs Hs' Hl Hl' u v Hu Hv [= Hid _].
      apply (agent_pairs_elem _ _ _ _ _ _ Hl) in Hu as [(_ & _ & ->) _].
      apply (agent_pairs_elem _ _ _ _ _ _ Hl') in Hv as [(_ & _ & ->) _].
      apply elem_of_entries in Hs, Hs'. congruence.
  - intros [k c] [k' c'] b b' Hc Hc' [_ Hb]%try_concat_Ok [_ Hb']%try_concat_Ok u v Hu Hv [= Hid _].
    destruct (Hb _ Hu) as ([a s] & l & _ & Hl & Hin), (Hb' _ Hv) as ([a' s'] & l' & _ & Hl' & Hin').
    apply (agent_pairs_elem _ _ _ _ _ _ Hl) in Hin as [(_ & -> & _) _].
    apply (agent_pairs_elem _ _ _ _ _ _ Hl') in Hin' as [(_ & -> & _) _].
    apply elem_of_entries in Hc, Hc'. congruence.
Qed.
End pairs_spec.

(** The pairs of a specification are exactly the plugins its agents'
    settings name, under this fleet, with their configs: each pair once, in
    the order of agent id and plugin. *)
Theorem pairs_spec `{Unicode} (fleet : FleetName) (spec : FleetSpec) (ps : list Pair)
    (Hps : pairs fleet spec = Ok ps) :
  StronglySorted pair_le ps /\
  NoDup (pair_key <$> ps) /\
  forall agent plugin config,
    held ps !! (agent, plugin) = Some config <->
    id_fleet agent = fleet /\
    exists c s, fs_crews spec !! to_string (id_crew agent) = Some c /\
      cs_agents c !! to_string (id_agent agent) = Some s /\
      as_plugins s !! to_string plugin = Some config.
Proof.
  pose proof (pairs_NoDup _ _ _ Hps) as Hnd. split_and!; [|done|].
  - unfold pairs in Hps. apply bind_Ok in Hps as (out & _ & [= <-]).
    apply StronglySorted_merge_sort; apply _.
  - intros agent plugin config. rewrite held_Some by done.
    setoid_rewrite (pairs_elem _ _ _ _ Hps). unfold wants_pair. split.
    + intros (p & Hp & [= <- <-] & <-). done.
    + intros Hw. by exists {| pr_agent := agent; pr_plugin := plugin; pr_config := config |}.
Qed.

(** ** A concrete difference *)

Definition no_escapes : Unicode := fun _ => false.

Definition sample_pair (agent : string) (H : is_ok (validate_name agent) = true) (config : Value) : Pair :=
  {| pr_agent := {| id_fleet := @mkName KFleet "f" eq_refl; id_crew := @mkName KCrew "c" eq_refl;
                    id_agent := mkName agent H |};
     pr_plugin := @mkName KAgent "flow" eq_refl; pr_config := config |}.

(** One pair is dropped, one changed, one kept, one new. *)
Lemma diff_takes_old_to_new_witness :
  let old := [sample_pair "a" eq_refl Null; sample_pair "b" eq_refl Null; sample_pair "c" eq_refl Null] in
  let new := [sample_pair "b" eq_refl (VBool true); sample_pair "c" eq_refl Null; sample_pair "d" eq_refl Null] in
  ad_activate (diff old new) = [sample_pair "b" eq_refl (VBool true); sample_pair "d" eq_refl Null] /\
  play (diff old new) (held old) = held new.
Proof.
  intros old new. split; [reflexivity|].
  apply (diff_takes_old_to_new old new); apply (bool_decide_unpack _); vm_compute; exact I.
Defined.

Definition sample_plugins_spec : FleetSpec :=
  {| fs_name := "f"; fs_tools := ∅;
     fs_crews := {[ "c" := {| cs_repo := "o/r"; cs_ref := "main"; cs_git := default_git; cs_tools := ∅;
       cs_agents := {[ "a" := {| as_claude := default_claude; as_sandbox := empty_object; as_tools := ∅;
         as_env := ∅; as_runner := Tmux; as_plugins := {[ "flow" := Null ]}; as_branch := None |} ]} |} ]} |}.

Lemma pairs_spec_witness :
  pairs (H := no_escapes) (@mkName KFleet "f" eq_refl) sample_plugins_spec = Ok [sample_pair "a" eq_refl Null] /\
  NoDup (pair_key <$> [sample_pair "a" eq_refl Null]).
Proof.
  assert (pairs (H := no_escapes) (@mkName KFleet "f" eq_refl) sample_plugins_spec =
          Ok [sample_pair "a" eq_refl Null]) as Hp by (vm_compute; reflexivity).
  split; [exact Hp|]. exact (proj1 (proj2 (pairs_spec (H := no_escapes) _ _ _ Hp))).
Defined.
