(* ===== verification/Chain.v ===== *)
(** The interceptor chain and observer delivery
    ([crates/balerix-server/src/plugins/chain.rs]): the chain of an event as a task
    that stops at each call to a plugin, the bounded observer queues with their
    delivery loops, and the count of events each plugin missed.

    A step is what one task does between two points where another may run: one
    lock's critical section (with the atomic count beside it) or one call's
    answer. [remove] is two such steps, for its two locks, and so is a push: a
    run takes the plugin's queue and then pushes to the queue it took, even when
    that was removed in between. The plugin's answers, the clock and the order
    of the tasks are inputs. Metrics and logs are left out. *)

From S2P Require Import Prelude Str BTree Names Json Rules Manifest Registry.
From S2P Require Delivery.

Notation HookEvent := Delivery.HookEvent.
Notation he_agent := Delivery.he_agent.
Notation he_name := Delivery.he_name.

Definition OBSERVER_QUEUE : nat := 1024.
Definition OBSERVER_BATCH : nat := 64.
Definition CHAIN_BUDGET_MS : N := 1500.
Arguments OBSERVER_QUEUE : simpl never.
Arguments OBSERVER_BATCH : simpl never.

(** [InterceptRequest] and [InterceptResponse]. *)
Record InterceptRequest := { ir_event : HookEvent; ir_response_so_far : Value; ir_deadline_ms : N }.
Record InterceptResponse := { iv_response : Value; iv_actions : list PluginAction }.

(** [Outcome] of [balerix_core::events]. *)
Record Outcome := { oc_response : Value; oc_actions : list PluginAction }.
Definition allow : Outcome := {| oc_response := VObject ∅; oc_actions := [] |}.

(** ** The handler's state *)

(** One [Arc<Losses>] and one [Arc<ObserverQueue>], each named by the plugin it
    was made for and a serial number. *)
Definition cell : Type := AgentName * nat.
Definition queue_id : Type := AgentName * nat.

(** [ObserverQueue]. *)
Record Queue := { q_cell : cell; q_buf : list HookEvent }.

(** Where a delivery loop stands: before [drain], with a batch in hand, in
    the [events] call. *)
Inductive DeliverTask :=
| Waiting
| Drained (batch : list HookEvent)
| Posting (batch : list HookEvent) (reported : N).

Record Observer := { ob_queue : queue_id; ob_task : DeliverTask }.

(** [PluginEventHandler], with the counts and queues its [Arc]s point to. *)
Record Handler := mkHandler {
  hd_registry : Registry;
  hd_cells : gmap cell N;
  hd_queues : gmap queue_id Queue;
  hd_next : nat;
  hd_losses : gmap AgentName cell;
  hd_observers : gmap AgentName Observer;
}.

Definition set_cells (m : gmap cell N) (h : Handler) : Handler :=
  mkHandler (hd_registry h) m (hd_queues h) (hd_next h) (hd_losses h) (hd_observers h).
Definition set_queues (m : gmap queue_id Queue) (h : Handler) : Handler :=
  mkHandler (hd_registry h) (hd_cells h) m (hd_next h) (hd_losses h) (hd_observers h).
Definition set_losses (m : gmap AgentName cell) (h : Handler) : Handler :=
  mkHandler (hd_registry h) (hd_cells h) (hd_queues h) (hd_next h) m (hd_observers h).
Definition set_observers (m : gmap AgentName Observer) (h : Handler) : Handler :=
  mkHandler (hd_registry h) (hd_cells h) (hd_queues h) (hd_next h) (hd_losses h) m.
Definition set_registry (r : Registry) (h : Handler) : Handler :=
  mkHandler r (hd_cells h) (hd_queues h) (hd_next h) (hd_losses h) (hd_observers h).

(** ** [Losses] *)

Definition cell_get (c : cell) (h : Handler) : N := default 0%N (hd_cells h !! c).
Definition cell_add (c : cell) (n : N) (h : Handler) : Handler :=
  set_cells (<[c := wrapping_add_u64 (cell_get c h) n]> (hd_cells h)) h.
Definition cell_take (c : cell) (h : Handler) : N * Handler :=
  (cell_get c h, set_cells (<[c := 0%N]> (hd_cells h)) h).

(** [losses_for]. *)
Definition losses_for (name : AgentName) (h : Handler) : option cell * Handler :=
  match hd_losses h !! name with
  | Some c => (Some c, h)
  | None =>
      if negb (is_installed (to_string name) (hd_registry h)) then (None, h)
      else
        let c := (name, hd_next h) in
        (Some c, mkHandler (hd_registry h) (<[c := 0%N]> (hd_cells h)) (hd_queues h) (S (hd_next h))
                   (<[name := c]> (hd_losses h)) (hd_observers h))
  end.

Definition missed (name : AgentName) (h : Handler) : Handler :=
  match losses_for name h with
  | (Some c, h) => cell_add c 1 h
  | (None, h) => h
  end.

(** ** [ObserverQueue] *)

Definition set_observer (name : AgentName) (o : Observer) (h : Handler) : Handler :=
  set_observers (<[name := o]> (hd_observers h)) h.
Definition set_queue (q : queue_id) (x : Queue) (h : Handler) : Handler :=
  set_queues (<[q := x]> (hd_queues h)) h.

(** [queue_for]. *)
Definition queue_for (name : AgentName) (h : Handler) : option queue_id * Handler :=
  match hd_observers h !! name with
  | Some o => (Some (ob_queue o), h)
  | None =>
      match losses_for name h with
      | (None, h) => (None, h)
      | (Some c, h) =>
          let q := (name, hd_next h) in
          (Some q, mkHandler (hd_registry h) (hd_cells h) (<[q := {| q_cell := c; q_buf := [] |}]> (hd_queues h))
                     (S (hd_next h)) (hd_losses h) (<[name := {| ob_queue := q; ob_task := Waiting |}]> (hd_observers h)))
      end
  end.

(** [ObserverQueue::push]. *)
Definition queue_push (q : queue_id) (e : HookEvent) (h : Handler) : Handler :=
  match hd_queues h !! q with
  | None => h
  | Some x =>
      if OBSERVER_QUEUE <=? length (q_buf x) then
        cell_add (q_cell x) 1 (set_queue q {| q_cell := q_cell x; q_buf := tail (q_buf x) ++ [e] |} h)
      else set_queue q {| q_cell := q_cell x; q_buf := q_buf x ++ [e] |} h
  end.

(** [PluginEventHandler::on_hello], [ObserverQueue::clear]. *)
Definition on_hello (name : AgentName) (h : Handler) : Handler :=
  match hd_observers h !! name with
  | None => h
  | Some o =>
      match hd_queues h !! ob_queue o with
      | None => h
      | Some x =>
          cell_add (q_cell x) (N.of_nat (length (q_buf x))) (set_queue (ob_queue o) {| q_cell := q_cell x; q_buf := [] |} h)
      end
  end.

(** One turn of [deliver], up to its next await: [drain], [ready_addr] and
    [take], the answer to [events]. *)
Definition deliver (name : AgentName) (acknowledged : bool) (h : Handler) : Handler :=
  match hd_observers h !! name with
  | None => h
  | Some o =>
      match hd_queues h !! ob_queue o with
      | None => h
      | Some x =>
          let c := q_cell x in
          let at_ task := set_observer name {| ob_queue := ob_queue o; ob_task := task |} in
          match ob_task o with
          | Waiting =>
              match take OBSERVER_BATCH (q_buf x) with
              | [] => h
              | batch => at_ (Drained batch) (set_queue (ob_queue o) {| q_cell := c; q_buf := drop OBSERVER_BATCH (q_buf x) |} h)
              end
          | Drained batch =>
              match ready_addr name (hd_registry h) with
              | None => cell_add c (N.of_nat (length batch)) (at_ Waiting h)
              | Some _ => let '(reported, h) := cell_take c h in at_ (Posting batch reported) h
              end
          | Posting batch reported =>
              if acknowledged then at_ Waiting h
              else cell_add c (wrapping_add_u64 reported (N.of_nat (length batch))) (at_ Waiting h)
          end
      end
  end.

(** [remove], its two statements: the observer with its aborted task (the queue
    stays with whoever took it), the count. *)
Definition remove_queue (name : AgentName) (h : Handler) : Handler :=
  set_observers (delete name (hd_observers h)) h.
Definition remove_losses (name : AgentName) (h : Handler) : Handler :=
  set_losses (delete name (hd_losses h)) h.

(** ** [run], one event through the chain *)

Inductive RunTask :=
| Missing (unready : list AgentName) (ready : list (AgentName * PluginAddr)) (o : Outcome)
| Calling (ready : list (AgentName * PluginAddr)) (o : Outcome)
| Awaiting (name : AgentName) (req : InterceptRequest) (losses : option cell) (reported : N)
    (rest : list (AgentName * PluginAddr)) (o : Outcome)
| Pushing (ready unready : list AgentName) (o : Outcome)
| Holding (q : queue_id) (ready unready : list AgentName) (o : Outcome)
| Returned (o : Outcome).

Record Run := { run_event : HookEvent; run_agent : AgentId; run_deadline : N; run_at : RunTask }.

Definition set_at (at_ : RunTask) (t : Run) : Run :=
  {| run_event := run_event t; run_agent := run_agent t; run_deadline := run_deadline t; run_at := at_ |}.

(** Up to the first loop: [None] for an event of no agent, which is allowed. *)
Definition start_run (event : HookEvent) (now : N) (h : Handler) : option Run :=
  agent ← to_option (from_str (E := NameError) (he_agent event));
  let intercepting := intercepting agent (he_name event) (hd_registry h) in
  Some {| run_event := event; run_agent := agent; run_deadline := now + CHAIN_BUDGET_MS * 1000000;
          run_at := Missing (sub_unready intercepting) (sub_ready intercepting) allow |}.

Definition answered (v : InterceptResponse) (o : Outcome) : Outcome :=
  {| oc_response := iv_response v; oc_actions := oc_actions o ++ iv_actions v |}.

(** One turn of one of [run]'s loops, or the answer to the call it waits for. *)
Definition run_turn (now : N) (answer : option InterceptResponse) (t : Run) (h : Handler) : Run * Handler :=
  match run_at t with
  | Missing (name :: unready) ready o => (set_at (Missing unready ready o) t, missed name h)
  | Missing [] ready o => (set_at (Calling ready o) t, h)
  | Calling ((name, _) :: rest) o =>
      let remaining := (run_deadline t - now)%N in
      if (remaining =? 0)%N then (set_at (Calling rest o) t, missed name h)
      else
        let '(losses, h) := losses_for name h in
        let '(reported, h) := match losses with Some c => cell_take c h | None => (0%N, h) end in
        let req := {| ir_event := run_event t; ir_response_so_far := oc_response o;
                      ir_deadline_ms := N.min (remaining / 1000000) u64_max |} in
        (set_at (Awaiting name req losses reported rest o) t, h)
  | Calling [] o =>
      let observing := observing (run_agent t) (he_name (run_event t)) (hd_registry h) in
      (set_at (Pushing ((sub_ready observing).*1) (sub_unready observing) o) t, h)
  | Awaiting _ _ losses reported rest o =>
      match answer with
      | Some v => (set_at (Calling rest (answered v o)) t, h)
      | None =>
          (set_at (Calling rest o) t,
           match losses with Some c => cell_add c (wrapping_add_u64 reported 1) h | None => h end)
      end
  | Pushing (name :: ready) unready o =>
      match queue_for name h with
      | (Some q, h) => (set_at (Holding q ready unready o) t, h)
      | (None, h) => (set_at (Pushing ready unready o) t, h)
      end
  | Holding q ready unready o => (set_at (Pushing ready unready o) t, queue_push q (run_event t) h)
  | Pushing [] (name :: unready) o => (set_at (Pushing [] unready o) t, missed name h)
  | Pushing [] [] o => (set_at (Returned o) t, h)
  | Returned _ => (t, h)
  end.

(** ** The tasks together *)

Record System := { sys_handler : Handler; sys_runs : list Run }.

Inductive Step :=
| SStart (event : HookEvent) (now : N)
| SRun (i : nat) (now : N) (answer : option InterceptResponse)
| SDeliver (name : AgentName) (acknowledged : bool)
| SHello (name : AgentName)
| SRemoveQueue (name : AgentName)
| SRemoveLosses (name : AgentName)
| SRegistry (op : RegOp).

Definition with_handler (s : System) (h : Handler) : System := {| sys_handler := h; sys_runs := sys_runs s |}.

Definition sys_step (s : System) (step : Step) : System :=
  let h := sys_handler s in
  match step with
  | SStart event now => {| sys_handler := h; sys_runs := sys_runs s ++ option_list (start_run event now h) |}
  | SRun i now answer =>
      match sys_runs s !! i with
      | Some t => let '(t', h') := run_turn now answer t h in {| sys_handler := h'; sys_runs := <[i := t']> (sys_runs s) |}
      | None => s
      end
  | SDeliver name acknowledged => with_handler s (deliver name acknowledged h)
  | SHello name => with_handler s (on_hello name h)
  | SRemoveQueue name => with_handler s (remove_queue name h)
  | SRemoveLosses name => with_handler s (remove_losses name h)
  | SRegistry op => with_handler s (set_registry (reg_step (hd_registry h) op) h)
  end.

Definition new_handler : Handler := mkHandler new_registry ∅ ∅ 0 ∅ ∅.
Definition new_system : System := {| sys_handler := new_handler; sys_runs := [] |}.
Definition run_steps (steps : list Step) (s : System) : System := foldl sys_step s steps.

(** ** Sums *)

Definition sum_of {A} (f : A -> N) (l : list A) : N := foldr (fun x n => f x + n)%N 0%N l.

Lemma sum_of_app {A} (f : A -> N) l k : sum_of f (l ++ k) = (sum_of f l + sum_of f k)%N.
Proof. induction l as [|x l IH]; simpl; [done|]. rewrite IH. lia. Qed.

#[export] Instance sum_of_proper {A} (f : A -> N) : Proper ((≡ₚ) ==> (=)) (sum_of f).
Proof. induction 1; simpl; lia. Qed.

Lemma sum_of_insert {A} (f : A -> N) l i x y : l !! i = Some x ->
  (sum_of f (<[i := y]> l) + f x = sum_of f l + f y)%N.
Proof.
  revert i. induction l as [|z l IH]; intros [|i]; simpl; try done.
  - intros [= ->]. lia.
  - intros Hi%IH. lia.
Qed.

Lemma sum_of_lookup {A} (f : A -> N) l i x : l !! i = Some x -> (f x <= sum_of f l)%N.
Proof.
  revert i. induction l as [|z l IH]; intros [|i]; simpl; try done.
  - intros [= ->]. lia.
  - intros Hi%IH. lia.
Qed.

Definition map_sum `{Countable K} {A} (f : K -> A -> N) (m : gmap K A) : N :=
  sum_of (fun kv => f kv.1 kv.2) (map_to_list m).

Section map_sum.
Context `{Countable K} {A : Type} (f : K -> A -> N).

Lemma map_sum_fresh (m : gmap K A) k x : m !! k = None ->
  map_sum f (<[k := x]> m) = (f k x + map_sum f m)%N.
Proof. intros Hk. unfold map_sum. by rewrite map_to_list_insert. Qed.

Lemma map_sum_insert (m : gmap K A) k x y : m !! k = Some x ->
  (map_sum f (<[k := y]> m) + f k x = map_sum f m + f k y)%N.
Proof.
  intros Hk. rewrite <- insert_delete_eq, map_sum_fresh by apply lookup_delete_eq.
  unfold map_sum. rewrite <- (map_to_list_delete m k x Hk). simpl. lia.
Qed.
End map_sum.

(** ** What each plugin is owed *)

(** What one step of the system means for a plugin: events it is offered,
    events it acknowledged, counts of lost events a call it acknowledged
    reported, and what went because it is not (or no longer) installed. It is
    read off the state before the step, not off what the step does. *)
Record Ledger := mkLedger { offered : N; acked : N; settled : N; gone : N }.

Definition nothing : Ledger := mkLedger 0 0 0 0.
Definition offer (n : N) : Ledger := mkLedger n 0 0 0.
Definition goes (n : N) : Ledger := mkLedger 0 0 0 n.
Definition ledger_add (x y : Ledger) : Ledger :=
  mkLedger (offered x + offered y) (acked x + acked y) (settled x + settled y) (gone x + gone y).

Definition times (name : AgentName) (l : list AgentName) : N := N.of_nat (length (filter (eq name) l)).

(** Installed, or with a count that its removal has not reached. *)
Definition tracked (name : AgentName) (h : Handler) : bool :=
  bool_decide (is_Some (hd_losses h !! name)) || is_installed (to_string name) (hd_registry h).
Definition all_subscribed (s : Subscribed) : list AgentName := sub_unready s ++ (sub_ready s).*1.

Section ledger.
Context (name : AgentName).

(** An event for [m] that nothing will count. *)
Definition untold (m : AgentName) (h : Handler) : Ledger :=
  if bool_decide (m = name) && negb (tracked m h) then goes 1 else nothing.
Definition is_live (q : queue_id) (h : Handler) : bool := bool_decide (ob_queue <$> hd_observers h !! q.1 = Some q).
Definition is_full (q : queue_id) (h : Handler) : bool :=
  match hd_queues h !! q with Some x => OBSERVER_QUEUE <=? length (q_buf x) | None => false end.

Definition turn_ledger (now : N) (answer : option InterceptResponse) (t : Run) (h : Handler) : Ledger :=
  match run_at t with
  | Missing (m :: _) _ _ | Pushing [] (m :: _) _ => untold m h
  | Calling ((m, _) :: _) _ => if (run_deadline t - now =? 0)%N then untold m h else nothing
  | Calling [] _ => offer (times name (all_subscribed (observing (run_agent t) (he_name (run_event t)) (hd_registry h))))
  | Awaiting m _ losses reported _ _ =>
      if bool_decide (m = name) then
        match answer, losses with
        | Some _, _ => mkLedger 0 1 reported 0
        | None, None => goes 1
        | None, Some _ => nothing
        end
      else nothing
  | Pushing (m :: _) _ _ => if bool_decide (is_Some (hd_observers h !! m)) then nothing else untold m h
  | Holding q _ _ _ => if bool_decide (q.1 = name) && negb (is_live q h) && negb (is_full q h) then goes 1 else nothing
  | _ => nothing
  end.

Definition task_events (t : DeliverTask) : nat :=
  match t with Waiting => 0 | Drained b | Posting b _ => length b end.
Definition task_reported (t : DeliverTask) : N :=
  match t with Posting _ r => r | _ => 0%N end.

(** What waits in the plugin's queue and with its delivery loop, and the report
    that loop has under way. *)
Definition queue_length (q : queue_id) (h : Handler) : N :=
  match hd_queues h !! q with Some x => N.of_nat (length (q_buf x)) | None => 0 end.
Definition observer_held (h : Handler) : N :=
  match hd_observers h !! name with
  | Some o => queue_length (ob_queue o) h + N.of_nat (task_events (ob_task o))
  | None => 0
  end.
Definition observer_reported (h : Handler) : N :=
  match hd_observers h !! name with Some o => task_reported (ob_task o) | None => 0 end.

Definition happened (s : System) (step : Step) : Ledger :=
  let h := sys_handler s in
  match step with
  | SStart event _ =>
      match to_option (from_str (E := NameError) (he_agent event)) with
      | Some agent => offer (times name (all_subscribed (intercepting agent (he_name event) (hd_registry h))))
      | None => nothing
      end
  | SRun i now answer => match sys_runs s !! i with Some t => turn_ledger now answer t h | None => nothing end
  | SDeliver m true =>
      match hd_observers h !! m with
      | Some {| ob_task := Posting batch reported |} =>
          if bool_decide (m = name) then mkLedger 0 (N.of_nat (length batch)) reported 0 else nothing
      | _ => nothing
      end
  | SRemoveQueue m => if bool_decide (m = name) then goes (observer_held h + observer_reported h) else nothing
  | _ => nothing
  end.

(** The whole run's ledger. *)
Fixpoint ledger (steps : list Step) (s : System) : Ledger :=
  match steps with
  | [] => nothing
  | step :: steps => ledger_add (happened s step) (ledger steps (sys_step s step))
  end.

(** The plugins a run has yet to see to: still in its lists, in the call it
    waits for, or with an event it is about to push. *)
Definition to_see (a : RunTask) : list AgentName :=
  match a with
  | Missing unready ready _ => unready ++ ready.*1
  | Calling ready _ => ready.*1
  | Awaiting m _ _ _ rest _ => m :: rest.*1
  | Pushing ready unready _ => unready ++ ready
  | Holding q ready unready _ => q.1 :: unready ++ ready
  | Returned _ => []
  end.
Definition run_held (t : Run) : N := times name (to_see (run_at t)).
Definition run_reported (t : Run) : N :=
  match run_at t with Awaiting m _ _ reported _ _ => if bool_decide (m = name) then reported else 0%N | _ => 0%N end.

(** The counts made for the plugin: the present one and those its removals
    left to a call or a queue still under way. *)
Definition mine (c : cell) (n : N) : N := if bool_decide (c.1 = name) then n else 0%N.
Definition counted (h : Handler) : N := map_sum mine (hd_cells h).
End ledger.

(** ** The invariant *)

Record queue_ok (h : Handler) (q : queue_id) (x : Queue) : Prop := {
  qo_old : q.2 < hd_next h;
  qo_cell : (q_cell x).1 = q.1 /\ (q_cell x).2 < hd_next h;
  qo_bound : length (q_buf x) <= OBSERVER_QUEUE;
}.

Record handler_ok (h : Handler) : Prop := {
  ho_cells : forall c, hd_next h <= c.2 -> hd_cells h !! c = None;
  ho_losses : forall name c, hd_losses h !! name = Some c -> c.1 = name /\ c.2 < hd_next h;
  ho_queues : forall q x, hd_queues h !! q = Some x -> queue_ok h q x;
  ho_observers : forall name o, hd_observers h !! name = Some o ->
    (ob_queue o).1 = name /\ is_Some (hd_queues h !! ob_queue o) /\ task_events (ob_task o) <= OBSERVER_BATCH;
}.

Definition run_ok (h : Handler) (t : Run) : Prop :=
  match run_at t with
  | Awaiting name _ (Some c) _ _ _ => c.1 = name /\ c.2 < hd_next h
  | Awaiting _ _ None reported _ _ => reported = 0%N
  | Holding q _ _ _ => is_Some (hd_queues h !! q)
  | _ => True
  end.

(** Nothing older is forgotten. *)
Definition extends (h h' : Handler) : Prop :=
  hd_next h <= hd_next h' /\ forall q, is_Some (hd_queues h !! q) -> is_Some (hd_queues h' !! q).

#[export] Instance extends_preorder : PreOrder extends.
Proof. split; [by intros h; split|]. intros h1 h2 h3 [? ?] [? ?]. split; [lia|]. auto. Qed.

Lemma run_ok_mono h h' t : extends h h' -> run_ok h t -> run_ok h' t.
Proof. intros [Hn Hq]. unfold run_ok. destruct (run_at t) as [| |? ? [] ? ? ?| | |]; auto. intros []; split; [done|lia]. Qed.

(** What a step from [h] to [h'] leaves of a plugin's events, around a run that
    had [r] of them and then has [r']: 64 bits wide. *)
Definition total (name : AgentName) (h : Handler) : N := observer_held name h + observer_reported name h + counted name h.
Definition closed (L : Ledger) : N := acked L + settled L + gone L.
Definition balanced (name : AgentName) (L : Ledger) (h h' : Handler) (r r' : N) : Prop :=
  (total name h + r + offered L <= u64_max)%N ->
  (total name h' + r' + closed L = total name h + r + offered L)%N.
Definition keeps (L : AgentName -> Ledger) (h h' : Handler) (r r' : AgentName -> N) : Prop :=
  handler_ok h' /\ extends h h' /\ forall name, balanced name (L name) h h' (r name) (r' name).

(** ** Each operation keeps the accounts *)

Lemma wrapping_exact a b : (a + b <= u64_max)%N -> wrapping_add_u64 a b = (a + b)%N.
Proof. intros. unfold wrapping_add_u64. apply N.mod_small. lia. Qed.

Lemma times_cons name m l : times name (m :: l) = ((if bool_decide (m = name) then 1 else 0) + times name l)%N.
Proof.
  unfold times. rewrite filter_cons. case_bool_decide; case_decide; subst; try done; cbn [length]; lia.
Qed.

Lemma times_app name l k : times name (l ++ k) = (times name l + times name k)%N.
Proof. unfold times. rewrite filter_app, length_app. lia. Qed.

Section cells.
Context (name : AgentName) (c : cell) (h : Handler).

Lemma counted_set v :
  (counted name (set_cells (<[c := v]> (hd_cells h)) h) + mine name c (cell_get c h) = counted name h + mine name c v)%N.
Proof.
  unfold counted, cell_get. simpl. destruct (hd_cells h !! c) as [w|] eqn:Hc; simpl.
  - pose proof (map_sum_insert (mine name) _ _ _ v Hc). lia.
  - rewrite map_sum_fresh by done. unfold mine. case_bool_decide; lia.
Qed.

Lemma counted_add n : (counted name h + mine name c n <= u64_max)%N ->
  counted name (cell_add c n h) = (counted name h + mine name c n)%N.
Proof.
  intros Hmax. unfold cell_add. pose proof (counted_set (wrapping_add_u64 (cell_get c h) n)) as Hs.
  pose proof (counted_set 0) as H0. unfold mine in *. case_bool_decide; [|lia].
  rewrite wrapping_exact in Hs by lia. rewrite wrapping_exact by lia. lia.
Qed.

Lemma counted_take : (counted name (cell_take c h).2 + mine name c (cell_get c h) = counted name h)%N.
Proof. pose proof (counted_set 0) as Hs. unfold cell_take. simpl. unfold mine in *. case_bool_decide; lia. Qed.
End cells.

Lemma ok_cells c n h : handler_ok h -> c.2 < hd_next h -> handler_ok (set_cells (<[c := n]> (hd_cells h)) h).
Proof.
  intros [] Hc. split; simpl; try done.
  - intros c' Hc'. rewrite lookup_insert_ne; [auto|]. intros ->. lia.
  - intros q x Hq. destruct (ho_queues0 q x Hq). by split.
Qed.

Lemma ok_queue (q : queue_id) x h : handler_ok h -> queue_ok h q x -> handler_ok (set_queue q x h).
Proof.
  intros [] []. split; simpl; try done.
  - intros q' x' [[<- <-]|[_ Hq]]%lookup_insert_Some; [by split|]. destruct (ho_queues0 _ _ Hq). by split.
  - intros n o Ho. destruct (ho_observers0 n o Ho) as (? & Hq & ?). split; [done|]. split; [|done].
    by apply lookup_insert_is_Some'; right.
Qed.

Lemma ok_observer name o h : handler_ok h -> (ob_queue o).1 = name -> is_Some (hd_queues h !! ob_queue o) ->
  task_events (ob_task o) <= OBSERVER_BATCH -> handler_ok (set_observer name o h).
Proof.
  intros [] ???. split; simpl; try done.
  - intros q x Hq. destruct (ho_queues0 q x Hq). by split.
  - intros n o' [[<- <-]|[_ ?]]%lookup_insert_Some; eauto.
Qed.

Lemma extends_cells c n h : extends h (set_cells (<[c := n]> (hd_cells h)) h).
Proof. by split. Qed.
Lemma extends_queue q x h : extends h (set_queue q x h).
Proof. split; [done|]. intros q' ?. simpl. by apply lookup_insert_is_Some'; right. Qed.
Lemma extends_observers m h : extends h (set_observers m h).
Proof. by split. Qed.

#[local] Hint Resolve ok_cells ok_queue ok_observer extends_cells extends_queue extends_observers : balerix.

(** A name's share of a sum. *)
Definition one (m name : AgentName) : N := if bool_decide (m = name) then 1 else 0.

Lemma losses_for_spec m h : handler_ok h ->
  let '(l, h') := losses_for m h in
  handler_ok h' /\ extends h h' /\ hd_observers h' = hd_observers h /\ hd_queues h' = hd_queues h /\
  hd_registry h' = hd_registry h /\ (forall name, counted name h' = counted name h) /\
  match l with
  | Some c => c.1 = m /\ c.2 < hd_next h' /\ tracked m h = true
  | None => tracked m h = false /\ h' = h
  end.
Proof.
  intros Hok. pose proof Hok as [Hcells Hlosses Hqueues Hobs]. unfold losses_for, tracked.
  destruct (hd_losses h !! m) as [c|] eqn:Hc; [destruct (Hlosses _ _ Hc); split_and!; naive_solver|].
  rewrite bool_decide_eq_false_2 by by intros [].
  destruct (is_installed _ _); simpl; [|naive_solver].
  split_and!; try done; try lia.
  - split; simpl.
    + intros c' ?. rewrite lookup_insert_ne; [apply Hcells; lia|]. intros <-. change ((m, hd_next h).2) with (hd_next h) in *. lia.
    + intros n c' [[<- <-]|[_ Hn]]%lookup_insert_Some; [cbn; split; [done|lia]|]. destruct (Hlosses _ _ Hn). split; [done|lia].
    + intros q x Hq. destruct (Hqueues q x Hq) as [? [? ?] ?]. split; simpl; [lia| |done]. split; [done|lia].
    + done.
  - split; [simpl; lia|done].
  - intros name. unfold counted. simpl. rewrite map_sum_fresh by by apply Hcells. unfold mine. case_bool_decide; lia.
Qed.

Lemma balanced_more name L h h' r r' k : balanced name L h h' r r' -> balanced name L h h' (r + k) (r' + k).
Proof. unfold balanced. lia. Qed.

Lemma observer_same name h h' : hd_observers h' = hd_observers h -> hd_queues h' = hd_queues h ->
  observer_held name h' = observer_held name h /\ observer_reported name h' = observer_reported name h.
Proof. intros Ho Hq. unfold observer_held, observer_reported, queue_length. by rewrite Ho, Hq. Qed.

(** The event a plugin was to get is counted for it, or it is not there. *)
Lemma missed_keeps m h r : handler_ok h ->
  keeps (fun name => untold name m h) h (missed m h) (fun name => one m name + r name)%N r.
Proof.
  intros Hok. unfold missed. pose proof (losses_for_spec m h Hok) as Hs.
  destruct (losses_for m h) as [[c|] h'], Hs as (Hok' & Hext & Ho & Hq & _ & Hc & Hl).
  - destruct Hl as (Hname & Hold & Ht). split; [by apply ok_cells|]. split; [etrans; [exact Hext|apply extends_cells]|].
    intros name Hmax. unfold untold in *. rewrite Ht in *. rewrite andb_false_r in *. unfold total in *. cbn in *.
    destruct (observer_same name h (cell_add c 1 h')) as [-> ->]; [done..|].
    assert (mine name c 1 = one m name) as Hm by (unfold mine, one; by rewrite Hname).
    rewrite counted_add; rewrite ?Hm, ?Hc; change (closed nothing) with 0%N; lia.
  - destruct Hl as [Ht ->]. split; [done|]. split; [done|]. intros name Hmax. unfold untold in *. rewrite Ht in *.
    unfold one in *. cbn [negb] in *. rewrite andb_true_r in *. case_bool_decide; unfold closed in *; cbn in *; lia.
Qed.

(** A queue of another plugin changes nothing for this one. *)
Lemma queue_length_set (q q' : queue_id) x h : queue_length q (set_queue q' x h) =
  if bool_decide (q = q') then N.of_nat (length (q_buf x)) else queue_length q h.
Proof.
  unfold queue_length. simpl. case_bool_decide as Hq; [subst; by rewrite lookup_insert_eq|].
  by rewrite lookup_insert_ne by congruence.
Qed.

Lemma observer_held_cells name m h : observer_held name (set_cells m h) = observer_held name h.
Proof. done. Qed.

(** What a change of a queue does to the events its plugin has waiting. *)
Lemma observer_held_queue name (q : queue_id) x x' h : handler_ok h -> hd_queues h !! q = Some x ->
  (observer_held name (set_queue q x' h) +
     (if bool_decide (q.1 = name) && is_live q h then N.of_nat (length (q_buf x)) else 0) =
   observer_held name h + (if bool_decide (q.1 = name) && is_live q h then N.of_nat (length (q_buf x')) else 0))%N.
Proof.
  intros Hok Hq. unfold observer_held, is_live. simpl. case_bool_decide as Hn; cbn [andb].
  - subst name. destruct (hd_observers h !! q.1) as [o|] eqn:Ho; cbn; [|done]. rewrite queue_length_set.
    case_bool_decide as Hl; case_bool_decide as Hl'; subst; try lia; try (exfalso; congruence).
    unfold queue_length. rewrite Hq. lia.
  - destruct (hd_observers h !! name) as [o|] eqn:Ho; [|done]. rewrite queue_length_set.
    case_bool_decide as Hl; [|lia]. exfalso. apply Hn. rewrite <- Hl. by apply (ho_observers _ Hok _ _ Ho).
Qed.

Lemma length_overflow (e : HookEvent) l : OBSERVER_QUEUE <= length l -> length (tail l ++ [e]) = length l.
Proof. intros Hl. rewrite length_app. destruct l; simpl in *; [unfold OBSERVER_QUEUE in Hl|]; lia. Qed.

(** A pushed event waits in its queue; one more than fits displaces another,
    which is counted; pushed to a queue its plugin's removal left, it is gone. *)
Lemma queue_push_keeps (q : queue_id) e h r : handler_ok h -> is_Some (hd_queues h !! q) ->
  keeps (fun name => if bool_decide (q.1 = name) && negb (is_live q h) && negb (is_full q h) then goes 1 else nothing)
    h (queue_push q e h) (fun name => one q.1 name + r name)%N r.
Proof.
  intros Hok [x Hq]. unfold queue_push, is_full. rewrite Hq. pose proof (ho_queues _ Hok _ _ Hq) as Hx.
  destruct Hx as [Hold [Hcell Hcold] Hbound].
  destruct (Nat.leb_spec OBSERVER_QUEUE (length (q_buf x))) as [Hfull|Hroom]; cbn [negb].
  - set (x' := {| q_cell := q_cell x; q_buf := tail (q_buf x) ++ [e] |}).
    assert (length (q_buf x') = length (q_buf x)) as Hlen by (by apply length_overflow).
    assert (handler_ok (set_queue q x' h)) as Hok' by (apply ok_queue; [done|]; split; [done..|by rewrite Hlen]).
    split; [by apply ok_cells|]. split; [etrans; [apply extends_queue|apply extends_cells]|].
    intros name Hmax. pose proof (observer_held_queue name q x x' h Hok Hq) as Hh. rewrite Hlen in Hh.
    cbv beta in Hmax |- *. rewrite andb_false_r in Hmax |- *. unfold total in *. unfold closed. cbn [offered acked settled gone nothing] in *.
    assert (mine name (q_cell x) 1 = one q.1 name) as Hm by (unfold mine, one; by rewrite Hcell).
    change (counted name h) with (counted name (set_queue q x' h)) in *.
    unfold cell_add at 1. rewrite observer_held_cells. change (observer_reported name (cell_add _ _ _)) with (observer_reported name h).
    rewrite counted_add; rewrite ?Hm; lia.
  - set (x' := {| q_cell := q_cell x; q_buf := q_buf x ++ [e] |}).
    assert (length (q_buf x') = length (q_buf x) + 1) as Hlen by (unfold x'; cbn; by rewrite length_app).
    split; [apply ok_queue; [done|]; split; [done..|lia]|]. split; [apply extends_queue|].
    intros name Hmax. pose proof (observer_held_queue name q x x' h Hok Hq) as Hh. rewrite Hlen in Hh.
    cbv beta in Hmax |- *. rewrite andb_true_r in Hmax |- *. unfold total in *. change (observer_reported name (set_queue q x' h)) with (observer_reported name h).
    change (counted name (set_queue q x' h)) with (counted name h). unfold one in *.
    unfold closed. case_bool_decide; destruct (is_live q h); cbn in *; lia.
Qed.

Lemma queue_length_new (q q' : queue_id) x r cells m next losses obs :
  queue_length q (mkHandler r cells (<[q' := x]> m) next losses obs) =
  if bool_decide (q = q') then N.of_nat (length (q_buf x))
  else match m !! q with Some x => N.of_nat (length (q_buf x)) | None => 0 end%N.
Proof.
  unfold queue_length. simpl. case_bool_decide as Hq; [subst; by rewrite lookup_insert_eq|].
  by rewrite lookup_insert_ne by congruence.
Qed.

(** The queue taken, with the event still to push; none for a plugin that is
    not there. *)
Lemma queue_for_keeps m h r : handler_ok h ->
  let '(q, h') := queue_for m h in
  keeps (fun name => if bool_decide (is_Some (hd_observers h !! m)) then nothing else untold name m h) h h'
    (fun name => one m name + r name)%N
    (fun name => match q with Some q => one q.1 name + r name | None => r name end)%N /\
  match q with Some q => is_Some (hd_queues h' !! q) | None => True end.
Proof.
  intros Hok. unfold queue_for. destruct (hd_observers h !! m) as [o|] eqn:Ho.
  - destruct (ho_observers _ Hok _ _ Ho) as (Hn & Hq & _). split; [|done]. split; [done|]. split; [done|].
    intros name Hmax. rewrite bool_decide_eq_true_2 by done. rewrite Hn. unfold closed. cbn. lia.
  - pose proof (losses_for_spec m h Hok) as Hs.
    destruct (losses_for m h) as [[c|] h'], Hs as (Hok' & Hext & Hob & Hqs & _ & Hc & Hl).
    + destruct Hl as (Hname & Hold & Ht). pose proof Hok' as [Hcells Hlosses Hqueues Hobs]. split.
      2: { simpl. by rewrite lookup_insert_eq. }
      split; [|split].
      * split; simpl.
        -- intros c' ?. apply Hcells. lia.
        -- intros n c' Hn. destruct (Hlosses _ _ Hn). split; [done|lia].
        -- intros q x [[<- <-]|[_ Hq]]%lookup_insert_Some.
           ++ split; simpl; [lia| |lia]. split; [done|lia].
           ++ destruct (Hqueues q x Hq) as [? [? ?] ?]. split; simpl; [lia| |done]. split; [done|lia].
        -- intros n o [[<- <-]|[_ Hn]]%lookup_insert_Some.
           ++ simpl. split; [done|]. split; [by rewrite lookup_insert_eq|lia].
           ++ destruct (Hobs n o Hn) as (? & Hq & ?). split; [done|]. split; [|done]. by apply lookup_insert_is_Some'; right.
      * etrans; [exact Hext|]. split; simpl; [lia|]. intros q ?. by apply lookup_insert_is_Some'; right.
      * intros name Hmax. rewrite bool_decide_eq_false_2 by by intros []. unfold untold. rewrite Ht, andb_false_r.
        unfold total, observer_held, observer_reported in *. cbn [hd_observers fst]. rewrite Hob.
        change (counted name (mkHandler _ _ _ _ _ _)) with (counted name h'). rewrite Hc. destruct (decide (m = name)) as [<-|Hne].
        -- rewrite lookup_insert_eq, Ho, queue_length_new, bool_decide_eq_true_2 by done. unfold closed. cbn. lia.
        -- rewrite lookup_insert_ne by done. destruct (hd_observers h !! name) as [o|] eqn:Hn; [|unfold closed; cbn; lia].
           rewrite queue_length_new, bool_decide_eq_false_2, Hqs; [fold (queue_length (ob_queue o) h); unfold closed; cbn; lia|]. intros He. destruct (ho_observers _ Hok _ _ Hn) as (Hq & _). rewrite He in Hq. done.
    + destruct Hl as [Ht ->]. split; [|done]. split; [done|]. split; [done|]. intros name Hmax.
      rewrite bool_decide_eq_false_2 in * by by intros []. unfold untold, one in *. rewrite Ht in *. cbn [negb] in *. rewrite andb_true_r in *.
      case_bool_decide; unfold closed in *; cbn in *; lia.
Qed.

Lemma live_observer m o h : handler_ok h -> hd_observers h !! m = Some o ->
  (ob_queue o).1 = m /\ is_live (ob_queue o) h = true.
Proof.
  intros Hok Ho. destruct (ho_observers _ Hok _ _ Ho) as (Hn & _). split; [done|].
  unfold is_live. rewrite Hn, Ho. by apply bool_decide_eq_true.
Qed.

(** What a change of a delivery loop does to the accounts of its plugin. *)
Lemma observer_task name m o task h : hd_observers h !! m = Some o ->
  let h' := set_observer m {| ob_queue := ob_queue o; ob_task := task |} h in
  (observer_held name h' + (if bool_decide (m = name) then N.of_nat (task_events (ob_task o)) else 0) =
     observer_held name h + (if bool_decide (m = name) then N.of_nat (task_events task) else 0))%N /\
  (observer_reported name h' + (if bool_decide (m = name) then task_reported (ob_task o) else 0) =
     observer_reported name h + (if bool_decide (m = name) then task_reported task else 0))%N.
Proof.
  intros Ho h'. unfold observer_held, observer_reported, h'. simpl. case_bool_decide as Hn.
  - subst m. rewrite lookup_insert_eq, Ho. cbn. change (queue_length (ob_queue o) (set_observer _ _ h)) with (queue_length (ob_queue o) h). lia.
  - rewrite lookup_insert_ne by done. destruct (hd_observers h !! name) as [o'|]; [|lia].
    change (queue_length (ob_queue o') (set_observer _ _ h)) with (queue_length (ob_queue o') h). lia.
Qed.

Lemma mine_plugin name c n m : c.1 = m -> mine name c n = if bool_decide (m = name) then n else 0%N.
Proof. by intros <-. Qed.

(** A hello empties the queue: what it held is counted. *)
Lemma on_hello_keeps m h r : handler_ok h -> keeps (fun _ => nothing) h (on_hello m h) r r.
Proof.
  intros Hok. unfold on_hello. destruct (hd_observers h !! m) as [o|] eqn:Ho.
  2: { split; [done|]. split; [done|]. intros name Hmax. unfold closed. cbn in *. lia. }
  destruct (live_observer _ _ _ Hok Ho) as [Hn Hlive].
  destruct (hd_queues h !! ob_queue o) as [x|] eqn:Hq.
  2: { split; [done|]. split; [done|]. intros name Hmax. unfold closed. cbn in *. lia. }
  destruct (ho_queues _ Hok _ _ Hq) as [Hold [Hcell Hcold] _].
  set (x' := {| q_cell := q_cell x; q_buf := [] |}).
  assert (handler_ok (set_queue (ob_queue o) x' h)) as Hok' by (apply ok_queue; [done|]; split; cbn; [done..|lia]).
  split; [by apply ok_cells|]. split; [etrans; [apply extends_queue|apply extends_cells]|].
  intros name Hmax. pose proof (observer_held_queue name _ x x' h Hok Hq) as Hh. rewrite Hlive, Hn, andb_true_r in Hh.
  unfold total in *. unfold cell_add at 1. rewrite observer_held_cells. change (observer_reported name (cell_add _ _ _)) with (observer_reported name h).
  change (counted name h) with (counted name (set_queue (ob_queue o) x' h)) in *. rewrite Hn in Hcell. pose proof (mine_plugin name _ (N.of_nat (length (q_buf x))) m Hcell) as Hm.
  cbn [x' q_buf length] in Hh. rewrite counted_add; rewrite ?Hm; unfold closed; cbn [nothing acked settled gone offered] in *; case_bool_decide; lia.
Qed.

(** A turn of a delivery loop: a batch leaves the queue for it; a plugin not
    ready, or a call that fails, counts the batch; an acknowledged call settles
    it with the count it reported. *)
Lemma deliver_keeps m ack h r runs : handler_ok h ->
  keeps (fun name => happened name {| sys_handler := h; sys_runs := runs |} (SDeliver m ack)) h (deliver m ack h) r r.
Proof.
  intros Hok.
  assert (forall L : AgentName -> Ledger, (forall name, closed (L name) = 0%N /\ offered (L name) = 0%N) -> keeps L h h r r) as Hsame.
  { intros L HL. split; [done|]. split; [done|]. intros name Hmax. destruct (HL name) as [-> ->]. lia. }
  unfold deliver, happened. cbn [sys_handler]. destruct (hd_observers h !! m) as [o|] eqn:Ho; [|apply Hsame; by destruct ack].
  destruct (live_observer _ _ _ Hok Ho) as [Hn Hlive]. destruct (ho_observers _ Hok _ _ Ho) as (_ & [x Hq] & Htask). rewrite Hq.
  destruct (ho_queues _ Hok _ _ Hq) as [Hold [Hcell Hcold] Hbound]. rewrite Hn in Hcell.
  destruct o as [q task]. cbn [ob_queue ob_task] in *. destruct task as [|batch|batch reported]; cbn [task_events task_reported] in Htask.
  - destruct (take OBSERVER_BATCH (q_buf x)) as [|y l] eqn:Hbatch; [apply Hsame; by destruct ack|].
    assert (length (y :: l) + length (drop OBSERVER_BATCH (q_buf x)) = length (q_buf x)) as Hlen
      by (rewrite <- Hbatch, <- length_app, take_drop; done).
    assert (length (y :: l) <= OBSERVER_BATCH) as Hbl by (rewrite <- Hbatch, length_take; lia).
    set (x' := {| q_cell := q_cell x; q_buf := drop OBSERVER_BATCH (q_buf x) |}).
    assert (handler_ok (set_queue q x' h)) as Hok' by (apply ok_queue; [done|]; split; cbn; [done|by rewrite Hn|lia]).
    split; [apply ok_observer; [done..| |done]; simpl; by rewrite lookup_insert_eq|].
    split; [etrans; [apply extends_queue|apply extends_observers]|].
    intros name Hmax. pose proof (observer_held_queue name q x x' h Hok Hq) as Hh. rewrite Hlive, Hn, andb_true_r in Hh.
    destruct (observer_task name m _ (Drained (y :: l)) (set_queue q x' h) Ho) as [Ht Hr]. cbn [ob_queue ob_task task_events task_reported] in Ht, Hr.
    unfold total in *. cbn [x' q_buf] in Hh.
    change (counted name (set_observer _ _ (set_queue q x' h))) with (counted name h).
    change (observer_reported name (set_queue q x' h)) with (observer_reported name h) in Hr.
    assert (closed (if ack then nothing else nothing) = 0%N /\ offered (if ack then nothing else nothing) = 0%N) as [-> ->] by (by destruct ack).
    case_bool_decide; lia.
  - assert (closed (if ack then nothing else nothing) = 0%N /\ offered (if ack then nothing else nothing) = 0%N) as [Hc0 Ho0] by (by destruct ack).
    destruct (ready_addr m (hd_registry h)) as [addr|].
    + unfold cell_take. cbn beta iota.
      assert (handler_ok (set_cells (<[q_cell x:=0%N]> (hd_cells h)) h)) as Hok' by by apply ok_cells.
      split; [apply ok_observer; [done..| |done]; simpl; eauto|].
      split; [etrans; [apply extends_cells|apply extends_observers]|].
      intros name Hmax. destruct (observer_task name m _ (Posting batch (cell_get (q_cell x) h)) (set_cells (<[q_cell x:=0%N]> (hd_cells h)) h) Ho) as [Ht Hr].
      cbn [ob_queue ob_task task_events task_reported] in Ht, Hr. pose proof (counted_take name (q_cell x) h) as Hk. unfold cell_take in Hk. cbn [snd] in Hk.
      rewrite (mine_plugin name _ _ m Hcell) in Hk. unfold total in *. rewrite Hc0, Ho0 in *.
      change (counted name (set_observer _ _ ?g)) with (counted name g).
      change (observer_reported name (set_cells _ h)) with (observer_reported name h) in Hr. rewrite observer_held_cells in Ht.
      case_bool_decide; lia.
    + set (h1 := set_observer m {| ob_queue := q; ob_task := Waiting |} h).
      assert (handler_ok h1) as Hok' by (apply ok_observer; [done..| |cbn; lia]; simpl; eauto).
      split; [by apply ok_cells|]. split; [etrans; [apply extends_observers|apply extends_cells]|].
      intros name Hmax. destruct (observer_task name m _ Waiting h Ho) as [Ht Hr]. cbn [ob_queue ob_task task_events task_reported] in Ht, Hr. fold h1 in Ht, Hr.
      pose proof (mine_plugin name _ (N.of_nat (length batch)) m Hcell) as Hm. unfold total in *. rewrite Hc0, Ho0 in *.
      unfold cell_add at 1. rewrite observer_held_cells. change (observer_reported name (cell_add _ _ h1)) with (observer_reported name h1).
      change (counted name h) with (counted name h1) in *. rewrite counted_add; rewrite ?Hm; case_bool_decide; lia.
  - set (h1 := set_observer m {| ob_queue := q; ob_task := Waiting |} h).
    assert (handler_ok h1) as Hok' by (apply ok_observer; [done..| |cbn; lia]; simpl; eauto).
    destruct ack.
    + split; [done|]. split; [apply extends_observers|].
      intros name Hmax. destruct (observer_task name m _ Waiting h Ho) as [Ht Hr]. cbn [ob_queue ob_task task_events task_reported] in Ht, Hr. fold h1 in Ht, Hr.
      unfold total in *. change (counted name h1) with (counted name h). unfold closed. case_bool_decide; cbn [nothing acked settled gone offered] in *; lia.
    + split; [by apply ok_cells|]. split; [etrans; [apply extends_observers|apply extends_cells]|].
      intros name Hmax. destruct (observer_task name m _ Waiting h Ho) as [Ht Hr]. cbn [ob_queue ob_task task_events task_reported] in Ht, Hr. fold h1 in Ht, Hr.
      pose proof (mine_plugin name _ (wrapping_add_u64 reported (N.of_nat (length batch))) m Hcell) as Hm. unfold total in *.
      unfold closed. cbn [nothing acked settled gone offered] in *.
      unfold cell_add at 1. rewrite observer_held_cells. change (observer_reported name (cell_add _ _ h1)) with (observer_reported name h1).
      change (counted name h) with (counted name h1) in *. case_bool_decide as Hmn.
      * rewrite wrapping_exact in * by lia. rewrite counted_add; rewrite ?Hm; lia.
      * rewrite counted_add; rewrite ?Hm; lia.
Qed.

Lemma remove_queue_keeps m h r runs : handler_ok h ->
  keeps (fun name => happened name {| sys_handler := h; sys_runs := runs |} (SRemoveQueue m)) h (remove_queue m h) r r.
Proof.
  intros Hok. pose proof Hok as [Hcells Hlosses Hqueues Hobs]. split; [|split; [apply extends_observers|]].
  - split; simpl; try done.
    + intros q x Hq. destruct (Hqueues q x Hq). by split.
    + intros n o [_ ?]%lookup_delete_Some. eauto.
  - intros name Hmax. unfold happened in *. cbn [sys_handler] in *. unfold total in *.
    change (counted name (remove_queue m h)) with (counted name h).
    assert (observer_held name (remove_queue m h) + observer_reported name (remove_queue m h) +
      (if bool_decide (m = name) then observer_held name h + observer_reported name h else 0) =
      observer_held name h + observer_reported name h)%N as Hsum.
    { unfold observer_held, observer_reported. simpl. case_bool_decide as Hn.
      - subst m. rewrite lookup_delete_eq. lia.
      - rewrite lookup_delete_ne by done.
        destruct (hd_observers h !! name) as [o|]; [|lia]. change (queue_length (ob_queue o) (remove_queue m h)) with (queue_length (ob_queue o) h). lia. }
    unfold closed. case_bool_decide; cbn [nothing goes acked settled gone offered] in *; lia.
Qed.

Lemma remove_losses_keeps m h r : handler_ok h -> keeps (fun _ => nothing) h (remove_losses m h) r r.
Proof.
  intros []. split; [|split; [by split|]].
  - split; simpl; try done; [by intros n c [_ ?]%lookup_delete_Some; eauto|]. intros q x Hq. destruct (ho_queues0 q x Hq). by split.
  - intros name Hmax. unfold closed. cbn in *. unfold total in *. change (counted name (remove_losses m h)) with (counted name h).
    change (observer_held name (remove_losses m h)) with (observer_held name h). change (observer_reported name (remove_losses m h)) with (observer_reported name h). lia.
Qed.

Lemma set_registry_keeps g h r : handler_ok h -> keeps (fun _ => nothing) h (set_registry g h) r r.
Proof.
  intros []. split; [|split; [by split|]].
  - split; simpl; try done. intros q x Hq. destruct (ho_queues0 q x Hq). by split.
  - intros name Hmax. unfold closed. cbn in *. unfold total in *. change (counted name (set_registry g h)) with (counted name h).
    change (observer_held name (set_registry g h)) with (observer_held name h). change (observer_reported name (set_registry g h)) with (observer_reported name h). lia.
Qed.

(** ** A turn of a run keeps the accounts *)

Lemma keeps_same L h r r' : handler_ok h ->
  (forall name, (r' name + closed (L name) = r name + offered (L name))%N) -> keeps L h h r r'.
Proof. intros Hok Hr. split; [done|]. split; [done|]. intros name _. specialize (Hr name). lia. Qed.

Lemma keeps_ext L h h' r r' r1 r1' : (forall name, r name = r1 name) -> (forall name, r' name = r1' name) ->
  keeps L h h' r r' -> keeps L h h' r1 r1'.
Proof. intros H1 H2 (? & ? & Hb). split; [done|]. split; [done|]. intros name. rewrite <- H1, <- H2. apply Hb. Qed.

(** What a run holds and reports, at a point of it. *)
Definition run_share (name : AgentName) (t : Run) : N := (run_held name t + run_reported name t)%N.

(** A turn to a plugin that misses the event. *)
Lemma missed_turn L m h t t' : handler_ok h -> (forall name, L name = untold name m h) ->
  (forall name, run_share name t = (one m name + run_share name t')%N) ->
  keeps L h (missed m h) (fun name => run_share name t) (fun name => run_share name t').
Proof.
  intros Hok HL Hr. destruct (missed_keeps m h (fun name => run_share name t') Hok) as (? & ? & Hb).
  split; [done|]. split; [done|]. intros name. rewrite HL, Hr. apply Hb.
Qed.

Lemma run_share_at name t : run_share name t = match run_at t with
  | Awaiting m _ _ reported rest _ => (one m name + times name rest.*1 + if bool_decide (m = name) then reported else 0)%N
  | Holding q ready unready _ => (one q.1 name + times name (unready ++ ready))%N
  | a => times name (to_see a)
  end.
Proof.
  unfold run_share, run_held, run_reported. destruct (run_at t); cbn [to_see]; rewrite ?times_cons; unfold one; lia.
Qed.

Lemma run_turn_keeps now answer t h : handler_ok h -> run_ok h t ->
  let '(t', h') := run_turn now answer t h in
  keeps (fun name => turn_ledger name now answer t h) h h' (fun name => run_share name t) (fun name => run_share name t') /\
  run_ok h' t'.
Proof.
  intros Hok Ht. unfold run_turn, turn_ledger.
  destruct (run_at t) as [[|n unready] ready o|[|[n a] rest] o|n req losses reported rest o
                         |[|n ready] unready o|q ready unready o|o] eqn:Hat.
  - split; [|done]. apply keeps_same; [done|]. intros name. by rewrite !run_share_at, Hat.
  - split; [|done]. apply missed_turn; [done..|]. intros name. rewrite !run_share_at, Hat. cbn. rewrite times_cons. unfold one. lia.
  - split; [|done]. apply keeps_same; [done|]. intros name. rewrite !run_share_at, Hat. unfold closed.
    cbn [set_at run_at to_see fmap list_fmap offer acked settled gone offered]. unfold all_subscribed. change (times name []) with 0%N. lia.
  - destruct (_ =? 0)%N eqn:Hrem.
    { split; [|done]. apply missed_turn; [done..|]. intros name. rewrite !run_share_at, Hat. cbn. rewrite times_cons. unfold one. lia. }
    pose proof (losses_for_spec n h Hok) as Hs. destruct (losses_for n h) as [[c|] h'], Hs as (Hok' & Hext & Ho & Hq & _ & Hc & Hl).
    + destruct Hl as (Hname & Hold & _). unfold cell_take. cbn beta iota. split; [|split; done].
      split; [by apply ok_cells|]. split; [etrans; [exact Hext|apply extends_cells]|].
      intros name Hmax. rewrite !run_share_at, Hat in *. cbn [set_at run_at to_see fmap list_fmap fst] in *. rewrite times_cons in *.
      pose proof (counted_take name c h') as Hk. unfold cell_take in Hk. cbn [snd] in Hk. rewrite (mine_plugin name c _ n Hname), Hc in Hk.
      unfold total in *. destruct (observer_same name h (set_cells (<[c:=0%N]> (hd_cells h')) h')) as [-> ->]; [done..|].
      unfold closed, one in *. cbn [nothing acked settled gone offered] in *. case_bool_decide; lia.
    + destruct Hl as [_ ->]. split; [|done]. apply keeps_same; [done|]. intros name. rewrite !run_share_at, Hat. cbn. rewrite times_cons.
      unfold closed, one. cbn. case_bool_decide; lia.
  - unfold run_ok in Ht. rewrite Hat in Ht. destruct answer as [v|].
    + split; [|done]. apply keeps_same; [done|]. intros name. rewrite !run_share_at, Hat. unfold closed, one. cbn. case_bool_decide; cbn; lia.
    + split; [|done]. destruct losses as [c|].
      * destruct Ht as [Hname Hold]. split; [by apply ok_cells|]. split; [apply extends_cells|].
        intros name Hmax. rewrite !run_share_at, Hat in *. cbn [set_at run_at to_see] in *. unfold total in *.
        destruct (observer_same name h (cell_add c (wrapping_add_u64 reported 1) h)) as [-> ->]; [done..|].
        pose proof (mine_plugin name _ (wrapping_add_u64 reported 1) n Hname) as Hm. unfold closed, one in *.
        case_bool_decide; cbn [nothing acked settled gone offered] in *.
        -- rewrite wrapping_exact in * by lia. rewrite counted_add; rewrite ?Hm; lia.
        -- rewrite counted_add; rewrite ?Hm; lia.
      * subst reported. apply keeps_same; [done|]. intros name. rewrite !run_share_at, Hat. unfold closed, one. cbn. case_bool_decide; cbn; lia.
  - destruct unready as [|m unready].
    + split; [|done]. apply keeps_same; [done|]. intros name. by rewrite !run_share_at, Hat.
    + split; [|done]. apply missed_turn; [done..|]. intros name. rewrite !run_share_at, Hat. cbn. rewrite times_cons. unfold one. lia.
  - pose proof (queue_for_keeps n h (fun name => times name (unready ++ ready)) Hok) as Hp.
    destruct (queue_for n h) as [[q|] h'], Hp as [Hk Hq]; (split; [|done]); revert Hk.
    + destruct unready; apply keeps_ext; intros name; rewrite run_share_at, ?Hat; cbn; rewrite ?times_cons, ?times_app, ?times_cons; unfold one; lia.
    + destruct unready; apply keeps_ext; intros name; rewrite run_share_at, ?Hat; cbn; rewrite ?times_cons, ?times_app, ?times_cons; unfold one; lia.
  - unfold run_ok in Ht. rewrite Hat in Ht. split; [|done]. pose proof (queue_push_keeps q (run_event t) h (fun name => times name (unready ++ ready)) Hok Ht) as Hk.
    revert Hk. apply keeps_ext; intros name; rewrite run_share_at, ?Hat; done.
  - split; [|unfold run_ok; by rewrite Hat]. apply keeps_same; [done|]. intros name. by rewrite !run_share_at, Hat.
Qed.

(** ** Every reachable system *)

Definition runs_share (name : AgentName) (s : System) : N := sum_of (run_share name) (sys_runs s).

Record sys_ok (s : System) : Prop := {
  so_handler : handler_ok (sys_handler s);
  so_runs : Forall (run_ok (sys_handler s)) (sys_runs s);
}.

(** A step of the system moves every plugin's events by its ledger. *)
Definition moved (name : AgentName) (L : Ledger) (s s' : System) : Prop :=
  balanced name L (sys_handler s) (sys_handler s') (runs_share name s) (runs_share name s').

Lemma moved_nothing name s : moved name nothing s s.
Proof. intros Hmax. unfold closed. cbn [nothing acked settled gone offered] in *. lia. Qed.

Lemma with_handler_ok s h' L : sys_ok s ->
  keeps L (sys_handler s) h' (fun name => runs_share name s) (fun name => runs_share name s) ->
  sys_ok (with_handler s h') /\ forall name, moved name (L name) s (with_handler s h').
Proof.
  intros [Hok Hruns] (Hok' & Hext & Hb). split; [|done]. split; [done|].
  eapply Forall_impl; [exact Hruns|]. intros t. by apply run_ok_mono.
Qed.

Lemma sys_step_ok s step : sys_ok s ->
  sys_ok (sys_step s step) /\ forall name, moved name (happened name s step) s (sys_step s step).
Proof.
  intros Hs. pose proof Hs as [Hok Hruns].
  destruct step as [event now|i now answer|m a|m|m|m|op]; cbn [sys_step happened].
  - unfold start_run. destruct (to_option _) as [agent|]; cbn [mbind option_bind option_list].
    + split; [split; [done|]; apply Forall_app; by repeat constructor|]. intros name Hmax. unfold runs_share in *. cbn [sys_handler sys_runs] in *.
      rewrite sum_of_app.
      match goal with |- context [sum_of ?f (option_list (Some ?t))] => change (sum_of f (option_list (Some t))) with (run_share name t + 0)%N end.
      rewrite run_share_at. cbn [run_at to_see]. unfold all_subscribed, closed in *. cbn [offer acked settled gone offered] in *. lia.
    + change (option_list (None (A := Run))) with (@nil Run). rewrite app_nil_r. destruct s as [h runs]. split; [exact Hs|]. intros name. apply moved_nothing.
  - destruct (sys_runs s !! i) as [t|] eqn:Hi; [|split; [done|]; intros name; apply moved_nothing].
    pose proof (run_turn_keeps now answer t (sys_handler s) Hok) as Hturn.
    destruct (run_turn now answer t (sys_handler s)) as [t' h'].
    destruct Hturn as ((Hok' & Hext & Hb) & Ht'); [by eapply Forall_lookup_1|].
    split; [split; cbn; [done|]|].
    + apply Forall_insert; [|done]. eapply Forall_impl; [exact Hruns|]. intros u. by apply run_ok_mono.
    + intros name Hmax. specialize (Hb name). unfold moved, balanced, runs_share in *. cbn [sys_handler sys_runs] in *.
      pose proof (sum_of_insert (run_share name) _ _ _ t' Hi).
      pose proof (sum_of_lookup (run_share name) _ _ _ Hi). lia.
  - apply (with_handler_ok _ _ (fun name => happened name s (SDeliver m a))); [done|]. destruct s as [h runs]. by apply deliver_keeps.
  - apply (with_handler_ok _ _ (fun _ => nothing)); [done|]. by apply on_hello_keeps.
  - apply (with_handler_ok _ _ (fun name => happened name s (SRemoveQueue m))); [done|]. destruct s as [h runs]. by apply remove_queue_keeps.
  - apply (with_handler_ok _ _ (fun _ => nothing)); [done|]. by apply remove_losses_keeps.
  - apply (with_handler_ok _ _ (fun _ => nothing)); [done|]. by apply set_registry_keeps.
Qed.

Lemma new_system_ok : sys_ok new_system.
Proof. split; [split; simpl; try done; by intros ??|constructor]. Qed.

Lemma run_steps_ok name steps : forall s, sys_ok s ->
  sys_ok (run_steps steps s) /\ moved name (ledger name steps s) s (run_steps steps s).
Proof.
  induction steps as [|step steps IH]; intros s Hs; [split; [done|]; apply moved_nothing|].
  destruct (sys_step_ok s step Hs) as [Hs' Hm]. specialize (Hm name). destruct (IH _ Hs') as [Hs'' Hm']. split; [done|].
  unfold moved, balanced in *. cbn [ledger]. change (run_steps (step :: steps) s) with (run_steps steps (sys_step s step)).
  unfold ledger_add. intros Hmax. cbn [offered] in Hmax. specialize (Hm ltac:(lia)). unfold closed in *. cbn [acked settled gone offered] in *. lia.
Qed.


(** ** The chain fails open *)

(** A call of the chain: whom, with what, and what came back. *)
Record Call := { cl_name : AgentName; cl_request : InterceptRequest; cl_answer : option InterceptResponse }.

Definition called (answer : option InterceptResponse) (a : RunTask) : list Call :=
  match a with
  | Awaiting name req _ _ _ _ => [{| cl_name := name; cl_request := req; cl_answer := answer |}]
  | _ => []
  end.

(** The turns of one run: at each the time, the answer to the call under way if
    there is one, and the handler as the other tasks have left it. *)
Record Turn := { tn_now : N; tn_answer : option InterceptResponse; tn_handler : Handler }.

Definition drive_turn (st : Run * list Call) (u : Turn) : Run * list Call :=
  let '(t, calls) := st in
  ((run_turn (tn_now u) (tn_answer u) t (tn_handler u)).1, calls ++ called (tn_answer u) (run_at t)).
Definition drive (turns : list Turn) (t : Run) : Run * list Call := foldl drive_turn (t, []) turns.

Definition outcome_at (a : RunTask) : Outcome :=
  match a with
  | Missing _ _ o | Calling _ o | Awaiting _ _ _ _ _ o | Pushing _ _ o | Holding _ _ _ o | Returned o => o
  end.

(** The verdicts taken in order; a failed call changes nothing. *)
Definition take_answer (o : Outcome) (c : Call) : Outcome :=
  match cl_answer c with Some v => answered v o | None => o end.
Definition chain_outcome (calls : list Call) : Outcome := foldl take_answer allow calls.

(** The interceptors the run has yet to turn to. *)
Definition to_call (a : RunTask) : list AgentName :=
  match a with
  | Missing _ ready _ | Calling ready _ => ready.*1
  | Awaiting name _ _ _ rest _ => name :: rest.*1
  | _ => []
  end.

Record chain_ok (event : HookEvent) (ready : list AgentName) (t : Run) (calls : list Call) : Prop := {
  ch_event : run_event t = event;
  ch_outcome : outcome_at (run_at t) = chain_outcome calls;
  ch_order : (cl_name <$> calls) ++ to_call (run_at t) `sublist_of` ready;
  ch_awaiting : forall name req l r rest o, run_at t = Awaiting name req l r rest o ->
    ir_event req = event /\ ir_response_so_far req = oc_response o;
  ch_calls : forall i c, calls !! i = Some c ->
    ir_event (cl_request c) = event /\
    ir_response_so_far (cl_request c) = oc_response (chain_outcome (take i calls));
}.

Lemma set_at_at a t : run_at (set_at a t) = a.
Proof. done. Qed.

Lemma run_turn_chain now answer t h :
  let t' := (run_turn now answer t h).1 in
  run_event t' = run_event t /\
  outcome_at (run_at t') = foldl take_answer (outcome_at (run_at t)) (called answer (run_at t)) /\
  (cl_name <$> called answer (run_at t)) ++ to_call (run_at t') `sublist_of` to_call (run_at t) /\
  (forall name req l r rest o, run_at t' = Awaiting name req l r rest o ->
     ir_event req = run_event t /\ ir_response_so_far req = oc_response o).
Proof.
  unfold run_turn.
  destruct (run_at t) as [[|n unready] ready o|[|[n a] rest] o|n req losses reported rest o
                         |[|n ready] [|m unready] o|q ready unready o|o] eqn:Hat; simpl.
  - split_and!; try done.
  - split_and!; done.
  - split_and!; done.
  - destruct (_ =? 0)%N.
    + simpl. split_and!; try done. by apply sublist_cons.
    + destruct (losses_for n h) as [[c|] h']; simpl; (split_and!; [done..|]);
        intros ?????? [= <- <- <- <- <- <-]; done.
  - destruct answer as [v|]; simpl; split_and!; done.
  - split_and!; done.
  - split_and!; done.
  - destruct (queue_for n h) as [[q|] h']; simpl; split_and!; done.
  - destruct (queue_for n h) as [[q|] h']; simpl; split_and!; done.
  - split_and!; done.
  - rewrite Hat. split_and!; done.
Qed.

Lemma chain_outcome_snoc calls l : chain_outcome (calls ++ l) = foldl take_answer (chain_outcome calls) l.
Proof. apply foldl_app. Qed.

Lemma drive_turn_ok event ready t calls u : chain_ok event ready t calls ->
  chain_ok event ready (drive_turn (t, calls) u).1 (drive_turn (t, calls) u).2.
Proof.
  intros [He Ho Hord Hawait Hcalls]. simpl.
  destruct (run_turn_chain (tn_now u) (tn_answer u) t (tn_handler u)) as (He' & Ho' & Hsub & Haw').
  split.
  - by rewrite He'.
  - by rewrite Ho', Ho, chain_outcome_snoc.
  - rewrite fmap_app, <- app_assoc. etrans; [|exact Hord]. by apply sublist_app.
  - intros name req l r rest o Hr. destruct (Haw' _ _ _ _ _ _ Hr) as [-> ->]. by rewrite He.
  - intros i c [Hi|[Hlen Hi]]%lookup_app_Some.
    + rewrite take_app_le by (apply lookup_lt_Some in Hi; lia). eauto.
    + destruct (run_at t) as [| |name req l r rest o| | |] eqn:Hat; simpl in Hi;
        try (by rewrite lookup_nil in Hi).
      apply list_lookup_singleton_Some in Hi as [Hi <-]. simpl.
      replace i with (length calls) by lia. rewrite take_app_length.
      destruct (Hawait _ _ _ _ _ _ eq_refl) as [-> ->]. split; [done|]. by rewrite <- Ho.
Qed.

Lemma start_run_chain event now h t : start_run event now h = Some t ->
  exists agent, from_str (E := NameError) (he_agent event) = Ok agent /\
    chain_ok event ((sub_ready (intercepting agent (he_name event) (hd_registry h))).*1) t [].
Proof.
  unfold start_run. intros (agent & Hagent%to_option_Some & [= <-])%bind_Some.
  exists agent. split; [done|]. split; done.
Qed.

Lemma drive_ok event ready t turns : chain_ok event ready t [] ->
  chain_ok event ready (drive turns t).1 (drive turns t).2.
Proof.
  intros H0. unfold drive. induction turns as [|u turns IH] using rev_ind; [done|].
  rewrite foldl_app. simpl. destruct (foldl drive_turn (t, []) turns) as [t' calls].
  by apply (drive_turn_ok _ _ _ _ u) in IH.
Qed.

Lemma chain_outcome_spec calls :
  oc_response (chain_outcome calls) =
    default (VObject ∅) (last (iv_response <$> omap cl_answer calls)) /\
  oc_actions (chain_outcome calls) = omap cl_answer calls ≫= iv_actions.
Proof.
  unfold chain_outcome. induction calls as [|c calls [IH1 IH2]] using rev_ind; [done|].
  rewrite foldl_app, omap_app, fmap_app, bind_app. simpl. unfold take_answer at 1 3.
  destruct (cl_answer c); simpl.
  - by rewrite last_snoc, IH2, app_nil_r.
  - by rewrite !app_nil_r.
Qed.

(** The chain fails open. However the run of an event is interleaved with
    the rest of the daemon, it calls interceptors that were ready when the
    event arrived, each at most once and in load order, each with the event and
    the response the chain had then; its outcome holds the response of the
    last call that answered ([{}] if none did) and the actions of every call
    that answered, in order. A call that fails, or is skipped for want of
    budget, changes nothing. *)
Theorem chain_fails_open (event : HookEvent) (now : N) (h : Handler) (t : Run) (turns : list Turn)
    (Hstart : start_run event now h = Some t) :
  let '(t', calls) := drive turns t in
  let o := outcome_at (run_at t') in
  (exists agent, from_str (E := NameError) (he_agent event) = Ok agent /\
     cl_name <$> calls `sublist_of` (interceptors agent (he_name event) (hd_registry h)).*1) /\
  (forall i c, calls !! i = Some c ->
     ir_event (cl_request c) = event /\
     ir_response_so_far (cl_request c) = oc_response (chain_outcome (take i calls))) /\
  oc_response o = default (VObject ∅) (last (iv_response <$> omap cl_answer calls)) /\
  oc_actions o = omap cl_answer calls ≫= iv_actions.
Proof.
  destruct (start_run_chain _ _ _ _ Hstart) as (agent & Hagent & Hc).
  apply (drive_ok _ _ _ turns) in Hc. destruct (drive turns t) as [t' calls]. simpl in Hc.
  destruct Hc as [_ Ho Hord _ Hcalls]. rewrite Ho.
  destruct (chain_outcome_spec calls) as [Hr Ha]. split_and!; [|exact Hcalls|done|done].
  exists agent. split; [done|]. etrans; [|exact Hord]. by apply sublist_inserts_r.
Qed.

(** ** Concrete runs *)

Definition sample_event : HookEvent :=
  {| Delivery.he_agent := "f/c/a"; Delivery.he_name := "PreToolUse"; Delivery.he_session_id := None;
     Delivery.he_received_at := 0; Delivery.he_payload := Null |}.

(** [web] observes and intercepts [PreToolUse], is active and has said hello. *)
Definition chain_plugin : ResolvedPlugin :=
  {| rp_name := web; rp_package := "/opt/web"; rp_config := Null; rp_fleet_defaults := Null; rp_digest := None;
     rp_manifest :=
       {| pm_api_version := "balerix/v1"; pm_kind := "Plugin"; pm_name := "web"; pm_version := "1";
          pm_protocol := 1; pm_start := "serve";
          pm_hooks := {| hooks_observe := {["PreToolUse"]}; hooks_intercept := {["PreToolUse"]} |};
          pm_needs := ∅; pm_routes := false; pm_sandbox := VObject ∅ |} |}.

Definition sample_setup : list Step :=
  [SRegistry (OpReplace [chain_plugin] []);
   SRegistry (OpSetRow sample_agent web {| row_config := Null; row_activation := Status.act_active |});
   SRegistry (OpSetListen web "127.0.0.1:9" "t")].

Definition sample_handler : Handler := sys_handler (run_steps sample_setup new_system).
Definition sample_verdict : InterceptResponse := {| iv_response := VBool true; iv_actions := [] |}.

(** The answer of the one interceptor is the outcome. *)
Lemma chain_fails_open_witness :
  let t := {| run_event := sample_event; run_agent := sample_agent; run_deadline := 1500000000;
              run_at := Missing [] [(web, sample_addr)] allow |} in
  let turns := [{| tn_now := 0; tn_answer := None; tn_handler := sample_handler |};
                {| tn_now := 0; tn_answer := None; tn_handler := sample_handler |};
                {| tn_now := 0; tn_answer := Some sample_verdict; tn_handler := sample_handler |}] in
  start_run sample_event 0 sample_handler = Some t /\
  oc_response (outcome_at (run_at (drive turns t).1)) =
    default (VObject ∅) (last (iv_response <$> omap cl_answer (drive turns t).2)) /\
  omap cl_answer (drive turns t).2 = [sample_verdict].
Proof.
  intros t turns.
  assert (start_run sample_event 0 sample_handler = Some t) as Ht by (vm_compute; reflexivity).
  split; [exact Ht|].
  pose proof (chain_fails_open sample_event 0 sample_handler t turns Ht) as Hc.
  assert (omap cl_answer (drive turns t).2 = [sample_verdict]) as Hcalls by (vm_compute; reflexivity).
  destruct (drive turns t) as [t' calls]. destruct Hc as (_ & _ & Hr & _). split; [exact Hr|exact Hcalls].
Defined.

(** ** Removal *)

(** Removed without another task in between, a plugin the registry dropped gets
    no queue any more. *)
Lemma removed_gets_no_queue name h :
  is_installed (to_string name) (hd_registry h) = false ->
  let h' := remove_losses name (remove_queue name h) in
  queue_for name h' = (None, h').
Proof.
  intros Hgone h'. unfold queue_for, losses_for.
  assert (hd_observers h' !! name = None) as -> by apply lookup_delete_eq.
  assert (hd_losses h' !! name = None) as -> by apply lookup_delete_eq.
  change (hd_registry h') with (hd_registry h). by rewrite Hgone.
Qed.

(** The two locks of [remove] leave a gap: a run that read its observers before
    the registry dropped the plugin, and turns to it between the two
    statements, still finds the loss count, so it makes a queue (with its
    delivery task) that no [remove] will see. *)
Definition before_removal : list Step :=
  [SStart sample_event 0; SRun 0 0 None; SRun 0 0 None; SRun 0 0 (Some sample_verdict); SRun 0 0 None].

Example remove_leaves_queue :
  let late := [SRegistry (OpReplace [] []); SRemoveQueue web; SRun 0 0 None; SRemoveLosses web] in
  let h := sys_handler (run_steps (sample_setup ++ before_removal ++ late) new_system) in
  is_installed "web" (hd_registry h) = false /\ hd_losses h !! web = None /\
  is_Some (hd_observers h !! web).
Proof. vm_compute. split_and!; eauto. Qed.

(** A run that took the queue before a whole removal pushes to it after: the
    event is in no plugin's queue and in no count. *)
Example pushed_to_removed_queue :
  let late := [SRun 0 0 None; SRegistry (OpReplace [] []); SRemoveQueue web; SRemoveLosses web; SRun 0 0 None] in
  let steps := sample_setup ++ before_removal ++ late in
  let h := sys_handler (run_steps steps new_system) in
  hd_observers h !! web = None /\ counted web h = 0%N /\
  ledger web steps new_system = mkLedger 2 1 0 1.
Proof. vm_compute. done. Qed.
