(* ===== verification/Daemon.v ===== *)
(** The daemon's apply and down ([crates/balerix-server/src/daemon.rs]): who may
    touch a fleet, what an apply checks before any plugin hears of it, the
    activations it makes and rolls back, the rows it writes, and the teardown
    of a down.

    A fleet's apply lock keeps the applies and downs of one name apart, so each
    is a function of the daemon's state; what runs between its calls besides
    (hellos, re-activations, other fleets) is not interleaved here. The fleets'
    actors and the plugins are behind the two interfaces below. Logs and
    metrics are left out. *)

From S2P Require Import Prelude Str BTree Names Json Rules Fleet Status Execute FleetRecord Config Manifest Registry Activation.
From S2P Require Repo.

(** ** Errors, callers, modes *)

Inductive DaemonError :=
| DNotFound
| DConflict
| DInvalid (m : string)
| DUnauthorized
| DInternal (m : string)
| DManaged (m : string)
| DListPending (m : string).

Inductive Caller :=
| CAdmin (force : bool)
| CPlugin (p : AgentName)
| CKubernetes (managed_by : option AgentName).

Inductive ApplyMode := Create | Replace | Upsert.

#[export] Instance apply_mode_eq_dec : EqDecision ApplyMode.
Proof. solve_decision. Defined.

Definition KUBERNETES_OWNER : string := "kubernetes".

(** [Caller::owner]. *)
Definition caller_owner (c : Caller) : option string :=
  match c with
  | CAdmin _ => None
  | CPlugin p => Some (to_string p)
  | CKubernetes (Some p) => Some (to_string p)
  | CKubernetes None => Some KUBERNETES_OWNER
  end.

(** [CallFailure] of [plugins/client.rs]. *)
Inductive CallFailure :=
| CfTimeout
| CfConnect
| CfStatus (status : N) (message : string)
| CfBody (m : string).

Definition call_failure_text (e : CallFailure) : string :=
  match e with
  | CfTimeout => "timeout"
  | CfConnect => "connection refused"
  | CfStatus status message =>
      if is_empty message then "HTTP " +:+ pretty status
      else "HTTP " +:+ pretty status +:+ ": " +:+ message
  | CfBody m => "bad response body: " +:+ m
  end.

Definition activation_message (e : CallFailure) : string :=
  match e with
  | CfStatus _ message => message
  | other => "plugin unreachable (" +:+ call_failure_text other +:+ ")"
  end.

Section texts.
Context `{Unicode}.

(** The [Display]s of the errors [apply_as] answers with. *)
Definition fleet_error_text (e : FleetError) : string :=
  match e with
  | InvalidName path source => path +:+ ": " +:+ name_error_text source
  | InvalidRepo path source =>
      path +:+ ": " +:+ "invalid repo " +:+ debug_str (Repo.re_value source) +:+ ": " +:+ Repo.re_reason source
  | EmptyRef path | EmptyIdentity path => path +:+ ": must not be empty"
  | ReservedAgentName path => path +:+ ": reserved name (tmux anchor window)"
  | InvalidBranch path reason => path +:+ ": " +:+ reason
  | InexactVersion path tool version => path +:+ ": " +:+ exact_version_message tool version
  | SandboxError path message => path +:+ ": " +:+ message
  end.

(** The errors [pairs] gives. *)
Definition plugin_error_text (e : PluginError) : string :=
  match e with
  | PActivation path message => path +:+ ": " +:+ message
  | _ => EmptyString
  end.

(** ** The checks *)

Definition reject_reserved (name : FleetName) : result DaemonError unit :=
  match reserved_fleet_reason (to_string name) with
  | Some why => Err (DInvalid ("name: " +:+ debug_str (to_string name) +:+ " is " +:+ why))
  | None => Ok tt
  end.

(** The closure [managed] of [check_owner]. *)
Definition managed_error (name : FleetName) (p : string) : DaemonError :=
  DManaged
    (if bool_decide (p = KUBERNETES_OWNER) then
       "fleet " +:+ to_string name +:+ " is managed by kubernetes; change it through its Fleet object"
     else "fleet " +:+ to_string name +:+ " is managed by plugin " +:+ p).

Definition check_owner (name : FleetName) (owner : option string) (caller : Caller) (downing : bool)
    : result DaemonError unit :=
  let nobodys := DManaged ("fleet " +:+ to_string name +:+ " is not managed by a plugin") in
  match caller, owner with
  | CAdmin force, Some p => if negb (downing && force) then Err (managed_error name p) else Ok tt
  | CPlugin me, Some p => if negb (bool_decide (p = to_string me)) then Err (managed_error name p) else Ok tt
  | CPlugin _, None => Err nobodys
  | CKubernetes (Some me), Some p =>
      if negb (bool_decide (p = to_string me)) then Err (managed_error name p) else Ok tt
  | CKubernetes (Some _), None => Err nobodys
  | CKubernetes None, Some p =>
      if negb (bool_decide (p = KUBERNETES_OWNER)) then Err (managed_error name p) else Ok tt
  | CKubernetes None, None =>
      Err (DManaged ("fleet " +:+ to_string name +:+ " is not managed by kubernetes"))
  | CAdmin _, None => Ok tt
  end.

(** [refuse_pod_runner]. *)
Definition pod_path (crew agent : string) : DaemonError :=
  DInvalid ("crews." +:+ crew +:+ ".agents." +:+ agent +:+
    ".runner.type: `pod` runs only on Kubernetes; this daemon runs agents in tmux").

Definition refuse_pod_runner (spec : FleetSpec) : result DaemonError unit :=
  try_each (fun '(crew_name, crew) =>
    try_each (fun '(agent_name, settings) =>
      ensure (negb (bool_decide (runner_kind (as_runner settings) = KPod))) (pod_path crew_name agent_name))
      (entries (cs_agents crew)))
    (entries (fs_crews spec)).

(** [apply_kube]'s check of the operator's tokens. *)
Definition check_tokens (fleet : Fleet) (agent_tokens : gmap string string) : result DaemonError unit :=
  let wanted := (fun a => to_string (ra_id a)) <$> from_fleet fleet in
  _ ← try_each (fun key =>
        match agent_tokens !! key with
        | None => Err (DInvalid ("agent_tokens: no token for " +:+ key))
        | Some t =>
            ensure (negb (String.length t <? 32))
              (DInvalid ("agent_tokens." +:+ key +:+ ": a token is at least 32 characters"))
        end) wanted;
  try_each (fun key =>
    ensure (bool_decide (key ∈ wanted))
      (DInvalid ("agent_tokens: " +:+ key +:+ " is not an agent of the fleet")))
    (keys agent_tokens).
End texts.

(** ** What the daemon uses: the actors' handles and the plugins' client *)

Inductive AskError := AskGone | AskDropped.

Definition ask_error (e : AskError) : DaemonError :=
  DInternal (match e with
             | AskGone => "fleet task is gone"
             | AskDropped => "fleet task dropped the request"
             end).

(** [FleetHandle]: the published record, the mailbox, and [actor::spawn]. *)
Class FleetActors (A W : Type) := {
  borrow : A -> W -> FleetRecord;
  is_closed : A -> W -> bool;
  (** [timeout(PURGE_EXIT_WAIT, h.tx.closed())]. *)
  wait_closed : A -> W -> bool * W;
  spawn : FleetName -> FleetRecord -> W -> A * W;
  ask_apply : A -> FleetSpec -> CredentialBundle -> gmap string string -> W ->
    result AskError FleetRecord * W;
  ask_down : A -> Keep -> bool -> W -> result AskError FleetRecord * W;
}.

(** [PluginClient]. *)
Class PluginCalls (W : Type) := {
  activate : PluginAddr -> string -> Value -> W -> result CallFailure unit * W;
  deactivate : PluginAddr -> string -> W -> result CallFailure unit * W;
}.

Record State (A W : Type) := mkState {
  st_fleets : gmap FleetName A;
  st_registry : Registry;
  st_kube : bool;
  st_changes : N;
  st_world : W;
}.
Arguments mkState {A W}.
Arguments st_fleets {A W}.
Arguments st_registry {A W}.
Arguments st_kube {A W}.
Arguments st_changes {A W}.
Arguments st_world {A W}.

Section daemon.
Context {A W : Type} `{!FleetActors A W, !PluginCalls W, !Unicode}.
Notation State := (State A W).

Definition put_fleets (m : gmap FleetName A) (s : State) : State :=
  mkState m (st_registry s) (st_kube s) (st_changes s) (st_world s).
Definition put_registry (r : Registry) (s : State) : State :=
  mkState (st_fleets s) r (st_kube s) (st_changes s) (st_world s).
Definition put_world (w : W) (s : State) : State :=
  mkState (st_fleets s) (st_registry s) (st_kube s) (st_changes s) w.
Definition bump (s : State) : State :=
  mkState (st_fleets s) (st_registry s) (st_kube s) (wrapping_add_u64 (st_changes s) 1) (st_world s).

(** ** Purged fleets *)

Definition is_purging (h : A) (w : W) : bool :=
  let r := borrow h w in desired_purge (rec_desired r) && is_down r.
Definition is_purged (h : A) (w : W) : bool := is_closed h w && is_purging h w.

(** [fleets.get(name).filter(|h| !Self::is_purged(h))]. *)
Definition live (name : FleetName) (s : State) : option A :=
  h ← st_fleets s !! name; if is_purged h (st_world s) then None else Some h.

Definition wait_purged (h : A) (s : State) : bool * State :=
  if negb (is_purging h (st_world s)) then (false, s)
  else let '(closed, w) := wait_closed h (st_world s) in (closed, put_world w s).

Definition settle_purge (name : FleetName) (s : State) : result DaemonError unit * State :=
  match st_fleets s !! name with
  | None => (Ok tt, s)
  | Some h =>
      if is_purging h (st_world s) then
        let '(gone, s) := wait_purged h s in
        (ensure gone (DInternal ("fleet " +:+ to_string name +:+ ": its purge has not finished; try again")), s)
      else (Ok tt, s)
  end.

(** ** Calls to the plugins *)

Definition deactivate_pair (agent : AgentId) (plugin : AgentName) (s : State) : State :=
  match ready_addr plugin (st_registry s) with
  | None => s
  | Some addr => put_world (deactivate addr (to_string agent) (st_world s)).2 s
  end.

(** The body of [for p in pairs] of [restore_pairs]. *)
Definition restore_pair (s : State) (p : Pair) : State :=
  match ready_addr (pr_plugin p) (st_registry s) with
  | None => s
  | Some addr =>
      let '(answer, w) := activate addr (to_string (pr_agent p)) (pr_config p) (st_world s) in
      let s := put_world w s in
      match answer with
      | Ok _ => s
      | Err e =>
          put_registry (set_state (pr_agent p) (pr_plugin p) (pr_config p)
                          (act_rejected (activation_message e)) (st_registry s)).2 s
      end
  end.
Definition restore_pairs (pairs : list Pair) (s : State) : State := foldl restore_pair s pairs.

(** ** Apply *)

Notation RowOf := (AgentId * AgentName * ActivationRow)%type.

(** The fleet's active rows: the old side of the difference. *)
Definition active_pairs (rows_now : list RowOf) : list Pair :=
  (fun e => {| pr_agent := e.1.1; pr_plugin := e.1.2; pr_config := row_config e.2 |}) <$>
    filter (fun e => pa_state (row_activation e.2) = ActActive) rows_now.

(** What an apply checks before it waits for anything, up to the new pairs. *)
Definition apply_guards (name : FleetName) (spec : FleetSpec) (caller : Caller) (s : State)
    : result DaemonError (list Pair) :=
  _ ← reject_reserved name;
  _ ← ensure (bool_decide (fs_name spec = to_string name))
        (DInvalid ("spec.name " +:+ debug_str (fs_name spec) +:+ " does not match the fleet " +:+ to_string name));
  _ ← map_err (fun e => DInvalid (fleet_error_text e)) (fleet_try_from spec);
  _ ← (if st_kube s then Ok tt else refuse_pod_runner spec);
  let unowned := match st_fleets s !! name with
                 | Some h => bool_decide (rec_owner (borrow h (st_world s)) = None)
                 | None => true
                 end in
  _ ← ensure (negb (st_kube s && (match caller with CAdmin _ => true | _ => false end) && unowned))
        (DManaged "this daemon is in kubernetes mode; create a Fleet object");
  _ ← match caller with
      | CPlugin p =>
          ensure (is_installed (to_string p) (st_registry s))
            (DManaged ("fleet " +:+ to_string name +:+ ": plugin " +:+ to_string p +:+ " is not installed"))
      | _ => Ok tt
      end;
  new ← map_err (fun e => DInvalid (plugin_error_text e)) (pairs name spec);
  _ ← try_each (fun p =>
        ensure (is_installed (to_string (pr_plugin p)) (st_registry s))
          (DInvalid (config_path (pr_agent p) (pr_plugin p) +:+ ": no plugin "
                     +:+ debug_str (to_string (pr_plugin p)) +:+ " is installed"))) new;
  Ok new.

(** The read under [fleets]: the owner's and the mode's answer. *)
Definition apply_admitted (name : FleetName) (mode : ApplyMode) (caller : Caller) (s : State)
    : result DaemonError unit :=
  match live name s with
  | Some h =>
      let current := borrow h (st_world s) in
      _ ← check_owner name (rec_owner current) caller false;
      ensure (negb (bool_decide (mode = Create) && negb (is_down current))) DConflict
  | None => ensure (negb (bool_decide (mode = Replace))) DNotFound
  end.

(** [d], with the rows the new specification no longer names. *)
Definition apply_diff (rows_now : list RowOf) (new : list Pair) : ActivationDiff :=
  let d := diff (active_pairs rows_now) new in
  let dropped := filter (fun k => k ∉ pair_key <$> new /\ k ∉ ad_deactivate d) rows_now.*1 in
  {| ad_activate := ad_activate d; ad_deactivate := merge_sort kle (ad_deactivate d ++ dropped) |}.

Definition find_row (rows_now : list RowOf) (p : Pair) : option ActivationRow :=
  snd <$> (snd <$> list_find (fun e => e.1 = pair_key p) rows_now).

(** The row an apply writes for a pair whose plugin is not ready. *)
Definition unready_row (rows_now : list RowOf) (p : Pair) : option PluginActivation :=
  match find_row rows_now p with
  | Some row =>
      if bool_decide (row_config row = pr_config p) then None
      else Some {| pa_state := ActPending; pa_message := pa_message (row_activation row) |}
  | None => Some act_pending
  end.

Record Offers := {
  of_accepted : list Pair;
  of_rows : list (Pair * PluginActivation);
}.

(** [for p in &d.activate]: every pair offered, or the first one refused with
    what was accepted before it. *)
Fixpoint offer_all (rows_now : list RowOf) (ps : list Pair) (acc : Offers) (s : State)
    : result (Pair * CallFailure * list Pair) Offers * State :=
  match ps with
  | [] => (Ok acc, s)
  | p :: ps =>
      match ready_addr (pr_plugin p) (st_registry s) with
      | Some addr =>
          let '(answer, w) := activate addr (to_string (pr_agent p)) (pr_config p) (st_world s) in
          let s := put_world w s in
          match answer with
          | Ok _ =>
              offer_all rows_now ps
                {| of_accepted := of_accepted acc ++ [p]; of_rows := of_rows acc ++ [(p, act_active)] |} s
          | Err e => (Err (p, e, of_accepted acc), s)
          end
      | None =>
          offer_all rows_now ps
            {| of_accepted := of_accepted acc;
               of_rows := of_rows acc ++ option_list ((fun a => (p, a)) <$> unready_row rows_now p) |} s
      end
  end.

(** The rollback of a rejection: the new pairs accepted so far are
    deactivated, then the replaced ones get their old config again. *)
Definition rollback (old accepted : list Pair) (s : State) : State :=
  let undo := foldl (fun '(restore, s) a =>
    match find_pair old a with
    | Some was => (restore ++ [was], s)
    | None => (restore, deactivate_pair (pr_agent a) (pr_plugin a) s)
    end) ([], s) accepted in
  bump (restore_pairs undo.1 undo.2).

(** The handle under the [fleets] lock, spawned for an absent fleet. *)
Definition take_handle (name : FleetName) (spec : FleetSpec) (mode : ApplyMode) (caller : Caller) (s : State)
    : result DaemonError A * State :=
  match live name s with
  | Some h =>
      if bool_decide (mode = Create) && negb (is_down (borrow h (st_world s))) then (Err DConflict, s)
      else (Ok h, s)
  | None =>
      if bool_decide (mode = Replace) then (Err DNotFound, s)
      else
        let '(h, w) := spawn name (with_owner spec (caller_owner caller)) (st_world s) in
        (Ok h, put_world w (put_fleets (<[name := h]> (st_fleets s)) s))
  end.

Definition write_row (r : Registry) (e : Pair * PluginActivation) : Registry :=
  set_row (pr_agent e.1) (pr_plugin e.1)
    {| row_config := pr_config e.1; row_activation := e.2 |} r.

(** The rows go back when the actor never took the specification. *)
Definition unwrite_row (rows_now : list RowOf) (r : Registry) (e : Pair * PluginActivation) : Registry :=
  match find_row rows_now e.1 with
  | Some row => set_row (pr_agent e.1) (pr_plugin e.1) row r
  | None => (remove_row (pr_agent e.1) (pr_plugin e.1) r).2
  end.

Definition drop_pair (s : State) (k : AgentId * AgentName) : State :=
  let s := deactivate_pair k.1 k.2 s in
  put_registry (remove_row k.1 k.2 (st_registry s)).2 s.

(** From the accepted offers on: the rows, the actor, the dropped pairs. *)
Definition commit (name : FleetName) (spec : FleetSpec) (credentials : CredentialBundle)
    (agent_tokens : gmap string string) (mode : ApplyMode) (caller : Caller) (rows_now : list RowOf)
    (rows : list (Pair * PluginActivation)) (dropped : list (AgentId * AgentName)) (s : State)
    : result DaemonError FleetRecord * State :=
  match take_handle name spec mode caller s with
  | (Err e, s) => (Err e, s)
  | (Ok handle, s) =>
      let s := put_registry (foldl write_row (st_registry s) rows) s in
      let '(answered, w) := ask_apply handle spec credentials agent_tokens (st_world s) in
      let s := put_world w s in
      match answered with
      | Err e => (Err (ask_error e), bump (put_registry (foldl (unwrite_row rows_now) (st_registry s) rows) s))
      | Ok record =>
          let s := bump (foldl drop_pair s dropped) in
          (Ok (overlay record (st_registry s)), s)
      end
  end.

Definition apply_as (name : FleetName) (spec : FleetSpec) (credentials : CredentialBundle)
    (mode : ApplyMode) (caller : Caller) (agent_tokens : gmap string string) (s : State)
    : result DaemonError FleetRecord * State :=
  let rows_now := rows_for_fleet name (st_registry s) in
  match apply_guards name spec caller s with
  | Err e => (Err e, s)
  | Ok new =>
      match settle_purge name s with
      | (Err e, s) => (Err e, s)
      | (Ok _, s) =>
          match apply_admitted name mode caller s with
          | Err e => (Err e, s)
          | Ok _ =>
              let d := apply_diff rows_now new in
              match offer_all rows_now (ad_activate d) {| of_accepted := []; of_rows := [] |} s with
              | (Err (p, e, accepted), s) =>
                  (Err (DInvalid (config_path (pr_agent p) (pr_plugin p) +:+ ": " +:+ activation_message e)),
                   rollback (active_pairs rows_now) accepted s)
              | (Ok offers, s) =>
                  commit name spec credentials agent_tokens mode caller rows_now (of_rows offers)
                    (ad_deactivate d) s
              end
          end
      end
  end.

Definition apply (name : FleetName) (spec : FleetSpec) (credentials : CredentialBundle) (replace : bool)
    (s : State) : result DaemonError FleetRecord * State :=
  apply_as name spec credentials (if replace then Replace else Create) (CAdmin false) ∅ s.

Definition default_credentials : CredentialBundle :=
  {| claude_credentials := None; claude_account := None; gh_token := None |}.

Definition apply_kube (name : FleetName) (spec : FleetSpec) (agent_tokens : gmap string string)
    (managed_by : option AgentName) (s : State) : result DaemonError FleetRecord * State :=
  match (_ ← ensure (st_kube s)
               (DInvalid "agent_tokens is accepted only by a daemon in kubernetes mode");
         fleet ← map_err (fun e => DInvalid (fleet_error_text e)) (fleet_try_from spec);
         check_tokens fleet agent_tokens) with
  | Err e => (Err e, s)
  | Ok _ => apply_as name spec default_credentials Upsert (CKubernetes managed_by) agent_tokens s
  end.

(** ** Down *)

Definition down_as (name : FleetName) (keep : Keep) (purge : bool) (caller : Caller) (s : State)
    : result DaemonError FleetRecord * State :=
  match reject_reserved name with
  | Err e => (Err e, s)
  | Ok _ =>
      match settle_purge name s with
      | (Err e, s) => (Err e, s)
      | (Ok _, s) =>
          match (handle ← ok_or (live name s) DNotFound;
                 _ ← check_owner name (rec_owner (borrow handle (st_world s))) caller true;
                 Ok handle) with
          | Err e => (Err e, s)
          | Ok handle =>
              let '(answered, w) := ask_down handle keep purge (st_world s) in
              let s := put_world w s in
              match answered with
              | Err e => (Err (ask_error e), s)
              | Ok record =>
                  let '(gone, r) := remove_fleet name (st_registry s) in
                  let s := foldl (fun s k => deactivate_pair k.1 k.2 s) (put_registry r s) gone in
                  let s := bump s in
                  (Ok (overlay record (st_registry s)), s)
              end
          end
      end
  end.

Definition down (name : FleetName) (keep : Keep) (purge : bool) (s : State)
    : result DaemonError FleetRecord * State :=
  down_as name keep purge (CAdmin false) s.
End daemon.

(** ** The owner rule *)

(** An apply may touch an existing fleet exactly when the fleet's owner is
    the one a fleet of this caller would have: nobody for the admin, the plugin
    itself for a plugin, the plugin it acts for or [kubernetes] for the
    operator. For a down the admin's [force] is the one exception. A refusal is
    the 409 that says who manages the fleet. *)
Theorem owner_rule `{Unicode} (name : FleetName) (owner : option string) (caller : Caller) (downing : bool) :
  (check_owner name owner caller downing = Ok tt <->
   owner = caller_owner caller \/ (downing = true /\ caller = CAdmin true)) /\
  (forall e, check_owner name owner caller downing = Err e -> exists m, e = DManaged m).
Proof.
  unfold check_owner, managed_error. split.
  - destruct caller as [force|me|[me|]], owner as [p|]; simpl;
      try (case_bool_decide; simpl); try (destruct downing, force; simpl); naive_solver.
  - intros e. destruct caller as [force|me|[me|]], owner as [p|]; simpl;
      try (case_bool_decide; simpl); try (destruct downing, force; simpl); naive_solver.
Qed.

(** ** What the calls keep *)

Section kept.
Context {A W : Type} `{!FleetActors A W, !PluginCalls W, !Unicode}.
Notation State := (State A W).

(** The fleets, the mode and what the registry says of the plugins. *)
Definition same_plugins (r r' : Registry) : Prop :=
  reg_order r' = reg_order r /\ reg_plugins r' = reg_plugins r /\
  reg_hello_seq r' = reg_hello_seq r /\ reg_hellos r' = reg_hellos r.

#[export] Instance same_plugins_preorder : PreOrder same_plugins.
Proof.
  split; [done|]. intros r1 r2 r3 (?&?&?&?) (?&?&?&?). split_and!; congruence.
Qed.

Record same_frame (s s' : State) : Prop := {
  sf_fleets : st_fleets s' = st_fleets s;
  sf_kube : st_kube s' = st_kube s;
  sf_plugins : same_plugins (st_registry s) (st_registry s');
}.

#[export] Instance same_frame_preorder : PreOrder same_frame.
Proof.
  split.
  - intros s. by split.
  - intros s1 s2 s3 [] []. split; [congruence..|]. by etrans.
Qed.

Lemma deactivate_pair_kept agent plugin (s : State) :
  st_registry (deactivate_pair agent plugin s) = st_registry s /\
  st_fleets (deactivate_pair agent plugin s) = st_fleets s /\
  st_kube (deactivate_pair agent plugin s) = st_kube s.
Proof. unfold deactivate_pair. by destruct (ready_addr _ _). Qed.

Lemma settle_purge_kept name (s : State) :
  st_registry (settle_purge name s).2 = st_registry s /\
  st_fleets (settle_purge name s).2 = st_fleets s /\
  st_kube (settle_purge name s).2 = st_kube s.
Proof.
  unfold settle_purge, wait_purged. destruct (st_fleets s !! name); [|done].
  destruct (is_purging _ _); simpl; [|done]. by destruct (wait_closed _ _).
Qed.

Lemma offer_all_kept rows_now ps acc (s : State) :
  st_registry (offer_all rows_now ps acc s).2 = st_registry s /\
  st_fleets (offer_all rows_now ps acc s).2 = st_fleets s /\
  st_kube (offer_all rows_now ps acc s).2 = st_kube s.
Proof.
  revert acc s. induction ps as [|p ps IH]; intros acc s; simpl; [done|].
  destruct (ready_addr _ _) as [addr|]; [|apply IH].
  destruct (activate _ _ _ _) as [[u|e] w]; [|done].
  destruct (IH {| of_accepted := of_accepted acc ++ [p]; of_rows := of_rows acc ++ [(p, act_active)] |}
              (put_world w s)) as (-> & -> & ->). done.
Qed.

(** The plugin of a pair refused to take its old config back, saying [m]. *)
Definition restore_refused (k : AgentId * AgentName) (c : Value) (m : string) : Prop :=
  exists addr w f, (activate addr (to_string k.1) c w).1 = Err f /\ m = activation_message f.

(** A refused restore says so in the row it was restoring, if that row still
    holds the config. *)
Lemma restore_pair_rows (s : State) p k :
  same_frame s (restore_pair s p) /\
  (reg_rows (st_registry (restore_pair s p)) !! k = reg_rows (st_registry s) !! k \/
   k = pair_key p /\ exists row m, reg_rows (st_registry s) !! k = Some row /\ row_config row = pr_config p /\
     restore_refused k (row_config row) m /\
     reg_rows (st_registry (restore_pair s p)) !! k =
       Some {| row_config := row_config row; row_activation := act_rejected m |}).
Proof.
  unfold restore_pair. destruct (ready_addr _ _) as [addr|]; [|split; [done|by left]].
  destruct (activate _ _ _ _) as [[u|e] w] eqn:Hact; [split; [done|by left]|].
  unfold set_state. simpl.
  destruct (reg_rows (st_registry s) !! (pr_agent p, pr_plugin p)) as [row|] eqn:Hrow; [|split; [done|by left]].
  case_bool_decide as Hc; [|split; [done|by left]]. split; [done|]. simpl.
  destruct (decide (k = pair_key p)) as [->|Hne].
  - right. split; [done|]. exists row, (activation_message e). rewrite lookup_insert_eq. split; [done|]. split; [done|].
    split; [|done]. exists addr, (st_world s), e. cbn [pair_key fst]. rewrite Hc, Hact. done.
  - left. by rewrite lookup_insert_ne.
Qed.

(** A row kept, or an active one whose restore was refused. *)
Definition row_restored (old : list Pair) (k : AgentId * AgentName) (was now : option ActivationRow) : Prop :=
  now = was \/
  exists row m, was = Some row /\ (exists p, p ∈ old /\ pair_key p = k /\ row_config row = pr_config p) /\
    restore_refused k (row_config row) m /\
    now = Some {| row_config := row_config row; row_activation := act_rejected m |}.

Lemma restore_pairs_rows ps k : forall (s : State),
  same_frame s (restore_pairs ps s) /\
  row_restored ps k (reg_rows (st_registry s) !! k) (reg_rows (st_registry (restore_pairs ps s)) !! k).
Proof.
  unfold restore_pairs. induction ps as [|p ps IH] using rev_ind; intros s; [split; [done|by left]|].
  rewrite foldl_app. simpl. destruct (IH s) as [Hf Hr].
  destruct (restore_pair_rows (foldl restore_pair s ps) p k) as [Hf' Hr']. split; [by etrans|].
  destruct Hr' as [Heq|(Hk & row & m & Hrow & Hc & Href & Heq)]; rewrite Heq.
  - destruct Hr as [?|(row & m & ? & (q & ? & ? & ?) & ? & ?)]; [by left|].
    right. exists row, m. split_and!; [done| |done|done]. exists q. set_solver.
  - right. destruct Hr as [Hs|(row0 & m0 & Hw & _ & _ & Hn)].
    + exists row, m. split_and!; [congruence| |done|done]. exists p. set_solver.
    + rewrite Hrow in Hn. injection Hn as ->. simpl in *.
      exists row0, m. split_and!; [done| |done|done]. exists p. set_solver.
Qed.

Lemma rollback_rows old accepted (s : State) k :
  same_frame s (rollback old accepted s) /\
  row_restored old k (reg_rows (st_registry s) !! k) (reg_rows (st_registry (rollback old accepted s)) !! k).
Proof.
  unfold rollback. set (undo := foldl _ _ _).
  assert ((forall q, q ∈ undo.1 -> q ∈ old) /\ st_registry undo.2 = st_registry s /\
          st_fleets undo.2 = st_fleets s /\ st_kube undo.2 = st_kube s) as (Hin & Hr & Hf & Hk).
  { unfold undo. clear undo. induction accepted as [|a accepted IH] using rev_ind.
    - simpl. split_and!; try done. by intros q ?%not_elem_of_nil.
    - rewrite foldl_app. simpl. destruct (foldl _ _ accepted) as [restore s0], IH as (Hin & ? & ? & ?).
      unfold find_pair. destruct (list_find _ old) as [[i was]|] eqn:Hw; simpl in *.
      + split_and!; try done. apply list_find_Some in Hw as (Hi & _).
        intros q [?| ->%list_elem_of_singleton]%elem_of_app; [auto|]. by eapply list_elem_of_lookup_2.
      + destruct (deactivate_pair_kept (pr_agent a) (pr_plugin a) s0) as (-> & -> & ->). done. }
  destruct (restore_pairs_rows undo.1 k undo.2) as [[Hf' Hk' Hp'] Hrow].
  split.
  - split; simpl; [congruence..|]. by rewrite Hr in Hp'.
  - simpl. rewrite Hr in Hrow. destruct Hrow as [?|(row & m & ? & (q & Hq & ? & ?) & ? & ?)]; [by left|].
    right. exists row, m. split_and!; [done| |done|done]. exists q. split; [by apply Hin|done].
Qed.
End kept.

(** ** What an apply writes into the rows *)

Lemma foldl_rows {X} (step : Registry -> X -> Registry) (key : X -> AgentId * AgentName)
    (val : X -> option ActivationRow) :
  (forall r x k, reg_rows (step r x) !! k = if decide (k = key x) then val x else reg_rows r !! k) ->
  forall xs r, NoDup (key <$> xs) ->
    (forall x, x ∈ xs -> reg_rows (foldl step r xs) !! key x = val x) /\
    (forall k, k ∉ key <$> xs -> reg_rows (foldl step r xs) !! k = reg_rows r !! k).
Proof.
  intros Hstep. induction xs as [|y xs IH] using rev_ind; intros r Hnd.
  { split; [by intros ? ?%not_elem_of_nil|done]. }
  rewrite fmap_app in Hnd. apply NoDup_app in Hnd as (Hnd & Hy & _).
  destruct (IH r Hnd) as [IH1 IH2]. rewrite foldl_app. cbn [foldl]. split.
  - intros x [Hx| ->%list_elem_of_singleton]%elem_of_app; rewrite Hstep.
    + rewrite decide_False; [by apply IH1|]. intros Heq. apply (Hy (key x)).
      * apply list_elem_of_fmap. eauto.
      * rewrite Heq. by left.
    + by rewrite decide_True.
  - intros k Hk. rewrite fmap_app, not_elem_of_app in Hk. destruct Hk as [Hk Hk'].
    rewrite Hstep, decide_False; [by apply IH2|]. intros ->. apply Hk'. by left.
Qed.

Definition row_key (e : Pair * PluginActivation) : AgentId * AgentName := pair_key e.1.
Definition row_val (e : Pair * PluginActivation) : ActivationRow :=
  {| row_config := pr_config e.1; row_activation := e.2 |}.

Lemma write_row_lookup r e k : reg_rows (write_row r e) !! k =
  if decide (k = row_key e) then Some (row_val e) else reg_rows r !! k.
Proof.
  unfold write_row, set_row. simpl. case_decide as Hk.
  - subst. apply lookup_insert_eq.
  - by rewrite lookup_insert_ne.
Qed.

Lemma unwrite_row_lookup rows_now r e k : reg_rows (unwrite_row rows_now r e) !! k =
  if decide (k = row_key e) then find_row rows_now e.1 else reg_rows r !! k.
Proof.
  unfold unwrite_row. destruct (find_row rows_now e.1) as [row|]; simpl; case_decide as Hk; subst.
  - apply lookup_insert_eq.
  - by rewrite lookup_insert_ne.
  - apply lookup_delete_eq.
  - by rewrite lookup_delete_ne.
Qed.

Lemma find_row_spec name r p : id_fleet (pr_agent p) = name ->
  find_row (rows_for_fleet name r) p = reg_rows r !! pair_key p.
Proof.
  intros Hf. unfold find_row, rows_for_fleet. apply option_eq. intros row.
  rewrite <- elem_of_entries.
  destruct (list_find _ _) as [[i [k w]]|] eqn:Hl; simpl.
  - apply list_find_Some in Hl as (Hi & Hk & _). simpl in Hk. subst k.
    apply list_elem_of_lookup_2, list_elem_of_filter in Hi as [_ Hin].
    apply elem_of_entries in Hin. rewrite elem_of_entries. split; [intros [= <-]; done|congruence].
  - apply list_find_None in Hl. split; [done|]. intros Hin. exfalso.
    rewrite Forall_forall in Hl. apply (Hl (pair_key p, row)); [|done].
    apply list_elem_of_filter. done.
Qed.

Lemma rows_for_fleet_elem name r k row :
  (k, row) ∈ rows_for_fleet name r <-> reg_rows r !! k = Some row /\ id_fleet k.1 = name.
Proof. unfold rows_for_fleet. rewrite list_elem_of_filter, elem_of_entries. naive_solver. Qed.

Lemma rows_for_fleet_keys name r k :
  k ∈ (rows_for_fleet name r).*1 <-> is_Some (reg_rows r !! k) /\ id_fleet k.1 = name.
Proof.
  rewrite list_elem_of_fmap. split.
  - intros ([k' row] & -> & [? ?]%rows_for_fleet_elem). simpl. eauto.
  - intros [[row ?] ?]. exists (k, row). split; [done|]. by apply rows_for_fleet_elem.
Qed.

Lemma active_pairs_NoDup name r : NoDup (pair_key <$> active_pairs (rows_for_fleet name r)).
Proof.
  unfold active_pairs. rewrite <- list_fmap_compose.
  eapply sublist_NoDup; [apply (keys_NoDup (reg_rows r))|].
  unfold keys, rows_for_fleet. rewrite (list_fmap_ext _ fst).
  - apply fmap_sublist. etrans; apply sublist_filter.
  - by intros ? [[? ?] ?].
Qed.

Lemma active_pairs_held name r k c :
  held (active_pairs (rows_for_fleet name r)) !! k = Some c <->
  exists row, reg_rows r !! k = Some row /\ id_fleet k.1 = name /\
    pa_state (row_activation row) = ActActive /\ row_config row = c.
Proof.
  rewrite held_Some by apply active_pairs_NoDup. unfold active_pairs.
  setoid_rewrite list_elem_of_fmap. setoid_rewrite list_elem_of_filter. split.
  - intros (p & ([[a pl] row] & -> & Hact & [? ?]%rows_for_fleet_elem) & <- & <-). simpl. eauto.
  - intros (row & Hr & Hf & Hact & <-). destruct k as [a pl].
    exists {| pr_agent := a; pr_plugin := pl; pr_config := row_config row |}.
    split; [|done]. exists (a, pl, row). split; [done|]. split; [done|]. by apply rows_for_fleet_elem.
Qed.

Lemma apply_diff_dropped name r new k : NoDup (pair_key <$> new) ->
  k ∈ ad_deactivate (apply_diff (rows_for_fleet name r) new) <->
  is_Some (reg_rows r !! k) /\ id_fleet k.1 = name /\ held new !! k = None.
Proof.
  intros Hnd. unfold apply_diff. cbn [ad_deactivate].
  rewrite merge_sort_Permutation, elem_of_app, list_elem_of_filter, rows_for_fleet_keys.
  rewrite (elem_of_deactivate _ _ (active_pairs_NoDup name r) Hnd).
  assert (k ∉ pair_key <$> new <-> held new !! k = None) as ->.
  { unfold held. rewrite <- not_elem_of_list_to_map. by rewrite <- list_fmap_compose. }
  split.
  - intros [[[c (row & ? & ? & _)%active_pairs_held] ?]|[[? _] [? ?]]]; eauto.
  - intros (Hr & Hf & Hn). destruct (decide (is_Some (held (active_pairs (rows_for_fleet name r)) !! k)));
      [by left|]. right. naive_solver.
Qed.

Section applied.
Context {A W : Type} `{!FleetActors A W, !PluginCalls W, !Unicode}.
Notation State := (State A W).

Definition offered_row (rows_now : list (AgentId * AgentName * ActivationRow)) (r : Registry) (p : Pair)
    : list (Pair * PluginActivation) :=
  match ready_addr (pr_plugin p) r with
  | Some _ => [(p, act_active)]
  | None => option_list ((fun a => (p, a)) <$> unready_row rows_now p)
  end.

Lemma offer_all_rows rows_now ps : forall acc (s : State) offers s',
  offer_all rows_now ps acc s = (Ok offers, s') ->
  of_rows offers = of_rows acc ++ (ps ≫= offered_row rows_now (st_registry s)).
Proof.
  induction ps as [|p ps IH]; intros acc s offers s'; simpl.
  { intros [= <- _]. by rewrite app_nil_r. }
  unfold offered_row at 1. destruct (ready_addr _ _) as [addr|].
  - destruct (activate _ _ _ _) as [[u|e] w]; [|done]. intros Ho. rewrite (IH _ _ _ _ Ho). simpl.
    by rewrite <- app_assoc.
  - intros Ho. rewrite (IH _ _ _ _ Ho). simpl. by rewrite <- app_assoc.
Qed.

Lemma offered_rows_sublist rows_now r ps :
  (ps ≫= offered_row rows_now r).*1 `sublist_of` ps.
Proof.
  induction ps as [|p ps IH]; [done|]. rewrite bind_cons, fmap_app. unfold offered_row at 1.
  destruct (ready_addr _ _); simpl; [by apply sublist_skip|].
  destruct (unready_row _ _); simpl; [by apply sublist_skip|by apply sublist_cons].
Qed.

Lemma elem_of_offered_rows rows_now r ps p a :
  (p, a) ∈ ps ≫= offered_row rows_now r <->
  p ∈ ps /\ match ready_addr (pr_plugin p) r with
            | Some _ => a = act_active
            | None => unready_row rows_now p = Some a
            end.
Proof.
  rewrite list_elem_of_bind. unfold offered_row. split.
  - intros (q & Hin & Hq). destruct (ready_addr (pr_plugin q) r) eqn:Hr.
    + apply list_elem_of_singleton in Hin as [= -> ->]. by rewrite Hr.
    + destruct (unready_row rows_now q) eqn:Hu; simpl in Hin; [|by apply not_elem_of_nil in Hin].
      apply list_elem_of_singleton in Hin as [= -> ->]. by rewrite Hr.
  - intros [Hp Ha]. exists p. split; [|done]. destruct (ready_addr _ _).
    + subst. by left.
    + rewrite Ha. by left.
Qed.

Lemma drop_pair_spec (s : State) k' k :
  reg_rows (st_registry (drop_pair s k')) !! k =
    (if decide (k = k') then None else reg_rows (st_registry s) !! k) /\
  same_frame s (drop_pair s k').
Proof.
  unfold drop_pair. destruct k' as [a p], (deactivate_pair_kept a p s) as (Hr & Hf & Hk). simpl.
  rewrite Hr. split.
  - case_decide as Hd; [subst; apply lookup_delete_eq|by apply lookup_delete_ne].
  - by split.
Qed.

Lemma drop_all (s : State) ks k :
  reg_rows (st_registry (foldl drop_pair s ks)) !! k =
    (if decide (k ∈ ks) then None else reg_rows (st_registry s) !! k) /\
  same_frame s (foldl drop_pair s ks).
Proof.
  revert s. induction ks as [|k' ks IH]; intros s; cbn [foldl].
  { split; [|done]. case_decide as Hk; [by apply not_elem_of_nil in Hk|done]. }
  destruct (IH (drop_pair s k')) as [-> Hf], (drop_pair_spec s k' k) as [-> Hf'].
  split; [|by etrans].
  destruct (decide (k ∈ ks)) as [Hks|Hks], (decide (k = k')) as [->|Hk];
    case_decide as Hc; try done; exfalso; set_solver.
Qed.

Lemma take_handle_kept name spec mode caller (s : State) :
  st_registry (take_handle name spec mode caller s).2 = st_registry s /\
  st_kube (take_handle name spec mode caller s).2 = st_kube s.
Proof.
  unfold take_handle. destruct (live name s); [by case_match|].
  case_match; [done|]. by destruct (spawn _ _ _).
Qed.

(** The rows an apply has written when the actor is told. *)
Lemma written_rows name r new k : NoDup (pair_key <$> new) ->
  (forall p, p ∈ new -> id_fleet (pr_agent p) = name) ->
  let rows_now := rows_for_fleet name r in
  let rows := ad_activate (apply_diff rows_now new) ≫= offered_row rows_now r in
  NoDup (row_key <$> rows) /\
  (k ∉ row_key <$> rows -> reg_rows (foldl write_row r rows) !! k = reg_rows r !! k) /\
  (forall e, e ∈ rows -> reg_rows (foldl write_row r rows) !! row_key e = Some (row_val e)) /\
  (forall e, e ∈ rows -> e.1 ∈ new).
Proof.
  intros Hnd Hnew rows_now rows.
  assert (NoDup (row_key <$> rows)) as Hndr.
  { assert (row_key <$> rows = pair_key <$> rows.*1) as -> by (by rewrite <- list_fmap_compose).
    eapply sublist_NoDup; [exact Hnd|].
    apply fmap_sublist. etrans; [apply offered_rows_sublist|]. apply sublist_filter. }
  destruct (foldl_rows write_row row_key (fun e => Some (row_val e)) write_row_lookup rows r Hndr) as [H1 H2].
  split_and!; [done|auto|done|]. intros [p a] [Hp _]%elem_of_offered_rows.
  by apply list_elem_of_filter in Hp as [_ ?].
Qed.

(** The row of a pair after a successful apply. *)
Definition applied_row (r : Registry) (p : Pair) : ActivationRow :=
  let ready := bool_decide (is_Some (ready_addr (pr_plugin p) r)) in
  match reg_rows r !! pair_key p with
  | Some row =>
      if bool_decide (row_config row = pr_config p) &&
         (bool_decide (pa_state (row_activation row) = ActActive) || negb ready) then row
      else if ready then {| row_config := pr_config p; row_activation := act_active |}
      else {| row_config := pr_config p;
              row_activation := {| pa_state := ActPending; pa_message := pa_message (row_activation row) |} |}
  | None =>
      {| row_config := pr_config p; row_activation := if ready then act_active else act_pending |}
  end.

Lemma activated_iff name r new p : NoDup (pair_key <$> new) -> p ∈ new -> id_fleet (pr_agent p) = name ->
  p ∈ ad_activate (apply_diff (rows_for_fleet name r) new) <->
  ~ exists row, reg_rows r !! pair_key p = Some row /\ row_config row = pr_config p /\
    pa_state (row_activation row) = ActActive.
Proof.
  intros Hnd Hp Hf.
  change (ad_activate (apply_diff ?rows new)) with (ad_activate (diff (active_pairs rows) new)).
  rewrite elem_of_activate by apply active_pairs_NoDup. rewrite active_pairs_held.
  split; [intros [_ Hn]|intros Hn; split; [done|]]; intros (row & Hr & H2); apply Hn; exists row; naive_solver.
Qed.

Lemma written_row name r new p : NoDup (pair_key <$> new) ->
  (forall q, q ∈ new -> id_fleet (pr_agent q) = name) -> p ∈ new ->
  let rows_now := rows_for_fleet name r in
  let rows := ad_activate (apply_diff rows_now new) ≫= offered_row rows_now r in
  reg_rows (foldl write_row r rows) !! pair_key p = Some (applied_row r p).
Proof.
  intros Hnd Hnew Hp rows_now rows.
  destruct (written_rows name r new (pair_key p) Hnd Hnew) as (Hndr & Hout & Hin & Hsub).
  pose proof (activated_iff name r new p Hnd Hp (Hnew p Hp)) as Hact.
  pose proof (find_row_spec name r p (Hnew p Hp)) as Hfind.
  assert (forall a, (p, a) ∈ rows -> reg_rows (foldl write_row r rows) !! pair_key p =
    Some {| row_config := pr_config p; row_activation := a |}) as Hwrote by (intros a Ha; exact (Hin _ Ha)).
  assert ((forall a, (p, a) ∉ rows) -> reg_rows (foldl write_row r rows) !! pair_key p =
    reg_rows r !! pair_key p) as Hkept.
  { intros Hno. apply Hout. intros ([q a] & Hk & Hq)%list_elem_of_fmap. apply (Hno a).
    assert (p = q) as ->; [|done]. pose proof (Hsub _ Hq) as Hqn.
    apply list_elem_of_lookup in Hp as [i Hi], Hqn as [j Hj]. simpl in *.
    assert (i = j) as <-; [|congruence]. eapply (NoDup_lookup _ _ _ (pair_key p) Hnd);
      rewrite list_lookup_fmap, ?Hi, ?Hj; simpl; [done|]. by rewrite Hk. }
  unfold applied_row. unfold rows, rows_now in *. clear Hin Hsub Hout Hndr.
  setoid_rewrite elem_of_offered_rows in Hwrote. setoid_rewrite elem_of_offered_rows in Hkept.
  unfold unready_row in *. rewrite Hfind in Hwrote. rewrite Hfind in Hkept. clear Hfind.
  destruct (ready_addr (pr_plugin p) r) as [addr|] eqn:Hready; simpl.
  - destruct (reg_rows r !! pair_key p) as [row|] eqn:Hrow; simpl.
    + case_bool_decide as Hc; simpl.
      * case_bool_decide as Ha; simpl.
        -- apply Hkept. intros a [Hi _]. apply Hact in Hi. eauto.
        -- apply Hwrote. split; [|done]. apply Hact. naive_solver.
      * apply Hwrote. split; [|done]. apply Hact. naive_solver.
    + apply Hwrote. split; [|done]. apply Hact. naive_solver.
  - destruct (reg_rows r !! pair_key p) as [row|] eqn:Hrow; simpl.
    + rewrite orb_true_r, andb_true_r. case_bool_decide as Hc.
      * apply Hkept. intros a [_ Ha]. done.
      * apply Hwrote. split; [|done]. apply Hact. naive_solver.
    + apply Hwrote. split; [|done]. apply Hact. naive_solver.
Qed.
End applied.

Section outcomes.
Context {A W : Type} `{!FleetActors A W, !PluginCalls W, !Unicode}.
Notation State := (State A W).

(** Rows written and put back are what they were. *)
Lemma unwritten_rows name r new k : NoDup (pair_key <$> new) ->
  (forall q, q ∈ new -> id_fleet (pr_agent q) = name) ->
  let rows_now := rows_for_fleet name r in
  let rows := ad_activate (apply_diff rows_now new) ≫= offered_row rows_now r in
  reg_rows (foldl (unwrite_row rows_now) (foldl write_row r rows) rows) !! k = reg_rows r !! k.
Proof.
  intros Hnd Hnew rows_now rows.
  destruct (written_rows name r new k Hnd Hnew) as (Hndr & Hout & _ & Hsub).
  fold rows_now in Hndr, Hout, Hsub. fold rows in Hndr, Hout, Hsub.
  destruct (foldl_rows (unwrite_row rows_now) row_key (fun e => find_row rows_now e.1)
              (unwrite_row_lookup rows_now) rows (foldl write_row r rows) Hndr) as [H1 H2].
  destruct (decide (k ∈ row_key <$> rows)) as [Hk|Hk].
  - apply list_elem_of_fmap in Hk as (e & -> & He). rewrite (H1 e He).
    apply find_row_spec. by apply Hnew, Hsub.
  - rewrite (H2 k Hk). by apply Hout.
Qed.

Lemma foldl_same_plugins {X} (step : Registry -> X -> Registry) :
  (forall r x, same_plugins r (step r x)) -> forall xs r, same_plugins r (foldl step r xs).
Proof.
  intros Hstep. induction xs as [|x xs IH] using rev_ind; intros r; [done|].
  rewrite foldl_app. simpl. etrans; [apply IH|apply Hstep].
Qed.

Lemma write_same r rows : same_plugins r (foldl write_row r rows).
Proof. by apply foldl_same_plugins. Qed.

Lemma unwrite_same rows_now r rows : same_plugins r (foldl (unwrite_row rows_now) r rows).
Proof. apply foldl_same_plugins. intros r' x. unfold unwrite_row. by destruct (find_row _ _). Qed.

(** What an apply that answers an error may have changed. *)
Record refused (name : FleetName) (s s' : State) : Prop := {
  rf_fleets : st_fleets s' = st_fleets s \/ exists h, st_fleets s' = <[name := h]> (st_fleets s);
  rf_kube : st_kube s' = st_kube s;
  rf_plugins : same_plugins (st_registry s) (st_registry s');
  rf_rows : forall k, reg_rows (st_registry s') !! k = reg_rows (st_registry s) !! k \/
    exists row m, reg_rows (st_registry s) !! k = Some row /\ id_fleet k.1 = name /\
      pa_state (row_activation row) = ActActive /\ restore_refused k (row_config row) m /\
      reg_rows (st_registry s') !! k =
        Some {| row_config := row_config row; row_activation := act_rejected m |};
}.

Lemma refused_by_plugin name (s s1 s2 : State) accepted :
  s1 = (settle_purge name s).2 -> same_frame s1 s2 -> st_registry s2 = st_registry s1 ->
  refused name s (rollback (active_pairs (rows_for_fleet name (st_registry s))) accepted s2).
Proof.
  intros -> [Hf Hk _] Hr. destruct (settle_purge_kept name s) as (Hr1 & Hf1 & Hk1).
  set (old := active_pairs _).
  destruct (rollback_rows old accepted s2 (plugin_id (mkName "a" eq_refl), mkName "a" eq_refl)) as [[Hf2 Hk2 Hp2] _].
  split; [left; congruence|congruence| |].
  - by rewrite Hr, Hr1 in Hp2.
  - intros k. destruct (rollback_rows old accepted s2 k) as [_ Hrow]. rewrite Hr, Hr1 in Hrow.
    destruct Hrow as [?|(row & m & Hw & (p & Hp & <- & Hc) & Href & Hn)]; [by left|].
    right. exists row, m. split; [done|].
    assert (held old !! pair_key p = Some (pr_config p)) as (row' & Hr' & ? & ? & _)%active_pairs_held.
    { apply held_elem; [apply active_pairs_NoDup|done]. }
    split; [done|]. split; [congruence|done].
Qed.

(** Only the loss of the actor can leave a new fleet behind. *)
Lemma commit_fleets name spec credentials tokens mode caller rows_now rows dropped (s : State) e s' :
  commit name spec credentials tokens mode caller rows_now rows dropped s = (Err e, s') ->
  st_fleets s' = st_fleets s \/ exists text, e = DInternal text.
Proof.
  unfold commit, take_handle. destruct (live name s) as [h|].
  - destruct (_ && _); [intros [= _ <-]; by left|].
    destruct (ask_apply _ _ _ _ _) as [[rec|x] w]; intros [= <- _]. unfold ask_error. eauto.
  - destruct (bool_decide _); [intros [= _ <-]; by left|]. destruct (spawn _ _ _) as [h w].
    destruct (ask_apply _ _ _ _ _) as [[rec|x] w']; intros [= <- _]. unfold ask_error. eauto.
Qed.

Lemma refused_by_actor name spec credentials tokens mode caller new (s s1 s2 : State) e s' :
  NoDup (pair_key <$> new) -> (forall q, q ∈ new -> id_fleet (pr_agent q) = name) ->
  s1 = (settle_purge name s).2 -> st_fleets s2 = st_fleets s1 ->
  st_kube s2 = st_kube s1 -> st_registry s2 = st_registry s1 ->
  let rows_now := rows_for_fleet name (st_registry s) in
  let d := apply_diff rows_now new in
  commit name spec credentials tokens mode caller rows_now
    (ad_activate d ≫= offered_row rows_now (st_registry s)) (ad_deactivate d) s2 = (Err e, s') ->
  refused name s s'.
Proof.
  intros Hnd Hnew -> Hf Hk Hr rows_now d. destruct (settle_purge_kept name s) as (Hr1 & Hf1 & Hk1).
  unfold commit. pose proof (take_handle_kept name spec mode caller s2) as [Hr3 Hk3].
  assert (st_fleets (take_handle name spec mode caller s2).2 = st_fleets s2 \/
    exists h, st_fleets (take_handle name spec mode caller s2).2 = <[name := h]> (st_fleets s2))
    as Hf3.
  { unfold take_handle. destruct (live name s2); [left; by case_match|].
    case_match; [by left|]. destruct (spawn _ _ _) as [h w]. right. by exists h. }
  destruct (take_handle name spec mode caller s2) as [[h|e'] s3]; simpl in Hr3, Hk3, Hf3.
  - destruct (ask_apply _ _ _ _ _) as [[record|e''] w]; [done|]. simpl. intros [= _ <-].
    rewrite Hr3, Hr, Hr1. split; simpl.
    + destruct Hf3 as [?|(h' & ?)]; [left; congruence|]. right. exists h'. congruence.
    + congruence.
    + etrans; [apply write_same|apply unwrite_same].
    + intros k. left. by apply unwritten_rows.
  - intros [= _ <-]. split; [|congruence| |].
    + destruct Hf3 as [?|(h' & ?)]; [left; congruence|]. right. exists h'. congruence.
    + rewrite Hr3, Hr, Hr1. done.
    + intros k. left. by rewrite Hr3, Hr, Hr1.
Qed.
End outcomes.

Section apply.
Context {A W : Type} `{!FleetActors A W, !PluginCalls W, !Unicode}.
Notation State := (State A W).

(** What an admitted apply has passed. *)
Record guards_ok (name : FleetName) (spec : FleetSpec) (caller : Caller) (s : State) (new : list Pair) : Prop := {
  go_reserved : reserved_fleet_reason (to_string name) = None;
  go_name : fs_name spec = to_string name;
  go_fleet : is_ok (fleet_try_from spec) = true;
  go_pairs : pairs name spec = Ok new;
  go_installed : forall p, p ∈ new -> is_installed (to_string (pr_plugin p)) (st_registry s) = true;
  go_caller : forall me, caller = CPlugin me -> is_installed (to_string me) (st_registry s) = true;
}.

Lemma apply_guards_Ok name spec caller (s : State) new :
  apply_guards name spec caller s = Ok new -> guards_ok name spec caller s new.
Proof.
  unfold apply_guards, reject_reserved. intros Hg.
  apply bind_Ok in Hg as ([] & Hres & Hg). apply bind_Ok in Hg as ([] & Hname%ensure_Ok & Hg).
  apply bind_Ok in Hg as (f & Hf%map_err_Ok & Hg). apply bind_Ok in Hg as ([] & _ & Hg).
  apply bind_Ok in Hg as ([] & _ & Hg). apply bind_Ok in Hg as ([] & Hcaller & Hg).
  apply bind_Ok in Hg as (new' & Hpairs%map_err_Ok & Hg). apply bind_Ok in Hg as ([] & Hinst & [= ->]).
  rewrite try_each_Ok, Forall_forall in Hinst. split.
  - by destruct (reserved_fleet_reason _).
  - by apply bool_decide_eq_true in Hname.
  - by rewrite Hf.
  - done.
  - intros p Hp. specialize (Hinst p Hp). by apply ensure_Ok in Hinst.
  - intros me ->. by apply ensure_Ok in Hcaller.
Qed.

Lemma new_pairs_ok name spec new : pairs name spec = Ok new ->
  NoDup (pair_key <$> new) /\ forall q, q ∈ new -> id_fleet (pr_agent q) = name.
Proof.
  intros Hp. split; [by eapply pairs_NoDup|]. intros q Hq. by apply (pairs_elem _ _ _ _ Hp) in Hq as [? _].
Qed.

(** The rows after a commit the actor answered. *)
Lemma commit_rows name spec credentials tokens mode caller rows_now rows dropped (s : State) record s' :
  commit name spec credentials tokens mode caller rows_now rows dropped s = (Ok record, s') ->
  exists r, r = st_registry s /\ forall k, reg_rows (st_registry s') !! k =
    if decide (k ∈ dropped) then None else reg_rows (foldl write_row r rows) !! k.
Proof.
  unfold commit. destruct (take_handle_kept name spec mode caller s) as [Hr _].
  destruct (take_handle name spec mode caller s) as [[h|e] s1]; [|done]. cbn [snd] in Hr.
  destruct (ask_apply _ _ _ _ _) as [[rec|e] w]; [|done]. intros [= _ <-].
  eexists. split; [done|]. intros k. cbn [st_registry bump].
  match goal with |- context [foldl drop_pair ?st ?ks] => destruct (drop_all st ks k) as [-> _] end.
  simpl. by rewrite Hr.
Qed.

(** What a commit can answer besides a record. *)
Lemma commit_errors name spec credentials tokens mode caller rows_now rows dropped (s : State) e s' :
  commit name spec credentials tokens mode caller rows_now rows dropped s = (Err e, s') ->
  e = DConflict \/ e = DNotFound \/ exists m, e = DInternal m.
Proof.
  unfold commit, take_handle. destruct (live name s) as [h|].
  - destruct (_ && _); [intros [= <- _]; auto|].
    destruct (ask_apply _ _ _ _ _) as [[rec|x] w]; intros [= <- _]. unfold ask_error. eauto.
  - destruct (bool_decide _); [intros [= <- _]; auto|]. destruct (spawn _ _ _) as [h w].
    destruct (ask_apply _ _ _ _ _) as [[rec|x] w']; intros [= <- _]. unfold ask_error. eauto.
Qed.

(** An apply, by where it ended. *)
Lemma apply_as_cases name spec credentials mode caller tokens (s : State) r s' :
  apply_as name spec credentials mode caller tokens s = (r, s') ->
  (exists e, apply_guards name spec caller s = Err e /\ r = Err e /\ s' = s) \/
  exists new, guards_ok name spec caller s new /\
    let s1 := (settle_purge name s).2 in
    let rows_now := rows_for_fleet name (st_registry s) in
    let d := apply_diff rows_now new in
    (s' = s1 /\ exists e, r = Err e /\
       ((settle_purge name s).1 = Err e \/ apply_admitted name mode caller s1 = Err e)) \/
    apply_admitted name mode caller s1 = Ok tt /\
    let s2 := (offer_all rows_now (ad_activate d) {| of_accepted := []; of_rows := [] |} s1).2 in
    st_registry s2 = st_registry s /\ st_fleets s2 = st_fleets s /\ st_kube s2 = st_kube s /\
    ((exists p e accepted,
        r = Err (DInvalid (config_path (pr_agent p) (pr_plugin p) +:+ ": " +:+ activation_message e)) /\
        s' = rollback (active_pairs rows_now) accepted s2) \/
     commit name spec credentials tokens mode caller rows_now
       (ad_activate d ≫= offered_row rows_now (st_registry s)) (ad_deactivate d) s2 = (r, s')).
Proof.
  unfold apply_as. destruct (apply_guards name spec caller s) as [new|e] eqn:Hg; [|intros [= <- <-]; left; eauto].
  intros Happ.
  apply apply_guards_Ok in Hg. right. exists new. split; [done|].
  destruct (settle_purge_kept name s) as (Hr1 & Hf1 & Hk1).
  destruct (settle_purge name s) as [[[]|e] s1]; cbn [fst snd] in *; [|left; naive_solver].
  destruct (apply_admitted name mode caller s1) as [[]|e]; [|left; naive_solver]. right. split; [done|].
  set (rows_now := rows_for_fleet name (st_registry s)) in *. set (d := apply_diff rows_now new) in *.
  destruct (offer_all_kept rows_now (ad_activate d) {| of_accepted := []; of_rows := [] |} s1) as (Hr2 & Hf2 & Hk2).
  pose proof (offer_all_rows rows_now (ad_activate d) {| of_accepted := []; of_rows := [] |} s1) as Hrows.
  destruct (offer_all _ _ _ s1) as [[offers|[[p e] accepted]] s2]; cbn [fst snd] in *.
  - rewrite (Hrows _ _ eq_refl), Hr1 in Happ. split_and!; try congruence. by right.
  - injection Happ as <- <-. split_and!; try congruence. left. eauto.
Qed.
End apply.

(** Whatever the plugins answer. *)
Lemma apply_refused {A W : Type} `{!FleetActors A W, !PluginCalls W, !Unicode}
    (name : FleetName) (spec : FleetSpec) (credentials : CredentialBundle) (mode : ApplyMode)
    (caller : Caller) (tokens : gmap string string) (s s' : State A W) (e : DaemonError)
    (Happly : apply_as name spec credentials mode caller tokens s = (Err e, s')) :
  refused name s s' /\ (st_fleets s' = st_fleets s \/ exists text, e = DInternal text).
Proof.
  destruct (settle_purge_kept name s) as (Hr1 & Hf1 & Hk1).
  destruct (apply_as_cases _ _ _ _ _ _ _ _ _ Happly)
    as [(e' & _ & _ & ->)|(new & Hg & [(-> & _)|(_ & Hr & Hf & Hk & Hend)])].
  - split; [|by left]. split; [by left|done|done|by left].
  - split; [|by left]. split; [by left|done|by rewrite Hr1|left; by rewrite Hr1].
  - pose proof (new_pairs_ok _ _ _ (go_pairs _ _ _ _ _ Hg)) as [Hnd Hnew].
    destruct Hend as [(p & e' & accepted & _ & ->)|Hcommit].
    + split.
      * eapply refused_by_plugin; [done| |congruence]. split; [congruence..|]. by rewrite Hr, Hr1.
      * left. destruct (rollback_rows (active_pairs (rows_for_fleet name (st_registry s))) accepted
          (offer_all (rows_for_fleet name (st_registry s)) (ad_activate (apply_diff (rows_for_fleet name (st_registry s)) new))
             {| of_accepted := []; of_rows := [] |} (settle_purge name s).2).2
          (plugin_id (mkName "a" eq_refl), mkName "a" eq_refl)) as [[Hf3 _ _] _]. congruence.
    + split.
      * refine (refused_by_actor name spec credentials tokens mode caller new s _ _ e s' Hnd Hnew
          eq_refl _ _ _ Hcommit); congruence.
      * destruct (commit_fleets _ _ _ _ _ _ _ _ _ _ _ _ Hcommit) as [?|?]; [left; congruence|by right].
Qed.

(** An apply that answers an error leaves the daemon as it was. Refused by
    a check, nothing changed at all but the wait for an earlier purge: no
    plugin was called. Refused by a plugin or lost by the fleet's actor, the
    plugins' registrations and the other fleets are untouched and every
    activation row is back, with one exception: a pair that was active and
    whose old config the plugin then refused to take back is shown rejected. *)
Theorem apply_error_changes_nothing {A W : Type} `{!FleetActors A W, !PluginCalls W, !Unicode}
    (name : FleetName) (spec : FleetSpec) (credentials : CredentialBundle) (mode : ApplyMode)
    (caller : Caller) (tokens : gmap string string) (s s' : State A W) (e : DaemonError)
    (Happly : apply_as name spec credentials mode caller tokens s = (Err e, s')) :
  (is_ok (apply_guards name spec caller s) = false -> s' = s) /\
  (is_ok (apply_admitted name mode caller (settle_purge name s).2) = false ->
     s' = s \/ s' = (settle_purge name s).2) /\
  refused name s s'.
Proof.
  split_and!.
  - intros Hg. unfold apply_as in Happly. destruct (apply_guards name spec caller s); [done|].
    by injection Happly.
  - intros Ha. unfold apply_as in Happly. destruct (apply_guards name spec caller s) as [new|];
      [|left; by injection Happly]. right.
    destruct (settle_purge name s) as [[[]|] s1]; [|by injection Happly].
    cbn [snd] in *. destruct (apply_admitted name mode caller s1); [done|by injection Happly].
  - by eapply apply_refused.
Qed.

(** C18: A successful apply leaves exactly the specification's activations. It
    was allowed: the name is not reserved, every plugin it names is installed,
    and an existing fleet belonged to the caller. Each of its pairs has a row
    with the specification's config; on a ready plugin it is active; on one
    that is not, an unchanged row is as it was and a new config is pending.
    The fleet has no other row, and no other fleet's row changed. *)
Theorem apply_rows_exact {A W : Type} `{!FleetActors A W, !PluginCalls W, !Unicode}
    (name : FleetName) (spec : FleetSpec) (credentials : CredentialBundle) (mode : ApplyMode)
    (caller : Caller) (tokens : gmap string string) (s s' : State A W) (record : FleetRecord)
    (Happly : apply_as name spec credentials mode caller tokens s = (Ok record, s')) :
  reserved_fleet_reason (to_string name) = None /\
  (forall h, live name (settle_purge name s).2 = Some h ->
     rec_owner (borrow h (st_world (settle_purge name s).2)) = caller_owner caller) /\
  exists new, pairs name spec = Ok new /\
    (forall p, p ∈ new ->
       is_installed (to_string (pr_plugin p)) (st_registry s) = true /\
       reg_rows (st_registry s') !! pair_key p = Some (applied_row (st_registry s) p)) /\
    (forall k, id_fleet k.1 = name -> k ∉ pair_key <$> new -> reg_rows (st_registry s') !! k = None) /\
    (forall k, id_fleet k.1 <> name -> reg_rows (st_registry s') !! k = reg_rows (st_registry s) !! k).
Proof.
  destruct (apply_as_cases _ _ _ _ _ _ _ _ _ Happly)
    as [(e' & _ & [=] & _)|(new & Hg & [(_ & e' & [=] & _)|(Hadm & Hr & Hf & Hk & Hend)])].
  destruct (settle_purge_kept name s) as (Hr1 & Hf1 & Hk1).
  destruct Hend as [(p & e' & accepted & [=] & _)|Hcommit].
  pose proof (new_pairs_ok _ _ _ (go_pairs _ _ _ _ _ Hg)) as [Hnd Hnew].
  split; [by destruct Hg|]. split.
  { intros h Hlive. unfold apply_admitted in Hadm. rewrite Hlive in Hadm.
    apply bind_unit_Ok in Hadm as [Ho _]. apply owner_rule in Ho. naive_solver. }
  exists new. split; [by destruct Hg|].
  destruct (commit_rows _ _ _ _ _ _ _ _ _ _ _ _ Hcommit) as (r & Hr' & Hdrop). rewrite Hr in Hr'. subst r.
  split_and!.
  - intros p Hp. split; [by apply (go_installed _ _ _ _ _ Hg)|]. rewrite Hdrop, decide_False.
    + by apply written_row with (name := name).
    + intros (_ & _ & Hn)%apply_diff_dropped; [|done]. by rewrite held_elem in Hn.
  - intros k Hkf Hkn. rewrite Hdrop.
    assert (held new !! k = None) as Hh.
    { apply not_elem_of_list_to_map. by rewrite <- list_fmap_compose. }
    destruct (reg_rows (st_registry s) !! k) as [row|] eqn:Hrow.
    + rewrite decide_True; [done|]. apply apply_diff_dropped; eauto.
    + case_decide; [done|]. destruct (written_rows name (st_registry s) new k Hnd Hnew) as (_ & Hout & _ & Hsub).
      rewrite Hout; [done|]. intros (e & -> & He)%list_elem_of_fmap. apply Hkn.
      apply list_elem_of_fmap. exists e.1. split; [done|by apply Hsub].
  - intros k Hkf. rewrite Hdrop, decide_False.
    + destruct (written_rows name (st_registry s) new k Hnd Hnew) as (_ & Hout & _ & Hsub).
      apply Hout. intros (e & -> & He)%list_elem_of_fmap. apply Hkf. by apply Hnew, Hsub.
    + by intros (_ & ? & _)%apply_diff_dropped.
Qed.

(** ** What the plugins hold *)

(** Plugins as their protocol asks: an accepted [activate] replaces the agent's
    config in place, a refused one changes nothing, [deactivate] drops it, and
    a config is accepted or not whatever else the plugin holds. *)
Class LawfulPlugins (W : Type) `{!PluginCalls W} := {
  holding : W -> PluginAddr -> string -> option Value;
  accepts : PluginAddr -> string -> Value -> bool;
  activate_law : forall addr a c w,
    let '(answer, w') := activate addr a c w in
    is_ok answer = accepts addr a c /\
    forall addr' a', holding w' addr' a' =
      if decide (addr' = addr /\ a' = a /\ accepts addr a c = true) then Some c else holding w addr' a';
  deactivate_law : forall addr a w addr' a',
    holding (deactivate addr a w).2 addr' a' =
      if decide (addr' = addr /\ a' = a) then None else holding w addr' a';
  held_accepted : forall w addr a c, holding w addr a = Some c -> accepts addr a c = true;
}.

(** Waiting for an actor calls no plugin. *)
Class QuietActors (A W : Type) `{!FleetActors A W, !PluginCalls W, !LawfulPlugins W} :=
  wait_quiet : forall h w addr a, holding (wait_closed h w).2 addr a = holding w addr a.

Section rollback.
Context {A W : Type} `{!FleetActors A W, !PluginCalls W, !LawfulPlugins W, !QuietActors A W, !Unicode}.
Notation State := (State A W).

(** Every ready plugin holds the fleet's active configs and no others, and
    listens at an address of its own. *)
Record in_step (name : FleetName) (r : Registry) (w : W) : Prop := {
  is_holding : forall plugin addr agent, ready_addr plugin r = Some addr -> id_fleet agent = name ->
    holding w addr (to_string agent) =
      match reg_rows r !! (agent, plugin) with
      | Some row => if bool_decide (pa_state (row_activation row) = ActActive) then Some (row_config row) else None
      | None => None
      end;
  is_addr : forall p q addr, ready_addr p r = Some addr -> ready_addr q r = Some addr -> p = q;
}.

(** The pair's config slot at its plugin. *)
Definition at_slot (r : Registry) (p : Pair) (addr : PluginAddr) (a : string) : Prop :=
  ready_addr (pr_plugin p) r = Some addr /\ to_string (pr_agent p) = a.

Lemma agent_text_inj (i j : AgentId) : to_string i = to_string j -> i = j.
Proof.
  intros Heq. assert (from_str (E := NameError) (to_string i) = Ok i) as Hi by by apply agent_id_lawful.
  rewrite Heq in Hi. assert (from_str (E := NameError) (to_string j) = Ok j) by by apply agent_id_lawful.
  congruence.
Qed.

Lemma at_slot_key name r w p q addr a : in_step name r w ->
  at_slot r p addr a -> at_slot r q addr a -> pair_key p = pair_key q.
Proof.
  intros Hs [Hp <-] [Hq Ha%agent_text_inj]. unfold pair_key. rewrite Ha.
  by rewrite (is_addr _ _ _ Hs _ _ _ Hp Hq).
Qed.

(** Offers change only the slots of the pairs accepted, which are ready. *)
Lemma offer_all_slots rows_now ps : forall acc (s : State) x s2,
  offer_all rows_now ps acc s = (Err x, s2) ->
  exists more, x.2 = of_accepted acc ++ more /\ more `sublist_of` ps /\
    Forall (fun p => is_Some (ready_addr (pr_plugin p) (st_registry s))) more /\
    forall addr a, (forall p, p ∈ more -> ~ at_slot (st_registry s) p addr a) ->
      holding (st_world s2) addr a = holding (st_world s) addr a.
Proof.
  induction ps as [|p ps IH]; intros acc s x s2; simpl; [done|].
  destruct (ready_addr (pr_plugin p) (st_registry s)) as [addr|] eqn:Hready.
  - pose proof (activate_law addr (to_string (pr_agent p)) (pr_config p) (st_world s)) as Hlaw.
    destruct (activate _ _ _ _) as [[u|e] w]; destruct Hlaw as [Hok Hhold].
    + intros (more & Hx & Hsub & Hrdy & Hsl)%IH. exists (p :: more). simpl in *.
      split_and!; [by rewrite Hx, <- app_assoc|by apply sublist_skip|by constructor; eauto|].
      intros addr' a' Hno. rewrite Hsl by (intros q Hq; apply Hno; by right).
      rewrite Hhold, decide_False; [done|]. intros (-> & -> & _). apply (Hno p); [by left|done].
    + intros [= <- <-]. exists []. simpl. split_and!; [by rewrite app_nil_r|apply sublist_nil_l|constructor|].
      intros addr' a' _. rewrite Hhold, decide_False; [done|]. simpl in Hok. intros (_ & _ & ?). congruence.
  - intros (more & ? & ? & ? & ?)%IH. exists more. split_and!; [done|by apply sublist_cons|done|done].
Qed.

Lemma deactivate_pair_slots agent plugin (s : State) addr a :
  holding (st_world (deactivate_pair agent plugin s)) addr a =
    if decide (ready_addr plugin (st_registry s) = Some addr /\ to_string agent = a) then None
    else holding (st_world s) addr a.
Proof.
  unfold deactivate_pair. destruct (ready_addr plugin (st_registry s)) as [addr'|] eqn:Hr; simpl.
  - rewrite deactivate_law. repeat case_decide; naive_solver.
  - done.
Qed.

(** A restore of a config its plugin accepts succeeds and touches no row. *)
Lemma restore_pair_slots (s : State) p :
  (forall addr, ready_addr (pr_plugin p) (st_registry s) = Some addr ->
     accepts addr (to_string (pr_agent p)) (pr_config p) = true) ->
  st_registry (restore_pair s p) = st_registry s /\
  forall addr a, holding (st_world (restore_pair s p)) addr a =
    if decide (at_slot (st_registry s) p addr a) then Some (pr_config p) else holding (st_world s) addr a.
Proof.
  intros Hacc. unfold restore_pair, at_slot.
  destruct (ready_addr (pr_plugin p) (st_registry s)) as [addr|] eqn:Hr.
  - pose proof (activate_law addr (to_string (pr_agent p)) (pr_config p) (st_world s)) as Hlaw.
    specialize (Hacc _ eq_refl). destruct (activate _ _ _ _) as [[u|e] w]; destruct Hlaw as [Hok Hhold];
      simpl in Hok; [|congruence]. split; [done|]. intros addr' a'. simpl. rewrite Hhold.
    repeat case_decide; naive_solver.
  - split; [done|]. intros addr a. case_decide; naive_solver.
Qed.

Lemma restore_pairs_slots ps : forall (s : State),
  (forall p addr, p ∈ ps -> ready_addr (pr_plugin p) (st_registry s) = Some addr ->
     accepts addr (to_string (pr_agent p)) (pr_config p) = true) ->
  st_registry (restore_pairs ps s) = st_registry s /\
  forall addr a, holding (st_world (restore_pairs ps s)) addr a = holding (st_world s) addr a \/
    exists p, p ∈ ps /\ at_slot (st_registry s) p addr a /\
      holding (st_world (restore_pairs ps s)) addr a = Some (pr_config p).
Proof.
  unfold restore_pairs. induction ps as [|p ps IH] using rev_ind; intros s Hacc; [split; [done|by left]|].
  rewrite foldl_app. cbn [foldl]. destruct (IH s) as [Hr Hsl]; [set_solver|].
  destruct (restore_pair_slots (foldl restore_pair s ps) p) as [Hr' Hsl'].
  { rewrite Hr. intros addr. apply Hacc. set_solver. }
  split; [congruence|]. intros addr a. rewrite Hsl', Hr. case_decide as Hat.
  - right. exists p. set_solver.
  - destruct (Hsl addr a) as [?|(q & ? & ? & ?)]; [by left|]. right. exists q. set_solver.
Qed.

(** A slot a restored pair is at ends with a restored config, whatever it held. *)
Lemma restore_pairs_hits ps p : forall (s : State),
  (forall p addr, p ∈ ps -> ready_addr (pr_plugin p) (st_registry s) = Some addr ->
     accepts addr (to_string (pr_agent p)) (pr_config p) = true) ->
  p ∈ ps -> forall addr a, at_slot (st_registry s) p addr a ->
  exists q, q ∈ ps /\ at_slot (st_registry s) q addr a /\
    holding (st_world (restore_pairs ps s)) addr a = Some (pr_config q).
Proof.
  unfold restore_pairs. induction ps as [|q ps IH] using rev_ind; intros s Hacc Hp addr a Hat;
    [by apply not_elem_of_nil in Hp|].
  rewrite foldl_app. cbn [foldl].
  destruct (restore_pairs_slots ps s) as [Hr _]; [set_solver|].
  destruct (restore_pair_slots (foldl restore_pair s ps) q) as [_ Hsl'].
  { unfold restore_pairs in Hr. rewrite Hr. intros addr'. apply Hacc. set_solver. }
  rewrite Hsl'. unfold restore_pairs in Hr. rewrite Hr. case_decide as Hq.
  - exists q. set_solver.
  - apply elem_of_app in Hp as [Hp| ->%list_elem_of_singleton]; [|done].
    destruct (IH s) with (addr := addr) (a := a) as (q' & ? & ? & ?); [set_solver|done|done|].
    exists q'. set_solver.
Qed.

(** The first pass of a rollback. *)
Definition undo_pass (old accepted : list Pair) (s : State) : list Pair * State :=
  foldl (fun '(restore, s) a =>
    match find_pair old a with
    | Some was => (restore ++ [was], s)
    | None => (restore, deactivate_pair (pr_agent a) (pr_plugin a) s)
    end) ([], s) accepted.

Lemma undo_pass_spec old accepted (s : State) :
  let '(restore, s') := undo_pass old accepted s in
  st_registry s' = st_registry s /\ restore = omap (find_pair old) accepted /\
  forall addr a,
    (holding (st_world s') addr a = holding (st_world s) addr a /\
     forall p, p ∈ accepted -> find_pair old p = None -> ~ at_slot (st_registry s) p addr a) \/
    holding (st_world s') addr a = None /\
      exists p, p ∈ accepted /\ find_pair old p = None /\ at_slot (st_registry s) p addr a.
Proof.
  unfold undo_pass. induction accepted as [|p accepted IH] using rev_ind.
  { split_and!; try done. intros addr a. left. split; [done|]. by intros p ?%not_elem_of_nil. }
  rewrite foldl_app, omap_app. simpl. destruct (foldl _ _ accepted) as [restore s'].
  destruct IH as (Hr & -> & Hsl). destruct (find_pair old p) as [was|] eqn:Hf.
  - split_and!; try done. intros addr a. destruct (Hsl addr a) as [[? Hno]|(? & q & ? & ? & ?)].
    + left. split; [done|]. intros q [?| ->%list_elem_of_singleton]%elem_of_app; [auto|congruence].
    + right. split; [done|]. exists q. set_solver.
  - destruct (deactivate_pair_kept (pr_agent p) (pr_plugin p) s') as (Hr' & _ & _).
    split; [congruence|]. split; [by rewrite app_nil_r|]. intros addr a.
    rewrite deactivate_pair_slots, Hr. case_decide as Hat.
    + right. split; [done|]. exists p. split_and!; [set_solver|done|exact Hat].
    + destruct (Hsl addr a) as [[? Hno]|(? & q & ? & ? & ?)].
      * left. split; [done|]. intros q [?| ->%list_elem_of_singleton]%elem_of_app; auto.
      * right. split; [done|]. exists q. set_solver.
Qed.

Lemma find_pair_Some ps p q : find_pair ps p = Some q -> q ∈ ps /\ pair_key q = pair_key p.
Proof.
  unfold find_pair. destruct (list_find _ ps) as [[i x]|] eqn:Hl; simpl; [|done].
  intros [= <-]. apply list_find_Some in Hl as (Hi & [Ha Hp] & _).
  split; [by eapply list_elem_of_lookup_2|]. unfold pair_key. by rewrite Ha, Hp.
Qed.

(** In step, an active pair's slot holds its config, the slot of a pair that
    is not active holds nothing. *)
Lemma slot_active name r w : in_step name r w -> forall q addr a,
  q ∈ active_pairs (rows_for_fleet name r) -> at_slot r q addr a -> holding w addr a = Some (pr_config q).
Proof.
  intros Hstep q addr a Hq [Haddr <-].
  apply held_elem in Hq; [|apply active_pairs_NoDup].
  apply active_pairs_held in Hq as (row & Hrow & Hf & Ha & <-). unfold pair_key in Hrow.
  rewrite (is_holding _ _ _ Hstep _ _ (pr_agent q) Haddr Hf), Hrow. by rewrite bool_decide_eq_true_2.
Qed.

Lemma slot_new name r w : in_step name r w -> forall p addr a, id_fleet (pr_agent p) = name ->
  find_pair (active_pairs (rows_for_fleet name r)) p = None -> at_slot r p addr a -> holding w addr a = None.
Proof.
  intros Hstep p addr a Hp Hf [Haddr <-]. apply find_pair_None in Hf; [|apply active_pairs_NoDup].
  rewrite (is_holding _ _ _ Hstep _ _ _ Haddr Hp).
  destruct (reg_rows r !! (pr_agent p, pr_plugin p)) as [row|] eqn:Hrow; [|done].
  case_bool_decide as Ha; [|done]. exfalso.
  rewrite (proj2 (active_pairs_held name r (pair_key p) (row_config row))) in Hf; [done|]. eauto.
Qed.

(** Offers accepted and rolled back leave every slot as it was. *)
Lemma rollback_slots name r accepted (s0 s1 : State) new :
  st_registry s0 = r -> st_registry s1 = r -> in_step name r (st_world s0) ->
  NoDup (pair_key <$> new) -> (forall q, q ∈ new -> id_fleet (pr_agent q) = name) ->
  accepted `sublist_of` new ->
  Forall (fun p => is_Some (ready_addr (pr_plugin p) r)) accepted ->
  (forall addr a, (forall p, p ∈ accepted -> ~ at_slot r p addr a) ->
     holding (st_world s1) addr a = holding (st_world s0) addr a) ->
  let old := active_pairs (rows_for_fleet name r) in
  st_registry (rollback old accepted s1) = r /\
  forall addr a, holding (st_world (rollback old accepted s1)) addr a = holding (st_world s0) addr a.
Proof.
  intros Hr0 Hr1 Hstep Hnd Hnew Hsub Hready Hsame old.
  assert (forall p, p ∈ accepted -> id_fleet (pr_agent p) = name) as Hacc.
  { intros p Hp. apply Hnew. by eapply elem_of_sublist. }
  pose proof (slot_active name r (st_world s0) Hstep) as Hold.
  pose proof (fun p addr a Hp => slot_new name r (st_world s0) Hstep p addr a (Hacc p Hp)) as Hnone.
  fold old in Hold, Hnone.
  unfold rollback. fold (undo_pass old accepted s1).
  pose proof (undo_pass_spec old accepted s1) as Hundo.
  destruct (undo_pass old accepted s1) as [restore s2]. destruct Hundo as (Hr2 & -> & Hsl2).
  cbn [fst snd bump st_registry st_world].
  assert (forall q, q ∈ omap (find_pair old) accepted -> q ∈ old) as Hrold.
  { intros q (p & _ & [? _]%find_pair_Some)%list_elem_of_omap. done. }
  assert (forall q addr, q ∈ omap (find_pair old) accepted ->
    ready_addr (pr_plugin q) (st_registry s2) = Some addr ->
    accepts addr (to_string (pr_agent q)) (pr_config q) = true) as Haccepts.
  { intros q addr Hq Ha. rewrite Hr2, Hr1 in Ha. eapply held_accepted, Hold; [by apply Hrold|by split]. }
  destruct (restore_pairs_slots (omap (find_pair old) accepted) s2 Haccepts) as [Hr3 Hsl3].
  split; [congruence|]. intros addr a. symmetry.
  destruct (Hsl3 addr a) as [Heq|(q & Hq & Hat & ->)];
    [|rewrite Hr2, Hr1 in Hat; apply Hold; [by apply Hrold|done]].
  destruct (decide (Exists (fun p => at_slot r p addr a) accepted)) as [(p & Hp & Hat)%Exists_exists|Hno].
  - destruct (find_pair old p) as [was|] eqn:Hf.
    + destruct (find_pair_Some _ _ _ Hf) as [_ [= Ha Hpl]]. destruct Hat as [Haddr <-].
      destruct (restore_pairs_hits (omap (find_pair old) accepted) was s2 Haccepts) with
        (addr := addr) (a := to_string (pr_agent p)) as (q & Hq & Hatq & ->).
      * apply list_elem_of_omap. eauto.
      * split; [congruence|by rewrite Ha].
      * rewrite Hr2, Hr1 in Hatq. apply Hold; [by apply Hrold|done].
    + rewrite (Hnone p addr a Hp Hf Hat). rewrite Heq.
      destruct (Hsl2 addr a) as [[_ Hn]|[-> _]]; [|done]. rewrite Hr1 in Hn. by destruct (Hn p).
  - rewrite Heq. rewrite <- Hsame; [|intros p Hp Hat; apply Hno, Exists_exists; eauto].
    destruct (Hsl2 addr a) as [[-> _]|(_ & p & Hp & _ & Hat)]; [done|].
    rewrite Hr1 in Hat. exfalso. apply Hno, Exists_exists. eauto.
Qed.
End rollback.

(** What a 400 or the owner's 409 leaves at plugins that answer by the configs
    they take. *)
Lemma rejected_holdings {A W : Type} `{!FleetActors A W, !PluginCalls W, !LawfulPlugins W,
      !QuietActors A W, !Unicode}
    (name : FleetName) (spec : FleetSpec) (credentials : CredentialBundle) (mode : ApplyMode)
    (caller : Caller) (tokens : gmap string string) (s s' : State A W) (e : DaemonError) (m : string)
    (Hstep : in_step name (st_registry s) (st_world s))
    (Happly : apply_as name spec credentials mode caller tokens s = (Err e, s'))
    (He : e = DInvalid m \/ e = DManaged m) :
  st_registry s' = st_registry s /\ st_fleets s' = st_fleets s /\
  forall addr a, holding (st_world s') addr a = holding (st_world s) addr a.
Proof.
  destruct (settle_purge_kept name s) as (Hr1 & Hf1 & Hk1).
  assert (forall addr a, holding (st_world (settle_purge name s).2) addr a = holding (st_world s) addr a) as Hw1.
  { intros addr a. unfold settle_purge, wait_purged. destruct (st_fleets s !! name) as [h|]; [|done].
    destruct (is_purging h (st_world s)); simpl; [|done].
    pose proof (wait_quiet h (st_world s) addr a). by destruct (wait_closed _ _). }
  unfold apply_as in Happly.
  destruct (apply_guards name spec caller s) as [new|] eqn:Hg; [|by injection Happly as _ <-].
  apply apply_guards_Ok in Hg. destruct (new_pairs_ok _ _ _ (go_pairs _ _ _ _ _ Hg)) as [Hnd Hnew].
  destruct (settle_purge name s) as [[[]|] s1]; cbn [snd] in *; [|by injection Happly as _ <-].
  destruct (apply_admitted name mode caller s1); [|by injection Happly as _ <-].
  set (rows_now := rows_for_fleet name (st_registry s)) in *. set (d := apply_diff rows_now new) in *.
  destruct (offer_all_kept rows_now (ad_activate d) {| of_accepted := []; of_rows := [] |} s1) as (Hr2 & Hf2 & Hk2).
  pose proof (offer_all_slots rows_now (ad_activate d) {| of_accepted := []; of_rows := [] |} s1) as Hslots.
  destruct (offer_all rows_now (ad_activate d) _ s1) as [[offers|[[p e'] accepted]] s2]; cbn [fst snd] in *.
  - exfalso. by destruct (commit_errors _ _ _ _ _ _ _ _ _ _ _ _ Happly) as [->|[->|[text ->]]], He.
  - injection Happly as _ <-.
    destruct (Hslots _ _ eq_refl) as (more & Hacc & Hsub & Hready & Hsame). simpl in Hacc. subst accepted.
    rewrite Hr1 in Hready, Hsame.
    destruct (rollback_slots name (st_registry s) more s1 s2 new) as [Hr3 Hw3]; try done; try congruence.
    + destruct Hstep as [Hh Ha]. split; [|done]. intros. rewrite Hw1. by apply Hh.
    + etrans; [exact Hsub|]. apply sublist_filter.
    + split_and!; [done| |intros; by rewrite Hw3].
      destruct (rollback_rows (active_pairs rows_now) more s2 (plugin_id (mkName "a" eq_refl), mkName "a" eq_refl))
        as [[Hf3 _ _] _]. rewrite Hf3. congruence.
Qed.

(** C17: An apply that is refused changes nothing it can take back. Whatever
    the plugins answer, the other fleets and every plugin's registration are
    what they were, and so is every activation row but that of a pair that was
    active and whose old config its plugin refused to take back, which is shown
    rejected with the plugin's message; only an apply lost with its fleet's
    actor can leave a fleet it made. And over plugins that answer each call by
    whether they take that config (no call times out), when every ready plugin
    holds exactly the fleet's active configs, an apply answered 400 or the
    owner's 409 also leaves every plugin holding for every agent what it held. *)
Theorem rejected_apply_rolls_back {A W : Type} `{!FleetActors A W, !PluginCalls W, !Unicode}
    (name : FleetName) (spec : FleetSpec) (credentials : CredentialBundle) (mode : ApplyMode)
    (caller : Caller) (tokens : gmap string string) (s s' : State A W) (e : DaemonError)
    (Happly : apply_as name spec credentials mode caller tokens s = (Err e, s')) :
  refused name s s' /\ (st_fleets s' = st_fleets s \/ exists text, e = DInternal text) /\
  forall `{!LawfulPlugins W, !QuietActors A W} m, in_step name (st_registry s) (st_world s) ->
    e = DInvalid m \/ e = DManaged m ->
    st_registry s' = st_registry s /\ forall addr a, holding (st_world s') addr a = holding (st_world s) addr a.
Proof.
  destruct (apply_refused _ _ _ _ _ _ _ _ _ Happly) as [Hr Hf]. split; [done|]. split; [done|].
  intros ?? m Hstep He. destruct (rejected_holdings _ _ _ _ _ _ _ _ _ m Hstep Happly He) as (? & _ & ?). done.
Qed.

(** ** A concrete daemon *)

(** Plugins that refuse the config ["bad"], and actors that take what they are
    sent. *)
Definition FakePlugins : Type := PluginAddr -> string -> option Value.

Definition fine (c : Value) : bool := negb (bool_decide (c = VString "bad")).

#[local] Instance fake_calls : PluginCalls FakePlugins := {|
  activate := fun addr a c w =>
    if fine c then (Ok tt, fun addr' a' => if decide (addr' = addr /\ a' = a) then Some c else w addr' a')
    else (Err (CfStatus 400 "no"), w);
  deactivate := fun addr a w =>
    (Ok tt, fun addr' a' => if decide (addr' = addr /\ a' = a) then None else w addr' a');
|}.

#[local] Program Instance fake_lawful : LawfulPlugins FakePlugins := {|
  holding := fun w addr a => c ← w addr a; if fine c then Some c else None;
  accepts := fun _ _ c => fine c;
|}.
Next Obligation.
  intros addr a c w. simpl. destruct (fine c) eqn:Hc; (split; [done|]); intros addr' a'.
  - repeat case_decide; simpl; try rewrite Hc; naive_solver.
  - rewrite decide_False by naive_solver. done.
Qed.
Next Obligation. intros addr a w addr' a'. simpl. by repeat case_decide. Qed.
Next Obligation.
  intros w addr a c. simpl. destruct (w addr a) as [c'|]; simpl; [|done].
  destruct (fine c') eqn:?; [by intros [= <-]|done].
Qed.

#[local] Instance fake_actors : FleetActors FleetRecord FakePlugins := {|
  borrow := fun h _ => h;
  is_closed := fun _ _ => false;
  wait_closed := fun _ w => (false, w);
  spawn := fun _ r w => (r, w);
  ask_apply := fun h spec _ _ w => (Ok (with_owner spec (rec_owner h)), w);
  ask_down := fun h keep purge w => (Ok (set_rec_desired (DesiredDown keep purge) h), w);
|}.
#[local] Instance fake_quiet : QuietActors FleetRecord FakePlugins.
Proof. done. Qed.
#[local] Existing Instance no_escapes.

Definition sample_fleet : FleetName := @mkName KFleet "f" eq_refl.

Definition plugged (config : Value) : AgentSettings :=
  {| as_claude := default_claude; as_sandbox := empty_object; as_tools := ∅; as_env := ∅;
     as_runner := Tmux; as_plugins := {[ "web" := config ]}; as_branch := None |}.

Definition two_agents (a b : Value) : FleetSpec :=
  {| fs_name := "f"; fs_tools := ∅;
     fs_crews := {[ "c" := {| cs_repo := "o/r"; cs_ref := "main"; cs_git := default_git; cs_tools := ∅;
       cs_agents := {[ "a" := plugged a; "b" := plugged b ]} |} ]} |}.

(** [web] is ready and active for [f/c/a] with the config [null]. *)
Definition sample_registry : Registry :=
  run [OpReplace [sample_plugin "/opt/web" empty_object] []; OpSetListen web "127.0.0.1:9" "t";
       OpSetRow sample_agent web {| row_config := Null; row_activation := act_active |}] new_registry.

Definition sample_daemon : State FleetRecord FakePlugins :=
  mkState ∅ sample_registry false 0
    (fun addr a => if decide (addr = sample_addr /\ a = "f/c/a") then Some Null else None).

Lemma sample_in_step : in_step sample_fleet (st_registry sample_daemon) (st_world sample_daemon).
Proof.
  assert (reg_plugins sample_registry = alter (greeted None "127.0.0.1:9" "t") web
    (<[web := synced_info ∅ [] (sample_plugin "/opt/web" empty_object)]> ∅)) as Hplugins by reflexivity.
  assert (forall p addr, ready_addr p sample_registry = Some addr -> p = web /\ addr = sample_addr) as Hready.
  { intros p addr Hr. assert (p = web) as ->.
    { unfold ready_addr in Hr. rewrite Hplugins in Hr. destruct (decide (p = web)) as [|Hne]; [done|].
      by rewrite lookup_alter_ne, lookup_insert_ne in Hr by done. }
    split; [done|].
    assert (ready_addr web sample_registry = Some sample_addr) as Hw by (vm_compute; reflexivity). congruence. }
  split.
  - intros plugin addr agent [-> ->]%Hready Hf. change (st_registry sample_daemon) with sample_registry.
    assert (reg_rows sample_registry = <[(sample_agent, web) := {| row_config := Null; row_activation := act_active |}]>
      (retain_rows (<[web := synced_info ∅ [] (sample_plugin "/opt/web" empty_object)]> ∅) ∅)) as -> by reflexivity.
    destruct (decide (agent = sample_agent)) as [->|Hne].
    + rewrite lookup_insert_eq. reflexivity.
    + rewrite lookup_insert_ne by congruence. unfold retain_rows. rewrite map_filter_empty, lookup_empty.
      simpl. rewrite decide_False; [done|]. intros [_ Ht]. apply Hne. by apply agent_text_inj.
  - intros p q addr [-> _]%Hready [-> _]%Hready. done.
Qed.

Lemma pair_fst {X Y} (p : X * Y) x : p.1 = x -> p = (x, p.2).
Proof. by intros <-; destruct p. Qed.

(** The first agent's new config is accepted, the second's refused: the first
    gets its old config back. *)
Lemma rejected_apply_rolls_back_witness :
  let spec := two_agents (VBool true) (VString "bad") in
  let s' := (apply_as sample_fleet spec default_credentials Create (CAdmin false) ∅ sample_daemon).2 in
  holding (st_world s') sample_addr "f/c/a" = Some Null /\ st_registry s' = sample_registry.
Proof.
  intros spec s'.
  assert ((apply_as sample_fleet spec default_credentials Create (CAdmin false) ∅ sample_daemon).1 =
    Err (DInvalid "crews.c.agents.b.plugins.web: no")) as He by (vm_compute; reflexivity).
  destruct (rejected_apply_rolls_back sample_fleet spec default_credentials Create (CAdmin false) ∅ sample_daemon
    s' (DInvalid "crews.c.agents.b.plugins.web: no") (pair_fst _ _ He)) as (_ & _ & Hrest).
  destruct (Hrest _ _ "crews.c.agents.b.plugins.web: no" sample_in_step (or_introl eq_refl)) as [Hr Hw].
  split; [rewrite Hw; reflexivity|exact Hr].
Defined.

Lemma apply_error_changes_nothing_witness :
  let spec := two_agents Null (VString "bad") in
  let s' := (apply_as sample_fleet spec default_credentials Replace (CAdmin false) ∅ sample_daemon).2 in
  (apply_as sample_fleet spec default_credentials Replace (CAdmin false) ∅ sample_daemon).1 = Err DNotFound /\
  refused sample_fleet sample_daemon s'.
Proof.
  intros spec s'.
  assert ((apply_as sample_fleet spec default_credentials Replace (CAdmin false) ∅ sample_daemon).1 = Err DNotFound)
    as Hr by (vm_compute; reflexivity).
  split; [exact Hr|].
  apply (apply_error_changes_nothing sample_fleet spec default_credentials Replace (CAdmin false) ∅
    sample_daemon s' DNotFound). by apply pair_fst.
Defined.

(** The kept pair stays as it was, the new one is active. *)
Lemma apply_rows_exact_witness :
  let spec := two_agents Null (VBool true) in
  let s' := (apply_as sample_fleet spec default_credentials Create (CPlugin web) ∅ sample_daemon).2 in
  exists new, pairs sample_fleet spec = Ok new /\ length new = 2 /\
    forall p, p ∈ new -> reg_rows (st_registry s') !! pair_key p = Some (applied_row sample_registry p).
Proof.
  intros spec s'.
  assert (is_ok (apply_as sample_fleet spec default_credentials Create (CPlugin web) ∅ sample_daemon).1 = true)
    as Hok by (vm_compute; reflexivity).
  destruct (apply_as sample_fleet spec default_credentials Create (CPlugin web) ∅ sample_daemon).1
    as [record|e] eqn:Hr; [|discriminate Hok].
  destruct (apply_rows_exact sample_fleet spec default_credentials Create (CPlugin web) ∅ sample_daemon s' record)
    as (_ & _ & new & Hnew & Hrows & _); [by apply pair_fst|].
  exists new. split; [exact Hnew|]. split.
  - assert (length <$> pairs sample_fleet spec = Ok 2) as Hlen by (vm_compute; reflexivity).
    rewrite Hnew in Hlen. by injection Hlen.
  - intros p Hp. by apply Hrows.
Defined.

(** An actor that is gone when the plugins have answered: the rows go back, the
    plugins are not told, and one holds a config the fleet never took. *)
#[local] Instance lost_actors : FleetActors unit FakePlugins := {|
  borrow := fun _ _ => with_owner (two_agents Null Null) None;
  is_closed := fun _ _ => true;
  wait_closed := fun _ w => (true, w);
  spawn := fun _ _ w => (tt, w);
  ask_apply := fun _ _ _ _ w => (Err AskGone, w);
  ask_down := fun _ _ _ w => (Err AskGone, w);
|}.

Example lost_actor_leaves_config :
  let s : State unit FakePlugins := mkState ∅ sample_registry false 0 (st_world sample_daemon) in
  let '(r, s') := apply_as sample_fleet (two_agents (VBool true) Null) default_credentials Create
                    (CAdmin false) ∅ s in
  r = Err (DInternal "fleet task is gone") /\
  holding (st_world s) sample_addr "f/c/a" = Some Null /\
  holding (st_world s') sample_addr "f/c/a" = Some (VBool true) /\
  row_config <$> reg_rows (st_registry s') !! (sample_agent, web) = Some Null.
Proof. vm_compute. done. Qed.
