(* ===== verification/Reactivate.v ===== *)
(** Re-activation at a plugin's hello ([claim_reactivation], [run_reactivation]
    and [reactivate] of [crates/balerix-server/src/daemon.rs]): one run per plugin
    at a time, a claim made during a run sends it round again, every row is
    offered its config of now a bounded number of times. Applies, hellos and
    other claims run between any two steps. A run that unwinds from a panic is
    not modelled. *)

From S2P Require Import Prelude Str BTree Names Json Fleet Status Manifest Registry Activation Daemon.

Definition REACTIVATE_TRIES : nat := 5.

Section reactivate.
Context (name : AgentName).

(** Where a run stands. [Start]: before the pass reads the registry; [Rows]: at
    the head of the loop over the rows, with the hello generation and address
    it started with; [Try]: at the head of a row's offers; [Offering]: in the
    [activate] call; [Dropping]: in the [deactivate] call of a row an apply
    removed; [Decide]: the pass is over. *)
Inductive Pass :=
| Start
| Rows (generation : N) (addr : PluginAddr) (rest : list AgentId)
| Try (generation : N) (addr : PluginAddr) (agent : AgentId) (rest : list AgentId) (tries : nat) (offered : bool)
| Offering (generation : N) (addr : PluginAddr) (agent : AgentId) (rest : list AgentId) (tries : nat) (config : Value)
| Dropping (generation : N) (addr : PluginAddr) (rest : list AgentId)
| Decide (superseded : bool).

(** The plugin's entry in [reactivating], its runs, the registry; and, written
    only, the claims and the passes in the order they came. *)
Inductive Event := Claimed | PassBegan.

Record State := {
  re_flag : option bool;
  re_runs : list Pass;
  re_registry : Registry;
  re_trace : list Event;
}.

(** [claim_reactivation], and the run its [true] spawns. *)
Definition claim (s : State) : State :=
  match re_flag s with
  | Some _ =>
      {| re_flag := Some true; re_runs := re_runs s; re_registry := re_registry s;
         re_trace := re_trace s ++ [Claimed] |}
  | None =>
      {| re_flag := Some false; re_runs := re_runs s ++ [Start]; re_registry := re_registry s;
         re_trace := re_trace s ++ [Claimed] |}
  end.

(** [reactivate] from one call to the next; [answer] is the call's. *)
Definition pass_step (answer : result CallFailure unit) (p : Pass) (r : Registry) : Pass * Registry :=
  match p with
  | Start =>
      match ready_addr name r with
      | None => (Decide false, r)
      | Some addr => (Rows (hello_generation name r) addr (rows_for_plugin name r).*1, r)
      end
  | Rows _ _ [] => (Decide false, r)
  | Rows g addr (agent :: rest) =>
      if negb (hello_generation name r =? g)%N then (Decide true, r)
      else (Try g addr agent rest REACTIVATE_TRIES false, r)
  | Try g addr _ rest 0 _ => (Rows g addr rest, r)
  | Try g addr agent rest (S tries) offered =>
      match row agent name r with
      | None => (if offered then Dropping g addr rest else Rows g addr rest, r)
      | Some w => (Offering g addr agent rest tries (row_config w), r)
      end
  | Offering g addr agent rest tries config =>
      let activation := match answer with
                        | Ok _ => act_active
                        | Err e => act_rejected (activation_message e)
                        end in
      let '(written, r) := set_state agent name config activation r in
      (if written : bool then Rows g addr rest else Try g addr agent rest tries true, r)
  | Dropping g addr rest => (Rows g addr rest, r)
  | Decide superseded => (Decide superseded, r)
  end.

(** One step of a run: of its pass, or the decision under the lock at its end. *)
Definition run_step (answer : result CallFailure unit) (i : nat) (s : State) : State :=
  match re_runs s !! i with
  | None => s
  | Some (Decide superseded) =>
      if superseded || bool_decide (re_flag s = Some true) then
        {| re_flag := Some false; re_runs := <[i := Start]> (re_runs s);
           re_registry := re_registry s; re_trace := re_trace s |}
      else
        {| re_flag := None; re_runs := delete i (re_runs s);
           re_registry := re_registry s; re_trace := re_trace s |}
  | Some p =>
      let '(p', r) := pass_step answer p (re_registry s) in
      {| re_flag := re_flag s; re_runs := <[i := p']> (re_runs s); re_registry := r;
         re_trace := re_trace s ++ match p with Start => [PassBegan] | _ => [] end |}
  end.

Inductive Step :=
| SClaim
| SRun (i : nat) (answer : result CallFailure unit)
| SRegistry (op : RegOp).

Definition step (s : State) (t : Step) : State :=
  match t with
  | SClaim => claim s
  | SRun i answer => run_step answer i s
  | SRegistry op =>
      {| re_flag := re_flag s; re_runs := re_runs s; re_registry := reg_step (re_registry s) op;
         re_trace := re_trace s |}
  end.

Definition idle (r : Registry) : State :=
  {| re_flag := None; re_runs := []; re_registry := r; re_trace := [] |}.
Definition steps (ts : list Step) (s : State) : State := foldl step s ts.

(** ** One run at a time, no claim lost *)

(** A claim no pass has begun after. *)
Definition unserved (tr : list Event) : bool :=
  foldl (fun _ e => match e with Claimed => true | PassBegan => false end) false tr.

Record flight_ok (s : State) : Prop := {
  fl_runs : re_runs s = [] /\ re_flag s = None \/ exists p b, re_runs s = [p] /\ re_flag s = Some b;
  fl_served : unserved (re_trace s) = true -> re_flag s = Some true \/ re_runs s = [Start];
}.

Lemma unserved_snoc tr e : unserved (tr ++ [e]) = match e with Claimed => true | PassBegan => false end.
Proof. unfold unserved. by rewrite foldl_app. Qed.

Lemma pass_step_not_start answer p r : (pass_step answer p r).1 <> Start.
Proof.
  destruct p as [|g addr [|]|g addr a rest [|n] o|g addr a rest n c| |]; simpl; repeat case_match; try done.
  all: by simplify_eq.
Qed.

Lemma step_ok s t : flight_ok s -> flight_ok (step s t).
Proof.
  intros [Hruns Hserved]. destruct t as [|i answer|op]; simpl; [| |by split].
  - unfold claim. destruct Hruns as [[Hr Hf]|(p & b & Hr & Hf)]; rewrite Hf, Hr; split; simpl; eauto.
  - unfold run_step. destruct Hruns as [[Hr Hf]|(p & b & Hr & Hf)]; rewrite Hr in Hserved |- *; simpl.
    { split; [by left|by rewrite Hr]. }
    destruct i as [|i]; simpl; [|split; [right; eauto|by rewrite Hr]].
    assert ((exists b, p = Decide b) \/ forall b, p <> Decide b) as [[sup ->]|Hp] by (destruct p; eauto).
    + rewrite Hf. destruct (sup || bool_decide (Some b = Some true)) eqn:Hd; split; simpl; eauto.
      intros Hu. apply Hserved in Hu as [Hu|]; [|done]. rewrite Hf in Hu.
      rewrite Hu, orb_true_r in Hd. done.
    + pose proof (pass_step_not_start answer p (re_registry s)) as Hns.
      destruct (pass_step answer p (re_registry s)) as [p' r'] eqn:Hps.
      assert (flight_ok {| re_flag := re_flag s; re_runs := [p']; re_registry := r';
        re_trace := re_trace s ++ match p with Start => [PassBegan] | _ => [] end |}) as Hok;
        [|destruct p; try exact Hok; by destruct (Hp superseded)].
      split; simpl; [eauto|]. destruct p; rewrite ?app_nil_r, ?unserved_snoc; try done.
      all: intros Hu; apply Hserved in Hu as [?|[=]]; by left.
Qed.

Lemma steps_ok ts r : flight_ok (steps ts (idle r)).
Proof.
  unfold steps. induction ts as [|t ts IH] using rev_ind; [split; [by left|done]|].
  rewrite foldl_app. by apply step_ok.
Qed.

(** ** Every run ends *)

(** The calls and loop turns a pass has left: two per offer, a bounded number
    per row. [R] bounds the plugin's rows. *)
Section measure.
Context (R : nat).

Definition pass_left (p : Pass) : nat :=
  match p with
  | Start => 3 + 13 * R
  | Rows _ _ rest => 2 + 13 * length rest
  | Try _ _ _ rest tries _ => 3 + 13 * length rest + 2 * tries
  | Offering _ _ _ rest tries _ => 4 + 13 * length rest + 2 * tries
  | Dropping _ _ rest => 3 + 13 * length rest
  | Decide _ => 1
  end.

(** The pass will be, or was, cut short by a newer hello. *)
Definition stale (p : Pass) (r : Registry) : bool :=
  match p with
  | Start => false
  | Rows g _ _ | Try g _ _ _ _ _ | Offering g _ _ _ _ _ | Dropping g _ _ =>
      negb (hello_generation name r =? g)%N
  | Decide superseded => superseded
  end.

Definition left_of (flag : option bool) (p : Pass) (r : Registry) : nat :=
  pass_left p + if bool_decide (flag = Some true) || stale p r then 4 + 13 * R else 0.

Definition left_over (s : State) : nat :=
  match re_runs s with [p] => left_of (re_flag s) p (re_registry s) | _ => 0 end.

Lemma set_state_generation agent plugin config activation r n :
  hello_generation n (set_state agent plugin config activation r).2 = hello_generation n r.
Proof. unfold set_state. by repeat case_match. Qed.

Lemma pass_step_left answer p r :
  length (rows_for_plugin name r) <= R -> (forall b, p <> Decide b) ->
  let '(p', r') := pass_step answer p r in
  pass_left p' < pass_left p /\ (stale p' r' = true -> stale p r = true).
Proof.
  intros HR Hp. destruct p as [|g addr [|agent rest]|g addr agent rest [|tries] o
    |g addr agent rest tries config|g addr rest|b]; simpl; try done.
  - destruct (ready_addr name r); simpl; [|split; [lia|done]].
    rewrite length_fmap, N.eqb_refl. split; [lia|done].
  - split; [lia|done].
  - destruct (hello_generation name r =? g)%N eqn:Hg; simpl; rewrite ?Hg; (split; [unfold REACTIVATE_TRIES; lia|done]).
  - split; [lia|done].
  - destruct (row agent name r); [|destruct o]; simpl; (split; [lia|done]).
  - pose proof (set_state_generation agent name config
      (match answer with Ok _ => act_active | Err e => act_rejected (activation_message e) end) r name) as Hg.
    destruct (set_state _ _ _ _ _) as [[] r']; simpl in *; rewrite Hg; (split; [lia|done]).
  - split; [lia|done].
  - by destruct (Hp b).
Qed.

(** A step of the run brings the end nearer. *)
Lemma run_step_left answer s p b :
  re_runs s = [p] -> re_flag s = Some b -> length (rows_for_plugin name (re_registry s)) <= R ->
  left_over (run_step answer 0 s) < left_over s.
Proof.
  intros Hr Hf HR. unfold left_over, run_step. rewrite Hr, Hf. simpl.
  assert ((exists b, p = Decide b) \/ forall b, p <> Decide b) as [[sup ->]|Hp] by (destruct p; eauto).
  - unfold left_of. destruct (sup || bool_decide (Some b = Some true)) eqn:Hd; simpl; [|lia].
    rewrite orb_comm in Hd. rewrite Hd. lia.
  - pose proof (pass_step_left answer p (re_registry s) HR Hp) as Hstep.
    destruct (pass_step answer p (re_registry s)) as [p' r'] eqn:Hps. destruct Hstep as [Hlt Hst].
    assert (left_of (Some b) p' r' < left_of (Some b) p (re_registry s)) as Hgoal.
    { unfold left_of. destruct (bool_decide (Some b = Some true)); simpl; [lia|].
      destruct (stale p' r'); [rewrite Hst by done|]; lia. }
    destruct p; try exact Hgoal. by destruct (Hp superseded).
Qed.

(** What other tasks do without asking for another pass. *)
Definition calm (t : Step) : Prop :=
  match t with
  | SClaim => False
  | SRun _ _ => True
  | SRegistry op => forall addr, ~ is_hello op name addr
  end.

Lemma calm_generation op r : (forall addr, ~ is_hello op name addr) ->
  hello_generation name (reg_step r op) = hello_generation name r.
Proof.
  intros Hop. unfold hello_generation.
  destruct (step_hellos op r) as [[_ ->]|(n & addr & Hh & _ & ->)]; [done|].
  rewrite lookup_insert_ne; [done|]. intros ->. by destruct (Hop addr).
Qed.

Lemma calm_left op s : (forall addr, ~ is_hello op name addr) ->
  left_over (step s (SRegistry op)) = left_over s.
Proof.
  intros Hop. unfold left_over. simpl. destruct (re_runs s) as [|p [|]]; try done.
  unfold left_of. f_equal. destruct p; simpl; rewrite ?calm_generation by done; done.
Qed.

Definition is_turn (t : Step) : bool := match t with SRun 0 _ => true | _ => false end.

Definition turns (ts : list Step) : nat := length (filter (fun t => is_turn t = true) ts).

(** At most [R] rows name the plugin, at every point of the schedule. *)
Definition rows_bounded (ts : list Step) (s : State) : Prop :=
  forall ts1 ts2, ts = ts1 ++ ts2 -> length (rows_for_plugin name (re_registry (steps ts1 s))) <= R.

Lemma idle_calm s t : flight_ok s -> re_flag s = None -> calm t -> re_flag (step s t) = None.
Proof.
  intros [[[Hr Hf]|(p & b & Hr & Hf)] _] Hn Ht; [|congruence].
  destruct t as [|i answer|op]; simpl; [done| |done]. unfold run_step. by rewrite Hr.
Qed.

Lemma calm_step_left s t : flight_ok s -> calm t ->
  length (rows_for_plugin name (re_registry s)) <= R ->
  re_flag (step s t) = None \/
  left_over (step s t) + turns [t] <= left_over s.
Proof.
  intros Hok Ht HR. pose proof Hok as [[[Hr Hf]|(p & b & Hr & Hf)] _].
  { left. by apply idle_calm. }
  destruct t as [|[|i] answer|op]; [done| | |].
  - right. pose proof (run_step_left answer s p b Hr Hf HR) as Hlt. cbn [step].
    change (turns [SRun 0 answer]) with 1. lia.
  - right. cbn [step]. unfold run_step. rewrite Hr. simpl. change (turns [SRun (S i) answer]) with 0. lia.
  - right. rewrite calm_left by done. change (turns [SRegistry op]) with 0. lia.
Qed.

Lemma idle_calms ts : forall s, flight_ok s -> re_flag s = None -> Forall calm ts -> re_flag (steps ts s) = None.
Proof.
  induction ts as [|t ts IH]; intros s Hok Hn Hts; [done|]. apply Forall_cons in Hts as [Ht Hts].
  apply IH; [by apply step_ok|by apply idle_calm|done].
Qed.

Lemma turns_cons t ts : turns (t :: ts) = turns [t] + turns ts.
Proof. unfold turns. rewrite !filter_cons, filter_nil. by case_decide. Qed.

Lemma calm_steps_left ts : forall s, flight_ok s -> Forall calm ts -> rows_bounded ts s ->
  re_flag (steps ts s) = None \/ left_over (steps ts s) + turns ts <= left_over s.
Proof.
  induction ts as [|t ts IH]; intros s Hok Hts HR; [right; unfold turns; simpl; lia|].
  apply Forall_cons in Hts as [Ht Hts]. rewrite turns_cons.
  change (steps (t :: ts) s) with (steps ts (step s t)).
  destruct (calm_step_left s t Hok Ht (HR [] (t :: ts) eq_refl)) as [Hn|Hle].
  { left. by apply idle_calms; [apply step_ok|..]. }
  destruct (IH (step s t)) as [Hn|Hle']; [by apply step_ok|done| |by left|right; lia].
  intros ts1 ts2 ->. exact (HR (t :: ts1) ts2 eq_refl).
Qed.

Lemma left_over_pos s b : flight_ok s -> re_flag s = Some b -> 0 < left_over s.
Proof.
  intros [[[Hr Hf]|(p & b' & Hr & Hf)] _] Hb; [congruence|].
  unfold left_over, left_of. rewrite Hr. destruct p; simpl; lia.
Qed.
End measure.
End reactivate.

(** C21: Re-activation is single-flight and forgets no claim. However hellos,
    applies, claims and the runs' own steps interleave, a plugin has one run
    exactly while it is marked as re-activating; and when it is not, some pass
    began after every claim there was. *)
Theorem reactivation_single_flight (name : AgentName) (ts : list Step) (r : Registry) :
  let s := steps name ts (idle r) in
  length (re_runs s) = match re_flag s with Some _ => 1 | None => 0 end /\
  (re_flag s = None -> unserved (re_trace s) = false).
Proof.
  intros s. destruct (steps_ok name ts r) as [Hruns Hserved]. fold s in Hruns, Hserved. split.
  - by destruct Hruns as [[-> ->]|(p & b & -> & ->)].
  - intros Hn. destruct (unserved (re_trace s)) eqn:Hu; [|done].
    destruct Hserved as [?|Hs]; [done|congruence|]. destruct Hruns as [[Hr _]|(p & b & _ & Hf)]; congruence.
Qed.

(** C20: A re-activation ends. In any schedule without another hello or claim of
    the plugin, whatever the plugin answers and however applies rewrite its
    rows meanwhile, the run is over once it has taken [left_over] turns, at
    most 3 for itself and 13 per row when it has just been claimed: each row is
    offered at most five configs. [R] bounds the plugin's rows throughout. *)
Theorem reactivation_terminates (name : AgentName) (R : nat) (ts0 ts : list Step) (r : Registry)
    (Hcalm : Forall (calm name) ts)
    (Hrows : rows_bounded name R ts (steps name ts0 (idle r)))
    (Hturns : left_over name R (steps name ts0 (idle r)) <= turns ts) :
  re_flag (steps name ts (steps name ts0 (idle r))) = None /\
  re_runs (steps name ts (steps name ts0 (idle r))) = [] /\
  (forall s, re_flag s = None -> re_runs s = [] -> left_over name R (claim s) = 3 + 13 * R).
Proof.
  pose proof (steps_ok name ts0 r) as Hok0. set (s0 := steps name ts0 (idle r)) in *.
  assert (flight_ok (steps name ts s0)) as Hok.
  { unfold s0, steps. rewrite <- foldl_app. apply steps_ok. }
  assert (re_flag (steps name ts s0) = None) as Hn.
  { destruct (calm_steps_left name R ts s0 Hok0 Hcalm Hrows) as [?|Hle]; [done|].
    destruct (re_flag (steps name ts s0)) as [b|] eqn:Hf; [|done].
    pose proof (left_over_pos name R _ b Hok Hf). lia. }
  split; [done|]. split.
  - destruct Hok as [[[? _]|(p & b & _ & ?)] _]; [done|congruence].
  - intros s Hf Hr. unfold claim, left_over. rewrite Hf, Hr. simpl. unfold left_of. simpl. lia.
Qed.

(** One row, one offer the plugin refuses. *)
Lemma reactivation_terminates_witness :
  let ts0 := [SRegistry (OpReplace [sample_plugin "/opt/web" empty_object] []);
              SRegistry (OpSetRow sample_agent web {| row_config := Null; row_activation := act_pending |});
              SRegistry (OpSetListen web "127.0.0.1:9" "t"); SClaim] in
  let ts := replicate 16 (SRun 0 (Err CfTimeout)) in
  re_flag (steps web ts (steps web ts0 (idle new_registry))) = None /\
  row sample_agent web (re_registry (steps web ts (steps web ts0 (idle new_registry)))) =
    Some {| row_config := Null; row_activation := act_rejected "plugin unreachable (timeout)" |}.
Proof.
  intros ts0 ts. split; [|vm_compute; reflexivity].
  apply (reactivation_terminates web 1 ts0 ts new_registry).
  - unfold ts. apply Forall_replicate. exact I.
  - intros ts1 ts2 Hts.
    assert (ts1 = replicate (length ts1) (SRun 0 (Err CfTimeout))) as ->.
    { apply (f_equal (take (length ts1))) in Hts. rewrite take_app_length in Hts. rewrite <- Hts at 1.
      unfold ts. rewrite take_replicate. f_equal.
      pose proof (f_equal length Hts) as Hl. unfold ts in Hl. rewrite length_take, length_replicate in Hl. lia. }
    assert (length ts1 <= 16) as Hlen.
    { apply (f_equal length) in Hts. unfold ts in Hts. rewrite length_replicate, length_app in Hts. lia. }
    clear Hts. revert Hlen. generalize (length ts1). intros n Hn.
    do 17 (destruct n as [|n]; [apply Nat.leb_le; vm_compute; reflexivity|]). lia.
  - apply Nat.leb_le. vm_compute. reflexivity.
Defined.
