(* ===== verification/Flow.v ===== *)
(** The [flow] plugin ([plugins/flow/src/config.rs], [machine.rs], [plugin.rs]):
    a state machine per agent whose rules answer hook events. The machine is a
    function; the plugin is a system of tasks (an [activate], a [deactivate], an
    [intercept]) interleaved at their await points: the agent's gate and the
    calls to the daemon's key-value store, which may fail.

    What a task does between two await points is one step. The [regex] crate,
    serde's reading and printing, [Value::pointer] and the digest are
    parameters; log lines are left out. A call the server drops half-way is not
    modelled. *)

From S2P Require Import Prelude Str BTree Names Rules Json Text Delivery Manifest Registry Chain.

(** ** The block: [config.rs] *)

Definition REGEX_SIZE_LIMIT : N := 10 * 1024.

Inductive RuleAction := RStop | RRestart.

Record Send := { sd_text : string; sd_submit : bool }.

Record Rule := {
  rl_event : string;
  rl_matches : gmap string string;
  rl_goto : option string;
  rl_respond : option (gmap string Value);
  rl_send : option Send;
  rl_action : option RuleAction;
}.

Record StateConfig := { sc_on : list Rule }.
Record FlowConfig := { fc_initial : string; fc_states : gmap string StateConfig }.

Record ConfigError := { ce_path : string; ce_message : string }.
#[export] Instance flow_error_eq_dec : EqDecision ConfigError.
Proof. solve_decision. Defined.

Definition config_error_text (e : ConfigError) : string :=
  if is_empty (ce_path e) then ce_message e else ce_path e +:+ ": " +:+ ce_message e.

(** The KV document of an agent. *)
Record Stored := { so_state : string; so_config : string }.
#[export] Instance stored_eq_dec : EqDecision Stored.
Proof. solve_decision. Defined.

(** [regex::Error], each with its text. *)
Inductive RegexError := RegexSyntax (text : string) | RegexOther (text : string).

(** Third-party code: the typed reading of the block (the path and message of
    serde's error), the regex engine, JSON pointers and text, the digest of a
    block's canonical text, and the encoding of a [Stored]. *)
Class FlowDeps := {
  deserialize : Value -> result (string * string) FlowConfig;
  Regex : Type;
  regex_build : string -> N -> result RegexError Regex;
  is_match : Regex -> string -> bool;
  pointer_at : Value -> string -> option Value;
  json_text : Value -> string;
  sha256_hex : string -> string;
  to_vec : Stored -> result string string;
  from_slice : string -> option Stored;
}.

(** Every [Stored] is written, and read back as it was. *)
Class StoredCodec `{FlowDeps} := {
  encode : Stored -> string;
  to_vec_ok s : to_vec s = Ok (encode s);
  from_slice_encode s : from_slice (encode s) = Some s;
}.

Section flow.
Context `{Unicode, FlowDeps}.

Record CompiledRule := {
  cr_event : string;
  cr_matches : list (string * Regex);
  cr_goto : option string;
  cr_respond : gmap string Value;
  cr_send : option Send;
  cr_action : option RuleAction;
}.

Record Compiled := {
  cm_initial : string;
  cm_states : gmap string (list CompiledRule);
  cm_hash : string;
}.

Definition parse (config : Value) : result ConfigError FlowConfig :=
  map_err (fun '(path, inner) =>
    {| ce_path := if bool_decide (path = ".") then EmptyString else path;
       ce_message := before ", expected `" (before ", expected one of" inner) |})
    (deserialize config).

Definition config_hash (config : Value) : string := sha256_hex (json_text config).

Definition one_line (e : RegexError) : string :=
  match e with
  | RegexSyntax s => trim_start_str "error: " (default EmptyString (last (lines s)))
  | RegexOther s => s
  end.

Definition rule_path (name : string) (i : nat) (field : string) : string :=
  "states." +:+ name +:+ ".on[" +:+ pretty i +:+ "]." +:+ field.

Definition compile_match (name : string) (i : nat) (m : string * string) : result ConfigError (string * Regex) :=
  let '(pointer, pattern) := m in
  let path := rule_path name i ("match." +:+ pointer) in
  _ ← ensure (starts_with pointer "/")
    {| ce_path := path; ce_message := "not a JSON pointer (must start with " +:+ quote +:+ "/" +:+ quote +:+ ")" |};
  re ← map_err (fun e => {| ce_path := path; ce_message := one_line e |})
    (regex_build ("^(?:" +:+ pattern +:+ ")$") REGEX_SIZE_LIMIT);
  Ok (pointer, re).

Definition compile_rule (states : gmap string StateConfig) (name : string) (i : nat) (rule : Rule)
    : result ConfigError CompiledRule :=
  _ ← ensure (bool_decide (rl_event rule ∈ HOOK_EVENTS))
    {| ce_path := rule_path name i "event"; ce_message := "unknown event " +:+ debug_str (rl_event rule) |};
  _ ← match rl_goto rule with
      | Some goto =>
          ensure (bool_decide (is_Some (states !! goto)))
            {| ce_path := rule_path name i "goto"; ce_message := "no state " +:+ debug_str goto +:+ " declared" |}
      | None => Ok tt
      end;
  matches ← try_map (compile_match name i) (entries (rl_matches rule));
  Ok {| cr_event := rl_event rule; cr_matches := matches; cr_goto := rl_goto rule;
        cr_respond := default ∅ (rl_respond rule); cr_send := rl_send rule; cr_action := rl_action rule |}.

Definition compile_state (states : gmap string StateConfig) (st : string * StateConfig)
    : result ConfigError (string * list CompiledRule) :=
  rules ← try_map (fun '(i, rule) => compile_rule states st.1 i rule) (imap pair (sc_on st.2));
  Ok (st.1, rules).

Definition compile (config : Value) : result ConfigError Compiled :=
  parsed ← parse config;
  _ ← ensure (bool_decide (is_Some (fc_states parsed !! fc_initial parsed)))
    {| ce_path := "initial"; ce_message := "no state " +:+ debug_str (fc_initial parsed) +:+ " declared" |};
  states ← try_map (compile_state (fc_states parsed)) (entries (fc_states parsed));
  Ok {| cm_initial := fc_initial parsed; cm_states := list_to_map states; cm_hash := config_hash config |}.

(** ** The machine: [machine.rs] *)

Record Step := {
  sp_fired : option nat;
  sp_response : Value;
  sp_actions : list PluginAction;
  sp_next : option string;
}.

Definition text_at (payload : Value) (pointer : string) : option string :=
  v ← pointer_at payload pointer;
  Some match v with VString s => s | other => json_text other end.

Definition rule_matches (event : HookEvent) (rule : CompiledRule) : bool :=
  bool_decide (cr_event rule = he_name event) &&
  forallb (fun '(pointer, re) =>
    match text_at (he_payload event) pointer with Some s => is_match re s | None => false end) (cr_matches rule).

(** [send] first, then [action]. *)
Definition rule_actions (rule : CompiledRule) : list PluginAction :=
  match cr_send rule with Some s => [SendText (sd_text s) (sd_submit s)] | None => [] end ++
  match cr_action rule with Some RStop => [Stop] | Some RRestart => [Restart] | None => [] end.

Definition step (compiled : Compiled) (state : string) (event : HookEvent) (so_far : Value) : Step :=
  match cm_states compiled !! state ≫= list_find (fun r => rule_matches event r = true) with
  | None => {| sp_fired := None; sp_response := so_far; sp_actions := []; sp_next := None |}
  | Some (i, rule) =>
      {| sp_fired := Some i;
         sp_response := VObject (cr_respond rule ∪ default ∅ (as_object so_far));
         sp_actions := rule_actions rule;
         sp_next := cr_goto rule |}
  end.

(** ** The plugin: [plugin.rs] *)

Definition state_key (agent : string) : string := "state/" +:+ agent.

(** [labels]: an id of another shape keeps its text in the agent's label. *)
Definition labels (agent : string) : string * string * string :=
  match splitn 3 (ascii_of_N 47) agent with
  | [f; c; a] => (f, c, a)
  | _ => (EmptyString, EmptyString, agent)
  end.

Record AgentFlow := { af_compiled : Compiled; af_state : string }.

(** The stored form of what an agent holds. *)
Definition stored_of (f : AgentFlow) : Stored :=
  {| so_state := af_state f; so_config := cm_hash (af_compiled f) |}.

(** Where a call stands. [ActWait], [DeactWait] and [InterceptWait] wait for the
    gate; [ActGet], [ActPut], [DeactDelete] and [InterceptPut] are in a call to
    the store. [DeactOpen] and [DeactDelete _ false] are a [deactivate] that
    found no gate. *)
Inductive Task :=
| ActWait (agent : string) (compiled : Compiled)
| ActGet (agent : string) (compiled : Compiled)
| ActPut (agent : string) (compiled : Compiled)
| DeactWait (agent : string)
| DeactOpen (agent : string)
| DeactDelete (agent : string) (gated : bool)
| InterceptWait (agent : string) (event : HookEvent) (so_far : Value) (now : N)
| InterceptPut (agent : string) (stored : Stored) (verdict : InterceptResponse).

Inductive Answer := Activated | Rejected (why : string) | Deactivated | Verdict (v : InterceptResponse).

(** The plugin, the daemon's store, and the answers of the calls that are over,
    latest first. The gauge holds its series' labels; a gate is the call that
    holds it. *)
Record System := mkSystem {
  sy_agents : gmap string AgentFlow;
  sy_gates : gmap string (option nat);
  sy_deliveries : Deliveries unit;
  sy_gauge : gset (string * string * string * string);
  sy_transitions : list (string * string * string);
  sy_counts : list (string * N);
  sy_kv : gmap string string;
  sy_tasks : gmap nat Task;
  sy_next : nat;
  sy_answers : list (nat * Answer);
}.

Definition set_agents x s := mkSystem x (sy_gates s) (sy_deliveries s) (sy_gauge s) (sy_transitions s) (sy_counts s) (sy_kv s) (sy_tasks s) (sy_next s) (sy_answers s).
Definition set_gates x s := mkSystem (sy_agents s) x (sy_deliveries s) (sy_gauge s) (sy_transitions s) (sy_counts s) (sy_kv s) (sy_tasks s) (sy_next s) (sy_answers s).
Definition set_deliveries x s := mkSystem (sy_agents s) (sy_gates s) x (sy_gauge s) (sy_transitions s) (sy_counts s) (sy_kv s) (sy_tasks s) (sy_next s) (sy_answers s).
Definition set_gauge x s := mkSystem (sy_agents s) (sy_gates s) (sy_deliveries s) x (sy_transitions s) (sy_counts s) (sy_kv s) (sy_tasks s) (sy_next s) (sy_answers s).
Definition set_transitions x s := mkSystem (sy_agents s) (sy_gates s) (sy_deliveries s) (sy_gauge s) x (sy_counts s) (sy_kv s) (sy_tasks s) (sy_next s) (sy_answers s).
Definition set_counts x s := mkSystem (sy_agents s) (sy_gates s) (sy_deliveries s) (sy_gauge s) (sy_transitions s) x (sy_kv s) (sy_tasks s) (sy_next s) (sy_answers s).
Definition set_kv x s := mkSystem (sy_agents s) (sy_gates s) (sy_deliveries s) (sy_gauge s) (sy_transitions s) (sy_counts s) x (sy_tasks s) (sy_next s) (sy_answers s).
Definition set_tasks x s := mkSystem (sy_agents s) (sy_gates s) (sy_deliveries s) (sy_gauge s) (sy_transitions s) (sy_counts s) (sy_kv s) x (sy_next s) (sy_answers s).

Definition new_plugin : System := mkSystem ∅ ∅ ∅ ∅ [] [] ∅ ∅ 0 [].

(** A call begins; a call waits on; a call is over, its gate dropped. *)
Definition spawn (t : Task) (s : System) : System :=
  mkSystem (sy_agents s) (sy_gates s) (sy_deliveries s) (sy_gauge s) (sy_transitions s) (sy_counts s) (sy_kv s)
    (<[sy_next s := t]> (sy_tasks s)) (S (sy_next s)) (sy_answers s).
Definition move (i : nat) (t : Task) (s : System) : System := set_tasks (<[i := t]> (sy_tasks s)) s.
Definition answer (i : nat) (a : Answer) (s : System) : System :=
  mkSystem (sy_agents s) (sy_gates s) (sy_deliveries s) (sy_gauge s) (sy_transitions s) (sy_counts s) (sy_kv s)
    (delete i (sy_tasks s)) (sy_next s) ((i, a) :: sy_answers s).
Definition take_gate (i : nat) (agent : string) (s : System) : System :=
  set_gates (<[agent := Some i]> (sy_gates s)) s.
Definition drop_gate (agent : string) (s : System) : System :=
  set_gates (<[agent := None]> (sy_gates s)) s.

(** A call answered at once. *)
Definition reply (a : Answer) (s : System) : System :=
  mkSystem (sy_agents s) (sy_gates s) (sy_deliveries s) (sy_gauge s) (sy_transitions s) (sy_counts s) (sy_kv s)
    (sy_tasks s) (S (sy_next s)) ((sy_next s, a) :: sy_answers s).

(** [gate] makes the agent's gate if it has none. *)
Definition make_gate (agent : string) (s : System) : System :=
  match sy_gates s !! agent with
  | Some _ => s
  | None => set_gates (<[agent := None]> (sy_gates s)) s
  end.

Definition set_state_gauge (agent : string) (from : option string) (to : string) (s : System) : System :=
  let g := match from with
           | Some q => sy_gauge s ∖ {[(labels agent, q)]}
           | None => sy_gauge s
           end in
  set_gauge ({[(labels agent, to)]} ∪ g) s.

Definition count_transition (agent from to : string) (s : System) : System :=
  set_transitions ((agent, from, to) :: sy_transitions s) s.

Definition count (outcome : string) (n : N) (s : System) : System :=
  set_counts ((outcome, n) :: sy_counts s) s.

(** [Nudger::on_event] and [Nudger::sent]. *)
Definition nudger_on_event (event : HookEvent) (now : N) (s : System) : System :=
  let '(o, d) := on_event event now (sy_deliveries s) in
  let s := set_deliveries d s in
  let s := match oc_confirmed o with Some _ => count "confirmed" 1 s | None => s end in
  count "skipped" (N.of_nat (length (oc_skipped o))) s.

Definition nudger_sent (agent text : string) (now : N) (s : System) : System :=
  let '(evicted, d) := sent agent text tt now 0 (sy_deliveries s) in
  let s := set_deliveries d s in
  match evicted with Some _ => count "evicted" 1 s | None => s end.

(** A call's store request: it succeeds, or it fails with a text, its effect
    done or not. *)
Inductive KvAnswer := KvOk | KvErr (done : bool) (text : string).

Definition kv_done (a : KvAnswer) : bool := match a with KvOk => true | KvErr done _ => done end.

(** [kv_get], then [from_slice]: a value that does not parse counts as none. *)
Definition kv_get (agent : string) (a : KvAnswer) (s : System) : result string (option Stored) :=
  match a with
  | KvOk => Ok (sy_kv s !! state_key agent ≫= from_slice)
  | KvErr _ text => Err text
  end.

Definition store (agent : string) (stored : Stored) (a : KvAnswer) (s : System) : result string unit * System :=
  match to_vec stored with
  | Err e => (Err ("encode state: " +:+ e), s)
  | Ok bytes =>
      let s := if kv_done a then set_kv (<[state_key agent := bytes]> (sy_kv s)) s else s in
      (match a with KvOk => Ok tt | KvErr _ text => Err text end, s)
  end.

Definition kv_delete (agent : string) (a : KvAnswer) (s : System) : System :=
  if kv_done a then set_kv (delete (state_key agent) (sy_kv s)) s else s.

(** The end of [activate], from the insertion on. *)
Definition hold (i : nat) (agent : string) (compiled : Compiled) (state : string) (s : System) : System :=
  let old := af_state <$> sy_agents s !! agent in
  let s := set_agents (<[agent := {| af_compiled := compiled; af_state := state |}]> (sy_agents s)) s in
  let s := match old with
           | Some _ => set_deliveries (lose_track_agent agent (sy_deliveries s)) s
           | None => s
           end in
  answer i Activated (drop_gate agent (set_state_gauge agent old state s)).

(** [deactivate] under its gate, up to the delete. *)
Definition drop_agent (agent : string) (s : System) : System :=
  let s := set_deliveries (forget agent (sy_deliveries s)).2 s in
  let old := af_state <$> sy_agents s !! agent in
  let s := set_agents (delete agent (sy_agents s)) s in
  match old with
  | Some q => set_gauge (sy_gauge s ∖ {[(labels agent, q)]}) s
  | None => s
  end.

(** The submitted prompts of a step, to the tracker. *)
Definition track_sends (agent : string) (actions : list PluginAction) (now : N) (s : System) : System :=
  foldl (fun s a => match a with
                    | SendText text true =>
                        match classify text with KindPrompt => nudger_sent agent text now s | KindCommand => s end
                    | _ => s
                    end) s actions.

(** [intercept] under its gate, up to the store. *)
Definition intercept_step (i : nat) (agent : string) (event : HookEvent) (so_far : Value) (now : N)
    (s : System) : System :=
  match sy_agents s !! agent with
  | None =>
      answer i (Verdict {| iv_response := so_far; iv_actions := [] |}) (drop_gate agent s)
  | Some flow =>
      let st := step (af_compiled flow) (af_state flow) event so_far in
      let s := track_sends agent (sp_actions st) now s in
      let verdict := {| iv_response := sp_response st; iv_actions := sp_actions st |} in
      match sp_next st with
      | None => answer i (Verdict verdict) (drop_gate agent s)
      | Some to =>
          let flow' := {| af_compiled := af_compiled flow; af_state := to |} in
          let s := set_agents (<[agent := flow']> (sy_agents s)) s in
          let s := count_transition agent (af_state flow) to s in
          let s := set_state_gauge agent (Some (af_state flow)) to s in
          move i (InterceptPut agent (stored_of flow') verdict) s
      end
  end.

(** A call from one await point to the next; [a] answers its store request. A
    call waiting for a gate another one holds stays where it is. *)
Definition run_task (i : nat) (a : KvAnswer) (s : System) : System :=
  match sy_tasks s !! i with
  | None => s
  | Some (ActWait agent compiled) =>
      match sy_gates s !! agent with
      | Some None => move i (ActGet agent compiled) (take_gate i agent s)
      | _ => s
      end
  | Some (ActGet agent compiled) =>
      match kv_get agent a s with
      | Err e => answer i (Rejected ("kv: " +:+ e)) (drop_gate agent s)
      | Ok previous =>
          match previous with
          | Some p =>
              if bool_decide (so_config p = cm_hash compiled /\ is_Some (cm_states compiled !! so_state p))
              then hold i agent compiled (so_state p) s
              else move i (ActPut agent compiled) s
          | None => move i (ActPut agent compiled) s
          end
      end
  | Some (ActPut agent compiled) =>
      match store agent {| so_state := cm_initial compiled; so_config := cm_hash compiled |} a s with
      | (Err e, s) => answer i (Rejected ("kv: " +:+ e)) (drop_gate agent s)
      | (Ok _, s) => hold i agent compiled (cm_initial compiled) s
      end
  | Some (DeactWait agent) =>
      match sy_gates s !! agent with
      | Some None => move i (DeactDelete agent true) (drop_agent agent (take_gate i agent s))
      | _ => s
      end
  | Some (DeactOpen agent) => move i (DeactDelete agent false) (drop_agent agent s)
  | Some (DeactDelete agent gated) =>
      let s := kv_delete agent a s in
      answer i Deactivated (if gated : bool then drop_gate agent s else s)
  | Some (InterceptWait agent event so_far now) =>
      match sy_gates s !! agent with
      | Some None => intercept_step i agent event so_far now (take_gate i agent s)
      | _ => s
      end
  | Some (InterceptPut agent stored verdict) =>
      let '(_, s) := store agent stored a s in
      answer i (Verdict verdict) (drop_gate agent s)
  end.

(** [activate], [deactivate] and [intercept] up to their first await point. *)
Definition activate (agent : string) (config : Value) (s : System) : System :=
  match compile config with
  | Err e => reply (Rejected (config_error_text e)) s
  | Ok compiled => spawn (ActWait agent compiled) (make_gate agent s)
  end.

Definition deactivate (agent : string) (s : System) : System :=
  match sy_gates s !! agent with
  | Some _ => spawn (DeactWait agent) s
  | None => spawn (DeactOpen agent) s
  end.

Definition intercept (event : HookEvent) (so_far : Value) (now : N) (s : System) : System :=
  let agent := he_agent event in
  let s := nudger_on_event event now s in
  match sy_gates s !! agent with
  | Some _ => spawn (InterceptWait agent event so_far now) s
  | None => reply (Verdict {| iv_response := so_far; iv_actions := [] |}) s
  end.

(** [Nudger::tick]: [accepted] says which Enters the daemon took; [send_keys]
    counts the others. *)
Definition tick (now : N) (accepted : string -> bool) (s : System) : System :=
  let '(due, d) := nudge now (sy_deliveries s) in
  foldl (fun s agent => if accepted agent then count "nudged" 1 s else count "send_keys" 1 s) (set_deliveries d s) due.

Inductive Event :=
| EActivate (agent : string) (config : Value)
| EDeactivate (agent : string)
| EIntercept (event : HookEvent) (so_far : Value) (now : N)
| ERun (i : nat) (a : KvAnswer)
| ETick (now : N) (accepted : string -> bool)
| EDropped
| ERestart.

Definition sys_step (s : System) (e : Event) : System :=
  match e with
  | EActivate agent config => activate agent config s
  | EDeactivate agent => deactivate agent s
  | EIntercept event so_far now => intercept event so_far now s
  | ERun i a => run_task i a s
  | ETick now accepted => tick now accepted s
  | EDropped => set_deliveries (lose_track (sy_deliveries s)) s
  | ERestart => mkSystem ∅ ∅ ∅ ∅ [] [] (sy_kv s) ∅ (sy_next s) []
  end.

Definition run (es : list Event) (s : System) : System := foldl sys_step s es.

(** ** The block: what compiles *)

Definition declared (states : gmap string StateConfig) (q : string) : Prop := is_Some (states !! q).

Record rule_ok (states : gmap string StateConfig) (rule : Rule) : Prop := {
  ro_event : rl_event rule ∈ HOOK_EVENTS;
  ro_goto g : rl_goto rule = Some g -> declared states g;
  ro_matches pointer pattern : rl_matches rule !! pointer = Some pattern ->
    starts_with pointer "/" = true /\
    is_ok (regex_build ("^(?:" +:+ pattern +:+ ")$") REGEX_SIZE_LIMIT) = true;
}.

Definition block_ok (p : FlowConfig) : Prop :=
  declared (fc_states p) (fc_initial p) /\
  forall name st rule, fc_states p !! name = Some st -> rule ∈ sc_on st -> rule_ok (fc_states p) rule.

(** The compiled form of a rule: its fields, and its patterns anchored at both
    ends. *)
Record rule_compiled (rule : Rule) (cr : CompiledRule) : Prop := {
  rc_event : cr_event cr = rl_event rule;
  rc_goto : cr_goto cr = rl_goto rule;
  rc_respond : cr_respond cr = default ∅ (rl_respond rule);
  rc_send : cr_send cr = rl_send rule;
  rc_action : cr_action cr = rl_action rule;
  rc_matches pointer re : (pointer, re) ∈ cr_matches cr <->
    exists pattern, rl_matches rule !! pointer = Some pattern /\
      regex_build ("^(?:" +:+ pattern +:+ ")$") REGEX_SIZE_LIMIT = Ok re;
}.

Definition block_compiled (p : FlowConfig) (c : Compiled) : Prop :=
  cm_initial c = fc_initial p /\
  forall name, match fc_states p !! name, cm_states c !! name with
               | Some st, Some rules => Forall2 rule_compiled (sc_on st) rules
               | None, None => True
               | _, _ => False
               end.

Lemma compile_match_Ok name i m r :
  compile_match name i m = Ok r <->
  r.1 = m.1 /\ starts_with m.1 "/" = true /\ regex_build ("^(?:" +:+ m.2 +:+ ")$") REGEX_SIZE_LIMIT = Ok r.2.
Proof.
  destruct m as [pointer pattern], r as [pointer' re]. unfold compile_match. cbn [fst snd].
  rewrite bind_unit_Ok, ensure_Ok, bind_Ok. split.
  - intros (Hs & re' & Hre & [= -> ->]). by apply map_err_Ok in Hre.
  - intros (-> & Hs & Hre). split; [done|]. exists re. by rewrite Hre.
Qed.

Lemma compile_rule_Ok states name i rule cr :
  compile_rule states name i rule = Ok cr -> rule_ok states rule /\ rule_compiled rule cr.
Proof.
  unfold compile_rule. rewrite bind_unit_Ok, ensure_Ok, bind_unit_Ok, bind_Ok.
  intros (He & Hg & ms & Hms & [= <-]). apply bool_decide_eq_true in He.
  apply try_map_Ok in Hms. split; constructor; simpl; try done.
  - intros g Hgo. rewrite Hgo in Hg. apply ensure_Ok in Hg. by apply bool_decide_eq_true in Hg.
  - intros pointer pattern Hp.
    destruct (Forall2_elem_l _ _ _ (pointer, pattern) Hms) as (r & Hr & _); [by apply elem_of_entries|].
    apply compile_match_Ok in Hr as (_ & ? & Hre). simpl in *. by rewrite Hre.
  - intros pointer re. split.
    + intros Hin. destruct (Forall2_elem_r _ _ _ _ Hms Hin) as ([p pat] & Hp & Hr).
      apply compile_match_Ok in Hr as (Heq & _ & Hre). simpl in *. subst.
      exists pat. split; [by apply elem_of_entries|done].
    + intros (pat & Hp & Hre).
      destruct (Forall2_elem_l _ _ _ (pointer, pat) Hms) as ([p' re'] & Hr & Hin); [by apply elem_of_entries|].
      apply compile_match_Ok in Hr as (Heq & _ & Hre'). simpl in *. rewrite Hre in Hre'. by simplify_eq.
Qed.

Lemma compile_rule_accepts states name i rule :
  rule_ok states rule -> exists cr, compile_rule states name i rule = Ok cr.
Proof.
  intros [He Hg Hm].
  assert (exists ms, try_map (compile_match name i) (entries (rl_matches rule)) = Ok ms) as [ms Hms].
  { destruct (try_map (compile_match name i) (entries (rl_matches rule))) as [ms|e] eqn:Heq; [eauto|].
    apply try_map_Err in Heq as ([pointer pattern] & Hp%elem_of_entries & Herr).
    destruct (Hm _ _ Hp) as [Hs Hre]. apply is_ok_Ok in Hre as [re Hre].
    assert (compile_match name i (pointer, pattern) = Ok (pointer, re)) by (by apply compile_match_Ok).
    congruence. }
  unfold compile_rule. rewrite bool_decide_eq_true_2 by done. simpl.
  destruct (rl_goto rule) as [g|]; simpl.
  - pose proof (Hg g eq_refl) as Hd. rewrite (bool_decide_eq_true_2 _ Hd). simpl. rewrite Hms. by eexists.
  - rewrite Hms. by eexists.
Qed.

Lemma compile_state_Ok states st r :
  compile_state states st = Ok r <->
  r.1 = st.1 /\ Forall2 (fun x cr => compile_rule states st.1 x.1 x.2 = Ok cr) (imap pair (sc_on st.2)) r.2.
Proof.
  unfold compile_state. rewrite bind_Ok. split.
  - intros (rules & Hr & [= <-]). split; [done|]. apply try_map_Ok in Hr.
    eapply Forall2_impl; [apply Hr|]. by intros [??].
  - intros [Hn Hr]. exists r.2. destruct r as [n rules]. simpl in *. subst. split; [|done].
    apply try_map_Ok. eapply Forall2_impl; [apply Hr|]. by intros [??].
Qed.

Lemma imap_pair_elem {A} (l : list A) i x : (i, x) ∈ imap pair l <-> l !! i = Some x.
Proof.
  rewrite list_elem_of_lookup. split.
  - intros [j Hj]. rewrite list_lookup_imap in Hj. by destruct (l !! j) eqn:?; simplify_eq/=.
  - intros Hx. exists i. by rewrite list_lookup_imap, Hx.
Qed.

Lemma imap_pair_snd {A} (l : list A) : (imap pair l).*2 = l.
Proof. apply list_eq. intros i. rewrite list_lookup_fmap, list_lookup_imap. by destruct (l !! i). Qed.

Lemma list_to_map_rekeyed {A B} (R : string -> A -> B -> Prop) (m : gmap string A) (l : list (string * B)) :
  Forall2 (fun x r => r.1 = x.1 /\ R x.1 x.2 r.2) (entries m) l ->
  forall k, match m !! k, (list_to_map l : gmap string B) !! k with
            | Some a, Some b => R k a b
            | None, None => True
            | _, _ => False
            end.
Proof.
  intros Hl k.
  assert (l.*1 = keys m) as Hkeys.
  { unfold keys. revert Hl. clear k. generalize (entries m) as l1. intros l1 Hl.
    induction Hl as [|x r l1 l2 [Heq _] _ IH]; [done|]. by rewrite !fmap_cons, Heq, IH. }
  destruct ((list_to_map l : gmap string B) !! k) as [b|] eqn:Hb.
  - apply elem_of_list_to_map in Hb; [|rewrite Hkeys; apply keys_NoDup].
    destruct (Forall2_elem_r _ _ _ _ Hl Hb) as ([k' a] & Hin & [Heq HR]). simpl in *. subst k'.
    apply elem_of_entries in Hin. by rewrite Hin.
  - apply not_elem_of_list_to_map in Hb. rewrite Hkeys, elem_of_keys in Hb.
    destruct (m !! k) eqn:?; [|done]. destruct Hb. eauto.
Qed.

Lemma compile_Ok config c :
  compile config = Ok c ->
  exists p, parse config = Ok p /\ block_ok p /\ block_compiled p c /\ cm_hash c = config_hash config.
Proof.
  unfold compile. rewrite bind_Ok. intros (p & Hp & Hc).
  apply bind_unit_Ok in Hc as [Hinit Hc]. apply ensure_Ok, bool_decide_eq_true in Hinit.
  apply bind_Ok in Hc as (states & Hst & [= <-]). apply try_map_Ok in Hst. exists p.
  assert (Forall2 (fun x r => r.1 = x.1 /\
            Forall2 (fun y cr => compile_rule (fc_states p) x.1 y.1 y.2 = Ok cr) (imap pair (sc_on x.2)) r.2)
          (entries (fc_states p)) states) as Hst'.
  { eapply Forall2_impl; [apply Hst|]. intros ???. by apply compile_state_Ok. }
  split_and!; [done| |split; [done|]|done].
  - split; [done|]. intros name st rule Hn Hr.
    destruct (Forall2_elem_l _ _ _ (name, st) Hst') as ([n rules] & [_ Hrs] & _); [by apply elem_of_entries|].
    apply list_elem_of_lookup in Hr as [i Hi]. apply imap_pair_elem in Hi.
    destruct (Forall2_elem_l _ _ _ _ Hrs Hi) as (cr & Hcr & _). by apply compile_rule_Ok in Hcr as [? _].
  - intros name. pose proof (list_to_map_rekeyed (fun name st rules =>
      Forall2 (fun y cr => compile_rule (fc_states p) name y.1 y.2 = Ok cr) (imap pair (sc_on st)) rules)
      _ _ Hst' name) as Hk. simpl.
    destruct (fc_states p !! name) as [st|], (list_to_map states !! name) as [rules|]; try done.
    rewrite <- (imap_pair_snd (sc_on st)). apply Forall2_fmap_l.
    eapply Forall2_impl; [apply Hk|]. intros ?? Hcr. by apply compile_rule_Ok in Hcr as [_ ?].
Qed.

Lemma compile_accepts config p :
  parse config = Ok p -> block_ok p -> is_ok (compile config) = true.
Proof.
  intros Hp [Hinit Hrules]. unfold compile. rewrite Hp. simpl.
  rewrite bool_decide_eq_true_2 by done. simpl.
  destruct (try_map (compile_state (fc_states p)) (entries (fc_states p))) as [l|e] eqn:Heq; [done|].
  apply try_map_Err in Heq as ([name st] & Hn%elem_of_entries & Herr). exfalso.
  unfold compile_state in Herr. cbn [fst snd] in Herr. apply bind_Err in Herr as [Herr|(? & _ & ?)]; [|done].
  apply try_map_Err in Herr as ([i rule] & Hi%imap_pair_elem & Herr).
  destruct (compile_rule_accepts (fc_states p) name i rule) as [cr Hcr]; [|congruence].
  apply (Hrules name st); [done|]. by eapply list_elem_of_lookup_2.
Qed.

(** Every [goto] of a compiled block leads to one of its states. *)
Definition closed (c : Compiled) : Prop :=
  is_Some (cm_states c !! cm_initial c) /\
  forall q rules r g, cm_states c !! q = Some rules -> r ∈ rules -> cr_goto r = Some g ->
    is_Some (cm_states c !! g).

Lemma block_closed p c : block_ok p -> block_compiled p c -> closed c.
Proof.
  intros [Hinit Hok] [Hi Hc].
  assert (forall q, declared (fc_states p) q -> is_Some (cm_states c !! q)) as Hd.
  { intros q [st Hq]. specialize (Hc q). rewrite Hq in Hc. destruct (cm_states c !! q); [eauto|done]. }
  split; [rewrite Hi; by apply Hd|]. intros q rules r g Hq Hr Hg. apply Hd.
  specialize (Hc q). rewrite Hq in Hc. destruct (fc_states p !! q) as [st|] eqn:Hst; [|done].
  destruct (Forall2_elem_r _ _ _ _ Hc Hr) as (rule & Hin & Hrule).
  apply (ro_goto _ _ (Hok q st rule Hst Hin)). by rewrite <- (rc_goto _ _ Hrule).
Qed.

Lemma compile_closed config c : compile config = Ok c -> closed c.
Proof. intros (p & _ & Hok & Hc & _)%compile_Ok. by eapply block_closed. Qed.

(** ** Gates *)

(** The agent whose gate a call holds. *)
Definition holds (t : Task) : option string :=
  match t with
  | ActGet agent _ | ActPut agent _ | DeactDelete agent true | InterceptPut agent _ _ => Some agent
  | _ => None
  end.

(** A [deactivate] that found no gate, and its agent. *)
Definition ungated (t : Task) : option string :=
  match t with DeactOpen agent | DeactDelete agent false => Some agent | _ => None end.

(** A gate is held by exactly the call it names. *)
Definition held_ok (gates : gmap string (option nat)) (tasks : gmap nat Task) : Prop :=
  forall a i, gates !! a = Some (Some i) <-> exists t, tasks !! i = Some t /\ holds t = Some a.

Section gates.
Context (gates : gmap string (option nat)) (tasks : gmap nat Task) (Hok : held_ok gates tasks).

Lemma held_take a i t t' :
  gates !! a = Some None -> tasks !! i = Some t -> holds t = None -> holds t' = Some a ->
  held_ok (<[a := Some i]> gates) (<[i := t']> tasks).
Proof.
  intros Hg Ht Hn Ha b j. destruct (decide (a = b)) as [<-|Hab].
  - rewrite lookup_insert_eq. split.
    + intros [= <-]. exists t'. by rewrite lookup_insert_eq.
    + intros (u & Hu & Hh). destruct (decide (i = j)) as [->|Hij]; [done|].
      rewrite lookup_insert_ne in Hu by done.
      assert (gates !! a = Some (Some j)) by (apply Hok; eauto). congruence.
  - rewrite lookup_insert_ne by done. rewrite (Hok b j). destruct (decide (i = j)) as [<-|Hij].
    + rewrite lookup_insert_eq. split; intros (u & Hu & Hh); simplify_eq.
    + by rewrite lookup_insert_ne.
Qed.

Lemma held_drop a i t :
  tasks !! i = Some t -> holds t = Some a -> held_ok (<[a := None]> gates) (delete i tasks).
Proof.
  intros Ht Ha b j.
  assert (gates !! a = Some (Some i)) as Hg by (apply Hok; eauto).
  destruct (decide (a = b)) as [<-|Hab].
  - rewrite lookup_insert_eq. split; [done|]. intros (u & Hu & Hh).
    apply lookup_delete_Some in Hu as [Hij Hu].
    assert (gates !! a = Some (Some j)) by (apply Hok; eauto). congruence.
  - rewrite lookup_insert_ne by done. rewrite (Hok b j).
    setoid_rewrite lookup_delete_Some. split; [|naive_solver].
    intros (u & Hu & Hh). exists u. split_and!; [|done..]. intros <-. congruence.
Qed.

Lemma held_stay i t t' :
  tasks !! i = Some t -> holds t' = holds t -> held_ok gates (<[i := t']> tasks).
Proof.
  intros Ht Hh b j. rewrite (Hok b j). destruct (decide (i = j)) as [<-|Hij].
  - rewrite lookup_insert_eq. split; intros (u & Hu & ?); simplify_eq; eexists; split; eauto; congruence.
  - by rewrite lookup_insert_ne.
Qed.

Lemma held_gone i t : tasks !! i = Some t -> holds t = None -> held_ok gates (delete i tasks).
Proof.
  intros Ht Hn b j. rewrite (Hok b j). setoid_rewrite lookup_delete_Some. split; [|naive_solver].
  intros (u & Hu & ?). exists u. split_and!; [|done..]. intros <-. congruence.
Qed.

Lemma held_spawn i t : tasks !! i = None -> holds t = None -> held_ok gates (<[i := t]> tasks).
Proof.
  intros Hi Hn b j. rewrite (Hok b j). destruct (decide (i = j)) as [<-|Hij].
  - rewrite lookup_insert_eq. split; intros (u & Hu & ?); simplify_eq.
  - by rewrite lookup_insert_ne.
Qed.

Lemma held_make a : gates !! a = None -> held_ok (<[a := None]> gates) tasks.
Proof.
  intros Ha b j. destruct (decide (a = b)) as [<-|Hab]; [|by rewrite lookup_insert_ne by done; apply Hok].
  rewrite lookup_insert_eq, <- (Hok a j). split; congruence.
Qed.

Lemma held_idle a i : gates !! a = Some None -> held_ok (<[a := None]> (<[a := Some i]> gates)) tasks.
Proof. intros Ha. rewrite insert_insert_eq, insert_id by done. exact Hok. Qed.
End gates.

(** ** What the plugin keeps *)

Lemma join_splitn c n s : join (String c EmptyString) (splitn (S n) c s) = s.
Proof.
  revert s; induction n as [|n IH]; intros s; [done|]. simpl.
  destruct (split_once c s) as [[a b]|] eqn:Hs; [|done].
  apply split_once_Some in Hs as [-> _]. rewrite join_cons; [|simpl; by repeat case_match].
  f_equal. simpl. f_equal. apply IH.
Qed.

(** An id whose fleet label is not empty, as every id of the daemon's. *)
Definition shaped (agent : string) : bool := negb (is_empty (labels agent).1.1).

Lemma labels_shaped a f c n : labels a = (f, c, n) -> f <> EmptyString -> a = f +:+ "/" +:+ c +:+ "/" +:+ n.
Proof.
  unfold labels. intros Hl Hf. pose proof (join_splitn (ascii_of_N 47) 2 a) as Hj.
  destruct (splitn 3 (ascii_of_N 47) a) as [|x [|y [|z [|]]]]; simplify_eq. done.
Qed.

Lemma labels_inj a b : shaped a = true -> labels a = labels b -> a = b.
Proof.
  unfold shaped. intros Hs Hl. destruct (labels a) as [[f c] n] eqn:Ha. simpl in Hs.
  assert (f <> EmptyString) as Hf. { intros ->. discriminate Hs. }
  rewrite (labels_shaped a f c n), (labels_shaped b f c n); done.
Qed.

(** The gauge shows each agent in its state and nothing else. *)
Definition gauge_ok (agents : gmap string AgentFlow) (gauge : gset (string * string * string * string)) : Prop :=
  forall a q, shaped a = true -> ((labels a, q) ∈ gauge <-> af_state <$> agents !! a = Some q).

Definition without (a : string) (old : option string) (gauge : gset (string * string * string * string)) :=
  match old with Some q => gauge ∖ {[(labels a, q)]} | None => gauge end.

Lemma gauge_without agents gauge a b q :
  gauge_ok agents gauge -> shaped b = true ->
  ((labels b, q) ∈ without a (af_state <$> agents !! a) gauge <->
   b <> a /\ af_state <$> agents !! b = Some q).
Proof.
  intros Hg Hb. unfold without. destruct (decide (b = a)) as [->|Hne].
  - destruct (agents !! a) as [f|] eqn:Ha; simpl.
    + rewrite elem_of_difference, (Hg a q Hb), Ha, elem_of_singleton. simpl. naive_solver.
    + rewrite (Hg a q Hb), Ha. naive_solver.
  - destruct (agents !! a) as [f|]; simpl; [|rewrite (Hg b q Hb); naive_solver].
    rewrite elem_of_difference, (Hg b q Hb), elem_of_singleton.
    split; [naive_solver|]. intros [_ ?]. split; [done|]. intros [= Hl _].
    by apply (labels_inj b a Hb) in Hl.
Qed.

Lemma gauge_insert agents gauge a f :
  gauge_ok agents gauge ->
  gauge_ok (<[a := f]> agents) ({[(labels a, af_state f)]} ∪ without a (af_state <$> agents !! a) gauge).
Proof.
  intros Hg b q Hb. rewrite elem_of_union, elem_of_singleton, (gauge_without _ _ a b q Hg Hb).
  destruct (decide (b = a)) as [->|Hne].
  - rewrite lookup_insert_eq. simpl. naive_solver.
  - rewrite lookup_insert_ne by done. split; [|naive_solver]. intros [[= Hl ->]|?]; [|naive_solver].
    by apply (labels_inj b a Hb) in Hl.
Qed.

Lemma gauge_delete agents gauge a :
  gauge_ok agents gauge -> gauge_ok (delete a agents) (without a (af_state <$> agents !! a) gauge).
Proof.
  intros Hg b q Hb. rewrite (gauge_without _ _ a b q Hg Hb). destruct (decide (b = a)) as [->|Hne].
  - rewrite lookup_delete_eq. simpl. naive_solver.
  - rewrite lookup_delete_ne by done. naive_solver.
Qed.

Definition task_ok (t : Task) : Prop :=
  match t with
  | ActWait agent c | ActGet agent c | ActPut agent c => closed c /\ shaped agent = true
  | _ => True
  end.

Definition flow_ok (a : string) (f : AgentFlow) : Prop :=
  closed (af_compiled f) /\ is_Some (cm_states (af_compiled f) !! af_state f) /\ shaped a = true.

Record sys_ok (s : System) : Prop := {
  ok_held : held_ok (sy_gates s) (sy_tasks s);
  ok_flows : map_Forall flow_ok (sy_agents s);
  ok_tasks : map_Forall (fun i t => i < sy_next s /\ task_ok t) (sy_tasks s);
  ok_gauge : gauge_ok (sy_agents s) (sy_gauge s);
}.

(** What the properties speak of. *)
Definition core (s : System) := (sy_agents s, sy_gates s, sy_gauge s, sy_kv s, sy_tasks s, sy_next s).

Lemma sys_ok_core s s' : core s' = core s -> sys_ok s -> sys_ok s'.
Proof.
  destruct s, s'. unfold core. simpl. intros [= -> -> -> -> -> ->] [????]. by constructor.
Qed.

Lemma nudger_on_event_core event now s : core (nudger_on_event event now s) = core s.
Proof. unfold nudger_on_event. destruct (on_event _ _ _) as [o d]. by destruct (oc_confirmed o). Qed.

Lemma nudger_sent_core agent text now s : core (nudger_sent agent text now s) = core s.
Proof. unfold nudger_sent. destruct (sent _ _ _ _ _ _) as [[] d]; done. Qed.

Lemma track_sends_core agent actions now s : core (track_sends agent actions now s) = core s.
Proof.
  unfold track_sends. revert s. induction actions as [|x l IH]; intros s; [done|]. simpl. rewrite IH.
  destruct x as [? []| | |]; try done. destruct (classify text); [apply nudger_sent_core|done].
Qed.

Lemma tick_core now accepted s : core (tick now accepted s) = core s.
Proof.
  unfold tick. destruct (nudge now (sy_deliveries s)) as [due d].
  assert (forall l s0, core (foldl (fun s agent => if accepted agent then count "nudged" 1 s
                                                   else count "send_keys" 1 s) s0 l) = core s0) as Hl.
  { induction l as [|x l IH]; intros s0; [done|]. simpl. rewrite IH. by destruct (accepted x). }
  by rewrite Hl.
Qed.

Lemma step_declared c q event so_far g :
  closed c -> sp_next (step c q event so_far) = Some g -> is_Some (cm_states c !! g).
Proof.
  intros [_ Hc]. unfold step. destruct (cm_states c !! q) as [rules|] eqn:Hq; simpl; [|done].
  destruct (list_find _ rules) as [[i r]|] eqn:Hf; simpl; [|done].
  intros Hg. apply list_find_Some in Hf as (Hr & _ & _).
  apply (Hc q rules r g Hq); [by eapply list_elem_of_lookup_2|done].
Qed.

(** The end of a call that holds its gate, and of one that does not. *)
Lemma end_ok i a t x s :
  sys_ok s -> sy_tasks s !! i = Some t -> holds t = Some a -> sys_ok (answer i x (drop_gate a s)).
Proof.
  intros [????] Ht Hh. constructor; simpl; try done.
  - by apply (held_drop _ _ ltac:(done) _ _ t).
  - by apply map_Forall_delete.
Qed.

Lemma spawn_ok t s : sys_ok s -> holds t = None -> task_ok t -> sys_ok (spawn t s).
Proof.
  intros [Hh Hf Ht Hg] Hn Hok. constructor; simpl; try done.
  - apply held_spawn; [done| |done]. destruct (sy_tasks s !! sy_next s) as [u|] eqn:Hu; [|done].
    apply Ht in Hu as [Hlt _]. lia.
  - apply map_Forall_insert_2; [split; [lia|done]|]. eapply map_Forall_impl; [exact Ht|].
    intros i u [??]. split; [lia|done].
Qed.

Lemma reply_ok x s : sys_ok s -> sys_ok (reply x s).
Proof.
  intros [Hh Hf Ht Hg]. constructor; simpl; try done. eapply map_Forall_impl; [exact Ht|].
  intros i u [??]. split; [lia|done].
Qed.

Lemma make_gate_ok a s : sys_ok s -> sys_ok (make_gate a s).
Proof.
  intros Hok. unfold make_gate. destruct (sy_gates s !! a) eqn:Ha; [done|].
  destruct Hok. constructor; simpl; try done. by apply held_make.
Qed.

Lemma hold_core i a c q s :
  core (hold i a c q s) =
  core (answer i Activated (drop_gate a (set_state_gauge a (af_state <$> sy_agents s !! a) q
          (set_agents (<[a := {| af_compiled := c; af_state := q |}]> (sy_agents s)) s)))).
Proof. unfold hold. by destruct (sy_agents s !! a). Qed.

Lemma drop_agent_core a s :
  core (drop_agent a s) =
  core (set_gauge (without a (af_state <$> sy_agents s !! a) (sy_gauge s)) (set_agents (delete a (sy_agents s)) s)).
Proof. unfold drop_agent. simpl. by destruct (sy_agents s !! a). Qed.

Lemma hold_ok i a c q t s :
  sys_ok s -> sy_tasks s !! i = Some t -> holds t = Some a -> closed c -> shaped a = true ->
  is_Some (cm_states c !! q) -> sys_ok (hold i a c q s).
Proof.
  intros [Hh Hf Ht Hg] Hi Ha Hc Hs Hq.
  eapply sys_ok_core; [apply hold_core|]. apply (end_ok _ _ t); [|done..].
  constructor; simpl; try done.
  - by apply map_Forall_insert_2.
  - apply (gauge_insert (sy_agents s) (sy_gauge s) a {| af_compiled := c; af_state := q |} Hg).
Qed.

Lemma drop_agent_ok a s : sys_ok s -> sys_ok (drop_agent a s).
Proof.
  intros [Hh Hf Ht Hg].
  eapply sys_ok_core; [apply drop_agent_core|]. constructor; simpl; try done.
  - by apply map_Forall_delete.
  - by apply gauge_delete.
Qed.

Lemma move_ok i t t' s :
  sys_ok s -> sy_tasks s !! i = Some t -> holds t' = holds t -> task_ok t' -> sys_ok (move i t' s).
Proof.
  intros [Hh Hf Ht Hg] Hi Heq Hok. constructor; simpl; try done.
  - by apply (held_stay _ _ Hh i t).
  - apply map_Forall_insert_2; [|done]. split; [|done]. by apply Ht in Hi as [? _].
Qed.

Lemma take_ok i a t t' s :
  sys_ok s -> sy_gates s !! a = Some None -> sy_tasks s !! i = Some t -> holds t = None ->
  holds t' = Some a -> task_ok t' -> sys_ok (move i t' (take_gate i a s)).
Proof.
  intros [Hh Hf Ht Hg] Ha Hi Hn Heq Hok. constructor; simpl; try done.
  - by apply (held_take _ _ Hh a i t).
  - apply map_Forall_insert_2; [|done]. split; [|done]. by apply Ht in Hi as [? _].
Qed.

(** A call that took its gate and ends in the same step. *)
Lemma pass_ok i a t x s :
  sys_ok s -> sy_gates s !! a = Some None -> sy_tasks s !! i = Some t -> holds t = None ->
  sys_ok (answer i x (drop_gate a (take_gate i a s))).
Proof.
  intros [Hh Hf Ht Hg] Ha Hi Hn. constructor; simpl; try done.
  - apply held_idle; [|done]. by apply (held_gone _ _ Hh i t).
  - by apply map_Forall_delete.
Qed.

Lemma set_kv_ok x s : sys_ok s -> sys_ok (set_kv x s).
Proof. intros []. by constructor. Qed.

Lemma store_core agent stored a s r s' :
  store agent stored a s = (r, s') -> s' = s \/ exists x, s' = set_kv x s.
Proof. unfold store. repeat case_match; intros; simplify_eq; eauto. Qed.

Lemma store_ok_sys agent stored a s r s' : store agent stored a s = (r, s') -> sys_ok s -> sys_ok s'.
Proof. intros [->|[x ->]]%store_core ?; [done|by apply set_kv_ok]. Qed.

(** [core] of what an [intercept] does last, from [core] of what it did first. *)
Lemma leave_core i a x s s0 : core s = core s0 -> core (answer i x (drop_gate a s)) = core (answer i x (drop_gate a s0)).
Proof. destruct s, s0. unfold core. simpl. by intros [= -> -> -> -> -> ->]. Qed.

Lemma enter_core i a f to v s s0 :
  core s0 = core (take_gate i a s) ->
  let f' := {| af_compiled := af_compiled f; af_state := to |} in
  core (move i (InterceptPut a (stored_of f') v) (set_state_gauge a (Some (af_state f)) to
          (count_transition a (af_state f) to (set_agents (<[a := f']> (sy_agents s0)) s0)))) =
  core (set_gauge ({[(labels a, to)]} ∪ without a (Some (af_state f)) (sy_gauge s))
          (set_agents (<[a := f']> (sy_agents s)) (move i (InterceptPut a (stored_of f') v) (take_gate i a s)))).
Proof. destruct s, s0. unfold core. simpl. by intros [= -> -> -> -> -> ->]. Qed.

Lemma intercept_step_ok i a event so_far now t s :
  sys_ok s -> sy_gates s !! a = Some None -> sy_tasks s !! i = Some t -> holds t = None ->
  sys_ok (intercept_step i a event so_far now (take_gate i a s)).
Proof.
  intros Hok Ha Hi Hn. unfold intercept_step. cbn [sy_agents take_gate set_gates].
  destruct (sy_agents s !! a) as [f|] eqn:Hf; [|by apply (pass_ok _ _ t)].
  destruct (ok_flows s Hok a f Hf) as (Hc & Hq & Hs).
  set (st := step (af_compiled f) (af_state f) event so_far).
  set (s1 := track_sends a (sp_actions st) now (take_gate i a s)).
  assert (core s1 = core (take_gate i a s)) as Hcore by apply track_sends_core.
  destruct (sp_next st) as [to|] eqn:Hto.
  - set (f' := {| af_compiled := af_compiled f; af_state := to |}).
    set (v := {| iv_response := sp_response st; iv_actions := sp_actions st |}).
    eapply (sys_ok_core (set_gauge ({[(labels a, to)]} ∪ without a (Some (af_state f)) (sy_gauge s))
      (set_agents (<[a := f']> (sy_agents s)) (move i (InterceptPut a (stored_of f') v) (take_gate i a s))))).
    { by apply enter_core. }
    pose proof (take_ok i a t (InterceptPut a (stored_of f') v) s Hok Ha Hi Hn eq_refl I) as [????].
    constructor; simpl; try done.
    + apply map_Forall_insert_2; [|done]. split_and!; [done| |done].
      by apply (step_declared _ _ _ _ _ Hc) in Hto.
    + pose proof (gauge_insert _ _ a f' (ok_gauge s Hok)) as Hg. by rewrite Hf in Hg.
  - apply (sys_ok_core (answer i (Verdict {| iv_response := sp_response st; iv_actions := sp_actions st |})
      (drop_gate a (take_gate i a s)))); [|by apply (pass_ok _ _ t)].
    by apply leave_core.
Qed.

Lemma run_task_ok i a s : sys_ok s -> sys_ok (run_task i a s).
Proof.
  intros Hok. unfold run_task. destruct (sy_tasks s !! i) as [t|] eqn:Hi; [|done].
  pose proof (ok_tasks s Hok i t Hi) as [_ Ht].
  destruct t as [g c|g c|g c|g|g|g []|g event so_far now|g st v]; simpl in Ht.
  - destruct (sy_gates s !! g) as [[]|] eqn:Hg; try done. by apply (take_ok _ _ (ActWait g c)).
  - destruct Ht as [Hc Hs]. unfold kv_get.
    destruct a; [|by apply (end_ok _ _ (ActGet g c))].
    destruct (sy_kv s !! state_key g ≫= from_slice) as [p|]; [|by apply (move_ok _ (ActGet g c))].
    case_bool_decide as Hp; [|by apply (move_ok _ (ActGet g c))].
    destruct Hp as [_ Hq]. by apply (hold_ok _ _ _ _ (ActGet g c)).
  - destruct Ht as [Hc Hs]. destruct (store _ _ a s) as [r s'] eqn:Hst.
    pose proof (store_ok_sys _ _ _ _ _ _ Hst Hok) as Hok'.
    assert (sy_tasks s' !! i = Some (ActPut g c)) as Hi'.
    { apply store_core in Hst as [->|[x ->]]; done. }
    destruct r as [[]|e]; [|by apply (end_ok _ _ (ActPut g c))].
    apply (hold_ok _ _ _ _ (ActPut g c)); try done. apply Hc.
  - destruct (sy_gates s !! g) as [[]|] eqn:Hg; try done.
    pose proof (take_ok i g (DeactWait g) (DeactDelete g true) s Hok Hg Hi eq_refl eq_refl I) as H1.
    apply (drop_agent_ok g) in H1. eapply sys_ok_core; [|exact H1].
    unfold drop_agent. simpl. by destruct (sy_agents s !! g).
  - apply (drop_agent_ok g) in Hok. apply (move_ok _ (DeactOpen g)); [done| |done..].
    unfold drop_agent. simpl. destruct (sy_agents s !! g); exact Hi.
  - unfold kv_delete. destruct (kv_done a).
    + apply (end_ok _ _ (DeactDelete g true)); [by apply set_kv_ok|done|done].
    + by apply (end_ok _ _ (DeactDelete g true)).
  - assert (sys_ok (kv_delete g a s)) as [Hh Hf Ht' Hg].
    { unfold kv_delete. destruct (kv_done a); [by apply set_kv_ok|done]. }
    assert (sy_tasks (kv_delete g a s) = sy_tasks s) as Heq by (unfold kv_delete; by destruct (kv_done a)).
    constructor; simpl; try done.
    + apply (held_gone _ _ Hh i (DeactDelete g false)); [by rewrite Heq|done].
    + by apply map_Forall_delete.
  - destruct (sy_gates s !! g) as [[]|] eqn:Hg; try done.
    by apply (intercept_step_ok _ _ _ _ _ (InterceptWait g event so_far now)).
  - destruct (store _ _ a s) as [r s'] eqn:Hst.
    pose proof (store_ok_sys _ _ _ _ _ _ Hst Hok) as Hok'.
    apply (end_ok _ _ (InterceptPut g st v)); [done| |done].
    apply store_core in Hst as [->|[x ->]]; done.
Qed.

(** The daemon only activates agents of its own. *)
Definition named (e : Event) : Prop :=
  match e with EActivate agent _ => shaped agent = true | _ => True end.

Lemma flow_step_ok s e : named e -> sys_ok s -> sys_ok (sys_step s e).
Proof.
  intros Hn Hok. destruct e as [agent config|agent|event so_far now|i a|now accepted| |]; simpl.
  - unfold activate. destruct (compile config) as [c|] eqn:Hc; [|by apply reply_ok].
    apply spawn_ok; [by apply make_gate_ok|done|]. split; [by eapply compile_closed|done].
  - unfold deactivate. destruct (sy_gates s !! agent); by apply spawn_ok.
  - unfold intercept.
    assert (sys_ok (nudger_on_event event now s)) as Hok' by (eapply sys_ok_core; [apply nudger_on_event_core|done]).
    destruct (sy_gates _ !! _); [by apply spawn_ok|by apply reply_ok].
  - by apply run_task_ok.
  - eapply sys_ok_core; [apply tick_core|done].
  - destruct Hok. by constructor.
  - destruct Hok. constructor; simpl; try done.
    intros a i. rewrite lookup_empty. split; [done|]. intros (t & Ht & _). by rewrite lookup_empty in Ht.
Qed.

Lemma run_ok es s : Forall named es -> sys_ok s -> sys_ok (run es s).
Proof.
  intros Hes. revert s. induction Hes as [|e es He _ IH]; intros s Hok; [done|].
  simpl. apply IH. by apply flow_step_ok.
Qed.

Lemma new_plugin_ok : sys_ok new_plugin.
Proof.
  constructor; simpl; try done.
  intros a i. rewrite lookup_empty. split; [done|]. intros (t & Ht & _). by rewrite lookup_empty in Ht.
Qed.

(** ** The store *)

Context `{!StoredCodec}.

(** What the store holds of an agent. *)
Definition stored_for (a : string) (s : System) : option Stored := sy_kv s !! state_key a ≫= from_slice.

Definition putting (t : Task) : option (string * Stored) :=
  match t with InterceptPut agent st _ => Some (agent, st) | _ => None end.
Definition dropping (t : Task) : option string :=
  match t with DeactDelete agent true => Some agent | _ => None end.
(** A call whose end settles an agent that is not held. *)
Definition settling (t : Task) : option string :=
  match t with
  | ActWait agent _ | ActGet agent _ | ActPut agent _ | DeactDelete agent true => Some agent
  | _ => None
  end.

Definition some_task (s : System) (P : Task -> Prop) : Prop := exists i t, sy_tasks s !! i = Some t /\ P t.

(** The store follows the memory, one step behind at most: the difference is a
    call under way. *)
Record kept (s : System) (a : string) : Prop := {
  k_held f : sy_agents s !! a = Some f ->
    stored_for a s = Some (stored_of f) \/ some_task s (fun t => putting t = Some (a, stored_of f));
  k_gone : sy_agents s !! a = None ->
    sy_kv s !! state_key a = None \/ sy_gates s !! a = None \/ some_task s (fun t => settling t = Some a);
  k_put i t st : sy_tasks s !! i = Some t -> putting t = Some (a, st) ->
    exists f, sy_agents s !! a = Some f /\ st = stored_of f;
  k_drop i t : sy_tasks s !! i = Some t -> dropping t = Some a -> sy_agents s !! a = None;
  k_ungated i t : sy_tasks s !! i = Some t -> ungated t = Some a -> sy_gates s !! a = None;
  k_gate f : sy_agents s !! a = Some f -> is_Some (sy_gates s !! a);
}.

(** A step that leaves the agent's memory, store and gate, and only turns one
    call into another that is none of its writers. *)
Lemma kept_retask s s' a i :
  sy_agents s' !! a = sy_agents s !! a -> sy_kv s' !! state_key a = sy_kv s !! state_key a ->
  (is_Some (sy_gates s' !! a) <-> is_Some (sy_gates s !! a)) ->
  (forall j, j <> i -> sy_tasks s' !! j = sy_tasks s !! j) ->
  (forall t, sy_tasks s !! i = Some t -> (forall st, putting t <> Some (a, st)) /\
     (settling t = Some a -> some_task s' (fun t' => settling t' = Some a))) ->
  (forall t', sy_tasks s' !! i = Some t' -> (forall st, putting t' <> Some (a, st)) /\ dropping t' <> Some a /\
     (ungated t' = Some a -> sy_gates s !! a = None)) ->
  kept s a -> kept s' a.
Proof.
  intros Ha Hkv Hg Hj Ht Ht' [Hheld Hgone Hput Hdrop Hung Hgate].
  assert (sy_gates s' !! a = None <-> sy_gates s !! a = None) as Hgn by (rewrite !eq_None_not_Some; tauto).
  constructor; unfold stored_for; rewrite ?Ha, ?Hkv.
  - intros f Hf. destruct (Hheld f Hf) as [?|(j & t & Hjt & Hp)]; [by left|]. right.
    destruct (decide (j = i)) as [->|Hne]; [by destruct (proj1 (Ht t Hjt) _ Hp)|].
    exists j, t. by rewrite Hj.
  - intros Hn. rewrite Hgn. destruct (Hgone Hn) as [?|[?|(j & t & Hjt & Hp)]]; [by left|by right; left|].
    right; right. destruct (decide (j = i)) as [->|Hne]; [by apply (Ht t Hjt)|].
    exists j, t. by rewrite Hj.
  - intros j t st Hjt Hp. destruct (decide (j = i)) as [->|Hne]; [by destruct (proj1 (Ht' t Hjt) _ Hp)|].
    rewrite Hj in Hjt by done. by apply (Hput j t).
  - intros j t Hjt Hp. destruct (decide (j = i)) as [->|Hne].
    + by destruct (proj1 (proj2 (Ht' t Hjt))).
    + rewrite Hj in Hjt by done. by apply (Hdrop j t).
  - intros j t Hjt Hp. rewrite Hgn. destruct (decide (j = i)) as [->|Hne].
    + by apply (proj2 (proj2 (Ht' t Hjt))).
    + rewrite Hj in Hjt by done. by apply (Hung j t).
  - intros f Hf. rewrite Hg. by apply (Hgate f).
Qed.

(** No call but [i] writes an agent whose gate [i] holds or has just taken. *)
Lemma alone s a i :
  sys_ok s -> sy_gates s !! a = Some (Some i) \/ sy_gates s !! a = Some None -> kept s a ->
  forall j t, sy_tasks s !! j = Some t -> j <> i ->
    (forall st, putting t <> Some (a, st)) /\ dropping t <> Some a /\ ungated t <> Some a.
Proof.
  intros Hok Hg Hk j t Hj Hne.
  assert (holds t <> Some a) as Hh.
  { intros Hh. assert (sy_gates s !! a = Some (Some j)) as Hg' by (apply (ok_held s Hok); eauto).
    destruct Hg; congruence. }
  split_and!.
  - intros st Hp. apply Hh. by destruct t; simplify_eq/=.
  - intros Hd. apply Hh. by destruct t as [| | | | |? []| |]; simplify_eq/=.
  - intros Hu. pose proof (k_ungated s a Hk j t Hj Hu). destruct Hg; congruence.
Qed.

(** The call [i] put the agent in memory, and in the store already or next. *)
Lemma kept_hold s s' a i f :
  sys_ok s -> kept s a -> sy_gates s !! a = Some (Some i) \/ sy_gates s !! a = Some None ->
  is_Some (sy_gates s' !! a) -> (forall j, j <> i -> sy_tasks s' !! j = sy_tasks s !! j) ->
  sy_agents s' !! a = Some f ->
  (sy_tasks s' !! i = None /\ stored_for a s' = Some (stored_of f) \/
   exists v, sy_tasks s' !! i = Some (InterceptPut a (stored_of f) v)) -> kept s' a.
Proof.
  intros Hok Hk Hg Hg' Hj Ha Hi. pose proof (alone s a i Hok Hg Hk) as Halone. constructor.
  - intros f' Hf. simplify_eq. destruct Hi as [[_ ?]|[v Hv]]; [by left|right]. by exists i, (InterceptPut a (stored_of f) v).
  - congruence.
  - intros j t st Hjt Hp. destruct (decide (j = i)) as [->|Hne].
    + destruct Hi as [[? _]|[v ?]]; simplify_eq. simpl in Hp. simplify_eq. eauto.
    + rewrite Hj in Hjt by done. by destruct (proj1 (Halone j t Hjt Hne) st).
  - intros j t Hjt Hp. destruct (decide (j = i)) as [->|Hne].
    + destruct Hi as [[? _]|[v ?]]; simplify_eq.
    + rewrite Hj in Hjt by done. by destruct (proj1 (proj2 (Halone j t Hjt Hne))).
  - intros j t Hjt Hp. destruct (decide (j = i)) as [->|Hne].
    + destruct Hi as [[? _]|[v ?]]; simplify_eq.
    + rewrite Hj in Hjt by done. by destruct (proj2 (proj2 (Halone j t Hjt Hne))).
  - done.
Qed.

(** The call [i] took the agent out of memory, and of the store already or next. *)
Lemma kept_drop s s' a i :
  sys_ok s -> kept s a -> sy_gates s !! a = Some (Some i) \/ sy_gates s !! a = Some None ->
  (forall j, j <> i -> sy_tasks s' !! j = sy_tasks s !! j) -> sy_agents s' !! a = None ->
  (sy_tasks s' !! i = None /\ sy_kv s' !! state_key a = None \/
   sy_tasks s' !! i = Some (DeactDelete a true)) -> kept s' a.
Proof.
  intros Hok Hk Hg Hj Ha Hi. pose proof (alone s a i Hok Hg Hk) as Halone. constructor; try congruence.
  - intros _. destruct Hi as [[_ ?]|Hi]; [by left|right; right]. by exists i, (DeactDelete a true).
  - intros j t st Hjt Hp. destruct (decide (j = i)) as [->|Hne].
    + destruct Hi as [[? _]|?]; simplify_eq.
    + rewrite Hj in Hjt by done. by destruct (proj1 (Halone j t Hjt Hne) st).
  - intros j t Hjt Hp. destruct (decide (j = i)) as [->|Hne].
    + destruct Hi as [[? _]|?]; simplify_eq.
    + rewrite Hj in Hjt by done. by destruct (proj2 (proj2 (Halone j t Hjt Hne))).
Qed.

Definition task_agent (t : Task) : string :=
  match t with
  | ActWait a _ | ActGet a _ | ActPut a _ | DeactWait a | DeactOpen a | DeactDelete a _
  | InterceptWait a _ _ _ | InterceptPut a _ _ => a
  end.

Lemma task_agents t :
  (forall a, holds t = Some a -> a = task_agent t) /\ (forall a, ungated t = Some a -> a = task_agent t) /\
  (forall a st, putting t = Some (a, st) -> a = task_agent t) /\
  (forall a, dropping t = Some a -> a = task_agent t) /\ (forall a, settling t = Some a -> a = task_agent t).
Proof. split_and!; intros; destruct t as [| | | | |? []| |]; simplify_eq/=; done. Qed.

(** A step of a call of another agent. *)
Lemma kept_other s s' a i t :
  sy_tasks s !! i = Some t -> task_agent t <> a ->
  sy_agents s' !! a = sy_agents s !! a -> sy_kv s' !! state_key a = sy_kv s !! state_key a ->
  sy_gates s' !! a = sy_gates s !! a -> (forall j, j <> i -> sy_tasks s' !! j = sy_tasks s !! j) ->
  (forall t', sy_tasks s' !! i = Some t' -> task_agent t' <> a) -> kept s a -> kept s' a.
Proof.
  intros Hi Hne Ha Hkv Hg Hj Hi' Hk.
  apply (kept_retask s s' a i); [done|done|by rewrite Hg|done| | |done].
  - intros t0 Ht0. assert (t0 = t) as -> by congruence. destruct (task_agents t) as (_ & _ & Hp & _ & Hs). split.
    + intros st Hst. apply Hp in Hst. congruence.
    + intros Hst. apply Hs in Hst. congruence.
  - intros t0 Ht0. specialize (Hi' t0 Ht0). destruct (task_agents t0) as (_ & Hu & Hp & Hd & _). split_and!.
    + intros st Hst. apply Hp in Hst. congruence.
    + intros Hst. apply Hd in Hst. congruence.
    + intros Hst. apply Hu in Hst. congruence.
Qed.

Lemma kept_core s s' a : core s' = core s -> kept s a -> kept s' a.
Proof.
  destruct s, s'. unfold core. simpl. intros [= -> -> -> -> -> ->] [??????]. by constructor.
Qed.

Lemma state_key_ne a b : a <> b -> state_key a <> state_key b.
Proof. intros Hne Heq. by apply app_inj_l_string in Heq. Qed.

(** Closes the premises of [kept_other] and the like: lookups after a step. *)
Ltac lookups :=
  repeat match goal with
  | |- forall _, _ => intro
  | H : <[_ := _]> _ !! _ = Some _ |- _ => rewrite lookup_insert_eq in H; simplify_eq/=
  | H : delete _ _ !! _ = Some _ |- _ => by rewrite lookup_delete_eq in H
  end;
  simpl;
  rewrite ?lookup_insert_ne, ?lookup_delete_ne, ?lookup_insert_eq, ?lookup_delete_eq by (done || by apply state_key_ne);
  try done.

Lemma end_kept i a b t x s :
  sy_tasks s !! i = Some t -> holds t = Some a -> b <> a -> kept s b -> kept (answer i x (drop_gate a s)) b.
Proof.
  intros Hi Hh Hne. assert (a = task_agent t) as -> by (by apply (proj1 (task_agents t))).
  apply (kept_other _ _ _ i t); simpl; lookups.
Qed.

Lemma hold_kept i a t c q s x b :
  sys_ok s -> sy_tasks s !! i = Some t -> holds t = Some a ->
  x !! state_key a ≫= from_slice = Some {| so_state := q; so_config := cm_hash c |} ->
  (forall b, b <> a -> x !! state_key b = sy_kv s !! state_key b) ->
  kept s b -> kept (hold i a c q (set_kv x s)) b.
Proof.
  intros Hok Hi Hh Hst Hx Hk. eapply kept_core; [apply hold_core|].
  assert (a = task_agent t) as Hat by (by apply (proj1 (task_agents t))).
  destruct (decide (b = a)) as [->|Hne].
  - apply (kept_hold s _ a i {| af_compiled := c; af_state := q |}); simpl; [done|done| |by lookups..|].
    + left. apply (ok_held s Hok). eauto.
    + left. split; [by lookups|done].
  - apply (kept_other s _ b i t); simpl; subst; lookups. by apply Hx.
Qed.

Lemma set_kv_id s : set_kv (sy_kv s) s = s.
Proof. by destruct s. Qed.

Lemma drop_kept i a s b :
  sys_ok s -> sy_tasks s !! i = Some (DeactWait a) -> sy_gates s !! a = Some None -> kept s b ->
  kept (move i (DeactDelete a true) (drop_agent a (take_gate i a s))) b.
Proof.
  intros Hok Hi Hg Hk.
  apply (kept_core (move i (DeactDelete a true)
    (set_gauge (without a (af_state <$> sy_agents s !! a) (sy_gauge s)) (set_agents (delete a (sy_agents s)) (take_gate i a s))))).
  { unfold drop_agent. simpl. by destruct (sy_agents s !! a). }
  destruct (decide (b = a)) as [->|Hne].
  - apply (kept_drop s _ a i); simpl; [done|done|by right|by lookups..|]. right. by lookups.
  - apply (kept_other s _ b i (DeactWait a)); simpl; lookups.
Qed.

Lemma open_kept i a s b :
  sy_tasks s !! i = Some (DeactOpen a) -> (forall b, kept s b) ->
  kept (move i (DeactDelete a false) (drop_agent a s)) b.
Proof.
  intros Hi Hk.
  assert (sy_gates s !! a = None) as Hg by (by apply (k_ungated s a (Hk a) i (DeactOpen a))).
  assert (sy_agents s !! a = None) as Ha.
  { destruct (sy_agents s !! a) eqn:Ha; [|done]. apply (k_gate s a (Hk a)) in Ha. rewrite Hg in Ha. by destruct Ha. }
  apply (kept_core (move i (DeactDelete a false) s)).
  { unfold drop_agent. simpl. rewrite Ha. unfold core. simpl. by rewrite (delete_id (sy_agents s)). }
  apply (kept_retask s _ b i); simpl; try done; lookups.
  - simplify_eq. split; [done|]. done.
  - split_and!; [done..|]. by intros [= <-].
Qed.

Lemma intercept_step_kept i a event so_far now s b :
  sys_ok s -> sy_tasks s !! i = Some (InterceptWait a event so_far now) -> sy_gates s !! a = Some None ->
  kept s b -> kept (intercept_step i a event so_far now (take_gate i a s)) b.
Proof.
  intros Hok Hi Hg Hk.
  assert (forall x, kept (answer i x (drop_gate a (take_gate i a s))) b) as Hpass.
  { intros x. apply (kept_retask s _ b i); simpl; try done; lookups.
    - destruct (decide (b = a)) as [->|Hne]; [by rewrite lookup_insert_eq, Hg|by rewrite !lookup_insert_ne].
    - simplify_eq. by split. }
  unfold intercept_step. cbn [sy_agents take_gate set_gates].
  destruct (sy_agents s !! a) as [f|] eqn:Hf; [|apply Hpass].
  set (st := step (af_compiled f) (af_state f) event so_far).
  set (s1 := track_sends a (sp_actions st) now (take_gate i a s)).
  assert (core s1 = core (take_gate i a s)) as Hcore by apply track_sends_core.
  destruct (sp_next st) as [to|] eqn:Hto.
  - set (f' := {| af_compiled := af_compiled f; af_state := to |}).
    set (v := {| iv_response := sp_response st; iv_actions := sp_actions st |}).
    apply (kept_core (set_gauge ({[(labels a, to)]} ∪ without a (Some (af_state f)) (sy_gauge s))
      (set_agents (<[a := f']> (sy_agents s)) (move i (InterceptPut a (stored_of f') v) (take_gate i a s))))).
    { by apply enter_core. }
    destruct (decide (b = a)) as [->|Hne].
    + apply (kept_hold s _ a i f'); simpl; [done|done|by right|by lookups..|].
      right. exists v. by lookups.
    + apply (kept_other s _ b i (InterceptWait a event so_far now)); simpl; lookups.
  - eapply (kept_core (answer i (Verdict {| iv_response := sp_response st; iv_actions := sp_actions st |})
      (drop_gate a (take_gate i a s)))); [|apply Hpass].
    by apply leave_core.
Qed.

Lemma store_ok agent stored s :
  store agent stored KvOk s = (Ok tt, set_kv (<[state_key agent := encode stored]> (sy_kv s)) s).
Proof. unfold store. by rewrite to_vec_ok. Qed.

Lemma run_task_kept i s b : sys_ok s -> (forall b, kept s b) -> kept (run_task i KvOk s) b.
Proof.
  intros Hok Hk. unfold run_task. destruct (sy_tasks s !! i) as [t|] eqn:Hi; [|done].
  destruct t as [g c|g c|g c|g|g|g []|g event so_far now|g st v].
  - destruct (sy_gates s !! g) as [[]|] eqn:Hg; try done.
    apply (kept_retask s _ b i); simpl; try done; lookups.
    + destruct (decide (b = g)) as [->|Hne]; [by rewrite lookup_insert_eq, Hg|by rewrite lookup_insert_ne].
    + simplify_eq. split; [done|]. intros [= ->]. exists i, (ActGet b c). split; [by lookups|done].
  - assert (kept (move i (ActPut g c) s) b) as Hput.
    { apply (kept_retask s _ b i); simpl; try done; lookups.
      simplify_eq. split; [done|]. intros [= ->]. exists i, (ActPut b c). split; [by lookups|done]. }
    simpl. destruct (sy_kv s !! state_key g ≫= from_slice) as [[q h]|] eqn:Hst; [|done].
    case_bool_decide as Hp; [|done]. simpl in Hp. destruct Hp as [-> _]. rewrite <- (set_kv_id s).
    by apply (hold_kept _ _ (ActGet g c)).
  - rewrite store_ok. apply (hold_kept _ _ (ActPut g c)); try done.
    + rewrite lookup_insert_eq. apply from_slice_encode.
    + intros b' Hb. by rewrite lookup_insert_ne by (by apply state_key_ne).
  - destruct (sy_gates s !! g) as [[]|] eqn:Hg; try done. by apply drop_kept.
  - by apply open_kept.
  - destruct (decide (b = g)) as [->|Hne].
    + apply (kept_drop s _ g i); simpl; [done|done| |by lookups| |left; split; by lookups].
      * left. apply (ok_held s Hok). eauto.
      * by apply (k_drop s g (Hk g) i (DeactDelete g true)).
    + apply (kept_other s _ b i (DeactDelete g true)); simpl; lookups.
  - assert (sy_gates s !! g = None) as Hg by (by apply (k_ungated s g (Hk g) i (DeactDelete g false))).
    destruct (decide (b = g)) as [->|Hne]; [|apply (kept_other s _ b i (DeactDelete g false)); simpl; lookups].
    assert (sy_agents s !! g = None) as Ha.
    { destruct (sy_agents s !! g) eqn:Ha; [|done]. apply (k_gate s g (Hk g)) in Ha. rewrite Hg in Ha. by destruct Ha. }
    assert (forall j u, delete i (sy_tasks s) !! j = Some u -> sy_tasks s !! j = Some u) as Hsub.
    { intros j u Hj. by apply lookup_delete_Some in Hj as [_ ?]. }
    constructor; simpl; try congruence.
    + by right; left.
    + intros j u st Hj Hp. apply (k_put s g (Hk g) j u); auto.
  - destruct (sy_gates s !! g) as [[]|] eqn:Hg; try done. by apply intercept_step_kept.
  - rewrite store_ok. destruct (k_put s g (Hk g) i (InterceptPut g st v) st Hi eq_refl) as (f & Hf & ->).
    destruct (decide (b = g)) as [->|Hne]; [|apply (kept_other s _ b i (InterceptPut g (stored_of f) v)); simpl; lookups].
    apply (kept_hold s _ g i f); simpl; [done|done| |by lookups..| |].
    + left. apply (ok_held s Hok). eauto.
    + done.
    + left. split; [by lookups|]. unfold stored_for. simpl. rewrite lookup_insert_eq. apply from_slice_encode.
Qed.

(** Every call to the store succeeds. *)
Definition reliable (e : Event) : Prop :=
  match e with ERun _ a => a = KvOk | _ => True end.

(** No agent is first activated while a [deactivate] of it that found no gate
    is under way. *)
Definition calm (s : System) (e : Event) : Prop :=
  match e with
  | EActivate agent _ => forall i t, sy_tasks s !! i = Some t -> ungated t <> Some agent
  | _ => True
  end.

Fixpoint calm_run (es : list Event) (s : System) : Prop :=
  match es with [] => True | e :: es => calm s e /\ calm_run es (sys_step s e) end.

Lemma fresh_task s : sys_ok s -> sy_tasks s !! sy_next s = None.
Proof.
  intros Hok. destruct (sy_tasks s !! sy_next s) as [t|] eqn:Ht; [|done].
  apply (ok_tasks s Hok) in Ht as [Hlt _]. lia.
Qed.

(** A call that begins: it is no writer yet. *)
Lemma spawn_kept t s b :
  sys_ok s -> (forall st, putting t <> Some (b, st)) -> dropping t <> Some b ->
  (ungated t = Some b -> sy_gates s !! b = None) -> kept s b -> kept (spawn t s) b.
Proof.
  intros Hok Hp Hd Hu. apply (kept_retask s _ b (sy_next s)); simpl; lookups.
  by rewrite fresh_task in *.
Qed.

Lemma activate_kept a config s b :
  sys_ok s -> calm s (EActivate a config) -> kept s b -> kept (activate a config s) b.
Proof.
  intros Hok Hcalm Hk. unfold activate. destruct (compile config) as [c|e] eqn:Hc.
  2: { destruct Hk. by constructor. }
  unfold make_gate. destruct (sy_gates s !! a) as [h|] eqn:Ha; [by apply spawn_kept|].
  destruct (decide (b = a)) as [->|Hne]; [|apply (kept_retask s _ b (sy_next s)); simpl; lookups; by rewrite fresh_task in *].
  assert (sy_agents s !! a = None) as Hn.
  { destruct (sy_agents s !! a) eqn:Hf; [|done]. apply (k_gate s a Hk) in Hf. rewrite Ha in Hf. by destruct Hf. }
  assert (forall t, holds t = Some a -> forall j, sy_tasks s !! j <> Some t) as Hnot.
  { intros t Ht j Hj. assert (sy_gates s !! a = Some (Some j)) by (apply (ok_held s Hok); eauto). congruence. }
  constructor; simpl; try congruence.
  - right; right. exists (sy_next s), (ActWait a c). split; [by lookups|done].
  - intros j u st Hj Hp. destruct (decide (j = sy_next s)) as [->|?]; lookups.
    rewrite lookup_insert_ne in Hj by done. apply (k_put s a Hk j u); auto.
  - intros j u Hj Hp. destruct (decide (j = sy_next s)) as [->|?]; lookups.
    rewrite lookup_insert_ne in Hj by done. by destruct (Hcalm j u Hj).
Qed.

Lemma sys_step_kept s e b :
  sys_ok s -> reliable e -> calm s e -> (forall b, kept s b) -> kept (sys_step s e) b.
Proof.
  intros Hok Hr Hc Hk. destruct e as [agent config|agent|event so_far now|i a|now accepted| |]; simpl in *.
  - by apply activate_kept.
  - unfold deactivate. destruct (sy_gates s !! agent) eqn:Hg; [by apply spawn_kept|].
    apply spawn_kept; try done. by intros [= <-].
  - unfold intercept.
    assert (sys_ok (nudger_on_event event now s)) as Hok' by (eapply sys_ok_core; [apply nudger_on_event_core|done]).
    assert (kept (nudger_on_event event now s) b) as Hk' by (eapply kept_core; [apply nudger_on_event_core|done]).
    destruct (sy_gates _ !! _); [by apply spawn_kept|]. destruct Hk'. by constructor.
  - rewrite Hr. by apply run_task_kept.
  - eapply kept_core; [apply tick_core|done].
  - destruct (Hk b). by constructor.
  - constructor; simpl; try done. by right; left.
Qed.

Lemma run_kept es s :
  sys_ok s -> Forall named es -> Forall reliable es -> calm_run es s -> (forall b, kept s b) ->
  forall b, kept (run es s) b.
Proof.
  intros Hok Hn Hr. revert s Hok. induction es as [|e es IH]; intros s Hok Hc Hk; [done|].
  apply Forall_cons in Hn as [??], Hr as [??]. destruct Hc as [??]. simpl. apply IH; try done.
  - by apply flow_step_ok.
  - intros b. by apply sys_step_kept.
Qed.

Lemma new_plugin_kept b : kept new_plugin b.
Proof. constructor; simpl; try done. by left. Qed.

(** No call of the agent is under way. *)
Definition settled (a : string) (s : System) : Prop :=
  forall i t, sy_tasks s !! i = Some t -> task_agent t <> a.

Lemma settled_no (P : Task -> Prop) a s :
  settled a s -> (forall t, P t -> task_agent t = a) -> ~ some_task s P.
Proof. intros Hs HP (i & t & Ht & Hp). by destruct (Hs i t Ht), (HP t Hp). Qed.

Lemma settled_stored a s :
  kept s a -> settled a s -> is_Some (sy_gates s !! a) ->
  stored_for a s = stored_of <$> sy_agents s !! a /\
  (sy_agents s !! a = None -> sy_kv s !! state_key a = None).
Proof.
  intros Hk Hs Hg.
  assert (sy_agents s !! a = None -> sy_kv s !! state_key a = None) as Hgone.
  { intros Hn. destruct (k_gone s a Hk Hn) as [?|[Hg'|Ht]]; [done|rewrite Hg' in Hg; by destruct Hg|].
    exfalso. revert Ht. apply (settled_no _ a); [done|]. intros t Ht. symmetry. by apply (task_agents t). }
  split; [|done]. destruct (sy_agents s !! a) as [f|] eqn:Hf.
  - destruct (k_held s a Hk f Hf) as [->|Ht]; [done|].
    exfalso. revert Ht. apply (settled_no _ a); [done|]. intros t Ht. symmetry.
    by apply (proj1 (proj2 (proj2 (task_agents t))) a (stored_of f)).
  - unfold stored_for. by rewrite Hgone.
Qed.


(** The two steps of an [activate] that resumes, or the three of one that starts
    at [initial], when nothing else runs. *)
Lemma activate_alone s a config c :
  compile config = Ok c -> sy_tasks s = ∅ -> sy_gates s !! a = None -> sy_agents s !! a = None ->
  let q := match stored_for a s with
           | Some p => if bool_decide (so_config p = cm_hash c /\ is_Some (cm_states c !! so_state p))
                       then so_state p else cm_initial c
           | None => cm_initial c
           end in
  let s' := run (EActivate a config :: replicate 3 (ERun (sy_next s) KvOk)) s in
  sy_agents s' !! a = Some {| af_compiled := c; af_state := q |} /\ sy_tasks s' = ∅.
Proof.
  intros Hc Ht Hg Ha q s'.
  set (s1 := set_gates (<[a := Some (sy_next s)]> (<[a := None]> (sy_gates s)))
               (set_tasks {[sy_next s := ActGet a c]} (spawn (ActWait a c) s))).
  assert (run_task (sy_next s) KvOk (activate a config s) = s1) as Hacq.
  { unfold activate. rewrite Hc. unfold make_gate. rewrite Hg. unfold run_task. simpl.
    rewrite lookup_insert_eq. simpl. rewrite lookup_insert_eq.
    unfold move, take_gate, s1, set_gates, set_tasks, spawn. simpl.
    by rewrite Ht, (insert_insert_eq (∅ : gmap nat Task)), insert_empty. }
  assert (forall s0, sy_tasks s0 = ∅ -> run_task (sy_next s) KvOk s0 = s0) as Hidle.
  { intros s0 Hs0. unfold run_task. by rewrite Hs0, lookup_empty. }
  assert (forall st x t, sy_tasks (hold (sy_next s) a c st (set_kv x (set_tasks {[sy_next s := t]} s1))) = ∅ /\
            sy_agents (hold (sy_next s) a c st (set_kv x (set_tasks {[sy_next s := t]} s1))) !! a
              = Some {| af_compiled := c; af_state := st |}) as Hhold.
  { intros st x t. unfold hold, s1. simpl. rewrite Ha. simpl. rewrite delete_singleton_eq. split; [done|].
    by rewrite lookup_insert_eq. }
  assert (run_task (sy_next s) KvOk s1 =
          match stored_for a s with
          | Some p => if bool_decide (so_config p = cm_hash c /\ is_Some (cm_states c !! so_state p))
                      then hold (sy_next s) a c (so_state p) s1
                      else set_tasks {[sy_next s := ActPut a c]} s1
          | None => set_tasks {[sy_next s := ActPut a c]} s1
          end) as Hget.
  { unfold run_task, s1. simpl. rewrite lookup_singleton_eq. simpl. unfold stored_for.
    destruct (sy_kv s !! state_key a ≫= from_slice) as [p|]; [case_bool_decide; [done|]|];
      unfold move, set_tasks, set_gates; simpl; by rewrite insert_singleton_eq. }
  assert (forall s0, s0 = set_tasks {[sy_next s := ActPut a c]} s1 ->
            sy_agents (run_task (sy_next s) KvOk s0) !! a = Some {| af_compiled := c; af_state := cm_initial c |} /\
            sy_tasks (run_task (sy_next s) KvOk s0) = ∅) as Hput.
  { intros s0 ->. unfold run_task. simpl. rewrite lookup_singleton_eq, store_ok. split; apply Hhold. }
  unfold s'. cbn [run foldl sys_step replicate]. rewrite Hacq, Hget. unfold q.
  destruct (stored_for a s) as [p|]; [case_bool_decide|]; [|by apply Hput..].
  specialize (Hhold (so_state p) (sy_kv s1) (ActGet a c)).
  assert (set_kv (sy_kv s1) (set_tasks {[sy_next s := ActGet a c]} s1) = s1) as Heq by done.
  rewrite Heq in Hhold. rewrite Hidle by apply Hhold. split; apply Hhold.
Qed.

(** C23: A restarted plugin resumes. Take any run of the plugin, whatever the
    store answered; restart the plugin and activate an agent, with nothing else
    under way and its calls to the store answered: it is in the state the store
    holds for it when that was stored for the same config (its digest) and is
    declared, and at [initial] otherwise. So, when no call to the store had
    failed, no agent had been first activated during a [deactivate] of it that
    found no gate, and no call of the agent was under way, an agent that was in
    some state is back in it with the same config, and at [initial] with
    another. *)
Theorem restart_resumes (es : list Event) (a : string) (config : Value) (c : Compiled)
    (Hnamed : Forall named es) (Hc : compile config = Ok c) :
  let s0 := run es new_plugin in
  let s := run ([ERestart; EActivate a config] ++ replicate 3 (ERun (sy_next s0) KvOk)) s0 in
  let resumed q hash := if bool_decide (hash = cm_hash c /\ is_Some (cm_states c !! q)) then q else cm_initial c in
  sy_tasks s = ∅ /\
  sy_agents s !! a =
    Some {| af_compiled := c;
            af_state := match stored_for a s0 with Some p => resumed (so_state p) (so_config p) | None => cm_initial c end |} /\
  (Forall reliable es -> calm_run es new_plugin -> settled a s0 -> forall f, sy_agents s0 !! a = Some f ->
   sy_agents s !! a = Some {| af_compiled := c; af_state := resumed (af_state f) (cm_hash (af_compiled f)) |} /\
   (c = af_compiled f -> sy_agents s !! a = Some f)).
Proof.
  intros s0 s resumed.
  destruct (activate_alone (sys_step s0 ERestart) a config c Hc eq_refl (lookup_empty a) (lookup_empty a)) as [Ha Ht].
  change (stored_for a (sys_step _ ERestart)) with (stored_for a s0) in Ha.
  change (run (EActivate a config :: _) _) with s in Ha, Ht.
  split; [exact Ht|]. split; [exact Ha|]. intros Hreliable Hcalm Hsettled f Hheld.
  pose proof (run_kept es _ new_plugin_ok Hnamed Hreliable Hcalm new_plugin_kept a) as Hk.
  destruct (settled_stored a _ Hk Hsettled (k_gate _ _ Hk f Hheld)) as [Hst _]. fold s0 in Hst. rewrite Hheld in Hst.
  rewrite Hst in Ha. cbn [fmap option_fmap option_map stored_of so_config so_state] in Ha.
  split; [exact Ha|]. intros ->. rewrite Ha.
  destruct (ok_flows _ (run_ok es _ Hnamed new_plugin_ok) a f Hheld) as (_ & Hq & _). unfold stored_of. cbn [so_config so_state].
  rewrite bool_decide_eq_true_2 by done. by destruct f.
Qed.

(** The first rule of the state whose event and every [match] entry hold
    fires, and no other: its [respond] keys replace those of the verdict so far,
    [send] comes before [action], and its [goto] is a declared state of the
    compiled block. No rule: the verdict passes through untouched. *)
Theorem step_fires_first (config : Value) (c : Compiled) (q : string) (event : HookEvent) (so_far : Value)
    (Hc : compile config = Ok c) :
  let s := step c q event so_far in
  let rules := default [] (cm_states c !! q) in
  match sp_fired s with
  | None =>
      (forall r, r ∈ rules -> rule_matches event r = false) /\
      sp_response s = so_far /\ sp_actions s = [] /\ sp_next s = None
  | Some i => exists r,
      rules !! i = Some r /\ rule_matches event r = true /\
      (forall j r', j < i -> rules !! j = Some r' -> rule_matches event r' = false) /\
      (forall k, get (sp_response s) k =
         match cr_respond r !! k with Some v => Some v | None => get so_far k end) /\
      sp_actions s = rule_actions r /\ sp_next s = cr_goto r /\
      (forall g, cr_goto r = Some g -> is_Some (cm_states c !! g))
  end.
Proof.
  intros s rules. pose proof (step_declared c q event so_far) as Hgoto.
  pose proof (compile_closed _ _ Hc) as Hcl. unfold s, step, rules in *.
  destruct (cm_states c !! q) as [rs|]; cbn [default mbind option_bind id] in *.
  2: { simpl. split_and!; try done. intros r Hr. by apply not_elem_of_nil in Hr. }
  destruct (list_find _ rs) as [[i r]|] eqn:Hf; simpl in *.
  - apply list_find_Some in Hf as (Hr & Hm & Hbefore). exists r. split_and!; try done.
    + intros j r' Hj Hr'. specialize (Hbefore j r' Hr' Hj). by destruct (rule_matches event r').
    + intros k. unfold get. simpl. rewrite lookup_union. destruct (cr_respond r !! k) as [v|] eqn:Hk.
      * by apply union_Some_l.
      * destruct so_far as [| | | | |m]; simpl; rewrite ?lookup_empty; try done. by destruct (m !! k).
    + intros g Hg. by apply Hgoto.
  - apply list_find_None in Hf. rewrite Forall_forall in Hf. split_and!; try done.
    intros r Hr. specialize (Hf r Hr). by destruct (rule_matches event r).
Qed.
End flow.

(** ** A sample *)

(** Every byte of the state after a mark, then the digest. *)
Fixpoint sample_encode (state config : string) : string :=
  match state with
  | EmptyString => String "."%char config
  | String c r => String "-"%char (String c (sample_encode r config))
  end.
Fixpoint sample_decode (s : string) : option Stored :=
  match s with
  | String m r =>
      if Ascii.eqb m "."%char then Some {| so_state := EmptyString; so_config := r |}
      else match r with
           | String c r => st ← sample_decode r; Some {| so_state := String c (so_state st); so_config := so_config st |}
           | EmptyString => None
           end
  | EmptyString => None
  end.

Definition sample_rule (event : string) (goto : option string) (respond : option (gmap string Value)) : Rule :=
  {| rl_event := event; rl_matches := {["/tool_name" := "Bash"]}; rl_goto := goto; rl_respond := respond;
     rl_send := Some {| sd_text := "/help"; sd_submit := true |}; rl_action := Some RRestart |}.

Definition sample_block : FlowConfig := {|
  fc_initial := "working";
  fc_states := {[ "working" := {| sc_on := [sample_rule "Stop" (Some "review") (Some {["n" := VBool true]})] |};
                  "review" := {| sc_on := [] |} ]};
|}.

#[local] Instance sample_flow_unicode : Unicode := fun _ => false.
#[local] Instance sample_flow : FlowDeps := {|
  deserialize := fun _ => Ok sample_block;
  Regex := string;
  regex_build := fun p _ => Ok p;
  is_match := fun re s => bool_decide (re = "^(?:" +:+ s +:+ ")$");
  pointer_at := fun v p => k ← strip_prefix "/" p; get v k;
  json_text := fun _ => "text";
  sha256_hex := fun s => s;
  to_vec := fun st => Ok (sample_encode (so_state st) (so_config st));
  from_slice := sample_decode;
|}.

#[local] Instance sample_codec : StoredCodec.
Proof.
  refine {| encode := fun st => sample_encode (so_state st) (so_config st) |}; [done|].
  intros [q h]. simpl. induction q as [|x q IH]; [done|]. simpl in *. by rewrite IH.
Defined.

Definition stop_event : HookEvent :=
  {| he_agent := "f/c/a"; he_name := "Stop"; he_session_id := None; he_received_at := 0;
     he_payload := VObject {["tool_name" := VString "Bash"]} |}.

Definition sample_calls : list Event :=
  [EActivate "f/c/a" Null; ERun 0 KvOk; ERun 0 KvOk; ERun 0 KvOk;
   EIntercept stop_event Null 1; EDeactivate "f/c/b"; ERun 1 KvOk; ERun 1 KvOk].

Lemma sample_named : Forall named sample_calls.
Proof. repeat constructor. Qed.
Lemma sample_reliable : Forall reliable sample_calls.
Proof. repeat constructor. Qed.
Lemma sample_calm : calm_run sample_calls new_plugin.
Proof. simpl. split_and!; try done. Qed.

Lemma sample_settled : settled "f/c/a" (run sample_calls new_plugin).
Proof.
  intros i t Ht. assert (sy_tasks (run sample_calls new_plugin) = {[ 2 := DeactOpen "f/c/b" ]}) as Heq
    by (vm_compute; reflexivity).
  rewrite Heq in Ht. apply lookup_singleton_Some in Ht as [_ <-]. done.
Qed.


(** A [deactivate] of an agent never held finds no gate and waits for nothing:
    it deletes what an [activate] that overtook it has stored. *)
Example open_deactivate_deletes :
  let s := run [EDeactivate "f/c/a"; EActivate "f/c/a" Null; ERun 0 KvOk; ERun 1 KvOk; ERun 1 KvOk; ERun 1 KvOk;
                ERun 0 KvOk] new_plugin in
  af_state <$> sy_agents s !! "f/c/a" = Some "working" /\ sy_kv s !! state_key "f/c/a" = None /\ sy_tasks s = ∅.
Proof. vm_compute. done. Qed.

Definition sample_compiled : Compiled :=
  match compile Null with Ok c => c | Err _ => {| cm_initial := EmptyString; cm_states := ∅; cm_hash := EmptyString |} end.

Lemma sample_compiles : compile Null = Ok sample_compiled.
Proof.
  unfold sample_compiled. assert (is_ok (compile Null) = true) as Hok by (vm_compute; reflexivity).
  by destruct (compile Null).
Qed.

Lemma sample_held : exists f, sy_agents (run sample_calls new_plugin) !! "f/c/a" = Some f.
Proof.
  assert (af_state <$> sy_agents (run sample_calls new_plugin) !! "f/c/a" = Some "review") as Hs
    by (vm_compute; reflexivity).
  destruct (sy_agents _ !! _); [eauto|done].
Qed.

Lemma restart_resumes_witness :
  let s0 := run sample_calls new_plugin in
  let s := run ([ERestart; EActivate "f/c/a" Null] ++ replicate 3 (ERun (sy_next s0) KvOk)) s0 in
  af_state <$> sy_agents s !! "f/c/a" = Some "review" /\ sy_tasks s = ∅ /\
  sy_agents s !! "f/c/a" =
    Some {| af_compiled := sample_compiled;
            af_state := match stored_for "f/c/a" s0 with
                        | Some p => if bool_decide (so_config p = cm_hash sample_compiled /\ is_Some (cm_states sample_compiled !! so_state p))
                                    then so_state p else cm_initial sample_compiled
                        | None => cm_initial sample_compiled
                        end |}.
Proof.
  intros s0 s. split; [vm_compute; reflexivity|].
  destruct (restart_resumes sample_calls "f/c/a" Null sample_compiled sample_named sample_compiles) as (Ht & Ha & _).
  split; [exact Ht|exact Ha].
Defined.

Lemma step_fires_first_witness :
  sp_next (step sample_compiled "working" stop_event (VString "x")) = Some "review" /\
  exists r, default [] (cm_states sample_compiled !! "working") !! 0 = Some r /\
    sp_next (step sample_compiled "working" stop_event (VString "x")) = cr_goto r.
Proof.
  split; [vm_compute; reflexivity|].
  pose proof (step_fires_first Null sample_compiled "working" stop_event (VString "x") sample_compiles) as Hs.
  assert (sp_fired (step sample_compiled "working" stop_event (VString "x")) = Some 0) as Hf
    by (vm_compute; reflexivity).
  cbv zeta in Hs. rewrite Hf in Hs. destruct Hs as (r & Hr & _ & _ & _ & _ & Hn & _). exists r. exact (conj Hr Hn).
Defined.
