(* ===== verification/Question.v ===== *)
(** The questions an agent asks ([plugins/common/src/question.rs]): reading the
    dialog of an [AskUserQuestion] call, matching a thread reply to its options,
    and the keystrokes that answer it. Case folding and the letters of Unicode
    are a parameter. *)

From S2P Require Import Prelude Str BTree Rules Json Text.

(** The tables of [char] and [str]: [str::to_lowercase], [char::is_alphanumeric]. *)
Class Letters := {
  to_lowercase : string -> string;
  is_alphanumeric : string -> bool;
}.

(** Their values on ASCII text. *)
Class AsciiLetters `{Letters} := {
  lowercase_ascii s : bytes_all (fun c => (N_of_ascii c <? 128)%N) s = true ->
    to_lowercase s = to_ascii_lowercase s;
  alphanumeric_ascii c : (N_of_ascii c < 128)%N ->
    is_alphanumeric (String c EmptyString) = is_ascii_alphanumeric c;
}.

Definition TOOL : string := "AskUserQuestion".

Record Opt := { op_label : string; op_description : string }.

Record Question := {
  qu_text : string;
  qu_header : string;
  qu_multi_select : bool;
  qu_options : list Opt;
}.

Definition question_name (q : Question) : string :=
  if is_empty (qu_header q) then qu_text q else qu_header q.

Record Selection := { se_options : list nat; se_other : option string }.

Inductive Matched :=
| Answers (selections : list Selection) (exact : bool)
| Skip.

(** [Refusal]: the markdown for the thread. *)
Definition Refusal := string.

(** ** Reading the call *)

Definition text_of (v : Value) (key : string) : string :=
  trim (default EmptyString (x ← get v key; as_str x)).

Definition parse_option (o : Value) : option Opt :=
  l ← get o "label"; s ← as_str l;
  let label := trim s in
  if is_empty label then None else Some {| op_label := label; op_description := text_of o "description" |}.

Definition parse_question (q : Value) : option Question :=
  v ← get q "options"; l ← as_array v;
  options ← mapM parse_option l;
  match options with
  | [] => None
  | _ =>
      t ← get q "question"; text ← as_str t;
      Some {| qu_text := text; qu_header := text_of q "header";
              qu_multi_select := default false (m ← get q "multiSelect"; as_bool m);
              qu_options := options |}
  end.

Definition parse (tool_input : Value) : option (list Question) :=
  v ← get tool_input "questions"; l ← as_array v;
  questions ← mapM parse_question l;
  match questions with [] => None | _ => Some questions end.

(** ** Matching a reply *)

Section matching.
Context `{Letters}.

Definition blank : string := " ".

Definition normalise (s : string) : string :=
  join blank (split_whitespace
    (concat ((fun c => if is_alphanumeric c then c else blank) <$> chars (to_lowercase s)))).

Definition numbered (i : nat) (label : string) : string := pretty (S i) +:+ ". " +:+ label.

Definition options_list (q : Question) : string :=
  join ", " (imap (fun i o => numbered i (op_label o)) (qu_options q)).

Definition labelled_skip (questions : list Question) : bool :=
  match questions with
  | [q] => existsb (fun o => bool_decide (normalise (op_label o) = "skip")) (qu_options q)
  | _ => false
  end.

(** [parts[i].replace(rest)] for every pair. *)
Fixpoint place (questions : list Question) (pairs : list (nat * string)) (parts : list (option string))
    : result Refusal (list (option string)) :=
  match pairs with
  | [] => Ok parts
  | (i, rest) :: pairs =>
      match parts !! i with
      | Some (Some _) =>
          Err ("**" +:+ default EmptyString (question_name <$> questions !! i) +:+ "** is answered twice.")
      | _ => place questions pairs (<[i := Some rest]> parts)
      end
  end.

(** A [header: answer] line: the question it names, and the answer. *)
Definition header_line (questions : list Question) (line : string) : option (nat * string) :=
  '(head, rest) ← split_once ":"%char line;
  let head := normalise head in
  '(i, _) ← list_find (fun q => qu_header q <> EmptyString /\ normalise (qu_header q) = head) questions;
  Some (i, trim rest).

Definition split (questions : list Question) (reply : string) : result Refusal (list string) :=
  if length questions =? 1 then Ok [reply]
  else
    let lines := filter (fun l => l <> EmptyString) (trim <$> lines reply) in
    match mapM (header_line questions) lines with
    | Some ((_ :: _ :: _) as pairs) =>
        parts ← place questions pairs (replicate (length questions) None);
        try_map (fun '(i, p) =>
          ok_or p ("no answer for **" +:+ default EmptyString (question_name <$> questions !! i) +:+ "**."))
          (imap (fun (i : nat) p => (i, p)) parts)
    | _ =>
        let n := pretty (length questions) in
        if length lines =? length questions then Ok lines
        else Err (n +:+ " questions need " +:+ n +:+ " lines, one answer per line in order; got "
                  +:+ pretty (length lines) +:+ ".")
    end.

(** [&s[..n]] and [&s[n..]] by bytes, and [find]. *)
Fixpoint str_take (n : nat) (s : string) : string :=
  match n, s with S n, String c r => String c (str_take n r) | _, _ => EmptyString end.
Fixpoint str_drop (n : nat) (s : string) : string :=
  match n, s with S n, String _ r => str_drop n r | _, _ => s end.
Fixpoint find (pat s : string) : option nat :=
  if starts_with s pat then Some 0
  else match s with EmptyString => None | String _ r => S <$> find pat r end.

Definition MARK : string := "other:".

Fixpoint other_from (fuel : nat) (part lower : string) (from : nat) : option (string * string) :=
  match fuel with
  | 0 => None
  | S fuel =>
      found ← find MARK (str_drop from lower);
      let at_ := from + found in
      let before := trim_end (str_take at_ part) in
      if is_empty before || ends_with before "," then
        Some (trim_end (trim_end_byte ","%char before), trim (str_drop (at_ + String.length MARK) part))
      else other_from fuel part lower (at_ + String.length MARK)
  end.

(** Each round starts behind the mark it passed, so a round per byte is enough. *)
Definition split_other (part : string) : string * option string :=
  match other_from (S (String.length part)) part (to_ascii_lowercase part) 0 with
  | Some (listed, text) => (listed, Some text)
  | None => (part, None)
  end.

Definition check_other (q : Question) (text : string) : result Refusal string :=
  if is_empty text then Err ("`other:` needs some text for **" +:+ question_name q +:+ "**.")
  else if existsb char_is_control (chars text) then
    Err ("`other:` for **" +:+ question_name q +:+ "** must be one line.")
  else
    let text := prompt_text text in
    if is_empty text then Err ("`other:` needs some text for **" +:+ question_name q +:+ "**.")
    else if MAX_KEY_TEXT <? String.length text then
      Err ("`other:` for **" +:+ question_name q +:+ "** is limited to " +:+ pretty (N.of_nat MAX_KEY_TEXT) +:+ " bytes.")
    else Ok text.

(** [trim_end_matches] of a set of bytes. *)
Fixpoint trim_end_among (set s : string) : string :=
  match s with
  | EmptyString => EmptyString
  | String a s' =>
      match trim_end_among set s' with
      | EmptyString => if byte_among set a then EmptyString else String a EmptyString
      | t => String a t
      end
  end.

(** [str::parse::<usize>] of ASCII digits, on 64 bits. *)
Fixpoint digits_value (acc : N) (s : string) : N :=
  match s with
  | EmptyString => acc
  | String c s => digits_value (acc * 10 + (N_of_ascii c - 48)) s
  end.
Definition parse_usize (s : string) : option N :=
  let n := digits_value 0 s in if (n <=? u64_max)%N then Some n else None.

Definition label_of (q : Question) (i : nat) : string := default EmptyString (op_label <$> qu_options q !! i).

Definition candidates (q : Question) (item : string) (hits : list nat) : Refusal :=
  quote +:+ trim item +:+ quote +:+ " could be " +:+ join " or " ((fun i => numbered i (label_of q i)) <$> hits)
  +:+ " in **" +:+ question_name q +:+ "**. Reply with the number.".

(** The closure [unique]. *)
Definition unique (q : Question) (item : string) (hits : list nat) : option (result Refusal (nat * bool)) :=
  match hits with
  | [] => None
  | [i] => Some (Ok (i, false))
  | many => Some (Err (candidates q item many))
  end.

Definition hits (q : Question) (p : string -> bool) : list nat :=
  filter (fun i => p (label_of q i) = true) (seq 0 (length (qu_options q))).

(** The last two rungs, and what is said when none holds. *)
Definition match_loose (q : Question) (item digits : string) (numeric : bool) : result Refusal (nat * bool) :=
  let want := normalise item in
  match unique q item (hits q (fun l => starts_with (normalise l) want)) with
  | Some r => r
  | None =>
      let words := split_char " "%char want in
      match unique q item (hits q (fun l =>
              forallb (fun w => existsb (String.eqb w) (split_char " "%char (normalise l))) words)) with
      | Some r => r
      | None =>
          Err (if numeric then
                 "**" +:+ question_name q +:+ "** has no option " +:+ digits +:+ ". Options: " +:+ options_list q
               else
                 quote +:+ trim item +:+ quote +:+ " matches nothing in **" +:+ question_name q +:+ "**. Options: "
                 +:+ options_list q)
      end
  end.

Definition match_label (q : Question) (item digits : string) (numeric : bool) : result Refusal (nat * bool) :=
  let want := normalise item in
  if is_empty want then
    Err ("no answer given for **" +:+ question_name q +:+ "**. Options: " +:+ options_list q)
  else
    match hits q (fun l => bool_decide (normalise l = want)) with
    | [] => match_loose q item digits numeric
    | [i] => Ok (i, true)
    | many =>
        match filter (fun i => to_lowercase (trim (label_of q i)) = to_lowercase (trim item)) many with
        | [i] => Ok (i, true)
        | _ => Err (candidates q item many)
        end
    end.

(** The row a number counts to. *)
Definition number_row (q : Question) (digits : string) : option nat :=
  n ← parse_usize digits;
  if ((1 <=? n) && (n <=? N.of_nat (length (qu_options q))))%N then Some (N.to_nat n - 1) else None.

Definition match_item (q : Question) (item : string) : result Refusal (nat * bool) :=
  let digits := trim_end_among ".):" (trim item) in
  let numeric := negb (is_empty digits) && bytes_all is_ascii_digit digits in
  match (if numeric then number_row q digits else None) with
  | Some i =>
      let shadowed := existsb (fun j => negb (j =? i) && bool_decide (normalise (label_of q j) = digits))
                        (seq 0 (length (qu_options q))) in
      Ok (i, negb shadowed)
  | None => match_label q item digits numeric
  end.

(** The loop over the items: [options] is a [BTreeSet]. *)
Fixpoint match_items (q : Question) (items : list string) (exact : bool) (options : gset nat)
    : result Refusal (bool * gset nat) :=
  match items with
  | [] => Ok (exact, options)
  | item :: items =>
      '(i, e) ← match_item q item;
      if bool_decide (i ∈ options) then
        Err ("**" +:+ question_name q +:+ "** names " +:+ label_of q i +:+ " twice.")
      else match_items q items (exact && e) ({[i]} ∪ options)
  end.

Definition answer_items (q : Question) (listed : string) : list string :=
  if qu_multi_select q then filter (fun i => i <> EmptyString) (trim <$> split_char ","%char listed)
  else if is_empty (trim listed) then [] else [trim listed].

Definition match_answer (q : Question) (part : string) : result Refusal (Selection * bool) :=
  let '(listed, other) := split_other part in
  other ← match other with Some text => Some <$> check_other q text | None => Ok None end;
  '(exact, set) ← match_items q (answer_items q listed) (bool_decide (other = None)) ∅;
  let options := merge_sort le (elements set) in
  let chosen := length options + match other with Some _ => 1 | None => 0 end in
  if chosen =? 0 then
    Err ("no answer given for **" +:+ question_name q +:+ "**. Options: " +:+ options_list q)
  else if negb (qu_multi_select q) && (1 <? chosen) then
    Err ("**" +:+ question_name q +:+ "** takes one answer: an option or `other:`, not both.")
  else Ok ({| se_options := options; se_other := other |}, exact).

Fixpoint match_parts (questions : list Question) (parts : list string) (exact : bool)
    : result Refusal (list Selection * bool) :=
  match questions, parts with
  | q :: questions, part :: parts =>
      '(selection, e) ← match_answer q part;
      '(selections, exact) ← match_parts questions parts (exact && e);
      Ok (selection :: selections, exact)
  | _, _ => Ok ([], exact)
  end.

Definition match_reply (questions : list Question) (reply : string) : result Refusal Matched :=
  let reply := trim reply in
  if eq_ignore_ascii_case reply "skip!" then Ok Skip
  else
    let is_skip := eq_ignore_ascii_case reply "skip" in
    let labelled := is_skip && labelled_skip questions in
    if is_skip && negb labelled then Ok Skip
    else
      parts ← split questions reply;
      '(selections, exact) ← match_parts questions parts (negb labelled);
      Ok (Answers selections exact).
End matching.

(** ** The keystrokes *)

Definition downs (count : nat) : list KeyStep := replicate count (StepKey Down).

(** The loop over the ticked options, from [row]; [usize] subtraction panics
    below zero, and so does an index out of range: [None]. *)
Fixpoint plan_ticks (row : nat) (options : list nat) : option (nat * list KeyStep) :=
  match options with
  | [] => Some (row, [])
  | o :: options =>
      if o <? row then None
      else '(last, steps) ← plan_ticks o options; Some (last, downs (o - row) ++ StepKey Enter :: steps)
  end.

Definition plan_question (q : Question) (s : Selection) : option (list KeyStep) :=
  let n := length (qu_options q) in
  if qu_multi_select q then
    '(row, ticks) ← plan_ticks 0 (se_options s);
    match se_other s with
    | Some text =>
        if n <? row then None
        else Some (ticks ++ downs (n - row) ++ StepText text :: downs 1 ++ [StepKey Enter])
    | None => if n + 1 <? row then None else Some (ticks ++ downs (n + 1 - row) ++ [StepKey Enter])
    end
  else
    match se_other s with
    | Some text => Some (downs n ++ [StepText text; StepKey Enter])
    | None => o ← head (se_options s); Some (downs o ++ [StepKey Enter])
    end.

Fixpoint plan_all (questions : list Question) (selections : list Selection) : option (list KeyStep) :=
  match questions, selections with
  | q :: questions, s :: selections =>
      steps ← plan_question q s; rest ← plan_all questions selections; Some (steps ++ rest)
  | _, _ => Some []
  end.

Definition lone_single (questions : list Question) : bool :=
  match questions with [q] => negb (qu_multi_select q) | _ => false end.

Definition plan (questions : list Question) (selections : list Selection) : option (list KeyStep) :=
  steps ← plan_all questions selections;
  Some (steps ++ if lone_single questions then [] else [StepKey Enter]).

Definition skip_plan : list KeyStep := [StepKey Escape].

(** ** The lines of the thread *)

Definition answer_text (q : Question) (s : Selection) : option string :=
  labels ← mapM (fun i => op_label <$> qu_options q !! i) (se_options s);
  Some (join ", " (labels ++ option_list (se_other s))).

Definition arrow : string := String (ascii_of_N 226) (String (ascii_of_N 134) (String (ascii_of_N 146) EmptyString)).
Definition dot : string := String (ascii_of_N 194) (String (ascii_of_N 183) EmptyString).

Fixpoint describe_each (questions : list Question) (selections : list Selection) : option (list string) :=
  match questions, selections with
  | q :: questions, s :: selections =>
      text ← answer_text q s; rest ← describe_each questions selections;
      Some ((question_name q +:+ " " +:+ arrow +:+ " " +:+ text) :: rest)
  | _, _ => Some []
  end.

Definition describe (questions : list Question) (selections : list Selection) : option string :=
  join (" " +:+ dot +:+ " ") <$> describe_each questions selections.

Definition recorded_answer (answers : Value) (q : Question) : option string :=
  v ← get answers (qu_text q); as_str v.

Definition describe_recorded (questions : list Question) (answers : Value) : string :=
  join (" " +:+ dot +:+ " ")
    ((fun q => question_name q +:+ " " +:+ arrow +:+ " " +:+ default "(nothing)" (recorded_answer answers q)) <$> questions).

(** [split] at a text. *)
Fixpoint split_str (fuel : nat) (pat s : string) : list string :=
  match fuel with
  | 0 => [s]
  | S fuel =>
      match find pat s with
      | Some i => str_take i s :: split_str fuel pat (str_drop (i + String.length pat) s)
      | None => [s]
      end
  end.

Definition answer_set (text : string) : gset string :=
  list_to_set (trim <$> split_str (S (String.length text)) ", " text).

Fixpoint recorded_matches (questions : list Question) (selections : list Selection) (answers : Value) : option bool :=
  match questions, selections with
  | q :: questions, s :: selections =>
      match recorded_answer answers q with
      | None => Some false
      | Some got =>
          want ← answer_text q s;
          if bool_decide (trim got = want) || (qu_multi_select q && bool_decide (answer_set got = answer_set want))
          then recorded_matches questions selections answers else Some false
      end
  | _, _ => Some true
  end.

(** ** What a match is *)

Section matched.
Context `{Letters}.

(** What may be typed as free text: the prompt text of one line, short enough. *)
Definition other_ok (text : string) : Prop :=
  text <> EmptyString /\ String.length text <= MAX_KEY_TEXT /\
  exists raw, text = prompt_text raw /\ Forall (fun c => char_is_control c = false) (chars raw).

(** The invariant [Selection]'s comment states. *)
Record selection_ok (q : Question) (s : Selection) : Prop := {
  so_sorted : StronglySorted lt (se_options s);
  so_range : Forall (fun i => i < length (qu_options q)) (se_options s);
  so_some : se_options s <> [] \/ se_other s <> None;
  so_single : qu_multi_select q = false -> length (se_options s) + length (option_list (se_other s)) = 1;
  so_other : forall text, se_other s = Some text -> other_ok text;
}.

Lemma find_bound pat s i : find pat s = Some i -> i + String.length pat <= String.length s.
Proof.
  revert i. induction s as [|c s IH]; intros i; simpl.
  - destruct (starts_with EmptyString pat) eqn:Hp; [|done]. intros [= <-].
    apply starts_with_spec in Hp as [r Hr]. destruct pat; [done|discriminate Hr].
  - destruct (starts_with (String c s) pat) eqn:Hp.
    + intros [= <-]. apply starts_with_spec in Hp as [r Hr]. apply (f_equal String.length) in Hr.
      rewrite length_app_string in Hr. simpl in Hr. lia.
    + destruct (find pat s) as [k|]; [|done]. intros [= <-]. specialize (IH k eq_refl). lia.
Qed.

Lemma length_str_drop n s : String.length (str_drop n s) = String.length s - n.
Proof. revert s. induction n as [|n IH]; intros [|c s]; simpl; try done. Qed.

(** The rounds of [split_other] are enough: more change nothing. *)
Lemma other_from_fuel f1 f2 part lower from :
  String.length lower - from < f1 -> String.length lower - from < f2 ->
  other_from f1 part lower from = other_from f2 part lower from.
Proof.
  revert f2 from. induction f1 as [|f1 IH]; intros [|f2] from Hf1 Hf2; try lia. simpl.
  destruct (find MARK (str_drop from lower)) as [k|] eqn:Hk; [|done]. simpl.
  case_match; [done|]. apply find_bound in Hk. rewrite length_str_drop in Hk. simpl in Hk. apply IH; simpl; lia.
Qed.

Lemma elem_of_hits q p i : i ∈ hits q p <-> i < length (qu_options q) /\ p (label_of q i) = true.
Proof. unfold hits. rewrite list_elem_of_filter, elem_of_seq. split; intros [? ?]; split; (done || lia). Qed.

Lemma unique_Ok q item l i e : unique q item l = Some (Ok (i, e)) -> l = [i] /\ e = false.
Proof. unfold unique. destruct l as [|? [|]]; naive_solver. Qed.

Lemma match_loose_Ok q item digits numeric i e :
  match_loose q item digits numeric = Ok (i, e) -> i < length (qu_options q) /\ e = false.
Proof.
  assert (forall p, hits q p = [i] -> i < length (qu_options q)) as Hin.
  { intros p Hp. eapply elem_of_hits with (p := p). rewrite Hp. by left. }
  unfold match_loose. repeat case_match; intros; simplify_eq;
    match goal with Hu : unique _ _ _ = Some _ |- _ => apply unique_Ok in Hu as [? ->] end; eauto.
Qed.

Lemma match_label_Ok q item digits numeric i e :
  match_label q item digits numeric = Ok (i, e) ->
  i < length (qu_options q) /\
  (e = true -> normalise (label_of q i) = normalise item /\
     forall j, j < length (qu_options q) -> normalise (label_of q j) = normalise item ->
       to_lowercase (trim (label_of q j)) = to_lowercase (trim item) -> j = i).
Proof.
  unfold match_label. destruct (is_empty (normalise item)); [done|].
  set (P := fun l => bool_decide (normalise l = normalise item)).
  assert (forall j, j ∈ hits q P <-> j < length (qu_options q) /\ normalise (label_of q j) = normalise item) as Hh.
  { intros j. rewrite elem_of_hits. unfold P. by rewrite bool_decide_eq_true. }
  destruct (hits q P) as [|h [|h' hs]] eqn:Heq.
  - intros Hm. apply match_loose_Ok in Hm as [? ->]. done.
  - intros [= <- <-]. destruct (proj1 (Hh h)) as [Hlt Hn]; [by left|]. split; [done|]. intros _. split; [done|].
    intros j Hj Hnj _. assert (j ∈ [h]) as Hin by (by apply Hh). by apply list_elem_of_singleton in Hin.
  - destruct (filter _ (h :: h' :: hs)) as [|k [|]] eqn:Hf; [done| |done]. intros [= <- <-].
    assert (k ∈ [k]) as Hk by by left. rewrite <- Hf in Hk. apply list_elem_of_filter in Hk as [Hraw Hk].
    apply Hh in Hk as [Hlt Hn]. split; [done|]. intros _. split; [done|].
    intros j Hj Hnj Hrawj. assert (j ∈ [k]) as Hin.
    { rewrite <- Hf. apply list_elem_of_filter. split; [done|]. by apply Hh. }
    by apply list_elem_of_singleton in Hin.
Qed.

Lemma match_item_range q item i e : match_item q item = Ok (i, e) -> i < length (qu_options q).
Proof.
  unfold match_item. set (digits := trim_end_among ".):" (trim item)).
  set (numeric := negb (is_empty digits) && bytes_all is_ascii_digit digits).
  destruct (if numeric then number_row q digits else None) as [k|] eqn:Hk.
  - intros [= <- _]. destruct numeric; [|done]. unfold number_row in Hk.
    destruct (parse_usize digits) as [n|]; [|done]. simpl in Hk. case_match eqn:Hn; [|done]. simplify_eq.
    apply andb_true_iff in Hn as [?%N.leb_le ?%N.leb_le]. lia.
  - intros Hm. by apply match_label_Ok in Hm as [? _].
Qed.

(** ** Every accepted reply *)

Lemma match_items_Ok q items exact set e' set' :
  match_items q items exact set = Ok (e', set') ->
  (forall i, i ∈ set -> i < length (qu_options q)) ->
  (forall i, i ∈ set' -> i < length (qu_options q)) /\ size set' = size set + length items /\
  (e' = true -> exact = true).
Proof.
  revert exact set. induction items as [|item items IH]; intros exact set; simpl.
  { intros [= <- <-] Hr. split_and!; [done|lia|done]. }
  rewrite bind_Ok. intros ([i e] & Hi & Hm) Hr. case_bool_decide as Hin; [done|].
  apply match_item_range in Hi. apply IH in Hm as (Hr' & Hs & He).
  - split_and!; [done| |intros H'; apply He in H'; by apply andb_true_iff in H' as [? _]].
    rewrite Hs, size_union, size_singleton by set_solver. lia.
  - intros j [->%elem_of_singleton|]%elem_of_union; auto.
Qed.

Lemma check_other_Ok q text t : check_other q text = Ok t -> other_ok t.
Proof.
  unfold check_other, is_empty. case_bool_decide; [done|]. destruct (existsb _ _) eqn:Hc; [done|].
  case_bool_decide as Hn; [done|]. case_match eqn:Hlen; [done|]. intros [= <-].
  apply Nat.ltb_ge in Hlen. split_and!; [done|done|]. exists text. split; [done|].
  apply Forall_forall. intros c Hin. destruct (char_is_control c) eqn:Hcc; [|done].
  assert (existsb char_is_control (chars text) = true) as Hx; [|congruence].
  apply existsb_exists. exists c. split; [|done]. by apply list_elem_of_In.
Qed.

Lemma sorted_strict (l : list nat) : StronglySorted le l -> NoDup l -> StronglySorted lt l.
Proof.
  induction l as [|x l IH]; intros Hs Hn; constructor; inversion Hs; inversion Hn; subst; [auto|].
  apply Forall_forall. intros y Hy. assert (x <> y) by congruence.
  assert (x <= y); [|lia]. by eapply Forall_forall.
Qed.

Lemma ascending (set : gset nat) :
  StronglySorted lt (merge_sort le (elements set)) /\ length (merge_sort le (elements set)) = size set /\
  forall i, i ∈ merge_sort le (elements set) <-> i ∈ set.
Proof.
  pose proof (merge_sort_Permutation le (elements set)) as Hp. split_and!.
  - apply sorted_strict; [by apply (StronglySorted_merge_sort le)|]. rewrite Hp. apply NoDup_elements.
  - by rewrite Hp.
  - intros i. by rewrite Hp, elem_of_elements.
Qed.

Lemma match_answer_Ok q part s e :
  match_answer q part = Ok (s, e) -> selection_ok q s /\ (e = true -> se_other s = None).
Proof.
  unfold match_answer. destruct (split_other part) as [listed other]. rewrite bind_Ok.
  intros (other' & Ho & Hm). apply bind_Ok in Hm as ([e' set] & Hi & Hm).
  apply match_items_Ok in Hi as (Hr & Hs & He); [|set_solver].
  destruct (ascending set) as (Hsort & Hlen & Hin).
  set (options := merge_sort le (elements set)) in *.
  case_match eqn:Hz; [done|]. case_match eqn:Hone; [done|]. simplify_eq/=.
  apply Nat.eqb_neq in Hz. split.
  - constructor; simpl; [done| | | |].
    + apply Forall_forall. intros i Hi. by apply Hr, Hin.
    + destruct other'; [by right|left]. intros Hn. rewrite Hn in Hz. simpl in Hz. lia.
    + intros Hm. rewrite Hm in Hone. simpl in Hone. apply Nat.ltb_ge in Hone. destruct other'; simpl; lia.
    + intros text ->. destruct other as [raw|]; [|done].
      destruct (check_other q raw) as [t|] eqn:Hc; simplify_eq/=. by eapply check_other_Ok.
  - intros ->. specialize (He eq_refl). by apply bool_decide_eq_true in He.
Qed.

Lemma match_parts_Ok questions parts exact selections e :
  length parts = length questions -> match_parts questions parts exact = Ok (selections, e) ->
  Forall2 selection_ok questions selections /\
  (e = true -> Forall (fun s => se_other s = None) selections /\ exact = true).
Proof.
  revert parts exact selections. induction questions as [|q questions IH]; intros [|part parts] exact selections; try done.
  { intros _ [= <- <-]. split; [constructor|]. intros ->. by split. }
  simpl. rewrite bind_Ok. intros Hl ([s e1] & Hs & Hm). apply bind_Ok in Hm as ([ss e2] & Hss & Hm). simplify_eq.
  apply match_answer_Ok in Hs as [Hs He1]. apply IH in Hss as [Hss He2]; [|done]. split; [by constructor|].
  intros ->. destruct He2 as [? Hx]; [done|]. apply andb_true_iff in Hx as [-> ->]. split; [constructor; auto|done].
Qed.

Lemma place_length questions pairs parts parts' :
  place questions pairs parts = Ok parts' -> length parts' = length parts.
Proof.
  revert parts. induction pairs as [|[i rest] pairs IH]; intros parts; simpl; [by intros [= <-]|].
  assert (place questions pairs (<[i := Some rest]> parts) = Ok parts' -> length parts' = length parts) as Hi.
  { intros Hp. apply IH in Hp. by rewrite length_insert in Hp. }
  destruct (parts !! i) as [[]|]; done.
Qed.

Lemma split_length questions reply parts : split questions reply = Ok parts -> length parts = length questions.
Proof.
  unfold split. destruct (length questions =? 1) eqn:Hone.
  { apply Nat.eqb_eq in Hone. intros [= <-]. by rewrite Hone. }
  set (ls := filter _ _). assert (forall n : Refusal, (if length ls =? length questions then Ok ls else Err n : result Refusal _) = Ok parts ->
    length parts = length questions) as Hpos.
  { intros n. case_match eqn:Hl; [|done]. apply Nat.eqb_eq in Hl. by intros [= <-]. }
  destruct (mapM (header_line questions) ls) as [[|p1 [|p2 pairs]]|]; try apply Hpos.
  rewrite bind_Ok. intros (parts' & Hp & Ht). apply place_length in Hp. apply try_map_Ok, Forall2_length in Ht.
  rewrite length_imap, Hp, length_replicate in Ht. done.
Qed.

Lemma match_reply_Ok questions reply selections exact :
  match_reply questions reply = Ok (Answers selections exact) ->
  eq_ignore_ascii_case (trim reply) "skip!" = false /\ Forall2 selection_ok questions selections /\
  (exact = true -> Forall (fun s => se_other s = None) selections).
Proof.
  unfold match_reply. destruct (eq_ignore_ascii_case (trim reply) "skip!"); [done|].
  case_match; [done|]. rewrite bind_Ok. intros (parts & Hsp & Hm). apply bind_Ok in Hm as ([ss e] & Hm & Ha).
  simplify_eq. apply split_length in Hsp. apply match_parts_Ok in Hm as [Hs He]; [|done].
  split_and!; [done|done|]. intros Hx. by apply He.
Qed.

(** Every reply that is taken names, for each question in order, options
    that exist, in row order and each once; a single-select question gets
    exactly one answer and any question at least one; free text is never exact,
    and what is typed for it is the prompt text of one line, within the key
    limits. A reply of one word [skip!] always declines. *)
Theorem match_reply_sound (questions : list Question) (reply : string) (selections : list Selection) (exact : bool)
    (Hreply : match_reply questions reply = Ok (Answers selections exact)) :
  Forall2 selection_ok questions selections /\
  (exact = true -> Forall (fun s => se_other s = None) selections) /\
  eq_ignore_ascii_case (trim reply) "skip!" = false.
Proof. apply match_reply_Ok in Hreply as (? & ? & ?). done. Qed.

(** ** No other option was meant *)

Context `{!AsciiLetters}.

Lemma trim_end_among_app set s :
  exists p, s = trim_end_among set s +:+ p /\ bytes_all (byte_among set) p = true.
Proof.
  induction s as [|a s (p & Hs & Hp)]; [by exists EmptyString|]. simpl.
  destruct (trim_end_among set s) as [|b t] eqn:Ht.
  - destruct (byte_among set a) eqn:Ha.
    + exists (String a s). split; [done|]. simpl. rewrite Ha. simpl. by rewrite Hs.
    + exists s. split; [done|]. by rewrite Hs.
  - exists p. split; [|done]. rewrite Hs at 1. done.
Qed.

(** A text as its bytes. *)
Fixpoint bytes_of (s : string) : list string :=
  match s with EmptyString => [] | String c r => String c EmptyString :: bytes_of r end.

Lemma chars_bytes s : bytes_all (fun c => (N_of_ascii c <? 128)%N) s = true -> chars s = bytes_of s.
Proof.
  induction s as [|a s IH]; [done|]. simpl bytes_all. intros [Ha%N.ltb_lt Hs]%andb_true_iff.
  rewrite chars_ascii by done. simpl. by rewrite IH.
Qed.

Lemma concat_bytes s : concat (bytes_of s) = s.
Proof. induction s as [|a s IH]; [done|]. simpl. by rewrite IH. Qed.

Lemma words_plain w l :
  Forall (fun c => char_is_whitespace c = false) l -> w +:+ concat l <> EmptyString -> words w l = [w +:+ concat l].
Proof.
  intros Hl. revert w. induction Hl as [|c l Hc _ IH]; intros w Hne; simpl in *.
  - rewrite app_nil_r_string in *. unfold is_empty. by rewrite bool_decide_eq_false_2.
  - rewrite Hc, IH; rewrite <- app_assoc_string in *; done.
Qed.

(** The folded form of a number with its punctuation is the number. *)
Lemma normalise_number d p :
  d <> EmptyString -> bytes_all is_ascii_digit d = true -> bytes_all (byte_among ".):") p = true ->
  join blank (split_whitespace (concat ((fun c => if is_alphanumeric c then c else blank) <$> chars (d +:+ p)))) = d.
Proof.
  intros Hne Hd Hp.
  assert (forall c, is_ascii_digit c = true -> (N_of_ascii c < 128)%N /\ is_ascii_alphanumeric c = true /\
            char_is_whitespace (String c EmptyString) = false) as Hdig.
  { intros [[] [] [] [] [] [] [] []]; vm_compute; try done. }
  assert (forall c, byte_among ".):" c = true -> (N_of_ascii c < 128)%N /\ is_ascii_alphanumeric c = false) as Hpun.
  { intros [[] [] [] [] [] [] [] []]; vm_compute; try done. }
  assert (bytes_all (fun c => (N_of_ascii c <? 128)%N) (d +:+ p) = true) as Hasc.
  { rewrite bytes_all_app. apply andb_true_iff. split; (eapply bytes_all_impl; [|eassumption]).
    - intros c [Hc _]%Hdig. by apply N.ltb_lt.
    - intros c [Hc _]%Hpun. by apply N.ltb_lt. }
  rewrite chars_bytes by done.
  assert ((fun c => if is_alphanumeric c then c else blank) <$> bytes_of (d +:+ p) =
          bytes_of d ++ replicate (String.length p) blank) as ->.
  { clear Hne Hasc. induction d as [|a d IH].
    - simpl. rewrite app_nil_string. induction p as [|b p IHp]; [done|]. simpl in Hp.
      apply andb_true_iff in Hp as [Hb Hp]. simpl. destruct (Hpun b Hb) as [Hlt Hal].
      rewrite alphanumeric_ascii, Hal by done. f_equal. by apply IHp.
    - simpl in Hd. apply andb_true_iff in Hd as [Ha Hd]. destruct (Hdig a Ha) as (Hlt & Hal & _).
      simpl. rewrite alphanumeric_ascii, Hal by done. f_equal. by apply IH. }
  unfold split_whitespace.
  assert (Forall char_ok (bytes_of d ++ replicate (String.length p) blank)) as Hok.
  { apply Forall_app. split; [|apply Forall_replicate; by apply (ascii_utf8 " "%char)].
    clear -Hd Hdig. induction d as [|a d IH]; [constructor|]. simpl in Hd. apply andb_true_iff in Hd as [Ha Hd].
    constructor; [|by apply IH]. apply ascii_utf8. by apply Hdig. }
  destruct (chars_concat _ Hok) as [-> _]. rewrite words_trail.
  2: { apply Forall_replicate. done. }
  rewrite words_plain; rewrite ?app_nil_string, ?concat_bytes; [done| |done].
  clear -Hd Hdig. induction d as [|a d IH]; [constructor|]. simpl in Hd. apply andb_true_iff in Hd as [Ha Hd].
  constructor; [by apply Hdig|by apply IH].
Qed.

Lemma number_plain d p :
  bytes_all is_ascii_digit d = true -> bytes_all (byte_among ".):") p = true ->
  bytes_all (fun c => (N_of_ascii c <? 128)%N) (d +:+ p) = true /\ to_ascii_lowercase (d +:+ p) = d +:+ p.
Proof.
  intros Hd Hp.
  assert (bytes_all (fun c => is_ascii_digit c || byte_among ".):" c) (d +:+ p) = true) as Hall.
  { rewrite bytes_all_app. apply andb_true_iff.
    split; (eapply bytes_all_impl; [|eassumption]); intros c Hc; simpl in *; rewrite Hc; by rewrite ?orb_true_r. }
  assert (forall c, is_ascii_digit c || byte_among ".):" c = true ->
            (N_of_ascii c <? 128)%N = true /\ to_ascii_lowercase_byte c = c) as Hc.
  { intros [[] [] [] [] [] [] [] []]; vm_compute; try done. }
  split; [eapply bytes_all_impl; [|exact Hall]; intros c Hx; by apply Hc|].
  generalize dependent (d +:+ p). clear Hd Hp. induction s as [|a s IH]; [done|]. simpl. intros [Ha Hs]%andb_true_iff.
  unfold to_ascii_lowercase in *. simpl. rewrite IH by done. f_equal. by apply Hc.
Qed.

(** An exact reading is not a guess: a reply item read exactly as one option
    either is its number or spells its label, and spells no other option's
    label, whatever the case, even where labels are numbers or differ only in
    their punctuation. (Labels are trimmed when the call is read, items when
    the reply is split.) *)
Theorem exact_is_unambiguous (q : Question) (item : string) (i : nat)
    (Hlabels : Forall (fun o => trim (op_label o) = op_label o) (qu_options q)) (Hitem : trim item = item)
    (Hexact : match_item q item = Ok (i, true)) :
  i < length (qu_options q) /\
  (number_row q (trim_end_among ".):" item) = Some i \/ normalise (label_of q i) = normalise item) /\
  forall j, j < length (qu_options q) -> j <> i -> to_lowercase (label_of q j) <> to_lowercase item.
Proof.
  split; [by eapply match_item_range|].
  assert (forall j, trim (label_of q j) = label_of q j) as Htrim.
  { intros j. unfold label_of. destruct (qu_options q !! j) as [o|] eqn:Ho; [|done].
    simpl. eapply Forall_lookup in Hlabels; done. }
  unfold match_item in Hexact. rewrite Hitem in Hexact.
  destruct (trim_end_among_app ".):" item) as (p & Hp & Hset). set (digits := trim_end_among ".):" item) in *.
  destruct (negb (is_empty digits) && bytes_all is_ascii_digit digits) eqn:Hnum.
  - destruct (number_row q digits) as [k|] eqn:Hk.
    + injection Hexact as -> Hsh. split; [by left|]. intros j Hj Hne Hlow. apply negb_true_iff in Hsh.
      assert (existsb (fun j => negb (j =? i) && bool_decide (normalise (label_of q j) = digits))
                (seq 0 (length (qu_options q))) = true) as Hx; [|congruence].
      apply existsb_exists. exists j. split; [apply in_seq; lia|]. apply andb_true_iff. split.
      { apply negb_true_iff. by apply Nat.eqb_neq. }
      apply bool_decide_eq_true. apply andb_true_iff in Hnum as [Hd0 Hd].
      assert (digits <> EmptyString) as Hd1. { intros Heq. rewrite Heq in Hd0. done. }
      destruct (number_plain digits p Hd Hset) as [Hasc Hlc]. rewrite <- Hp in Hasc, Hlc.
      unfold normalise. rewrite Hlow, lowercase_ascii, Hlc, Hp by done. by apply normalise_number.
    + apply match_label_Ok in Hexact as [_ Hex]. specialize (Hex eq_refl) as [Hn Hex].
      split; [by right|]. intros j Hj Hne Hlow. apply Hne, Hex; [done| |by rewrite Htrim, Hitem].
      unfold normalise. by rewrite Hlow.
  - apply match_label_Ok in Hexact as [_ Hex]. specialize (Hex eq_refl) as [Hn Hex].
    split; [by right|]. intros j Hj Hne Hlow. apply Hne, Hex; [done| |by rewrite Htrim, Hitem].
    unfold normalise. by rewrite Hlow.
Qed.
End matched.

(** ** The dialog the keys are pressed in *)

(** What the comments of [plan] say of it: the rows of a question are its
    options, then the line to type on, then, with several answers, [Submit]; the
    cursor starts on the first row; what is given is what was ticked or typed. *)
Inductive Screen :=
| Asking (i row : nat) (ticked : gset nat) (typed : option string)
| Review
| Closed.

Record View := mkView { vw_screen : Screen; vw_given : list (gset nat * option string) }.

Definition next_screen (questions : list Question) (i : nat) : Screen :=
  if S i <? length questions then Asking (S i) 0 ∅ None
  else if lone_single questions then Closed else Review.

(** [press] is the terminal's, known by its documented behaviour. *)
Class Dialog (questions : list Question) (press : View -> KeyStep -> View) : Prop := {
  dg_down i q row ticked typed given :
    questions !! i = Some q -> S row < length (qu_options q) + (if qu_multi_select q then 2 else 1) ->
    press (mkView (Asking i row ticked typed) given) (StepKey Down) = mkView (Asking i (S row) ticked typed) given;
  dg_tick i q row ticked typed given :
    questions !! i = Some q -> qu_multi_select q = true -> row < length (qu_options q) -> row ∉ ticked ->
    press (mkView (Asking i row ticked typed) given) (StepKey Enter) =
    mkView (Asking i row ({[row]} ∪ ticked) typed) given;
  dg_type i q ticked text given :
    questions !! i = Some q ->
    press (mkView (Asking i (length (qu_options q)) ticked None) given) (StepText text) =
    mkView (Asking i (length (qu_options q)) ticked (Some text)) given;
  dg_submit i q ticked typed given :
    questions !! i = Some q -> qu_multi_select q = true ->
    press (mkView (Asking i (S (length (qu_options q))) ticked typed) given) (StepKey Enter) =
    mkView (next_screen questions i) (given ++ [(ticked, typed)]);
  dg_pick i q row given :
    questions !! i = Some q -> qu_multi_select q = false -> row < length (qu_options q) ->
    press (mkView (Asking i row ∅ None) given) (StepKey Enter) =
    mkView (next_screen questions i) (given ++ [({[row]}, None)]);
  dg_typed i q text given :
    questions !! i = Some q -> qu_multi_select q = false ->
    press (mkView (Asking i (length (qu_options q)) ∅ (Some text)) given) (StepKey Enter) =
    mkView (next_screen questions i) (given ++ [(∅, Some text)]);
  dg_review given : press (mkView Review given) (StepKey Enter) = mkView Closed given;
}.

Definition answer_of (s : Selection) : gset nat * option string := (list_to_set (se_options s), se_other s).

Section dialog.
Context `{Letters} (questions : list Question) (press : View -> KeyStep -> View) `{!Dialog questions press}.

Notation presses := (foldl press).

Lemma presses_downs i q k row ticked typed given :
  questions !! i = Some q -> row + k < length (qu_options q) + (if qu_multi_select q then 2 else 1) ->
  presses (mkView (Asking i row ticked typed) given) (downs k) = mkView (Asking i (row + k) ticked typed) given.
Proof.
  intros Hq. revert row. induction k as [|k IH]; intros row Hk; simpl; [by rewrite Nat.add_0_r|].
  rewrite (dg_down i q) by (done || lia). rewrite IH by lia. by rewrite Nat.add_succ_r.
Qed.

Lemma presses_ticks i q options row ticked given :
  questions !! i = Some q -> qu_multi_select q = true -> StronglySorted lt options ->
  Forall (fun o => row <= o < length (qu_options q) /\ o ∉ ticked) options -> row <= length (qu_options q) ->
  exists last steps, plan_ticks row options = Some (last, steps) /\ last <= length (qu_options q) /\
    presses (mkView (Asking i row ticked None) given) steps =
    mkView (Asking i last (list_to_set options ∪ ticked) None) given.
Proof.
  intros Hq Hm. revert row ticked. induction options as [|o options IH]; intros row ticked Hs Hall Hrow.
  { exists row, []. split_and!; [done|done|]. simpl. by rewrite (left_id_L ∅ (∪)). }
  apply StronglySorted_cons in Hs as [Hlt Hs]. apply Forall_cons in Hall as [[Ho Hn] Hall].
  destruct (IH o ({[o]} ∪ ticked)) as (last & steps & Hp & Hl & Hrun); [done| |lia|].
  { apply Forall_forall. intros x Hx. rewrite Forall_forall in Hlt, Hall.
    specialize (Hlt x Hx). specialize (Hall x Hx). split; [lia|].
    intros [->%elem_of_singleton|]%elem_of_union; [lia|tauto]. }
  exists last, (downs (o - row) ++ StepKey Enter :: steps). split_and!; [|done|].
  - simpl. case_match eqn:Hb; [apply Nat.ltb_lt in Hb; lia|]. by rewrite Hp.
  - rewrite foldl_app. rewrite (presses_downs i q) by (rewrite ?Hm; done || lia).
    replace (row + (o - row)) with o by lia. simpl. rewrite (dg_tick i q) by (done || lia). rewrite Hrun.
    do 2 f_equal. set_solver.
Qed.

Lemma presses_question i q s given :
  questions !! i = Some q -> selection_ok q s ->
  exists steps, plan_question q s = Some steps /\
    presses (mkView (Asking i 0 ∅ None) given) steps =
    mkView (next_screen questions i) (given ++ [answer_of s]).
Proof.
  intros Hq [Hsort Hrange Hsome Hsingle _]. unfold plan_question, answer_of.
  destruct (qu_multi_select q) eqn:Hm.
  - destruct (presses_ticks i q (se_options s) 0 ∅ given) as (last & steps & Hp & Hl & Hrun); try done; [|lia|].
    { eapply Forall_impl; [exact Hrange|]. intros x Hx. simpl in Hx. split; [lia|set_solver]. }
    rewrite Hp. simpl. rewrite (right_id_L ∅ (∪)) in Hrun. destruct (se_other s) as [text|]; simpl.
    + case_match eqn:Hb; [apply Nat.ltb_lt in Hb; lia|]. eexists. split; [done|].
      rewrite foldl_app, Hrun, foldl_app, (presses_downs i q) by (rewrite ?Hm; done || lia).
      replace (last + _) with (length (qu_options q)) by lia. simpl.
      rewrite (dg_type i q), (dg_down i q), (dg_submit i q) by (rewrite ?Hm; done || lia). done.
    + case_match eqn:Hb; [apply Nat.ltb_lt in Hb; lia|]. eexists. split; [done|].
      rewrite foldl_app, Hrun, foldl_app, (presses_downs i q) by (rewrite ?Hm; done || lia).
      replace (last + _) with (S (length (qu_options q))) by lia. simpl.
      by rewrite (dg_submit i q) by done.
  - specialize (Hsingle eq_refl). destruct (se_other s) as [text|] eqn:Ho; simpl in *.
    + destruct (se_options s) as [|? ?] eqn:Hop; [|simpl in Hsingle; lia]. eexists. split; [done|].
      rewrite foldl_app, (presses_downs i q) by (rewrite ?Hm; done || lia). simpl.
      by rewrite (dg_type i q), (dg_typed i q) by done.
    + destruct (se_options s) as [|o [|]] eqn:Hop; simpl in Hsingle; [lia| |lia].
      apply Forall_cons in Hrange as [Hlt _]. eexists. split; [done|].
      rewrite foldl_app, (presses_downs i q) by (rewrite ?Hm; done || lia). simpl.
      rewrite (dg_pick i q) by done. by rewrite (right_id_L ∅ (∪)).
Qed.

Lemma presses_all rest selections done_ given :
  questions = done_ ++ rest -> rest <> [] -> Forall2 selection_ok rest selections ->
  exists steps, plan_all rest selections = Some steps /\
    presses (mkView (Asking (length done_) 0 ∅ None) given) steps =
    mkView (if lone_single questions then Closed else Review) (given ++ (answer_of <$> selections)).
Proof.
  intros Hqs Hne Hall. revert done_ given Hqs Hne.
  induction Hall as [|q s rest selections Hok Hall IH]; intros done_ given Hqs Hne; [done|].
  destruct (presses_question (length done_) q s given) as (steps & Hp & Hrun); [|done|].
  { rewrite Hqs. by apply list_lookup_middle. }
  simpl. rewrite Hp. simpl. destruct (decide (rest = [])) as [->|Hr].
  - inversion Hall; subst. eexists. split; [done|]. rewrite app_nil_r, Hrun.
    unfold next_screen. rewrite length_app. simpl.
    rewrite (proj2 (Nat.ltb_ge _ _)) by lia. done.
  - destruct (IH (done_ ++ [q]) (given ++ [answer_of s])) as (steps' & Hp' & Hrun'); [by rewrite <- app_assoc|done|].
    rewrite Hp'. simpl. eexists. split; [done|]. rewrite foldl_app, Hrun. rewrite length_app in Hrun'. simpl in Hrun'.
    unfold next_screen. rewrite (proj2 (Nat.ltb_lt _ _)).
    + rewrite Nat.add_1_r in Hrun'. rewrite Hrun'. by rewrite <- app_assoc.
    + rewrite Hqs, length_app. destruct rest; [done|simpl; lia].
Qed.

(** C35: The keys answer what was meant. For the selections of any accepted
    reply the plan exists (no subtraction goes below zero, no index out of
    range), and pressed in a dialog that behaves as documented it closes the
    dialog with exactly those options ticked or picked, and exactly that text
    typed, question by question. *)
Theorem plan_answers_dialog (selections : list Selection)
    (Hne : questions <> []) (Hok : Forall2 selection_ok questions selections) :
  exists steps, plan questions selections = Some steps /\
    presses (mkView (Asking 0 0 ∅ None) []) steps = mkView Closed (answer_of <$> selections).
Proof.
  destruct (presses_all questions selections [] []) as (steps & Hp & Hrun); [done..|].
  unfold plan. rewrite Hp. simpl. eexists. split; [done|]. rewrite foldl_app. simpl in Hrun. rewrite Hrun.
  destruct (lone_single questions); [done|]. simpl. by rewrite dg_review.
Qed.
End dialog.

(** ** A sample *)

#[export] Instance ascii_letters : Letters := {|
  to_lowercase := to_ascii_lowercase;
  is_alphanumeric := fun c => match c with String a EmptyString => is_ascii_alphanumeric a | _ => false end;
|}.

#[export] Instance ascii_letters_ok : AsciiLetters.
Proof. by constructor. Qed.

(** The documented dialog, as a function. *)
Definition sample_press (questions : list Question) (v : View) (k : KeyStep) : View :=
  match vw_screen v with
  | Asking i row ticked typed =>
      match questions !! i with
      | None => v
      | Some q =>
          let n := length (qu_options q) in
          let give x := mkView (next_screen questions i) (vw_given v ++ [x]) in
          match k with
          | StepKey Down =>
              if S row <? n + (if qu_multi_select q then 2 else 1)
              then mkView (Asking i (S row) ticked typed) (vw_given v) else v
          | StepKey Enter =>
              if qu_multi_select q then
                if row <? n then
                  mkView (Asking i row (if bool_decide (row ∈ ticked) then ticked ∖ {[row]} else {[row]} ∪ ticked) typed)
                    (vw_given v)
                else give (ticked, typed)
              else if row <? n then give ({[row]}, None)
              else give (∅, typed)
          | StepText text => mkView (Asking i row ticked (Some text)) (vw_given v)
          | _ => v
          end
      end
  | Review => match k with StepKey Enter => mkView Closed (vw_given v) | _ => v end
  | Closed => v
  end.

#[export] Instance sample_dialog questions : Dialog questions (sample_press questions).
Proof.
  constructor; unfold sample_press; simpl; intros; repeat match goal with
    | Hq : questions !! _ = Some _ |- _ => rewrite Hq
    | Hm : qu_multi_select _ = _ |- _ => rewrite Hm end; try done.
  - rewrite (proj2 (Nat.ltb_lt _ _)) by lia. done.
  - rewrite (proj2 (Nat.ltb_lt _ _)) by lia. by rewrite bool_decide_eq_false_2.
  - by rewrite (proj2 (Nat.ltb_ge _ _)) by lia.
  - by rewrite (proj2 (Nat.ltb_lt _ _)) by lia.
  - by rewrite Nat.ltb_irrefl.
Qed.

Definition sample_option (label : string) : Opt := {| op_label := label; op_description := EmptyString |}.
Definition color : Question :=
  {| qu_text := "Which color?"; qu_header := "Color"; qu_multi_select := false;
     qu_options := sample_option <$> ["Red"; "Green"; "Blue"] |}.
Definition colors_multi : Question :=
  {| qu_text := "Which colors?"; qu_header := "Colors"; qu_multi_select := true;
     qu_options := sample_option <$> ["Red"; "Green"; "Blue"] |}.

Definition sample_reply : string := "blue" +:+ newline +:+ "3, red, other: a bit".
Definition sample_selections : list Selection :=
  [{| se_options := [2]; se_other := None |}; {| se_options := [0; 2]; se_other := Some "a bit" |}].

Lemma match_reply_sound_witness :
  match_reply [color; colors_multi] sample_reply = Ok (Answers sample_selections false) /\
  Forall2 selection_ok [color; colors_multi] sample_selections.
Proof.
  assert (match_reply [color; colors_multi] sample_reply = Ok (Answers sample_selections false)) as Hm
    by (vm_compute; reflexivity).
  split; [exact Hm|]. apply (match_reply_sound _ _ _ _ Hm).
Defined.

Lemma exact_is_unambiguous_witness :
  match_item color "2." = Ok (1, true) /\ to_lowercase (label_of color 2) <> to_lowercase "2.".
Proof.
  assert (match_item color "2." = Ok (1, true)) as Hm by (vm_compute; reflexivity).
  split; [exact Hm|]. apply (exact_is_unambiguous color "2." 1); [|reflexivity|exact Hm| |discriminate].
  - repeat constructor.
  - simpl. lia.
Defined.

Lemma plan_answers_dialog_witness :
  exists steps, plan [color; colors_multi] sample_selections = Some steps /\
    foldl (sample_press [color; colors_multi]) (mkView (Asking 0 0 ∅ None) []) steps =
    mkView Closed (answer_of <$> sample_selections).
Proof.
  apply (plan_answers_dialog [color; colors_multi] (sample_press [color; colors_multi])); [discriminate|].
  assert (match_reply [color; colors_multi] sample_reply = Ok (Answers sample_selections false)) as Hm
    by (vm_compute; reflexivity).
  by apply match_reply_Ok in Hm as (_ & ? & _).
Defined.

(** A label with a comma and a space reads as two: three different answers of
    such a question are one set, and a recorded answer that differs from the
    one sent counts as confirmed. *)
Definition comma_question : Question :=
  {| qu_text := "Which?"; qu_header := "Which"; qu_multi_select := true;
     qu_options := sample_option <$> ["Tea, milk"; "Tea"; "Milk"; "milk"] |}.

Example comma_labels_confirm :
  let sent := {| se_options := [0]; se_other := None |} in
  let recorded := VObject {["Which?" := VString "milk, Tea"]} in
  answer_text comma_question sent = Some "Tea, milk" /\
  answer_text comma_question {| se_options := [1; 3]; se_other := None |} = Some "Tea, milk" /\
  recorded_matches [comma_question] [sent] recorded = Some true.
Proof. vm_compute. done. Qed.
