(* ===== verification/Answer.v ===== *)
(** Answering a question from a thread ([plugins/common/src/answer.rs],
    [pending.rs]): the stage of an agent's open question, what one reply does,
    what the plugin's executor ([on_answer] and [execute] of the matrix and
    github actors) makes of it, and what the recorded answer says. *)

From S2P Require Import Prelude Str BTree Rules Json Text Delivery Question.

(** ** The open questions: [pending.rs] *)

Definition QUESTION_PREFIX : string := "question/".
Definition question_key (agent : string) : string := QUESTION_PREFIX +:+ agent.

Inductive Stage :=
| Open
| Confirming (selections : list Selection) (echo : option string)
| Sent (selections : option (list Selection)) (echo : option string) (since : N).

Definition with_echo (echo : option string) (s : Stage) : Stage :=
  match s with
  | Open => Open
  | Confirming selections _ => Confirming selections echo
  | Sent selections _ since => Sent selections echo since
  end.

Record OpenQuestion := mkOpen {
  oq_questions : list Question;
  oq_stage : Stage;
  oq_posted : bool;
  oq_notified : bool;
}.

Notation Questions := (gmap string OpenQuestion).

(** serde_json's text of a value, and its reading. *)
Class JsonText := { json_bytes : Value -> string; json_parse : string -> option Value }.

Section pending.
Context `{JsonText}.

Definition is_open (agent : string) (qs : Questions) : bool := bool_decide (is_Some (qs !! agent)).

Definition set_stage (agent : string) (stage : Stage) (qs : Questions) : Questions :=
  alter (fun o => mkOpen (oq_questions o) stage (oq_posted o) (oq_notified o)) agent qs.

Definition mark_posted (agent : string) (qs : Questions) : Questions :=
  alter (fun o => mkOpen (oq_questions o) (oq_stage o) true (oq_notified o)) agent qs.

Definition suppress_permission_prompt (agent : string) (qs : Questions) : bool * Questions :=
  match qs !! agent with
  | None => (false, qs)
  | Some o =>
      if negb (oq_posted o) || oq_notified o || match oq_stage o with Sent _ _ _ => true | _ => false end
      then (false, qs)
      else (true, <[agent := mkOpen (oq_questions o) (oq_stage o) (oq_posted o) true]> qs)
  end.

(** [open] and [clear], over the daemon's store: [done] says whether the
    request took effect, an error being only logged. *)
Definition open (agent : string) (tool_input : Value) (questions : list Question) (done : bool)
    (st : Questions * gmap string string) : Questions * gmap string string :=
  (<[agent := mkOpen questions Open false false]> st.1,
   if done then <[question_key agent := json_bytes tool_input]> st.2 else st.2).

Definition clear (agent : string) (done : bool) (st : Questions * gmap string string)
    : option OpenQuestion * (Questions * gmap string string) :=
  match st.1 !! agent with
  | None => (None, st)
  | Some was => (Some was, (delete agent st.1, if done then delete (question_key agent) st.2 else st.2))
  end.

(** [load]: the keys the daemon lists under the prefix, each read back. *)
Definition load (kv : gmap string string) : Questions :=
  foldl (fun qs key =>
    match kv !! key with
    | None => qs
    | Some bytes =>
        match json_parse bytes ≫= parse with
        | Some list => <[str_drop (String.length QUESTION_PREFIX) key := mkOpen list Open false false]> qs
        | None => qs
        end
    end) ∅ (filter (fun key => starts_with key QUESTION_PREFIX = true) (keys kv)).
End pending.

(** ** One reply: [answer.rs] *)

Definition SENT_GRACE : N := secs 30.
Definition COMMAND_REFUSED : string := "this command isn't enabled for this channel".

Inductive Reaction := Ack | Refused | Failed | Confirmed.

Record Decision := mkDecision {
  de_post : option string;
  de_send : option PluginAction;
  de_stage : Stage;
  de_fallback : Stage;
  de_react : option Reaction;
  de_outcome : option string;
}.

Definition is_confirming (s : Stage) : bool := match s with Confirming _ _ => true | _ => false end.

Definition gates_on_post (d : Decision) : bool :=
  match de_post d with Some _ => true | None => false end &&
  (match de_send d with Some _ => true | None => false end || is_confirming (de_stage d)).

Definition refused (stage : Stage) (post : string) : Decision :=
  mkDecision (Some post) None stage stage (Some Refused) (Some "answer_refused").

Section reply.
Context `{Unicode, Letters}.

(** [None] where the plan panics. *)
Definition plan_action (questions : list Question) (selections : option (list Selection)) (key_delay_ms : N)
    : option (result string PluginAction) :=
  steps ← match selections with Some s => plan questions s | None => Some skip_plan end;
  let action := SendKeys steps key_delay_ms in
  Some (match validate action with
        | Ok _ => Ok action
        | Err reason =>
            Err ("this answer needs more keystrokes than can be sent from here (" +:+ reason
                 +:+ "); answer at the terminal.")
        end).

(** A [plan_action] that becomes a decision, or the refusal in [stage]. *)
Definition send_or (stage : Stage) (action : option (result string PluginAction))
    (d : PluginAction -> Decision) : option Decision :=
  a ← action; Some (match a with Ok action => d action | Err message => refused stage message end).

Definition dash : string := String (ascii_of_N 226) (String (ascii_of_N 128) (String (ascii_of_N 148) EmptyString)).
Definition declining : string := "**declining the question**".
Definition answering (chosen : string) : string := "**answering** " +:+ chosen.
Definition reading (chosen : string) : string := "**I read that as** " +:+ chosen +:+ ". Reply **yes** to send.".

(** Free text that reads as a command off the channel's list. *)
Definition refused_command (commands : Allowlist) (s : Selection) : bool :=
  match se_other s with
  | Some t => match classify t with KindCommand => negb (allows commands t) | KindPrompt => false end
  | None => false
  end.

(** What a reply says in [Open], or a fresh answer while [Confirming]. *)
Definition fresh_reply (questions : list Question) (reply : string) (key_delay_ms now : N) (commands : Allowlist)
    : option Decision :=
  match match_reply questions reply with
  | Err reason => Some (refused Open reason)
  | Ok Skip =>
      send_or Open (plan_action questions None key_delay_ms) (fun action =>
        mkDecision (Some declining) (Some action) (Sent None None now) Open (Some Ack) (Some "skipped"))
  | Ok (Answers selections exact) =>
      if existsb (refused_command commands) selections then
        Some (refused Open ("`other:` " +:+ COMMAND_REFUSED))
      else
        chosen ← describe questions selections;
        if exact : bool then
          send_or Open (plan_action questions (Some selections) key_delay_ms) (fun action =>
            mkDecision (Some (answering chosen)) (Some action) (Sent (Some selections) None now) Open
              (Some Ack) (Some "answered"))
        else
          Some (mkDecision (Some (reading chosen)) None (Confirming selections None) Open None
                  (Some "confirm_asked"))
  end.

Definition on_reply (o : OpenQuestion) (reply : string) (key_delay_ms now : N) (commands : Allowlist)
    : option Decision :=
  let questions := oq_questions o in
  match oq_stage o with
  | Sent _ _ since =>
      if (now - since <? SENT_GRACE)%N then
        Some (refused (oq_stage o) "an answer is already on its way; wait for the agent.")
      else
        let reply := trim reply in
        if negb (eq_ignore_ascii_case reply "skip" || eq_ignore_ascii_case reply "skip!") then
          Some (refused (oq_stage o) ("the answer may not have landed; check the terminal, or reply `skip` to clear it"
                 +:+ " (this sends Escape, which interrupts the agent if it is running)."))
        else
          send_or (oq_stage o) (plan_action questions None key_delay_ms) (fun action =>
            mkDecision (Some declining) (Some action) (Sent None None now) (oq_stage o) (Some Ack) (Some "skipped"))
  | Confirming selections echo =>
      let word := to_ascii_lowercase (trim reply) in
      if bool_decide (word ∈ ["yes"; "y"]) then
        send_or Open (plan_action questions (Some selections) key_delay_ms) (fun action =>
          mkDecision None (Some action) (Sent (Some selections) echo now) Open (Some Ack) (Some "confirmed"))
      else if bool_decide (word ∈ ["no"; "n"]) then Some (mkDecision None None Open Open (Some Ack) None)
      else fresh_reply questions reply key_delay_ms now commands
  | Open => fresh_reply questions reply key_delay_ms now commands
  end.

(** ** The executor *)

(** What one reply came to: the post that landed, the action that was sent and
    whether the daemon took it, the stage committed, the reaction left and the
    outcome counted. *)
Record Turn := mkTurn {
  tn_posted : option string;
  tn_action : option PluginAction;
  tn_delivered : bool;
  tn_stage : Stage;
  tn_react : option Reaction;
  tn_outcome : option string;
}.

(** [post] is the id of the message the decision's post made, if it landed;
    [taken] whether the daemon took the action. *)
Definition execute (d : Decision) (post : option string) (taken : bool) : Turn :=
  let posted := match post with Some _ => de_post d | None => None end in
  if match post with None => gates_on_post d | Some _ => false end then
    mkTurn None None false (de_fallback d) (Some Failed) (Some "send_failed")
  else
    match de_send d with
    | Some action =>
        if taken then
          mkTurn posted (Some action) true (if gates_on_post d then with_echo post (de_stage d) else de_stage d)
            (de_react d) (de_outcome d)
        else mkTurn posted (Some action) false (de_fallback d) (Some Failed) (Some "send_failed")
    | None =>
        mkTurn posted None false (if gates_on_post d then with_echo post (de_stage d) else de_stage d)
          (de_react d) (de_outcome d)
    end.

(** [on_answer]: a reply, when it came, the agent's key delay, the channel's
    commands, and what became of the post and the action. *)
Record Reply := { rp_text : string; rp_now : N; rp_delay : N; rp_commands : Allowlist;
                  rp_post : option string; rp_taken : bool }.

Definition on_answer (o : OpenQuestion) (r : Reply) : option (Turn * OpenQuestion) :=
  d ← on_reply o (rp_text r) (rp_delay r) (rp_now r) (rp_commands r);
  let t := execute d (rp_post r) (rp_taken r) in
  Some (t, mkOpen (oq_questions o) (tn_stage t) (oq_posted o) (oq_notified o)).

(** Replies one after the other, the turns latest first; [None] if one panics. *)
Fixpoint answers_run (rs : list Reply) (st : list Turn * OpenQuestion) : option (list Turn * OpenQuestion) :=
  match rs with
  | [] => Some st
  | r :: rs => '(t, o) ← on_answer st.2 r; answers_run rs (t :: st.1, o)
  end.

(** ** The recorded answer *)

Inductive Verdict :=
| VConfirmed (echo : option string)
| VMismatch (message : string)
| VAnsweredAtTerminal (message : string)
| VNothing.

Definition on_closed (o : OpenQuestion) (answers : Value) : option Verdict :=
  let recorded := describe_recorded (oq_questions o) answers in
  match oq_stage o with
  | Sent (Some selections) echo _ =>
      same ← recorded_matches (oq_questions o) selections answers;
      if same : bool then Some (VConfirmed echo)
      else
        chosen ← describe (oq_questions o) selections;
        Some (VMismatch ("**recorded answer differs** " +:+ dash +:+ " Claude recorded " +:+ recorded
                         +:+ "; you chose " +:+ chosen +:+ ". Tell the agent if that matters."))
  | Sent None _ _ => Some VNothing
  | Open | Confirming _ _ => Some (VAnsweredAtTerminal ("**answered at the terminal** " +:+ recorded))
  end.

(** ** Nothing is answered that the operator has not seen *)

Lemma plan_exists questions selections :
  Forall2 selection_ok questions selections -> exists steps, plan questions selections = Some steps.
Proof.
  intros Hall. unfold plan. destruct (decide (questions = [])) as [->|Hne]; [inversion Hall; by eexists|].
  destruct (presses_all questions (sample_press questions) questions selections [] []) as (steps & -> & _); try done.
  by eexists.
Qed.

Lemma answer_text_exists q s : selection_ok q s -> exists text, answer_text q s = Some text.
Proof.
  intros Hok. unfold answer_text.
  destruct (mapM (fun i => op_label <$> qu_options q !! i) (se_options s)) as [l|] eqn:Hm; [by eexists|].
  apply mapM_None in Hm. apply Exists_exists in Hm as (i & Hi & Hn).
  apply fmap_None, lookup_ge_None in Hn. pose proof (so_range q s Hok) as Hr.
  rewrite Forall_forall in Hr. specialize (Hr i Hi). simpl in Hr. lia.
Qed.

Lemma describe_exists questions selections :
  Forall2 selection_ok questions selections -> exists chosen, describe questions selections = Some chosen.
Proof.
  intros Hall. unfold describe.
  assert (exists l, describe_each questions selections = Some l) as [l ->]; [|by eexists].
  induction Hall as [|q s questions selections Hok _ [l IH]]; simpl; [by eexists|].
  destruct (answer_text_exists q s Hok) as [text ->]. simpl. rewrite IH. by eexists.
Qed.

Section seen.
Context (questions : list Question) (commands : Allowlist).

Definition undelivered (log : list Turn) : Prop := Forall (fun t => tn_delivered t = false) log.

(** A reading the operator saw before. *)
Definition was_read (log : list Turn) (chosen : string) : Prop :=
  exists t, t ∈ log /\ tn_posted t = Some (reading chosen).

(** Free text that is a slash command is one on the list. *)
Definition commands_allowed (s : Selection) : Prop :=
  forall t, se_other s = Some t -> classify t = KindCommand -> allows commands t = true.

Lemma refused_command_false l : existsb (refused_command commands) l = false -> Forall commands_allowed l.
Proof.
  intros Hr. apply Forall_forall. intros s Hs t Ht Hk.
  destruct (allows commands t) eqn:Ha; [done|]. apply not_true_iff_false in Hr. destruct Hr.
  apply existsb_exists. exists s. split; [by apply list_elem_of_In|].
  unfold refused_command. by rewrite Ht, Hk, Ha.
Qed.

(** Selections that may be sent: what their keys are, and the line that says
    them. *)
Record sendable (s : list Selection) (chosen : string) : Prop := {
  sn_ok : Forall2 selection_ok questions s;
  sn_commands : Forall commands_allowed s;
  sn_chosen : describe questions s = Some chosen;
}.

(** What a turn sent: Escape, announced; or, nothing having been delivered
    before, the keys of selections the operator was shown, in the same turn for
    an exact reply, in an earlier one for a reading since confirmed. *)
Definition turn_ok (t : Turn) (earlier : list Turn) : Prop :=
  forall a, tn_action t = Some a ->
    validate a = Ok tt /\ exists steps delay, a = SendKeys steps delay /\
    (steps = skip_plan /\ tn_posted t = Some declining \/
     undelivered earlier /\ exists s chosen, sendable s chosen /\ plan questions s = Some steps /\
       (tn_posted t = Some (answering chosen) \/ was_read earlier chosen)).

Fixpoint log_ok (log : list Turn) : Prop :=
  match log with [] => True | t :: log => turn_ok t log /\ log_ok log end.

(** Where the question may stand after a log. *)
Definition stage_ok (log : list Turn) (stage : Stage) : Prop :=
  match stage with
  | Open => undelivered log
  | Confirming s _ => undelivered log /\ exists chosen, sendable s chosen /\ was_read log chosen
  | Sent _ _ _ => True
  end.

(** A decision the executor may carry out. *)
Definition decision_ok (log : list Turn) (d : Decision) : Prop :=
  match de_send d with
  | Some a =>
      (exists s e n, de_stage d = Sent s e n) /\ stage_ok log (de_fallback d) /\
      validate a = Ok tt /\ exists steps delay, a = SendKeys steps delay /\
      (steps = skip_plan /\ de_post d = Some declining \/
       undelivered log /\ exists s chosen, sendable s chosen /\ plan questions s = Some steps /\
         (de_post d = Some (answering chosen) \/ de_post d = None /\ was_read log chosen))
  | None =>
      stage_ok log (de_fallback d) /\
      match de_stage d with
      | Confirming s _ => undelivered log /\ exists chosen, sendable s chosen /\ de_post d = Some (reading chosen)
      | stage => stage_ok log stage
      end
  end.

Lemma stage_ok_more t log stage :
  stage_ok log stage -> tn_delivered t = false -> stage_ok (t :: log) stage.
Proof.
  destruct stage as [|s e|]; simpl; [by constructor| |done].
  intros [? (chosen & Hs & t' & Ht & Hp)] Hd. split; [by constructor|]. exists chosen. split; [done|].
  exists t'. split; [by right|done].
Qed.

Lemma execute_ok log d post taken :
  decision_ok log d -> log_ok log ->
  log_ok (execute d post taken :: log) /\
  stage_ok (execute d post taken :: log) (tn_stage (execute d post taken)).
Proof.
  unfold decision_ok, execute. intros Hd Hlog. simpl log_ok.
  destruct (match post with None => gates_on_post d | Some _ => false end) eqn:Hgate.
  { split; [by split|]. apply stage_ok_more; [|done]. by destruct (de_send d); apply Hd. }
  assert (forall p, de_send d <> None -> de_post d = Some p ->
    match post with Some _ => de_post d | None => None end = Some p) as Hposted.
  { intros p Hs Hp. destruct post; [done|]. unfold gates_on_post in Hgate. rewrite Hp in Hgate.
    by destruct (de_send d). }
  destruct (de_send d) as [a|] eqn:Hsend.
  - destruct Hd as ((s & e & n & Hst) & Hfall & Hval & steps & delay & -> & Hwhat).
    assert (forall del st r o, turn_ok (mkTurn match post with Some _ => de_post d | None => None end
              (Some (SendKeys steps delay)) del st r o) log) as Hturn.
    { intros del st r o a [= <-]. split; [done|]. exists steps, delay. split; [done|].
      destruct Hwhat as [[-> Hp]|(Hu & s' & chosen & Hs & Hpl & Hp)]; [left|right].
      - split; [done|]. by apply Hposted.
      - split; [done|]. exists s', chosen. split_and!; [done|done|].
        destruct Hp as [Hp|[_ Hp]]; [left; by apply Hposted|by right]. }
    destruct taken; simpl; (split; [split; [apply Hturn|done]|]).
    + rewrite Hst. by destruct (gates_on_post d).
    + by apply stage_ok_more.
  - destruct Hd as [Hfall Hstage]. simpl. split; [by split|].
    assert (forall e, stage_ok log (with_echo e (de_stage d)) <-> stage_ok log (de_stage d)) as Hecho.
    { intros e. by destruct (de_stage d). }
    destruct (de_stage d) as [|s e|s e n] eqn:Hst.
    + destruct (gates_on_post d); by apply stage_ok_more.
    + destruct Hstage as [Hu (chosen & Hs & Hp)]. unfold gates_on_post in *. rewrite Hp, Hsend, Hst in *. simpl in *.
      destruct post as [id|]; [|done]. simpl. split; [by constructor|]. exists chosen. split; [done|].
      eexists. split; [by left|done].
    + by destruct (gates_on_post d).
Qed.

Lemma plan_action_Some selections delay steps :
  match selections with Some s => plan questions s | None => Some skip_plan end = Some steps ->
  exists r, plan_action questions selections delay = Some r /\
    forall a, r = Ok a -> a = SendKeys steps delay /\ validate a = Ok tt.
Proof.
  intros Hp. unfold plan_action. rewrite Hp. cbv zeta. cbn [mbind option_bind]. eexists. split; [done|]. intros a.
  destruct (validate (SendKeys steps delay)) as [[]|] eqn:Hv; intros Hr; by simplify_eq.
Qed.

Lemma refused_ok log stage message :
  is_confirming stage = false -> stage_ok log stage -> decision_ok log (refused stage message).
Proof. intros Hc Hs. simpl. split; [done|]. by destruct stage. Qed.

(** Sending the keys of [steps], or refusing in [stage]. *)
Lemma send_or_ok log stage selections delay steps d :
  match selections with Some s => plan questions s | None => Some skip_plan end = Some steps ->
  is_confirming stage = false -> stage_ok log stage ->
  (forall a, a = SendKeys steps delay -> validate a = Ok tt -> decision_ok log (d a)) ->
  exists d', send_or stage (plan_action questions selections delay) d = Some d' /\ decision_ok log d'.
Proof.
  intros Hp Hc Hs Hd. destruct (plan_action_Some selections delay steps Hp) as (r & Hr & Ha).
  unfold send_or. rewrite Hr. simpl. eexists. split; [done|]. destruct r as [a|message].
  - destruct (Ha a eq_refl). by apply Hd.
  - by apply refused_ok.
Qed.

Lemma fresh_reply_ok log reply delay now :
  undelivered log ->
  exists d, fresh_reply questions reply delay now commands = Some d /\ decision_ok log d.
Proof.
  intros Hu. unfold fresh_reply. destruct (match_reply questions reply) as [[selections exact|]|reason] eqn:Hm.
  - apply match_reply_Ok in Hm as (_ & Hok & _).
    destruct (existsb (refused_command commands) selections) eqn:Hc; [eexists; split; [done|]; by apply refused_ok|].
    apply refused_command_false in Hc. destruct (describe_exists _ _ Hok) as [chosen Hch]. rewrite Hch. simpl.
    destruct (plan_exists _ _ Hok) as [steps Hp]. destruct exact.
    + apply (send_or_ok log Open (Some selections) delay steps); try done. intros a -> Hv. simpl.
      split_and!; [eauto|done|done|]. exists steps, delay. split; [done|]. right. split; [done|].
      exists selections, chosen. split_and!; [by constructor|done|by left].
    + eexists. split; [done|]. split; [exact Hu|]. split; [exact Hu|]. exists chosen. split; [by constructor|done].
  - apply (send_or_ok log Open None delay skip_plan); try done. intros a -> Hv. simpl.
    split_and!; [eauto|done|done|]. exists skip_plan, delay. split; [done|]. by left.
  - eexists. split; [done|]. by apply refused_ok.
Qed.

Lemma on_reply_ok log o reply delay now :
  oq_questions o = questions -> stage_ok log (oq_stage o) ->
  exists d, on_reply o reply delay now commands = Some d /\ decision_ok log d.
Proof.
  intros Hq Hst. unfold on_reply. rewrite Hq. destruct (oq_stage o) as [|s e|s e since] eqn:Hs.
  - by apply fresh_reply_ok.
  - destruct Hst as [Hu (chosen & [Hok Hcm Hch] & Hread)]. case_bool_decide.
    + destruct (plan_exists _ _ Hok) as [steps Hp].
      apply (send_or_ok log Open (Some s) delay steps); try done. intros a -> Hv. simpl.
      split_and!; [eauto|done|done|]. exists steps, delay. split; [done|]. right. split; [done|].
      exists s, chosen. split_and!; [by constructor|done|]. by right.
    + case_bool_decide; [by eexists|]. by apply fresh_reply_ok.
  - case_match; [eexists; split; [done|]; by apply refused_ok|].
    case_match; [eexists; split; [done|]; by apply refused_ok|].
    apply (send_or_ok log (Sent s e since) None delay skip_plan); try done. intros a -> Hv. simpl.
    split_and!; [eauto|done|done|]. exists skip_plan, delay. split; [done|]. by left.
Qed.

Lemma run_log_ok rs log o :
  Forall (fun r => rp_commands r = commands) rs -> oq_questions o = questions ->
  log_ok log -> stage_ok log (oq_stage o) ->
  exists log' o', answers_run rs (log, o) = Some (log', o') /\ log_ok log' /\ stage_ok log' (oq_stage o').
Proof.
  intros Hrs. revert log o. induction Hrs as [|r rs Hr _ IH]; intros log o Hq Hlog Hst; [by exists log, o|].
  simpl. unfold on_answer. cbn [fst snd]. rewrite Hr.
  destruct (on_reply_ok log o (rp_text r) (rp_delay r) (rp_now r) Hq Hst) as (d & -> & Hd). simpl.
  destruct (execute_ok log d (rp_post r) (rp_taken r) Hd Hlog) as [Hl Hs]. by apply IH.
Qed.

(** C24: Nothing is answered that the operator has not seen. Whatever replies
    arrive while a question is open, whenever they come and whichever posts and
    sends fail, no reply panics, and every key sequence sent is within the
    daemon's limits and is either one announced Escape, or the plan of
    selections shown to the operator first: with the reply that matched them
    exactly, or by an earlier reading. Such a plan is sent only while no keys
    have been delivered, so never on a dialog whose cursor may have moved, and
    its free text is no command off the channel's list. *)
Theorem answers_are_seen (rs : list Reply) (posted notified : bool)
    (Hcommands : Forall (fun r => rp_commands r = commands) rs) :
  exists log o, answers_run rs ([], mkOpen questions Open posted notified) = Some (log, o) /\
    log_ok log /\ stage_ok log (oq_stage o).
Proof. apply run_log_ok; [done|done|exact I|by constructor]. Qed.
End seen.
End reply.

(** ** One "needs you" line per question *)

(** What the answer flow, the hooks and a new question do to an agent's record. *)
Inductive QOp := QSet (agent : string) (stage : Stage) | QPosted (agent : string) | QPrompt (agent : string).

Definition qstep (op : QOp) (st : list (string * bool) * Questions) : list (string * bool) * Questions :=
  match op with
  | QSet agent stage => (st.1, set_stage agent stage st.2)
  | QPosted agent => (st.1, mark_posted agent st.2)
  | QPrompt agent => let '(swallowed, qs) := suppress_permission_prompt agent st.2 in ((agent, swallowed) :: st.1, qs)
  end.

Definition swallowed (agent : string) (l : list (string * bool)) : nat := length (filter (fun x => x = (agent, true)) l).

Lemma swallowed_cons agent a b l :
  swallowed agent ((a, b) :: l) = (if bool_decide (a = agent) && b then 1 else 0) + swallowed agent l.
Proof.
  unfold swallowed. rewrite filter_cons. case_decide as Hd.
  - injection Hd as -> ->. by rewrite bool_decide_eq_true_2.
  - case_bool_decide; [|done]. destruct b; [by subst|done].
Qed.

(** At most one permission prompt is swallowed for a question. *)
Lemma one_prompt_swallowed ops agent qs :
  swallowed agent (foldl (fun st op => qstep op st) ([], qs) ops).1 <= 1.
Proof.
  assert (forall st, let notified := match st.2 !! agent with Some o => oq_notified o | None => true end in
            swallowed agent st.1 <= (if notified : bool then 1 else 0) ->
            swallowed agent (foldl (fun st op => qstep op st) st ops).1 <= 1) as Hrun.
  { induction ops as [|op ops IH]; intros [l s] notified Hn; [subst notified; simpl in *; by repeat case_match; lia|].
    simpl. apply IH. clear IH. subst notified. simpl in *.
    destruct op as [a stage|a|a]; simpl; unfold set_stage, mark_posted, suppress_permission_prompt.
    - destruct (decide (a = agent)) as [->|?]; [rewrite lookup_alter_eq|by rewrite lookup_alter_ne].
      by destruct (s !! agent).
    - destruct (decide (a = agent)) as [->|?]; [rewrite lookup_alter_eq|by rewrite lookup_alter_ne].
      by destruct (s !! agent).
    - destruct (s !! a) as [o|] eqn:Ho; [|simpl; by rewrite swallowed_cons, andb_false_r].
      destruct (_ || _) eqn:Hb; simpl; rewrite swallowed_cons; [by rewrite andb_false_r|].
      apply orb_false_iff in Hb as [[_ Hb]%orb_false_iff _].
      case_bool_decide; simpl; [subst; rewrite lookup_insert_eq; rewrite Ho, Hb in Hn; simpl; lia|].
      by rewrite lookup_insert_ne. }
  apply Hrun. unfold swallowed. simpl. by repeat case_match; lia.
Qed.

(** ** A sample *)

#[local] Instance answer_unicode : Unicode := fun _ => false.

Definition sample_replies : list Reply :=
  let r text now post := {| rp_text := text; rp_now := now; rp_delay := 100; rp_commands := allowlist_default;
                            rp_post := post; rp_taken := true |} in
  [r "gre" (secs 1) (Some "$1"); r "yes" (secs 2) None; r "red" (secs 3) (Some "$2"); r "skip" (secs 40) (Some "$3")].

Lemma answers_are_seen_witness :
  exists log o, answers_run sample_replies ([], mkOpen [color] Open true false) = Some (log, o) /\
    tn_action <$> log = [Some (SendKeys skip_plan 100); None; Some (SendKeys [StepKey Down; StepKey Enter] 100); None] /\
    log_ok [color] allowlist_default log.
Proof.
  destruct (answers_are_seen [color] allowlist_default sample_replies true false) as (log & o & Hrun & Hlog & _).
  { repeat constructor. }
  exists log, o. split; [exact Hrun|]. split; [|exact Hlog].
  vm_compute in Hrun. injection Hrun as <- _. vm_compute. reflexivity.
Defined.
