(* ===== verification/Layout.v ===== *)
(** Where everything lives ([crates/balerix-runtime/src/layout.rs]), an agent's
    environment ([env.rs]) and the shell quoting of its launch script
    ([quote.rs]). A [PathBuf] is its string. *)

From S2P Require Import Prelude Str BTree Names Paths.

(** ** Quoting *)

Definition single : ascii := ascii_of_N 39.
Definition backslash_byte : ascii := ascii_of_N 92.

(** A quote is one byte, so bytes and characters agree. *)
Fixpoint quote_body (s : string) : string :=
  match s with
  | EmptyString => EmptyString
  | String c r =>
      if Ascii.eqb c single
      then String single (String backslash_byte (String single (String single (quote_body r))))
      else String c (quote_body r)
  end.

Definition sh_quote (s : string) : string := String single (quote_body s +:+ String single EmptyString).

(** ** The layout *)

Record PodMounts := { pm_agent : string; pm_shared : string; pm_run : string }.
Record PodLayout := { pl_mounts : PodMounts; pl_id : AgentId }.
Record StateLayout := {
  sl_state_root : string;
  sl_data_root : string;
  sl_config_root : string;
  sl_pod : option PodLayout;
}.

Record FleetPaths := { fp_root : string; fp_mise_toml : string }.
Record CrewPaths := { cp_root : string; cp_repo : string; cp_logs : string }.
Record AgentPaths := {
  ap_root : string;
  ap_home : string;
  ap_workspace : string;
  ap_nono_home : string;
  ap_mise_toml : string;
  ap_profile : string;
  ap_launch : string;
  ap_git_profile : string;
  ap_logs : string;
}.
Record PluginPaths := {
  pp_root : string;
  pp_home : string;
  pp_nono_home : string;
  pp_kv : string;
  pp_scratch : string;
  pp_profile : string;
  pp_launch : string;
  pp_logs : string;
}.

Definition tmux_socket (p : PodLayout) : string := path_join (pm_run (pl_mounts p)) "tmux.sock".
Definition start_marker (p : PodLayout) : string := path_join (pm_run (pl_mounts p)) "started".
Definition ready_marker (p : PodLayout) : string := path_join (pm_run (pl_mounts p)) "ready".

(** [SharedSlice], by its root. *)
Definition slice_crew (root : string) : CrewPaths :=
  let crew := path_join root "crew" in
  {| cp_repo := path_join root "repo"; cp_logs := path_join crew "logs"; cp_root := crew |}.
Definition slice_fleet (root : string) : FleetPaths :=
  let fleet := path_join root "fleet" in {| fp_mise_toml := path_join fleet "mise.toml"; fp_root := fleet |}.
Definition daemon_root (root : string) : string := path_join root "daemon".
Definition daemon_pool (root : string) : string := path_join (daemon_root root) "mise".

(** [pool_paths]. *)
Definition pool (root : string) : string := path_join root "mise".
Definition marker (root : string) : string := path_join root "mise.installed".

Definition crew_mise_toml (c : CrewPaths) : string := path_join (cp_root c) "mise.toml".
Definition cache_objects (c : CrewPaths) : string := path_join (path_join (cp_repo c) ".git") "objects".
Definition no_hooks (c : CrewPaths) : string := path_join (cp_root c) "no-hooks".

Definition xdg (state_root data_root config_root : string) : StateLayout :=
  {| sl_state_root := state_root; sl_data_root := data_root; sl_config_root := config_root; sl_pod := None |}.

Definition from_env (home : string) (env : string -> option string) : StateLayout :=
  let pick var d := path_join (default d (env var)) "balerix" in
  xdg (pick "XDG_STATE_HOME" (path_join (path_join home ".local") "state"))
      (pick "XDG_DATA_HOME" (path_join (path_join home ".local") "share"))
      (pick "XDG_CONFIG_HOME" (path_join home ".config")).

Definition pod_layout (mounts : PodMounts) (id : AgentId) : StateLayout :=
  let roots := path_join (pm_agent mounts) ".balerix" in
  {| sl_state_root := path_join roots "state"; sl_data_root := path_join roots "data";
     sl_config_root := path_join roots "config"; sl_pod := Some {| pl_mounts := mounts; pl_id := id |} |}.

Section layout.
Context (l : StateLayout).

Definition mise_data_dir : string :=
  match sl_pod l with
  | Some p => daemon_pool (pm_shared (pl_mounts p))
  | None => path_join (sl_data_root l) "mise"
  end.
Definition server_dir : string := path_join (sl_state_root l) "server".
Definition fleets_dir : string := path_join (sl_state_root l) "fleets".
Definition managed_dir : string := path_join (sl_state_root l) "managed".
Definition fleet_dir (f : FleetName) : string := path_join fleets_dir (name_str f).
Definition fleet_gh_dir (f : FleetName) : string := path_join (fleet_dir f) "gh".

Definition crew_paths (c : CrewRef) : CrewPaths :=
  let root := path_join (path_join (fleet_dir (cr_fleet c)) "crews") (name_str (cr_crew c)) in
  let own := {| cp_repo := path_join root "repo"; cp_logs := path_join root "logs"; cp_root := root |} in
  match sl_pod l with
  | Some p =>
      if bool_decide (crew_ref (pl_id p) = c) then
        let slice := slice_crew (pm_shared (pl_mounts p)) in
        {| cp_repo := cp_repo slice; cp_logs := path_join (sl_state_root l) "crew-logs"; cp_root := cp_root slice |}
      else own
  | None => own
  end.

Definition fleet_paths (f : FleetName) : FleetPaths :=
  let own := {| fp_mise_toml := path_join (fleet_dir f) "mise.toml"; fp_root := fleet_dir f |} in
  match sl_pod l with
  | Some p => if bool_decide (id_fleet (pl_id p) = f) then slice_fleet (pm_shared (pl_mounts p)) else own
  | None => own
  end.

Definition agent_root (id : AgentId) : string :=
  let own := path_join (path_join (path_join (path_join (fleet_dir (id_fleet id)) "crews")
               (name_str (id_crew id))) "agents") (name_str (id_agent id)) in
  match sl_pod l with
  | Some p => if bool_decide (pl_id p = id) then pm_agent (pl_mounts p) else own
  | None => own
  end.

Definition agent_paths (id : AgentId) : AgentPaths :=
  let root := agent_root id in
  {| ap_home := path_join root "home"; ap_workspace := path_join root "workspace";
     ap_nono_home := path_join root "nono"; ap_mise_toml := path_join root "mise.toml";
     ap_profile := path_join root "nono-profile.json"; ap_launch := path_join root "launch.sh";
     ap_git_profile := path_join root "nono-git-profile.json"; ap_logs := path_join root "logs"; ap_root := root |}.

Definition plugins_state_dir : string := path_join (sl_state_root l) "plugins".
Definition plugins_data_dir : string := path_join (sl_data_root l) "plugins".

Definition plugin_paths (n : AgentName) : PluginPaths :=
  let root := path_join plugins_state_dir (name_str n) in
  {| pp_home := path_join root "home"; pp_nono_home := path_join root "nono"; pp_kv := path_join root "kv";
     pp_scratch := path_join root "scratch"; pp_profile := path_join root "nono-profile.json";
     pp_launch := path_join root "launch.sh"; pp_logs := path_join root "logs"; pp_root := root |}.

Definition agent_pools (id : AgentId) : list string :=
  [pool (cp_root (crew_paths (crew_ref id))); pool (fp_root (fleet_paths (id_fleet id))); mise_data_dir].

Definition shared_list (pools : list string) : string := join ":" ((fun p => path_join p "installs") <$> pools).
Definition shared_install_dirs (id : AgentId) : string := shared_list (agent_pools id).
End layout.

(** ** [AgentPaths] *)

Section agent_paths.
Context (p : AgentPaths).

Definition installed_marker : string := path_join (ap_root p) ".installed".
Definition branch_marker : string := path_join (ap_root p) ".branch".
Definition claude_dir : string := path_join (ap_home p) ".claude".
Definition tmp_dir : string := path_join (ap_home p) "tmp".
Definition claude_projects : string := path_join claude_dir "projects".
Definition xdg_config : string := path_join (ap_home p) ".config".
Definition xdg_data : string := path_join (path_join (ap_home p) ".local") "share".
Definition xdg_state : string := path_join (path_join (ap_home p) ".local") "state".
Definition xdg_cache : string := path_join (ap_home p) ".cache".
Definition gh_dir : string := path_join xdg_config "gh".
Definition mise_root : string := path_join (ap_root p) "mise".
Definition mise_config_dir : string := path_join mise_root "config".
Definition mise_state_dir : string := path_join mise_root "state".
Definition mise_cache_dir : string := path_join mise_root "cache".
Definition mise_data : string := path_join mise_root "data".
Definition mise_dirs : list string := [mise_config_dir; mise_data; mise_state_dir; mise_cache_dir].
End agent_paths.

(** ** The environment: [env.rs] *)

Section env.
Context (id : AgentId) (p : AgentPaths) (l : StateLayout) (api_url hook_secret : string).

(** The isolation rows. *)
Definition env_rows : list (string * string) := [
  ("HOME", ap_home p); ("XDG_CONFIG_HOME", xdg_config p); ("XDG_DATA_HOME", xdg_data p);
  ("XDG_STATE_HOME", xdg_state p); ("XDG_CACHE_HOME", xdg_cache p); ("TMPDIR", tmp_dir p);
  ("CLAUDE_CODE_TMPDIR", tmp_dir p); ("CLAUDE_CONFIG_DIR", claude_dir p); ("GH_CONFIG_DIR", gh_dir p);
  ("MISE_GLOBAL_CONFIG_FILE", ap_mise_toml p); ("MISE_CEILING_PATHS", ap_root p); ("MISE_AUTO_INSTALL", "false");
  ("MISE_DATA_DIR", mise_data p); ("MISE_SHARED_INSTALL_DIRS", shared_install_dirs l id);
  ("MISE_CONFIG_DIR", mise_config_dir p); ("MISE_STATE_DIR", mise_state_dir p); ("MISE_CACHE_DIR", mise_cache_dir p);
  ("BALERIX_FLEET", to_string (id_fleet id)); ("BALERIX_CREW", to_string (id_crew id));
  ("BALERIX_AGENT", to_string (id_agent id)); ("BALERIX_AGENT_ID", to_string id); ("BALERIX_API_URL", api_url);
  ("BALERIX_HOOK_SECRET", hook_secret)].

Definition env_defaults : list (string * string) := [("TERM", "tmux-256color"); ("COLORTERM", "truecolor")].

(** [entry(k).or_insert(v)]. *)
Definition or_insert (env : gmap string string) (kv : string * string) : gmap string string :=
  match env !! kv.1 with Some _ => env | None => <[kv.1 := kv.2]> env end.

Definition agent_env (user_env : gmap string string) : gmap string string :=
  foldl or_insert (foldl or_insert (list_to_map env_rows) (entries user_env)) env_defaults.
End env.

(** ** Paths *)

(** A file name, as every name the layout appends. *)
Definition plain_name (s : string) : Prop :=
  s <> EmptyString /\ s <> "." /\ s <> ".." /\ lacks "/"%char s = true.

Lemma component_plain s : plain_name s -> component s = Some (Normal s).
Proof.
  intros (He & Hd & Hdd & _). unfold component, is_empty. by rewrite !bool_decide_eq_false_2.
Qed.

Lemma split_snoc a s : lacks "/"%char s = true ->
  split_char "/"%char (a +:+ String "/"%char s) = split_char "/"%char a ++ [s].
Proof. intros Hs. rewrite split_char_app_sep. by rewrite (split_char_lacks _ s Hs). Qed.

Lemma is_absolute_spec s : is_absolute s = true <-> exists r, s = String "/"%char r.
Proof. apply (starts_with_spec s "/"). Qed.

Lemma components_snoc b s : b <> EmptyString -> lacks "/"%char s = true ->
  components (b +:+ String "/"%char s) = components b ++ omap component [s].
Proof.
  intros Hb Hs. unfold components.
  assert (is_absolute (b +:+ String "/"%char s) = is_absolute b) as ->.
  { destruct b as [|d b]; [done|]. apply eq_true_iff_eq. rewrite !is_absolute_spec. simpl.
    split; intros [r Hr]; injection Hr as -> <-; eauto. }
  rewrite split_snoc by done. destruct (is_absolute b); [by rewrite omap_app|].
  destruct (split_char "/"%char b) as [|f r] eqn:Hsp; [by apply split_char_nonempty in Hsp|].
  rewrite <- app_comm_cons, omap_app. by rewrite app_assoc.
Qed.

Lemma plain_relative s : plain_name s -> is_absolute s = false.
Proof.
  intros (He & _ & _ & Hl). apply not_true_iff_false. rewrite is_absolute_spec.
  intros [r ->]. done.
Qed.

(** Joining a file name adds its component. *)
Lemma components_join a s : plain_name s -> components (path_join a s) = components a ++ [Normal s].
Proof.
  intros Hs. pose proof Hs as (He & Hd & Hdd & Hl). pose proof (component_plain s Hs) as Hc.
  unfold path_join. rewrite (plain_relative s Hs).
  destruct a as [|c a'] eqn:Ha.
  { change (components s = [Normal s]). unfold components. rewrite (plain_relative s Hs), (split_char_lacks _ s Hl).
    rewrite bool_decide_eq_false_2 by done. simpl. by rewrite Hc. }
  rewrite <- Ha. assert (a <> EmptyString) by (by subst). assert (is_empty a = false) as -> by (by subst).
  simpl orb. destruct (ends_with a "/") eqn:Hend.
  - apply ends_with_spec in Hend as [b Hb]. rewrite Hb. rewrite app_assoc_string. simpl.
    change ("/" +:+ s) with (String "/"%char s). change (b +:+ "/") with (b +:+ String "/"%char EmptyString).
    destruct b as [|d b]; [|by rewrite !components_snoc by done; simpl; rewrite Hc, app_nil_r].
    change (RootDir :: omap component (split_char "/"%char s) = [RootDir; Normal s]).
    rewrite (split_char_lacks _ s Hl). simpl. by rewrite Hc.
  - change ("/" +:+ s) with (String "/"%char s). rewrite components_snoc by done. simpl. by rewrite Hc.
Qed.

Lemma name_plain {k} (n : name k) : plain_name (name_str n).
Proof.
  destruct (proj1 (validate_name_Ok _) (name_valid n)) as (He & _ & Hb & _).
  split_and!; [done| | |apply name_no_slash]; intros Hs; rewrite Hs in Hb; done.
Qed.

Ltac plain := first [apply name_plain | by split_and!].

(** ** Where the agents live on one machine *)

Definition below (base : string) (names : list string) (p : string) : Prop :=
  components p = components base ++ (Normal <$> names).

Lemma below_join base names p s :
  below base names p -> plain_name s -> below base (names ++ [s]) (path_join p s).
Proof. unfold below. intros Hp Hs. rewrite components_join, Hp, fmap_app, app_assoc by done. done. Qed.

Lemma below_self base : below base [] base.
Proof. unfold below. simpl. by rewrite app_nil_r. Qed.

Lemma below_starts_with base n1 n2 p q :
  below base n1 p -> below base n2 q -> path_starts_with p q = bool_decide (n2 `prefix_of` n1).
Proof.
  unfold below, path_starts_with. intros -> ->. apply bool_decide_ext. split.
  - intros Hp%prefix_app_inv. revert Hp. generalize n1 n2. clear. intros n1.
    induction n1 as [|x n1 IH]; intros [|y n2] Hp; simpl in *; try apply prefix_nil.
    + by apply prefix_nil_inv in Hp.
    + pose proof (prefix_cons_inv_1 _ _ _ _ Hp) as [= ->]. apply prefix_cons, IH.
      by apply prefix_cons_inv_2 in Hp.
  - intros [k ->]. apply prefix_app. rewrite fmap_app. by exists (Normal <$> k).
Qed.

Section machine.
Context (l : StateLayout) (Hmachine : sl_pod l = None).

Definition fleet_names (f : FleetName) : list string := ["fleets"; name_str f].
Definition crew_names (c : CrewRef) : list string := fleet_names (cr_fleet c) ++ ["crews"; name_str (cr_crew c)].
Definition agent_names (id : AgentId) : list string :=
  crew_names (crew_ref id) ++ ["agents"; name_str (id_agent id)].

Lemma fleet_dir_below f : below (sl_state_root l) (fleet_names f) (fleet_dir l f).
Proof. apply (below_join _ ["fleets"]); [apply (below_join _ [])|]; [apply below_self|plain..]. Qed.

Lemma fleet_root_below f : below (sl_state_root l) (fleet_names f) (fp_root (fleet_paths l f)).
Proof. unfold fleet_paths. rewrite Hmachine. apply fleet_dir_below. Qed.

Lemma crew_root_below c : below (sl_state_root l) (crew_names c) (cp_root (crew_paths l c)).
Proof.
  unfold crew_paths. rewrite Hmachine. simpl.
  apply (below_join _ (fleet_names (cr_fleet c) ++ ["crews"])); [|plain].
  apply below_join; [apply fleet_dir_below|plain].
Qed.

Lemma cache_below c :
  below (sl_state_root l) (crew_names c ++ ["repo"; ".git"; "objects"]) (cache_objects (crew_paths l c)).
Proof.
  pose proof (crew_root_below c) as Hc. unfold cache_objects, crew_paths in *. rewrite Hmachine in *.
  apply (below_join _ (crew_names c ++ ["repo"; ".git"])); [|plain].
  apply (below_join _ (crew_names c ++ ["repo"])); [|plain].
  apply (below_join _ (crew_names c)); [exact Hc|plain].
Qed.

Lemma agent_root_below id : below (sl_state_root l) (agent_names id) (agent_root l id).
Proof.
  unfold agent_root. rewrite Hmachine.
  apply (below_join _ (crew_names (crew_ref id) ++ ["agents"])); [|plain].
  apply below_join; [|plain].
  apply (below_join _ (fleet_names (id_fleet id) ++ ["crews"])); [|plain].
  apply below_join; [apply fleet_dir_below|plain].
Qed.
End machine.

(** ** The environment *)

Lemma foldl_or_insert env rows : foldl or_insert env rows = env ∪ list_to_map rows.
Proof.
  revert env. induction rows as [|[k v] rows IH]; intros env; simpl; [by rewrite map_union_empty|].
  rewrite IH. unfold or_insert. simpl. apply map_eq. intros j. rewrite !lookup_union.
  destruct (env !! k) as [w|] eqn:Hk; destruct (decide (j = k)) as [->|Hj];
    rewrite ?lookup_insert_eq, ?lookup_insert_ne, ?Hk by done; simpl.
  - by destruct (list_to_map rows !! k).
  - done.
  - by destruct (list_to_map rows !! k).
  - done.
Qed.

(** What isolates an agent is not the user's to set: in the environment an
    agent gets, every isolation row holds balerix's value, any other variable
    is the user's, and only one the user does not set falls back to a
    terminal default. *)
Theorem env_isolated id p l url secret user :
  agent_env id p l url secret user =
    list_to_map (env_rows id p l url secret) ∪ user ∪ list_to_map env_defaults /\
  forall k v, (k, v) ∈ env_rows id p l url secret -> agent_env id p l url secret user !! k = Some v.
Proof.
  assert (agent_env id p l url secret user =
    list_to_map (env_rows id p l url secret) ∪ user ∪ list_to_map env_defaults) as Hu.
  { unfold agent_env. by rewrite !foldl_or_insert, list_to_map_entries. }
  split; [exact Hu|]. intros k v Hkv. rewrite Hu, !lookup_union.
  assert (NoDup (env_rows id p l url secret).*1) as Hnd.
  { apply (bool_decide_unpack (NoDup _)). vm_compute. exact I. }
  rewrite (elem_of_list_to_map_1 _ k v Hnd Hkv).
  by destruct (user !! k), (list_to_map env_defaults !! k).
Qed.
