(* ===== verification/Sandbox.v ===== *)
(** The profile an agent runs under ([crates/balerix-runtime/src/sandbox.rs],
    [socket_policy.rs]): what balerix grants, what it refuses of a [sandbox]
    block, the merge of the two and the socket policy over it. The filesystem
    ([canonicalize], [read_link]) is a parameter. *)

From S2P Require Import Prelude Str BTree Names Paths Json SandboxBlock Execute Layout.

(** ** [std::path] *)

Definition skipped_segment (s : string) : bool := is_empty s || bool_decide (s = ".").

(** A segment list without the segments at its end that name nothing. *)
Definition trim_segments (l : list string) : list string :=
  rev ((fix go r := match r with s :: r' => if skipped_segment s then go r' else r | [] => [] end) (rev l)).

(** [Path::parent]. *)
Definition parent (p : string) : option string :=
  match split_char "/"%char p with
  | first :: rest =>
      match rev (trim_segments rest) with
      | _ :: front =>
          let kept := trim_segments (rev front) in
          Some (if is_absolute p && bool_decide (kept = []) then "/" else join "/" (first :: kept))
      | [] => if is_empty first then None else Some EmptyString
      end
  | [] => None
  end.

(** [Path::file_name]. *)
Definition file_name (p : string) : option string :=
  match last (components p) with Some (Normal s) => Some s | _ => None end.

(** ** What balerix grants *)

Definition SYSTEM_READ : list string := ["/usr"; "/lib"; "/lib64"; "/bin"; "/etc"].

Record Grants := { g_read : list string; g_allow : list string }.

Section grants.
Context (canonicalize : string -> option string).

Definition balerix_grants (id : AgentId) (paths : AgentPaths) (crew : CrewPaths) (layout : StateLayout)
    (balerix mise : string) : Grants :=
  {| g_read := SYSTEM_READ ++ agent_pools layout id ++
       [ap_mise_toml paths; balerix; default mise (canonicalize mise); cache_objects crew];
     g_allow := [ap_home paths; ap_workspace paths] ++ mise_dirs paths |}.
End grants.

Definition strs (paths : list string) : Value := VArray (VString <$> paths).

Definition object_of (fields : list (string * Value)) : Value := VObject (list_to_map fields).

(** ** Merging the block *)

(** nono's [extends] rules. A [BTreeMap] has each key once, so the entry the
    loop removes from [b] is the one [b] came with. *)
Fixpoint merge_profile (base user : Value) {struct user} : Value :=
  match user with
  | VObject u =>
      match base with
      | VObject b =>
          VObject (map_fold (fun k v out =>
            <[k := match b !! k with Some existing => merge_profile existing v | None => v end]> out) b u)
      | _ => user
      end
  | VArray u =>
      match base with
      | VArray b => VArray (foldl (fun b v => if bool_decide (v ∈ b) then b else b ++ [v]) b u)
      | _ => user
      end
  | _ => user
  end.

(** ** Conflicts *)

Definition level (key : string) : option string :=
  if str_in key ["read"; "read_file"] then Some "read"
  else if str_in key ["allow"; "allow_file"] then Some "allow"
  else if str_in key ["write"; "write_file"] then Some "write"
  else None.

(** Equal paths start with each other. *)
Definition overlaps (a b : string) : bool := path_starts_with a b || path_starts_with b a.

Definition entry_path (v : Value) : option string :=
  match v with
  | VString s => Some s
  | VObject m => m !! "path" ≫= as_str
  | _ => None
  end.

Section conflicts.
Context (id : AgentId).

Definition conflict (path message : string) : MaterializeError :=
  MSandboxConflict (to_string id) path message.

Definition check_security (block : gmap string Value) (prefix : string) : result MaterializeError unit :=
  match block !! "security" with
  | None => Ok tt
  | Some (VObject security) =>
      ensure (negb (bool_decide (is_Some (security !! "signal_mode"))))
        (conflict (prefix +:+ "security.signal_mode") "balerix-owned; agents stay signal-isolated")
  | Some _ => Err (conflict (prefix +:+ "security") "expected an object")
  end.

Definition check_linux (block : gmap string Value) (prefix : string) : result MaterializeError unit :=
  match block !! "linux" with
  | Some (VObject linux) =>
      ensure (negb (bool_decide (is_Some (linux !! "af_unix_mediation"))))
        (conflict (prefix +:+ "linux.af_unix_mediation")
           "balerix-owned; set [sandbox] unix_sockets in the daemon's config.toml")
  | _ => Ok tt
  end.

(** The body of [for (i, item) in items.iter().enumerate()]. *)
Definition check_item (grants : Grants) (key user_level : string) (x : nat * Value)
    : result MaterializeError unit :=
  let '(i, item) := x in
  match entry_path item with
  | None => Ok tt
  | Some p =>
      let hits := ((fun g => (g, "read")) <$> g_read grants) ++ ((fun g => (g, "allow")) <$> g_allow grants) in
      try_each (fun '(g, balerix_level) =>
        ensure (negb (overlaps p g && negb (bool_decide (balerix_level = user_level))))
          (conflict ("filesystem." +:+ key +:+ "[" +:+ pretty (N.of_nat i) +:+ "]")
             (p +:+ " overlaps balerix " +:+ balerix_level +:+ " path " +:+ g))) hits
  end.

Definition check_list (grants : Grants) (e : string * Value) : result MaterializeError unit :=
  let '(key, items) := e in
  match level key with
  | None => Ok tt
  | Some user_level =>
      match items with
      | VArray items => try_each (check_item grants key user_level) (imap pair items)
      | _ => Err (conflict ("filesystem." +:+ key) "expected an array")
      end
  end.

Definition check_patch (e : string * Value) : result MaterializeError unit :=
  match e.2 with
  | VObject patch =>
      let prefix := "platform_overrides." +:+ e.1 +:+ "." in
      _ ← check_security patch prefix; check_linux patch prefix
  | _ => Ok tt
  end.

Definition check_conflicts (user : Value) (grants : Grants) : result MaterializeError unit :=
  match user with
  | VObject u =>
      _ ← ensure (negb (bool_decide (is_Some (u !! "environment"))))
            (conflict "environment" "balerix-owned; set variables through `env` instead");
      _ ← ensure (negb (bool_decide (is_Some (u !! "meta")))) (conflict "meta" "balerix-owned");
      _ ← check_security u EmptyString;
      _ ← check_linux u EmptyString;
      _ ← match u !! "platform_overrides" with
          | None => Ok tt
          | Some (VObject os) => try_each check_patch (entries os)
          | Some _ => Err (conflict "platform_overrides" "expected an object")
          end;
      match u !! "filesystem" with
      | None => Ok tt
      | Some (VObject fs) => try_each (check_list grants) (entries fs)
      | Some _ => Err (conflict "filesystem" "expected an object")
      end
  | _ => Ok tt
  end.
End conflicts.

(** ** The profile *)

Definition isolated : Value := object_of [("security", object_of [("signal_mode", VString "isolated")])].

Definition base_profile (id : AgentId) (grants : Grants) (daemon_port : N) (env : gmap string string) : Value :=
  object_of [
    ("meta", object_of [
      ("name", VString ("balerix-" +:+ to_string (id_fleet id) +:+ "-" +:+ to_string (id_crew id) +:+ "-" +:+
                        to_string (id_agent id)));
      ("description", VString ("generated by balerix for " +:+ to_string id))]);
    ("filesystem", object_of [("read", strs (g_read grants)); ("allow", strs (g_allow grants))]);
    ("workdir", object_of [("access", VString "none")]);
    ("network", object_of [("open_port", VArray [VNumber (PosInt daemon_port)])]);
    ("environment", object_of [("deny_vars", VArray [VString "*"]); ("set_vars", VObject (VString <$> env))]);
    ("security", object_of [("signal_mode", VString "isolated")]);
    ("platform_overrides", object_of [("linux", isolated); ("macos", isolated)])].

Definition render_profile (id : AgentId) (grants : Grants) (daemon_port : N) (env : gmap string string)
    (user : Value) : result MaterializeError Value :=
  _ ← check_conflicts id user grants;
  Ok (merge_profile (base_profile id grants daemon_port env) user).

Definition render_git_profile (canonicalize : string -> option string) (id : AgentId) (paths : AgentPaths)
    (crew : CrewPaths) (git exec_path : string) (git_read : list string) : Value :=
  let read := SYSTEM_READ ++ [default git (canonicalize git); exec_path] ++ git_read ++
    [cache_objects crew; no_hooks crew; ap_workspace paths] in
  let ceiling := default (ap_root paths) (canonicalize (ap_root paths)) in
  object_of [
    ("meta", object_of [
      ("name", VString ("balerix-git-" +:+ to_string (id_fleet id) +:+ "-" +:+ to_string (id_crew id) +:+ "-" +:+
                        to_string (id_agent id)));
      ("description", VString ("generated by balerix for its own git in " +:+ to_string id +:+ "'s clone"))]);
    ("filesystem", object_of [("read", strs read)]);
    ("workdir", object_of [("access", VString "none")]);
    ("network", object_of [("block", VBool true)]);
    ("environment", object_of [
      ("deny_vars", VArray [VString "*"]);
      ("set_vars", object_of [
        ("GIT_OPTIONAL_LOCKS", VString "0"); ("GIT_NO_LAZY_FETCH", VString "1");
        ("GIT_TERMINAL_PROMPT", VString "0"); ("GIT_CONFIG_NOSYSTEM", VString "1");
        ("GIT_CEILING_DIRECTORIES", VString ceiling)])])].

Definition render_mise_profile (name description : string) (grants : Grants) (set_vars : gmap string string)
    (allow_vars : list string) : Value :=
  object_of [
    ("meta", object_of [("name", VString name); ("description", VString description)]);
    ("filesystem", object_of [("read", strs (g_read grants)); ("allow", strs (g_allow grants))]);
    ("workdir", object_of [("access", VString "none")]);
    ("environment", object_of [("allow_vars", strs allow_vars); ("set_vars", VObject (VString <$> set_vars))]);
    ("security", object_of [("signal_mode", VString "isolated")])].

(** ** balerix's own roots *)

Section roots.
Context `{Unicode} (canonicalize read_link : string -> option string).

(** [lexical]: [PathBuf::pop] leaves a path without a parent as it is; an
    absolute component replaces. *)
Definition lexical (path : string) : string :=
  foldl (fun out c =>
    match c with
    | ParentDir => default out (parent out)
    | CurDir => out
    | RootDir => path_join out "/"
    | Normal s => path_join out s
    end) EmptyString (components path).

(** [finish]: [rest] holds the names cut off, the last one cut first. *)
Definition finish (rest : list string) (base : string) : string := foldl path_join base rest.

(** The [loop] of [resolve_links]: [fuel] bounds the steps up, each of which
    shortens [existing]; [again] is the call on a link's target. *)
Fixpoint resolve_loop (again : option (string -> string)) (path : string) (fuel : nat) (existing : string)
    (rest : list string) : string :=
  match canonicalize existing with
  | Some canon => finish rest canon
  | None =>
      match again, read_link existing, parent existing with
      | Some again, Some target, Some up =>
          let base := default up (canonicalize up) in
          again (finish rest (lexical (path_join base target)))
      | _, _, _ =>
          match parent existing, file_name existing, fuel with
          | Some up, Some name, S fuel => resolve_loop again path fuel up (name :: rest)
          | _, _, _ => path
          end
      end
  end.

Fixpoint resolve_links (links : nat) (path : string) : string :=
  resolve_loop (match links with S links => Some (resolve_links links) | O => None end)
    path (String.length path) path [].

Definition resolve_existing (path : string) : string := resolve_links 40 path.

(** A root or socket directory by its name: as written and as resolved. *)
Definition named_forms (r : string * string) : string * list string := (r.1, [r.2; resolve_existing r.2]).

Record RootCheck := {
  rc_policy : SandboxPolicy;
  rc_roots : list (string * list string);
  rc_sockets : list (string * list string);
  rc_read_only : list string;
  rc_read_write : list string;
}.

Definition hint (p : SandboxPolicy) : string :=
  match p with
  | PolicyPlugin => "a plugin may name only paths in its home/ or scratch/ there, or read its package or the mise pool"
  | PolicyFleet =>
      "an agent may name only paths in its home/ or workspace/ there, or read its tool pools, its mise.toml or its crew's object cache"
  end.

(** One form of a grant against one form of a root, and of a socket directory. *)
Definition root_form (c : RootCheck) (raw : string) (granted : bool) (what root form : string) : result string unit :=
  _ ← ensure (negb (path_starts_with root form))
        (raw +:+ " covers balerix's " +:+ what +:+ " root " +:+ root);
  ensure (negb (path_starts_with form root && negb granted))
    (raw +:+ " is inside balerix's " +:+ what +:+ " root " +:+ root +:+ "; " +:+ hint (rc_policy c)).

Definition socket_form (raw what dir form : string) : result string unit :=
  _ ← ensure (negb (path_starts_with form dir))
        (raw +:+ " is inside balerix's " +:+ what +:+ " " +:+ dir +:+ "; sandbox grants may not name it");
  ensure (negb (path_starts_with dir form))
    (raw +:+ " covers balerix's " +:+ what +:+ " " +:+ dir +:+ "; sandbox grants may not name it").

(** [RootCheck::grant]. *)
Definition check_grant (c : RootCheck) (entry : BlockGrant) : result string unit :=
  let raw := bg_raw entry in
  let resolved := resolve_existing (bg_path entry) in
  _ ← ensure (negb (existsb (path_starts_with resolved) REFUSED_PREFIXES))
        (raw +:+ " leads to " +:+ resolved +:+ "; paths under /proc and /dev/fd are not accepted");
  let forms := [bg_path entry; resolved] in
  let inside gs := existsb (path_starts_with resolved) gs in
  let granted := inside (rc_read_write c) ||
    match bg_access entry with AccessRead => inside (rc_read_only c) | _ => false end in
  _ ← try_each (fun '(what, ds) => try_each (fun root => try_each (root_form c raw granted what root) forms) ds)
        (rc_roots c);
  try_each (fun '(what, ds) => try_each (fun dir => try_each (socket_form raw what dir) forms) ds) (rc_sockets c).

Definition check_roots (id : AgentId) (user : Value) (policy : SandboxPolicy) (roots sockets : list (string * string))
    (read_only read_write : list string) : result MaterializeError unit :=
  match user with
  | VObject _ =>
      gs ← map_err (fun r => conflict id (sr_at r) (sr_message r)) (check_sandbox_block policy user);
      let ctx := {| rc_policy := policy; rc_roots := named_forms <$> roots; rc_sockets := named_forms <$> sockets;
                    rc_read_only := resolve_existing <$> read_only;
                    rc_read_write := resolve_existing <$> read_write |} in
      try_each (fun g => map_err (conflict id (bg_at g)) (check_grant ctx g)) gs
  | _ => Ok tt
  end.

Record PluginGrants := { pg_read_only : list string; pg_read_write : list string }.

Definition check_plugin_sandbox id user roots sockets (grants : PluginGrants) : result MaterializeError unit :=
  check_roots id user PolicyPlugin roots sockets (pg_read_only grants) (pg_read_write grants).

Definition check_fleet_sandbox id user roots sockets (grants : Grants) : result MaterializeError unit :=
  check_roots id user PolicyFleet roots sockets (g_read grants) (g_allow grants).
End roots.

(** ** The socket policy: [socket_policy.rs] *)

Inductive UnixSockets := UsAuto | UsMediate | UsDeny | UsOpen.
Inductive SocketPolicy := Mediate | Deny | Open.

Definition dquote : string := String (ascii_of_N 34) EmptyString.

(** The one-line reason [serve] logs starts with the setting. *)
Definition setting_is (value : string) : string := "unix_sockets = " +:+ dquote +:+ value +:+ dquote +:+ ": ".

(** [resolve]: the probe runs under [mediate] and [auto] only. *)
Definition resolve_policy (setting : UnixSockets) (probe : unit -> result string unit)
    : result string (SocketPolicy * string) :=
  match setting with
  | UsOpen => Ok (Open, setting_is "open" +:+
      "sandboxed processes can reach Unix sockets outside their grants, including the daemon's tmux server")
  | UsDeny => Ok (Deny, setting_is "deny" +:+ "sandboxed processes cannot create Unix sockets")
  | UsMediate =>
      _ ← probe tt;
      Ok (Mediate, setting_is "mediate" +:+ "sandboxed processes use Unix sockets in their own directories only")
  | UsAuto =>
      Ok (match probe tt with
          | Ok _ => (Mediate, setting_is "auto" +:+
              "nono's pathname mediation works here; mediate: own directories only")
          | Err e => (Deny, setting_is "auto" +:+ "nono's pathname mediation does not work here (" +:+ e +:+
              "); deny: sandboxed processes cannot create Unix sockets (set " +:+ dquote +:+ "open" +:+ dquote +:+
              " to allow them, with the risk)")
          end)
  end.

(** A value made an object if it is not one. *)
Definition fields_of (v : Value) : gmap string Value := default ∅ (as_object v).

(** [child], and what its caller does at the place it points to. *)
Definition at_child (key : string) (init : Value) (f : Value -> Value) (v : Value) : Value :=
  let m := fields_of v in VObject (<[key := f (default init (m !! key))]> m).

(** [object_at], likewise. *)
Definition at_object (path : list string) (f : gmap string Value -> gmap string Value) (v : Value) : Value :=
  foldr (fun key go => at_child key (VObject ∅) go) (fun at_ => VObject (f (fields_of at_))) path v.

Definition set_pathname (path : list string) (profile : Value) : Value :=
  at_object path (fun m => <["af_unix_mediation" := VString "pathname"]> m) profile.

Definition push_entry (text : string) (slot : Value) : Value :=
  let items := default [] (as_array slot) in
  VArray (if existsb (fun v => bool_decide (as_str v = Some text)) items then items else items ++ [VString text]).

(** [push_unique] at [[..dirs, key]]. *)
Definition push_unique (dirs : list string) (key text : string) (profile : Value) : Value :=
  foldr (fun dir go => at_child dir (VObject ∅) go) (at_child key (VArray []) (push_entry text)) dirs profile.

Definition apply_to_profile (profile : Value) (policy : SocketPolicy) (own : list string) (wrapper : string) : Value :=
  match policy with
  | Open => profile
  | Deny => push_unique ["filesystem"] "read" wrapper profile
  | Mediate =>
      let profile := set_pathname ["linux"] profile in
      let profile := set_pathname ["platform_overrides"; "linux"; "linux"] profile in
      foldl (fun profile dir => push_unique ["filesystem"] "unix_socket_subtree_bind" dir profile) profile own
  end.

Definition wrap_command (policy : SocketPolicy) (balerix : string) (argv : list string) : list string :=
  match policy with Deny => [balerix; "sandbox-exec"; "--"] ++ argv | _ => argv end.

(** ** Rendering one agent's profile: [Runtime::render_agent] *)

Section render.
Context `{Unicode} (canonicalize read_link : string -> option string).

Definition agent_profile (id : AgentId) (layout : StateLayout) (sockets : list (string * string))
    (balerix mise : string) (port : N) (env : gmap string string) (policy : SocketPolicy) (sandbox : Value)
    : result MaterializeError Value :=
  let paths := agent_paths layout id in
  let crew := crew_paths layout (crew_ref id) in
  let grants := balerix_grants canonicalize id paths crew layout balerix mise in
  _ ← check_fleet_sandbox canonicalize read_link id sandbox
        [("state", sl_state_root layout); ("data", sl_data_root layout); ("config", sl_config_root layout)]
        sockets grants;
  profile ← render_profile id grants port env sandbox;
  Ok (apply_to_profile profile policy [ap_home paths; ap_workspace paths] balerix).
End render.

(** [grants_unix_sockets]. *)
Definition block_names_sockets (block : Value) : bool :=
  match get block "filesystem" ≫= as_object with
  | Some fs => existsb (fun k => starts_with k "unix_socket") (keys fs)
  | None => false
  end.

Definition grants_unix_sockets (sandbox : Value) : bool :=
  block_names_sockets sandbox ||
  match get sandbox "platform_overrides" ≫= as_object with
  | Some os => existsb block_names_sockets (values os)
  | None => false
  end.

(** ** What a refused or accepted grant is *)

Section confined.
Context `{Unicode} (canonicalize read_link : string -> option string).
Notation res := (resolve_existing canonicalize read_link).

(** A path a user block may name with access [a], where balerix's trees are
    [roots], its socket directories [sockets], and it grants [ro] to read and
    [rw] to write itself: both as written and as resolved, it never holds a
    root, is inside one only within a grant of balerix's at that level, and
    neither holds nor is inside a socket directory. *)
Record confined (roots sockets ro rw : list string) (raw : string) (a : Access) : Prop := {
  cf_not_proc : forall p, p ∈ REFUSED_PREFIXES -> path_starts_with (res raw) p = false;
  cf_covers : forall root d f, root ∈ roots -> d ∈ [root; res root] -> f ∈ [raw; res raw] ->
    path_starts_with d f = false;
  cf_inside : forall root d f, root ∈ roots -> d ∈ [root; res root] -> f ∈ [raw; res raw] ->
    path_starts_with f d = true ->
    exists g, path_starts_with (res raw) (res g) = true /\ (g ∈ rw \/ a = AccessRead /\ g ∈ ro);
  cf_sockets : forall s d f, s ∈ sockets -> d ∈ [s; res s] -> f ∈ [raw; res raw] -> overlaps f d = false;
}.

Definition root_ctx (policy : SandboxPolicy) (roots sockets : list (string * string)) (ro rw : list string) : RootCheck :=
  {| rc_policy := policy; rc_roots := named_forms canonicalize read_link <$> roots;
     rc_sockets := named_forms canonicalize read_link <$> sockets;
     rc_read_only := res <$> ro; rc_read_write := res <$> rw |}.

Lemma each_form {E} (f : string -> string -> string -> result E unit) rs forms :
  try_each (fun '(w, ds) => try_each (fun d => try_each (f w d) forms) ds)
    (named_forms canonicalize read_link <$> rs) = Ok tt <->
  forall w r d p, (w, r) ∈ rs -> d ∈ [r; res r] -> p ∈ forms -> f w d p = Ok tt.
Proof.
  rewrite try_each_Ok, Forall_fmap, Forall_forall. split.
  - intros Hall w r d p Hr Hd Hp. specialize (Hall (w, r) Hr).
    apply try_each_Ok in Hall. rewrite Forall_forall in Hall. specialize (Hall d Hd).
    apply try_each_Ok in Hall. rewrite Forall_forall in Hall. auto.
  - intros Hall [w r] Hr. apply try_each_Ok, Forall_forall. intros d Hd.
    apply try_each_Ok, Forall_forall. eauto.
Qed.

Lemma inside_spec gs raw :
  existsb (path_starts_with (res raw)) (res <$> gs) = true <->
  exists g, path_starts_with (res raw) (res g) = true /\ g ∈ gs.
Proof.
  rewrite existsb_exists. setoid_rewrite <- list_elem_of_In. split.
  - intros (? & (g & -> & Hg)%list_elem_of_fmap & ?). eauto.
  - intros (g & Hg & ?). exists (res g). split; [by apply list_elem_of_fmap_2|done].
Qed.

Lemma granted_spec ro rw raw a :
  existsb (path_starts_with (res raw)) (res <$> rw) ||
    match a with AccessRead => existsb (path_starts_with (res raw)) (res <$> ro) | _ => false end = true <->
  exists g, path_starts_with (res raw) (res g) = true /\ (g ∈ rw \/ a = AccessRead /\ g ∈ ro).
Proof.
  rewrite orb_true_iff, inside_spec. destruct a; rewrite ?inside_spec; naive_solver.
Qed.

(** A grant passes exactly when it is confined. *)
Lemma check_grant_Ok policy roots sockets ro rw g : bg_path g = bg_raw g ->
  check_grant canonicalize read_link (root_ctx policy roots sockets ro rw) g = Ok tt <->
  confined roots.*2 sockets.*2 ro rw (bg_raw g) (bg_access g).
Proof.
  intros Hraw. unfold check_grant. rewrite Hraw. cbv zeta. unfold root_ctx. cbn [rc_roots rc_sockets rc_read_only rc_read_write].
  rewrite !bind_unit_Ok, ensure_Ok, negb_true_iff, !each_form. unfold root_form, socket_form.
  setoid_rewrite bind_unit_Ok. setoid_rewrite ensure_Ok. setoid_rewrite negb_true_iff.
  setoid_rewrite andb_false_iff. setoid_rewrite negb_false_iff. setoid_rewrite granted_spec. split.
  - intros (Hproc & Hroots & Hsock). split.
    + intros p Hp. apply not_true_iff_false. intros Ht. apply not_true_iff_false in Hproc. apply Hproc.
      apply existsb_exists. exists p. split; [by apply list_elem_of_In|done].
    + intros root d f (r & -> & Hr)%list_elem_of_fmap Hd Hf. destruct r as [w r].
      by destruct (Hroots w r d f Hr Hd Hf).
    + intros root d f (r & -> & Hr)%list_elem_of_fmap Hd Hf Hin. destruct r as [w r].
      destruct (Hroots w r d f Hr Hd Hf) as [_ [?|?]]; [congruence|done].
    + intros s d f (r & -> & Hr)%list_elem_of_fmap Hd Hf. destruct r as [w r].
      destruct (Hsock w r d f Hr Hd Hf) as [H1 H2]. unfold overlaps. by rewrite H1, H2.
  - intros [Hproc Hcov Hins Hsock]. split_and!.
    + apply not_true_iff_false. intros (p & Hp%list_elem_of_In & Ht)%existsb_exists. rewrite Hproc in Ht by done. done.
    + intros w r d f Hr Hd Hf. apply (list_elem_of_fmap_2 snd) in Hr. split; [by eapply Hcov|].
      destruct (path_starts_with f d) eqn:Hfd; [right; by eapply Hins|by left].
    + intros w r d f Hr Hd Hf. apply (list_elem_of_fmap_2 snd) in Hr.
      specialize (Hsock _ d f Hr Hd Hf). unfold overlaps in Hsock. by apply orb_false_iff in Hsock.
Qed.

(** An accepted block's grants are all confined. *)
Lemma check_roots_Ok id top policy roots sockets ro rw :
  check_roots canonicalize read_link id (VObject top) policy roots sockets ro rw = Ok tt ->
  exists gs, check_sandbox_block policy (VObject top) = Ok gs /\ block_ok policy gs top /\
    forall g, g ∈ gs -> bg_path g = bg_raw g /\ confined roots.*2 sockets.*2 ro rw (bg_raw g) (bg_access g).
Proof.
  unfold check_roots. rewrite bind_Ok. intros (gs & Hgs%map_err_Ok & Hall). exists gs. split; [done|].
  destruct (check_sandbox_block_Ok _ _ _ Hgs) as (? & [= <-] & Hok & Hraw). split; [done|].
  intros g Hg. rewrite Forall_forall in Hraw. destruct (Hraw g Hg) as [Hp _]. split; [done|].
  apply try_each_Ok in Hall. rewrite Forall_forall in Hall. specialize (Hall g Hg).
  apply map_err_Ok in Hall. by apply (check_grant_Ok policy).
Qed.
End confined.

(** ** Merging *)

Lemma merge_profile_object b u : exists r, merge_profile (VObject b) (VObject u) = VObject r /\
  forall k, r !! k = match u !! k with
    | Some v => Some (match b !! k with Some e => merge_profile e v | None => v end)
    | None => b !! k
    end.
Proof.
  eexists. split; [reflexivity|]. intros k.
  etrans; [apply (lookup_insert_each
    (fun k v => Some (match b !! k with Some e => merge_profile e v | None => v end)) u b k)|].
  by destruct (u !! k).
Qed.

Lemma foldl_push_elem (u b : list Value) v :
  v ∈ foldl (fun b v => if bool_decide (v ∈ b) then b else b ++ [v]) b u -> v ∈ b \/ v ∈ u.
Proof.
  revert b. induction u as [|x u IH]; intros b; simpl; [by left|].
  intros [Hv|?]%IH; [|set_solver]. case_bool_decide; set_solver.
Qed.

Lemma get_object m k : get (VObject m) k = m !! k.
Proof. done. Qed.

Lemma at_child_lookup key init f v k :
  get (at_child key init f v) k =
    if decide (k = key) then Some (f (default init (fields_of v !! key))) else fields_of v !! k.
Proof.
  unfold at_child. rewrite get_object. case_decide; subst; [by rewrite lookup_insert_eq|].
  by rewrite lookup_insert_ne.
Qed.

(** A block's list: an array whose items all satisfy [P]. *)
Definition lists (P : string -> Value -> Prop) (fs : gmap string Value) : Prop :=
  forall key v, fs !! key = Some v -> exists items, v = VArray items /\ forall item, item ∈ items -> P key item.

(** What [section_ok] says of each section, by the key. *)
Lemma section_ok_inv policy gs key v : section_ok policy gs key v ->
  exists m, v = VObject m /\
    (key = "filesystem" -> filesystem_ok policy gs m) /\ (key = "security" -> security_ok m) /\
    (key = "filesystem" \/ key = "network" \/ key = "security").
Proof. intros (m & -> & [[-> ?]|[[-> ?]|[-> ?]]]); exists m; naive_solver. Qed.

Lemma block_section policy gs top key v : block_ok policy gs top -> top !! key = Some v ->
  key <> "platform_overrides" -> section_ok policy gs key v.
Proof. intros Hok Hk Hne. destruct (Hok key v Hk) as [?|[? _]]; done. Qed.

Lemma block_lacks policy gs top key : block_ok policy gs top ->
  key <> "filesystem" -> key <> "network" -> key <> "security" -> key <> "platform_overrides" -> top !! key = None.
Proof.
  intros Hok ????. apply eq_None_not_Some. intros [v Hv].
  destruct (block_section _ _ _ _ _ Hok Hv) as (m & -> & [[]|[[]|[]]]); done.
Qed.

(** Merging a checked [security] section keeps the signal mode. *)
Lemma merge_security sec v : security_ok v -> sec !! "signal_mode" = Some (VString "isolated") ->
  pointer (merge_profile (VObject sec) (VObject v)) ["signal_mode"] = Some (VString "isolated").
Proof.
  intros Hok Hs. destruct (merge_profile_object sec v) as (r & -> & Hr).
  change (pointer (VObject r) ["signal_mode"]) with (v' ← r !! "signal_mode"; Some v').
  rewrite Hr. destruct (v !! "signal_mode") as [x|] eqn:Hx; [by destruct (Hok _ _ Hx)|]. by rewrite Hs.
Qed.

(** ** What the socket policy changes *)

Lemma fields_of_get v k : fields_of v !! k = get v k.
Proof. by destruct v. Qed.

Lemma pointer_cons v k path : pointer v (k :: path) = get v k ≫= fun x => pointer x path.
Proof. done. Qed.

Lemma pointer_child_ne key init f v k path : k <> key ->
  pointer (at_child key init f v) (k :: path) = pointer v (k :: path).
Proof. intros. by rewrite !pointer_cons, at_child_lookup, decide_False, fields_of_get. Qed.

Lemma pointer_child_eq key init f v path :
  pointer (at_child key init f v) (key :: path) = pointer (f (default init (get v key))) path.
Proof. by rewrite pointer_cons, at_child_lookup, decide_True, fields_of_get. Qed.

Lemma pointer_push key text k path v : k <> "filesystem" ->
  pointer (push_unique ["filesystem"] key text v) (k :: path) = pointer v (k :: path).
Proof. apply pointer_child_ne. Qed.

Lemma pointer_push_all key dirs k path v : k <> "filesystem" ->
  pointer (foldl (fun p dir => push_unique ["filesystem"] key dir p) v dirs) (k :: path) = pointer v (k :: path).
Proof.
  intros Hk. revert v. induction dirs as [|d dirs IH]; intros v; [done|]. cbn [foldl].
  by rewrite IH, pointer_push.
Qed.

Section socket_policy.
Context (profile : Value) (policy : SocketPolicy) (own : list string) (wrapper : string).
Notation final := (apply_to_profile profile policy own wrapper).

Lemma policy_keeps k path : k <> "filesystem" -> k <> "linux" -> k <> "platform_overrides" ->
  pointer final (k :: path) = pointer profile (k :: path).
Proof.
  intros ???. unfold apply_to_profile. destruct policy; [|by apply pointer_push|done].
  rewrite pointer_push_all by done. unfold set_pathname, at_object. cbn [foldr].
  by rewrite !pointer_child_ne.
Qed.

Lemma policy_keeps_override os k path : k <> "linux" ->
  pointer final ("platform_overrides" :: os :: k :: path) = pointer profile ("platform_overrides" :: os :: k :: path).
Proof.
  intros Hk. unfold apply_to_profile. destruct policy; [|by apply pointer_push|done].
  rewrite pointer_push_all by done. unfold set_pathname, at_object. cbn [foldr].
  rewrite pointer_child_eq, at_child_lookup, decide_False, fields_of_get by done.
  rewrite (pointer_cons profile), (pointer_cons (at_child _ _ _ _)), at_child_lookup.
  case_decide as Hos; [subst os|]; rewrite fields_of_get; cbn [mbind option_bind].
  - rewrite pointer_child_ne by done. destruct (get profile "platform_overrides") as [po|]; [|done]. simpl.
    by destruct (get po "linux").
  - by destruct (get profile "platform_overrides").
Qed.

Lemma policy_mediates : policy = Mediate ->
  pointer final ["linux"; "af_unix_mediation"] = Some (VString "pathname") /\
  pointer final ["platform_overrides"; "linux"; "linux"; "af_unix_mediation"] = Some (VString "pathname").
Proof.
  intros ->. unfold apply_to_profile. rewrite !pointer_push_all by done. unfold set_pathname, at_object.
  cbn [foldr]. split.
  - rewrite pointer_child_ne, pointer_child_eq by done. unfold pointer, get. simpl. by rewrite lookup_insert_eq.
  - rewrite !pointer_child_eq. unfold pointer, get. simpl. by rewrite lookup_insert_eq.
Qed.
End socket_policy.

(** ** The rendered profile *)

Section rendered.
Context (policy : SandboxPolicy) (gs : list BlockGrant) (top : gmap string Value) (Hblock : block_ok policy gs top).
Context (id : AgentId) (grants : Grants) (port : N) (env : gmap string string).
Notation base := (base_profile id grants port env).
Notation merged := (merge_profile base (VObject top)).

Lemma merged_keeps k path : k ∈ ["environment"; "meta"; "workdir"] ->
  pointer merged (k :: path) = pointer base (k :: path).
Proof.
  intros Hk. destruct (merge_profile_object (fields_of base) top) as (r & Hm & Hr).
  change (merge_profile base (VObject top) = VObject r) in Hm. rewrite Hm, !pointer_cons, get_object, Hr.
  assert (top !! k = None) as ->; [|by rewrite fields_of_get].
  rewrite !elem_of_cons, elem_of_nil in Hk.
  destruct Hk as [-> |[-> |[-> |[]]]]; by apply (block_lacks _ _ _ _ Hblock).
Qed.

Lemma merged_signal_mode :
  pointer merged ["security"; "signal_mode"] = Some (VString "isolated").
Proof.
  destruct (merge_profile_object (fields_of base) top) as (r & Hm & Hr).
  change (merge_profile base (VObject top) = VObject r) in Hm. rewrite Hm, pointer_cons, get_object, Hr.
  destruct (top !! "security") as [v|] eqn:Hv; [|done].
  destruct (section_ok_inv _ _ _ _ (block_section _ _ _ _ _ Hblock Hv ltac:(done))) as (m & -> & _ & Hs & _).
  change (fields_of base !! "security") with (Some (object_of [("signal_mode", VString "isolated")])).
  cbn [mbind option_bind].
  apply merge_security; [by apply Hs|done].
Qed.

Lemma merged_override_signal_mode os : os ∈ ["linux"; "macos"] ->
  pointer merged ["platform_overrides"; os; "security"; "signal_mode"] = Some (VString "isolated").
Proof.
  intros Hos. destruct (merge_profile_object (fields_of base) top) as (r & Hm & Hr).
  change (merge_profile base (VObject top) = VObject r) in Hm. rewrite Hm, pointer_cons, get_object, Hr.
  set (po := object_of [("linux", isolated); ("macos", isolated)]).
  change (fields_of base !! "platform_overrides") with (Some po).
  assert (get po os = Some isolated) as Hos' by (by apply elem_of_cons in Hos as [-> | ->%list_elem_of_singleton]).
  destruct (top !! "platform_overrides") as [v|] eqn:Hv; [|change (get po os ≫= (fun x => pointer x ["security"; "signal_mode"]) = Some (VString "isolated")); by rewrite Hos'].
  destruct (Hblock _ _ Hv) as [(m & -> & [[]|[[]|[]]])|(_ & oses & -> & Ho)]; [done..|].
  destruct (merge_profile_object (fields_of po) oses) as (q & Hq & Hql).
  change (merge_profile po (VObject oses) = VObject q) in Hq. cbn [mbind option_bind].
  rewrite Hq, pointer_cons, get_object, Hql, fields_of_get, Hos'.
  destruct (oses !! os) as [patch|] eqn:Hpatch; [|done].
  destruct (Ho _ _ Hpatch) as (_ & u & -> & Hu).
  destruct (merge_profile_object (fields_of isolated) u) as (w & Hw & Hwl).
  change (merge_profile isolated (VObject u) = VObject w) in Hw. cbn [mbind option_bind].
  rewrite Hw, pointer_cons, get_object, Hwl.
  change (fields_of isolated !! "security") with (Some (object_of [("signal_mode", VString "isolated")])).
  destruct (u !! "security") as [sv|] eqn:Hsv; [|done].
  destruct (section_ok_inv _ _ _ _ (Hu _ _ Hsv)) as (m & -> & _ & Hs & _).
  apply merge_security; [by apply Hs|done].
Qed.
End rendered.

(** ** The lists of a profile *)

Definition fs_lists (P : string -> Value -> Prop) (v : Value) : Prop :=
  exists m, get v "filesystem" = Some (VObject m) /\ lists P m.

Lemma fs_lists_pointer P v key x : fs_lists P v -> pointer v ["filesystem"; key] = Some x ->
  exists items, x = VArray items /\ forall item, item ∈ items -> P key item.
Proof.
  intros (m & Hm & Hl). rewrite !pointer_cons, Hm. cbn [mbind option_bind]. rewrite pointer_cons, get_object.
  destruct (m !! key) as [y|] eqn:Hy; [|done]. intros [= <-]. by apply Hl.
Qed.

Lemma lists_impl P Q m : lists P m -> (forall key item, P key item -> Q key item) -> lists Q m.
Proof. intros Hl Hi key v Hk. destruct (Hl key v Hk) as (items & -> & ?). eauto. Qed.

Lemma merge_lists P b u : lists P b -> lists P u ->
  exists r, merge_profile (VObject b) (VObject u) = VObject r /\ lists P r.
Proof.
  intros Hb Hu. destruct (merge_profile_object b u) as (r & -> & Hr). exists r. split; [done|].
  intros key v. rewrite Hr. destruct (u !! key) as [uv|] eqn:Huk; [|apply Hb].
  destruct (Hu _ _ Huk) as (ui & -> & Hui). intros [= <-].
  destruct (b !! key) as [bv|] eqn:Hbk; [|eauto]. destruct (Hb _ _ Hbk) as (bi & -> & Hbi).
  eexists. split; [reflexivity|]. intros item [?|?]%foldl_push_elem; auto.
Qed.

Lemma push_lists P key text v : fs_lists P v -> P key (VString text) ->
  fs_lists P (push_unique ["filesystem"] key text v).
Proof.
  intros (m & Hm & Hl) HP. unfold push_unique, fs_lists. cbn [foldr].
  rewrite at_child_lookup, decide_True, fields_of_get, Hm by done. eexists. split; [reflexivity|].
  intros k x. cbn [fields_of as_object default]. simpl.
  destruct (decide (k = key)) as [->|Hk]; [|rewrite lookup_insert_ne by done; apply Hl].
  rewrite lookup_insert_eq. intros [= <-]. eexists. split; [reflexivity|].
  set (items := default [] (as_array (default (VArray []) (m !! key)))).
  assert (forall item, item ∈ items -> P key item) as Hitems.
  { unfold items. destruct (m !! key) as [y|] eqn:Hy; [|by intros ? ?%not_elem_of_nil].
    destruct (Hl _ _ Hy) as (its & -> & ?). done. }
  change (fields_of (VObject m)) with m. fold items. case_match; [done|].
  intros item [Hi|Hi%list_elem_of_singleton]%elem_of_app; [by apply Hitems|by subst item].
Qed.

Lemma push_all_lists P key dirs v : fs_lists P v -> (forall d, d ∈ dirs -> P key (VString d)) ->
  fs_lists P (foldl (fun p dir => push_unique ["filesystem"] key dir p) v dirs).
Proof.
  revert v. induction dirs as [|d dirs IH]; intros v Hv Hd; [done|]. cbn [foldl].
  apply IH; [apply push_lists; [done|]|]; intros; apply Hd; by constructor.
Qed.

(** ** What an agent's sandbox holds *)

(** An entry balerix puts in a list itself. *)
Definition balerix_item (grants : Grants) (policy : SocketPolicy) (own : list string) (wrapper : string)
    (key : string) (item : Value) : Prop :=
  exists p, item = VString p /\
    (key = "read" /\ (p ∈ g_read grants \/ policy = Deny /\ p = wrapper) \/
     key = "allow" /\ p ∈ g_allow grants \/
     key = "unix_socket_subtree_bind" /\ policy = Mediate /\ p ∈ own).

(** An entry of the user's block: a literal path, confined for the access its
    list stands for. *)
Definition user_item (conf : string -> Access -> Prop) (policy : SandboxPolicy) (key : string) (item : Value) : Prop :=
  exists acc raw, access policy key = Some acc /\ entry_text item = Some raw /\ literal_ok raw /\
    forall a, acc = Some a -> conf raw a.

Section lists.
Context (conf : string -> Access -> Prop) (policy : SandboxPolicy) (gs : list BlockGrant) (top : gmap string Value).
Context (Hblock : block_ok policy gs top) (Hconf : forall g, g ∈ gs -> conf (bg_raw g) (bg_access g)).
Context (id : AgentId) (grants : Grants) (port : N) (env : gmap string string).
Notation base := (base_profile id grants port env).
Notation merged := (merge_profile base (VObject top)).

Lemma filesystem_lists m : filesystem_ok policy gs m -> lists (user_item conf policy) m.
Proof.
  intros Hm key v Hk. destruct (Hm _ _ Hk) as (acc & items & Hacc & -> & Hi).
  exists items. split; [done|]. intros item Hitem. destruct (Hi _ Hitem) as (raw & Hraw & Hlit & Hg).
  exists acc, raw. split_and!; [done..|]. intros a Ha. destruct (Hg a Ha) as (g & Hin & <- & _ & <-). auto.
Qed.

Lemma merged_lists : fs_lists (fun key item =>
  balerix_item grants Open [] EmptyString key item \/ user_item conf policy key item) merged.
Proof.
  destruct (merge_profile_object (fields_of base) top) as (r & Hm & Hr).
  change (merge_profile base (VObject top) = VObject r) in Hm. rewrite Hm.
  set (fs := {[ "read" := strs (g_read grants) ]} ∪ {[ "allow" := strs (g_allow grants) ]} : gmap string Value).
  assert (fields_of base !! "filesystem" = Some (VObject fs)) as Hbase by reflexivity.
  assert (lists (fun key item => balerix_item grants Open [] EmptyString key item \/ user_item conf policy key item) fs)
    as Hfs.
  { intros key v [Hk|[_ Hk]]%lookup_union_Some_raw; apply lookup_singleton_Some in Hk as [<- <-];
      (eexists; split; [reflexivity|]); intros item (p & -> & Hp)%list_elem_of_fmap; left; exists p; auto 6. }
  unfold fs_lists. rewrite get_object, Hr, Hbase.
  destruct (top !! "filesystem") as [v|] eqn:Hv; [|eauto].
  destruct (section_ok_inv _ _ _ _ (block_section _ _ _ _ _ Hblock Hv ltac:(done))) as (m & -> & Hok & _).
  destruct (merge_lists _ fs m Hfs) as (q & -> & Hq); [|eauto].
  eapply lists_impl; [by apply filesystem_lists, Hok|auto].
Qed.

Lemma merged_override_lists os key v : pointer merged ["platform_overrides"; os; "filesystem"; key] = Some v ->
  exists items, v = VArray items /\ forall item, item ∈ items -> user_item conf policy key item.
Proof.
  destruct (merge_profile_object (fields_of base) top) as (r & Hm & Hr).
  change (merge_profile base (VObject top) = VObject r) in Hm. rewrite Hm, pointer_cons, get_object, Hr.
  set (po := object_of [("linux", isolated); ("macos", isolated)]).
  change (fields_of base !! "platform_overrides") with (Some po).
  assert (forall os' p, get po os' = Some p -> p = isolated) as Hpo.
  { intros os' p. unfold po, object_of, get. simpl. rewrite !lookup_insert_Some, lookup_empty. naive_solver. }
  destruct (top !! "platform_overrides") as [pv|] eqn:Hv.
  - destruct (Hblock _ _ Hv) as [(m & -> & [[]|[[]|[]]])|(_ & oses & -> & Ho)]; [done..|].
    destruct (merge_profile_object (fields_of po) oses) as (q & Hq & Hql).
    change (merge_profile po (VObject oses) = VObject q) in Hq. cbn [mbind option_bind].
    rewrite Hq, pointer_cons, get_object, Hql, fields_of_get.
    destruct (oses !! os) as [patch|] eqn:Hpatch.
    + destruct (Ho _ _ Hpatch) as (_ & u & -> & Hu).
      assert (exists w, (match get po os with Some e => merge_profile e (VObject u) | None => VObject u end) = VObject w /\
        w !! "filesystem" = u !! "filesystem") as (w & Hw & Hwf).
      { destruct (get po os) as [e|] eqn:He; [|eauto]. apply Hpo in He as ->.
        destruct (merge_profile_object (fields_of isolated) u) as (w & Hw & Hwl). exists w. split; [exact Hw|].
        rewrite Hwl. by destruct (u !! "filesystem"). }
      cbn [mbind option_bind]. rewrite Hw, pointer_cons, get_object, Hwf.
      destruct (u !! "filesystem") as [fv|] eqn:Hfv; [|done].
      destruct (section_ok_inv _ _ _ _ (Hu _ _ Hfv)) as (m & -> & Hok & _). cbn [mbind option_bind].
      rewrite pointer_cons, get_object. destruct (m !! key) as [lv|] eqn:Hlv; [|done]. intros [= <-].
      by apply (filesystem_lists m (Hok eq_refl) key lv Hlv).
    + destruct (get po os) as [e|] eqn:He; [|done]. by apply Hpo in He as ->.
  - cbn [mbind option_bind]. rewrite pointer_cons. destruct (get po os) as [e|] eqn:He; [|done]. by apply Hpo in He as ->.
Qed.
End lists.

Section agent.
Context `{Unicode} (canonicalize read_link : string -> option string).
Context (id : AgentId) (layout : StateLayout) (sockets : list (string * string)) (balerix mise : string).
Context (port : N) (env : gmap string string) (policy : SocketPolicy) (top : gmap string Value) (profile : Value).

Definition own_grants : Grants :=
  balerix_grants canonicalize id (agent_paths layout id) (crew_paths layout (crew_ref id)) layout balerix mise.
Definition own_dirs : list string := [ap_home (agent_paths layout id); ap_workspace (agent_paths layout id)].
Definition agent_confined : string -> Access -> Prop :=
  confined canonicalize read_link [sl_state_root layout; sl_data_root layout; sl_config_root layout] sockets.*2
    (g_read own_grants) (g_allow own_grants).

Lemma agent_profile_Ok :
  agent_profile canonicalize read_link id layout sockets balerix mise port env policy (VObject top) = Ok profile ->
  exists gs, block_ok PolicyFleet gs top /\ (forall g, g ∈ gs -> agent_confined (bg_raw g) (bg_access g)) /\
    profile = apply_to_profile (merge_profile (base_profile id own_grants port env) (VObject top)) policy own_dirs balerix.
Proof.
  unfold agent_profile. rewrite bind_unit_Ok, bind_Ok.
  intros [(gs & _ & Hok & Hconf)%check_roots_Ok (p & Hp & [= <-])].
  exists gs. split; [done|]. split; [intros g Hg; by apply Hconf|].
  unfold render_profile in Hp. apply bind_unit_Ok in Hp as [_ [= <-]]. done.
Qed.

Context (Hprofile :
  agent_profile canonicalize read_link id layout sockets balerix mise port env policy (VObject top) = Ok profile).

Lemma profile_pins_lemma :
  (forall k path, k ∈ ["environment"; "meta"; "workdir"] ->
    pointer profile (k :: path) = pointer (base_profile id own_grants port env) (k :: path)) /\
  pointer profile ["security"; "signal_mode"] = Some (VString "isolated") /\
  (forall os, os ∈ ["linux"; "macos"] ->
    pointer profile ["platform_overrides"; os; "security"; "signal_mode"] = Some (VString "isolated")) /\
  (policy = Mediate ->
    pointer profile ["linux"; "af_unix_mediation"] = Some (VString "pathname") /\
    pointer profile ["platform_overrides"; "linux"; "linux"; "af_unix_mediation"] = Some (VString "pathname")).
Proof.
  destruct (agent_profile_Ok Hprofile) as (gs & Hok & _ & ->). split_and!.
  - intros k path Hk. rewrite policy_keeps; [by eapply merged_keeps| | |];
      rewrite !elem_of_cons, elem_of_nil in Hk; naive_solver.
  - rewrite policy_keeps by done. by eapply merged_signal_mode.
  - intros os Hos. rewrite policy_keeps_override by done. by eapply merged_override_signal_mode.
  - apply policy_mediates.
Qed.

Lemma profile_lists_lemma :
  (forall key v, pointer profile ["filesystem"; key] = Some v -> exists items, v = VArray items /\
    forall item, item ∈ items -> balerix_item own_grants policy own_dirs balerix key item \/
      user_item agent_confined PolicyFleet key item) /\
  (forall os key v, pointer profile ["platform_overrides"; os; "filesystem"; key] = Some v ->
    exists items, v = VArray items /\ forall item, item ∈ items -> user_item agent_confined PolicyFleet key item).
Proof.
  destruct (agent_profile_Ok Hprofile) as (gs & Hok & Hconf & ->). split.
  - pose proof (merged_lists _ _ _ _ Hok Hconf id own_grants port env) as (m & Hm & Hl).
    set (P := fun key item => balerix_item own_grants policy own_dirs balerix key item \/
      user_item agent_confined PolicyFleet key item).
    assert (fs_lists P (merge_profile (base_profile id own_grants port env) (VObject top))) as HP.
    { exists m. split; [exact Hm|]. eapply lists_impl; [exact Hl|].
      intros k item [(p & -> & Hp)|?]; [left; exists p; naive_solver|by right]. }
    intros key v. apply (fs_lists_pointer P).
    unfold apply_to_profile. destruct policy eqn:Hpol.
    + apply push_all_lists; [|intros d Hd; left; exists d; split; [done|]; auto 6].
      destruct HP as (m' & Hm' & Hl'). exists m'. split; [|exact Hl'].
      unfold set_pathname, at_object. cbn [foldr]. rewrite !at_child_lookup, !decide_False, !fields_of_get by done.
      rewrite at_child_lookup, decide_False, fields_of_get by done. exact Hm'.
    + apply push_lists; [exact HP|]. left. exists balerix. auto 6.
    + exact HP.
  - intros os key v. rewrite policy_keeps_override by done. by apply (merged_override_lists _ _ _ _ Hok Hconf).
Qed.
End agent.

(** C6: The user's block cannot loosen what balerix pins: in every profile an
    agent is rendered, the environment, the name and the working directory
    access are balerix's alone, signals are isolated at the top level and in
    the Linux and macOS overrides, and under the mediating socket policy so
    is the mediation of Unix sockets. *)
Theorem profile_pins `{Unicode} canonicalize read_link id layout sockets balerix mise port env policy top profile :
  agent_profile canonicalize read_link id layout sockets balerix mise port env policy (VObject top) = Ok profile ->
  (forall k path, k ∈ ["environment"; "meta"; "workdir"] ->
    pointer profile (k :: path) =
      pointer (base_profile id (own_grants canonicalize id layout balerix mise) port env) (k :: path)) /\
  pointer profile ["security"; "signal_mode"] = Some (VString "isolated") /\
  (forall os, os ∈ ["linux"; "macos"] ->
    pointer profile ["platform_overrides"; os; "security"; "signal_mode"] = Some (VString "isolated")) /\
  (policy = Mediate ->
    pointer profile ["linux"; "af_unix_mediation"] = Some (VString "pathname") /\
    pointer profile ["platform_overrides"; "linux"; "linux"; "af_unix_mediation"] = Some (VString "pathname")).
Proof. by apply profile_pins_lemma. Qed.

(** C5: Nothing else reaches an agent's sandbox: every list of a rendered
    profile holds balerix's own grants and literal paths of the user's block
    that, as written and as the filesystem resolves them, never hold one of
    balerix's trees, are inside one only within a grant of balerix's of that
    level, and keep off its socket directories; a platform's lists hold the
    user's alone. *)
Theorem profile_grants_confined `{Unicode} canonicalize read_link id layout sockets balerix mise port env policy top profile :
  agent_profile canonicalize read_link id layout sockets balerix mise port env policy (VObject top) = Ok profile ->
  let own := own_grants canonicalize id layout balerix mise in
  let conf := agent_confined canonicalize read_link id layout sockets balerix mise in
  (forall key v, pointer profile ["filesystem"; key] = Some v -> exists items, v = VArray items /\
    forall item, item ∈ items -> balerix_item own policy (own_dirs id layout) balerix key item \/
      user_item conf PolicyFleet key item) /\
  (forall os key v, pointer profile ["platform_overrides"; os; "filesystem"; key] = Some v ->
    exists items, v = VArray items /\ forall item, item ∈ items -> user_item conf PolicyFleet key item).
Proof. by apply profile_lists_lemma. Qed.

(** ** The agents keep apart *)

(** What an agent must not write: another agent's tree, any crew's repository
    cache, any crew's or fleet's tool pool, and what the daemon wrote for the
    agent itself outside its sandbox. *)
Definition held_off (l : StateLayout) (id : AgentId) (p : string) : Prop :=
  (exists id', id' <> id /\ p = agent_root l id') \/
  (exists c, p = cache_objects (crew_paths l c) \/ p = pool (cp_root (crew_paths l c))) \/
  (exists f, p = pool (fp_root (fleet_paths l f))) \/
  let ps := agent_paths l id in
  p ∈ [ap_nono_home ps; ap_mise_toml ps; ap_profile ps; ap_launch ps; ap_git_profile ps; ap_logs ps].

Section apart.
Context (l : StateLayout) (Hmachine : sl_pod l = None) (id : AgentId).
Notation below := (below (sl_state_root l)).

Lemma agent_file_below id' s : plain_name s -> below (agent_names id' ++ [s]) (path_join (agent_root l id') s).
Proof. intros. apply below_join; [by apply agent_root_below|done]. Qed.

Lemma allow_below canonicalize balerix mise w : w ∈ g_allow (own_grants canonicalize id l balerix mise) ->
  exists names, below names w /\ exists s rest, names = agent_names id ++ s :: rest /\ s ∈ ["home"; "workspace"; "mise"].
Proof.
  assert (forall s, plain_name s -> below (agent_names id ++ ["mise"; s]) (path_join (path_join (agent_root l id) "mise") s))
    as Hmise.
  { intros s Hs. assert (agent_names id ++ ["mise"; s] = (agent_names id ++ ["mise"]) ++ [s]) as ->
      by (by rewrite <- app_assoc). apply below_join; [apply agent_file_below; plain|done]. }
  unfold own_grants, balerix_grants, mise_dirs. cbn [g_allow app].
  rewrite !elem_of_cons, elem_of_nil. intros Hw.
  destruct Hw as [-> |[-> |[-> |[-> |[-> |[-> |[]]]]]]];
    (eexists; split; [first [apply Hmise; plain|apply agent_file_below; plain]|]);
    do 2 eexists; (split; [reflexivity|set_solver]).
Qed.

Lemma held_off_below p : held_off l id p -> exists names, below names p /\
  ((exists id', id' <> id /\ names = agent_names id') \/
   (exists c s rest, names = crew_names c ++ s :: rest /\ s <> "agents") \/
   (exists f, names = fleet_names f ++ ["mise"]) \/
   (exists s, names = agent_names id ++ [s] /\ s ∉ ["home"; "workspace"; "mise"])).
Proof.
  intros [(id' & Hne & ->)|[(c & [-> | ->])|[(f & ->)|Hp]]].
  - exists (agent_names id'). split; [by apply agent_root_below|eauto].
  - eexists. split; [by apply cache_below|]. right; left. exists c. do 2 eexists. by split.
  - exists (crew_names c ++ ["mise"]). split; [apply below_join; [by apply crew_root_below|plain]|].
    right; left. exists c, "mise", []. by split.
  - exists (fleet_names f ++ ["mise"]). split; [apply below_join; [by apply fleet_root_below|plain]|eauto 6].
  - cbn [agent_paths ap_nono_home ap_mise_toml ap_profile ap_launch ap_git_profile ap_logs] in Hp.
    rewrite !elem_of_cons, elem_of_nil in Hp.
    destruct Hp as [-> |[-> |[-> |[-> |[-> |[-> |[]]]]]]];
      (eexists; split; [apply agent_file_below; plain|]); do 3 right; (eexists; split; [reflexivity|set_solver]).
Qed.

Lemma agent_names_inj id' rest rest' : agent_names id ++ rest = agent_names id' ++ rest' -> id = id' /\ rest = rest'.
Proof.
  unfold agent_names, crew_names, fleet_names. simpl. intros [= Hf Hc Ha Hr].
  destruct id, id'. simpl in *. split; [|done]. f_equal; by apply name_eq.
Qed.
End apart.

(** balerix's own grants keep off what the agent must not write. *)
Lemma own_grants_apart canonicalize l id balerix mise w p :
  sl_pod l = None -> w ∈ g_allow (own_grants canonicalize id l balerix mise) -> held_off l id p ->
  overlaps w p = false.
Proof.
  intros Hm (nw & Hw & s & rest & -> & Hs)%allow_below (np & Hp & Hcases)%held_off_below; [|done..].
  unfold overlaps. rewrite (below_starts_with _ _ _ _ _ Hw Hp), (below_starts_with _ _ _ _ _ Hp Hw).
  rewrite orb_false_iff, !bool_decide_eq_false.
  assert (s <> "crews" /\ s <> "agents") as [Hs1 Hs2] by (split; intros ->; set_solver).
  destruct Hcases as [(id' & Hne & ->)|[(c & s' & rest' & -> & Hs')|[(f & ->)|(s' & -> & Hs')]]].
  - split; intros [k Hk].
    + apply agent_names_inj in Hk as [? _]. done.
    + rewrite <- app_assoc in Hk. rewrite <- (app_nil_r (agent_names id')) in Hk.
      by apply agent_names_inj in Hk as [? ?].
  - split; intros [k Hk]; unfold agent_names, crew_names, fleet_names in Hk; simpl in Hk; congruence.
  - split; intros [k Hk]; unfold agent_names, crew_names, fleet_names in Hk; simpl in Hk; congruence.
  - split; intros [k Hk]; rewrite <- app_assoc in Hk; apply agent_names_inj in Hk as [_ Hk]; simpl in Hk;
      injection Hk as <- _; done.
Qed.

(** [Path::starts_with] is an order, and two prefixes of a path are comparable. *)
Lemma starts_with_trans p q r : path_starts_with p q = true -> path_starts_with q r = true -> path_starts_with p r = true.
Proof. unfold path_starts_with. rewrite !bool_decide_eq_true. intros. by etrans. Qed.

Lemma starts_with_both p q r : path_starts_with p q = true -> path_starts_with p r = true -> overlaps q r = true.
Proof.
  unfold overlaps, path_starts_with. rewrite orb_true_iff, !bool_decide_eq_true. intros H1 H2.
  destruct (prefix_weak_total _ _ _ H1 H2); auto.
Qed.

Lemma overlaps_below f g p : path_starts_with f g = true -> overlaps g p = false -> overlaps f p = false.
Proof.
  intros Hf Hg. apply not_true_iff_false. intros Ho. apply not_true_iff_false in Hg. apply Hg.
  unfold overlaps in Ho. apply orb_true_iff in Ho as [Ho|Ho]; [by eapply starts_with_both|].
  unfold overlaps. by rewrite (starts_with_trans _ _ _ Ho Hf), orb_true_r.
Qed.

Lemma overlaps_sym p q : overlaps p q = overlaps q p.
Proof. apply orb_comm. Qed.

Lemma below_root l names p : below (sl_state_root l) names p -> path_starts_with p (sl_state_root l) = true.
Proof. intros Hp. rewrite (below_starts_with _ _ _ _ _ Hp (below_self _)). apply bool_decide_eq_true, prefix_nil. Qed.

(** What a block may write where balerix's directories resolve to themselves. *)
Lemma confined_apart canonicalize read_link roots sockets ro rw raw a root p :
  confined canonicalize read_link roots sockets ro rw raw a -> a <> AccessRead ->
  (forall g, g ∈ rw -> resolve_existing canonicalize read_link g = g /\ overlaps g p = false) ->
  root ∈ roots -> path_starts_with p root = true ->
  overlaps (resolve_existing canonicalize read_link raw) p = false.
Proof.
  intros [_ Hcov Hins _] Ha Hrw Hroot Hp. set (f := resolve_existing canonicalize read_link raw) in *.
  destruct (path_starts_with f root) eqn:Hf.
  - destruct (Hins root root f Hroot ltac:(left) ltac:(right; left) Hf) as (g & Hg & [Hin|[? _]]); [|done].
    destruct (Hrw g Hin) as [Heq Hoff]. rewrite Heq in Hg. by eapply overlaps_below.
  - assert (overlaps root f = false) as Hoff.
    { unfold overlaps. by rewrite Hf, (Hcov root root f Hroot ltac:(left) ltac:(right; left)). }
    rewrite overlaps_sym. by eapply overlaps_below.
Qed.

(** A list of a profile that lets a process write or bind sockets. *)
Definition writes_list (key : string) : Prop := exists a, access PolicyFleet key = Some (Some a) /\ a <> AccessRead.

(** C7: On one machine, where links do not stand for balerix's own directories,
    no agent can write outside what is its own: nothing in any writing list of
    the profile an agent runs under, be it balerix's or the user block's, at the
    top or in a platform's override, leads to a place that overlaps, in either
    direction, another agent's tree, a crew's repository cache, a tool pool of a
    crew or fleet, the machine's own pool outside the state tree, or the files
    the daemon starts the agent from. *)
Theorem agent_writes_apart `{Unicode} canonicalize read_link id l sockets balerix mise port env policy top profile :
  sl_pod l = None ->
  (forall g, g ∈ g_allow (own_grants canonicalize id l balerix mise) -> resolve_existing canonicalize read_link g = g) ->
  agent_profile canonicalize read_link id l sockets balerix mise port env policy (VObject top) = Ok profile ->
  forall key v, writes_list key ->
    pointer profile ["filesystem"; key] = Some v \/
      (exists os, pointer profile ["platform_overrides"; os; "filesystem"; key] = Some v) ->
    exists items, v = VArray items /\ forall item, item ∈ items ->
      exists raw, entry_text item = Some raw /\
        forall p, held_off l id p \/ p = mise_data_dir l /\ overlaps (sl_state_root l) p = false ->
          overlaps (resolve_existing canonicalize read_link raw) p = false.
Proof.
  intros Hm Hdirs Hprofile key v (a & Hkey & Ha) Hv.
  pose proof (profile_lists_lemma _ _ _ _ _ _ _ _ _ _ _ _ Hprofile) as [Htop Hover].
  set (own := own_grants canonicalize id l balerix mise) in *.
  assert (forall g p, g ∈ g_allow own ->
    held_off l id p \/ p = mise_data_dir l /\ overlaps (sl_state_root l) p = false -> overlaps g p = false) as Hown.
  { intros g p Hg [Hp|[-> Hp]]; [by eapply own_grants_apart|].
    destruct (allow_below _ Hm _ _ _ _ _ Hg) as (names & Hn & _). eapply overlaps_below; [by eapply below_root|done]. }
  assert (forall item, user_item (agent_confined canonicalize read_link id l sockets balerix mise) PolicyFleet key item ->
    exists raw, entry_text item = Some raw /\
      forall p, held_off l id p \/ p = mise_data_dir l /\ overlaps (sl_state_root l) p = false ->
        overlaps (resolve_existing canonicalize read_link raw) p = false) as Huser.
  { intros item (acc & raw & Hacc & Htext & _ & Hconf). exists raw. split; [done|]. intros p Hp.
    assert (acc = Some a) as -> by congruence. specialize (Hconf a eq_refl). unfold agent_confined in Hconf.
    assert (exists root, root ∈ [sl_state_root l; sl_data_root l; sl_config_root l] /\ path_starts_with p root = true)
      as (root & Hroot & Hunder).
    { destruct Hp as [Hp|[-> _]].
      - destruct (held_off_below _ Hm _ _ Hp) as (names & Hn & _). exists (sl_state_root l). split; [left|by eapply below_root].
      - exists (sl_data_root l). split; [right; left|]. unfold mise_data_dir. rewrite Hm.
        assert (below (sl_data_root l) ["mise"] (path_join (sl_data_root l) "mise")) as Hb
          by (apply (below_join _ []); [apply below_self|plain]).
        rewrite (below_starts_with _ _ _ _ _ Hb (below_self _)). apply bool_decide_eq_true, prefix_nil. }
    eapply confined_apart; [exact Hconf|done| |exact Hroot|exact Hunder]. intros g Hg. split; [by apply Hdirs|by eauto]. }
  destruct Hv as [Hv|[os Hv]].
  - destruct (Htop _ _ Hv) as (items & -> & Hall). exists items. split; [done|]. intros item Hi.
    destruct (Hall _ Hi) as [(g & -> & Hg)|?]; [|by apply Huser].
    exists g. split; [done|]. intros p Hp. assert (g ∈ g_allow own) as Hin.
    { destruct Hg as [[-> _]|[[_ ?]|(_ & _ & Hg)]]; [|done|].
      - exfalso. vm_compute in Hkey. congruence.
      - unfold own_dirs in Hg. unfold own, own_grants, balerix_grants. cbn [g_allow].
        apply elem_of_app. by left. }
    rewrite Hdirs by done. by eauto.
  - destruct (Hover _ _ _ Hv) as (items & -> & Hall). exists items. split; [done|]. intros item Hi. by apply Huser, Hall.
Qed.

(** ** Following links ends *)

Lemma trim_segments_prefix l : trim_segments l `prefix_of` l.
Proof.
  unfold trim_segments. set (go := fix go r := match r with
    | s :: r' => if skipped_segment s then go r' else r | [] => [] end).
  assert (forall r, exists k, r = k ++ go r) as Hgo.
  { intros r. induction r as [|s r [k IH]]; [by exists []|]. cbn [go]. destruct (skipped_segment s).
    - exists (s :: k). simpl. by f_equal.
    - by exists []. }
  destruct (Hgo (rev l)) as [k Hk]. exists (rev k). rewrite <- rev_app_distr, <- Hk. by rewrite rev_involutive.
Qed.

Lemma trim_segments_last l x r : rev (trim_segments l) = x :: r -> skipped_segment x = false.
Proof.
  unfold trim_segments. rewrite rev_involutive. generalize (rev l). intros l'.
  induction l' as [|s l' IH]; [done|]. destruct (skipped_segment s) eqn:Hs; [done|]. by intros [= <- _].
Qed.

(** Going up shortens a path, so the loop reaches the top within its fuel. *)
Lemma parent_shorter p up : parent p = Some up -> String.length up < String.length p.
Proof.
  unfold parent. pose proof (join_split_char "/"%char p) as Hp.
  destruct (split_char "/"%char p) as [|first rest] eqn:Hsplit; [done|].
  destruct (rev (trim_segments rest)) as [|x front] eqn:Hrev.
  - destruct first as [|c first]; [done|]. intros [= <-]. rewrite <- Hp. destruct rest; simpl; lia.
  - intros [= <-]. pose proof (trim_segments_last _ _ _ Hrev) as Hx.
    destruct (trim_segments_prefix rest) as [more Hmore]. destruct (trim_segments_prefix (rev front)) as [more' Hmore'].
    assert (trim_segments rest = rev front ++ [x]) as Ht by (by rewrite <- (rev_involutive (trim_segments rest)), Hrev).
    set (kept := trim_segments (rev front)) in *.
    assert (rest = kept ++ (more' ++ x :: more)) as Hrest.
    { rewrite Hmore, Ht, Hmore'. by rewrite <- !app_assoc. }
    rewrite <- Hp. rewrite Hrest. rewrite app_comm_cons, join_app by (try done; by destruct more').
    rewrite !length_app_string. case_match eqn:Habs; [|simpl; lia].
    apply andb_true_iff in Habs as [_ Hk%bool_decide_eq_true]. rewrite Hk. simpl.
    assert (0 < String.length (join (String "/"%char EmptyString) (more' ++ x :: more))); [|lia].
    destruct more' as [|y more']; [|rewrite <- app_comm_cons, join_cons by (by destruct more');
      rewrite !length_app_string; simpl; lia].
    simpl. destruct more; [|rewrite !length_app_string; simpl; lia].
    destruct x as [|c x]; [done|simpl; lia].
Qed.

(** Resolving a path never runs out: any fuel past the length of the path
    gives what its length gives. *)
Lemma resolve_loop_enough canonicalize read_link again path fuel fuel' existing rest :
  String.length existing <= fuel -> fuel <= fuel' ->
  resolve_loop canonicalize read_link again path fuel' existing rest =
  resolve_loop canonicalize read_link again path fuel existing rest.
Proof.
  revert fuel' existing rest. induction fuel as [|fuel IH]; intros fuel' existing rest Hlen Hle.
  - destruct existing; [|simpl in Hlen; lia]. destruct fuel'; simpl; by repeat case_match.
  - destruct fuel' as [|fuel']; [lia|]. cbn [resolve_loop].
    destruct (canonicalize existing); [done|].
    assert ((match parent existing, file_name existing with
      | Some up, Some name => resolve_loop canonicalize read_link again path fuel' up (name :: rest)
      | _, _ => path end) = (match parent existing, file_name existing with
      | Some up, Some name => resolve_loop canonicalize read_link again path fuel up (name :: rest)
      | _, _ => path end)) as Heq.
    { destruct (parent existing) as [up|] eqn:Hup; [|done]. destruct (file_name existing); [|done].
      apply IH; [|lia]. apply parent_shorter in Hup. lia. }
    destruct (parent existing), (file_name existing), again, (read_link existing); done.
Qed.

(** ** Samples *)

Definition sample_id : AgentId :=
  {| id_fleet := mkName "payments" eq_refl; id_crew := mkName "backend" eq_refl; id_agent := mkName "alice" eq_refl |}.
Definition sample_layout : StateLayout := xdg "/h/state" "/h/data" "/h/config".

(** A filesystem without links, where everything exists. *)
Definition plain_files : string -> option string := Some.
Definition no_links : string -> option string := fun _ => None.

Definition fs_block (key path : string) : gmap string Value :=
  {[ "filesystem" := VObject {[ key := VArray [VString path] ]} ]}.

Definition sample_top : gmap string Value :=
  <["platform_overrides" := VObject {[ "linux" := VObject (fs_block "allow" "/opt/cache") ]}]> (fs_block "read" "/srv/data").

Definition render_sample (top : gmap string Value) : result MaterializeError Value :=
  agent_profile (H := no_tables) plain_files no_links sample_id sample_layout [("tmux socket directory", "/tmp/tmux-1000")]
    "/usr/bin/balerix" "/usr/bin/mise" 7070 {[ "HOME" := "/h" ]} Mediate (VObject top).

Definition sample_profile : Value := match render_sample sample_top with Ok p => p | Err _ => Null end.

Lemma profile_pins_witness :
  render_sample sample_top = Ok sample_profile /\
  pointer sample_profile ["security"; "signal_mode"] = Some (VString "isolated").
Proof.
  assert (render_sample sample_top = Ok sample_profile) as Hr by (vm_compute; reflexivity).
  split; [exact Hr|]. exact (proj1 (proj2 (@profile_pins no_tables _ _ _ _ _ _ _ _ _ _ _ _ Hr))).
Defined.

Lemma profile_grants_confined_witness :
  render_sample sample_top = Ok sample_profile /\
  exists items, pointer sample_profile ["platform_overrides"; "linux"; "filesystem"; "allow"] = Some (VArray items) /\
    forall item, item ∈ items -> user_item (agent_confined plain_files no_links sample_id sample_layout
      [("tmux socket directory", "/tmp/tmux-1000")] "/usr/bin/balerix" "/usr/bin/mise") PolicyFleet "allow" item.
Proof.
  assert (render_sample sample_top = Ok sample_profile) as Hr by (vm_compute; reflexivity).
  split; [exact Hr|].
  assert (pointer sample_profile ["platform_overrides"; "linux"; "filesystem"; "allow"] =
    Some (VArray [VString "/opt/cache"])) as Hp by (vm_compute; reflexivity).
  exists [VString "/opt/cache"]. split; [exact Hp|].
  destruct (proj2 (@profile_grants_confined no_tables _ _ _ _ _ _ _ _ _ _ _ _ Hr) _ _ _ Hp) as (items & Hi & Hall).
  injection Hi as <-. exact Hall.
Defined.

Lemma agent_writes_apart_witness :
  render_sample sample_top = Ok sample_profile /\
  exists items, pointer sample_profile ["platform_overrides"; "linux"; "filesystem"; "allow"] = Some (VArray items) /\
    length items = 1 /\
    forall item, item ∈ items -> exists raw, entry_text item = Some raw /\
      overlaps (resolve_existing plain_files no_links raw) "/h/state/fleets/payments/crews/backend/repo/.git/objects" = false.
Proof.
  assert (render_sample sample_top = Ok sample_profile) as Hr by (vm_compute; reflexivity).
  split; [exact Hr|].
  assert (pointer sample_profile ["platform_overrides"; "linux"; "filesystem"; "allow"] =
    Some (VArray [VString "/opt/cache"])) as Hp by (vm_compute; reflexivity).
  exists [VString "/opt/cache"]. split; [exact Hp|]. split; [reflexivity|].
  refine (match @agent_writes_apart no_tables plain_files no_links sample_id sample_layout _ _ _ _ _ _ _ _
    eq_refl _ Hr "allow" _ (ex_intro _ AccessWrite _) (or_intror (ex_intro _ "linux" Hp)) with
  | ex_intro _ items (conj Hi Hall) => _ end).
  - intros g Hg. assert (forall q, resolve_existing plain_files no_links q = q) as Hself
      by (intros q; unfold resolve_existing; simpl; destruct q; reflexivity). apply Hself.
  - split; [reflexivity|discriminate].
  - injection Hi as <-. intros item Hin. destruct (Hall item Hin) as (raw & Ht & Hoff). exists raw. split; [exact Ht|].
    apply Hoff. left. right. left. exists (crew_ref sample_id). left. vm_compute. reflexivity.
Defined.

(** The overlap check reads the top level alone: a write to a system directory
    balerix grants for reading is refused there, and accepted in a platform's
    patch, which nono applies last. *)
Example override_overlap_accepted :
  is_ok (render_sample (fs_block "allow" "/usr/local/share")) = false /\
  is_ok (render_sample {[ "platform_overrides" := VObject {[ "linux" := VObject (fs_block "allow" "/usr/local/share") ]} ]}) = true.
Proof. split; vm_compute; reflexivity. Qed.
