(* ===== verification/Launch.v ===== *)
(** An agent's launch script ([crates/balerix-runtime/src/launch.rs]): the
    plan, the script it is written as, and what a POSIX shell reads in it. *)

From S2P Require Import Prelude Str BTree Names Paths Execute Layout Sandbox.

Record ToolPaths := {
  tp_git : string;
  tp_gh : string;
  tp_mise : string;
  tp_nono : string;
  tp_tmux : string;
  tp_balerix : string;
}.

Definition outer_path (tools : ToolPaths) : string :=
  let p := "/usr/local/bin:/usr/bin:/bin" in
  match parent (tp_mise tools) with
  | Some d => if bool_decide (d ∈ split_char ":"%char p) then p else p +:+ ":" +:+ d
  | None => p
  end.

(** [has_entries] is [read_dir] finding something. *)
Definition wants_continue (has_entries : string -> bool) (resume : bool) (paths : AgentPaths) : bool :=
  resume && has_entries (claude_projects paths).

Section launch.
Context (paths : AgentPaths) (tools : ToolPaths) (binary : string) (args : list string).
Context (resume : bool) (policy : SocketPolicy).

Definition launch_env : gmap string string :=
  list_to_map [("PATH", outer_path tools); ("HOME", ap_nono_home paths)].

Definition launch_argv : list string :=
  [tp_balerix tools; "agent-supervise"; "--"; tp_nono tools; "-s"; "--log-file";
   path_join (ap_logs paths) "nono.log"; "run"; "--profile"; ap_profile paths; "--"] ++
  wrap_command policy (tp_balerix tools)
    ([tp_mise tools; "exec"; "--"; binary] ++ args ++ (if resume then ["--continue"] else [])).

Definition newline : string := String (ascii_of_N 10) EmptyString.
Definition backslash : string := String backslash_byte EmptyString.

Definition env_words (env : list (string * string)) : string :=
  foldr (fun '(k, v) s => " " +:+ k +:+ "=" +:+ sh_quote v +:+ s) EmptyString env.
Definition argv_words (argv : list string) : string :=
  foldr (fun a s => " " +:+ sh_quote a +:+ s) EmptyString argv.

Definition render_launch : string * LaunchPlan :=
  ("#!/bin/sh" +:+ newline +:+ "# generated by balerix — safe to run by hand" +:+ newline +:+ "exec env -i" +:+
   env_words (entries launch_env) +:+ " " +:+ backslash +:+ newline +:+ " " +:+
   argv_words launch_argv +:+ newline,
   {| lp_cwd := ap_workspace paths; lp_env := launch_env; lp_argv := launch_argv; lp_script := ap_launch paths |}).
End launch.

(** ** POSIX [sh], as far as the script goes *)

Inductive sh_mode := Plain | Quoted | Comment.

Definition sh_special (c : ascii) : bool :=
  byte_among "$`;&|<>()*?[]~!{}" c || Ascii.eqb c (ascii_of_N 34) || Ascii.eqb c (ascii_of_N 0).

Definition end_word (cur : option string) (words : list string) : list string :=
  match cur with Some w => words ++ [w] | None => words end.
Definition end_command (words : list string) (rest : list (list string)) : list (list string) :=
  match words with [] => rest | _ => words :: rest end.

(** The simple commands of a script, each as its words; [None] for what this
    reader does not know (expansions, operators, double quotes) and for an
    unfinished word. [cur] is the word being read. *)
Fixpoint sh_read (m : sh_mode) (cur : option string) (words : list string) (s : string) : option (list (list string)) :=
  match s with
  | EmptyString => match m with Quoted => None | _ => Some (end_command (end_word cur words) []) end
  | String c r =>
      let is_newline := Ascii.eqb c (ascii_of_N 10) in
      match m with
      | Comment => if is_newline then end_command (end_word cur words) <$> sh_read Plain None [] r else sh_read Comment cur words r
      | Quoted =>
          if Ascii.eqb c single then sh_read Plain cur words r
          else sh_read Quoted (Some (default EmptyString cur +:+ String c EmptyString)) words r
      | Plain =>
          if Ascii.eqb c single then sh_read Quoted (Some (default EmptyString cur)) words r
          else if Ascii.eqb c backslash_byte then
            match r with
            | String d r =>
                if Ascii.eqb d (ascii_of_N 10) then sh_read Plain cur words r
                else sh_read Plain (Some (default EmptyString cur +:+ String d EmptyString)) words r
            | EmptyString => None
            end
          else if is_newline then end_command (end_word cur words) <$> sh_read Plain None [] r
          else if byte_among " " c then sh_read Plain None (end_word cur words) r
          else if Ascii.eqb c "#"%char && bool_decide (cur = None) then sh_read Comment cur words r
          else if sh_special c then None
          else sh_read Plain (Some (default EmptyString cur +:+ String c EmptyString)) words r
      end
  end.

(** A quote inside the text: out of the quotes, escaped, and back. *)
Lemma sh_read_escape w words t :
  sh_read Quoted (Some w) words (String single (String backslash_byte (String single (String single t)))) =
  sh_read Quoted (Some (w +:+ String single EmptyString)) words t.
Proof. reflexivity. Qed.

Lemma sh_read_body w words s t :
  sh_read Quoted (Some w) words (quote_body s +:+ t) = sh_read Quoted (Some (w +:+ s)) words t.
Proof.
  revert w. induction s as [|c s IH]; intros w; [simpl; by rewrite app_nil_r_string|].
  cbn [quote_body]. destruct (Ascii.eqb_spec c single) as [->|Hne].
  - rewrite !app_cons_string, sh_read_escape, IH. by rewrite app_assoc_string.
  - rewrite app_cons_string. cbn [sh_read]. rewrite (proj2 (Ascii.eqb_neq _ _) Hne), IH. cbn [default].
    by rewrite app_assoc_string.
Qed.

Lemma sh_read_quote cur words s t :
  sh_read Plain cur words (sh_quote s +:+ t) = sh_read Plain (Some (default EmptyString cur +:+ s)) words t.
Proof.
  unfold sh_quote. rewrite app_cons_string, app_assoc_string. cbn [sh_read]. rewrite Ascii.eqb_refl, sh_read_body.
  rewrite app_cons_string, app_nil_string. cbn [sh_read]. by rewrite Ascii.eqb_refl.
Qed.

Lemma sh_read_blank cur words t : sh_read Plain cur words (" " +:+ t) = sh_read Plain None (end_word cur words) t.
Proof. reflexivity. Qed.

Lemma sh_read_argv argv : forall cur words,
  sh_read Plain cur words (argv_words argv +:+ newline) = Some (end_command (end_word cur words ++ argv) []).
Proof.
  induction argv as [|a argv IH]; intros cur words; [by rewrite app_nil_r|].
  cbn [argv_words foldr]. fold argv_words. fold (argv_words argv).
  rewrite !app_assoc_string, sh_read_blank, sh_read_quote, IH. cbn [default]. rewrite app_nil_string. cbn [end_word].
  by rewrite <- app_assoc.
Qed.

Lemma sh_read_head t :
  sh_read Plain None [] ("#!/bin/sh" +:+ newline +:+ "# generated by balerix — safe to run by hand" +:+ newline +:+
    "exec env -i" +:+ t) = sh_read Plain (Some "-i") ["exec"; "env"] t.
Proof.
  transitivity ((fun l => l) <$> ((fun l => l) <$> sh_read Plain (Some "-i") ["exec"; "env"] t)).
  - vm_compute. reflexivity.
  - by destruct (sh_read Plain (Some "-i") _ t).
Qed.

(** A variable of the environment, its name made of plain letters. *)
Lemma sh_read_home cur words v t :
  sh_read Plain cur words (" HOME=" +:+ sh_quote v +:+ t) = sh_read Plain (Some ("HOME=" +:+ v)) (end_word cur words) t.
Proof.
  transitivity (sh_read Plain (Some "HOME=") (end_word cur words) (sh_quote v +:+ t)); [|by rewrite sh_read_quote].
  generalize (sh_quote v +:+ t). intros s. destruct cur; reflexivity.
Qed.

Lemma sh_read_path cur words v t :
  sh_read Plain cur words (" PATH=" +:+ sh_quote v +:+ t) = sh_read Plain (Some ("PATH=" +:+ v)) (end_word cur words) t.
Proof.
  transitivity (sh_read Plain (Some "PATH=") (end_word cur words) (sh_quote v +:+ t)); [|by rewrite sh_read_quote].
  generalize (sh_quote v +:+ t). intros s. destruct cur; reflexivity.
Qed.

Lemma sh_read_continued cur words t :
  sh_read Plain cur words (" " +:+ backslash +:+ newline +:+ " " +:+ t) = sh_read Plain None (end_word cur words) t.
Proof. reflexivity. Qed.

(** C8: What is launched is what was planned: a POSIX shell reads in the
    generated script one command, [exec env -i] with the two variables of the
    plan and then exactly the plan's words, whatever quotes, dollars or
    newlines the user's arguments and the paths hold (NUL bytes apart, which
    no shell reads). *)
Theorem launch_script_runs_plan paths tools binary args resume policy :
  let '(script, plan) := render_launch paths tools binary args resume policy in
  sh_read Plain None [] script =
    Some [["exec"; "env"; "-i"] ++ ((fun '(k, v) => k +:+ "=" +:+ v) <$> entries (lp_env plan)) ++ lp_argv plan] /\
  lp_env plan = {[ "HOME" := ap_nono_home paths; "PATH" := outer_path tools ]}.
Proof.
  unfold render_launch. cbn [lp_env lp_argv].
  assert (entries (launch_env paths tools) = [("HOME", ap_nono_home paths); ("PATH", outer_path tools)]) as He.
  { unfold launch_env. generalize (outer_path tools) (ap_nono_home paths). intros p h. vm_compute. reflexivity. }
  rewrite He. split; [|apply insert_insert_ne; by vm_compute].
  change (env_words [("HOME", ap_nono_home paths); ("PATH", outer_path tools)]) with
    (" HOME=" +:+ sh_quote (ap_nono_home paths) +:+ (" PATH=" +:+ sh_quote (outer_path tools) +:+ EmptyString)).
  assert (forall a b c d r : string, (a +:+ b +:+ (c +:+ d +:+ EmptyString)) +:+ r = a +:+ b +:+ c +:+ d +:+ r) as ->
    by (intros; by autorewrite with string).
  rewrite sh_read_head, sh_read_home, sh_read_path, sh_read_continued, sh_read_argv.
  reflexivity.
Qed.
