(* ===== verification/Bytes.v ===== *)
(** Byte slices as the stream readers handle them: cutting at line ends,
    keeping a bounded part, reading bytes as UTF-8 with replacements
    ([String::from_utf8_lossy]) and decimal numbers. *)

From S2P Require Import Prelude Str.

Definition newline_byte : ascii := ascii_of_N 10.
Definition nul : ascii := ascii_of_N 0.

Definition len (s : string) : N := N.of_nat (String.length s).

(** [&bytes[..n]] of a slice at least [n] long, and the whole of a shorter one. *)
Fixpoint take_bytes (n : N) (s : string) : string :=
  match s with
  | EmptyString => EmptyString
  | String c r => if (n =? 0)%N then EmptyString else String c (take_bytes (N.pred n) r)
  end.

(** [split_inclusive(|b| b == c)]: the pieces with their [c], the last one as
    it ends; no piece is empty. *)
Fixpoint split_inclusive (c : ascii) (s : string) : list string :=
  match s with
  | EmptyString => []
  | String a r =>
      if Ascii.eqb a c then String a EmptyString :: split_inclusive c r
      else match split_inclusive c r with
           | [] => [String a EmptyString]
           | h :: t => String a h :: t
           end
  end.

(** [slice.last()]. *)
Fixpoint last_byte (s : string) : option ascii :=
  match s with
  | EmptyString => None
  | String a EmptyString => Some a
  | String _ r => last_byte r
  end.

Definition ends_line (s : string) : bool := bool_decide (last_byte s = Some newline_byte).

(** ** [String::from_utf8_lossy] *)

Definition replacement : string :=
  String (ascii_of_N 239) (String (ascii_of_N 191) (String (ascii_of_N 189) EmptyString)).

(** The bytes that may follow the lead of a sequence of three, and of four. *)
Definition second_of_three (n : N) : ascii -> bool :=
  if (n =? 224)%N then byte_in 160 191 else if (n =? 237)%N then byte_in 128 159 else is_continuation.
Definition second_of_four (n : N) : ascii -> bool :=
  if (n =? 240)%N then byte_in 144 191 else if (n =? 244)%N then byte_in 128 143 else is_continuation.

(** The longest well-formed prefix of each broken sequence becomes one U+FFFD. *)
Fixpoint from_utf8_lossy (s : string) : string :=
  match s with
  | EmptyString => EmptyString
  | String a r1 =>
      let n := N_of_ascii a in
      if (n <? 128)%N then String a (from_utf8_lossy r1)
      else match r1 with
      | EmptyString => replacement
      | String b r2 =>
          if byte_in 194 223 a then
            if is_continuation b then String a (String b (from_utf8_lossy r2)) else replacement +:+ from_utf8_lossy r1
          else if byte_in 224 239 a then
            if second_of_three n b then
              match r2 with
              | String c r3 =>
                  if is_continuation c then String a (String b (String c (from_utf8_lossy r3)))
                  else replacement +:+ from_utf8_lossy r2
              | EmptyString => replacement
              end
            else replacement +:+ from_utf8_lossy r1
          else if byte_in 240 244 a then
            if second_of_four n b then
              match r2 with
              | String c r3 =>
                  if is_continuation c then
                    match r3 with
                    | String d r4 =>
                        if is_continuation d then String a (String b (String c (String d (from_utf8_lossy r4))))
                        else replacement +:+ from_utf8_lossy r3
                    | EmptyString => replacement
                    end
                  else replacement +:+ from_utf8_lossy r2
              | EmptyString => replacement
              end
            else replacement +:+ from_utf8_lossy r1
          else replacement +:+ from_utf8_lossy r1
      end
  end.

(** ** Decimal numbers *)

(** The value of a string of digits. *)
Fixpoint decimal (acc : N) (s : string) : option N :=
  match s with
  | EmptyString => Some acc
  | String a r => if is_ascii_digit a then decimal (acc * 10 + (N_of_ascii a - 48)) r else None
  end.

(** [str::parse::<i32>]: an optional sign, then digits, within the width. *)
Definition parse_i32 (s : string) : option Z :=
  let digits s := if is_empty s then None else decimal 0 s in
  match s with
  | String a r =>
      if Ascii.eqb a "-"%char then
        n ← digits r; (if (n <=? 2147483648)%N then Some (- Z.of_N n)%Z else None)
      else n ← digits (if Ascii.eqb a "+"%char then r else s);
           (if (n <=? 2147483647)%N then Some (Z.of_N n) else None)
  | EmptyString => None
  end.

Lemma decimal_go x : forall s, decimal 0 (pretty_N_go x s) = decimal x s.
Proof.
  induction (N.lt_wf_0 x) as [x _ IH]. intros s. destruct (decide (0 < x)%N) as [Hx|Hx].
  - rewrite pretty_N_go_step by done. rewrite IH by (apply N.div_lt; lia). cbn [decimal].
    assert (forall d, (d < 10)%N -> is_ascii_digit (pretty_N_char d) = true /\ (N_of_ascii (pretty_N_char d) - 48 = d)%N) as Hd.
    { intros d Hd. assert (d = 0 \/ d = 1 \/ d = 2 \/ d = 3 \/ d = 4 \/ d = 5 \/ d = 6 \/ d = 7 \/ d = 8 \/ d = 9)%N as Hc by lia.
      repeat destruct Hc as [->|Hc]; [by vm_compute..|]. subst. by vm_compute. }
    destruct (Hd (x mod 10)%N) as [-> ->]; [by apply N.mod_lt|]. f_equal. pose proof (N.div_mod x 10). lia.
  - assert (x = 0%N) as -> by lia. by rewrite pretty_N_go_0.
Qed.

Lemma decimal_pretty n : decimal 0 (pretty n) = Some n.
Proof.
  unfold pretty, pretty_N. destruct (decide (n = 0)%N) as [->|Hn]; [done|]. by rewrite decimal_go.
Qed.

Lemma decimal_digits s : forall acc n, decimal acc s = Some n -> bytes_all is_ascii_digit s = true.
Proof.
  induction s as [|c s IH]; intros acc n; [done|]. cbn. destruct (is_ascii_digit c); [|done]. apply IH.
Qed.

Lemma digits_lack c s : is_ascii_digit c = false -> bytes_all is_ascii_digit s = true -> lacks c s = true.
Proof.
  intros Hc. apply bytes_all_impl. intros a Ha. apply negb_true_iff, Ascii.eqb_neq. intros ->. congruence.
Qed.

Lemma pretty_digits (n : N) : bytes_all is_ascii_digit (pretty n) = true.
Proof. eapply decimal_digits, decimal_pretty. Qed.

(** ** Lemmas *)

Lemma len_app s t : len (s +:+ t) = (len s + len t)%N.
Proof. unfold len. rewrite length_app_string. lia. Qed.

Lemma take_bytes_all n s : (len s <= n)%N -> take_bytes n s = s.
Proof.
  revert n. induction s as [|c s IH]; intros n Hn; [done|]. unfold len in *. simpl in *.
  destruct (N.eqb_spec n 0); [lia|]. rewrite IH; [done|lia].
Qed.

Lemma take_bytes_0 s : take_bytes 0 s = EmptyString.
Proof. by destruct s. Qed.

Lemma len_take_bytes n s : (len (take_bytes n s) = N.min n (len s))%N.
Proof.
  revert n. induction s as [|c s IH]; intros n; unfold len in *; cbn [take_bytes String.length]; [lia|].
  destruct (N.eqb_spec n 0); cbn [String.length]; [lia|]. specialize (IH (N.pred n)). lia.
Qed.

(** Keeping at most [n] bytes of what comes piece by piece. *)
Lemma take_bytes_app n s t : take_bytes n (s +:+ t) = take_bytes n s +:+ take_bytes (n - len s) t.
Proof.
  revert n. induction s as [|c s IH]; intros n; simpl.
  - unfold len. simpl. by rewrite N.sub_0_r.
  - unfold len in *. simpl. destruct (N.eqb_spec n 0) as [->|Hn].
    + by rewrite N.sub_0_l, take_bytes_0.
    + rewrite IH, app_cons_string. assert (N.pred n - N.of_nat (String.length s) =
        n - N.of_nat (S (String.length s)))%N as -> by lia. done.
Qed.

Lemma take_bytes_prefix n s : exists r, s = take_bytes n s +:+ r.
Proof.
  revert n. induction s as [|c s IH]; intros n; simpl; [by exists EmptyString|].
  destruct (n =? 0)%N; [by exists (String c s)|]. destruct (IH (N.pred n)) as [r Hr].
  exists r. rewrite app_cons_string. by rewrite <- Hr.
Qed.

Lemma concat_inclusive c s : concat (split_inclusive c s) = s.
Proof.
  induction s as [|a s IH]; simpl; [done|]. destruct (Ascii.eqb a c); simpl; [by rewrite IH|].
  destruct (split_inclusive c s); simpl in *; by rewrite <- IH.
Qed.

Lemma inclusive_nonempty c s : Forall (fun x => x <> EmptyString) (split_inclusive c s).
Proof.
  induction s as [|a s IH]; simpl; [done|]. destruct (Ascii.eqb a c); [by constructor|].
  destruct (split_inclusive c s); [by repeat constructor|]. inversion IH; by constructor.
Qed.

(** A piece ends at its only [c], but for the last, which may have none. *)
Definition line_of (c : ascii) (x : string) : Prop := exists y, x = y +:+ String c EmptyString /\ lacks c y = true.

Lemma split_inclusive_line c x t : line_of c x -> split_inclusive c (x +:+ t) = x :: split_inclusive c t.
Proof.
  intros (y & -> & Hy). induction y as [|a y IH]; simpl; [by rewrite Ascii.eqb_refl|].
  rewrite lacks_cons in Hy. apply andb_true_iff in Hy as [Ha Hy]. apply negb_true_iff in Ha.
  rewrite Ha. rewrite IH by done. done.
Qed.

Lemma split_inclusive_lacks c s : lacks c s = true -> s <> EmptyString -> split_inclusive c s = [s].
Proof.
  induction s as [|a s IH]; [done|]. intros Hs _. simpl. rewrite lacks_cons in Hs.
  apply andb_true_iff in Hs as [Ha Hs]. apply negb_true_iff in Ha. rewrite Ha.
  destruct s; [done|]. by rewrite IH.
Qed.

(** Every text is lines and a last piece without an end. *)
Lemma inclusive_cases c s : exists ls t, s = concat ls +:+ t /\ Forall (line_of c) ls /\ lacks c t = true.
Proof.
  induction s as [|a s (ls & t & -> & Hls & Ht)]; [by exists [], EmptyString|].
  destruct (Ascii.eqb_spec a c) as [->|Hne].
  - exists (String c EmptyString :: ls), t. split; [done|]. split; [|done]. constructor; [by exists EmptyString|done].
  - destruct ls as [|l ls].
    + exists [], (String a t). split; [done|]. split; [done|]. rewrite lacks_cons, Ht.
      by rewrite (proj2 (Ascii.eqb_neq _ _) Hne).
    + exists (String a l :: ls), t. apply Forall_cons in Hls as [(y & -> & Hy) Hls]. split; [done|].
      split; [|done]. constructor; [|done]. exists (String a y). split; [done|].
      by rewrite lacks_cons, Hy, (proj2 (Ascii.eqb_neq _ _) Hne).
Qed.

Lemma split_inclusive_lines c ls t : Forall (line_of c) ls ->
  split_inclusive c (concat ls +:+ t) = ls ++ split_inclusive c t.
Proof.
  intros Hls. induction Hls as [|x ls Hx _ IH]; [done|]. cbn [concat]. rewrite app_assoc_string, split_inclusive_line by done.
  by rewrite IH.
Qed.

Lemma last_byte_snoc s c : last_byte (s +:+ String c EmptyString) = Some c.
Proof. induction s as [|a s IH]; [done|]. simpl. by destruct (s +:+ String c EmptyString) eqn:E; [destruct s|]. Qed.

Lemma ends_line_line x : line_of newline_byte x -> ends_line x = true.
Proof. intros (y & -> & _). unfold ends_line. by rewrite last_byte_snoc, bool_decide_eq_true_2. Qed.

Lemma ends_line_lacks x : lacks newline_byte x = true -> ends_line x = false.
Proof.
  intros Hx. unfold ends_line. apply bool_decide_eq_false. intros Hl. revert Hx Hl.
  induction x as [|a x IH]; [done|]. rewrite lacks_cons. intros [Ha Hx]%andb_true_iff.
  destruct x; simpl; [|by apply IH]. intros [= ->]. by rewrite Ascii.eqb_refl in Ha.
Qed.

(** Every piece with another after it is a line. *)
Lemma inclusive_mid c s l x y l' : split_inclusive c s = l ++ x :: y :: l' -> line_of c x.
Proof.
  destruct (inclusive_cases c s) as (ls & t & -> & Hls & Ht). rewrite split_inclusive_lines by done.
  assert (split_inclusive c t = [] \/ split_inclusive c t = [t]) as Hlast.
  { destruct (decide (t = EmptyString)) as [->|Hne]; [by left|]. right. by apply split_inclusive_lacks. }
  intros Heq. apply (proj1 (Forall_forall (line_of c) ls) Hls). revert Heq.
  revert l. induction ls as [|z ls IH]; intros l Heq.
  - destruct Hlast as [Hl|Hl]; rewrite Hl in Heq; destruct l as [|? [|? [|]]]; done.
  - apply Forall_cons in Hls as [_ Hls]. destruct l as [|w l]; injection Heq as -> Heq; [by left|]. right. by apply (IH Hls l).
Qed.

(** Pieces read one by one, a piece that comes in parts being read as one:
    the chunks a text comes in do not matter. *)
Section Chunks.
Context {A : Type} (same : A -> A -> Prop) `{!Equivalence same} (step : A -> string -> A) (c : ascii).
Context (step_same : forall a b x, same a b -> same (step a x) (step b x)).
Context (step_join : forall a x y, x <> EmptyString -> lacks c x = true -> y <> EmptyString ->
  line_of c y \/ lacks c y = true -> same (step (step a x) y) (step a (x +:+ y))).

Lemma steps_same xs : forall a b, same a b -> same (foldl step a xs) (foldl step b xs).
Proof. induction xs as [|x xs IH]; intros a b Hab; [done|]. by apply IH, step_same. Qed.

Lemma inclusive_pieces s : Forall (fun x => line_of c x \/ lacks c x = true) (split_inclusive c s).
Proof.
  destruct (inclusive_cases c s) as (ls & t & -> & Hls & Ht). rewrite split_inclusive_lines by done.
  apply Forall_app. split; [by eapply Forall_impl; [done|]; left|].
  destruct (decide (t = EmptyString)) as [->|Hne]; [done|]. rewrite split_inclusive_lacks by done.
  constructor; [by right|done].
Qed.

Lemma steps_join a x y :
  same (foldl step (foldl step a (split_inclusive c x)) (split_inclusive c y)) (foldl step a (split_inclusive c (x +:+ y))).
Proof.
  destruct (inclusive_cases c x) as (ls & t & -> & Hls & Ht). rewrite app_assoc_string, !split_inclusive_lines by done.
  rewrite !foldl_app. set (b := foldl step a ls). destruct (decide (t = EmptyString)) as [->|Hne].
  { by rewrite app_nil_string. }
  rewrite (split_inclusive_lacks c t) by done. cbn [foldl].
  pose proof (inclusive_pieces y) as Hp. pose proof (inclusive_nonempty c y) as Hn. pose proof (concat_inclusive c y) as Hy.
  assert (forall s r, lacks c s = true -> s <> EmptyString -> split_inclusive c r <> [] ->
    split_inclusive c (s +:+ r) = match split_inclusive c r with [] => [] | h :: l => (s +:+ h) :: l end) as Hfirst.
  { intros s. induction s as [|z s IH]; intros r Hs Hsn Hr; [done|]. rewrite lacks_cons in Hs.
    apply andb_true_iff in Hs as [Hz%negb_true_iff Hs]. rewrite app_cons_string. cbn [split_inclusive]. rewrite Hz.
    destruct (decide (s = EmptyString)) as [->|Hs']; [rewrite app_nil_string; by destruct (split_inclusive c r)|].
    rewrite IH by done. by destruct (split_inclusive c r). }
  destruct (split_inclusive c y) as [|h l] eqn:Hsy.
  - cbn in Hy. subst y. rewrite app_nil_r_string, split_inclusive_lacks by done. done.
  - rewrite (Hfirst t y) by (done || by rewrite Hsy). rewrite Hsy. cbn [foldl]. apply steps_same.
    apply Forall_cons in Hp as [Hp _]. apply Forall_cons in Hn as [Hn _]. by apply step_join.
Qed.

Lemma chunks_same a chunks :
  same (foldl (fun a x => foldl step a (split_inclusive c x)) a chunks) (foldl step a (split_inclusive c (concat chunks))).
Proof.
  revert a. induction chunks as [|x xs IH]; intros a; [done|]. cbn [foldl concat].
  etransitivity; [apply IH|]. apply steps_join.
Qed.
End Chunks.

(** ** Cutting UTF-8 *)

(** Valid UTF-8: what reading with replacements does not change. *)
Definition valid_utf8 (s : string) : Prop := from_utf8_lossy s = s.

(** The well-formed sequences. *)
Inductive utf8_seq : string -> Prop :=
| seq_one a : (N_of_ascii a <? 128)%N = true -> utf8_seq (String a EmptyString)
| seq_two a b : (N_of_ascii a <? 128)%N = false -> byte_in 194 223 a = true -> is_continuation b = true ->
    utf8_seq (String a (String b EmptyString))
| seq_three a b c : (N_of_ascii a <? 128)%N = false -> byte_in 194 223 a = false -> byte_in 224 239 a = true ->
    second_of_three (N_of_ascii a) b = true -> is_continuation c = true ->
    utf8_seq (String a (String b (String c EmptyString)))
| seq_four a b c d : (N_of_ascii a <? 128)%N = false -> byte_in 194 223 a = false -> byte_in 224 239 a = false ->
    byte_in 240 244 a = true -> second_of_four (N_of_ascii a) b = true -> is_continuation c = true -> is_continuation d = true ->
    utf8_seq (String a (String b (String c (String d EmptyString)))).

Lemma seq_lossy c t : utf8_seq c -> from_utf8_lossy (c +:+ t) = c +:+ from_utf8_lossy t.
Proof.
  intros Hc. inversion Hc; subst; rewrite !app_cons_string, !app_nil_string; cbn [from_utf8_lossy];
    repeat match goal with E : _ = _ :> bool |- _ => rewrite E; clear E end; done.
Qed.

Lemma seq_len c : utf8_seq c -> (1 <= len c <= 4)%N.
Proof. intros Hc. inversion Hc; subst; by vm_compute. Qed.

(** A sequence cut short is one replacement. *)
Lemma seq_cut c n : utf8_seq c -> (0 < n < len c)%N -> from_utf8_lossy (take_bytes n c) = replacement.
Proof.
  intros Hc Hn. assert (n = 1 \/ n = 2 \/ n = 3)%N as Hcases by (pose proof (seq_len c Hc); lia).
  inversion Hc; subst; unfold len in Hn; simpl in Hn;
    destruct Hcases as [-> | [-> | ->]]; try lia; cbn [take_bytes];
    change (N.pred 3) with 2%N; change (N.pred 2) with 1%N; change (N.pred 1) with 0%N;
    cbn [N.eqb Pos.eqb from_utf8_lossy];
    repeat match goal with E : _ = _ :> bool |- _ => rewrite E; clear E end; done.
Qed.

(** What starts with the bytes of the replacement is not a broken sequence. *)
Ltac not_replacement Hs :=
  exfalso; unfold replacement in Hs; rewrite ?app_cons_string in Hs; injection Hs; intros; subst; vm_compute in *; congruence.

Lemma valid_cases s : valid_utf8 s -> s = EmptyString \/ exists c r, s = c +:+ r /\ utf8_seq c /\ valid_utf8 r.
Proof.
  unfold valid_utf8. intros Hs. destruct s as [|a s]; [by left|]. right.
  cbn [from_utf8_lossy] in Hs. destruct (N_of_ascii a <? 128)%N eqn:Ha.
  { injection Hs as Hs. exists (String a EmptyString), s. split; [done|]. split; [by constructor|done]. }
  destruct s as [|b s]; [by not_replacement Hs|].
  destruct (byte_in 194 223 a) eqn:Ha2.
  { destruct (is_continuation b) eqn:Hb; [|by not_replacement Hs]. injection Hs as Hs.
    exists (String a (String b EmptyString)), s. split; [done|]. split; [by constructor|done]. }
  destruct (byte_in 224 239 a) eqn:Ha3.
  { destruct (second_of_three (N_of_ascii a) b) eqn:Hb; [|by not_replacement Hs].
    destruct s as [|c s]; [by not_replacement Hs|]. destruct (is_continuation c) eqn:Hc; [|by not_replacement Hs]. injection Hs as Hs.
    exists (String a (String b (String c EmptyString))), s. split; [done|]. split; [by constructor|done]. }
  destruct (byte_in 240 244 a) eqn:Ha4; [|by not_replacement Hs].
  destruct (second_of_four (N_of_ascii a) b) eqn:Hb; [|by not_replacement Hs].
  destruct s as [|c s]; [by not_replacement Hs|]. destruct (is_continuation c) eqn:Hc; [|by not_replacement Hs].
  destruct s as [|d s]; [by not_replacement Hs|]. destruct (is_continuation d) eqn:Hd; [|by not_replacement Hs]. injection Hs as Hs.
  exists (String a (String b (String c (String d EmptyString)))), s. split; [done|]. split; [by constructor|done].
Qed.

Lemma take_bytes_le n m s : (n <= m)%N -> take_bytes n (take_bytes m s) = take_bytes n s.
Proof.
  revert n m. induction s as [|c s IH]; intros n m Hnm; [done|]. cbn [take_bytes].
  destruct (N.eqb_spec m 0) as [->|Hm]; [by replace n with 0%N by lia|]. cbn [take_bytes].
  destruct (N.eqb_spec n 0); [done|]. rewrite IH; [done|lia].
Qed.

(** A valid text cut anywhere and read with replacements keeps all but the
    last character's bytes, at most three, of the cut. *)
Lemma lossy_cut n s : valid_utf8 s -> exists m t, (m <= n)%N /\ (n <= m + 3)%N /\ from_utf8_lossy (take_bytes n s) = take_bytes m s +:+ t.
Proof.
  remember (String.length s) as k eqn:Hk. revert n s Hk. induction (lt_wf k) as [k _ IH]. intros n s -> Hs.
  destruct (valid_cases s Hs) as [->|(c & r & -> & Hc & Hr)]; [exists n, EmptyString; split_and!; [lia..|done]|].
  pose proof (seq_len c Hc) as Hlen. rewrite take_bytes_app. destruct (N.le_gt_cases (len c) n) as [Hle|Hgt].
  - rewrite (take_bytes_all n c Hle), seq_lossy by done.
    destruct (IH (String.length r)) with (n := (n - len c)%N) (s := r) as (m & t & H1 & H2 & H3); [|done..|].
    { rewrite length_app_string. unfold len in Hlen. lia. }
    exists (len c + m)%N, t. split_and!; [lia..|]. rewrite H3, take_bytes_app, (take_bytes_all _ c) by lia.
    rewrite app_assoc_string. do 3 f_equal. lia.
  - replace (n - len c)%N with 0%N by lia. rewrite take_bytes_0, app_nil_r_string.
    exists 0%N, (if (n =? 0)%N then EmptyString else replacement). split_and!; [lia..|]. rewrite take_bytes_0.
    destruct (N.eqb_spec n 0) as [->|Hn]; [by rewrite take_bytes_0|]. rewrite seq_cut by (done || lia). done.
Qed.
