(* ===== verification/Patch.v ===== *)
(** The patches of a workspace, read as git prints them
    ([PatchSplitter] and [SectionReader] of
    [crates/balerix-runtime/src/inspect.rs]): one combined diff cut into the
    sections of its files, and the framed output of the patch script. Bytes
    come in chunks of any size. *)

From S2P Require Import Prelude Str BTree Bytes.

(** ** [PatchSplitter] *)

Definition HEADER_MAX : N := 64 * 1024.
Definition HEADER : string := "diff --git ".

Record PatchSplitter := mkSplitter {
  ps_cap : N;
  ps_sections : gmap string string;
  ps_ambiguous : gset string;
  ps_current : option string;
  ps_at_line_start : bool;
  ps_probe : option string;
}.

Definition new_splitter (cap : N) : PatchSplitter :=
  {| ps_cap := cap; ps_sections := ∅; ps_ambiguous := ∅; ps_current := None; ps_at_line_start := true;
     ps_probe := None |}.

Definition append (bytes : string) (p : PatchSplitter) : PatchSplitter :=
  match ps_current p with
  | None => p
  | Some key =>
      let section := default EmptyString (ps_sections p !! key) in
      let room := (ps_cap p - len section)%N in
      {| ps_cap := ps_cap p; ps_sections := <[key := section +:+ take_bytes room bytes]> (ps_sections p);
         ps_ambiguous := ps_ambiguous p; ps_current := Some key; ps_at_line_start := ps_at_line_start p;
         ps_probe := ps_probe p |}
  end.

(** The key of a header line. *)
Definition header_key (line : string) : string :=
  from_utf8_lossy (default line (strip_suffix (String newline_byte EmptyString) line)).

Definition start_section (line : string) (p : PatchSplitter) : PatchSplitter :=
  let key := header_key line in
  let ambiguous :=
    if negb (bool_decide (ps_current p = Some key)) && bool_decide (is_Some (ps_sections p !! key))
    then {[key]} ∪ ps_ambiguous p else ps_ambiguous p in
  append line {| ps_cap := ps_cap p; ps_sections := ps_sections p; ps_ambiguous := ambiguous;
                 ps_current := Some key; ps_at_line_start := ps_at_line_start p; ps_probe := ps_probe p |}.

Definition set_probe (at_start : bool) (probe : option string) (p : PatchSplitter) : PatchSplitter :=
  {| ps_cap := ps_cap p; ps_sections := ps_sections p; ps_ambiguous := ps_ambiguous p; ps_current := ps_current p;
     ps_at_line_start := at_start; ps_probe := probe |}.

(** A line's start that may still be a header's. *)
Definition could_be (probe : string) : bool :=
  (len probe <? len HEADER)%N && starts_with HEADER probe || starts_with probe HEADER && (len probe <=? HEADER_MAX)%N.

(** One turn of [feed]'s loop: a segment up to a line's end. *)
Definition feed_segment (p : PatchSplitter) (segment : string) : PatchSplitter :=
  let probe := if ps_at_line_start p then Some EmptyString else ps_probe p in
  let p := set_probe (ends_line segment) None p in
  match probe with
  | None => append segment p
  | Some probe =>
      let probe := probe +:+ segment in
      if negb (could_be probe) then append probe p
      else if ends_line segment then if starts_with probe HEADER then start_section probe p else append probe p
      else set_probe (ps_at_line_start p) (Some probe) p
  end.

Definition splitter_feed (p : PatchSplitter) (chunk : string) : PatchSplitter :=
  foldl feed_segment p (split_inclusive newline_byte chunk).

Definition splitter_finish (p : PatchSplitter) : gmap string string :=
  let p := match ps_probe p with
           | Some probe =>
               let p := set_probe (ps_at_line_start p) None p in
               if starts_with probe HEADER then start_section probe p else append probe p
           | None => p
           end in
  from_utf8_lossy <$> filter (fun kv => kv.1 ∉ ps_ambiguous p) (ps_sections p).

(** [split_patch]; [usize::MAX] bytes are more than any text has. *)
Definition split_patch (raw : string) : gmap string string :=
  splitter_finish (splitter_feed (new_splitter (2 ^ 64 - 1)) raw).

(** ** [SectionReader] *)

Definition WORKSPACE_PATCH_LIMIT : N := 256 * 1024.
Definition SECTION_CAP : N := WORKSPACE_PATCH_LIMIT + 4.

Record SectionReader := mkReader {
  sr_combined : option PatchSplitter;
  sr_untracked : list string;
  sr_wanted : nat;
  sr_codes : list Z;
  sr_at_line_start : bool;
  sr_frame : option string;
  sr_broken : bool;
}.

Record Sections := {
  sc_combined : option (gmap string string);
  sc_untracked : list string;
  sc_codes : list Z;
}.

Definition new_reader (combined : bool) (untracked : nat) : SectionReader :=
  {| sr_combined := if combined then Some (new_splitter SECTION_CAP) else None; sr_untracked := [];
     sr_wanted := untracked; sr_codes := []; sr_at_line_start := true; sr_frame := None; sr_broken := false |}.

Definition expected (r : SectionReader) : nat :=
  (if bool_decide (is_Some (sr_combined r)) then 1 else 0) + sr_wanted r.

Definition break_reader (r : SectionReader) : SectionReader :=
  {| sr_combined := sr_combined r; sr_untracked := sr_untracked r; sr_wanted := sr_wanted r; sr_codes := sr_codes r;
     sr_at_line_start := sr_at_line_start r; sr_frame := sr_frame r; sr_broken := true |}.
Definition set_frame (at_start : bool) (frame : option string) (r : SectionReader) : SectionReader :=
  {| sr_combined := sr_combined r; sr_untracked := sr_untracked r; sr_wanted := sr_wanted r; sr_codes := sr_codes r;
     sr_at_line_start := at_start; sr_frame := frame; sr_broken := sr_broken r |}.
Definition push_code (code : Z) (r : SectionReader) : SectionReader :=
  {| sr_combined := sr_combined r; sr_untracked := sr_untracked r; sr_wanted := sr_wanted r;
     sr_codes := sr_codes r ++ [code]; sr_at_line_start := sr_at_line_start r; sr_frame := sr_frame r;
     sr_broken := sr_broken r |}.
Definition set_bodies (combined : option PatchSplitter) (untracked : list string) (r : SectionReader) : SectionReader :=
  {| sr_combined := combined; sr_untracked := untracked; sr_wanted := sr_wanted r; sr_codes := sr_codes r;
     sr_at_line_start := sr_at_line_start r; sr_frame := sr_frame r; sr_broken := sr_broken r |}.

(** [while untracked.len() < n { untracked.push(Vec::new()) }]. *)
Definition pad (n : nat) (l : list string) : list string := l ++ replicate (n - length l) EmptyString.

(** The bytes a section still takes, after those it has. *)
Definition fill (index : nat) (bytes : string) (untracked : list string) : list string :=
  let section := default EmptyString (untracked !! index) in
  let room := (SECTION_CAP - len section)%N in
  <[index := section +:+ take_bytes room bytes]> untracked.

Definition content (bytes : string) (r : SectionReader) : SectionReader :=
  match sr_combined r, length (sr_codes r) with
  | Some splitter, O => set_bodies (Some (splitter_feed splitter bytes)) (sr_untracked r) r
  | combined, n =>
      let index := if bool_decide (is_Some combined) then pred n else n in
      if sr_wanted r <=? index then break_reader r
      else
        set_bodies combined (fill index bytes (pad (S index) (sr_untracked r))) r
  end.

(** A piece of a frame, its line's end included. *)
Definition feed_frame (frame piece : string) (r : SectionReader) : SectionReader :=
  let line := default piece (strip_suffix (String newline_byte EmptyString) piece) in
  let frame := frame +:+ line in
  if (12 <? len frame)%N then break_reader (set_frame (sr_at_line_start r) (Some frame) r)
  else if negb (ends_line piece) then set_frame (sr_at_line_start r) (Some frame) r
  else
    let r := set_frame true None r in
    match parse_i32 frame with
    | Some code => if length (sr_codes r) <? expected r then push_code code r else break_reader r
    | None => break_reader r
    end.

(** The turns of [feed]'s loop over one piece up to a line's end: one, or two
    where the piece opens a frame, the NUL first. *)
Definition feed_piece (r : SectionReader) (piece : string) : SectionReader :=
  if sr_broken r then r
  else match sr_frame r with
  | Some frame => feed_frame frame piece r
  | None =>
      match piece with
      | String c rest =>
          if sr_at_line_start r && Ascii.eqb c nul then
            let r := set_frame (sr_at_line_start r) (Some EmptyString) r in
            if is_empty rest then r else feed_frame EmptyString rest r
          else content piece (set_frame (ends_line piece) None r)
      | EmptyString => r
      end
  end.

Definition reader_feed (r : SectionReader) (chunk : string) : SectionReader :=
  foldl feed_piece r (split_inclusive newline_byte chunk).

Definition reader_finish (r : SectionReader) : option Sections :=
  if sr_broken r || bool_decide (is_Some (sr_frame r)) || negb (length (sr_codes r) =? expected r) then None
  else Some {| sc_combined := splitter_finish <$> sr_combined r;
               sc_untracked := from_utf8_lossy <$> pad (sr_wanted r) (sr_untracked r);
               sc_codes := sr_codes r |}.

(** ** What the splitter does, line by line *)

Definition is_header (line : string) : bool := starts_with line HEADER && (len line <=? HEADER_MAX)%N.

Definition line_step (p : PatchSplitter) (line : string) : PatchSplitter :=
  if is_header line then start_section line p else append line p.

(** The sections of a splitter that read whole lines. *)
Definition finish_lines (p : PatchSplitter) : gmap string string :=
  from_utf8_lossy <$> filter (fun kv => kv.1 ∉ ps_ambiguous p) (ps_sections p).

Lemma splitter_eq p q :
  ps_cap p = ps_cap q -> ps_sections p = ps_sections q -> ps_ambiguous p = ps_ambiguous q ->
  ps_current p = ps_current q -> ps_at_line_start p = ps_at_line_start q -> ps_probe p = ps_probe q -> p = q.
Proof. destruct p, q; simpl; intros; by subst. Qed.

Lemma append_probe b a pr p : append b (set_probe a pr p) = set_probe a pr (append b p).
Proof. unfold append. simpl. by destruct (ps_current p). Qed.

Lemma start_probe l a pr p : start_section l (set_probe a pr p) = set_probe a pr (start_section l p).
Proof. unfold start_section, append. simpl. done. Qed.

Lemma line_probe l a pr p : line_step (set_probe a pr p) l = set_probe a pr (line_step p l).
Proof. unfold line_step. destruct (is_header l); [apply start_probe|apply append_probe]. Qed.

Lemma lines_probe ls a pr p : foldl line_step (set_probe a pr p) ls = set_probe a pr (foldl line_step p ls).
Proof. revert p. induction ls as [|l ls IH]; intros p; [done|]. cbn [foldl]. by rewrite line_probe, IH. Qed.

Lemma set_probe_twice a pr a' pr' p : set_probe a pr (set_probe a' pr' p) = set_probe a pr p.
Proof. done. Qed.

Lemma take_more cap s t : take_bytes cap s +:+ take_bytes (cap - len (take_bytes cap s)) t = take_bytes cap (s +:+ t).
Proof. rewrite take_bytes_app, len_take_bytes. do 2 f_equal. lia. Qed.

(** Appending in pieces is appending at once, whatever the cap. *)
Lemma append_app s t p : append t (append s p) = append (s +:+ t) p.
Proof.
  unfold append. destruct (ps_current p) as [key|] eqn:Hc; [|by rewrite Hc]. simpl.
  rewrite lookup_insert_eq. simpl. rewrite insert_insert_eq. f_equal. f_equal.
  rewrite app_assoc_string. f_equal. rewrite take_bytes_app. f_equal. rewrite len_app, len_take_bytes. f_equal. lia.
Qed.

Lemma starts_with_app_l s t p : starts_with s p = true -> starts_with (s +:+ t) p = true.
Proof. rewrite !starts_with_spec. intros [r ->]. exists (r +:+ t). by rewrite app_assoc_string. Qed.

(** Two prefixes of one text: the shorter is a prefix of the longer. *)
Lemma prefix_shorter a b x y : a +:+ x = b +:+ y -> (len a <= len b)%N -> exists z, b = a +:+ z.
Proof.
  revert b. induction a as [|c a IH]; intros b Heq Hlen; [by exists b|].
  destruct b as [|d b]; [unfold len in Hlen; simpl in Hlen; lia|].
  rewrite !app_cons_string in Heq. injection Heq as -> Heq.
  destruct (IH b Heq) as [z ->]; [unfold len in *; simpl in *; lia|]. by exists z.
Qed.

Lemma could_be_prefix t s : could_be (t +:+ s) = true -> could_be t = true.
Proof.
  unfold could_be. rewrite !orb_true_iff, !andb_true_iff, !starts_with_spec, !N.ltb_lt, !N.leb_le, !len_app.
  intros [[Hl [r Hr]]|[[r Hr] Hl]].
  - left. split; [lia|]. exists (s +:+ r). by rewrite Hr, app_assoc_string.
  - destruct (N.lt_ge_cases (len t) (len HEADER)) as [Hlt|Hge].
    + left. split; [done|]. destruct (prefix_shorter t HEADER s r) as [z Hz]; [done|lia|]. exists z. exact Hz.
    + right. split; [|lia]. destruct (prefix_shorter HEADER t r s) as [z Hz]; [done|lia|]. exists z. exact Hz.
Qed.

Lemma is_header_could t : is_header t = true -> could_be t = true.
Proof. unfold could_be, is_header. intros ->. by rewrite orb_true_r. Qed.

Lemma could_be_header t : could_be t = true -> starts_with t HEADER = is_header t.
Proof.
  unfold could_be, is_header. intros Hc. destruct (starts_with t HEADER) eqn:Hs; [|done]. simpl.
  apply orb_true_iff in Hc as [Hc|Hc]; [|by destruct (_ <=? _)%N].
  apply andb_true_iff in Hc as [Hc _]. apply N.ltb_lt in Hc.
  apply starts_with_spec in Hs as [r ->]. rewrite len_app in Hc. lia.
Qed.

Lemma nonempty_app t s : t <> EmptyString -> t +:+ s <> EmptyString.
Proof. by destruct t. Qed.

Lemma ends_line_app t s : s <> EmptyString -> ends_line (t +:+ s) = ends_line s.
Proof.
  intros Hs. unfold ends_line. f_equal. assert (last_byte (t +:+ s) = last_byte s) as ->; [|done].
  induction t as [|a t IH]; [done|]. rewrite app_cons_string. cbn [last_byte]. rewrite IH. by destruct t, s.
Qed.

(** A segment read in two parts is read as one. *)
Lemma feed_segment_join p t s : t <> EmptyString -> lacks newline_byte t = true -> s <> EmptyString ->
  feed_segment (feed_segment p t) s = feed_segment p (t +:+ s).
Proof.
  intros Hne Ht Hs. unfold feed_segment. rewrite (ends_line_app t s Hs), (ends_line_lacks t Ht).
  destruct (if ps_at_line_start p then Some EmptyString else ps_probe p) as [pr|].
  - rewrite <- (app_assoc_string pr t s). destruct (could_be (pr +:+ t)) eqn:Hc; cbn [negb].
    + cbn [set_probe ps_at_line_start ps_probe]. destruct (could_be ((pr +:+ t) +:+ s)); cbn [negb]; [|done].
      by destruct (ends_line s).
    + destruct (could_be ((pr +:+ t) +:+ s)) eqn:Hc'; [apply could_be_prefix in Hc'; congruence|]. cbn [negb].
      rewrite append_probe. cbn [set_probe ps_at_line_start ps_probe]. rewrite set_probe_twice, !append_probe.
      by rewrite append_app.
  - rewrite append_probe. cbn [set_probe ps_at_line_start ps_probe]. by rewrite set_probe_twice, !append_probe, append_app.
Qed.

Lemma feed_line p l : line_of newline_byte l -> feed_segment (set_probe true None p) l = set_probe true None (line_step p l).
Proof.
  intros Hl. unfold feed_segment. cbn [set_probe ps_at_line_start ps_probe]. rewrite app_nil_string, (ends_line_line l Hl).
  rewrite set_probe_twice. unfold line_step. destruct (could_be l) eqn:Hc; cbn [negb].
  - rewrite <- (could_be_header l Hc). destruct (starts_with l HEADER); [apply start_probe|apply append_probe].
  - destruct (is_header l) eqn:Hh; [apply is_header_could in Hh; congruence|apply append_probe].
Qed.

Lemma feed_lines p ls : Forall (line_of newline_byte) ls ->
  foldl feed_segment (set_probe true None p) ls = set_probe true None (foldl line_step p ls).
Proof.
  intros Hls. revert p. induction Hls as [|l ls Hl _ IH]; intros p; [done|]. cbn [foldl]. by rewrite feed_line, IH.
Qed.

Lemma concat_both a b : concat (a ++ b) = concat a +:+ concat b.
Proof. induction a as [|x a IH]; [done|]. cbn [concat app]. by rewrite app_assoc_string, <- IH. Qed.

Lemma finish_flush p : splitter_finish p = finish_lines (match ps_probe p with
  | Some probe =>
      let p := set_probe (ps_at_line_start p) None p in
      if starts_with probe HEADER then start_section probe p else append probe p
  | None => p
  end).
Proof. done. Qed.

Lemma finish_probe a pr p : finish_lines (set_probe a pr p) = finish_lines p.
Proof. done. Qed.

(** However the bytes come in chunks, the splitter reads them as one text. *)
Lemma splitter_chunks p chunks : foldl splitter_feed p chunks = splitter_feed p (concat chunks).
Proof.
  apply (chunks_same eq feed_segment newline_byte); [by intros ??? ->|]. intros ??? Hx Hl Hy _. by apply feed_segment_join.
Qed.

Lemma splitter_both p s t : splitter_feed (splitter_feed p s) t = splitter_feed p (s +:+ t).
Proof. pose proof (splitter_chunks p [s; t]) as Hst. cbn in Hst. by rewrite app_nil_r_string in Hst. Qed.

(** And reads its lines. *)
Lemma splitter_lines cap s :
  splitter_finish (splitter_feed (new_splitter cap) s) =
  finish_lines (foldl line_step (new_splitter cap) (split_inclusive newline_byte s)).
Proof.
  destruct (inclusive_cases newline_byte s) as (ls & t & -> & Hls & Ht). unfold splitter_feed.
  rewrite split_inclusive_lines, !foldl_app by done. change (new_splitter cap) with (set_probe true None (new_splitter cap)) at 1.
  rewrite feed_lines by done. set (q := foldl line_step (new_splitter cap) ls). rewrite finish_flush.
  destruct (decide (t = EmptyString)) as [->|Hne]; [done|]. rewrite split_inclusive_lacks by done. cbn [foldl].
  unfold feed_segment, line_step. cbn [set_probe ps_at_line_start ps_probe]. rewrite app_nil_string, (ends_line_lacks t Ht).
  destruct (could_be t) eqn:Hc; cbn [negb set_probe ps_probe].
  - rewrite <- (could_be_header t Hc). destruct (starts_with t HEADER); [by rewrite !start_probe, !finish_probe|].
    by rewrite !append_probe, !finish_probe.
  - destruct (is_header t) eqn:Hh; [apply is_header_could in Hh; congruence|].
    rewrite set_probe_twice, append_probe. cbn [set_probe ps_probe]. by rewrite finish_probe.
Qed.

(** ** The runs of a patch *)

(** Each header line opens a run, the lines after it up to the next header
    belong to it; lines before the first header to none. Newest first. *)
Definition add_line (rs : list (string * string)) (line : string) : list (string * string) :=
  if is_header line then (header_key line, line) :: rs
  else match rs with (k, x) :: rs => (k, x +:+ line) :: rs | [] => [] end.

(** The runs of a text, in order: each its key and its text. *)
Definition runs (raw : string) : list (string * string) :=
  rev (foldl add_line [] (split_inclusive newline_byte raw)).

(** All the runs of [k], which stand together. *)
Definition together (k : string) (rs mid : list (string * string)) : Prop :=
  exists pre post, rs = pre ++ mid ++ post /\ mid <> [] /\ Forall (fun x => x.1 = k) mid /\
    Forall (fun x => x.1 <> k) pre /\ Forall (fun x => x.1 <> k) post.

(** The text of [k]'s runs, newest first. *)
Definition texts (k : string) (rs : list (string * string)) : string :=
  concat (rev (filter (fun x => x.1 = k) rs).*2).

Definition apart (k : string) (rs : list (string * string)) : Prop :=
  exists a b, rs = a ++ b /\ k ∈ b.*1 /\ k ∈ a.*1 /\ match b with x :: _ => x.1 <> k | [] => False end.

Record tracks (p : PatchSplitter) (rs : list (string * string)) : Prop := {
  tr_current : ps_current p = fst <$> head rs;
  tr_sections : forall k, ps_sections p !! k = if decide (k ∈ rs.*1) then Some (take_bytes (ps_cap p) (texts k rs)) else None;
  tr_ambiguous : forall k, k ∈ ps_ambiguous p <-> apart k rs;
}.

Lemma texts_other k k' x rs : k <> k' -> texts k ((k', x) :: rs) = texts k rs.
Proof. intros Hne. unfold texts. rewrite filter_cons_False; [done|]. simpl. congruence. Qed.

Lemma texts_same k x rs : texts k ((k, x) :: rs) = texts k rs +:+ x.
Proof. unfold texts. rewrite filter_cons_True by done. simpl. rewrite concat_both. simpl. by rewrite app_nil_r_string. Qed.

Lemma texts_none k rs : k ∉ rs.*1 -> texts k rs = EmptyString.
Proof.
  induction rs as [|[k' x] rs IH]; intros Hk; [done|]. cbn in Hk.
  rewrite texts_other by set_solver. apply IH. set_solver.
Qed.

Lemma apart_cons k k' x rs : apart k ((k', x) :: rs) <->
  apart k rs \/ k = k' /\ k ∈ rs.*1 /\ (fst <$> head rs) <> Some k.
Proof.
  split.
  - intros (a & b & Hab & Hb & Ha & Hh). destruct a as [|y a]; [by apply not_elem_of_nil in Ha|].
    injection Hab as <- ->. cbn in Ha. apply elem_of_cons in Ha.
    destruct (decide (k ∈ a.*1)) as [Hin|Hin]; [left; by exists a, b|]. destruct Ha as [->|?]; [|done]. right.
    split; [done|]. rewrite fmap_app. split; [set_solver|]. destruct a as [|z a].
    + destruct b as [|z b]; [done|]. cbn. congruence.
    + cbn. intros [= Hz]. apply Hin. rewrite <- Hz. left.
  - intros [(a & b & -> & Hb & Ha & Hh)|(-> & Hin & Hh)].
    + exists ((k', x) :: a), b. split; [done|]. split; [done|]. split; [|done]. cbn. by constructor.
    + exists [(k', x)], rs. split; [done|]. split; [done|]. split; [by constructor|].
      destruct rs as [|y rs]; [by apply not_elem_of_nil in Hin|]. simpl in Hh. congruence.
Qed.

Lemma apart_head k k' x x' rs : apart k ((k', x) :: rs) <-> apart k ((k', x') :: rs).
Proof. by rewrite !apart_cons. Qed.

Lemma tracks_line p rs line : tracks p rs -> tracks (line_step p line) (add_line rs line).
Proof.
  intros [Hc Hs Ha]. unfold line_step, add_line. destruct (is_header line).
  - set (key := header_key line). unfold start_section, append. fold key. cbn [ps_current ps_sections ps_cap ps_ambiguous].
    split; cbn [ps_current ps_sections ps_cap ps_ambiguous]; [done| |].
    + intros k. destruct (decide (k = key)) as [->|Hne].
      * rewrite lookup_insert_eq, decide_True by (cbn; set_solver). rewrite texts_same. f_equal.
        rewrite Hs. destruct (decide (key ∈ rs.*1)) as [Hin|Hin]; cbn [default]; [apply take_more|].
        assert (texts key rs = EmptyString) as ->.
        { by apply texts_none. }
        by rewrite N.sub_0_r.
      * rewrite lookup_insert_ne by done. rewrite Hs, texts_other by done. cbn.
        destruct (decide (k ∈ rs.*1)); [by rewrite decide_True by set_solver|by rewrite decide_False by set_solver].
    + intros k. rewrite apart_cons, <- Ha.
      destruct (negb (bool_decide (ps_current p = Some key)) && bool_decide (is_Some (ps_sections p !! key))) eqn:Hamb.
      * apply andb_true_iff in Hamb as [H1%negb_true_iff%bool_decide_eq_false H2%bool_decide_eq_true].
        rewrite Hc in H1. rewrite Hs in H2. destruct (decide (key ∈ rs.*1)) as [Hin|]; [|by destruct H2].
        rewrite elem_of_union, elem_of_singleton. naive_solver.
      * apply andb_false_iff in Hamb. rewrite Hc, Hs in Hamb. split; [by left|].
        intros [?|(-> & Hin & Hh)]; [done|]. destruct Hamb as [H1%negb_false_iff%bool_decide_eq_true|H2%bool_decide_eq_false]; [done|].
        destruct H2. by rewrite decide_True.
  - unfold append. rewrite Hc. destruct rs as [|[k x] rs]; [by split|]. cbn [head fmap option_fmap option_map fst].
    split; cbn [ps_current ps_sections ps_cap ps_ambiguous]; [done| |].
    + intros k'. destruct (decide (k' = k)) as [->|Hne].
      * rewrite lookup_insert_eq, decide_True by (cbn; set_solver). rewrite Hs, decide_True by (cbn; set_solver).
        cbn [default]. rewrite !texts_same, <- app_assoc_string. f_equal. apply take_more.
      * rewrite lookup_insert_ne, Hs, !texts_other by done. done.
    + intros k'. rewrite Ha. apply apart_head.
Qed.

Lemma none_of k (rs : list (string * string)) : Forall (fun x => x.1 <> k) rs <-> k ∉ rs.*1.
Proof.
  induction rs as [|[k' x] rs IH]; cbn; [by split; [intros _ ?%not_elem_of_nil|]|].
  rewrite Forall_cons, IH, not_elem_of_cons. cbn. naive_solver.
Qed.

Lemma together_intro k rs : k ∈ rs.*1 -> ~ apart k rs -> exists mid, together k rs mid.
Proof.
  induction rs as [|[k' x] rs IH]; cbn; [by intros ?%not_elem_of_nil|].
  rewrite elem_of_cons, apart_cons. intros Hk Hna.
  destruct (decide (k' = k)) as [->|Hne].
  - destruct (decide (k ∈ rs.*1)) as [Hin|Hin].
    + destruct IH as (mid & pre & post & -> & Hm & Hmid & Hpre & Hpost); [done|tauto|].
      assert (pre = []) as ->.
      { destruct pre as [|y pre]; [done|]. apply Forall_cons in Hpre as [Hy _]. exfalso. apply Hna. right.
        split; [done|]. split; [done|]. cbn. congruence. }
      exists ((k, x) :: mid), [], post. by repeat constructor.
    + exists [(k, x)], [], rs. split_and!; [done|done|by repeat constructor|done|by apply none_of].
  - destruct IH as (mid & pre & post & -> & Hm & Hmid & Hpre & Hpost); [naive_solver|tauto|].
    exists mid, ((k', x) :: pre), post. by repeat constructor.
Qed.

Lemma same_key k (mid post : list (string * string)) : Forall (fun x => x.1 = k) mid -> k ∉ post.*1 ->
  ~ apart k post -> ~ apart k (mid ++ post) /\ texts k (mid ++ post) = concat (rev mid.*2).
Proof.
  intros Hmid Hkp Hap. induction Hmid as [|[k' x] mid Hk Hmid [IHa IHt]]; [by rewrite app_nil_l, texts_none|].
  cbn [fst] in Hk. subst k'. rewrite <- app_comm_cons. split.
  - rewrite apart_cons. intros [?|(_ & Hin & Hh)]; [done|]. destruct Hmid as [|[k' y] mid Hk _]; [done|].
    cbn [fst] in Hk. by subst.
  - rewrite texts_same, IHt. change (((k, x) :: mid).*2) with (x :: mid.*2). cbn [rev].
    by rewrite concat_both; cbn [concat]; rewrite app_nil_r_string.
Qed.

Lemma together_elim k rs mid : together k rs mid ->
  k ∈ rs.*1 /\ ~ apart k rs /\ texts k rs = concat (rev mid.*2).
Proof.
  intros (pre & post & -> & Hm & Hmid & Hpre & Hpost).
  assert (k ∉ post.*1) as Hkp by (by apply none_of).
  assert (~ apart k post) as Hap.
  { intros (a & b & -> & Hb & _). rewrite fmap_app in Hkp. set_solver. }
  destruct (same_key k mid post Hmid Hkp Hap) as [Hmp Ht].
  assert (k ∈ (mid ++ post).*1) as Hkm.
  { destruct Hmid as [|[k' x] mid Hk _]; [done|]. cbn [fst] in Hk. subst. rewrite <- app_comm_cons. by left. }
  induction Hpre as [|[k' x] pre Hk _ IH]; [done|]. destruct IH as (IH1 & IH2 & IH3). cbn [fst] in Hk.
  rewrite <- app_comm_cons, apart_cons, texts_other by done. split; [by right|]. split; [|done].
  intros [?|(-> & _)]; done.
Qed.

Lemma together_rev k rs mid : together k rs mid -> together k (rev rs) (rev mid).
Proof.
  intros (pre & post & -> & Hm & Hmid & Hpre & Hpost). exists (rev post), (rev pre).
  rewrite !rev_app_distr, app_assoc. split; [done|]. split; [by intros Hr; apply Hm; rewrite <- (rev_involutive mid), Hr|].
  by split_and!; apply Forall_rev.
Qed.

Lemma tracks_lines cap ls : tracks (foldl line_step (new_splitter cap) ls) (foldl add_line [] ls).
Proof.
  assert (forall p rs, tracks p rs -> tracks (foldl line_step p ls) (foldl add_line rs ls)) as Hall.
  { induction ls as [|l ls IH]; intros p rs Hp; [done|]. by apply IH, tracks_line. }
  apply Hall. split; [done| |]; intros k; [done|]. cbn. split; [set_solver|].
  intros (a & b & Hab & Hb & _). symmetry in Hab. apply app_eq_nil in Hab as [-> ->]. by apply not_elem_of_nil in Hb.
Qed.

Lemma line_step_cap ls p : ps_cap (foldl line_step p ls) = ps_cap p.
Proof.
  revert p. induction ls as [|l ls IH]; intros p; [done|]. cbn [foldl]. rewrite IH. unfold line_step, start_section, append.
  by destruct (is_header l), (ps_current p).
Qed.

(** C14: A combined diff is cut into its files whatever the chunks it comes in:
    a key has a section exactly when its runs stand together in the patch, and
    the section is their text, up to the cap; runs of one key that are apart
    (two files that print the same header line) have none. *)
Theorem splitter_sections cap chunks k t :
  splitter_finish (foldl splitter_feed (new_splitter cap) chunks) !! k = Some t <->
  exists mid, together k (runs (concat chunks)) mid /\ t = from_utf8_lossy (take_bytes cap (concat mid.*2)).
Proof.
  rewrite splitter_chunks, splitter_lines. unfold finish_lines, runs.
  set (ls := split_inclusive newline_byte (concat chunks)).
  destruct (tracks_lines cap ls) as [_ Hs Ha]. rewrite line_step_cap in Hs.
  set (rs := foldl add_line [] ls) in *. rewrite lookup_fmap, fmap_Some. setoid_rewrite map_lookup_filter_Some.
  setoid_rewrite Hs. cbn [fst]. setoid_rewrite Ha. split.
  - intros (x & [Hx Hna] & ->). case_decide as Hk; [|done]. injection Hx as <-.
    destruct (together_intro k rs Hk Hna) as [mid Hmid]. exists (rev mid). split; [by apply together_rev|].
    apply together_elim in Hmid as (_ & _ & ->). by rewrite <- map_rev.
  - intros (mid & Hmid%together_rev & ->). rewrite rev_involutive in Hmid.
    apply together_elim in Hmid as (Hk & Hna & Ht). exists (take_bytes cap (texts k rs)).
    rewrite decide_True by done. split; [done|]. rewrite Ht. f_equal. f_equal. f_equal.
    change (mid.*2 = rev (map snd (rev mid))). by rewrite map_rev, rev_involutive.
Qed.

(** ** What the reader does, line by line *)

(** Two readers that give the same: equal, or both broken. *)
Definition same_reader (a b : SectionReader) : Prop := a = b \/ sr_broken a = true /\ sr_broken b = true.

#[export] Instance same_reader_equiv : Equivalence same_reader.
Proof.
  split; [by left| |].
  - intros ?? [->|[]]; [by left|by right].
  - intros ??? [->|[]] [->|[]]; try (by left); by right.
Qed.

Lemma piece_broken r x : sr_broken r = true -> feed_piece r x = r.
Proof. unfold feed_piece. by intros ->. Qed.

Lemma piece_same a b x : same_reader a b -> same_reader (feed_piece a x) (feed_piece b x).
Proof. intros [->|[Ha Hb]]; [by left|]. right. by rewrite !piece_broken. Qed.

Lemma finish_same a b : same_reader a b -> reader_finish a = reader_finish b.
Proof. intros [->|[Ha Hb]]; [done|]. unfold reader_finish. by rewrite Ha, Hb. Qed.

Lemma strip_newline_lacks x : lacks newline_byte x = true -> strip_suffix (String newline_byte EmptyString) x = None.
Proof.
  intros Hx. destruct (strip_suffix _ x) as [y|] eqn:E; [|done]. apply strip_suffix_Some in E as ->.
  rewrite lacks_app in Hx. by apply andb_true_iff in Hx as [_ ?].
Qed.

(** A piece without its line's end. *)
Definition line_text (piece : string) : string := default piece (strip_suffix (String newline_byte EmptyString) piece).

Lemma line_text_line y : line_text (y +:+ String newline_byte EmptyString) = y.
Proof. unfold line_text. by rewrite strip_suffix_app. Qed.

Lemma line_text_lacks x : lacks newline_byte x = true -> line_text x = x.
Proof. intros Hx. unfold line_text. by rewrite strip_newline_lacks. Qed.

Lemma line_text_app t s : lacks newline_byte t = true -> line_of newline_byte s \/ lacks newline_byte s = true ->
  line_text (t +:+ s) = t +:+ line_text s.
Proof.
  intros Ht [(y & -> & Hy)|Hs].
  - by rewrite <- app_assoc_string, !line_text_line.
  - rewrite !line_text_lacks; [done..|]. by rewrite lacks_app, Ht.
Qed.

Lemma frame_join f t s r : lacks newline_byte t = true -> s <> EmptyString ->
  line_of newline_byte s \/ lacks newline_byte s = true -> sr_broken r = false ->
  same_reader (feed_piece (feed_frame f t r) s) (feed_frame f (t +:+ s) r).
Proof.
  intros Ht Hs Hp Hb. unfold feed_frame at 1. fold (line_text t). rewrite (line_text_lacks t Ht), (ends_line_lacks t Ht).
  cbn [negb]. destruct (N.ltb_spec 12 (len (f +:+ t))) as [Hlt|Hle].
  - right. rewrite piece_broken by done. split; [done|]. unfold feed_frame. fold (line_text (t +:+ s)).
    rewrite line_text_app, <- app_assoc_string by done. destruct (N.ltb_spec 12 (len ((f +:+ t) +:+ line_text s))) as [_|Hle]; [done|].
    rewrite len_app in Hle. lia.
  - left. unfold feed_piece. cbn [set_frame sr_broken sr_frame]. rewrite Hb. unfold feed_frame.
    fold (line_text (t +:+ s)) (line_text s). rewrite line_text_app, app_assoc_string, ends_line_app by done. done.
Qed.

(** The section a piece of content goes to; [None] past the last. *)
Lemma pad_length n l : length (pad n l) = Nat.max n (length l).
Proof. unfold pad. rewrite length_app, length_replicate. lia. Qed.

Lemma pad_same n l : (n <= length l)%nat -> pad n l = l.
Proof. intros Hn. unfold pad. replace (n - length l)%nat with 0%nat by lia. by rewrite app_nil_r. Qed.

Lemma fill_join u i t s : (i < length u)%nat -> fill i s (fill i t u) = fill i (t +:+ s) u.
Proof.
  intros Hi. unfold fill. rewrite list_lookup_insert_eq by done. cbn [default from_option]. unfold id.
  rewrite list_insert_insert_eq. f_equal. set (x := default EmptyString (u !! i)).
  rewrite app_assoc_string. f_equal. rewrite take_bytes_app. f_equal.
  rewrite len_app, len_take_bytes. f_equal. lia.
Qed.

Lemma fill_length i x u : length (fill i x u) = length u.
Proof. apply length_insert. Qed.

Lemma piece_content r x : x <> EmptyString -> sr_broken r = false -> sr_frame r = None -> sr_at_line_start r = false ->
  feed_piece r x = content x (set_frame (ends_line x) None r).
Proof. intros Hx Hb Hf Hs. unfold feed_piece. rewrite Hb, Hf, Hs. by destruct x. Qed.

Lemma segment_feed p x : x <> EmptyString -> line_of newline_byte x \/ lacks newline_byte x = true ->
  splitter_feed p x = feed_segment p x.
Proof.
  intros Hx [Hl|Hl]; unfold splitter_feed; [|by rewrite split_inclusive_lacks].
  rewrite <- (app_nil_r_string x) at 1. by rewrite split_inclusive_line.
Qed.

Lemma content_join t s r : s <> EmptyString -> sr_broken r = false ->
  same_reader (feed_piece (content t (set_frame false None r)) s) (content (t +:+ s) (set_frame (ends_line s) None r)).
Proof.
  intros Hs Hb. unfold content at 1. cbn [set_frame sr_combined sr_codes sr_wanted sr_untracked].
  destruct (sr_combined r) as [sp|] eqn:Hc; [destruct (sr_codes r) as [|c cs] eqn:Hcs|]; cbn [length bool_decide].
  - rewrite piece_content by done. left. unfold content. cbn [set_frame set_bodies sr_combined sr_codes]. rewrite Hc, Hcs. cbn [length].
    by rewrite splitter_both.
  - rewrite bool_decide_true by (by eexists). cbn [pred]. destruct (sr_wanted r <=? length cs)%nat eqn:Hw.
    + right. rewrite piece_broken by done. split; [done|]. unfold content.
      cbn [set_frame sr_combined sr_codes sr_wanted]. rewrite Hc, Hcs. cbn [length]. rewrite bool_decide_true by (by eexists).
      cbn [pred]. by rewrite Hw.
    + rewrite piece_content by done. left. unfold content. cbn [set_frame set_bodies sr_combined sr_codes sr_wanted sr_untracked].
      rewrite Hc, Hcs. cbn [length]. rewrite bool_decide_true by (by eexists). cbn [pred]. rewrite Hw.
      rewrite (pad_same _ (fill _ _ _)) by (rewrite fill_length, pad_length; lia).
      rewrite fill_join by (rewrite pad_length; lia). done.
  - rewrite bool_decide_false by (by intros [? ?]). destruct (sr_wanted r <=? length (sr_codes r))%nat eqn:Hw.
    + right. rewrite piece_broken by done. split; [done|]. unfold content.
      cbn [set_frame sr_combined sr_codes sr_wanted]. rewrite Hc. rewrite bool_decide_false by (by intros [? ?]). by rewrite Hw.
    + rewrite piece_content by done. left. unfold content. cbn [set_frame set_bodies sr_combined sr_codes sr_wanted sr_untracked].
      rewrite Hc. rewrite bool_decide_false by (by intros [? ?]). rewrite Hw.
      rewrite (pad_same _ (fill _ _ _)) by (rewrite fill_length, pad_length; lia).
      rewrite fill_join by (rewrite pad_length; lia). done.
Qed.

Lemma piece_join r t s : t <> EmptyString -> lacks newline_byte t = true -> s <> EmptyString ->
  line_of newline_byte s \/ lacks newline_byte s = true ->
  same_reader (feed_piece (feed_piece r t) s) (feed_piece r (t +:+ s)).
Proof.
  intros Hne Ht Hs Hp. destruct (sr_broken r) eqn:Hb; [left; by rewrite !(piece_broken r)|].
  unfold feed_piece at 2 3. rewrite Hb. destruct (sr_frame r) as [f|] eqn:Hf; [by apply frame_join|].
  destruct t as [|a t]; [done|]. rewrite app_cons_string. rewrite lacks_cons in Ht. apply andb_true_iff in Ht as [Ha Ht].
  destruct (sr_at_line_start r && Ascii.eqb a nul) eqn:Hn.
  - assert (is_empty (t +:+ s) = false) as -> by (apply bool_decide_eq_false; destruct t; [by rewrite app_nil_string|done]).
    destruct (is_empty t) eqn:Het; [|by apply frame_join].
    apply bool_decide_eq_true in Het as ->. left. rewrite app_nil_string. unfold feed_piece. cbn [set_frame sr_broken sr_frame].
    by rewrite Hb.
  - rewrite <- app_cons_string. rewrite ends_line_app by done.
    rewrite (ends_line_lacks (String a t)) by (by rewrite lacks_cons, Ha, Ht). by apply content_join.
Qed.

(** However the bytes come in chunks, the reader reads them as one text. *)
Lemma reader_chunks r chunks : same_reader (foldl reader_feed r chunks) (reader_feed r (concat chunks)).
Proof.
  apply (chunks_same same_reader feed_piece newline_byte); [by apply piece_same|]. intros ??? ????. by apply piece_join.
Qed.

(** ** The sections of an output *)

(** A section's lines, none of which starts with a NUL, and its frame. *)
Definition quiet (l : string) : Prop :=
  line_of newline_byte l /\ match l with String c _ => c <> nul | EmptyString => False end.
Definition frame_line (f : string) : string := String nul (f +:+ String newline_byte EmptyString).
Definition frame_ok (f : string) : bool := (len f <=? 12)%N && bool_decide (is_Some (parse_i32 f)).
Definition frame_code (f : string) : Z := default 0%Z (parse_i32 f).

Definition section_ok (s : list string * string) : Prop :=
  Forall quiet s.1 /\ lacks newline_byte s.2 = true /\ frame_ok s.2 = true.
Definition section_lines (s : list string * string) : list string := s.1 ++ [frame_line s.2].
Definition section_body (s : list string * string) : string := concat s.1.
(** What the script prints. *)
Definition framed (secs : list (list string * string)) : string := concat (mbind section_lines secs).

(** The body at [j], [cur] being the lines of the section that has no frame yet. *)
Definition body (secs : list (list string * string)) (cur : list string) (j : nat) : string :=
  default EmptyString ((section_body <$> secs ++ [(cur, EmptyString)]) !! j).

Lemma body_at secs cur : body secs cur (length secs) = concat cur.
Proof. unfold body. rewrite list_lookup_fmap, lookup_app_r, Nat.sub_diag by lia. done. Qed.

Lemma body_more secs cur l j :
  body secs (cur ++ [l]) j = if decide (j = length secs) then body secs cur j +:+ l else body secs cur j.
Proof.
  case_decide as Hj.
  - subst j. rewrite !body_at, concat_both. cbn [concat]. by rewrite app_nil_r_string.
  - unfold body. rewrite !list_lookup_fmap. destruct (decide (j < length secs)%nat).
    + by rewrite !lookup_app_l.
    + rewrite !lookup_app_r by lia. destruct (j - length secs)%nat eqn:E; [lia|done].
Qed.

Lemma body_next secs cur f j : body (secs ++ [(cur, f)]) [] j = body secs cur j.
Proof.
  unfold body. rewrite !list_lookup_fmap. destruct (decide (j < length secs)%nat).
  - rewrite <- app_assoc. by rewrite !lookup_app_l.
  - rewrite <- app_assoc. rewrite !(lookup_app_r secs) by lia. destruct (j - length secs)%nat as [|[|k]]; [done..|]. by destruct k.
Qed.

Definition sections_wanted (combined : bool) (wanted : nat) : nat := (if combined then 1 else 0) + wanted.

(** The reader has read [secs], and the lines [cur] of the next section. *)
Record reads (combined : bool) (wanted : nat) (r : SectionReader) (secs : list (list string * string)) (cur : list string) : Prop := {
  rd_broken : sr_broken r = false;
  rd_frame : sr_frame r = None;
  rd_start : sr_at_line_start r = true;
  rd_wanted : sr_wanted r = wanted;
  rd_codes : sr_codes r = map (fun s => frame_code s.2) secs;
  rd_combined : sr_combined r = if combined then Some (splitter_feed (new_splitter SECTION_CAP) (body secs cur 0)) else None;
  rd_untracked : (length (sr_untracked r) <= wanted)%nat;
  rd_bodies : forall i, default EmptyString (sr_untracked r !! i) =
    take_bytes SECTION_CAP (body secs cur ((if combined then 1 else 0) + i));
  rd_room : (length secs <= sections_wanted combined wanted)%nat;
  rd_last : length secs = sections_wanted combined wanted -> cur = [];
}.

Ltac solve_reads :=
  cbn [set_bodies set_frame push_code sr_broken sr_frame sr_at_line_start sr_wanted sr_codes sr_combined sr_untracked length];
  try done; try (unfold sections_wanted in *; simpl in *; lia).

Lemma reads_new combined wanted : reads combined wanted (new_reader combined wanted) [] [].
Proof.
  split; solve_reads. intros i. unfold body. destruct combined, i as [|[|i]]; done.
Qed.

Lemma reads_expected combined wanted r secs cur : reads combined wanted r secs cur -> expected r = sections_wanted combined wanted.
Proof. intros Hr. unfold expected. rewrite (rd_combined _ _ _ _ _ Hr), (rd_wanted _ _ _ _ _ Hr). unfold sections_wanted.
  destruct combined; [by rewrite bool_decide_true by (by eexists)|by rewrite bool_decide_false by (by intros [? ?])].
Qed.

Lemma pad_default n u i : default EmptyString (pad n u !! i) = default EmptyString (u !! i).
Proof.
  unfold pad. destruct (decide (i < length u)%nat); [by rewrite lookup_app_l|].
  rewrite lookup_app_r by lia. rewrite (lookup_ge_None_2 u) by lia.
  destruct (replicate _ _ !! _) as [x|] eqn:E; [|done]. by apply lookup_replicate in E as [-> _].
Qed.

Lemma body_section secs j s : secs !! j = Some s -> body secs [] j = section_body s.
Proof.
  intros Hj. unfold body. rewrite list_lookup_fmap, lookup_app_l by (by eapply lookup_lt_Some). by rewrite Hj.
Qed.

Lemma fill_bodies (combined : bool) u secs cur l n :
  let off := if combined then 1 else 0 in
  (forall i, default EmptyString (u !! i) = take_bytes SECTION_CAP (body secs cur (off + i))) ->
  (off + n = length secs)%nat ->
  forall i, default EmptyString (fill n l (pad (S n) u) !! i) = take_bytes SECTION_CAP (body secs (cur ++ [l]) (off + i)).
Proof.
  intros off Hu Hn i.
  rewrite body_more. unfold fill. rewrite pad_default, Hu. destruct (decide (i = n)) as [->|Hne].
  - rewrite list_lookup_insert_eq by (rewrite pad_length; lia). rewrite decide_True by done. cbn [default from_option]. unfold id.
    apply take_more.
  - rewrite list_lookup_insert_ne by done. by rewrite pad_default, Hu, decide_False by lia.
Qed.

Lemma reads_content combined wanted r secs cur l : reads combined wanted r secs cur -> quiet l ->
  if decide (length secs < sections_wanted combined wanted)%nat then reads combined wanted (feed_piece r l) secs (cur ++ [l])
  else sr_broken (feed_piece r l) = true.
Proof.
  intros Hr [Hl Hc]. unfold sections_wanted. destruct l as [|c l]; [done|].
  assert (feed_piece r (String c l) = content (String c l) (set_frame true None r)) as ->.
  { unfold feed_piece. rewrite (rd_broken _ _ _ _ _ Hr), (rd_frame _ _ _ _ _ Hr), (rd_start _ _ _ _ _ Hr).
    rewrite (proj2 (Ascii.eqb_neq _ _) Hc). cbn [andb]. by rewrite ends_line_line. }
  set (line := String c l) in *. unfold content. cbn [set_frame sr_combined sr_codes sr_wanted sr_untracked].
  destruct Hr as [Hb Hf Hs Hw Hcs Hcm Hu Hbs Hrm Hla]. rewrite Hcm, Hcs, length_map, Hw.
  destruct combined; [destruct secs as [|s secs]|]; cbn [length Nat.add].
  - rewrite decide_True by lia. split; solve_reads.
    + f_equal. rewrite splitter_both, body_more. by rewrite decide_True.
  - rewrite bool_decide_true by (by eexists). cbn [pred]. case_decide as Hlt.
    + rewrite (proj2 (Nat.leb_gt _ _)) by lia. split; solve_reads.
      * rewrite fill_length, pad_length. lia.
      * intros i. by apply (fill_bodies true).
    + by rewrite (proj2 (Nat.leb_le _ _)) by lia.
  - rewrite bool_decide_false by (by intros [? ?]). case_decide as Hlt.
    + rewrite (proj2 (Nat.leb_gt _ _)) by lia. split; solve_reads.
      * rewrite fill_length, pad_length. lia.
      * intros i. by apply (fill_bodies false).
    + by rewrite (proj2 (Nat.leb_le _ _)) by lia.
Qed.

Lemma reads_frame combined wanted r secs cur f : reads combined wanted r secs cur -> lacks newline_byte f = true ->
  if (length secs <? sections_wanted combined wanted)%nat && frame_ok f
  then reads combined wanted (feed_piece r (frame_line f)) (secs ++ [(cur, f)]) []
  else sr_broken (feed_piece r (frame_line f)) = true.
Proof.
  intros Hr Hf. pose proof (reads_expected _ _ _ _ _ Hr) as He. destruct Hr as [Hb Hfr Hs Hw Hcs Hcm Hu Hbs Hrm Hla].
  unfold frame_line, feed_piece. rewrite Hb, Hfr, Hs, Ascii.eqb_refl. cbn [andb].
  assert (is_empty (f +:+ String newline_byte EmptyString) = false) as -> by (apply bool_decide_eq_false; by destruct f).
  unfold feed_frame. fold (line_text (f +:+ String newline_byte EmptyString)). rewrite line_text_line, app_nil_string.
  rewrite ends_line_line by (by exists f). cbn [negb]. unfold frame_ok. rewrite N.ltb_antisym.
  destruct (len f <=? 12)%N; cbn [negb]; [|by rewrite andb_false_r].
  destruct (parse_i32 f) as [code|] eqn:Hp.
  - rewrite bool_decide_true, andb_true_r by (by eexists). change (expected _) with (expected r). rewrite He.
    change (sr_codes (set_frame true None _)) with (sr_codes r). rewrite Hcs, length_map. cbn [andb].
    destruct (Nat.ltb_spec (length secs) (sections_wanted combined wanted)) as [Hlt|Hge].
    + split; solve_reads.
      * cbn. rewrite map_app, Hcs. cbn. unfold frame_code. by rewrite Hp.
      * by rewrite body_next.
      * intros i. by rewrite body_next.
      * rewrite length_app. cbn. lia.
    + done.
  - rewrite bool_decide_false by (by intros [? ?]). by rewrite andb_false_r.
Qed.

Lemma line_cases l : line_of newline_byte l -> quiet l \/ exists f, l = frame_line f /\ lacks newline_byte f = true.
Proof.
  intros Hl. destruct l as [|c l]; [by destruct Hl as ([|] & ? & _)|].
  destruct (decide (c = nul)) as [->|Hc]; [|by left]. right. destruct Hl as ([|a y] & Hy & Hf); [done|].
  rewrite app_cons_string in Hy. injection Hy as <- ->. exists y. split; [done|]. rewrite lacks_cons in Hf.
  by apply andb_true_iff in Hf as [_ ?].
Qed.

Lemma broken_lines ls r : sr_broken r = true -> foldl feed_piece r ls = r.
Proof. intros Hb. induction ls as [|l ls IH]; [done|]. cbn [foldl]. by rewrite piece_broken. Qed.

Lemma Forall_more {A} (P : A -> Prop) l x : Forall P l -> P x -> Forall P (l ++ [x]).
Proof. intros Hl Hx. apply Forall_app. split; [done|]. by constructor. Qed.

Lemma reads_lines combined wanted ls r secs cur : reads combined wanted r secs cur -> Forall section_ok secs -> Forall quiet cur ->
  Forall (line_of newline_byte) ls ->
  sr_broken (foldl feed_piece r ls) = true \/
  exists secs' cur', reads combined wanted (foldl feed_piece r ls) secs' cur' /\ Forall section_ok secs' /\
    mbind section_lines secs ++ cur ++ ls = mbind section_lines secs' ++ cur'.
Proof.
  intros Hr Hsecs Hcur Hls. revert r secs cur Hr Hsecs Hcur. induction Hls as [|l ls Hl _ IH]; intros r secs cur Hr Hsecs Hcur.
  { right. exists secs, cur. by rewrite app_nil_r. }
  cbn [foldl]. destruct (line_cases l Hl) as [Hq|(f & -> & Hf)].
  - pose proof (reads_content _ _ _ _ _ _ Hr Hq) as Hstep. case_decide; [|left; by rewrite broken_lines].
    destruct (IH _ _ _ Hstep Hsecs) as [?|(secs' & cur' & H1 & H2 & H3)]; [|by left|].
    + by apply Forall_more.
    + right. exists secs', cur'. split; [done|]. split; [done|]. rewrite <- H3. by rewrite <- app_assoc.
  - pose proof (reads_frame _ _ _ _ _ f Hr Hf) as Hstep. destruct (_ && frame_ok f) eqn:Hok; [|left; by rewrite broken_lines].
    apply andb_true_iff in Hok as [_ Hok].
    destruct (IH _ _ _ Hstep) as [?|(secs' & cur' & H1 & H2 & H3)]; [|done|by left|].
    + apply Forall_more; [done|]. by split.
    + right. exists secs', cur'. split; [done|]. split; [done|]. rewrite <- H3. rewrite bind_app. cbn.
      rewrite app_nil_r. unfold section_lines. cbn. by rewrite <- !app_assoc.
Qed.

Lemma reads_sections combined wanted secs r before : reads combined wanted r before [] -> Forall section_ok secs ->
  (length before + length secs <= sections_wanted combined wanted)%nat ->
  reads combined wanted (foldl feed_piece r (mbind section_lines secs)) (before ++ secs) [].
Proof.
  intros Hr Hsecs. revert r before Hr. induction Hsecs as [|[ls f] secs (Hls & Hf & Hok) _ IH]; intros r before Hr Hlen.
  { by rewrite app_nil_r. }
  cbn [length] in Hlen. cbn [mbind list_bind]. rewrite foldl_app. unfold section_lines. cbn [fst snd] in *. rewrite foldl_app. cbn [foldl].
  assert (forall cur q, reads combined wanted q before cur -> reads combined wanted (foldl feed_piece q ls) before (cur ++ ls)) as Hbody.
  { clear Hr. induction Hls as [|l ls Hl _ IHl]; intros cur q Hq; [by rewrite app_nil_r|]. cbn [foldl].
    pose proof (reads_content _ _ _ _ _ _ Hq Hl) as Hstep. rewrite decide_True in Hstep by lia.
    apply IHl in Hstep. by rewrite <- app_assoc in Hstep. }
  specialize (Hbody [] r Hr). pose proof (reads_frame _ _ _ _ _ f Hbody Hf) as Hstep. rewrite Hok in Hstep.
  rewrite (proj2 (Nat.ltb_lt _ _)) in Hstep by lia. cbn [andb] in Hstep. apply IH in Hstep; [|rewrite length_app; cbn; lia].
  by rewrite <- app_assoc in Hstep.
Qed.

(** What the sections of an output are read as. *)
Definition read_sections (combined : bool) (secs : list (list string * string)) : Sections :=
  {| sc_combined := if combined then (fun s => splitter_finish (splitter_feed (new_splitter SECTION_CAP) (section_body s))) <$> head secs
                    else None;
     sc_untracked := (fun s => from_utf8_lossy (take_bytes SECTION_CAP (section_body s))) <$> (if combined then tail secs else secs);
     sc_codes := (fun s => frame_code s.2) <$> secs |}.

Lemma reads_bodies combined wanted r secs : reads combined wanted r secs [] -> length secs = sections_wanted combined wanted ->
  pad wanted (sr_untracked r) = take_bytes SECTION_CAP <$> (section_body <$> (if combined then tail secs else secs)).
Proof.
  intros Hr Hlen. pose proof (rd_untracked _ _ _ _ _ Hr) as Hu. pose proof (rd_bodies _ _ _ _ _ Hr) as Hbs.
  unfold sections_wanted in Hlen. apply (list_eq_same_length _ _ wanted).
  - rewrite !length_fmap. destruct combined, secs; simpl in *; lia.
  - rewrite pad_length. lia.
  - intros i x y Hi Hx Hy. rewrite !list_lookup_fmap in Hy.
    assert (x = default EmptyString (pad wanted (sr_untracked r) !! i)) as -> by (by rewrite Hx).
    rewrite pad_default, Hbs. destruct ((if combined then tail secs else secs) !! i) as [s|] eqn:Hs; [|done]. injection Hy as <-.
    f_equal. apply body_section. destruct combined; [|done]. by destruct secs.
Qed.

Lemma reads_finish combined wanted r secs cur : reads combined wanted r secs cur ->
  reader_finish r = if decide (length secs = sections_wanted combined wanted) then Some (read_sections combined secs) else None.
Proof.
  intros Hr. pose proof (reads_expected _ _ _ _ _ Hr) as He. unfold reader_finish.
  rewrite (rd_broken _ _ _ _ _ Hr), (rd_frame _ _ _ _ _ Hr), He, (rd_codes _ _ _ _ _ Hr), length_map, bool_decide_false by (by intros [? ?]).
  cbn [orb]. case_decide as Hlen; [|by rewrite (proj2 (Nat.eqb_neq _ _))]. rewrite Hlen, Nat.eqb_refl. cbn [negb].
  pose proof (rd_last _ _ _ _ _ Hr Hlen) as ->. unfold read_sections.
  rewrite (rd_combined _ _ _ _ _ Hr), (rd_wanted _ _ _ _ _ Hr), (reads_bodies _ _ _ _ Hr Hlen), <- !list_fmap_compose.
  f_equal. f_equal. destruct combined; [|done]. by destruct secs.
Qed.

Lemma content_full t r : length (sr_codes r) = expected r -> sr_broken (content t r) = true.
Proof.
  unfold expected, content. intros Hl. destruct (sr_combined r) as [sp|] eqn:Hc.
  - rewrite bool_decide_true in Hl |- * by (by eexists). destruct (length (sr_codes r)); [lia|]. cbn [pred].
    by rewrite (proj2 (Nat.leb_le _ _)) by lia.
  - rewrite bool_decide_false in Hl |- * by (by intros [? ?]). by rewrite (proj2 (Nat.leb_le _ _)) by lia.
Qed.

Lemma content_codes t r : sr_codes (content t r) = sr_codes r.
Proof. unfold content. destruct (sr_combined r), (sr_codes r) eqn:E; cbn; try done; by case_match. Qed.
Lemma content_expected t r : expected (content t r) = expected r.
Proof.
  unfold content, expected. destruct (sr_combined r) as [sp|] eqn:Hc; [destruct (length (sr_codes r))|]; [done| |];
    destruct (_ <=? _)%nat; cbn [break_reader set_bodies sr_combined sr_wanted]; by rewrite ?Hc.
Qed.

(** A last line that does not end is not the end of an output. *)
Lemma last_unfinished combined wanted r secs cur t : reads combined wanted r secs cur -> t <> EmptyString -> lacks newline_byte t = true ->
  reader_finish (feed_piece r t) = None.
Proof.
  intros Hr Hne Ht. unfold feed_piece. rewrite (rd_broken _ _ _ _ _ Hr), (rd_frame _ _ _ _ _ Hr).
  destruct t as [|c t]; [done|]. destruct (_ && _).
  - assert (forall b f q, reader_finish (set_frame b (Some f) q) = None) as Hopen.
    { intros b f q. unfold reader_finish. cbn [set_frame sr_broken sr_frame]. rewrite bool_decide_true by (by eexists).
      by rewrite orb_true_r. }
    destruct (is_empty t); [done|].
    rewrite lacks_cons in Ht. apply andb_true_iff in Ht as [_ Ht]. unfold feed_frame. rewrite (ends_line_lacks t Ht). cbn [negb].
    by destruct (12 <? _)%N.
  - set (q := set_frame _ None r). unfold reader_finish.
    destruct (Nat.eqb_spec (length (sr_codes (content (String c t) q))) (expected (content (String c t) q))) as [He|]; [|by rewrite orb_true_r].
    rewrite content_codes, content_expected in He. by rewrite content_full.
Qed.

(** The framed output of the patch script is read exactly: in whatever
    chunks it comes, the reader gives sections when the output is one section
    and one frame for each expected, and then the file patches of the combined
    section, the untracked files' patches up to the cap, and the codes; any
    other output gives none. *)
Theorem reader_reads_frames combined wanted chunks s :
  reader_finish (foldl reader_feed (new_reader combined wanted) chunks) = Some s <->
  exists secs, concat chunks = framed secs /\ Forall section_ok secs /\
    length secs = sections_wanted combined wanted /\ s = read_sections combined secs.
Proof.
  rewrite (finish_same _ _ (reader_chunks _ _)). set (text := concat chunks). unfold reader_feed. split.
  - destruct (inclusive_cases newline_byte text) as (ls & t & -> & Hls & Ht). rewrite split_inclusive_lines, foldl_app by done.
    destruct (reads_lines combined wanted ls _ [] [] (reads_new combined wanted)) as [Hb|(secs & cur & Hr & Hok & Heq)]; [done..| |].
    { rewrite (broken_lines _ _ Hb). unfold reader_finish. by rewrite Hb. }
    destruct (decide (t = EmptyString)) as [->|Hne]; [|by rewrite split_inclusive_lacks by done; cbn [foldl];
      rewrite (last_unfinished _ _ _ _ _ t Hr)].
    cbn [split_inclusive foldl]. rewrite (reads_finish _ _ _ _ _ Hr). case_decide as Hlen; [|done]. intros [= <-].
    exists secs. pose proof (rd_last _ _ _ _ _ Hr Hlen) as ->. rewrite !app_nil_r in Heq. cbn in Heq.
    rewrite app_nil_r_string. split; [by rewrite Heq|done].
  - intros (secs & -> & Hok & Hlen & ->).
    assert (Forall (line_of newline_byte) (mbind section_lines secs)) as Hls.
    { clear Hlen. induction Hok as [|[b f] secs (Hb & Hf & _) _ IH]; [done|]. cbn. rewrite <- app_assoc. apply Forall_app. split.
      - eapply Forall_impl; [done|]. by intros ? [? _].
      - constructor; [|done]. exists (String nul f). split; [done|]. cbn [snd] in Hf |- *. rewrite lacks_cons. apply andb_true_intro. by split. }
    unfold framed. rewrite <- (app_nil_r_string (concat _)), split_inclusive_lines, app_nil_r by done.
    pose proof (reads_sections combined wanted secs _ [] (reads_new combined wanted) Hok) as Hr.
    rewrite (reads_finish _ _ _ _ _ (Hr ltac:(cbn; lia))). by rewrite decide_True.
Qed.
