(* ===== verification/Inspect.v ===== *)
(** What the workspace reader makes of git's answers
    ([crates/balerix-runtime/src/inspect.rs] and the wire types of
    [crates/balerix-api/src/workspace.rs]): the listing's output, the files of
    a diff, their patches cut to the limits, and the fingerprint of a
    version. *)

From S2P Require Import Prelude Str BTree Bytes Rules Patch.

(** ** Wire types *)

Inductive FileStatus := Added | Modified | Deleted | Renamed | Copied | Typechange.

#[export] Instance FileStatus_eq_dec : EqDecision FileStatus.
Proof. solve_decision. Defined.

Record FileDiff := mkFileDiff {
  fd_path : string;
  fd_old_path : option string;
  fd_status : FileStatus;
  fd_uncommitted : bool;
  fd_binary : bool;
  fd_patch : string;
  fd_truncated : bool;
}.

(** [FileDiff::new(path, status).with_old_path(old)]. *)
Definition new_file_diff (path : string) (status : FileStatus) (old_path : option string) : FileDiff :=
  {| fd_path := path; fd_old_path := old_path; fd_status := status; fd_uncommitted := false; fd_binary := false;
     fd_patch := EmptyString; fd_truncated := false |}.

Definition set_uncommitted (b : bool) (f : FileDiff) : FileDiff :=
  {| fd_path := fd_path f; fd_old_path := fd_old_path f; fd_status := fd_status f; fd_uncommitted := b;
     fd_binary := fd_binary f; fd_patch := fd_patch f; fd_truncated := fd_truncated f |}.
Definition set_patch (patch : string) (binary truncated : bool) (f : FileDiff) : FileDiff :=
  {| fd_path := fd_path f; fd_old_path := fd_old_path f; fd_status := fd_status f; fd_uncommitted := fd_uncommitted f;
     fd_binary := binary; fd_patch := patch; fd_truncated := truncated |}.

Definition WORKSPACE_FILE_COUNT_LIMIT : nat := 500.
Definition WORKSPACE_DIFF_LIMIT : N := 8 * 1024 * 1024.

(** ** The listing *)

Record Status := {
  st_head : option string;
  st_changed : gset string;
  st_untracked : gset string;
}.

Definition default_status : Status := {| st_head := None; st_changed := ∅; st_untracked := ∅ |}.
Definition with_head (head : option string) (s : Status) : Status :=
  {| st_head := head; st_changed := st_changed s; st_untracked := st_untracked s |}.
Definition add_changed (path : option string) (s : Status) : Status :=
  {| st_head := st_head s; st_changed := match path with Some p => {[p]} ∪ st_changed s | None => st_changed s end;
     st_untracked := st_untracked s |}.
Definition add_untracked (path : option string) (s : Status) : Status :=
  {| st_head := st_head s; st_changed := st_changed s;
     st_untracked := match path with Some p => {[p]} ∪ st_untracked s | None => st_untracked s end |}.

(** A record's path: what follows its fixed fields. *)
Definition path_after (record : string) (fields : nat) : option string := splitn (S fields) " "%char record !! fields.

Fixpoint status_records (records : list string) (status : Status) : Status :=
  match records with
  | [] => status
  | record :: records =>
      let kind := default record (fst <$> split_once " "%char record) in
      if bool_decide (kind = "#") then
        status_records records
          match strip_prefix "# branch.oid " record with
          | Some oid => with_head (if bool_decide (oid = "(initial)") then None else Some oid) status
          | None => status
          end
      else if bool_decide (kind = "1") then status_records records (add_changed (path_after record 8) status)
      else if bool_decide (kind = "2") then
        let status := add_changed (path_after record 9) status in
        match records with
        | [] => status
        | old :: records => status_records records (add_changed (Some old) status)
        end
      else if bool_decide (kind = "u") then status_records records (add_changed (path_after record 10) status)
      else if bool_decide (kind = "?") then status_records records (add_untracked (path_after record 1) status)
      else status_records records status
  end.

(** [z.split('\0').filter(|r| !r.is_empty())]. *)
Definition nul_records (z : string) : list string := filter (fun r => r <> EmptyString) (split_char nul z).

Definition parse_status (z : string) : Status := status_records (nul_records z) default_status.

Definition status_of_code (code : string) : FileStatus :=
  match code with
  | String "A" _ => Added
  | String "D" _ => Deleted
  | String "R" _ => Renamed
  | String "C" _ => Copied
  | String "T" _ => Typechange
  | _ => Modified
  end%char.

Definition two_paths (s : FileStatus) : bool := match s with Renamed | Copied => true | _ => false end.

Fixpoint name_status_records (parts : list string) : list FileDiff :=
  match parts with
  | [] => []
  | code :: parts =>
      let status := status_of_code code in
      if two_paths status then
        match parts with
        | old :: new :: parts => new_file_diff new status (Some old) :: name_status_records parts
        | _ => []
        end
      else match parts with
           | p :: parts => new_file_diff p status None :: name_status_records parts
           | [] => []
           end
  end.

Definition parse_name_status (z : string) : list FileDiff := name_status_records (nul_records z).

(** The records up to the first empty one, and what follows it; a piece too
    few ends the parse. *)
Fixpoint listing_records (pieces : list string) : option (list string * string) :=
  match pieces with
  | [] | [_] => None
  | record :: rest =>
      if is_empty record then Some ([], join (String nul EmptyString) rest)
      else '(records, rest) ← listing_records rest; Some (record :: records, rest)
  end.

Definition parse_listing (out : string) : option (string * list string * string) :=
  '(merge_base, rest) ← split_once nul out;
  '(records, rest) ← listing_records (split_char nul rest);
  Some (trim merge_base, records, rest).

Definition parse_version (out : string) : option (string * gset string * Status) :=
  '(merge_base, names, status) ← parse_listing out;
  Some (merge_base, list_to_set names, parse_status status).

(** ** What git prints *)

Definition nul_end : string := String nul EmptyString.

(** Each record with a NUL after it. *)
Definition terminated (records : list string) : string := concat ((fun r => r +:+ nul_end) <$> records).

Definition record_ok (r : string) : Prop := r <> EmptyString /\ lacks nul r = true.

Lemma terminated_cons r records t : terminated (r :: records) +:+ t = r +:+ String nul (terminated records +:+ t).
Proof. unfold terminated. cbn [fmap list_fmap concat]. unfold nul_end. by rewrite !app_assoc_string. Qed.

Lemma split_terminated records t : Forall (fun r => lacks nul r = true) records ->
  split_char nul (terminated records +:+ t) = records ++ split_char nul t.
Proof.
  intros Hr. induction Hr as [|r records Hr _ IH]; [done|].
  by rewrite terminated_cons, split_char_app, IH by done.
Qed.

Lemma nul_records_terminated records : Forall record_ok records -> nul_records (terminated records) = records.
Proof.
  intros Hr. unfold nul_records. rewrite <- (app_nil_r_string (terminated records)), split_terminated
    by (eapply Forall_impl; [done|]; by intros ? [_ ?]).
  rewrite filter_app. cbn. rewrite app_nil_r. apply filter_keep. eapply Forall_impl; [done|]. by intros ? [? _].
Qed.

(** A record's fixed fields, each with a space after it. *)
Definition fields_text (fields : list string) : string := concat ((fun f => f +:+ " ") <$> fields).

Lemma split_once_app c a b : lacks c a = true -> split_once c (a +:+ String c b) = Some (a, b).
Proof. intros Ha. by apply split_once_Some. Qed.

Lemma splitn_more n c a b : lacks c a = true -> splitn (S (S n)) c (a +:+ String c b) = a :: splitn (S n) c b.
Proof. intros Ha. cbn [splitn]. by rewrite split_once_app. Qed.

Lemma splitn_fields fields path : Forall (fun f => lacks " "%char f = true) fields ->
  splitn (S (length fields)) " "%char (fields_text fields +:+ path) = fields ++ [path].
Proof.
  intros Hf. induction Hf as [|f fields Hf _ IH]; [done|]. unfold fields_text in *. cbn [fmap list_fmap concat length].
  rewrite !app_assoc_string. change (" " +:+ ?x) with (String " "%char x). rewrite splitn_more by done. by rewrite IH.
Qed.

(** What a status record says: one path, or the two of a rename. *)
Inductive StatusEntry :=
| OrdinaryEntry (fields : list string) (path : string)
| RenameEntry (fields : list string) (path old : string)
| UnmergedEntry (fields : list string) (path : string)
| UntrackedEntry (path : string).

Definition status_fields (e : StatusEntry) : list string :=
  match e with
  | OrdinaryEntry fields _ => "1" :: fields
  | RenameEntry fields _ _ => "2" :: fields
  | UnmergedEntry fields _ => "u" :: fields
  | UntrackedEntry _ => ["?"]
  end.
Definition status_path (e : StatusEntry) : string :=
  match e with OrdinaryEntry _ p | RenameEntry _ p _ | UnmergedEntry _ p | UntrackedEntry p => p end.
Definition status_old (e : StatusEntry) : list string := match e with RenameEntry _ _ old => [old] | _ => [] end.
Definition status_width (e : StatusEntry) : nat :=
  match e with OrdinaryEntry _ _ => 8 | RenameEntry _ _ _ => 9 | UnmergedEntry _ _ => 10 | UntrackedEntry _ => 1 end.

Definition status_entry_ok (e : StatusEntry) : Prop :=
  length (status_fields e) = status_width e /\
  Forall (fun f => lacks " "%char f = true /\ lacks nul f = true) (status_fields e) /\
  lacks nul (status_path e) = true /\ Forall record_ok (status_old e).

Definition print_entry (e : StatusEntry) : list string :=
  (fields_text (status_fields e) +:+ status_path e) :: status_old e.

(** [git status --porcelain=v2 -z --branch]: the branch's headers, then the
    entries. [head] is [None] on an unborn branch. *)
Definition print_status (head : option string) (headers : list string) (es : list StatusEntry) : string :=
  terminated (("# branch.oid " +:+ default "(initial)" head) :: ((fun h => "# " +:+ h) <$> headers) ++ mbind print_entry es).

Definition entry_changed (e : StatusEntry) : gset string :=
  match e with UntrackedEntry _ => ∅ | _ => {[status_path e]} ∪ list_to_set (status_old e) end.
Definition entry_untracked (e : StatusEntry) : gset string :=
  match e with UntrackedEntry p => {[p]} | _ => ∅ end.

Definition status_of (head : option string) (es : list StatusEntry) : Status :=
  {| st_head := head; st_changed := ⋃ (entry_changed <$> es); st_untracked := ⋃ (entry_untracked <$> es) |}.

Definition status_add (s t : Status) : Status :=
  {| st_head := st_head s; st_changed := st_changed s ∪ st_changed t; st_untracked := st_untracked s ∪ st_untracked t |}.

Lemma fields_kind f fields path : lacks " "%char f = true ->
  split_once " "%char (fields_text (f :: fields) +:+ path) = Some (f, fields_text fields +:+ path).
Proof.
  intros Hf. unfold fields_text. cbn [fmap list_fmap concat]. rewrite !app_assoc_string.
  change (" " +:+ ?x) with (String " "%char x). by rewrite split_once_app.
Qed.

Lemma path_after_fields e : status_entry_ok e ->
  path_after (fields_text (status_fields e) +:+ status_path e) (status_width e) = Some (status_path e).
Proof.
  intros (Hl & Hf & _). unfold path_after. rewrite <- Hl, splitn_fields.
  - by rewrite lookup_app_r, Nat.sub_diag.
  - eapply Forall_impl; [done|]. by intros ? [? _].
Qed.

Lemma status_entry_step e records s : status_entry_ok e ->
  status_records (print_entry e ++ records) s =
  status_records records {| st_head := st_head s; st_changed := entry_changed e ∪ st_changed s;
                            st_untracked := entry_untracked e ∪ st_untracked s |}.
Proof.
  intros He. pose proof (path_after_fields e He) as Hp. destruct s as [h c u].
  unfold print_entry. cbn [app]. unfold status_records at 1. fold status_records.
  destruct e as [fs p|fs p o|fs p|p]; cbn [status_fields status_path status_width status_old] in *;
    rewrite fields_kind by done; cbn [default from_option fmap option_fmap option_map fst id app];
    repeat (case_bool_decide; [|try done]); try done; rewrite Hp; unfold add_changed, add_untracked;
    cbn [st_head st_changed st_untracked entry_changed entry_untracked status_path status_old list_to_set];
    do 2 f_equal; set_solver.
Qed.

Lemma status_headers headers records s : Forall (fun h => starts_with h "branch.oid " = false) headers ->
  status_records (((fun h => "# " +:+ h) <$> headers) ++ records) s = status_records records s.
Proof.
  intros Hh. induction Hh as [|h headers Hh _ IH]; [done|]. cbn [fmap list_fmap app]. rewrite <- IH.
  change ("# " +:+ h) with (String "#"%char (String " "%char h)). unfold status_records at 1. fold status_records.
  change (split_once " " (String "#" (String " " h)))%char with (Some ("#", h)). cbn [fmap option_fmap option_map fst default from_option id].
  rewrite bool_decide_true by done.
  change (strip_prefix "# branch.oid " (String "#" (String " " h)))%char with (strip_prefix "branch.oid " h).
  destruct (strip_prefix "branch.oid " h) eqn:E; [|done]. apply bool_decide_eq_false in Hh. by rewrite E in Hh; destruct Hh.
Qed.

Lemma status_entries es s : Forall status_entry_ok es ->
  status_records (mbind print_entry es) s =
  {| st_head := st_head s; st_changed := ⋃ (entry_changed <$> es) ∪ st_changed s;
     st_untracked := ⋃ (entry_untracked <$> es) ∪ st_untracked s |}.
Proof.
  intros Hes. revert s. induction Hes as [|e es He _ IH]; intros s.
  - destruct s. cbn. f_equal; set_solver.
  - cbn [mbind list_bind]. rewrite status_entry_step, IH by done. cbn [st_head st_changed st_untracked fmap list_fmap union_list foldr].
    f_equal; set_solver.
Qed.

Lemma status_records_ok head headers es :
  lacks nul (default "(initial)" head) = true ->
  Forall (fun h => lacks nul h = true) headers -> Forall status_entry_ok es ->
  Forall record_ok (("# branch.oid " +:+ default "(initial)" head) :: ((fun h => "# " +:+ h) <$> headers) ++ mbind print_entry es).
Proof.
  intros Hh Hhs Hes. constructor; [split; [done|]; by rewrite lacks_app, Hh|]. apply Forall_app. split.
  - apply Forall_fmap. eapply Forall_impl; [done|]. intros h Hl. split; [done|]. cbn [compose]. by rewrite lacks_app, Hl.
  - induction Hes as [|e es (_ & Hf & Hp & Ho) _ IH]; [done|]. cbn [mbind list_bind]. apply Forall_app. split; [|done].
    constructor; [|done]. split; [by destruct e|]. rewrite lacks_app, Hp, andb_true_r. clear Ho Hp.
    induction Hf as [|f fs [_ Hf] _ IHf]; [done|]. unfold fields_text in *. cbn [fmap list_fmap concat].
    by rewrite !lacks_app, Hf, IHf.
Qed.

Lemma status_read head headers es :
  match head with Some h => h <> "(initial)" /\ lacks nul h = true | None => True end ->
  Forall (fun h => lacks nul h = true /\ starts_with h "branch.oid " = false) headers -> Forall status_entry_ok es ->
  parse_status (print_status head headers es) = status_of head es.
Proof.
  intros Hhead Hhs Hes. unfold parse_status, print_status. rewrite nul_records_terminated.
  2: { apply status_records_ok; [destruct head as [h|]; [by destruct Hhead|done]| |done].
       eapply Forall_impl; [done|]. by intros ? [? _]. }
  unfold status_records at 1. fold status_records. change (split_once " " ("# branch.oid " +:+ ?x))%char with (Some ("#", "branch.oid " +:+ x)).
  cbn [fmap option_fmap option_map fst default from_option id]. rewrite bool_decide_true, strip_prefix_app by done.
  rewrite status_headers by (eapply Forall_impl; [done|]; by intros ? [_ ?]). rewrite status_entries by done.
  unfold status_of, default_status, with_head. cbn [st_head st_changed st_untracked]. f_equal; [|set_solver..].
  destruct head as [h|]; cbn [default from_option id]; [|by rewrite bool_decide_true]. by rewrite bool_decide_false by apply Hhead.
Qed.

(** [git diff --name-status -z]: a letter, with a score for a rename or a
    copy, and the path or the two. *)
Definition status_letter (s : FileStatus) : string :=
  match s with
  | Added => "A" | Modified => "M" | Deleted => "D" | Renamed => "R" | Copied => "C" | Typechange => "T"
  end.
Definition name_status_record (f : FileDiff) (score : string) : list string :=
  (status_letter (fd_status f) +:+ score) ::
  (if two_paths (fd_status f) then [default EmptyString (fd_old_path f)] else []) ++ [fd_path f].
Definition name_status_parts (fs : list (FileDiff * string)) : list string :=
  mbind (fun x => name_status_record x.1 x.2) fs.

(** A file as the listing can give it. *)
Definition listed (x : FileDiff * string) : Prop :=
  x.1 = new_file_diff (fd_path x.1) (fd_status x.1) (fd_old_path x.1) /\ record_ok (fd_path x.1) /\ lacks nul x.2 = true /\
  match fd_old_path x.1 with
  | Some old => two_paths (fd_status x.1) = true /\ record_ok old
  | None => two_paths (fd_status x.1) = false
  end.

Lemma name_status_parts_ok fs : Forall listed fs -> Forall record_ok (name_status_parts fs).
Proof.
  intros Hfs. induction Hfs as [|[f sc] fs (Hf & Hp & Hsc & Ho) _ IH]; [done|]. unfold name_status_parts. cbn [mbind list_bind fst snd] in *.
  apply Forall_app. split; [|done]. unfold name_status_record. constructor.
  - split; [by destruct (fd_status f)|]. rewrite lacks_app, Hsc. by destruct (fd_status f).
  - destruct (fd_old_path f) as [old|]; [destruct Ho as [-> Ho]|rewrite Ho]; cbn; by repeat constructor; try apply Hp; try apply Ho.
Qed.

Lemma name_status_read_parts fs : Forall listed fs -> name_status_records (name_status_parts fs) = fs.*1.
Proof.
  intros Hfs. induction Hfs as [|[f sc] fs (Hf & Hp & Hsc & Ho) _ IH]; [done|]. unfold name_status_parts in *. cbn [mbind list_bind fst snd] in *.
  set (rest := fs ≫= _) in *. unfold name_status_record. rewrite <- app_comm_cons. cbn [name_status_records].
  assert (status_of_code (status_letter (fd_status f) +:+ sc) = fd_status f) as -> by (by destruct (fd_status f)).
  destruct (fd_old_path f) as [old|].
  - destruct Ho as [Ht _]. rewrite Ht. cbn [app default from_option id]. change ((_ :: fs).*1) with (f :: fs.*1). by rewrite IH, <- Hf.
  - rewrite Ho. cbn [app]. change ((_ :: fs).*1) with (f :: fs.*1). by rewrite IH, <- Hf.
Qed.

Lemma listing_records_cons r l : l <> [] ->
  listing_records (r :: l) =
    if is_empty r then Some ([], join (String nul EmptyString) l) else '(records, rest) ← listing_records l; Some (r :: records, rest).
Proof. by destruct l. Qed.

Lemma listing_records_read records rest : Forall record_ok records ->
  listing_records (split_char nul (terminated records +:+ nul_end +:+ rest)) = Some (records, rest).
Proof.
  intros Hr. rewrite split_terminated by (eapply Forall_impl; [done|]; by intros ? [_ ?]).
  pose proof (split_char_nonempty nul rest) as Hne.
  change (nul_end +:+ rest) with (EmptyString +:+ String nul rest). rewrite split_char_app by done.
  induction Hr as [|r records [Hr _] _ IH].
  - rewrite app_nil_l, listing_records_cons by done. unfold is_empty. by rewrite bool_decide_true, join_split_char.
  - rewrite <- app_comm_cons, listing_records_cons by (by intros [_ ?]%app_eq_nil). unfold is_empty.
    by rewrite bool_decide_false, IH.
Qed.

Lemma nul_records_joined records : Forall record_ok records -> nul_records (join nul_end records +:+ nul_end) = records.
Proof.
  intros Hr. destruct records as [|r records]; [done|].
  assert (join nul_end (r :: records) +:+ nul_end = terminated (r :: records)) as ->; [|by apply nul_records_terminated].
  clear Hr. revert r. induction records as [|x records IH]; intros r.
  - unfold terminated. cbn. by rewrite app_nil_r_string.
  - rewrite join_cons, !app_assoc_string, IH by done. unfold terminated. cbn [fmap list_fmap concat]. by rewrite !app_assoc_string.
Qed.

(** C13: The reader gets back what git printed: from a listing script's
    output it reads the merge-base, every file of the name-status diff with its
    status and both paths of a rename, HEAD, and exactly the changed and the
    untracked paths, whatever bytes the paths are made of. *)
Theorem listing_roundtrip mb fs head headers es :
  lacks nul mb = true -> Forall listed fs ->
  match head with Some h => h <> "(initial)" /\ lacks nul h = true | None => True end ->
  Forall (fun h => lacks nul h = true /\ starts_with h "branch.oid " = false) headers -> Forall status_entry_ok es ->
  let out := mb +:+ nul_end +:+ terminated (name_status_parts fs) +:+ nul_end +:+ print_status head headers es in
  exists records status, parse_listing out = Some (trim mb, records, status) /\
    parse_name_status (join nul_end records +:+ nul_end) = fs.*1 /\ parse_status status = status_of head es.
Proof.
  intros Hmb Hfs Hhead Hhs Hes out. exists (name_status_parts fs), (print_status head headers es).
  pose proof (name_status_parts_ok fs Hfs) as Hok. split_and!.
  - unfold parse_listing, out. change (nul_end +:+ ?x) with (String nul x). rewrite split_once_app by done. cbn [mbind option_bind].
    by rewrite listing_records_read.
  - unfold parse_name_status. by rewrite nul_records_joined, name_status_read_parts.
  - by apply status_read.
Qed.

Lemma listing_roundtrip_witness :
  exists records status,
    parse_listing ("4f2a" +:+ String (ascii_of_N 10) nul_end +:+ terminated ["R100"; "old name"; "new name"; "M"; "a b"] +:+ nul_end +:+
      print_status (Some "77aa") ["branch.head main"]
        [OrdinaryEntry [".M"; "N..."; "100644"; "100644"; "100644"; "e0"; "e1"] "a b"; UntrackedEntry "x y"])
    = Some ("4f2a", records, status) /\
    parse_name_status (join nul_end records +:+ nul_end) =
      [new_file_diff "new name" Renamed (Some "old name"); new_file_diff "a b" Modified None] /\
    parse_status status = {| st_head := Some "77aa"; st_changed := {["a b"]}; st_untracked := {["x y"]} |}.
Proof.
  destruct (listing_roundtrip ("4f2a" +:+ String (ascii_of_N 10) EmptyString)
    [(new_file_diff "new name" Renamed (Some "old name"), "100"); (new_file_diff "a b" Modified None, "")] (Some "77aa") ["branch.head main"]
    [OrdinaryEntry [".M"; "N..."; "100644"; "100644"; "100644"; "e0"; "e1"] "a b"; UntrackedEntry "x y"]) as (records & status & H1 & H2 & H3).
  - reflexivity.
  - repeat constructor; discriminate.
  - by split.
  - repeat constructor.
  - repeat constructor.
  - exists records, status. split; [exact H1|]. split; [exact H2|]. rewrite H3. vm_compute. reflexivity.
Defined.

(** ** Patches *)

(** A path git prints as it is, and that leaves a header line unambiguous. *)
Definition plain_path (p : string) : bool :=
  negb (contains p " b/") &&
  bytes_all (fun b => byte_in 32 126 b && negb (Ascii.eqb b (ascii_of_N 34)) && negb (Ascii.eqb b (ascii_of_N 92))) p.

Definition patch_header (file : FileDiff) : option string :=
  let old := default (fd_path file) (fd_old_path file) in
  if plain_path old && plain_path (fd_path file) then Some ("diff --git a/" +:+ old +:+ " b/" +:+ fd_path file) else None.

Definition binary_line (l : string) : bool := starts_with l "Binary files " || starts_with l "GIT binary patch".
Definition is_binary_patch (raw : string) : bool := existsb binary_line (lines raw).

(** [raw[..end]], [end] after the last newline, 0 without one. *)
Fixpoint keep_lines (s : string) : string :=
  match s with
  | EmptyString => EmptyString
  | String c r =>
      match keep_lines r with
      | EmptyString => if Ascii.eqb c newline_byte then String c EmptyString else EmptyString
      | t => String c t
      end
  end.

Definition shape_patch (raw : string) : string * bool * bool :=
  if is_binary_patch raw then (EmptyString, true, false)
  else if (len raw <=? WORKSPACE_PATCH_LIMIT)%N then (raw, false, false)
  else (keep_lines (take_bytes WORKSPACE_PATCH_LIMIT raw), false, true).

Lemma keep_lines_prefix s : exists t, s = keep_lines s +:+ t /\ lacks newline_byte t = true.
Proof.
  induction s as [|c r (t & Hr & Ht)]; [by exists EmptyString|]. cbn [keep_lines]. destruct (keep_lines r) as [|a k] eqn:E.
  - destruct (Ascii.eqb_spec c newline_byte) as [->|Hne]; [by exists t; rewrite Hr at 1|].
    exists (String c t). rewrite Hr at 1. split; [done|]. by rewrite lacks_cons, Ht, (proj2 (Ascii.eqb_neq _ _) Hne).
  - exists t. split; [|done]. rewrite app_cons_string. by rewrite <- Hr.
Qed.

Lemma keep_lines_ends s : keep_lines s = EmptyString \/ ends_line (keep_lines s) = true.
Proof.
  induction s as [|c r IH]; [by left|]. cbn [keep_lines]. destruct (keep_lines r) as [|a k] eqn:E.
  - destruct (Ascii.eqb_spec c newline_byte) as [->|Hne]; [by right|by left].
  - right. destruct IH as [?|Hl]; [done|]. unfold ends_line in *. by cbn [last_byte] in *.
Qed.

Lemma keep_lines_app s t : keep_lines (s +:+ t) = if is_empty (keep_lines t) then keep_lines s else s +:+ keep_lines t.
Proof.
  induction s as [|c s IH]; [rewrite app_nil_string; destruct (keep_lines t) eqn:E; [done|]; unfold is_empty; by rewrite bool_decide_false|].
  rewrite app_cons_string. cbn [keep_lines]. rewrite IH. destruct (is_empty (keep_lines t)) eqn:E; [done|].
  destruct (s +:+ keep_lines t) eqn:E'; [|by rewrite app_cons_string, E']. apply bool_decide_eq_false in E. by destruct s.
Qed.

(** A section the splitter and the readers cut at [SECTION_CAP] shapes as the
    whole patch does. *)
Lemma shape_capped raw : valid_utf8 raw ->
  is_binary_patch (from_utf8_lossy (take_bytes SECTION_CAP raw)) = is_binary_patch raw ->
  shape_patch (from_utf8_lossy (take_bytes SECTION_CAP raw)) = shape_patch raw.
Proof.
  intros Hv Hb. unfold shape_patch. rewrite Hb. destruct (is_binary_patch raw); [done|].
  destruct (N.leb_spec (len raw) SECTION_CAP) as [Hle|Hgt]; [by rewrite (take_bytes_all _ _ Hle), Hv|].
  destruct (lossy_cut SECTION_CAP raw Hv) as (m & t & H1 & H2 & ->). unfold SECTION_CAP in *.
  assert (len (take_bytes m raw) = m) as Hm by (rewrite len_take_bytes; lia).
  rewrite (proj2 (N.leb_gt (len raw) _)) by lia. rewrite (proj2 (N.leb_gt _ _)) by (rewrite len_app; lia).
  rewrite take_bytes_app, Hm. replace (WORKSPACE_PATCH_LIMIT - m)%N with 0%N by lia.
  by rewrite take_bytes_0, app_nil_r_string, take_bytes_le by lia.
Qed.

Lemma shape_patch_cut raw : is_binary_patch raw = false ->
  exists rest, let p := (shape_patch raw).1.1 in raw = p +:+ rest /\ (len p <= WORKSPACE_PATCH_LIMIT)%N /\
    (shape_patch raw).2 = negb (is_empty rest) /\ (rest <> EmptyString -> p = EmptyString \/ ends_line p = true).
Proof.
  intros Hb. unfold shape_patch. rewrite Hb. destruct (N.leb_spec (len raw) WORKSPACE_PATCH_LIMIT) as [Hle|Hgt]; cbn [fst snd].
  - exists EmptyString. by rewrite app_nil_r_string.
  - destruct (take_bytes_prefix WORKSPACE_PATCH_LIMIT raw) as [r Hr].
    destruct (keep_lines_prefix (take_bytes WORKSPACE_PATCH_LIMIT raw)) as (t & Ht & _).
    exists (t +:+ r). rewrite <- app_assoc_string, <- Ht. split; [done|].
    pose proof (len_take_bytes WORKSPACE_PATCH_LIMIT raw) as Hl. rewrite Ht, len_app in Hl. split; [lia|].
    split; [|intros _; apply keep_lines_ends]. destruct (is_empty (t +:+ r)) eqn:E; [|done].
    apply bool_decide_eq_true in E. assert (len (t +:+ r) = 0%N) as H0 by (by rewrite E).
    assert (len raw = len (take_bytes WORKSPACE_PATCH_LIMIT raw) + len r)%N as Hraw by (rewrite <- len_app; by f_equal).
    rewrite len_app in H0. rewrite len_take_bytes in Hraw. lia.
Qed.

(** Two plain paths print a header line of their own. *)
Lemma split_plain x y x' y' : contains x " b/" = false -> contains x' " b/" = false ->
  x +:+ " b/" +:+ y = x' +:+ " b/" +:+ y' -> x = x' /\ y = y'.
Proof.
  assert (forall x x' y y', contains x' " b/" = false -> (len x <= len x')%N -> x +:+ " b/" +:+ y = x' +:+ " b/" +:+ y' -> x = x' /\ y = y') as Hlt.
  { clear. intros x x' y y' Hx' Hlen Heq. destruct (prefix_shorter x x' _ _ Heq Hlen) as [z ->].
    rewrite app_assoc_string in Heq. apply app_inj_l_string in Heq.
    destruct z as [|c1 z]; [rewrite app_nil_r_string; split; [done|]; by injection Heq|].
    rewrite !app_cons_string in Heq. injection Heq as <- Heq.
    destruct z as [|c2 z]; [discriminate Heq|]. rewrite !app_cons_string in Heq. injection Heq as <- Heq.
    destruct z as [|c3 z]; [discriminate Heq|]. rewrite !app_cons_string in Heq. injection Heq as <- Heq.
    exfalso. apply not_true_iff_false in Hx'. apply Hx'. apply contains_spec. by exists x, z. }
  intros Hx Hx' Heq. destruct (N.le_ge_cases (len x) (len x')); [by apply Hlt|].
  destruct (Hlt x' x y' y) as [-> ->]; done.
Qed.

Lemma patch_header_inj f g h : patch_header f = Some h -> patch_header g = Some h ->
  default (fd_path f) (fd_old_path f) = default (fd_path g) (fd_old_path g) /\ fd_path f = fd_path g.
Proof.
  unfold patch_header, plain_path. set (x := default (fd_path f) _). set (x' := default (fd_path g) _).
  destruct (contains x " b/") eqn:Hx; [done|]. destruct (contains x' " b/") eqn:Hx'; [done|].
  destruct (_ && _); [|done]. destruct (_ && _); [|done]. intros Hf Hg.
  rewrite <- Hf in Hg. assert ("diff --git a/" +:+ x' +:+ " b/" +:+ fd_path g = "diff --git a/" +:+ x +:+ " b/" +:+ fd_path f)
    as Heq%app_inj_l_string by congruence. by apply split_plain.
Qed.

(** ** The diff's limit *)

(** A character inside a JSON string as serde_json writes it. *)
Definition json_char_len (c : string) : N :=
  if one_byte (fun b => Ascii.eqb b (ascii_of_N 34) || Ascii.eqb b (ascii_of_N 92) || Ascii.eqb b (ascii_of_N 10) ||
                        Ascii.eqb b (ascii_of_N 13) || Ascii.eqb b (ascii_of_N 9) || Ascii.eqb b (ascii_of_N 8) ||
                        Ascii.eqb b (ascii_of_N 12)) c then 2
  else if one_byte (byte_in 0 31) c then 6 else len c.
Definition json_escaped_len (s : string) : N := foldr (fun c n => json_char_len c + n)%N 0%N (chars s).

Section fit.
(** [serde_json::to_vec] of a file. *)
Context (to_vec : FileDiff -> option string).

Definition bare_json_len (file : FileDiff) : N :=
  saturating_add_u64 (match to_vec (set_patch EmptyString (fd_binary file) (fd_truncated file) file) with
                      | Some v => len v
                      | None => u64_max
                      end) 1.

(** The files whose entries fit, and the bytes they take. *)
Fixpoint fit_entries (used : N) (files : list FileDiff) : list FileDiff * N :=
  match files with
  | [] => ([], used)
  | f :: files =>
      let bare := bare_json_len f in
      if (WORKSPACE_DIFF_LIMIT <? saturating_add_u64 used bare)%N then ([], used)
      else let '(kept, used) := fit_entries (used + bare) files in (f :: kept, used)
  end.

(** The whole lines that fit in [room]. *)
Fixpoint fit_lines (room : N) (lines : list string) : string :=
  match lines with
  | [] => EmptyString
  | line :: lines =>
      let n := json_escaped_len line in
      if (room <? n)%N then EmptyString else line +:+ fit_lines (room - n) lines
  end.

Fixpoint fit_patches (room : N) (files : list FileDiff) : list FileDiff :=
  match files with
  | [] => []
  | f :: files =>
      if is_empty (fd_patch f) then f :: fit_patches room files
      else
        let whole := json_escaped_len (fd_patch f) in
        if (whole <=? room)%N then f :: fit_patches (room - whole) files
        else set_patch (fit_lines room (split_inclusive newline_byte (fd_patch f))) (fd_binary f) true f :: fit_patches 0 files
  end.

Definition fit_diff (files : list FileDiff) : list FileDiff * bool :=
  let '(kept, used) := fit_entries 2 files in
  (fit_patches (WORKSPACE_DIFF_LIMIT - used) kept, length kept <? length files).
End fit.

(** The same, byte by byte. *)
Definition json_byte_len (b : ascii) : N :=
  if Ascii.eqb b (ascii_of_N 34) || Ascii.eqb b (ascii_of_N 92) || Ascii.eqb b (ascii_of_N 10) ||
     Ascii.eqb b (ascii_of_N 13) || Ascii.eqb b (ascii_of_N 9) || Ascii.eqb b (ascii_of_N 8) ||
     Ascii.eqb b (ascii_of_N 12) then 2
  else if byte_in 0 31 b then 6 else 1.
Fixpoint json_bytes_len (s : string) : N :=
  match s with EmptyString => 0 | String b s => json_byte_len b + json_bytes_len s end.

Lemma json_byte_high b : (128 <=? N_of_ascii b)%N = true -> json_byte_len b = 1%N.
Proof.
  intros Hb. apply N.leb_le in Hb. unfold json_byte_len, byte_in.
  assert (forall n, (n < 128)%N -> Ascii.eqb b (ascii_of_N n) = false) as Hne.
  { intros n Hn. apply Ascii.eqb_neq. intros ->. rewrite Stdlib.Strings.Ascii.N_ascii_embedding in Hb by lia. lia. }
  rewrite !Hne by lia. cbn [orb]. rewrite (proj2 (N.leb_gt _ 31)) by lia. by rewrite andb_false_r.
Qed.

Lemma json_escaped_bytes s : json_escaped_len s = json_bytes_len s.
Proof.
  unfold json_escaped_len. induction s as [|a s IH]; [done|]. cbn [chars json_bytes_len]. rewrite <- IH. clear IH.
  pose proof (concat_chars s) as Hs.
  assert (forall c, json_char_len (String c EmptyString) = json_byte_len c) as Hone.
  { intros c. done. }
  destruct (chars s) as [|[|b h] t] eqn:E; cbn [foldr]; rewrite ?Hone; [done|done|].
  destruct (is_continuation b && (128 <=? N_of_ascii a)%N) eqn:Hc; cbn [foldr]; [|by rewrite Hone].
  apply andb_true_iff in Hc as [Hb Ha]. rewrite (json_byte_high a Ha), N.add_assoc. f_equal.
  assert (json_char_len (String b h) = len (String b h)) as ->.
  { destruct h as [|b' h]; [|done]. rewrite Hone. apply json_byte_high. unfold is_continuation, byte_in in Hb. by apply andb_true_iff in Hb as [? _]. }
  unfold json_char_len, one_byte, len. cbn [String.length]. lia.
Qed.

Lemma json_escaped_app s t : json_escaped_len (s +:+ t) = (json_escaped_len s + json_escaped_len t)%N.
Proof.
  rewrite !json_escaped_bytes. induction s as [|c s IH]; [done|]. rewrite app_cons_string. cbn [json_bytes_len]. rewrite IH. lia.
Qed.

(** A patch cut to whole lines, or not cut. *)
Definition shortened (f f' : FileDiff) : Prop :=
  f' = f \/ exists p rest, f' = set_patch p (fd_binary f) true f /\ fd_patch f = p +:+ rest /\ (p = EmptyString \/ ends_line p = true).

Lemma fit_lines_prefix ls room : exists l l', ls = l ++ l' /\ fit_lines room ls = concat l /\ (json_escaped_len (concat l) <= room)%N /\
  ((room < json_escaped_len (concat ls))%N -> l' <> []).
Proof.
  revert room. induction ls as [|x ls IH]; intros room.
  - exists [], []. split_and!; [done|done|cbn; lia|cbn; lia].
  - cbn [fit_lines]. destruct (N.ltb_spec room (json_escaped_len x)) as [Hlt|Hge].
    + exists [], (x :: ls). split_and!; [done|done|cbn; lia|done].
    + destruct (IH (room - json_escaped_len x)%N) as (l & l' & -> & -> & Hl & Hne). exists (x :: l), l'.
      split_and!; [done|done| |].
      * cbn [concat]. rewrite json_escaped_app. lia.
      * cbn [concat app]. rewrite json_escaped_app. intros Hr. apply Hne. lia.
Qed.

Lemma fit_lines_shortened f room : (room < json_escaped_len (fd_patch f))%N ->
  let p := fit_lines room (split_inclusive newline_byte (fd_patch f)) in
  shortened f (set_patch p (fd_binary f) true f) /\ (json_escaped_len p <= room)%N.
Proof.
  intros Hroom p. unfold p. destruct (fit_lines_prefix (split_inclusive newline_byte (fd_patch f)) room) as (l & l' & Hl & -> & Hle & Hne).
  split; [|done]. right. exists (concat l), (concat l'). split; [done|]. rewrite <- concat_both, <- Hl, concat_inclusive. split; [done|].
  rewrite concat_inclusive in Hne. specialize (Hne Hroom). destruct l as [|x l _] using rev_ind; [by left|]. right.
  rewrite concat_both. cbn [concat]. rewrite app_nil_r_string. destruct l' as [|y l']; [done|].
  rewrite <- app_assoc in Hl. pose proof (inclusive_mid _ _ _ _ _ _ Hl) as Hx.
  rewrite ends_line_app; [by apply ends_line_line|]. destruct Hx as (z & -> & _). by destruct z.
Qed.

Section fits.
Context (file_json : FileDiff -> string).
Context (json_patch : forall f, (len (file_json f) =
  len (file_json (set_patch EmptyString (fd_binary f) (fd_truncated f) f)) + json_escaped_len (fd_patch f))%N).
Context (json_truncated : forall p f, (len (file_json (set_patch p (fd_binary f) true f)) <=
  len (file_json (set_patch p (fd_binary f) (fd_truncated f) f)))%N).

(** The JSON of the list. *)
Definition list_json (files : list FileDiff) : string := "[" +:+ join "," (file_json <$> files) +:+ "]".

(** A file's bytes, with a comma. *)
Definition file_len (f : FileDiff) : N := len (file_json f) + 1.
Definition files_len (files : list FileDiff) : N := foldr (fun f n => file_len f + n)%N 0%N files.

Lemma list_json_len files : len (list_json files) = match files with [] => 2%N | _ => (1 + files_len files)%N end.
Proof.
  unfold list_json. rewrite !len_app. change (len "[") with 1%N. change (len "]") with 1%N.
  destruct files as [|f files]; [done|]. revert f. induction files as [|g files IH]; intros f.
  - cbn. unfold file_len. lia.
  - cbn [fmap list_fmap]. rewrite join_cons, !len_app by done. change (len ",") with 1%N. specialize (IH g). cbn [fmap list_fmap] in IH.
    cbn [files_len foldr] in *. unfold file_len in *. lia.
Qed.

Definition bare (f : FileDiff) : N := file_len (set_patch EmptyString (fd_binary f) (fd_truncated f) f).
Definition bares (files : list FileDiff) : N := foldr (fun f n => bare f + n)%N 0%N files.

Lemma file_len_bare f : file_len f = (bare f + json_escaped_len (fd_patch f))%N.
Proof. unfold file_len, bare, file_len. rewrite json_patch. lia. Qed.

Lemma bares_le files : (bares files <= files_len files)%N.
Proof. induction files as [|g files IH]; cbn [bares files_len foldr]; [done|]. rewrite (file_len_bare g). unfold bares, files_len in *. lia. Qed.

Lemma saturating_step used j :
  if (WORKSPACE_DIFF_LIMIT <? saturating_add_u64 used (saturating_add_u64 j 1))%N
  then (WORKSPACE_DIFF_LIMIT < used + (j + 1))%N
  else saturating_add_u64 j 1 = (j + 1)%N /\ (used + (j + 1) <= WORKSPACE_DIFF_LIMIT)%N.
Proof.
  assert (WORKSPACE_DIFF_LIMIT < u64_max)%N as Hmax by done. unfold saturating_add_u64.
  generalize dependent u64_max. intros m Hmax. generalize dependent WORKSPACE_DIFF_LIMIT. intros l Hmax.
  destruct (N.ltb_spec l (N.min (used + N.min (j + 1) m) m)); lia.
Qed.

Lemma fit_entries_spec used files kept used' : (used <= WORKSPACE_DIFF_LIMIT)%N ->
  fit_entries (fun f => Some (file_json f)) used files = (kept, used') ->
  (exists rest, files = kept ++ rest /\ ((used + bares files <= WORKSPACE_DIFF_LIMIT)%N -> rest = [])) /\
  used' = (used + bares kept)%N /\ (used' <= WORKSPACE_DIFF_LIMIT)%N.
Proof.
  revert used kept used'. induction files as [|f files IH]; intros used kept used' Hu.
  { intros [= <- <-]. split; [by exists []|]. cbn. lia. }
  cbn [fit_entries].
  assert (bare_json_len (fun f => Some (file_json f)) f = saturating_add_u64 (bare f - 1) 1) as ->.
  { unfold bare_json_len, bare, file_len. by rewrite N.add_sub. }
  assert (1 <= bare f)%N as Hone by (unfold bare, file_len; lia). set (b := bare f) in *.
  pose proof (saturating_step used (b - 1)) as Hstep. replace (b - 1 + 1)%N with b in Hstep by lia.
  destruct (_ <? _)%N.
  - intros [= <- <-]. cbn [bares foldr]. split; [exists (f :: files); split; [done|]; fold b; lia|lia].
  - destruct Hstep as [-> Hle]. destruct (fit_entries _ _ files) as [k u] eqn:E. intros [= <- <-].
    destruct (IH _ _ _ Hle E) as ((rest & -> & Hrest) & -> & Hle2). cbn [bares foldr]. fold (bares k) (bares (k ++ rest)). fold b.
    split; [|split; lia]. exists rest. split; [done|]. intros Hall. apply Hrest. lia.
Qed.

Lemma fit_patches_spec room files : let out := fit_patches room files in
  Forall2 shortened files out /\ (files_len out <= bares files + room)%N /\
  ((files_len files <= bares files + room)%N -> out = files).
Proof.
  revert room. induction files as [|f files IH]; intros room; cbn [fit_patches].
  { split_and!; [done|cbn; lia|done]. }
  assert (bare f + json_escaped_len (fd_patch f) = file_len f)%N as Hf by (by rewrite file_len_bare).
  destruct (is_empty (fd_patch f)) eqn:He; [|destruct (N.leb_spec (json_escaped_len (fd_patch f)) room) as [Hle|Hgt]].
  - apply bool_decide_eq_true in He. rewrite He in Hf. change (json_escaped_len EmptyString) with 0%N in Hf.
    destruct (IH room) as (H1 & H2 & H3). cbn [files_len bares foldr]. split_and!; [constructor; [by left|done]| |].
    + unfold files_len, bares in *. lia.
    + intros Hall. rewrite H3; [done|]. unfold files_len, bares in *. lia.
  - destruct (IH (room - json_escaped_len (fd_patch f))%N) as (H1 & H2 & H3). cbn [files_len bares foldr].
    split_and!; [constructor; [by left|done]| |].
    + unfold files_len, bares in *. lia.
    + intros Hall. rewrite H3; [done|]. unfold files_len, bares in *. lia.
  - destruct (IH 0%N) as (H1 & H2 & H3). destruct (fit_lines_shortened f room Hgt) as [Hs Hp].
    set (p := fit_lines room _) in *. cbn [files_len bares foldr].
    assert (file_len (set_patch p (fd_binary f) true f) <= bare f + json_escaped_len p)%N as Hcut.
    { etransitivity; [unfold file_len; apply N.add_le_mono_r, json_truncated|].
      change (file_len (set_patch p (fd_binary f) (fd_truncated f) f) <= bare f + json_escaped_len p)%N. rewrite file_len_bare.
      cbn [set_patch fd_patch]. unfold bare. cbn [set_patch fd_binary fd_truncated]. reflexivity. }
    split_and!; [by constructor| |].
    + unfold files_len, bares in *. lia.
    + intros Hall. exfalso. pose proof (bares_le files) as Hmono.
      unfold files_len, bares in *. lia.
Qed.

(** A diff is held within its limit: the JSON of its files takes at most
    [WORKSPACE_DIFF_LIMIT] bytes, the list is a prefix of the files (marked
    when it is cut), every patch is whole or cut at a line's end and marked,
    and a diff that fits is left as it is. *)
Lemma fit_diff_spec files : let '(out, cut) := fit_diff (fun f => Some (file_json f)) files in
  (len (list_json out) <= WORKSPACE_DIFF_LIMIT)%N /\ Forall2 shortened (take (length out) files) out /\
  cut = bool_decide (length out < length files)%nat /\
  ((len (list_json files) < WORKSPACE_DIFF_LIMIT)%N -> out = files).
Proof.
  unfold fit_diff. destruct (fit_entries _ 2 files) as [kept used] eqn:E.
  destruct (fit_entries_spec 2 _ _ _ ltac:(by vm_compute) E) as ((rest & Hfiles & Hrest) & Hused & Hle).
  destruct (fit_patches_spec (WORKSPACE_DIFF_LIMIT - used) kept) as (H1 & H2 & H3). set (out := fit_patches _ kept) in *.
  pose proof (Forall2_length _ _ _ H1) as Hlen. split_and!.
  - rewrite list_json_len. destruct out as [|o out']; [by vm_compute|]. lia.
  - rewrite <- Hlen, Hfiles, take_app_length. done.
  - rewrite <- Hlen. destruct (Nat.ltb_spec (length kept) (length files)); case_bool_decide; done || lia.
  - intros Hfit. assert (2 + bares files <= WORKSPACE_DIFF_LIMIT /\ 2 + files_len files <= WORKSPACE_DIFF_LIMIT)%N as [Hb Hf].
    { rewrite list_json_len in Hfit. pose proof (bares_le files) as Hmono.
      destruct files; [cbn; lia|lia]. }
    rewrite (Hrest Hb), app_nil_r in Hfiles. subst kept. apply H3. lia.
Qed.

End fits.

(** A writer with those laws: the file as JSON, its fields in order. *)
Definition json_escape_byte (b : ascii) : string :=
  let short c := String (ascii_of_N 92) (String c EmptyString) in
  if Ascii.eqb b (ascii_of_N 34) || Ascii.eqb b (ascii_of_N 92) then short b
  else if Ascii.eqb b (ascii_of_N 10) then short "n"%char
  else if Ascii.eqb b (ascii_of_N 13) then short "r"%char
  else if Ascii.eqb b (ascii_of_N 9) then short "t"%char
  else if Ascii.eqb b (ascii_of_N 8) then short "b"%char
  else if Ascii.eqb b (ascii_of_N 12) then short "f"%char
  else if byte_in 0 31 b then
    String (ascii_of_N 92) ("u00" +:+ String (hex_digit (N_of_ascii b / 16)) (String (hex_digit (N_of_ascii b mod 16)) EmptyString))
  else String b EmptyString.
Fixpoint json_escape (s : string) : string :=
  match s with EmptyString => EmptyString | String b s => json_escape_byte b +:+ json_escape s end.
Definition json_string (s : string) : string := quote +:+ json_escape s +:+ quote.
Definition json_bool (b : bool) : string := if b then "true" else "false".
Definition json_status (s : FileStatus) : string :=
  match s with
  | Added => "added" | Modified => "modified" | Deleted => "deleted" | Renamed => "renamed" | Copied => "copied"
  | Typechange => "typechange"
  end.
Definition json_field (name value : string) : string := json_string name +:+ ":" +:+ value.
Definition file_json (f : FileDiff) : string :=
  "{" +:+ join ","
    [json_field "path" (json_string (fd_path f));
     json_field "old_path" (match fd_old_path f with Some p => json_string p | None => "null" end);
     json_field "status" (json_string (json_status (fd_status f)));
     json_field "uncommitted" (json_bool (fd_uncommitted f));
     json_field "binary" (json_bool (fd_binary f));
     json_field "patch" (json_string (fd_patch f));
     json_field "truncated" (json_bool (fd_truncated f))] +:+ "}".

Lemma json_escape_len s : len (json_escape s) = json_escaped_len s.
Proof.
  rewrite json_escaped_bytes. induction s as [|b s IH]; [done|]. cbn [json_escape json_bytes_len]. rewrite len_app, IH. f_equal.
  unfold json_escape_byte, json_byte_len.
  destruct (Ascii.eqb b (ascii_of_N 34)), (Ascii.eqb b (ascii_of_N 92)), (Ascii.eqb b (ascii_of_N 10)), (Ascii.eqb b (ascii_of_N 13)),
    (Ascii.eqb b (ascii_of_N 9)), (Ascii.eqb b (ascii_of_N 8)), (Ascii.eqb b (ascii_of_N 12)); try done.
  cbn [orb]. by destruct (byte_in 0 31 b).
Qed.

Lemma json_string_len s : len (json_string s) = (2 + json_escaped_len s)%N.
Proof. unfold json_string. rewrite !len_app, json_escape_len. change (len quote) with 1%N. lia. Qed.

Lemma file_json_patch f : (len (file_json f) =
  len (file_json (set_patch EmptyString (fd_binary f) (fd_truncated f) f)) + json_escaped_len (fd_patch f))%N.
Proof.
  unfold file_json, json_field. cbn [join set_patch fd_path fd_old_path fd_status fd_uncommitted fd_binary fd_patch fd_truncated].
  rewrite !len_app, (json_string_len (fd_patch f)), (json_string_len EmptyString). change (json_escaped_len EmptyString) with 0%N. lia.
Qed.

Lemma file_json_truncated p f : (len (file_json (set_patch p (fd_binary f) true f)) <=
  len (file_json (set_patch p (fd_binary f) (fd_truncated f) f)))%N.
Proof.
  unfold file_json, json_field. cbn [join set_patch fd_path fd_old_path fd_status fd_uncommitted fd_binary fd_patch fd_truncated].
  rewrite !len_app. destruct (fd_truncated f); [done|]. change (len (json_bool true)) with 4%N. change (len (json_bool false)) with 5%N. lia.
Qed.
