(* ===== verification/Untracked.v ===== *)
(** What stands in for an untracked path's patch
    ([crates/balerix-runtime/src/inspect.rs]): the path looked up without
    following a link, a link followed by name inside the worktree, and the
    patch of a link as git prints it. The filesystem is what a no-follow
    [stat] answers at each physical path. *)

From S2P Require Import Prelude Str Bytes Paths Sandbox Patch.

Inductive Entry := Directory | RegularFile | Link (target : option string) | Special.
Inductive StatResult := Here (e : Entry) | Gone | Refused.

(** Physical paths as their names below [/]. *)
Definition FileSystem : Type := list string -> StatResult.

Inductive Leaf := LeafRegular | LeafSymlink (target : string) | LeafMissing | LeafOther | LeafBlocked.

Section fs.
Context (fs : FileSystem).

(** [at]: the directory reached so far. *)
Fixpoint lookup_from (at_ : list string) (names : list string) : Leaf :=
  match names with
  | [] => LeafOther
  | [last] =>
      match fs (at_ ++ [last]) with
      | Here RegularFile => LeafRegular
      | Here (Link (Some target)) => LeafSymlink target
      | Here (Link None) => LeafBlocked
      | Here Directory | Here Special => LeafOther
      | Gone => LeafMissing
      | Refused => LeafBlocked
      end
  | name :: names =>
      match fs (at_ ++ [name]) with
      | Here Directory => lookup_from (at_ ++ [name]) names
      | Gone => LeafMissing
      | _ => LeafBlocked
      end
  end.

Definition normal_name (c : Component) : option string := match c with Normal n => Some n | _ => None end.

(** [rel]'s names, or none when it holds anything else. *)
Definition names_of (cs : list Component) : option (list string) := mapM normal_name cs.
Definition plain_names (rel : string) : option (list string) := names_of (components rel).

(** The names a path folds to, as [lexical] pushes and pops them. *)
Definition lexical_names (cs : list Component) : list string :=
  foldl (fun out c => match c with Normal n => out ++ [n] | ParentDir => removelast out | _ => out end) [] cs.

(** [strip_prefix], by name. *)
Fixpoint strip_names (prefix names : list string) : option (list string) :=
  match prefix, names with
  | [], _ => Some names
  | a :: prefix, b :: names => if bool_decide (a = b) then strip_names prefix names else None
  | _ :: _, [] => None
  end.

(** A relative target from its link's directory; none above the root. *)
Fixpoint push_components (path : list string) (cs : list Component) : option (list string) :=
  match cs with
  | [] => Some path
  | Normal n :: cs => push_components (path ++ [n]) cs
  | ParentDir :: cs => match path with [] => None | _ => push_components (removelast path) cs end
  | _ :: cs => push_components path cs
  end.

Definition SYMLINK_HOPS : nat := 40.

Fixpoint link_hops (root : list string) (hops : nat) (dir : list string) (target : string) : bool :=
  match hops with
  | O => false
  | S hops =>
      match (if is_absolute target then strip_names root (lexical_names (components target))
             else push_components dir (components target)) with
      | None | Some [] => false
      | Some path =>
          match lookup_from root path with
          | LeafRegular | LeafMissing => true
          | LeafSymlink next => link_hops root hops (removelast path) next
          | LeafOther | LeafBlocked => false
          end
      end
  end.

Definition link_is_safe (root names : list string) (target : string) : bool :=
  link_hops root SYMLINK_HOPS (removelast names) target.
End fs.

Definition SKIPPED_NOT_A_FILE : string := "not a regular file, skipped" +:+ String newline_byte EmptyString.

(** ** Paths as git's header lines print them *)

Definition git_needs_quotes (b : ascii) : bool :=
  negb (byte_in 32 126 b) || Ascii.eqb b (ascii_of_N 34) || Ascii.eqb b (ascii_of_N 92).

Definition octal_digit (n : N) : ascii := ascii_of_N (48 + n).

Definition git_escape_byte (b : ascii) : string :=
  let short c := String (ascii_of_N 92) (String c EmptyString) in
  let n := N_of_ascii b in
  if (n =? 7)%N then short "a"%char
  else if (n =? 8)%N then short "b"%char
  else if (n =? 9)%N then short "t"%char
  else if (n =? 10)%N then short "n"%char
  else if (n =? 11)%N then short "v"%char
  else if (n =? 12)%N then short "f"%char
  else if (n =? 13)%N then short "r"%char
  else if (n =? 34)%N || (n =? 92)%N then short b
  else if git_needs_quotes b then
    String (ascii_of_N 92) (String (octal_digit (n / 64)) (String (octal_digit (n / 8 mod 8)) (String (octal_digit (n mod 8)) EmptyString)))
  else String b EmptyString.

Fixpoint git_escape (s : string) : string :=
  match s with EmptyString => EmptyString | String b s => git_escape_byte b +:+ git_escape s end.

Definition git_quoted (prefix path : string) : string :=
  if negb (bytes_any git_needs_quotes path) then prefix +:+ path
  else quote +:+ prefix +:+ git_escape path +:+ quote.

(** ** The patch of a link *)

Definition nl : string := String newline_byte EmptyString.

Definition symlink_patch (path target : string) : string :=
  let target := from_utf8_lossy target in
  let lines := split_inclusive newline_byte target in
  "diff --git " +:+ git_quoted "a/" path +:+ " " +:+ git_quoted "b/" path +:+ nl +:+
  "new file mode 120000" +:+ nl +:+ "--- /dev/null" +:+ nl +:+ "+++ " +:+ git_quoted "b/" path +:+ nl +:+
  (if length lines =? 1 then "@@ -0,0 +1 @@" +:+ nl else "@@ -0,0 +1," +:+ pretty (N.of_nat (length lines)) +:+ " @@" +:+ nl) +:+
  concat ((fun l => "+" +:+ l) <$> lines) +:+
  (if ends_with target nl then EmptyString else nl +:+ "\ No newline at end of file" +:+ nl).

Definition untracked_patch (fs : FileSystem) (root : list string) (rel : string) : option string :=
  match plain_names rel with
  | None => Some SKIPPED_NOT_A_FILE
  | Some names =>
      match lookup_from fs root names with
      | LeafRegular | LeafMissing => None
      | LeafSymlink target => if link_is_safe fs root names target then None else Some (symlink_patch rel target)
      | LeafOther | LeafBlocked => Some SKIPPED_NOT_A_FILE
      end
  end.

(** ** What following a link reaches *)

(** As the kernel resolves a path from the directory [cur]: each name
    looked up where the walk is, links followed, [..] to the directory's own
    parent. The kernel's limit on links only turns an outcome into a failure. *)
Inductive Outcome := Ends (p : list string) (e : Entry) | Nowhere | Fails.

Section walks.
Context (fs : FileSystem).

Inductive walks : list string -> list Component -> Outcome -> Prop :=
| walks_end cur : walks cur [] (Ends cur Directory)
| walks_root cur cs o : walks [] cs o -> walks cur (RootDir :: cs) o
| walks_here cur cs o : walks cur cs o -> walks cur (CurDir :: cs) o
| walks_up cur cs o : walks (removelast cur) cs o -> walks cur (ParentDir :: cs) o
| walks_into cur n cs o : fs (cur ++ [n]) = Here Directory -> walks (cur ++ [n]) cs o -> walks cur (Normal n :: cs) o
| walks_link cur n t cs o : fs (cur ++ [n]) = Here (Link (Some t)) -> walks cur (components t ++ cs) o -> walks cur (Normal n :: cs) o
| walks_leaf cur n e : fs (cur ++ [n]) = Here e -> e = RegularFile \/ e = Special -> walks cur [Normal n] (Ends (cur ++ [n]) e)
| walks_not_dir cur n c cs : fs (cur ++ [n]) = Here RegularFile \/ fs (cur ++ [n]) = Here Special -> walks cur (Normal n :: c :: cs) Fails
| walks_gone cur n cs : fs (cur ++ [n]) = Gone -> walks cur (Normal n :: cs) Nowhere
| walks_refused cur n cs : fs (cur ++ [n]) = Refused \/ fs (cur ++ [n]) = Here (Link None) -> walks cur (Normal n :: cs) Fails.

Lemma walks_det cur cs o o' : walks cur cs o -> walks cur cs o' -> o = o'.
Proof.
  intros Hw. revert o'. induction Hw; intros o' Hw'; inversion Hw'; subst; repeat match goal with H : _ \/ _ |- _ => destruct H end;
    try congruence; auto.
  all: match goal with A : fs ?p = _, B : fs ?p = _ |- _ => rewrite A in B; injection B as <-; auto end.
Qed.

(** Names that are directories all the way. *)
Fixpoint real_dirs (at_ dirs : list string) : Prop :=
  match dirs with
  | [] => True
  | d :: dirs => fs (at_ ++ [d]) = Here Directory /\ real_dirs (at_ ++ [d]) dirs
  end.

Lemma real_dirs_app at_ a b : real_dirs at_ (a ++ b) <-> real_dirs at_ a /\ real_dirs (at_ ++ a) b.
Proof.
  revert at_. induction a as [|x a IH]; intros at_; cbn; [by rewrite app_nil_r; naive_solver|].
  rewrite IH, <- app_assoc. naive_solver.
Qed.

Lemma walks_dirs at_ dirs cs o : real_dirs at_ dirs -> walks (at_ ++ dirs) cs o -> walks at_ ((Normal <$> dirs) ++ cs) o.
Proof.
  revert at_. induction dirs as [|d dirs IH]; intros at_ Hd Hw; cbn in *; [by rewrite app_nil_r in Hw|].
  destruct Hd as [Hd Hds]. apply walks_into; [done|]. apply IH; [done|]. by rewrite <- app_assoc.
Qed.

Lemma lookup_from_more at_ n names : names <> [] ->
  lookup_from fs at_ (n :: names) =
    match fs (at_ ++ [n]) with Here Directory => lookup_from fs (at_ ++ [n]) names | Gone => LeafMissing | _ => LeafBlocked end.
Proof. by destruct names. Qed.

(** A no-follow lookup of names says what a walk over them does. *)
Lemma lookup_walks at_ names : match lookup_from fs at_ names with
  | LeafRegular => walks at_ (Normal <$> names) (Ends (at_ ++ names) RegularFile)
  | LeafMissing => walks at_ (Normal <$> names) Nowhere
  | LeafSymlink t => real_dirs at_ (removelast names) /\
      forall o, walks (at_ ++ removelast names) (components t) o -> walks at_ (Normal <$> names) o
  | _ => True
  end.
Proof.
  revert at_. induction names as [|n names IH]; intros at_; [done|]. destruct names as [|m names].
  - cbn. destruct (fs (at_ ++ [n])) as [e| |] eqn:E; [|by apply walks_gone|done].
    destruct e as [| |[t|]|]; try done; [apply walks_leaf; naive_solver|]. split; [done|]. intros o Ho.
    rewrite app_nil_r in Ho. eapply walks_link; [done|]. by rewrite app_nil_r.
  - specialize (IH (at_ ++ [n])). assert (m :: names <> []) as Hne by done. set (rest := m :: names) in *. clearbody rest.
    rewrite lookup_from_more by done. destruct (fs (at_ ++ [n])) as [e| |] eqn:E; [|by apply walks_gone|done]. destruct e; try done.
    change (Normal <$> n :: rest) with (Normal n :: (Normal <$> rest)).
    assert (removelast (n :: rest) = n :: removelast rest) as -> by (by destruct rest).
    destruct (lookup_from fs (at_ ++ [n]) rest); try done.
    + apply walks_into; [done|]. by rewrite <- app_assoc in IH.
    + destruct IH as [Hd Ho]. split; [done|]. intros o Hw. apply walks_into; [done|]. apply Ho. by rewrite <- app_assoc.
    + by apply walks_into.
Qed.

Lemma lookup_link at_ names t : lookup_from fs at_ names = LeafSymlink t -> exists p, fs p = Here (Link (Some t)).
Proof.
  revert at_. induction names as [|n names IH]; intros at_; [done|]. destruct (decide (names = [])) as [->|Hne].
  - cbn. destruct (fs (at_ ++ [n])) as [[| |[x|]|]| |] eqn:E; try done. intros [= ->]. by exists (at_ ++ [n]).
  - rewrite lookup_from_more by done. destruct (fs (at_ ++ [n])) as [[| |[x|]|]| |] eqn:E; try done. apply IH.
Qed.

Lemma lookup_real at_ d ns : real_dirs at_ d -> lookup_from fs at_ (d ++ ns) = match ns with [] => LeafOther | _ => lookup_from fs (at_ ++ d) ns end.
Proof.
  revert at_. induction d as [|n d IH]; intros at_ Hd; [rewrite app_nil_r; by destruct ns|]. destruct Hd as [Hn Hd]. rewrite <- app_comm_cons.
  destruct (decide (d ++ ns = [])) as [[-> ->]%app_eq_nil|Hne]; [cbn; by rewrite Hn|].
  rewrite lookup_from_more, Hn, IH by done. rewrite <- app_assoc. done.
Qed.

(** A target that goes up only at its start. *)
Fixpoint ups_first (cs : list Component) : Prop :=
  match cs with
  | ParentDir :: cs | CurDir :: cs => ups_first cs
  | RootDir :: cs => is_Some (names_of cs)
  | cs => is_Some (names_of cs)
  end.

Lemma names_of_Some cs ns : names_of cs = Some ns <-> cs = Normal <$> ns.
Proof.
  unfold names_of. rewrite mapM_Some. split.
  - intros Hf. induction Hf as [|c n cs ns Hc _ IH]; [done|]. cbn. rewrite IH. by destruct c; simplify_eq/=.
  - intros ->. induction ns as [|n ns IH]; cbn; by constructor.
Qed.

Lemma push_names dir ns : push_components dir (Normal <$> ns) = Some (dir ++ ns).
Proof.
  revert dir. induction ns as [|n ns IH]; intros dir; cbn; [by rewrite app_nil_r|]. by rewrite IH, <- app_assoc.
Qed.

Lemma lexical_normals ns : lexical_names (Normal <$> ns) = ns.
Proof.
  unfold lexical_names. assert (forall out, foldl (fun out c => match c with Normal n => out ++ [n] | ParentDir => removelast out | _ => out end) out
    (Normal <$> ns) = out ++ ns) as Hout; [|apply (Hout [])].
  induction ns as [|n ns IH]; intros out; cbn; [by rewrite app_nil_r|]. by rewrite IH, <- app_assoc.
Qed.

Lemma strip_names_Some a l r : strip_names a l = Some r -> l = a ++ r.
Proof.
  revert l. induction a as [|x a IH]; intros l; cbn; [by intros [= ->]|]. destruct l as [|y l]; [done|].
  case_bool_decide; [|done]. subst. intros ?%IH. by subst.
Qed.

Lemma real_dirs_up at_ d : real_dirs at_ d -> real_dirs at_ (removelast d).
Proof.
  destruct d as [|n d _] using rev_ind; [done|]. rewrite removelast_last, real_dirs_app. by intros [? _].
Qed.

Lemma up_dir (at_ d : list string) : d <> [] -> removelast (at_ ++ d) = at_ ++ removelast d.
Proof. intros Hd. by rewrite removelast_app. Qed.

(** Where a target leads: from a real directory below the root, down plain
    names. *)
Definition leads (root cur : list string) (cs : list Component) (path : list string) : Prop :=
  exists d ns, path = d ++ ns /\ real_dirs root d /\ forall o, walks (root ++ d) (Normal <$> ns) o -> walks cur cs o.

Lemma push_leads root cs dir path : real_dirs root dir -> ups_first cs -> RootDir ∉ cs ->
  push_components dir cs = Some path -> leads root (root ++ dir) cs path.
Proof.
  revert dir. induction cs as [|c cs IH]; intros dir Hd Hu Hr Hp.
  - injection Hp as <-. exists dir, []. by rewrite app_nil_r.
  - destruct c as [| | |n]; [set_solver| | |].
    + destruct (IH dir Hd Hu ltac:(set_solver) Hp) as (d & ns & -> & Hd' & Hw). exists d, ns. split_and!; [done..|].
      intros o Ho. by apply walks_here, Hw.
    + cbn in Hp. destruct (decide (dir = [])) as [->|Hne]; [done|].
      assert (push_components (removelast dir) cs = Some path) as Hp' by (by destruct dir).
      destruct (IH (removelast dir) (real_dirs_up _ _ Hd) Hu ltac:(set_solver) Hp') as (d & ns & -> & Hd' & Hw).
      exists d, ns. split_and!; [done..|]. intros o Ho. apply walks_up. rewrite up_dir by done. by apply Hw.
    + destruct Hu as [ns Hns]. apply names_of_Some in Hns. rewrite Hns in Hp |- *. rewrite push_names in Hp. injection Hp as <-.
      by exists dir, ns.
Qed.

Lemma absolute_leads root cur ns path : real_dirs [] root -> strip_names root (lexical_names (RootDir :: (Normal <$> ns))) = Some path ->
  leads root cur (RootDir :: (Normal <$> ns)) path.
Proof.
  intros Hroot Hs. change (lexical_names (RootDir :: ?x)) with (lexical_names x) in Hs. rewrite lexical_normals in Hs.
  apply strip_names_Some in Hs as ->. exists [], path. split_and!; [done..|]. intros o Ho. rewrite app_nil_r in Ho.
  apply walks_root. rewrite fmap_app. by apply walks_dirs.
Qed.

Lemma relative_components p : is_absolute p = false -> RootDir ∉ components p.
Proof.
  assert (forall l : list string, RootDir ∉ omap component l) as Homap.
  { intros l (s & _ & Hs)%list_elem_of_omap. unfold component in Hs. destruct (_ || _); [done|]. by case_bool_decide. }
  intros Hp. unfold components. rewrite Hp. destruct (split_char _ p) as [|x l]; [by apply not_elem_of_nil|].
  rewrite not_elem_of_app. split; [|done]. case_bool_decide; [set_solver|done].
Qed.

Lemma target_leads root dir t path : real_dirs [] root -> real_dirs root dir -> ups_first (components t) ->
  (if is_absolute t then strip_names root (lexical_names (components t)) else push_components dir (components t)) = Some path ->
  leads root (root ++ dir) (components t) path.
Proof.
  intros Hroot Hd Hu. destruct (is_absolute t) eqn:Ha.
  - unfold components in *. rewrite Ha in *. destruct Hu as [ns Hns%names_of_Some]. rewrite Hns. by apply absolute_leads.
  - apply push_leads; [done..|]. by apply relative_components.
Qed.

Definition inside (root : list string) (o : Outcome) : Prop := o = Nowhere \/ exists p, o = Ends (root ++ p) RegularFile.

Context (root : list string) (Hroot : real_dirs [] root).
Context (Hlinks : forall p t, fs p = Here (Link (Some t)) -> ups_first (components t)).

Lemma hops_inside hops dir t : real_dirs root dir -> ups_first (components t) -> link_hops fs root hops dir t = true ->
  exists o, walks (root ++ dir) (components t) o /\ inside root o.
Proof.
  revert dir t. induction hops as [|hops IH]; intros dir t Hd Hu; [done|]. cbn [link_hops].
  pose proof (target_leads root dir t) as Hlead. destruct (if is_absolute t then _ else _) as [path|]; [|done].
  destruct (Hlead path Hroot Hd Hu eq_refl) as (d & ns & -> & Hreal & Hw). clear Hlead. destruct (d ++ ns) as [|x path] eqn:E; [done|]. rewrite <- E. clear x path E.
  rewrite lookup_real by done. destruct (decide (ns = [])) as [->|Hns]; [done|].
  assert (match ns with [] => LeafOther | _ => lookup_from fs (root ++ d) ns end = lookup_from fs (root ++ d) ns) as -> by (by destruct ns).
  pose proof (lookup_walks (root ++ d) ns) as Hlook. destruct (lookup_from fs (root ++ d) ns) eqn:El; try done; intros Hsafe.
  - exists (Ends ((root ++ d) ++ ns) RegularFile). split; [by apply Hw|]. right. exists (d ++ ns). by rewrite app_assoc.
  - destruct Hlook as [Hrl Hnext]. destruct (lookup_link _ _ _ El) as [p Hp]. rewrite removelast_app in Hsafe by done.
    destruct (IH (d ++ removelast ns) target) as (o & Ho & Hin); [by rewrite real_dirs_app|by eapply Hlinks|done|].
    exists o. split; [|done]. apply Hw, Hnext. by rewrite <- app_assoc.
  - exists Nowhere. split; [by apply Hw|]. by left.
Qed.

(** C12: An untracked path goes to git only when following it reaches a regular
    file inside the worktree or nothing: never a directory, a FIFO, a device, or
    anything outside, however many links are on the way (of links whose targets
    go up only at their start). *)
Theorem untracked_path_safe rel : untracked_patch fs root rel = None ->
  exists o, walks root (components rel) o /\ inside root o /\ forall o', walks root (components rel) o' -> o' = o.
Proof.
  unfold untracked_patch, plain_names. destruct (names_of (components rel)) as [names|] eqn:Hn; [|done].
  apply names_of_Some in Hn. rewrite Hn. pose proof (lookup_walks root names) as Hlook. intros Hp.
  assert (exists o, walks root (Normal <$> names) o /\ inside root o) as (o & Ho & Hin).
  { destruct (lookup_from fs root names) eqn:El; try done.
    - exists (Ends (root ++ names) RegularFile). split; [done|]. right. by exists names.
    - destruct (link_is_safe fs root names target) eqn:Hs; [|done]. destruct Hlook as [Hr Hnext].
      destruct (lookup_link _ _ _ El) as [p Hlink].
      destruct (hops_inside SYMLINK_HOPS (removelast names) target) as (o & Ho & Hin); [done|by eapply Hlinks|done|].
      exists o. split; [by apply Hnext|done].
    - exists Nowhere. split; [done|by left]. }
  exists o. split_and!; [done..|]. intros o' Ho'. by eapply walks_det.
Qed.
End walks.

(** A worktree holding [link -> dir/../fifo], [dir] being a link to a
    directory elsewhere: the target folds to the name [fifo] of the worktree. *)
Definition detour : FileSystem := fun p =>
  if bool_decide (p ∈ [["w"]; ["tmp"]; ["tmp"; "d"]]) then Here Directory
  else if bool_decide (p = ["w"; "link"]) then Here (Link (Some "dir/../fifo"))
  else if bool_decide (p = ["w"; "dir"]) then Here (Link (Some "/tmp/d"))
  else if bool_decide (p = ["w"; "fifo"]) then Here RegularFile
  else if bool_decide (p = ["tmp"; "fifo"]) then Here Special
  else Gone.

Lemma folded_link_escapes :
  untracked_patch detour ["w"] "link" = None /\ walks detour ["w"] (components "link") (Ends ["tmp"; "fifo"] Special).
Proof.
  split; [by vm_compute|]. change (components "link") with [Normal "link"].
  eapply walks_link; [by vm_compute|]. change (components "dir/../fifo" ++ []) with [Normal "dir"; ParentDir; Normal "fifo"].
  eapply walks_link; [by vm_compute|]. change (components "/tmp/d" ++ ?x) with (RootDir :: Normal "tmp" :: Normal "d" :: x).
  apply walks_root, walks_into; [by vm_compute|]. apply walks_into; [by vm_compute|].
  apply walks_up. apply (walks_leaf detour ["tmp"] "fifo" Special); [by vm_compute|by right].
Qed.

(** The same worktree, the link's target without the detour. *)
Definition plain_tree : FileSystem := fun p =>
  if bool_decide (p ∈ [["w"]; ["w"; "sub"]]) then Here Directory
  else if bool_decide (p = ["w"; "sub"; "link"]) then Here (Link (Some "../file"))
  else if bool_decide (p = ["w"; "file"]) then Here RegularFile
  else Gone.

Lemma untracked_path_safe_witness :
  untracked_patch plain_tree ["w"] "sub/link" = None /\
  exists o, walks plain_tree ["w"] (components "sub/link") o /\ inside ["w"] o /\
    forall o', walks plain_tree ["w"] (components "sub/link") o' -> o' = o.
Proof.
  split; [vm_compute; reflexivity|]. apply (untracked_path_safe plain_tree ["w"]).
  - split; [vm_compute; reflexivity|exact I].
  - intros p t Hp. unfold plain_tree in Hp. destruct (bool_decide _); [discriminate Hp|]. destruct (bool_decide _).
    + injection Hp as <-. exists ["file"]. vm_compute. reflexivity.
    + destruct (bool_decide _); discriminate Hp.
  - vm_compute. reflexivity.
Defined.

(** ** Reading back what was quoted *)

(** git's C-style unquoting of what is between the quotes. *)
Definition octal_value (c : ascii) : option N :=
  if byte_in 48 55 c then Some (N_of_ascii c - 48)%N else None.
Definition escape_value (c : ascii) : option N :=
  if Ascii.eqb c "a"%char then Some 7%N else if Ascii.eqb c "b"%char then Some 8%N else if Ascii.eqb c "t"%char then Some 9%N
  else if Ascii.eqb c "n"%char then Some 10%N else if Ascii.eqb c "v"%char then Some 11%N else if Ascii.eqb c "f"%char then Some 12%N
  else if Ascii.eqb c "r"%char then Some 13%N
  else if Ascii.eqb c (ascii_of_N 34) || Ascii.eqb c (ascii_of_N 92) then Some (N_of_ascii c) else None.

Fixpoint unquote_body (s : string) : option string :=
  match s with
  | EmptyString => None
  | String a r =>
      if Ascii.eqb a (ascii_of_N 34) then if is_empty r then Some EmptyString else None
      else if Ascii.eqb a (ascii_of_N 92) then
        match r with
        | String b r1 =>
            match escape_value b with
            | Some n => String (ascii_of_N n) <$> unquote_body r1
            | None =>
                match r1 with
                | String c (String d r3) =>
                    x ← octal_value b; y ← octal_value c; z ← octal_value d;
                    String (ascii_of_N (x * 64 + y * 8 + z)) <$> unquote_body r3
                | _ => None
                end
            end
        | EmptyString => None
        end
      else String a <$> unquote_body r
  end.

(** A header's path: quoted, or as it is. *)
Definition git_unquote (s : string) : option string :=
  match s with
  | String a r => if Ascii.eqb a (ascii_of_N 34) then unquote_body r else Some s
  | EmptyString => Some EmptyString
  end.

Lemma unquote_byte b s : unquote_body (git_escape_byte b +:+ s) = String b <$> unquote_body s.
Proof. destruct b as [[] [] [] [] [] [] [] []]; reflexivity. Qed.

Lemma unquote_escaped s : unquote_body (git_escape s +:+ quote) = Some s.
Proof.
  induction s as [|b s IH]; [done|]. cbn [git_escape]. by rewrite app_assoc_string, unquote_byte, IH.
Qed.

Lemma unquote_plain p s : bytes_all (fun b => negb (git_needs_quotes b)) p = true -> unquote_body (p +:+ s) = (fun r => p +:+ r) <$> unquote_body s.
Proof.
  induction p as [|b p IH]; cbn [bytes_all].
  { intros _. rewrite app_nil_string. by destruct (unquote_body s). }
  intros [Hb Hp]%andb_true_iff.
  rewrite app_cons_string. unfold git_needs_quotes in Hb. rewrite !negb_orb, negb_involutive in Hb. destruct_bools.
  cbn [unquote_body]. repeat match goal with E : Ascii.eqb b _ = false |- _ => rewrite E; clear E end. rewrite IH by done.
  by destruct (unquote_body s).
Qed.

(** A header line's path reads back as the path it was printed for. *)
Lemma git_quoted_back prefix path : bytes_all (fun b => negb (git_needs_quotes b)) prefix = true -> prefix <> EmptyString ->
  git_unquote (git_quoted prefix path) = Some (prefix +:+ path).
Proof.
  intros Hp Hne. unfold git_quoted. destruct (bytes_any git_needs_quotes path); cbn [negb].
  - change (quote +:+ ?x) with (String (ascii_of_N 34) x). unfold git_unquote. rewrite Ascii.eqb_refl.
    by rewrite unquote_plain, unquote_escaped.
  - destruct prefix as [|a prefix]; [done|]. cbn [bytes_all] in Hp. apply andb_true_iff in Hp as [Ha _].
    unfold git_needs_quotes in Ha. rewrite !negb_orb in Ha. destruct_bools. rewrite app_cons_string. unfold git_unquote.
    by repeat match goal with E : Ascii.eqb a _ = false |- _ => rewrite E; clear E end.
Qed.
