(* ===== verification/Version.v ===== *)
(** A workspace's version ([crates/balerix-runtime/src/inspect.rs]): the paths
    the fingerprint covers, what is hashed, the runs the patch script's
    arguments are cut into, and the filter probe. *)

From S2P Require Import Prelude Str BTree Bytes Rules Paths Names Inspect.

(** ** Decimal numbers, written *)

(** [i64] as [Display]. *)
Definition show_i64 (n : Z) : string :=
  if (n <? 0)%Z then "-" +:+ pretty (Z.abs_N n) else pretty (Z.abs_N n).
Fixpoint zeros (n : nat) : string := match n with O => EmptyString | S n => String "0"%char (zeros n) end.
(** [{n:09}]: the sign first, then zeros up to the width. *)
Definition show_width9 (n : Z) : string :=
  let digits := pretty (Z.abs_N n) in
  if (n <? 0)%Z then "-" +:+ zeros (8 - String.length digits) +:+ digits else zeros (9 - String.length digits) +:+ digits.

Lemma decimal_zeros k s : decimal 0 (zeros k +:+ s) = decimal 0 s.
Proof. by induction k. Qed.

Lemma show_sign (g f : N -> string) n m : (forall n, bytes_all is_ascii_digit (f n) = true) ->
  (forall n m, g n = g m -> n = m) -> (forall n m, f n = f m -> n = m) ->
  (if (n <? 0)%Z then "-" +:+ g (Z.abs_N n) else f (Z.abs_N n)) = (if (m <? 0)%Z then "-" +:+ g (Z.abs_N m) else f (Z.abs_N m)) -> n = m.
Proof.
  intros Hf Hg Hinj. destruct (Z.ltb_spec n 0) as [Hn|Hn], (Z.ltb_spec m 0) as [Hm|Hm]; intros Heq.
  - apply app_inj_l_string in Heq. apply Hg in Heq. lia.
  - exfalso. pose proof (Hf (Z.abs_N m)) as Hd. by rewrite <- Heq in Hd.
  - exfalso. pose proof (Hf (Z.abs_N n)) as Hd. by rewrite Heq in Hd.
  - apply Hinj in Heq. lia.
Qed.

Lemma pretty_inj (n m : N) : pretty n = pretty m -> n = m.
Proof. intros Heq. pose proof (decimal_pretty n) as Hn. rewrite Heq, decimal_pretty in Hn. by injection Hn. Qed.

Lemma zeros_inj k (n m : N) : zeros (k - String.length (pretty n)) +:+ pretty n = zeros (k - String.length (pretty m)) +:+ pretty m -> n = m.
Proof.
  intros Heq. apply (f_equal (decimal 0)) in Heq. rewrite !decimal_zeros, !decimal_pretty in Heq. by injection Heq.
Qed.

#[export] Instance show_i64_inj : Inj (=) (=) show_i64.
Proof. intros n m. apply (show_sign pretty pretty); [apply pretty_digits|apply pretty_inj..]. Qed.

Lemma zeros_digits k s : bytes_all is_ascii_digit s = true -> bytes_all is_ascii_digit (zeros k +:+ s) = true.
Proof. intros Hs. induction k; [done|]. cbn [zeros]. by rewrite app_cons_string. Qed.

#[export] Instance show_width9_inj : Inj (=) (=) show_width9.
Proof.
  intros n m. apply (show_sign (fun n => zeros (8 - String.length (pretty n)) +:+ pretty n) (fun n => zeros (9 - String.length (pretty n)) +:+ pretty n));
    [|apply zeros_inj..]. intros k. apply zeros_digits, pretty_digits.
Qed.

Lemma shown_lack c n : is_ascii_digit c = false -> c <> "-"%char -> lacks c (show_i64 n) = true /\ lacks c (show_width9 n) = true.
Proof.
  intros Hc Hm. assert (lacks c "-" = true) as Hl.
  { rewrite lacks_cons. by rewrite (proj2 (Ascii.eqb_neq "-"%char c)) by congruence. }
  unfold show_i64, show_width9. destruct (n <? 0)%Z; rewrite ?lacks_app, ?Hl; cbn [andb]; rewrite <- ?lacks_app;
    split; apply digits_lack; try done; try apply zeros_digits; apply pretty_digits.
Qed.

(** ** The fingerprint *)

Record PathStat := mkPathStat {
  ps_path : string;
  (** size, mtime, mtime_nsec *)
  ps_stat : option (N * Z * Z);
}.

Definition VERSION_PATH_CAP : nat := 2000.

(** What [Sha256] is updated with, in order. *)
Definition fingerprint_entry (e : PathStat) : string :=
  ps_path e +:+ nul_end +:+
  match ps_stat e with
  | Some (size, mtime, nsec) => pretty size +:+ nul_end +:+ show_i64 mtime +:+ "." +:+ show_width9 nsec
  | None => "missing"
  end +:+ nul_end.

Definition fingerprint_input (head merge_base : string) (entries : list PathStat) (total : nat) : string :=
  head +:+ nul_end +:+ merge_base +:+ nul_end +:+ concat (fingerprint_entry <$> entries) +:+
  (if length entries <? total then nul_end +:+ "capped" +:+ nul_end +:+ pretty (N.of_nat total) +:+ nul_end else EmptyString).

Definition fingerprint_of (sha256_hex : string -> string) (head merge_base : string) (entries : list PathStat) (total : nat) : string :=
  sha256_hex (fingerprint_input head merge_base entries total).

(** The input's records. *)
Definition stat_texts (st : option (N * Z * Z)) : list string :=
  match st with
  | Some (size, mtime, nsec) => [pretty size; show_i64 mtime +:+ "." +:+ show_width9 nsec]
  | None => ["missing"]
  end.
Definition stat_records (e : PathStat) : list string := ps_path e :: stat_texts (ps_stat e).
Definition fingerprint_records (head merge_base : string) (entries : list PathStat) (total : nat) : list string :=
  head :: merge_base :: mbind stat_records entries ++
  (if length entries <? total then [EmptyString; "capped"; pretty (N.of_nat total)] else []).

Lemma terminated_record r records : terminated (r :: records) = r +:+ nul_end +:+ terminated records.
Proof. unfold terminated. cbn [fmap list_fmap concat]. by rewrite app_assoc_string. Qed.

Lemma terminated_app a b : terminated (a ++ b) = terminated a +:+ terminated b.
Proof. unfold terminated. by rewrite fmap_app, Patch.concat_both. Qed.

Lemma fingerprint_entries entries : concat (fingerprint_entry <$> entries) = terminated (mbind stat_records entries).
Proof.
  induction entries as [|e es IH]; [done|]. cbn [fmap list_fmap concat mbind list_bind]. rewrite terminated_app, IH. f_equal.
  unfold fingerprint_entry, stat_records, stat_texts, terminated. destruct (ps_stat e) as [[[size mt] ns]|]; cbn [fmap list_fmap concat];
    by rewrite ?app_nil_r_string, ?app_assoc_string.
Qed.

Lemma fingerprint_input_records head mb entries total :
  fingerprint_input head mb entries total = terminated (fingerprint_records head mb entries total).
Proof.
  unfold fingerprint_input, fingerprint_records. rewrite fingerprint_entries.
  rewrite !terminated_record, terminated_app.
  destruct (_ <? _); [|done].
  assert (terminated [EmptyString; "capped"; pretty (N.of_nat total)] = nul_end +:+ "capped" +:+ nul_end +:+ pretty (N.of_nat total) +:+ nul_end) as ->; [|done].
  unfold terminated. cbn [fmap list_fmap concat]. by rewrite ?app_nil_r_string, ?app_assoc_string.
Qed.

Definition stat_ok (e : PathStat) : Prop := record_ok (ps_path e).

Lemma stat_records_lack e : stat_ok e -> Forall (fun r => lacks nul r = true) (stat_records e).
Proof.
  intros [_ Hp]. unfold stat_records. constructor; [done|]. destruct (ps_stat e) as [[[size mt] ns]|]; [|by repeat constructor].
  constructor; [apply digits_lack; [done|apply pretty_digits]|]. constructor; [|done].
  destruct (shown_lack nul mt) as [H1 _]; [done..|]. destruct (shown_lack nul ns) as [_ H2]; [done..|]. by rewrite !lacks_app, H1, H2.
Qed.

Lemma stat_texts_inj st st' (X Y : list string) : stat_texts st ++ X = stat_texts st' ++ Y -> st = st' /\ X = Y.
Proof.
  assert (forall (size : N) , pretty size <> "missing") as Hm.
  { intros size Heq. pose proof (pretty_digits size) as Hd. by rewrite Heq in Hd. }
  destruct st as [[[size mt] ns]|], st' as [[[size' mt'] ns']|]; cbn [stat_texts app]; intros Heq.
  - injection Heq as Hsize Htime ->. apply pretty_inj in Hsize as ->. split; [|done].
    apply (f_equal (split_once "."%char)) in Htime. change ("." +:+ ?x) with (String "."%char x) in Htime.
    rewrite !split_once_app in Htime by (by apply shown_lack).
    injection Htime as Hmt%(inj _) Hns%(inj _). by subst.
  - injection Heq as Hsize _. by apply Hm in Hsize.
  - injection Heq as Hsize _. by symmetry in Hsize; apply Hm in Hsize.
  - by injection Heq.
Qed.

Lemma records_inj_from es es' (X Y : list string) : Forall stat_ok es -> Forall stat_ok es' ->
  (forall x, head X = Some x -> x = EmptyString) -> (forall y, head Y = Some y -> y = EmptyString) ->
  mbind stat_records es ++ X = mbind stat_records es' ++ Y -> es = es' /\ X = Y.
Proof.
  intros Hes Hes' HX HY. revert es' Hes'. induction Hes as [|e es [He _] _ IH]; intros es' Hes' Heq.
  - destruct Hes' as [|e' es' [He' _] _]; [done|]. exfalso. cbn [mbind list_bind app] in Heq. rewrite Heq in HX.
    by apply He', HX.
  - destruct Hes' as [|e' es' [He' _] Hes'].
    { exfalso. cbn [mbind list_bind app] in Heq. rewrite <- Heq in HY. by apply He, HY. }
    destruct e as [p st], e' as [p' st']. cbn [mbind list_bind] in Heq. rewrite <- !app_assoc in Heq. unfold stat_records at 1 3 in Heq.
    cbn [ps_path ps_stat app] in Heq. injection Heq as -> [-> Hrest]%stat_texts_inj. by destruct (IH es' Hes' Hrest) as [-> ->].
Qed.

(** The fingerprint is taken over everything a version shows: equal hash
    inputs mean the same HEAD, merge-base, paths, sizes and times, and, past the
    cap, the same number of paths. *)
Theorem fingerprint_input_inj head mb es total head' mb' es' total' :
  lacks nul head = true -> lacks nul mb = true -> Forall stat_ok es ->
  lacks nul head' = true -> lacks nul mb' = true -> Forall stat_ok es' ->
  fingerprint_input head mb es total = fingerprint_input head' mb' es' total' ->
  head = head' /\ mb = mb' /\ es = es' /\ (total = total' \/ total <= length es /\ total' <= length es').
Proof.
  intros Hh Hm Hes Hh' Hm' Hes' Heq. rewrite !fingerprint_input_records in Heq.
  assert (forall h m l t, lacks nul h = true -> lacks nul m = true -> Forall stat_ok l ->
    Forall (fun r => lacks nul r = true) (fingerprint_records h m l t)) as Hlack.
  { intros h m l t Hhl Hml Hl. unfold fingerprint_records. constructor; [done|]. constructor; [done|]. apply Forall_app. split.
    - induction Hl as [|e l He _ IH]; [done|]. cbn [mbind list_bind]. apply Forall_app. split; [by apply stat_records_lack|done].
    - destruct (_ <? _); [|done]. constructor; [done|]. constructor; [done|]. constructor; [|done]. apply digits_lack, pretty_digits. done. }
  apply (f_equal (split_char nul)) in Heq. rewrite <- (app_nil_r_string (terminated _)) in Heq.
  rewrite <- (app_nil_r_string (terminated (fingerprint_records head' mb' es' total'))) in Heq.
  rewrite !split_terminated in Heq by (by apply Hlack). apply app_inj_2 in Heq as [Heq _]; [|done].
  injection Heq as -> -> Heq. split; [done|]. split; [done|].
  assert (forall (b : bool) (t : nat) x, head (if b then [EmptyString; "capped"; pretty (N.of_nat t)] else []) = Some x -> x = EmptyString) as Hhead.
  { intros b t x. destruct b; [|done]. cbn. congruence. }
  apply records_inj_from in Heq as [-> Ht]; [|done|done|apply Hhead..].
  split; [done|]. destruct (Nat.ltb_spec (length es') total), (Nat.ltb_spec (length es') total'); try done; [left|right; lia].
  injection Ht as Ht. apply pretty_inj in Ht. lia.
Qed.

(** ** The paths that count *)

Definition stat_le (a b : PathStat) : Prop := kle (ps_path a) (ps_path b).
#[export] Instance stat_le_dec : RelDecision stat_le.
Proof. intros a b. apply kle_dec. Defined.
#[export] Instance stat_le_trans : Transitive stat_le.
Proof. intros a b c. apply kle_trans. Qed.
#[export] Instance stat_le_total : Total stat_le.
Proof. intros a b. apply kle_total. Qed.

Section stats.
Context `{Unicode}.
(** [symlink_metadata] of the path joined onto the worktree, its size and
    times. *)
Context (stat : string -> option (N * Z * Z)).

(** The tracked changes, then the other untracked paths, each in order. *)
Definition counted (tracked untracked : gset string) : list string :=
  filter (fun p => is_ok (check_path p) = true) (elems tracked ++ filter (fun p => p ∉ tracked) (elems untracked)).

Definition stat_paths (workspace : string) (tracked untracked : gset string) : list PathStat * nat :=
  let paths := counted tracked untracked in
  (merge_sort stat_le ((fun p => {| ps_path := p; ps_stat := stat (path_join workspace p) |}) <$> take VERSION_PATH_CAP paths),
   length paths).

Lemma counted_elem tracked untracked p : p ∈ counted tracked untracked <-> p ∈ tracked ∪ untracked /\ is_ok (check_path p) = true.
Proof.
  unfold counted. rewrite list_elem_of_filter, elem_of_app, list_elem_of_filter, !elem_of_elems, elem_of_union.
  destruct (decide (p ∈ tracked)); naive_solver.
Qed.

Lemma counted_NoDup tracked untracked : NoDup (counted tracked untracked).
Proof.
  unfold counted. apply NoDup_filter, NoDup_app. split; [apply elems_NoDup|]. split.
  - intros p Hp%elem_of_elems. rewrite list_elem_of_filter. naive_solver.
  - apply NoDup_filter, elems_NoDup.
Qed.

Lemma elem_take {A} (l : list A) n x : x ∈ take n l -> x ∈ l.
Proof. intros Hx. rewrite <- (take_drop n l). apply elem_of_app. by left. Qed.

Section entries.
Context (ws : string) (tracked untracked : gset string).
Let es := (stat_paths ws tracked untracked).1.

Lemma stat_paths_elem e : e ∈ es <-> e = {| ps_path := ps_path e; ps_stat := stat (path_join ws (ps_path e)) |} /\
  ps_path e ∈ take VERSION_PATH_CAP (counted tracked untracked).
Proof.
  unfold es, stat_paths. cbn [fst]. rewrite merge_sort_Permutation, list_elem_of_fmap. split.
  - intros (p & -> & Hp). done.
  - intros [-> Hp]. by exists (ps_path e).
Qed.

Lemma stat_paths_sorted : StronglySorted stat_le es.
Proof. apply StronglySorted_merge_sort; apply _. Qed.

Lemma stat_paths_nodup : NoDup (ps_path <$> es).
Proof.
  unfold es, stat_paths. cbn [fst]. rewrite merge_sort_Permutation, <- list_fmap_compose.
  change (NoDup (id <$> take VERSION_PATH_CAP (counted tracked untracked))). rewrite list_fmap_id.
  eapply sublist_NoDup; [apply counted_NoDup|apply sublist_take].
Qed.

Lemma stat_paths_length : length es = Nat.min VERSION_PATH_CAP (length (counted tracked untracked)).
Proof. unfold es, stat_paths. cbn [fst]. by rewrite merge_sort_Permutation, length_fmap, length_take. Qed.
End entries.

(** Tracked paths first: an untracked one counts only with all of them. *)
Lemma tracked_first tracked untracked p : p ∉ tracked -> p ∈ take VERSION_PATH_CAP (counted tracked untracked) ->
  forall t, t ∈ tracked -> is_ok (check_path t) = true -> t ∈ take VERSION_PATH_CAP (counted tracked untracked).
Proof.
  unfold counted. rewrite filter_app. set (a := filter _ (elems tracked)). set (b := filter _ (filter _ _)).
  intros Hp Hin t Ht Hok. assert (t ∈ a) as Hta by (apply list_elem_of_filter; by rewrite elem_of_elems).
  rewrite take_app in Hin |- *. apply elem_of_app in Hin as [Hin%elem_take|Hin].
  - apply list_elem_of_filter in Hin as [_ Hin%elem_of_elems]. done.
  - destruct (decide (VERSION_PATH_CAP - length a = 0)) as [Hz|Hz]; [rewrite Hz in Hin; by apply not_elem_of_nil in Hin|].
    apply elem_of_app. left. rewrite take_ge by lia. done.
Qed.

(** What a version stats: every counted path up to the cap, each once and
    in order, tracked changes before untracked ones; within the cap the entries
    depend on the paths alone, whichever side each is on. *)
Theorem stat_paths_cover ws tracked untracked :
  let '(es, total) := stat_paths ws tracked untracked in
  StronglySorted stat_le es /\ NoDup (ps_path <$> es) /\ length es = Nat.min VERSION_PATH_CAP total /\
  (forall e, e ∈ es -> ps_stat e = stat (path_join ws (ps_path e)) /\ ps_path e ∈ tracked ∪ untracked /\ is_ok (check_path (ps_path e)) = true) /\
  (forall e p, e ∈ es -> ps_path e ∉ tracked -> p ∈ tracked -> is_ok (check_path p) = true -> p ∈ (ps_path <$> es)) /\
  (total <= VERSION_PATH_CAP -> forall tracked' untracked', tracked' ∪ untracked' = tracked ∪ untracked ->
     stat_paths ws tracked' untracked' = (es, total)).
Proof.
  pose proof (stat_paths_sorted ws tracked untracked) as Hs. pose proof (stat_paths_nodup ws tracked untracked) as Hn.
  pose proof (stat_paths_length ws tracked untracked) as Hl. pose proof (stat_paths_elem ws tracked untracked) as He.
  destruct (stat_paths ws tracked untracked) as [es total] eqn:E. injection E as Ees Etotal. cbn [fst] in *. split_and!; [done..| | | |].
  - by rewrite <- Etotal.
  - intros e [Heq Hp%elem_take%counted_elem]%He. split; [by rewrite Heq at 1|done].
  - intros e p [_ Hin]%He Hnt Ht Hok. apply list_elem_of_fmap.
    exists {| ps_path := p; ps_stat := stat (path_join ws p) |}. split; [done|]. apply He. split; [done|]. by eapply tracked_first.
  - intros Hcap tracked' untracked' Hu.
    assert (counted tracked' untracked' ≡ₚ counted tracked untracked) as Hperm.
    { apply NoDup_Permutation; [apply counted_NoDup..|]. intros p. by rewrite !counted_elem, Hu. }
    rewrite <- Ees, <- Etotal. unfold stat_paths. f_equal; [|by rewrite Hperm].
    rewrite !take_ge by (rewrite ?Hperm; lia).
    apply (StronglySorted_unique_strong stat_le).
    + intros a b Ha Hb Hab Hba. rewrite merge_sort_Permutation in Ha, Hb.
      apply list_elem_of_fmap in Ha as (p & -> & _), Hb as (q & -> & _). f_equal; [by apply (anti_symm kle)|].
      do 2 f_equal. by apply (anti_symm kle).
    + apply StronglySorted_merge_sort; apply _.
    + apply StronglySorted_merge_sort; apply _.
    + by rewrite !merge_sort_Permutation, Hperm.
Qed.
End stats.

(** ** The patch script's arguments *)

Definition paths_len (paths : list string) : N := foldr (fun p n => len p + 1 + n)%N 0%N paths.

(** The runs; [run] is the one being filled, at [bytes] of the budget. *)
Fixpoint batches_from (budget : N) (run : list string) (bytes : N) (paths : list string) : list (list string) :=
  match paths with
  | [] => if bool_decide (run = []) then [] else [run]
  | p :: paths =>
      if (budget <? bytes + len p + 1)%N && (negb (bool_decide (run = [])) || (0 <? bytes)%N)
      then run :: batches_from budget [p] (len p + 1) paths
      else batches_from budget (run ++ [p]) (bytes + len p + 1) paths
  end.

Definition batches (paths : list string) (budget used : N) : list (list string) := batches_from budget [] used paths.

(** A run within the budget beside [used] bytes, or a path over it alone, or none. *)
Definition run_fits (budget used : N) (run : list string) : Prop :=
  (used + paths_len run <= budget)%N \/ run = [] \/ used = 0%N /\ length run = 1.

Lemma paths_len_app a b : paths_len (a ++ b) = (paths_len a + paths_len b)%N.
Proof. induction a as [|x a IH]; [done|]. cbn [app paths_len foldr]. unfold paths_len in *. lia. Qed.

Lemma batches_head budget run bytes paths rest : run <> [] -> batches_from budget run bytes paths <> [] :: rest.
Proof.
  revert run bytes. induction paths as [|p paths IH]; intros run bytes Hrun; cbn [batches_from]; [by rewrite bool_decide_false; [intros [= ?]|]|].
  destruct (_ && _); [by intros [= ?]|]. apply IH. by destruct run.
Qed.

Lemma batches_from_spec budget used run paths : run_fits budget used run ->
  mjoin (batches_from budget run (used + paths_len run) paths) = run ++ paths /\
  match batches_from budget run (used + paths_len run) paths with
  | [] => True
  | first :: rest => run_fits budget used first /\ Forall (fun r => run_fits budget 0 r /\ r <> []) rest
  end.
Proof.
  revert used run. induction paths as [|p paths IH]; intros used run Hrun; cbn [batches_from].
  - rewrite app_nil_r. case_bool_decide as Hr; [by rewrite Hr|]. cbn. rewrite app_nil_r. split; [done|]. by split.
  - destruct (N.ltb_spec budget (used + paths_len run + len p + 1)) as [Hover|Hfit];
      [destruct (negb (bool_decide (run = [])) || (0 <? used + paths_len run)%N) eqn:Hcut|]; cbn [andb].
    + assert (run_fits budget 0 [p]) as Hp by (right; right; done).
      destruct (IH 0%N [p] Hp) as [Hj Hf]. replace (0 + paths_len [p])%N with (len p + 1)%N in * by (cbn; lia).
      split; [change (mjoin (run :: ?x)) with (run ++ mjoin x); by rewrite Hj|]. split; [done|].
      destruct (batches_from budget [p] _ paths) as [|first rest] eqn:E; [done|]. destruct Hf as [Hf Hr]. constructor; [|done].
      split; [done|]. intros ->. by apply batches_head in E.
    + apply orb_false_iff in Hcut as [Hr%negb_false_iff%bool_decide_eq_true Hb%N.ltb_ge]. subst run. cbn [paths_len foldr] in *.
      destruct (IH used [p]) as [Hj Hf]; [right; right; split; [lia|done]|]. cbn [paths_len foldr app] in *.
      replace (used + (len p + 1 + 0))%N with (used + 0 + len p + 1)%N in * by lia. done.
    + destruct (IH used (run ++ [p])) as [Hj Hf]; [left; rewrite paths_len_app; cbn; lia|].
      rewrite paths_len_app in *. cbn [paths_len foldr] in *. rewrite <- app_assoc in Hj.
      replace (used + (paths_len run + (len p + 1 + 0)))%N with (used + paths_len run + len p + 1)%N in * by lia. done.
Qed.

(** ** The filter probe *)

Definition is_filter_key (key : string) : bool :=
  let between prefix suffixes :=
    match strip_prefix prefix key with Some rest => existsb (fun s => ends_with rest s) suffixes | None => false end in
  between "filter." [".clean"; ".smudge"; ".process"] || between "remote." [".promisor"] ||
  bool_decide (key = "extensions.worktreeconfig") || bool_decide (key = "extensions.partialclone").

Definition filter_key (probe : string) : option string :=
  snd <$> list_find (fun k => is_filter_key k = true) (trim <$> lines probe).

(** The keys [FILTER_KEYS] matches: [filter.<any>.clean] and the others. *)
Inductive filter_keys : string -> Prop :=
| key_filter x s : s ∈ ["clean"; "smudge"; "process"] -> filter_keys ("filter." +:+ x +:+ "." +:+ s)
| key_promisor x : filter_keys ("remote." +:+ x +:+ ".promisor")
| key_worktree : filter_keys "extensions.worktreeconfig"
| key_partial : filter_keys "extensions.partialclone".

Lemma between_spec prefix suffixes key :
  match strip_prefix prefix key with Some rest => existsb (fun s => ends_with rest s) suffixes | None => false end = true <->
  exists x s, s ∈ suffixes /\ key = prefix +:+ x +:+ s.
Proof.
  destruct (strip_prefix prefix key) as [rest|] eqn:E.
  - apply strip_prefix_Some in E as ->. rewrite existsb_exists. split.
    + intros (s & Hs%list_elem_of_In & [x ->]%ends_with_spec). by exists x, s.
    + intros (x & s & Hs & Heq%app_inj_l_string). exists s. split; [by apply list_elem_of_In|]. apply ends_with_spec. by exists x.
  - split; [done|]. intros (x & s & _ & ->). by rewrite strip_prefix_app in E.
Qed.

Lemma is_filter_key_spec key : is_filter_key key = true <-> filter_keys key.
Proof.
  unfold is_filter_key. rewrite !orb_true_iff, !between_spec, !bool_decide_eq_true. split.
  - intros [[[(x & s & Hs & ->)|(x & s & Hs & ->)]| ->]| ->].
    + assert (exists t, s = "." +:+ t /\ t ∈ ["clean"; "smudge"; "process"]) as (t & -> & Ht).
      { repeat (apply elem_of_cons in Hs as [->|Hs]; [eexists; split; [reflexivity|set_solver]|]). by apply not_elem_of_nil in Hs. }
      by constructor.
    + apply list_elem_of_singleton in Hs as ->. constructor.
    + constructor.
    + constructor.
  - intros [x s Hs|x| |]; [left; left; left|left; left; right|left; right; done|by right].
    + exists x, ("." +:+ s). split; [|done].
      repeat (apply elem_of_cons in Hs as [->|Hs]; [set_solver|]). by apply not_elem_of_nil in Hs.
    + exists x, ".promisor". split; [set_solver|done].
Qed.

Definition VERSION_FILTER : Z := 80.
Definition GIT_CANNOT_RUN : Z := 85.

Definition version_stage (code : Z) : option string :=
  if (code =? 81)%Z || (code =? GIT_CANNOT_RUN)%Z then Some "config"
  else if (code =? 82)%Z then Some "status"
  else if (code =? 83)%Z then Some "merge-base"
  else if (code =? 84)%Z then Some "diff"
  else None.

(** Every path is in one run, in order, and no run is over the budget but one
    path alone, or pathspecs that were over it already. *)
Lemma batches_cover paths budget used : mjoin (batches paths budget used) = paths /\
  match batches paths budget used with
  | [] => True
  | first :: rest => run_fits budget used first /\ Forall (fun r => run_fits budget 0 r /\ r <> []) rest
  end.
Proof.
  pose proof (batches_from_spec budget used [] paths) as Hb. cbn [paths_len foldr] in Hb. rewrite N.add_0_r in Hb.
  apply Hb. right. by left.
Qed.
