(* ===== verification/Cmd.v ===== *)
(** Subprocesses as the runtime runs them ([crates/balerix-runtime/src/tools.rs]):
    the command built, the environment its child gets, the tail of its stderr,
    and what an exit is taken for. The process itself is the world's. *)

From S2P Require Import Prelude Str BTree Bytes Execute Layout Sandbox Launch.

(** ** [StderrTail] *)

Record StderrTail := mkTail { tail_buf : string; tail_dropped : N; tail_cap : N }.

Definition new_tail (cap : N) : StderrTail := {| tail_buf := EmptyString; tail_dropped := 0; tail_cap := cap |}.

(** [&bytes[n..]]. *)
Fixpoint drop_bytes (n : N) (s : string) : string :=
  match s with
  | EmptyString => EmptyString
  | String c r => if (n =? 0)%N then s else drop_bytes (N.pred n) r
  end.

Definition tail_push (t : StderrTail) (bytes : string) : StderrTail :=
  let skip := if (tail_cap t <? len bytes)%N then (len bytes - tail_cap t)%N else 0%N in
  let buf := tail_buf t +:+ drop_bytes skip bytes in
  let excess := if (tail_cap t <? len buf)%N then (len buf - tail_cap t)%N else 0%N in
  {| tail_buf := drop_bytes excess buf; tail_dropped := tail_dropped t + skip + excess; tail_cap := tail_cap t |}.

Definition ellipsis : string := String (ascii_of_N 226) (String (ascii_of_N 128) (String (ascii_of_N 166) EmptyString)).

Definition tail_string (t : StderrTail) : string :=
  let kept := from_utf8_lossy (tail_buf t) in
  if (tail_dropped t =? 0)%N then kept
  else "[" +:+ ellipsis +:+ " " +:+ pretty (tail_dropped t) +:+ " bytes of stderr dropped]" +:+ String newline_byte EmptyString +:+ kept.

Definition STDERR_LIMIT : N := 64 * 1024.
Definition read_tail (cap : N) (chunks : list string) : StderrTail := foldl tail_push (new_tail cap) chunks.

Lemma drop_bytes_len n s : len (drop_bytes n s) = (len s - n)%N.
Proof.
  revert n. induction s as [|c s IH]; intros n; [done|]. cbn [drop_bytes]. destruct (N.eqb_spec n 0) as [->|Hn]; [lia|].
  rewrite IH. unfold len. cbn [String.length]. lia.
Qed.

Lemma drop_bytes_app n s t : drop_bytes n (s +:+ t) = drop_bytes n s +:+ drop_bytes (n - len s) t.
Proof.
  revert n. induction s as [|c s IH]; intros n.
  - rewrite app_nil_string. cbn. by rewrite N.sub_0_r.
  - rewrite app_cons_string. cbn [drop_bytes]. destruct (N.eqb_spec n 0) as [->|Hn].
    + rewrite app_cons_string. do 2 f_equal. by destruct t.
    + rewrite IH. f_equal. f_equal. unfold len. cbn [String.length]. lia.
Qed.

Lemma drop_bytes_0 s : drop_bytes 0 s = s.
Proof. by destruct s. Qed.

Lemma drop_bytes_drop n m s : drop_bytes n (drop_bytes m s) = drop_bytes (m + n) s.
Proof.
  revert m. induction s as [|c s IH]; intros m; [done|]. cbn [drop_bytes]. destruct (N.eqb_spec m 0) as [->|Hm].
  - cbn [N.add]. done.
  - rewrite IH. destruct (N.eqb_spec (m + n) 0); [lia|]. f_equal. lia.
Qed.

Lemma drop_bytes_all n s : (len s <= n)%N -> drop_bytes n s = EmptyString.
Proof.
  intros Hn. pose proof (drop_bytes_len n s) as Hl. destruct (drop_bytes n s); [done|]. unfold len in *. cbn [String.length] in Hl. lia.
Qed.

Lemma tail_push_spec t s bytes : (len (tail_buf t) <= tail_cap t)%N -> tail_buf t = drop_bytes (tail_dropped t) s ->
  (tail_dropped t = len s - tail_cap t)%N ->
  let t' := tail_push t bytes in
  tail_cap t' = tail_cap t /\ tail_buf t' = drop_bytes (len (s +:+ bytes) - tail_cap t) (s +:+ bytes) /\
  (tail_dropped t' = len (s +:+ bytes) - tail_cap t)%N.
Proof.
  intros Hcap Hbuf Hd t'. split; [done|]. unfold t', tail_push. cbn [tail_buf tail_dropped].
  set (skip := if (tail_cap t <? len bytes)%N then (len bytes - tail_cap t)%N else 0%N).
  assert (skip = len bytes - tail_cap t)%N as Hskip by (unfold skip; destruct (N.ltb_spec (tail_cap t) (len bytes)); lia).
  set (buf := tail_buf t +:+ drop_bytes skip bytes).
  assert (len buf = len (tail_buf t) + (len bytes - skip))%N as Hlen by (unfold buf; by rewrite len_app, drop_bytes_len).
  set (excess := if (tail_cap t <? len buf)%N then (len buf - tail_cap t)%N else 0%N).
  assert (excess = len buf - tail_cap t)%N as Hex by (unfold excess; destruct (N.ltb_spec (tail_cap t) (len buf)); lia).
  rewrite Hbuf, drop_bytes_len in Hlen. rewrite len_app. split.
  - unfold buf. rewrite drop_bytes_app, Hbuf, !drop_bytes_drop, drop_bytes_app, drop_bytes_len. f_equal.
    + destruct (N.le_gt_cases (len bytes) (tail_cap t)); [f_equal; lia|]. by rewrite !drop_bytes_all by lia.
    + f_equal. lia.
  - lia.
Qed.

(** Of a stream of any length, in any chunks, the run keeps the last [cap]
    bytes and counts the others. *)
Theorem tail_keeps_end cap chunks :
  let s := concat chunks in
  tail_buf (read_tail cap chunks) = drop_bytes (len s - cap) s /\ (tail_dropped (read_tail cap chunks) = len s - cap)%N.
Proof.
  intros s. unfold read_tail. assert (forall t p, tail_cap t = cap -> (len (tail_buf t) <= cap)%N -> tail_buf t = drop_bytes (tail_dropped t) p ->
    (tail_dropped t = len p - cap)%N -> tail_buf (foldl tail_push t chunks) = drop_bytes (len (p +:+ s) - cap) (p +:+ s) /\
    (tail_dropped (foldl tail_push t chunks) = len (p +:+ s) - cap)%N) as Hall.
  { unfold s. clear s. induction chunks as [|x xs IH]; intros t p Hc Hl Hb Hd; cbn [foldl concat].
    - rewrite app_nil_r_string. by rewrite Hb, Hd.
    - subst cap. destruct (tail_push_spec t p x Hl Hb Hd) as (Hc' & Hb' & Hd').
      rewrite <- app_assoc_string. apply IH; [done| | |done].
      + rewrite Hb', drop_bytes_len. lia.
      + by rewrite Hd'. }
  destruct (Hall (new_tail cap) EmptyString) as [H1 H2]; [done|unfold len; cbn; lia|done|unfold len; cbn; lia|].
  rewrite app_nil_string in H1, H2. done.
Qed.

(** ** Commands *)

Record Cmd := mkCmd {
  c_program : string;
  c_args : list string;
  c_env : gmap string string;
  c_removals : list string;
  c_clear : bool;
  c_cwd : option string;
  c_log : option (string * bool);
  c_timeout : option N;
}.

Record CmdOutput := { co_stdout : string; co_stderr : string; co_code : Z }.
Record CmdFailure := {
  cf_tool : string;
  cf_subcommand : string;
  cf_args : list string;
  cf_stderr : string;
  cf_timed_out : option N;
}.

Definition new_cmd (program : string) : Cmd :=
  {| c_program := program; c_args := []; c_env := ∅; c_removals := []; c_clear := false; c_cwd := None; c_log := None; c_timeout := None |}.
Definition cmd_args (args : list string) (c : Cmd) : Cmd :=
  {| c_program := c_program c; c_args := c_args c ++ args; c_env := c_env c; c_removals := c_removals c; c_clear := c_clear c;
     c_cwd := c_cwd c; c_log := c_log c; c_timeout := c_timeout c |}.
Definition cmd_env (k v : string) (c : Cmd) : Cmd :=
  {| c_program := c_program c; c_args := c_args c; c_env := <[k := v]> (c_env c); c_removals := c_removals c; c_clear := c_clear c;
     c_cwd := c_cwd c; c_log := c_log c; c_timeout := c_timeout c |}.
Definition cmd_env_remove (k : string) (c : Cmd) : Cmd :=
  {| c_program := c_program c; c_args := c_args c; c_env := c_env c; c_removals := c_removals c ++ [k]; c_clear := c_clear c;
     c_cwd := c_cwd c; c_log := c_log c; c_timeout := c_timeout c |}.
Definition cmd_env_clear (c : Cmd) : Cmd :=
  {| c_program := c_program c; c_args := c_args c; c_env := c_env c; c_removals := c_removals c; c_clear := true;
     c_cwd := c_cwd c; c_log := c_log c; c_timeout := c_timeout c |}.
Definition cmd_log (file : string) (stdout : bool) (c : Cmd) : Cmd :=
  {| c_program := c_program c; c_args := c_args c; c_env := c_env c; c_removals := c_removals c; c_clear := c_clear c;
     c_cwd := c_cwd c; c_log := Some (file, stdout); c_timeout := c_timeout c |}.
Definition cmd_timeout (d : N) (c : Cmd) : Cmd :=
  {| c_program := c_program c; c_args := c_args c; c_env := c_env c; c_removals := c_removals c; c_clear := c_clear c;
     c_cwd := c_cwd c; c_log := c_log c; c_timeout := Some d |}.

(** [Cmd::tool]. *)
Definition cmd_tool (c : Cmd) : string := default EmptyString (file_name (c_program c)).

Fixpoint first_word (skip_value : bool) (args : list string) : option string :=
  match args with
  | [] => None
  | a :: args =>
      if skip_value then first_word false args
      else if bool_decide (a ∈ ["-C"; "-c"; "-L"; "-t"]) then first_word true args
      else if negb (starts_with a "-") then Some a
      else first_word false args
  end.
Definition cmd_subcommand (c : Cmd) : string := default (default EmptyString (head (c_args c))) (first_word false (c_args c)).

(** What the child inherits: set over the daemon's, removals last. *)
Definition child_env (inherited : gmap string string) (c : Cmd) : gmap string string :=
  foldr delete (c_env c ∪ (if c_clear c then ∅ else inherited)) (c_removals c).

Lemma lookup_child_env inherited c k : child_env inherited c !! k =
  if decide (k ∈ c_removals c) then None
  else match c_env c !! k with Some v => Some v | None => if c_clear c then None else inherited !! k end.
Proof.
  unfold child_env. induction (c_removals c) as [|x l IH]; cbn [foldr].
  - rewrite decide_False by set_solver. rewrite lookup_union. destruct (c_env c !! k), (c_clear c); cbn; rewrite ?lookup_empty; try done.
    all: by destruct (inherited !! k).
  - destruct (decide (k = x)) as [->|Hne]; [by rewrite lookup_delete_eq, decide_True by set_solver|].
    rewrite lookup_delete_ne, IH by done. by repeat case_decide; try set_solver.
Qed.

Definition cmd_failure (c : Cmd) (stderr : string) : CmdFailure :=
  {| cf_tool := cmd_tool c; cf_subcommand := cmd_subcommand c; cf_args := c_args c; cf_stderr := stderr; cf_timed_out := None |}.

(** How a child ended: a status, as a code ([None] for a signal) and as it
    displays, after the chunks of its stdout and of its stderr; or not at all. *)
Inductive Exit :=
| Exited (code : option Z) (shown : string) (stdout stderr : list string)
| OutOfTime (d : N) (shown : string)
| CannotRun (message : string).

(** [spawn_and_wait], then [finish]. *)
Definition cmd_exec (c : Cmd) (accepted : list Z) (exit : Exit) : result CmdFailure (CmdOutput * list string) :=
  match exit with
  | CannotRun message => Err (cmd_failure c message)
  | OutOfTime d shown =>
      Err {| cf_tool := cmd_tool c; cf_subcommand := cmd_subcommand c; cf_args := c_args c;
             cf_stderr := "timed out after " +:+ shown; cf_timed_out := Some d |}
  | Exited code shown stdout stderr =>
      let stderr := tail_string (read_tail STDERR_LIMIT stderr) in
      match code with
      | Some code =>
          if bool_decide (code ∈ accepted)
          then Ok ({| co_stdout := from_utf8_lossy (concat stdout); co_stderr := stderr; co_code := code |}, stdout)
          else Err (cmd_failure c (if is_empty (trim stderr) then shown else stderr))
      | None => Err (cmd_failure c (if is_empty (trim stderr) then shown else stderr))
      end
  end.

(** An output is an accepted exit; a failure by the deadline says so. *)
Lemma cmd_exec_Ok c accepted exit out : cmd_exec c accepted exit = Ok out ->
  exists code shown stdout stderr, exit = Exited (Some code) shown stdout stderr /\ code ∈ accepted /\ co_code out.1 = code /\ out.2 = stdout.
Proof.
  destruct exit as [[code|] shown stdout stderr|d shown|message]; cbn; try done. case_bool_decide; [|done]. intros [= <-]. by eexists _, _, _, _.
Qed.
