(* ===== verification/Git.v ===== *)
(** The agent's private clone and the crew's object cache
    ([crates/balerix-runtime/src/workspace.rs]): the commands, the checks made
    before any of them, what becomes of an existing clone, the harvest and the
    new clone. The filesystem and the processes are the world's; every step
    records what it ran, removed and wrote. *)

From S2P Require Import Prelude Str Json Bytes Names Repo Paths Execute Layout Sandbox Launch Cmd.

Record IoError := mkIoError { io_not_found : bool; io_message : string }.

Inductive FileKind := KindDir | KindFile | KindSymlink | KindOther.

(** What a walk without following links meets. *)
Inductive Tree :=
| TreeLeaf (symlink : bool)
| TreeGone (e : IoError)
| TreeDir (entries : list (IoError + string * Tree))
| TreeNoList (e : IoError).

Record Host (W : Type) := {
  h_spawn : Cmd -> W -> Exit * W;
  h_lstat : W -> string -> result IoError FileKind;
  h_is_dir : W -> string -> bool;
  h_exists : W -> string -> bool;
  h_read : W -> string -> result IoError string;
  h_tree : W -> string -> Tree;
  h_canonicalize : W -> string -> result IoError string;
  h_empty_dir : W -> string -> bool;
  h_create_dir_all : string -> W -> result IoError unit * W;
  h_scratch : string -> W -> result IoError string * W;
  h_drop_scratch : string -> W -> W;
  h_remove_dir_all : string -> W -> result IoError unit * W;
  h_write_atomic : string -> string -> N -> W -> result IoError unit * W;
  h_read_dir : W -> string -> option (list (string * bool));
  h_modified : W -> string -> result IoError Z;
  h_now : W -> Z;
  h_sleep : N -> W -> W;
  h_remove_file : string -> W -> result IoError unit * W;
  h_append : string -> string -> W -> W;
}.
Arguments h_spawn {W}.
Arguments h_lstat {W}.
Arguments h_is_dir {W}.
Arguments h_exists {W}.
Arguments h_read {W}.
Arguments h_tree {W}.
Arguments h_canonicalize {W}.
Arguments h_empty_dir {W}.
Arguments h_create_dir_all {W}.
Arguments h_scratch {W}.
Arguments h_drop_scratch {W}.
Arguments h_remove_dir_all {W}.
Arguments h_write_atomic {W}.
Arguments h_read_dir {W}.
Arguments h_modified {W}.
Arguments h_now {W}.
Arguments h_sleep {W}.
Arguments h_remove_file {W}.
Arguments h_append {W}.

(** What a step did, in order. *)
Inductive Event :=
| Ran (c : Cmd) (accepted : list Z) (exit : Exit)
| Removed (path : string)
| Wrote (path bytes : string) (mode : N)
| Swept (dir name : string)
| Unlinked (path : string)
| Logged (path line : string).

(** ** Steps: fallible, over the world, recording *)

Definition Step (W E A : Type) : Type := W -> result E A * W * list Event.

Section steps.
Context {W E : Type}.

Definition step_ret {A} (a : A) : Step W E A := fun w => (Ok a, w, []).
Definition step_err {A} (e : E) : Step W E A := fun w => (Err e, w, []).
Definition step_bind {A B} (f : A -> Step W E B) (m : Step W E A) : Step W E B := fun w =>
  match m w with
  | (Ok a, w, es) => let '(r, w, es') := f a w in (r, w, es ++ es')
  | (Err e, w, es) => (Err e, w, es)
  end.
(** A read of the world. *)
Definition step_get {A} (f : W -> A) : Step W E A := fun w => (Ok (f w), w, []).
Definition step_of {A} (r : result E A) : Step W E A := fun w => (r, w, []).
End steps.

#[export] Instance step_mret {W E} : MRet (Step W E) := fun A => step_ret.
#[export] Instance step_mbind {W E} : MBind (Step W E) := fun A B => step_bind.

(** [map_err]. *)
Definition step_map_err {W E F A} (f : E -> F) (m : Step W E A) : Step W F A := fun w =>
  let '(r, w, es) := m w in (map_err f r, w, es).
(** [or_else], for an error that costs more steps. *)
Definition step_or_else {W E F A} (f : E -> Step W F A) (m : Step W E A) : Step W F A := fun w =>
  match m w with
  | (Ok a, w, es) => (Ok a, w, es)
  | (Err e, w, es) => let '(r, w, es') := f e w in (r, w, es ++ es')
  end.

(** ** Pure parts *)

Inductive CloneDecision := Reuse | Record_ | Recreate (old : string) | DirtyClone (old : string).

Inductive Settled :=
| Kept
| SettledRecord
| NoClone
| SettledRemove (old : string) (harvested : bool)
| SettledDirty (old : string)
| SettledWorktree.

Section debug.
Context `{Unicode}.

Definition dirty_clone (old branch : string) : string :=
  "the clone was created on branch " +:+ debug_str old +:+ " but the agent's branch is " +:+ debug_str branch +:+
  ", and the clone has local changes".
End debug.

Definition is_gits_answer (out : CmdOutput) : bool := (co_code out =? 0)%Z || is_empty (trim (co_stderr out)).

Definition CLONE_STORE : string :=
  "the clone's objects may be another repository's; balerix runs no git in it and harvests nothing from it".
Definition CACHE_STORE : string :=
  "the crew cache's objects may be another repository's; balerix runs no git in the clone and harvests nothing into the cache".

(** [id.split('/').next()]. *)
Definition fleet_of (id : string) : string := default id (head (split_char "/"%char id)).

Definition refuse_clone (id path found store : string) : MaterializeError :=
  MInvalid id (path +:+ ": " +:+ found +:+ ", so " +:+ store +:+ ". Run `balerix down " +:+ fleet_of id +:+
    " --purge` to delete it (push unpushed work first)").

Definition hex_upper (n : N) : ascii := if (n <? 10)%N then ascii_of_N (48 + n) else ascii_of_N (55 + n).
Definition url_byte (b : ascii) : bool := is_ascii_alphanumeric b || byte_among "-._~/" b.
Fixpoint url_encode (s : string) : string :=
  match s with
  | EmptyString => EmptyString
  | String b s =>
      (if url_byte b then String b EmptyString
       else String "%"%char (String (hex_upper (N_of_ascii b / 16)) (String (hex_upper (N_of_ascii b mod 16)) EmptyString)))
      +:+ url_encode s
  end.
Definition file_url (path : string) : string := "file://" +:+ url_encode path.

(** [first_symlink]: the paths to look at, the last pushed first. *)
Fixpoint tree_size (t : Tree) : nat :=
  match t with
  | TreeDir entries => S (foldr (fun e n => match e with inl _ => n | inr (_, t) => tree_size t + n end) 0 entries)
  | _ => 1
  end.

(** The entries of a directory pushed, up to one that cannot be read. *)
Fixpoint push_entries (path : string) (entries : list (IoError + string * Tree)) (todo : list (string * Tree))
    : result (string * IoError) (list (string * Tree)) :=
  match entries with
  | [] => Ok todo
  | inl e :: _ => Err (path, e)
  | inr (name, t) :: entries => push_entries path entries ((path_join path name, t) :: todo)
  end.

Fixpoint scan (fuel : nat) (root : string) (todo : list (string * Tree)) : result (string * IoError) (option string) :=
  match fuel, todo with
  | O, _ | _, [] => Ok None
  | S fuel, (path, t) :: todo =>
      let vanished e := negb (bool_decide (path = root)) && io_not_found e in
      match t with
      | TreeLeaf true => Ok (Some path)
      | TreeLeaf false => scan fuel root todo
      | TreeGone e | TreeNoList e => if vanished e then scan fuel root todo else Err (path, e)
      | TreeDir entries =>
          match push_entries path entries todo with
          | Ok todo => scan fuel root todo
          | Err e => Err e
          end
      end
  end.

Definition first_symlink_in (root : string) (t : Tree) : result (string * IoError) (option string) :=
  scan (tree_size t) root [(root, t)].

(** [system_prefixes]. *)
Definition system_prefixes : string :=
  let dirs := filter (fun d => d <> "/etc") SYSTEM_READ in
  match last dirs, removelast dirs with
  | Some l, (_ :: _) as rest => join ", " rest +:+ " and " +:+ l
  | _, _ => join ", " dirs
  end.

(** ** Commands *)

Record GitFailure := {
  gf_subcommand : string;
  gf_args : list string;
  gf_stderr : string;
  gf_timed_out : option N;
}.

Definition scrubbed : list string := ["GIT_DIR"; "GIT_WORK_TREE"; "GIT_INDEX_FILE"; "GIT_PREFIX"; "GIT_COMMON_DIR"].
Definition scrub_git_env (c : Cmd) : Cmd :=
  cmd_env "GIT_NO_LAZY_FETCH" "1" (foldl (fun c k => cmd_env_remove k c) c scrubbed).

Definition PROMISOR_KEYS : string := "^(extensions\.partialclone|remote\..*\.promisor)$".
Definition START_CHECK_DEADLINE : N := secs 10.

Section workspace.
Context {W : Type} (host : Host W) (tools : ToolPaths).
(** [Workspace]'s fields. *)
Context (gh_config_dir : option string) (cache_is_read_only : bool) (git_read : list string) (policy : SocketPolicy).
(** This process's id, and [serde_json::to_vec_pretty]. *)
Context (pid : string) (to_vec_pretty : Value -> string).
Context `{Unicode}.

(** [run_with_exit_codes]. *)
Definition run (c : Cmd) (accepted : list Z) : Step W CmdFailure (CmdOutput * list string) := fun w =>
  let '(exit, w) := h_spawn host c w in (cmd_exec c accepted exit, w, [Ran c accepted exit]).

Definition git_log (crew : CrewPaths) : string := path_join (cp_logs crew) "git.log".

Definition sandbox_args_writing (agent : AgentPaths) (writable : option string) : list string :=
  ["-s"; "--log-file"; path_join (ap_logs agent) "nono-git.log"; "run"; "--no-audit"; "--profile"; ap_git_profile agent] ++
  match writable with Some dir => ["--allow"; dir] | None => [] end ++ ["--"] ++ wrap_command policy (tp_balerix tools) [].
Definition sandbox_args (agent : AgentPaths) : list string := sandbox_args_writing agent None.

Definition dot_git (agent : AgentPaths) : string := path_join (ap_workspace agent) ".git".

Definition git_command (crew : CrewPaths) (agent : AgentPaths) : list string :=
  [tp_git tools; "-c"; "core.fsmonitor=false"; "-c"; "core.hooksPath=" +:+ no_hooks crew; "-C"; ap_workspace agent;
   "--git-dir=" +:+ dot_git agent; "--work-tree=" +:+ ap_workspace agent].

(** The nono command under the git profile, from an empty environment. *)
Definition sandboxed_base (crew : CrewPaths) (agent : AgentPaths) (full : bool) (writable : option string) (home : string) : Cmd :=
  cmd_args (sandbox_args_writing agent writable)
    (cmd_log (git_log crew) full (cmd_env "PATH" (outer_path tools) (cmd_env "HOME" home (cmd_env_clear (new_cmd (tp_nono tools)))))).

Definition scratch_parent (agent : AgentPaths) : string := default (ap_nono_home agent) (parent (ap_nono_home agent)).

(** [f] with a fresh [ScratchHome], gone after it. *)
Definition with_home {E A} (agent : AgentPaths) (failed : IoError -> E) (f : string -> Step W E A) : Step W E A := fun w =>
  match h_scratch host (scratch_parent agent) w with
  | (Err e, w) => (Err (failed e), w, [])
  | (Ok home, w) => let '(r, w, es) := f home w in (r, h_drop_scratch host home w, es)
  end.

Definition home_failure (agent : AgentPaths) (e : IoError) : GitFailure :=
  {| gf_subcommand := EmptyString; gf_args := [];
     gf_stderr := "cannot create nono's home beside " +:+ ap_nono_home agent +:+ ": " +:+ io_message e; gf_timed_out := None |}.

(** The first word that is neither an option nor a [-c] value. *)
Fixpoint git_subcommand (words : list string) : string :=
  match words with
  | [] => EmptyString
  | w :: words =>
      if bool_decide (w = "-c") then match words with [] => EmptyString | _ :: words => git_subcommand words end
      else if negb (starts_with w "-") then w
      else git_subcommand words
  end.

Definition with_deadline (deadline : option N) (c : Cmd) : Cmd := match deadline with Some d => cmd_timeout d c | None => c end.

Definition sandboxed_git (crew : CrewPaths) (agent : AgentPaths) (args : list string) (accepted : list Z) (full : bool)
    (deadline : option N) : Step W GitFailure CmdOutput :=
  with_home agent (home_failure agent) (fun home =>
    let subcommand := git_subcommand args in
    out ← step_map_err (fun f => {| gf_subcommand := subcommand; gf_args := cf_args f; gf_stderr := cf_stderr f;
                                    gf_timed_out := cf_timed_out f |})
            (run (with_deadline deadline (cmd_args args (cmd_args (git_command crew agent) (sandboxed_base crew agent full None home)))) accepted);
    if negb (is_gits_answer out.1)
    then step_err {| gf_subcommand := subcommand; gf_args := args; gf_stderr := co_stderr out.1; gf_timed_out := None |}
    else mret out.1).

Definition sandboxed_git_script (crew : CrewPaths) (agent : AgentPaths) (script : string) (leading git_args : list string)
    (accepted : list Z) (deadline : N) : Step W GitFailure (CmdOutput * list string) :=
  with_home agent (home_failure agent) (fun home =>
    step_map_err (fun f => {| gf_subcommand := "sh"; gf_args := cf_args f; gf_stderr := cf_stderr f; gf_timed_out := cf_timed_out f |})
      (run (cmd_timeout deadline
              (cmd_args git_args (cmd_args (git_command crew agent) (cmd_args leading
                (cmd_args ["/bin/sh"; "-c"; script; "sh"] (sandboxed_base crew agent false None home)))))) accepted)).

(** Whether [/bin/true] runs under the profile. *)
Definition sandbox_starts {E} (agent : AgentPaths) (deadline : N) : Step W E bool := fun w =>
  match h_scratch host (scratch_parent agent) w with
  | (Err _, w) => (Ok false, w, [])
  | (Ok home, w) =>
      let c := cmd_timeout deadline (cmd_args (sandbox_args agent ++ ["/bin/true"])
                 (cmd_env "PATH" (outer_path tools) (cmd_env "HOME" home (cmd_env_clear (new_cmd (tp_nono tools)))))) in
      let '(r, w, es) := run c [0%Z] w in (Ok (is_ok r), h_drop_scratch host home w, es)
  end.

Definition see_logs (crew : CrewPaths) (agent : AgentPaths) : string :=
  "see " +:+ git_log crew +:+ " and " +:+ path_join (ap_logs agent) "nono-git.log".

Definition git_read_hint {E} (crew : CrewPaths) (agent : AgentPaths) (deadline : N) : Step W E (option string) :=
  sandbox_starts agent deadline ≫= fun starts : bool =>
  mret (if starts then
    Some ("git could not run under the git profile (the sandbox itself starts); if it loads libraries from outside " +:+
          system_prefixes +:+ ", add that prefix to `sandbox.git_read` in the daemon's config.toml; " +:+ see_logs crew agent)
  else None).

(** ** git as the daemon *)

Definition daemon_git (crew : CrewPaths) (args : list string) : Cmd :=
  let c := scrub_git_env (cmd_log (git_log crew) true (new_cmd (tp_git tools))) in
  let c := match gh_config_dir with
           | Some dir =>
               cmd_args ["-c"; "credential.helper="; "-c"; "credential.helper=!" +:+ tp_gh tools +:+ " auth git-credential"]
                 (cmd_env "GH_CONFIG_DIR" dir c)
           | None => c
           end in
  cmd_args args (cmd_env "GIT_TERMINAL_PROMPT" "0" c).

Definition git_accepting (id : string) (crew : CrewPaths) (args : list string) (accepted : list Z) : Step W MaterializeError CmdOutput :=
  out ← step_map_err (fun f => MTool id (cf_tool f) (cf_subcommand f) (cf_args f) (cf_stderr f)) (run (daemon_git crew args) accepted);
  mret out.1.
Definition git (id : string) (crew : CrewPaths) (args : list string) : Step W MaterializeError string :=
  out ← git_accepting id crew args [0%Z]; mret (co_stdout out).
Definition git_probe (id : string) (crew : CrewPaths) (args : list string) : Step W MaterializeError bool :=
  out ← git_accepting id crew args [0; 1]%Z; mret (co_code out =? 0)%Z.

Definition agent_git (id : string) (crew : CrewPaths) (agent : AgentPaths) (args : list string) (accepted : list Z)
    : Step W MaterializeError string :=
  out ← step_map_err (fun f => MTool id "git" (gf_subcommand f) (gf_args f) (gf_stderr f)) (sandboxed_git crew agent args accepted true None);
  mret (co_stdout out).

Definition io_failed (id path : string) (e : IoError) : MaterializeError := MIo id path (io_message e).

Definition create_dir_all (id path : string) : Step W MaterializeError unit := fun w =>
  let '(r, w) := h_create_dir_all host path w in (map_err (io_failed id path) r, w, []).

(** ** The git profile ([sandbox.rs]) *)

Definition SCRATCH_PREFIXES : list string := [".nono-git-"; ".nono-mise-"].

(** What follows the prefix of a scratch home's name. *)
Definition scratch_rest (name : string) : option string :=
  if bool_decide (from_utf8_lossy name = name) then head (omap (fun prefix => strip_prefix prefix name) SCRATCH_PREFIXES) else None.
(** A directory named for another process. *)
Definition stale_home (entry : string * bool) : bool :=
  match scratch_rest entry.1 with
  | Some rest => negb (bool_decide (default EmptyString (head (split_char "-"%char rest)) = pid)) && entry.2
  | None => false
  end.

Definition sweep_stale_homes_in {E} (dir : string) : Step W E unit := fun w =>
  match h_read_dir host w dir with
  | None => (Ok tt, w, [])
  | Some entries =>
      let stale := (filter (fun e => stale_home e = true) entries).*1 in
      (Ok tt, foldl (fun w name => (h_remove_dir_all host (path_join dir name) w).2) w stale, Swept dir <$> stale)
  end.
Definition sweep_stale_homes {E} (agent : AgentPaths) : Step W E unit :=
  match parent (ap_nono_home agent) with Some dir => sweep_stale_homes_in dir | None => mret tt end.

(** [trim_end_matches(['\r', '\n'])]. *)
Fixpoint trim_end_lines (s : string) : string :=
  match s with
  | EmptyString => EmptyString
  | String a s =>
      match trim_end_lines s with
      | EmptyString => if byte_among (String (ascii_of_N 13) (String newline_byte EmptyString)) a then EmptyString else String a EmptyString
      | t => String a t
      end
  end.

Definition git_exec_path (id : string) : Step W MaterializeError string :=
  let tool_error (stderr : string) := MTool id "git" "--exec-path" ["--exec-path"] stderr in
  out ← step_map_err (fun f => tool_error (cf_stderr f))
          (run (cmd_args ["--exec-path"] (cmd_env "PATH" (outer_path tools) (cmd_env_clear (new_cmd (tp_git tools))))) [0%Z]);
  let named := trim_end_lines (co_stdout out.1) in
  dir ← (fun w => (map_err (fun e => tool_error (named +:+ ": " +:+ io_message e)) (h_canonicalize host w named), w, []));
  step_get (fun w => h_is_dir host w dir) ≫= fun is_dir : bool =>
  if is_dir then mret dir else step_err (tool_error (named +:+ ": not a directory")).

(** Whether the profile's bytes changed. *)
Definition write_profile_at (id : AgentId) (path : string) (profile : Value) : Step W MaterializeError bool := fun w =>
  let bytes := to_vec_pretty profile in
  if bool_decide (to_option (h_read host w path) = Some bytes) then (Ok false, w, [])
  else
    let '(r, w) := h_write_atomic host path bytes 384 w in
    (match r with Ok _ => Ok true | Err e => Err (io_failed (to_string id) path e) end, w, [Wrote path bytes 384]).

Definition validate_profile_at (id : AgentId) (profile nono_home log : string) : Step W MaterializeError unit :=
  _ ← step_map_err (fun f => MTool (to_string id) (cf_tool f) "profile validate" (cf_args f)
                               (if is_empty (trim (cf_stderr f)) then "profile invalid" else cf_stderr f))
        (run (cmd_log log false (cmd_env "HOME" nono_home (cmd_args ["-s"; "profile"; "validate"; profile] (new_cmd (tp_nono tools))))) [0%Z]);
  mret tt.

Definition write_git_profile (id : string) (agent : AgentPaths) (crew : CrewPaths) : Step W MaterializeError unit :=
  agent_id ← step_of (map_err (fun _ => MInvalid id "not an agent id") (from_str (A := AgentId) id));
  _ ← create_dir_all id (no_hooks crew);
  _ ← create_dir_all id (ap_nono_home agent);
  _ ← create_dir_all id (ap_logs agent);
  _ ← sweep_stale_homes agent;
  exec_path ← git_exec_path id;
  canonicalize ← step_get (fun w path => to_option (h_canonicalize host w path));
  let profile := apply_to_profile (render_git_profile canonicalize agent_id agent crew (tp_git tools) exec_path git_read)
                   policy [] (tp_balerix tools) in
  let path := ap_git_profile agent in
  write_profile_at agent_id path profile ≫= fun changed : bool =>
  if changed then
    with_home agent (fun e => MIo id (ap_nono_home agent) ("cannot create nono's home beside it: " +:+ io_message e)) (fun home =>
      validate_profile_at agent_id path home (path_join (ap_logs agent) "nono.validate.log"))
  else mret tt.

(** ** Removals *)

Definition remove_tree (id path : string) : Step W MaterializeError unit := fun w =>
  let '(r, w) := h_remove_dir_all host path w in
  (match r with
   | Ok tt => Ok tt
   | Err e => if io_not_found e then Ok tt else Err (io_failed id path e)
   end, w, [Removed path]).

Definition strip_id (id : string) (e : MaterializeError) : string := let s := to_string e in default s (strip_prefix (id +:+ ": ") s).

(** The step's error, once what it left is removed. *)
Definition discard_half_made {A} (id path : string) (failed : MaterializeError) : Step W MaterializeError A := fun w =>
  let '(r, w, es) := remove_tree id path w in
  match r with
  | Ok _ => (Err failed, w, es)
  | Err cleanup =>
      (Err (if h_empty_dir host w path then failed
            else MInvalid id (strip_id id failed +:+ "; then removing what it left behind failed: " +:+ strip_id id cleanup)), w, es)
  end.

(** ** The checks *)

Definition alternates (objects : string) : string := path_join (path_join objects "info") "alternates".

Definition check_clone (id : string) (crew : CrewPaths) (agent : AgentPaths) : Step W MaterializeError unit := fun w =>
  let refuse (path found store : string) := refuse_clone id path found store in
  let unreadable (e : IoError) := "unreadable (" +:+ io_message e +:+ ")" in
  let commondir := path_join (dot_git agent) "commondir" in
  let objects := path_join (dot_git agent) "objects" in
  (_ ← match h_lstat host w (dot_git agent) with
       | Ok KindDir => Ok tt
       | Ok _ => Err (refuse (dot_git agent) "not a real directory" CLONE_STORE)
       | Err e => Err (refuse (dot_git agent) (unreadable e) CLONE_STORE)
       end;
   _ ← ensure (negb (is_ok (h_lstat host w commondir))) (refuse commondir "present (a clone has none)" CLONE_STORE);
   _ ← ensure (negb (is_ok (h_lstat host w (alternates (cache_objects crew)))))
         (refuse (alternates (cache_objects crew)) "present (the cache is cloned without --reference)" CACHE_STORE);
   _ ← match first_symlink_in objects (h_tree host w objects) with
       | Ok None => Ok tt
       | Ok (Some link) => Err (refuse link "a symlink" CLONE_STORE)
       | Err (path, e) => Err (refuse path (unreadable e) CLONE_STORE)
       end;
   cache ← map_err (io_failed id (cache_objects crew)) (h_canonicalize host w (cache_objects crew));
   match h_read host w (alternates objects) with
   | Ok bytes =>
       ensure (bool_decide (default bytes (strip_suffix (String newline_byte EmptyString) bytes) = cache))
         (refuse (alternates objects) ("names something other than the crew cache " +:+ cache) CLONE_STORE)
   | Err e => Err (refuse (alternates objects) (unreadable e) CLONE_STORE)
   end, w, []).

Definition check_clone_config (id : string) (crew : CrewPaths) (agent : AgentPaths) : Step W MaterializeError unit :=
  keys ← agent_git id crew agent ["config"; "--local"; "--includes"; "--name-only"; "--get-regexp"; PROMISOR_KEYS] [0; 1]%Z;
  match trim <$> head (Str.lines keys) with
  | Some key =>
      if is_empty key then mret tt
      else step_err (refuse_clone id (path_join (dot_git agent) "config") ("sets " +:+ key +:+ " (a promisor remote)") CLONE_STORE)
  | None => mret tt
  end.

Definition prepare_sandbox (id : string) (crew : CrewPaths) (agent : AgentPaths) : Step W MaterializeError unit :=
  _ ← write_git_profile id agent crew;
  step_or_else (fun e =>
    match e with
    | MTool id tool subcommand args stderr =>
        hint ← git_read_hint crew agent START_CHECK_DEADLINE;
        step_err (MTool id tool subcommand args
          (default ("the sandbox did not start; " +:+ see_logs crew agent) hint +:+ ": " +:+ stderr))
    | other => step_err other
    end)
    (_ ← agent_git id crew agent ["version"] [0%Z]; mret tt).

(** ** The clone *)

Definition branch_of (agent : AgentPaths) : string := branch_marker agent.

(** [read_to_string]: text only. *)
Definition read_to_string (w : W) (path : string) : result IoError string :=
  bytes ← h_read host w path;
  ensure (bool_decide (from_utf8_lossy bytes = bytes)) {| io_not_found := false; io_message := "stream did not contain valid UTF-8" |} ≫=
    fun _ => Ok bytes.

Definition head_branch (id : string) (crew : CrewPaths) (agent : AgentPaths) : Step W MaterializeError (option string) :=
  head ← agent_git id crew agent ["symbolic-ref"; "-q"; "--short"; "HEAD"] [0; 1]%Z;
  mret (if is_empty (trim head) then None else Some (trim head)).

Definition decide_clone (marker head : option string) (branch : string) (dirty : Step W MaterializeError bool)
    : Step W MaterializeError CloneDecision :=
  let marker := trim <$> marker in
  if bool_decide (marker = Some branch) then mret Reuse
  else match trim <$> head with
       | None => mret Reuse
       | Some head =>
           if bool_decide (head = branch) then mret Record_
           else let old := default head marker in
                dirty ≫= fun d : bool => mret (if d then DirtyClone old else Recreate old)
       end.

Definition refs_heads (branch : string) : string := "refs/heads/" +:+ branch.
Definition refs_remote (branch : string) : string := "refs/remotes/origin/" +:+ branch.

Definition upload_pack (agent : AgentPaths) (home : string) : string :=
  "--upload-pack=env -i HOME=" +:+ sh_quote home +:+ " PATH=" +:+ sh_quote (outer_path tools) +:+ " " +:+ sh_quote (tp_nono tools) +:+
  concat ((fun word => " " +:+ sh_quote word) <$> (sandbox_args agent ++ [tp_git tools])) +:+ " upload-pack --strict".

Definition fetch_args (crew : CrewPaths) (agent : AgentPaths) (branch home : string) : list string :=
  ["-C"; cp_repo crew; "fetch"; "--quiet"; "--no-auto-gc"; upload_pack agent home; file_url (dot_git agent);
   "+" +:+ refs_heads branch +:+ ":" +:+ refs_heads branch].

Definition harvest (id : string) (crew : CrewPaths) (agent : AgentPaths) (branch : string) : Step W MaterializeError bool :=
  present ← agent_git id crew agent ["rev-parse"; "--verify"; "--quiet"; refs_heads branch] [0; 1]%Z;
  if is_empty (trim present) then mret false
  else with_home agent (fun e => MIo id (ap_nono_home agent) ("cannot create nono's home beside it: " +:+ io_message e)) (fun home =>
    _ ← git id crew (fetch_args crew agent branch home); mret true).

Definition settle_clone (id : string) (crew : CrewPaths) (agent : AgentPaths) (branch : string) : Step W MaterializeError Settled :=
  step_get (fun w => h_is_dir host w (dot_git agent)) ≫= fun is_clone : bool =>
  if is_clone then
    _ ← check_clone id crew agent;
    marker ← step_get (fun w => to_option (read_to_string w (branch_of agent)));
    if bool_decide (trim <$> marker = Some branch) then mret Kept
    else
      _ ← prepare_sandbox id crew agent;
      _ ← check_clone_config id crew agent;
      head ← head_branch id crew agent;
      decision ← decide_clone marker head branch
        (s ← agent_git id crew agent ["status"; "--porcelain"] [0%Z]; mret (negb (is_empty (trim s))));
      match decision with
      | Reuse => mret Kept
      | Record_ => mret SettledRecord
      | DirtyClone old => mret (SettledDirty old)
      | Recreate old => harvested ← harvest id crew agent old; mret (SettledRemove old harvested)
      end
  else
    step_get (fun w => h_exists host w (dot_git agent)) ≫= fun there : bool =>
    mret (if there then SettledWorktree else NoClone).

Definition record_branch (id : string) (agent : AgentPaths) (branch : string) : Step W MaterializeError unit := fun w =>
  let '(r, w) := h_write_atomic host (branch_of agent) branch 420 w in
  (map_err (io_failed id (branch_of agent)) r, w, [Wrote (branch_of agent) branch 420]).

Definition create_clone (id : string) (crew : CrewPaths) (agent : AgentPaths) (repo : RepoRef) (branch start_ref : string)
    : Step W MaterializeError unit :=
  let cache := cp_repo crew in
  let ws := ap_workspace agent in
  let quiet_verify dir name := ["-C"; dir; "rev-parse"; "--verify"; "--quiet"; name] in
  _ ← (if cache_is_read_only then mret EmptyString
       else git id crew ["-C"; cache; "fetch"; "--quiet"; "--no-auto-gc"; "origin"]);
  _ ← git id crew ["clone"; "--quiet"; "--no-checkout"; "--reference"; cache; clone_url repo; ws];
  (if cache_is_read_only then mret false else git_probe id crew (quiet_verify cache (refs_heads branch))) ≫= fun cached : bool =>
  (if cached then
     git_probe id crew (quiet_verify cache (refs_remote branch)) ≫= fun known : bool =>
     if known then git_probe id crew ["-C"; cache; "merge-base"; "--is-ancestor"; refs_heads branch; refs_remote branch] else mret false
   else mret false) ≫= fun contained : bool =>
  if cached && negb contained then
    _ ← git id crew ["-C"; ws; "fetch"; "--quiet"; "--no-auto-gc"; "--update-head-ok"; cache;
                     "+" +:+ refs_heads branch +:+ ":" +:+ refs_heads branch];
    _ ← git id crew ["-C"; ws; "checkout"; "--quiet"; branch];
    git_probe id crew (quiet_verify ws (refs_remote branch)) ≫= fun known : bool =>
    if known then _ ← git id crew ["-C"; ws; "branch"; "--quiet"; "--set-upstream-to=origin/" +:+ branch; branch]; mret tt
    else mret tt
  else
    let start := if contained then branch else start_ref in
    _ ← git id crew ["-C"; ws; "checkout"; "--quiet"; "-B"; branch; "origin/" +:+ start]; mret tt.

(** ** The index after a clone *)

Definition PAST_SECOND_MARGIN : N := 20 * 1000000.
Definition PAST_SECOND_MAX : N := 1100 * 1000000.
Definition INDEX_REFRESH_DEADLINE : N := secs 60.

(** Times as nanoseconds since the epoch; an earlier [written] counts as the
    epoch. *)
Definition wait_past_second (written now : Z) : N :=
  let second := Z.to_N (written / 1000000000) in
  let target := (Z.of_N (secs (second + 1) + PAST_SECOND_MARGIN))%Z in
  N.min (Z.to_N (target - now)) PAST_SECOND_MAX.

(** An index refreshed, or why not. *)
Definition try_refresh (id : string) (crew : CrewPaths) (agent : AgentPaths) : Step W string unit :=
  written ← (fun w => (map_err (fun e => "cannot read the index's mtime: " +:+ io_message e)
                         (h_modified host w (path_join (dot_git agent) "index")), w, []));
  _ ← step_map_err to_string (write_git_profile id agent crew);
  with_home agent (fun e => gf_stderr (home_failure agent e)) (fun home =>
    let c := cmd_timeout INDEX_REFRESH_DEADLINE (cmd_args ["update-index"; "-q"; "--refresh"]
               (cmd_args (git_command crew agent) (sandboxed_base crew agent true (Some (dot_git agent)) home))) in
    _ ← (fun w => (Ok tt, h_sleep host (wait_past_second written (h_now host w)) w, []));
    _ ← step_map_err (fun f => match cf_timed_out f with
                               | Some d => "timed out after " +:+ pretty (d / 1000000000)%N +:+ "s: " +:+ cf_stderr f
                               | None => cf_stderr f
                               end) (run c [0%Z]);
    mret tt).

(** A refresh that failed is a warning in the crew's log, and no failure. *)
Definition refresh_index (id : string) (crew : CrewPaths) (agent : AgentPaths) : Step W MaterializeError unit := fun w =>
  let '(r, w, es) := try_refresh id crew agent w in
  match r with
  | Ok _ => (Ok tt, w, es)
  | Err error =>
      let lock := path_join (dot_git agent) "index.lock" in
      let '(gone, w) := h_remove_file host lock w in
      let removed := if is_ok gone then " (removed the " +:+ lock +:+ " it left)" else EmptyString in
      let line := "# warning: " +:+ id +:+ ": index refresh after the clone failed, so reads re-hash the files the checkout wrote until the index is next written"
                    +:+ removed +:+ ": " +:+ trim error in
      (Ok tt, h_append host (git_log crew) line w, es ++ [Unlinked lock; Logged (git_log crew) line])
  end.

Definition ensure_clone (id : string) (crew : CrewPaths) (agent : AgentPaths) (repo : RepoRef) (branch start_ref : string) : Step W MaterializeError unit :=
  settled ← settle_clone id crew agent branch;
  match settled with
  | Kept => mret tt
  | SettledRecord => record_branch id agent branch
  | SettledDirty old =>
      step_err (MInvalid id (dirty_clone old branch +:+ "; commit or discard them in " +:+ ap_workspace agent +:+ " first"))
  | SettledWorktree =>
      step_err (MInvalid id (ap_workspace agent +:+ ": created by balerix 0.1 as a worktree; run `balerix down " +:+ fleet_of id +:+
        " --purge` and `up` again (push unpushed work first)"))
  | SettledRemove _ _ | NoClone =>
      _ ← remove_tree id (ap_workspace agent);
      _ ← step_or_else (discard_half_made id (ap_workspace agent)) (create_clone id crew agent repo branch start_ref);
      _ ← refresh_index id crew agent;
      record_branch id agent branch
  end.

Definition assigned_branch (id : string) (crew : CrewPaths) (agent : AgentPaths) : Step W MaterializeError (option string) := fun w =>
  match read_to_string w (branch_of agent) with
  | Ok m => if is_empty (trim m) then head_branch id crew agent w else (Ok (Some (trim m)), w, [])
  | Err e => if io_not_found e then head_branch id crew agent w else (Err (io_failed id (branch_of agent) e), w, [])
  end.

Definition harvest_checked (id : string) (crew : CrewPaths) (agent : AgentPaths) : Step W MaterializeError (option string) :=
  step_get (fun w => h_is_dir host w (path_join (cp_repo crew) ".git") && h_is_dir host w (dot_git agent)) ≫= fun both : bool =>
  if negb both then mret None
  else
    _ ← check_clone id crew agent;
    _ ← prepare_sandbox id crew agent;
    _ ← check_clone_config id crew agent;
    branch ← assigned_branch id crew agent;
    match branch with
    | None => mret None
    | Some branch => harvest id crew agent branch ≫= fun harvested : bool => mret (if harvested then Some branch else None)
    end.

Definition harvest_only := harvest_checked.

Definition harvest_and_remove (id : string) (crew : CrewPaths) (agent : AgentPaths) : Step W MaterializeError unit :=
  _ ← harvest_checked id crew agent;
  remove_tree id (ap_workspace agent).

(** ** The cache *)

Definition detach_cache_head (id : string) (crew : CrewPaths) : Step W MaterializeError unit :=
  head ← git id crew ["-C"; cp_repo crew; "symbolic-ref"; "HEAD"];
  sha ← git id crew ["-C"; cp_repo crew; "for-each-ref"; "--format=%(objectname)"; trim head];
  if is_empty (trim sha) then mret tt
  else
    _ ← git id crew ["-C"; cp_repo crew; "update-ref"; "--no-deref"; "HEAD"; trim sha];
    _ ← git id crew ["-C"; cp_repo crew; "update-ref"; "-d"; trim head];
    mret tt.

Definition ensure_repo (id : string) (crew : CrewPaths) (repo : RepoRef) : Step W MaterializeError unit :=
  step_get (fun w => h_is_dir host w (path_join (cp_repo crew) ".git")) ≫= fun there : bool =>
  if there then mret tt
  else
    _ ← create_dir_all id (cp_root crew);
    _ ← git id crew ["clone"; "--quiet"; "--no-checkout"; clone_url repo; cp_repo crew];
    step_or_else (discard_half_made id (cp_repo crew))
      (_ ← git id crew ["-C"; cp_repo crew; "config"; "gc.auto"; "0"]; detach_cache_head id crew).

Definition sync_cache (id : string) (crew : CrewPaths) (repo : RepoRef) (git_ref : string) : Step W MaterializeError string :=
  _ ← ensure_repo id crew repo;
  _ ← create_dir_all id (no_hooks crew);
  _ ← git id crew ["-C"; cp_repo crew; "fetch"; "--quiet"; "--no-auto-gc"; "--prune"; "origin"];
  let remote := "refs/remotes/origin/" +:+ git_ref +:+ "^{commit}" in
  git_probe id crew ["-C"; cp_repo crew; "rev-parse"; "--verify"; "--quiet"; remote] ≫= fun known : bool =>
  if negb known then step_err (MInvalid id ("the remote has no branch " +:+ git_ref))
  else sha ← git id crew ["-C"; cp_repo crew; "rev-parse"; "--verify"; remote]; mret (trim sha).
End workspace.

