(* ===== verification/Harvest.v ===== *)
(** Clones are never lost: what an existing clone's commands run under, what a
    harvest that ended well has saved, and when a workspace is removed
    ([Git.v]'s steps, [crates/balerix-runtime/src/workspace.rs]). *)

From S2P Require Import Prelude Str Json Bytes Names Repo Paths Execute Layout Sandbox Launch Cmd Git.

(** ** What steps emit *)

Section emits.
Context {W E : Type}.

Lemma bind_inv {A B} (m : Step W E A) (f : A -> Step W E B) w r w' es :
  (m ≫= f) w = (r, w', es) ->
  (exists e, m w = (Err e, w', es) /\ r = Err e) \/
  (exists a w1 es1 es2, m w = (Ok a, w1, es1) /\ f a w1 = (r, w', es2) /\ es = es1 ++ es2).
Proof.
  change (m ≫= f) with (step_bind f m). unfold step_bind. destruct (m w) as [[[a|e] w1] es1].
  - destruct (f a w1) as [[r2 w2] es2] eqn:E2. intros [= <- <- <-]. right. by exists a, w1, es1, es2.
  - intros [= <- <- <-]. left. by exists e.
Qed.

Lemma bind_Ok_inv {A B} (m : Step W E A) (f : A -> Step W E B) w b w' es :
  (m ≫= f) w = (Ok b, w', es) -> exists a w1 es1 es2, m w = (Ok a, w1, es1) /\ f a w1 = (Ok b, w', es2) /\ es = es1 ++ es2.
Proof. intros [(e & _ & ?)|?]%bind_inv; done. Qed.

Lemma bind_run {A B} (m : Step W E A) (f : A -> Step W E B) w a w1 es1 : m w = (Ok a, w1, es1) ->
  (m ≫= f) w = let '(r, w2, es2) := f a w1 in (r, w2, es1 ++ es2).
Proof. intros Hm. change (m ≫= f) with (step_bind f m). unfold step_bind. rewrite Hm. by destruct (f a w1) as [[]]. Qed.

(** Whatever happens, every event is [P]. *)
Definition emits (P : Event -> Prop) {A} (m : Step W E A) : Prop := forall w r w' es, m w = (r, w', es) -> Forall P es.

Context (P : Event -> Prop).

Lemma emits_ret {A} (a : A) : emits P (mret a).
Proof. intros w r w' es [= <- <- <-]. constructor. Qed.
Lemma emits_err {A} (e : E) : emits P (step_err (A := A) e).
Proof. intros w r w' es [= <- <- <-]. constructor. Qed.
Lemma emits_get {A} (f : W -> A) : emits P (step_get (E := E) f).
Proof. intros w r w' es [= <- <- <-]. constructor. Qed.
Lemma emits_bind {A B} (m : Step W E A) (f : A -> Step W E B) : emits P m -> (forall a, emits P (f a)) -> emits P (m ≫= f).
Proof.
  intros Hm Hf w r w' es [(e & He & _)|(a & w1 & es1 & es2 & H1 & H2 & ->)]%bind_inv; [by eapply Hm|].
  apply Forall_app. split; [by eapply Hm|by eapply Hf].
Qed.
End emits.

Section emits_more.
Context {W : Type}.

Lemma emits_map_err {E F A} (P : Event -> Prop) (f : E -> F) (m : Step W E A) : emits P m -> emits P (step_map_err f m).
Proof. intros Hm w r w' es. unfold step_map_err. destruct (m w) as [[r1 w1] es1] eqn:E1. intros [= <- <- <-]. by eapply Hm. Qed.

Lemma emits_or_else {E F A} (P : Event -> Prop) (f : E -> Step W F A) (m : Step W E A) :
  emits P m -> (forall e, emits P (f e)) -> emits P (step_or_else f m).
Proof.
  intros Hm Hf w r w' es. unfold step_or_else. destruct (m w) as [[[a|e] w1] es1] eqn:E1.
  - intros [= <- <- <-]. by eapply Hm.
  - destruct (f e w1) as [[r2 w2] es2] eqn:E2. intros [= <- <- <-]. apply Forall_app. split; [by eapply Hm|by eapply Hf].
Qed.

Lemma map_err_inv {E F A} (f : E -> F) (m : Step W E A) w a w' es :
  step_map_err f m w = (Ok a, w', es) -> m w = (Ok a, w', es).
Proof. unfold step_map_err. destruct (m w) as [[[]]]; by intros [= <- <- <-]. Qed.
End emits_more.

Create HintDb emits.
#[export] Hint Resolve emits_ret emits_err emits_get emits_bind emits_map_err emits_or_else : emits.

(** ** The scan for symlinks *)

Fixpoint tree_ok (root path : string) (t : Tree) : Prop :=
  match t with
  | TreeLeaf symlink => symlink = false
  | TreeGone e | TreeNoList e => path <> root /\ io_not_found e = true
  | TreeDir entries => foldr (fun e k => match e with inl _ => False | inr (name, t) => tree_ok root (path_join path name) t /\ k end) True entries
  end.

Definition todo_size (todo : list (string * Tree)) : nat := foldr (fun x n => tree_size x.2 + n) 0 todo.
Definition todo_ok (root : string) (todo : list (string * Tree)) : Prop := Forall (fun x => tree_ok root x.1 x.2) todo.

Lemma push_entries_spec root path entries todo :
  match push_entries path entries todo with
  | Ok todo' => todo_size todo' = foldr (fun e n => match e with inl _ => n | inr (_, t) => tree_size t + n end) 0 entries + todo_size todo /\
      (todo_ok root todo' <-> tree_ok root path (TreeDir entries) /\ todo_ok root todo)
  | Err _ => ~ tree_ok root path (TreeDir entries)
  end.
Proof.
  revert todo. induction entries as [|[e|[name t]] entries IH]; intros todo; cbn [push_entries].
  - split; [done|]. cbn. tauto.
  - cbn. tauto.
  - specialize (IH ((path_join path name, t) :: todo)). destruct (push_entries path entries _) as [todo'|err].
    + destruct IH as [Hs Hok]. split; [rewrite Hs; cbn [todo_size foldr snd]; fold (todo_size todo); lia|]. rewrite Hok. unfold todo_ok. rewrite Forall_cons. cbn. tauto.
    + cbn in *. tauto.
Qed.

Lemma scan_spec root fuel todo : todo_size todo <= fuel ->
  (scan fuel root todo = Ok None <-> todo_ok root todo).
Proof.
  revert todo. induction fuel as [|fuel IH]; intros todo Hf.
  - destruct todo as [|[p t] todo]; [by split; [constructor|]|]. exfalso. cbn in Hf. destruct t; cbn in Hf; lia.
  - destruct todo as [|[p t] todo]; [by split; [constructor|]|]. cbn [scan]. unfold todo_ok. rewrite Forall_cons. cbn [fst snd].
    fold (todo_ok root todo). cbn [todo_size foldr snd] in Hf. fold (todo_size todo) in Hf.
    assert (forall e, (if negb (bool_decide (p = root)) && io_not_found e then scan fuel root todo else Err (p, e)) = Ok None <->
      (p <> root /\ io_not_found e = true) /\ todo_ok root todo) as Hvanish.
    { intros e. case_bool_decide as Hp; cbn [negb andb]; [naive_solver|]. destruct (io_not_found e); [|naive_solver].
      rewrite IH by (destruct t; cbn in Hf; lia). naive_solver. }
    destruct t as [[]|e|entries|e]; cbn [tree_ok]; [naive_solver| |by apply Hvanish| |by apply Hvanish].
    + cbn in Hf. rewrite IH by lia. naive_solver.
    + pose proof (push_entries_spec root p entries todo) as Hpush. destruct (push_entries p entries todo) as [todo'|err].
      * destruct Hpush as [Hs Hok]. rewrite IH; [exact Hok|]. rewrite Hs. cbn [tree_size] in Hf. lia.
      * cbn [tree_ok] in Hpush. naive_solver.
Qed.

(** The clone's object store is scanned whole: it passes exactly when nothing
    in it is a link and everything is readable, or gone meanwhile. *)
Lemma first_symlink_none root t : first_symlink_in root t = Ok None <-> tree_ok root root t.
Proof.
  unfold first_symlink_in. rewrite scan_spec by (unfold todo_size; cbn [foldr snd]; lia). unfold todo_ok. rewrite Forall_singleton. done.
Qed.

(** ** What runs in an existing clone *)

Section safety.
Context {W : Type} (host : Host W) (tools : ToolPaths).
Context (gh_config_dir : option string) (cache_is_read_only : bool) (git_read : list string) (policy : SocketPolicy).
Context (pid : string) (to_vec_pretty : Value -> string).
Context `{Unicode} (crew : CrewPaths) (agent : AgentPaths).

Notation agent_git := (agent_git host tools policy).
Notation harvest := (harvest host tools gh_config_dir policy).
Notation settle_clone := (settle_clone host tools gh_config_dir git_read policy pid to_vec_pretty).
Notation harvest_checked := (harvest_checked host tools gh_config_dir git_read policy pid to_vec_pretty).
Notation harvest_and_remove := (harvest_and_remove host tools gh_config_dir git_read policy pid to_vec_pretty).
Notation daemon_git := (daemon_git tools gh_config_dir).
Notation fetch_args := (fetch_args tools policy).

(** The sandbox's command: nono, from an empty environment, under the agent's
    git profile. *)
Definition under_profile (c : Cmd) : Prop :=
  c_program c = tp_nono tools /\ c_clear c = true /\ sandbox_args tools policy agent `prefix_of` c_args c.

(** The only command the daemon runs itself: the fetch into the cache, its
    serving side under the profile. *)
Definition harvest_fetch (c : Cmd) : Prop := exists branch home, c = daemon_git crew (fetch_args crew agent branch home).

(** What writing the profile runs: git asked for its own directory, from an
    empty environment, and nono asked whether the profile is one. *)
Definition profile_tool (c : Cmd) : Prop :=
  c = cmd_args ["--exec-path"] (cmd_env "PATH" (outer_path tools) (cmd_env_clear (new_cmd (tp_git tools)))) \/
  exists home, c = cmd_log (path_join (ap_logs agent) "nono.validate.log") false
                     (cmd_env "HOME" home (cmd_args ["-s"; "profile"; "validate"; ap_git_profile agent] (new_cmd (tp_nono tools)))).

Definition git_profile_of (canonicalize : string -> option string) (id : AgentId) (exec_path : string) : Value :=
  apply_to_profile (render_git_profile canonicalize id agent crew (tp_git tools) exec_path git_read) policy [] (tp_balerix tools).

(** What writing the profile does. *)
Definition profile_event (e : Event) : Prop :=
  match e with
  | Ran c _ _ => profile_tool c
  | Wrote path bytes mode => path = ap_git_profile agent /\ mode = 384%N /\
      exists canonicalize id exec_path, bytes = to_vec_pretty (git_profile_of canonicalize id exec_path)
  | Swept dir name => parent (ap_nono_home agent) = Some dir /\ stale_home pid (name, true) = true
  | _ => False
  end.

Definition profiled (e : Event) : Prop := profile_event e \/ match e with Ran c _ _ => under_profile c | _ => False end.

Definition confined (e : Event) : Prop := profiled e \/ match e with Ran c _ _ => harvest_fetch c | _ => False end.

Lemma emits_weaken {E A} (P Q : Event -> Prop) (m : Step W E A) : (forall e, P e -> Q e) -> emits P m -> emits Q m.
Proof. intros HPQ Hm w r w' es Hrun%Hm. eapply Forall_impl; [done|]. apply HPQ. Qed.

Lemma emits_confined {E A} (m : Step W E A) : emits profiled m -> emits confined m.
Proof. apply emits_weaken. by left. Qed.

Lemma emits_with_home {E A} (P : Event -> Prop) failed (f : string -> Step W E A) :
  (forall home, emits P (f home)) -> emits P (with_home host agent failed f).
Proof.
  intros Hf w r w' es. unfold with_home. destruct (h_scratch _ _ _) as [[home|e] w1]; [|by intros [= <- <- <-]].
  destruct (f home w1) as [[r2 w2] es2] eqn:E2. intros [= <- <- <-]. by eapply Hf.
Qed.

Lemma emits_run (P : Event -> Prop) c accepted : (forall exit, P (Ran c accepted exit)) -> emits P (run host c accepted).
Proof.
  intros Hc w r w' es. unfold run. destruct (h_spawn host c w) as [exit w1]. intros [= <- <- <-]. by repeat constructor.
Qed.

Lemma sandboxed_under full home args more : under_profile (cmd_args args (cmd_args more (sandboxed_base tools policy crew agent full None home))).
Proof.
  split; [done|]. split; [done|]. cbn [cmd_args c_args]. unfold sandboxed_base. cbn [cmd_args c_args cmd_log cmd_env cmd_env_clear new_cmd app].
  rewrite <- app_assoc. by eexists.
Qed.

Lemma emits_agent_git id args accepted : emits profiled (agent_git id crew agent args accepted).
Proof.
  unfold Git.agent_git. apply emits_bind; [|intros; apply emits_ret]. apply emits_map_err. unfold sandboxed_git. apply emits_with_home.
  intros home. apply emits_bind.
  - apply emits_map_err, emits_run. intros exit. right. cbn [with_deadline]. apply sandboxed_under.
  - intros [out chunks]. destruct (negb _); [apply emits_err|apply emits_ret].
Qed.

Lemma emits_head_branch id : emits profiled (head_branch host tools policy id crew agent).
Proof. unfold head_branch. apply emits_bind; [apply emits_agent_git|]. intros; apply emits_ret. Qed.

Lemma emits_check_clone id : emits profiled (check_clone host id crew agent).
Proof. intros w r w' es. unfold check_clone. intros [= <- <- <-]. constructor. Qed.

Lemma emits_check_config id : emits profiled (check_clone_config host tools policy id crew agent).
Proof.
  unfold check_clone_config. apply emits_bind; [apply emits_agent_git|]. intros keys. destruct (trim <$> _) as [key|]; [|apply emits_ret].
  destruct (is_empty key); [apply emits_ret|apply emits_err].
Qed.

Lemma emits_starts {E} deadline : emits profiled (sandbox_starts (E := E) host tools policy agent deadline).
Proof.
  intros w r w' es. unfold sandbox_starts. destruct (h_scratch _ _ _) as [[home|e] w1]; [|by intros [= <- <- <-]].
  unfold run. destruct (h_spawn host _ w1) as [exit w2]. intros [= <- <- <-]. constructor; [|done]. right.
  split; [done|]. split; [done|]. cbn. by eexists.
Qed.

Lemma emits_sweep {E} : emits profile_event (sweep_stale_homes (E := E) host pid agent).
Proof.
  unfold sweep_stale_homes. destruct (parent _) as [dir|] eqn:Hp; [|apply emits_ret].
  intros w r w' es. unfold sweep_stale_homes_in. destruct (h_read_dir host w dir) as [entries|]; intros [= <- <- <-]; [|constructor].
  apply Forall_fmap, Forall_forall. intros name [[n d] [-> [Hstale _]%list_elem_of_filter]]%list_elem_of_fmap. split; [done|].
  unfold stale_home in *. cbn [fst snd] in *. destruct (scratch_rest n); [|done]. by destruct (negb _), d.
Qed.

Lemma emits_write_profile id : emits profile_event (write_git_profile host tools git_read policy pid to_vec_pretty id agent crew).
Proof.
  unfold write_git_profile. apply emits_bind; [by intros w r w' es [= <- <- <-]|]. intros aid.
  assert (forall path, emits profile_event (create_dir_all host id path)) as Hdir.
  { intros path w r w' es. unfold create_dir_all. destruct (h_create_dir_all _ _ _). by intros [= <- <- <-]. }
  do 3 (apply emits_bind; [apply Hdir|intros _]). apply emits_bind; [apply emits_sweep|]. intros _. apply emits_bind.
  { unfold git_exec_path. apply emits_bind.
    - apply emits_map_err, emits_run. intros exit. by left.
    - intros out. apply emits_bind; [by intros w r w' es [= <- <- <-]|]. intros dir. apply emits_bind; [apply emits_get|].
      intros []; [apply emits_ret|apply emits_err]. }
  intros exec. apply emits_bind; [apply emits_get|]. intros canonicalize. apply emits_bind.
  { intros w r w' es. unfold write_profile_at. destruct (bool_decide _); [by intros [= <- <- <-]|].
    destruct (h_write_atomic _ _ _ _ _). intros [= <- <- <-]. constructor; [|done]. split; [done|]. split; [done|]. by eexists _, _, _. }
  intros []; [|apply emits_ret]. apply emits_with_home. intros home. unfold validate_profile_at. apply emits_bind; [|intros; apply emits_ret].
  apply emits_map_err, emits_run. intros exit. right. by exists home.
Qed.

Lemma emits_prepare id : emits profiled (prepare_sandbox host tools git_read policy pid to_vec_pretty id crew agent).
Proof.
  unfold prepare_sandbox. apply emits_bind; [eapply emits_weaken; [|apply emits_write_profile]; by left|]. intros _. apply emits_or_else.
  - apply emits_bind; [apply emits_agent_git|]. intros; apply emits_ret.
  - intros [id' tool sub args stderr| | |]; try apply emits_err. apply emits_bind; [|intros; apply emits_err].
    unfold git_read_hint. apply emits_bind; [apply emits_starts|]. intros; apply emits_ret.
Qed.

Lemma emits_harvest id branch : emits confined (harvest id crew agent branch).
Proof.
  unfold Git.harvest. apply emits_bind; [apply emits_confined, emits_agent_git|]. intros present. destruct (is_empty _); [apply emits_ret|].
  apply emits_with_home. intros home. apply emits_bind; [|intros; apply emits_ret]. unfold git. apply emits_bind; [|intros; apply emits_ret].
  unfold git_accepting. apply emits_bind; [|intros; apply emits_ret]. apply emits_map_err, emits_run. intros exit. right. by exists branch, home.
Qed.

Lemma emits_assigned id : emits profiled (assigned_branch host tools policy id crew agent).
Proof.
  intros w r w' es. unfold assigned_branch. destruct (read_to_string _ _ _) as [m|e].
  - destruct (is_empty _); [apply emits_head_branch|]. by intros [= <- <- <-].
  - destruct (io_not_found e); [apply emits_head_branch|]. by intros [= <- <- <-].
Qed.

Lemma emits_settle id branch : emits confined (settle_clone id crew agent branch).
Proof.
  unfold Git.settle_clone. apply emits_bind; [apply emits_get|]. intros [].
  - apply emits_bind; [apply emits_confined, emits_check_clone|]. intros _. apply emits_bind; [apply emits_get|]. intros marker.
    destruct (bool_decide _); [apply emits_ret|]. apply emits_bind; [apply emits_confined, emits_prepare|]. intros _.
    apply emits_bind; [apply emits_confined, emits_check_config|]. intros _. apply emits_bind; [apply emits_confined, emits_head_branch|]. intros head.
    apply emits_bind.
    + unfold decide_clone. destruct (bool_decide _); [apply emits_ret|]. destruct (trim <$> head); [|apply emits_ret].
      destruct (bool_decide _); [apply emits_ret|]. apply emits_bind; [|intros; apply emits_ret].
      apply emits_bind; [apply emits_confined, emits_agent_git|]. intros; apply emits_ret.
    + intros []; try apply emits_ret. apply emits_bind; [apply emits_harvest|]. intros; apply emits_ret.
  - apply emits_bind; [apply emits_get|]. intros; apply emits_ret.
Qed.

Lemma emits_harvest_checked id : emits confined (harvest_checked id crew agent).
Proof.
  unfold Git.harvest_checked. apply emits_bind; [apply emits_get|]. intros []; cbn [negb]; [|apply emits_ret].
  apply emits_bind; [apply emits_confined, emits_check_clone|]. intros _. apply emits_bind; [apply emits_confined, emits_prepare|]. intros _.
  apply emits_bind; [apply emits_confined, emits_check_config|]. intros _. apply emits_bind; [apply emits_confined, emits_assigned|]. intros [branch|]; [|apply emits_ret].
  apply emits_bind; [apply emits_harvest|]. intros; apply emits_ret.
Qed.

(** A call in the clone, as it runs. *)
Definition agent_cmd (args : list string) (home : string) : Cmd :=
  cmd_args args (cmd_args (git_command tools crew agent) (sandboxed_base tools policy crew agent true None home)).

Lemma with_home_inv {E A} failed (f : string -> Step W E A) w a w' es :
  with_home host agent failed f w = (Ok a, w', es) -> exists home w1 w2, f home w1 = (Ok a, w2, es).
Proof.
  unfold with_home. destruct (h_scratch _ _ _) as [[home|e] w1]; [|done]. destruct (f home w1) as [[r w2] es2] eqn:Hf.
  intros [= -> <- <-]. by exists home, w1, w2.
Qed.

(** git itself answered [args] with [s]: exit 0, or an accepted exit with
    nothing on stderr. *)
Definition answered (args : list string) (s : string) (e : Event) : Prop :=
  exists home accepted code shown out err, e = Ran (agent_cmd args home) accepted (Exited (Some code) shown out err) /\ code ∈ accepted /\
    s = from_utf8_lossy (concat out) /\ (code = 0%Z \/ trim (tail_string (read_tail STDERR_LIMIT err)) = EmptyString).

Lemma agent_git_Ok id args accepted w s w' es : agent_git id crew agent args accepted w = (Ok s, w', es) ->
  exists e, es = [e] /\ answered args s e.
Proof.
  intros (out & w1 & es1 & es2 & Hs & Hret & ->)%bind_Ok_inv. injection Hret as <- <- <-. rewrite app_nil_r.
  apply map_err_inv, with_home_inv in Hs as (home & w2 & w3 & Hrun). apply bind_Ok_inv in Hrun as ([out' chunks] & w4 & es4 & es5 & Hrun & Hok & ->).
  apply map_err_inv in Hrun. unfold run in Hrun. destruct (h_spawn host _ w2) as [exit w5]. injection Hrun as Hexec <- <-.
  apply cmd_exec_Ok in Hexec as Hcode. destruct Hcode as (code & shown & stdout & stderr & -> & Hin & Hc & _).
  cbn in Hexec. rewrite bool_decide_true in Hexec by done. injection Hexec as <- <-.
  cbn [fst is_gits_answer co_code co_stderr] in Hok. destruct (negb _) eqn:Hans; [done|]. injection Hok as <- <- <-. rewrite app_nil_r.
  eexists. split; [done|]. exists home, accepted, code, shown, stdout, stderr. split_and!; [done..|].
  apply negb_false_iff in Hans. unfold is_gits_answer in Hans. cbn [co_code co_stderr] in Hans.
  apply orb_true_iff in Hans as [?%Z.eqb_eq|?%bool_decide_eq_true]; [by left|by right].
Qed.

(** The fetch of [branch] into the cache succeeded. *)
Definition saved (branch : string) (es : list Event) : Prop :=
  exists home shown out err, Ran (daemon_git crew (fetch_args crew agent branch home)) [0%Z] (Exited (Some 0%Z) shown out err) ∈ es.
(** git answered that the clone has no [branch]. *)
Definition absent (branch : string) (es : list Event) : Prop :=
  exists e s, e ∈ es /\ answered ["rev-parse"; "--verify"; "--quiet"; refs_heads branch] s e /\ trim s = EmptyString.
(** git answered that nothing in the tree is changed. *)
Definition clean (es : list Event) : Prop :=
  exists e s, e ∈ es /\ answered ["status"; "--porcelain"] s e /\ trim s = EmptyString.

Lemma harvest_Ok id branch w b w' es : harvest id crew agent branch w = (Ok b, w', es) -> if b then saved branch es else absent branch es.
Proof.
  intros (present & w1 & es1 & es2 & (e & -> & Hans)%agent_git_Ok & Hrest & ->)%bind_Ok_inv.
  destruct (is_empty (trim present)) eqn:Hp.
  - injection Hrest as <- <- <-. exists e, present. split; [by left|]. split; [done|]. by apply bool_decide_eq_true in Hp.
  - apply with_home_inv in Hrest as (home & w2 & w3 & Hrun). apply bind_Ok_inv in Hrun as (text & w4 & es4 & es5 & Hgit & Hret & ->). injection Hret as <- <- <-. rewrite app_nil_r.
    apply bind_Ok_inv in Hgit as (out & w5 & es6 & es7 & Hacc & Hret & ->). injection Hret as <- <- <-. rewrite app_nil_r.
    apply bind_Ok_inv in Hacc as (out' & w6 & es8 & es9 & Hr & Hret & ->). injection Hret as <- <- <-. rewrite app_nil_r.
    apply map_err_inv in Hr. unfold run in Hr. destruct (h_spawn host _ w2) as [exit w7]. injection Hr as Hexec <- <-.
    apply cmd_exec_Ok in Hexec as (code & shown & stdout & stderr & -> & Hin & _). apply list_elem_of_singleton in Hin as ->.
    exists home, shown, stdout, stderr. right. by left.
Qed.

Lemma saved_app branch l k : saved branch k -> saved branch (l ++ k).
Proof. intros (home & sh & out & err & Hin). exists home, sh, out, err. apply elem_of_app. by right. Qed.
Lemma absent_app branch l k : absent branch k -> absent branch (l ++ k).
Proof. intros (e & s & Hin & Hr). exists e, s. split; [|done]. apply elem_of_app. by right. Qed.
Lemma clean_app_l l k : clean l -> clean (l ++ k).
Proof. intros (e & s & Hin & Hr). exists e, s. split; [|done]. apply elem_of_app. by left. Qed.
Lemma clean_app l k : clean k -> clean (l ++ k).
Proof. intros (e & s & Hin & Hr). exists e, s. split; [|done]. apply elem_of_app. by right. Qed.

(** What is done before the marker is read: the clone checked, the profile
    made, the clone's own configuration checked. *)
Definition checked_clone (id : string) : Step W MaterializeError unit :=
  _ ← check_clone host id crew agent;
  _ ← prepare_sandbox host tools git_read policy pid to_vec_pretty id crew agent;
  check_clone_config host tools policy id crew agent.

(** The branch the marker names in a world, when it names one. *)
Definition marked (w : W) : option string :=
  match read_to_string host w (path_join (ap_root agent) ".branch") with
  | Ok m => if bool_decide (trim m = EmptyString) then None else Some (trim m)
  | Err _ => None
  end.

Definition kept (branch : string) (es : list Event) : Prop := saved branch es \/ absent branch es.

(** What a harvest that ended well has done: the branch of the marker is kept,
    and where the marker is missing or blank the branch git answered HEAD is on. *)
Definition harvested_all (id : string) (w : W) (es : list Event) : Prop :=
  h_is_dir host w (path_join (cp_repo crew) ".git") && h_is_dir host w (dot_git agent) = false \/
  exists wm es1 es2, checked_clone id w = (Ok tt, wm, es1) /\ es = es1 ++ es2 /\
    match marked wm with
    | Some branch => kept branch es2
    | None =>
        exists e s rest, es2 = e :: rest /\ answered ["symbolic-ref"; "-q"; "--short"; "HEAD"] s e /\
          (trim s = EmptyString \/ kept (trim s) rest)
    end.

Lemma assigned_Ok id w b w' es : assigned_branch host tools policy id crew agent w = (Ok b, w', es) ->
  match marked w with
  | Some branch => b = Some branch /\ es = []
  | None => exists e s, es = [e] /\ answered ["symbolic-ref"; "-q"; "--short"; "HEAD"] s e /\
      b = if bool_decide (trim s = EmptyString) then None else Some (trim s)
  end.
Proof.
  assert (head_branch host tools policy id crew agent w = (Ok b, w', es) ->
    exists e s, es = [e] /\ answered ["symbolic-ref"; "-q"; "--short"; "HEAD"] s e /\
      b = if bool_decide (trim s = EmptyString) then None else Some (trim s)) as Hhead.
  { intros (head & w1 & es1 & es2 & (e & -> & Hans)%agent_git_Ok & Hret & ->)%bind_Ok_inv. injection Hret as <- <- <-.
    exists e, head. done. }
  unfold assigned_branch, marked. change (branch_of agent) with (path_join (ap_root agent) ".branch").
  destruct (read_to_string _ _ _) as [m|e]; [|by destruct (io_not_found e)].
  unfold is_empty. case_bool_decide; [done|]. by intros [= <- <- <-].
Qed.

Lemma harvest_checked_Ok id w b w' es : harvest_checked id crew agent w = (Ok b, w', es) -> harvested_all id w es.
Proof.
  intros (both & w1 & es1 & es2 & Hget & Hrest & ->)%bind_Ok_inv. injection Hget as <- <- <-.
  unfold harvested_all. destruct (h_is_dir host w _ && h_is_dir host w _) eqn:Hb; [|by left]. cbn [negb app] in *. right.
  apply bind_Ok_inv in Hrest as ([] & w2 & es3 & es4 & Hc & Hrest & ->).
  apply bind_Ok_inv in Hrest as ([] & w3 & es5 & es6 & Hp & Hrest & ->).
  apply bind_Ok_inv in Hrest as ([] & w4 & es7 & es8 & Hg & Hrest & ->).
  exists w4, (es3 ++ es5 ++ es7), es8. split.
  { unfold checked_clone. by rewrite (bind_run _ _ _ _ _ _ Hc), (bind_run _ _ _ _ _ _ Hp), Hg. }
  split; [by rewrite <- !app_assoc|]. apply bind_Ok_inv in Hrest as (branch & w5 & es9 & es10 & Hbr%assigned_Ok & Hrest & ->).
  assert (forall br, branch = Some br -> kept br es10) as Hkept.
  { intros br ->. apply bind_Ok_inv in Hrest as (h & w6 & es11 & es12 & Hh%harvest_Ok & Hret & ->). injection Hret as <- <- <-.
    rewrite app_nil_r. destruct h; [by left|by right]. }
  destruct (marked w4) as [br|].
  - destruct Hbr as [-> ->]. by apply Hkept.
  - destruct Hbr as (e & s & -> & Hans & ->). exists e, s, es10. split; [done|]. split; [done|].
    case_bool_decide; [by left|right; by apply Hkept].
Qed.

(** C9: Deleting a clone loses no committed work of its branch: the workspace
    is removed only once the branch the marker names (where the marker is
    missing or blank, the branch git answered HEAD is on) was fetched into the
    cache, or git itself answered, in the sandbox, that the clone has no such
    branch or that HEAD is detached, or there was no clone or no cache; a
    harvest that fails removes nothing. Until then every process but that
    fetch, and the two that make the profile, runs under the profile, and
    nothing is written but it. *)
Theorem removal_keeps_branch id w r w' es : harvest_and_remove id crew agent w = (r, w', es) ->
  (exists e, r = Err e) /\ Forall confined es \/
  exists es1, es = es1 ++ [Removed (ap_workspace agent)] /\ Forall confined es1 /\ harvested_all id w es1.
Proof.
  intros [(e & He & ->)|(b & w1 & es1 & es2 & Hc & Hrm & ->)]%bind_inv.
  - left. split; [by exists e|]. by eapply emits_harvest_checked.
  - right. unfold remove_tree in Hrm. destruct (h_remove_dir_all _ _ _). injection Hrm as _ _ <-. exists es1. split; [done|].
    split; [by eapply emits_harvest_checked|]. by eapply harvest_checked_Ok.
Qed.

Lemma decide_recreate marker head branch (dirty : Step W MaterializeError bool) w old w' es :
  decide_clone marker head branch dirty w = (Ok (Recreate old), w', es) -> dirty w = (Ok false, w', es).
Proof.
  unfold decide_clone. destruct (bool_decide _); [done|]. destruct (trim <$> head) as [h|]; [|done]. destruct (bool_decide _); [done|].
  intros (d & w1 & es1 & es2 & Hd & Hret & ->)%bind_Ok_inv. destruct d; [done|]. injection Hret as _ <- <-. by rewrite app_nil_r.
Qed.

Lemma settle_Ok id branch w s w' es : settle_clone id crew agent branch w = (Ok s, w', es) ->
  match s with
  | SettledRemove old h => clean es /\ if h then saved old es else absent old es
  | NoClone => h_is_dir host w (dot_git agent) = false
  | _ => True
  end.
Proof.
  intros (d & w1 & es1 & es2 & Hget & Hrest & ->)%bind_Ok_inv. injection Hget as <- <- <-. cbn [app].
  destruct (h_is_dir host w (dot_git agent)) eqn:Hd; [|by destruct s; try done;
    apply bind_Ok_inv in Hrest as (there & w2 & es3 & es4 & _ & Hret & _); destruct there].
  apply bind_Ok_inv in Hrest as (u & w2 & es3 & es4 & _ & Hrest & ->).
  apply bind_Ok_inv in Hrest as (marker & w3 & es5 & es6 & _ & Hrest & ->).
  destruct (bool_decide _); [by injection Hrest as <- _ _|].
  apply bind_Ok_inv in Hrest as (u1 & w4 & es7 & es8 & _ & Hrest & ->).
  apply bind_Ok_inv in Hrest as (u2 & w5 & es9 & es10 & _ & Hrest & ->).
  apply bind_Ok_inv in Hrest as (head & w6 & es11 & es12 & _ & Hrest & ->).
  apply bind_Ok_inv in Hrest as (decision & w7 & es13 & es14 & Hdec & Hrest & ->).
  destruct decision as [| |old|old]; try (injection Hrest as <- _ _; done).
  apply bind_Ok_inv in Hrest as (h & w8 & es15 & es16 & Hh%harvest_Ok & Hret & ->). injection Hret as <- <- <-. rewrite app_nil_r.
  apply decide_recreate, bind_Ok_inv in Hdec as (st & w9 & es17 & es18 & (e & -> & Hans)%agent_git_Ok & Hret & ->).
  injection Hret as Hempty <- <-. apply negb_false_iff, bool_decide_eq_true in Hempty. rewrite app_nil_r. split.
  - do 5 apply clean_app. apply clean_app_l. exists e, st. split; [by left|]. done.
  - destruct h; [by repeat apply saved_app|by repeat apply absent_app].
Qed.

Lemma confined_not_removed es : Forall confined es -> Removed (ap_workspace agent) ∉ es.
Proof. intros Hes Hin. rewrite Forall_forall in Hes. by destruct (Hes _ Hin) as [[|]|]. Qed.

(** A clone is replaced only when it is clean and its branch is in the cache,
    or gone from the clone; and only then is anything removed. *)
Lemma ensure_clone_keeps repo id branch start_ref w r w' es :
  ensure_clone host tools gh_config_dir cache_is_read_only git_read policy pid to_vec_pretty id crew agent repo branch start_ref w = (r, w', es) ->
  Removed (ap_workspace agent) ∉ es \/
  exists es1 es2, es = es1 ++ Removed (ap_workspace agent) :: es2 /\ Forall confined es1 /\
    (h_is_dir host w (dot_git agent) = false \/ clean es1 /\ exists old, saved old es1 \/ absent old es1).
Proof.
  intros [(e & He & ->)|(s & w1 & es1 & es2 & Hs & Hrest & ->)]%bind_inv.
  { left. apply confined_not_removed. by eapply emits_settle. }
  pose proof (emits_settle id branch _ _ _ _ Hs) as Hconf. pose proof (settle_Ok _ _ _ _ _ _ Hs) as Hwhat.
  assert (forall m, (_ ← remove_tree host id (ap_workspace agent); m) w1 = (r, w', es2) -> exists es3, es2 = Removed (ap_workspace agent) :: es3) as Hrm.
  { intros m [(e & Hrm & _)|(u & w2 & es3 & es4 & Hrm & _ & ->)]%bind_inv; unfold remove_tree in Hrm; destruct (h_remove_dir_all _ _ _);
      injection Hrm as _ _ <-; by eexists. }
  destruct s as [| | |old h|old|].
  - left. injection Hrest as <- <- <-. rewrite app_nil_r. by apply confined_not_removed.
  - left. unfold record_branch in Hrest. destruct (h_write_atomic _ _ _ _ _). injection Hrest as _ _ <-.
    rewrite elem_of_app. intros [?|Hin]; [by apply (confined_not_removed es1)|]. apply list_elem_of_singleton in Hin. done.
  - right. destruct (Hrm _ Hrest) as [es3 ->]. exists es1, es3. split; [done|]. split; [done|]. by left.
  - right. destruct (Hrm _ Hrest) as [es3 ->]. exists es1, es3. split; [done|]. split; [done|]. right. destruct Hwhat as [Hc Hs'].
    split; [done|]. exists old. destruct h; [by left|by right].
  - left. injection Hrest as <- <- <-. rewrite app_nil_r. by apply confined_not_removed.
  - left. injection Hrest as <- <- <-. rewrite app_nil_r. by apply confined_not_removed.
Qed.
End safety.

(** ** The profile *)

Lemma get_fields v k x : get v k = Some x -> fields_of v !! k = Some x.
Proof. unfold get, fields_of. by destruct (as_object v). Qed.

(** What the git profile lets git read. *)
Definition git_reads (git_read : list string) (crew : CrewPaths) (agent : AgentPaths) (git exec : string) : list string :=
  SYSTEM_READ ++ [git; exec] ++ git_read ++ [cache_objects crew; no_hooks crew; ap_workspace agent].

(** Whatever the policy, the git profile grants nothing but reads: the system
    prefixes, git, its exec-path, the operator's own prefixes, the cache's
    objects, the hooks directory, the workspace and, when sockets are denied,
    the wrapper; and no network. *)
Lemma git_profile_reads tools git_read policy crew agent canonicalize id exec :
  let profile := git_profile_of tools git_read policy crew agent canonicalize id exec in
  let reads := git_reads git_read crew agent (default (tp_git tools) (canonicalize (tp_git tools))) exec in
  (exists l, get profile "filesystem" = Some (object_of [("read", strs l)]) /\
     forall p, p ∈ l <-> p ∈ reads \/ policy = Deny /\ p = tp_balerix tools) /\
  get profile "network" = Some (object_of [("block", VBool true)]).
Proof.
  intros profile reads. subst profile. unfold git_profile_of.
  set (v := render_git_profile canonicalize id agent crew (tp_git tools) exec git_read).
  assert (get v "filesystem" = Some (object_of [("read", strs reads)])) as Hfs by reflexivity.
  assert (get v "network" = Some (object_of [("block", VBool true)])) as Hnet by reflexivity. clearbody v reads.
  assert (forall v k key init f x, k <> key -> get v k = Some x -> get (at_child key init f v) k = Some x) as Hother.
  { intros v' k key init f x Hk Hget. rewrite at_child_lookup, decide_False by done. by apply get_fields. }
  destruct policy; cbn [apply_to_profile]; [| |split; [by exists reads; split; [exact Hfs|naive_solver]|exact Hnet]].
  - cbn [foldl]. split; [exists reads; split; [|naive_solver]|]; (apply Hother; [done|]); by apply Hother.
  - split; [|by apply Hother]. unfold push_unique. cbn [foldr]. rewrite at_child_lookup, decide_True by done. rewrite (get_fields _ _ _ Hfs). cbn [default].
    unfold at_child, push_entry. cbn. rewrite lookup_insert_eq. cbn.
    assert (forall l : list string, <["read" := VArray (VString <$> l)]> (<["read" := strs reads]> ∅) = list_to_map (M := gmap string Value) [("read", strs l)]) as Hmap.
    { intros l. by rewrite insert_insert_eq. }
    destruct (existsb _ _) eqn:Hin.
    + exists reads. rewrite Hmap. split; [done|]. apply existsb_exists in Hin as (x & (y & -> & Hy)%list_elem_of_In%list_elem_of_fmap & Hx%bool_decide_eq_true).
      cbn in Hx. naive_solver.
    + exists (reads ++ [tp_balerix tools]). change [VString (tp_balerix tools)] with (VString <$> [tp_balerix tools]).
      rewrite <- fmap_app, Hmap. split; [done|]. intros p. rewrite elem_of_app, list_elem_of_singleton. naive_solver.
Qed.

(** ** The index's second *)

(** After the wait the clock is past the second the index was written in, by
    the margin, however close to its end that was; and the wait is short. *)
Lemma wait_past_second_ok (written now : Z) : (0 <= written <= now)%Z ->
  let after := (now + Z.of_N (wait_past_second written now))%Z in
  ((written / 1000000000 + 1) * 1000000000 + Z.of_N PAST_SECOND_MARGIN <= after)%Z /\ (wait_past_second written now <= 1020000000)%N.
Proof.
  intros Hw. unfold wait_past_second, PAST_SECOND_MARGIN, PAST_SECOND_MAX, secs. cbn zeta.
  pose proof (Z.div_mod written 1000000000 ltac:(done)). pose proof (Z.mod_pos_bound written 1000000000 ltac:(done)).
  assert (0 <= written / 1000000000)%Z by (apply Z.div_pos; lia). lia.
Qed.

(** ** An example world *)

Section example.
Definition sample_agent_id : string := "demo/web/alice".
Definition sample_tools : ToolPaths :=
  {| tp_git := "/usr/bin/git"; tp_gh := "/usr/bin/gh"; tp_mise := "/usr/bin/mise"; tp_nono := "/usr/bin/nono"; tp_tmux := "/usr/bin/tmux"; tp_balerix := "/usr/bin/balerix" |}.
Definition sample_crew : CrewPaths := {| cp_root := "/s/web"; cp_repo := "/s/web/repo"; cp_logs := "/s/web/logs" |}.
Definition sample_agent : AgentPaths :=
  {| ap_root := "/s/a"; ap_home := "/s/a/home"; ap_workspace := "/s/a/workspace"; ap_nono_home := "/s/a/nono"; ap_mise_toml := "/s/a/mise.toml";
     ap_profile := "/s/a/p.json"; ap_launch := "/s/a/l.sh"; ap_git_profile := "/s/a/g.json"; ap_logs := "/s/a/logs" |}.
(** A git that answers, a clone on [main], nothing planted. *)
Definition sample_host : Host unit := {|
  h_spawn c w := (if bool_decide ("config" ∈ c_args c) then Exited (Some 1%Z) "exit status: 1" [] []
                  else Exited (Some 0%Z) "exit status: 0" ["abc"] [], w);
  h_lstat _ p := if ends_with p ".git" then Ok KindDir else Err (mkIoError true "gone");
  h_is_dir _ _ := true;
  h_exists _ _ := true;
  h_read _ p := if ends_with p "alternates" then Ok "/s/web/repo/.git/objects" else if ends_with p ".branch" then Ok "main" else Err (mkIoError true "gone");
  h_tree _ _ := TreeDir [];
  h_canonicalize _ p := Ok p;
  h_empty_dir _ _ := true;
  h_create_dir_all _ w := (Ok tt, w);
  h_scratch p w := (Ok (path_join p ".nono-git-1"), w);
  h_drop_scratch _ w := w;
  h_remove_dir_all _ w := (Ok tt, w);
  h_write_atomic _ _ _ w := (Ok tt, w);
  h_read_dir _ _ := Some [(".nono-git-7-0-1", true); ("home", true)];
  h_modified _ _ := Ok 0%Z;
  h_now _ := 0%Z;
  h_sleep _ w := w;
  h_remove_file _ w := (Ok tt, w);
  h_append _ _ w := w;
|}.
Definition sample_removal : result MaterializeError unit * unit * list Event :=
  harvest_and_remove sample_host sample_tools None [] Mediate "9" (fun _ => "{}") sample_agent_id sample_crew sample_agent tt.
End example.

Lemma removal_keeps_branch_witness :
  exists es1, sample_removal = (Ok tt, tt, es1 ++ [Removed "/s/a/workspace"]) /\
    Forall (confined sample_tools None [] Mediate "9" (fun _ => "{}") sample_crew sample_agent) es1 /\
    harvested_all sample_host sample_tools None [] Mediate "9" (fun _ => "{}") sample_crew sample_agent sample_agent_id tt es1.
Proof.
  destruct (removal_keeps_branch sample_host sample_tools None [] Mediate "9" (fun _ => "{}") sample_crew sample_agent sample_agent_id tt
    (Ok tt) tt sample_removal.2 ltac:(vm_compute; reflexivity)) as [[[e He] _]|(es1 & Hes & Hrest)]; [discriminate He|].
  exists es1. split; [|exact Hrest]. cbn [ap_workspace sample_agent] in Hes. rewrite <- Hes. vm_compute. reflexivity.
Defined.
