(* ===== verification/Reader.v ===== *)
(** Reading a workspace ([crates/balerix-runtime/src/inspect.rs], [impl
    WorkspaceReader for Runtime]): the diff, its version, one file, one
    listing. The git calls are [Git.v]'s steps, what they print is read by
    [Inspect.v] and [Patch.v], what may reach git's [--no-index] is
    [Untracked.v]'s, the fingerprint is [Version.v]'s. *)

From S2P Require Import Prelude Str Json Bytes BTree Names Rules Repo Paths Execute SandboxBlock Layout Sandbox Launch Cmd Git Harvest.
From S2P Require Import Patch Inspect Untracked Version.

(** ** Constants *)

Definition TIMEOUT_GRACE : N := secs 2.
Definition VERSION_BUDGET : N := secs 6.
Definition DIFF_BUDGET : N := secs 25.
Definition PATCH_ARGS_BUDGET : N := 256 * 1024.
Definition WORKSPACE_FILE_LIMIT : N := 1024 * 1024.
Definition WORKSPACE_TREE_ENTRY_LIMIT : nat := 5000.

Definition CONFIG : list string :=
  ["-c"; "core.quotePath=true"; "-c"; "diff.suppressBlankEmpty=false"; "-c"; "diff.noprefix=false"; "-c"; "diff.mnemonicPrefix=false";
   "-c"; "diff.srcPrefix=a/"; "-c"; "diff.dstPrefix=b/"].
Definition DIFF_FLAGS : list string := ["--no-ext-diff"; "--no-textconv"; "--no-color"; "--submodule=short"; "--ignore-submodules=dirty"].
Definition FILTER_KEYS : string := "^(filter\..*\.(clean|smudge|process)|extensions\.worktreeconfig|extensions\.partialclone|remote\..*\.promisor)$".
Definition PROBE : list string := ["config"; "--local"; "--includes"; "--name-only"; "--get-regexp"].
Definition STATUS : list string :=
  ["status"; "--porcelain=v2"; "-z"; "--branch"; "--no-ahead-behind"; "--untracked-files=all"; "--ignore-submodules=dirty"].
Definition VERSION_LISTING : list string := ["--name-only"; "-z"].
Definition DIFF_LISTING : list string := ["--name-status"; "-z"; "--find-renames"].

(** A script's text, its double quotes written as backquotes here: no script
    holds one. *)
Fixpoint sh_text (s : string) : string :=
  match s with
  | EmptyString => EmptyString
  | String a s => String (if bool_decide (a = "`"%char) then ascii_of_N 34 else a) (sh_text s)
  end.

Definition listing_start : string :=
  sh_text "base=$1 keys=$2
shift 2
found=$(`$@` config --local --includes --name-only --get-regexp `$keys` 2>&1)
case $? in
0) printf '%s' `$found`; exit 80 ;;
1) if [ -n `$found` ]; then printf '%s\n' `$found` >&2; exit 81; fi ;;
126|127) printf '%s\n' `$found` >&2; exit 85 ;;
*) printf '%s\n' `$found` >&2; exit 81 ;;
esac
mb=$(`$@` merge-base `$base` HEAD) || exit 83
printf '%s\000' `$mb`
".
Definition listing_end : string :=
  sh_text "printf '\000'
`$@` status --porcelain=v2 -z --branch --no-ahead-behind --untracked-files=all --ignore-submodules=dirty || exit 82
".
Definition VERSION_SCRIPT : string := listing_start +:+
  sh_text "`$@` diff --no-ext-diff --no-textconv --no-color --submodule=short --ignore-submodules=dirty --name-only -z `$mb` || exit 84
" +:+ listing_end.
Definition DIFF_LIST_SCRIPT : string := listing_start +:+
  sh_text "`$@` diff --no-ext-diff --no-textconv --no-color --submodule=short --ignore-submodules=dirty --name-status -z --find-renames `$mb` || exit 84
" +:+ listing_end.
Definition DIFF_PATCH_SCRIPT : string :=
  sh_text "mb=$1 keys=$2 mode=$3 nt=$4 nu=$5
shift 5
skip=$((nt + nu))
probe() {
shift `$skip`
`$@` config --local --includes --name-only --get-regexp `$keys` 2>&1
}
found=$(probe `$@`)
case $? in
0) printf '%s\n' `$found` >&2; exit 80 ;;
1) if [ -n `$found` ]; then printf '%s\n' `$found` >&2; exit 81; fi ;;
126|127) printf '%s\n' `$found` >&2; exit 85 ;;
*) printf '%s\n' `$found` >&2; exit 81 ;;
esac
combined() {
k=$# i=0
for a do
i=$((i + 1))
if [ `$i` -gt `$skip` ]; then set -- `$@` `$a`; fi
done
if [ `$mode` = paths ]; then set -- `$@` --literal-pathspecs; fi
set -- `$@` diff --no-ext-diff --no-textconv --no-color --submodule=short --ignore-submodules=dirty -U3 --find-renames `$mb`
if [ `$mode` = paths ]; then
set -- `$@` --
i=0
for a do
i=$((i + 1))
if [ `$i` -gt `$nt` ]; then break; fi
set -- `$@` `$a`
done
fi
shift `$k`
`$@`
}
pick() { shift `$1`; p=$1; }
untracked() {
shift `$skip`
`$@` diff --no-ext-diff --no-textconv --no-color --submodule=short --ignore-submodules=dirty --no-index -U3 -- /dev/null `$p`
}
if [ `$mode` != none ]; then
combined `$@`
printf '\000%d\n' `$?`
fi
j=0
while [ `$j` -lt `$nu` ]; do
j=$((j + 1))
pick $((nt + j)) `$@`
untracked `$@`
printf '\000%d\n' `$?`
done
".

(** ** Data *)

Inductive WorkspaceError :=
| WMissing (id : string)
| WNoSuchPath
| WInvalidPath (why : string)
| WNotAFile
| WNotADirectory
| WTooLarge (limit : N)
| WTool (id subcommand : string) (args : list string) (stderr : string)
| WTimedOut (id subcommand : string) (after : N)
| WFilter (key : string)
| WIo (path message : string).

Record ReadOp := { op_name : string; op_budget : N; op_by : N }.

Record WorkspaceDiff := { wd_base_ref : string; wd_merge_base : string; wd_head : string; wd_files : list FileDiff; wd_truncated : bool }.
Record WorkspaceVersion := { wv_head : string; wv_fingerprint : string }.
Inductive EntryKind := EkFile | EkDir | EkSymlink | EkOther.
Record TreeEntry := { te_name : string; te_kind : EntryKind; te_size : option N }.
Record WorkspaceTree := { wt_path : string; wt_entries : list TreeEntry; wt_truncated : bool }.

(** What [symlink_metadata] or an open file's [metadata] tells. *)
Record Meta := { m_kind : FileKind; m_len : N; m_dev : N; m_ino : N; m_mtime : Z; m_mtime_nsec : Z }.

(** What the reader asks of the worktree itself. *)
Record Files (W : Type) := {
  f_instant : W -> N;
  f_meta : W -> string -> result IoError Meta;
  f_open_dir : W -> string -> result IoError unit;
  f_names : W -> FileSystem;
  (** Following links: the handle's metadata, and its first bytes up to a
      limit. *)
  f_open : W -> string -> result IoError (Meta * (N -> result IoError string));
  f_read_dir : W -> string -> result IoError (list (result IoError (string * result IoError Meta)));
}.
Arguments f_instant {W}.
Arguments f_meta {W}.
Arguments f_open_dir {W}.
Arguments f_names {W}.
Arguments f_open {W}.
Arguments f_read_dir {W}.

Definition path_le (a b : FileDiff) : Prop := kle (fd_path a) (fd_path b).
#[export] Instance path_le_dec : RelDecision path_le.
Proof. intros a b. apply kle_dec. Defined.
#[export] Instance path_le_trans : Transitive path_le.
Proof. intros a b c. apply kle_trans. Qed.
#[export] Instance path_le_total : Total path_le.
Proof. intros a b. apply kle_total. Qed.

Definition io_error (path : string) (e : IoError) : WorkspaceError := WIo path (io_message e).

(** The entries of a listing kept so far, by the name shown and the raw name. *)
Notation KeptEntries := (gmap (string * string) (result IoError Meta)).

Section reader.
Context {W : Type} (host : Host W) (files : Files W) (tools : ToolPaths) (layout : StateLayout).
Context (git_read : list string) (policy : SocketPolicy) (pid : string) (to_vec_pretty : Value -> string).
(** [serde_json] on a file without its patch, and SHA-256 in hexadecimal. *)
Context (to_json : FileDiff -> option string) (sha256_hex : string -> string).
Context `{Unicode}.

(** ** One read's budget *)

Definition new_op (name : string) (budget : N) : Step W WorkspaceError ReadOp :=
  step_get (fun w => {| op_name := name; op_budget := budget; op_by := f_instant files w + budget |}).
Definition left_ (op : ReadOp) (w : W) : N := op_by op - f_instant files w.
Definition start_deadline (op : ReadOp) (w : W) : option N :=
  let d := (left_ op w - TIMEOUT_GRACE)%N in if (d =? 0)%N then None else Some d.
Definition timed_out (op : ReadOp) (id : string) : WorkspaceError := WTimedOut id (op_name op) (op_budget op).

(** ** The agent's workspace *)

Definition workspace_of (agent : AgentId) : Step W WorkspaceError (AgentPaths * CrewPaths) :=
  let paths := agent_paths layout agent in
  step_get (fun w => h_is_dir host w (ap_workspace paths)) ≫= fun there : bool =>
  if there then mret (paths, crew_paths layout (crew_ref agent)) else step_err (WMissing (to_string agent)).

Definition sandboxed_workspace_of (agent : AgentId) : Step W WorkspaceError (AgentPaths * CrewPaths) :=
  pc ← workspace_of agent;
  let id := to_string agent in
  _ ← step_map_err (fun e =>
        match e with
        | MIo _ path message => WIo path message
        | MTool _ _ subcommand args stderr => WTool id subcommand args stderr
        | other => WTool id "git profile" [] (to_string other)
        end) (write_git_profile host tools git_read policy pid to_vec_pretty id pc.1 pc.2);
  mret pc.

(** ** One start *)

Section call.
Context (id : string) (crew : CrewPaths) (paths : AgentPaths) (op : ReadOp).

Definition read_failure (f : GitFailure) : WorkspaceError :=
  match gf_timed_out f with
  | Some _ => timed_out op id
  | None => WTool id (gf_subcommand f) (gf_args f) (gf_stderr f)
  end.

Definition inspect_git (args : list string) : Step W WorkspaceError string :=
  deadline ← step_get (start_deadline op);
  match deadline with
  | None => step_err (timed_out op id)
  | Some d =>
      step_map_err read_failure
        (out ← sandboxed_git host tools policy crew paths (CONFIG ++ args) [0%Z] false (Some d); mret (co_stdout out))
  end.

(** Fails with [e], its stderr after a hint when git could not run. *)
Definition hinted {A} (e : WorkspaceError) (cannot_run : bool) : Step W WorkspaceError A :=
  left ← step_get (left_ op);
  match e with
  | WTool id subcommand args stderr =>
      if cannot_run && negb (left =? 0)%N then
        hint ← git_read_hint host tools policy crew paths left;
        step_err (WTool id subcommand args (match hint with Some hint => hint +:+ ": " +:+ stderr | None => stderr end))
      else step_err e
  | other => step_err other
  end.

Definition inspect_script (script : string) (leading : list string) (accepted : list Z) : Step W WorkspaceError (CmdOutput * list string) :=
  deadline ← step_get (start_deadline op);
  match deadline with
  | None => step_err (timed_out op id)
  | Some d => step_map_err read_failure (sandboxed_git_script host tools policy crew paths script leading CONFIG accepted d)
  end.

(** ** The listing *)

Definition stage_args (listing : list string) (base_ref stdout stage : string) : list string :=
  CONFIG ++
  (if bool_decide (stage = "config") then PROBE ++ [FILTER_KEYS]
   else if bool_decide (stage = "merge-base") then ["merge-base"; base_ref; "HEAD"]
   else if bool_decide (stage = "diff") then ["diff"] ++ DIFF_FLAGS ++ listing ++ [default EmptyString (head (split_char nul stdout))]
   else STATUS).

Definition run_listing (script : string) (listing : list string) (base_ref : string) : Step W WorkspaceError string :=
  out ← inspect_script script [base_ref; FILTER_KEYS] [0; VERSION_FILTER; 81; 82; 83; 84; GIT_CANNOT_RUN]%Z;
  let out := out.1 in
  if (co_code out =? VERSION_FILTER)%Z then
    step_err (match filter_key (co_stdout out) with
              | Some key => WFilter key
              | None => WTool id "config" (stage_args listing base_ref (co_stdout out) "config") (co_stdout out)
              end)
  else match version_stage (co_code out) with
       | Some stage =>
           hinted (WTool id stage (stage_args listing base_ref (co_stdout out) stage) (co_stderr out)) (co_code out =? GIT_CANNOT_RUN)%Z
       | None => mret (co_stdout out)
       end.

(** ** The patches *)

Definition cannot_run_code (code : option Z) : bool := match code with Some c => (c =? 126)%Z || (c =? 127)%Z | None => false end.

Definition failed_patch {A} (stderr : string) (args : list string) (what : string) (code : option Z) : Step W WorkspaceError A :=
  hinted (WTool id "diff" (CONFIG ++ args) (what +:+ " failed (stderr of the whole patch script follows): " +:+ stderr)) (cannot_run_code code).

(** The untracked sections with their codes and paths, up to the shortest. *)
Fixpoint untracked_sections (stderr : string) (rows : list (string * (Z * string))) : Step W WorkspaceError (list string) :=
  match rows with
  | [] => mret []
  | (patch, (code, path)) :: rows =>
      if (code =? 0)%Z || (code =? 1)%Z then rest ← untracked_sections stderr rows; mret (patch :: rest)
      else failed_patch stderr (["diff"] ++ DIFF_FLAGS ++ ["--no-index"; "-U3"; "--"; "/dev/null"; path])
             ("the diff of untracked " +:+ debug_str path +:+ " (exit " +:+ show_i64 code +:+ ")") (Some code)
  end.

Definition patch_batch (merge_base mode : string) (pathspecs batch : list string)
    : Step W WorkspaceError (option (gmap string string) * list string) :=
  let leading := [merge_base; FILTER_KEYS; mode; pretty (N.of_nat (length pathspecs)); pretty (N.of_nat (length batch))] ++ pathspecs ++ batch in
  let has_combined := negb (bool_decide (mode = "none")) in
  out ← inspect_script DIFF_PATCH_SCRIPT leading [0; VERSION_FILTER; 81; GIT_CANNOT_RUN]%Z;
  let reader := foldl reader_feed (new_reader has_combined (length batch)) out.2 in
  let out := out.1 in
  let probe_error := WTool id "config" (CONFIG ++ PROBE ++ [FILTER_KEYS]) (co_stderr out) in
  if (co_code out =? VERSION_FILTER)%Z then
    step_err (match filter_key (co_stderr out) with Some key => WFilter key | None => probe_error end)
  else if (co_code out =? 81)%Z || (co_code out =? GIT_CANNOT_RUN)%Z then hinted probe_error (co_code out =? GIT_CANNOT_RUN)%Z
  else match reader_finish reader with
       | None => step_err (WTool id "sh" [] ("unexpected output from the patch script: " +:+ co_stderr out))
       | Some sections =>
           match sc_combined sections with
           | Some split =>
               let code := head (sc_codes sections) in
               if bool_decide (code = Some 0%Z) then
                 rest ← untracked_sections (co_stderr out) (zip (sc_untracked sections) (zip (tail (sc_codes sections)) batch));
                 mret (Some split, rest)
               else
                 let paths_mode := bool_decide (mode = "paths") in
                 failed_patch (co_stderr out)
                   ((if paths_mode then ["--literal-pathspecs"] else []) ++ ["diff"] ++ DIFF_FLAGS ++ ["-U3"; "--find-renames"; merge_base] ++
                    (if paths_mode then ["--"] ++ pathspecs else [])) "the combined diff" code
           | None =>
               rest ← untracked_sections (co_stderr out) (zip (sc_untracked sections) (zip (sc_codes sections) batch));
               mret (None, rest)
           end
       end.

(** The batches after the first: no combined diff, no pathspecs. *)
Fixpoint more_batches (merge_base mode : string) (pathspecs : list string) (batches : list (list string))
    : Step W WorkspaceError (gmap string string * list string) :=
  match batches with
  | [] => mret (∅, [])
  | batch :: batches =>
      one ← patch_batch merge_base mode pathspecs batch;
      rest ← more_batches merge_base "none" [] batches;
      mret (default rest.1 one.1, one.2 ++ rest.2)
  end.

Definition run_patches (merge_base mode : string) (pathspecs untracked : list string)
    : Step W WorkspaceError (gmap string string * list string) :=
  let bs := batches untracked PATCH_ARGS_BUDGET (paths_len pathspecs) in
  more_batches merge_base mode pathspecs (if negb (bool_decide (mode = "none")) && bool_decide (bs = []) then [[]] else bs).
End call.

(** ** The diff *)

Definition unexpected_listing (id : string) : WorkspaceError := WTool id "sh" [] "unexpected output from the listing script".

(** What the listing says: every file in path order up to the limit, and
    whether there were more. *)
Definition listed_files (records : list string) (status : Status) : list FileDiff * bool :=
  let all := merge_sort path_le
    (parse_name_status (join nul_end records +:+ nul_end) ++
     ((fun p => set_uncommitted true (new_file_diff p Added None)) <$> elems (st_untracked status))) in
  (take WORKSPACE_FILE_COUNT_LIMIT all, WORKSPACE_FILE_COUNT_LIMIT <? length all).

Definition is_untracked (status : Status) (f : FileDiff) : bool := bool_decide (fd_path f ∈ st_untracked status).

(** The combined diff's mode, and its pathspecs. *)
Definition diff_mode (records : list string) (tracked : list FileDiff) : string * list string :=
  match tracked with
  | [] => ("none", [])
  | _ =>
      if length tracked <? length (parse_name_status (join nul_end records +:+ nul_end))
      then ("paths", mbind (fun f => match fd_old_path f with Some old => [old] | None => [] end ++ [fd_path f]) tracked)
      else ("all", [])
  end.

Definition uncommitted (status : Status) (f : FileDiff) : FileDiff :=
  set_uncommitted (fd_uncommitted f || bool_decide (fd_path f ∈ st_changed status) ||
    match fd_old_path f with Some old => bool_decide (old ∈ st_changed status) | None => false end) f.

Record Patches := { pt_standing : gmap string string; pt_sections : gmap string string; pt_untracked : list string }.

Section fill.
Context (id : string) (crew : CrewPaths) (paths : AgentPaths) (op : ReadOp) (merge_base : string) (status : Status).

(** One file's raw patch, and the patches left. *)
Definition raw_patch (f : FileDiff) (p : Patches) : Step W WorkspaceError (string * Patches) :=
  match pt_standing p !! fd_path f with
  | Some patch =>
      mret (patch, {| pt_standing := delete (fd_path f) (pt_standing p); pt_sections := pt_sections p; pt_untracked := pt_untracked p |})
  | None =>
      if is_untracked status f then
        mret (default EmptyString (head (pt_untracked p)),
              {| pt_standing := pt_standing p; pt_sections := pt_sections p; pt_untracked := tail (pt_untracked p) |})
      else match (h ← patch_header f; s ← pt_sections p !! h; Some (h, s)) with
           | Some (h, section) =>
               mret (section, {| pt_standing := pt_standing p; pt_sections := delete h (pt_sections p); pt_untracked := pt_untracked p |})
           | None =>
               raw ← inspect_git id crew paths op (["diff"] ++ DIFF_FLAGS ++ ["-U3"; "--find-renames"; merge_base; "--"] ++
                       match fd_old_path f with Some old => [old] | None => [] end ++ [fd_path f]);
               mret (raw, p)
           end
  end.

Fixpoint fill_files (fs : list FileDiff) (p : Patches) : Step W WorkspaceError (list FileDiff) :=
  match fs with
  | [] => mret []
  | f :: fs =>
      rp ← raw_patch (uncommitted status f) p;
      let '(patch, binary, cut) := shape_patch rp.1 in
      rest ← fill_files fs rp.2;
      mret (set_patch patch binary cut (uncommitted status f) :: rest)
  end.
End fill.

(** The names under which the worktree's directory is found. *)
Definition root_names (root_path : string) : list string := omap normal_name (components root_path).

Definition diff (agent : AgentId) (base_ref : string) : Step W WorkspaceError WorkspaceDiff :=
  op ← new_op "diff" DIFF_BUDGET;
  let id := to_string agent in
  pc ← sandboxed_workspace_of agent;
  let '(paths, crew) := pc in
  listing ← run_listing id crew paths op DIFF_LIST_SCRIPT DIFF_LISTING base_ref;
  match parse_listing listing with
  | None => step_err (unexpected_listing id)
  | Some (merge_base, records, status_text) =>
      let status := parse_status status_text in
      let '(listed, truncated) := listed_files records status in
      let tracked := filter (fun f => is_untracked status f = false) listed in
      let '(mode, pathspecs) := diff_mode records tracked in
      root_path ← (fun w => (map_err (io_error (ap_workspace paths)) (h_canonicalize host w (ap_workspace paths)), w, []));
      _ ← (fun w => (map_err (io_error root_path) (f_open_dir files w root_path), w, []));
      fs ← step_get (f_names files);
      let untracked := fd_path <$> filter (fun f => is_untracked status f = true) listed in
      let judge := untracked_patch fs (root_names root_path) in
      let standing := list_to_map (omap (fun p => (fun patch => (p, patch)) <$> judge p) untracked) in
      let kept := filter (fun p => judge p = None) untracked in
      patches ← (if bool_decide (mode = "none") && bool_decide (kept = []) then mret (∅, [])
                 else run_patches id crew paths op merge_base mode pathspecs kept);
      filled ← fill_files id crew paths op merge_base status listed
                 {| pt_standing := standing; pt_sections := patches.1; pt_untracked := patches.2 |};
      let '(out, cut) := fit_diff to_json filled in
      mret {| wd_base_ref := base_ref; wd_merge_base := merge_base; wd_head := default EmptyString (st_head status);
              wd_files := out; wd_truncated := truncated || cut |}
  end.

(** ** The version *)

Definition version (agent : AgentId) (base_ref : string) : Step W WorkspaceError WorkspaceVersion :=
  op ← new_op "version" VERSION_BUDGET;
  let id := to_string agent in
  pc ← sandboxed_workspace_of agent;
  let '(paths, crew) := pc in
  out ← run_listing id crew paths op VERSION_SCRIPT VERSION_LISTING base_ref;
  match parse_version out with
  | None => step_err (unexpected_listing id)
  | Some (merge_base, names, status) =>
      let head := default EmptyString (st_head status) in
      stat ← step_get (fun w path => (fun m => (m_len m, m_mtime m, m_mtime_nsec m)) <$> to_option (f_meta files w path));
      let '(stats, total) := stat_paths stat (ap_workspace paths) (names ∪ st_changed status) (st_untracked status) in
      mret {| wv_head := head; wv_fingerprint := fingerprint_of sha256_hex head merge_base stats total |}
  end.

(** ** One file, one listing *)

Definition checked (path : string) : Step W WorkspaceError unit := step_of (map_err WInvalidPath (check_path path)).

Definition meta_of (path : string) : Step W WorkspaceError Meta := fun w =>
  (map_err (fun e => if io_not_found e then WNoSuchPath else io_error path e) (f_meta files w path), w, []).

Definition confine (workspace full : string) : Step W WorkspaceError unit := fun w =>
  (root ← map_err (io_error workspace) (h_canonicalize host w workspace);
   real ← map_err (io_error full) (h_canonicalize host w full);
   ensure (path_starts_with real root) (WInvalidPath "escapes the worktree"), w, []).

Definition is_file (m : Meta) : bool := match m_kind m with KindFile => true | _ => false end.
Definition is_directory (m : Meta) : bool := match m_kind m with KindDir => true | _ => false end.

Definition read_file (agent : AgentId) (path : string) : Step W WorkspaceError string :=
  _ ← checked path;
  pc ← workspace_of agent;
  let ws := ap_workspace pc.1 in
  let full := path_join ws path in
  meta ← meta_of full;
  if negb (is_file meta) then step_err WNotAFile
  else
    _ ← confine ws full;
    file ← (fun w => (map_err (fun e => if io_not_found e then WNoSuchPath else io_error full e) (f_open files w full), w, []));
    let '(opened, read) := file in
    if negb (is_file opened) || negb (bool_decide ((m_dev opened, m_ino opened) = (m_dev meta, m_ino meta))) then step_err WNotAFile
    else if (WORKSPACE_FILE_LIMIT <? m_len opened)%N then step_err (WTooLarge WORKSPACE_FILE_LIMIT)
    else
      buf ← step_of (map_err (io_error full) (read (WORKSPACE_FILE_LIMIT + 1)%N));
      if (WORKSPACE_FILE_LIMIT <? len buf)%N then step_err (WTooLarge WORKSPACE_FILE_LIMIT) else mret buf.

Definition pop_last (m : KeptEntries) : KeptEntries := match last (keys m) with Some k => delete k m | None => m end.

Definition keep_entry (kept : KeptEntries * bool) (raw : string) (m : result IoError Meta) : KeptEntries * bool :=
  if bool_decide (raw = ".git") then kept
  else
    let more := <[(from_utf8_lossy raw, raw) := m]> kept.1 in
    if WORKSPACE_TREE_ENTRY_LIMIT <? size more then (pop_last more, true) else (more, kept.2).

Fixpoint keep_entries (full : string) (kept : KeptEntries * bool) (es : list (result IoError (string * result IoError Meta)))
    : result WorkspaceError (KeptEntries * bool) :=
  match es with
  | [] => Ok kept
  | Err e :: _ => Err (io_error full e)
  | Ok (raw, m) :: es => keep_entries full (keep_entry kept raw m) es
  end.

Definition tree_entry (full : string) (e : string * string * result IoError Meta) : result WorkspaceError TreeEntry :=
  let '(name, raw, m) := e in
  m ← map_err (io_error (path_join full raw)) m;
  Ok {| te_name := name;
        te_kind := match m_kind m with KindFile => EkFile | KindDir => EkDir | KindSymlink => EkSymlink | KindOther => EkOther end;
        te_size := if is_file m then Some (m_len m) else None |}.

Definition list_dir (agent : AgentId) (path : string) : Step W WorkspaceError WorkspaceTree :=
  _ ← checked path;
  pc ← workspace_of agent;
  let ws := ap_workspace pc.1 in
  let full := if is_empty path then ws else path_join ws path in
  meta ← meta_of full;
  if negb (is_directory meta) then step_err WNotADirectory
  else
    _ ← confine ws full;
    es ← (fun w => (map_err (io_error full) (f_read_dir files w full), w, []));
    kept ← step_of (keep_entries full (∅, false) es);
    out ← step_of (mapM (tree_entry full) (entries kept.1));
    mret {| wt_path := path; wt_entries := out; wt_truncated := kept.2 |}.
End reader.

(** ** A listing keeps the first entries *)

Section first.
Context `{Ordered K, Countable K} {V : Type}.

(** Insertion into a list sorted by key. *)
Fixpoint sorted_insert (k : K) (v : V) (l : list (K * V)) : list (K * V) :=
  match l with
  | [] => [(k, v)]
  | (k', v') :: l =>
      if decide (k = k') then (k, v) :: l
      else if decide (kle k k') then (k, v) :: (k', v') :: l
      else (k', v') :: sorted_insert k v l
  end.

Lemma take_sorted_insert n k v l : take n (sorted_insert k v (take n l)) = take n (sorted_insert k v l).
Proof.
  revert n. induction l as [|[k' v'] l IH]; intros n; [by destruct n|]. destruct n as [|n]; [done|]. cbn [take sorted_insert].
  case_decide; [cbn [take]; by rewrite take_take, Nat.min_id|]. case_decide.
  - cbn [take]. f_equal. destruct n as [|n]; [done|]. cbn [take]. by rewrite take_take, Nat.min_l by lia.
  - cbn [take]. f_equal. apply IH.
Qed.

Lemma elem_of_sorted_insert k v l x : x ∈ (sorted_insert k v l).*1 <-> x = k \/ x ∈ l.*1.
Proof.
  induction l as [|[k' v'] l IH]; cbn [sorted_insert fmap list_fmap fst].
  - rewrite list_elem_of_singleton, elem_of_nil. tauto.
  - case_decide; [subst|case_decide]; cbn [fmap list_fmap fst]; rewrite ?elem_of_cons, ?IH; naive_solver.
Qed.

Lemma sorted_insert_sorted k v l : StronglySorted kle l.*1 -> StronglySorted kle (sorted_insert k v l).*1.
Proof.
  induction l as [|[k' v'] l IH]; cbn [sorted_insert fmap list_fmap fst]; [by repeat constructor|]. intros [Hs Hall]%StronglySorted_inv.
  case_decide as Hk; [subst; by constructor|]. case_decide as Hle; cbn [fmap list_fmap fst].
  - constructor; [by constructor|]. constructor; [done|]. eapply Forall_impl; [done|]. intros x Hx. by etransitivity.
  - constructor; [by apply IH|]. rewrite Forall_forall in *. intros x [->|Hx]%elem_of_sorted_insert; [|by apply Hall].
    by destruct (total kle k k').
Qed.

Lemma elem_of_sorted_insert_pair k v l x : StronglySorted kle l.*1 -> NoDup l.*1 -> x ∈ sorted_insert k v l <-> x = (k, v) \/ x.1 <> k /\ x ∈ l.
Proof.
  induction l as [|[k' v'] l IH]; cbn [sorted_insert fmap list_fmap fst].
  - rewrite list_elem_of_singleton, elem_of_nil. tauto.
  - intros [Hs Hall]%StronglySorted_inv [Hk' Hnd]%NoDup_cons. specialize (IH Hs Hnd).
    assert (forall v'', (k', v'') ∈ l -> False) as Hout by (intros v'' Hin; apply (list_elem_of_fmap_2 fst) in Hin; by apply Hk' in Hin).
    assert (kle k k' -> forall v'', (k, v'') ∈ l -> k = k') as Hbelow.
    { intros Hle v'' Hin. apply (list_elem_of_fmap_2 fst) in Hin. rewrite Forall_forall in Hall. apply (anti_symm kle); [done|by apply Hall]. }
    case_decide as Hk; [subst k'|case_decide as Hle]; rewrite !elem_of_cons, ?IH; destruct x as [k1 v1]; cbn [fst]; split;
      try (intros [?|[Hne [?|?]]]; simplify_eq; naive_solver); naive_solver.
Qed.

Lemma sorted_insert_NoDup k v l : StronglySorted kle l.*1 -> NoDup l.*1 -> NoDup (sorted_insert k v l).*1.
Proof.
  induction l as [|[k' v'] l IH]; cbn [sorted_insert fmap list_fmap fst]; [intros; apply NoDup_singleton|].
  intros [Hs Hall]%StronglySorted_inv [Hk' Hnd]%NoDup_cons. case_decide as Hk; [subst; by constructor|]. case_decide as Hle; cbn [fmap list_fmap fst].
  - apply NoDup_cons. split; [|by apply NoDup_cons]. rewrite elem_of_cons. intros [?|Hin]; [done|]. rewrite Forall_forall in Hall.
    apply Hk, (anti_symm kle); [done|by apply Hall].
  - apply NoDup_cons. split; [|by apply IH]. rewrite elem_of_sorted_insert. naive_solver.
Qed.

(** A list sorted by key, without repetition, is its map's entries. *)
Lemma entries_unique (l : list (K * V)) (m : gmap K V) : StronglySorted kle l.*1 -> NoDup l.*1 ->
  (forall x, x ∈ l <-> m !! x.1 = Some x.2) -> l = entries m.
Proof.
  intros Hs Hnd Hl. assert (forall l : list (K * V), StronglySorted kle l.*1 -> StronglySorted key_le l) as Hkeys.
  { clear. induction l as [|x l IH]; [by constructor|]. rewrite fmap_cons. intros [Hs Hall]%StronglySorted_inv. constructor; [by apply IH|]. by rewrite Forall_fmap in Hall. }
  apply (StronglySorted_unique_strong key_le).
  - intros [k1 v1] [k2 v2] H1%Hl H2%elem_of_entries Hle Hge. assert (k1 = k2) as -> by (by apply (anti_symm kle)). cbn in *. naive_solver.
  - by apply Hkeys.
  - apply Hkeys, keys_sorted.
  - apply NoDup_Permutation; [by apply NoDup_fmap_1 in Hnd|apply entries_NoDup|]. intros [k v]. by rewrite Hl, elem_of_entries.
Qed.

Lemma entries_insert k v (m : gmap K V) : entries (<[k := v]> m) = sorted_insert k v (entries m).
Proof.
  symmetry. apply entries_unique.
  - apply sorted_insert_sorted, keys_sorted.
  - apply sorted_insert_NoDup; [apply keys_sorted|apply keys_NoDup].
  - intros [k' v']. rewrite elem_of_sorted_insert_pair by (apply keys_sorted || apply keys_NoDup). rewrite elem_of_entries. cbn [fst snd].
    rewrite lookup_insert_Some. naive_solver.
Qed.

Lemma entries_length (m : gmap K V) : length (entries m) = size m.
Proof. rewrite entries_perm. apply length_map_to_list. Qed.

(** The map without its last key: every entry but the last. *)
Lemma entries_removed (l : list (K * V)) k v (m : gmap K V) : entries m = l ++ [(k, v)] -> entries (delete k m) = l.
Proof.
  intros Hm. pose proof (keys_NoDup m) as Hnd. pose proof (keys_sorted m) as Hs. unfold keys in *. rewrite Hm, fmap_app in Hnd, Hs.
  apply NoDup_app in Hnd as (Hnd & Hk & _). symmetry. apply entries_unique; [by apply StronglySorted_app in Hs as (_ & ? & _)|done|].
  intros [k' v']. cbn [fst snd]. rewrite lookup_delete_Some, <- elem_of_entries, Hm, elem_of_app, list_elem_of_singleton. split.
  - intros Hin. split; [|by left]. intros ->. apply (list_elem_of_fmap_2 fst), Hk in Hin. apply Hin. by left.
  - naive_solver.
Qed.
End first.

(** What [keep_entries] has seen, all of it. *)
Definition shown_entry (m : KeptEntries) (e : string * result IoError Meta) : KeptEntries :=
  if bool_decide (e.1 = ".git") then m else <[(from_utf8_lossy e.1, e.1) := e.2]> m.
Definition all_entries (es : list (string * result IoError Meta)) : KeptEntries := foldl shown_entry ∅ es.

Definition keeps (kept : KeptEntries * bool) (all : KeptEntries) : Prop :=
  entries kept.1 = take WORKSPACE_TREE_ENTRY_LIMIT (entries all) /\ kept.2 = (WORKSPACE_TREE_ENTRY_LIMIT <? size all).

Lemma entries_inj (m m' : KeptEntries) : entries m = entries m' -> m = m'.
Proof. intros Heq. by rewrite <- (list_to_map_entries m), Heq, list_to_map_entries. Qed.

Lemma kept_all kept all : keeps kept all -> size all <= WORKSPACE_TREE_ENTRY_LIMIT -> kept.1 = all.
Proof. intros [He _] Hle. apply entries_inj. rewrite He, take_ge; [done|]. by rewrite entries_length. Qed.

Lemma pop_last_take (n : nat) (m : KeptEntries) : size m = S n -> entries (pop_last m) = take n (entries m).
Proof.
  intros Hm. assert (length (entries m) = S n) as Hlen by (by rewrite entries_length). unfold pop_last, keys.
  destruct (entries m) as [|x l _] eqn:Hl using rev_ind; [done|]. destruct x as [k v]. assert (last (l ++ [(k, v)]).*1 = Some k) as -> by (rewrite fmap_app; apply last_snoc).
  rewrite (entries_removed l k v m Hl). rewrite length_app in Hlen. cbn in Hlen. by rewrite take_app_length' by lia.
Qed.

Lemma keep_step kept all raw m : keeps kept all -> keeps (keep_entry kept raw m) (shown_entry all (raw, m)).
Proof.
  intros Hk. unfold keep_entry, shown_entry. cbn [fst snd]. case_bool_decide; [done|].
  set (k := (from_utf8_lossy raw, raw)). pose proof Hk as [He Hf].
  assert (take WORKSPACE_TREE_ENTRY_LIMIT (entries (<[k := m]> kept.1)) = take WORKSPACE_TREE_ENTRY_LIMIT (entries (<[k := m]> all))) as Htake.
  { rewrite !entries_insert, He. apply take_sorted_insert. }
  pose proof (kept_all _ _ Hk) as Hall. pose proof (map_size_insert k m all) as Hsize. pose proof (map_size_insert k m kept.1) as Hmore.
  assert (size kept.1 = Nat.min WORKSPACE_TREE_ENTRY_LIMIT (size all)) as Hmin by (rewrite <- entries_length, He, length_take, entries_length; done).
  assert (is_Some (kept.1 !! k) -> is_Some (all !! k)) as Hsub.
  { rewrite <- !elem_of_keys. unfold keys. rewrite He. rewrite fmap_take. apply elem_take. }
  split; destruct (Nat.ltb_spec WORKSPACE_TREE_ENTRY_LIMIT (size (<[k := m]> kept.1))) as [Hgt|Hle]; cbn [fst snd].
  - rewrite <- Htake. apply pop_last_take. destruct (kept.1 !! k); unfold id in *; lia.
  - rewrite <- Htake, take_ge; [done|]. by rewrite entries_length.
  - symmetry. apply Nat.ltb_lt. destruct (Nat.le_gt_cases (size all) WORKSPACE_TREE_ENTRY_LIMIT) as [Hsmall|?]; [by rewrite <- Hall|].
    destruct (all !! k); unfold id in *; lia.
  - rewrite Hf. destruct (Nat.le_gt_cases (size all) WORKSPACE_TREE_ENTRY_LIMIT) as [Hsmall|Hbig].
    + rewrite <- (Hall Hsmall). destruct (Nat.ltb_spec WORKSPACE_TREE_ENTRY_LIMIT (size kept.1)); destruct (Nat.ltb_spec WORKSPACE_TREE_ENTRY_LIMIT (size (<[k := m]> kept.1))); try done; lia.
    + destruct (kept.1 !! k) as [x|] eqn:Hin; [|unfold id in *; lia]. destruct (Hsub ltac:(by eexists)) as [y Hy].
      rewrite Hy in Hsize. unfold id in *. by rewrite Hsize.
Qed.

(** However large the directory, reading it while holding no more than
    the limit leaves what reading it whole and sorting would: the first
    entries by name, without [.git], and whether there were more. *)
Theorem list_keeps_first full es :
  exists kept, keep_entries full (∅, false) (Ok <$> es) = Ok kept /\ keeps kept (all_entries es).
Proof.
  unfold all_entries. assert (keeps (∅, false) ∅) as Hk.
  { unfold keeps. cbn [fst snd]. rewrite (proj2 (entries_nil _) eq_refl), map_size_empty. done. } revert Hk. generalize (∅ : KeptEntries) at 2 4. generalize (∅ : KeptEntries, false).
  induction es as [|[raw m] es IH]; intros kept all Hk; [by exists kept|]. cbn [fmap list_fmap keep_entries foldl].
  apply IH. by apply keep_step.
Qed.

(** ** What a read runs *)

Section reads.
Context {W : Type} (host : Host W) (files : Files W) (tools : ToolPaths) (layout : StateLayout).
Context (git_read : list string) (policy : SocketPolicy) (pid : string) (to_vec_pretty : Value -> string).
Context (to_json : FileDiff -> option string) (sha256_hex : string -> string).
Context `{Unicode} (agent : AgentId).

Notation paths := (agent_paths layout agent).
Notation crew := (crew_paths layout (crew_ref agent)).
Notation profiled := (profiled tools git_read policy pid to_vec_pretty crew paths).
Notation under_profile := (under_profile tools policy paths).
Notation emits_agent := (emits_with_home host paths).

Definition read_base (home : string) : Cmd := sandboxed_base tools policy crew paths false None home.
(** A script, its inputs, then git with its options. *)
Definition script_cmd (script : string) (leading : list string) (deadline : N) (home : string) : Cmd :=
  cmd_timeout deadline (cmd_args CONFIG (cmd_args (git_command tools crew paths) (cmd_args leading
    (cmd_args ["/bin/sh"; "-c"; script; "sh"] (read_base home))))).
(** One file's own diff. *)
Definition file_cmd (merge_base : string) (names : list string) (deadline : N) (home : string) : Cmd :=
  cmd_timeout deadline (cmd_args (CONFIG ++ ["diff"] ++ DIFF_FLAGS ++ ["-U3"; "--find-renames"; merge_base; "--"] ++ names)
    (cmd_args (git_command tools crew paths) (read_base home))).
Definition start_cmd (deadline : N) (home : string) : Cmd :=
  cmd_timeout deadline (cmd_args (sandbox_args tools policy paths ++ ["/bin/true"])
    (cmd_env "PATH" (outer_path tools) (cmd_env "HOME" home (cmd_env_clear (new_cmd (tp_nono tools)))))).

(** Every command a read may run; [judged] are the untracked paths git may be
    shown. *)
Inductive read_cmd (judged : string -> Prop) : Cmd -> Prop :=
| ReadListing script base deadline home : script ∈ [VERSION_SCRIPT; DIFF_LIST_SCRIPT] ->
    read_cmd judged (script_cmd script [base; FILTER_KEYS] deadline home)
| ReadPatches merge_base mode pathspecs batch deadline home : Forall judged batch ->
    read_cmd judged (script_cmd DIFF_PATCH_SCRIPT
      ([merge_base; FILTER_KEYS; mode; pretty (N.of_nat (length pathspecs)); pretty (N.of_nat (length batch))] ++ pathspecs ++ batch) deadline home)
| ReadOne merge_base names deadline home : read_cmd judged (file_cmd merge_base names deadline home)
| ReadStart deadline home : read_cmd judged (start_cmd deadline home)
| ReadProfile c : profile_tool tools paths c -> read_cmd judged c.

Definition read_event (judged : string -> Prop) (e : Event) : Prop :=
  profiled e /\ match e with Ran c _ _ => read_cmd judged c | _ => True end.

Lemma under_args c args : under_profile c -> under_profile (cmd_args args c).
Proof. intros (Hp & Hc & [k Hk]). split; [done|]. split; [done|]. exists (k ++ args). cbn [cmd_args c_args]. by rewrite Hk, app_assoc. Qed.
Lemma under_timeout c d : under_profile c -> under_profile (cmd_timeout d c).
Proof. done. Qed.
Lemma under_base home : under_profile (read_base home).
Proof. split; [done|]. split; [done|]. exists []. by rewrite app_nil_r. Qed.

Lemma script_under script leading deadline home : under_profile (script_cmd script leading deadline home).
Proof. apply under_timeout. do 4 apply under_args. apply under_base. Qed.
Lemma file_under merge_base names deadline home : under_profile (file_cmd merge_base names deadline home).
Proof. apply under_timeout. do 2 apply under_args. apply under_base. Qed.
Lemma start_under deadline home : under_profile (start_cmd deadline home).
Proof. split; [done|]. split; [done|]. by exists ["/bin/true"]. Qed.

Lemma ran_read judged c accepted exit : under_profile c -> read_cmd judged c -> read_event judged (Ran c accepted exit).
Proof. intros Hu Hc. split; [by right|done]. Qed.

Lemma emits_script judged id op script leading accepted :
  (forall deadline home, read_cmd judged (script_cmd script leading deadline home)) ->
  emits (read_event judged) (inspect_script host files tools policy id crew paths op script leading accepted).
Proof.
  intros Hc. unfold inspect_script. apply emits_bind; [apply emits_get|]. intros [d|]; [|apply emits_err]. apply emits_map_err.
  unfold sandboxed_git_script. apply emits_agent. intros home. apply emits_map_err, emits_run. intros exit.
  apply ran_read; [apply script_under|apply Hc].
Qed.

Lemma emits_hinted judged {A} op e cannot_run : emits (read_event judged) (hinted (A := A) host files tools policy crew paths op e cannot_run).
Proof.
  unfold hinted. apply emits_bind; [apply emits_get|]. intros left. destruct e; try apply emits_err. destruct (_ && _); [|apply emits_err].
  apply emits_bind; [|intros; apply emits_err]. unfold git_read_hint. apply emits_bind; [|intros; apply emits_ret].
  intros w r w' es. unfold sandbox_starts. destruct (h_scratch _ _ _) as [[home|e] w1]; [|by intros [= <- <- <-]].
  unfold run. destruct (h_spawn host _ w1) as [exit w2]. intros [= <- <- <-]. constructor; [|done].
  apply (ran_read judged (start_cmd _ _)); [apply start_under|apply ReadStart].
Qed.

Lemma emits_listing judged id op script listing base : script ∈ [VERSION_SCRIPT; DIFF_LIST_SCRIPT] ->
  emits (read_event judged) (run_listing host files tools policy id crew paths op script listing base).
Proof.
  intros Hin. unfold run_listing. apply emits_bind; [apply emits_script; intros; by apply ReadListing|]. intros out. destruct (_ =? _)%Z; [apply emits_err|].
  destruct (version_stage _); [apply emits_hinted|apply emits_ret].
Qed.

Lemma emits_sections judged id op stderr rows : emits (read_event judged) (untracked_sections host files tools policy id crew paths op stderr rows).
Proof.
  induction rows as [|[patch [code path]] rows IH]; cbn [untracked_sections]; [apply emits_ret|]. destruct (_ || _); [|apply emits_hinted].
  apply emits_bind; [done|]. intros; apply emits_ret.
Qed.

Lemma emits_batch (judged : string -> Prop) id op merge_base mode pathspecs batch : Forall judged batch ->
  emits (read_event judged) (patch_batch host files tools policy id crew paths op merge_base mode pathspecs batch).
Proof.
  intros Hb. unfold patch_batch. apply emits_bind; [apply emits_script; intros; by apply ReadPatches|]. intros out. destruct (_ =? _)%Z; [apply emits_err|].
  destruct (_ || _); [apply emits_hinted|]. destruct (reader_finish _) as [sections|]; [|apply emits_err]. destruct (sc_combined sections).
  - destruct (bool_decide _); [|apply emits_hinted]. apply emits_bind; [apply emits_sections|]. intros; apply emits_ret.
  - apply emits_bind; [apply emits_sections|]. intros; apply emits_ret.
Qed.

Lemma emits_batches (judged : string -> Prop) id op merge_base bs : Forall (Forall judged) bs -> forall mode pathspecs,
  emits (read_event judged) (more_batches host files tools policy id crew paths op merge_base mode pathspecs bs).
Proof.
  induction 1 as [|batch bs Hb _ IH]; intros mode pathspecs; cbn [more_batches]; [apply emits_ret|]. apply emits_bind; [by apply emits_batch|].
  intros one. apply emits_bind; [apply IH|]. intros; apply emits_ret.
Qed.

Lemma emits_patches (judged : string -> Prop) id op merge_base mode pathspecs untracked : Forall judged untracked ->
  emits (read_event judged) (run_patches host files tools policy id crew paths op merge_base mode pathspecs untracked).
Proof.
  intros Hu. unfold run_patches. apply emits_batches. destruct (_ && _); [by repeat constructor|].
  destruct (batches_cover untracked PATCH_ARGS_BUDGET (paths_len pathspecs)) as [Hcover _]. rewrite <- Hcover in Hu.
  clear Hcover. induction (batches _ _ _) as [|b bs IH]; [constructor|]. cbn in Hu. apply Forall_app in Hu as [Hb Hbs]. constructor; [done|]. by apply IH.
Qed.

Lemma emits_fill judged id op merge_base status fs : forall p,
  emits (read_event judged) (fill_files host files tools policy id crew paths op merge_base status fs p).
Proof.
  induction fs as [|f fs IH]; intros p; cbn [fill_files]; [apply emits_ret|]. apply emits_bind.
  - unfold raw_patch. destruct (_ !! _); [apply emits_ret|]. destruct (is_untracked _ _); [apply emits_ret|].
    destruct (patch_header _ ≫= _) as [[h s]|]; [apply emits_ret|]. apply emits_bind; [|intros; apply emits_ret].
    unfold inspect_git. apply emits_bind; [apply emits_get|]. intros [d|]; [|apply emits_err]. apply emits_map_err, emits_bind; [|intros; apply emits_ret].
    unfold sandboxed_git. apply emits_agent. intros home. apply emits_bind.
    + apply emits_map_err, emits_run. intros exit. apply (ran_read judged (file_cmd _ _ _ _)); [apply file_under|apply ReadOne].
    + intros out. destruct (negb _); [apply emits_err|apply emits_ret].
  - intros rp. destruct (shape_patch rp.1) as [[patch binary] cut]. apply emits_bind; [apply IH|]. intros; apply emits_ret.
Qed.

Notation sandboxed_workspace_of := (sandboxed_workspace_of host tools layout git_read policy pid to_vec_pretty agent).
Notation diff := (diff host files tools layout git_read policy pid to_vec_pretty to_json agent).
Notation version := (version host files tools layout git_read policy pid to_vec_pretty sha256_hex agent).

Lemma emits_bind_Ok {E A B} (P : Event -> Prop) (m : Step W E A) (f : A -> Step W E B) : emits P m ->
  (forall w a w' es, m w = (Ok a, w', es) -> emits P (f a)) -> emits P (m ≫= f).
Proof.
  intros Hm Hf w r w' es [(e & He & _)|(a & w1 & es1 & es2 & H1 & H2 & ->)]%bind_inv; [by eapply Hm|].
  apply Forall_app. split; [by eapply Hm|by eapply Hf].
Qed.

(** A step that fixes what the rest is judged by. *)
Lemma bind_judged {E A B X} (P : X -> Event -> Prop) (x : X) (m : Step W E A) (f : A -> Step W E B) : (forall x, emits (P x) m) ->
  (forall w a w' es, m w = (Ok a, w', es) -> forall w r w' es, f a w = (r, w', es) -> exists x, Forall (P x) es) ->
  forall w r w' es, (m ≫= f) w = (r, w', es) -> exists x, Forall (P x) es.
Proof.
  intros Hm Hf w r w' es [(e & He & _)|(a & w1 & es1 & es2 & H1 & H2 & ->)]%bind_inv.
  - exists x. by eapply Hm.
  - destruct (Hf _ _ _ _ H1 _ _ _ _ H2) as [y Hy]. exists y. apply Forall_app. split; [by eapply Hm|done].
Qed.

Lemma workspace_of_inv w pc w' es : workspace_of host layout agent w = (Ok pc, w', es) -> pc = (paths, crew) /\ es = [].
Proof.
  intros (there & w1 & es1 & es2 & Hget & Hrest & ->)%bind_Ok_inv. injection Hget as <- <- <-.
  destruct (h_is_dir _ _ _); [|done]. by injection Hrest as <- <- <-.
Qed.

Lemma workspace_value w pc w' es : sandboxed_workspace_of w = (Ok pc, w', es) -> pc = (paths, crew).
Proof.
  intros (a & w1 & es1 & es2 & [-> _]%workspace_of_inv & Hrest & ->)%bind_Ok_inv.
  apply bind_Ok_inv in Hrest as (u & w2 & es3 & es4 & _ & Hret & _). by injection Hret as <- _ _.
Qed.

Lemma emits_workspace judged : emits (read_event judged) sandboxed_workspace_of.
Proof.
  unfold Reader.sandboxed_workspace_of. apply emits_bind_Ok.
  - unfold workspace_of. apply emits_bind; [apply emits_get|]. intros []; [apply emits_ret|apply emits_err].
  - intros w pc w' es [-> _]%workspace_of_inv. cbn [fst snd]. apply emits_bind; [|intros; apply emits_ret]. apply emits_map_err.
    eapply emits_weaken; [|apply emits_write_profile]. intros e He. split; [by left|]. destruct e; try done. by apply ReadProfile.
Qed.

(** C10: A read of an agent's workspace runs nothing but its three scripts, a
    file's own diff and the sandbox's start, all under the agent's git profile
    with git's configuration pinned, and what makes that profile; it removes
    nothing but stale homes and writes nothing but the profile; and the
    untracked paths git is shown are only those judged safe. *)
Theorem reads_confined base_ref w :
  (forall r w' es, version base_ref w = (r, w', es) -> Forall (read_event (fun _ => False)) es) /\
  (forall r w' es, diff base_ref w = (r, w', es) ->
     exists fs root, Forall (read_event (fun p => untracked_patch fs root p = None)) es).
Proof.
  split.
  - intros r w' es. revert w r w' es. change (emits (read_event (fun _ => False)) (version base_ref)). unfold Reader.version.
    apply emits_bind; [apply emits_get|]. intros op. apply emits_bind_Ok; [apply emits_workspace|]. intros ? pc ? ? ->%workspace_value.
    apply emits_bind; [apply emits_listing; by left|]. intros out. destruct (parse_version out) as [[[mb names] status]|]; [|apply emits_err].
    apply emits_bind; [apply emits_get|]. intros stat. destruct (stat_paths _ _ _ _). apply emits_ret.
  - intros r w' es Hrun.
    enough (exists x : FileSystem * list string, Forall (read_event (fun p => untracked_patch x.1 x.2 p = None)) es) as [[fs root] Hx] by (by exists fs, root).
    revert w r w' es Hrun. unfold Reader.diff, Reader.diff. set (P := fun (x : FileSystem * list string) => read_event (fun p => untracked_patch x.1 x.2 p = None)).
    apply (bind_judged P (fun _ => Gone, [])); [intros; apply emits_get|]. intros _ op _ _ _.
    apply (bind_judged P (fun _ => Gone, [])); [intros; apply emits_workspace|]. intros ? pc ? ? ->%workspace_value.
    apply (bind_judged P (fun _ => Gone, [])); [intros; apply emits_listing; right; by left|]. intros _ listing _ _ _.
    destruct (parse_listing listing) as [[[mb records] text]|]; [|intros ???? [= <- <- <-]; by exists (fun _ => Gone, [])].
    destruct (listed_files records _) as [listed truncated]. destruct (diff_mode records _) as [mode pathspecs].
    apply (bind_judged P (fun _ => Gone, [])); [intros x ???? [= <- <- <-]; constructor|]. intros _ root_path _ _ _.
    apply (bind_judged P (fun _ => Gone, [])); [intros x ???? [= <- <- <-]; constructor|]. intros _ u _ _ _.
    apply (bind_judged P (fun _ => Gone, [])); [intros; apply emits_get|]. intros _ fs _ _ _ w1 r1 w1' es1 Hrun.
    exists (fs, root_names root_path). revert w1 r1 w1' es1 Hrun. apply emits_bind.
    { destruct (_ && _); [apply emits_ret|]. apply emits_patches, Forall_forall. intros p [Hp _]%list_elem_of_filter. exact Hp. }
    intros patches. apply emits_bind; [apply emits_fill|]. intros filled. destruct (fit_diff to_json filled). apply emits_ret.
Qed.
End reads.

(** ** What a diff says *)

Lemma run_out {W} (host : Host W) c accepted w out w' es : run host c accepted w = (Ok out, w', es) ->
  exists code shown stdout stderr, es = [Ran c accepted (Exited (Some code) shown stdout stderr)] /\ code ∈ accepted /\
    co_code out.1 = code /\ co_stdout out.1 = from_utf8_lossy (concat stdout).
Proof.
  unfold run. destruct (h_spawn host c w) as [exit w1]. intros [= Hexec <- <-].
  apply cmd_exec_Ok in Hexec as Hok. destruct Hok as (code & shown & stdout & stderr & -> & Hin & Hc & Ho).
  cbn in Hexec. rewrite bool_decide_true in Hexec by done. injection Hexec as <-. by eexists _, _, _, _.
Qed.

(** Every file [diff] would show, in path order. *)
Definition all_files (records : list string) (status : Status) : list FileDiff :=
  merge_sort path_le
    (parse_name_status (join nul_end records +:+ nul_end) ++
     ((fun p => set_uncommitted true (new_file_diff p Added None)) <$> elems (st_untracked status))).

(** A file shown: the listed one, flagged, under a patch within its limit. *)
Definition shown_as (status : Status) (f f' : FileDiff) : Prop :=
  exists patch binary truncated, f' = set_patch patch binary truncated (uncommitted status f) /\ (len patch <= WORKSPACE_PATCH_LIMIT)%N.

Lemma shape_patch_len raw : (len (shape_patch raw).1.1 <= WORKSPACE_PATCH_LIMIT)%N.
Proof.
  destruct (is_binary_patch raw) eqn:Hb.
  - unfold shape_patch. rewrite Hb. done.
  - by destruct (shape_patch_cut raw Hb) as (rest & _ & Hle & _).
Qed.

Lemma shown_shortened status f f' f'' : shown_as status f f' -> shortened f' f'' -> shown_as status f f''.
Proof.
  intros (p & b & t & -> & Hle) [->|(q & rest & -> & Hp & _)]; [by exists p, b, t|]. exists q, b, true. split; [done|].
  cbn [set_patch fd_patch] in Hp. subst p. rewrite len_app in Hle. lia.
Qed.

Section result.
Context {W : Type} (host : Host W) (files : Files W) (tools : ToolPaths) (layout : StateLayout).
Context (git_read : list string) (policy : SocketPolicy) (pid : string) (to_vec_pretty : Value -> string).
(** [serde_json] on a file: a patch adds its escaped bytes, and [true] is no
    longer than [false]. *)
Context (file_json : FileDiff -> string).
Context (json_patch : forall f, (len (file_json f) =
  len (file_json (set_patch EmptyString (fd_binary f) (fd_truncated f) f)) + json_escaped_len (fd_patch f))%N).
Context (json_truncated : forall p f, (len (file_json (set_patch p (fd_binary f) true f)) <=
  len (file_json (set_patch p (fd_binary f) (fd_truncated f) f)))%N).
Context `{Unicode} (agent : AgentId).

Notation paths := (agent_paths layout agent).
Notation crew := (crew_paths layout (crew_ref agent)).

Lemma fill_Ok id op merge_base status fs : forall p w out w' es,
  fill_files host files tools policy id crew paths op merge_base status fs p w = (Ok out, w', es) -> Forall2 (shown_as status) fs out.
Proof.
  induction fs as [|f fs IH]; intros p w out w' es; cbn [fill_files]; [by intros [= <- <- <-]|].
  intros (rp & w1 & es1 & es2 & _ & Hrest & ->)%bind_Ok_inv. pose proof (shape_patch_len rp.1) as Hlen. destruct (shape_patch rp.1) as [[patch binary] cut].
  apply bind_Ok_inv in Hrest as (rest & w2 & es3 & es4 & Hfill & Hret & ->). injection Hret as <- <- <-. constructor; [|by eapply IH].
  by exists patch, binary, cut.
Qed.

(** The listing script ended well, printing [listing]. *)
Definition listed (base_ref listing : string) (es : list Event) : Prop :=
  exists deadline home accepted shown stdout stderr,
    Ran (script_cmd tools layout policy agent DIFF_LIST_SCRIPT [base_ref; FILTER_KEYS] deadline home) accepted (Exited (Some 0%Z) shown stdout stderr) ∈ es /\
    listing = from_utf8_lossy (concat stdout).

Lemma listing_Ok id op base_ref w out w' es :
  run_listing host files tools policy id crew paths op DIFF_LIST_SCRIPT DIFF_LISTING base_ref w = (Ok out, w', es) -> listed base_ref out es.
Proof.
  intros (o & w1 & es1 & es2 & Hs & Hrest & ->)%bind_Ok_inv.
  apply bind_Ok_inv in Hs as (d & w2 & es3 & es4 & Hget & Hs & ->). injection Hget as <- <- <-. destruct (start_deadline _ _ _) as [d|]; [|done].
  apply map_err_inv, with_home_inv in Hs as (home & w3 & w4 & Hrun). apply map_err_inv, run_out in Hrun as (code & shown & stdout & stderr & -> & Hin & Hc & Ho).
  cbn beta zeta in Hrest. rewrite Hc in Hrest. destruct (code =? VERSION_FILTER)%Z eqn:Hf; [done|]. destruct (version_stage code) as [stage|] eqn:Hstage.
  { exfalso. apply bind_Ok_inv in Hrest as (left & w5 & es5 & es6 & _ & Hrest & _). destruct (_ && _); [|done].
    by apply bind_Ok_inv in Hrest as (hint & w6 & es7 & es8 & _ & Hrest & _). }
  injection Hrest as <- <- <-. exists d, home, [0; VERSION_FILTER; 81; 82; 83; 84; GIT_CANNOT_RUN]%Z, shown, stdout, stderr. split; [|done].
  assert (code = 0%Z) as <-; [|by left]. repeat (apply elem_of_cons in Hin as [->|Hin]; [done|]). by apply not_elem_of_nil in Hin.
Qed.

Lemma listed_app base_ref listing l k : listed base_ref listing k -> listed base_ref listing (l ++ k).
Proof. intros (d & home & acc & sh & out & err & Hin & Hl). exists d, home, acc, sh, out, err. split; [|done]. apply elem_of_app. by right. Qed.
Lemma listed_app_l base_ref listing l k : listed base_ref listing l -> listed base_ref listing (l ++ k).
Proof. intros (d & home & acc & sh & out & err & Hin & Hl). exists d, home, acc, sh, out, err. split; [|done]. apply elem_of_app. by left. Qed.

(** C11: A diff shows what the listing said: the merge base, the head, and the
    changed and untracked files in path order, each flagged when it is not
    committed, up to the limits on files, on a patch and on the whole; and it
    says when files are left out. *)
Theorem diff_result base_ref w d w' es :
  diff host files tools layout git_read policy pid to_vec_pretty (fun f => Some (file_json f)) agent base_ref w = (Ok d, w', es) ->
  exists listing merge_base records text, listed base_ref listing es /\ parse_listing listing = Some (merge_base, records, text) /\
    let status := parse_status text in
    let all := all_files records status in
    wd_merge_base d = merge_base /\ wd_head d = default EmptyString (st_head status) /\
    Forall2 (shown_as status) (take (length (wd_files d)) all) (wd_files d) /\ StronglySorted path_le all /\
    length (wd_files d) <= WORKSPACE_FILE_COUNT_LIMIT /\ (len (list_json file_json (wd_files d)) <= WORKSPACE_DIFF_LIMIT)%N /\
    wd_truncated d = bool_decide (length (wd_files d) < length all)%nat.
Proof.
  intros (op & w1 & es1 & es2 & Hget & Hrest & ->)%bind_Ok_inv. injection Hget as <- <- <-.
  apply bind_Ok_inv in Hrest as (pc & w2 & es3 & es4 & Hws & Hrest & ->). apply workspace_value in Hws as ->.
  apply bind_Ok_inv in Hrest as (listing & w3 & es5 & es6 & Hlist%listing_Ok & Hrest & ->).
  destruct (parse_listing listing) as [[[merge_base records] text]|] eqn:Hparse; [|done].
  exists listing, merge_base, records, text. split; [by apply listed_app, listed_app, listed_app_l|]. split; [done|].
  intros status all. unfold listed_files in Hrest. fold (all_files records (parse_status text)) in Hrest. fold status all in Hrest.
  destruct (diff_mode records _) as [mode pathspecs].
  apply bind_Ok_inv in Hrest as (root & w4 & es7 & es8 & _ & Hrest & ->). apply bind_Ok_inv in Hrest as (u & w5 & es9 & es10 & _ & Hrest & ->).
  apply bind_Ok_inv in Hrest as (fs & w6 & es11 & es12 & _ & Hrest & ->). apply bind_Ok_inv in Hrest as (patches & w7 & es13 & es14 & _ & Hrest & ->).
  apply bind_Ok_inv in Hrest as (filled & w8 & es15 & es16 & Hfill%fill_Ok & Hrest & ->).
  pose proof (fit_diff_spec file_json json_patch json_truncated filled) as Hfit. destruct (fit_diff _ filled) as [out cut].
  destruct Hfit as (Hlen & Hshort & Hcut & _). injection Hrest as <- <- <-. cbn [wd_merge_base wd_head wd_files wd_truncated].
  pose proof (Forall2_length _ _ _ Hfill) as Hfilled. pose proof (Forall2_length _ _ _ Hshort) as Hout. rewrite length_take in Hfilled, Hout.
  split; [done|]. split; [done|]. split; [|split_and!].
  - replace (take (length out) all) with (take (length out) (take WORKSPACE_FILE_COUNT_LIMIT all)) by (rewrite take_take; f_equal; lia).
    eapply Forall2_trans; [|by apply Forall2_take|exact Hshort].
    intros f f' f'' H1 H2. by eapply shown_shortened.
  - apply StronglySorted_merge_sort; apply _.
  - lia.
  - done.
  - rewrite Hcut. destruct (Nat.ltb_spec WORKSPACE_FILE_COUNT_LIMIT (length all)) as [Hgt|Hle]; cbn [orb]; repeat case_bool_decide; done || lia.
Qed.
End result.

(** ** One file *)

Section one_file.
Context {W : Type} (host : Host W) (files : Files W) (layout : StateLayout).
Context `{Unicode} (agent : AgentId).

(** The bytes given are those of one regular file of the worktree, the one
    looked at before it was opened, whole and within the limit; nothing is run
    or written. *)
Lemma read_file_Ok path w buf w' es : read_file host files layout agent path w = (Ok buf, w', es) ->
  let ws := ap_workspace (agent_paths layout agent) in
  let full := path_join ws path in
  es = [] /\ w' = w /\ check_path path = Ok tt /\ (len buf <= WORKSPACE_FILE_LIMIT)%N /\
  exists meta opened read root real, f_meta files w full = Ok meta /\ is_file meta = true /\
    h_canonicalize host w ws = Ok root /\ h_canonicalize host w full = Ok real /\ path_starts_with real root = true /\
    f_open files w full = Ok (opened, read) /\ is_file opened = true /\ (m_dev opened, m_ino opened) = (m_dev meta, m_ino meta) /\
    (m_len opened <= WORKSPACE_FILE_LIMIT)%N /\ read (WORKSPACE_FILE_LIMIT + 1)%N = Ok buf.
Proof.
  intros (u & w1 & es1 & es2 & Hcheck & Hrest & ->)%bind_Ok_inv ws full. unfold checked, step_of in Hcheck.
  destruct (check_path path) as [[]|] eqn:Hpath; [|done]. injection Hcheck as <- <- <-.
  apply bind_Ok_inv in Hrest as (pc & w2 & es3 & es4 & Hpc & Hrest & ->). unfold workspace_of in Hpc.
  apply bind_Ok_inv in Hpc as (there & w3 & es5 & es6 & Hget & Hpc & ->). injection Hget as <- <- <-. destruct (h_is_dir _ _ _); [|done].
  injection Hpc as <- <- <-. cbn [fst] in Hrest. fold ws full in Hrest.
  apply bind_Ok_inv in Hrest as (meta & w4 & es7 & es8 & Hmeta & Hrest & ->). injection Hmeta as Hmeta <- <-.
  destruct (f_meta files w full) as [m|] eqn:Hm; [|done]. injection Hmeta as ->. destruct (is_file meta) eqn:Hf; [|done]. cbn [negb] in Hrest.
  apply bind_Ok_inv in Hrest as (u' & w5 & es9 & es10 & Hconf & Hrest & ->). injection Hconf as Hconf <- <-.
  destruct (h_canonicalize host w ws) as [root|] eqn:Hroot; [|done]. cbn [map_err mbind result_bind] in Hconf.
  destruct (h_canonicalize host w full) as [real|] eqn:Hreal; [|done]. cbn in Hconf. destruct (path_starts_with real root) eqn:Hunder; [|done].
  apply bind_Ok_inv in Hrest as ([opened read] & w6 & es11 & es12 & Hopen & Hrest & ->). injection Hopen as Hopen <- <-.
  destruct (f_open files w full) as [o|] eqn:Ho; [|done]. injection Hopen as ->.
  destruct (is_file opened) eqn:Hfile; [|done]. cbn [negb orb] in Hrest. destruct (bool_decide _) eqn:Hsame; [|done]. apply bool_decide_eq_true in Hsame. cbn [negb] in Hrest.
  destruct (N.ltb_spec WORKSPACE_FILE_LIMIT (m_len opened)) as [|Hlen]; [done|].
  apply bind_Ok_inv in Hrest as (b & w7 & es13 & es14 & Hread & Hrest & ->). injection Hread as Hread <- <-.
  destruct (read _) as [b'|] eqn:Hr; [|done]. injection Hread as ->. destruct (N.ltb_spec WORKSPACE_FILE_LIMIT (len b)); [done|].
  injection Hrest as <- <- <-. split_and!; [done..|]. by exists meta, opened, read, root, real.
Qed.
End one_file.

(** ** An example read *)

(** One untracked file beside a clean checkout. *)
Definition reader_host : Host unit := {|
  h_spawn c w :=
    (if bool_decide (DIFF_LIST_SCRIPT ∈ c_args c)
     then Exited (Some 0%Z) "exit status: 0" ["abc" +:+ nul_end; nul_end +:+ "# branch.oid def" +:+ nul_end +:+ "? new.txt" +:+ nul_end] []
     else if bool_decide (DIFF_PATCH_SCRIPT ∈ c_args c)
     then Exited (Some 0%Z) "exit status: 0" ["+hello" +:+ nl +:+ nul_end +:+ "1" +:+ nl] []
     else Exited (Some 0%Z) "exit status: 0" ["/usr/lib/git-core" +:+ nl] [], w);
  h_lstat := h_lstat sample_host; h_is_dir := h_is_dir sample_host; h_exists := h_exists sample_host;
  h_read := h_read sample_host; h_tree := h_tree sample_host; h_canonicalize := h_canonicalize sample_host;
  h_empty_dir := h_empty_dir sample_host; h_create_dir_all := h_create_dir_all sample_host; h_scratch := h_scratch sample_host;
  h_drop_scratch := h_drop_scratch sample_host; h_remove_dir_all := h_remove_dir_all sample_host;
  h_write_atomic := h_write_atomic sample_host; h_read_dir := h_read_dir sample_host; h_modified := h_modified sample_host;
  h_now := h_now sample_host; h_sleep := h_sleep sample_host; h_remove_file := h_remove_file sample_host; h_append := h_append sample_host;
|}.
Definition reader_files : Files unit := {|
  f_instant _ := 0%N;
  f_meta _ _ := Err (mkIoError true "gone");
  f_open_dir _ _ := Ok tt;
  f_names _ p := Here RegularFile;
  f_open _ _ := Err (mkIoError true "gone");
  f_read_dir _ _ := Ok [];
|}.
Definition sample_diff : result WorkspaceError WorkspaceDiff * unit * list Event :=
  diff (H := no_tables) reader_host reader_files sample_tools sample_layout [] Mediate "9" (fun _ => "{}") (fun f => Some (file_json f)) sample_id "origin/main" tt.
Definition shown_diff : WorkspaceDiff :=
  {| wd_base_ref := "origin/main"; wd_merge_base := "abc"; wd_head := "def"; wd_truncated := false;
     wd_files := [set_patch ("+hello" +:+ nl) false false (set_uncommitted true (new_file_diff "new.txt" Added None))] |}.

Example sample_diff_reads : sample_diff.1.1 = Ok shown_diff.
Proof. vm_compute. reflexivity. Qed.

Lemma reads_confined_witness : sample_diff.1.1 = Ok shown_diff /\ exists fs root,
  Forall (read_event sample_tools sample_layout [] Mediate "9" (fun _ => "{}") sample_id (fun p => untracked_patch fs root p = None)) sample_diff.2.
Proof.
  split; [vm_compute; reflexivity|].
  apply (proj2 (reads_confined (H := no_tables) reader_host reader_files sample_tools sample_layout [] Mediate "9" (fun _ => "{}") (fun f => Some (file_json f))
    (fun s => s) sample_id "origin/main" tt) sample_diff.1.1 sample_diff.1.2 sample_diff.2).
  unfold sample_diff. vm_compute. reflexivity.
Defined.

Lemma diff_result_witness : exists listing merge_base records text,
  listed sample_tools sample_layout Mediate sample_id "origin/main" listing sample_diff.2 /\
  parse_listing listing = Some (merge_base, records, text) /\ wd_merge_base shown_diff = merge_base.
Proof.
  destruct (diff_result (H := no_tables) reader_host reader_files sample_tools sample_layout [] Mediate "9" (fun _ => "{}") file_json
    file_json_patch file_json_truncated sample_id "origin/main" tt shown_diff tt sample_diff.2 ltac:(vm_compute; reflexivity))
    as (listing & merge_base & records & text & Hlisted & Hparse & Hbase & _).
  exists listing, merge_base, records, text. split; [exact Hlisted|]. split; [exact Hparse|exact Hbase].
Defined.
