(* ===== verification/Render.v ===== *)
(** What the channels post ([plugins/common/src/render.rs], [phases.rs]): the
    messages about events, questions and phases. How a long one is cut into
    parts is [Parts]. *)

From S2P Require Import Prelude Str BTree Json Status FleetRecord Text Delivery Question.

(** [take_while]. *)
Fixpoint take_while {A} (p : A -> bool) (l : list A) : list A :=
  match l with [] => [] | x :: l => if p x then x :: take_while p l else [] end.

(** ** Messages *)

Definition short_session (session_id : string) : string := concat (take 8 (chars session_id)).

Definition thread_root (agent session_id source : string) : string :=
  let name := default agent (last (split_char "/"%char agent)) in
  "**" +:+ name +:+ "** session `" +:+ short_session session_id +:+ "` started (" +:+ source +:+ ")"
  +:+ newline +:+ newline +:+ "`" +:+ agent +:+ "`".

Definition text (payload : Value) (key fallback : string) : string :=
  match str_field payload key with
  | Some s => if is_empty (trim s) then fallback else s
  | None => fallback
  end.

Definition tool_summary (payload : Value) : string :=
  let name := text payload "tool_name" "tool" in
  let field key := input ← get payload "tool_input"; v ← get input key; as_str v in
  match union (union (field "command") (field "file_path")) (field "pattern") with
  | Some detail => "`" +:+ name +:+ "` " +:+ detail
  | None => "`" +:+ name +:+ "`"
  end.

Definition with_message (payload : Value) (heading : string) : string :=
  match str_field payload "last_assistant_message" with
  | Some m => if is_empty (trim m) then heading else heading +:+ newline +:+ newline +:+ trim m
  | None => heading
  end.

Definition event_message (event : HookEvent) : string :=
  let p := he_payload event in
  let name := he_name event in
  if bool_decide (name = "SessionStart") then "session restarted (" +:+ text p "source" "unknown" +:+ ")"
  else if bool_decide (name = "SessionEnd") then "**session ended** (" +:+ text p "reason" "unknown" +:+ ")"
  else if bool_decide (name = "Notification") then "**needs you:** " +:+ text p "message" "notification"
  else if bool_decide (name = "Stop") then with_message p "**turn finished**"
  else if bool_decide (name = "SubagentStop") then with_message p "subagent finished"
  else if bool_decide (name = "UserPromptSubmit") then
    "**prompt**" +:+ newline +:+ newline +:+ text p "prompt" "(empty)"
  else if bool_decide (name = "PreToolUse") then "running " +:+ tool_summary p
  else if bool_decide (name = "PostToolUse") then "finished " +:+ tool_summary p
  else if bool_decide (name = "PreCompact") then "compacting (" +:+ text p "trigger" "unknown" +:+ ")"
  else name.

(** The loop of [one_line] over the characters left; a round drops one at
    least, or is the last. *)
Fixpoint one_line_from (fuel : nat) (rest : list string) : string :=
  match fuel with
  | 0 => concat rest
  | S fuel =>
      let word := take_while (fun c => negb (char_is_whitespace c)) rest in
      let tail := skip_while (fun c => negb (char_is_whitespace c)) rest in
      match tail with
      | [] => concat rest
      | _ =>
          let run := concat (take_while char_is_whitespace tail) in
          concat word +:+ (if contains run newline then " " else run)
          +:+ one_line_from fuel (skip_while char_is_whitespace tail)
      end
  end.
Definition one_line (s : string) : string := one_line_from (S (String.length s)) (chars s).

Section question.
Context `{Letters}.

Definition option_line (n : nat) (o : Opt) : string :=
  pretty (S n) +:+ ". **" +:+ one_line (op_label o) +:+ "**"
  +:+ (if is_empty (op_description o) then EmptyString else " — " +:+ one_line (op_description o)).

Definition question_paragraphs (many : bool) (total i : nat) (q : Question) : list string :=
  [ (if many then "**question " +:+ pretty (S i) +:+ " of " +:+ pretty total +:+ "**" else "**question**")
    +:+ (if is_empty (qu_header q) then EmptyString else " · " +:+ one_line (qu_header q));
    one_line (trim (qu_text q))
    +:+ (if qu_multi_select q then " *(choose any, separated by commas)*" else EmptyString);
    join newline (imap option_line (qu_options q)) ].

Definition question_footer (many : bool) (questions : list Question) : string :=
  if many then
    "Reply with one line per question, in order: a number or a label. `other: …` gives your own answer, `skip` declines."
  else if labelled_skip questions then
    "Reply with a number or a label. `other: …` gives your own answer, `skip` chooses the option labelled skip, `skip!` declines."
  else "Reply with a number or a label. `other: …` gives your own answer, `skip` declines.".

Definition question_message (questions : list Question) : string :=
  let many := 1 <? length questions in
  join (newline +:+ newline)
    (List.concat (imap (question_paragraphs many (length questions)) questions) ++ [question_footer many questions]).
End question.

(** ** Phases: [phases.rs] *)

(** [{:?}] of an [AgentPhase]. *)
Definition phase_debug (p : AgentPhase.t) : string :=
  match p with
  | AgentPhase.Pending => "Pending" | AgentPhase.Materializing => "Materializing"
  | AgentPhase.Starting => "Starting" | AgentPhase.Ready => "Ready" | AgentPhase.Failed => "Failed"
  | AgentPhase.Dead => "Dead" | AgentPhase.Stopped => "Stopped" | AgentPhase.Unknown => "Unknown"
  end.

Record PhaseChange := {
  pc_agent : string;
  pc_from : AgentPhase.t;
  pc_to : AgentPhase.t;
  pc_message : string;
}.

(** The agents of every fleet, a later fleet's entry over an earlier one's. *)
Definition flatten (fleets : list FleetRecord) : gmap string AgentStatus :=
  foldl (fun m f => agents (rec_status f) ∪ m) ∅ fleets.

Definition phase_change (before : gmap string AgentStatus) (kv : string * AgentStatus) : option PhaseChange :=
  prior ← before !! kv.1;
  if bool_decide (st_phase prior = st_phase kv.2) then None
  else Some {| pc_agent := kv.1; pc_from := st_phase prior; pc_to := st_phase kv.2; pc_message := st_message kv.2 |}.

Definition phase_changes (previous : option (list FleetRecord)) (current : list FleetRecord) : list PhaseChange :=
  match previous with
  | None => []
  | Some previous => omap (phase_change (flatten previous)) (entries (flatten current))
  end.

Definition phase_message (change : PhaseChange) : string :=
  let base := "phase **" +:+ phase_debug (pc_from change) +:+ "** to **" +:+ phase_debug (pc_to change) +:+ "**" in
  if is_empty (trim (pc_message change)) then base else base +:+ ": " +:+ pc_message change.
