(* ===== verification/Parts.v ===== *)
(** Cutting a long text into the parts a channel posts
    ([plugins/common/src/render.rs]): pieces that fit a budget, end at line
    breaks where they can and leave no code fence open, and the marked parts
    made of them.

    A Rust [str] is valid UTF-8 ([Bytes.valid_utf8]); lengths are in bytes. *)

From S2P Require Import Prelude Str Bytes Text Question.

(** ** Strings by byte offset *)

(** [str::is_char_boundary]. *)
Definition is_char_boundary (i : nat) (s : string) : bool :=
  (i =? 0) || match str_drop i s with
              | String c _ => negb (is_continuation c)
              | EmptyString => i =? String.length s
              end.

(** The loop of [prefix], down from [i]; zero is a boundary. *)
Fixpoint floor_boundary (i : nat) (s : string) : nat :=
  if is_char_boundary i s then i
  else match i with S j => floor_boundary j s | 0 => 0 end.

Definition prefix (s : string) (max : nat) : string :=
  str_take (floor_boundary (Nat.min max (String.length s)) s) s.

(** [str::rfind] of an ASCII character. *)
Fixpoint rfind (c : ascii) (s : string) : option nat :=
  match s with
  | EmptyString => None
  | String a r =>
      match rfind c r with
      | Some i => Some (S i)
      | None => if Ascii.eqb a c then Some 0 else None
      end
  end.

(** [take_while(|x| x == c)] of an ASCII character. *)
Fixpoint run_of (c : ascii) (s : string) : string :=
  match s with
  | String a r => if Ascii.eqb a c then String a (run_of c r) else EmptyString
  | EmptyString => EmptyString
  end.

(** ** Cutting a text into parts *)

Definition PART_OVERHEAD : nat := 64.
Definition MAX_INFO : nat := 32.

Record Fence := { fc_marker : string; fc_info : string }.

Definition reopen (f : Fence) : string :=
  let gap := if starts_with (fc_info f) (str_take 1 (fc_marker f)) then " " else EmptyString in
  fc_marker f +:+ gap +:+ fc_info f +:+ newline.

Definition backtick : ascii := ascii_of_N 96.
Definition tilde : ascii := ascii_of_N 126.

Definition fence_of (line : string) : option Fence :=
  match trim_start line with
  | String ch _ as t =>
      if Ascii.eqb ch backtick || Ascii.eqb ch tilde then
        let marker := run_of ch t in
        if 3 <=? String.length marker then
          Some {| fc_marker := marker; fc_info := prefix (trim (str_drop (String.length marker) t)) MAX_INFO |}
        else None
      else None
  | EmptyString => None
  end.

Definition track_line (open : option Fence) (line : string) : option Fence :=
  match open, fence_of line with
  | None, Some f => Some f
  | Some cur, Some f => if starts_with (fc_marker f) (fc_marker cur) && is_empty (fc_info f) then None else open
  | _, None => open
  end.

Definition track (open : option Fence) (piece : string) : option Fence := foldl track_line open (lines piece).

Definition cut_within (rest : string) (room : nat) : nat :=
  let head := prefix rest room in
  match rfind newline_byte head with
  | Some (S i) => S (S i)
  | _ => String.length head
  end.

Record Piece := { pi_reopen : string; pi_body : string; pi_close : string }.

Definition piece_text (p : Piece) : string := pi_reopen p +:+ pi_body p +:+ pi_close p.
Definition piece_len (p : Piece) : nat :=
  String.length (pi_reopen p) + String.length (pi_body p) + String.length (pi_close p).

Definition opening (open : option Fence) : string := match open with Some f => reopen f | None => EmptyString end.

Definition closing (body : string) (after : option Fence) : string :=
  match after with
  | Some f => (if ends_with body newline then EmptyString else newline) +:+ fc_marker f +:+ newline
  | None => EmptyString
  end.

(** The loop of [fit]: the room shrinks in every round. *)
Fixpoint fit_from (fuel : nat) (rest : string) (budget : nat) (open : option Fence) (room : nat)
    : option (Piece * option Fence) :=
  match fuel with
  | 0 => None
  | S fuel =>
      let cut := cut_within rest room in
      if cut =? 0 then None
      else
        let body := str_take cut rest in
        let after := track open body in
        let piece := {| pi_reopen := opening open; pi_body := body; pi_close := closing body after |} in
        if piece_len piece <=? budget then Some (piece, after)
        else fit_from fuel rest budget open
               (Nat.min (cut - 1) (budget - (String.length (pi_reopen piece) + String.length (pi_close piece))))
  end.

Definition fit (rest : string) (budget : nat) (open : option Fence) : option (Piece * option Fence) :=
  if budget <? String.length (opening open) then None
  else
    let room := budget - String.length (opening open) in
    fit_from (S room) rest budget open room.

(** A piece with no fence work, of one character at least. *)
Definition plain_piece (rest : string) (budget : nat) : Piece :=
  let cut := match cut_within rest budget with
             | 0 => match chars rest with c :: _ => String.length c | [] => String.length rest end
             | cut => cut
             end in
  {| pi_reopen := EmptyString; pi_body := str_take cut rest; pi_close := EmptyString |}.

Definition next_piece (rest : string) (budget : nat) (open : option Fence) : Piece * option Fence :=
  match fit rest budget open with
  | Some fitted => fitted
  | None =>
      match fit rest budget None with
      | Some fitted => fitted
      | None => (plain_piece rest budget, None)
      end
  end.

(** The loop of [pieces]: every piece takes a byte at least. *)
Fixpoint pieces_from (fuel : nat) (rest : string) (budget : nat) (open : option Fence) : list Piece :=
  match fuel with
  | 0 => []
  | S fuel =>
      if is_empty rest then []
      else if bool_decide (open = None) && (String.length rest <=? budget) then
        [ {| pi_reopen := EmptyString; pi_body := rest; pi_close := EmptyString |} ]
      else
        let '(piece, after) := next_piece rest budget open in
        piece :: pieces_from fuel (str_drop (String.length (pi_body piece)) rest) budget after
  end.

Definition pieces (text : string) (budget : nat) : list Piece := pieces_from (String.length text) text budget None.

Definition chunks (text : string) (budget : nat) : list string :=
  match piece_text <$> pieces text budget with
  | [] => [EmptyString]
  | out => out
  end.

(** The note on the last part of a text that was cut short. *)
Definition omitted_note (omitted : nat) : string :=
  newline +:+ newline +:+ "… truncated, " +:+ pretty omitted
  +:+ (if omitted =? 1 then " part" else " parts") +:+ " omitted".

Definition append_last (l : list string) (note : string) : list string :=
  match rev l with
  | [] => []
  | x :: l => rev ((x +:+ note) :: l)
  end.

Definition part_mark (i total : nat) (p : string) : string :=
  trim_end p +:+ newline +:+ newline +:+ "(" +:+ pretty (S i) +:+ "/" +:+ pretty total +:+ ")".

Definition split (text : string) (limit max_parts : nat) : list string :=
  if String.length text <=? limit then [text]
  else
    let max_parts := Nat.max max_parts 1 in
    let parts := chunks text (Nat.max (limit - PART_OVERHEAD) 1) in
    if length parts <=? 1 then parts
    else
      let parts :=
        if max_parts <? length parts then append_last (take max_parts parts) (omitted_note (length parts - max_parts))
        else parts in
      imap (fun i p => part_mark i (length parts) p) parts.

(** ** Byte offsets *)

Lemma str_take_drop n s : str_take n s +:+ str_drop n s = s.
Proof.
  revert n. induction s as [|c s IH]; intros [|n]; try done. cbn [str_take str_drop].
  by rewrite app_cons_string, IH.
Qed.

Lemma length_str_take n s : String.length (str_take n s) = Nat.min n (String.length s).
Proof. revert n. induction s as [|c s IH]; intros [|n]; try done. simpl. by rewrite IH. Qed.

Lemma str_drop_drop i j s : str_drop j (str_drop i s) = str_drop (i + j) s.
Proof. revert i. induction s as [|c s IH]; intros [|i]; try done. { by destruct j. } apply IH. Qed.

Lemma str_drop_app_length s t : str_drop (String.length s) (s +:+ t) = t.
Proof. by induction s. Qed.

Lemma str_drop_nil n s : str_drop n s = EmptyString -> String.length s <= n.
Proof. intros H. pose proof (length_str_drop n s) as Hl. rewrite H in Hl. simpl in Hl. lia. Qed.

Lemma floor_le i s : floor_boundary i s <= i.
Proof. induction i as [|i IH]; cbn [floor_boundary]; [by destruct (is_char_boundary 0 s)|]. destruct (is_char_boundary (S i) s); lia. Qed.

Lemma floor_ge i j s : is_char_boundary j s = true -> j <= i -> j <= floor_boundary i s.
Proof.
  intros Hj. induction i as [|i IH]; intros Hle; cbn [floor_boundary]; [lia|].
  destruct (is_char_boundary (S i) s) eqn:Hb; [done|]. apply IH.
  destruct (decide (j = S i)) as [->|]; [congruence|lia].
Qed.

Lemma prefix_take s max : exists k, prefix s max = str_take k s /\ k <= max /\ k <= String.length s.
Proof. eexists. split; [done|]. pose proof (floor_le (Nat.min max (String.length s)) s). lia. Qed.

Lemma length_prefix s max : String.length (prefix s max) <= max /\ String.length (prefix s max) <= String.length s.
Proof. destruct (prefix_take s max) as (k & -> & ? & ?). rewrite length_str_take. lia. Qed.

Lemma rfind_lt c s i : rfind c s = Some i -> i < String.length s.
Proof.
  revert i. induction s as [|a s IH]; intros i; simpl; [done|].
  destruct (rfind c s) as [k|]; [intros [= <-]; specialize (IH k eq_refl); lia|].
  case_match; [|done]. intros [= <-]. lia.
Qed.

Lemma cut_le rest room : cut_within rest room <= room /\ cut_within rest room <= String.length rest.
Proof.
  unfold cut_within. pose proof (length_prefix rest room).
  destruct (rfind newline_byte (prefix rest room)) as [[|i]|] eqn:Hr; try lia. apply rfind_lt in Hr. lia.
Qed.

(** Some character starts within every four bytes, or the text ends there. *)
Definition well_cut (s : string) : Prop :=
  forall i, i < String.length s -> exists j, 1 <= j <= 4 /\ is_char_boundary j (str_drop i s) = true.

Lemma well_cut_drop i s : well_cut s -> well_cut (str_drop i s).
Proof.
  intros Hs k Hk. rewrite length_str_drop in Hk. rewrite str_drop_drop. apply Hs. lia.
Qed.

Lemma utf8_seq_head c : utf8_seq c -> exists a t, c = String a t /\ is_continuation a = false.
Proof.
  intros Hc. destruct Hc as [a Ha|a b Ha H1|a b c Ha _ H1|a b c d Ha _ _ H1]; (do 2 eexists; split; [done|]);
    unfold is_continuation, byte_in in *; apply andb_false_iff; rewrite ?andb_true_iff, ?N.ltb_lt, ?N.leb_le, ?N.leb_gt in *; lia.
Qed.

Lemma valid_well_cut s : valid_utf8 s -> well_cut s.
Proof.
  remember (String.length s) as n eqn:Hn. revert s Hn. induction (lt_wf n) as [n _ IH]. intros s -> Hs i Hi.
  destruct (valid_cases s Hs) as [->|(c & r & -> & Hc & Hr)]; [simpl in Hi; lia|].
  assert (1 <= String.length c <= 4) as Hlen by (pose proof (seq_len c Hc); unfold len in *; lia).
  rewrite length_app_string in Hi. destruct (decide (String.length c <= i)) as [Hle|Hgt].
  - destruct (IH (String.length r)) with (s := r) (i := i - String.length c) as (j & Hj & Hb); [|done..|lia|].
    { rewrite length_app_string. lia. }
    exists j. split; [done|]. replace i with (String.length c + (i - String.length c)) by lia.
    by rewrite <- str_drop_drop, str_drop_app_length.
  - exists (String.length c - i). split; [lia|]. unfold is_char_boundary.
    rewrite str_drop_drop. replace (i + (String.length c - i)) with (String.length c) by lia.
    rewrite str_drop_app_length, length_str_drop, length_app_string.
    destruct (valid_cases r Hr) as [->|(d & t & -> & Hd & _)]; simpl.
    + apply orb_true_iff. right. apply Nat.eqb_eq. lia.
    + destruct (utf8_seq_head d Hd) as (a & u & -> & Ha). rewrite app_cons_string, Ha. by rewrite orb_true_r.
Qed.

(** A room of four bytes holds a character. *)
Lemma cut_pos rest room : well_cut rest -> rest <> EmptyString -> 4 <= room -> 1 <= cut_within rest room.
Proof.
  intros Hw Hne Hroom. unfold cut_within.
  assert (1 <= String.length (prefix rest room)) as Hp.
  { destruct (Hw 0) as (j & Hj & Hb); [destruct rest; simpl; [done|lia]|]. cbn [str_drop] in Hb.
    destruct (decide (j <= String.length rest)) as [Hle|Hgt].
    - unfold prefix. rewrite length_str_take. pose proof (floor_ge (Nat.min room (String.length rest)) j rest Hb). lia.
    - exfalso. unfold is_char_boundary in Hb. replace (j =? 0) with false in Hb by (symmetry; apply Nat.eqb_neq; lia).
      destruct (str_drop j rest) eqn:Hd; cbn [orb] in Hb.
      + apply Nat.eqb_eq in Hb. lia.
      + pose proof (length_str_drop j rest) as Hl. rewrite Hd in Hl. simpl in Hl. lia. }
  destruct (rfind newline_byte (prefix rest room)) as [[|i]|]; lia.
Qed.

(** ** What a piece is *)

Definition built (rest : string) (budget : nat) (open : option Fence) (p : Piece) (after : option Fence) : Prop :=
  exists cut, 1 <= cut <= String.length rest /\ piece_len p <= budget /\ after = track open (str_take cut rest) /\
    p = {| pi_reopen := opening open; pi_body := str_take cut rest; pi_close := closing (str_take cut rest) after |}.

Lemma fit_from_built fuel rest budget open room p after :
  fit_from fuel rest budget open room = Some (p, after) -> built rest budget open p after.
Proof.
  revert room. induction fuel as [|fuel IH]; intros room; cbn [fit_from]; [done|].
  destruct (Nat.eqb_spec (cut_within rest room) 0) as [|Hcut]; [done|].
  case_match eqn:Hlen; [|apply IH]. intros [= <- <-]. apply Nat.leb_le in Hlen.
  exists (cut_within rest room). pose proof (cut_le rest room). split_and!; [lia..|done|done|done].
Qed.

Lemma fit_built rest budget open p after : fit rest budget open = Some (p, after) -> built rest budget open p after.
Proof. unfold fit. case_match; [done|]. apply fit_from_built. Qed.

Lemma chars_nonempty s c l : chars s = c :: l -> 1 <= String.length c <= String.length s.
Proof.
  intros Hc. pose proof (concat_chars s) as Hs. rewrite Hc in Hs. cbn [concat] in Hs.
  rewrite <- Hs, length_app_string. split; [|lia].
  destruct c as [|a c]; simpl; [|lia]. exfalso. destruct s as [|b s]; [done|]. simpl in Hc.
  destruct (chars s) as [|[|d h] t]; [done..|]. by destruct (is_continuation d && _).
Qed.

Lemma plain_cut rest budget : rest <> EmptyString ->
  exists cut, 1 <= cut <= String.length rest /\ plain_piece rest budget =
    {| pi_reopen := EmptyString; pi_body := str_take cut rest; pi_close := EmptyString |} /\
    (1 <= cut_within rest budget -> cut <= budget).
Proof.
  intros Hne. unfold plain_piece. pose proof (cut_le rest budget).
  assert (1 <= String.length rest) by (destruct rest; simpl; [done|lia]).
  destruct (cut_within rest budget) as [|cut] eqn:Hcut; [|exists (S cut); split_and!; [lia..|done|lia]].
  destruct (chars rest) as [|c l] eqn:Hc; [exists (String.length rest); split_and!; [lia..|done|lia]|].
  apply chars_nonempty in Hc. exists (String.length c). split_and!; [lia..|done|lia].
Qed.

(** Every piece takes a part of what is left, of a byte at least. *)
Lemma next_body rest budget open : rest <> EmptyString ->
  exists cut, 1 <= cut <= String.length rest /\ pi_body (next_piece rest budget open).1 = str_take cut rest.
Proof.
  intros Hne. unfold next_piece. destruct (fit rest budget open) as [[p after]|] eqn:H1.
  { apply fit_built in H1 as (cut & ? & _ & _ & ->). by exists cut. }
  destruct (fit rest budget None) as [[p after]|] eqn:H2.
  { apply fit_built in H2 as (cut & ? & _ & _ & ->). by exists cut. }
  destruct (plain_cut rest budget Hne) as (cut & ? & -> & _). by exists cut.
Qed.

Lemma next_fits rest budget open : well_cut rest -> rest <> EmptyString -> 4 <= budget ->
  piece_len (next_piece rest budget open).1 <= budget.
Proof.
  intros Hw Hne Hb. unfold next_piece. destruct (fit rest budget open) as [[p after]|] eqn:H1.
  { by apply fit_built in H1 as (cut & _ & ? & _). }
  destruct (fit rest budget None) as [[p after]|] eqn:H2.
  { by apply fit_built in H2 as (cut & _ & ? & _). }
  destruct (plain_cut rest budget Hne) as (cut & ? & -> & Hcut). unfold piece_len. simpl. rewrite length_str_take.
  pose proof (cut_pos rest budget Hw Hne Hb). lia.
Qed.

Lemma pieces_from_join fuel rest budget open :
  String.length rest <= fuel -> concat (pi_body <$> pieces_from fuel rest budget open) = rest.
Proof.
  revert rest open. induction fuel as [|fuel IH]; intros rest open Hf.
  { by destruct rest; [|simpl in Hf; lia]. }
  cbn [pieces_from]. unfold is_empty. case_bool_decide as He; [by rewrite He|].
  destruct (bool_decide (open = None) && (String.length rest <=? budget)); [apply app_nil_r_string|].
  destruct (next_body rest budget open He) as (cut & Hcut & Hbody).
  destruct (next_piece rest budget open) as [p after]. simpl in Hbody.
  rewrite fmap_cons. cbn [concat]. rewrite Hbody, IH, length_str_take.
  - replace (Nat.min cut (String.length rest)) with cut by lia. apply str_take_drop.
  - rewrite length_str_drop, length_str_take. lia.
Qed.

Lemma pieces_from_fit fuel rest budget open : well_cut rest -> 4 <= budget ->
  Forall (fun p => piece_len p <= budget) (pieces_from fuel rest budget open).
Proof.
  intros Hw Hb. revert rest open Hw. induction fuel as [|fuel IH]; intros rest open Hw; [constructor|].
  cbn [pieces_from]. unfold is_empty. case_bool_decide as He; [constructor|].
  destruct (bool_decide (open = None) && (String.length rest <=? budget)) eqn:Hlast.
  { apply andb_true_iff in Hlast as [_ Hlast%Nat.leb_le]. constructor; [|constructor]. unfold piece_len. simpl. lia. }
  pose proof (next_fits rest budget open Hw He Hb) as Hfit.
  destruct (next_piece rest budget open) as [p after]. constructor; [done|]. by apply IH, well_cut_drop.
Qed.

(** ** Lines and fences *)

Notation cr := (String (ascii_of_N 13) EmptyString).
Definition strip_cr (x : string) : string := default x (strip_suffix cr x).

Lemma line_pieces_app l1 l2 : l2 <> [] -> line_pieces (l1 ++ l2) = (strip_cr <$> l1) ++ line_pieces l2.
Proof.
  intros Hne. induction l1 as [|x l1 IH]; [done|]. rewrite fmap_cons. cbn [app]. rewrite <- IH.
  cbn [line_pieces]. destruct (l1 ++ l2) eqn:Hl; [by apply app_nil in Hl as [_ ?]|]. done.
Qed.

Lemma lines_nl x y : lines (x +:+ newline +:+ y) = (strip_cr <$> split_char newline_byte x) ++ lines y.
Proof.
  unfold lines, newline. rewrite app_cons_string, app_nil_string, split_char_app_sep.
  apply line_pieces_app, split_char_nonempty.
Qed.

Lemma lines_end x : lines (x +:+ newline) = strip_cr <$> split_char newline_byte x.
Proof.
  replace (x +:+ newline) with (x +:+ newline +:+ EmptyString) by (by rewrite app_nil_r_string).
  rewrite lines_nl. apply app_nil_r.
Qed.

Lemma track_nl o x y : track o (x +:+ newline +:+ y) = track (track o (x +:+ newline)) y.
Proof. unfold track. by rewrite lines_nl, lines_end, foldl_app. Qed.

Lemma chars_snoc s a : is_continuation a = false ->
  chars (s +:+ String a EmptyString) = chars s ++ [String a EmptyString].
Proof.
  intros Ha. induction s as [|b s IH]; [done|]. rewrite app_cons_string. cbn [chars]. rewrite IH.
  destruct (chars s) as [|[|c h] t] eqn:Hs; [|done|].
  - cbn [app]. by rewrite Ha.
  - cbn [app]. by case_match.
Qed.

Lemma skip_while_snoc {A} (p : A -> bool) l x :
  skip_while p (l ++ [x]) = if forallb p l then skip_while p [x] else skip_while p l ++ [x].
Proof. induction l as [|y l IH]; [done|]. cbn [app skip_while forallb]. rewrite IH. by destruct (p y). Qed.

Lemma skip_while_forallb {A} (p : A -> bool) l : forallb p l = true -> skip_while p l = [].
Proof. induction l as [|y l IH]; [done|]. simpl. intros [-> ?]%andb_true_iff. by apply IH. Qed.

Lemma skip_all_trim x : forallb char_is_whitespace (chars x) = true -> trim_start x = EmptyString.
Proof. intros Hall. unfold trim_start. by rewrite skip_while_forallb. Qed.

Lemma trim_start_cr x :
  trim_start (x +:+ cr) = if forallb char_is_whitespace (chars x) then EmptyString else trim_start x +:+ cr.
Proof.
  unfold trim_start. rewrite chars_snoc, skip_while_snoc by done.
  destruct (forallb char_is_whitespace (chars x)); [done|]. by rewrite concat_app.
Qed.

Lemma trim_end_cr x : trim_end (x +:+ cr) = trim_end x.
Proof. unfold trim_end. rewrite chars_snoc by done. by rewrite rev_unit. Qed.

Lemma trim_cr x : trim (x +:+ cr) = trim x.
Proof.
  unfold trim. rewrite trim_start_cr. destruct (forallb char_is_whitespace (chars x)) eqn:Hall.
  - by rewrite skip_all_trim.
  - apply trim_end_cr.
Qed.

Lemma run_of_stop c t a r : a <> c -> run_of c (t +:+ String a r) = run_of c t.
Proof.
  intros Ha. induction t as [|b t IH].
  - rewrite app_nil_string. simpl. by destruct (Ascii.eqb_spec a c).
  - rewrite app_cons_string. simpl. by rewrite IH.
Qed.

Lemma run_of_prefix c t : exists r, t = run_of c t +:+ r /\ bytes_all (fun x => Ascii.eqb x c) (run_of c t) = true.
Proof.
  induction t as [|b t (r & Heq & Hr)]; [by exists EmptyString|]. simpl. destruct (Ascii.eqb b c) eqn:Hb.
  - exists r. rewrite app_cons_string, <- Heq. simpl. by rewrite Hb, Hr.
  - by exists (String b t).
Qed.

Lemma str_drop_app_le n x y : n <= String.length x -> str_drop n (x +:+ y) = str_drop n x +:+ y.
Proof.
  revert n. induction x as [|a x IH]; intros [|n] Hn; try done; [simpl in Hn; lia|].
  rewrite app_cons_string. cbn [str_drop]. apply IH. simpl in Hn. lia.
Qed.

Definition is_fence_char (c : ascii) : bool := Ascii.eqb c backtick || Ascii.eqb c tilde.

Lemma fence_of_cr x : fence_of (x +:+ cr) = fence_of x.
Proof.
  unfold fence_of. rewrite trim_start_cr. destruct (forallb char_is_whitespace (chars x)) eqn:Hall.
  { by rewrite skip_all_trim. }
  destruct (trim_start x) as [|ch t] eqn:Ht; [done|]. rewrite app_cons_string.
  destruct (Ascii.eqb ch backtick || Ascii.eqb ch tilde) eqn:Hch; [|done]. cbv zeta.
  rewrite <- app_cons_string, run_of_stop.
  2:{ intros <-. by vm_compute in Hch. }
  case_match; [|done]. do 2 f_equal. rewrite str_drop_app_le, trim_cr; [done|].
  destruct (run_of_prefix ch (String ch t)) as (r & Hr & _). rewrite Hr at 2. rewrite length_app_string. lia.
Qed.

Lemma fence_of_strip_cr x : fence_of (strip_cr x) = fence_of x.
Proof.
  unfold strip_cr. destruct (strip_suffix cr x) as [y|] eqn:Hy; [|done].
  apply strip_suffix_Some in Hy as ->. simpl. by rewrite fence_of_cr.
Qed.

Lemma track_line_cr o x : track_line o (strip_cr x) = track_line o x.
Proof. unfold track_line. by rewrite fence_of_strip_cr. Qed.

Lemma foldl_track_cr o l : foldl track_line o (strip_cr <$> l) = foldl track_line o l.
Proof. revert o. induction l as [|x l IH]; intros o; [done|]. rewrite fmap_cons. simpl. by rewrite track_line_cr, IH. Qed.

Lemma track_line_empty o : track_line o EmptyString = o.
Proof. by destruct o. Qed.

Lemma foldl_track_pieces o l : foldl track_line o (line_pieces l) = foldl track_line o l.
Proof.
  revert o. induction l as [|x [|y l] IH]; intros o; [done|..].
  - simpl. unfold is_empty. case_bool_decide as Hx; [|done]. subst x. by rewrite track_line_empty.
  - change (line_pieces (x :: y :: l)) with (strip_cr x :: line_pieces (y :: l)).
    cbn [foldl]. rewrite track_line_cr. apply IH.
Qed.

(** A line break at the end changes nothing. *)
Lemma track_end o x : track o (x +:+ newline) = track o x.
Proof. unfold track. rewrite lines_end, foldl_track_cr. unfold lines. by rewrite foldl_track_pieces. Qed.

(** ** The fence a chunk closes *)

Definition same_marker (o1 o2 : option Fence) : Prop := fc_marker <$> o1 = fc_marker <$> o2.

Lemma track_line_same o1 o2 x : same_marker o1 o2 -> same_marker (track_line o1 x) (track_line o2 x).
Proof.
  unfold same_marker, track_line. destruct o1 as [f|], o2 as [g|]; simpl; intros H; try done.
  destruct (fence_of x) as [h|]; [|done]. injection H as H. rewrite H. destruct (starts_with _ _ && _); [done|]. simpl. by rewrite H.
Qed.

Lemma track_same o1 o2 x : same_marker o1 o2 -> same_marker (track o1 x) (track o2 x).
Proof.
  unfold track. revert o1 o2. induction (lines x) as [|l ls IH]; intros o1 o2 H; [done|].
  by apply IH, track_line_same.
Qed.

(** What [fence_of] answers, and so what the chunker opens. *)
Record fence_ok (f : Fence) : Prop := {
  fo_char : exists c t, fc_marker f = String c t /\ is_fence_char c = true /\ bytes_all (fun x => Ascii.eqb x c) t = true;
  fo_len : 3 <= String.length (fc_marker f);
  fo_info : lacks newline_byte (fc_info f) = true;
  fo_short : String.length (fc_info f) <= MAX_INFO;
}.

Lemma lacks_take c n s : lacks c s = true -> lacks c (str_take n s) = true.
Proof. intros H. rewrite <- (str_take_drop n s), lacks_app in H. by apply andb_true_iff in H as [? _]. Qed.
Lemma lacks_drop c n s : lacks c s = true -> lacks c (str_drop n s) = true.
Proof. intros H. rewrite <- (str_take_drop n s), lacks_app in H. by apply andb_true_iff in H as [_ ?]. Qed.

Lemma lacks_concat c l : lacks c (concat l) = forallb (lacks c) l.
Proof. induction l as [|x l IH]; [done|]. simpl. by rewrite lacks_app, IH. Qed.

Lemma forallb_skip {A} (p q : A -> bool) l : forallb q l = true -> forallb q (skip_while p l) = true.
Proof. induction l as [|x l IH]; [done|]. simpl. intros [? ?]%andb_true_iff. case_match; [by apply IH|]. simpl. by apply andb_true_iff. Qed.

Lemma forallb_rev {A} (q : A -> bool) l : forallb q (rev l) = forallb q l.
Proof. induction l as [|x l IH]; [done|]. simpl. rewrite forallb_app, IH. simpl. by rewrite andb_true_r, andb_comm. Qed.

Lemma lacks_trim_start c s : lacks c s = true -> lacks c (trim_start s) = true.
Proof.
  intros H. unfold trim_start. rewrite lacks_concat. apply forallb_skip.
  by rewrite <- lacks_concat, concat_chars.
Qed.

Lemma lacks_trim c s : lacks c s = true -> lacks c (trim s) = true.
Proof.
  intros H%(lacks_trim_start c). unfold trim, trim_end. rewrite lacks_concat, forallb_rev. apply forallb_skip.
  by rewrite forallb_rev, <- lacks_concat, concat_chars.
Qed.

Lemma fence_of_ok x f : lacks newline_byte x = true -> fence_of x = Some f -> fence_ok f.
Proof.
  intros Hx. unfold fence_of. pose proof (lacks_trim_start newline_byte x Hx) as Ht.
  destruct (trim_start x) as [|c t]; [done|]. destruct (Ascii.eqb c backtick || Ascii.eqb c tilde) eqn:Hc; [|done].
  case_match eqn:Hlen; [|done]. intros [= <-]. apply Nat.leb_le in Hlen. split; simpl fc_marker; simpl fc_info.
  - destruct (run_of_prefix c (String c t)) as (r & _ & Hr). cbn [run_of] in *. rewrite Ascii.eqb_refl in *.
    simpl in Hr. rewrite Ascii.eqb_refl in Hr. by eexists _, _.
  - done.
  - by apply lacks_take, lacks_trim, lacks_drop.
  - apply length_prefix.
Qed.

Lemma fence_marker_char c : is_fence_char c = true -> (N_of_ascii c < 128)%N /\ char_is_whitespace (String c EmptyString) = false.
Proof.
  intros [Hc|Hc]%orb_true_iff; apply Ascii.eqb_eq in Hc as ->; by vm_compute.
Qed.

Lemma trim_start_fence c t : is_fence_char c = true -> trim_start (String c t) = String c t.
Proof.
  intros [Hc Hw]%fence_marker_char. unfold trim_start. rewrite chars_ascii by done. cbn [skip_while]. rewrite Hw.
  cbn [concat]. by rewrite concat_chars, app_cons_string, app_nil_string.
Qed.

Lemma run_of_all c t r : bytes_all (fun x => Ascii.eqb x c) t = true ->
  match r with String a _ => a <> c | EmptyString => True end -> run_of c (t +:+ r) = t.
Proof.
  intros Ht Hr. induction t as [|b t IH].
  - rewrite app_nil_string. destruct r as [|a r]; [done|]. simpl. by destruct (Ascii.eqb_spec a c).
  - simpl in Ht. apply andb_true_iff in Ht as [Hb Ht]. rewrite app_cons_string. simpl. by rewrite Hb, IH.
Qed.

(** A marker, and what does not go on with its character. *)
Lemma fence_of_marker f r : fence_ok f ->
  match r with String a _ => String a EmptyString <> str_take 1 (fc_marker f) | EmptyString => True end ->
  fence_of (fc_marker f +:+ r) = Some {| fc_marker := fc_marker f; fc_info := prefix (trim r) MAX_INFO |}.
Proof.
  intros [(c & t & Hm & Hc & Ht) Hlen _ _] Hr. rewrite Hm in *. unfold fence_of.
  rewrite app_cons_string, trim_start_fence by done. unfold is_fence_char in Hc. rewrite Hc. cbv zeta.
  rewrite <- app_cons_string, run_of_all.
  - rewrite str_drop_app_length. apply Nat.leb_le in Hlen. by rewrite Hlen.
  - simpl. by rewrite Ascii.eqb_refl.
  - destruct r as [|a r]; [done|]. simpl in Hr. by intros ->.
Qed.

Lemma info_fits f : fence_ok f -> fence_of (fc_marker f) = Some {| fc_marker := fc_marker f; fc_info := EmptyString |}.
Proof.
  intros Hf. pose proof (fence_of_marker f EmptyString Hf I) as H. by rewrite app_nil_r_string in H.
Qed.

Lemma strip_cr_id c x : c <> ascii_of_N 13 -> strip_cr (x +:+ String c EmptyString) = x +:+ String c EmptyString.
Proof.
  intros Hc. unfold strip_cr. destruct (strip_suffix _ _) as [y|] eqn:Hy; [|done].
  apply strip_suffix_Some in Hy. destruct Hc. revert y Hy. induction x as [|b x IH]; intros [|d y] Hy; simpl in Hy.
  - by injection Hy.
  - injection Hy as -> Hy. by destruct y.
  - injection Hy as -> Hy. by destruct x.
  - injection Hy as -> Hy. by apply IH in Hy.
Qed.

Lemma lines_one x y : lacks newline_byte x = true -> lines (x +:+ newline +:+ y) = strip_cr x :: lines y.
Proof. intros Hx. by rewrite lines_nl, split_char_lacks. Qed.

Lemma marker_lacks f : fence_ok f -> lacks newline_byte (fc_marker f) = true.
Proof.
  intros [(c & t & -> & Hc & Ht) _ _ _]. rewrite lacks_cons. apply andb_true_iff. split.
  - apply orb_true_iff in Hc as [Hc|Hc]; apply Ascii.eqb_eq in Hc as ->; done.
  - unfold lacks. eapply bytes_all_impl; [|exact Ht]. simpl. intros a Ha%Ascii.eqb_eq. subst a.
    apply orb_true_iff in Hc as [Hc|Hc]; apply Ascii.eqb_eq in Hc as ->; done.
Qed.

(** The closing line closes. *)
Lemma track_closing o body f : fence_ok f -> fc_marker <$> track o body = Some (fc_marker f) ->
  track o (body +:+ closing body (Some f)) = None.
Proof.
  intros Hf Ho. unfold closing.
  assert (forall x, track (track o (x +:+ newline)) (fc_marker f +:+ newline) = track (track o x) (fc_marker f +:+ newline)) as Hend.
  { intros x. by rewrite (track_end o x). }
  assert (track (track o body) (fc_marker f +:+ newline) = None) as Hclose.
  { rewrite track_end. destruct (track o body) as [g|]; [|done]. simpl in Ho. injection Ho as Ho. unfold track.
    unfold lines. rewrite split_char_lacks by by apply marker_lacks. simpl. unfold is_empty. case_bool_decide as He.
    { pose proof (fo_len _ Hf) as Hl. rewrite He in Hl. simpl in Hl. lia. }
    simpl. unfold track_line. rewrite info_fits by done. simpl. rewrite Ho.
    replace (starts_with (fc_marker f) (fc_marker f)) with true; [done|].
    symmetry. apply starts_with_spec. exists EmptyString. by rewrite app_nil_r_string. }
  destruct (ends_with body newline) eqn:Hb.
  - apply ends_with_spec in Hb as (x & ->). rewrite app_nil_string, app_assoc_string, track_nl. exact Hclose.
  - rewrite track_nl, Hend. exact Hclose.
Qed.

(** The opening line opens the same fence. *)
Lemma track_opening f y : fence_ok f -> same_marker (track None (reopen f +:+ y)) (track (Some f) y).
Proof.
  intros Hf. unfold reopen. rewrite !app_assoc_string. unfold track.
  rewrite <- (app_assoc_string (fc_marker f)), <- (app_assoc_string (fc_marker f +:+ _)).
  rewrite lines_one.
  2:{ rewrite !lacks_app, marker_lacks, (fo_info _ Hf) by done. by case_match. }
  cbn [foldl]. rewrite track_line_cr. rewrite app_assoc_string. unfold track_line at 2.
  rewrite fence_of_marker; [by apply (track_same _ _ y)|done|].
  destruct (fo_char _ Hf) as (c & t & Hm & Hc & _). rewrite Hm. cbn [str_take].
  destruct (starts_with (fc_info f) (String c EmptyString)) eqn:Hs.
  - rewrite app_cons_string. intros [= <-]. by vm_compute in Hc.
  - rewrite app_nil_string. destruct (fc_info f) as [|a i]; [done|]. intros [= ->].
    apply not_true_iff_false in Hs. destruct Hs. apply starts_with_spec. exists i. by rewrite app_cons_string, app_nil_string.
Qed.

(** ** The budget that holds every fence *)

Definition within (m s : string) : Prop := exists p q, s = p +:+ m +:+ q.

Lemma within_trans a b c : within a b -> within b c -> within a c.
Proof.
  intros (p & q & ->) (p' & q' & ->). exists (p' +:+ p), (q +:+ q'). by rewrite !app_assoc_string.
Qed.

Lemma within_drop i s : within (str_drop i s) s.
Proof. exists (str_take i s), EmptyString. by rewrite app_nil_r_string, str_take_drop. Qed.
Lemma within_take i s : within (str_take i s) s.
Proof. exists EmptyString, (str_drop i s). by rewrite app_nil_string, str_take_drop. Qed.

Lemma within_split c s x : x ∈ split_char c s -> within x s.
Proof.
  revert x. induction s as [|a s IH]; intros x; cbn [split_char].
  - intros ->%list_elem_of_singleton. by exists EmptyString, EmptyString.
  - destruct (Ascii.eqb a c).
    + intros [->|Hx]%elem_of_cons; [by exists EmptyString, (String a s)|].
      apply (within_trans _ s); [by apply IH|]. by apply (within_drop 1).
    + destruct (split_char c s) as [|y l] eqn:Hs; [by destruct (split_char_nonempty c s)|].
      intros [->|Hx]%elem_of_cons.
      * pose proof (join_split_char c s) as Hj. rewrite Hs in Hj. exists EmptyString.
        destruct l as [|z l]; simpl in Hj; [exists EmptyString|eexists]; subst s; rewrite app_nil_string;
          [by rewrite app_nil_r_string|by rewrite app_cons_string].
      * apply (within_trans _ s); [apply IH; by right|]. by apply (within_drop 1).
Qed.

Lemma within_strip_cr x : within (strip_cr x) x.
Proof.
  unfold strip_cr. destruct (strip_suffix cr x) as [y|] eqn:Hy; simpl.
  - apply strip_suffix_Some in Hy as ->. by exists EmptyString, cr.
  - exists EmptyString, EmptyString. by rewrite app_nil_r_string.
Qed.

Lemma elem_line_pieces x l : x ∈ line_pieces l -> exists y, y ∈ l /\ within x y.
Proof.
  induction l as [|a [|b l] IH]; [by intros ?%not_elem_of_nil| |].
  - simpl. case_match; [by intros ?%not_elem_of_nil|]. intros ->%list_elem_of_singleton.
    exists a. split; [by left|]. exists EmptyString, EmptyString. by rewrite app_nil_r_string.
  - change (line_pieces (a :: b :: l)) with (strip_cr a :: line_pieces (b :: l)).
    intros [->|Hx]%elem_of_cons; [exists a; split; [by left|apply within_strip_cr]|].
    destruct (IH Hx) as (y & Hy & Hw). exists y. split; [by right|done].
Qed.

Lemma within_lines x s : x ∈ lines s -> within x s /\ lacks newline_byte x = true.
Proof.
  intros (y & Hy & Hw)%elem_line_pieces. split; [by eapply within_trans, within_split|].
  pose proof (split_char_pieces_lack newline_byte s) as Hl. rewrite Forall_forall in Hl.
  specialize (Hl y Hy). simpl in Hl. destruct Hw as (p & q & ->). rewrite !lacks_app in Hl.
  apply andb_true_iff in Hl as [_ Hl]. by apply andb_true_iff in Hl as [Hl _].
Qed.

Lemma within_trim_start s : within (trim_start s) s.
Proof.
  unfold trim_start. destruct (skip_while_suffix char_is_whitespace (chars s)) as (k & Hk & _).
  exists (concat k), EmptyString. rewrite app_nil_r_string, <- concat_app, <- Hk. by rewrite concat_chars.
Qed.

Lemma within_marker x f : fence_of x = Some f -> within (fc_marker f) x.
Proof.
  unfold fence_of. pose proof (within_trim_start x) as Ht. destruct (trim_start x) as [|c t]; [done|].
  case_match; [|done]. case_match; [|done]. intros [= <-]. eapply within_trans; [|exact Ht]. simpl fc_marker.
  destruct (run_of_prefix c (String c t)) as (r & Hr & _). exists EmptyString, r. by rewrite app_nil_string.
Qed.

(** The runs of one fence character in a text. *)
Definition runs_at_most (R : nat) (text : string) : Prop :=
  forall c m, is_fence_char c = true -> bytes_all (fun x => Ascii.eqb x c) m = true -> within m text -> String.length m <= R.

Lemma runs_within R a b : within a b -> runs_at_most R b -> runs_at_most R a.
Proof. intros Hab Hb c m Hc Hm Hw. apply (Hb c m Hc Hm). by eapply within_trans. Qed.

Definition open_ok (R : nat) (o : option Fence) : Prop :=
  forall f, o = Some f -> fence_ok f /\ String.length (fc_marker f) <= R.

Lemma track_ok R o s : open_ok R o -> runs_at_most R s -> open_ok R (track o s).
Proof.
  intros Ho Hs. unfold track.
  assert (forall x, x ∈ lines s -> runs_at_most R x /\ lacks newline_byte x = true) as Hl.
  { intros x (Hw & Hn)%within_lines. split; [by eapply runs_within|done]. }
  revert o Ho. induction (lines s) as [|x l IH]; intros o Ho; [done|]. cbn [foldl].
  apply IH; [intros y Hy; apply Hl; by right|]. destruct (Hl x) as [Hr Hn]; [by left|].
  unfold track_line. destruct o as [cur|], (fence_of x) as [f|] eqn:Hf; try done.
  - by case_match.
  - intros g [= <-]. pose proof (fence_of_ok x f Hn Hf) as Hok. split; [done|].
    destruct (fo_char _ Hok) as (c & t & Hm & Hc & Ht). apply (Hr c); [done| |by apply within_marker].
    rewrite Hm. simpl. by rewrite Ascii.eqb_refl.
Qed.

Lemma opening_length R o : open_ok R o -> String.length (opening o) <= R + MAX_INFO + 2.
Proof.
  intros Ho. destruct o as [f|]; [|simpl; lia]. destruct (Ho f eq_refl) as [Hok Hm]. unfold opening, reopen.
  pose proof (fo_short _ Hok). rewrite !length_app_string. case_match; simpl; lia.
Qed.

Lemma closing_length R body o : open_ok R o -> String.length (closing body o) <= R + 2.
Proof.
  intros Ho. destruct o as [f|]; [|simpl; lia]. destruct (Ho f eq_refl) as [_ Hm]. unfold closing.
  rewrite !length_app_string. case_match; simpl; lia.
Qed.

Lemma fit_from_some R fuel rest budget open room :
  well_cut rest -> rest <> EmptyString -> open_ok R open -> runs_at_most R rest -> 2 * (R + MAX_INFO + 4) <= budget ->
  4 <= room -> room < fuel -> exists fitted, fit_from fuel rest budget open room = Some fitted.
Proof.
  intros Hw Hne Ho Hr Hb. revert room. induction fuel as [|fuel IH]; intros room H4 Hfuel; [lia|]. cbn [fit_from].
  pose proof (cut_pos rest room Hw Hne H4) as Hpos. destruct (cut_le rest room) as [Hle _].
  destruct (Nat.eqb_spec (cut_within rest room) 0) as [|_]; [lia|].
  case_match eqn:Hlen; [by eexists|]. apply Nat.leb_gt in Hlen. unfold piece_len in Hlen. simpl pi_reopen in *. simpl pi_close in *.
  simpl pi_body in *. rewrite length_str_take in Hlen.
  set (body := str_take (cut_within rest room) rest) in *.
  pose proof (opening_length R open Ho) as H1.
  pose proof (closing_length R body (track open body)) as H2.
  assert (open_ok R (track open body)) as Hok by (apply track_ok; [done|eapply runs_within; [apply within_take|done]]).
  specialize (H2 Hok). apply IH; lia.
Qed.

Lemma fit_some R rest budget open :
  well_cut rest -> rest <> EmptyString -> open_ok R open -> runs_at_most R rest -> 2 * (R + MAX_INFO + 4) <= budget ->
  exists fitted, fit rest budget open = Some fitted.
Proof.
  intros Hw Hne Ho Hr Hb. pose proof (opening_length R open Ho) as H1. unfold fit. case_match eqn:Hlt.
  - apply Nat.ltb_lt in Hlt. lia.
  - apply (fit_from_some R); try done; lia.
Qed.

Definition balanced (p : Piece) : Prop := track None (piece_text p) = None.

Lemma fit_balanced R rest budget open p after : open_ok R open -> runs_at_most R rest ->
  fit rest budget open = Some (p, after) -> balanced p.
Proof.
  intros Ho Hr (cut & _ & _ & Hafter & ->)%fit_built. unfold balanced, piece_text. simpl.
  set (body := str_take cut rest) in *.
  assert (open_ok R after) as Hok by (subst; apply track_ok; [done|eapply runs_within; [apply within_take|done]]).
  assert (track open (body +:+ closing body after) = None) as Hbody.
  { destruct after as [g|]; [|simpl; by rewrite app_nil_r_string].
    destruct (Hok g eq_refl) as [Hg _]. apply track_closing; [done|]. by rewrite <- Hafter. }
  destruct open as [f|]; simpl; [|by rewrite app_nil_string].
  destruct (Ho f eq_refl) as [Hf _]. pose proof (track_opening f (body +:+ closing body after) Hf) as Hs.
  rewrite Hbody in Hs. unfold same_marker in Hs. by destruct (track None _).
Qed.

Lemma pieces_from_balanced R fuel rest budget open :
  well_cut rest -> open_ok R open -> runs_at_most R rest -> 2 * (R + MAX_INFO + 4) <= budget ->
  Forall balanced (removelast (pieces_from fuel rest budget open)).
Proof.
  intros Hw Ho Hr Hb. revert rest open Hw Ho Hr. induction fuel as [|fuel IH]; intros rest open Hw Ho Hr; [constructor|].
  cbn [pieces_from]. unfold is_empty. case_bool_decide as He; [constructor|].
  destruct (bool_decide (open = None) && (String.length rest <=? budget)); [constructor|].
  destruct (fit_some R rest budget open) as ([p after] & Hfit); try done. unfold next_piece. rewrite Hfit.
  assert (open_ok R after) as Hok.
  { apply fit_built in Hfit as (cut & _ & _ & -> & _). apply track_ok; [done|]. eapply runs_within; [apply within_take|done]. }
  specialize (IH (str_drop (String.length (pi_body p)) rest) after).
  destruct (pieces_from fuel _ budget after) as [|q l] eqn:Hl; [constructor|].
  change (removelast (p :: q :: l)) with (p :: removelast (q :: l)).
  constructor; [exact (fit_balanced R rest budget open p after Ho Hr Hfit)|]. apply IH; [by apply well_cut_drop|done|].
  eapply runs_within; [apply within_drop|done].
Qed.

(** The longest run of one fence character. *)
Fixpoint longest_from (last : option ascii) (run longest : nat) (s : string) : nat :=
  match s with
  | EmptyString => longest
  | String c s =>
      let run := if is_fence_char c then if bool_decide (last = Some c) then S run else 1 else 0 in
      longest_from (Some c) run (Nat.max longest run) s
  end.
Definition longest_run (s : string) : nat := longest_from None 0 0 s.

Lemma longest_ge last run longest s : longest <= longest_from last run longest s.
Proof. revert last run longest. induction s as [|c s IH]; intros last run longest; simpl; [lia|]. etransitivity; [|apply IH]. lia. Qed.

Lemma longest_run_app c m q run longest : is_fence_char c = true -> bytes_all (fun x => Ascii.eqb x c) m = true ->
  run <= longest -> run + String.length m <= longest_from (Some c) run longest (m +:+ q).
Proof.
  intros Hc. revert run longest. induction m as [|a m IH]; intros run longest Hm Hle.
  - rewrite app_nil_string. simpl. etransitivity; [|apply longest_ge]. lia.
  - simpl in Hm. apply andb_true_iff in Hm as [->%Ascii.eqb_eq Hm]. rewrite app_cons_string. simpl.
    rewrite Hc, bool_decide_true by done. etransitivity; [|apply IH; [done|lia]]. lia.
Qed.

Lemma longest_run_bounds text : runs_at_most (longest_run text) text.
Proof.
  intros c m Hc Hm (p & q & ->). unfold longest_run.
  enough (forall last run longest, String.length m <= longest_from last run longest (p +:+ m +:+ q)) as H by apply H.
  induction p as [|a p IH]; intros last run longest.
  - rewrite app_nil_string. destruct m as [|a m]; [simpl; lia|]. simpl in Hm. apply andb_true_iff in Hm as [->%Ascii.eqb_eq Hm].
    rewrite app_cons_string. simpl. rewrite Hc. case_bool_decide.
    + etransitivity; [|apply longest_run_app; [done|done|lia]]. lia.
    + etransitivity; [|apply longest_run_app; [done|done|lia]]. lia.
  - rewrite app_cons_string. simpl. apply IH.
Qed.

(** C34: Cutting a text loses nothing, every piece fits the budget, and once the
    budget holds a reopening and a closing line no piece but the last leaves a
    code fence open. *)
Theorem pieces_whole text budget : valid_utf8 text ->
  concat (pi_body <$> pieces text budget) = text /\
  (4 <= budget -> Forall (fun p => piece_len p <= budget) (pieces text budget)) /\
  (2 * (longest_run text + MAX_INFO + 4) <= budget -> Forall balanced (removelast (pieces text budget))).
Proof.
  intros Hv%valid_well_cut. split_and!.
  - by apply pieces_from_join.
  - by apply pieces_from_fit.
  - intros Hb. apply (pieces_from_balanced (longest_run text)); [done|done|apply longest_run_bounds|done].
Qed.

(** ** The marked parts *)

Lemma pretty_N_go_length k x s : (x < 10 ^ N.of_nat k)%N -> String.length (pretty_N_go x s) <= k + String.length s.
Proof.
  revert x s. induction k as [|k IH]; intros x s Hx.
  - simpl in Hx. replace x with 0%N by lia. by rewrite pretty_N_go_0.
  - destruct (decide (x = 0%N)) as [->|Hne]; [rewrite pretty_N_go_0; lia|].
    rewrite pretty_N_go_step by lia. etransitivity; [apply IH|simpl; lia].
    rewrite Nat2N.inj_succ, N.pow_succ_r' in Hx. apply N.Div0.div_lt_upper_bound. lia.
Qed.

Lemma pretty_length n k : (N.of_nat n < 10 ^ N.of_nat k)%N -> 1 <= k -> String.length (pretty n) <= k.
Proof.
  intros Hn Hk. change (pretty n) with (pretty (N.of_nat n)). unfold pretty, pretty_N. case_decide; [done|].
  pose proof (pretty_N_go_length k (N.of_nat n) EmptyString Hn) as H1. simpl in H1. lia.
Qed.

Lemma trim_end_length s : String.length (trim_end s) <= String.length s.
Proof.
  unfold trim_end. destruct (skip_while_suffix char_is_whitespace (rev (chars s))) as (k & Hk & _).
  apply (f_equal (@rev string)) in Hk. rewrite rev_involutive, rev_app_distr in Hk.
  apply (f_equal concat) in Hk. rewrite concat_chars, concat_app in Hk.
  apply (f_equal String.length) in Hk. rewrite length_app_string in Hk. lia.
Qed.

Lemma pieces_from_count fuel rest budget open : length (pieces_from fuel rest budget open) <= String.length rest.
Proof.
  revert rest open. induction fuel as [|fuel IH]; intros rest open; cbn [pieces_from]; [simpl; lia|].
  unfold is_empty. case_bool_decide as He; [simpl; lia|].
  assert (1 <= String.length rest) by (destruct rest; simpl; [done|lia]).
  case_match; [simpl; lia|]. destruct (next_body rest budget open He) as (cut & Hcut & Hbody).
  destruct (next_piece rest budget open) as [p after]. simpl in Hbody. cbn [length].
  specialize (IH (str_drop (String.length (pi_body p)) rest) after). rewrite length_str_drop, Hbody, length_str_take in IH.
  rewrite Hbody, length_str_take. lia.
Qed.

Lemma piece_text_length p : String.length (piece_text p) = piece_len p.
Proof. unfold piece_text, piece_len. rewrite !length_app_string. lia. Qed.

(** Texts of [n] bytes at most. *)
Definition fits (n : nat) (l : list string) : Prop := Forall (fun p => String.length p <= n) l.

Lemma append_last_length l note : length (append_last l note) = length l.
Proof.
  unfold append_last. rewrite <- (length_rev l). destruct (rev l) as [|x r]; [done|]. by rewrite length_rev.
Qed.

Lemma append_last_fits n l note : fits n l -> fits (n + String.length note) (append_last l note).
Proof.
  intros Hl. unfold append_last, fits. assert (fits n (rev l)) as Hr by by apply Forall_rev.
  destruct (rev l) as [|x r]; [constructor|]. apply Forall_cons in Hr as [Hx Hr]. apply Forall_rev. constructor.
  - rewrite length_app_string. lia.
  - eapply Forall_impl; [exact Hr|]. simpl. lia.
Qed.

Lemma chunks_fit text budget : valid_utf8 text -> 4 <= budget ->
  fits budget (chunks text budget) /\ 1 <= length (chunks text budget) <= Nat.max 1 (String.length text).
Proof.
  intros Hv Hb. assert (fits budget (piece_text <$> pieces text budget)) as Hfit.
  { apply Forall_fmap. eapply Forall_impl; [by apply pieces_from_fit, Hb; apply valid_well_cut|]. intros p. simpl. by rewrite piece_text_length. }
  pose proof (pieces_from_count (String.length text) text budget None : length (pieces text budget) <= _) as Hc.
  rewrite <- (length_fmap piece_text) in Hc. unfold chunks. destruct (piece_text <$> pieces text budget) as [|x l].
  - split; [constructor; [simpl; lia|constructor]|simpl; lia].
  - split; [done|]. simpl in *. lia.
Qed.

Lemma part_mark_length i total p : (N.of_nat total < 10 ^ 9)%N -> i < total ->
  String.length (part_mark i total p) <= String.length p + 23.
Proof.
  intros Ht Hi. unfold part_mark. pose proof (trim_end_length p).
  assert (String.length (pretty (S i)) <= 9) by (apply pretty_length; change (N.of_nat 9) with 9%N; lia).
  assert (String.length (pretty total) <= 9) by (apply pretty_length; change (N.of_nat 9) with 9%N; lia).
  rewrite !length_app_string. simpl String.length. lia.
Qed.

Lemma omitted_note_length n : (N.of_nat n < 10 ^ 9)%N -> String.length (omitted_note n) <= 40.
Proof.
  intros Hn. unfold omitted_note. assert (String.length (pretty n) <= 9) by (apply pretty_length; change (N.of_nat 9) with 9%N; lia).
  rewrite !length_app_string. case_match; simpl String.length; lia.
Qed.

Lemma imap_mark_fits n total l : (N.of_nat total < 10 ^ 9)%N -> length l <= total -> fits n l ->
  fits (n + 23) (imap (fun i p => part_mark i total p) l).
Proof.
  intros Ht Hl Hn. apply Forall_lookup. intros i x Hi. rewrite list_lookup_imap in Hi.
  destruct (l !! i) as [p|] eqn:Hp; [|done]. simpl in Hi. injection Hi as <-.
  pose proof (lookup_lt_Some _ _ _ Hp). apply (Forall_lookup_1 _ _ _ _ Hn) in Hp. simpl in Hp.
  pose proof (part_mark_length i total p Ht). lia.
Qed.

(** What is posted is never empty, never more than the parts allowed, and every
    part fits the limit, its mark and the note about what was left out included. *)
Theorem split_within text limit max_parts : valid_utf8 text -> (N.of_nat (String.length text) < 10 ^ 9)%N ->
  PART_OVERHEAD + 4 <= limit ->
  split text limit max_parts <> [] /\ length (split text limit max_parts) <= Nat.max max_parts 1 /\
  fits limit (split text limit max_parts).
Proof.
  intros Hv Hlen Hlim. unfold split. change PART_OVERHEAD with 64 in *. destruct (Nat.leb_spec (String.length text) limit) as [Hle|Hgt].
  { split_and!; [done|simpl; lia|]. by constructor. }
  set (budget := Nat.max (limit - 64) 1).
  destruct (chunks_fit text budget Hv) as [Hfit Hcount]; [unfold budget; lia|].
  destruct (Nat.leb_spec (length (chunks text budget)) 1) as [H1|H1].
  { split_and!; [by destruct (chunks text budget); [simpl in Hcount; lia|]|lia|].
    eapply Forall_impl; [exact Hfit|]. unfold budget. simpl. lia. }
  set (parts := chunks text budget) in *.
  assert (forall l, length l <= Nat.max max_parts 1 -> 1 <= length l <= length parts -> fits (limit - 24) l ->
    imap (fun i p => part_mark i (length l) p) l <> [] /\
    length (imap (fun i p => part_mark i (length l) p) l) <= Nat.max max_parts 1 /\
    fits limit (imap (fun i p => part_mark i (length l) p) l)) as Hmark.
  { intros l Hmax Hl Hf. split_and!; [by destruct l; [simpl in Hl; lia|]|by rewrite length_imap|].
    pose proof (imap_mark_fits (limit - 24) (length l) l) as H2. eapply Forall_impl; [apply H2; [lia|lia|done]|]. simpl. lia. }
  destruct (Nat.ltb_spec (Nat.max max_parts 1) (length parts)) as [Hover|Hall].
  - apply Hmark; rewrite ?append_last_length, ?length_take; [lia..|].
    pose proof (omitted_note_length (length parts - Nat.max max_parts 1)) as Hnote.
    eapply Forall_impl; [apply (append_last_fits budget); by apply Forall_take|].
    intros x Hx. cbn beta in Hx. specialize (Hnote ltac:(lia)). unfold budget in Hx. lia.
  - apply Hmark; [lia..|]. eapply Forall_impl; [exact Hfit|]. simpl. unfold budget. lia.
Qed.

(** A text with a code block longer than its parts, and both theorems on it. *)
Definition sample_text : string :=
  "```rust" +:+ newline +:+ "let first = compute_the_first_of_the_values(argument);" +:+ newline
  +:+ "let second = compute_the_second_of_the_values(argument);" +:+ newline +:+ "```" +:+ newline +:+ "done".

Lemma sample_text_valid : valid_utf8 sample_text.
Proof. by vm_compute. Qed.

Lemma pieces_whole_witness :
  length (pieces sample_text 80) = 3 /\ pi_reopen <$> pieces sample_text 80 !! 1 = Some ("```rust" +:+ newline) /\
  concat (pi_body <$> pieces sample_text 80) = sample_text /\
  Forall (fun p => piece_len p <= 80) (pieces sample_text 80) /\ Forall balanced (removelast (pieces sample_text 80)).
Proof.
  split; [by vm_compute|]. split; [by vm_compute|].
  destruct (pieces_whole sample_text 80 sample_text_valid) as (H1 & H2 & H3).
  split; [exact H1|]. split; [apply H2; lia|]. apply H3. vm_compute. lia.
Defined.

Lemma split_within_witness :
  split sample_text 100 2 <> [] /\ length (split sample_text 100 2) = 2 /\ fits 100 (split sample_text 100 2).
Proof.
  destruct (split_within sample_text 100 2 sample_text_valid) as (H1 & _ & H3).
  - by vm_compute.
  - vm_compute. lia.
  - split; [exact H1|]. split; [by vm_compute|exact H3].
Defined.
