(* ===== verification/Review.v ===== *)
(** A code review as one message for the agent
    ([plugins/common/src/review.rs]): its limits, and the message [send_text]
    delivers. *)

From S2P Require Import Prelude Str BTree Text.

Definition MAX_COMMENTS : nat := 200.
Definition MAX_BODY_BYTES : N := 64 * 1024.
Definition MAX_TEXT_BYTES : nat := N.to_nat 4096.
Definition MAX_REF_BYTES : nat := 256.
Definition MAX_MESSAGE_BYTES : N := 256 * 1024.
Definition MAX_PATH_BYTES : nat := N.to_nat 4096.

Inductive Side := Old | New.

Definition side_display (s : Side) : string := match s with Old => "old" | New => "new" end.
(** [side as u8]. *)
Definition side_index (s : Side) : N := match s with Old => 0 | New => 1 end.

Record Comment := {
  co_path : string;
  co_side : Side;
  co_line : N;
  co_text : string;
  co_body : string;
}.

Record Review := {
  rv_head : string;
  rv_base_ref : string;
  rv_summary : string;
  rv_comments : list Comment;
}.

Definition no_nul (field value : string) : result string unit :=
  ensure (lacks (ascii_of_N 0) value) (field +:+ ": contains NUL").

Definition check_comment_path (field path : string) : result string unit :=
  _ ← ensure (negb (is_empty path)) (field +:+ ": empty");
  _ ← ensure (String.length path <=? MAX_PATH_BYTES) (field +:+ ": longer than 4096 bytes");
  no_nul field path.

(** [char::escape_debug] of a control character, every one of which it escapes. *)
Definition escape_control (c : string) : string :=
  let n := code_point c in
  if (n =? 0)%N then "\0" else if (n =? 10)%N then "\n" else if (n =? 13)%N then "\r"
  else "\u{" +:+ hex 6 n +:+ "}".

Definition quoted_char (c : string) : string :=
  if char_is_control c && negb (char_is 9 c) then escape_control c else c.

Definition quoted_path (path : string) : string :=
  if existsb (fun c => char_is_control c && negb (char_is 9 c)) (chars path)
  then concat (quoted_char <$> chars path) else path.

Definition validate_comment (i : nat) (c : Comment) : result string unit :=
  let at_ field := "comments[" +:+ pretty i +:+ "]." +:+ field in
  _ ← check_comment_path (at_ "path") (co_path c);
  _ ← ensure (negb (is_empty (trim (co_body c)))) (at_ "body" +:+ ": empty");
  _ ← ensure (String.length (co_text c) <=? MAX_TEXT_BYTES) (at_ "text" +:+ ": longer than 4096 bytes");
  _ ← no_nul (at_ "text") (co_text c);
  no_nul (at_ "body") (co_body c).

(** [summary] and the comment bodies, in bytes. *)
Definition body_bytes (r : Review) : N :=
  foldl (fun n c => n + N.of_nat (String.length (co_body c)))%N
    (N.of_nat (String.length (rv_summary r))) (rv_comments r).

Definition validate (r : Review) : result string unit :=
  _ ← ensure (negb (bool_decide (rv_comments r = []) && is_empty (trim (rv_summary r)))) "nothing to send";
  _ ← ensure (length (rv_comments r) <=? MAX_COMMENTS) "comments: more than 200";
  _ ← ensure (String.length (rv_head r) <=? MAX_REF_BYTES) "head: longer than 256 bytes";
  _ ← ensure (String.length (rv_base_ref r) <=? MAX_REF_BYTES) "base_ref: longer than 256 bytes";
  _ ← no_nul "head" (rv_head r);
  _ ← no_nul "base_ref" (rv_base_ref r);
  _ ← no_nul "summary" (rv_summary r);
  _ ← try_each (fun '(i, c) => validate_comment i c) (imap (fun (i : nat) c => (i, c)) (rv_comments r));
  ensure (body_bytes r <=? MAX_BODY_BYTES)%N "summary and comment bodies: longer than 65536 bytes together".

(** [sort_by] on the path, the line and the side: a stable sort. *)
Definition comment_key (c : Comment) : string * (N * N) := (co_path c, (co_line c, side_index (co_side c))).

#[export] Instance N_ordered : Ordered N.
Proof. refine {| kle := N.le |}. Defined.

Definition comment_le (a b : Comment) : Prop := kle (comment_key a) (comment_key b).
#[export] Instance comment_le_dec : RelDecision comment_le.
Proof. intros a b. apply kle_dec. Defined.

Definition render_comment (c : Comment) : string :=
  newline +:+ quoted_path (co_path c) +:+ " line " +:+ pretty (co_line c) +:+ " (" +:+ side_display (co_side c) +:+ "):"
  +:+ newline +:+ "> " +:+ co_text c +:+ newline +:+ trim_end (co_body c) +:+ newline.

Definition render_message (r : Review) : string :=
  let comments := merge_sort comment_le (rv_comments r) in
  let n := length comments in
  let short := concat (take 7 (chars (rv_head r))) in
  let summary := trim (rv_summary r) in
  trim_end
    ("Review" +:+ (if is_empty (rv_base_ref r) then EmptyString else " against " +:+ rv_base_ref r)
     +:+ (if is_empty short then EmptyString else " at " +:+ short)
     +:+ " (" +:+ pretty n +:+ " comment" +:+ (if n =? 1 then EmptyString else "s") +:+ ")" +:+ newline
     +:+ concat (render_comment <$> comments)
     +:+ (if is_empty summary then EmptyString else newline +:+ "Overall:" +:+ newline +:+ summary +:+ newline)).

(** ** A comment keeps its header line *)

(** A byte, or a lead with its continuation bytes. *)
Definition char_shape (c : string) : Prop :=
  exists a t, c = String a t /\ bytes_all is_continuation t = true /\ (t <> EmptyString -> (128 <= N_of_ascii a)%N).

Lemma chars_shape s : Forall char_shape (chars s).
Proof.
  induction s as [|a s IH]; [constructor|]. cbn [chars].
  assert (char_shape (String a EmptyString)) as Ha by (by exists a, EmptyString).
  destruct (chars s) as [|[|b h] t]; [by constructor| |].
  - by constructor.
  - destruct (is_continuation b && (128 <=? N_of_ascii a)%N) eqn:Hb.
    + apply andb_true_iff in Hb as [Hb Hle%N.leb_le]. apply Forall_cons in IH as [(b' & h' & [= <- <-] & Hh & _) IH].
      constructor; [|done]. exists a, (String b h). split; [done|]. split; [simpl; by rewrite Hb|done].
    + by constructor.
Qed.

Lemma lacks_concat_map {A} c (f : A -> string) (P : A -> Prop) l :
  Forall P l -> (forall x, P x -> lacks c (f x) = true) -> lacks c (concat (f <$> l)) = true.
Proof.
  intros Hl Hf. induction Hl as [|x l Hx _ IH]; [done|]. rewrite fmap_cons. cbn [concat].
  by rewrite lacks_app, Hf, IH.
Qed.

Lemma hex_lacks fuel n : lacks (ascii_of_N 10) (hex fuel n) = true.
Proof.
  revert n. assert (forall d, (d < 16)%N -> lacks (ascii_of_N 10) (String (hex_digit d) EmptyString) = true) as Hd.
  { intros d Hd. rewrite <- (N2Nat.id d). assert (N.to_nat d < 16) as Hn by lia. revert Hn. generalize (N.to_nat d).
    intros m Hm. do 16 (destruct m as [|m]; [done|]). lia. }
  induction fuel as [|fuel IH]; intros n; cbn [hex]; [done|].
  destruct (N.ltb_spec n 16) as [Hn|Hn]; [by apply Hd|]. rewrite lacks_app, IH, Hd; [done|]. by apply N.mod_lt.
Qed.

Lemma escape_control_lacks c : lacks (ascii_of_N 10) (escape_control c) = true.
Proof. unfold escape_control. repeat case_match; try done. by rewrite !lacks_app, hex_lacks. Qed.

Lemma shape_lacks c : char_shape c -> code_point c <> 10%N -> lacks (ascii_of_N 10) c = true.
Proof.
  intros (a & t & -> & Ht & Ha) Hc. rewrite lacks_cons. apply andb_true_iff. split.
  - destruct (Ascii.eqb_spec a (ascii_of_N 10)) as [->|]; [|done].
    destruct t as [|b t]; [by vm_compute in Hc|]. specialize (Ha ltac:(done)). by vm_compute in Ha.
  - unfold lacks. eapply bytes_all_impl; [|exact Ht]. simpl. intros b Hb.
    destruct (Ascii.eqb _ _) eqn:E; [apply Ascii.eqb_eq in E; subst; by vm_compute in Hb|done].
Qed.

(** A path quoted in a review never breaks its line. *)
Lemma quoted_path_line path : lacks (ascii_of_N 10) (quoted_path path) = true.
Proof.
  unfold quoted_path. case_match eqn:Hany.
  - apply (lacks_concat_map _ _ char_shape); [apply chars_shape|]. intros c Hc. unfold quoted_char.
    case_match eqn:Hq; [apply escape_control_lacks|]. apply shape_lacks; [done|].
    intros Hn. unfold char_is_control, char_is in Hq. rewrite Hn in Hq. by vm_compute in Hq.
  - rewrite <- (concat_chars path), <- (list_fmap_id (chars path)).
    apply (lacks_concat_map _ _ (fun c => char_shape c /\ char_is_control c && negb (char_is 9 c) = false)).
    + apply Forall_forall. intros c Hc. split; [by apply (proj1 (Forall_forall _ _) (chars_shape path))|].
      destruct (char_is_control c && negb (char_is 9 c)) eqn:Hq; [|done]. apply not_true_iff_false in Hany. destruct Hany.
      apply existsb_exists. exists c. split; [by apply list_elem_of_In|done].
    + intros c [Hc Hq]. change (id c) with c. apply shape_lacks; [done|]. intros Hn. unfold char_is_control, char_is in Hq.
      rewrite Hn in Hq. by vm_compute in Hq.
Qed.
