(* ===== verification/PluginConfig.v ===== *)
(** The config helpers the plugins share ([plugins/common/src/config.rs]) and
    the github plugin's two blocks ([plugins/github/src/config.rs]) after serde
    has read them: serde's typed reading and its messages are left out. *)

From S2P Require Import Prelude Str Bytes Rules Manifest Delivery.

(** ** [plugins/common/src/config.rs] *)

Record ConfigError := { cfg_path : string; cfg_message : string }.
#[export] Instance config_error_eq_dec : EqDecision ConfigError.
Proof. solve_decision. Defined.

Definition invalid (path message : string) : ConfigError := {| cfg_path := path; cfg_message := message |}.

Definition config_error_display (e : ConfigError) : string :=
  if is_empty (cfg_path e) then cfg_message e else cfg_path e +:+ ": " +:+ cfg_message e.

Definition DEFAULT_EVENTS : list string := ["SessionStart"; "Notification"; "Stop"; "SessionEnd"].
Definition LIFECYCLE : list string := ["SessionStart"; "SessionEnd"].

(** [EventFilter::wants] and [validate]. *)
Definition wants_event (filter : list string) (event : string) : bool :=
  bool_decide (event ∈ LIFECYCLE) || existsb (String.eqb event) filter.

Section validate.
Context `{Unicode}.

Definition validate_events (filter : list string) : result ConfigError unit :=
  try_each (fun '(i, name) =>
    ensure (bool_decide (name ∈ HOOK_EVENTS))
      (invalid ("events[" +:+ pretty i +:+ "]") ("unknown event " +:+ debug_str name)))
    (imap (fun (i : nat) name => (i, name)) filter).

Definition validate_key_delay (ms : N) : result ConfigError unit :=
  ensure ((MIN_KEY_DELAY_MS <=? ms) && (ms <=? MAX_KEY_DELAY_MS))%N
    (invalid "keyDelayMs" ("expected 20 to 500 milliseconds, got " +:+ pretty ms)).

(** [t.split_at] of the first character that is no digit. *)
Fixpoint split_digits (s : string) : string * string :=
  match s with
  | String c r =>
      if is_ascii_digit c then let '(digits, unit) := split_digits r in (String c digits, unit)
      else (EmptyString, s)
  | EmptyString => (EmptyString, "s")
  end.

(** [str::parse::<u64>] of a text of digits. *)
Definition parse_digits_u64 (digits : string) : option N :=
  n ← decimal 0 digits; if (n <=? u64_max)%N then Some n else None.

Definition unit_seconds (unit : string) : option N :=
  if bool_decide (unit = "s") then Some 1%N
  else if bool_decide (unit = "m") then Some 60%N
  else if bool_decide (unit = "h") then Some 3600%N
  else None.

(** In seconds. *)
Definition parse_duration (path s : string) : result ConfigError N :=
  let e := invalid path ("invalid duration " +:+ debug_str s +:+ " (use 30s, 5m, 2h or 0)") in
  let '(digits, unit) := split_digits (trim s) in
  if is_empty digits then Err e
  else
    n ← ok_or (parse_digits_u64 digits) e;
    mult ← ok_or (unit_seconds unit) e;
    let secs := (n * mult)%N in
    if (secs <=? u64_max)%N then Ok secs else Err e.
End validate.

(** ** [plugins/github/src/config.rs] *)

Definition DEFAULT_CONFIG_PATH : string := ".balerix.yaml".
Definition DEFAULT_IDLE_TIMEOUT : N := 2 * 3600.
Definition DEFAULT_MAX_PARTS : nat := 10.
Definition COMMENT_LIMIT : nat := N.to_nat 65536.
Definition DEFAULT_CONFIRM_WINDOW : N := secs 30.

(** [DaemonConfig], the fields the actor and the check read; the idle timeout in
    seconds. *)
Record DaemonConfig := {
  dc_private_key : string;
  dc_webhook_secret : string;
  dc_config_path : string;
  dc_idle_timeout : N;
  dc_max_parts : nat;
  dc_slash_commands : list string;
}.

Inductive Kind := KIssue | KPr.
#[export] Instance kind_eq_dec : EqDecision Kind.
Proof. solve_decision. Defined.

Definition agent_name (k : Kind) (number : N) : string :=
  match k with KIssue => "issue-" +:+ pretty number | KPr => "pr-" +:+ pretty number end.

Record AgentConfig := {
  ac_enabled : bool;
  ac_events : list string;
  ac_phases : bool;
  ac_key_delay_ms : N;
  ac_confirm_window : N;
  ac_kind : option Kind;
  ac_number : option N;
}.

Definition agent_config_default : AgentConfig :=
  {| ac_enabled := true; ac_events := DEFAULT_EVENTS; ac_phases := true; ac_key_delay_ms := DEFAULT_KEY_DELAY_MS;
     ac_confirm_window := DEFAULT_CONFIRM_WINDOW; ac_kind := None; ac_number := None |}.

Definition wants (c : AgentConfig) (event : string) : bool := wants_event (ac_events c) event.

Section checks.
Context `{Unicode}.

(** [parse_daemon] and [parse_agent], behind [deserialize]. *)
Definition check_daemon (c : DaemonConfig) : result ConfigError DaemonConfig :=
  _ ← map_err (fun '(path, message) => invalid path message) (allowlist_validate "slashCommands" (dc_slash_commands c));
  _ ← ensure (negb (dc_max_parts c =? 0)) (invalid "maxParts" "must be at least 1");
  _ ← ensure (negb (is_empty (dc_config_path c) || starts_with (dc_config_path c) "/" || contains (dc_config_path c) ".."))
        (invalid "configPath" "a relative path inside the repository");
  _ ← ensure (negb (is_empty (trim (dc_private_key c)))) (invalid "privateKey" "must not be empty");
  _ ← ensure (negb (is_empty (dc_webhook_secret c))) (invalid "webhookSecret" "must not be empty");
  Ok c.

Definition check_agent (c : AgentConfig) : result ConfigError AgentConfig :=
  _ ← validate_events (ac_events c);
  _ ← validate_key_delay (ac_key_delay_ms c);
  _ ← ensure (bool_decide (is_Some (ac_kind c))) (invalid "kind" "missing");
  match ac_number c with
  | None => Err (invalid "number" "missing")
  | Some n => if (n =? 0)%N then Err (invalid "number" "must be at least 1") else Ok c
  end.
End checks.

(** [idle_wording] of [actor.rs], of seconds. *)
Definition idle_wording (secs : N) : string :=
  if ((3600 <=? secs) && (secs mod 3600 =? 0))%N then pretty (secs / 3600)%N +:+ "h"
  else if ((60 <=? secs) && (secs mod 60 =? 0))%N then pretty (secs / 60)%N +:+ "m"
  else pretty secs +:+ "s".

(** ** Durations, written and read *)

Section durations.
Context `{Unicode}.

Lemma split_digits_unit digits u r : bytes_all is_ascii_digit digits = true -> is_ascii_digit u = false ->
  split_digits (digits +:+ String u r) = (digits, String u r).
Proof.
  intros Hd Hu. induction digits as [|c digits IH].
  - rewrite app_nil_string. simpl. by rewrite Hu.
  - simpl in Hd. apply andb_true_iff in Hd as [Hc Hd]. rewrite app_cons_string. simpl. by rewrite Hc, IH.
Qed.

Lemma chars_all_ascii s : bytes_all (fun a => (N_of_ascii a <? 128)%N) s = true ->
  Forall (fun c => exists a, c = String a EmptyString /\ exists p q, s = p +:+ String a q) (chars s).
Proof.
  induction s as [|a s IH]; [constructor|]. cbn [bytes_all]. intros [Ha%N.ltb_lt Hs]%andb_true_iff.
  rewrite Text.chars_ascii by done. constructor; [by exists a; split; [done|exists EmptyString, s]|].
  eapply Forall_impl; [by apply IH|]. intros c (b & -> & p & q & ->). exists b. split; [done|].
  exists (String a p), q. by rewrite app_cons_string.
Qed.

(** A text of letters and digits is its own [trim]. *)
Lemma trim_alphanumeric s : bytes_all is_ascii_alphanumeric s = true -> trim s = s.
Proof.
  intros Hs. assert (bytes_all (fun a => (N_of_ascii a <? 128)%N) s = true) as Ha.
  { eapply bytes_all_impl; [|exact Hs]. intros a Ha. apply N.ltb_lt.
    unfold is_ascii_alphanumeric, is_ascii_digit, is_ascii_lowercase, is_ascii_uppercase, byte_in in Ha.
    rewrite !orb_true_iff, !andb_true_iff, !N.leb_le in Ha. lia. }
  assert (Forall (fun c => char_is_whitespace c = false) (chars s)) as Hw.
  { eapply Forall_impl; [by apply chars_all_ascii|]. intros c (a & -> & p & q & ->).
    rewrite bytes_all_app in Hs. simpl in Hs. apply andb_true_iff in Hs as [_ [Ha' _]%andb_true_iff].
    unfold is_ascii_alphanumeric, is_ascii_digit, is_ascii_lowercase, is_ascii_uppercase, byte_in in Ha'.
    rewrite !orb_true_iff, !andb_true_iff, !N.leb_le in Ha'.
    unfold char_is_whitespace, code_point. simpl continuation_bits. replace (N_of_ascii a <? 128)%N with true by (symmetry; apply N.ltb_lt; lia).
    rewrite !orb_false_iff, !andb_false_iff, !N.leb_gt, !N.eqb_neq. lia. }
  assert (forall l, Forall (fun c => char_is_whitespace c = false) l -> skip_while char_is_whitespace l = l) as Hskip.
  { intros l Hl. destruct Hl as [|c l Hc _]; [done|]. simpl. by rewrite Hc. }
  unfold trim, trim_end, trim_start. rewrite (Hskip (chars s)), !concat_chars by done.
  rewrite Hskip by (by apply Forall_rev). by rewrite rev_involutive, concat_chars.
Qed.

Lemma parse_written path n u mult : (n * mult <= u64_max)%N -> (0 < mult)%N ->
  unit_seconds (String u EmptyString) = Some mult -> is_ascii_digit u = false -> is_ascii_alphanumeric u = true ->
  parse_duration path (pretty n +:+ String u EmptyString) = Ok (n * mult)%N.
Proof.
  intros Hn Hm Hunit Hu Ha. unfold parse_duration. rewrite trim_alphanumeric.
  2:{ rewrite bytes_all_app. simpl. rewrite Ha. apply andb_true_iff. split; [|done].
      eapply bytes_all_impl; [|apply pretty_digits]. intros a Hd. unfold is_ascii_alphanumeric. by rewrite Hd. }
  rewrite split_digits_unit by (done || apply pretty_digits).
  unfold is_empty. case_bool_decide as He.
  { pose proof (decimal_pretty n) as Hd. rewrite He in Hd. simpl in Hd. injection Hd as <-. by vm_compute in He. }
  unfold parse_digits_u64. rewrite decimal_pretty. simpl. replace (n <=? u64_max)%N with true by (symmetry; apply N.leb_le; nia).
  simpl. rewrite Hunit. simpl. apply N.leb_le in Hn. by rewrite Hn.
Qed.

(** The idle timeout as a notice words it is read back as itself. *)
Theorem idle_wording_roundtrip path secs : (secs <= u64_max)%N -> parse_duration path (idle_wording secs) = Ok secs.
Proof.
  intros Hs. unfold idle_wording.
  destruct ((3600 <=? secs)%N && (secs mod 3600 =? 0)%N) eqn:Hh; [|destruct ((60 <=? secs)%N && (secs mod 60 =? 0)%N) eqn:Hm].
  - apply andb_true_iff in Hh as [_ Hh%N.eqb_eq]. pose proof (N.div_mod secs 3600). erewrite (parse_written _ _ _ 3600); try done; try lia. f_equal. lia.
  - apply andb_true_iff in Hm as [_ Hm%N.eqb_eq]. pose proof (N.div_mod secs 60). erewrite (parse_written _ _ _ 60); try done; try lia. f_equal. lia.
  - erewrite (parse_written _ _ _ 1); try done; try lia. f_equal. lia.
Qed.

(** What is read is within the width. *)
Lemma parse_duration_bound path s n : parse_duration path s = Ok n -> (n <= u64_max)%N.
Proof.
  unfold parse_duration. destruct (split_digits (trim s)) as [digits unit]. case_match; [done|].
  rewrite !bind_Ok. intros (a & _ & Hb). apply bind_Ok in Hb as (b & _ & Hb). case_match eqn:Hle; [|done].
  injection Hb as <-. by apply N.leb_le.
Qed.
End durations.

Lemma idle_wording_roundtrip_witness : idle_wording 5400 = "90m" /\ @parse_duration (fun _ => false) "idleTimeout" "90m" = Ok 5400%N.
Proof.
  split; [by vm_compute|]. exact (@idle_wording_roundtrip (fun _ => false) "idleTimeout" 5400 ltac:(by vm_compute)).
Defined.
