(* ===== verification/GitHub.v ===== *)
(** The github plugin's data and pure functions: the port's types
    ([plugins/github/src/github.rs]), mentions and names ([mention.rs]), prompts
    ([prompt.rs]), the status comment ([status.rs]) and the repository's fleet
    file ([repo_config.rs]). Unicode tables and the YAML parser are parameters. *)

From S2P Require Import Prelude Str BTree Names Json Bytes Text Question Render Review PluginConfig.
From S2P Require Parts.

(** ** The port's types: [github.rs] *)

Definition EYES : string := "eyes".
Definition PLUS_ONE : string := "+1".
Definition MINUS_ONE : string := "-1".
Definition CONFUSED : string := "confused".
Definition HOORAY : string := "hooray".

Inductive GitHubError :=
| RateLimited (retry_after_ms : N)
| Auth (message : string)
| NotFound
| Other (message : string).

Definition github_error_display (e : GitHubError) : string :=
  match e with
  | RateLimited ms => "rate limited, retry in " +:+ pretty ms +:+ " ms"
  | Auth m => "auth: " +:+ m
  | NotFound => "not found"
  | Other m => m
  end.

Inductive Permission := PAdmin | PMaintain | PWrite | PTriage | PRead | PNone.
#[export] Instance permission_eq_dec : EqDecision Permission.
Proof. solve_decision. Defined.

Definition may_prompt (p : Permission) : bool :=
  match p with PAdmin | PMaintain | PWrite => true | _ => false end.

Definition parse_permission (role_name permission : option string) : Permission :=
  let name := default "none" (union role_name permission) in
  if bool_decide (name = "admin") then PAdmin
  else if bool_decide (name = "maintain") then PMaintain
  else if bool_decide (name = "write") then PWrite
  else if bool_decide (name = "triage") then PTriage
  else if bool_decide (name = "read") then PRead
  else PNone.

Inductive Target := TIssue (number : N) | TComment (id : N).
#[export] Instance target_eq_dec : EqDecision Target.
Proof. solve_decision. Defined.

Record ReviewComment := {
  rc_path : string;
  rc_side : string;
  rc_line : option N;
  rc_original_line : option N;
  rc_diff_hunk : string;
  rc_body : string;
}.

Record ReviewComments := { rcs_comments : list ReviewComment; rcs_more : bool }.

(** [(head, head_repo, base)] of a pull request. *)
Definition PrRefs : Type := string * string * string.

Record IssueInfo := { is_title : string; is_body : string; is_url : string; is_pr : option PrRefs }.

(** ** Mentions and names: [mention.rs] *)

Section mention.
Context `{Letters}.

(** A line with its inline code blanked. *)
Fixpoint strip_code (in_code : bool) (cs : list string) : string :=
  match cs with
  | [] => EmptyString
  | c :: cs =>
      if bool_decide (c = "`") then " " +:+ strip_code (negb in_code) cs
      else (if in_code then " " else c) +:+ strip_code in_code cs
  end.

Definition before_ok (lower : string) (start : nat) : bool :=
  (start =? 0) ||
  negb match last (chars (str_take start lower)) with
       | Some c => is_alphanumeric c || bool_decide (c = "_") || bool_decide (c = "@")
       | None => false
       end.

Definition after_ok (lower : string) (end_ : nat) : bool :=
  negb match chars (str_drop end_ lower) with
       | c :: _ => is_alphanumeric c || bool_decide (c = "-") || bool_decide (c = "_")
       | [] => false
       end.

(** The loop over the occurrences; each round passes the needle. *)
Fixpoint mention_from (fuel : nat) (needle lower : string) (from : nat) : bool :=
  match fuel with
  | 0 => false
  | S fuel =>
      match find needle (str_drop from lower) with
      | None => false
      | Some i =>
          let start := from + i in
          let end_ := start + String.length needle in
          (before_ok lower start && after_ok lower end_) || mention_from fuel needle lower end_
      end
  end.

Definition mention_in_line (needle line : string) : bool :=
  let lower := to_ascii_lowercase (strip_code false (chars line)) in
  mention_from (S (String.length lower)) needle lower 0.

Fixpoint mentions_in (needle : string) (in_fence : bool) (ls : list string) : bool :=
  match ls with
  | [] => false
  | line :: ls =>
      let t := trim_start line in
      if starts_with t "```" || starts_with t "~~~" then mentions_in needle (negb in_fence) ls
      else if in_fence then mentions_in needle in_fence ls
      else mention_in_line needle line || mentions_in needle in_fence ls
  end.

Definition mentions (body slug : string) : bool :=
  mentions_in ("@" +:+ to_ascii_lowercase slug) false (lines body).
End mention.

(** [fleet_name], over the bytes: a character beyond ASCII is a run of bytes
    that are no letter and no digit. *)
Fixpoint dashed (dash : bool) (s : string) : string :=
  match s with
  | EmptyString => EmptyString
  | String c s =>
      let c := to_ascii_lowercase_byte c in
      if is_ascii_alphanumeric c then String c (dashed false s)
      else if dash then dashed true s
      else String "-"%char (dashed true s)
  end.

Definition fleet_name (repo : string) : string :=
  let s := trim_end_byte "-"%char ("gh-" +:+ dashed false repo) in
  if 63 <? String.length s then trim_end_byte "-"%char (str_take 63 s) else s.

Definition is_plugin_agent (name : string) : bool :=
  match union (strip_prefix "issue-" name) (strip_prefix "pr-" name) with
  | Some d => negb (is_empty d) && bytes_all is_ascii_digit d
  | None => false
  end.

(** ** Prompts: [prompt.rs] *)

Record Start := {
  sr_repo : string;
  sr_kind : Kind;
  sr_number : N;
  sr_title : string;
  sr_url : string;
  sr_body : string;
  sr_branch : string;
  sr_base : string;
  sr_asker : string;
  sr_comment : option string;
  sr_resumed : bool;
}.

Definition first_prompt (s : Start) : string :=
  let what := match sr_kind s with KIssue => "issue" | KPr => "pull request" end in
  let branch := "Branch: " +:+ sr_branch s +:+ match sr_kind s with KIssue => " (from " | KPr => " (into " end
                +:+ sr_base s +:+ ")" in
  "You are attached to " +:+ sr_repo s +:+ " " +:+ what +:+ " #" +:+ pretty (sr_number s) +:+ ": " +:+ trim (sr_title s)
  +:+ newline +:+ sr_url s +:+ newline +:+ newline +:+ branch +:+ newline
  +:+ (if sr_resumed s then
         newline +:+ "Earlier work on this " +:+ what +:+ " is on branch " +:+ sr_branch s +:+ "; continue from it." +:+ newline
       else EmptyString)
  +:+ newline +:+ trim (sr_body s) +:+ newline
  +:+ match sr_comment s with
      | Some c => newline +:+ "---" +:+ newline +:+ "@" +:+ sr_asker s +:+ " asked:" +:+ newline +:+ trim c +:+ newline
      | None => EmptyString
      end.

(** [str::get(..7)]: [None] off a character boundary. *)
Definition short_commit (commit : string) : string :=
  if (7 <=? String.length commit) &&
     match str_drop 7 commit with String c _ => negb (is_continuation c) | EmptyString => true end
  then str_take 7 commit else commit.

Definition verdict (state : string) : string :=
  let s := to_ascii_lowercase state in
  if bool_decide (s = "changes_requested") then "changes requested" else s.

Definition review_comment (c : ReviewComment) : Comment :=
  {| co_path := rc_path c;
     co_side := if eq_ignore_ascii_case (rc_side c) "LEFT" then Old else New;
     co_line := default 0%N (union (rc_line c) (rc_original_line c));
     co_text := default EmptyString (last (lines (rc_diff_hunk c)));
     co_body := rc_body c |}.

Definition review_prompt (reviewer state commit body : string) (comments : list ReviewComment) (more : bool)
    (base : string) : option string :=
  if is_empty (trim body) && bool_decide (comments = []) then None
  else
    let short := short_commit commit in
    let r := {| rv_head := short; rv_base_ref := base; rv_summary := trim body;
                rv_comments := review_comment <$> comments |} in
    let heading := "Review by @" +:+ reviewer +:+ ": " +:+ verdict state +:+ ", at " +:+ short +:+ newline in
    match validate r with
    | Err e => Some (heading +:+ "(not rendered: " +:+ e +:+ ")")
    | Ok _ =>
        let out := heading +:+ render_message r in
        Some (if more then
                trim_end out +:+ newline +:+ newline +:+ "(the first " +:+ pretty (length comments)
                +:+ " inline comments; the rest are on GitHub)"
              else out)
    end.

(** ** The status comment: [status.rs] *)

Definition MAX_LINES : nat := 20.
Definition MAX_LINE_CHARS : nat := 200.

Record Status := mkStatus {
  su_agent : string;
  su_session : option string;
  su_phase : string;
  su_lines : list (N * string);
}.

Definition new_status (agent : string) : Status := mkStatus agent None "starting" [].

Definition set_session (session : option string) (s : Status) : Status := mkStatus (su_agent s) session (su_phase s) (su_lines s).
Definition set_phase (phase : string) (s : Status) : Status := mkStatus (su_agent s) (su_session s) phase (su_lines s).

Definition status_first_line (text : string) : string :=
  let first := trim (default EmptyString (head (lines text))) in
  if MAX_LINE_CHARS <? length (chars first) then concat (take MAX_LINE_CHARS (chars first)) +:+ "…" else first.

Definition push_line (at_ : N) (text : string) (s : Status) : Status :=
  let ls := su_lines s ++ [(at_, status_first_line text)] in
  mkStatus (su_agent s) (su_session s) (su_phase s) (drop (length ls - MAX_LINES) ls).

Definition two_digits (n : N) : string := if (n <? 10)%N then "0" +:+ pretty n else pretty n.
Definition hhmm (secs : N) : string :=
  two_digits ((secs / 3600) mod 24) +:+ ":" +:+ two_digits ((secs / 60) mod 60).

Definition render_line (l : N * string) : string := newline +:+ "- " +:+ hhmm l.1 +:+ " " +:+ l.2.

Definition render_status (s : Status) : string :=
  "**balerix** · `" +:+ su_agent s +:+ "`"
  +:+ match su_session s with Some id => " · session `" +:+ short_session id +:+ "`" | None => EmptyString end
  +:+ " · **" +:+ su_phase s +:+ "**" +:+ newline +:+ concat (render_line <$> su_lines s).

(** ** The repository's fleet file: [repo_config.rs] *)

Definition MAX_FILE_BYTES : N := 256 * 1024.

Record Live := { lv_kind : Kind; lv_number : N; lv_head : option string }.
Record Prepared := { pp_file : Value; pp_crew : string }.

Definition check_name (s : string) : result string unit :=
  if is_empty s then Err "empty"
  else if 63 <? String.length s then Err "longer than 63 characters"
  else if negb (bytes_all (fun b => is_ascii_lowercase b || is_ascii_digit b || Ascii.eqb b "-"%char) s) then
    Err "characters other than a-z, 0-9 and '-'"
  else if starts_with s "-" || ends_with s "-" then Err "starts or ends with '-'"
  else Ok tt.

Definition shown (key : string) : string :=
  if 63 <? length (chars key) then concat (take 63 (chars key)) +:+ "…" else key.

(** [trim_end_matches('/')]; [rsplit_once(':')]. *)
Fixpoint rsplit_once (c : ascii) (s : string) : option (string * string) :=
  match s with
  | EmptyString => None
  | String a r =>
      match rsplit_once c r with
      | Some (x, y) => Some (String a x, y)
      | None => if Ascii.eqb a c then Some (EmptyString, r) else None
      end
  end.

Definition names_repo (declared repo : string) : bool :=
  let d := trim_end_byte "/"%char (trim declared) in
  let d := default d (strip_suffix ".git" d) in
  let tail :=
    match (if starts_with d "git@" then rsplit_once ":"%char d else None) with
    | Some (_, t) => t
    | None => default d (strip_prefix "https://github.com/" d)
    end in
  eq_ignore_ascii_case tail repo.

(** serde's text of a [Kind]. *)
Definition kind_value (k : Kind) : Value := VString (match k with KIssue => "issue" | KPr => "pr" end).

Definition live_agent (s : Live) : Value :=
  VObject
    (let agent := <["plugins" := VObject {["github" := VObject (<["kind" := kind_value (lv_kind s)]>
                                             {["number" := VNumber (PosInt (lv_number s))]})]}]> ∅ in
     match lv_head s with Some head => <["branch" := VString head]> agent | None => agent end).

Definition live_name (s : Live) : string := agent_name (lv_kind s) (lv_number s).

Definition add_live (agents : gmap string Value) (live : list Live) : gmap string Value :=
  foldl (fun m s => <[live_name s := live_agent s]> m) agents live.

(** [serde_norway::from_str] into a [Value], and its message. *)
Class Yaml := yaml_parse : string -> result string Value.

Section prepare.
Context `{Unicode, Yaml}.

Definition file_error (what : string) : string := ".balerix.yaml: " +:+ what.

Definition declared_repo (crew : gmap string Value) : string :=
  match crew !! "repo" with Some (VString s) => s | _ => EmptyString end.

Definition with_ref (default_branch : string) (crew : gmap string Value) : gmap string Value :=
  match crew !! "ref" with Some _ => crew | None => <["ref" := VString default_branch]> crew end.

(** The crew's [repo] and [ref], and its agents. *)
Definition prepare_crew (crew_name repo default_branch : string) (live : list Live) (crew : gmap string Value)
    : result string (gmap string Value) :=
  let declared := declared_repo crew in
  _ ← ensure (names_repo declared repo)
        (file_error ("crews." +:+ crew_name +:+ ".repo: expected " +:+ repo +:+ " (this repository), got " +:+ debug_str declared));
  let crew := with_ref default_branch crew in
  match default (VObject ∅) (crew !! "agents") with
  | VObject agents =>
      match filter (fun k => is_plugin_agent k = true) (keys agents) with
      | taken :: _ =>
          Err (file_error ("crews." +:+ crew_name +:+ ".agents." +:+ shown taken
                           +:+ ": issue-<n> and pr-<n> are the plugin's names"))
      | [] => Ok (<["agents" := VObject (add_live agents live)]> crew)
      end
  | _ => Err (file_error ("crews." +:+ crew_name +:+ ".agents: expected a mapping"))
  end.

Definition prepare (text repo fleet default_branch : string) (live : list Live) : result string Prepared :=
  _ ← ensure (len text <=? MAX_FILE_BYTES)%N (file_error "larger than 262144 bytes");
  file ← map_err (fun e => file_error ("invalid YAML: " +:+ e)) (yaml_parse text);
  root ← ok_or (as_object file) (file_error "expected a mapping");
  _ ← ensure (bool_decide (root !! "apiVersion" = Some (VString "balerix/v1")))
        (file_error ("apiVersion: expected " +:+ quote +:+ "balerix/v1" +:+ quote));
  _ ← ensure (bool_decide (root !! "kind" = Some (VString "Fleet")))
        (file_error ("kind: expected " +:+ quote +:+ "Fleet" +:+ quote));
  crews ← ok_or (root !! "crews" ≫= as_object) (file_error "crews: expected a mapping with one entry");
  match entries crews with
  | [(crew_name, crew)] =>
      _ ← map_err (fun reason => file_error ("crews: the crew key is not a valid name (" +:+ reason
             +:+ "); use 1 to 63 of a-z, 0-9 and '-'")) (check_name crew_name);
      crew ← ok_or (as_object crew) (file_error ("crews." +:+ crew_name +:+ ": expected a mapping"));
      crew ← prepare_crew crew_name repo default_branch live crew;
      Ok {| pp_file := VObject (<["name" := VString fleet]> (<["crews" := VObject (<[crew_name := VObject crew]> crews)]> root));
            pp_crew := crew_name |}
  | l => Err (file_error ("crews: expected exactly one crew, got " +:+ pretty (length l)))
  end.
End prepare.

Definition rename_crew (file : Value) (from to : string) : Value :=
  match file with
  | VObject root =>
      match root !! "crews" with
      | Some (VObject crews) =>
          match crews !! from with
          | Some crew => VObject (<["crews" := VObject (<[to := crew]> (delete from crews))]> root)
          | None => file
          end
      | _ => file
      end
  | _ => file
  end.

(** ** The names the plugin builds *)

Section samples.
#[local] Existing Instance ascii_letters.

Example mention_samples :
  mentions "hey @Balerix, look" "balerix" = true /\ mentions "(@balerix)" "balerix" = true /\
  mentions "@balerix-bot please" "balerix" = false /\ mentions "email me@balerix" "balerix" = false /\
  mentions "run `@balerix` here" "balerix" = false /\
  mentions ("```" +:+ newline +:+ "@balerix" +:+ newline +:+ "```") "balerix" = false /\
  mentions ("```" +:+ newline +:+ "code" +:+ newline +:+ "```" +:+ newline +:+ "@balerix after") "balerix" = true.
Proof. by vm_compute. Qed.

Example fleet_name_samples :
  fleet_name "Acme/Payments" = "gh-acme-payments" /\ fleet_name "acme/my_repo.v2" = "gh-acme-my-repo-v2" /\
  fleet_name "a//b--" = "gh-a-b".
Proof. by vm_compute. Qed.
End samples.

(** [check_name] accepts what the daemon's name rule accepts. *)
Lemma check_name_daemon s : check_name s = Ok tt <-> validate_name s = Ok tt.
Proof.
  unfold check_name, validate_name.
  assert (bytes_all (fun b => is_ascii_lowercase b || is_ascii_digit b || Ascii.eqb b "-"%char) s = bytes_all name_byte s) as ->.
  { apply eq_true_iff_eq. split; apply bytes_all_impl; intros b; unfold name_byte; rewrite ?orb_true_iff; tauto. }
  by repeat case_match.
Qed.

Lemma dashed_bytes s : forall dash, bytes_all name_byte (dashed dash s) = true.
Proof.
  induction s as [|c s IH]; intros dash; cbn [dashed]; [done|].
  assert (is_ascii_alphanumeric (to_ascii_lowercase_byte c) = true -> name_byte (to_ascii_lowercase_byte c) = true) as Hb.
  { by destruct c as [[] [] [] [] [] [] [] []]. }
  case_match eqn:Ha; simpl.
  - by rewrite IH, Hb.
  - destruct dash; [apply IH|]. simpl. by rewrite IH.
Qed.

Lemma trim_end_byte_spec c s : exists k, s = trim_end_byte c s +:+ k /\ bytes_all (fun a => Ascii.eqb a c) k = true /\
  Bytes.last_byte (trim_end_byte c s) <> Some c.
Proof.
  induction s as [|a s (k & Hs & Hk & Hl)]; [by exists EmptyString|]. cbn [trim_end_byte].
  destruct (trim_end_byte c s) as [|b t] eqn:Ht.
  - destruct (Ascii.eqb a c) eqn:Ha.
    + exists (String a k). rewrite app_nil_string in Hs. subst k. simpl. by rewrite Ha, Hk.
    + exists k. split; [by rewrite Hs at 1|]. split; [done|]. simpl. intros [= ->]. by rewrite Ascii.eqb_refl in Ha.
  - exists k. split; [by rewrite Hs at 1|done].
Qed.

Lemma last_byte_str_end s t : ends_with s t = true -> t <> EmptyString -> Bytes.last_byte s = Bytes.last_byte t.
Proof.
  intros (r & ->)%ends_with_spec Ht. induction r as [|a r IH]; [by rewrite app_nil_string|].
  rewrite app_cons_string. simpl. rewrite IH. destruct (r +:+ t) eqn:E; [|done].
  destruct r; [by rewrite app_nil_string in E|done].
Qed.

Lemma bytes_all_take p n s : bytes_all p s = true -> bytes_all p (str_take n s) = true.
Proof. revert n. induction s as [|a s IH]; intros [|n]; try done. simpl. intros [-> ?]%andb_true_iff. simpl. by apply IH. Qed.

(** The trimmed rest of a text that starts with a letter. *)
Lemma trim_name c s : bytes_all name_byte (String c s) = true -> Ascii.eqb c "-"%char = false ->
  String.length (trim_end_byte "-"%char (String c s)) <= 63 -> check_name (trim_end_byte "-"%char (String c s)) = Ok tt.
Proof.
  intros Hb Hc Hlen. apply check_name_daemon, validate_name_Ok.
  destruct (trim_end_byte_spec "-"%char (String c s)) as (k & Hk & _ & Hl). set (t := trim_end_byte _ _) in *.
  assert (exists u, t = String c u) as (u & Hu).
  { unfold t. cbn [trim_end_byte]. destruct (trim_end_byte _ s); [rewrite Hc|]; eauto. }
  rewrite Hk, bytes_all_app in Hb. apply andb_true_iff in Hb as [Hb _]. split_and!; [by rewrite Hu|done|done| |].
  - rewrite Hu. destruct (starts_with (String c u) "-") eqn:E; [|done]. apply starts_with_spec in E as (r & [= ->]).
    by vm_compute in Hc.
  - destruct (ends_with t "-") eqn:E; [|done]. by apply last_byte_str_end in E.
Qed.

(** The fleet a repository gets always has a valid name. *)
Lemma fleet_name_valid repo : check_name (fleet_name repo) = Ok tt.
Proof.
  unfold fleet_name. set (s := "gh-" +:+ dashed false repo).
  assert (bytes_all name_byte s = true) as Hs by apply dashed_bytes.
  destruct (Nat.ltb_spec 63 (String.length (trim_end_byte "-"%char s))) as [Hlong|Hshort]; [|by apply trim_name].
  destruct (trim_end_byte_spec "-"%char s) as (k & Hk & _). set (t := trim_end_byte "-"%char s) in *.
  assert (bytes_all name_byte (str_take 63 t) = true) as Ht.
  { apply bytes_all_take. rewrite Hk, bytes_all_app in Hs. by apply andb_true_iff in Hs as [? _]. }
  assert (exists u, str_take 63 t = String "g"%char u) as (u & Hu).
  { unfold t, s. cbn [trim_end_byte]. change ("gh-" +:+ dashed false repo) with (String "g"%char ("h-" +:+ dashed false repo)).
    cbn [trim_end_byte]. destruct (trim_end_byte _ ("h-" +:+ _)); by eexists. }
  rewrite Hu in *. apply trim_name; [done|done|].
  destruct (trim_end_byte_spec "-"%char (String "g"%char u)) as (k' & Hk' & _).
  apply (f_equal String.length) in Hk'. rewrite length_app_string in Hk'. rewrite <- Hu in Hk' at 1.
  assert (String.length (str_take 63 t) <= 63) by (rewrite Parts.length_str_take; lia). rewrite Hu in *. lia.
Qed.

Lemma strip_digits p (n : N) : strip_prefix p (p +:+ pretty n) = Some (pretty n).
Proof. apply strip_prefix_app. Qed.

Lemma pretty_nonempty (n : N) : pretty n <> EmptyString.
Proof. intros He. pose proof (decimal_pretty n) as Hd. rewrite He in Hd. simpl in Hd. injection Hd as <-. by vm_compute in He. Qed.

Lemma agent_name_plugin k n : is_plugin_agent (agent_name k n) = true.
Proof.
  assert (forall d, d <> EmptyString -> bytes_all is_ascii_digit d = true -> negb (is_empty d) && bytes_all is_ascii_digit d = true) as Hd.
  { intros d Hd ->. unfold is_empty. by rewrite bool_decide_false. }
  unfold is_plugin_agent, agent_name. destruct k.
  - rewrite strip_digits. destruct (strip_prefix "pr-" _); apply Hd; (apply pretty_nonempty || apply pretty_digits).
  - replace (strip_prefix "issue-" ("pr-" +:+ pretty n)) with (@None string) by done. rewrite strip_digits.
    apply Hd; (apply pretty_nonempty || apply pretty_digits).
Qed.

Lemma agent_name_inj k n k' n' : agent_name k n = agent_name k' n' -> k = k' /\ n = n'.
Proof.
  unfold agent_name. destruct k, k'; intros H; try done;
    (apply app_inj_l_string in H; split; [done|]; by apply (inj pretty) in H).
Qed.

(** ** The file that is applied *)

Section file.
Context `{Unicode, Yaml}.

Lemma lookup_add_live agents live name :
  add_live agents live !! name =
    match list_find (fun s => live_name s = name) (rev live) with Some (_, s) => Some (live_agent s) | None => agents !! name end.
Proof.
  unfold add_live. induction live as [|s live IH] using rev_ind; [done|].
  rewrite foldl_app, rev_unit. simpl. destruct (decide (live_name s = name)) as [<-|Hne].
  - by rewrite lookup_insert_eq.
  - rewrite lookup_insert_ne, IH by done. destruct (list_find _ (rev live)) as [[i x]|]; done.
Qed.

(** What the plugin makes of the file at [root], whose one crew is [crew]. *)
Record prepared (root : gmap string Value) (crew : string) (fields agents : gmap string Value) : Prop := {
  pr_name : check_name crew = Ok tt;
  pr_crews : root !! "crews" = Some (VObject {[crew := VObject fields]});
  pr_agents : default (VObject ∅) (fields !! "agents") = VObject agents;
  pr_foreign : forall k, is_Some (agents !! k) -> is_plugin_agent k = false;
}.

(** The file as applied: the one read, with the fleet's name, the crew's default
    branch where it names none, and the agents of the live sessions beside those
    it declares, of which none bears a name of the plugin's. *)
Theorem prepare_injects text repo fleet branch live p : prepare text repo fleet branch live = Ok p ->
  exists root fields agents, yaml_parse text = Ok (VObject root) /\ prepared root (pp_crew p) fields agents /\
  names_repo (declared_repo fields) repo = true /\
  pp_file p = VObject
    (<["name" := VString fleet]>
      (<["crews" := VObject {[pp_crew p := VObject
           (<["agents" := VObject (add_live agents live)]> (with_ref branch fields))]}]> root)).
Proof.
  unfold prepare. rewrite bind_unit_Ok. intros [_ Hp]. apply bind_Ok in Hp as (file & Hy & Hp).
  destruct (yaml_parse text) as [v|] eqn:Hv; [|done]. injection Hy as ->.
  apply bind_Ok in Hp as (root & Hroot & Hp). destruct file; try done. injection Hroot as ->.
  rewrite !bind_unit_Ok in Hp. destruct Hp as (_ & _ & Hp). apply bind_Ok in Hp as (crews & Hcrews & Hp).
  destruct (entries crews) as [|[name crew] [|]] eqn:He; try done.
  apply bind_Ok in Hp as ([] & Hname & Hp). apply bind_Ok in Hp as (fields & Hfields & Hp).
  apply bind_Ok in Hp as (fields' & Hcrew & [= <-]). simpl pp_crew. simpl pp_file.
  apply ok_or_Ok in Hcrews, Hfields. destruct crew as [| | | | |crew]; try done. injection Hfields as ->.
  apply bind_Some in Hcrews as ([| | | | |crews'] & Hcrews & Hc); try done. injection Hc as ->.
  assert (crews = {[name := VObject fields]}) as ->.
  { apply map_eq. intros k. apply option_eq. intros v. rewrite <- elem_of_entries, He, list_elem_of_singleton, lookup_singleton_Some.
    naive_solver. }
  unfold prepare_crew in Hcrew. apply bind_unit_Ok in Hcrew as [Hrepo%ensure_Ok Hcrew].
  assert (with_ref branch fields !! "agents" = fields !! "agents") as Hag.
  { unfold with_ref. destruct (fields !! "ref"); [done|]. by rewrite lookup_insert_ne. }
  rewrite Hag in Hcrew. destruct (default (VObject ∅) (fields !! "agents")) as [| | | | |agents] eqn:Hd; try done.
  destruct (filter (fun k => is_plugin_agent k = true) (keys agents)) as [|taken l] eqn:Hf; [|done]. injection Hcrew as <-.
  exists root, fields, agents. split; [done|]. split; [split; [|done|done|]|split; [done|]].
  - by destruct (check_name name) as [[]|].
  - intros k Hk%elem_of_keys. destruct (is_plugin_agent k) eqn:E; [|done].
    assert (k ∈ filter (fun k => is_plugin_agent k = true) (keys agents)) as Hin by (apply list_elem_of_filter; by split).
    rewrite Hf in Hin. by apply not_elem_of_nil in Hin.
  - by rewrite insert_singleton_eq.
Qed.
End file.
