(* ===== verification/Webhook.v ===== *)
(** The github plugin's ingress ([plugins/github/src/webhook.rs]): a delivery is
    verified, deduplicated by its id, parsed and handed to the actor's queue.
    The digest and the JSON parser are parameters; counters are the pair of
    labels a delivery is counted under. The token comparison of the SDK
    ([balerix-plugin-sdk/src/auth.rs]) is the daemon's, [Sessions]. *)

From S2P Require Import Prelude Str Json.
From S2P Require Sessions.

Definition MAX_BODY : N := 1048576.
Definition RING : nat := N.to_nat 4096.

Record Author := { au_login : string; au_bot : bool }.

Inductive WebhookEvent :=
| IssueOpened (repo : string) (installation number : N) (author : Author) (title body url : string)
| PrOpened (repo : string) (installation number : N) (author : Author) (title body url head head_repo base : string)
| Commented (repo : string) (installation number : N) (author : Author) (comment_id : N) (body : string) (is_pr : bool)
| Closed (repo : string) (installation number : N) (merged : bool)
| ReviewSubmitted (repo : string) (installation number : N) (author : Author) (review_id : N) (state body commit : string).

Definition event_bytes (ev : WebhookEvent) : nat :=
  let len := String.length in
  match ev with
  | IssueOpened repo _ _ author title body url => len repo + len (au_login author) + len title + len body + len url
  | PrOpened repo _ _ author title body url head head_repo base =>
      len repo + len (au_login author) + len title + len body + len url + len head + len head_repo + len base
  | Commented repo _ _ author _ body _ => len repo + len (au_login author) + len body
  | Closed repo _ _ _ => len repo
  | ReviewSubmitted repo _ _ author _ state body commit =>
      len repo + len (au_login author) + len state + len body + len commit
  end.

Definition event_repo (ev : WebhookEvent) : string :=
  match ev with
  | IssueOpened repo _ _ _ _ _ _ | PrOpened repo _ _ _ _ _ _ _ _ _ | Commented repo _ _ _ _ _ _
  | Closed repo _ _ _ | ReviewSubmitted repo _ _ _ _ _ _ _ => repo
  end.
Definition event_number (ev : WebhookEvent) : N :=
  match ev with
  | IssueOpened _ _ number _ _ _ _ | PrOpened _ _ number _ _ _ _ _ _ _ | Commented _ _ number _ _ _ _
  | Closed _ _ number _ | ReviewSubmitted _ _ number _ _ _ _ _ => number
  end.
Definition event_installation (ev : WebhookEvent) : N :=
  match ev with
  | IssueOpened _ i _ _ _ _ _ | PrOpened _ i _ _ _ _ _ _ _ _ | Commented _ i _ _ _ _ _
  | Closed _ i _ _ | ReviewSubmitted _ i _ _ _ _ _ _ => i
  end.

(** ** Reading a payload *)

(** A pointer is given as its keys. *)
Definition ptr_str (v : Value) (path : list string) : string := default EmptyString (pointer v path ≫= as_str).
Definition as_u64 (v : Value) : option N := match v with VNumber (PosInt n) => Some n | _ => None end.
Definition ptr_u64 (v : Value) (path : list string) : option N := pointer v path ≫= as_u64.
Definition ptr_author (v : Value) (path : list string) : Author :=
  {| au_login := ptr_str v (path ++ ["login"]);
     au_bot := bool_decide (pointer v (path ++ ["type"]) ≫= as_str = Some "Bot") |}.

Definition parse (event : string) (p : Value) : option WebhookEvent :=
  let repo := ptr_str p ["repository"; "full_name"] in
  installation ← ptr_u64 p ["installation"; "id"];
  if is_empty repo then None
  else
    let on e a := bool_decide (event = e) && bool_decide (ptr_str p ["action"] = a) in
    if on "issues" "opened" then
      number ← ptr_u64 p ["issue"; "number"];
      Some (IssueOpened repo installation number (ptr_author p ["issue"; "user"]) (ptr_str p ["issue"; "title"])
              (ptr_str p ["issue"; "body"]) (ptr_str p ["issue"; "html_url"]))
    else if on "issues" "closed" then
      number ← ptr_u64 p ["issue"; "number"]; Some (Closed repo installation number false)
    else if on "pull_request" "opened" then
      number ← ptr_u64 p ["pull_request"; "number"];
      Some (PrOpened repo installation number (ptr_author p ["pull_request"; "user"])
              (ptr_str p ["pull_request"; "title"]) (ptr_str p ["pull_request"; "body"])
              (ptr_str p ["pull_request"; "html_url"]) (ptr_str p ["pull_request"; "head"; "ref"])
              (ptr_str p ["pull_request"; "head"; "repo"; "full_name"]) (ptr_str p ["pull_request"; "base"; "ref"]))
    else if on "pull_request" "closed" then
      number ← ptr_u64 p ["pull_request"; "number"];
      Some (Closed repo installation number (default false (pointer p ["pull_request"; "merged"] ≫= as_bool)))
    else if on "issue_comment" "created" then
      number ← ptr_u64 p ["issue"; "number"];
      comment_id ← ptr_u64 p ["comment"; "id"];
      Some (Commented repo installation number (ptr_author p ["comment"; "user"]) comment_id
              (ptr_str p ["comment"; "body"]) (bool_decide (is_Some (pointer p ["issue"; "pull_request"]))))
    else if on "pull_request_review" "submitted" then
      number ← ptr_u64 p ["pull_request"; "number"];
      review_id ← ptr_u64 p ["review"; "id"];
      Some (ReviewSubmitted repo installation number (ptr_author p ["review"; "user"]) review_id
              (ptr_str p ["review"; "state"]) (ptr_str p ["review"; "body"]) (ptr_str p ["review"; "commit_id"]))
    else None.

(** ** The listener *)

(** The ids remembered, oldest first, and as a set. *)
Record Seen := mkSeen { sn_queue : list string; sn_set : gset string }.
Definition no_seen : Seen := mkSeen [] ∅.

(** The loop that drops the oldest ids past [RING]. *)
Fixpoint evict (q : list string) (s : gset string) : Seen :=
  match q with
  | old :: q' => if RING <? length q then evict q' (s ∖ {[old]}) else mkSeen q s
  | [] => mkSeen q s
  end.

Definition replayed (id : string) (g : Seen) : bool * Seen :=
  if bool_decide (id ∈ sn_set g) then (true, g)
  else (false, evict (sn_queue g ++ [id]) ({[id]} ∪ sn_set g)).

Definition forget (id : string) (g : Seen) : Seen :=
  if bool_decide (id ∈ sn_set g) then mkSeen (filter (fun seen => seen <> id) (sn_queue g)) (sn_set g ∖ {[id]}) else g.

Definition event_label (event : string) : string :=
  if bool_decide (event ∈ ["issues"; "pull_request"; "issue_comment"; "pull_request_review"; "ping"]) then event else "other".

(** A delivery: its headers, where they are text, and its body. *)
Record Request := {
  rq_signature : option string;
  rq_event : option string;
  rq_delivery : option string;
  rq_body : string;
}.

Inductive StatusCode := OK | ACCEPTED | UNAUTHORIZED | SERVICE_UNAVAILABLE.
#[export] Instance status_code_eq_dec : EqDecision StatusCode.
Proof. solve_decision. Defined.

(** What a delivery came to: its answer, what it is counted under, the event it
    offered to the actor's queue and whether that took it. *)
Record Answered := {
  an_status : StatusCode;
  an_label : string;
  an_outcome : string;
  an_offered : option WebhookEvent;
  an_taken : bool;
}.

Definition answer (status : StatusCode) (label outcome : string) : Answered :=
  {| an_status := status; an_label := label; an_outcome := outcome; an_offered := None; an_taken := false |}.

(** HMAC-SHA256 of a body under a key, and [serde_json::from_slice]. *)
Class Wire := { hmac_sha256 : string -> string -> string; from_json : string -> option Value }.

Section listener.
Context `{Wire} (secret : string).

(** [{:02x}] of every byte. *)
Definition hex_byte (a : ascii) : string :=
  let n := N_of_ascii a in String (hex_digit (n / 16)) (String (hex_digit (n mod 16)) EmptyString).
Fixpoint hex_of (s : string) : string :=
  match s with String a s => hex_byte a +:+ hex_of s | EmptyString => EmptyString end.

Definition verify (body : string) (header : option string) : bool :=
  match header ≫= strip_prefix "sha256=" with
  | None => false
  | Some hex => Sessions.constant_time_eq (hex_of (hmac_sha256 secret body)) (trim hex)
  end.

(** [sink] says whether the actor's queue takes an event. *)
Definition deliver (sink : WebhookEvent -> bool) (r : Request) (g : Seen) : Answered * Seen :=
  if negb (verify (rq_body r) (rq_signature r)) then (answer UNAUTHORIZED "unverified" "bad_signature", g)
  else
    let event := default EmptyString (rq_event r) in
    let label := event_label event in
    if bool_decide (event = "ping") then (answer OK label "handled", g)
    else
      let '(dup, g) := match rq_delivery r with Some id => replayed id g | None => (false, g) end in
      if dup : bool then (answer ACCEPTED label "duplicate", g)
      else
        match from_json (rq_body r) ≫= parse event with
        | None => (answer ACCEPTED label "ignored", g)
        | Some ev =>
            if sink ev then
              ({| an_status := ACCEPTED; an_label := label; an_outcome := "handled"; an_offered := Some ev; an_taken := true |}, g)
            else
              ({| an_status := SERVICE_UNAVAILABLE; an_label := label; an_outcome := "refused"; an_offered := Some ev; an_taken := false |},
               match rq_delivery r with Some id => forget id g | None => g end)
        end.

(** Deliveries one after the other, each with what the queue says then. *)
Fixpoint deliveries (rs : list ((WebhookEvent -> bool) * Request)) (g : Seen) : list (Request * Answered) * Seen :=
  match rs with
  | [] => ([], g)
  | (sink, r) :: rs =>
      let '(a, g) := deliver sink r g in
      let '(l, g) := deliveries rs g in ((r, a) :: l, g)
  end.
End listener.

(** ** The ring of ids *)

Lemma evict_eq q s :
  evict q s = mkSeen (drop (length q - RING) q) (s ∖ list_to_set (take (length q - RING) q)).
Proof.
  revert s. induction q as [|x q IH]; intros s; cbn [evict].
  - f_equal. set_solver.
  - cbn [length]. destruct (Nat.ltb_spec RING (S (length q))) as [Hlt|Hge].
    + rewrite IH. replace (S (length q) - RING) with (S (length q - RING)) by lia. cbn [drop take list_to_set].
      f_equal. set_solver.
    + replace (S (length q) - RING) with 0 by lia. cbn [drop take list_to_set]. f_equal. set_solver.
Qed.

Record ring_ok (g : Seen) : Prop := {
  rk_nodup : NoDup (sn_queue g);
  rk_set x : x ∈ sn_set g <-> x ∈ sn_queue g;
  rk_len : length (sn_queue g) <= RING;
}.

Lemma ring_ok_empty : ring_ok no_seen.
Proof. split; simpl; [constructor|set_solver|lia]. Qed.

Lemma replayed_false id g : ring_ok g -> id ∉ sn_queue g ->
  (replayed id g).1 = false /\ ring_ok (replayed id g).2 /\
  exists n, sn_queue (replayed id g).2 = drop n (sn_queue g ++ [id]) /\ (n = 0 \/ n = 1 /\ length (sn_queue g) = RING).
Proof.
  intros [Hnd Hset Hlen] Hid. unfold replayed. rewrite bool_decide_false by (by rewrite Hset). simpl fst. simpl snd.
  rewrite evict_eq. set (q := sn_queue g ++ [id]). split; [done|].
  assert (NoDup q) as Hq by (apply NoDup_app; split_and!; [done|set_solver|apply NoDup_singleton]).
  assert (length q = S (length (sn_queue g))) as Hl by (unfold q; rewrite length_app; simpl; lia).
  split.
  - split; simpl.
    + rewrite <- (take_drop (length q - RING) q) in Hq. by apply NoDup_app in Hq as (_ & _ & ?).
    + intros x. rewrite elem_of_difference, elem_of_union, elem_of_singleton, elem_of_list_to_set, Hset.
      assert (x = id \/ x ∈ sn_queue g <-> x ∈ q) as -> by (unfold q; set_solver).
      rewrite <- (take_drop (length q - RING) q) in Hq |- * at 1. apply NoDup_app in Hq as (_ & Hdis & _).
      rewrite elem_of_app. split; [tauto|]. intros Hx. split; [by right|]. intros Ht. by apply (Hdis x).
    + rewrite length_drop. lia.
  - exists (length q - RING). split; [done|]. lia.
Qed.

Lemma replayed_true id g : ring_ok g -> id ∈ sn_queue g -> replayed id g = (true, g).
Proof. intros Hok Hid. unfold replayed. by rewrite bool_decide_true by (by apply rk_set). Qed.

Lemma forget_ok id g : ring_ok g -> ring_ok (forget id g) /\ sn_queue (forget id g) = filter (fun x => x <> id) (sn_queue g).
Proof.
  intros [Hnd Hset Hlen]. unfold forget. case_bool_decide as Hin.
  - split; [|done]. split; simpl; [by apply NoDup_filter| |].
    + intros x. rewrite elem_of_difference, elem_of_singleton, list_elem_of_filter, Hset. tauto.
    + etransitivity; [apply length_filter|done].
  - split; [by split|]. symmetry. rewrite Hset in Hin. clear -Hin. induction (sn_queue g) as [|x l IH]; [done|].
    rewrite filter_cons_True by set_solver. f_equal. apply IH. set_solver.
Qed.

(** [id] is remembered with at most [k] ids behind it. *)
Definition held (id : string) (k : nat) (g : Seen) : Prop :=
  RING <= k \/ exists pre post, sn_queue g = pre ++ id :: post /\ length post <= k.

Lemma held_more id k g : held id k g -> held id (S k) g.
Proof. intros [?|(pre & post & ? & ?)]; [left; lia|]. right. exists pre, post. split; [done|lia]. Qed.

Lemma held_replayed id k id' g : ring_ok g -> held id k g -> held id (S k) (replayed id' g).2.
Proof.
  intros Hok Hh. destruct (decide (id' ∈ sn_queue g)) as [Hin|Hin].
  { rewrite replayed_true by done. by apply held_more. }
  destruct (replayed_false id' g Hok Hin) as (_ & _ & n & Hq & Hn).
  destruct Hh as [Hk|(pre & post & Hg & Hp)]; [left; lia|]. rewrite Hg in Hq, Hn.
  destruct Hn as [-> |[-> Hlen]].
  - right. exists pre, (post ++ [id']). rewrite Hq. cbn [drop]. rewrite <- app_assoc. split; [done|]. rewrite length_app. simpl. lia.
  - destruct pre as [|x pre]; simpl in Hq.
    + left. simpl in Hlen. lia.
    + right. exists pre, (post ++ [id']). rewrite Hq, <- app_assoc. split; [done|]. rewrite length_app. simpl. lia.
Qed.

Lemma held_forget id k id' g : ring_ok g -> id' <> id -> held id k g -> held id k (forget id' g).
Proof.
  intros Hok Hne [Hk|(pre & post & Hg & Hp)]; [by left|]. right.
  destruct (forget_ok id' g Hok) as [_ ->]. rewrite Hg, filter_app, filter_cons_True by done.
  eexists _, _. split; [done|]. etransitivity; [apply length_filter|done].
Qed.

Section once.
Context `{Wire} (secret : string).

Lemma deliver_ok sink r g : ring_ok g -> ring_ok (deliver secret sink r g).2.
Proof.
  intros Hok. unfold deliver. case_match; [done|]. case_match; [done|].
  assert (ring_ok (match rq_delivery r with Some id => replayed id g | None => (false, g) end).2) as Hg.
  { destruct (rq_delivery r) as [id|]; [|done]. destruct (decide (id ∈ sn_queue g)); [by rewrite replayed_true|].
    by apply replayed_false. }
  destruct (match rq_delivery r with Some id => replayed id g | None => (false, g) end) as [dup g'].
  repeat case_match; simpl; try done. by apply forget_ok.
Qed.

(** A delivery of an id that is remembered hands nothing over, and one more id
    at most comes behind it. *)
Lemma deliver_held sink r g id k : ring_ok g -> held id k g ->
  held id (S k) (deliver secret sink r g).2 /\
  (k < RING -> rq_delivery r = Some id -> an_taken (deliver secret sink r g).1 = false).
Proof.
  intros Hok Hh. unfold deliver. case_match; [split; [by apply held_more|done]|]. case_match; [split; [by apply held_more|done]|].
  destruct (rq_delivery r) as [id'|] eqn:Hd.
  2:{ split; [|done]. repeat case_match; simpl; by apply held_more. }
  pose proof (held_replayed id k id' g Hok Hh) as Hr.
  assert (k < RING -> id' = id -> replayed id' g = (true, g)) as Hdup.
  { intros Hk ->. apply replayed_true; [done|]. destruct Hh as [?|(pre & post & -> & _)]; [lia|set_solver]. }
  destruct (decide (k < RING)) as [Hk|Hk]; [|split; [left; lia|lia]].
  destruct (decide (id' = id)) as [->|Hne].
  { rewrite Hdup by done. simpl. split; [by apply held_more|done]. }
  assert (ring_ok (replayed id' g).2) as Hok'.
  { destruct (decide (id' ∈ sn_queue g)); [by rewrite replayed_true|by apply replayed_false]. }
  destruct (replayed id' g) as [dup g']. split; [|congruence].
  repeat case_match; simpl; try done. by apply held_forget.
Qed.

(** What was handed over is at the back of the ring. *)
Lemma deliver_taken sink r g id : ring_ok g -> rq_delivery r = Some id ->
  an_taken (deliver secret sink r g).1 = true -> held id 0 (deliver secret sink r g).2.
Proof.
  intros Hok Hd. unfold deliver. case_match; [done|]. case_match; [done|]. rewrite Hd.
  destruct (decide (id ∈ sn_queue g)) as [Hin|Hin]; [by rewrite replayed_true|].
  destruct (replayed_false id g Hok Hin) as (Hf & Hok' & n & Hq & Hn). destruct (replayed id g) as [dup g'].
  simpl in Hf, Hok', Hq. subst dup. case_match; [|done]. case_match; [|done]. intros _. right.
  simpl snd. rewrite Hq. exists (drop n (sn_queue g)), []. split; [|simpl; lia].
  apply drop_app_le. destruct Hn as [-> |[-> Hlen]]; [lia|]. rewrite Hlen. unfold RING. lia.
Qed.

Lemma deliveries_held rs g id k j r a : ring_ok g -> held id k g ->
  (deliveries secret rs g).1 !! j = Some (r, a) -> rq_delivery r = Some id -> an_taken a = true -> RING <= k + j.
Proof.
  revert g k j. induction rs as [|[sink r0] rs IH]; intros g k j Hok Hh Hj Hr Ha; [done|]. cbn [deliveries] in Hj.
  destruct (deliver_held sink r0 g id k Hok Hh) as [Hh' Hnot]. pose proof (deliver_ok sink r0 g Hok) as Hok'.
  destruct (deliver secret sink r0 g) as [a0 g']. specialize (IH g' (S k)).
  destruct (deliveries secret rs g') as [l g'']. simpl in *. destruct j as [|j]; simpl in Hj.
  - injection Hj as -> ->. destruct (decide (k < RING)); [|lia]. rewrite Hnot in Ha by done. done.
  - specialize (IH j Hok' Hh' Hj Hr Ha). lia.
Qed.

(** A delivery id that was handed to the actor is not handed over again in the
    [RING] deliveries that follow, whatever they are. *)
Theorem webhook_once rs i j r a r' a' id :
  let log := (deliveries secret rs no_seen).1 in
  log !! i = Some (r, a) -> log !! j = Some (r', a') -> i < j -> j - i <= RING ->
  rq_delivery r = Some id -> rq_delivery r' = Some id -> an_taken a = true -> an_taken a' = false.
Proof.
  simpl. intros Hi Hj Hlt Hle Hr Hr' Ha. apply not_true_is_false. intros Ha'.
  enough (RING < j - i) by lia. clear Hle. revert i j Hi Hj Hlt Hr Hr' Ha Ha'.
  generalize ring_ok_empty. generalize no_seen as g. induction rs as [|[sink r0] rs IH]; intros g Hok i j; [done|].
  cbn [deliveries]. pose proof (deliver_ok sink r0 g Hok) as Hok'. pose proof (deliver_taken sink r0 g) as Ht.
  destruct (deliver secret sink r0 g) as [a0 g'] eqn:Hd. specialize (IH g' Hok' (pred i) (pred j)).
  pose proof (deliveries_held rs g' id 0 (pred j) r' a' Hok') as Hheld.
  destruct (deliveries secret rs g') as [l g'']. simpl in *. intros Hi Hj Hlt Hr Hr' Ha Ha'.
  destruct j as [|j]; [lia|]. simpl in Hj. destruct i as [|i]; simpl in Hi.
  - injection Hi as -> ->. specialize (Hheld (Ht id Hok Hr Ha) Hj Hr' Ha'). simpl in Hheld. lia.
  - simpl in IH. specialize (IH Hi Hj ltac:(lia) Hr Hr' Ha Ha'). lia.
Qed.

(** What reaches the actor is a verified body that reads as the event; a
    delivery that does not verify leaves no trace, a refused one is forgotten. *)
Theorem deliver_verified sink r g a g' : deliver secret sink r g = (a, g') ->
  (forall ev, an_offered a = Some ev ->
     verify secret (rq_body r) (rq_signature r) = true /\
     from_json (rq_body r) ≫= parse (default EmptyString (rq_event r)) = Some ev /\ an_taken a = sink ev) /\
  (verify secret (rq_body r) (rq_signature r) = false -> g' = g /\ an_label a = "unverified") /\
  (an_status a = SERVICE_UNAVAILABLE -> forall id, rq_delivery r = Some id -> id ∉ sn_set g').
Proof.
  unfold deliver. destruct (verify secret (rq_body r) (rq_signature r)); simpl; [|intros [= <- <-]; naive_solver].
  case_match; [intros [= <- <-]; naive_solver|].
  destruct (match rq_delivery r with Some id => replayed id g | None => (false, g) end) as [dup g0].
  case_match; [intros [= <- <-]; naive_solver|].
  destruct (from_json (rq_body r) ≫= parse (default EmptyString (rq_event r))) as [ev|] eqn:Hp; [|intros [= <- <-]; naive_solver].
  destruct (sink ev) eqn:Hs; intros [= <- <-]; [naive_solver|]. split_and!; [naive_solver|done|].
  intros _ id Hid. rewrite Hid. unfold forget. destruct (decide (id ∈ sn_set g0)); [rewrite bool_decide_true by done; simpl; set_solver|by rewrite bool_decide_false].
Qed.
End once.

(** A listener, and a delivery that comes twice. *)
Section sample.
#[local] Instance sample_wire : Wire := {|
  hmac_sha256 key body := key;
  from_json _ := Some (VObject (<["repository" := VObject {["full_name" := VString "acme/api"]}]>
    (<["installation" := VObject {["id" := VNumber (PosInt 7)]}]>
      (<["action" := VString "closed"]> {["issue" := VObject {["number" := VNumber (PosInt 3)]}]}))))
|}.

Definition sample_request (id : string) : Request :=
  {| rq_signature := Some "sha256=6b"; rq_event := Some "issues"; rq_delivery := Some id; rq_body := "{}" |}.

Definition sample_deliveries : list ((WebhookEvent -> bool) * Request) :=
  [((fun _ => true), sample_request "first"); ((fun _ => true), sample_request "second");
   ((fun _ => true), sample_request "first")].

Definition sample_answer : Answered :=
  {| an_status := ACCEPTED; an_label := "issues"; an_outcome := "handled";
     an_offered := Some (Closed "acme/api" 7 3 false); an_taken := true |}.

Lemma webhook_once_witness :
  (deliveries "k" sample_deliveries no_seen).1 !! 0 = Some (sample_request "first", sample_answer) /\
  exists a, (deliveries "k" sample_deliveries no_seen).1 !! 2 = Some (sample_request "first", a) /\ an_taken a = false.
Proof.
  split; [by vm_compute|]. eexists. split; [by vm_compute|].
  apply (webhook_once "k" sample_deliveries 0 2 (sample_request "first") sample_answer
           (sample_request "first") _ "first"); try (unfold RING; lia); by vm_compute.
Defined.

Lemma deliver_verified_witness :
  an_taken (deliver "k" (fun _ => false) (sample_request "x") no_seen).1 = false /\
  "x" ∉ sn_set (deliver "k" (fun _ => false) (sample_request "x") no_seen).2.
Proof.
  destruct (deliver "k" (fun _ => false) (sample_request "x") no_seen) as [a g'] eqn:Hd.
  destruct (deliver_verified "k" (fun _ => false) (sample_request "x") no_seen a g' Hd) as (H1 & _ & H3).
  assert (a = (deliver "k" (fun _ => false) (sample_request "x") no_seen).1) as Ha by by rewrite Hd.
  split; [by rewrite Ha|]. apply H3; [by rewrite Ha|done].
Defined.
End sample.
