(* ===== verification/GhSession.v ===== *)
(** The sessions of the github plugin ([plugins/github/src/session.rs]): a row
    per agent, mirrored to the daemon's store, and the reverse map from a
    number to its agent; what a row has acted on. *)

From S2P Require Import Prelude Str BTree PluginConfig GitHub.

Definition SESSION_PREFIX : string := "session/".
Definition REPO_PREFIX : string := "repo/".
Definition session_key (agent : string) : string := SESSION_PREFIX +:+ agent.
Definition repo_key (fleet : string) : string := REPO_PREFIX +:+ fleet.

(** [agent.split('/')], which is never empty. *)
Definition fleet_of (agent : string) : string := default agent (head (split_char "/"%char agent)).
Definition crew_of (agent : string) : string := default EmptyString (split_char "/"%char agent !! 1).

(** A webhook's own id. *)
Inductive Seen := SeenComment (id : N) | SeenReview (id : N) | SeenOpening.
#[export] Instance seen_eq_dec : EqDecision Seen.
Proof. solve_decision. Defined.

Definition SEEN_LIMIT : nat := 256.

Record Session := mkSession {
  ss_repo : string;
  ss_installation : N;
  ss_kind : Kind;
  ss_number : N;
  ss_head : option string;
  ss_base : option string;
  ss_status_comment : option N;
  ss_session_id : option string;
  ss_last_activity : N;
  ss_closed : bool;
  ss_seen : list Seen;
}.
#[export] Instance session_eq_dec : EqDecision Session.
Proof. solve_decision. Defined.

(** Field assignments. *)
Definition set_installation (x : N) (s : Session) : Session :=
  mkSession (ss_repo s) x (ss_kind s) (ss_number s) (ss_head s) (ss_base s) (ss_status_comment s) (ss_session_id s)
    (ss_last_activity s) (ss_closed s) (ss_seen s).
Definition set_status_comment (x : option N) (s : Session) : Session :=
  mkSession (ss_repo s) (ss_installation s) (ss_kind s) (ss_number s) (ss_head s) (ss_base s) x (ss_session_id s)
    (ss_last_activity s) (ss_closed s) (ss_seen s).
Definition set_session_id (x : option string) (s : Session) : Session :=
  mkSession (ss_repo s) (ss_installation s) (ss_kind s) (ss_number s) (ss_head s) (ss_base s) (ss_status_comment s) x
    (ss_last_activity s) (ss_closed s) (ss_seen s).
Definition set_last_activity (x : N) (s : Session) : Session :=
  mkSession (ss_repo s) (ss_installation s) (ss_kind s) (ss_number s) (ss_head s) (ss_base s) (ss_status_comment s)
    (ss_session_id s) x (ss_closed s) (ss_seen s).
Definition close_at (now : N) (s : Session) : Session :=
  mkSession (ss_repo s) (ss_installation s) (ss_kind s) (ss_number s) (ss_head s) (ss_base s) (ss_status_comment s)
    (ss_session_id s) now true (ss_seen s).
Definition set_seen (x : list Seen) (s : Session) : Session :=
  mkSession (ss_repo s) (ss_installation s) (ss_kind s) (ss_number s) (ss_head s) (ss_base s) (ss_status_comment s)
    (ss_session_id s) (ss_last_activity s) (ss_closed s) x.

Definition has_seen (id : Seen) (s : Session) : bool := bool_decide (id ∈ ss_seen s).

(** Whether [id] was new, and the row with it. *)
Definition see (id : Seen) (s : Session) : bool * Session :=
  if has_seen id s then (false, s)
  else
    let l := ss_seen s ++ [id] in
    (true, set_seen (if SEEN_LIMIT <? length l then drop (length l - SEEN_LIMIT) l else l) s).

(** ** The rows and the reverse map *)

Record Sessions := mkSessions { rows : gmap string Session; by_number_map : gmap (string * N) string }.
Definition no_sessions : Sessions := mkSessions ∅ ∅.

Definition row (agent : string) (t : Sessions) : option Session := rows t !! agent.
Definition by_number (repo : string) (number : N) (t : Sessions) : option string := by_number_map t !! (repo, number).

Definition unmap (agent repo : string) (number : N) (t : Sessions) : Sessions :=
  match by_number repo number t with
  | Some a => if bool_decide (a = agent) then mkSessions (rows t) (delete (repo, number) (by_number_map t)) else t
  | None => t
  end.

Definition insert_row (agent : string) (r : Session) (t : Sessions) : Sessions :=
  let t := match row agent t with Some old => unmap agent (ss_repo old) (ss_number old) t | None => t end in
  mkSessions (<[agent := r]> (rows t)) (<[(ss_repo r, ss_number r) := agent]> (by_number_map t)).

Definition remove_row (agent : string) (t : Sessions) : Sessions :=
  match row agent t with
  | Some old => unmap agent (ss_repo old) (ss_number old) (mkSessions (delete agent (rows t)) (by_number_map t))
  | None => t
  end.

(** [get_mut]: an assignment to a row in place. *)
Definition alter_row (f : Session -> Session) (agent : string) (t : Sessions) : Sessions :=
  mkSessions (alter f agent (rows t)) (by_number_map t).

Definition open_in (fleet : string) (kv : string * Session) : Prop := fleet_of kv.1 = fleet /\ ss_closed kv.2 = false.

Definition live_of (r : Session) : Live := {| lv_kind := ss_kind r; lv_number := ss_number r; lv_head := ss_head r |}.

Definition live_in (fleet : string) (t : Sessions) : list Live :=
  (fun kv => live_of kv.2) <$> filter (open_in fleet) (entries (rows t)).

Definition agents_in (fleet : string) (t : Sessions) : list string :=
  filter (fun a => fleet_of a = fleet) (keys (rows t)).

Definition open_count (t : Sessions) : nat := size (filter (fun kv => ss_closed kv.2 = false) (rows t)).

(** [agents]: the keys of a [HashMap], here in their order. *)
Definition session_agents (t : Sessions) : list string := keys (rows t).

(** ** The reverse map follows the rows *)

(** What a number maps to is a row of that number. *)
Definition sessions_ok (t : Sessions) : Prop :=
  forall repo number agent, by_number repo number t = Some agent ->
    exists r, row agent t = Some r /\ ss_repo r = repo /\ ss_number r = number.

Lemma no_sessions_ok : sessions_ok no_sessions.
Proof. intros repo number agent H. done. Qed.

Lemma lookup_unmap agent repo number t repo' number' :
  by_number repo' number' (unmap agent repo number t) =
    if bool_decide ((repo', number') = (repo, number) /\ by_number repo number t = Some agent) then None
    else by_number repo' number' t.
Proof.
  unfold unmap. destruct (by_number repo number t) as [a|] eqn:Ha.
  - destruct (decide (a = agent)) as [->|Hne].
    + rewrite (bool_decide_true (agent = agent)) by done. unfold by_number at 1. simpl.
      destruct (decide ((repo', number') = (repo, number))) as [Heq|Hk].
      * injection Heq as -> ->. rewrite lookup_delete_eq, bool_decide_true by done. done.
      * rewrite lookup_delete_ne by done. rewrite bool_decide_false by tauto. done.
    + rewrite (bool_decide_false (a = agent)) by done. rewrite bool_decide_false; [done|]. intros [_ [= ->]]. done.
  - rewrite bool_decide_false; [done|]. by intros [_ ?].
Qed.

Lemma rows_unmap agent repo number t : rows (unmap agent repo number t) = rows t.
Proof. unfold unmap. destruct (by_number repo number t); [|done]. by case_bool_decide. Qed.

Lemma row_insert agent r t agent' :
  row agent' (insert_row agent r t) = if bool_decide (agent' = agent) then Some r else row agent' t.
Proof.
  unfold row, insert_row. simpl.
  assert (rows (match row agent t with Some old => unmap agent (ss_repo old) (ss_number old) t | None => t end) = rows t) as ->.
  { destruct (row agent t); [apply rows_unmap|done]. }
  case_bool_decide as H; [subst; by rewrite lookup_insert_eq|by rewrite lookup_insert_ne].
Qed.

Lemma row_remove agent t agent' :
  row agent' (remove_row agent t) = if bool_decide (agent' = agent) then None else row agent' t.
Proof.
  unfold remove_row. destruct (row agent t) as [old|] eqn:Ho.
  - unfold row at 1. rewrite rows_unmap. simpl.
    case_bool_decide as H; [subst; by rewrite lookup_delete_eq|by rewrite lookup_delete_ne].
  - case_bool_decide; by subst.
Qed.

Lemma by_number_insert agent r t : by_number (ss_repo r) (ss_number r) (insert_row agent r t) = Some agent.
Proof. unfold by_number, insert_row. simpl. by rewrite lookup_insert_eq. Qed.

Lemma insert_row_ok agent r t : sessions_ok t -> sessions_ok (insert_row agent r t).
Proof.
  intros Hok repo number a Ha. setoid_rewrite row_insert. case_bool_decide as Heq.
  - subst a. unfold by_number, insert_row in Ha. simpl in Ha.
    destruct (decide ((repo, number) = (ss_repo r, ss_number r))) as [[= -> ->]|Hne]; [by eexists|].
    rewrite lookup_insert_ne in Ha by done.
    change (by_number repo number (match row agent t with Some old => unmap agent (ss_repo old) (ss_number old) t | None => t end) = Some agent) in Ha.
    destruct (row agent t) as [old|] eqn:Ho.
    + rewrite lookup_unmap in Ha. case_bool_decide as Hk; [done|]. destruct (Hok _ _ _ Ha) as (r' & Hr' & Hrepo & Hnum).
      rewrite Ho in Hr'. injection Hr' as <-. destruct Hk. subst. done.
    + destruct (Hok _ _ _ Ha) as (r' & Hr' & _). congruence.
  - unfold by_number, insert_row in Ha. simpl in Ha.
    destruct (decide ((repo, number) = (ss_repo r, ss_number r))) as [[= -> ->]|Hne].
    { rewrite lookup_insert_eq in Ha. by injection Ha as ->. }
    rewrite lookup_insert_ne in Ha by done. apply (Hok repo number a).
    destruct (row agent t) as [old|]; [|done].
    change (by_number repo number (unmap agent (ss_repo old) (ss_number old) t) = Some a) in Ha.
    rewrite lookup_unmap in Ha. by case_bool_decide.
Qed.

Lemma remove_row_ok agent t : sessions_ok t -> sessions_ok (remove_row agent t).
Proof.
  intros Hok repo number a Ha. setoid_rewrite row_remove. unfold remove_row in Ha. destruct (row agent t) as [old|] eqn:Ho.
  - rewrite lookup_unmap in Ha. case_bool_decide as Hk; [done|].
    destruct (Hok _ _ _ Ha) as (r & Hr & Hrepo & Hnum). case_bool_decide as Heq; [|by exists r].
    subst a. rewrite Ho in Hr. injection Hr as <-. destruct Hk. subst. by split.
  - destruct (Hok _ _ _ Ha) as (r & Hr & ?). case_bool_decide; [subst; congruence|by exists r].
Qed.

(** An assignment that keeps the row's number. *)
Definition keeps_number (f : Session -> Session) : Prop := forall r, ss_repo (f r) = ss_repo r /\ ss_number (f r) = ss_number r.

Lemma alter_row_ok f agent t : keeps_number f -> sessions_ok t -> sessions_ok (alter_row f agent t).
Proof.
  intros Hf Hok repo number a Ha. destruct (Hok repo number a Ha) as (r & Hr & Hrepo & Hnum). unfold row, alter_row. simpl.
  destruct (decide (a = agent)) as [->|Hne].
  - rewrite lookup_alter_eq. unfold row in Hr. rewrite Hr. simpl. destruct (Hf r) as [H1 H2]. exists (f r). split; [done|]. by rewrite H1, H2.
  - rewrite lookup_alter_ne by done. by exists r.
Qed.

(** ** What a row has acted on *)

Lemma see_has id s : has_seen id (see id s).2 = true.
Proof.
  unfold see. destruct (has_seen id s) eqn:Hs; [done|]. unfold has_seen. simpl. apply bool_decide_true.
  set (l := ss_seen s ++ [id]). case_match; [|unfold l; set_solver].
  replace (drop (length l - SEEN_LIMIT) l) with (drop (length l - SEEN_LIMIT) (ss_seen s) ++ [id]); [set_solver|].
  unfold l. rewrite drop_app_le; [done|]. rewrite length_app. simpl. unfold SEEN_LIMIT. lia.
Qed.

(** The newest id recorded pushes out the oldest, and no other. *)
Lemma see_keeps id id' s : has_seen id s = true ->
  (forall l, ss_seen s <> id :: l) \/ length (ss_seen s) < SEEN_LIMIT -> length (ss_seen s) <= SEEN_LIMIT ->
  has_seen id (see id' s).2 = true.
Proof.
  intros Hs Hold Hlen. unfold see. destruct (has_seen id' s); [done|]. unfold has_seen in *. apply bool_decide_eq_true in Hs.
  simpl. apply bool_decide_true. rewrite length_app. simpl. case_match eqn:Hlt; [|set_solver].
  apply Nat.ltb_lt in Hlt. replace (length (ss_seen s) + 1 - SEEN_LIMIT) with 1 by lia.
  destruct (ss_seen s) as [|x l] eqn:Hl; [set_solver|]. destruct Hold as [Hold|]; [|simpl in *; lia].
  simpl. apply elem_of_cons in Hs as [->|Hs]; [by destruct (Hold l)|set_solver].
Qed.

Lemma see_length id s : length (ss_seen s) <= SEEN_LIMIT -> length (ss_seen (see id s).2) <= SEEN_LIMIT.
Proof.
  intros Hlen. unfold see. destruct (has_seen id s); [done|]. simpl. case_match eqn:Hlt.
  - rewrite length_drop. lia.
  - apply Nat.ltb_ge in Hlt. done.
Qed.

Lemma see_number id : keeps_number (fun s => (see id s).2).
Proof. intros s. unfold see. by destruct (has_seen id s). Qed.
