(* ===== verification/Talk.v ===== *)
(** A task that owns its state and talks to an environment: a call is answered
    by what the environment says after everything said so far, a panic stops
    the task. The plugins' actors are such tasks. *)

From S2P Require Import Prelude.

(** What can be asked, and the type of what comes back. *)
Class Protocol (Call : Type) := Answer : Call -> Type.

Section talk.
Context {Call : Type} `{Protocol Call}.

(** A call and its answer. *)
Inductive Event := Did (c : Call) (a : Answer c).

(** The environment: its answer to a call, after a history (latest first). *)
Class Env := ask : list Event -> forall c : Call, Answer c.

Context {S : Type}.

(** The state of a task and the history. *)
Definition World : Type := S * list Event.

(** [None] is a panic. *)
Definition Task (A : Type) : Type := World -> option (A * World).

#[export] Instance task_ret : MRet Task := fun A a w => Some (a, w).
#[export] Instance task_bind : MBind Task := fun A B k m w => '(a, w) ← m w; k a w.

Definition call `{Env} (c : Call) : Task (Answer c) :=
  fun '(s, log) => let a := ask log c in Some (a, (s, Did c a :: log)).
Definition gets {A} (f : S -> A) : Task A := fun w => Some (f w.1, w).
Definition modify (f : S -> S) : Task unit := fun w => Some (tt, (f w.1, w.2)).
Definition panic {A} : Task A := fun _ => None.

Fixpoint for_each {A} (f : A -> Task unit) (l : list A) : Task unit :=
  match l with
  | [] => mret tt
  | x :: l => f x ≫= fun _ => for_each f l
  end.

Definition when (b : bool) (m : Task unit) : Task unit := if b then m else mret tt.

Lemma run_bind {A B} (m : Task A) (k : A -> Task B) a w w' : m w = Some (a, w') -> (m ≫= k) w = k a w'.
Proof. intros Hm. unfold mbind, task_bind. by rewrite Hm. Qed.

(** A run of two steps is a run of each. *)
Lemma run_bind_inv {A B} (m : Task A) (k : A -> Task B) b w w' :
  (m ≫= k) w = Some (b, w') -> exists a w1, m w = Some (a, w1) /\ k a w1 = Some (b, w').
Proof. unfold mbind, task_bind. destruct (m w) as [[a w1]|]; [|done]. intros Hk. by exists a, w1. Qed.

Lemma run_for_each_app {A} (f : A -> Task unit) l l' w w' :
  for_each f l w = Some (tt, w') -> for_each f (l ++ l') w = for_each f l' w'.
Proof.
  revert w. induction l as [|x l IH]; intros w Hl; [by injection Hl as ->|]. cbn [for_each app] in *.
  apply run_bind_inv in Hl as ([] & w1 & E & Hl). rewrite (run_bind _ _ _ _ _ E). by apply IH.
Qed.

Lemma for_each_ext {A} (f g : A -> Task unit) l w :
  (forall x w, x ∈ l -> f x w = g x w) -> for_each f l w = for_each g l w.
Proof.
  revert w. induction l as [|x l IH]; intros w Hfg; [done|]. cbn [for_each]. unfold mbind, task_bind.
  rewrite Hfg by (by left). destruct (g x w) as [[[] w1]|]; [|done]. simpl. apply IH. intros y w' Hy. apply Hfg. by right.
Qed.

(** ** What a task keeps *)

(** Later worlds: the history only grows. *)
Definition later (w w' : World) : Prop := exists l, w'.2 = l ++ w.2.

Lemma later_refl w : later w w.
Proof. by exists []. Qed.
Lemma later_trans w1 w2 w3 : later w1 w2 -> later w2 w3 -> later w1 w3.
Proof. intros [l1 H1] [l2 H2]. exists (l2 ++ l1). by rewrite H2, H1, app_assoc. Qed.

(** An invariant of the world, the precondition of a task, what its result
    satisfies: no panic, the invariant kept, the history extended. *)
Section keeps.
Context (I : World -> Prop).

Definition safe {A} (P : World -> Prop) (m : Task A) (Q : A -> World -> Prop) : Prop :=
  forall w, I w -> P w -> exists a w', m w = Some (a, w') /\ I w' /\ later w w' /\ Q a w'.

Definition keeps {A} (m : Task A) : Prop := safe (fun _ => True) m (fun _ _ => True).

Lemma safe_ret {A} (P : World -> Prop) (a : A) (Q : A -> World -> Prop) :
  (forall w, I w -> P w -> Q a w) -> safe P (mret a) Q.
Proof. intros HQ w Hw HP. exists a, w. split; [done|]. split; [done|]. split; [apply later_refl|auto]. Qed.

Lemma safe_bind {A B} P (m : Task A) Q (k : A -> Task B) R :
  safe P m Q -> (forall a, safe (Q a) (k a) R) -> safe P (m ≫= k) R.
Proof.
  intros Hm Hk w Hw HP. destruct (Hm w Hw HP) as (a & w1 & E1 & Hw1 & L1 & HQ).
  destruct (Hk a w1 Hw1 HQ) as (b & w2 & E2 & Hw2 & L2 & HR). exists b, w2.
  split; [|by eauto using later_trans]. unfold mbind, task_bind. by rewrite E1.
Qed.

Lemma safe_conseq {A} (P P' : World -> Prop) (m : Task A) (Q Q' : A -> World -> Prop) :
  safe P m Q -> (forall w, I w -> P' w -> P w) -> (forall a w, I w -> Q a w -> Q' a w) -> safe P' m Q'.
Proof.
  intros Hm HP HQ w Hw HP'. destruct (Hm w Hw (HP w Hw HP')) as (a & w' & E & Hw' & L & HQ'). exists a, w'. eauto 6.
Qed.

Lemma safe_gets {A} P (f : S -> A) : safe P (gets f) (fun a w => P w /\ a = f w.1).
Proof. intros w Hw HP. exists (f w.1), w. split; [done|]. split; [done|]. split; [apply later_refl|done]. Qed.

Lemma safe_modify (P : World -> Prop) f (Q : unit -> World -> Prop) :
  (forall w, I w -> P w -> I (f w.1, w.2) /\ Q tt (f w.1, w.2)) -> safe P (modify f) Q.
Proof.
  intros HQ w Hw HP. exists tt, (f w.1, w.2). destruct (HQ w Hw HP) as [? ?].
  split; [done|]. split; [done|]. split; [by exists []|done].
Qed.

Lemma safe_for_each {A} (P : World -> Prop) (f : A -> Task unit) l :
  (forall x, x ∈ l -> safe P (f x) (fun _ => P)) -> safe P (for_each f l) (fun _ => P).
Proof.
  induction l as [|x l IH]; intros Hf; [by apply safe_ret|]. cbn [for_each].
  eapply safe_bind; [apply Hf; by left|]. intros ?. apply IH. intros y Hy. apply Hf. by right.
Qed.

(** The same without pre- and postcondition. *)
Lemma keeps_ret {A} (a : A) : keeps (mret a).
Proof. by apply safe_ret. Qed.
Lemma keeps_bind {A B} (m : Task A) (k : A -> Task B) : keeps m -> (forall a, keeps (k a)) -> keeps (m ≫= k).
Proof. intros Hm Hk. exact (safe_bind _ m (fun _ _ => True) k _ Hm Hk). Qed.
Lemma keeps_bind_post {A B} (m : Task A) Q (k : A -> Task B) :
  safe (fun _ => True) m Q -> (forall a, safe (Q a) (k a) (fun _ _ => True)) -> keeps (m ≫= k).
Proof. intros Hm Hk. exact (safe_bind _ m Q k _ Hm Hk). Qed.
Lemma keeps_gets {A} (f : S -> A) : keeps (gets f).
Proof. eapply safe_conseq; [apply safe_gets|done|done]. Qed.
Lemma keeps_modify f : (forall s log, I (s, log) -> I (f s, log)) -> keeps (modify f).
Proof. intros Hf. apply safe_modify. intros [s log] Hw _. split; [by apply Hf|done]. Qed.
Lemma keeps_for_each {A} (f : A -> Task unit) l : (forall x, keeps (f x)) -> keeps (for_each f l).
Proof. intros Hf. apply (safe_for_each (fun _ => True)). intros x _. apply Hf. Qed.
Lemma keeps_when b m : keeps m -> keeps (when b m).
Proof. destruct b; [done|]. intros _. apply keeps_ret. Qed.

(** A task that keeps the invariant, under a precondition or with a fact. *)
Lemma safe_keeps {A} P (m : Task A) : keeps m -> safe P m (fun _ _ => True).
Proof. intros Hm. by apply (safe_conseq (fun _ => True) P m _ _ Hm). Qed.
Lemma safe_fact {A} (P : Prop) (m : Task A) : keeps m -> safe (fun _ => P) m (fun _ _ => P).
Proof. intros Hm w Hw HP. destruct (Hm w Hw Logic.I) as (a & w' & ? & ? & ? & _). by exists a, w'. Qed.

Lemma safe_pure {A} (F : Prop) P (m : Task A) Q : (F -> safe P m Q) -> safe (fun w => F /\ P w) m Q.
Proof. intros Hm w Hw [HF HP]. by apply Hm. Qed.

(** An invariant that a longer history does not break. *)
Context (grows : forall s log e, I (s, log) -> I (s, e :: log)).

Lemma safe_call `{Env} (P : World -> Prop) (c : Call) :
  safe P (call c) (fun a w => exists s log, w = (s, Did c a :: log) /\ P (s, log)).
Proof.
  intros [s log] Hw HP. eexists _, _. split; [done|]. split; [by apply grows|]. split; [by exists [Did c (ask log c)]|].
  by exists s, log.
Qed.

Lemma keeps_call `{Env} (c : Call) : keeps (call c).
Proof. eapply safe_conseq; [apply (safe_call (fun _ => True))|done|done]. Qed.
End keeps.

(** A step that keeps the precondition along with the invariant. *)
Lemma safe_under {A B} (I P : World -> Prop) (m : Task A) (k : A -> Task B) Q :
  keeps (fun w => I w /\ P w) m -> (forall a, safe I P (k a) Q) -> safe I P (m ≫= k) Q.
Proof.
  intros Hm Hk. apply (safe_bind I P m (fun _ => P)); [|exact Hk]. intros w Hw HP.
  destruct (Hm w (conj Hw HP) Logic.I) as (a & w' & E & [Hw' HP'] & L & _). by exists a, w'.
Qed.
End talk.

Arguments Event Call {_}.
Arguments Env Call {_}.
Arguments World Call {_} S.
Arguments Task Call {_} S A.

Create HintDb keeps.
#[export] Hint Resolve keeps_ret keeps_gets keeps_for_each keeps_when : keeps.

(** A task, step by step: binds, loops and matches, the steps by the hints. *)
Ltac keep_step :=
  match goal with
  | |- keeps _ (_ ≫= _) => apply keeps_bind
  | |- keeps _ (for_each _ _) => apply keeps_for_each
  | |- keeps _ (when _ _) => apply keeps_when
  | |- forall _, _ => intro
  | |- keeps _ (match ?x with _ => _ end) => destruct x
  | |- keeps _ (let '_ := ?x in _) => destruct x
  | |- keeps _ ((match ?x with _ => _ end) _) => destruct x
  end.
Ltac keep := repeat first [solve [eauto with keeps nocore] | progress cbv beta zeta | keep_step].
