(* ===== verification/Fits.v ===== *)
(** Open questions that can be answered ([plugins/common/src/answer.rs]): the
    selections a stage remembers are selections of its questions, every reply
    keeps that, and no reply and no recorded answer to such a question panics. *)

From S2P Require Import Prelude Str Rules Json Text Delivery Question Answer.

(** ** Questions that can be answered *)

Section fits.
Context `{Unicode, Letters}.

(** The selections a stage remembers are selections of its questions. *)
Definition stage_fits (questions : list Question) (s : Stage) : Prop :=
  match s with
  | Open | Answer.Sent None _ _ => True
  | Confirming l _ | Answer.Sent (Some l) _ _ => Forall2 selection_ok questions l
  end.
Definition fits (o : OpenQuestion) : Prop := stage_fits (oq_questions o) (oq_stage o).

Definition decision_fits (questions : list Question) (d : Decision) : Prop :=
  stage_fits questions (de_stage d) /\ stage_fits questions (de_fallback d).

Lemma with_echo_fits questions e s : stage_fits questions s -> stage_fits questions (with_echo e s).
Proof. by destruct s. Qed.

Lemma send_or_fits questions stage selections delay d :
  match selections with Some s => Forall2 selection_ok questions s | None => True end ->
  stage_fits questions stage -> (forall a, decision_fits questions (d a)) ->
  exists d', send_or stage (plan_action questions selections delay) d = Some d' /\ decision_fits questions d'.
Proof.
  intros Hs Hst Hd.
  assert (exists steps, match selections with Some s => plan questions s | None => Some skip_plan end = Some steps) as [steps Hp].
  { destruct selections; [by apply plan_exists|by eexists]. }
  destruct (plan_action_Some questions selections delay steps Hp) as (r & Hr & _). unfold send_or. rewrite Hr. simpl.
  eexists. split; [done|]. destruct r; [apply Hd|done].
Qed.

Lemma fresh_reply_fits questions reply delay now commands :
  exists d, fresh_reply questions reply delay now commands = Some d /\ decision_fits questions d.
Proof.
  unfold fresh_reply. destruct (match_reply questions reply) as [[selections exact|]|reason] eqn:Hm.
  - apply match_reply_Ok in Hm as (_ & Hok & _).
    destruct (existsb (refused_command commands) selections); [by eexists|].
    destruct (describe_exists _ _ Hok) as [chosen ->]. simpl. destruct exact; [|by eexists].
    by apply (send_or_fits questions Open (Some selections)).
  - by apply (send_or_fits questions Open None).
  - by eexists.
Qed.

Lemma on_reply_fits o reply delay now commands : fits o ->
  exists d, on_reply o reply delay now commands = Some d /\ decision_fits (oq_questions o) d.
Proof.
  unfold fits, on_reply. intros Hst. destruct (oq_stage o) as [|s e|s e since] eqn:Hs.
  - apply fresh_reply_fits.
  - case_bool_decide; [by apply (send_or_fits _ Open (Some s))|]. case_bool_decide; [by eexists|]. apply fresh_reply_fits.
  - destruct (now - since <? SENT_GRACE)%N; [by eexists|].
    destruct (negb _); [by eexists|]. by apply (send_or_fits _ (Answer.Sent s e since) None).
Qed.

Lemma recorded_matches_exists questions selections answers : Forall2 selection_ok questions selections ->
  exists b, recorded_matches questions selections answers = Some b.
Proof.
  induction 1 as [|q s questions selections Hok _ [b IH]]; simpl; [by eexists|].
  destruct (recorded_answer answers q); [|by eexists]. destruct (answer_text_exists q s Hok) as [text ->]. simpl.
  rewrite IH. case_match; by eexists.
Qed.

Lemma on_closed_fits o answers : fits o -> exists v, on_closed o answers = Some v.
Proof.
  unfold fits, on_closed. destruct (oq_stage o) as [|s e|[s|] e since]; intros Hst; try by eexists.
  destruct (recorded_matches_exists _ _ answers Hst) as [b ->]. destruct (describe_exists _ _ Hst) as [chosen ->].
  simpl. destruct b; by eexists.
Qed.
End fits.
