(* ===== verification/Sdk.v ===== *)
(** What the plugin SDK ([crates/balerix-plugin-sdk/src/lib.rs]) answers a plugin
    that a call of its host failed with. *)

From S2P Require Import Prelude Str.

Inductive SdkError :=
| MissingEnv (what : string)
| EnvError (what : string)
| Transport (message : string)
| HttpStatus (status : N) (message : string)
| Bind (message : string)
| ConfigureError (message : string)
| MetricsError (message : string).

Definition sdk_error_display (e : SdkError) : string :=
  match e with
  | MissingEnv what => "environment: " +:+ what +:+ " is not set"
  | EnvError what => "environment: " +:+ what
  | Transport m => "daemon: " +:+ m
  | HttpStatus status m => "daemon: HTTP " +:+ pretty status +:+ ": " +:+ m
  | Bind m => "listen: " +:+ m
  | ConfigureError m => "configure: " +:+ m
  | MetricsError m => "metrics: " +:+ m
  end.
