(* ===== verification/GhActor.v ===== *)
(** The github plugin's actor ([plugins/github/src/actor.rs]): the one task that
    owns the plugin's state and executes its commands. It is a [Talk.Task]: every
    call to the daemon, to GitHub and to the clocks is answered by an environment
    that may answer anything, failures included.

    Counters and logs are left out; a [HashMap] is iterated in the order of its
    keys. *)

From S2P Require Import Prelude Str BTree Rules Json Bytes Text Delivery Question Answer Render PluginConfig.
From S2P Require Import GitHub Webhook GhSession Talk Sdk.
From S2P Require Parts Queue.

(** ** Constants and messages *)

Definition CLOSED_RETENTION : N := 7 * 24 * 3600.
Definition STATUS_COALESCE : N := secs 2.
Definition START_UP_ALLOWANCE : N := secs 60.
Definition PERMISSION_TTL : N := secs 300.
(** In milliseconds. *)
Definition MAX_INLINE_RETRY : N := 3000.

Definition apply_refusal (e : SdkError) : string :=
  match e with
  | HttpStatus status _ =>
      if (status =? 400)%N then sdk_error_display e else "the daemon refused the apply; see the plugin log"
  | _ => "the daemon refused the apply; see the plugin log"
  end.

Definition github_refusal (kind : string) : string := "github: " +:+ kind +:+ " failed; see the plugin log".

Definition REFUSED : string := "the daemon refused the message".
Definition not_delivered (agent : string) : string := "not delivered to " +:+ agent +:+ ": " +:+ REFUSED.

(** [str::replace]: every occurrence of a text, from the left. *)
Fixpoint replace_from (fuel : nat) (pat by_ s : string) : string :=
  match fuel with
  | 0 => s
  | S fuel =>
      match find pat s with
      | Some i => str_take i s +:+ by_ +:+ replace_from fuel pat by_ (str_drop (i + String.length pat) s)
      | None => s
      end
  end.
Definition replace (pat by_ s : string) : string := replace_from (String.length s) pat by_ s.

Definition status_line (event : HookEvent) : string := replace "**" EmptyString (event_message event).

Definition head_or_default (fleet crew : string) (kind : Kind) (number : N) (pr : option PrRefs) : string :=
  match pr with
  | Some (head, _, _) => head
  | None => "balerix/" +:+ fleet +:+ "/" +:+ crew +:+ "/" +:+ agent_name kind number
  end.

(** ** State *)

(** The marker of a routed prompt. *)
Record Sent := {
  sm_repo : string;
  sm_installation : N;
  sm_number : N;
  sm_target : Target;
  sm_agent : string;
  sm_asker : string;
  sm_window : N;
}.

Inductive Unconfirmed := Expired | Skipped | Evicted.

Record Held := { hd_reviewer : string; hd_message : string }.

Inductive Tracking :=
| TrackOther
| TrackOpened (questions : list Question)
| TrackUnparsed
| TrackClosed (was : option OpenQuestion).

Inductive Expect := ExActivate | ExDeactivate.
#[export] Instance expect_eq_dec : EqDecision Expect.
Proof. solve_decision. Defined.

Record FirstPrompt := {
  fp_title : string;
  fp_body : string;
  fp_url : string;
  fp_branch : string;
  fp_base : string;
  fp_asker : string;
  fp_comment : option string;
  fp_resumed : bool;
  fp_target : Target;
}.

Inductive Fault := FaultToken | FaultListener | FaultApply.
#[export] Instance fault_eq_dec : EqDecision Fault.
Proof. solve_decision. Defined.

(** The cell the SDK reads, the last failure of each kind and their order. *)
Record Faults := mkFaults {
  ft_cell : option string;
  ft_last : Fault -> option (N * string);
  ft_seq : N;
}.
Definition no_faults : Faults := mkFaults None (fun _ => None) 0.

Definition fault_kinds : list Fault := [FaultToken; FaultListener; FaultApply].

(** [max_by_key] keeps the last of the greatest. *)
Definition newest (l : list (N * string)) : option (N * string) :=
  foldl (fun best x => match best with Some b => if (b.1 <=? x.1)%N then Some x else best | None => Some x end) None l.

Definition derive (f : Faults) : Faults :=
  mkFaults (snd <$> newest (omap (ft_last f) fault_kinds)) (ft_last f) (ft_seq f).
Definition fault_fail (kind : Fault) (message : string) (f : Faults) : Faults :=
  let seq := (ft_seq f + 1)%N in
  derive (mkFaults (ft_cell f) (fun k => if bool_decide (k = kind) then Some (seq, message) else ft_last f k) seq).
Definition fault_ok (kind : Fault) (f : Faults) : Faults :=
  derive (mkFaults (ft_cell f) (fun k => if bool_decide (k = kind) then None else ft_last f k) (ft_seq f)).

Inductive Command :=
| Configure (config : DaemonConfig)
| Activate (agent : string) (config : AgentConfig)
| Deactivate (agent : string)
| Events (dropped : N) (events : list HookEvent)
| Phases (changes : list PhaseChange)
| Webhook (ev : WebhookEvent)
| Tick
| ListenerFailed (message : string).

Record Actor := mkActor {
  ga_config : option DaemonConfig;
  ga_slug : string;
  ga_pending_commands : list Command;
  ga_agents : gmap string AgentConfig;
  ga_sessions : Sessions;
  ga_questions : Questions;
  ga_deliveries : Deliveries Sent;
  ga_statuses : gmap string Status;
  ga_status_dirty : gmap string N;
  ga_rows_dirty : gset string;
  ga_permissions : gmap (string * string) (Permission * N);
  ga_held : gmap string (list Held);
  ga_ended_notice : gset string;
  ga_first_prompts : gmap string FirstPrompt;
  ga_expected : gmap string (list Expect);
  ga_crew_notices : gmap string string;
  ga_unconfirmed_queue : list (Sent * Unconfirmed);
  ga_faults : Faults;
}.

(** Field assignments. *)
Definition set_config (x : option DaemonConfig) (s : Actor) : Actor :=
  mkActor x (ga_slug s) (ga_pending_commands s) (ga_agents s) (ga_sessions s) (ga_questions s) (ga_deliveries s)
    (ga_statuses s) (ga_status_dirty s) (ga_rows_dirty s) (ga_permissions s) (ga_held s) (ga_ended_notice s)
    (ga_first_prompts s) (ga_expected s) (ga_crew_notices s) (ga_unconfirmed_queue s) (ga_faults s).
Definition set_pending_commands (x : list Command) (s : Actor) : Actor :=
  mkActor (ga_config s) (ga_slug s) x (ga_agents s) (ga_sessions s) (ga_questions s) (ga_deliveries s) (ga_statuses s)
    (ga_status_dirty s) (ga_rows_dirty s) (ga_permissions s) (ga_held s) (ga_ended_notice s) (ga_first_prompts s)
    (ga_expected s) (ga_crew_notices s) (ga_unconfirmed_queue s) (ga_faults s).
Definition set_agents (x : gmap string AgentConfig) (s : Actor) : Actor :=
  mkActor (ga_config s) (ga_slug s) (ga_pending_commands s) x (ga_sessions s) (ga_questions s) (ga_deliveries s)
    (ga_statuses s) (ga_status_dirty s) (ga_rows_dirty s) (ga_permissions s) (ga_held s) (ga_ended_notice s)
    (ga_first_prompts s) (ga_expected s) (ga_crew_notices s) (ga_unconfirmed_queue s) (ga_faults s).
Definition set_sessions (x : Sessions) (s : Actor) : Actor :=
  mkActor (ga_config s) (ga_slug s) (ga_pending_commands s) (ga_agents s) x (ga_questions s) (ga_deliveries s)
    (ga_statuses s) (ga_status_dirty s) (ga_rows_dirty s) (ga_permissions s) (ga_held s) (ga_ended_notice s)
    (ga_first_prompts s) (ga_expected s) (ga_crew_notices s) (ga_unconfirmed_queue s) (ga_faults s).
Definition set_questions (x : Questions) (s : Actor) : Actor :=
  mkActor (ga_config s) (ga_slug s) (ga_pending_commands s) (ga_agents s) (ga_sessions s) x (ga_deliveries s)
    (ga_statuses s) (ga_status_dirty s) (ga_rows_dirty s) (ga_permissions s) (ga_held s) (ga_ended_notice s)
    (ga_first_prompts s) (ga_expected s) (ga_crew_notices s) (ga_unconfirmed_queue s) (ga_faults s).
Definition set_deliveries (x : Deliveries Sent) (s : Actor) : Actor :=
  mkActor (ga_config s) (ga_slug s) (ga_pending_commands s) (ga_agents s) (ga_sessions s) (ga_questions s) x
    (ga_statuses s) (ga_status_dirty s) (ga_rows_dirty s) (ga_permissions s) (ga_held s) (ga_ended_notice s)
    (ga_first_prompts s) (ga_expected s) (ga_crew_notices s) (ga_unconfirmed_queue s) (ga_faults s).
Definition set_statuses (x : gmap string Status) (s : Actor) : Actor :=
  mkActor (ga_config s) (ga_slug s) (ga_pending_commands s) (ga_agents s) (ga_sessions s) (ga_questions s)
    (ga_deliveries s) x (ga_status_dirty s) (ga_rows_dirty s) (ga_permissions s) (ga_held s) (ga_ended_notice s)
    (ga_first_prompts s) (ga_expected s) (ga_crew_notices s) (ga_unconfirmed_queue s) (ga_faults s).
Definition set_status_dirty (x : gmap string N) (s : Actor) : Actor :=
  mkActor (ga_config s) (ga_slug s) (ga_pending_commands s) (ga_agents s) (ga_sessions s) (ga_questions s)
    (ga_deliveries s) (ga_statuses s) x (ga_rows_dirty s) (ga_permissions s) (ga_held s) (ga_ended_notice s)
    (ga_first_prompts s) (ga_expected s) (ga_crew_notices s) (ga_unconfirmed_queue s) (ga_faults s).
Definition set_rows_dirty (x : gset string) (s : Actor) : Actor :=
  mkActor (ga_config s) (ga_slug s) (ga_pending_commands s) (ga_agents s) (ga_sessions s) (ga_questions s)
    (ga_deliveries s) (ga_statuses s) (ga_status_dirty s) x (ga_permissions s) (ga_held s) (ga_ended_notice s)
    (ga_first_prompts s) (ga_expected s) (ga_crew_notices s) (ga_unconfirmed_queue s) (ga_faults s).
Definition set_permissions (x : gmap (string * string) (Permission * N)) (s : Actor) : Actor :=
  mkActor (ga_config s) (ga_slug s) (ga_pending_commands s) (ga_agents s) (ga_sessions s) (ga_questions s)
    (ga_deliveries s) (ga_statuses s) (ga_status_dirty s) (ga_rows_dirty s) x (ga_held s) (ga_ended_notice s)
    (ga_first_prompts s) (ga_expected s) (ga_crew_notices s) (ga_unconfirmed_queue s) (ga_faults s).
Definition set_held (x : gmap string (list Held)) (s : Actor) : Actor :=
  mkActor (ga_config s) (ga_slug s) (ga_pending_commands s) (ga_agents s) (ga_sessions s) (ga_questions s)
    (ga_deliveries s) (ga_statuses s) (ga_status_dirty s) (ga_rows_dirty s) (ga_permissions s) x (ga_ended_notice s)
    (ga_first_prompts s) (ga_expected s) (ga_crew_notices s) (ga_unconfirmed_queue s) (ga_faults s).
Definition set_ended_notice (x : gset string) (s : Actor) : Actor :=
  mkActor (ga_config s) (ga_slug s) (ga_pending_commands s) (ga_agents s) (ga_sessions s) (ga_questions s)
    (ga_deliveries s) (ga_statuses s) (ga_status_dirty s) (ga_rows_dirty s) (ga_permissions s) (ga_held s) x
    (ga_first_prompts s) (ga_expected s) (ga_crew_notices s) (ga_unconfirmed_queue s) (ga_faults s).
Definition set_first_prompts (x : gmap string FirstPrompt) (s : Actor) : Actor :=
  mkActor (ga_config s) (ga_slug s) (ga_pending_commands s) (ga_agents s) (ga_sessions s) (ga_questions s)
    (ga_deliveries s) (ga_statuses s) (ga_status_dirty s) (ga_rows_dirty s) (ga_permissions s) (ga_held s)
    (ga_ended_notice s) x (ga_expected s) (ga_crew_notices s) (ga_unconfirmed_queue s) (ga_faults s).
Definition set_expected (x : gmap string (list Expect)) (s : Actor) : Actor :=
  mkActor (ga_config s) (ga_slug s) (ga_pending_commands s) (ga_agents s) (ga_sessions s) (ga_questions s)
    (ga_deliveries s) (ga_statuses s) (ga_status_dirty s) (ga_rows_dirty s) (ga_permissions s) (ga_held s)
    (ga_ended_notice s) (ga_first_prompts s) x (ga_crew_notices s) (ga_unconfirmed_queue s) (ga_faults s).
Definition set_crew_notices (x : gmap string string) (s : Actor) : Actor :=
  mkActor (ga_config s) (ga_slug s) (ga_pending_commands s) (ga_agents s) (ga_sessions s) (ga_questions s)
    (ga_deliveries s) (ga_statuses s) (ga_status_dirty s) (ga_rows_dirty s) (ga_permissions s) (ga_held s)
    (ga_ended_notice s) (ga_first_prompts s) (ga_expected s) x (ga_unconfirmed_queue s) (ga_faults s).
Definition set_unconfirmed_queue (x : list (Sent * Unconfirmed)) (s : Actor) : Actor :=
  mkActor (ga_config s) (ga_slug s) (ga_pending_commands s) (ga_agents s) (ga_sessions s) (ga_questions s)
    (ga_deliveries s) (ga_statuses s) (ga_status_dirty s) (ga_rows_dirty s) (ga_permissions s) (ga_held s)
    (ga_ended_notice s) (ga_first_prompts s) (ga_expected s) (ga_crew_notices s) x (ga_faults s).
Definition set_faults (x : Faults) (s : Actor) : Actor :=
  mkActor (ga_config s) (ga_slug s) (ga_pending_commands s) (ga_agents s) (ga_sessions s) (ga_questions s)
    (ga_deliveries s) (ga_statuses s) (ga_status_dirty s) (ga_rows_dirty s) (ga_permissions s) (ga_held s)
    (ga_ended_notice s) (ga_first_prompts s) (ga_expected s) (ga_crew_notices s) (ga_unconfirmed_queue s) x.

(** [Actor::new]. *)
Definition new_actor (slug : string) : Actor :=
  mkActor None slug [] ∅ no_sessions ∅ ∅ ∅ ∅ ∅ ∅ ∅ ∅ ∅ ∅ ∅ [] no_faults.

(** ** The environment *)

(** The daemon's store, its actions and applies; GitHub's port; the clocks. *)
Inductive Call :=
| KvList (prefix : string)
| KvGet (key : string)
| KvPut (key bytes : string)
| KvDelete (key : string)
| DoAction (agent : string) (action : PluginAction)
| ApplyFleet (fleet : string) (file : Value)
| DefaultBranch (installation : N) (repo : string)
| ReadFile (installation : N) (repo path git_ref : string)
| GetPermission (installation : N) (repo login : string)
| PostComment (installation : N) (repo : string) (number : N) (body : string)
| EditComment (installation : N) (repo : string) (id : N) (body : string)
| React (installation : N) (repo : string) (target : Target) (content : string)
| GetReview (installation : N) (repo : string) (number review_id : N)
| GetIssue (installation : N) (repo : string) (number : N)
| Now
| UnixSecs
| Sleep (ms : N).

#[export] Instance protocol : Protocol Call := fun c =>
  match c with
  | KvList _ => result SdkError (list string)
  | KvGet _ => result SdkError (option string)
  | KvPut _ _ | KvDelete _ | DoAction _ _ | ApplyFleet _ _ => result SdkError unit
  | DefaultBranch _ _ => result GitHubError string
  | ReadFile _ _ _ _ => result GitHubError (option string)
  | GetPermission _ _ _ => result GitHubError Permission
  | PostComment _ _ _ _ => result GitHubError N
  | EditComment _ _ _ _ | React _ _ _ _ => result GitHubError unit
  | GetReview _ _ _ _ => result GitHubError ReviewComments
  | GetIssue _ _ _ => result GitHubError IssueInfo
  | Now | UnixSecs => N
  | Sleep _ => unit
  end.

Notation Act := (Task Call Actor).

(** serde's bytes of a row, and their reading. *)
Class RowCodec := { encode_session : Session -> result string string; decode_session : string -> option Session }.

Section actor.
Context `{!Env Call, !Unicode, !Letters, !Yaml, !JsonText, !RowCodec}.

(** The host's and the port's methods. *)
Definition kv_list (prefix : string) : Act (result SdkError (list string)) := call (KvList prefix).
Definition kv_get (key : string) : Act (result SdkError (option string)) := call (KvGet key).
Definition kv_put (key bytes : string) : Act (result SdkError unit) := call (KvPut key bytes).
Definition kv_delete (key : string) : Act (result SdkError unit) := call (KvDelete key).
Definition host_action (agent : string) (a : PluginAction) : Act (result SdkError unit) := call (DoAction agent a).
Definition apply_fleet (fleet : string) (file : Value) : Act (result SdkError unit) := call (ApplyFleet fleet file).
Definition default_branch (installation : N) (repo : string) : Act (result GitHubError string) :=
  call (DefaultBranch installation repo).
Definition read_file (installation : N) (repo path git_ref : string) : Act (result GitHubError (option string)) :=
  call (ReadFile installation repo path git_ref).
Definition permission (installation : N) (repo login : string) : Act (result GitHubError Permission) :=
  call (GetPermission installation repo login).
Definition comment (installation : N) (repo : string) (number : N) (body : string) : Act (result GitHubError N) :=
  call (PostComment installation repo number body).
Definition edit_comment (installation : N) (repo : string) (id : N) (body : string) : Act (result GitHubError unit) :=
  call (EditComment installation repo id body).
Definition port_react (installation : N) (repo : string) (target : Target) (content : string) : Act (result GitHubError unit) :=
  call (React installation repo target content).
Definition review_comments (installation : N) (repo : string) (number review_id : N) : Act (result GitHubError ReviewComments) :=
  call (GetReview installation repo number review_id).
Definition issue (installation : N) (repo : string) (number : N) : Act (result GitHubError IssueInfo) :=
  call (GetIssue installation repo number).
Definition instant_now : Act N := call Now.
Definition unix_now : Act N := call UnixSecs.
Definition sleep (ms : N) : Act unit := call (Sleep ms).

(** [&mut] of a field, by its assignment. *)
Definition update {A} (get : Actor -> A) (set : A -> Actor -> Actor) (f : A -> A) : Act unit :=
  modify (fun s => set (f (get s)) s).

Definition upd_sessions := update ga_sessions set_sessions.
Definition upd_questions := update ga_questions set_questions.
Definition upd_deliveries := update ga_deliveries set_deliveries.
Definition upd_statuses := update ga_statuses set_statuses.
Definition upd_status_dirty := update ga_status_dirty set_status_dirty.
Definition upd_rows_dirty := update ga_rows_dirty set_rows_dirty.
Definition upd_held := update ga_held set_held.
Definition upd_ended_notice := update ga_ended_notice set_ended_notice.
Definition upd_first_prompts := update ga_first_prompts set_first_prompts.
Definition upd_expected := update ga_expected set_expected.
Definition upd_crew_notices := update ga_crew_notices set_crew_notices.
Definition upd_faults := update ga_faults set_faults.

(** [retry_once]. *)
Definition retry_once {A} (m : Act (result GitHubError A)) : Act (result GitHubError A) :=
  attempt ← m;
  match attempt with
  | Err (RateLimited ms) =>
      if (MAX_INLINE_RETRY <? ms)%N then mret attempt
      else _ ← sleep ms; m
  | _ => mret attempt
  end.

Definition github_failed (e : GitHubError) : Act unit :=
  match e with
  | Auth _ => upd_faults (fault_fail FaultToken ("github: " +:+ github_error_display e))
  | _ => mret tt
  end.

(** [self.cfg()]: unreachable before [Configure]. *)
Definition cfg : Act DaemonConfig :=
  c ← gets ga_config; match c with Some c => mret c | None => panic end.

(** ** Posting *)

Fixpoint post_parts (installation : N) (repo : string) (number : N) (parts : list string) (first : option N) : Act (option N) :=
  match parts with
  | [] => mret first
  | part :: parts =>
      r ← retry_once (comment installation repo number part);
      match r with
      | Ok id =>
          _ ← upd_faults (fault_ok FaultToken);
          post_parts installation repo number parts (match first with Some _ => first | None => Some id end)
      | Err e => _ ← github_failed e; mret first
      end
  end.

Definition post (installation : N) (repo : string) (number : N) (body : string) : Act (option N) :=
  c ← gets ga_config;
  let max_parts := match c with Some c => dc_max_parts c | None => DEFAULT_MAX_PARTS end in
  post_parts installation repo number (Parts.split body COMMENT_LIMIT max_parts) None.

(** An error is only counted. *)
Definition react (installation : N) (repo : string) (target : Target) (content : string) : Act unit :=
  _ ← port_react installation repo target content; mret tt.

(** ** Rows *)

Definition sessions_set (agent : string) (r : Session) : Act (result SdkError unit) :=
  match encode_session r with
  | Err e => mret (Err (Transport ("encode session: " +:+ e)))
  | Ok bytes =>
      p ← kv_put (session_key agent) bytes;
      match p with
      | Ok _ => _ ← upd_sessions (insert_row agent r); mret (Ok tt)
      | Err e => mret (Err e)
      end
  end.

Definition sessions_remove (agent : string) : Act (result SdkError unit) :=
  d ← kv_delete (session_key agent);
  match d with
  | Ok _ => _ ← upd_sessions (remove_row agent); mret (Ok tt)
  | Err e => mret (Err e)
  end.

Definition get_row (agent : string) : Act (option Session) := gets (fun s => row agent (ga_sessions s)).
Definition agent_of (repo : string) (number : N) : Act (option string) := gets (fun s => by_number repo number (ga_sessions s)).
Definition mark_dirty (agent : string) : Act unit := upd_rows_dirty (fun d => {[agent]} ∪ d).

Definition repo_of_fleet (fleet : string) : Act (result SdkError (option string)) :=
  r ← kv_get (repo_key fleet); mret (match r with Ok o => Ok (from_utf8_lossy <$> o) | Err e => Err e end).

Definition touch (agent : string) : Act unit :=
  r ← get_row agent;
  _ ← (match r with
       | Some _ => now ← unix_now; upd_sessions (alter_row (set_last_activity now) agent)
       | None => mret tt
       end);
  mark_dirty agent.

Definition refresh_installation (agent : string) (installation : N) : Act unit :=
  r ← get_row agent;
  match r with
  | Some r =>
      if (ss_installation r =? installation)%N then mret tt
      else _ ← upd_sessions (alter_row (set_installation installation) agent); mark_dirty agent
  | None => mret tt
  end.

Definition redelivered (repo : string) (number : N) (id : GhSession.Seen) : Act bool :=
  gets (fun s =>
    match by_number repo number (ga_sessions s) ≫= fun a => row a (ga_sessions s) with
    | Some r => has_seen id r
    | None => false
    end).

Definition remember (agent : string) (id : GhSession.Seen) : Act unit :=
  r ← get_row agent;
  match r with
  | None => mret tt
  | Some r =>
      let '(new, r) := see id r in
      if negb new then mret tt
      else
        res ← sessions_set agent r;
        match res with
        | Ok _ => upd_rows_dirty (fun d => d ∖ {[agent]})
        | Err _ => _ ← upd_sessions (alter_row (fun r => (see id r).2) agent); mark_dirty agent
        end
  end.

(** ** The status comment *)

Definition status_of (agent : string) (m : gmap string Status) : Status := default (new_status agent) (m !! agent).

(** [status_dirty.entry(agent).or_insert_with(Instant::now)]. *)
Definition mark_status (agent : string) : Act unit :=
  d ← gets (fun s => ga_status_dirty s !! agent);
  match d with
  | Some _ => mret tt
  | None => now ← instant_now; upd_status_dirty <[agent := now]>
  end.

Definition line (agent text : string) : Act unit :=
  at_ ← unix_now;
  _ ← upd_statuses (fun m => <[agent := push_line at_ text (status_of agent m)]> m);
  mark_status agent.

(** The comment posted anew. *)
Definition repost_status (agent : string) (r : Session) (body : string) : Act unit :=
  posted ← retry_once (comment (ss_installation r) (ss_repo r) (ss_number r) body);
  match posted with
  | Ok id => _ ← upd_sessions (alter_row (set_status_comment (Some id)) agent); mark_dirty agent
  | Err e => github_failed e
  end.

Definition flush_status (agent : string) : Act unit :=
  _ ← upd_status_dirty (delete agent);
  r ← get_row agent;
  st ← gets (fun s => ga_statuses s !! agent);
  match r, st with
  | Some r, Some st =>
      let body := render_status st in
      match ss_status_comment r with
      | Some id =>
          e ← retry_once (edit_comment (ss_installation r) (ss_repo r) id body);
          match e with
          | Ok _ => mret tt
          | Err NotFound => repost_status agent r body
          | Err e => github_failed e
          end
      | None => repost_status agent r body
      end
  | _, _ => mret tt
  end.

(** ** Who is heard *)

Definition is_app (slug login : string) : bool :=
  eq_ignore_ascii_case login (slug +:+ "[bot]") || eq_ignore_ascii_case login slug.

Definition permitted (installation : N) (repo : string) (author : Author) : Act bool :=
  slug ← gets ga_slug;
  if au_bot author || is_app slug (au_login author) then mret false
  else
    let key := (repo, au_login author) in
    now ← instant_now;
    cached ← gets (fun s => ga_permissions s !! key);
    match (match cached with Some (p, until) => if (now <? until)%N then Some p else None | None => None end) with
    | Some p => mret (may_prompt p)
    | None =>
        r ← retry_once (permission installation repo (au_login author));
        match (match r with Ok p => Ok p | Err NotFound => Ok PNone | Err e => Err e end) with
        | Ok p =>
            _ ← update ga_permissions set_permissions <[key := (p, (now + PERMISSION_TTL)%N)]>;
            mret (may_prompt p)
        | Err e => _ ← github_failed e; mret false
        end
    end.

(** ** Prompts *)

Definition window_of (agent : string) : Act N :=
  gets (fun s => match ga_agents s !! agent with Some c => ac_confirm_window c | None => DEFAULT_CONFIRM_WINDOW end).
Definition key_delay_of (agent : string) : Act N :=
  gets (fun s => match ga_agents s !! agent with Some c => ac_key_delay_ms c | None => DEFAULT_KEY_DELAY_MS end).

(** [Duration + Duration], which panics past [Duration::MAX]. *)
Definition DURATION_MAX : N := secs u64_max + 999999999.
Definition duration_add (a b : N) : option N := if (a + b <=? DURATION_MAX)%N then Some (a + b)%N else None.

Definition unconfirmed_later (m : Sent) : Act unit :=
  update ga_unconfirmed_queue set_unconfirmed_queue (fun l => l ++ [(m, Evicted)]).

Definition track (agent : string) (installation : N) (repo : string) (number : N) (asker : string) (target : Target)
    (body : string) (allowance : N) : Act unit :=
  match classify body with
  | KindCommand => mret tt
  | KindPrompt =>
      w ← window_of agent;
      window ← (if (w =? 0)%N then mret w
                else match duration_add w allowance with Some d => mret d | None => panic end);
      let marker := {| sm_repo := repo; sm_installation := installation; sm_number := number; sm_target := target;
                       sm_agent := agent; sm_asker := asker; sm_window := window |} in
      now ← instant_now;
      d ← gets ga_deliveries;
      let '(evicted, d) := sent agent body marker now window d in
      _ ← upd_deliveries (fun _ => d);
      match evicted with Some e => unconfirmed_later e | None => mret tt end
  end.

(** A refusal is only counted. *)
Definition press_enter (agent : string) : Act unit :=
  delay_ms ← key_delay_of agent;
  _ ← host_action agent (SendKeys [StepKey Enter] delay_ms); mret tt.

Definition unconfirmed (m : Sent) (why : Unconfirmed) : Act unit :=
  _ ← react (sm_installation m) (sm_repo m) (sm_target m) CONFUSED;
  line (sm_agent m)
    (match why with
     | Expired => "prompt from @" +:+ sm_asker m +:+ " not confirmed after " +:+ pretty (sm_window m / secs 1)%N +:+ "s"
     | Skipped => "prompt from @" +:+ sm_asker m +:+ " skipped: Claude took a later one first"
     | Evicted => "prompt from @" +:+ sm_asker m +:+ " dropped: too many pending"
     end).

(** [Questions::open] and [clear], the store's errors being only logged. *)
Definition open_question (agent : string) (tool_input : Value) (qs : list Question) : Act unit :=
  _ ← upd_questions <[agent := mkOpen qs Open false false]>;
  _ ← kv_put (question_key agent) (json_bytes tool_input); mret tt.

Definition clear_question (agent : string) : Act (option OpenQuestion) :=
  was ← gets (fun s => ga_questions s !! agent);
  match was with
  | None => mret None
  | Some was =>
      _ ← upd_questions (delete agent);
      _ ← kv_delete (question_key agent); mret (Some was)
  end.

Definition question_open (agent : string) : Act bool := gets (fun s => is_open agent (ga_questions s)).

Definition reaction_content (r : Reaction) : string :=
  match r with Ack => PLUS_ONE | Refused => CONFUSED | Failed => MINUS_ONE | Confirmed => HOORAY end.

(** [on_answer]: the contract of a [Decision], with comments as posts and
    reactions on the operator's comment. *)
Definition on_answer (agent : string) (installation : N) (repo : string) (number comment_id : N) (body : string) : Act unit :=
  o ← gets (fun s => ga_questions s !! agent);
  match o with
  | None => mret tt
  | Some o =>
      delay_ms ← key_delay_of agent;
      now ← instant_now;
      c ← cfg;
      match on_reply o body delay_ms now (allowlist_with (dc_slash_commands c)) with
      | None => panic
      | Some d =>
          echo ← (match de_post d with Some text => post installation repo number text | None => mret None end);
          if bool_decide (is_Some (de_post d)) && bool_decide (echo = None) && gates_on_post d then
            _ ← upd_questions (set_stage agent (de_fallback d));
            react installation repo (TComment comment_id) MINUS_ONE
          else
            taken ← (match de_send d with Some action => host_action agent action | None => mret (Ok tt) end);
            match taken with
            | Err _ =>
                _ ← upd_questions (set_stage agent (de_fallback d));
                _ ← post installation repo number (not_delivered agent);
                react installation repo (TComment comment_id) MINUS_ONE
            | Ok _ =>
                _ ← upd_questions (set_stage agent
                      (if gates_on_post d then with_echo (pretty <$> echo) (de_stage d) else de_stage d));
                match de_react d with
                | Some r => react installation repo (TComment comment_id) (reaction_content r)
                | None => mret tt
                end
            end
      end
  end.

Definition on_message (agent : string) (installation : N) (repo : string) (number : N) (asker : string) (comment_id : N)
    (body : string) : Act unit :=
  _ ← touch agent;
  asked ← question_open agent;
  if asked : bool then on_answer agent installation repo number comment_id body
  else
    let text := prompt_text body in
    off_list ← (match classify text with
                | KindCommand => c ← cfg; mret (negb (allows (allowlist_with (dc_slash_commands c)) text))
                | KindPrompt => mret false
                end);
    if off_list : bool then
      _ ← post installation repo number ("not sent to " +:+ agent +:+ ": " +:+ COMMAND_REFUSED);
      react installation repo (TComment comment_id) CONFUSED
    else
      r ← host_action agent (SendText text true);
      match r with
      | Ok _ =>
          _ ← react installation repo (TComment comment_id) EYES;
          track agent installation repo number asker (TComment comment_id) text 0
      | Err _ =>
          _ ← post installation repo number (not_delivered agent);
          react installation repo (TComment comment_id) MINUS_ONE
      end.

(** ** Reviews *)

Definition deliver_review (agent reviewer message : string) : Act unit :=
  r ← host_action agent (SendText message true);
  match r with
  | Ok _ => line agent ("review from @" +:+ reviewer +:+ " delivered")
  | Err _ => line agent ("review from @" +:+ reviewer +:+ " not delivered: " +:+ REFUSED)
  end.

Definition release_held (agent : string) : Act unit :=
  asked ← question_open agent;
  if asked : bool then mret tt
  else
    l ← gets (fun s => default [] (ga_held s !! agent));
    _ ← upd_held (delete agent);
    for_each (fun h => deliver_review agent (hd_reviewer h) (hd_message h)) l.

Definition on_review (installation : N) (repo : string) (number : N) (author : Author) (review_id : N)
    (state body commit : string) : Act unit :=
  a ← agent_of repo number;
  match a with
  | None => mret tt
  | Some agent =>
      _ ← refresh_installation agent installation;
      r ← get_row agent;
      match r with
      | None => mret tt
      | Some r =>
          seen ← redelivered repo number (SeenReview review_id);
          if seen : bool then mret tt
          else if ss_closed r || negb (bool_decide (ss_kind r = KPr)) then mret tt
          else
            ok ← permitted installation repo author;
            if negb ok then mret tt
            else
              rc ← retry_once (review_comments installation repo number review_id);
              match rc with
              | Err e => github_failed e
              | Ok rc =>
                  _ ← remember agent (SeenReview review_id);
                  match review_prompt (au_login author) state commit body (rcs_comments rc) (rcs_more rc)
                          (default "main" (ss_base r)) with
                  | None => mret tt
                  | Some message =>
                      _ ← upd_held (fun m => <[agent := default [] (m !! agent) ++
                            [{| hd_reviewer := au_login author; hd_message := message |}]]> m);
                      asked ← question_open agent;
                      if asked : bool then line agent ("review from @" +:+ au_login author +:+ " held")
                      else release_held agent
                  end
              end
      end
  end.

(** ** Starting *)

Definition expect (agent : string) (c : Expect) : Act unit :=
  upd_expected (fun m => <[agent := default [] (m !! agent) ++ [c]]> m).

(** What [arrived] answers and the expectations left, of a call that is expected. *)
Definition arrive (c : Expect) (l : list Expect) : option (bool * list Expect) :=
  '(i, _) ← list_find (fun x => x = c) l;
  let l := drop (S i) l in
  Some (bool_decide (c = ExDeactivate) && bool_decide (ExActivate ∈ l), l).

Definition arrived (agent : string) (c : Expect) : Act bool :=
  l ← gets (fun s => ga_expected s !! agent);
  match l ≫= arrive c with
  | None => mret false
  | Some (stale, l) =>
      _ ← upd_expected (match l with [] => delete agent | _ => <[agent := l]> end);
      mret stale
  end.

Definition refuse (installation : N) (repo : string) (number : N) (target : Target) (message : string) : Act unit :=
  _ ← post installation repo number message;
  react installation repo target CONFUSED.

(** The agent of the fleet's first other open row. *)
Definition is_running (except : N) (t : Sessions) (agent : string) : bool :=
  match row agent t with Some r => negb (ss_closed r) && negb (ss_number r =? except)%N | None => false end.

Definition running_in (fleet : string) (except : N) (t : Sessions) : option string :=
  snd <$> list_find (fun a => is_running except t a = true) (agents_in fleet t).

Definition keep_crew (fleet : string) (except : N) (p : Prepared) (t : Sessions) : Value * string :=
  match crew_of <$> running_in fleet except t with
  | Some old =>
      if bool_decide (old = pp_crew p) then (pp_file p, pp_crew p)
      else (rename_crew (pp_file p) (pp_crew p) old, old)
  | None => (pp_file p, pp_crew p)
  end.

(** The refusals before the repository is asked: a fork, a fleet name that
    stands for another repository. [true] goes on. *)
Definition start_allowed (installation : N) (repo : string) (number : N) (pr : option PrRefs) (target : Target) : Act bool :=
  let fork := match pr with Some (_, head_repo, _) => negb (eq_ignore_ascii_case head_repo repo) | None => false end in
  if fork then
    _ ← post installation repo number "sessions on pull requests from forks are not supported";
    _ ← react installation repo target CONFUSED; mret false
  else
    let fleet := fleet_name repo in
    r ← repo_of_fleet fleet;
    match r with
    | Ok (Some other) =>
        if eq_ignore_ascii_case other repo then mret true
        else
          _ ← post installation repo number
                ("fleet name " +:+ fleet +:+ " already stands for " +:+ other +:+ "; clear the plugin's KV key repo/" +:+ fleet
                 +:+ " (plugins/github/kv/repo/" +:+ fleet +:+ " under the daemon's state root) to reuse it");
          _ ← react installation repo target CONFUSED; mret false
    | Ok None => mret true
    | Err _ => mret false
    end.

(** The fleet's open rows but this number's. *)
Definition others (fleet : string) (number : N) (t : Sessions) : list Live :=
  filter (fun l => lv_number l <> number) (live_in fleet t).

(** The file, read from the default branch and prepared. *)
Definition start_file (installation : N) (repo : string) (kind : Kind) (number : N) (pr : option PrRefs) (target : Target)
    : Act (option (string * Prepared)) :=
  let fleet := fleet_name repo in
  t ← gets ga_sessions;
  let live := others fleet number t ++
              [{| lv_kind := kind; lv_number := number; lv_head := (fun p => p.1.1) <$> pr |}] in
  b ← retry_once (default_branch installation repo);
  match b with
  | Err e => _ ← github_failed e; mret None
  | Ok branch =>
      c ← cfg;
      f ← retry_once (read_file installation repo (dc_config_path c) branch);
      match f with
      | Err e => _ ← github_failed e; mret None
      | Ok None =>
          _ ← refuse installation repo number target (dc_config_path c +:+ " not found on " +:+ branch); mret None
      | Ok (Some text) =>
          match prepare text repo fleet branch live with
          | Err m => _ ← refuse installation repo number target m; mret None
          | Ok p => mret (Some (branch, p))
          end
      end
  end.

(** The notice about a crew key that changed under running sessions. *)
Definition crew_notice (installation : N) (repo : string) (number : N) (fleet declared crew : string) : Act unit :=
  if bool_decide (crew = declared) then upd_crew_notices (delete fleet)
  else
    n ← gets (fun s => ga_crew_notices s !! fleet);
    if bool_decide (n = Some declared) then mret tt
    else
      _ ← upd_crew_notices <[fleet := declared]>;
      c ← cfg;
      _ ← post installation repo number
            (dc_config_path c +:+ " names crew " +:+ declared +:+ ", but sessions are running in crew " +:+ crew
             +:+ "; the new key takes effect once they end");
      mret tt.

(** What the number's rows leave the new one: the agent's own row, a row under
    another crew key, and what was acted on. *)
Record Prior := { pr_agent : option string; pr_status_comment : option N; pr_resumed : bool; pr_seen : list GhSession.Seen }.

Definition prior_of (agent repo : string) (number : N) (t : Sessions) : Prior :=
  let other := match by_number repo number t with
               | Some a => if bool_decide (a = agent) then None else Some a
               | None => None
               end in
  {| pr_agent := other;
     pr_status_comment := row agent t ≫= ss_status_comment;
     pr_resumed := bool_decide (is_Some (row agent t));
     pr_seen := match union (row agent t) (other ≫= fun p => row p t) with Some r => ss_seen r | None => [] end |}.

(** The status comment of a started session, and its id. *)
Definition start_status (installation : N) (repo : string) (number : N) (agent : string) (p : Prior) : Act (option N) :=
  st ← gets (fun s => status_of agent (ga_statuses s));
  _ ← upd_statuses (delete agent);
  now ← unix_now;
  let st := push_line now (if pr_resumed p then "resuming" else "starting") (set_phase "starting" st) in
  id ← (match pr_status_comment p with
        | Some id => _ ← mark_status agent; mret (Some id)
        | None =>
            r ← retry_once (comment installation repo number (render_status st));
            match r with Ok id => mret (Some id) | Err e => _ ← github_failed e; mret None end
        end);
  _ ← upd_statuses <[agent := st]>;
  mret id.

Definition drop_prior (p : Prior) : Act unit :=
  match pr_agent p with
  | None => mret tt
  | Some prior =>
      _ ← sessions_remove prior;
      _ ← upd_statuses (delete prior);
      _ ← upd_status_dirty (delete prior);
      _ ← upd_rows_dirty (fun d => d ∖ {[prior]});
      upd_ended_notice (fun d => d ∖ {[prior]})
  end.

(** The apply has been taken: the row, the status and the first prompt. *)
Definition started (installation : N) (repo : string) (kind : Kind) (number : N) (asker title body url : string)
    (pr : option PrRefs) (target : Target) (quoted : option string) (fleet crew branch agent : string) (p : Prior) : Act unit :=
  _ ← upd_faults (fault_ok FaultApply);
  _ ← expect agent ExActivate;
  _ ← kv_put (repo_key fleet) repo;
  status_comment ← start_status installation repo number agent p;
  now ← unix_now;
  let r := {| ss_repo := repo; ss_installation := installation; ss_kind := kind; ss_number := number;
              ss_head := (fun p => p.1.1) <$> pr; ss_base := snd <$> pr; ss_status_comment := status_comment;
              ss_session_id := None; ss_last_activity := now; ss_closed := false; ss_seen := pr_seen p |} in
  let r := (see (match target with TComment id => SeenComment id | TIssue _ => SeenOpening end) r).2 in
  _ ← sessions_set agent r;
  _ ← drop_prior p;
  _ ← upd_ended_notice (fun d => d ∖ {[agent]});
  upd_first_prompts <[agent :=
    {| fp_title := title; fp_body := body; fp_url := url; fp_branch := head_or_default fleet crew kind number pr;
       fp_base := default branch (snd <$> pr); fp_asker := asker; fp_comment := quoted; fp_resumed := pr_resumed p;
       fp_target := target |}]>.

Definition start (installation : N) (repo : string) (kind : Kind) (number : N) (asker title body url : string)
    (pr : option PrRefs) (target : Target) (quoted : option string) : Act unit :=
  _ ← react installation repo target EYES;
  go ← start_allowed installation repo number pr target;
  if negb go then mret tt
  else
    let fleet := fleet_name repo in
    f ← start_file installation repo kind number pr target;
    match f with
    | None => mret tt
    | Some (branch, prepared) =>
        t ← gets ga_sessions;
        let '(file, crew) := keep_crew fleet number prepared t in
        _ ← crew_notice installation repo number fleet (pp_crew prepared) crew;
        let agent := fleet +:+ "/" +:+ crew +:+ "/" +:+ agent_name kind number in
        p ← gets (fun s => prior_of agent repo number (ga_sessions s));
        a ← apply_fleet fleet file;
        match a with
        | Err e => refuse installation repo number target (apply_refusal e)
        | Ok _ => started installation repo kind number asker title body url pr target quoted fleet crew branch agent p
        end
    end.

(** ** Webhooks *)

Definition on_opening (installation : N) (repo : string) (kind : Kind) (number : N) (author : Author)
    (title body url : string) (pr : option PrRefs) (target : Target) (quoted : option string) : Act unit :=
  slug ← gets ga_slug;
  if negb (mentions body slug) && negb (match quoted with Some c => mentions c slug | None => false end) then mret tt
  else
    ok ← permitted installation repo author;
    if negb ok then mret tt
    else
      live ← agent_of repo number;
      seen ← (match live with Some _ => redelivered repo number SeenOpening | None => mret false end);
      if seen : bool then mret tt
      else
        r ← (match live with Some agent => get_row agent | None => mret None end);
        match live, r with
        | Some agent, Some r =>
            if ss_closed r
            then start installation repo kind number (au_login author) title body url pr target quoted
            else refresh_installation agent installation
        | _, _ => start installation repo kind number (au_login author) title body url pr target quoted
        end.

(** A mention on a number with no open session. *)
Definition on_mention (installation : N) (repo : string) (number : N) (author : Author) (comment_id : N) (body : string)
    (is_pr : bool) : Act unit :=
  i ← retry_once (issue installation repo number);
  match i with
  | Err e => github_failed e
  | Ok i =>
      let kind := if is_pr || bool_decide (is_Some (GitHub.is_pr i)) then KPr else KIssue in
      start installation repo kind number (au_login author) (is_title i) (is_body i) (is_url i) (GitHub.is_pr i)
        (TComment comment_id) (Some body)
  end.

Definition on_ended (agent : string) (installation : N) (repo : string) (number comment_id : N) : Act unit :=
  _ ← react installation repo (TComment comment_id) CONFUSED;
  told ← gets (fun s => bool_decide (agent ∈ ga_ended_notice s));
  if told : bool then mret tt
  else
    _ ← upd_ended_notice (fun d => {[agent]} ∪ d);
    slug ← gets ga_slug;
    _ ← post installation repo number ("this session has ended; mention @" +:+ slug +:+ " to start a new one");
    mret tt.

Definition on_comment (installation : N) (repo : string) (number : N) (author : Author) (comment_id : N) (body : string)
    (is_pr : bool) : Act unit :=
  slug ← gets ga_slug;
  if au_bot author || eq_ignore_ascii_case (au_login author) (slug +:+ "[bot]") then mret tt
  else
    seen ← redelivered repo number (SeenComment comment_id);
    if seen : bool then mret tt
    else
      ok ← permitted installation repo author;
      if negb ok then mret tt
      else
        live ← agent_of repo number;
        _ ← (match live with Some agent => refresh_installation agent installation | None => mret tt end);
        let mentioned := mentions body slug in
        r ← (match live with Some agent => get_row agent | None => mret None end);
        let closed := match r with Some r => ss_closed r | None => false end in
        _ ← (match live with
             | Some agent => when (negb (mentioned && closed)) (remember agent (SeenComment comment_id))
             | None => mret tt
             end);
        match live with
        | Some agent =>
            if negb closed then on_message agent installation repo number (au_login author) comment_id body
            else if negb mentioned then on_ended agent installation repo number comment_id
            else on_mention installation repo number author comment_id body is_pr
        | None => if mentioned : bool then on_mention installation repo number author comment_id body is_pr else mret tt
        end.

(** ** Ending *)

Definition refile_failed (agent : string) (r : Session) (message : string) : Act unit :=
  _ ← post (ss_installation r) (ss_repo r) (ss_number r) message;
  touch agent.

(** The fleet without this session, applied. *)
Definition refile (agent : string) (installation : N) (r : Session) : Act bool :=
  let fleet := fleet_of agent in
  t ← gets ga_sessions;
  let live := others fleet (ss_number r) t in
  b ← retry_once (default_branch installation (ss_repo r));
  match b with
  | Err e => _ ← github_failed e; _ ← refile_failed agent r (github_refusal "default_branch"); mret false
  | Ok branch =>
      c ← cfg;
      f ← retry_once (read_file installation (ss_repo r) (dc_config_path c) branch);
      match f with
      | Err e => _ ← github_failed e; _ ← refile_failed agent r (github_refusal "read_file"); mret false
      | Ok text =>
          t ← gets ga_sessions;
          match prepare (default EmptyString text) (ss_repo r) fleet branch live with
          | Err m => _ ← refile_failed agent r m; mret false
          | Ok p =>
              let file := (keep_crew fleet (ss_number r) p t).1 in
              a ← apply_fleet fleet file;
              match a with
              | Err e =>
                  _ ← upd_faults (fault_fail FaultApply ("github: applying " +:+ fleet +:+ ": " +:+ sdk_error_display e));
                  _ ← refile_failed agent r (apply_refusal e); mret false
              | Ok _ => mret true
              end
          end
      end
  end.

(** The closed row, written now; kept in memory when the store refuses it. *)
Definition write_closed (agent : string) (now : N) : Act unit :=
  r ← get_row agent;
  match r with
  | None => mret tt
  | Some r =>
      _ ← upd_rows_dirty (fun d => d ∖ {[agent]});
      res ← sessions_set agent (close_at now r);
      match res with
      | Ok _ => mret tt
      | Err _ => _ ← upd_sessions (alter_row (close_at now) agent); mark_dirty agent
      end
  end.

Definition end_session (agent : string) (installation : N) (reason : string) : Act unit :=
  r ← get_row agent;
  match r with
  | None => mret tt
  | Some r =>
      if ss_closed r then mret tt
      else
        done_ ← refile agent installation r;
        if negb done_ then mret tt
        else
          _ ← upd_faults (fault_ok FaultApply);
          _ ← expect agent ExDeactivate;
          _ ← line agent reason;
          _ ← flush_status agent;
          now ← unix_now;
          _ ← write_closed agent now;
          _ ← upd_deliveries (fun d => (Delivery.forget agent d).2);
          _ ← upd_held (delete agent);
          _ ← clear_question agent;
          mret tt
  end.

Definition on_webhook (ev : WebhookEvent) : Act unit :=
  match ev with
  | IssueOpened repo installation number author title body url =>
      on_opening installation repo KIssue number author title body url None (TIssue number) None
  | PrOpened repo installation number author title body url head head_repo base =>
      on_opening installation repo KPr number author title body url (Some (head, head_repo, base)) (TIssue number) None
  | Commented repo installation number author comment_id body is_pr =>
      on_comment installation repo number author comment_id body is_pr
  | Closed repo installation number merged =>
      a ← agent_of repo number;
      match a with
      | None => mret tt
      | Some agent =>
          _ ← refresh_installation agent installation;
          end_session agent installation (if merged : bool then "merged" else "closed")
      end
  | ReviewSubmitted repo installation number author review_id state body commit =>
      on_review installation repo number author review_id state body commit
  end.

(** ** Hook events *)

Definition send_first_prompt (agent : string) (installation : N) (repo : string) (number : N) (kind : Kind) (fp : FirstPrompt)
    : Act unit :=
  let text := first_prompt
    {| sr_repo := repo; sr_kind := kind; sr_number := number; sr_title := fp_title fp; sr_url := fp_url fp;
       sr_body := fp_body fp; sr_branch := fp_branch fp; sr_base := fp_base fp; sr_asker := fp_asker fp;
       sr_comment := fp_comment fp; sr_resumed := fp_resumed fp |} in
  r ← host_action agent (SendText text true);
  match r with
  | Ok _ => track agent installation repo number (fp_asker fp) (fp_target fp) text START_UP_ALLOWANCE
  | Err _ =>
      _ ← post installation repo number (not_delivered agent);
      react installation repo (fp_target fp) MINUS_ONE
  end.

Definition track_question (event : HookEvent) : Act Tracking :=
  let agent := he_agent event in
  let name := he_name event in
  if bool_decide (name ∈ ["Stop"; "UserPromptSubmit"; "SessionStart"; "SessionEnd"]) then
    _ ← clear_question agent;
    _ ← when (bool_decide (name = "Stop") || bool_decide (name = "UserPromptSubmit")) (release_held agent);
    mret TrackOther
  else if negb (bool_decide (str_field (he_payload event) "tool_name" = Some TOOL)) then mret TrackOther
  else if bool_decide (name = "PreToolUse") then
    let input := default Null (get (he_payload event) "tool_input") in
    match Question.parse input with
    | Some qs => _ ← open_question agent input qs; mret (TrackOpened qs)
    | None => mret TrackUnparsed
    end
  else if bool_decide (name = "PostToolUse") then
    closed ← clear_question agent;
    _ ← release_held agent;
    mret (TrackClosed closed)
  else mret TrackOther.

Definition REPLY_ONE : string := "Reply with a number or a label.".
Definition REPLY_ONE_COMMENT : string := "Reply with a comment: a number or a label.".
Definition REPLY_MANY : string := "Reply with one line per question, in order: a number or a label.".
Definition REPLY_MANY_COMMENT : string := "Reply with a comment, one line per question, in order: a number or a label.".

Definition question_comment (qs : list Question) : string :=
  replace REPLY_MANY REPLY_MANY_COMMENT (replace REPLY_ONE REPLY_ONE_COMMENT (question_message qs)).

(** [str::parse::<u64>]. *)
Definition parse_u64 (s : string) : option N :=
  let digits := default s (strip_prefix "+" s) in
  if is_empty digits then None else parse_digits_u64 digits.

(** [true]: the event is handled. [on_closed] is [None] where its Rust panics. *)
Definition on_question_event (installation : N) (repo : string) (number : N) (event : HookEvent) (tracking : Tracking)
    : Act bool :=
  let agent := he_agent event in
  match tracking with
  | TrackOpened qs =>
      id ← post installation repo number (question_comment qs);
      _ ← when (bool_decide (is_Some id)) (upd_questions (mark_posted agent));
      mret true
  | TrackUnparsed | TrackClosed None => mret false
  | TrackClosed (Some o) =>
      let answers := default Null (pointer (he_payload event) ["tool_response"; "answers"]) in
      match on_closed o answers with
      | None => panic
      | Some (VConfirmed echo) =>
          _ ← (match echo ≫= parse_u64 with
               | Some id => react installation repo (TComment id) HOORAY
               | None => mret tt
               end);
          mret true
      | Some (VMismatch message) | Some (VAnsweredAtTerminal message) =>
          _ ← post installation repo number message; mret true
      | Some VNothing => mret true
      end
  | TrackOther =>
      if bool_decide (he_name event = "Notification")
         && bool_decide (str_field (he_payload event) "notification_type" = Some "permission_prompt")
      then
        qs ← gets ga_questions;
        let '(swallowed, qs) := suppress_permission_prompt agent qs in
        _ ← upd_questions (fun _ => qs);
        mret swallowed
      else mret false
  end.

(** The session id an event carries, when it is another. *)
Definition note_session (event : HookEvent) (r : Session) : Act unit :=
  let agent := he_agent event in
  match he_session_id event with
  | Some session =>
      if bool_decide (ss_session_id r = Some session) then mret tt
      else
        _ ← upd_sessions (alter_row (set_session_id (Some session)) agent);
        _ ← mark_dirty agent;
        upd_statuses (fun m => <[agent := set_session (Some session) (status_of agent m)]> m)
  | None => mret tt
  end.

(** What an open session's event posts. *)
Definition show_event (config : AgentConfig) (event : HookEvent) (r : Session) (tracking : Tracking) : Act unit :=
  let agent := he_agent event in
  let name := he_name event in
  if bool_decide (name = "SessionStart") then
    _ ← line agent ("session started (" +:+ default "unknown" (str_field (he_payload event) "source") +:+ ")");
    fp ← gets (fun s => ga_first_prompts s !! agent);
    match fp with
    | Some fp =>
        _ ← upd_first_prompts (delete agent);
        send_first_prompt agent (ss_installation r) (ss_repo r) (ss_number r) (ss_kind r) fp
    | None => mret tt
    end
  else if bool_decide (name = "SessionEnd") then line agent (status_line event)
  else if bool_decide (name = "Stop") then
    let message := trim (default EmptyString (str_field (he_payload event) "last_assistant_message")) in
    if is_empty message then line agent "turn finished"
    else
      _ ← post (ss_installation r) (ss_repo r) (ss_number r) message;
      when (wants config "Stop") (line agent "turn finished")
  else
    handled ← on_question_event (ss_installation r) (ss_repo r) (ss_number r) event tracking;
    when (negb handled && wants config name) (line agent (status_line event)).

Definition on_event (event : HookEvent) : Act unit :=
  let agent := he_agent event in
  c ← gets (fun s => ga_agents s !! agent);
  r ← get_row agent;
  match c, r with
  | Some config, Some r =>
      _ ← touch agent;
      now ← instant_now;
      d ← gets ga_deliveries;
      let '(outcome, d) := Delivery.on_event event now d in
      _ ← upd_deliveries (fun _ => d);
      _ ← for_each (fun s => unconfirmed s Skipped) (oc_skipped outcome);
      _ ← (match oc_confirmed outcome with
           | Some s => react (sm_installation s) (sm_repo s) (sm_target s) PLUS_ONE
           | None => mret tt
           end);
      tracking ← track_question event;
      if ss_closed r || negb (ac_enabled config) then mret tt
      else
        _ ← note_session event r;
        show_event config event r tracking
  | _, _ => mret tt
  end.

Definition on_phase (change : PhaseChange) : Act unit :=
  let agent := pc_agent change in
  c ← gets (fun s => ga_agents s !! agent);
  r ← get_row agent;
  match c, r with
  | Some config, Some _ =>
      _ ← upd_statuses (fun m => <[agent := set_phase (to_ascii_lowercase (phase_debug (pc_to change))) (status_of agent m)]> m);
      if ac_phases config then line agent (phase_message change) else mark_status agent
  | _, _ => mret tt
  end.

(** ** The tick *)

(** [now.saturating_sub(last_activity)], of an open row. *)
Definition is_stale (now idle : N) (r : Session) : bool := negb (ss_closed r) && (idle <? now - ss_last_activity r)%N.
Definition is_expired (now : N) (r : Session) : bool := ss_closed r && (CLOSED_RETENTION <? now - ss_last_activity r)%N.

Definition stop_idle : Act unit :=
  c ← cfg;
  let idle := dc_idle_timeout c in
  if (idle =? 0)%N then mret tt
  else
    now ← unix_now;
    stale ← gets (fun s => omap (fun a => r ← row a (ga_sessions s);
                                         if is_stale now idle r then Some (a, ss_installation r) else None)
                                (session_agents (ga_sessions s)));
    slug ← gets ga_slug;
    for_each (fun '(agent, installation) =>
      end_session agent installation
        ("stopped after " +:+ idle_wording idle +:+ " idle — mention @" +:+ slug +:+ " to resume")) stale.

Definition prune_row (agent : string) : Act unit :=
  res ← sessions_remove agent;
  match res with
  | Err _ => mret tt
  | Ok _ =>
      _ ← upd_statuses (delete agent);
      _ ← upd_status_dirty (delete agent);
      _ ← upd_ended_notice (fun d => d ∖ {[agent]});
      upd_rows_dirty (fun d => d ∖ {[agent]})
  end.

Definition prune_closed : Act unit :=
  now ← unix_now;
  expired ← gets (fun s => filter (fun a => match row a (ga_sessions s) with Some r => is_expired now r | None => false end = true)
                                 (session_agents (ga_sessions s)));
  for_each prune_row expired.

Definition flush_due : Act unit :=
  now ← instant_now;
  due ← gets (fun s => keys (filter (fun kv => (STATUS_COALESCE <=? now - kv.2)%N = true) (ga_status_dirty s)));
  for_each flush_status due.

(** An error is only logged: the row is no longer marked. *)
Definition write_back (agent : string) : Act unit :=
  r ← get_row agent;
  match r with
  | Some r => _ ← sessions_set agent r; mret tt
  | None => mret tt
  end.

Definition write_rows : Act unit :=
  dirty ← gets (fun s => elements (ga_rows_dirty s));
  _ ← upd_rows_dirty (fun _ => ∅);
  for_each write_back dirty.

Definition on_tick : Act unit :=
  evicted ← gets ga_unconfirmed_queue;
  _ ← modify (set_unconfirmed_queue []);
  _ ← for_each (fun '(s, why) => unconfirmed s why) evicted;
  now ← instant_now;
  d ← gets ga_deliveries;
  let '(expired, d) := expire now d in
  _ ← upd_deliveries (fun _ => d);
  _ ← for_each (fun s => unconfirmed s Expired) expired;
  now ← instant_now;
  d ← gets ga_deliveries;
  let '(quiet, d) := nudge now d in
  _ ← upd_deliveries (fun _ => d);
  _ ← for_each press_enter quiet;
  _ ← stop_idle;
  _ ← prune_closed;
  _ ← flush_due;
  write_rows.

(** ** Activation *)

(** A row the store lost, from the activation; the store may refuse it. *)
Definition rebuild_row (agent : string) (config : AgentConfig) : Act unit :=
  r ← get_row agent;
  match r, ac_kind config, ac_number config with
  | None, Some kind, Some number =>
      repo ← repo_of_fleet (fleet_of agent);
      match repo with
      | Ok (Some repo) =>
          now ← unix_now;
          _ ← sessions_set agent
                {| ss_repo := repo; ss_installation := 0; ss_kind := kind; ss_number := number; ss_head := None; ss_base := None;
                   ss_status_comment := None; ss_session_id := None; ss_last_activity := now; ss_closed := false; ss_seen := [] |};
          mret tt
      | _ => mret tt
      end
  | _, _, _ => mret tt
  end.

Definition on_activate (agent : string) (config : AgentConfig) : Act unit :=
  _ ← rebuild_row agent config;
  was ← gets (fun s => ga_agents s !! agent);
  _ ← update ga_agents set_agents <[agent := config]>;
  match was with
  | Some _ => upd_deliveries (lose_track_agent agent)
  | None => mret tt
  end.

Definition on_deactivate (agent : string) : Act unit :=
  stale ← arrived agent ExDeactivate;
  if stale : bool then mret tt
  else
    _ ← update ga_agents set_agents (delete agent);
    _ ← clear_question agent;
    _ ← upd_deliveries (fun d => (Delivery.forget agent d).2);
    _ ← upd_statuses (delete agent);
    _ ← upd_status_dirty (delete agent);
    _ ← upd_held (delete agent);
    r ← get_row agent;
    match r with
    | Some r => when (negb (ss_closed r)) (_ ← sessions_remove agent; mret tt)
    | None => mret tt
    end.

(** ** Loading *)

Fixpoint sessions_load_keys (ks : list string) (t : Sessions) : Act (result SdkError Sessions) :=
  match ks with
  | [] => mret (Ok t)
  | key :: ks =>
      match strip_prefix SESSION_PREFIX key with
      | None => sessions_load_keys ks t
      | Some agent =>
          b ← kv_get key;
          match b with
          | Err e => mret (Err e)
          | Ok None => sessions_load_keys ks t
          | Ok (Some bytes) =>
              sessions_load_keys ks (match decode_session bytes with Some r => insert_row agent r t | None => t end)
          end
      end
  end.

Definition sessions_load : Act (result SdkError Sessions) :=
  l ← kv_list SESSION_PREFIX;
  match l with
  | Err e => mret (Err e)
  | Ok ks => sessions_load_keys ks no_sessions
  end.

(** [key[QUESTION_PREFIX.len()..]] panics on a shorter key, and inside a
    character. *)
Fixpoint questions_load_keys (ks : list string) (qs : Questions) : Act (result SdkError Questions) :=
  match ks with
  | [] => mret (Ok qs)
  | key :: ks =>
      b ← kv_get key;
      match b with
      | Err e => mret (Err e)
      | Ok None => questions_load_keys ks qs
      | Ok (Some bytes) =>
          match json_parse bytes ≫= Question.parse with
          | None => questions_load_keys ks qs
          | Some list =>
              let n := String.length QUESTION_PREFIX in
              if Parts.is_char_boundary n key
              then questions_load_keys ks (<[str_drop n key := mkOpen list Open false false]> qs)
              else panic
          end
      end
  end.

Definition questions_load : Act (result SdkError Questions) :=
  l ← kv_list QUESTION_PREFIX;
  match l with
  | Err e => mret (Err e)
  | Ok ks => questions_load_keys ks ∅
  end.

(** What the store refuses is left empty. *)
Definition load : Act unit :=
  s ← sessions_load;
  _ ← (match s with Ok s => upd_sessions (fun _ => s) | Err _ => mret tt end);
  q ← questions_load;
  match q with Ok q => upd_questions (fun _ => q) | Err _ => mret tt end.

(** ** Commands *)

(** A command of a configured actor. *)
Definition dispatch (command : Command) : Act unit :=
  match command with
  | Configure _ => panic
  | Activate agent config => _ ← arrived agent ExActivate; on_activate agent config
  | Deactivate agent => on_deactivate agent
  | Events dropped events =>
      _ ← when (0 <? dropped)%N (upd_deliveries lose_track);
      for_each on_event events
  | Phases changes => for_each on_phase changes
  | Webhook ev => on_webhook ev
  | Tick => on_tick
  | ListenerFailed e => upd_faults (fault_fail FaultListener ("webhook listener: " +:+ e))
  end.

(** [handle]: the buffered commands follow their [Configure]. They are no
    [Configure] themselves, so one level of replay is all there is; deeper
    ones, which do not happen, are a panic. *)
Fixpoint handle_from (fuel : nat) (command : Command) : Act unit :=
  match command with
  | Configure config =>
      _ ← modify (set_config (Some config));
      buffered ← gets ga_pending_commands;
      _ ← modify (set_pending_commands []);
      match fuel with
      | 0 => panic
      | S fuel => for_each (handle_from fuel) buffered
      end
  | _ =>
      c ← gets ga_config;
      match c with
      | None => update ga_pending_commands set_pending_commands (fun l => l ++ [command])
      | Some _ => dispatch command
      end
  end.
Definition handle : Command -> Act unit := handle_from 1.

(** A round of [run]: the gap is taken before the command in hand. *)
Definition turn (gap : bool) (command : Command) : Act unit :=
  _ ← when gap (upd_deliveries lose_track);
  handle command.
End actor.

(** The lanes of the actor's queue. *)
#[export] Instance command_laned : Queue.Laned Command := {
  Queue.lane c :=
    match c with
    | Configure _ | Activate _ _ | Deactivate _ | ListenerFailed _ => Queue.Control
    | Webhook _ => Queue.Inbound
    | Events _ _ | Phases _ => Queue.Lossy
    | Tick => Queue.Latest
    end;
  Queue.bytes c := match c with Webhook ev => N.of_nat (event_bytes ev) | _ => 0%N end;
}.

(** A round: what the queue gives, and its gap. *)
Definition run_turn `{!Env Call, !Unicode, !Letters, !Yaml, !JsonText, !RowCodec} (q : Queue.Lanes Command)
    : Task Call Actor (Queue.Lanes Command) :=
  let '(c, q) := Queue.try_pop q in
  match c with
  | None => mret q
  | Some c => let '(gap, q) := Queue.take_gap q in _ ← turn gap c; mret q
  end.
