(* ===== verification/GhSafety.v ===== *)
(** What the github actor keeps: whatever the daemon, GitHub and the clocks
    answer, no command panics a configured actor, its reverse map follows its
    rows, its questions can be answered and its permission cache holds only what
    GitHub answered. *)

From S2P Require Import Prelude Str BTree Rules Json Bytes Text Delivery Question Answer Render PluginConfig.
From S2P Require Import GitHub Webhook GhSession Talk Sdk Fits GhActor.
From S2P Require Parts Queue.

(** ** The invariant *)

Section safety.
Context `{!Env Call, !Unicode, !Letters, !Yaml, !JsonText, !RowCodec}.

Notation Log := (list (Event Call)).

Definition buffered (c : Command) : Prop := forall config, c <> Configure config.

(** A confirm window with room for the first prompt's allowance. *)
Definition window_fits (c : AgentConfig) : Prop := (ac_confirm_window c + START_UP_ALLOWANCE <= DURATION_MAX)%N.
Definition windows_fit (s : Actor) : Prop := map_Forall (fun _ => window_fits) (ga_agents s).
Definition fitting (c : Command) : Prop := match c with Activate _ config => window_fits config | _ => True end.

(** The permission an answer stands for. *)
Definition role_of (r : result GitHubError Permission) : option Permission :=
  match r with Ok p => Some p | Err NotFound => Some PNone | Err _ => None end.

(** GitHub answered [p] after the clock said [until - PERMISSION_TTL]. *)
Definition answered (repo login : string) (p : Permission) (until : N) (log : Log) : Prop :=
  exists installation r now l1 l2,
    log = l1 ++ Did (GetPermission installation repo login) r :: l2 /\ role_of r = Some p /\
    Did Now now ∈ l2 /\ until = (now + PERMISSION_TTL)%N.

Record actor_ok (configured : bool) (w : World Call Actor) : Prop := {
  ok_config : configured = true -> is_Some (ga_config w.1);
  ok_pending : Forall (fun c => buffered c /\ fitting c) (ga_pending_commands w.1);
  ok_sessions : sessions_ok (ga_sessions w.1);
  ok_questions : map_Forall (fun _ o => fits o) (ga_questions w.1);
  ok_permissions : forall repo login p until,
    ga_permissions w.1 !! (repo, login) = Some (p, until) -> answered repo login p until w.2;
  ok_windows : windows_fit w.1;
}.

Lemma answered_app repo login p until l log : answered repo login p until log -> answered repo login p until (l ++ log).
Proof.
  intros (i & r & now & l1 & l2 & -> & Hrest). exists i, r, now, (l ++ l1), l2. by rewrite <- app_assoc.
Qed.

Lemma actor_ok_grows b s log (e : Event Call) : actor_ok b (s, log) -> actor_ok b (s, e :: log).
Proof. intros [? ? ? ? Hp ?]. split; try done. intros. apply (answered_app _ _ _ _ [e]). by apply Hp. Qed.

(** ** Tasks away from the core *)

(** An update of nothing but posting, delivery and status state. *)
Record same_core (f : Actor -> Actor) : Prop := {
  sc_config s : ga_config (f s) = ga_config s;
  sc_slug s : ga_slug (f s) = ga_slug s;
  sc_pending s : ga_pending_commands (f s) = ga_pending_commands s;
  sc_sessions s : ga_sessions (f s) = ga_sessions s;
  sc_questions s : ga_questions (f s) = ga_questions s;
  sc_permissions s : ga_permissions (f s) = ga_permissions s;
  sc_agents s : ga_agents (f s) = ga_agents s;
}.

(** A prompt, keys or a fleet. *)
Definition acts (e : Event Call) : bool :=
  match e with Did (DoAction _ _) _ | Did (ApplyFleet _ _) _ => true | _ => false end.
Definition quiet (c : Call) : Prop := forall a, acts (Did c a) = false.

(** An invariant of a configured actor's core, whatever else happens; [loud]
    when acting does not break it either. *)
Definition loud (I : World Call Actor -> Prop) : Prop := forall s log e, I (s, log) -> I (s, e :: log).
Record core (I : World Call Actor -> Prop) : Prop := {
  core_grows s log e : acts e = false -> I (s, log) -> I (s, e :: log);
  core_same f s log : same_core f -> I (s, log) -> I (f s, log);
  core_config w : I w -> is_Some (ga_config w.1);
  core_windows w : I w -> windows_fit w.1;
}.

Section core.
Context (I : World Call Actor -> Prop) (HI : core I).
Notation ok := (keeps I).

Lemma ok_call c : quiet c -> ok (call c).
Proof.
  intros Hc [s log] Hw _. eexists _, _. split; [done|]. split; [by apply HI|]. split; [by eexists [_]|done].
Qed.
Lemma ok_act c : loud I -> ok (call c).
Proof. intros Hl. apply keeps_call. intros s log e. apply Hl. Qed.
Lemma ok_modify f : same_core f -> ok (modify f).
Proof. intros Hf. apply keeps_modify. intros s log. by apply HI. Qed.
Lemma ok_cfg : ok cfg.
Proof.
  eapply keeps_bind_post; [apply safe_gets|]. intros c w Hw [_ ->]. destruct (core_config I HI w Hw) as [c Hc].
  rewrite Hc. exists c, w. split; [done|]. split; [done|]. split; [apply later_refl|done].
Qed.
End core.
End safety.

#[export] Hint Resolve ok_modify ok_cfg : keeps.
#[export] Hint Extern 1 (same_core _) => by split : keeps.
#[export] Hint Extern 1 (_ <= START_UP_ALLOWANCE)%N => by vm_compute : keeps.
Section quiet.
Context `{!Env Call, !Unicode, !Letters, !Yaml, !JsonText, !RowCodec}.
Context (I : World Call Actor -> Prop) (HI : core I) (HA : loud I).
Notation ok := (keeps I).

Lemma ok_upd_deliveries f : ok (upd_deliveries f).
Proof. apply ok_modify; [done|by split]. Qed.
Lemma ok_upd_statuses f : ok (upd_statuses f).
Proof. apply ok_modify; [done|by split]. Qed.
Lemma ok_upd_status_dirty f : ok (upd_status_dirty f).
Proof. apply ok_modify; [done|by split]. Qed.
Lemma ok_upd_rows_dirty f : ok (upd_rows_dirty f).
Proof. apply ok_modify; [done|by split]. Qed.
Lemma ok_upd_held f : ok (upd_held f).
Proof. apply ok_modify; [done|by split]. Qed.
Lemma ok_upd_ended_notice f : ok (upd_ended_notice f).
Proof. apply ok_modify; [done|by split]. Qed.
Lemma ok_upd_first_prompts f : ok (upd_first_prompts f).
Proof. apply ok_modify; [done|by split]. Qed.
Lemma ok_upd_expected f : ok (upd_expected f).
Proof. apply ok_modify; [done|by split]. Qed.
Lemma ok_upd_crew_notices f : ok (upd_crew_notices f).
Proof. apply ok_modify; [done|by split]. Qed.
Lemma ok_upd_faults f : ok (upd_faults f).
Proof. apply ok_modify; [done|by split]. Qed.
Lemma ok_unconfirmed_later m : ok (unconfirmed_later m).
Proof. apply ok_modify; [done|by split]. Qed.
#[local] Hint Resolve ok_upd_deliveries ok_upd_statuses ok_upd_status_dirty ok_upd_rows_dirty ok_upd_held ok_upd_ended_notice
  ok_upd_first_prompts ok_upd_expected ok_upd_crew_notices ok_upd_faults ok_unconfirmed_later HI HA : keeps.

Lemma ok_kv_list prefix : ok (kv_list prefix).
Proof. exact (ok_call I HI (KvList prefix) (fun _ => eq_refl)). Qed.
Lemma ok_kv_get key : ok (kv_get key).
Proof. exact (ok_call I HI (KvGet key) (fun _ => eq_refl)). Qed.
Lemma ok_kv_put key b : ok (kv_put key b).
Proof. exact (ok_call I HI (KvPut key b) (fun _ => eq_refl)). Qed.
Lemma ok_kv_delete key : ok (kv_delete key).
Proof. exact (ok_call I HI (KvDelete key) (fun _ => eq_refl)). Qed.
Lemma ok_host_action agent a : ok (host_action agent a).
Proof. exact (ok_act I (DoAction agent a) HA). Qed.
Lemma ok_apply_fleet fleet file : ok (apply_fleet fleet file).
Proof. exact (ok_act I (ApplyFleet fleet file) HA). Qed.
Lemma ok_default_branch i repo : ok (default_branch i repo).
Proof. exact (ok_call I HI (DefaultBranch i repo) (fun _ => eq_refl)). Qed.
Lemma ok_read_file i repo path git_ref : ok (read_file i repo path git_ref).
Proof. exact (ok_call I HI (ReadFile i repo path git_ref) (fun _ => eq_refl)). Qed.
Lemma ok_permission i repo login : ok (permission i repo login).
Proof. exact (ok_call I HI (GetPermission i repo login) (fun _ => eq_refl)). Qed.
Lemma ok_comment i repo n body : ok (comment i repo n body).
Proof. exact (ok_call I HI (PostComment i repo n body) (fun _ => eq_refl)). Qed.
Lemma ok_edit_comment i repo id body : ok (edit_comment i repo id body).
Proof. exact (ok_call I HI (EditComment i repo id body) (fun _ => eq_refl)). Qed.
Lemma ok_port_react i repo target content : ok (port_react i repo target content).
Proof. exact (ok_call I HI (React i repo target content) (fun _ => eq_refl)). Qed.
Lemma ok_review_comments i repo n id : ok (review_comments i repo n id).
Proof. exact (ok_call I HI (GetReview i repo n id) (fun _ => eq_refl)). Qed.
Lemma ok_issue i repo n : ok (issue i repo n).
Proof. exact (ok_call I HI (GetIssue i repo n) (fun _ => eq_refl)). Qed.
Lemma ok_instant_now : ok instant_now.
Proof. exact (ok_call I HI (Now) (fun _ => eq_refl)). Qed.
Lemma ok_unix_now : ok (unix_now).
Proof. exact (ok_call I HI (UnixSecs) (fun _ => eq_refl)). Qed.
Lemma ok_sleep ms : ok (sleep ms).
Proof. exact (ok_call I HI (Sleep ms) (fun _ => eq_refl)). Qed.
#[local] Hint Resolve ok_kv_list ok_kv_get ok_kv_put ok_kv_delete ok_host_action ok_apply_fleet ok_default_branch ok_read_file ok_permission ok_comment ok_edit_comment ok_port_react ok_review_comments ok_issue ok_instant_now ok_unix_now ok_sleep : keeps.

Lemma ok_retry_once {A} (m : Task Call Actor (result GitHubError A)) : ok m -> ok (retry_once m).
Proof. intros Hm. unfold retry_once. keep. Qed.
Lemma ok_github_failed e : ok (github_failed e).
Proof. unfold github_failed. keep. Qed.
#[local] Hint Resolve ok_retry_once ok_github_failed : keeps.

Lemma ok_post_parts i repo n parts first : ok (post_parts i repo n parts first).
Proof. revert first. induction parts as [|p parts IH]; intros first; cbn [post_parts]; keep. Qed.
#[local] Hint Resolve ok_post_parts : keeps.
Lemma ok_post i repo n body : ok (post i repo n body).
Proof. unfold post. keep. Qed.
Lemma ok_react i repo target content : ok (react i repo target content).
Proof. unfold react. keep. Qed.
Lemma ok_get_row agent : ok (get_row agent).
Proof. apply keeps_gets. Qed.
Lemma ok_agent_of repo n : ok (agent_of repo n).
Proof. apply keeps_gets. Qed.
Lemma ok_redelivered repo n id : ok (redelivered repo n id).
Proof. apply keeps_gets. Qed.
Lemma ok_question_open agent : ok (question_open agent).
Proof. apply keeps_gets. Qed.
Lemma ok_mark_dirty agent : ok (mark_dirty agent).
Proof. apply ok_upd_rows_dirty. Qed.
#[local] Hint Resolve ok_post ok_react ok_get_row ok_agent_of ok_redelivered ok_question_open ok_mark_dirty : keeps.

Lemma ok_mark_status agent : ok (mark_status agent).
Proof. unfold mark_status. keep. Qed.
#[local] Hint Resolve ok_mark_status : keeps.
Lemma ok_line agent text : ok (line agent text).
Proof. unfold line. keep. Qed.
#[local] Hint Resolve ok_line : keeps.
Lemma ok_track agent i repo n asker target body allowance : (allowance <= START_UP_ALLOWANCE)%N ->
  ok (track agent i repo n asker target body allowance).
Proof.
  intros Ha. unfold track. destruct (classify body); [|apply keeps_ret]. unfold window_of.
  eapply keeps_bind_post; [apply safe_gets|]. intros w.
  apply (safe_conseq I (fun _ => (w + START_UP_ALLOWANCE <= DURATION_MAX)%N /\ True) _ _ (fun _ _ => True)); [| |done].
  - apply safe_pure. intros Hw. apply safe_keeps. unfold duration_add.
    replace (w + allowance <=? DURATION_MAX)%N with true by (symmetry; apply N.leb_le; lia). keep.
  - intros [s log] Hw [_ ->]. split; [|done]. pose proof (core_windows I HI _ Hw) as Hfit. simpl in *.
    destruct (ga_agents s !! agent) as [c|] eqn:Hc; [exact (Hfit agent c Hc)|]. by vm_compute.
Qed.
Lemma ok_press_enter agent : ok (press_enter agent).
Proof. unfold press_enter, key_delay_of. keep. Qed.
Lemma ok_unconfirmed m why : ok (unconfirmed m why).
Proof. unfold unconfirmed. keep. Qed.
Lemma ok_deliver_review agent reviewer message : ok (deliver_review agent reviewer message).
Proof. unfold deliver_review. keep. Qed.
#[local] Hint Resolve ok_deliver_review : keeps.
Lemma ok_release_held agent : ok (release_held agent).
Proof. unfold release_held. keep. Qed.
Lemma ok_expect agent c : ok (expect agent c).
Proof. apply ok_upd_expected. Qed.
Lemma ok_arrived agent c : ok (arrived agent c).
Proof. unfold arrived. keep. Qed.
Lemma ok_refuse i repo n target m : ok (refuse i repo n target m).
Proof. unfold refuse. keep. Qed.
Lemma ok_repo_of_fleet fleet : ok (repo_of_fleet fleet).
Proof. unfold repo_of_fleet. keep. Qed.
#[local] Hint Resolve ok_refuse ok_repo_of_fleet ok_expect : keeps.
Lemma ok_start_allowed i repo n pr target : ok (start_allowed i repo n pr target).
Proof. unfold start_allowed. keep. Qed.
Lemma ok_start_file i repo kind n pr target : ok (start_file i repo kind n pr target).
Proof. unfold start_file. keep. Qed.
Lemma ok_crew_notice i repo n fleet declared crew : ok (crew_notice i repo n fleet declared crew).
Proof. unfold crew_notice. keep. Qed.
Lemma ok_start_status i repo n agent p : ok (start_status i repo n agent p).
Proof. unfold start_status. keep. Qed.
Lemma ok_on_ended agent i repo n id : ok (on_ended agent i repo n id).
Proof. unfold on_ended. keep. Qed.
Lemma ok_send_first_prompt agent i repo n kind fp : ok (send_first_prompt agent i repo n kind fp).
Proof. pose proof ok_track. unfold send_first_prompt. keep. Qed.
End quiet.

#[export] Hint Resolve ok_upd_deliveries ok_upd_statuses ok_upd_status_dirty ok_upd_rows_dirty ok_upd_held ok_upd_ended_notice
  ok_upd_first_prompts ok_upd_expected ok_upd_crew_notices ok_upd_faults ok_unconfirmed_later 
  ok_kv_list ok_kv_get ok_kv_put ok_kv_delete ok_host_action ok_apply_fleet ok_default_branch ok_read_file ok_permission ok_comment ok_edit_comment ok_port_react ok_review_comments ok_issue ok_instant_now ok_unix_now ok_sleep
  ok_retry_once ok_github_failed ok_post
  ok_react ok_get_row ok_agent_of ok_redelivered ok_question_open ok_mark_dirty ok_mark_status ok_line ok_track ok_press_enter
  ok_unconfirmed ok_deliver_review ok_release_held ok_expect ok_arrived ok_refuse ok_repo_of_fleet ok_start_allowed
  ok_start_file ok_crew_notice ok_start_status ok_on_ended ok_send_first_prompt : keeps.

(** ** Who is heard *)

Section heard.
Context `{!Env Call, !Unicode, !Letters, !Yaml, !JsonText, !RowCodec}.
Notation I := (actor_ok true).


(** After the calls [l] made since [log], of which one read the clock: a person
    that GitHub said may prompt, and said so less than [PERMISSION_TTL] before
    that reading. *)
Definition granted (slug repo : string) (author : Author) (l log : list (Event Call)) : Prop :=
  au_bot author = false /\ is_app slug (au_login author) = false /\
  exists p until now, answered repo (au_login author) p until (l ++ log) /\ may_prompt p = true /\
    Did Now now ∈ l /\ (now < until)%N.

Lemma retry_permission i repo login s log :
  exists r l, retry_once (permission i repo login) (s, log) = Some (r, (s, Did (GetPermission i repo login) r :: l ++ log)) /\
    Forall (fun e => acts e = false) l.
Proof.
  unfold retry_once, permission, sleep, call, mbind, task_bind, mret, task_ret.
  destruct (ask log (GetPermission i repo login)) as [p|e] eqn:Ha; [by exists (Ok p), []|].
  destruct e as [ms|m| |m]; [|by exists (Err (Auth m)), []|by exists (Err NotFound), []|by exists (Err (Other m)), []].
  cbn [mbind option_bind]. destruct (MAX_INLINE_RETRY <? ms)%N; [by exists (Err (RateLimited ms)), []|].
  eexists _, [_; _]. split; [done|]. by repeat constructor.
Qed.

Lemma permitted_run i repo author w : I w ->
  exists b w' l, permitted i repo author w = Some (b, w') /\ I w' /\ w'.2 = l ++ w.2 /\
    Forall (fun e => acts e = false) l /\ ga_sessions w'.1 = ga_sessions w.1 /\ (b = true -> granted (ga_slug w.1) repo author l w.2).
Proof.
  destruct w as [s log]. intros Hw. unfold permitted. erewrite run_bind by reflexivity. cbn [fst snd].
  destruct (au_bot author) eqn:Hbot; cbn [orb]; [by exists false, (s, log), []|].
  destruct (is_app (ga_slug s) (au_login author)) eqn:Happ; [by exists false, (s, log), []|].
  erewrite run_bind by reflexivity. set (now := ask log Now : N).
  assert (I (s, Did Now now :: log)) as Hnow by by apply actor_ok_grows.
  erewrite run_bind by reflexivity. cbn [fst snd].
  destruct (match ga_permissions s !! (repo, au_login author) with
            | Some (p, until) => if (now <? until)%N then Some p else None | None => None end) as [p|] eqn:Hc.
  { destruct (ga_permissions s !! (repo, au_login author)) as [[p' until]|] eqn:Hcache; [|done].
    destruct (now <? until)%N eqn:Hlt; [|done]. injection Hc as ->.
    exists (may_prompt p), (s, Did Now now :: log), [Did Now now]. split; [done|]. split; [done|]. split; [done|].
    split; [by repeat constructor|]. split; [done|]. intros Hmay. split; [done|]. split; [done|]. exists p, until, now.
    split; [by apply (ok_permissions _ _ Hnow)|]. split; [done|]. split; [by apply list_elem_of_singleton|by apply N.ltb_lt]. }
  destruct (retry_permission i repo (au_login author) s (Did Now now :: log)) as (r & l & Hr & Hl).
  rewrite (run_bind _ _ _ _ _ Hr). set (log' := Did (GetPermission i repo (au_login author)) r :: l ++ Did Now now :: log).
  assert (I (s, log')) as Hlog'.
  { unfold log'. apply actor_ok_grows. clear -Hnow. induction l as [|e l IH]; [done|]. by apply actor_ok_grows. }
  assert (log' = (Did (GetPermission i repo (au_login author)) r :: l ++ [Did Now now]) ++ log) as Hl'.
  { unfold log'. simpl. by rewrite <- app_assoc. }
  assert (Forall (fun e => acts e = false) (Did (GetPermission i repo (au_login author)) r :: l ++ [Did Now now])) as Hquiet.
  { constructor; [done|]. apply Forall_app. split; [done|]. by repeat constructor. }
  assert (forall p, role_of r = Some p -> answered repo (au_login author) p (now + PERMISSION_TTL) log') as Hans.
  { intros p Hp. exists i, r, now, [], (l ++ Did Now now :: log). split; [done|]. split; [done|]. split; [|done]. set_solver. }
  destruct (role_of r) as [p|] eqn:Hrole.
  - replace (match r with Ok p => Ok p | Err NotFound => Ok PNone | Err e => Err e end) with (Ok p : result GitHubError Permission)
      by (destruct r as [?|[]]; simpl in Hrole; congruence).
    set (s' := set_permissions (<[(repo, au_login author) := (p, (now + PERMISSION_TTL)%N)]> (ga_permissions s)) s).
    exists (may_prompt p), (s', log'). eexists. split; [done|]. split.
    { destruct Hlog' as [? ? ? ? Hp ?]. split; try done. intros repo' login' p' until' Hlook. simpl in Hlook.
      destruct (decide ((repo', login') = (repo, au_login author))) as [[= -> ->]|Hne].
      - rewrite lookup_insert_eq in Hlook. injection Hlook as <- <-. by apply Hans.
      - rewrite lookup_insert_ne in Hlook by done. by apply Hp. }
    split; [exact Hl'|]. split; [exact Hquiet|]. split; [done|]. intros Hmay. split; [done|]. split; [done|].
    exists p, (now + PERMISSION_TTL)%N, now. split; [simpl in Hl' |- *; rewrite <- Hl'; by apply Hans|]. split; [done|].
    split; [set_solver|]. unfold PERMISSION_TTL, secs. lia.
  - assert (exists s', (match r with Ok p => Ok p | Err NotFound => Ok PNone | Err e => Err e end : result GitHubError Permission)
        = match r with Err e => Err e | Ok p => Ok p end /\
      exists e, r = Err e /\ github_failed e (s, log') = Some (tt, (s', log')) /\ I (s', log') /\ ga_sessions s' = ga_sessions s)
      as (s' & -> & e & -> & He & Hs' & Hsess).
    { destruct r as [p|[ms|m| |m]]; try done; eexists; (split; [done|]); eexists; (split; [done|]); (split; [done|]); (split; [|done]); try done.
      by destruct Hlog'. }
    rewrite (run_bind _ _ _ _ _ He). exists false, (s', log'). eexists. split; [done|]. split; [done|]. by split; [exact Hl'|].
Qed.

End heard.

(** ** The actor's own state *)

(** What a write of a row leaves of what the row it replaces has seen: all of it
    and perhaps one id more, of those that may be noted. *)
Definition derived (X : GhSession.Seen -> Prop) (t : Sessions) (agent : string) (r : Session) : Prop :=
  forall r0, row agent t = Some r0 ->
    ss_seen r = ss_seen r0 \/ exists id, X id /\ ss_seen r = ss_seen (see id r0).2.

(** The invariant with a fact about the rows and the history, [X] being the ids
    that may be noted. *)
Section actor_ok.
Context `{!Env Call, !Unicode, !Letters, !Yaml, !JsonText, !RowCodec}.
Context (X : GhSession.Seen -> Prop) (L : Sessions -> list (Event Call) -> Prop).
Notation I := (fun w : World Call Actor => actor_ok true w /\ L (ga_sessions w.1) w.2).
Notation ok := (keeps I).

(** An assignment to a row that changes neither its number nor what it has seen. *)
Definition minor (f : Session -> Session) : Prop := forall r,
  ss_repo (f r) = ss_repo r /\ ss_number (f r) = ss_number r /\ ss_seen (f r) = ss_seen r.
Lemma minor_number f : minor f -> keeps_number f.
Proof. intros Hf r. by destruct (Hf r) as (? & ? & _). Qed.

Context (L_grows : forall t log e, acts e = false -> L t log -> L t (e :: log)).
Context (L_acts : forall t log e, L t log -> L t (e :: log)).
Context (L_insert : forall t log agent r, derived X t agent r -> L t log -> L (insert_row agent r t) log).
Context (L_remove : forall t log agent a, L t log -> L (remove_row agent t) (Did (KvDelete (session_key agent)) a :: log)).
Context (L_minor : forall t log f agent, minor f -> L t log -> L (alter_row f agent t) log).
Context (L_see : forall t log id agent, X id -> L t log -> L (alter_row (fun r => (see id r).2) agent t) log).

Lemma actor_core : core I.
Proof.
  split.
  - intros s log e He [Hw HL]. split; [by apply actor_ok_grows|by apply L_grows].
  - intros f s log [Ec _ Ep Es Eq El Ea] [[? ? ? ? ? ?] HL]. split; simpl in *; [|by rewrite Es].
    split; simpl; [by rewrite Ec|by rewrite Ep|by rewrite Es|by rewrite Eq| |by unfold windows_fit; rewrite Ea]. rewrite El. done.
  - intros w [Hw _]. by apply (ok_config _ _ Hw).
  - intros w [Hw _]. apply (ok_windows _ _ Hw).
Qed.
Lemma actor_loud : loud I.
Proof. intros s log e [Hw HL]. split; [by apply actor_ok_grows|by apply L_acts]. Qed.
#[local] Hint Resolve actor_core actor_loud : keeps.

Lemma ok_upd_sessions f : (forall t, sessions_ok t -> sessions_ok (f t)) -> (forall t log, L t log -> L (f t) log) ->
  ok (upd_sessions f).
Proof. intros Hf HL. apply keeps_modify. intros s log [[? ? ? ? ? ?] HLs]. split; [split; try done; by apply Hf|by apply HL]. Qed.
Lemma ok_minor f agent : minor f -> ok (upd_sessions (alter_row f agent)).
Proof. intros Hf. apply ok_upd_sessions; intros t; [by apply alter_row_ok, minor_number|intros log; by apply L_minor]. Qed.
Lemma ok_see id agent : X id -> ok (upd_sessions (alter_row (fun r => (see id r).2) agent)).
Proof. intros Hid. apply ok_upd_sessions; intros t; [by apply alter_row_ok, see_number|intros log; by apply L_see]. Qed.
Lemma ok_upd_agents f : (forall m : gmap string AgentConfig, map_Forall (fun _ => window_fits) m -> map_Forall (fun _ => window_fits) (f m)) ->
  ok (update ga_agents set_agents f).
Proof. intros Hf. apply keeps_modify. intros s log [[? ? ? ? ? ?] HLs]. split; [split; try done; by apply Hf|done]. Qed.
Lemma ok_upd_questions f :
  (forall qs : Questions, map_Forall (fun _ o => fits o) qs -> map_Forall (fun _ o => fits o) (f qs)) -> ok (upd_questions f).
Proof. intros Hf. apply keeps_modify. intros s log [[? ? ? ? ? ?] HL]. split; [split; try done; by apply Hf|done]. Qed.
#[local] Hint Resolve ok_minor ok_see : keeps.
#[local] Hint Extern 1 (minor _) => done : keeps.

(** *** At given rows *)

Definition at_rows (t : Sessions) (w : World Call Actor) : Prop := ga_sessions w.1 = t.

Lemma at_core t : core (fun w => I w /\ at_rows t w).
Proof.
  split.
  - intros s log e He [Hw Ht]. split; [by apply actor_core|done].
  - intros f s log Hf [Hw Ht]. split; [by apply (core_same I actor_core f)|]. unfold at_rows in *. simpl in *.
    by rewrite (sc_sessions f Hf).
  - intros w [Hw _]. by apply (core_config I actor_core).
  - intros w [Hw _]. by apply (core_windows I actor_core).
Qed.
Lemma at_loud t : loud (fun w => I w /\ at_rows t w).
Proof. intros s log e [Hw Ht]. split; [by apply actor_loud|done]. Qed.
#[local] Hint Resolve at_core at_loud : keeps.

Lemma keeps_at {A} (m : Task Call Actor A) : (forall t, safe I (at_rows t) m (fun _ _ => True)) -> ok m.
Proof. intros Hm w Hw _. by apply (Hm (ga_sessions w.1) w Hw). Qed.
Lemma safe_at {A B} t (m : Task Call Actor A) (k : A -> Task Call Actor B) Q :
  keeps (fun w => I w /\ at_rows t w) m -> (forall a, safe I (at_rows t) (k a) Q) -> safe I (at_rows t) (m ≫= k) Q.
Proof. apply safe_under. Qed.
Lemma safe_at_row {B} t agent (k : option Session -> Task Call Actor B) Q :
  safe I (at_rows t) (k (row agent t)) Q -> safe I (at_rows t) (get_row agent ≫= k) Q.
Proof. intros Hk w Hw Ht. unfold get_row. erewrite run_bind by reflexivity. rewrite Ht. by apply Hk. Qed.

Lemma sessions_set_at t agent r : derived X t agent r -> safe I (at_rows t) (sessions_set agent r) (fun _ _ => True).
Proof.
  intros Hr. unfold sessions_set. destruct (encode_session r) as [bytes|e]; [|by apply safe_ret].
  apply safe_at; [keep|]. intros [u|e]; [|by apply safe_ret].
  eapply (safe_bind I _ _ (fun _ _ => True)); [|intros ?; by apply safe_ret].
  apply safe_modify. intros [s log] [[? ? ? ? ? ?] HL] Ht. unfold at_rows in Ht. simpl in *. split; [|done]. split.
  - split; try done. by apply insert_row_ok.
  - simpl. apply L_insert; [by rewrite Ht|done].
Qed.
Lemma ok_sessions_remove agent : ok (sessions_remove agent).
Proof.
  intros [s log] [Hw HL] _. unfold sessions_remove, kv_delete, call. erewrite run_bind by reflexivity.
  assert (actor_ok true (s, Did (KvDelete (session_key agent)) (ask log (KvDelete (session_key agent))) :: log)) as Hw'
    by by apply actor_ok_grows.
  set (a := ask log (KvDelete (session_key agent))) in *. eassert (later (s, log) (_, Did (KvDelete (session_key agent)) a :: log)) as Hlater
    by by exists [Did (KvDelete (session_key agent)) a].
  destruct a as [u|e] eqn:Ha; (eexists _, _; split; [reflexivity|]); split_and!; try done; try (by eexists [_]).
  - destruct Hw' as [? ? ? ? ? ?]. split; try done. by apply remove_row_ok.
  - by apply L_remove.
  - by apply L_grows.
Qed.
#[local] Hint Resolve ok_sessions_remove : keeps.
Lemma ok_touch agent : ok (touch agent).
Proof. unfold touch. keep. Qed.
Lemma ok_refresh_installation agent i : ok (refresh_installation agent i).
Proof. unfold refresh_installation. keep. Qed.
Lemma ok_remember agent id : X id -> ok (remember agent id).
Proof.
  intros Hid. apply keeps_at. intros t. unfold remember. apply safe_at_row.
  destruct (row agent t) as [r|] eqn:Hr; [|by apply safe_ret].
  destruct (see id r) as [new r'] eqn:Hsee. destruct (negb new); [by apply safe_ret|].
  eapply safe_bind; [apply sessions_set_at|intros ?; apply safe_keeps; keep].
  intros r0 Hr0. rewrite Hr in Hr0. injection Hr0 as <-. right. exists id. by rewrite Hsee.
Qed.
Lemma ok_repost_status agent r body : ok (repost_status agent r body).
Proof. unfold repost_status. keep. Qed.
#[local] Hint Resolve ok_touch ok_refresh_installation ok_remember ok_repost_status : keeps.
Lemma ok_flush_status agent : ok (flush_status agent).
Proof. unfold flush_status. keep. Qed.
Lemma ok_drop_prior p : ok (drop_prior p).
Proof. unfold drop_prior. keep. Qed.
#[local] Hint Resolve ok_flush_status ok_drop_prior : keeps.

(** The id a start notes. *)
Definition target_seen (target : Target) : GhSession.Seen := match target with TComment id => SeenComment id | TIssue _ => SeenOpening end.

Lemma started_at t i repo kind n asker title body url pr target quoted fleet crew branch agent :
  X (target_seen target) ->
  safe I (at_rows t) (started i repo kind n asker title body url pr target quoted fleet crew branch agent (prior_of agent repo n t))
    (fun _ _ => True).
Proof.
  intros Hid. unfold started. do 3 (apply safe_at; [keep|intros ?]). apply safe_at; [by apply ok_start_status, at_core|intros status].
  apply safe_at; [keep|intros now].
  eapply (safe_bind I _ _ (fun _ _ => True)); [|intros ?; apply safe_keeps; keep].
  apply sessions_set_at. intros r0 Hr0. right. exists (target_seen target). split; [done|].
  unfold prior_of. cbn [pr_seen]. rewrite Hr0.
  replace (match Some r0 ∪ _ with Some r => ss_seen r | None => [] end) with (ss_seen r0) by by destruct (_ ≫= _).
  fold (target_seen target). unfold see, has_seen. simpl. by case_bool_decide.
Qed.
Lemma ok_prior {B} agent repo n (k : Prior -> Task Call Actor B) :
  (forall t, safe I (at_rows t) (k (prior_of agent repo n t)) (fun _ _ => True)) ->
  ok (p ← gets (fun s => prior_of agent repo n (ga_sessions s)); k p).
Proof. intros Hk. apply keeps_at. intros t w Hw Ht. erewrite run_bind by reflexivity. rewrite Ht. by apply Hk. Qed.

Lemma ok_start i repo kind n asker title body url pr target quoted : X (target_seen target) ->
  ok (start i repo kind n asker title body url pr target quoted).
Proof.
  intros Hid. unfold start.
  repeat first [apply ok_prior; intros t | solve [eauto with keeps nocore] | progress cbv beta zeta | keep_step].
  apply safe_at; [by apply ok_apply_fleet, at_loud|]. intros [u|e]; [by apply started_at|apply safe_keeps; keep].
Qed.
Lemma ok_write_closed agent now : ok (write_closed agent now).
Proof.
  apply keeps_at. intros t. unfold write_closed. apply safe_at_row.
  destruct (row agent t) as [r|] eqn:Hr; [|by apply safe_ret]. apply safe_at; [keep|intros ?].
  eapply (safe_bind I _ _ (fun _ _ => True)); [|intros ?; apply safe_keeps; keep]. apply sessions_set_at.
  intros r0 Hr0. rewrite Hr in Hr0. injection Hr0 as <-. by left.
Qed.
Lemma ok_refile_failed agent r m : ok (refile_failed agent r m).
Proof. unfold refile_failed. keep. Qed.
#[local] Hint Resolve ok_start ok_write_closed ok_refile_failed : keeps.
Lemma ok_refile agent i r : ok (refile agent i r).
Proof. unfold refile. keep. Qed.
#[local] Hint Resolve ok_refile : keeps.
Lemma ok_note_session event r : ok (note_session event r).
Proof. unfold note_session. keep. Qed.
Lemma ok_prune_row agent : ok (prune_row agent).
Proof. unfold prune_row. keep. Qed.
Lemma ok_write_back agent : ok (write_back agent).
Proof.
  apply keeps_at. intros t. unfold write_back. apply safe_at_row.
  destruct (row agent t) as [r|] eqn:Hr; [|by apply safe_ret].
  eapply (safe_bind I _ _ (fun _ _ => True)); [|intros ?; by apply safe_ret]. apply sessions_set_at.
  intros r0 Hr0. rewrite Hr in Hr0. injection Hr0 as <-. by left.
Qed.
Lemma ok_rebuild_row agent config : ok (rebuild_row agent config).
Proof.
  apply keeps_at. intros t. unfold rebuild_row. apply safe_at_row.
  destruct (row agent t) as [r|] eqn:Hr; [by apply safe_ret|].
  destruct (ac_kind config) as [kind|]; [|by apply safe_ret]. destruct (ac_number config) as [n|]; [|by apply safe_ret].
  apply safe_at; [keep|]. intros [[repo|]|e]; try by apply safe_ret. apply safe_at; [keep|intros now].
  eapply (safe_bind I _ _ (fun _ _ => True)); [|intros ?; by apply safe_ret]. apply sessions_set_at.
  intros r0 Hr0. congruence.
Qed.
#[local] Hint Resolve ok_note_session ok_prune_row ok_write_back ok_rebuild_row ok_write_closed : keeps.

(** *** Questions *)

Lemma ok_open_question agent input qs : ok (open_question agent input qs).
Proof.
  unfold open_question. keep. apply ok_upd_questions. intros m Hm. by apply map_Forall_insert_2.
Qed.
#[local] Hint Resolve ok_open_question : keeps.

Lemma ok_delete_question agent : ok (upd_questions (delete agent)).
Proof. apply ok_upd_questions. intros m Hm. by apply map_Forall_delete. Qed.
Lemma ok_mark_posted agent : ok (upd_questions (mark_posted agent)).
Proof.
  apply ok_upd_questions. intros m Hm k o Hk. unfold mark_posted in Hk.
  destruct (decide (k = agent)) as [->|Hne]; [|rewrite lookup_alter_ne in Hk by done; by apply (Hm k)].
  rewrite lookup_alter_eq in Hk. apply fmap_Some in Hk as (o' & Ho & ->). apply (Hm agent o' Ho).
Qed.
#[local] Hint Resolve ok_delete_question ok_mark_posted : keeps.

Lemma clear_question_fits agent :
  safe I (fun _ => True) (clear_question agent) (fun o _ => match o with Some o => fits o | None => True end).
Proof.
  unfold clear_question. eapply safe_bind; [apply safe_gets|]. intros [o|].
  - eapply (safe_conseq I (fun _ => fits o)); [| |intros a w _ Hq; exact Hq].
    + eapply safe_bind; [by apply safe_fact, ok_delete_question|intros ?].
      eapply safe_bind; [by apply safe_fact, ok_kv_delete, actor_core|intros ?]. by apply safe_ret.
    + intros w [Hw _] [_ Ho]. by apply (ok_questions _ _ Hw agent o).
  - by apply safe_ret.
Qed.

Lemma ok_clear_question agent : ok (clear_question agent).
Proof. eapply safe_conseq; [apply clear_question_fits|done|done]. Qed.
#[local] Hint Resolve ok_clear_question ok_release_held : keeps.

Definition tracking_fits (t : Tracking) : Prop := match t with TrackClosed (Some o) => fits o | _ => True end.

Lemma track_question_fits event : safe I (fun _ => True) (track_question event) (fun t _ => tracking_fits t).
Proof.
  unfold track_question. case_match.
  { eapply safe_bind; [apply ok_clear_question|intros ?]. eapply safe_bind; [apply safe_keeps; keep|intros ?]. by apply safe_ret. }
  case_match; [by apply safe_ret|]. case_match.
  { destruct (Question.parse _); [|by apply safe_ret].
    eapply safe_bind; [apply safe_keeps; keep|intros ?]. by apply safe_ret. }
  case_match; [|by apply safe_ret].
  eapply safe_bind; [apply clear_question_fits|intros o]. cbv beta.
  eapply (safe_bind I _ _ (fun _ _ => tracking_fits (TrackClosed o))); [|intros ?; by apply safe_ret].
  apply safe_fact. keep.
Qed.

Lemma ok_swallow agent (k : bool -> Task Call Actor bool) : (forall b, ok (k b)) ->
  ok (qs ← gets ga_questions; let '(swallowed, qs) := suppress_permission_prompt agent qs in
      _ ← upd_questions (fun _ => qs); k swallowed).
Proof.
  intros Hk. eapply keeps_bind_post; [apply safe_gets|]. intros qs. cbv beta.
  destruct (suppress_permission_prompt agent qs) as [b' qs'] eqn:Hs.
  eapply (safe_bind I _ _ (fun _ _ => True)); [|intros ?; apply safe_keeps, Hk].
  apply safe_modify. intros [s log] [Hw HL] [_ ->]. split; [|done]. split; [|done]. destruct Hw as [? ? ? Hq ? ?]. split; try done. simpl in *.
  unfold suppress_permission_prompt in Hs. destruct (ga_questions s !! agent) as [o|] eqn:Ho; [|by simplify_eq].
  destruct (negb (oq_posted o) || _ || _); simplify_eq; [done|]. apply map_Forall_insert_2; [|done]. exact (Hq agent o Ho).
Qed.

Lemma on_question_event_ok i repo n event t :
  safe I (fun _ => tracking_fits t) (on_question_event i repo n event t) (fun _ _ => True).
Proof.
  destruct t as [|qs| |[o|]]; cbn [on_question_event]; [apply safe_keeps..| |]; try by (apply safe_keeps; keep).
  - case_match; [|keep]. apply (ok_swallow (he_agent event) mret). intros ?. apply keeps_ret.
  - apply (safe_conseq I (fun _ => fits o /\ True) _ _ (fun _ _ => True)); [apply safe_pure; intros Ho|by split|done].
    destruct (on_closed_fits o (default Null (pointer (he_payload event) ["tool_response"; "answers"])) Ho) as [v ->].
    apply safe_keeps. keep.
Qed.

(** *** Answers *)

Lemma question_core agent o : core (fun w => I w /\ ga_questions w.1 !! agent = Some o).
Proof.
  split.
  - intros s log e He [Hw Ho]. split; [by apply actor_core|done].
  - intros f s log Hf [Hw Ho]. split; [by apply (core_same I actor_core f)|]. simpl in *. by rewrite (sc_questions f Hf).
  - intros w [[Hw _] _]. by apply (ok_config _ _ Hw).
  - intros w [[Hw _] _]. apply (ok_windows _ _ Hw).
Qed.
Lemma question_loud agent o : loud (fun w => I w /\ ga_questions w.1 !! agent = Some o).
Proof. intros s log e [Hw Ho]. split; [by apply actor_loud|done]. Qed.
#[local] Hint Resolve question_core question_loud : keeps.

(** The stage a decision leaves, set while the question is the one decided on. *)
Lemma set_stage_ok agent stage o : stage_fits (oq_questions o) stage ->
  safe I (fun w => ga_questions w.1 !! agent = Some o) (upd_questions (set_stage agent stage)) (fun _ _ => True).
Proof.
  intros Hst. apply safe_modify. intros [s log] [Hw HL] Ho. split; [|done]. split; [|done]. destruct Hw as [? ? ? Hq ? ?]. split; try done.
  intros k o' Hk. simpl in *. unfold set_stage in Hk. destruct (decide (k = agent)) as [->|Hne].
  - rewrite lookup_alter_eq, Ho in Hk. simpl in Hk. by injection Hk as <-.
  - rewrite lookup_alter_ne in Hk by done. by apply (Hq k).
Qed.

Ltac answer_step :=
  first [ eapply safe_bind; [by apply set_stage_ok|intros ?; apply safe_keeps; keep]
        | eapply safe_under; [solve [unfold key_delay_of; keep]|intros ?; cbv beta zeta] ].

Lemma ok_on_answer agent i repo n id body : ok (GhActor.on_answer agent i repo n id body).
Proof.
  unfold GhActor.on_answer. eapply keeps_bind_post; [apply safe_gets|]. intros [o|]; [|by apply safe_ret].
  apply (safe_conseq I (fun w => fits o /\ ga_questions w.1 !! agent = Some o) _ _ (fun _ _ => True)); [| |done].
  2:{ intros w Hw [_ Ho]. split; [by apply (ok_questions _ _ (proj1 Hw) agent o)|done]. }
  apply safe_pure. intros Hfit.
  do 3 answer_step.
  destruct (on_reply_fits o body a a0 (allowlist_with (dc_slash_commands a1)) Hfit) as (d & -> & Hstage & Hfall).
  answer_step. destruct (_ && _ && _).
  - answer_step.
  - answer_step. destruct a3; [|answer_step].
    eapply safe_bind; [apply set_stage_ok|intros ?; apply safe_keeps; keep].
    destruct (gates_on_post d); [by apply with_echo_fits|done].
Qed.
#[local] Hint Resolve ok_on_answer : keeps.

Lemma ok_permitted i repo author : ok (permitted i repo author).
Proof.
  intros w [Hw HL] _. destruct (permitted_run i repo author w Hw) as (b & w' & l & E & Hw' & Hl & Hq & Hs & _). exists b, w'.
  split; [done|]. split; [|split; [by exists l|done]]. split; [done|]. rewrite Hl, Hs. clear -Hq HL L_grows.
  induction Hq; [done|]. simpl. by apply L_grows.
Qed.
#[local] Hint Resolve ok_permitted ok_start ok_refile : keeps.

(** *** Handlers *)

Lemma ok_on_message agent i repo n asker id body : ok (on_message agent i repo n asker id body).
Proof. unfold on_message. keep. Qed.
Lemma ok_on_mention i repo n author id body is_pr : X (SeenComment id) -> ok (on_mention i repo n author id body is_pr).
Proof. intros Hid. unfold on_mention. keep. Qed.
#[local] Hint Resolve ok_on_message ok_on_mention : keeps.
Lemma ok_on_opening i repo kind n author title body url pr target quoted :
  X (target_seen target) -> ok (on_opening i repo kind n author title body url pr target quoted).
Proof. intros Hid. unfold on_opening. keep. Qed.
Lemma ok_on_comment i repo n author id body is_pr : X (SeenComment id) -> ok (on_comment i repo n author id body is_pr).
Proof. intros Hid. unfold on_comment. keep. Qed.
Lemma ok_on_review i repo n author id state body commit : X (SeenReview id) -> ok (on_review i repo n author id state body commit).
Proof. intros Hid. unfold on_review. keep. Qed.
Lemma ok_end_session agent i reason : ok (end_session agent i reason).
Proof. unfold end_session. keep. Qed.
#[local] Hint Resolve ok_on_opening ok_on_comment ok_on_review ok_end_session : keeps.

(** The id a webhook is noted under. *)
Definition event_seen (ev : WebhookEvent) : option GhSession.Seen :=
  match ev with
  | IssueOpened _ _ _ _ _ _ _ | PrOpened _ _ _ _ _ _ _ _ _ _ => Some SeenOpening
  | Commented _ _ _ _ id _ _ => Some (SeenComment id)
  | ReviewSubmitted _ _ _ _ id _ _ _ => Some (SeenReview id)
  | Closed _ _ _ _ => None
  end.

Lemma ok_on_webhook ev : (forall id, event_seen ev = Some id -> X id) -> ok (on_webhook ev).
Proof.
  intros Hid. destruct ev; cbn [on_webhook event_seen] in *; try specialize (Hid _ eq_refl);
    [by apply ok_on_opening|by apply ok_on_opening|keep..].
Qed.

Lemma ok_show_event config event r t : safe I (fun _ => tracking_fits t) (show_event config event r t) (fun _ _ => True).
Proof.
  unfold show_event. case_match; [apply safe_keeps; keep|]. case_match; [apply safe_keeps; keep|].
  case_match; [apply safe_keeps; keep|].
  eapply safe_bind; [apply on_question_event_ok|]. intros ?. apply safe_keeps. keep.
Qed.

Lemma ok_tracked event (k : Tracking -> Task Call Actor unit) :
  (forall t, safe I (fun _ => tracking_fits t) (k t) (fun _ _ => True)) -> ok (track_question event ≫= k).
Proof. intros Hk. eapply keeps_bind_post; [apply track_question_fits|exact Hk]. Qed.

Lemma ok_on_event event : ok (on_event event).
Proof.
  unfold on_event. repeat first [apply ok_tracked; intros t | solve [eauto with keeps nocore] | progress cbv beta zeta | keep_step].
  case_match; [apply safe_keeps; keep|].
  eapply safe_bind; [apply safe_fact; keep|intros ?]. apply ok_show_event.
Qed.
Lemma ok_on_phase change : ok (on_phase change).
Proof. unfold on_phase. keep. Qed.

Lemma ok_stop_idle : ok stop_idle.
Proof. unfold stop_idle. keep. Qed.
Lemma ok_prune_closed : ok prune_closed.
Proof. unfold prune_closed. keep. Qed.
Lemma ok_flush_due : ok flush_due.
Proof. unfold flush_due. keep. Qed.
Lemma ok_write_rows : ok write_rows.
Proof. unfold write_rows. keep. Qed.
#[local] Hint Resolve ok_stop_idle ok_prune_closed ok_flush_due ok_write_rows : keeps.
Lemma ok_on_tick : ok on_tick.
Proof. unfold on_tick. keep. Qed.
Lemma ok_on_activate agent config : window_fits config -> ok (on_activate agent config).
Proof. intros Hc. unfold on_activate. keep. apply ok_upd_agents. intros m Hm. by apply map_Forall_insert_2. Qed.
Lemma ok_on_deactivate agent : ok (on_deactivate agent).
Proof. unfold on_deactivate. keep. apply ok_upd_agents. intros m Hm. by apply map_Forall_delete. Qed.
#[local] Hint Resolve ok_on_webhook ok_on_event ok_on_phase ok_on_tick ok_on_activate ok_on_deactivate : keeps.

(** What a command may note. *)
Definition notes (command : Command) : option GhSession.Seen := match command with Webhook ev => event_seen ev | _ => None end.

Lemma ok_dispatch command : buffered command -> fitting command -> (forall id, notes command = Some id -> X id) -> ok (dispatch command).
Proof. intros Hb Hf Hid. destruct command; cbn [dispatch fitting notes] in *; [by destruct (Hb config)|keep..]. Qed.
End actor_ok.
