(* ===== verification/GhRuns.v ===== *)
(** Runs of the github actor: it never panics, it acts only for those GitHub
    says may prompt, every fleet it applies carries the open sessions, a
    redelivered comment changes nothing, and what comes before its configuration
    is what comes after it. *)

From S2P Require Import Prelude Str BTree Rules Json Bytes Text Delivery Question Answer Render PluginConfig.
From S2P Require Import GitHub Webhook GhSession Talk Sdk Fits GhActor GhSafety.
From S2P Require Parts Queue.

Section runs.
Context `{!Env Call, !Unicode, !Letters, !Yaml, !JsonText, !RowCodec}.
Notation I := (actor_ok true).

(** ** No panic *)

Lemma base_keeps {A} (m : Task Call Actor A) :
  keeps (fun w => actor_ok true w /\ (fun (_ : Sessions) (_ : list (Event Call)) => True) (ga_sessions w.1) w.2) m -> keeps I m.
Proof.
  intros Hm w Hw _. destruct (Hm w (conj Hw Logic.I) Logic.I) as (a & w' & ? & [? _] & ? & _). by exists a, w'.
Qed.

Lemma dispatch_ok command : buffered command -> fitting command -> keeps I (dispatch command).
Proof. intros Hb Hf. apply base_keeps. by apply (ok_dispatch (fun _ => True) (fun _ _ => True)). Qed.

Lemma dispatch_total command w : buffered command -> fitting command -> I w ->
  exists w', dispatch command w = Some (tt, w') /\ I w'.
Proof. intros Hb Hf Hw. destruct (dispatch_ok command Hb Hf w Hw Logic.I) as ([] & w' & ? & ? & _). by exists w'. Qed.

Definition is_configure (c : Command) : bool := match c with Configure _ => true | _ => false end.

Lemma buffered_not c : is_configure c = false -> buffered c.
Proof. by intros Hc config ->. Qed.

Lemma configured_any b w : I w -> actor_ok b w.
Proof. intros [Hc ? ? ? ? ?]. split; try done. intros _. by apply Hc. Qed.

Lemma set_config_ok config s log b : actor_ok b (s, log) ->
  actor_ok true (set_pending_commands [] (set_config (Some config) s), log).
Proof. intros [? ? ? ? ? ?]. by split. Qed.

Lemma dispatch_each fuel cs w : Forall (fun c => buffered c /\ fitting c) cs -> I w ->
  exists w', for_each (handle_from fuel) cs w = Some (tt, w') /\ I w'.
Proof.
  intros Hcs. revert w. induction Hcs as [|c cs [Hc Hf] _ IH]; intros w Hw; [by exists w|]. cbn [for_each].
  destruct (dispatch_total c w Hc Hf Hw) as (w1 & E1 & Hw1). destruct (IH w1 Hw1) as (w2 & E2 & Hw2). exists w2. split; [|done].
  erewrite run_bind; [exact E2|]. destruct (ok_config _ _ Hw eq_refl) as [config Hcfg].
  destruct c; [by destruct (Hc config0)|..]; destruct fuel; cbn [handle_from];
    (erewrite run_bind by reflexivity; rewrite Hcfg; exact E1).
Qed.

Lemma handle_total b command w : fitting command -> actor_ok b w ->
  exists w', handle command w = Some (tt, w') /\ actor_ok (b || is_configure command) w'.
Proof.
  destruct w as [s log]. intros Hfit Hw. unfold handle. destruct (is_configure command) eqn:Hc.
  - destruct command; try done. cbn [handle_from]. rewrite orb_true_r.
    do 3 (erewrite run_bind by reflexivity). cbn [fst snd].
    apply (dispatch_each 0); [apply (ok_pending _ _ Hw)|by apply (set_config_ok config s log b)].
  - rewrite orb_false_r. apply buffered_not in Hc.
    destruct (ga_config s) as [config|] eqn:Hcfg.
    + destruct Hw as [? ? ? ? ? ?]. destruct (dispatch_total command (s, log) Hc Hfit) as (w' & E & Hw').
      { by split. }
      exists w'. split; [|by apply configured_any].
      destruct command; [by destruct (Hc config0)|..]; cbn [handle_from]; (erewrite run_bind by reflexivity; simpl; rewrite Hcfg; exact E).
    + exists (set_pending_commands (ga_pending_commands s ++ [command]) s, log). split.
      * destruct command; [by destruct (Hc config)|..]; cbn [handle_from]; (erewrite run_bind by reflexivity; simpl; by rewrite Hcfg).
      * destruct Hw as [? Hp ? ? ? ?]. split; try done. simpl. apply Forall_app. split; [done|]. by repeat constructor.
Qed.

Lemma turn_total gap b command w : fitting command -> actor_ok b w ->
  exists w', turn gap command w = Some (tt, w') /\ actor_ok (b || is_configure command) w'.
Proof.
  intros Hf Hw. unfold turn, when. destruct gap; cbn iota.
  - destruct w as [s log]. unfold upd_deliveries, update. erewrite run_bind by reflexivity. apply handle_total; [done|]. by destruct Hw.
  - erewrite run_bind by reflexivity. by apply handle_total.
Qed.

(** The rounds of [run]: whether the queue had a gap, and the command in hand. *)
Definition turns (cs : list (bool * Command)) : Task Call Actor unit := for_each (fun '(gap, c) => turn gap c) cs.

Lemma turns_total cs b w : Forall fitting cs.*2 -> actor_ok b w ->
  exists w', turns cs w = Some (tt, w') /\ actor_ok (b || existsb is_configure cs.*2) w'.
Proof.
  revert b w. induction cs as [|[gap c] cs IH]; intros b w Hfit Hw; [exists w; by rewrite orb_false_r|].
  rewrite fmap_cons in Hfit. apply Forall_cons in Hfit as [Hf Hfit].
  destruct (turn_total gap b c w Hf Hw) as (w1 & E1 & Hw1). destruct (IH _ w1 Hfit Hw1) as (w2 & E2 & Hw2).
  exists w2. split; [unfold turns; cbn [for_each]; by rewrite (run_bind _ _ _ _ _ E1)|]. simpl. by rewrite orb_assoc.
Qed.

(** The daemon lists keys under the prefix asked for, in ASCII as its rule for
    keys has it. *)
Definition daemon_lists : Prop := forall log prefix ks, ask log (KvList prefix) = Ok ks ->
  Forall (fun k => exists rest, k = prefix +:+ rest /\ bytes_all (fun c => (N_of_ascii c <? 128)%N) rest = true) ks.

Lemma new_actor_ok slug : actor_ok false (new_actor slug, []).
Proof. split; try done. Qed.

Lemma sessions_load_keys_total ks t s log b : sessions_ok t -> actor_ok b (s, log) ->
  exists r log', sessions_load_keys ks t (s, log) = Some (r, (s, log')) /\ actor_ok b (s, log') /\
    forall t', r = Ok t' -> sessions_ok t'.
Proof.
  revert t log. induction ks as [|k ks IH]; intros t log Ht Hw; cbn [sessions_load_keys].
  - exists (Ok t), log. split; [done|]. split; [done|]. by intros t' [= <-].
  - destruct (strip_prefix SESSION_PREFIX k) as [agent|]; [|by apply IH].
    unfold kv_get, call. erewrite run_bind by reflexivity.
    assert (actor_ok b (s, Did (KvGet k) (ask log (KvGet k)) :: log)) as Hw' by by apply actor_ok_grows.
    destruct (ask log (KvGet k)) as [[bytes|]|e]; [apply IH; [|done]|by apply IH|].
    + destruct (decode_session bytes); [by apply insert_row_ok|done].
    + eexists (Err e), _. by split.
Qed.

Lemma question_key_boundary rest : bytes_all (fun c => (N_of_ascii c <? 128)%N) rest = true ->
  Parts.is_char_boundary (String.length QUESTION_PREFIX) (QUESTION_PREFIX +:+ rest) = true.
Proof.
  intros Hr. unfold Parts.is_char_boundary. simpl. destruct rest as [|c rest]; [done|]. simpl in *.
  apply andb_true_iff in Hr as [Hc%N.ltb_lt _]. unfold is_continuation. apply negb_true_iff. apply andb_false_iff. left.
  apply N.leb_gt. lia.
Qed.

Lemma questions_load_keys_total ks qs s log b :
  Forall (fun k => exists rest, k = QUESTION_PREFIX +:+ rest /\ bytes_all (fun c => (N_of_ascii c <? 128)%N) rest = true) ks ->
  map_Forall (fun _ o => fits o) qs -> actor_ok b (s, log) ->
  exists r log', questions_load_keys ks qs (s, log) = Some (r, (s, log')) /\ actor_ok b (s, log') /\
    forall qs', r = Ok qs' -> map_Forall (fun _ o => fits o) qs'.
Proof.
  intros Hks. revert qs log. induction Hks as [|k ks (rest & -> & Hrest) _ IH]; intros qs log Hqs Hw; cbn [questions_load_keys].
  - exists (Ok qs), log. split; [done|]. split; [done|]. by intros qs' [= <-].
  - set (key := QUESTION_PREFIX +:+ rest). unfold kv_get, call. erewrite run_bind by reflexivity.
    assert (actor_ok b (s, Did (KvGet key) (ask log (KvGet key)) :: log)) as Hw' by by apply actor_ok_grows.
    destruct (ask log (KvGet key)) as [[bytes|]|e]; [|by apply IH|].
    + destruct (json_parse bytes ≫= Question.parse) as [list|]; [|by apply IH].
      unfold key. rewrite question_key_boundary by done. apply IH; [|done]. by apply map_Forall_insert_2.
    + eexists (Err e), _. by split.
Qed.

Lemma load_total slug : daemon_lists ->
  exists w, load (new_actor slug, []) = Some (tt, w) /\ actor_ok false w.
Proof.
  intros Hlists. pose proof (new_actor_ok slug) as Hw. set (s := new_actor slug) in *. unfold load.
  assert (exists r log, sessions_load (s, []) = Some (r, (s, log)) /\ actor_ok false (s, log) /\
    forall t, r = Ok t -> sessions_ok t) as (r & log & E & Hw1 & Hr).
  { unfold sessions_load, kv_list, call. erewrite run_bind by reflexivity.
    destruct (ask [] (KvList SESSION_PREFIX)) as [ks|e];
      [apply sessions_load_keys_total; [apply no_sessions_ok|by apply actor_ok_grows]|].
    eexists (Err e), _. split; [done|]. split; [by apply actor_ok_grows|done]. }
  rewrite (run_bind _ _ _ _ _ E).
  assert (exists s', (match r with Ok s => upd_sessions (fun _ => s) | Err _ => mret tt end) (s, log) = Some (tt, (s', log)) /\
    actor_ok false (s', log)) as (s' & E' & Hw2).
  { destruct r as [t|e]; [|by exists s]. exists (set_sessions t s). split; [done|]. destruct Hw1 as [? ? ? ? ? ?].
    split; try done. simpl. by apply Hr. }
  rewrite (run_bind _ _ _ _ _ E').
  assert (exists r log', questions_load (s', log) = Some (r, (s', log')) /\ actor_ok false (s', log') /\
    forall qs, r = Ok qs -> map_Forall (fun _ o => fits o) qs) as (rq & log' & Eq & Hw3 & Hq).
  { unfold questions_load, kv_list, call. erewrite run_bind by reflexivity.
    destruct (ask log (KvList QUESTION_PREFIX)) as [ks|e] eqn:Hask.
    - apply questions_load_keys_total; [by apply (Hlists log)|done|by apply actor_ok_grows].
    - eexists (Err e), _. split; [done|]. split; [by apply actor_ok_grows|done]. }
  rewrite (run_bind _ _ _ _ _ Eq). destruct rq as [qs|e]; [|by exists (s', log')].
  exists (set_questions qs s', log'). split; [done|]. destruct Hw3 as [? ? ? ? ? ?]. split; try done. simpl. by apply Hq.
Qed.

(** C25: The actor never panics as long as every confirm window it is activated
    with, [START_UP_ALLOWANCE] added, fits a [Duration] (the sum panics past
    [Duration::MAX], and the configuration accepts such windows), and the
    store lists keys under the prefix asked for, in ASCII as the daemon's rule
    for keys has it: whatever else the store, the daemon, GitHub and the clocks
    answer, failures included, it loads and takes any sequence of commands,
    with or without gaps. After it the number of every row it maps is that
    row's, its questions can be answered, every confirm window fits, and every
    cached permission is one GitHub answered after a reading of the clock that
    its expiry lies [PERMISSION_TTL] beyond. *)
Theorem actor_never_panics (slug : string) (cs : list (bool * Command)) (Hlists : daemon_lists)
    (Hfit : Forall fitting cs.*2) :
  exists w, (_ ← load; turns cs) (new_actor slug, []) = Some (tt, w) /\ actor_ok (existsb is_configure cs.*2) w.
Proof.
  destruct (load_total slug Hlists) as (w1 & E1 & Hw1). destruct (turns_total cs false w1 Hfit Hw1) as (w & E & Hw).
  exists w. by rewrite (run_bind _ _ _ _ _ E1).
Qed.

(** ** Only those who may prompt are acted for *)

Definition event_author (ev : WebhookEvent) : option Author :=
  match ev with
  | IssueOpened _ _ _ a _ _ _ | PrOpened _ _ _ a _ _ _ _ _ _ | Commented _ _ _ a _ _ _ | ReviewSubmitted _ _ _ a _ _ _ _ => Some a
  | Closed _ _ _ _ => None
  end.

Notation quiet_log := (Forall (fun e => acts e = false)).

(** A task that acts only once [author] is granted. *)
Definition heeds (slug repo : string) (author : Author) (m : Task Call Actor unit) : Prop := forall s log, I (s, log) -> ga_slug s = slug ->
  exists w' l l', m (s, log) = Some (tt, w') /\ I w' /\ w'.2 = l' ++ l ++ log /\ quiet_log l /\
    (quiet_log l' \/ granted slug repo author l log).

Lemma heeds_ret slug repo author : heeds slug repo author (mret tt).
Proof. intros s log Hw _. exists (s, log), [], []. split_and!; try done. by left. Qed.

Lemma heeds_gets {A} slug repo author (f : Actor -> A) k :
  (forall a, heeds slug repo author (k a)) -> heeds slug repo author (gets f ≫= k).
Proof. intros Hk s log Hw Hs. erewrite run_bind by reflexivity. by apply Hk. Qed.

Lemma heeds_permitted slug repo author i (m : Task Call Actor unit) : keeps I m ->
  heeds slug repo author (ok ← permitted i repo author; if negb ok then mret tt else m).
Proof.
  intros Hm s log Hw <-. destruct (permitted_run i repo author (s, log) Hw) as (b & w1 & l & E & Hw1 & Hl & Hq & _ & Hg).
  rewrite (run_bind _ _ _ _ _ E). simpl in Hl. destruct b; simpl.
  - destruct (Hm w1 Hw1 Logic.I) as ([] & w2 & E2 & Hw2 & [l' Hl'] & _). exists w2, l, l'. rewrite Hl in Hl'. split_and!; try done.
    right. by apply Hg.
  - exists w1, l, []. split_and!; try done. by left.
Qed.

Lemma heeds_refresh slug repo author agent i (k : unit -> Task Call Actor unit) :
  (forall u, heeds slug repo author (k u)) -> heeds slug repo author (refresh_installation agent i ≫= k).
Proof.
  intros Hk s log Hw Hs.
  assert (exists s', refresh_installation agent i (s, log) = Some (tt, (s', log)) /\ I (s', log) /\ ga_slug s' = ga_slug s) as (s' & E & Hw' & Hs').
  { assert (keeps I (refresh_installation agent i)) as Hkeep
      by (apply base_keeps; by apply (ok_refresh_installation (fun _ _ => True))).
    destruct (Hkeep (s, log) Hw Logic.I) as ([] & [s' log'] & E & Hw' & _).
    unfold refresh_installation, get_row in E. erewrite run_bind in E by reflexivity. cbn [fst] in E.
    assert (log' = log /\ ga_slug s' = ga_slug s) as [-> Hsl]; [|by exists s'].
    destruct (row agent (ga_sessions s)) as [r|]; [|by injection E as <- <-].
    destruct (ss_installation r =? i)%N; by injection E as <- <-. }
  rewrite (run_bind _ _ _ _ _ E). apply Hk; [done|]. by rewrite Hs'.
Qed.

Lemma base_core : core I.
Proof.
  destruct (actor_core (fun _ _ => True)) as [Hg Hs Hc]; [done|]. split.
  - intros s log e He Hw. by apply (Hg s log e).
  - intros f s log Hf Hw. by apply (Hs f s log).
  - intros w Hw. by apply (Hc w).
  - intros w Hw. apply (ok_windows _ _ Hw).
Qed.
Lemma base_loud : loud I.
Proof. intros s log e. apply actor_ok_grows. Qed.
#[local] Hint Resolve base_core base_loud : keeps.
Lemma base_start i repo kind n asker title body url pr target quoted : keeps I (start i repo kind n asker title body url pr target quoted).
Proof. apply base_keeps. by apply (ok_start (fun _ => True) (fun _ _ => True)). Qed.
Lemma base_refresh_installation agent i : keeps I (refresh_installation agent i).
Proof. apply base_keeps. by apply (ok_refresh_installation (fun _ _ => True)). Qed.
Lemma base_remember agent id : keeps I (remember agent id).
Proof. apply base_keeps. by apply (ok_remember (fun _ => True) (fun _ _ => True)). Qed.
Lemma base_on_message agent i repo n asker id body : keeps I (on_message agent i repo n asker id body).
Proof. apply base_keeps. by apply (ok_on_message (fun _ _ => True)). Qed.
Lemma base_on_mention i repo n author id body is_pr : keeps I (on_mention i repo n author id body is_pr).
Proof. apply base_keeps. by apply (ok_on_mention (fun _ => True) (fun _ _ => True)). Qed.
#[local] Hint Resolve base_start base_refresh_installation base_remember base_on_message base_on_mention : keeps.

Lemma opening_heeds slug i repo kind n author title body url pr target quoted :
  heeds slug repo author (on_opening i repo kind n author title body url pr target quoted).
Proof.
  unfold on_opening. apply heeds_gets. intros slug'. case_match; [apply heeds_ret|]. apply heeds_permitted. keep.
Qed.

Lemma comment_heeds slug i repo n author id body is_pr : heeds slug repo author (on_comment i repo n author id body is_pr).
Proof.
  unfold on_comment. apply heeds_gets. intros slug'. case_match; [apply heeds_ret|].
  apply heeds_gets. intros seen. destruct seen; [apply heeds_ret|]. apply heeds_permitted. keep.
Qed.

Lemma review_heeds slug i repo n author id state body commit :
  heeds slug repo author (on_review i repo n author id state body commit).
Proof.
  unfold on_review. apply heeds_gets. intros [agent|]; [|apply heeds_ret]. apply heeds_refresh. intros _.
  apply heeds_gets. intros [r|]; [|apply heeds_ret]. apply heeds_gets. intros seen.
  destruct seen; [apply heeds_ret|]. case_match; [apply heeds_ret|]. apply heeds_permitted. keep.
Qed.

(** ** What is applied *)

(** The agents of the one crew of a fleet file. *)
Definition fleet_agents (file : Value) : option (gmap string Value) :=
  crews ← get file "crews" ≫= as_object;
  match entries crews with
  | [(_, crew)] => get crew "agents" ≫= as_object
  | _ => None
  end.

(** The agents of the file that bear a name of the plugin's are the sessions [P]:
    each is one of them, under its name, and none of them is missing. *)
Definition carries (fleet : string) (P : Live -> Prop) (file : Value) : Prop :=
  get file "name" = Some (VString fleet) /\
  exists agents, fleet_agents file = Some agents /\
    forall name, is_plugin_agent name = true ->
      match agents !! name with
      | Some v => exists l, P l /\ live_name l = name /\ v = live_agent l
      | None => forall l, P l -> live_name l <> name
      end.

(** A session of the fleet that has not ended, of another number than [n]. *)
Definition session_open (fleet : string) (n : N) (t : Sessions) (l : Live) : Prop :=
  exists agent r, row agent t = Some r /\ fleet_of agent = fleet /\ ss_closed r = false /\ ss_number r <> n /\
    lv_kind l = ss_kind r /\ lv_number l = ss_number r /\ lv_head l = ss_head r.

Lemma others_open fleet n t l : l ∈ others fleet n t <-> session_open fleet n t l.
Proof.
  unfold others, live_in. rewrite list_elem_of_filter, list_elem_of_fmap. split.
  - intros (Hn & [agent r] & -> & [[Hf Hc] Hin]%list_elem_of_filter). apply elem_of_entries in Hin.
    by exists agent, r.
  - intros (agent & r & Hr & Hf & Hc & Hn & Hk & Hnum & Hh). split; [by rewrite Hnum|]. exists (agent, r). split.
    + destruct l. simpl in *. by subst.
    + apply list_elem_of_filter. split; [by split|]. by apply elem_of_entries.
Qed.

Lemma entries_singleton {A} (k : string) (v : A) : entries ({[k := v]} : gmap string A) = [(k, v)].
Proof. unfold entries. by rewrite map_to_list_singleton. Qed.

Lemma obj_get_object m k : get (VObject m) k = m !! k.
Proof. done. Qed.

Lemma prepare_carries text repo fleet branch live P p : prepare text repo fleet branch live = Ok p ->
  (forall l, l ∈ live <-> P l) ->
  carries fleet P (pp_file p) /\ forall to, carries fleet P (rename_crew (pp_file p) (pp_crew p) to).
Proof.
  intros Hp HP. apply prepare_injects in Hp as (root & fields & agents & _ & [_ _ _ Hforeign] & _ & ->).
  assert (forall crew, carries fleet P (VObject
    (<["name" := VString fleet]> (<["crews" := VObject {[crew := VObject
       (<["agents" := VObject (add_live agents live)]> (with_ref branch fields))]}]> root)))) as Hcarries.
  { intros crew. split; [by rewrite obj_get_object, lookup_insert_eq|]. exists (add_live agents live). split.
    - unfold fleet_agents. rewrite obj_get_object, lookup_insert_ne, lookup_insert_eq by done. cbn [mbind option_bind as_object].
      rewrite entries_singleton, obj_get_object, lookup_insert_eq. done.
    - intros name Hname. rewrite lookup_add_live. destruct (list_find _ (rev live)) as [[j s]|] eqn:Hfind.
      + apply list_find_Some in Hfind as (Hs & Hn & _). exists s. split; [|done]. apply HP.
        apply list_elem_of_In, in_rev, list_elem_of_In. by eapply list_elem_of_lookup_2.
      + destruct (agents !! name) as [v|] eqn:Hv; [by rewrite (Hforeign name) in Hname|].
        apply list_find_None in Hfind. rewrite Forall_forall in Hfind. intros l Hl%HP. apply Hfind.
        by apply list_elem_of_In, in_rev; rewrite rev_involutive; apply list_elem_of_In. }
  split; [apply Hcarries|]. intros to. unfold rename_crew. rewrite lookup_insert_ne, lookup_insert_eq by done.
  rewrite lookup_singleton_eq, delete_singleton_eq, insert_empty.
  replace (<["crews" := _]> _) with (<["name" := VString fleet]> (<["crews" := VObject {[to := VObject
       (<["agents" := VObject (add_live agents live)]> (with_ref branch fields))]}]> root)); [apply Hcarries|].
  rewrite (insert_insert_ne _ "crews" "name") by done. by rewrite insert_insert_eq.
Qed.

Lemma keep_crew_carries fleet n text repo branch live P p t : prepare text repo fleet branch live = Ok p ->
  (forall l, l ∈ live <-> P l) -> carries fleet P (keep_crew fleet n p t).1.
Proof.
  intros Hprep HP. destruct (prepare_carries _ _ _ _ _ P _ Hprep HP) as [Hp Hto]. unfold keep_crew. destruct (crew_of <$> running_in fleet n t); [|done].
  case_match; [done|apply Hto].
Qed.

(** *** Quiet stretches *)

(** The rows are still [t] and nothing was done since [log0]. *)
Definition still (t : Sessions) (log0 : list (Event Call)) (w : World Call Actor) : Prop :=
  I w /\ ga_sessions w.1 = t /\ exists l, w.2 = l ++ log0 /\ quiet_log l.

Lemma still_core t log0 : core (still t log0).
Proof.
  split.
  - intros s log e He (Hw & Hs & l & Hl & Hq). split; [by apply base_core|]. split; [done|]. exists (e :: l). simpl in *.
    split; [by rewrite Hl|by constructor].
  - intros f s log Hf (Hw & Hs & Hl). split; [by apply base_core|]. split; [simpl in *; by rewrite (sc_sessions f Hf)|done].
  - intros w (Hw & _). by apply base_core.
  - intros w (Hw & _). by apply base_core.
Qed.

Definition since (log0 : list (Event Call)) (_ : Sessions) (log : list (Event Call)) : Prop :=
  exists l, log = l ++ log0 /\ quiet_log l.

Lemma since_grows log0 t log e : acts e = false -> since log0 t log -> since log0 t (e :: log).
Proof. intros He (l & -> & Hl). exists (e :: l). split; [done|by constructor]. Qed.

(** What follows an apply, when it does nothing more. *)
Lemma quietly {A} (P : World Call Actor -> Prop) (m : Task Call Actor A) w :
  safe (fun w' => I w' /\ since w.2 (ga_sessions w'.1) w'.2) P m (fun _ _ => True) -> I w -> P w ->
  exists a w' l, m w = Some (a, w') /\ I w' /\ w'.2 = l ++ w.2 /\ quiet_log l.
Proof.
  intros Hm Hw HP. destruct (Hm w) as (a & w' & E & [Hw' (l & Hl & Hq)] & _); [|done|by exists a, w', l].
  split; [done|]. exists []. by split.
Qed.

(** A quiet task under [still]. *)
Lemma still_run {A} t log0 (m : Task Call Actor A) w : keeps (still t log0) m -> still t log0 w ->
  exists a w', m w = Some (a, w') /\ still t log0 w'.
Proof. intros Hm Hw. destruct (Hm w Hw Logic.I) as (a & w' & E & Hw' & _). by exists a, w'. Qed.

Lemma still_refl w : I w -> still (ga_sessions w.1) w.2 w.
Proof. intros Hw. split; [done|]. split; [done|]. by exists []. Qed.

Definition new_live (kind : Kind) (n : N) (pr : option PrRefs) : Live :=
  {| lv_kind := kind; lv_number := n; lv_head := (fun p => p.1.1) <$> pr |}.

Lemma start_live t kind n pr fleet l :
  l ∈ others fleet n t ++ [new_live kind n pr] <-> session_open fleet n t l \/ l = new_live kind n pr.
Proof. by rewrite elem_of_app, others_open, list_elem_of_singleton. Qed.

Lemma start_file_still log0 t i repo kind n pr target :
  safe (still t log0) (fun _ => True) (start_file i repo kind n pr target) (fun f _ =>
    match f with
    | Some (branch, p) => exists text,
        prepare text repo (fleet_name repo) branch (others (fleet_name repo) n t ++ [new_live kind n pr]) = Ok p
    | None => True
    end).
Proof.
  pose proof (still_core t log0) as Hcore. unfold start_file. cbv zeta.
  eapply safe_bind; [apply safe_gets|]. intros t'. cbv beta.
  eapply (safe_conseq _ (fun _ => t' = t /\ True)); [|intros w (_ & Hs & _) [_ ->]; done|intros a w _ Hq; exact Hq].
  apply safe_pure. intros ->.
  eapply safe_bind; [by apply safe_keeps; keep|intros b]. destruct b as [branch|e].
  2:{ eapply safe_bind; [by apply safe_keeps; keep|intros ?]. by apply safe_ret. }
  eapply safe_bind; [by apply safe_keeps; keep|intros c].
  eapply safe_bind; [by apply safe_keeps; keep|intros f]. destruct f as [[text|]|e].
  - destruct (prepare text repo (fleet_name repo) branch _) as [p|m] eqn:Hp; [by apply safe_ret; eauto|].
    eapply safe_bind; [by apply safe_keeps; keep|intros ?]. by apply safe_ret.
  - eapply safe_bind; [by apply safe_keeps; keep|intros ?]. by apply safe_ret.
  - eapply safe_bind; [by apply safe_keeps; keep|intros ?]. by apply safe_ret.
Qed.

(** What a task that may apply once does to the log. *)
Definition applied (fleet : string) (live : Live -> Prop) (log log' : list (Event Call)) : Prop :=
  (exists l, log' = l ++ log /\ quiet_log l) \/
  exists l l' file r, log' = l' ++ Did (ApplyFleet fleet file) r :: l ++ log /\ quiet_log l /\ quiet_log l' /\ carries fleet live file.

(** The apply, and quiet steps after it. *)
Lemma apply_then {A} fleet live file (k : result SdkError unit -> Task Call Actor A) t log0 w :
  still t log0 w -> carries fleet live file ->
  (forall r w', safe (fun w => I w /\ since w' (ga_sessions w.1) w.2) (at_rows t) (k r) (fun _ _ => True)) ->
  exists a w', (apply_fleet fleet file ≫= k) w = Some (a, w') /\ I w' /\ applied fleet live log0 w'.2.
Proof.
  intros (Hw & Ht & l & Hl & Hq) Hc Hk. destruct w as [s log]. simpl in Hl. subst log.
  unfold apply_fleet, call. erewrite run_bind by reflexivity. set (r := ask _ _).
  set (w1 := (s, Did (ApplyFleet fleet file) r :: l ++ log0)).
  destruct (quietly (at_rows t) (k r) w1) as (a & w' & l' & E & Hw' & Hl' & Hq'); [apply Hk|by apply actor_ok_grows|done|].
  exists a, w'. split; [exact E|]. split; [done|]. right. by exists l, l', file, r.
Qed.

(** A step under [still], then the rest. *)
Lemma applied_step {A B} fleet live (m : Task Call Actor A) (k : A -> Task Call Actor B) t log0 w :
  keeps (still t log0) m -> still t log0 w ->
  (forall a w', still t log0 w' -> exists b w'', k a w' = Some (b, w'') /\ I w'' /\ applied fleet live log0 w''.2) ->
  exists b w'', (m ≫= k) w = Some (b, w'') /\ I w'' /\ applied fleet live log0 w''.2.
Proof.
  intros Hm Hw Hk. destruct (still_run t log0 m w Hm Hw) as (a & w' & E & Hw').
  destruct (Hk a w' Hw') as (b & w'' & E' & H'). exists b, w''. by rewrite (run_bind _ _ _ _ _ E).
Qed.
Lemma applied_gets {A B} fleet live (f : Actor -> A) (k : A -> Task Call Actor B) t log0 w : still t log0 w ->
  (exists b w'', k (f w.1) w = Some (b, w'') /\ I w'' /\ applied fleet live log0 w''.2) ->
  exists b w'', (gets f ≫= k) w = Some (b, w'') /\ I w'' /\ applied fleet live log0 w''.2.
Proof. intros Hw Hk. by erewrite run_bind by reflexivity. Qed.
Lemma applied_ret {A} fleet live (a : A) t log0 w : still t log0 w ->
  exists b w'', (mret a : Task Call Actor A) w = Some (b, w'') /\ I w'' /\ applied fleet live log0 w''.2.
Proof. intros (Hw & _ & Hl). exists a, w. split; [done|]. split; [done|]. by left. Qed.

Lemma start_applied i repo kind n asker title body url pr target quoted w : I w ->
  exists b w', start i repo kind n asker title body url pr target quoted w = Some (b, w') /\ I w' /\
    applied (fleet_name repo) (fun l => session_open (fleet_name repo) n (ga_sessions w.1) l \/ l = new_live kind n pr) w.2 w'.2.
Proof.
  intros Hw%still_refl. pose proof (still_core (ga_sessions w.1) w.2) as Hcore.
  set (t := ga_sessions w.1) in *. set (log0 := w.2) in *. clearbody t log0. unfold start. cbv zeta.
  eapply applied_step; [by keep|done|]. intros ? w1 Hw1. eapply applied_step; [by keep|done|]. intros go w2 Hw2.
  destruct (negb go); [by eapply applied_ret|].
  destruct (start_file_still log0 t i repo kind n pr target w2 Hw2 Logic.I) as (f & w3 & E & Hw3 & _ & Hf).
  rewrite (run_bind _ _ _ _ _ E). destruct f as [[branch p]|]; [|by eapply applied_ret]. destruct Hf as [text Hp].
  eapply applied_gets; [done|]. destruct Hw3 as (Hok & Hsess & Hlog). rewrite Hsess.
  set (P := fun l => _ \/ _).
  pose proof (keep_crew_carries (fleet_name repo) n text repo branch _ P p t Hp) as Hc.
  specialize (Hc (fun l => conj (proj1 (start_live t kind n pr (fleet_name repo) l)) (proj2 (start_live t kind n pr (fleet_name repo) l)))).
  destruct (keep_crew (fleet_name repo) n p t) as [file crew]. simpl in Hc.
  eapply (applied_step _ _ _ _ t log0); [by keep|by split|]. intros ? w4 Hw4. eapply applied_gets; [done|].
  rewrite (proj1 (proj2 Hw4)). apply (apply_then _ _ _ _ t log0); [done|done|]. intros r w5. destruct r as [u|e].
  - by apply (started_at (fun _ => True) (since w5)); try (intros; eauto using since_grows).
  - apply safe_keeps, ok_refuse. apply (actor_core (since w5)). apply since_grows.
Qed.

(** Quiet steps that may change the rows, to the end. *)
Lemma applied_more {A} fleet live (m : Task Call Actor A) log0 w :
  (forall w0, keeps (fun w => I w /\ since w0 (ga_sessions w.1) w.2) m) -> I w -> applied fleet live log0 w.2 ->
  exists b w', m w = Some (b, w') /\ I w' /\ applied fleet live log0 w'.2.
Proof.
  intros Hm Hw Ha. destruct (quietly (fun _ => True) m w (Hm w.2) Hw Logic.I) as (b & w' & l & E & Hw' & Hl & Hq). exists b, w'.
  split; [done|]. split; [done|]. rewrite Hl.
  destruct Ha as [(l1 & -> & Hq1)|(l1 & l2 & file & r & -> & Hq1 & Hq2 & Hc)].
  - left. exists (l ++ l1). rewrite <- app_assoc. split; [done|]. by apply Forall_app.
  - right. exists l1, (l ++ l2), file, r. rewrite <- app_assoc. split; [done|]. split; [done|]. split; [by apply Forall_app|done].
Qed.
Lemma applied_rest {A} fleet live (m : Task Call Actor A) t log0 w :
  (forall w0, keeps (fun w => I w /\ since w0 (ga_sessions w.1) w.2) m) -> still t log0 w ->
  exists b w', m w = Some (b, w') /\ I w' /\ applied fleet live log0 w'.2.
Proof. intros Hm (Hw & _ & Hl). apply applied_more; [done|done|by left]. Qed.

Lemma since_core w0 : core (fun w : World Call Actor => I w /\ since w0 (ga_sessions w.1) w.2).
Proof. apply (actor_core (since w0)), since_grows. Qed.

Lemma refile_failed_since w0 agent r m :
  keeps (fun w : World Call Actor => I w /\ since w0 (ga_sessions w.1) w.2) (refile_failed agent r m).
Proof. apply (ok_refile_failed (since w0)); by (intros; eauto using since_grows). Qed.
#[local] Hint Resolve since_core refile_failed_since : keeps.

Lemma refile_applied agent i r w : I w ->
  exists b w', refile agent i r w = Some (b, w') /\ I w' /\
    applied (fleet_of agent) (session_open (fleet_of agent) (ss_number r) (ga_sessions w.1)) w.2 w'.2.
Proof.
  intros Hw%still_refl. pose proof (still_core (ga_sessions w.1) w.2) as Hcore.
  set (t := ga_sessions w.1) in *. set (log0 := w.2) in *. unfold refile. cbv zeta.
  eapply applied_gets; [done|]. fold t. clearbody t log0. set (fleet := fleet_of agent).
  eapply applied_step; [by keep|done|]. intros b w1 Hw1. destruct b as [branch|e]; [|eapply applied_rest; [intros w0; keep|done]].
  eapply applied_step; [by keep|done|]. intros c w2 Hw2.
  eapply applied_step; [by keep|done|]. intros f w3 Hw3. destruct f as [text|e]; [|eapply applied_rest; [intros w0; keep|done]].
  eapply applied_gets; [done|]. destruct Hw3 as (Hok & Hsess & Hlog). rewrite Hsess.
  destruct (prepare _ _ _ _ _) as [p|m] eqn:Hp; [|eapply (applied_rest _ _ _ t); [intros w0; keep|by split]].
  pose proof (keep_crew_carries fleet (ss_number r) _ _ _ _ _ p t Hp (fun l => others_open fleet (ss_number r) t l)) as Hc.
  apply (apply_then _ _ _ _ t log0); [by split|done|]. intros r' w5. apply safe_keeps. keep.
Qed.

Lemma end_applied agent i reason r w : I w -> row agent (ga_sessions w.1) = Some r ->
  exists b w', end_session agent i reason w = Some (b, w') /\ I w' /\
    applied (fleet_of agent) (session_open (fleet_of agent) (ss_number r) (ga_sessions w.1)) w.2 w'.2.
Proof.
  intros Hw Hr. unfold end_session. unfold get_row. erewrite run_bind by reflexivity. rewrite Hr.
  destruct (ss_closed r); [eapply applied_ret; by apply still_refl|].
  destruct (refile_applied agent i r w Hw) as (b & w1 & E & Hw1 & Ha). rewrite (run_bind _ _ _ _ _ E).
  apply applied_more; [|done|done]. intros w0. keep.
  - apply (ok_flush_status (since w0)); by (intros; eauto using since_grows).
  - apply (ok_write_closed (fun _ => True) (since w0)); by (intros; eauto using since_grows).
  - apply (ok_clear_question (since w0)); by (intros; eauto using since_grows).
Qed.

(** C27: Every fleet the plugin applies carries the open sessions: starting a session
    applies at most once, the fleet of the repository, and the agents under the
    plugin's names in the file are the new session and those whose rows in that
    fleet are not closed, but for the number's own, each of them and no other;
    ending one applies at most once, the fleet of the agent, with the agents of
    the rows not closed but for the number's own. Nothing else is done to an
    agent in either, and neither panics, whatever the daemon and GitHub
    answer. *)
Theorem applies_carry_sessions (w : World Call Actor) (Hw : actor_ok true w) :
  (forall i repo kind n asker title body url pr target quoted,
    exists w', start i repo kind n asker title body url pr target quoted w = Some (tt, w') /\ actor_ok true w' /\
      applied (fleet_name repo) (fun l => session_open (fleet_name repo) n (ga_sessions w.1) l \/ l = new_live kind n pr) w.2 w'.2) /\
  (forall agent i reason r, row agent (ga_sessions w.1) = Some r ->
    exists w', end_session agent i reason w = Some (tt, w') /\ actor_ok true w' /\
      applied (fleet_of agent) (session_open (fleet_of agent) (ss_number r) (ga_sessions w.1)) w.2 w'.2).
Proof.
  split.
  - intros i repo kind n asker title body url pr target quoted.
    destruct (start_applied i repo kind n asker title body url pr target quoted w Hw) as ([] & H'). done.
  - intros agent i reason r Hr. destruct (end_applied agent i reason r w Hw Hr) as ([] & H'). done.
Qed.

(** *** A closed webhook *)

(** An assignment to a row that no fleet shows. *)
Definition hidden (f : Session -> Session) : Prop := forall r,
  ss_repo (f r) = ss_repo r /\ ss_number (f r) = ss_number r /\ ss_closed (f r) = ss_closed r /\ ss_kind (f r) = ss_kind r /\
  ss_head (f r) = ss_head r /\ ss_seen (f r) = ss_seen r.

Lemma session_open_alter fleet n f agent t l : hidden f ->
  session_open fleet n (alter_row f agent t) l <-> session_open fleet n t l.
Proof.
  intros Hf. unfold session_open, row, alter_row. simpl. split; intros (a & r & Hr & Hrest).
  - destruct (decide (a = agent)) as [->|Hne]; [|rewrite lookup_alter_ne in Hr by done; by exists a, r].
    rewrite lookup_alter_eq in Hr. apply fmap_Some in Hr as (r0 & Hr0 & ->). destruct (Hf r0) as (_ & E1 & E2 & E3 & E4 & _).
    rewrite E1, E2, E3, E4 in Hrest. by exists agent, r0.
  - exists a. destruct (decide (a = agent)) as [->|Hne]; [|rewrite lookup_alter_ne by done; by exists r].
    exists (f r). rewrite lookup_alter_eq, Hr. destruct (Hf r) as (_ & -> & -> & -> & -> & _). done.
Qed.

(** The refresh changes a row's installation at most. *)
Lemma refresh_run agent i w : I w ->
  exists w', refresh_installation agent i w = Some (tt, w') /\ I w' /\ w'.2 = w.2 /\
    exists f, hidden f /\ ga_sessions w'.1 = alter_row f agent (ga_sessions w.1).
Proof.
  intros Hw. destruct (base_refresh_installation agent i w Hw Logic.I) as ([] & w' & E & Hw' & _). exists w'.
  split; [done|]. split; [done|]. destruct w as [s log]. unfold refresh_installation, get_row in E.
  erewrite run_bind in E by reflexivity. cbn [fst] in E. unfold row in E.
  assert (forall m : gmap string Session, alter (fun r => r) agent m = m) as Hid by (intros m; by apply alter_id).
  destruct (rows (ga_sessions s) !! agent) as [r|] eqn:Hr; [destruct (ss_installation r =? i)%N|].
  - injection E as <-. split; [done|]. exists (fun r => r). split; [done|]. unfold alter_row. simpl. rewrite Hid. by destruct (ga_sessions s).
  - injection E as <-. split; [done|]. by exists (set_installation i).
  - injection E as <-. split; [done|]. exists (fun r => r). split; [done|]. unfold alter_row. simpl. rewrite Hid. by destruct (ga_sessions s).
Qed.

Lemma applied_open fleet P P' log log' : (forall l, P l <-> P' l) -> applied fleet P log log' -> applied fleet P' log log'.
Proof.
  intros HP [Hq|(l & l' & file & r & Hlog & Hl & Hl' & Hname & agents & Ha & Hc)]; [by left|]. right.
  exists l, l', file, r. do 4 (split; [done|]). exists agents. split; [done|]. intros name Hn. specialize (Hc name Hn).
  destruct (agents !! name) as [v|].
  - destruct Hc as (x & Hx & ?). exists x. by rewrite <- HP.
  - intros x Hx%HP. by apply Hc.
Qed.

Lemma closed_applied repo i n merged w : I w ->
  exists w', on_webhook (Closed repo i n merged) w = Some (tt, w') /\ I w' /\
    ((exists l, w'.2 = l ++ w.2 /\ quiet_log l) \/
     exists agent, by_number repo n (ga_sessions w.1) = Some agent /\
       applied (fleet_of agent) (session_open (fleet_of agent) n (ga_sessions w.1)) w.2 w'.2).
Proof.
  intros Hw. cbn [on_webhook]. unfold agent_of. erewrite run_bind by reflexivity. cbn beta iota.
  destruct (by_number repo n (ga_sessions w.1)) as [agent|] eqn:Hn; [|by exists w; split; [done|]; split; [done|]; left; exists []].
  destruct (ok_sessions _ _ Hw repo n agent Hn) as (r & Hr & Hrepo & Hnum).
  destruct (refresh_run agent i w Hw) as (w1 & E & Hw1 & Hlog & f & Hf & Ht). rewrite (run_bind _ _ _ _ _ E).
  assert (row agent (ga_sessions w1.1) = Some (f r)) as Hr1.
  { rewrite Ht. unfold row, alter_row. simpl. rewrite lookup_alter_eq. unfold row in Hr. by rewrite Hr. }
  destruct (end_applied agent i (if merged then "merged" else "closed") (f r) w1 Hw1 Hr1) as ([] & w' & E' & Hw' & Ha).
  exists w'. split; [done|]. split; [done|]. right. exists agent. split; [done|]. rewrite Hlog in Ha.
  eapply applied_open; [|exact Ha]. intros l. rewrite (proj1 (proj2 (Hf r))), Hnum, Ht. by apply session_open_alter.
Qed.

(** C26: Only those GitHub says may prompt are acted for: a webhook with an author
    leads to no prompt, no key and no applied fleet unless the author is no bot
    and not the app itself and GitHub answered that the author may prompt in
    that repository, less than [PERMISSION_TTL] before the clock was read in
    this very webhook's handling and before anything was done. A closed webhook,
    which names no author, does nothing to an agent but at most one apply: of
    the fleet of that number's session, without it. No webhook panics. *)
Theorem only_permitted_act (w : World Call Actor) (ev : WebhookEvent) (Hw : actor_ok true w) :
  exists w', on_webhook ev w = Some (tt, w') /\ actor_ok true w' /\
    match event_author ev with
    | Some author =>
        exists l l', w'.2 = l' ++ l ++ w.2 /\ quiet_log l /\
          (quiet_log l' \/ granted (ga_slug w.1) (event_repo ev) author l w.2)
    | None =>
        (exists l, w'.2 = l ++ w.2 /\ quiet_log l) \/
        exists agent, by_number (event_repo ev) (event_number ev) (ga_sessions w.1) = Some agent /\
          applied (fleet_of agent) (session_open (fleet_of agent) (event_number ev) (ga_sessions w.1)) w.2 w'.2
    end.
Proof.
  destruct (event_author ev) as [author|] eqn:Ha.
  - assert (heeds (ga_slug w.1) (event_repo ev) author (on_webhook ev)) as Hh.
    { destruct ev; simpl in Ha; simplify_eq; cbn [on_webhook event_repo];
        [apply opening_heeds|apply opening_heeds|apply comment_heeds|apply review_heeds]. }
    destruct w as [s log]. destruct (Hh s log Hw eq_refl) as (w' & l & l' & E & Hw' & ?). exists w'. eauto.
  - destruct ev; try done. by apply closed_applied.
Qed.

(** ** Before the configuration *)

Lemma handle_fuel c w : buffered c -> handle_from 0 c w = handle_from 1 c w.
Proof. intros Hc. destruct c; try done. by destruct (Hc config). Qed.

Lemma handle_waiting cs s log : Forall buffered cs -> ga_config s = None ->
  for_each handle cs (s, log) = Some (tt, (set_pending_commands (ga_pending_commands s ++ cs) s, log)).
Proof.
  intros Hcs. revert s. induction Hcs as [|c cs Hc _ IH]; intros s Hs.
  - simpl. rewrite app_nil_r. by destruct s.
  - cbn [for_each]. erewrite run_bind.
    2:{ unfold handle. destruct c; [by destruct (Hc config)|..]; cbn [handle_from];
          (erewrite run_bind by reflexivity); simpl; rewrite Hs; reflexivity. }
    rewrite IH by done. simpl. by rewrite <- app_assoc.
Qed.

(** C33: What comes before the configuration waits for it: commands handled before
    their [Configure] call nobody and answer as the same commands handled right
    after it, in their order. *)
Theorem configure_replays (config : DaemonConfig) (cs : list Command) (w : World Call Actor)
    (Hcs : Forall buffered cs) (Hnone : ga_config w.1 = None) (Hempty : ga_pending_commands w.1 = []) :
  (exists s, for_each handle cs w = Some (tt, (s, w.2))) /\
  for_each handle (cs ++ [Configure config]) w = for_each handle (Configure config :: cs) w.
Proof.
  destruct w as [s log]. simpl in *. pose proof (handle_waiting cs s log Hcs Hnone) as Hwait. split; [by eexists|].
  rewrite (run_for_each_app _ _ _ _ _ Hwait), Hempty, app_nil_l. cbn [for_each].
  assert (forall p, handle (Configure config) (set_pending_commands p s, log) =
    for_each (handle_from 0) p (set_pending_commands [] (set_config (Some config) s), log)) as Hconf.
  { intros p. unfold handle. cbn [handle_from]. do 3 (erewrite run_bind by reflexivity). done. }
  assert (s = set_pending_commands [] s) as Hs by (destruct s; simpl in *; by subst).
  assert (handle (Configure config) (s, log) = Some (tt, (set_pending_commands [] (set_config (Some config) s), log))) as Hstart
    by (rewrite Hs; apply (Hconf [])).
  rewrite (run_bind _ _ _ _ _ Hstart), <- (for_each_ext (handle_from 0) handle cs);
    [|intros c w Hin; apply handle_fuel; by eapply Forall_forall in Hin].
  unfold mbind, task_bind. rewrite Hconf. by destruct (for_each (handle_from 0) cs _) as [[[] ?]|].
Qed.

(** ** A redelivered comment *)

(** [id] is among [l] with at most [k] ids after it, or with one more when that
    is the one being noted. *)
Definition recent_in (noting : option GhSession.Seen) (id : GhSession.Seen) (k : nat) (l : list GhSession.Seen) : Prop :=
  exists l1 l2, l = l1 ++ id :: l2 /\ (length l2 <= k \/ length l2 <= S k /\ exists x, noting = Some x /\ x ∈ l).

Lemma see_recent id x k r : S k < SEEN_LIMIT -> recent_in (Some x) id k (ss_seen r) -> recent_in (Some x) id k (ss_seen (see x r).2).
Proof.
  intros Hk (l1 & l2 & Hl & Hlen). unfold see. destruct (has_seen x r) eqn:Hs; [by exists l1, l2|].
  unfold has_seen in Hs. apply bool_decide_eq_false in Hs. destruct Hlen as [Hlen|(_ & y & [= <-] & Hin)]; [|done].
  cbn [snd set_seen ss_seen]. set (l := ss_seen r ++ [x]).
  assert (l = l1 ++ id :: (l2 ++ [x])) as -> by (unfold l; by rewrite Hl, <- app_assoc).
  assert (forall m, m <= length l1 -> recent_in (Some x) id k (drop m (l1 ++ id :: l2 ++ [x]))) as Hdrop.
  { intros m Hm. rewrite drop_app_le by done. exists (drop m l1), (l2 ++ [x]). split; [done|]. right.
    rewrite length_app. simpl. split; [lia|]. exists x. split; [done|]. set_solver. }
  case_match; [|by apply (Hdrop 0); lia]. apply Hdrop. rewrite length_app. simpl. rewrite length_app. simpl. lia.
Qed.

Lemma recent_noted noting id k l : recent_in noting id k l -> recent_in None id (k + length (option_list noting)) l.
Proof.
  intros (l1 & l2 & Hl & Hlen). exists l1, l2. split; [done|]. left. destruct Hlen as [?|(? & x & -> & _)]; simpl; lia.
Qed.
Lemma recent_none noting id k l : recent_in None id k l -> recent_in noting id k l.
Proof. intros (l1 & l2 & Hl & [?|(_ & x & [=] & _)]). exists l1, l2. split; [done|]. by left. Qed.
Lemma recent_has noting id k r : recent_in noting id k (ss_seen r) -> has_seen id r = true.
Proof. intros (l1 & l2 & Hl & _). unfold has_seen. apply bool_decide_true. rewrite Hl. set_solver. Qed.

(** The agent's row records [id] so. *)
Definition recent (noting : option GhSession.Seen) (agent : string) (id : GhSession.Seen) (k : nat) (t : Sessions) : Prop :=
  exists r, row agent t = Some r /\ recent_in noting id k (ss_seen r).

(** The agent's row is deleted from the store. *)
Definition erases (agent : string) (e : Event Call) : bool :=
  match e with Did (KvDelete key) _ => bool_decide (key = session_key agent) | _ => false end.

(** Since [log0] it has been deleted, or records [id] still. *)
Definition kept (noting : option GhSession.Seen) (agent : string) (id : GhSession.Seen) (k : nat) (log0 : list (Event Call))
    (t : Sessions) (log : list (Event Call)) : Prop :=
  exists l, log = l ++ log0 /\ (existsb (erases agent) l = true \/ recent noting agent id k t).

Lemma recent_minor noting agent id k t f a : minor f -> recent noting agent id k t -> recent noting agent id k (alter_row f a t).
Proof.
  intros Hf (r & Hr & Hs). unfold recent, row, alter_row in *. simpl. destruct (decide (agent = a)) as [->|Hne].
  - exists (f r). rewrite lookup_alter_eq, Hr. split; [done|]. by rewrite (proj2 (proj2 (Hf r))).
  - exists r. by rewrite lookup_alter_ne.
Qed.

Section kept.
Context (noting : option GhSession.Seen) (agent : string) (id : GhSession.Seen) (k : nat) (log0 : list (Event Call)).
Context (Hk : k + length (option_list noting) < SEEN_LIMIT).
Notation K := (kept noting agent id k log0).

Lemma kept_grows t log e : K t log -> K t (e :: log).
Proof. intros (l & -> & Hl). exists (e :: l). split; [done|]. destruct Hl as [Hl|Hl]; [left; simpl; by rewrite Hl, orb_true_r|by right]. Qed.
Lemma kept_rows t t' log : (recent noting agent id k t -> recent noting agent id k t') -> K t log -> K t' log.
Proof. intros Ht (l & -> & [Hl|Hl]); exists l; (split; [done|]); [by left|right; by apply Ht]. Qed.
Lemma kept_insert t log a r : derived (fun x => noting = Some x) t a r -> K t log -> K (insert_row a r t) log.
Proof.
  intros Hd. apply kept_rows. intros (r0 & Hr0 & Hs). unfold recent. rewrite row_insert. case_bool_decide as Ha; [|by exists r0]. subst a.
  exists r. split; [done|]. destruct (Hd r0 Hr0) as [->|(x & Hx & ->)]; [done|]. subst noting. simpl in Hk. apply see_recent; [lia|done].
Qed.
Lemma kept_remove t log a ans : K t log -> K (remove_row a t) (Did (KvDelete (session_key a)) ans :: log).
Proof.
  intros (l & -> & Hl). exists (Did (KvDelete (session_key a)) ans :: l). split; [done|]. simpl.
  destruct (decide (a = agent)) as [->|Hne]; [left; by rewrite bool_decide_true|].
  destruct Hl as [Hl|(r & Hr & Hs)]; [left; by rewrite Hl, orb_true_r|]. right. exists r. by rewrite row_remove, bool_decide_false.
Qed.
Lemma kept_minor t log f a : minor f -> K t log -> K (alter_row f a t) log.
Proof. intros Hf. apply kept_rows. by apply recent_minor. Qed.
Lemma kept_see t log x a : noting = Some x -> K t log -> K (alter_row (fun r => (see x r).2) a t) log.
Proof.
  intros Hx. apply kept_rows. intros (r & Hr & Hs). unfold recent, row, alter_row in *. simpl.
  destruct (decide (agent = a)) as [->|Hne]; [|exists r; by rewrite lookup_alter_ne].
  exists (see x r).2. rewrite lookup_alter_eq, Hr. split; [done|]. subst noting. simpl in Hk. apply see_recent; [lia|done].
Qed.

Lemma kept_dispatch command : buffered command -> fitting command -> noting = notes command ->
  keeps (fun w => I w /\ K (ga_sessions w.1) w.2) (dispatch command).
Proof.
  intros Hb Hf Hn. apply (ok_dispatch (fun x => noting = Some x) K); try done; try (by rewrite Hn);
    eauto using kept_grows, kept_insert, kept_remove, kept_minor, kept_see.
Qed.
End kept.

Lemma dispatch_turn gap command w : buffered command -> I w ->
  exists w1, turn gap command w = dispatch command w1 /\ I w1 /\ ga_sessions w1.1 = ga_sessions w.1 /\ w1.2 = w.2.
Proof.
  intros Hb Hw. destruct w as [s log]. destruct (ok_config _ _ Hw eq_refl) as [config Hc]. simpl in Hc.
  exists (if gap then set_deliveries (lose_track (ga_deliveries s)) s else s, log). split_and!.
  - unfold turn, when. destruct gap; (erewrite run_bind by reflexivity);
      (destruct command; [by destruct (Hb config0)|..]); unfold handle; cbn [handle_from]; (erewrite run_bind by reflexivity); simpl; by rewrite Hc.
  - destruct gap; [by destruct Hw|done].
  - by destruct gap.
  - done.
Qed.

Lemma turns_kept agent id log0 cs k w : Forall (fun c => buffered c /\ fitting c) cs.*2 ->
  k + length (omap notes cs.*2) < SEEN_LIMIT -> I w -> kept None agent id k log0 (ga_sessions w.1) w.2 ->
  exists w', turns cs w = Some (tt, w') /\ I w' /\ kept None agent id (k + length (omap notes cs.*2)) log0 (ga_sessions w'.1) w'.2.
Proof.
  revert k w. induction cs as [|[gap c] cs IH]; intros k w Hcs Hlen Hw Hkept.
  { exists w. split; [done|]. split; [done|]. simpl. by rewrite Nat.add_0_r. }
  rewrite fmap_cons in Hcs, Hlen. apply Forall_cons in Hcs as [[Hb Hf] Hcs]. simpl in Hb, Hf.
  assert (length (omap notes (c :: cs.*2)) = length (option_list (notes c)) + length (omap notes cs.*2)) as Hsum
    by (cbn [omap list_omap]; by destruct (notes c)).
  cbn [snd] in Hlen. rewrite Hsum in Hlen.
  destruct (dispatch_turn gap c w Hb Hw) as (w1 & E1 & Hw1 & Hs1 & Hl1).
  destruct (kept_dispatch (notes c) agent id k log0 ltac:(lia) c Hb Hf eq_refl w1) as ([] & w2 & E2 & [Hw2 Hk2] & _); [|done|].
  { split; [done|]. rewrite Hs1, Hl1. destruct Hkept as (l & -> & [Hl|(r & Hr & Hs)]); exists l; (split; [done|]); [by left|].
    right. exists r. split; [done|]. by apply recent_none. }
  destruct (IH (k + length (option_list (notes c))) w2 Hcs ltac:(lia) Hw2) as (w3 & E3 & Hw3 & Hk3).
  { destruct Hk2 as (l & -> & [Hl|(r & Hr & Hs)]); exists l; (split; [done|]); [by left|].
    right. exists r. split; [done|]. by apply recent_noted. }
  exists w3. split; [|split; [done|]].
  - unfold turns. cbn [for_each]. erewrite run_bind; [exact E3|]. by rewrite E1.
  - rewrite fmap_cons. cbn [snd]. by rewrite Hsum, Nat.add_assoc.
Qed.

Lemma remember_recent agent id r w : I w -> row agent (ga_sessions w.1) = Some r -> has_seen id r = false ->
  exists w', remember agent id w = Some (tt, w') /\ I w' /\ recent None agent id 0 (ga_sessions w'.1).
Proof.
  intros Hw Hr Hnew. destruct (base_remember agent id w Hw Logic.I) as ([] & w' & E & Hw' & _). exists w'.
  split; [done|]. split; [done|]. destruct w as [s log]. simpl in *.
  assert (recent_in None id 0 (ss_seen (see id r).2)) as Hin.
  { unfold see. rewrite Hnew. cbn [snd set_seen ss_seen]. assert (forall m, m <= length (ss_seen r) -> recent_in None id 0 (drop m (ss_seen r ++ [id]))) as Hd.
    { intros m Hm. rewrite drop_app_le by done. exists (drop m (ss_seen r)), []. split; [done|]. by left. }
    case_match; [|by apply (Hd 0); lia]. apply Hd. rewrite length_app. simpl. unfold SEEN_LIMIT. lia. }
  unfold remember, get_row in E. erewrite run_bind in E by reflexivity. cbn [fst] in E. rewrite Hr in E.
  assert (recent None agent id 0 (alter_row (fun r => (see id r).2) agent (ga_sessions s))) as Halter.
  { exists (see id r).2. split; [|done]. unfold row, alter_row. simpl. rewrite lookup_alter_eq. unfold row in Hr. by rewrite Hr. }
  assert (recent None agent id 0 (insert_row agent (see id r).2 (ga_sessions s))) as Hinsert.
  { exists (see id r).2. by rewrite row_insert, bool_decide_true. }
  assert ((see id r).1 = true) as Hfst by (unfold see; by rewrite Hnew).
  destruct (see id r) as [new r1] eqn:Hsee. simpl in *. subst new. cbn [negb] in E.
  unfold sessions_set in E. destruct (encode_session r1) as [bytes|e].
  2:{ erewrite run_bind in E by reflexivity. cbn beta iota in E. erewrite run_bind in E by reflexivity. injection E as <-. exact Halter. }
  apply run_bind_inv in E as (res & w1 & E1 & E). unfold kv_put, call in E1. erewrite run_bind in E1 by reflexivity.
  destruct (ask log (KvPut (session_key agent) bytes)) as [u|e].
  - erewrite run_bind in E1 by reflexivity. injection E1 as <- <-. injection E as <-. exact Hinsert.
  - injection E1 as <- <-. cbn beta iota in E. erewrite run_bind in E by reflexivity. injection E as <-. exact Halter.
Qed.

(** The first delivery records the comment before it passes it on. *)
Lemma comment_recent i repo n author id body is_pr agent r w : I w ->
  by_number repo n (ga_sessions w.1) = Some agent -> row agent (ga_sessions w.1) = Some r -> ss_closed r = false ->
  has_seen (SeenComment id) r = false -> fst <$> permitted i repo author w = Some true ->
  exists w', on_comment i repo n author id body is_pr w = Some (tt, w') /\ I w' /\ recent None agent (SeenComment id) 0 (ga_sessions w'.1).
Proof.
  intros Hw Hn Hr Hopen Hnew Hheard.
  destruct (permitted_run i repo author w Hw) as (b & w1 & l & E1 & Hw1 & _ & _ & Hsess & Hg).
  rewrite E1 in Hheard. injection Hheard as ->. destruct (Hg eq_refl) as (Hbot & Happ & _).
  unfold is_app in Happ. apply orb_false_iff in Happ as [Happ _].
  unfold on_comment. erewrite run_bind by reflexivity. rewrite Hbot, Happ. cbn [orb].
  unfold redelivered. erewrite run_bind by reflexivity. rewrite Hn. simpl. rewrite Hr, Hnew.
  rewrite (run_bind _ _ _ _ _ E1). cbn [negb]. unfold agent_of. erewrite run_bind by reflexivity. rewrite Hsess, Hn.
  destruct (refresh_run agent i w1 Hw1) as (w2 & E2 & Hw2 & _ & f & Hf & Ht). rewrite (run_bind _ _ _ _ _ E2).
  destruct (Hf r) as (_ & _ & Hclosed & _ & _ & Hseen).
  assert (row agent (ga_sessions w2.1) = Some (f r)) as Hr2.
  { rewrite Ht, Hsess. unfold row, alter_row. simpl. rewrite lookup_alter_eq. unfold row in Hr. by rewrite Hr. }
  unfold get_row. erewrite run_bind by reflexivity. rewrite Hr2, Hclosed, Hopen, andb_false_r. cbn [negb when].
  destruct (remember_recent agent (SeenComment id) (f r) w2 Hw2 Hr2) as (w3 & E3 & Hw3 & Hrec).
  { unfold has_seen in *. by rewrite Hseen. }
  rewrite (run_bind _ _ _ _ _ E3).
  assert (keeps (fun w => I w /\ recent None agent (SeenComment id) 0 (ga_sessions w.1))
    (on_message agent i repo n (au_login author) id body)) as Hmsg.
  { apply (ok_on_message (fun t _ => recent None agent (SeenComment id) 0 t)); [done|done|]. intros. by apply recent_minor. }
  destruct (Hmsg w3 (conj Hw3 Hrec) Logic.I) as ([] & w4 & E4 & [Hw4 Hrec4] & _). by exists w4.
Qed.

(** C28: A redelivered comment does nothing: once a comment of someone who may prompt
    has been heard on a number with an open session, whatever came of it and
    even when the store refused the row that remembers it, handling it again
    changes no state and calls nobody, whoever GitHub then names as its author
    and whatever its text. This holds after any further commands but another
    configuration, with or without gaps, of which fewer than [SEEN_LIMIT] are
    webhooks that may be noted (a comment, a review, an opening), as long as
    the number is still that session's and its row was not deleted from the
    store meanwhile. *)
Theorem comment_once (w : World Call Actor) i repo n author id body is_pr agent r (Hw : actor_ok true w)
    (Hn : by_number repo n (ga_sessions w.1) = Some agent) (Hr : row agent (ga_sessions w.1) = Some r)
    (Hopen : ss_closed r = false) (Hnew : has_seen (SeenComment id) r = false)
    (Hheard : fst <$> permitted i repo author w = Some true) :
  exists w', on_comment i repo n author id body is_pr w = Some (tt, w') /\ actor_ok true w' /\
    forall cs, Forall (fun c => buffered c /\ fitting c) cs.*2 -> length (omap notes cs.*2) < SEEN_LIMIT ->
      exists w'', turns cs w' = Some (tt, w'') /\ actor_ok true w'' /\
        (by_number repo n (ga_sessions w''.1) = Some agent ->
         (forall l, w''.2 = l ++ w'.2 -> existsb (erases agent) l = false) ->
         forall i' author' body' is_pr', on_comment i' repo n author' id body' is_pr' w'' = Some (tt, w'')).
Proof.
  destruct (comment_recent i repo n author id body is_pr agent r w Hw Hn Hr Hopen Hnew Hheard) as (w' & E & Hw' & Hrec).
  exists w'. split; [done|]. split; [done|]. intros cs Hcs Hlen.
  destruct (turns_kept agent (SeenComment id) w'.2 cs 0 w' Hcs Hlen Hw') as (w'' & E' & Hw'' & l & Hl & Hkept).
  { exists []. split; [done|]. by right. }
  exists w''. split; [done|]. split; [done|]. intros Hn' Herased i' author' body' is_pr'. specialize (Herased l Hl).
  destruct Hkept as [Hkept|(r' & Hr' & Hseen)]; [congruence|]. apply recent_has in Hseen.
  unfold on_comment. erewrite run_bind by reflexivity. destruct (au_bot author' || _); [done|].
  unfold redelivered. erewrite run_bind by reflexivity. rewrite Hn'. simpl. by rewrite Hr', Hseen.
Qed.
End runs.

(** ** A concrete run *)

Section sample.
#[local] Existing Instance ascii_letters.
#[local] Instance sample_escaped : Unicode := fun _ => false.
#[local] Instance sample_yaml : Yaml := fun _ =>
  Ok (VObject (<["apiVersion" := VString "balerix/v1"]> (<["kind" := VString "Fleet"]>
        {["crews" := VObject {["api" := VObject {["repo" := VString "acme/api"]}]}]}))).
#[local] Instance sample_json : JsonText := {| json_bytes _ := "[]"; json_parse _ := None |}.
#[local] Instance sample_rows : RowCodec := {| encode_session _ := Ok "row"; decode_session _ := None |}.
#[local] Instance sample_env : Env Call := fun _ c =>
  match c return Talk.Answer c with
  | KvList _ => Ok []
  | KvGet _ => Ok None
  | KvPut _ _ | KvDelete _ | DoAction _ _ | ApplyFleet _ _ => Ok tt
  | DefaultBranch _ _ => Ok "main"
  | ReadFile _ _ _ _ => Ok (Some "a fleet")
  | GetPermission _ _ _ => Ok PWrite
  | PostComment _ _ _ _ => Ok 1%N
  | EditComment _ _ _ _ | React _ _ _ _ => Ok tt
  | GetReview _ _ _ _ | GetIssue _ _ _ => Err NotFound
  | Now | UnixSecs => 100%N
  | Sleep _ => tt
  end.

Definition sample_config : DaemonConfig :=
  {| dc_private_key := "k"; dc_webhook_secret := "s"; dc_config_path := DEFAULT_CONFIG_PATH;
     dc_idle_timeout := DEFAULT_IDLE_TIMEOUT; dc_max_parts := 10; dc_slash_commands := [] |}.
Definition sample_author : Author := {| au_login := "ann"; au_bot := false |}.
Definition sample_comment : WebhookEvent := Commented "acme/api" 7 3 sample_author 11 "please go on" false.
Definition sample_row : Session := mkSession "acme/api" 7 KIssue 3 None None None None 90 false [].
Definition sample_agent : string := "gh-acme-api/api/issue-3".
Definition sample_state : Actor :=
  set_sessions (insert_row sample_agent sample_row no_sessions) (set_config (Some sample_config) (new_actor "balerix")).

Lemma sample_actor_ok : actor_ok true (sample_state, []).
Proof.
  split; try done. apply insert_row_ok, no_sessions_ok.
Qed.

Definition sample_opening : WebhookEvent := IssueOpened "acme/api" 7 3 sample_author "A title" "@balerix look" "url".
Definition sample_block : AgentConfig :=
  {| ac_enabled := true; ac_events := DEFAULT_EVENTS; ac_phases := true; ac_key_delay_ms := DEFAULT_KEY_DELAY_MS;
     ac_confirm_window := secs u64_max; ac_kind := Some KIssue; ac_number := Some 3%N |}.
Definition sample_start : HookEvent :=
  {| he_agent := sample_agent; he_name := "SessionStart"; he_session_id := None; he_received_at := 0;
     he_payload := VObject {["source" := VString "startup"]} |}.

(** The proviso on the confirm windows is no formality: one that the configuration
    accepts panics the actor on the session's first prompt. *)
Example confirm_window_panics :
  parse_duration "confirmWindow" "18446744073709551615s" = Ok u64_max /\ check_agent sample_block = Ok sample_block /\
  (_ ← load; turns [(false, Configure sample_config); (false, Webhook sample_opening);
                    (false, Activate sample_agent sample_block); (false, Events 0 [sample_start])]) (new_actor "balerix", []) = None.
Proof. split; [by vm_compute|]. split; [by vm_compute|]. by vm_compute. Qed.

Lemma actor_never_panics_witness :
  daemon_lists /\ fitting (Activate sample_agent agent_config_default) /\
  exists w, (_ ← load; turns [(false, Webhook sample_opening); (true, Configure sample_config);
                              (false, Activate sample_agent agent_config_default); (false, Events 0 [sample_start]); (false, Tick)])
    (new_actor "balerix", []) = Some (tt, w) /\ actor_ok true w.
Proof.
  assert (daemon_lists) as Hlists by by intros ? ? ? [= <-]. split; [done|].
  assert (fitting (Activate sample_agent agent_config_default)) as Hfit by by vm_compute. split; [done|].
  apply (actor_never_panics "balerix" [(false, Webhook sample_opening); (true, Configure sample_config);
    (false, Activate sample_agent agent_config_default); (false, Events 0 [sample_start]); (false, Tick)]); [done|].
  by repeat constructor.
Defined.

Lemma only_permitted_act_witness :
  event_author sample_comment = Some sample_author /\
  exists w' l l', on_webhook sample_comment (sample_state, []) = Some (tt, w') /\ actor_ok true w' /\
    w'.2 = l' ++ l ++ [] /\ Forall (fun e => acts e = false) l /\
    (Forall (fun e => acts e = false) l' \/ granted "balerix" "acme/api" sample_author l []).
Proof.
  split; [reflexivity|].
  destruct (only_permitted_act (sample_state, []) sample_comment sample_actor_ok) as (w' & E & Hw' & l & l' & Hl & Hq & Hg).
  by exists w', l, l'.
Defined.

Lemma applies_carry_sessions_witness :
  exists w', start 7 "acme/api" KIssue 4 "ann" "A title" "A body" "url" None (TComment 12) None (sample_state, []) = Some (tt, w') /\
    actor_ok true w' /\
    applied "gh-acme-api" (fun l => session_open "gh-acme-api" 4 (ga_sessions sample_state) l \/ l = new_live KIssue 4 None) [] w'.2.
Proof.
  exact (proj1 (applies_carry_sessions (sample_state, []) sample_actor_ok)
           7%N "acme/api" KIssue 4%N "ann" "A title" "A body" "url" None (TComment 12) None).
Defined.

Lemma configure_replays_witness :
  for_each handle [Webhook sample_comment; Tick; Configure sample_config] (new_actor "balerix", []) =
  for_each handle [Configure sample_config; Webhook sample_comment; Tick] (new_actor "balerix", []).
Proof.
  apply (configure_replays sample_config [Webhook sample_comment; Tick] (new_actor "balerix", []));
    [by repeat constructor|reflexivity|reflexivity].
Defined.

Definition sample_more : list (bool * Command) :=
  [(false, Webhook (Commented "acme/api" 7 3 sample_author 12 "and again" false)); (true, Tick);
   (false, Webhook (Commented "acme/api" 7 3 sample_author 13 "and again" false))].

Lemma comment_once_witness :
  row sample_agent (ga_sessions sample_state) = Some sample_row /\
  exists w' w'', on_comment 7 "acme/api" 3 sample_author 11 "please go on" false (sample_state, []) = Some (tt, w') /\
    turns sample_more w' = Some (tt, w'') /\
    on_comment 8 "acme/api" 3 {| au_login := "bob"; au_bot := false |} 11 "something else" true w'' = Some (tt, w'').
Proof.
  split; [by vm_compute|].
  destruct (comment_once (sample_state, []) 7 "acme/api" 3 sample_author 11 "please go on" false sample_agent sample_row sample_actor_ok)
    as (w' & E & _ & Hrest); [by vm_compute..|].
  destruct (Hrest sample_more) as (w'' & E' & _ & Hagain); [by repeat constructor|by vm_compute; lia|].
  exists w', w''. split; [done|]. split; [done|].
  assert (match on_comment 7 "acme/api" 3 sample_author 11 "please go on" false (sample_state, []) with
          | Some (_, w1) =>
              match turns sample_more w1 with
              | Some (_, w2) => by_number "acme/api" 3 (ga_sessions w2.1) = Some sample_agent /\ existsb (erases sample_agent) w2.2 = false
              | None => False
              end
          | None => False
          end) as Hrun by by vm_compute.
  rewrite E in Hrun. cbn beta iota in Hrun. rewrite E' in Hrun. cbn beta iota in Hrun. destruct Hrun as [Hn He].
  apply Hagain; [done|]. intros l Hl. rewrite Hl, existsb_app in He. by apply orb_false_iff in He as [? _].
Defined.
End sample.
