(* ===== verification/Rooms.v ===== *)
(** The state of the matrix plugin beside its questions: its two config blocks
    ([plugins/matrix/src/config.rs]), what it says to a homeserver ([matrix.rs]),
    the room, thread and route maps ([routing.rs]) and the guards against a
    message that arrives twice ([replay.rs]). *)

From S2P Require Import Prelude Str BTree Rules Bytes Delivery PluginConfig Sdk.
From S2P Require Parts Question.

(** ** Reactions and errors: [matrix.rs] *)

Definition ACK : string := "👍".
Definition REFUSED : string := "🚫".
Definition FAILED : string := "❗".
Definition CONFIRMED : string := "✅".
Definition SENT : string := "📨".

Inductive MatrixError := RateLimited (retry_after_ms : N) | Auth (message : string) | Other (message : string).

Definition matrix_error_display (e : MatrixError) : string :=
  match e with
  | RateLimited ms => "rate limited, retry in " +:+ pretty ms +:+ " ms"
  | Auth m => "auth: " +:+ m
  | Other m => m
  end.

Record Inbound := {
  in_room : string;
  in_event_id : string;
  in_sender : string;
  in_thread_root : option string;
  in_body : string;
  in_history : bool;
}.

(** ** The config blocks: [config.rs] *)

Definition DEFAULT_MAX_PARTS : nat := 10.
Definition BODY_LIMIT : nat := 4000.
Definition DEFAULT_CONFIRM_WINDOW : N := secs 30.

Record DaemonConfig := {
  dc_homeserver : string;
  dc_user_id : string;
  dc_password : option string;
  dc_device_id : string;
  dc_device_name : string;
  dc_invite : list string;
  dc_rooms : gmap string string;
  dc_max_parts : nat;
  dc_slash_commands : list string;
}.

Record AgentConfig := {
  ac_enabled : bool;
  ac_events : list string;
  ac_phases : bool;
  ac_key_delay_ms : N;
  ac_confirm_window : N;
}.

Definition agent_config_default : AgentConfig :=
  {| ac_enabled := true; ac_events := DEFAULT_EVENTS; ac_phases := true; ac_key_delay_ms := DEFAULT_KEY_DELAY_MS;
     ac_confirm_window := DEFAULT_CONFIRM_WINDOW |}.

Definition wants (c : AgentConfig) (event : string) : bool := wants_event (ac_events c) event.

Section checks.
Context `{Unicode}.

(** [parse_daemon] and [parse_agent], behind [deserialize]. *)
Definition check_daemon (c : DaemonConfig) : result ConfigError DaemonConfig :=
  _ ← ensure (starts_with (dc_homeserver c) "https://" || starts_with (dc_homeserver c) "http://")
        (invalid "homeserver" "must start with https:// or http://");
  _ ← ensure (starts_with (dc_user_id c) "@") (invalid "userId" "must be a full Matrix id starting with @");
  _ ← map_err (fun '(path, message) => invalid path message) (allowlist_validate "slashCommands" (dc_slash_commands c));
  _ ← ensure (negb (dc_max_parts c =? 0)) (invalid "maxParts" "must be at least 1");
  Ok c.

Definition check_agent (c : AgentConfig) : result ConfigError AgentConfig :=
  _ ← validate_events (ac_events c);
  _ ← validate_key_delay (ac_key_delay_ms c);
  Ok c.
End checks.

(** ** The maps: [routing.rs] *)

Definition ROOM_PREFIX : string := "room/".
Definition THREAD_PREFIX : string := "thread/".

Record Thread := mkThread {
  th_session_id : string;
  th_root : string;
  th_room : string;
  th_closed : bool;
}.
#[export] Instance thread_eq_dec : EqDecision Thread.
Proof. solve_decision. Defined.

(** [fleet/crew/agent] to [fleet/crew]. *)
Definition crew_of (agent : string) : option string :=
  i ← Parts.rfind "/"%char agent;
  let crew := Question.str_take i agent in
  if lacks "/"%char crew then None else Some crew.

Definition room_key (crew : string) : string := ROOM_PREFIX +:+ crew.
Definition thread_key (agent : string) : string := THREAD_PREFIX +:+ agent.

Record Maps := mkMaps {
  mp_rooms : gmap string string;
  mp_threads : gmap string Thread;
  mp_routes : gmap (string * string) string;
}.
Definition no_maps : Maps := mkMaps ∅ ∅ ∅.

Definition thread_at (t : Thread) : string * string := (th_room t, th_root t).

(** The route of the thread an agent had, dropped. *)
Definition unroute (agent : string) (m : Maps) : gmap (string * string) string :=
  match mp_threads m !! agent with
  | Some old => delete (thread_at old) (mp_routes m)
  | None => mp_routes m
  end.

Definition insert_thread (agent : string) (t : Thread) (m : Maps) : Maps :=
  mkMaps (mp_rooms m) (<[agent := t]> (mp_threads m)) (<[thread_at t := agent]> (unroute agent m)).
Definition insert_room (crew room : string) (m : Maps) : Maps :=
  mkMaps (<[crew := room]> (mp_rooms m)) (mp_threads m) (mp_routes m).

(** What [forget] does once the store let go of the thread. *)
Definition remove_thread (agent : string) (m : Maps) : Maps :=
  mkMaps (mp_rooms m) (delete agent (mp_threads m)) (unroute agent m).

Definition room (crew : string) (m : Maps) : option string := mp_rooms m !! crew.
Definition thread (agent : string) (m : Maps) : option Thread := mp_threads m !! agent.
Definition route (room root : string) (m : Maps) : option string := mp_routes m !! (room, root).
Definition close (closed : bool) (t : Thread) : Thread := mkThread (th_session_id t) (th_root t) (th_room t) closed.
Definition thread_rooms (m : Maps) : list string := th_room <$> values (mp_threads m).

(** ** What arrives twice: [replay.rs] *)

Definition ROUTED_KEY : string := "routed".
Definition MAX_IDS : nat := 256.
Definition MAX_RECORD_BYTES : N := 256 * 1024.

Inductive Entry := OwnJoin (ts : N) | Message (sender : string) (ts : N) | OtherEntry.

Definition server_of (user_id : string) : string :=
  match split_once ":"%char user_id with Some (_, server) => server | None => EmptyString end.

(** The last join of our own in a timeline. *)
Definition own_join (timeline : list Entry) : option (nat * N) :=
  last (omap (fun '(i, e) => match e with OwnJoin ts => Some (i, ts) | _ => None end) (imap pair timeline)).

Definition before_join (own_server : string) (at_ : nat) (joined : N) (i : nat) (e : Entry) : bool :=
  match e with
  | Message sender ts => (i <? at_) || (bool_decide (server_of sender = own_server) && (ts <? joined)%N)
  | _ => false
  end.

Definition history (own_user_id : string) (timeline : list Entry) : list bool :=
  match own_join timeline with
  | None => (fun _ => false) <$> timeline
  | Some (at_, joined) => imap (before_join (server_of own_user_id) at_ joined) timeline
  end.

(** The handled event ids of every room, oldest first. *)
Notation Marks := (gmap string (list string)).

Definition seen (room event_id : string) (m : Marks) : bool :=
  match m !! room with Some ids => bool_decide (event_id ∈ ids) | None => false end.

(** [push_back], and [pop_front] down to [MAX_IDS]. *)
Definition push_id (room event_id : string) (m : Marks) : Marks :=
  let ids := default [] (m !! room) ++ [event_id] in
  <[room := drop (length ids - MAX_IDS) ids]> m.

Definition retain_rooms (live : gset string) (m : Marks) : Marks := filter (fun kv => kv.1 ∈ live) m.

(** [max_by_key] keeps the last of the longest. *)
Definition longer (best : option (string * list string)) (x : string * list string) : option (string * list string) :=
  match best with
  | Some b => if length b.2 <=? length x.2 then Some x else best
  | None => Some x
  end.
Definition longest (m : Marks) : option (string * list string) := foldl longer None (entries m).

Definition id_count (m : Marks) : nat := sum_list (length <$> values m).

(** Ids dropped until the estimate fits. *)
Fixpoint shrink (fuel : nat) (size : N) (m : Marks) : Marks :=
  match fuel with
  | 0 => m
  | S fuel =>
      if (size <=? MAX_RECORD_BYTES)%N then m
      else
        match longest m with
        | Some (room, id :: ids) => shrink fuel (size - (len id + 3))%N (<[room := ids]> m)
        | _ => m
        end
  end.

(** serde's bytes of the marks and of a thread, and their reading. *)
Class RoomCodec := {
  encode_marks : Marks -> result string string;
  decode_marks : string -> option Marks;
  encode_thread : Thread -> result string string;
  decode_thread : string -> option Thread;
}.

Section record.
Context `{RoomCodec}.

(** The marks as they are stored, and their bytes or why there are none. *)
Fixpoint fit_record (fuel : nat) (m : Marks) (bytes : string) : Marks * result string string :=
  match fuel with
  | 0 => (m, Ok bytes)
  | S fuel =>
      if (len bytes <=? MAX_RECORD_BYTES)%N then (m, Ok bytes)
      else
        let m := shrink (S (id_count m)) (len bytes) m in
        match encode_marks m with
        | Err e => (m, Err e)
        | Ok shorter =>
            if (len shorter =? len bytes)%N then (m, Ok bytes) else fit_record fuel m shorter
        end
  end.

(** [store], up to the write. *)
Definition record_bytes (m : Marks) : Marks * result string string :=
  match encode_marks m with
  | Err e => (m, Err e)
  | Ok bytes => fit_record (S (id_count m)) m bytes
  end.
End record.

(** ** The routes follow the threads *)

(** A route leads to the agent whose thread it is. *)
Definition maps_ok (m : Maps) : Prop := forall room_ root agent, route room_ root m = Some agent ->
  exists t, thread agent m = Some t /\ thread_at t = (room_, root).

Lemma no_maps_ok : maps_ok no_maps.
Proof. intros room_ root agent Hr. unfold route in Hr. simpl in Hr. by rewrite lookup_empty in Hr. Qed.

Lemma unroute_Some agent m key a : maps_ok m -> unroute agent m !! key = Some a ->
  a <> agent /\ exists t, thread a m = Some t /\ thread_at t = key.
Proof.
  intros Hm Hr. unfold unroute in Hr. destruct key as [r root].
  destruct (mp_threads m !! agent) as [old|] eqn:Hold.
  - apply lookup_delete_Some in Hr as [Hne Hr]. destruct (Hm r root a Hr) as (t & Ht & Hat). split; [|by exists t].
    intros ->. unfold thread in Ht. rewrite Hold in Ht. by injection Ht as ->.
  - destruct (Hm r root a Hr) as (t & Ht & Hat). split; [|by exists t]. intros ->. unfold thread in Ht. by rewrite Hold in Ht.
Qed.

Lemma insert_thread_ok agent t m : maps_ok m -> maps_ok (insert_thread agent t m).
Proof.
  intros Hm r root a Hr. unfold route, insert_thread in Hr. simpl in Hr. unfold thread, insert_thread. simpl.
  apply lookup_insert_Some in Hr as [[Hat ->]|[_ Hr]].
  - exists t. by rewrite lookup_insert_eq.
  - destruct (unroute_Some _ _ _ _ Hm Hr) as (Hne & t' & Ht & Hat). exists t'. by rewrite lookup_insert_ne.
Qed.

Lemma remove_thread_ok agent m : maps_ok m -> maps_ok (remove_thread agent m).
Proof.
  intros Hm r root a Hr. unfold thread, remove_thread. simpl.
  destruct (unroute_Some _ _ _ _ Hm Hr) as (Hne & t' & Ht & Hat). exists t'. by rewrite lookup_delete_ne.
Qed.

Lemma insert_room_ok crew r m : maps_ok m -> maps_ok (insert_room crew r m).
Proof. done. Qed.

(** The place of every thread has a route. *)
Definition routed_threads (m : Maps) : Prop := forall agent t, thread agent m = Some t -> is_Some (route (th_room t) (th_root t) m).

Lemma insert_same_routed agent t m : (forall old, thread agent m = Some old -> old = t) -> routed_threads m ->
  routed_threads (insert_thread agent t m).
Proof.
  intros Hold Hm a t' Ht'. unfold route, thread, insert_thread in *. simpl in *. change (th_room t', th_root t') with (thread_at t').
  destruct (decide (thread_at t = thread_at t')) as [<-|Hne]; [rewrite lookup_insert_eq; by eexists|].
  rewrite lookup_insert_ne by done. destruct (decide (agent = a)) as [<-|Ha]; [rewrite lookup_insert_eq in Ht'; by simplify_eq|].
  rewrite lookup_insert_ne in Ht' by done. unfold unroute. destruct (mp_threads m !! agent) as [old|] eqn:Hagent; [|by apply (Hm a)].
  rewrite lookup_delete_ne; [by apply (Hm a)|]. by rewrite (Hold old eq_refl).
Qed.

(** ** What the stored record keeps *)

Section longest.
Lemma longer_foldl l best : match foldl longer best l with
  | Some b => (best = Some b \/ b ∈ l) /\ Forall (fun x => length x.2 <= length b.2) l /\
      (forall b0, best = Some b0 -> length b0.2 <= length b.2)
  | None => best = None /\ l = []
  end.
Proof.
  revert best. induction l as [|x l IH]; intros best; simpl; [destruct best; naive_solver|].
  specialize (IH (longer best x)). destruct (foldl longer (longer best x) l) as [b|].
  - destruct IH as (Hin & Hl & Hb). assert (exists y, longer best x = Some y /\ length x.2 <= length y.2 /\
      (forall b0, best = Some b0 -> length b0.2 <= length y.2) /\ (best = Some y \/ y = x)) as (y & Hy & Hx & Hbest & Hor).
    { unfold longer. destruct best as [b0|]; [|exists x; split_and!; [done|done|by intros|by right]]. destruct (Nat.leb_spec (length b0.2) (length x.2)).
      - exists x. split; [done|]. split; [done|]. split; [by intros ? [= <-]|by right].
      - exists b0. split; [done|]. split; [lia|]. split; [by intros ? [= <-]|by left]. }
    rewrite Hy in *. pose proof (Hb y eq_refl) as Hyb. split.
    + destruct Hin as [[= ->]|Hin]; [destruct Hor as [->| ->]; [by left|right; by left]|right; by right].
    + split; [constructor; [lia|done]|]. intros b0 Hb0. specialize (Hbest b0 Hb0). lia.
  - destruct IH as [Hn _]. unfold longer in Hn. destruct best; [by destruct (_ <=? _)|done].
Qed.

Lemma longest_Some m r ids : longest m = Some (r, ids) ->
  m !! r = Some ids /\ forall r' ids', m !! r' = Some ids' -> length ids' <= length ids.
Proof.
  intros Hl. pose proof (longer_foldl (entries m) None) as Hf. fold (longest m) in Hf. rewrite Hl in Hf.
  destruct Hf as ([Hn|Hin] & Hall & _); [done|]. split; [by apply elem_of_entries|].
  intros r' ids' Hr'. rewrite Forall_forall in Hall. apply (Hall (r', ids')). by apply elem_of_entries.
Qed.
Lemma longest_None m : longest m = None -> m = ∅.
Proof.
  intros Hl. pose proof (longer_foldl (entries m) None) as Hf. fold (longest m) in Hf. rewrite Hl in Hf. by apply entries_nil, Hf.
Qed.
End longest.

(** The oldest id of the longest list, dropped. *)
Definition drop1 (m m' : Marks) : Prop := exists r id ids, longest m = Some (r, id :: ids) /\ m' = <[r := ids]> m.
Definition emptied (m : Marks) : Prop := map_Forall (fun _ ids => ids = []) m.

Lemma longest_emptied m : match longest m with Some (_, _ :: _) => False | _ => True end -> emptied m.
Proof.
  destruct (longest m) as [[r [|id ids]]|] eqn:Hl; [|done|].
  - intros _ r' ids' Hr'. apply longest_Some in Hl as [_ Hle]. specialize (Hle r' ids' Hr'). destruct ids'; [done|simpl in Hle; lia].
  - intros _ r' ids' Hr'. apply longest_None in Hl as ->. by rewrite lookup_empty in Hr'.
Qed.

Lemma shrink_drops fuel size m : rtc drop1 m (shrink fuel size m).
Proof.
  revert size m. induction fuel as [|fuel IH]; intros size m; [apply rtc_refl|]. cbn [shrink].
  destruct (size <=? MAX_RECORD_BYTES)%N; [apply rtc_refl|]. destruct (longest m) as [[r [|id ids]]|] eqn:Hl; try apply rtc_refl.
  eapply rtc_l; [|apply IH]. by exists r, id, ids.
Qed.

(** It drops an id when one is left. *)
Lemma shrink_moves fuel size m : (MAX_RECORD_BYTES < size)%N -> tc drop1 m (shrink (S fuel) size m) \/ emptied m.
Proof.
  intros Hs. cbn [shrink]. rewrite (proj2 (N.leb_gt _ _) Hs). destruct (longest m) as [[r [|id ids]]|] eqn:Hl.
  - right. apply longest_emptied. by rewrite Hl.
  - left. eapply tc_rtc_r; [apply tc_once; by exists r, id, ids|apply shrink_drops].
  - right. apply longest_emptied. by rewrite Hl.
Qed.

Lemma shrink_emptied fuel size m : emptied m -> shrink fuel size m = m.
Proof.
  intros He. destruct fuel as [|fuel]; [done|]. cbn [shrink]. destruct (size <=? MAX_RECORD_BYTES)%N; [done|].
  destruct (longest m) as [[r [|id ids]]|] eqn:Hl; try done. apply longest_Some in Hl as [Hr _]. by specialize (He r _ Hr).
Qed.

Lemma sum_lengths_perm (l l' : list (string * list string)) : l ≡ₚ l' ->
  sum_list (length <$> l.*2) = sum_list (length <$> l'.*2).
Proof. intros Hl. induction Hl; csimpl in *; lia. Qed.

Lemma id_count_insert m r ids : m !! r = None -> id_count (<[r := ids]> m) = length ids + id_count m.
Proof.
  intros Hr. unfold id_count, values. rewrite !(sum_lengths_perm _ _ (entries_perm _)).
  by rewrite (sum_lengths_perm _ _ (map_to_list_insert m r ids Hr)).
Qed.

Lemma id_count_drop m r id ids : m !! r = Some (id :: ids) -> id_count m = S (id_count (<[r := ids]> m)).
Proof.
  intros Hr. rewrite <- (insert_delete_id m r (id :: ids)) at 1 by done. rewrite <- (insert_delete_eq m r ids).
  rewrite (id_count_insert _ r (id :: ids)) by apply lookup_delete_eq. rewrite (id_count_insert _ r ids) by apply lookup_delete_eq. done.
Qed.
Lemma drop1_count m m' : drop1 m m' -> id_count m = S (id_count m').
Proof. intros (r & id & ids & [Hr _]%longest_Some & ->). by apply id_count_drop with id. Qed.
Lemma drops_count m m' : rtc drop1 m m' -> id_count m' <= id_count m.
Proof. induction 1 as [|m1 m2 m3 H1 _ IH]; [done|]. apply drop1_count in H1. lia. Qed.

(** What is left of every room's ids is the end of what it had; a list is
    emptied only when none holds more than one. *)
Record kept (m m' : Marks) : Prop := {
  kp_dom r : is_Some (m' !! r) <-> is_Some (m !! r);
  kp_suffix r ids ids' : m !! r = Some ids -> m' !! r = Some ids' -> ids' `suffix_of` ids;
  kp_newest r ids : m !! r = Some ids -> ids <> [] -> m' !! r = Some [] ->
    forall r' ids', m' !! r' = Some ids' -> length ids' <= 1;
}.

Lemma kept_refl m : kept m m.
Proof. split; [done|by intros; simplify_eq|]. intros; by simplify_eq. Qed.

Lemma kept_drop1 m m1 m2 : kept m m1 -> drop1 m1 m2 -> kept m m2.
Proof.
  intros [Hd Hs Hn] (r & id & ids & [Hr Hmax]%longest_Some & ->).
  split.
  - intros r'. rewrite <- Hd. destruct (decide (r = r')) as [<-|Hne]; [by rewrite lookup_insert_eq, Hr|by rewrite lookup_insert_ne].
  - intros r' l l' Hl Hl'. destruct (decide (r = r')) as [<-|Hne].
    + rewrite lookup_insert_eq in Hl'. injection Hl' as <-. etransitivity; [|by apply (Hs r)]. by apply suffix_cons_r.
    + rewrite lookup_insert_ne in Hl' by done. by apply (Hs r').
  - intros r' l Hl Hne Hempty r'' l'' Hl''.
    assert (length l'' <= length ids \/ exists l0, m1 !! r'' = Some l0 /\ l0 = l'') as Hlen.
    { destruct (decide (r = r'')) as [<-|Hn'].
      - rewrite lookup_insert_eq in Hl''. injection Hl'' as <-. by left.
      - rewrite lookup_insert_ne in Hl'' by done. right. by exists l''. }
    destruct (decide (r = r')) as [<-|Hn'].
    + rewrite lookup_insert_eq in Hempty. injection Hempty as ->. simpl in *. destruct Hlen as [Hlen|(l0 & Hl0 & ->)]; [lia|].
      by apply (Hmax r'').
    + rewrite lookup_insert_ne in Hempty by done. pose proof (Hn r' l Hl Hne Hempty) as Hall.
      destruct Hlen as [Hlen|(l0 & Hl0 & ->)]; [|by apply (Hall r'')]. specialize (Hall r _ Hr). simpl in Hall. lia.
Qed.

Lemma kept_drops m m1 m2 : rtc drop1 m1 m2 -> kept m m1 -> kept m m2.
Proof. induction 1 as [|m1 m2 m3 H1 _ IH]; [done|]. intros Hk. apply IH. by apply (kept_drop1 m m1). Qed.

Lemma tc_first {A} (R : relation A) x y : tc R x y -> exists z, R x z /\ rtc R z y.
Proof.
  intros Ht. destruct Ht as [x y Hr|x y z Hr Ht]; [exists y|exists y]; (split; [done|]); [apply rtc_refl|by apply tc_rtc].
Qed.

Section fits.
Context `{RoomCodec}.

(** Without one of its ids a record is shorter. *)
Definition drops_shorten : Prop := forall m r id ids bytes, m !! r = Some (id :: ids) -> encode_marks m = Ok bytes ->
  exists bytes', encode_marks (<[r := ids]> m) = Ok bytes' /\ (len bytes' < len bytes)%N.
Context (Hshort : drops_shorten).

Lemma drops_encode m m' bytes : rtc drop1 m m' -> encode_marks m = Ok bytes ->
  exists bytes', encode_marks m' = Ok bytes' /\ (len bytes' <= len bytes)%N.
Proof.
  intros Hd. revert bytes. induction Hd as [|m1 m2 m3 (r & id & ids & [Hr _]%longest_Some & ->) _ IH]; intros bytes Hb.
  - by exists bytes.
  - destruct (Hshort _ _ _ _ _ Hr Hb) as (b2 & Hb2 & Hlt). destruct (IH b2 Hb2) as (b3 & Hb3 & Hle). exists b3. split; [done|lia].
Qed.

Lemma drops_encode_strict m m' bytes : tc drop1 m m' -> encode_marks m = Ok bytes ->
  exists bytes', encode_marks m' = Ok bytes' /\ (len bytes' < len bytes)%N.
Proof.
  intros (m1 & (r & id & ids & [Hr _]%longest_Some & ->) & Hd)%tc_first Hb.
  destruct (Hshort _ _ _ _ _ Hr Hb) as (b2 & Hb2 & Hlt). destruct (drops_encode _ _ _ Hd Hb2) as (b3 & Hb3 & Hle).
  exists b3. split; [done|lia].
Qed.

Lemma fit_record_fits fuel m bytes : id_count m < fuel -> encode_marks m = Ok bytes ->
  exists m' bytes', fit_record fuel m bytes = (m', Ok bytes') /\ rtc drop1 m m' /\ encode_marks m' = Ok bytes' /\
    ((len bytes' <= MAX_RECORD_BYTES)%N \/ emptied m').
Proof.
  revert m bytes. induction fuel as [|fuel IH]; intros m bytes Hf Hb; [lia|]. cbn [fit_record].
  destruct (N.leb_spec (len bytes) MAX_RECORD_BYTES) as [Hle|Hgt].
  { exists m, bytes. split_and!; [done|apply rtc_refl|done|by left]. }
  destruct (shrink_moves (id_count m) (len bytes) m Hgt) as [Hd|He].
  - destruct (drops_encode_strict _ _ _ Hd Hb) as (b2 & Hb2 & Hlt). rewrite Hb2.
    rewrite (proj2 (N.eqb_neq _ _)) by lia. pose proof Hd as (m1 & H1%drop1_count & Hrest%drops_count)%tc_first.
    destruct (IH (shrink (S (id_count m)) (len bytes) m) b2) as (m' & b' & E & Hd' & Hb' & Hfit); [lia|done|]. exists m', b'. split; [done|]. split; [|done].
    etransitivity; [apply tc_rtc, Hd|done].
  - rewrite (shrink_emptied _ _ _ He), Hb, N.eqb_refl. exists m, bytes. split_and!; [done|apply rtc_refl|done|by right].
Qed.

(** The stored record: the marks that fit it keep the newest ids of every room,
    no room losing its last one while another has more; marks that fit already
    are stored as they are. *)
Theorem record_fits m bytes (Hb : encode_marks m = Ok bytes) :
  exists m' bytes', record_bytes m = (m', Ok bytes') /\ encode_marks m' = Ok bytes' /\ kept m m' /\
    ((len bytes' <= MAX_RECORD_BYTES)%N \/ emptied m') /\ ((len bytes <= MAX_RECORD_BYTES)%N -> m' = m).
Proof.
  unfold record_bytes. rewrite Hb.
  destruct (fit_record_fits (S (id_count m)) m bytes) as (m' & b' & E & Hd & Hb' & Hfit); [lia|done|].
  exists m', b'. split_and!; [done|done|by eapply kept_drops, kept_refl|done|]. intros Hle%N.leb_le. cbn [fit_record] in E.
  rewrite Hle in E. by injection E.
Qed.
End fits.

(** ** History *)

Lemma own_join_last timeline a joined : own_join timeline = Some (a, joined) ->
  timeline !! a = Some (OwnJoin joined) /\ forall i ts, timeline !! i = Some (OwnJoin ts) -> i <= a.
Proof.
  unfold own_join. induction timeline as [|e timeline IH] using rev_ind; [done|].
  rewrite imap_app, omap_app. cbn [imap omap list_omap]. rewrite Nat.add_0_r. destruct e as [ts|s ts|].
  - rewrite last_snoc. intros [= <- <-]. rewrite list_lookup_middle by done. split; [done|]. intros i ts' Hi.
    apply lookup_lt_Some in Hi. rewrite length_app in Hi. simpl in Hi. lia.
  - rewrite app_nil_r. intros [Ha Hmax]%IH. split; [by apply lookup_app_l_Some|]. intros i ts' Hi.
    apply lookup_app_Some in Hi as [Hi|[_ Hi]]; [by apply (Hmax i ts')|]. by destruct (i - length timeline) as [|[]].
  - rewrite app_nil_r. intros [Ha Hmax]%IH. split; [by apply lookup_app_l_Some|]. intros i ts' Hi.
    apply lookup_app_Some in Hi as [Hi|[_ Hi]]; [by apply (Hmax i ts')|]. by destruct (i - length timeline) as [|[]].
Qed.

Lemma own_join_None timeline : own_join timeline = None -> forall i ts, timeline !! i <> Some (OwnJoin ts).
Proof.
  unfold own_join. induction timeline as [|e timeline IH] using rev_ind; [done|].
  rewrite imap_app, omap_app. cbn [imap omap list_omap]. intros Hn. destruct e as [ts|s ts|]; [by rewrite last_snoc in Hn| |];
    rewrite app_nil_r in Hn; intros i ts' Hi; apply lookup_app_Some in Hi as [Hi|[_ Hi]];
    try (by apply (IH Hn i ts')); by destruct (i - length timeline) as [|[]].
Qed.

(** What a join brings is history exactly when it is a message before our last
    join in the timeline, or one after it from our own server dated before it:
    without a join nothing is, and no other server's clock is believed. *)
Theorem history_exact own timeline i : history own timeline !! i = Some true <->
  exists sender ts a joined, timeline !! i = Some (Message sender ts) /\ timeline !! a = Some (OwnJoin joined) /\
    (forall k ts', timeline !! k = Some (OwnJoin ts') -> k <= a) /\
    (i < a \/ server_of sender = server_of own /\ (ts < joined)%N).
Proof.
  unfold history. destruct (own_join timeline) as [[a joined]|] eqn:Hj.
  - apply own_join_last in Hj as [Ha Hmax]. rewrite list_lookup_imap. split.
    + destruct (timeline !! i) as [e|]; [|done]. intros [= He]. destruct e as [ts|sender ts|]; [done| |done].
      exists sender, ts, a, joined. split_and!; [done|done|done|]. simpl in He.
      apply orb_true_iff in He as [He%Nat.ltb_lt|[He1%bool_decide_eq_true He2%N.ltb_lt]%andb_true_iff]; [by left|by right].
    + intros (sender & ts & a' & joined' & -> & Ha' & Hmax' & Hor). assert (a' = a) as ->.
      { specialize (Hmax _ _ Ha'). specialize (Hmax' _ _ Ha). lia. }
      rewrite Ha in Ha'. injection Ha' as ->. simpl. f_equal. apply orb_true_iff.
      destruct Hor as [Hlt|[He1 He2]]; [left; by apply Nat.ltb_lt|right]. rewrite bool_decide_true by done. by apply N.ltb_lt.
  - split.
    + rewrite list_lookup_fmap. by destruct (timeline !! i).
    + intros (? & ? & a & joined & _ & Ha & _). by destruct (own_join_None _ Hj a joined).
Qed.

(** ** A concrete record *)

Section sample.
Fixpoint tally (n : nat) : string := match n with O => EmptyString | S n => String "|" (tally n) end.
Lemma tally_length n : String.length (tally n) = n.
Proof. induction n as [|n IH]; simpl; [done|by rewrite IH]. Qed.

(** Marks as one stroke for each id. *)
#[local] Instance tally_codec : RoomCodec := {|
  encode_marks m := Ok (tally (id_count m)); decode_marks _ := None; encode_thread _ := Ok "{}"; decode_thread _ := None
|}.
Definition sample_marks : gmap string (list string) := {[ "!a:home" := ["$1"; "$2"]; "!b:home" := ["$3"] ]}.

Lemma record_fits_witness :
  drops_shorten /\ exists m' bytes', record_bytes sample_marks = (m', Ok bytes') /\ kept sample_marks m' /\ m' = sample_marks.
Proof.
  assert drops_shorten as Hshort.
  { intros m r id ids bytes Hr [= <-]. exists (tally (id_count (<[r := ids]> m))). split; [reflexivity|].
    unfold len. rewrite !tally_length, (id_count_drop m r id ids Hr). lia. }
  split; [exact Hshort|].
  destruct (record_fits Hshort sample_marks "|||" eq_refl) as (m' & b' & E & _ & Hk & _ & Hsame).
  exists m', b'. split; [exact E|]. split; [exact Hk|]. apply Hsame. vm_compute. discriminate.
Defined.
End sample.
