(* ===== verification/MxActor.v ===== *)
(** The matrix plugin's actor ([plugins/matrix/src/actor.rs]): a room per crew, a
    thread per session, and a reply in a thread back to its agent. It is a
    [Talk.Task], like the github actor: every call to the daemon, to the
    homeserver and to the clock is answered by an environment that may answer
    anything, failures included. Counters, gauges and logs are left out. *)

From S2P Require Import Prelude Str BTree Rules Json Bytes Text Delivery Question Answer Render PluginConfig.
From S2P Require Import Talk Sdk Rooms.
From S2P Require Parts Queue.

(** ** Constants *)

(** In nanoseconds, and the retry in milliseconds. *)
Definition CREATE_COOLDOWN_MIN : N := secs 5.
Definition CREATE_COOLDOWN_MAX : N := secs 300.
Definition MAX_INLINE_RETRY : N := 3000.
Definition UNTRACKED : string :=
  "the plugin is not following this agent right now (it is stopping, or starting again); send it once more shortly.".

(** ** State *)

Record Cooldown := mkCooldown { cd_until : N; cd_wait : N }.

Inductive Tracking :=
| TrackOther
| TrackOpened (questions : list Question)
| TrackUnparsed
| TrackClosed (was : option OpenQuestion).

(** Where the reaction or the note of a routed prompt goes. *)
Record Sent := { sm_room : string; sm_root : string; sm_event_id : string; sm_agent : string }.

Inductive Unconfirmed := Expired | Skipped | Evicted.

Inductive Command :=
| Configure (config : DaemonConfig)
| Activate (agent : string) (config : AgentConfig)
| Deactivate (agent : string)
| Events (dropped : N) (events : list HookEvent)
| Phases (changes : list PhaseChange)
| Incoming (message : Inbound)
| Tick.

Record Actor := mkActor {
  ma_config : option DaemonConfig;
  ma_pending_commands : list Command;
  ma_agents : gmap string AgentConfig;
  ma_maps : Maps;
  ma_questions : Questions;
  ma_cooldowns : gmap string Cooldown;
  ma_deliveries : Deliveries Sent;
  ma_marks : Marks;
  ma_health : option string;
}.

(** Field assignments. *)
Definition set_config (x : option DaemonConfig) (s : Actor) : Actor :=
  mkActor x (ma_pending_commands s) (ma_agents s) (ma_maps s) (ma_questions s)
    (ma_cooldowns s) (ma_deliveries s) (ma_marks s) (ma_health s).
Definition set_pending_commands (x : list Command) (s : Actor) : Actor :=
  mkActor (ma_config s) x (ma_agents s) (ma_maps s) (ma_questions s)
    (ma_cooldowns s) (ma_deliveries s) (ma_marks s) (ma_health s).
Definition set_agents (x : gmap string AgentConfig) (s : Actor) : Actor :=
  mkActor (ma_config s) (ma_pending_commands s) x (ma_maps s) (ma_questions s)
    (ma_cooldowns s) (ma_deliveries s) (ma_marks s) (ma_health s).
Definition set_maps (x : Maps) (s : Actor) : Actor :=
  mkActor (ma_config s) (ma_pending_commands s) (ma_agents s) x (ma_questions s)
    (ma_cooldowns s) (ma_deliveries s) (ma_marks s) (ma_health s).
Definition set_questions (x : Questions) (s : Actor) : Actor :=
  mkActor (ma_config s) (ma_pending_commands s) (ma_agents s) (ma_maps s) x
    (ma_cooldowns s) (ma_deliveries s) (ma_marks s) (ma_health s).
Definition set_cooldowns (x : gmap string Cooldown) (s : Actor) : Actor :=
  mkActor (ma_config s) (ma_pending_commands s) (ma_agents s) (ma_maps s) (ma_questions s)
    x (ma_deliveries s) (ma_marks s) (ma_health s).
Definition set_deliveries (x : Deliveries Sent) (s : Actor) : Actor :=
  mkActor (ma_config s) (ma_pending_commands s) (ma_agents s) (ma_maps s) (ma_questions s)
    (ma_cooldowns s) x (ma_marks s) (ma_health s).
Definition set_marks (x : Marks) (s : Actor) : Actor :=
  mkActor (ma_config s) (ma_pending_commands s) (ma_agents s) (ma_maps s) (ma_questions s)
    (ma_cooldowns s) (ma_deliveries s) x (ma_health s).
Definition set_health (x : option string) (s : Actor) : Actor :=
  mkActor (ma_config s) (ma_pending_commands s) (ma_agents s) (ma_maps s) (ma_questions s)
    (ma_cooldowns s) (ma_deliveries s) (ma_marks s) x.

Definition new_actor : Actor := mkActor None [] ∅ no_maps ∅ ∅ ∅ ∅ None.

(** ** The environment *)

(** The daemon's store and actions, the homeserver's port, the clock. *)
Inductive Call :=
| KvList (prefix : string)
| KvGet (key : string)
| KvPut (key bytes : string)
| KvDelete (key : string)
| DoAction (agent : string) (action : PluginAction)
| CreateRoom (name : string) (invite : list string)
| SendMessage (room : string) (thread_root : option string) (markdown : string)
| React (room event_id key : string)
| Now
| Sleep (ms : N).

#[export] Instance protocol : Protocol Call := fun c =>
  match c with
  | KvList _ => result SdkError (list string)
  | KvGet _ => result SdkError (option string)
  | KvPut _ _ | KvDelete _ | DoAction _ _ => result SdkError unit
  | CreateRoom _ _ | SendMessage _ _ _ => result MatrixError string
  | React _ _ _ => result MatrixError unit
  | Now => N
  | Sleep _ => unit
  end.

Notation Act := (Task Call Actor).

Section actor.
Context `{!Env Call, !Unicode, !Letters, !JsonText, !RoomCodec}.
(** The account the port is logged in as. *)
Context (user_id : string).

Definition kv_list (prefix : string) : Act (result SdkError (list string)) := call (KvList prefix).
Definition kv_get (key : string) : Act (result SdkError (option string)) := call (KvGet key).
Definition kv_put (key bytes : string) : Act (result SdkError unit) := call (KvPut key bytes).
Definition kv_delete (key : string) : Act (result SdkError unit) := call (KvDelete key).
Definition host_action (agent : string) (a : PluginAction) : Act (result SdkError unit) := call (DoAction agent a).
Definition create_room (name : string) (invite : list string) : Act (result MatrixError string) := call (CreateRoom name invite).
Definition port_send (room : string) (thread_root : option string) (markdown : string) : Act (result MatrixError string) :=
  call (SendMessage room thread_root markdown).
Definition port_react (room event_id key : string) : Act (result MatrixError unit) := call (React room event_id key).
Definition instant_now : Act N := call Now.
Definition sleep (ms : N) : Act unit := call (Sleep ms).

(** [&mut] of a field, by its assignment. *)
Definition update {A} (get : Actor -> A) (set : A -> Actor -> Actor) (f : A -> A) : Act unit :=
  modify (fun s => set (f (get s)) s).
Definition upd_agents := update ma_agents set_agents.
Definition upd_maps := update ma_maps set_maps.
Definition upd_questions := update ma_questions set_questions.
Definition upd_cooldowns := update ma_cooldowns set_cooldowns.
Definition upd_deliveries := update ma_deliveries set_deliveries.
Definition upd_marks := update ma_marks set_marks.
Definition upd_health := update ma_health set_health.

Definition retry_once {A} (m : Act (result MatrixError A)) : Act (result MatrixError A) :=
  attempt ← m;
  match attempt with
  | Err (RateLimited ms) =>
      if (MAX_INLINE_RETRY <? ms)%N then mret attempt
      else _ ← sleep ms; m
  | _ => mret attempt
  end.

(** ** Rooms and threads over the store *)

(** [Maps::set_room], [set_thread], [close_thread] and [forget]: the store
    first, then memory. *)
Definition set_room (crew room_ : string) : Act (result SdkError unit) :=
  r ← kv_put (room_key crew) room_;
  match r with
  | Ok _ => _ ← upd_maps (insert_room crew room_); mret (Ok tt)
  | Err e => mret (Err e)
  end.

Definition set_thread (agent : string) (t : Thread) : Act (result SdkError unit) :=
  match encode_thread t with
  | Err e => mret (Err (Transport ("encode thread: " +:+ e)))
  | Ok bytes =>
      r ← kv_put (thread_key agent) bytes;
      match r with
      | Ok _ => _ ← upd_maps (insert_thread agent t); mret (Ok tt)
      | Err e => mret (Err e)
      end
  end.

Definition close_thread (agent : string) : Act (result SdkError unit) :=
  t ← gets (fun s => thread agent (ma_maps s));
  match t with
  | None => mret (Ok tt)
  | Some t => set_thread agent (close true t)
  end.

Definition forget_thread (agent : string) : Act (result SdkError unit) :=
  r ← kv_delete (thread_key agent);
  match r with
  | Ok _ => _ ← upd_maps (remove_thread agent); mret (Ok tt)
  | Err e => mret (Err e)
  end.

(** [Marks::store], [record] and [retain]: memory first. *)
Definition store_marks : Act (result SdkError unit) :=
  m ← gets ma_marks;
  let '(m, bytes) := record_bytes m in
  _ ← upd_marks (fun _ => m);
  match bytes with
  | Err e => mret (Err (Transport ("encode " +:+ ROUTED_KEY +:+ ": " +:+ e)))
  | Ok bytes => kv_put ROUTED_KEY bytes
  end.

Definition record (room_ event_id : string) : Act (result SdkError unit) :=
  _ ← upd_marks (push_id room_ event_id); store_marks.

Definition retain (live : gset string) : Act (result SdkError unit) :=
  before ← gets (fun s => size (ma_marks s));
  _ ← upd_marks (retain_rooms live);
  after ← gets (fun s => size (ma_marks s));
  if after =? before then mret (Ok tt) else store_marks.

(** The rooms a message can still reach an agent through. *)
Definition crew_rooms (s : Actor) : list string := omap (fun a => crew ← crew_of a; room crew (ma_maps s)) (keys (ma_agents s)).
Definition pinned_rooms (s : Actor) : list string := match ma_config s with Some c => values (dc_rooms c) | None => [] end.
Definition live_rooms (s : Actor) : gset string :=
  list_to_set (thread_rooms (ma_maps s)) ∪ list_to_set (pinned_rooms s) ∪ list_to_set (crew_rooms s).
Definition is_live (room_ : string) (s : Actor) : bool :=
  bool_decide (room_ ∈ thread_rooms (ma_maps s)) || bool_decide (room_ ∈ pinned_rooms s) || bool_decide (room_ ∈ crew_rooms s).

Definition prune_marks : Act unit :=
  live ← gets live_rooms;
  _ ← retain live; mret tt.

(** ** The crew's room *)

Definition cooling_down (crew : string) : Act bool :=
  c ← gets (fun s => ma_cooldowns s !! crew);
  match c with
  | Some c => now ← instant_now; mret (now <? cd_until c)%N
  | None => mret false
  end.

Definition next_wait (c : option Cooldown) : N :=
  match c with Some c => N.min (cd_wait c * 2) CREATE_COOLDOWN_MAX | None => CREATE_COOLDOWN_MIN end.

Definition cool_down (crew : string) : Act unit :=
  c ← gets (fun s => ma_cooldowns s !! crew);
  let wait := next_wait c in
  now ← instant_now;
  upd_cooldowns <[crew := mkCooldown (now + wait) wait]>.

(** A room is asked for, unless the crew waits for its last refusal. *)
Definition create_for (crew : string) (invite : list string) : Act (option string) :=
  cooling ← cooling_down crew;
  if cooling : bool then mret None
  else
    created ← retry_once (create_room ("balerix " +:+ crew) invite);
    match created with
    | Ok room_ =>
        _ ← upd_cooldowns (delete crew);
        _ ← upd_health (fun _ => None);
        mret (Some room_)
    | Err e =>
        _ ← cool_down crew;
        _ ← upd_health (fun _ => Some ("create room for " +:+ crew +:+ ": " +:+ matrix_error_display e));
        mret None
    end.

Definition room_for (agent : string) : Act (option string) :=
  match crew_of agent with
  | None => mret None
  | Some crew =>
      known ← gets (fun s => room crew (ma_maps s));
      match known with
      | Some room_ => mret (Some room_)
      | None =>
          c ← gets ma_config;
          match c with
          | None => mret None
          | Some c =>
              found ← (match dc_rooms c !! crew with
                       | Some room_ => mret (Some room_)
                       | None => create_for crew (dc_invite c)
                       end);
              match found with
              | None => mret None
              | Some room_ => _ ← set_room crew room_; mret (Some room_)
              end
          end
      end
  end.

(** ** Posting *)

Fixpoint send_parts (room_ : string) (thread_root : option string) (parts : list string) (first : option string)
    : Act (option string) :=
  match parts with
  | [] => mret first
  | part :: parts =>
      r ← retry_once (port_send room_ thread_root part);
      match r with
      | Ok id => send_parts room_ thread_root parts (match first with Some _ => first | None => Some id end)
      | Err _ => mret first
      end
  end.

Definition send (room_ : string) (thread_root : option string) (body : string) : Act (option string) :=
  c ← gets ma_config;
  let max_parts := match c with Some c => dc_max_parts c | None => DEFAULT_MAX_PARTS end in
  send_parts room_ thread_root (Parts.split body BODY_LIMIT max_parts) None.

(** An error is only counted. *)
Definition react_to (room_ event_id key : string) : Act unit := _ ← port_react room_ event_id key; mret tt.
Definition react (m : Inbound) (key : string) : Act unit := react_to (in_room m) (in_event_id m) key.

(** ** Prompts *)

Definition window_of (agent : string) : Act N :=
  gets (fun s => match ma_agents s !! agent with Some c => ac_confirm_window c | None => DEFAULT_CONFIRM_WINDOW end).
Definition key_delay_of (agent : string) : Act N :=
  gets (fun s => match ma_agents s !! agent with Some c => ac_key_delay_ms c | None => DEFAULT_KEY_DELAY_MS end).

(** A refusal is only counted. *)
Definition press_enter (agent : string) : Act unit :=
  delay_ms ← key_delay_of agent;
  _ ← host_action agent (SendKeys [StepKey Enter] delay_ms); mret tt.

Definition unconfirmed (m : Sent) (why : Unconfirmed) : Act unit :=
  body ← (match why with
          | Expired =>
              window ← window_of (sm_agent m);
              mret ("**not confirmed by " +:+ sm_agent m +:+ " after " +:+ pretty (window / secs 1)%N
                    +:+ "s**: Claude did not take the prompt (a dialog may be open, or the text may have been swallowed)")
          | Skipped => mret ("**not confirmed by " +:+ sm_agent m
                             +:+ "**: Claude took a later prompt first, so this one was swallowed")
          | Evicted => mret ("**not confirmed by " +:+ sm_agent m
                             +:+ "**: too many prompts are waiting on this agent, so this one is no longer tracked")
          end);
  _ ← send (sm_room m) (Some (sm_root m)) body; mret tt.

Definition on_tick : Act unit :=
  now ← instant_now;
  d ← gets ma_deliveries;
  let '(expired, d) := expire now d in
  _ ← upd_deliveries (fun _ => d);
  _ ← for_each (fun m => unconfirmed m Expired) expired;
  now ← instant_now;
  d ← gets ma_deliveries;
  let '(quiet, d) := nudge now d in
  _ ← upd_deliveries (fun _ => d);
  for_each press_enter quiet.

(** ** Questions *)

(** [Questions::open] and [clear], the store's errors being only logged. *)
Definition open_question (agent : string) (tool_input : Value) (qs : list Question) : Act unit :=
  _ ← upd_questions <[agent := mkOpen qs Open false false]>;
  _ ← kv_put (question_key agent) (json_bytes tool_input); mret tt.

Definition clear_question (agent : string) : Act (option OpenQuestion) :=
  was ← gets (fun s => ma_questions s !! agent);
  match was with
  | None => mret None
  | Some was =>
      _ ← upd_questions (delete agent);
      _ ← kv_delete (question_key agent); mret (Some was)
  end.

Definition track_question (event : HookEvent) : Act Tracking :=
  let agent := he_agent event in
  let name := he_name event in
  if bool_decide (name ∈ ["Stop"; "UserPromptSubmit"; "SessionStart"; "SessionEnd"]) then
    _ ← clear_question agent; mret TrackOther
  else if negb (bool_decide (str_field (he_payload event) "tool_name" = Some TOOL)) then mret TrackOther
  else if bool_decide (name = "PreToolUse") then
    let input := default Null (get (he_payload event) "tool_input") in
    match Question.parse input with
    | Some qs => _ ← open_question agent input qs; mret (TrackOpened qs)
    | None => mret TrackUnparsed
    end
  else if bool_decide (name = "PostToolUse") then
    closed ← clear_question agent; mret (TrackClosed closed)
  else mret TrackOther.

(** [true]: the event is handled. [on_closed] is [None] where its Rust panics. *)
Definition on_question_event (config : AgentConfig) (room_ : string) (event : HookEvent) (tracking : Tracking) : Act bool :=
  let agent := he_agent event in
  let shown := wants config "Notification" || wants config "PreToolUse" in
  root ← gets (fun s => th_root <$> thread agent (ma_maps s));
  match tracking with
  | TrackOpened qs =>
      _ ← (match root with
           | Some root =>
               if shown then
                 id ← send room_ (Some root) (question_message qs);
                 when (bool_decide (is_Some id)) (upd_questions (mark_posted agent))
               else mret tt
           | None => mret tt
           end);
      mret true
  | TrackUnparsed | TrackClosed None => mret false
  | TrackClosed (Some o) =>
      let answers := default Null (pointer (he_payload event) ["tool_response"; "answers"]) in
      match on_closed o answers with
      | None => panic
      | Some (VConfirmed echo) =>
          _ ← (match echo with Some id => react_to room_ id CONFIRMED | None => mret tt end);
          mret true
      | Some (VMismatch message) =>
          _ ← (match root with Some root => _ ← send room_ (Some root) message; mret tt | None => mret tt end);
          mret true
      | Some (VAnsweredAtTerminal message) =>
          _ ← (match root with
               | Some root => if shown then _ ← send room_ (Some root) message; mret tt else mret tt
               | None => mret tt
               end);
          mret true
      | Some VNothing => mret true
      end
  | TrackOther =>
      if bool_decide (he_name event = "Notification")
         && bool_decide (str_field (he_payload event) "notification_type" = Some "permission_prompt")
      then
        qs ← gets ma_questions;
        let '(swallowed, qs) := suppress_permission_prompt agent qs in
        _ ← upd_questions (fun _ => qs);
        mret swallowed
      else mret false
  end.

(** ** Events *)

(** Whether the event needs a thread of its own: a new session's, or an agent's
    first. *)
Definition needs_thread (session : string) (t : option Thread) : bool :=
  match t with
  | None => true
  | Some t => negb (is_empty session) && negb (bool_decide (th_session_id t = session))
  end.

(** The thread the event goes to, opened or reopened; [false] ends the event. *)
Definition ready_thread (room_ : string) (event : HookEvent) : Act bool :=
  let agent := he_agent event in
  let session := default EmptyString (he_session_id event) in
  t ← gets (fun s => thread agent (ma_maps s));
  if needs_thread session t then
    let source := default "already running" (str_field (he_payload event) "source") in
    root ← send room_ None (thread_root agent session source);
    match root with
    | None => mret false
    | Some root =>
        r ← set_thread agent (mkThread session root room_ false);
        match r with
        | Err _ => mret false
        | Ok _ => mret (negb (bool_decide (he_name event = "SessionStart")))
        end
    end
  else
    _ ← (match t with
         | Some t => if th_closed t then _ ← set_thread agent (close false t); mret tt else mret tt
         | None => mret tt
         end);
    mret true.

(** The event's own line, in the agent's thread. *)
Definition post_event (room_ : string) (event : HookEvent) : Act unit :=
  let agent := he_agent event in
  root ← gets (fun s => th_root <$> thread agent (ma_maps s));
  match root with
  | None => mret tt
  | Some root =>
      _ ← send room_ (Some root) (event_message event);
      if bool_decide (he_name event = "SessionEnd") then _ ← close_thread agent; mret tt else mret tt
  end.

(** What an enabled agent's event shows. *)
Definition show_event (config : AgentConfig) (event : HookEvent) (tracking : Tracking) : Act unit :=
  r ← room_for (he_agent event);
  match r with
  | None => mret tt
  | Some room_ =>
      go ← ready_thread room_ event;
      if negb go then mret tt
      else
        handled ← on_question_event config room_ event tracking;
        if handled : bool then mret tt
        else when (wants config (he_name event)) (post_event room_ event)
  end.

Definition on_event (event : HookEvent) : Act unit :=
  let agent := he_agent event in
  c ← gets (fun s => ma_agents s !! agent);
  match c with
  | None => mret tt
  | Some config =>
      now ← instant_now;
      d ← gets ma_deliveries;
      let '(outcome, d) := Delivery.on_event event now d in
      _ ← upd_deliveries (fun _ => d);
      _ ← for_each (fun m => unconfirmed m Skipped) (oc_skipped outcome);
      _ ← (match oc_confirmed outcome with
           | Some m => react_to (sm_room m) (sm_event_id m) ACK
           | None => mret tt
           end);
      tracking ← track_question event;
      if negb (ac_enabled config) then mret tt else show_event config event tracking
  end.

Definition on_phase (change : PhaseChange) : Act unit :=
  c ← gets (fun s => ma_agents s !! pc_agent change);
  match c with
  | None => mret tt
  | Some config =>
      if negb (ac_enabled config) || negb (ac_phases config) then mret tt
      else
        r ← room_for (pc_agent change);
        match r with
        | None => mret tt
        | Some room_ =>
            root ← gets (fun s => th_root <$> thread (pc_agent change) (ma_maps s));
            _ ← send room_ root (phase_message change); mret tt
        end
  end.

(** ** Replies *)

Definition allowlist : Act Allowlist :=
  c ← gets ma_config;
  mret (match c with Some c => allowlist_with (dc_slash_commands c) | None => allowlist_default end).

Definition reaction_key (r : Reaction) : string :=
  match r with Ack => ACK | Refused => REFUSED | Failed => FAILED | Confirmed => CONFIRMED end.

(** The contract of a [Decision], with thread messages as posts. *)
Definition execute (agent root : string) (m : Inbound) (d : Decision) : Act unit :=
  echo ← (match de_post d with Some body => send (in_room m) (Some root) body | None => mret None end);
  if bool_decide (is_Some (de_post d)) && bool_decide (echo = None) && gates_on_post d then
    _ ← upd_questions (set_stage agent (de_fallback d));
    react m FAILED
  else
    taken ← (match de_send d with Some action => host_action agent action | None => mret (Ok tt) end);
    match taken with
    | Err e =>
        _ ← upd_questions (set_stage agent (de_fallback d));
        _ ← send (in_room m) (Some root) ("**not delivered to " +:+ agent +:+ ":** " +:+ sdk_error_display e);
        react m FAILED
    | Ok _ =>
        _ ← upd_questions (set_stage agent (if gates_on_post d then with_echo echo (de_stage d) else de_stage d));
        match de_react d with
        | Some r => react m (reaction_key r)
        | None => mret tt
        end
    end.

Definition on_answer (agent root : string) (m : Inbound) : Act unit :=
  o ← gets (fun s => ma_questions s !! agent);
  match o with
  | None => mret tt
  | Some o =>
      delay_ms ← key_delay_of agent;
      now ← instant_now;
      commands ← allowlist;
      match on_reply o (in_body m) delay_ms now commands with
      | None => panic
      | Some d => execute agent root m d
      end
  end.

(** A prompt that was taken, tracked until the agent's own word. *)
Definition track (agent root text : string) (m : Inbound) : Act unit :=
  match classify text with
  | KindCommand => mret tt
  | KindPrompt =>
      window ← window_of agent;
      let marker := {| sm_room := in_room m; sm_root := root; sm_event_id := in_event_id m; sm_agent := agent |} in
      now ← instant_now;
      d ← gets ma_deliveries;
      let '(evicted, d) := sent agent text marker now window d in
      _ ← upd_deliveries (fun _ => d);
      match evicted with Some e => unconfirmed e Evicted | None => mret tt end
  end.

(** A reply that is a prompt. *)
Definition on_prompt (agent root : string) (m : Inbound) : Act unit :=
  let text := prompt_text (in_body m) in
  commands ← allowlist;
  if match classify text with KindCommand => negb (allows commands text) | KindPrompt => false end then
    _ ← send (in_room m) (Some root) ("**not sent to " +:+ agent +:+ ":** " +:+ COMMAND_REFUSED);
    react m REFUSED
  else
    r ← host_action agent (SendText text true);
    match r with
    | Ok _ => _ ← react m SENT; track agent root text m
    | Err e =>
        _ ← send (in_room m) (Some root) ("**not delivered to " +:+ agent +:+ ":** " +:+ sdk_error_display e);
        react m FAILED
    end.

(** A reply in the thread of [agent]. *)
Definition on_thread (agent root : string) (m : Inbound) : Act unit :=
  t ← gets (fun s => thread agent (ma_maps s));
  if match t with Some t => th_closed t | None => false end then react m REFUSED
  else
    followed ← gets (fun s => bool_decide (is_Some (ma_agents s !! agent)));
    if negb followed then
      _ ← send (in_room m) (Some root) ("**not delivered to " +:+ agent +:+ ":** " +:+ UNTRACKED);
      react m FAILED
    else
      asked ← gets (fun s => is_open agent (ma_questions s));
      if asked : bool then on_answer agent root m else on_prompt agent root m.

Definition on_inbound (m : Inbound) : Act unit :=
  if bool_decide (in_sender m = user_id) then mret tt
  else if in_history m then mret tt
  else
    dup ← gets (fun s => seen (in_room m) (in_event_id m) (ma_marks s));
    if dup : bool then mret tt
    else
      live ← gets (is_live (in_room m));
      _ ← (if live : bool then _ ← record (in_room m) (in_event_id m); mret tt else mret tt);
      match in_thread_root m with
      | None => react m REFUSED
      | Some root =>
          a ← gets (fun s => route (in_room m) root (ma_maps s));
          match a with
          | None => mret tt
          | Some agent => on_thread agent root m
          end
      end.

(** ** Loading *)

(** [key[PREFIX.len()..]] panics on a shorter key, and inside a character. *)
Definition key_rest (prefix key : string) : Act string :=
  let n := String.length prefix in
  if Parts.is_char_boundary n key then mret (str_drop n key) else panic.

Fixpoint load_rooms (ks : list string) (m : Maps) : Act (result SdkError Maps) :=
  match ks with
  | [] => mret (Ok m)
  | key :: ks =>
      b ← kv_get key;
      match b with
      | Err e => mret (Err e)
      | Ok None => load_rooms ks m
      | Ok (Some bytes) =>
          if bool_decide (from_utf8_lossy bytes = bytes) then crew ← key_rest ROOM_PREFIX key; load_rooms ks (insert_room crew bytes m)
          else load_rooms ks m
      end
  end.

Fixpoint load_threads (ks : list string) (m : Maps) : Act (result SdkError Maps) :=
  match ks with
  | [] => mret (Ok m)
  | key :: ks =>
      b ← kv_get key;
      match b with
      | Err e => mret (Err e)
      | Ok None => load_threads ks m
      | Ok (Some bytes) =>
          match decode_thread bytes with
          | Some t => agent ← key_rest THREAD_PREFIX key; load_threads ks (insert_thread agent t m)
          | None => load_threads ks m
          end
      end
  end.

Definition maps_load : Act (result SdkError Maps) :=
  l ← kv_list ROOM_PREFIX;
  match l with
  | Err e => mret (Err e)
  | Ok ks =>
      r ← load_rooms ks no_maps;
      match r with
      | Err e => mret (Err e)
      | Ok m =>
          l ← kv_list THREAD_PREFIX;
          match l with
          | Err e => mret (Err e)
          | Ok ks => load_threads ks m
          end
      end
  end.

Fixpoint questions_load_keys (ks : list string) (qs : Questions) : Act (result SdkError Questions) :=
  match ks with
  | [] => mret (Ok qs)
  | key :: ks =>
      b ← kv_get key;
      match b with
      | Err e => mret (Err e)
      | Ok None => questions_load_keys ks qs
      | Ok (Some bytes) =>
          match json_parse bytes ≫= Question.parse with
          | None => questions_load_keys ks qs
          | Some list =>
              agent ← key_rest QUESTION_PREFIX key;
              questions_load_keys ks (<[agent := mkOpen list Open false false]> qs)
          end
      end
  end.

Definition questions_load : Act (result SdkError Questions) :=
  l ← kv_list QUESTION_PREFIX;
  match l with
  | Err e => mret (Err e)
  | Ok ks => questions_load_keys ks ∅
  end.

Definition marks_load : Act (result SdkError Marks) :=
  b ← kv_get ROUTED_KEY;
  match b with
  | Err e => mret (Err e)
  | Ok None => mret (Ok ∅)
  | Ok (Some bytes) => mret (Ok (default ∅ (decode_marks bytes)))
  end.

(** What the store refuses is left empty. *)
Definition load : Act unit :=
  m ← maps_load;
  _ ← (match m with Ok m => upd_maps (fun _ => m) | Err _ => mret tt end);
  q ← questions_load;
  _ ← (match q with Ok q => upd_questions (fun _ => q) | Err _ => mret tt end);
  k ← marks_load;
  match k with Ok k => upd_marks (fun _ => k) | Err _ => mret tt end.

(** ** Commands *)

Definition on_activate (agent : string) (config : AgentConfig) : Act unit :=
  was ← gets (fun s => ma_agents s !! agent);
  _ ← upd_agents <[agent := config]>;
  match was with
  | Some _ => upd_deliveries (lose_track_agent agent)
  | None => mret tt
  end.

Definition on_deactivate (agent : string) : Act unit :=
  _ ← upd_agents (delete agent);
  _ ← clear_question agent;
  _ ← upd_deliveries (fun d => (Delivery.forget agent d).2);
  _ ← forget_thread agent;
  prune_marks.

(** A command of a configured actor. *)
Definition dispatch (command : Command) : Act unit :=
  match command with
  | Configure _ => panic
  | Activate agent config => on_activate agent config
  | Deactivate agent => on_deactivate agent
  | Events dropped events =>
      _ ← when (0 <? dropped)%N (upd_deliveries lose_track);
      for_each on_event events
  | Phases changes => for_each on_phase changes
  | Incoming message => on_inbound message
  | Tick => on_tick
  end.

(** [handle]: the buffered commands follow their [Configure]. They are no
    [Configure] themselves, so one level of replay is all there is; deeper
    ones, which do not happen, are a panic. *)
Fixpoint handle_from (fuel : nat) (command : Command) : Act unit :=
  match command with
  | Configure config =>
      _ ← modify (set_config (Some config));
      buffered ← gets ma_pending_commands;
      _ ← modify (set_pending_commands []);
      match fuel with
      | 0 => panic
      | S fuel => for_each (handle_from fuel) buffered
      end
  | _ =>
      c ← gets ma_config;
      match c with
      | None => update ma_pending_commands set_pending_commands (fun l => l ++ [command])
      | Some _ => dispatch command
      end
  end.
Definition handle : Command -> Act unit := handle_from 1.

(** A round of [run]: the gap is taken before the command in hand. *)
Definition turn (gap : bool) (command : Command) : Act unit :=
  _ ← when gap (upd_deliveries lose_track);
  handle command.
End actor.

(** The lanes of the actor's queue, and the bytes a command holds. *)
#[export] Instance command_laned : Queue.Laned Command := {
  Queue.lane c :=
    match c with
    | Configure _ | Activate _ _ | Deactivate _ => Queue.Control
    | Incoming _ => Queue.Inbound
    | Events _ _ | Phases _ => Queue.Lossy
    | Tick => Queue.Latest
    end;
  Queue.bytes c :=
    match c with
    | Incoming m =>
        (len (in_room m) + len (in_event_id m) + len (in_sender m)
         + match in_thread_root m with Some root => len root | None => 0 end + len (in_body m))%N
    | _ => 0%N
    end;
}.

(** A round: what the queue gives, and its gap. *)
Definition run_turn `{!Env Call, !Unicode, !Letters, !JsonText, !RoomCodec} (user_id : string) (q : Queue.Lanes Command)
    : Task Call Actor (Queue.Lanes Command) :=
  let '(c, q) := Queue.try_pop q in
  match c with
  | None => mret q
  | Some c => let '(gap, q) := Queue.take_gap q in _ ← turn user_id gap c; mret q
  end.
