(* ===== verification/MxSafety.v ===== *)
(** What the matrix actor keeps, whatever the daemon, the homeserver and the
    clock answer: routes that lead to the agents whose threads they are,
    questions that can be answered, and any fact about the maps, the questions,
    the marks and the history that the single writes keep. *)

From S2P Require Import Prelude Str BTree Rules Json Bytes Text Delivery Question Answer Render PluginConfig.
From S2P Require Import Talk Sdk Fits Rooms MxActor.
From S2P Require Parts Queue.

Notation Log := (list (Event Call)).

Definition buffered (c : Command) : Prop := forall config, c <> Configure config.

Section safety.
Context `{!Env Call, !Unicode, !Letters, !JsonText, !RoomCodec}.

Record actor_ok (configured : bool) (w : World Call Actor) : Prop := {
  ok_config : configured = true -> is_Some (ma_config w.1);
  ok_pending : Forall buffered (ma_pending_commands w.1);
  ok_maps : maps_ok (ma_maps w.1);
  ok_questions : map_Forall (fun _ o => fits o) (ma_questions w.1);
}.

(** A prompt or keys; a call that neither acts nor writes. *)
Definition acts (e : Event Call) : bool := match e with Did (DoAction _ _) _ => true | _ => false end.
Definition plain (c : Call) : bool :=
  match c with DoAction _ _ | KvPut _ _ | KvDelete _ => false | _ => true end.

(** A call as the environment answers it. *)
Definition did (c : Call) (log : Log) : Log := Did c (ask log c) :: log.

(** An update of nothing but the agents, the deliveries, the cooldowns and the
    health cell. *)
Record same_core (f : Actor -> Actor) : Prop := {
  sc_config s : ma_config (f s) = ma_config s;
  sc_pending s : ma_pending_commands (f s) = ma_pending_commands s;
  sc_maps s : ma_maps (f s) = ma_maps s;
  sc_questions s : ma_questions (f s) = ma_questions s;
  sc_marks s : ma_marks (f s) = ma_marks s;
}.

Record core (I : World Call Actor -> Prop) : Prop := {
  core_plain s log c : plain c = true -> I (s, log) -> I (s, did c log);
  core_same f s log : same_core f -> I (s, log) -> I (f s, log);
}.

(** *** Tasks away from the core *)

Section core.
Context (I : World Call Actor -> Prop) (HI : core I).
Notation ok := (keeps I).

Lemma mx_ok_call c : plain c = true -> ok (call c).
Proof.
  intros Hc [s log] Hw _. exists (ask log c), (s, did c log). split; [done|]. split; [by apply HI|]. split; [by eexists [_]|done].
Qed.
Lemma mx_ok_modify f : same_core f -> ok (modify f).
Proof. intros Hf. apply keeps_modify. intros s log. by apply HI. Qed.
#[local] Hint Resolve mx_ok_modify : keeps.
#[local] Hint Extern 1 (same_core _) => by split : keeps.

Lemma mx_ok_upd_agents f : ok (upd_agents f).
Proof. apply mx_ok_modify. by split. Qed.
Lemma mx_ok_upd_deliveries f : ok (upd_deliveries f).
Proof. apply mx_ok_modify. by split. Qed.
Lemma ok_upd_cooldowns f : ok (upd_cooldowns f).
Proof. apply mx_ok_modify. by split. Qed.
Lemma ok_upd_health f : ok (upd_health f).
Proof. apply mx_ok_modify. by split. Qed.
Lemma mx_ok_kv_list prefix : ok (kv_list prefix).
Proof. exact (mx_ok_call (KvList prefix) eq_refl). Qed.
Lemma mx_ok_kv_get key : ok (kv_get key).
Proof. exact (mx_ok_call (KvGet key) eq_refl). Qed.
Lemma ok_create_room name invite : ok (create_room name invite).
Proof. exact (mx_ok_call (CreateRoom name invite) eq_refl). Qed.
Lemma ok_port_send r root body : ok (port_send r root body).
Proof. exact (mx_ok_call (SendMessage r root body) eq_refl). Qed.
Lemma mx_ok_port_react r id key : ok (port_react r id key).
Proof. exact (mx_ok_call (React r id key) eq_refl). Qed.
Lemma mx_ok_instant_now : ok instant_now.
Proof. exact (mx_ok_call Now eq_refl). Qed.
Lemma mx_ok_sleep ms : ok (sleep ms).
Proof. exact (mx_ok_call (Sleep ms) eq_refl). Qed.
#[local] Hint Resolve mx_ok_upd_agents mx_ok_upd_deliveries ok_upd_cooldowns ok_upd_health mx_ok_kv_list mx_ok_kv_get ok_create_room
  ok_port_send mx_ok_port_react mx_ok_instant_now mx_ok_sleep : keeps.

Lemma mx_ok_retry_once {A} (m : Task Call Actor (result MatrixError A)) : ok m -> ok (retry_once m).
Proof. intros Hm. unfold retry_once. keep. Qed.
#[local] Hint Resolve mx_ok_retry_once : keeps.
Lemma ok_cooling_down crew : ok (cooling_down crew).
Proof. unfold cooling_down. keep. Qed.
Lemma ok_cool_down crew : ok (cool_down crew).
Proof. unfold cool_down. keep. Qed.
#[local] Hint Resolve ok_cooling_down ok_cool_down : keeps.
Lemma ok_create_for crew invite : ok (create_for crew invite).
Proof. unfold create_for. keep. Qed.
Lemma ok_send_parts r root parts first : ok (send_parts r root parts first).
Proof. revert first. induction parts as [|p parts IH]; intros first; cbn [send_parts]; keep. Qed.
#[local] Hint Resolve ok_send_parts : keeps.
Lemma ok_send r root body : ok (send r root body).
Proof. unfold send. keep. Qed.
Lemma ok_react_to r id key : ok (react_to r id key).
Proof. unfold react_to. keep. Qed.
#[local] Hint Resolve ok_send ok_react_to : keeps.
Lemma mx_ok_react m key : ok (react m key).
Proof. apply ok_react_to. Qed.
Lemma ok_window_of agent : ok (window_of agent).
Proof. apply keeps_gets. Qed.
Lemma ok_key_delay_of agent : ok (key_delay_of agent).
Proof. apply keeps_gets. Qed.
Lemma ok_allowlist : ok allowlist.
Proof. unfold allowlist. keep. Qed.
#[local] Hint Resolve mx_ok_react ok_window_of ok_key_delay_of ok_allowlist : keeps.
Lemma mx_ok_unconfirmed m why : ok (unconfirmed m why).
Proof. unfold unconfirmed. keep. Qed.
#[local] Hint Resolve mx_ok_unconfirmed : keeps.
Lemma mx_ok_track agent root text m : ok (track agent root text m).
Proof. unfold track. keep. Qed.
End core.
End safety.

#[export] Hint Resolve mx_ok_modify mx_ok_upd_agents mx_ok_upd_deliveries ok_upd_cooldowns ok_upd_health mx_ok_kv_list mx_ok_kv_get
  ok_create_room ok_port_send mx_ok_port_react mx_ok_instant_now mx_ok_sleep mx_ok_retry_once ok_cooling_down ok_cool_down ok_create_for
  ok_send_parts ok_send ok_react_to mx_ok_react ok_window_of ok_key_delay_of ok_allowlist mx_ok_unconfirmed mx_ok_track : keeps.
#[export] Hint Extern 1 (same_core _) => by split : keeps.

(** *** The invariant with a fact about what the store mirrors *)

(** The same dialogs at the same stages. *)
Definition asked (o : OpenQuestion) : list Question * Stage := (oq_questions o, oq_stage o).
Definition same_questions (q q' : Questions) : Prop := forall a, asked <$> q' !! a = asked <$> q !! a.

Section actor_ok.
Context `{!Env Call, !Unicode, !Letters, !JsonText, !RoomCodec}.
Context (L : Maps -> Questions -> Marks -> Log -> Prop).
Notation I := (fun w : World Call Actor =>
  actor_ok true w /\ L (ma_maps w.1) (ma_questions w.1) (ma_marks w.1) w.2).
Notation ok := (keeps I).

Context (L_plain : forall m q k log c, plain c = true -> L m q k log -> L m q k (did c log)).
Context (L_act : forall m q k log agent action, L m q k log -> L m q k (did (DoAction agent action) log)).
Context (L_question_put : forall m q k log agent bytes, L m q k log -> L m q k (did (KvPut (question_key agent) bytes) log)).
Context (L_question_delete : forall m q k log agent, L m q k log -> L m q k (did (KvDelete (question_key agent)) log)).
Context (L_marks_put : forall m q k log bytes, L m q k log -> L m q k (did (KvPut ROUTED_KEY bytes) log)).
Context (L_room : forall m q k log crew room_, L m q k log ->
  L (match ask log (KvPut (room_key crew) room_) with Ok _ => insert_room crew room_ m | Err _ => m end) q k
    (did (KvPut (room_key crew) room_) log)).
Context (L_thread : forall m q k log agent t bytes, encode_thread t = Ok bytes -> L m q k log ->
  L (match ask log (KvPut (thread_key agent) bytes) with Ok _ => insert_thread agent t m | Err _ => m end) q k
    (did (KvPut (thread_key agent) bytes) log)).
Context (L_forget : forall m q k log agent, L m q k log ->
  L (match ask log (KvDelete (thread_key agent)) with Ok _ => remove_thread agent m | Err _ => m end) q k
    (did (KvDelete (thread_key agent)) log)).
Context (L_flags : forall m q q' k log, same_questions q q' -> L m q k log -> L m q' k log).
Context (L_questions : forall m q q' k log, L m q k log -> L m q' k log).
Context (L_marks : forall m q k k' log, L m q k log -> L m q k' log).

Lemma mx_actor_core : core I.
Proof.
  split.
  - intros s log c Hc [[? ? ? ?] HL]. split; [by split|by apply L_plain].
  - intros f s log [Ec Ep Em Eq Ek] [[? ? ? ?] HL]. simpl in *. split; [|by rewrite Em, Eq, Ek].
    split; simpl; [by rewrite Ec|by rewrite Ep|by rewrite Em|by rewrite Eq].
Qed.
#[local] Hint Resolve mx_actor_core : keeps.

Lemma I_log s log log' : (L (ma_maps s) (ma_questions s) (ma_marks s) log -> L (ma_maps s) (ma_questions s) (ma_marks s) log') ->
  I (s, log) -> I (s, log').
Proof. intros HL [[? ? ? ?] H']. split; [by split|by apply HL]. Qed.

Lemma ok_aside c : (forall s log, I (s, log) -> I (s, did c log)) -> ok (call c).
Proof.
  intros Hc [s log] Hw _. exists (ask log c), (s, did c log). split; [done|]. split; [by apply Hc|]. split; [by eexists [_]|done].
Qed.
Lemma mx_ok_host_action agent a : ok (host_action agent a).
Proof. refine (ok_aside (DoAction agent a) _). intros s log. apply I_log, L_act. Qed.
Lemma ok_put_question agent bytes : ok (kv_put (question_key agent) bytes).
Proof. refine (ok_aside (KvPut (question_key agent) bytes) _). intros s log. apply I_log, L_question_put. Qed.
Lemma ok_delete_kv_question agent : ok (kv_delete (question_key agent)).
Proof. refine (ok_aside (KvDelete (question_key agent)) _). intros s log. apply I_log, L_question_delete. Qed.
Lemma ok_put_marks bytes : ok (kv_put ROUTED_KEY bytes).
Proof. refine (ok_aside (KvPut ROUTED_KEY bytes) _). intros s log. apply I_log, L_marks_put. Qed.
#[local] Hint Resolve mx_ok_host_action ok_put_question ok_delete_kv_question ok_put_marks : keeps.

Lemma ok_set_room crew room_ : ok (set_room crew room_).
Proof.
  intros [s log] [[? ? ? ?] HL] _. unfold set_room, kv_put, call. erewrite run_bind by reflexivity.
  pose proof (L_room _ _ _ _ crew room_ HL) as HL'. unfold did in HL'. cbn [fst snd] in HL'.
  destruct (ask log (KvPut (room_key crew) room_)) as [[]|e]; eexists _, _; (split; [done|]); (split; [|split; [by eexists [_]|done]]); (split; [by split|exact HL']).
Qed.

Lemma ok_set_thread agent t : ok (set_thread agent t).
Proof.
  unfold set_thread. destruct (encode_thread t) as [bytes|e] eqn:Ht; [|apply keeps_ret].
  intros [s log] [[? ? Hm ?] HL] _. unfold kv_put, call. erewrite run_bind by reflexivity.
  pose proof (L_thread _ _ _ _ agent t bytes Ht HL) as HL'. unfold did in HL'. cbn [fst snd] in HL'.
  destruct (ask log (KvPut (thread_key agent) bytes)) as [[]|e]; eexists _, _; (split; [done|]); (split; [|split; [by eexists [_]|done]]); (split; [|exact HL']).
  - split; try done. by apply insert_thread_ok.
  - by split.
Qed.

Lemma ok_forget_thread agent : ok (forget_thread agent).
Proof.
  intros [s log] [[? ? Hm ?] HL] _. unfold forget_thread, kv_delete, call. erewrite run_bind by reflexivity.
  pose proof (L_forget _ _ _ _ agent HL) as HL'. unfold did in HL'. cbn [fst snd] in HL'.
  destruct (ask log (KvDelete (thread_key agent))) as [[]|e]; eexists _, _; (split; [done|]); (split; [|split; [by eexists [_]|done]]); (split; [|exact HL']).
  - split; try done. by apply remove_thread_ok.
  - by split.
Qed.
#[local] Hint Resolve ok_set_room ok_set_thread ok_forget_thread : keeps.

Lemma ok_close_thread agent : ok (close_thread agent).
Proof. unfold close_thread. keep. Qed.
Lemma ok_room_for agent : ok (room_for agent).
Proof. unfold room_for. keep. Qed.
#[local] Hint Resolve ok_close_thread ok_room_for : keeps.

Lemma ok_upd_marks f : ok (upd_marks f).
Proof. apply keeps_modify. intros s log [[? ? ? ?] HL]. split; [by split|]. exact (L_marks _ _ _ _ _ HL). Qed.
#[local] Hint Resolve ok_upd_marks : keeps.
Lemma ok_store_marks : ok store_marks.
Proof. unfold store_marks. keep. Qed.
#[local] Hint Resolve ok_store_marks : keeps.
Lemma ok_record r id : ok (record r id).
Proof. unfold record. keep. Qed.
Lemma ok_retain live : ok (retain live).
Proof. unfold retain. keep. Qed.
#[local] Hint Resolve ok_record ok_retain : keeps.
Lemma ok_prune_marks : ok prune_marks.
Proof. unfold prune_marks. keep. Qed.
#[local] Hint Resolve ok_prune_marks : keeps.

(** *** Questions *)

Lemma mx_ok_upd_questions f :
  (forall qs : Questions, map_Forall (fun _ o => fits o) qs -> map_Forall (fun _ o => fits o) (f qs)) -> ok (upd_questions f).
Proof.
  intros Hf. apply keeps_modify. intros s log [[? ? ? ?] HL]. split; [split; try done; by apply Hf|].
  exact (L_questions _ _ _ _ _ HL).
Qed.

Lemma mx_ok_open_question agent input qs : ok (open_question agent input qs).
Proof. unfold open_question. keep. apply mx_ok_upd_questions. intros m Hm. by apply map_Forall_insert_2. Qed.
Lemma mx_ok_delete_question agent : ok (upd_questions (delete agent)).
Proof. apply mx_ok_upd_questions. intros m Hm. by apply map_Forall_delete. Qed.

(** Flags that leave the dialogs and their stages. *)
Lemma ok_flags f : (forall qs, same_questions qs (f qs)) -> ok (upd_questions f).
Proof.
  intros Hf. apply keeps_modify. intros s log [[? ? ? Hq] HL]. split; [|exact (L_flags _ _ _ _ _ (Hf _) HL)].
  split; try done. intros a o Ho. pose proof (Hf (ma_questions s) a) as Ha. simpl in *. rewrite Ho in Ha. simpl in Ha.
  symmetry in Ha. apply fmap_Some in Ha as (o' & Ho' & [= Hqs Hst]). unfold fits. rewrite Hqs, Hst. by apply (Hq a).
Qed.
Lemma mark_posted_same agent qs : same_questions qs (mark_posted agent qs).
Proof.
  intros a. unfold mark_posted. destruct (decide (a = agent)) as [->|Hne]; [|by rewrite lookup_alter_ne].
  rewrite lookup_alter_eq. by destruct (qs !! agent).
Qed.
Lemma suppress_same agent qs : same_questions qs (suppress_permission_prompt agent qs).2.
Proof.
  intros a. unfold suppress_permission_prompt. destruct (qs !! agent) as [o|] eqn:Ho; [|done].
  destruct (negb (oq_posted o) || _ || _); [done|]. simpl. destruct (decide (a = agent)) as [->|Hne]; [|by rewrite lookup_insert_ne].
  by rewrite lookup_insert_eq, Ho.
Qed.
Lemma mx_ok_mark_posted agent : ok (upd_questions (mark_posted agent)).
Proof. apply ok_flags, mark_posted_same. Qed.
#[local] Hint Resolve mx_ok_open_question mx_ok_delete_question mx_ok_mark_posted : keeps.

Lemma mx_clear_question_fits agent :
  safe I (fun _ => True) (clear_question agent) (fun o _ => match o with Some o => fits o | None => True end).
Proof.
  unfold clear_question. eapply safe_bind; [apply safe_gets|]. intros [o|]; [|by apply safe_ret].
  eapply (safe_conseq I (fun _ => fits o)); [| |intros a w _ Hq; exact Hq].
  - eapply safe_bind; [by apply safe_fact, mx_ok_delete_question|intros ?].
    eapply safe_bind; [by apply safe_fact, ok_delete_kv_question|intros ?]. by apply safe_ret.
  - intros w [Hw _] [_ Ho]. by apply (ok_questions _ _ Hw agent o).
Qed.

Lemma mx_ok_clear_question agent : ok (clear_question agent).
Proof. eapply safe_conseq; [apply mx_clear_question_fits|done|done]. Qed.
#[local] Hint Resolve mx_ok_clear_question : keeps.

Definition tracking_fits (t : Tracking) : Prop := match t with TrackClosed (Some o) => fits o | _ => True end.

Lemma mx_track_question_fits event : safe I (fun _ => True) (track_question event) (fun t _ => tracking_fits t).
Proof.
  unfold track_question. case_match.
  { eapply safe_bind; [apply mx_ok_clear_question|intros ?]. by apply safe_ret. }
  case_match; [by apply safe_ret|]. case_match.
  { destruct (Question.parse _); [|by apply safe_ret].
    eapply safe_bind; [apply safe_keeps; keep|intros ?]. by apply safe_ret. }
  case_match; [|by apply safe_ret]. eapply safe_bind; [apply mx_clear_question_fits|intros o]. by apply safe_ret.
Qed.

Lemma mx_ok_swallow agent :
  ok (qs ← gets ma_questions; let '(swallowed, qs) := suppress_permission_prompt agent qs in
      _ ← upd_questions (fun _ => qs); mret swallowed).
Proof.
  intros [s log] Hw _. erewrite run_bind by reflexivity. cbn [fst].
  pose proof (ok_flags (fun qs => (suppress_permission_prompt agent qs).2) (suppress_same agent) (s, log) Hw Logic.I)
    as ([] & w' & E & Hw' & Hl & _).
  destruct (suppress_permission_prompt agent (ma_questions s)) as [b qs] eqn:Hs.
  assert (upd_questions (fun _ => qs) (s, log) = Some (tt, w')) as E' by (rewrite <- E; unfold upd_questions, update, modify; simpl; by rewrite Hs).
  rewrite (run_bind _ _ _ _ _ E'). by exists b, w'.
Qed.

Lemma mx_on_question_event_ok config r event t :
  safe I (fun _ => tracking_fits t) (on_question_event config r event t) (fun _ _ => True).
Proof.
  unfold on_question_event. cbv zeta. eapply safe_bind; [apply safe_fact, keeps_gets|intros root].
  destruct t as [|qs| |[o|]]; [apply safe_keeps..| |]; try by (apply safe_keeps; keep).
  - case_match; [apply mx_ok_swallow|keep].
  - apply (safe_conseq I (fun _ => fits o /\ True) _ _ (fun _ _ => True)); [apply safe_pure; intros Ho|by split|done].
    destruct (on_closed_fits o (default Null (pointer (he_payload event) ["tool_response"; "answers"])) Ho) as [v ->].
    apply safe_keeps. keep.
Qed.

(** *** Answers *)

Lemma mx_question_core agent o : core (fun w => I w /\ ma_questions w.1 !! agent = Some o).
Proof.
  split.
  - intros s log c Hc [Hw Ho]. split; [by apply mx_actor_core|done].
  - intros f s log Hf [Hw Ho]. split; [by apply (core_same I mx_actor_core f)|]. simpl in *. by rewrite (sc_questions f Hf).
Qed.
#[local] Hint Resolve mx_question_core : keeps.
Lemma question_act agent o a c : keeps (fun w => I w /\ ma_questions w.1 !! agent = Some o) (host_action a c).
Proof.
  intros [s log] [Hw Ho] _. destruct (mx_ok_host_action a c (s, log) Hw Logic.I) as (r & w' & E & Hw' & Hl & _).
  exists r, w'. split; [done|]. split; [|done]. split; [done|]. unfold host_action, call in E. injection E as _ <-. exact Ho.
Qed.
#[local] Hint Resolve question_act : keeps.

(** The stage a decision leaves, set while the question is the one decided on. *)
Lemma mx_set_stage_ok agent stage o : stage_fits (oq_questions o) stage ->
  safe I (fun w => ma_questions w.1 !! agent = Some o) (upd_questions (set_stage agent stage)) (fun _ _ => True).
Proof.
  intros Hst. apply safe_modify. intros [s log] [Hw HL] Ho. split; [|done]. split; [|exact (L_questions _ _ _ _ _ HL)].
  destruct Hw as [? ? ? Hq]. split; try done.
  intros k o' Hk. simpl in *. unfold set_stage in Hk. destruct (decide (k = agent)) as [->|Hne].
  - rewrite lookup_alter_eq, Ho in Hk. simpl in Hk. by injection Hk as <-.
  - rewrite lookup_alter_ne in Hk by done. by apply (Hq k).
Qed.

Ltac answer_step :=
  first [ eapply safe_bind; [by apply mx_set_stage_ok|intros ?; apply safe_keeps; keep]
        | eapply safe_under; [solve [keep]|intros ?; cbv beta zeta] ].

Lemma mx_execute_ok agent root m o d : decision_fits (oq_questions o) d ->
  safe I (fun w => ma_questions w.1 !! agent = Some o) (execute agent root m d) (fun _ _ => True).
Proof.
  intros [Hstage Hfall]. unfold execute. answer_step. destruct (_ && _ && _); [answer_step|].
  answer_step. destruct a0; [|answer_step].
  eapply safe_bind; [apply mx_set_stage_ok|intros ?; apply safe_keeps; keep].
  destruct (gates_on_post d); [by apply with_echo_fits|done].
Qed.

Lemma mx_ok_on_answer agent root m : ok (on_answer agent root m).
Proof.
  unfold on_answer. eapply keeps_bind_post; [apply safe_gets|]. intros [o|]; [|by apply safe_ret].
  apply (safe_conseq I (fun w => fits o /\ ma_questions w.1 !! agent = Some o) _ _ (fun _ _ => True)); [| |done].
  2:{ intros w Hw [_ Ho]. split; [by apply (ok_questions _ _ (proj1 Hw) agent o)|done]. }
  apply safe_pure. intros Hfit. do 3 answer_step.
  destruct (on_reply_fits o (in_body m) a a0 a1 Hfit) as (d & -> & Hd). by apply (mx_execute_ok agent root m o d).
Qed.
#[local] Hint Resolve mx_ok_on_answer : keeps.
Lemma ok_on_prompt agent root m : ok (on_prompt agent root m).
Proof. unfold on_prompt. keep. Qed.
#[local] Hint Resolve ok_on_prompt : keeps.
Lemma ok_on_thread agent root m : ok (on_thread agent root m).
Proof. unfold on_thread. keep. Qed.
#[local] Hint Resolve ok_on_thread : keeps.
Lemma ok_on_inbound user_id m : ok (on_inbound user_id m).
Proof. unfold on_inbound. keep. Qed.
#[local] Hint Resolve ok_on_inbound : keeps.

(** *** Events and commands *)

Lemma ok_ready_thread r event : ok (ready_thread r event).
Proof. unfold ready_thread. keep. Qed.
Lemma ok_post_event r event : ok (post_event r event).
Proof. unfold post_event. keep. Qed.
#[local] Hint Resolve ok_ready_thread ok_post_event : keeps.

Lemma show_event_ok config event t : safe I (fun _ => tracking_fits t) (show_event config event t) (fun _ _ => True).
Proof.
  unfold show_event. eapply safe_bind; [apply safe_fact, ok_room_for|intros [r|]]; [|by apply safe_ret].
  eapply safe_bind; [apply safe_fact, ok_ready_thread|intros go]. destruct (negb go); [by apply safe_ret|].
  eapply safe_bind; [apply mx_on_question_event_ok|]. intros ?. apply safe_keeps. keep.
Qed.

Lemma mx_ok_tracked event (k : Tracking -> Task Call Actor unit) :
  (forall t, safe I (fun _ => tracking_fits t) (k t) (fun _ _ => True)) -> ok (track_question event ≫= k).
Proof. intros Hk. eapply keeps_bind_post; [apply mx_track_question_fits|exact Hk]. Qed.

Lemma mx_ok_on_event event : ok (on_event event).
Proof.
  unfold on_event. repeat first [apply mx_ok_tracked; intros t | solve [eauto with keeps nocore] | progress cbv beta zeta | keep_step].
  case_match; [by apply safe_ret|]. apply show_event_ok.
Qed.
Lemma mx_ok_on_phase change : ok (on_phase change).
Proof. unfold on_phase. keep. Qed.
Lemma mx_ok_press_enter agent : ok (press_enter agent).
Proof. unfold press_enter. keep. Qed.
#[local] Hint Resolve mx_ok_press_enter : keeps.
Lemma mx_ok_on_tick : ok on_tick.
Proof. unfold on_tick. keep. Qed.
Lemma mx_ok_on_activate agent config : ok (on_activate agent config).
Proof. unfold on_activate. keep. Qed.
Lemma mx_ok_on_deactivate agent : ok (on_deactivate agent).
Proof. unfold on_deactivate. keep. Qed.
#[local] Hint Resolve mx_ok_on_event mx_ok_on_phase mx_ok_on_tick mx_ok_on_activate mx_ok_on_deactivate : keeps.

Lemma mx_ok_dispatch user_id command : buffered command -> ok (dispatch user_id command).
Proof. intros Hb. destruct command; cbn [dispatch]; [by destruct (Hb config)|keep..]. Qed.
End actor_ok.

(** *** Facts that every write keeps *)

Section lawful.
Context `{!Env Call, !Unicode, !Letters, !JsonText, !RoomCodec}.

Record lawful (L : Maps -> Questions -> Marks -> Log -> Prop) : Prop := {
  lw_plain m q k log c : plain c = true -> L m q k log -> L m q k (did c log);
  lw_act m q k log agent action : L m q k log -> L m q k (did (DoAction agent action) log);
  lw_question_put m q k log agent bytes : L m q k log -> L m q k (did (KvPut (question_key agent) bytes) log);
  lw_question_delete m q k log agent : L m q k log -> L m q k (did (KvDelete (question_key agent)) log);
  lw_marks_put m q k log bytes : L m q k log -> L m q k (did (KvPut ROUTED_KEY bytes) log);
  lw_room m q k log crew room_ : L m q k log ->
    L (match ask log (KvPut (room_key crew) room_) with Ok _ => insert_room crew room_ m | Err _ => m end) q k
      (did (KvPut (room_key crew) room_) log);
  lw_thread m q k log agent t bytes : encode_thread t = Ok bytes -> L m q k log ->
    L (match ask log (KvPut (thread_key agent) bytes) with Ok _ => insert_thread agent t m | Err _ => m end) q k
      (did (KvPut (thread_key agent) bytes) log);
  lw_forget m q k log agent : L m q k log ->
    L (match ask log (KvDelete (thread_key agent)) with Ok _ => remove_thread agent m | Err _ => m end) q k
      (did (KvDelete (thread_key agent)) log);
  lw_questions m q q' k log : L m q k log -> L m q' k log;
  lw_marks m q k k' log : L m q k log -> L m q k' log;
}.

Lemma dispatch_lawful L user_id command : lawful L -> buffered command ->
  keeps (fun w : World Call Actor => actor_ok true w /\ L (ma_maps w.1) (ma_questions w.1) (ma_marks w.1) w.2)
    (dispatch user_id command).
Proof. intros [] Hb. apply mx_ok_dispatch; try done; intros; eauto. Qed.

Lemma lawful_true : lawful (fun _ _ _ _ => True).
Proof. done. Qed.
End lawful.
