(* ===== verification/MxRuns.v ===== *)
(** Runs of the matrix actor: it never panics, a restart resumes its rooms and
    threads, a reply reaches only the agent of its thread and in the way the
    agent's dialogs ask for, a message is handled once, and a room that was
    refused is asked for again only after its wait. *)

From S2P Require Import Prelude Str BTree Rules Json Bytes Text Delivery Question Answer Render PluginConfig.
From S2P Require Import Talk Sdk Fits Rooms MxActor MxSafety.
From S2P Require Parts Queue.

Section runs.
Context `{!Env Call, !Unicode, !Letters, !JsonText, !RoomCodec} (user_id : string).

(** ** Commands one after the other *)

Definition is_configure (c : Command) : bool := match c with Configure _ => true | _ => false end.

Lemma mx_buffered_not c : is_configure c = false -> buffered c.
Proof. by intros Hc config ->. Qed.

(** The rounds of [run]: whether the queue had a gap, and the command in hand. *)
Definition turns (cs : list (bool * Command)) : Task Call Actor unit := for_each (fun '(gap, c) => turn user_id gap c) cs.

Section lawful_runs.
Context (L : Maps -> Questions -> Marks -> Log -> Prop) (HL : lawful L).
Definition holds (b : bool) (w : World Call Actor) : Prop :=
  actor_ok b w /\ L (ma_maps w.1) (ma_questions w.1) (ma_marks w.1) w.2.

Lemma mx_dispatch_total command w : buffered command -> holds true w ->
  exists w', dispatch user_id command w = Some (tt, w') /\ holds true w'.
Proof.
  intros Hb Hw. destruct (dispatch_lawful L user_id command HL Hb w Hw Logic.I) as ([] & w' & ? & ? & _). by exists w'.
Qed.

Lemma holds_any b w : holds true w -> holds b w.
Proof. intros [[Hc ? ? ?] H']. split; [|done]. split; try done. intros _. by apply Hc. Qed.

Lemma mx_dispatch_each fuel cs w : Forall buffered cs -> holds true w ->
  exists w', for_each (handle_from user_id fuel) cs w = Some (tt, w') /\ holds true w'.
Proof.
  intros Hcs. revert w. induction Hcs as [|c cs Hc _ IH]; intros w Hw; [by exists w|]. cbn [for_each].
  destruct (mx_dispatch_total c w Hc Hw) as (w1 & E1 & Hw1). destruct (IH w1 Hw1) as (w2 & E2 & Hw2). exists w2. split; [|done].
  erewrite run_bind; [exact E2|]. destruct (ok_config _ _ (proj1 Hw) eq_refl) as [config Hcfg].
  destruct c; [by destruct (Hc config0)|..]; destruct fuel; cbn [handle_from];
    (erewrite run_bind by reflexivity; rewrite Hcfg; exact E1).
Qed.

Lemma mx_handle_total b command w : holds b w ->
  exists w', handle user_id command w = Some (tt, w') /\ holds (b || is_configure command) w'.
Proof.
  destruct w as [s log]. intros Hw. unfold handle. destruct (is_configure command) eqn:Hc.
  - destruct command; try done. cbn [handle_from]. rewrite orb_true_r.
    do 3 (erewrite run_bind by reflexivity). cbn [fst snd]. destruct Hw as [[? ? ? ?] Hl].
    apply (mx_dispatch_each 0); [done|]. split; [by split|done].
  - rewrite orb_false_r. apply mx_buffered_not in Hc. destruct (ma_config s) as [config|] eqn:Hcfg.
    + destruct Hw as [[? ? ? ?] Hl]. destruct (mx_dispatch_total command (s, log) Hc) as (w' & E & Hw').
      { split; [by split|done]. }
      exists w'. split; [|by apply holds_any].
      destruct command; [by destruct (Hc config0)|..]; cbn [handle_from]; (erewrite run_bind by reflexivity; simpl; rewrite Hcfg; exact E).
    + exists (set_pending_commands (ma_pending_commands s ++ [command]) s, log). split.
      * destruct command; [by destruct (Hc config)|..]; cbn [handle_from]; (erewrite run_bind by reflexivity; simpl; by rewrite Hcfg).
      * destruct Hw as [[? Hp ? ?] Hl]. split; [|done]. split; try done. simpl. apply Forall_app. split; [done|]. by repeat constructor.
Qed.

Lemma mx_turn_total gap b command w : holds b w ->
  exists w', turn user_id gap command w = Some (tt, w') /\ holds (b || is_configure command) w'.
Proof.
  intros Hw. unfold turn, when. destruct gap; cbn iota; [|erewrite run_bind by reflexivity; by apply mx_handle_total].
  destruct w as [s log]. unfold upd_deliveries, update. erewrite run_bind by reflexivity. apply mx_handle_total.
  destruct Hw as [[? ? ? ?] Hl]. split; [by split|done].
Qed.

Lemma mx_turns_total cs b w : holds b w ->
  exists w', turns cs w = Some (tt, w') /\ holds (b || existsb is_configure cs.*2) w'.
Proof.
  revert b w. induction cs as [|[gap c] cs IH]; intros b w Hw; [exists w; by rewrite orb_false_r|].
  destruct (mx_turn_total gap b c w Hw) as (w1 & E1 & Hw1). destruct (IH _ w1 Hw1) as (w2 & E2 & Hw2).
  exists w2. split; [unfold turns; cbn [for_each]; by rewrite (run_bind _ _ _ _ _ E1)|]. simpl. by rewrite orb_assoc.
Qed.
End lawful_runs.

(** ** Loading *)

(** What the daemon's store holds after a history. *)
Definition written (e : Event Call) (m : gmap string string) : gmap string string :=
  match e with
  | Did c a =>
      match c return Answer c -> gmap string string with
      | KvPut key bytes => fun a => match a with Ok _ => <[key := bytes]> m | Err _ => m end
      | KvDelete key => fun a => match a with Ok _ => delete key m | Err _ => m end
      | _ => fun _ => m
      end a
  end.
Definition stored (log : Log) : gmap string string := foldr written ∅ log.

Lemma stored_plain c log : plain c = true -> stored (did c log) = stored log.
Proof. by destruct c. Qed.

Definition ascii_key (s : string) : bool := bytes_all (fun c => (N_of_ascii c <? 128)%N) s.

(** The daemon lists keys under the prefix asked for, in ASCII as its rule for
    keys has it. *)
Definition daemon_lists : Prop := forall log prefix ks, ask log (KvList prefix) = Ok ks ->
  Forall (fun k => exists rest, k = prefix +:+ rest /\ ascii_key rest = true) ks.

Lemma key_rest_run prefix rest w : ascii_key rest = true -> key_rest prefix (prefix +:+ rest) w = Some (rest, w).
Proof.
  intros Hr. unfold key_rest. replace (Parts.is_char_boundary (String.length prefix) (prefix +:+ rest)) with true.
  { by rewrite Parts.str_drop_app_length. }
  symmetry. unfold Parts.is_char_boundary. rewrite Parts.str_drop_app_length. destruct rest as [|c rest].
  - apply orb_true_iff. right. apply Nat.eqb_eq. rewrite length_app_string. simpl. lia.
  - apply orb_true_iff. right. unfold ascii_key in Hr. simpl in Hr. apply andb_true_iff in Hr as [Hc%N.ltb_lt _].
    apply negb_true_iff. unfold is_continuation, byte_in. apply andb_false_iff. left. apply N.leb_gt. lia.
Qed.

Section loads.
Notation listed prefix ks := (Forall (fun k => exists rest, k = prefix +:+ rest /\ ascii_key rest = true) ks).

(** A load of one part of the state: it only reads, and what it finds is [P]. *)
Definition loads {A} (P : A -> Prop) (m : Task Call Actor (result SdkError A)) : Prop := forall s log,
  exists r log', m (s, log) = Some (r, (s, log')) /\ stored log' = stored log /\ forall a, r = Ok a -> P a.

Lemma loads_ret {A} (P : A -> Prop) r : (forall a, r = Ok a -> P a) -> loads P (mret r).
Proof. intros Hr s log. by exists r, log. Qed.
Lemma loads_call {A} (P : A -> Prop) c (k : Answer c -> Task Call Actor (result SdkError A)) :
  plain c = true -> (forall a log, a = ask log c -> loads P (k a)) -> loads P (call c ≫= k).
Proof.
  intros Hc Hk s log. unfold call. erewrite run_bind by reflexivity.
  destruct (Hk _ log eq_refl s (did c log)) as (r & log' & E & Hl & Hr). exists r, log'. by rewrite Hl, stored_plain.
Qed.

Lemma loads_get {A} (P : A -> Prop) key (k : result SdkError (option string) -> Task Call Actor (result SdkError A)) :
  (forall a log, a = ask log (KvGet key) -> loads P (k a)) -> loads P (kv_get key ≫= k).
Proof. exact (loads_call P (KvGet key) k eq_refl). Qed.
Lemma loads_list {A} (P : A -> Prop) prefix (k : result SdkError (list string) -> Task Call Actor (result SdkError A)) :
  (forall a log, a = ask log (KvList prefix) -> loads P (k a)) -> loads P (kv_list prefix ≫= k).
Proof. exact (loads_call P (KvList prefix) k eq_refl). Qed.

Lemma load_rooms_loads ks m : listed ROOM_PREFIX ks -> maps_ok m -> loads maps_ok (load_rooms ks m).
Proof.
  intros Hks. revert m. induction Hks as [|k ks (rest & -> & Hrest) _ IH]; intros m Hm; cbn [load_rooms]; [apply loads_ret; by intros ? [= <-]|].
  apply loads_get. intros [[bytes|]|e] log _; [|by apply IH|by apply loads_ret].
  case_bool_decide; [|by apply IH]. intros s log'. rewrite (run_bind _ _ _ _ _ (key_rest_run _ _ _ Hrest)).
  by apply IH, insert_room_ok.
Qed.

Lemma load_threads_loads ks m : listed THREAD_PREFIX ks -> maps_ok m -> loads maps_ok (load_threads ks m).
Proof.
  intros Hks. revert m. induction Hks as [|k ks (rest & -> & Hrest) _ IH]; intros m Hm; cbn [load_threads]; [apply loads_ret; by intros ? [= <-]|].
  apply loads_get. intros [[bytes|]|e] log _; [|by apply IH|by apply loads_ret].
  destruct (decode_thread bytes) as [t|]; [|by apply IH]. intros s log'. rewrite (run_bind _ _ _ _ _ (key_rest_run _ _ _ Hrest)).
  by apply IH, insert_thread_ok.
Qed.

Lemma questions_load_keys_loads ks qs : listed QUESTION_PREFIX ks -> map_Forall (fun _ o => fits o) qs ->
  loads (map_Forall (fun _ o => fits o)) (questions_load_keys ks qs).
Proof.
  intros Hks. revert qs. induction Hks as [|k ks (rest & -> & Hrest) _ IH]; intros qs Hq; cbn [questions_load_keys]; [apply loads_ret; by intros ? [= <-]|].
  apply loads_get. intros [[bytes|]|e] log _; [|by apply IH|by apply loads_ret].
  destruct (json_parse bytes ≫= Question.parse) as [list|]; [|by apply IH].
  intros s log'. rewrite (run_bind _ _ _ _ _ (key_rest_run _ _ _ Hrest)). by apply IH, map_Forall_insert_2.
Qed.

Lemma maps_load_loads : daemon_lists -> loads maps_ok maps_load.
Proof.
  intros Hlists. unfold maps_load. apply loads_list. intros [ks|e] log Hks; [|by apply loads_ret]. symmetry in Hks.
  intros s log'.
  destruct (load_rooms_loads ks no_maps (Hlists _ _ _ Hks) no_maps_ok s log') as (r & log1 & E & Hl & Hr).
  rewrite (run_bind _ _ _ _ _ E), <- Hl. destruct r as [m|e]; [|by apply loads_ret].
  refine (loads_list maps_ok THREAD_PREFIX _ _ s log1). clear log Hks.
  intros [ks'|e] log Hks; [|by apply loads_ret]. symmetry in Hks. apply load_threads_loads; [by apply (Hlists log)|by apply Hr].
Qed.

Lemma questions_load_loads : daemon_lists -> loads (map_Forall (fun _ o => fits o)) questions_load.
Proof.
  intros Hlists. unfold questions_load. apply loads_list. intros [ks|e] log Hks; [|by apply loads_ret]. symmetry in Hks.
  by apply questions_load_keys_loads; [apply (Hlists log)|].
Qed.

Lemma marks_load_loads : loads (fun _ => True) marks_load.
Proof. apply loads_get. intros [[bytes|]|e] log _; by apply loads_ret. Qed.
End loads.

Lemma mx_load_total log : daemon_lists -> exists w, load (new_actor, log) = Some (tt, w) /\ actor_ok false w /\ stored w.2 = stored log.
Proof.
  intros Hlists. unfold load. set (s := new_actor).
  destruct (maps_load_loads Hlists s log) as (m & log1 & E1 & Hl1 & Hm).
  rewrite (run_bind _ _ _ _ _ E1).
  set (s1 := match m with Ok m => set_maps m s | Err _ => s end).
  rewrite (run_bind _ _ tt _ (s1, log1)) by (by destruct m).
  destruct (questions_load_loads Hlists s1 log1) as (q & log2 & E2 & Hl2 & Hq).
  rewrite (run_bind _ _ _ _ _ E2).
  set (s2 := match q with Ok q => set_questions q s1 | Err _ => s1 end).
  rewrite (run_bind _ _ tt _ (s2, log2)) by (by destruct q).
  destruct (marks_load_loads s2 log2) as (k & log3 & E3 & Hl3 & _).
  rewrite (run_bind _ _ _ _ _ E3).
  assert (actor_ok false (s2, log3)) as Hok.
  { unfold s2, s1. split; [done| | |]; destruct q as [q|], m as [m|]; simpl; try done; eauto using no_maps_ok. }
  assert (stored log3 = stored log) as Hl by by rewrite Hl3, Hl2, Hl1.
  destruct k as [k|e]; [|by exists (s2, log3)]. exists (set_marks k s2, log3). split; [done|]. split; [by destruct Hok|done].
Qed.

(** The actor never panics: whatever the store, the daemon, the homeserver and
    the clock answer, failures included, it loads and takes any sequence of
    commands, with or without gaps; and after it every route leads to the agent
    whose thread it is and every open question can be answered. *)
Theorem matrix_never_panics (cs : list (bool * Command)) (Hlists : daemon_lists) :
  exists w, (_ ← load; turns cs) (new_actor, []) = Some (tt, w) /\ actor_ok (existsb is_configure cs.*2) w.
Proof.
  destruct (mx_load_total [] Hlists) as (w1 & E1 & Hw1 & _).
  destruct (mx_turns_total _ lawful_true cs false w1 (conj Hw1 Logic.I)) as (w & E & Hw & _).
  exists w. by rewrite (run_bind _ _ _ _ _ E1).
Qed.

(** ** A restart *)

(** A store that answers reads by what it took, lists the keys under a prefix,
    and takes and lists only keys of the daemon's rule; it may refuse any write. *)
Record lawful_store : Prop := {
  st_get log key : ask log (KvGet key) = Ok (stored log !! key);
  st_list log prefix : exists ks, ask log (KvList prefix) = Ok ks /\
    forall k, k ∈ ks <-> is_Some (stored log !! k) /\ starts_with k prefix = true /\ bytes_all kv_byte k = true;
  st_put log key bytes : ask log (KvPut key bytes) = Ok tt -> bytes_all kv_byte key = true;
}.

Definition utf8 (s : string) : option string := if bool_decide (from_utf8_lossy s = s) then Some s else None.

Definition mirrored (m : Maps) (log : Log) : Prop :=
  (forall k, is_Some (stored log !! k) -> bytes_all kv_byte k = true) /\
  (forall crew, (mp_rooms m !! crew ≫= utf8) = (stored log !! room_key crew ≫= utf8)) /\
  (forall agent, mp_threads m !! agent = stored log !! thread_key agent ≫= decode_thread).

Lemma room_key_inj crew crew' : room_key crew = room_key crew' <-> crew = crew'.
Proof. split; [|by intros ->]. unfold room_key. intros Hk%(f_equal (str_drop (String.length ROOM_PREFIX))). by rewrite !Parts.str_drop_app_length in Hk. Qed.
Lemma thread_key_inj a a' : thread_key a = thread_key a' <-> a = a'.
Proof. split; [|by intros ->]. unfold thread_key. intros Hk%(f_equal (str_drop (String.length THREAD_PREFIX))). by rewrite !Parts.str_drop_app_length in Hk. Qed.

Lemma kv_byte_ascii c : kv_byte c = true -> (N_of_ascii c <? 128)%N = true.
Proof. by destruct c as [[] [] [] [] [] [] [] []]. Qed.

Section restart.
Context (Hstore : lawful_store).
Context (decode_encode : forall t bytes, encode_thread t = Ok bytes -> decode_thread bytes = Some t).

(** A write, with what it does to the store. *)
Lemma stored_put log key bytes : stored (did (KvPut key bytes) log) =
  match ask log (KvPut key bytes) with Ok _ => <[key := bytes]> (stored log) | Err _ => stored log end.
Proof. done. Qed.
Lemma stored_delete log key : stored (did (KvDelete key) log) =
  match ask log (KvDelete key) with Ok _ => delete key (stored log) | Err _ => stored log end.
Proof. done. Qed.

Lemma mirrored_keys m log key bytes : mirrored m log ->
  forall k, is_Some (stored (did (KvPut key bytes) log) !! k) -> bytes_all kv_byte k = true.
Proof.
  intros (Hk & _ & _) k. rewrite stored_put. pose proof (st_put Hstore log key bytes) as Hput.
  destruct (ask log (KvPut key bytes)) as [[]|e]; [|apply Hk]. destruct (decide (k = key)) as [->|Hne]; [by intros _; apply Hput|].
  rewrite lookup_insert_ne by done. apply Hk.
Qed.

Lemma mirrored_put m log key bytes : mirrored m log ->
  (forall crew, key <> room_key crew) -> (forall agent, key <> thread_key agent) -> mirrored m (did (KvPut key bytes) log).
Proof.
  intros Hm Hr Ht. split; [by eapply mirrored_keys|]. destruct Hm as (_ & Hrooms & Hthreads). rewrite stored_put.
  destruct (ask log (KvPut key bytes)); [|done].
  split; intros x; rewrite lookup_insert_ne by (apply Hr || apply Ht); done.
Qed.

Lemma mirrored_delete m log key : mirrored m log ->
  (forall crew, key <> room_key crew) -> (forall agent, key <> thread_key agent) -> mirrored m (did (KvDelete key) log).
Proof.
  intros (Hk & Hrooms & Hthreads) Hr Ht. unfold mirrored. rewrite stored_delete. destruct (ask log (KvDelete key)); [|done].
  split; [|split; intros x; rewrite lookup_delete_ne by (apply Hr || apply Ht); done]. intros k [v Hv]. apply Hk. apply lookup_delete_Some in Hv as [_ Hv]. by exists v.
Qed.

Lemma mirrored_lawful : lawful (fun m _ _ log => mirrored m log).
Proof.
  split; try done.
  - intros m _ _ log c Hc Hm. by destruct c.
  - intros m _ _ log agent bytes Hm. by apply mirrored_put.
  - intros m _ _ log agent Hm. by apply mirrored_delete.
  - intros m _ _ log bytes Hm. by apply mirrored_put.
  - intros m _ _ log crew r Hm. split; [by eapply mirrored_keys|]. destruct Hm as (_ & Hrooms & Hthreads). rewrite stored_put.
    destruct (ask log (KvPut (room_key crew) r)); [|done]. split.
    + intros x. simpl. destruct (decide (x = crew)) as [->|Hne]; [by rewrite !lookup_insert_eq|].
      by rewrite !lookup_insert_ne by (done || by intros ->%room_key_inj).
    + intros x. by rewrite lookup_insert_ne.
  - intros m _ _ log agent t bytes Ht Hm. split; [by eapply mirrored_keys|]. destruct Hm as (_ & Hrooms & Hthreads). rewrite stored_put.
    destruct (ask log (KvPut (thread_key agent) bytes)); [|done]. split.
    + intros x. by rewrite lookup_insert_ne.
    + intros x. simpl. destruct (decide (x = agent)) as [->|Hne].
      * rewrite !lookup_insert_eq. simpl. symmetry. by apply decode_encode.
      * by rewrite !lookup_insert_ne by (done || by intros ->%thread_key_inj).
  - intros m _ _ log agent Hm. destruct Hm as (Hk & Hrooms & Hthreads). unfold mirrored. rewrite stored_delete.
    destruct (ask log (KvDelete (thread_key agent))); [|done]. split_and!.
    + intros k [v Hv]. apply Hk. apply lookup_delete_Some in Hv as [_ Hv]. by exists v.
    + intros x. by rewrite lookup_delete_ne.
    + intros x. simpl. destruct (decide (x = agent)) as [->|Hne]; [by rewrite !lookup_delete_eq|].
      by rewrite !lookup_delete_ne by (done || by intros ->%thread_key_inj).
Qed.

(** *** Reading it back *)

Notation readable log ks prefix := (Forall (fun k => is_Some (stored log !! k) /\ exists rest, k = prefix +:+ rest /\ ascii_key rest = true) ks).

Lemma kv_rest prefix k : starts_with k prefix = true -> bytes_all kv_byte k = true ->
  exists rest, k = prefix +:+ rest /\ ascii_key rest = true.
Proof.
  intros [rest ->]%starts_with_spec Hb. exists rest. split; [done|]. rewrite bytes_all_app in Hb.
  apply andb_true_iff in Hb as [_ Hrest]. by eapply bytes_all_impl; [apply kv_byte_ascii|].
Qed.

Lemma listed_readable log prefix : (forall k, is_Some (stored log !! k) -> bytes_all kv_byte k = true) ->
  exists ks, ask log (KvList prefix) = Ok ks /\ readable log ks prefix /\
    forall rest, is_Some (stored log !! (prefix +:+ rest)) -> prefix +:+ rest ∈ ks.
Proof.
  intros Hkv. destruct (st_list Hstore log prefix) as (ks & -> & Hks). exists ks. split; [done|]. split.
  - apply Forall_forall. intros k (Hk & Hp & Hb)%Hks. split; [done|]. by apply kv_rest.
  - intros rest Hr. apply Hks. split; [done|]. split; [apply starts_with_app|by apply Hkv].
Qed.

Lemma lawful_lists : daemon_lists.
Proof.
  intros log prefix ks Hask. destruct (st_list Hstore log prefix) as (ks' & Hask' & Hks). rewrite Hask in Hask'. injection Hask' as <-.
  apply Forall_forall. intros k (_ & Hp & Hb)%Hks. by apply kv_rest.
Qed.

Lemma load_rooms_run ks m s log log0 : stored log = stored log0 -> readable log0 ks ROOM_PREFIX ->
  exists m' log', load_rooms ks m (s, log) = Some (Ok m', (s, log')) /\ stored log' = stored log0 /\
    mp_threads m' = mp_threads m /\
    forall crew, mp_rooms m' !! crew =
      match stored log0 !! room_key crew ≫= utf8 with
      | Some r => if bool_decide (room_key crew ∈ ks) then Some r else mp_rooms m !! crew
      | None => mp_rooms m !! crew
      end.
Proof.
  intros Hlog Hks. revert m log Hlog. induction Hks as [|k ks ([b Hb] & rest & -> & Hrest) _ IH]; intros m log Hlog; cbn [load_rooms].
  - exists m, log. split_and!; [done..|]. intros crew. by destruct (stored log0 !! room_key crew ≫= utf8).
  - unfold kv_get, call. erewrite run_bind by reflexivity. rewrite (st_get Hstore), Hlog, Hb.
    set (log1 := Did (KvGet (ROOM_PREFIX +:+ rest)) (Ok (Some b)) :: log). assert (stored log1 = stored log0) as Hlog1 by done.
    assert (forall crew (P : Prop), crew <> rest -> room_key crew ∈ (ROOM_PREFIX +:+ rest) :: ks <-> room_key crew ∈ ks) as Hin.
    { intros crew _ Hne. rewrite elem_of_cons. split; [|by right]. by intros [->%room_key_inj|Hin]. }
    destruct (decide (from_utf8_lossy b = b)) as [Hv|Hv].
    + rewrite bool_decide_true by done. rewrite (run_bind _ _ _ _ _ (key_rest_run _ _ _ Hrest)).
      destruct (IH (insert_room rest b m) log1 Hlog1) as (m' & log' & E & Hl & Ht & Hr). exists m', log'. split_and!; [done..|].
      intros crew. rewrite Hr. simpl. destruct (decide (crew = rest)) as [->|Hne].
      * change (room_key rest) with (ROOM_PREFIX +:+ rest). rewrite Hb. simpl. unfold utf8. rewrite bool_decide_true by done.
        rewrite lookup_insert_eq, (bool_decide_true (_ ∈ _ :: _)) by by left. by case_bool_decide.
      * rewrite lookup_insert_ne by done. by rewrite (bool_decide_ext _ _ (Hin crew True Hne)).
    + rewrite bool_decide_false by done. destruct (IH m log1 Hlog1) as (m' & log' & E & Hl & Ht & Hr). exists m', log'. split_and!; [done..|].
      intros crew. rewrite Hr. destruct (decide (crew = rest)) as [->|Hne].
      * change (room_key rest) with (ROOM_PREFIX +:+ rest). rewrite Hb. simpl. unfold utf8. by rewrite bool_decide_false.
      * by rewrite (bool_decide_ext _ _ (Hin crew True Hne)).
Qed.

(** The threads are those of the store, and have their routes. *)
Definition reading (m : Maps) (log : Log) : Prop :=
  routed_threads m /\ forall agent t, thread agent m = Some t -> stored log !! thread_key agent ≫= decode_thread = Some t.

Lemma reading_insert m log rest t : stored log !! thread_key rest ≫= decode_thread = Some t -> reading m log ->
  reading (insert_thread rest t m) log.
Proof.
  intros Ht [Hr Hs]. split.
  - apply insert_same_routed; [|done]. intros old Hold%Hs. congruence.
  - intros a t'. unfold thread, insert_thread. simpl. destruct (decide (rest = a)) as [<-|Hne].
    + rewrite lookup_insert_eq. by intros [= <-].
    + rewrite lookup_insert_ne by done. apply Hs.
Qed.

Lemma load_threads_run ks m s log log0 : stored log = stored log0 -> readable log0 ks THREAD_PREFIX -> reading m log0 ->
  exists m' log', load_threads ks m (s, log) = Some (Ok m', (s, log')) /\ stored log' = stored log0 /\
    mp_rooms m' = mp_rooms m /\ reading m' log0 /\
    forall agent, mp_threads m' !! agent =
      match stored log0 !! thread_key agent ≫= decode_thread with
      | Some t => if bool_decide (thread_key agent ∈ ks) then Some t else mp_threads m !! agent
      | None => mp_threads m !! agent
      end.
Proof.
  intros Hlog Hks. revert m log Hlog. induction Hks as [|k ks ([b Hb] & rest & -> & Hrest) _ IH]; intros m log Hlog Hread; cbn [load_threads].
  - exists m, log. split_and!; [done..|]. intros agent. by destruct (stored log0 !! thread_key agent ≫= decode_thread).
  - unfold kv_get, call. erewrite run_bind by reflexivity. rewrite (st_get Hstore), Hlog, Hb.
    set (log1 := Did (KvGet (THREAD_PREFIX +:+ rest)) (Ok (Some b)) :: log). assert (stored log1 = stored log0) as Hlog1 by done.
    assert (forall agent (P : Prop), agent <> rest -> thread_key agent ∈ (THREAD_PREFIX +:+ rest) :: ks <-> thread_key agent ∈ ks) as Hin.
    { intros agent _ Hne. rewrite elem_of_cons. split; [|by right]. by intros [->%thread_key_inj|Hin]. }
    destruct (decode_thread b) as [t|] eqn:Hv.
    + rewrite (run_bind _ _ _ _ _ (key_rest_run _ _ _ Hrest)).
      destruct (IH (insert_thread rest t m) log1 Hlog1) as (m' & log' & E & Hl & Ht & Hread' & Hr).
      { apply reading_insert; [|done]. change (thread_key rest) with (THREAD_PREFIX +:+ rest). by rewrite Hb. } exists m', log'. split_and!; [done..|].
      intros agent. rewrite Hr. simpl. destruct (decide (agent = rest)) as [->|Hne].
      * change (thread_key rest) with (THREAD_PREFIX +:+ rest). rewrite Hb. simpl. rewrite Hv.
        rewrite lookup_insert_eq, (bool_decide_true (_ ∈ _ :: _)) by by left. by case_bool_decide.
      * rewrite lookup_insert_ne by done. by rewrite (bool_decide_ext _ _ (Hin agent True Hne)).
    + destruct (IH m log1 Hlog1 Hread) as (m' & log' & E & Hl & Ht & Hread' & Hr). exists m', log'. split_and!; [done..|].
      intros agent. rewrite Hr. destruct (decide (agent = rest)) as [->|Hne].
      * change (thread_key rest) with (THREAD_PREFIX +:+ rest). rewrite Hb. simpl. by rewrite Hv.
      * by rewrite (bool_decide_ext _ _ (Hin agent True Hne)).
Qed.

Lemma maps_load_run s log : (forall k, is_Some (stored log !! k) -> bytes_all kv_byte k = true) ->
  exists m log', maps_load (s, log) = Some (Ok m, (s, log')) /\ stored log' = stored log /\
    (forall crew, mp_rooms m !! crew = stored log !! room_key crew ≫= utf8) /\
    (forall agent, mp_threads m !! agent = stored log !! thread_key agent ≫= decode_thread) /\ routed_threads m.
Proof.
  intros Hkv. destruct (listed_readable log ROOM_PREFIX Hkv) as (ks & Hask & Hks & Hall). unfold maps_load.
  unfold kv_list, call. erewrite run_bind by reflexivity. rewrite Hask.
  set (log1 := Did (KvList ROOM_PREFIX) (Ok ks) :: log).
  destruct (load_rooms_run ks no_maps s log1 log eq_refl Hks) as (m & log2 & E & Hl & Ht & Hr). rewrite (run_bind _ _ _ _ _ E).
  destruct (listed_readable log2 THREAD_PREFIX) as (ks' & Hask' & Hks' & Hall'); [by rewrite Hl|].
  erewrite run_bind by reflexivity. rewrite Hask'. rewrite Hl in Hks', Hall'.
  set (log3 := Did (KvList THREAD_PREFIX) (Ok ks') :: log2).
  assert (reading m log) as Hread.
  { split; intros a t Hat; unfold thread in Hat; rewrite Ht in Hat; simpl in Hat; by rewrite lookup_empty in Hat. }
  destruct (load_threads_run ks' m s log3 log Hl Hks' Hread) as (m' & log4 & E' & Hl' & Ht' & [Hrouted _] & Hr'). exists m', log4.
  split; [exact E'|]. split; [done|]. split; [|split; [|done]].
  - intros crew. rewrite Ht', Hr. simpl. rewrite lookup_empty. destruct (stored log !! room_key crew) as [b|] eqn:Hb; [|done].
    simpl. destruct (utf8 b); [|done]. by rewrite bool_decide_true by (apply (Hall crew); by eexists).
  - intros agent. rewrite Hr', Ht. simpl. rewrite lookup_empty. destruct (stored log !! thread_key agent) as [b|] eqn:Hb; [|done].
    simpl. destruct (decode_thread b); [|done]. by rewrite bool_decide_true by (apply (Hall' agent); by eexists).
Qed.

Lemma load_run log : (forall k, is_Some (stored log !! k) -> bytes_all kv_byte k = true) ->
  exists w, load (new_actor, log) = Some (tt, w) /\ actor_ok false w /\ stored w.2 = stored log /\
    (forall crew, room crew (ma_maps w.1) = stored log !! room_key crew ≫= utf8) /\
    (forall agent, thread agent (ma_maps w.1) = stored log !! thread_key agent ≫= decode_thread) /\
    routed_threads (ma_maps w.1).
Proof.
  intros Hkv. destruct (mx_load_total log lawful_lists) as (w & E & Hok & Hstored). exists w. split; [done|]. split; [done|]. split; [done|].
  destruct (maps_load_run new_actor log Hkv) as (m & log1 & E1 & Hl & Hr & Ht & Hrouted).
  unfold load in E. rewrite (run_bind _ _ _ _ _ E1) in E. erewrite run_bind in E by reflexivity. cbn [fst snd] in E.
  apply run_bind_inv in E as (q & w2 & E2 & E).
  assert (ma_maps w2.1 = m) as Hm2.
  { destruct (questions_load_loads lawful_lists (set_maps m new_actor) log1) as (q' & log2 & E2' & _).
    rewrite E2 in E2'. by injection E2' as -> ->. }
  apply run_bind_inv in E as ([] & w3 & E3 & E). assert (ma_maps w3.1 = m) as Hm3 by (destruct q; injection E3 as <-; done).
  apply run_bind_inv in E as (k & w4 & E4 & E). assert (ma_maps w4.1 = m) as Hm4.
  { destruct w3 as [s3 log3]. destruct (marks_load_loads s3 log3) as (k' & log4 & E4' & _). rewrite E4 in E4'. by injection E4' as -> ->. }
  assert (ma_maps w.1 = m) as -> by (destruct k; injection E as <-; done). done.
Qed.

(** C30: A restart resumes: after any commands of an actor that began on an empty
    store, with any writes refused, another that loads from what the store then
    holds has the same thread for every agent and the same room for every crew
    (a room whose id is not text is dropped), and its routes are those of its
    threads: each leads to an agent whose thread it is, every thread's place has
    one, and it leads to the thread's own agent unless another agent's thread is
    at the same place. The store answers reads by what it took, lists the keys
    it holds, and takes no key outside the daemon's rule; a thread is read back
    from its bytes. *)
Theorem rooms_resume (cs : list (bool * Command)) :
  exists w w', (_ ← load; turns cs) (new_actor, []) = Some (tt, w) /\ load (new_actor, w.2) = Some (tt, w') /\
    (forall agent, thread agent (ma_maps w'.1) = thread agent (ma_maps w.1)) /\
    (forall crew, room crew (ma_maps w'.1) = room crew (ma_maps w.1) ≫= utf8) /\
    (forall room_ root agent, route room_ root (ma_maps w'.1) = Some agent ->
       exists t, thread agent (ma_maps w'.1) = Some t /\ thread_at t = (room_, root)) /\
    (forall agent t, thread agent (ma_maps w'.1) = Some t ->
       is_Some (route (th_room t) (th_root t) (ma_maps w'.1)) /\
       ((forall other t', thread other (ma_maps w'.1) = Some t' -> thread_at t' = thread_at t -> other = agent) ->
        route (th_room t) (th_root t) (ma_maps w'.1) = Some agent)).
Proof.
  assert (forall k, is_Some (stored [] !! k) -> bytes_all kv_byte k = true) as Hnone by by intros k [v Hv].
  destruct (load_run [] Hnone) as (w0 & E0 & Hok0 & Hs & Hr0 & Ht0 & _).
  assert (mirrored (ma_maps w0.1) w0.2) as Hm0.
  { split; [by rewrite Hs|]. unfold room, thread in *. split; intros x; rewrite Hs; [|by rewrite Ht0]. by rewrite Hr0. }
  destruct (mx_turns_total _ mirrored_lawful cs false w0 (conj Hok0 Hm0)) as (w & E & _ & Hkv & Hrooms & Hthreads).
  destruct (load_run w.2 Hkv) as (w' & E' & [_ _ Hmaps _] & _ & Hr & Ht & Hrouted). exists w, w'. split; [|split; [|split; [|split; [|split]]]]; try done.
  - by rewrite (run_bind _ _ _ _ _ E0).
  - intros agent. by rewrite Ht, <- Hthreads.
  - intros crew. by rewrite Hr, <- Hrooms.
  - intros agent t Hat. split; [by apply (Hrouted agent)|]. intros Hone. destruct (Hrouted agent t Hat) as [other Hother].
    destruct (Hmaps _ _ _ Hother) as (t' & Ht' & Hat'). by rewrite <- (Hone other t' Ht' Hat').
Qed.
End restart.

(** ** Who is acted on *)

Notation quiet_log := (Forall (fun e => acts e = false)).

(** A task that does nothing to an agent. *)
Definition quietly {A} (m : Task Call Actor A) : Prop := forall w a w', m w = Some (a, w') ->
  exists l, w'.2 = l ++ w.2 /\ quiet_log l.

Lemma quietly_ret {A} (a : A) : quietly (mret a).
Proof. intros w a' w' [= _ <-]. by exists []. Qed.
Lemma quietly_gets {A} (f : Actor -> A) : quietly (gets f).
Proof. intros w a' w' [= _ <-]. by exists []. Qed.
Lemma quietly_modify f : quietly (modify f).
Proof. intros w a' w' [= _ <-]. by exists []. Qed.
Lemma quietly_panic {A} : quietly (panic (A := A)).
Proof. done. Qed.
Lemma quietly_call c : (forall a, acts (Did c a) = false) -> quietly (call c).
Proof. intros Hc [s log] a w' [= _ <-]. eexists [_]. split; [done|]. by constructor. Qed.
Lemma quietly_bind {A B} (m : Task Call Actor A) (k : A -> Task Call Actor B) : quietly m -> (forall a, quietly (k a)) -> quietly (m ≫= k).
Proof.
  intros Hm Hk w b w' (a & w1 & E1 & E)%run_bind_inv. destruct (Hm _ _ _ E1) as (l1 & Hl1 & Hq1).
  destruct (Hk a _ _ _ E) as (l2 & Hl2 & Hq2). exists (l2 ++ l1). rewrite Hl2, Hl1, app_assoc. split; [done|]. by apply Forall_app.
Qed.

Lemma quietly_sleep ms : quietly (sleep ms).
Proof. exact (quietly_call (Sleep ms) (fun _ => eq_refl)). Qed.
Lemma quietly_now : quietly instant_now.
Proof. exact (quietly_call Now (fun _ => eq_refl)). Qed.
Lemma quietly_port_send r root body : quietly (port_send r root body).
Proof. exact (quietly_call (SendMessage r root body) (fun _ => eq_refl)). Qed.
Lemma quietly_port_react r id key : quietly (port_react r id key).
Proof. exact (quietly_call (React r id key) (fun _ => eq_refl)). Qed.
Lemma quietly_kv_put key bytes : quietly (kv_put key bytes).
Proof. exact (quietly_call (KvPut key bytes) (fun _ => eq_refl)). Qed.

Lemma quietly_retry {A} (m : Task Call Actor (result MatrixError A)) : quietly m -> quietly (retry_once m).
Proof.
  intros Hm. unfold retry_once. apply quietly_bind; [done|]. intros [a|[ms|e|e]]; try apply quietly_ret.
  destruct (MAX_INLINE_RETRY <? ms)%N; [apply quietly_ret|]. apply quietly_bind; [apply quietly_sleep|done].
Qed.
Lemma quietly_send_parts r root parts first : quietly (send_parts r root parts first).
Proof.
  revert first. induction parts as [|p parts IH]; intros first; cbn [send_parts]; [apply quietly_ret|].
  apply quietly_bind; [apply quietly_retry, quietly_port_send|]. intros [id|e]; [apply IH|apply quietly_ret].
Qed.
Lemma quietly_send r root body : quietly (send r root body).
Proof. apply quietly_bind; [apply quietly_gets|intros ?; apply quietly_send_parts]. Qed.
Lemma quietly_react_to r id key : quietly (react_to r id key).
Proof. apply quietly_bind; [apply quietly_port_react|intros ?; apply quietly_ret]. Qed.
Lemma quietly_react m key : quietly (react m key).
Proof. apply quietly_react_to. Qed.
Lemma quietly_unconfirmed m why : quietly (unconfirmed m why).
Proof.
  apply quietly_bind; [destruct why; [apply quietly_bind; [apply quietly_gets|intros ?]|..]; apply quietly_ret|].
  intros ?. apply quietly_bind; [apply quietly_send|intros ?; apply quietly_ret].
Qed.
Lemma quietly_track agent root text m : quietly (track agent root text m).
Proof.
  unfold track. destruct (classify text); [|apply quietly_ret]. apply quietly_bind; [apply quietly_gets|intros ?].
  apply quietly_bind; [apply quietly_now|intros ?]. apply quietly_bind; [apply quietly_gets|intros ?].
  destruct (sent _ _ _ _ _ _) as [[e|] d]; (apply quietly_bind; [apply quietly_modify|intros ?]); [apply quietly_unconfirmed|apply quietly_ret].
Qed.

(** A task that does at most one thing to one agent. *)
Definition acted (agent : string) (P : PluginAction -> Prop) (log log' : Log) : Prop :=
  (exists l, log' = l ++ log /\ quiet_log l) \/
  exists l l' action r, log' = l' ++ Did (DoAction agent action) r :: l ++ log /\ quiet_log l /\ quiet_log l' /\ P action.
Definition once (agent : string) (P : PluginAction -> Prop) {A} (m : Task Call Actor A) : Prop := forall w a w', m w = Some (a, w') ->
  acted agent P w.2 w'.2.

Lemma once_quiet agent P {A} (m : Task Call Actor A) : quietly m -> once agent P m.
Proof. intros Hm w a w' E. left. by apply (Hm w a). Qed.
Lemma acted_after agent P l log log' : quiet_log l -> acted agent P (l ++ log) log' -> acted agent P log log'.
Proof.
  intros Hq [(l' & -> & Hq')|(l1 & l2 & action & r & -> & Hq1 & Hq2 & HP)].
  - left. exists (l' ++ l). rewrite app_assoc. split; [done|]. by apply Forall_app.
  - right. exists (l1 ++ l), l2, action, r. rewrite <- app_assoc. split_and!; [done| |done|done]. by apply Forall_app.
Qed.
Lemma once_bind agent P {A B} (m : Task Call Actor A) (k : A -> Task Call Actor B) :
  quietly m -> (forall a, once agent P (k a)) -> once agent P (m ≫= k).
Proof.
  intros Hm Hk w b w' (a & w1 & E1 & E)%run_bind_inv. destruct (Hm _ _ _ E1) as (l1 & Hl1 & Hq1).
  specialize (Hk a _ _ _ E). rewrite Hl1 in Hk. by apply acted_after in Hk.
Qed.
Lemma once_act agent (P : PluginAction -> Prop) action {B} (k : result SdkError unit -> Task Call Actor B) :
  P action -> (forall r, quietly (k r)) -> once agent P (host_action agent action ≫= k).
Proof.
  intros HP Hk [s log] b w' (r & w1 & E1 & E)%run_bind_inv. injection E1 as <- <-.
  destruct (Hk _ _ _ _ E) as (l & Hl & Hq). right. eexists [], l, action, _. split; [exact Hl|]. by split_and!.
Qed.

(** An answer is sent as keys. *)
Definition is_keys (a : PluginAction) : Prop := exists steps delay, a = SendKeys steps delay.

Lemma send_or_keys stage questions selections delay d d' :
  (forall a, is_keys a -> forall b, de_send (d a) = Some b -> is_keys b) ->
  send_or stage (plan_action questions selections delay) d = Some d' -> forall b, de_send d' = Some b -> is_keys b.
Proof.
  intros Hd Hs b Hb. unfold send_or in Hs. destruct (plan_action questions selections delay) as [r|] eqn:Hp; [|done]. simpl in Hs.
  injection Hs as <-. unfold plan_action in Hp. destruct (match selections with Some s => _ | None => _ end) as [steps|]; [|done].
  cbn [mbind option_bind] in Hp. destruct (validate (SendKeys steps delay)); injection Hp as <-; [|done].
  eapply Hd; [|exact Hb]. by eexists _, _.
Qed.

Lemma on_reply_keys o reply delay now commands d b : on_reply o reply delay now commands = Some d -> de_send d = Some b -> is_keys b.
Proof.
  assert (forall qs, fresh_reply qs reply delay now commands = Some d -> de_send d = Some b -> is_keys b) as Hfresh.
  { intros qs. unfold fresh_reply. destruct (match_reply qs reply) as [[selections exact|]|]; [| |by intros [= <-]].
    - destruct (existsb _ _); [by intros [= <-]|]. destruct (describe qs selections); [|done]. simpl.
      destruct exact; [|by intros [= <-]]. intros Hs. eapply send_or_keys; [|exact Hs]. by intros a Ha b' [= <-].
    - intros Hs. eapply send_or_keys; [|exact Hs]. by intros a Ha b' [= <-]. }
  unfold on_reply. destruct (oq_stage o) as [|s e|s e since]; [apply Hfresh| |].
  - case_bool_decide; [intros Hs; eapply send_or_keys; [|exact Hs]; by intros a Ha b' [= <-]|].
    case_bool_decide; [by intros [= <-]|apply Hfresh].
  - destruct (now - since <? SENT_GRACE)%N; [by intros [= <-]|]. destruct (negb _); [by intros [= <-]|].
    intros Hs. eapply send_or_keys; [|exact Hs]. by intros a Ha b' [= <-].
Qed.

Lemma execute_once agent root m d : (forall b, de_send d = Some b -> is_keys b) -> once agent is_keys (execute agent root m d).
Proof.
  intros Hd. unfold execute. apply once_bind; [destruct (de_post d); [apply quietly_send|apply quietly_ret]|intros echo].
  destruct (_ && _ && _).
  { apply once_quiet. apply quietly_bind; [apply quietly_modify|intros ?; apply quietly_react]. }
  assert (forall r : result SdkError unit, quietly
    match r with
    | Ok _ => _ ← upd_questions (set_stage agent (if gates_on_post d then with_echo echo (de_stage d) else de_stage d));
        match de_react d with Some r => react m (reaction_key r) | None => mret tt end
    | Err e => _ ← upd_questions (set_stage agent (de_fallback d));
        _ ← send (in_room m) (Some root) ("**not delivered to " +:+ agent +:+ ":** " +:+ sdk_error_display e);
        react m FAILED
    end) as Hrest.
  { intros [?|e]; (apply quietly_bind; [apply quietly_modify|intros ?]).
    - destruct (de_react d); [apply quietly_react|apply quietly_ret].
    - apply quietly_bind; [apply quietly_send|intros ?; apply quietly_react]. }
  destruct (de_send d) as [action|]; [by apply once_act; [apply Hd|]|]. apply once_quiet. by apply quietly_bind; [apply quietly_ret|].
Qed.

Lemma on_answer_once agent root m : once agent is_keys (on_answer agent root m).
Proof.
  apply once_bind; [apply quietly_gets|]. intros [o|]; [|apply once_quiet, quietly_ret].
  apply once_bind; [apply quietly_gets|intros ?]. apply once_bind; [apply quietly_now|intros ?].
  apply once_bind; [apply quietly_bind; [apply quietly_gets|intros ?; apply quietly_ret]|intros ?].
  destruct (on_reply _ _ _ _ _) as [d|] eqn:Hd; [|done]. apply execute_once. intros b Hb. by eapply on_reply_keys.
Qed.

(** A prompt that may be sent: text that is no command, or one on the list. *)
Definition is_prompt (commands : Allowlist) (body : string) (a : PluginAction) : Prop :=
  a = SendText (prompt_text body) true /\ (classify (prompt_text body) = KindCommand -> allows commands (prompt_text body) = true).

Definition commands_of (s : Actor) : Allowlist :=
  match ma_config s with Some c => allowlist_with (dc_slash_commands c) | None => allowlist_default end.

Lemma on_prompt_acted agent root m w a w' : on_prompt agent root m w = Some (a, w') ->
  acted agent (is_prompt (commands_of w.1) (in_body m)) w.2 w'.2.
Proof.
  unfold on_prompt. cbv zeta. unfold allowlist. intros E. erewrite run_bind in E by reflexivity. fold (commands_of w.1) in E.
  set (text := prompt_text (in_body m)) in *.
  destruct (match classify text with KindCommand => _ | KindPrompt => _ end) eqn:Hoff.
  - eapply once_quiet; [|exact E]. apply quietly_bind; [apply quietly_send|intros ?; apply quietly_react].
  - eapply (once_act agent _ (SendText text true)); [| |exact E].
    + split; [done|]. fold text. intros Hc. rewrite Hc in Hoff. by apply negb_false_iff.
    + intros [?|e]; (apply quietly_bind; [first [apply quietly_react|apply quietly_send]|intros ?]); [apply quietly_track|apply quietly_react].
Qed.

(** Recording a message changes the marks alone. *)
Lemma quietly_store : quietly store_marks.
Proof.
  apply quietly_bind; [apply quietly_gets|intros k]. destruct (record_bytes k) as [k' [b|e]];
    (apply quietly_bind; [apply quietly_modify|intros ?]); [apply quietly_kv_put|apply quietly_ret].
Qed.
Lemma store_run w r w' : store_marks w = Some (r, w') -> w'.1 = set_marks (record_bytes (ma_marks w.1)).1 w.1.
Proof.
  unfold store_marks. erewrite run_bind by reflexivity. destruct (record_bytes (ma_marks w.1)) as [k' [b|e]]; by intros [= _ <-].
Qed.
Lemma record_run room_ id w r w' : record room_ id w = Some (r, w') ->
  w'.1 = set_marks (record_bytes (push_id room_ id (ma_marks w.1))).1 w.1 /\ exists l, w'.2 = l ++ w.2 /\ quiet_log l.
Proof.
  intros E. split.
  - unfold record in E. erewrite run_bind in E by reflexivity. apply store_run in E. rewrite E. by destruct w as [[] ?].
  - eapply (quietly_bind (upd_marks (push_id room_ id)) (fun _ => store_marks)); [apply quietly_modify|intros ?; apply quietly_store|exact E].
Qed.

(** What [on_thread] does in a thread that is open to its agent. *)
Definition reply_ok (s : Actor) (agent : string) (m : Inbound) (a : PluginAction) : Prop :=
  (exists t, thread agent (ma_maps s) = Some t /\ th_closed t = false) /\ is_Some (ma_agents s !! agent) /\
  match ma_questions s !! agent with
  | Some _ => is_keys a
  | None => is_prompt (commands_of s) (in_body m) a
  end.

Lemma on_thread_acted agent root m w a w' : is_Some (thread agent (ma_maps w.1)) -> on_thread agent root m w = Some (a, w') ->
  acted agent (reply_ok w.1 agent m) w.2 w'.2.
Proof.
  intros [t Ht] E. unfold on_thread in E. erewrite run_bind in E by reflexivity. rewrite Ht in E.
  destruct (th_closed t) eqn:Hc; [eapply once_quiet; [apply quietly_react|exact E]|].
  erewrite run_bind in E by reflexivity. case_bool_decide as Ha; cbn [negb] in E.
  2:{ eapply once_quiet; [|exact E]. apply quietly_bind; [apply quietly_send|intros ?; apply quietly_react]. }
  erewrite run_bind in E by reflexivity. unfold is_open in E.
  assert (forall P : PluginAction -> Prop, acted agent P w.2 w'.2 -> (forall b, P b -> reply_ok w.1 agent m b) ->
    acted agent (reply_ok w.1 agent m) w.2 w'.2) as Hacted.
  { intros P [Hq|(l & l' & action & r & Hl & Hq & Hq' & HP)] HPr; [by left|]. right. exists l, l', action, r.
    split_and!; [done|done|done|by apply HPr]. }
  destruct (ma_questions w.1 !! agent) as [o|] eqn:Ho.
  - rewrite bool_decide_true in E by by eexists. eapply Hacted; [eapply on_answer_once, E|]. intros b Hb.
    split; [by exists t|]. split; [done|]. by rewrite Ho.
  - rewrite bool_decide_false in E by by intros []. eapply Hacted; [eapply on_prompt_acted, E|]. intros b Hb.
    split; [by exists t|]. split; [done|]. by rewrite Ho.
Qed.

(** The message is one to act on: another's, new, and in a thread. *)
Definition routed (s : Actor) (m : Inbound) (root agent : string) : Prop :=
  in_sender m <> user_id /\ in_history m = false /\ seen (in_room m) (in_event_id m) (ma_marks s) = false /\
  in_thread_root m = Some root /\ route (in_room m) root (ma_maps s) = Some agent.

Lemma inbound_total m w : actor_ok true w -> exists w', on_inbound user_id m w = Some (tt, w') /\ actor_ok true w'.
Proof.
  intros Hw. destruct (mx_dispatch_total _ lawful_true (Incoming m) w) as (w' & E & Hw' & _); [done|done|by exists w'].
Qed.

(** C29: A reply reaches only the agent of its thread: a message leads to at most one
    action, on the agent whose open thread it is in and that the plugin follows,
    when it is neither our own, nor history, nor handled before; while the agent
    has a question open it is keys and never text, and else it is the reply as a
    prompt, which is no slash command off the list. *)
Theorem reply_reaches_its_agent (m : Inbound) (w : World Call Actor) (Hw : actor_ok true w) :
  exists w', on_inbound user_id m w = Some (tt, w') /\ actor_ok true w' /\
    ((exists l, w'.2 = l ++ w.2 /\ quiet_log l) \/
     exists root agent t, routed w.1 m root agent /\ thread agent (ma_maps w.1) = Some t /\ thread_at t = (in_room m, root) /\
       acted agent (reply_ok w.1 agent m) w.2 w'.2).
Proof.
  destruct (inbound_total m w Hw) as (w' & E & Hw'). exists w'. split; [done|]. split; [done|]. unfold on_inbound in E.
  case_bool_decide as Hs; [left; injection E as <-; by exists []|]. destruct (in_history m) eqn:Hh; [left; injection E as <-; by exists []|].
  erewrite run_bind in E by reflexivity. destruct (seen (in_room m) (in_event_id m) (ma_marks w.1)) eqn:Hseen; [left; injection E as <-; by exists []|].
  erewrite run_bind in E by reflexivity. apply run_bind_inv in E as ([] & w1 & E1 & E).
  assert (exists k, w1.1 = set_marks k w.1 /\ exists l, w1.2 = l ++ w.2 /\ quiet_log l) as (k & Hs1 & l & Hl & Hq).
  { destruct (is_live (in_room m) w.1); [|injection E1 as <-; exists (ma_marks w.1); split; [by destruct w as [[] ?]|by exists []]].
    apply run_bind_inv in E1 as (r & w2 & E1 & [= <-]). apply record_run in E1 as [Hs2 Hl2]. by eexists. }
  destruct (in_thread_root m) as [root|] eqn:Hroot.
  2:{ left. destruct (quietly_react m REFUSED _ _ _ E) as (l' & Hl' & Hq'). exists (l' ++ l). rewrite Hl', Hl, app_assoc.
      split; [done|]. by apply Forall_app. }
  erewrite run_bind in E by reflexivity. rewrite Hs1 in E. simpl in E.
  destruct (route (in_room m) root (ma_maps w.1)) as [agent|] eqn:Hr; [|left; injection E as <-; by exists l].
  destruct (ok_maps _ _ Hw _ _ _ Hr) as (t & Ht & Hat). right. exists root, agent, t. split; [by split_and!|]. split; [done|]. split; [done|].
  apply on_thread_acted in E; [|rewrite Hs1; by exists t]. rewrite Hl in E. apply acted_after in E; [|done].
  destruct E as [E|(l1 & l2 & action & r & HE & Hq1 & Hq2 & HP)]; [by left|]. right. exists l1, l2, action, r.
  split; [done|]. split; [done|]. split; [done|]. by rewrite Hs1 in HP.
Qed.

(** ** A message delivered twice *)

(** The room's marks hold the id, with at most [k] after it. *)
Definition recent (room_ event_id : string) (k : nat) (m : Marks) : Prop :=
  exists l1 l2, m !! room_ = Some (l1 ++ event_id :: l2) /\ length l2 <= k.

Lemma recent_seen room_ id k m : recent room_ id k m -> seen room_ id m = true.
Proof. intros (l1 & l2 & Hm & _). unfold seen. rewrite Hm. apply bool_decide_true. set_solver. Qed.

Lemma recent_push room_ id k m room' id' : (room' = room_ -> S k < MAX_IDS) -> recent room_ id k m ->
  recent room_ id (if bool_decide (room' = room_) then S k else k) (push_id room' id' m).
Proof.
  intros Hk (l1 & l2 & Hm & Hl). unfold recent, push_id. case_bool_decide as Hr.
  - specialize (Hk Hr). subst room'. rewrite Hm, lookup_insert_eq. change (default [] (Some (l1 ++ id :: l2))) with (l1 ++ id :: l2).
    exists (drop (length ((l1 ++ id :: l2) ++ [id']) - MAX_IDS) l1), (l2 ++ [id']). split; [|rewrite length_app; simpl; lia].
    f_equal. rewrite <- app_assoc. cbn [app]. rewrite drop_app_le; [done|]. rewrite !length_app. simpl. rewrite length_app. simpl. lia.
  - rewrite lookup_insert_ne by done. by exists l1, l2.
Qed.

Lemma recent_pushed room_ id m : recent room_ id 0 (push_id room_ id m).
Proof.
  unfold recent, push_id. rewrite lookup_insert_eq. set (ids := default [] (m !! room_)).
  exists (drop (length (ids ++ [id]) - MAX_IDS) ids), []. split; [|done]. f_equal. rewrite length_app. simpl.
  rewrite drop_app_le by (unfold MAX_IDS; lia). done.
Qed.

(** Marks that fit their record: none is dropped to store them. *)
Definition whole (m : Marks) : Prop := (record_bytes m).1 = m.

(** What a command needs to leave the ids of a room: the record still fits with
    the message's id or without the rooms that went, and the room is not one of
    them. *)
Definition keeps_marks (room_ : string) (c : Command) (w w' : World Call Actor) : Prop :=
  match c with
  | Incoming m => whole (push_id (in_room m) (in_event_id m) (ma_marks w.1))
  | Deactivate _ => is_live room_ w'.1 = true /\ whole (retain_rooms (live_rooms w'.1) (ma_marks w.1))
  | _ => True
  end.
Fixpoint undisturbed (room_ : string) (cs : list (bool * Command)) (w : World Call Actor) : Prop :=
  match cs with
  | [] => True
  | (gap, c) :: cs =>
      match turn user_id gap c w with
      | Some (_, w') => keeps_marks room_ c w w' /\ undisturbed room_ cs w'
      | None => False
      end
  end.

(** A message of the room. *)
Definition into (room_ : string) (c : Command) : bool := match c with Incoming m => bool_decide (in_room m = room_) | _ => false end.

Section marked.
Context (k0 : Marks).
Notation J := (fun w : World Call Actor => actor_ok true w /\ ma_marks w.1 = k0).
Notation K := (fun (_ : Maps) (_ : Questions) (k : Marks) (_ : Log) => k = k0).

Lemma marks_stay {A} (t : Task Call Actor A) w a w' : keeps J t -> J w -> t w = Some (a, w') -> J w'.
Proof. intros Ht Hw E. destruct (Ht w Hw Logic.I) as (a' & w1 & E1 & Hw1 & _). rewrite E in E1. by injection E1 as _ ->. Qed.

Lemma marked_dispatch c : match c with Configure _ | Deactivate _ | Incoming _ => False | _ => True end -> keeps J (dispatch user_id c).
Proof.
  intros Hc. destruct c; try done; cbn [dispatch].
  - by apply (mx_ok_on_activate K).
  - apply keeps_bind; [apply keeps_when; by apply mx_ok_upd_deliveries, (mx_actor_core K)|intros ?]. apply keeps_for_each. intros event.
    by apply (mx_ok_on_event K).
  - apply keeps_for_each. intros change. by apply (mx_ok_on_phase K).
  - by apply (mx_ok_on_tick K).
Qed.

(** A deactivation, up to its pruning. *)
Lemma marked_leave agent : keeps J (_ ← upd_agents (delete agent); _ ← clear_question agent;
  _ ← upd_deliveries (fun d => (Delivery.forget agent d).2); forget_thread agent).
Proof.
  apply keeps_bind; [by apply mx_ok_upd_agents, (mx_actor_core K)|intros ?].
  apply keeps_bind; [by apply (mx_ok_clear_question K)|intros ?].
  apply keeps_bind; [by apply mx_ok_upd_deliveries, (mx_actor_core K)|intros ?]. by apply (ok_forget_thread K).
Qed.
End marked.

Lemma whole_stored k w r w' : store_marks w = Some (r, w') -> ma_marks w.1 = k -> whole k -> w'.1 = w.1.
Proof. intros E <- Hk. apply store_run in E. rewrite E, Hk. by destruct w as [[] ?]. Qed.

Lemma prune_run w w' : prune_marks w = Some (tt, w') -> whole (retain_rooms (live_rooms w'.1) (ma_marks w.1)) ->
  live_rooms w'.1 = live_rooms w.1 /\ ma_marks w'.1 = retain_rooms (live_rooms w.1) (ma_marks w.1).
Proof.
  unfold prune_marks. intros E Hwhole. erewrite run_bind in E by reflexivity. apply run_bind_inv in E as (r & w1 & E & [= <-]).
  unfold retain in E. do 3 (erewrite run_bind in E by reflexivity). cbn [fst snd] in E.
  set (s1 := set_marks (retain_rooms (live_rooms w.1) (ma_marks w.1)) w.1) in *.
  assert (live_rooms w1.1 = live_rooms w.1) as Hlive.
  { case_match; [by injection E as _ <-|]. apply store_run in E. by rewrite E. }
  split; [done|]. rewrite Hlive in Hwhole. case_match; [by injection E as _ <-|].
  by rewrite (whole_stored _ _ _ _ E eq_refl Hwhole).
Qed.

Lemma retain_recent room_ id k m (live : gset string) : room_ ∈ live -> recent room_ id k m -> recent room_ id k (retain_rooms live m).
Proof.
  intros Hl (l1 & l2 & Hm & Hlen). exists l1, l2. split; [|done]. unfold retain_rooms. by apply map_lookup_filter_Some.
Qed.

Lemma is_live_in room_ s : is_live room_ s = true -> room_ ∈ live_rooms s.
Proof. unfold is_live, live_rooms. rewrite !orb_true_iff, !bool_decide_eq_true. set_solver. Qed.

(** What follows the record leaves it. *)
Lemma after_record m w w' : actor_ok true w ->
  (match in_thread_root m with
   | None => react m REFUSED
   | Some root => a ← gets (fun s => route (in_room m) root (ma_maps s)); match a with None => mret tt | Some agent => on_thread agent root m end
   end) w = Some (tt, w') -> ma_marks w'.1 = ma_marks w.1.
Proof.
  intros Hw E. destruct (in_thread_root m) as [root|].
  - erewrite run_bind in E by reflexivity. destruct (route _ _ _) as [agent|]; [|by injection E as <-].
    refine (proj2 (marks_stay (ma_marks w.1) _ w tt w' _ (conj Hw eq_refl) E)). by apply (ok_on_thread (fun _ _ k _ => k = ma_marks w.1)).
  - refine (proj2 (marks_stay (ma_marks w.1) _ w tt w' _ (conj Hw eq_refl) E)).
    by apply mx_ok_react, (mx_actor_core (fun _ _ k _ => k = ma_marks w.1)).
Qed.

Lemma record_ok room_ id w r w' : actor_ok true w -> record room_ id w = Some (r, w') ->
  actor_ok true w' /\ ma_marks w'.1 = (record_bytes (push_id room_ id (ma_marks w.1))).1.
Proof.
  intros Hw E. assert (keeps (fun w : World Call Actor => actor_ok true w /\ True) (record room_ id)) as Hrec
    by by apply (ok_record (fun _ _ _ _ => True)).
  destruct (Hrec w (conj Hw Logic.I) Logic.I) as (r' & w2 & E2 & [Hw2 _] & _). rewrite E in E2. injection E2 as _ <-.
  split; [done|]. by apply record_run in E as [-> _].
Qed.

(** A message, with what its mark does. *)
Lemma inbound_marks m w w' : actor_ok true w -> on_inbound user_id m w = Some (tt, w') ->
  ma_marks w'.1 = ma_marks w.1 \/ ma_marks w'.1 = (record_bytes (push_id (in_room m) (in_event_id m) (ma_marks w.1))).1.
Proof.
  intros Hw E. unfold on_inbound in E. case_bool_decide; [left; by injection E as <-|]. destruct (in_history m); [left; by injection E as <-|].
  erewrite run_bind in E by reflexivity. destruct (seen _ _ _); [left; by injection E as <-|]. erewrite run_bind in E by reflexivity.
  apply run_bind_inv in E as ([] & w1 & E1 & E). destruct (is_live (in_room m) w.1).
  - apply run_bind_inv in E1 as (r & w2 & E1 & [= <-]). apply record_ok in E1 as [Hw2 Hm]; [|done]. right. rewrite <- Hm. by apply (after_record m).
  - injection E1 as <-. left. by apply (after_record m).
Qed.

Lemma inbound_recorded m w w' : actor_ok true w -> on_inbound user_id m w = Some (tt, w') -> in_sender m <> user_id ->
  in_history m = false -> seen (in_room m) (in_event_id m) (ma_marks w.1) = false -> is_live (in_room m) w.1 = true ->
  ma_marks w'.1 = (record_bytes (push_id (in_room m) (in_event_id m) (ma_marks w.1))).1.
Proof.
  intros Hw E Hother Hnew Hfirst Hlive. unfold on_inbound in E. rewrite bool_decide_false, Hnew in E by done.
  erewrite run_bind in E by reflexivity. rewrite Hfirst in E. erewrite run_bind in E by reflexivity. rewrite Hlive in E.
  apply run_bind_inv in E as ([] & w1 & E1 & E). apply run_bind_inv in E1 as (r & w2 & E1 & [= <-]).
  apply record_ok in E1 as [Hw2 Hm]; [|done]. rewrite <- Hm. by apply (after_record m).
Qed.

(** The first delivery, in a room in use. *)
Lemma inbound_recent m w w' : actor_ok true w -> on_inbound user_id m w = Some (tt, w') -> in_sender m <> user_id ->
  in_history m = false -> seen (in_room m) (in_event_id m) (ma_marks w.1) = false -> is_live (in_room m) w.1 = true ->
  whole (push_id (in_room m) (in_event_id m) (ma_marks w.1)) -> recent (in_room m) (in_event_id m) 0 (ma_marks w'.1).
Proof.
  intros Hw E Hother Hnew Hfirst Hlive Hfit. apply inbound_recorded in E; try done. rewrite E, Hfit. apply recent_pushed.
Qed.

Lemma mx_dispatch_turn gap command w : buffered command -> actor_ok true w ->
  exists w1, turn user_id gap command w = dispatch user_id command w1 /\ actor_ok true w1 /\ ma_marks w1.1 = ma_marks w.1.
Proof.
  intros Hb Hw. destruct w as [s log]. destruct (ok_config _ _ Hw eq_refl) as [config Hc]. simpl in Hc.
  exists (if gap then set_deliveries (lose_track (ma_deliveries s)) s else s, log). split_and!.
  - unfold turn, when. destruct gap; (erewrite run_bind by reflexivity);
      (destruct command; [by destruct (Hb config0)|..]); unfold handle; cbn [handle_from]; (erewrite run_bind by reflexivity); simpl; by rewrite Hc.
  - destruct gap; [|done]. destruct Hw as [? ? ? ?]. by split.
  - by destruct gap.
Qed.

Lemma turn_recent room_ id k gap c w w' : buffered c -> actor_ok true w -> turn user_id gap c w = Some (tt, w') ->
  keeps_marks room_ c w w' -> (into room_ c = true -> S k < MAX_IDS) -> recent room_ id k (ma_marks w.1) ->
  recent room_ id (if into room_ c then S k else k) (ma_marks w'.1).
Proof.
  intros Hb Hw E Hk Hlen Hrec. destruct (mx_dispatch_turn gap c w Hb Hw) as (w1 & E1 & Hw1 & Hm1). rewrite E in E1. symmetry in E1.
  rewrite <- Hm1 in Hrec.
  assert (forall c, match c with Configure _ | Deactivate _ | Incoming _ => False | _ => True end ->
    dispatch user_id c w1 = Some (tt, w') -> recent room_ id k (ma_marks w'.1)) as Hstay.
  { intros c0 Hc0 E0. by rewrite (proj2 (marks_stay (ma_marks w1.1) _ w1 tt w' (marked_dispatch _ _ Hc0) (conj Hw1 eq_refl) E0)). }
  destruct c as [config|agent config|agent|n events|changes|m|]; cbn [into]; try (by destruct (Hb config)); try (eapply Hstay; [|exact E1]; exact Logic.I).
  - destruct Hk as [Hlive Hwhole]. cbn [dispatch] in E1. unfold on_deactivate in E1.
    apply run_bind_inv in E1 as ([] & w2 & E2 & E1). apply run_bind_inv in E1 as (o & w3 & E3 & E1).
    apply run_bind_inv in E1 as ([] & w4 & E4 & E1). apply run_bind_inv in E1 as (r & w5 & E5 & E1).
    assert (ma_marks w5.1 = ma_marks w1.1) as Hm5.
    { refine (proj2 (marks_stay (ma_marks w1.1) _ w1 r w5 (marked_leave _ agent) (conj Hw1 eq_refl) _)).
      rewrite (run_bind _ _ _ _ _ E2), (run_bind _ _ _ _ _ E3), (run_bind _ _ _ _ _ E4). exact E5. }
    rewrite <- Hm1, <- Hm5 in Hwhole. destruct (prune_run w5 w' E1 Hwhole) as [Hl ->]. rewrite Hm5. apply retain_recent; [|done].
    rewrite <- Hl. by apply is_live_in.
  - cbn [dispatch] in E1. cbn [keeps_marks] in Hk. rewrite <- Hm1 in Hk.
    assert (forall m0, recent room_ id k m0 -> recent room_ id (if bool_decide (in_room m = room_) then S k else k) m0) as Hle.
    { intros m0 (l1 & l2 & ? & ?). exists l1, l2. split; [done|]. case_bool_decide; lia. }
    destruct (inbound_marks m w1 w' Hw1 E1) as [->| ->]; [by apply Hle|]. rewrite Hk. apply recent_push; [|done].
    intros Hr. apply Hlen. by apply bool_decide_true.
Qed.

Lemma turns_recent room_ id cs k w : Forall buffered cs.*2 -> actor_ok true w -> undisturbed room_ cs w ->
  k + length (filter (fun c => into room_ c = true) cs.*2) < MAX_IDS -> recent room_ id k (ma_marks w.1) ->
  exists w', turns cs w = Some (tt, w') /\ actor_ok true w' /\ exists k', recent room_ id k' (ma_marks w'.1).
Proof.
  revert k w. induction cs as [|[gap c] cs IH]; intros k w Hcs Hw Hu Hlen Hrec; [exists w; eauto|].
  rewrite fmap_cons in Hcs, Hlen. apply Forall_cons in Hcs as [Hb Hcs]. cbn [snd] in Hb, Hlen.
  destruct (mx_turn_total _ lawful_true gap true c w (conj Hw Logic.I)) as (w1 & E1 & Hw1 & _).
  cbn [undisturbed] in Hu. rewrite E1 in Hu. destruct Hu as [Hk Hu].
  destruct (into room_ c) eqn:Hinto.
  - rewrite filter_cons_True in Hlen by done. cbn [length] in Hlen.
    pose proof (turn_recent room_ id k gap c w w1 Hb Hw E1 Hk ltac:(lia) Hrec) as Hrec1. rewrite Hinto in Hrec1.
    destruct (IH (S k) w1 Hcs Hw1 Hu ltac:(lia) Hrec1) as (w2 & E2 & Hend). exists w2. split; [|done].
    unfold turns. cbn [for_each]. by rewrite (run_bind _ _ _ _ _ E1).
  - rewrite filter_cons_False in Hlen by congruence.
    pose proof (turn_recent room_ id k gap c w w1 Hb Hw E1 Hk ltac:(congruence) Hrec) as Hrec1. rewrite Hinto in Hrec1.
    destruct (IH k w1 Hcs Hw1 Hu Hlen Hrec1) as (w2 & E2 & Hend). exists w2. split; [|done].
    unfold turns. cbn [for_each]. by rewrite (run_bind _ _ _ _ _ E1).
Qed.

(** C32: Once heard, in a room that is still in use, a message delivered again is
    dropped: nothing is called and nothing changes, whatever came of it the
    first time and whether or not the store took the record of it. This holds
    after any further commands but another configuration, with or without gaps,
    of which fewer than [MAX_IDS] are messages of that room, as long as the room
    stays in use at every deactivation and the record of the ids fits its byte
    limit whenever it is written (over it, the oldest ids are dropped). *)
Theorem handled_once (m : Inbound) (w : World Call Actor) (Hw : actor_ok true w) (Hother : in_sender m <> user_id)
    (Hnew : in_history m = false) (Hfirst : seen (in_room m) (in_event_id m) (ma_marks w.1) = false)
    (Hlive : is_live (in_room m) w.1 = true) (Hfit : whole (push_id (in_room m) (in_event_id m) (ma_marks w.1))) :
  exists w', on_inbound user_id m w = Some (tt, w') /\ actor_ok true w' /\
    forall cs, Forall buffered cs.*2 -> undisturbed (in_room m) cs w' ->
      length (filter (fun c => into (in_room m) c = true) cs.*2) < MAX_IDS ->
      exists w'', turns cs w' = Some (tt, w'') /\ actor_ok true w'' /\
        forall m', in_room m' = in_room m -> in_event_id m' = in_event_id m -> on_inbound user_id m' w'' = Some (tt, w'').
Proof.
  destruct (inbound_total m w Hw) as (w' & E & Hw'). exists w'. split; [done|]. split; [done|]. intros cs Hcs Hu Hlen.
  destruct (turns_recent (in_room m) (in_event_id m) cs 0 w' Hcs Hw' Hu Hlen) as (w'' & E' & Hw'' & k & Hrec).
  { by apply (inbound_recent m w w'). }
  exists w''. split; [done|]. split; [done|]. apply recent_seen in Hrec. intros m' Hr Hi. unfold on_inbound.
  case_bool_decide; [done|]. destruct (in_history m'); [done|]. erewrite run_bind by reflexivity. by rewrite Hr, Hi, Hrec.
Qed.

(** ** A question is tracked whatever happens *)

(** The agent's question after an event, by the event alone. *)
Definition after_event (event : HookEvent) (was : option OpenQuestion) : option OpenQuestion :=
  let name := he_name event in
  if bool_decide (name ∈ ["Stop"; "UserPromptSubmit"; "SessionStart"; "SessionEnd"]) then None
  else if negb (bool_decide (str_field (he_payload event) "tool_name" = Some TOOL)) then was
  else if bool_decide (name = "PreToolUse") then
    match Question.parse (default Null (get (he_payload event) "tool_input")) with
    | Some qs => Some (mkOpen qs Open false false)
    | None => was
    end
  else if bool_decide (name = "PostToolUse") then None
  else was.

Definition follows (event : HookEvent) (q q' : Questions) : Prop := forall a,
  q' !! a = if bool_decide (a = he_agent event) then after_event event (q !! a) else q !! a.

Lemma clear_question_run agent s log : exists r s' log', clear_question agent (s, log) = Some (r, (s', log')) /\
  ma_questions s' = delete agent (ma_questions s).
Proof.
  unfold clear_question. erewrite run_bind by reflexivity. cbn [fst]. destruct (ma_questions s !! agent) as [o|] eqn:Ho.
  - eexists _, _, _. split; [reflexivity|]. done.
  - exists None, s, log. split; [done|]. by rewrite delete_id.
Qed.

Lemma track_question_follows event s log t w' : track_question event (s, log) = Some (t, w') ->
  follows event (ma_questions s) (ma_questions w'.1).
Proof.
  unfold track_question. intros E a. unfold after_event.
  assert (forall qs : Questions, a = he_agent event -> delete (he_agent event) qs !! a = None) as Hdel
    by (intros qs ->; apply lookup_delete_eq).
  case_bool_decide as Hend.
  { apply run_bind_inv in E as (r & w1 & E1 & [= <- <-]).
    destruct (clear_question_run (he_agent event) s log) as (r' & s' & log' & E2 & Hq). rewrite E1 in E2. injection E2 as _ ->. simpl.
    rewrite Hq. case_bool_decide; [by apply Hdel|by rewrite lookup_delete_ne]. }
  case_bool_decide as Htool; cbn [negb] in *; [|injection E as <- <-; by case_bool_decide].
  case_bool_decide as Hpre.
  { destruct (Question.parse _) as [qs|]; [|injection E as <- <-; by case_bool_decide].
    apply run_bind_inv in E as ([] & w1 & E1 & [= <- <-]). unfold open_question in E1. erewrite run_bind in E1 by reflexivity.
    erewrite run_bind in E1 by reflexivity. injection E1 as <-. simpl.
    case_bool_decide as Ha; [rewrite Ha; apply lookup_insert_eq|by rewrite lookup_insert_ne]. }
  case_bool_decide as Hpost; [|injection E as <- <-; by case_bool_decide].
  apply run_bind_inv in E as (r & w1 & E1 & [= <- <-]).
  destruct (clear_question_run (he_agent event) s log) as (r' & s' & log' & E2 & Hq). rewrite E1 in E2. injection E2 as _ ->. simpl.
  rewrite Hq. case_bool_decide; [by apply Hdel|by rewrite lookup_delete_ne].
Qed.

Section dialogs.
Context (q0 : Questions).

(** Steps that leave the questions. *)
Notation J := (fun w : World Call Actor => actor_ok true w /\ ma_questions w.1 = q0).
Lemma same_core_questions : core J.
Proof.
  split.
  - intros s log c Hc [[? ? ? ?] Hq]. by split.
  - intros f s log [Ec Ep Em Eq Ek] [[? ? ? ?] Hq]. simpl in *. split; [|by rewrite Eq].
    split; simpl; [by rewrite Ec|by rewrite Ep|by rewrite Em|by rewrite Eq].
Qed.
Lemma questions_step {A} (m : Task Call Actor A) w : keeps J m -> J w -> exists a w', m w = Some (a, w') /\ J w'.
Proof. intros Hm Hw. destruct (Hm w Hw Logic.I) as (a & w' & E & Hw' & _). by exists a, w'. Qed.

(** Steps that leave the dialogs and their stages. *)
Notation K := (fun (_ : Maps) (q : Questions) (_ : Marks) (_ : Log) => forall a, asked <$> q !! a = asked <$> q0 !! a).
Lemma show_event_dialogs config event t w : actor_ok true w -> ma_questions w.1 = q0 -> tracking_fits t ->
  exists w', show_event config event t w = Some (tt, w') /\ actor_ok true w' /\ forall a, asked <$> ma_questions w'.1 !! a = asked <$> q0 !! a.
Proof.
  intros Hw Hq Ht.
  assert (safe (fun w : World Call Actor => actor_ok true w /\ K (ma_maps w.1) (ma_questions w.1) (ma_marks w.1) w.2)
    (fun _ => tracking_fits t) (show_event config event t) (fun _ _ => True)) as Hs.
  { apply (show_event_ok K); try done. intros m q q' k log Hsame Hk a. by rewrite Hsame. }
  destruct (Hs w) as ([] & w' & E & [Hw' Hk] & _); [|done|by exists w']. split; [done|]. by rewrite Hq.
Qed.
End dialogs.

(** C31: A question is tracked whatever happens: after an event of an agent the plugin
    follows, whether posting, the room, the thread or the store failed and
    whatever the filter says, the dialogs and their stages are those the event
    alone makes of them, and no other agent's change. *)
Theorem dialogs_followed (event : HookEvent) (w : World Call Actor) (config : AgentConfig) (Hw : actor_ok true w)
    (Ha : ma_agents w.1 !! he_agent event = Some config) :
  exists w', on_event event w = Some (tt, w') /\ actor_ok true w' /\
    forall a, asked <$> ma_questions w'.1 !! a =
      asked <$> (if bool_decide (a = he_agent event) then after_event event (ma_questions w.1 !! a) else ma_questions w.1 !! a).
Proof.
  set (q0 := ma_questions w.1). pose proof (same_core_questions q0) as Hcore. unfold on_event.
  erewrite run_bind by reflexivity. rewrite Ha.
  destruct (questions_step q0 instant_now w) as (now & w1 & E1 & H1'); [keep|done|]. rewrite (run_bind _ _ _ _ _ E1).
  erewrite run_bind by reflexivity. destruct (Delivery.on_event event now (ma_deliveries w1.1)) as [outcome d].
  destruct (questions_step q0 (upd_deliveries (fun _ => d)) w1) as ([] & w2 & E2 & H2'); [keep|done|]. rewrite (run_bind _ _ _ _ _ E2).
  destruct (questions_step q0 (for_each (fun m => unconfirmed m Skipped) (oc_skipped outcome)) w2) as ([] & w3 & E3 & H3'); [keep|done|].
  rewrite (run_bind _ _ _ _ _ E3).
  edestruct (questions_step q0 (match oc_confirmed outcome with
           | Some m => react_to (sm_room m) (sm_event_id m) ACK | None => mret tt end) w3) as ([] & w4 & E4 & [Hw4 Hq4]); [keep|done|].
  rewrite (run_bind _ _ _ _ _ E4).
  destruct (mx_track_question_fits (fun _ _ _ _ => True)) with (event := event) (w := w4) as (t & w5 & E5 & [Hw5 _] & _ & Hfit);
    [done..|]. rewrite (run_bind _ _ _ _ _ E5).
  assert (follows event q0 (ma_questions w5.1)) as Hf.
  { rewrite <- Hq4. destruct w4 as [s4 log4]. by eapply track_question_follows. }
  destruct (ac_enabled config); cbn [negb].
  - destruct (show_event_dialogs _ config event t w5 Hw5 eq_refl Hfit) as (w6 & E6 & Hw6 & Hk). exists w6. split; [done|]. split; [done|].
    intros a. by rewrite Hk, Hf.
  - exists w5. split; [done|]. split; [done|]. intros a. by rewrite Hf.
Qed.

(** ** A refused room *)

(** The wait after [n] refusals and one more. *)
Definition refuse (c : option Cooldown) : option Cooldown := Some (mkCooldown 0 (next_wait c)).
Lemma waits n : cd_wait <$> Nat.iter (S n) refuse None =
  Some (N.min (CREATE_COOLDOWN_MIN * 2 ^ N.of_nat n) CREATE_COOLDOWN_MAX).
Proof.
  induction n as [|n IH]; [done|]. rewrite Nat.iter_succ. destruct (Nat.iter (S n) refuse None) as [c|]; [|done].
  injection IH as IH. unfold refuse, next_wait. cbn [fmap option_fmap option_map cd_wait]. f_equal. rewrite IH.
  replace (N.of_nat (S n)) with (N.succ (N.of_nat n)) by lia. rewrite N.pow_succ_r'. lia.
Qed.

(** A crew whose room was refused waits: until its cooldown ends nothing is asked
    but the clock, and a further refusal doubles the wait, up to its cap, from
    the clock after it. *)
Theorem refused_rooms_wait (crew : string) (invite : list string) (s : Actor) (log : Log) :
  match ma_cooldowns s !! crew with
  | Some c => (ask log Now < cd_until c)%N -> create_for crew invite (s, log) = Some (None, (s, did Now log))
  | None => True
  end /\
  forall s' log', create_for crew invite (s, log) = Some (None, (s', log')) ->
    s' = s \/ exists now, ma_cooldowns s' !! crew =
      Some (mkCooldown (now + next_wait (ma_cooldowns s !! crew)) (next_wait (ma_cooldowns s !! crew))) /\ head log' = Some (Did Now now).
Proof.
  split.
  - destruct (ma_cooldowns s !! crew) as [c|] eqn:Hc; [|done]. intros Hlt. unfold create_for, cooling_down.
    rewrite (run_bind _ _ true _ (s, did Now log)); [done|]. erewrite run_bind by reflexivity. cbn [fst]. rewrite Hc.
    unfold instant_now, call. erewrite run_bind by reflexivity. by rewrite (proj2 (N.ltb_lt _ _) Hlt).
  - intros s' log' E. unfold create_for in E. apply run_bind_inv in E as (cooling & w1 & E1 & E).
    assert (w1.1 = s) as Hs1.
    { unfold cooling_down in E1. erewrite run_bind in E1 by reflexivity. destruct (ma_cooldowns (s, log).1 !! crew); [|by injection E1 as _ <-].
      unfold instant_now, call in E1. erewrite run_bind in E1 by reflexivity. by injection E1 as _ <-. }
    destruct cooling; [injection E as ->; by left|]. apply run_bind_inv in E as (created & w2 & E2 & E).
    assert (w2.1 = s) as Hs2.
    { rewrite <- Hs1. clear E. unfold retry_once in E2. apply run_bind_inv in E2 as (r & w3 & E3 & E2).
      assert (w3.1 = w1.1) as <- by by (destruct w1; injection E3 as _ <-).
      destruct r as [r|[ms|e|e]]; try by injection E2 as _ <-. destruct (MAX_INLINE_RETRY <? ms)%N; [by injection E2 as _ <-|].
      destruct w3 as [s3 log3]. unfold sleep, call in E2. erewrite run_bind in E2 by reflexivity. by injection E2 as _ <-. }
    destruct created as [r|e]; [by destruct w2|]. right. destruct w2 as [s2 log2]. simpl in Hs2. subst s2.
    apply run_bind_inv in E as ([] & w4 & E4 & E). unfold cool_down in E4. erewrite run_bind in E4 by reflexivity. cbn [fst] in E4.
    unfold instant_now, call in E4. erewrite run_bind in E4 by reflexivity. injection E4 as <-.
    unfold upd_health, update in E. erewrite run_bind in E by reflexivity. injection E as <- <-.
    exists (ask log2 Now). split; [|done]. simpl. by rewrite lookup_insert_eq.
Qed.
End runs.

(** ** A concrete run *)

Section sample.
#[local] Existing Instance ascii_letters.
#[local] Instance sample_mx_escaped : Unicode := fun _ => false.
#[local] Instance sample_mx_json : JsonText := {| json_bytes _ := "[]"; json_parse _ := None |}.

(** A thread as the bits of its number. *)
#[local] Instance thread_countable : Countable Thread.
Proof.
  by refine (inj_countable' (fun t => (th_session_id t, th_root t, th_room t, th_closed t))
    (fun '(session, root, room_, closed) => mkThread session root room_ closed) _); intros [].
Defined.
Fixpoint bits (p : positive) : string :=
  match p with xH => "1" | xO p => String "0" (bits p) | xI p => String "i" (bits p) end.
Fixpoint unbits (s : string) : option positive :=
  match s with
  | String c r => if Ascii.eqb c "1" then Some xH else p ← unbits r; Some (if Ascii.eqb c "0" then xO p else xI p)
  | EmptyString => None
  end.
Lemma unbits_bits p : unbits (bits p) = Some p.
Proof. induction p as [p IH|p IH|]; simpl; [by rewrite IH..|done]. Qed.

#[local] Instance sample_codec : RoomCodec := {|
  encode_marks _ := Ok "{}"; decode_marks _ := None;
  encode_thread t := Ok (bits (encode t)); decode_thread s := unbits s ≫= decode
|}.
Lemma sample_decode t bytes : encode_thread t = Ok bytes -> decode_thread bytes = Some t.
Proof. intros [= <-]. simpl. rewrite unbits_bits. simpl. apply decode_encode. Qed.

#[local] Instance sample_mx_env : Env Call := fun log c =>
  match c return Talk.Answer c with
  | KvList prefix => Ok (filter (fun k => starts_with k prefix = true /\ bytes_all kv_byte k = true) (keys (stored log)))
  | KvGet key => Ok (stored log !! key)
  | KvPut key _ => if bytes_all kv_byte key then Ok tt else Err (HttpStatus 400 "bad key")
  | KvDelete _ | DoAction _ _ => Ok tt
  | CreateRoom _ _ => Ok "!room:home"
  | SendMessage _ _ _ => Ok ("$" +:+ pretty (length log))
  | React _ _ _ => Ok tt
  | Now => secs (N.of_nat (length log))
  | Sleep _ => tt
  end.

Lemma sample_store : lawful_store.
Proof.
  split.
  - done.
  - intros log prefix. eexists. split; [done|]. intros k. rewrite list_elem_of_filter, elem_of_keys. naive_solver.
  - intros log key bytes. unfold ask, sample_mx_env. by destruct (bytes_all kv_byte key).
Qed.

Definition sample_mx_config : DaemonConfig :=
  {| dc_homeserver := "https://home"; dc_user_id := "@bot:home"; dc_password := None; dc_device_id := "balerix";
     dc_device_name := "balerix"; dc_invite := []; dc_rooms := ∅; dc_max_parts := 10; dc_slash_commands := [] |}.
Definition sample_mx_agent : string := "payments/backend/alice".
Definition sample_event (name : string) (payload : Value) : HookEvent :=
  {| he_agent := sample_mx_agent; he_name := name; he_session_id := Some "s1"; he_received_at := 0; he_payload := payload |}.
Definition sample_commands : list (bool * Command) :=
  [(false, Activate sample_mx_agent agent_config_default); (false, Configure sample_mx_config);
   (true, Events 0 [sample_event "SessionStart" Null]); (false, Tick)].

Lemma matrix_never_panics_witness :
  daemon_lists /\ exists w, (_ ← load; turns "@bot:home" sample_commands) (new_actor, []) = Some (tt, w) /\ actor_ok true w.
Proof.
  assert (daemon_lists) as Hlists by exact (lawful_lists sample_store). split; [done|].
  exact (matrix_never_panics "@bot:home" sample_commands Hlists).
Defined.

Definition sample_world : World Call Actor :=
  default (new_actor, []) (snd <$> (_ ← load; turns "@bot:home" sample_commands) (new_actor, [])).
Definition sample_thread : Thread := mkThread "s1" "$7" "!room:home" false.

Lemma rooms_resume_witness :
  exists w w', (_ ← load; turns "@bot:home" sample_commands) (new_actor, []) = Some (tt, w) /\ load (new_actor, w.2) = Some (tt, w') /\
    thread sample_mx_agent (ma_maps w'.1) = Some sample_thread /\ room "payments/backend" (ma_maps w'.1) = Some "!room:home" /\
    is_Some (route "!room:home" "$7" (ma_maps w'.1)).
Proof.
  destruct (rooms_resume "@bot:home" sample_store sample_decode sample_commands) as (w & w' & E & E' & Ht & Hr & _ & Hroutes).
  exists w, w'. split; [done|]. split; [done|].
  assert (thread sample_mx_agent (ma_maps w'.1) = Some sample_thread) as Hthread.
  { rewrite Ht. assert (w = sample_world) as -> by (unfold sample_world; by rewrite E). by vm_compute. }
  split; [exact Hthread|]. split; [|exact (proj1 (Hroutes _ _ Hthread))].
  rewrite Hr. assert (w = sample_world) as -> by (unfold sample_world; by rewrite E). by vm_compute.
Defined.

Lemma sample_world_ok : actor_ok true sample_world.
Proof.
  destruct (mx_load_total [] (lawful_lists sample_store)) as (w0 & E0 & Hw0 & _).
  destruct (mx_turns_total "@bot:home" _ lawful_true sample_commands false w0 (conj Hw0 Logic.I)) as (w & E & Hw & _).
  unfold sample_world. by rewrite (run_bind _ _ _ _ _ E0), E.
Qed.

Definition sample_reply (text : string) : Inbound :=
  {| in_room := "!room:home"; in_event_id := "$reply"; in_sender := "@ann:home"; in_thread_root := Some "$7"; in_body := text;
     in_history := false |}.

(** A reply is typed into the agent of the thread. *)
Lemma reply_reaches_its_agent_witness :
  exists w', on_inbound "@bot:home" (sample_reply "go on") sample_world = Some (tt, w') /\
    exists root agent l l' action r, routed "@bot:home" sample_world.1 (sample_reply "go on") root agent /\
      w'.2 = l' ++ Did (DoAction agent action) r :: l ++ sample_world.2 /\ reply_ok sample_world.1 agent (sample_reply "go on") action.
Proof.
  destruct (reply_reaches_its_agent "@bot:home" (sample_reply "go on") sample_world sample_world_ok) as (w' & E & _ & Hor).
  assert (count_occ Bool.bool_dec (acts <$> w'.2) true = 1) as Hone.
  { assert (w' = default (new_actor, []) (snd <$> on_inbound "@bot:home" (sample_reply "go on") sample_world)) as -> by by rewrite E.
    by vm_compute. }
  assert (forall l, w'.2 = l ++ sample_world.2 -> Forall (fun e => acts e = false) l -> False) as Hnot.
  { intros l Hl Hq. rewrite Hl, fmap_app in Hone.
    assert (Forall (fun b => b = false) (acts <$> sample_world.2)) as Hw by (vm_compute; by repeat constructor).
    assert (Forall (fun b => b = false) ((acts <$> l) ++ (acts <$> sample_world.2))) as Hall
      by (apply Forall_app; split; [by apply Forall_fmap|done]).
    revert Hone. generalize dependent ((acts <$> l) ++ (acts <$> sample_world.2)). intros bs Hbs.
    induction Hbs as [|b bs -> _ IH]; [done|exact IH]. }
  exists w'. split; [exact E|]. destruct Hor as [(l & Hl & Hq)|(root & agent & t & Hroute & _ & _ & Hacted)]; [by destruct (Hnot l)|].
  destruct Hacted as [(l & Hl & Hq)|(l & l' & action & r & Hl & _ & _ & Hok)]; [by destruct (Hnot l)|].
  exists root, agent, l, l', action, r. split; [exact Hroute|]. split; [exact Hl|exact Hok].
Defined.

(** A reply delivered again, with another text and after other messages, is dropped. *)
Definition sample_meanwhile : list (bool * Command) :=
  let other id := {| in_room := "!room:home"; in_event_id := id; in_sender := "@ann:home"; in_thread_root := Some "$7"; in_body := "more";
                     in_history := false |} in
  [(false, Incoming (other "$r2")); (true, Tick); (false, Events 0 [sample_event "Stop" Null]); (false, Incoming (other "$r3"))].

Lemma handled_once_witness :
  is_live "!room:home" sample_world.1 = true /\
  exists w' w'', on_inbound "@bot:home" (sample_reply "go on") sample_world = Some (tt, w') /\
    turns "@bot:home" sample_meanwhile w' = Some (tt, w'') /\
    on_inbound "@bot:home" (sample_reply "something else") w'' = Some (tt, w'').
Proof.
  assert (is_live "!room:home" sample_world.1 = true) as Hlive by (vm_compute; reflexivity).
  assert (in_sender (sample_reply "go on") <> "@bot:home") as Hother by discriminate.
  assert (whole (push_id "!room:home" "$reply" (ma_marks sample_world.1))) as Hfit by (vm_compute; reflexivity).
  assert (seen "!room:home" "$reply" (ma_marks sample_world.1) = false) as Hfirst by (vm_compute; reflexivity).
  split; [exact Hlive|].
  destruct (handled_once "@bot:home" (sample_reply "go on") sample_world sample_world_ok Hother eq_refl Hfirst Hlive Hfit)
    as (w' & E & _ & Hrest).
  assert (match on_inbound "@bot:home" (sample_reply "go on") sample_world with
          | Some (_, w1) => undisturbed "@bot:home" "!room:home" sample_meanwhile w1
          | None => False
          end) as Hu by (vm_compute; repeat split).
  rewrite E in Hu. destruct (Hrest sample_meanwhile) as (w'' & E' & _ & Hdup); [by repeat constructor|exact Hu|vm_compute; lia|].
  exists w', w''. split; [exact E|]. split; [exact E'|]. exact (Hdup (sample_reply "something else") eq_refl eq_refl).
Defined.

(** The agent stops: no question is left. *)
Lemma dialogs_followed_witness :
  exists w', on_event (sample_event "Stop" Null) sample_world = Some (tt, w') /\ actor_ok true w' /\
    asked <$> ma_questions w'.1 !! sample_mx_agent = None.
Proof.
  destruct (dialogs_followed (sample_event "Stop" Null) sample_world agent_config_default sample_world_ok) as (w' & E & Hw' & Hq);
    [vm_compute; reflexivity|].
  exists w'. split; [exact E|]. split; [exact Hw'|]. rewrite Hq. vm_compute. reflexivity.
Defined.
End sample.
