(* ===== verification/Http.v ===== *)
(** HTTP as the daemon and the plugin SDK handle it themselves: header maps,
    bodies that arrive frame by frame, and the drain of bodies over their limit
    ([crates/balerix-api/src/body_limit.rs]). What [axum] makes of an error and
    which header values are text are parameters. *)

From S2P Require Import Prelude Str Bytes.

(** ** Header maps *)

(** The entries of a [HeaderMap] as it iterates over them: names in lowercase,
    values as their bytes. *)
Notation HeaderMap := (list (string * string)).

(** [HeaderMap::get], [get_all], [contains_key], [insert], [append], [remove]. *)
Definition get_all (name : string) (h : HeaderMap) : list string :=
  omap (fun kv => if bool_decide (kv.1 = name) then Some kv.2 else None) h.
Definition get (name : string) (h : HeaderMap) : option string := head (get_all name h).
Definition contains_key (name : string) (h : HeaderMap) : bool := bool_decide (name ∈ h.*1).
Definition remove (name : string) (h : HeaderMap) : HeaderMap := filter (fun kv => kv.1 <> name) h.
Definition append (name value : string) (h : HeaderMap) : HeaderMap := h ++ [(name, value)].
Definition insert (name value : string) (h : HeaderMap) : HeaderMap := append name value (remove name h).

Lemma elem_of_get_all name v h : v ∈ get_all name h <-> (name, v) ∈ h.
Proof.
  unfold get_all. rewrite list_elem_of_omap. split.
  - intros ([k w] & Hin & Hk). simpl in Hk. case_bool_decide; [|done]. subst. by injection Hk as ->.
  - intros Hin. exists (name, v). simpl. by rewrite bool_decide_true.
Qed.

Lemma get_all_app name h1 h2 : get_all name (h1 ++ h2) = get_all name h1 ++ get_all name h2.
Proof. apply omap_app. Qed.

Lemma get_all_none name h : (forall v, (name, v) ∉ h) -> get_all name h = [].
Proof.
  intros Hn. destruct (get_all name h) as [|v l] eqn:E; [done|]. exfalso. apply (Hn v), elem_of_get_all. rewrite E. by left.
Qed.

Lemma elem_of_insert k v name value h : (k, v) ∈ insert name value h <-> (k <> name /\ (k, v) ∈ h) \/ (k = name /\ v = value).
Proof. unfold insert, append, remove. rewrite elem_of_app, list_elem_of_filter, list_elem_of_singleton. naive_solver. Qed.

Lemma get_all_insert name value h : get_all name (insert name value h) = [value].
Proof.
  unfold insert, append. rewrite get_all_app, get_all_none.
  - cbn. by rewrite bool_decide_true.
  - intros v Hin. unfold remove in Hin. apply list_elem_of_filter in Hin as [Hne _]. done.
Qed.

Lemma get_all_insert_ne name k value h : k <> name -> get_all k (insert name value h) = get_all k h.
Proof.
  intros Hne. unfold insert, append. rewrite get_all_app. cbn. rewrite bool_decide_false by done. rewrite app_nil_r.
  unfold remove, get_all. induction h as [|[k' v'] h IH]; [done|]. rewrite filter_cons. destruct (decide _) as [Hk|Hk]; simpl in *.
  - destruct (decide (k' = k)) as [->|Hkk]; [rewrite bool_decide_true by done; by f_equal|by rewrite bool_decide_false].
  - rewrite IH. rewrite bool_decide_false; [done|]. intros ->. by apply Hk.
Qed.

(** [HeaderValue::to_str] and [HeaderValue::from_str]. *)
Class HeaderText := {
  to_str : string -> option string;
  header_value : string -> option string;
}.

(** ** Bodies *)

Inductive Frame := Data (bytes : string) | Trailers.

(** A body: what its size hint says, the frames it yields and when, and when it
    ends. Instants are nanoseconds since it is first polled. *)
Record Body := {
  bd_lower : N;
  bd_upper : option N;
  bd_frames : list (N * result string Frame);
  bd_end : N;
}.

(** A body that is there whole. *)
Definition whole (bytes : string) : Body :=
  {| bd_lower := len bytes; bd_upper := Some (len bytes); bd_frames := [(0%N, Ok (Data bytes))]; bd_end := 0 |}.

Record Response := mkResponse { rs_status : N; rs_headers : HeaderMap; rs_body : string }.

(** A status with the JSON of an [ErrorBody], as [axum] makes it a response. *)
Class JsonAnswer := json_answer : N -> string -> Response.

(** ** The drain: [body_limit.rs] *)

Definition DRAIN_FACTOR : N := 4.
(** In seconds. *)
Definition DRAIN_TIME : N := 10.
Definition REFUSAL_READ : N := 64 * 1024.

Inductive Read := Fits (bytes : string) | Over | PastCeiling | Broken (e : string).

(** What is read, and when that is known. *)
Fixpoint read_frames (limit ceiling : N) (fs : list (N * result string Frame)) (end_ : N) (kept : option string) (n : N) : Read * N :=
  match fs with
  | [] =>
      (match kept with
       | Some kept => if (n <=? limit)%N then Fits kept else Over
       | None => Over
       end, end_)
  | (at_, Err e) :: _ => (Broken e, at_)
  | (_, Ok Trailers) :: fs => read_frames limit ceiling fs end_ kept n
  | (at_, Ok (Data data)) :: fs =>
      let n := (n + len data)%N in
      if (ceiling <? n)%N then (PastCeiling, at_)
      else
        let kept := kept ← kept; Some (if (n <=? limit)%N then kept +:+ data else kept) in
        read_frames limit ceiling fs end_ kept n
  end.

Definition read (b : Body) (limit ceiling : N) (keep : bool) : Read * N :=
  read_frames limit ceiling (bd_frames b) (bd_end b) (if keep then Some EmptyString else None) 0.

(** [tokio::time::timeout], of seconds. *)
Definition timeout {A} (time : N) (x : A * N) : option A := if (x.2 <=? secs time)%N then Some x.1 else None.

Definition closing (r : Response) : Response :=
  mkResponse (rs_status r) (insert "connection" "close" (rs_headers r)) (rs_body r).

Section drain.
Context `{!JsonAnswer}.

Definition timed_out (time : N) : Response :=
  closing (json_answer 408 ("body not received within " +:+ pretty time +:+ "s")).

(** What the drain takes of a request, and what it hands on. *)
Record Request := { rq_headers : HeaderMap; rq_body : Body }.

Definition spaces (n : N) : string := N.iter n (String " "%char) EmptyString.

(** The stand-in for a body over the limit. *)
Definition over_limit (headers : HeaderMap) (limit : N) : Request :=
  let n := (limit + 1)%N in
  {| rq_headers := insert "content-length" (pretty n) (remove "transfer-encoding" headers); rq_body := whole (spaces n) |}.

(** [drain_over_limit] before the route [next]. *)
Definition drain_over_limit (limit time : N) (req : Request) (next : Request -> Response) : Response :=
  let body := rq_body req in
  if match bd_upper body with Some n => (n <=? limit)%N | None => false end then next req
  else
    let ceiling := saturating_mul_u64 limit DRAIN_FACTOR in
    if (ceiling <? bd_lower body)%N then closing (next (over_limit (rq_headers req) limit))
    else
      let keep := bool_decide (bd_upper body = None) in
      match timeout time (read body limit ceiling keep) with
      | Some (Fits kept) => next {| rq_headers := rq_headers req; rq_body := whole kept |}
      | Some Over => next (over_limit (rq_headers req) limit)
      | Some PastCeiling => closing (next (over_limit (rq_headers req) limit))
      | None => timed_out time
      | Some (Broken e) => closing (json_answer 400 ("Failed to read the request body: " +:+ e))
      end.

(** [refuse]: the refusal of a caller that is not let in. *)
Definition refuse (body : Body) (resp : Response) : Response :=
  if match bd_upper body with Some n => (n <=? REFUSAL_READ)%N | None => false end then
    match timeout DRAIN_TIME (read body 0 REFUSAL_READ false) with
    | Some (Fits _ | Over) => resp
    | _ => closing resp
    end
  else closing resp.
End drain.

(** ** What is read *)

(** The data of frames, and the part of them up to which a reader stays within
    the ceiling. *)
Definition data_of (f : N * result string Frame) : string := match f.2 with Ok (Data d) => d | _ => EmptyString end.
Definition data (fs : list (N * result string Frame)) : string := concat (data_of <$> fs).
Definition breaks (f : N * result string Frame) : bool := match f.2 with Err _ => true | _ => false end.

Lemma data_cons f fs : data (f :: fs) = data_of f +:+ data fs.
Proof. done. Qed.

Lemma read_frames_spec limit ceiling fs : forall end_ kept n, (limit <= ceiling)%N -> (n <= ceiling)%N ->
  match (read_frames limit ceiling fs end_ kept n).1 with
  | Fits b => exists k, kept = Some k /\ Forall (fun f => breaks f = false) fs /\ (n + len (data fs) <= limit)%N /\ b = k +:+ data fs
  | Over => Forall (fun f => breaks f = false) fs /\ (n + len (data fs) <= ceiling)%N /\ (is_Some kept -> (limit < n + len (data fs))%N)
  | PastCeiling => exists l f l', fs = l ++ f :: l' /\ Forall (fun f => breaks f = false) (l ++ [f]) /\
      (n + len (data l) <= ceiling < n + len (data (l ++ [f])))%N
  | Broken e => exists l at_ l', fs = l ++ (at_, Err e) :: l' /\ Forall (fun f => breaks f = false) l /\ (n + len (data l) <= ceiling)%N
  end.
Proof.
  assert (len (data []) = 0)%N as Hz by done.
  induction fs as [|[at_ f] fs IH]; intros end_ kept n Hlc Hn.
  - rewrite ?Hz. cbn [read_frames fst]. destruct kept as [k|].
    + destruct (N.leb_spec n limit) as [Hle|Hgt].
      * exists k. split_and!; [done|done|lia|by rewrite app_nil_r_string].
      * split_and!; [done|lia|intros _; lia].
    + split_and!; [done|lia|by intros []].
  - destruct f as [[d|]|e]; cbn [read_frames fst].
    + assert (len (data ((at_, Ok (Data d)) :: fs)) = len d + len (data fs))%N as Hd by (rewrite data_cons; apply len_app).
      destruct (N.ltb_spec ceiling (n + len d)) as [Hc|Hc].
      { exists [], (at_, Ok (Data d)), fs. cbn [app]. rewrite data_cons, len_app, Hz. cbn [data_of snd].
        split_and!; [done|by constructor|lia|lia]. }
      specialize (IH end_ (kept ← kept; Some (if (n + len d <=? limit)%N then kept +:+ d else kept)) (n + len d)%N Hlc Hc).
      destruct (read_frames _ _ _ _ _ _).1 as [b| | |e].
      * destruct IH as (k & Hk & Hall & Hle & ->). destruct kept as [k0|]; [|done]. cbn in Hk.
        destruct (N.leb_spec (n + len d) limit) as [_|]; [|lia]. injection Hk as <-. exists k0.
        split_and!; [done|by constructor|rewrite Hd; lia|]. rewrite data_cons. cbn. by rewrite app_assoc_string.
      * destruct IH as (Hall & Hle & Hlt). split_and!; [by constructor|rewrite Hd; lia|]. intros [k0 ->]. rewrite Hd.
        enough (limit < n + len d + len (data fs))%N by lia. apply Hlt. by eexists.
      * destruct IH as (l & f & l' & -> & Hall & Hlo & Hhi). exists ((at_, Ok (Data d)) :: l), f, l'.
        split_and!; [done|by constructor|rewrite data_cons, len_app; cbn [data_of snd]; lia|]. cbn [app]. rewrite data_cons, len_app. cbn [data_of snd]. lia.
      * destruct IH as (l & a & l' & -> & Hall & Hle). exists ((at_, Ok (Data d)) :: l), a, l'.
        split_and!; [done|by constructor|rewrite data_cons, len_app; cbn [data_of snd]; lia].
    + specialize (IH end_ kept n Hlc Hn). destruct (read_frames _ _ _ _ _ _).1 as [b| | |e].
      * destruct IH as (k & -> & Hall & Hle & ->). exists k. by split_and!; [|constructor| |].
      * destruct IH as (Hall & Hle & Hlt). by split_and!; [constructor| |].
      * destruct IH as (l & f & l' & -> & Hall & Hlo & Hhi). exists ((at_, Ok Trailers) :: l), f, l'. by split_and!; [|constructor| |].
      * destruct IH as (l & a & l' & -> & Hall & Hle). exists ((at_, Ok Trailers) :: l), a, l'. by split_and!; [|constructor|].
    + exists [], at_, fs. split_and!; [done|done|lia].
Qed.

(** What a read makes of a body. *)
Lemma read_spec b limit ceiling keep : (limit <= ceiling)%N ->
  match (read b limit ceiling keep).1 with
  | Fits bytes => keep = true /\ Forall (fun f => breaks f = false) (bd_frames b) /\ bytes = data (bd_frames b) /\ (len bytes <= limit)%N
  | Over => Forall (fun f => breaks f = false) (bd_frames b) /\ (keep = true -> (limit < len (data (bd_frames b)))%N)
  | PastCeiling => exists l l', bd_frames b = l ++ l' /\ (ceiling < len (data l))%N
  | Broken e => exists at_, (at_, Err e) ∈ bd_frames b
  end.
Proof.
  intros Hlc. pose proof (read_frames_spec limit ceiling (bd_frames b) (bd_end b) (if keep then Some EmptyString else None) 0 Hlc) as Hs.
  unfold read. destruct (read_frames _ _ _ _ _ _).1 as [bytes| | |e].
  - destruct Hs as (k & Hk & Hall & Hle & ->); [lia|]. destruct keep; [|done]. injection Hk as <-. rewrite app_nil_string. by split_and!.
  - destruct Hs as (Hall & _ & Hlt); [lia|]. split; [done|]. intros ->. rewrite N.add_0_l in Hlt. apply Hlt. by eexists.
  - destruct Hs as (l & f & l' & -> & _ & _ & Hhi); [lia|]. exists (l ++ [f]), l'. by rewrite <- app_assoc.
  - destruct Hs as (l & a & l' & -> & _); [lia|]. exists a. rewrite elem_of_app. right. by left.
Qed.

Lemma data_app l l' : data (l ++ l') = data l +:+ data l'.
Proof.
  induction l as [|f l IH]; [by rewrite app_nil_string|]. cbn [app]. by rewrite !data_cons, IH, app_assoc_string.
Qed.

(** A size hint that tells the truth: a body has at least the bytes of its lower
    bound, and one with an upper bound is of that length unless it breaks off. *)
Definition honest (b : Body) : Prop :=
  (forall n, bd_upper b = Some n -> Forall (fun f => breaks f = false) (bd_frames b) -> len (data (bd_frames b)) = n) /\
  (Forall (fun f => breaks f = false) (bd_frames b) -> bd_lower b <= len (data (bd_frames b)))%N.

Section drained.
Context `{!JsonAnswer}.

(** The drain is transparent: a route behind it sees the bytes that were sent
    when they fit its limit, and else a body over the limit, so that it gives its
    own answer to one; a body that breaks off, or is still arriving at the drain
    time, never reaches it as a short one. *)
Theorem drain_transparent limit time req next (Hh : honest (rq_body req)) (Hl : (limit * DRAIN_FACTOR <= u64_max)%N) :
  let b := rq_body req in let resp := drain_over_limit limit time req next in
  (exists r, resp = next r /\ rq_headers r = rq_headers req /\ data (bd_frames (rq_body r)) = data (bd_frames b) /\
     (Forall (fun f => breaks f = false) (bd_frames b) -> len (data (bd_frames b)) <= limit)%N) \/
  ((resp = next (over_limit (rq_headers req) limit) \/ resp = closing (next (over_limit (rq_headers req) limit))) /\
     (Forall (fun f => breaks f = false) (bd_frames b) -> limit < len (data (bd_frames b)))%N) \/
  (resp = timed_out time /\ (secs time < (read b limit (limit * DRAIN_FACTOR) (bool_decide (bd_upper b = None))).2)%N) \/
  (exists e at_, resp = closing (json_answer 400 ("Failed to read the request body: " +:+ e)) /\ (at_, Err e) ∈ bd_frames b).
Proof.
  destruct Hh as (Hup & Hlo). cbv zeta. unfold drain_over_limit, saturating_mul_u64, DRAIN_FACTOR in *.
  rewrite N.min_l by done. destruct (match bd_upper (rq_body req) with Some n => (n <=? limit)%N | None => false end) eqn:Hfit.
  { left. exists req. split_and!; [done|done|done|]. intros Hall. destruct (bd_upper (rq_body req)) as [n|]; [|done].
    rewrite (Hup n eq_refl Hall). by apply N.leb_le. }
  destruct (N.ltb_spec (limit * 4) (bd_lower (rq_body req))) as [Hlow|Hlow].
  { right; left. split; [by right|]. intros Hall. specialize (Hlo Hall). lia. }
  pose proof (read_spec (rq_body req) limit (limit * 4) (bool_decide (bd_upper (rq_body req) = None)) ltac:(lia)) as Hr.
  unfold timeout. destruct (N.leb_spec (read (rq_body req) limit (limit * 4) (bool_decide (bd_upper (rq_body req) = None))).2 (secs time)) as [Ht|Ht];
    [|by right; right; left]. destruct (read _ _ _ _).1 as [bytes| | |e].
  - destruct Hr as (_ & Hall & -> & Hle). left. eexists. split; [done|]. split; [done|]. split; [|done]. cbn.
    unfold data at 1. cbn. by rewrite app_nil_r_string.
  - destruct Hr as (Hall & Hlt). right; left. split; [by left|]. intros _. destruct (bd_upper (rq_body req)) as [n|] eqn:Hu.
    + rewrite (Hup n eq_refl Hall). by apply N.leb_gt.
    + apply Hlt. by apply bool_decide_eq_true.
  - destruct Hr as (l & l' & Hf & Hgt). right; left. split; [by right|]. intros _. rewrite Hf, data_app, len_app. lia.
  - destruct Hr as (a & Hin). right; right; right. by exists e, a.
Qed.
End drained.
