(* ===== verification/Mount.v ===== *)
(** The mount of the plugins' pages under the daemon: the reverse proxy
    ([crates/balerix-server/src/proxy.rs]) and the handlers that let a request
    through to it ([api.rs], [proxied] and what it calls). The plugin behind the
    proxy, [hyper]'s reading of a URI and the clock of the sessions are
    parameters; metrics, logs (with the session lookup a log line makes) and the
    copying of an upgraded stream are left out. *)

From S2P Require Import Prelude Str Names Bytes Http.
From S2P Require Manifest Registry Sessions.
Import Sessions(constant_time_eq, MOUNT_PREFIX, SCOPED_PREFIX).

(** ** Headers *)

Definition MAX_BODY : N := 1024 * 1024.
Definition FORWARDED_PREFIX : string := "x-balerix-forwarded-prefix".
Definition REFERRER_POLICY : string := "no-referrer".

Definition DROPPED : list string :=
  ["authorization"; "cookie"; "host"; "keep-alive"; "proxy-authenticate"; "proxy-authorization"; "te"; "trailer";
   "transfer-encoding"].
Definition DROPPED_RESPONSE : list string :=
  ["keep-alive"; "proxy-authenticate"; "proxy-authorization"; "te"; "trailer"; "transfer-encoding"].

Section headers.
Context `{!HeaderText}.

(** The field names that [Connection] headers list. *)
Definition connection_named (h : HeaderMap) : list string :=
  filter (fun name => is_empty name = false)
    ((fun name => to_ascii_lowercase (trim name)) <$> (omap to_str (get_all "connection" h) ≫= split_char ","%char)).

Definition is_upgrade (h : HeaderMap) : bool :=
  contains_key "upgrade" h && existsb (fun name => eq_ignore_ascii_case name "upgrade") (connection_named h).

(** One entry of the loop of [filtered]. *)
Definition filter_entry (named dropped : list string) (keep_upgrade : bool) (out : HeaderMap) (kv : string * string) : HeaderMap :=
  let '(name, v) := kv in
  if bool_decide (name ∈ dropped) then out
  else if bool_decide (name = "connection") then
    if keep_upgrade && negb (contains_key "connection" out) then insert "connection" "Upgrade" out else out
  else if bool_decide (name = "upgrade") then
    if keep_upgrade then append name v out else out
  else if bool_decide (name ∈ named) then out
  else append name v out.

Definition filtered (src : HeaderMap) (dropped : list string) (keep_upgrade : bool) : HeaderMap :=
  foldl (filter_entry (connection_named src) dropped keep_upgrade) [] src.

Definition forwarded_headers (src : HeaderMap) : HeaderMap := filtered src DROPPED (is_upgrade src).
Definition response_headers (src : HeaderMap) (upgraded : bool) : HeaderMap := filtered src DROPPED_RESPONSE upgraded.
End headers.

(** ** The body *)

Inductive BodyError := TooLarge (close : bool) | BodyTransport (e : string) | TimedOut (time : N).

Definition read_body_within (b : Body) (time : N) : result BodyError string :=
  let ceiling := saturating_mul_u64 MAX_BODY DRAIN_FACTOR in
  if (ceiling <? bd_lower b)%N then Err (TooLarge true)
  else
    let reading := read b MAX_BODY ceiling true in
    let told := match bd_upper b with Some n => (n <=? MAX_BODY)%N | None => false end in
    match (if told then Some reading.1 else timeout time reading) with
    | None => Err (TimedOut time)
    | Some (Fits kept) => Ok kept
    | Some Over => Err (TooLarge false)
    | Some PastCeiling => Err (TooLarge true)
    | Some (Broken e) => Err (BodyTransport e)
    end.
Definition read_body (b : Body) : result BodyError string := read_body_within b DRAIN_TIME.

(** ** The path *)

Definition forwarded_rest (path : string) : string :=
  let below :=
    match strip_prefix SCOPED_PREFIX path with
    | Some scoped => '(_, rest) ← split_once "/"%char scoped; strip_prefix "plugins/" rest
    | None => strip_prefix MOUNT_PREFIX path
    end in
  default EmptyString (s ← below; '(_, rest) ← split_once "/"%char s; Some rest).

(** [replace("%2e", ".")]. *)
Fixpoint decode_dots (s : string) : string :=
  match s with
  | String a ((String b (String c r)) as rest) =>
      if bool_decide (String a (String b (String c EmptyString)) = "%2e") then String "." (decode_dots r)
      else String a (decode_dots rest)
  | _ => s
  end.

Definition dot_segment (segment : string) : bool :=
  let s := decode_dots (to_ascii_lowercase segment) in
  bool_decide (s = ".") || bool_decide (s = "..").

Definition upstream_path (rest : string) : string := if is_empty rest then "/v1/routes" else "/v1/routes/" +:+ rest.

(** A URI as [hyper] reads it, or why it is none. *)
Class UriText := { Uri : Type; parse_uri : string -> result string Uri }.

Definition uri_text (base rest : string) (query : option string) : string :=
  base +:+ upstream_path rest +:+ match query with Some q => "?" +:+ q | None => EmptyString end.

Definition upstream_uri `{!UriText} (base rest : string) (query : option string) : result string Uri :=
  if existsb dot_segment (split_char "/"%char rest) then Err "path: . and .. segments are not forwarded"
  else parse_uri (uri_text base rest query).

(** ** Forwarding: [proxy.rs] *)

Record Inbound := {
  ib_method : string;
  ib_path : string;
  ib_query : option string;
  ib_authority : option string;
  ib_headers : HeaderMap;
  ib_body : Body;
}.

Section mount.
Context `{!Unicode, !HeaderText, !JsonAnswer, !UriText}.

Record Upstream := { up_method : string; up_uri : Uri; up_headers : HeaderMap; up_body : string }.

(** What was sent to the plugin, the answer, and whether the two connections
    are joined after it. *)
Record Forwarded := { fw_sent : option Upstream; fw_response : Response; fw_joined : bool }.
Definition answered (r : Response) : Forwarded := {| fw_sent := None; fw_response := r; fw_joined := false |}.

(** What the plugin answers, or why there is no answer; what the request
    builder may refuse of a method and a URI. *)
Context (client : Upstream -> result string Response) (builder : string -> Uri -> option string).

Definition forward (addr : Registry.PluginAddr) (name prefix : string) (req : Inbound) : Forwarded :=
  match read_body (ib_body req) with
  | Err (TooLarge close) =>
      let resp := json_answer 413 "body exceeds 1 MiB" in
      answered (if close then closing resp else resp)
  | Err (TimedOut time) => answered (timed_out time)
  | Err (BodyTransport e) => answered (json_answer 400 ("body: " +:+ e))
  | Ok bytes =>
      match upstream_uri (Registry.base addr) (forwarded_rest (ib_path req)) (ib_query req) with
      | Err e => answered (json_answer 400 e)
      | Ok uri =>
          let headers := forwarded_headers (ib_headers req) in
          match header_value prefix, header_value ("Bearer " +:+ Registry.pa_token addr) with
          | Some prefix, Some bearer =>
              let headers := insert "authorization" bearer (insert FORWARDED_PREFIX prefix headers) in
              match builder (ib_method req) uri with
              | Some e => answered (json_answer 500 ("proxy: " +:+ e))
              | None =>
                  let upstream := {| up_method := ib_method req; up_uri := uri; up_headers := headers; up_body := bytes |} in
                  let failed e :=
                    {| fw_sent := Some upstream; fw_response := json_answer 502 ("plugin " +:+ debug_str name +:+ ": " +:+ e);
                       fw_joined := false |} in
                  match client upstream with
                  | Err e => failed e
                  | Ok resp =>
                      let upgraded := (rs_status resp =? 101)%N in
                      if upgraded && negb (is_upgrade (ib_headers req)) then
                        failed "answered 101 to a request that did not ask to upgrade"
                      else
                        {| fw_sent := Some upstream;
                           fw_response := mkResponse (rs_status resp) (response_headers (rs_headers resp) upgraded) (rs_body resp);
                           fw_joined := upgraded |}
                  end
              end
          | _, _ => answered (json_answer 500 "proxy: bad header value")
          end
      end
  end.

(** ** The mount: [api.rs] *)

Inductive Via := Admin | Session (scope : string).

Definition via_prefix (via : Via) (name : string) : string :=
  match via with
  | Admin => MOUNT_PREFIX +:+ name
  | Session scope => SCOPED_PREFIX +:+ scope +:+ "/plugins/" +:+ name
  end.

(** What the handlers read of the daemon beside its sessions. *)
Record Gate := { gt_token : string; gt_registry : Registry.Registry; gt_origin : option string }.

(** A refusal: its status and its message. *)
Definition ApiError : Type := N * string.

Definition authenticate_admin (g : Gate) (headers : HeaderMap) : result ApiError unit :=
  match Sessions.bearer (get "authorization" headers ≫= to_str) with
  | Some t => if constant_time_eq t (gt_token g) then Ok tt else Err (401%N, "missing or invalid admin token")
  | None =>
      Err (401%N,
        "missing or invalid admin token (a browser opens a plugin through the URL `balerix plugin open` prints)")
  end.

Definition request_authority (headers : HeaderMap) (authority : option string) : option string :=
  match get "host" headers ≫= to_str with
  | Some h => if is_empty (trim h) then authority else Some (trim h)
  | None => authority
  end.

(** The first of the ids that is valid ends the search; each is looked up at an
    instant of its own, which prunes the sessions. *)
Fixpoint any_valid (now : nat -> N) (ids : list string) (scope : string) (i : Sessions.Inner) : bool * Sessions.Inner :=
  match ids with
  | [] => (false, i)
  | id :: ids =>
      let '(valid, i) := Sessions.is_valid_for id scope (now 0) i in
      if valid : bool then (true, i) else any_valid (fun n => now (S n)) ids scope i
  end.

Definition method_of (method : string) : Sessions.Method :=
  if bool_decide (method = "GET") then Sessions.GET
  else if bool_decide (method = "HEAD") then Sessions.HEAD
  else Sessions.OtherMethod.

Definition session_ids (headers : HeaderMap) : list string :=
  Sessions.cookie_values (omap to_str (get_all "cookie" headers)) Sessions.COOKIE.

Definition own_origin (g : Gate) (req : Inbound) : bool :=
  let headers := ib_headers req in
  Sessions.same_origin (method_of (ib_method req)) (is_upgrade headers) (get "sec-fetch-site" headers ≫= to_str)
    (get "origin" headers ≫= to_str) (request_authority headers (ib_authority req)) (gt_origin g).

Definition authenticate_session (g : Gate) (now : nat -> N) (scope : string) (req : Inbound) (i : Sessions.Inner)
    : result ApiError unit * Sessions.Inner :=
  let '(valid, i) :=
    if Sessions.scope_shape_ok scope then any_valid now (session_ids (ib_headers req)) scope i else (false, i) in
  if valid : bool then
    (if own_origin g req then Ok tt else Err (403%N, "cross-origin request refused"), i)
  else (Err (401%N, "no live browser session for this URL; run `balerix plugin open` again"), i).

Inductive Mounted :=
| Ready (plugin : AgentName) (addr : Registry.PluginAddr)
| NotReady (plugin : AgentName)
| Refused (e : ApiError).

Definition authenticate (g : Gate) (now : nat -> N) (via : Via) (req : Inbound) (i : Sessions.Inner)
    : result ApiError unit * Sessions.Inner :=
  match via with
  | Admin => (authenticate_admin g (ib_headers req), i)
  | Session scope => authenticate_session g now scope req i
  end.

(** The plugin a name stands for. *)
Definition resolve_plugin (g : Gate) (name : string) : Mounted :=
  let no_routes := Refused (404%N, "plugin " +:+ debug_str name +:+ " has no routes") in
  match from_str (E := NameError) (A := AgentName) name with
  | Err _ => no_routes
  | Ok plugin =>
      match Registry.plugin plugin (gt_registry g) with
      | Some p =>
          if Manifest.pm_routes (Registry.pi_manifest p) then
            match Registry.ready_addr plugin (gt_registry g) with
            | Some addr => Ready plugin addr
            | None => NotReady plugin
            end
          else no_routes
      | None => no_routes
      end
  end.

Definition resolve_mount (g : Gate) (now : nat -> N) (via : Via) (name : string) (req : Inbound) (i : Sessions.Inner)
    : Mounted * Sessions.Inner :=
  let '(auth, i) := authenticate g now via req i in
  match auth with
  | Err e => (Refused e, i)
  | Ok _ => (resolve_plugin g name, i)
  end.

Definition no_referrer (r : Response) : Response :=
  mkResponse (rs_status r) (insert "referrer-policy" REFERRER_POLICY (rs_headers r)) (rs_body r).

Definition proxied (g : Gate) (now : nat -> N) (via : Via) (name : string) (req : Inbound) (i : Sessions.Inner)
    : Forwarded * Sessions.Inner :=
  let '(m, i) := resolve_mount g now via name req i in
  let f :=
    match m with
    | Ready plugin addr => forward addr (to_string plugin) (via_prefix via (to_string plugin)) req
    | NotReady plugin =>
        answered (refuse (ib_body req) (json_answer 503 ("plugin " +:+ debug_str (to_string plugin) +:+ " is not ready")))
    | Refused e => answered (refuse (ib_body req) (json_answer e.1 e.2))
    end in
  ({| fw_sent := fw_sent f; fw_response := no_referrer (fw_response f); fw_joined := fw_joined f |}, i).
End mount.

(** ** Which headers cross *)

Section crossing.
Context `{!HeaderText}.

Definition crosses (src : HeaderMap) (dropped : list string) (keep_upgrade : bool) (kv : string * string) : bool :=
  negb (bool_decide (kv.1 ∈ dropped)) && negb (bool_decide (kv.1 = "connection")) &&
  (if bool_decide (kv.1 = "upgrade") then keep_upgrade else negb (bool_decide (kv.1 ∈ connection_named src))).

Lemma contains_key_insert k v h : contains_key k (insert k v h) = true.
Proof. apply bool_decide_eq_true, list_elem_of_fmap. exists (k, v). split; [done|]. apply elem_of_insert. by right. Qed.

Lemma remove_absent k h : contains_key k h = false -> remove k h = h.
Proof.
  intros Hn%bool_decide_eq_false. unfold remove. induction h as [|[k' v] h IH]; [done|].
  rewrite fmap_cons, not_elem_of_cons in Hn. destruct Hn as [Hk Hn]. simpl in Hk. rewrite filter_cons_True by (simpl; congruence). by rewrite IH.
Qed.

Lemma filter_entries_cross src dropped keep : forall out l,
  filter (fun kv => kv.1 <> "connection") (foldl (filter_entry (connection_named src) dropped keep) out l) =
  filter (fun kv => kv.1 <> "connection") out ++ filter (fun kv => crosses src dropped keep kv = true) l.
Proof.
  intros out l. revert out. induction l as [|[k v] l IH]; intros out; [by rewrite app_nil_r|]. cbn [foldl]. rewrite IH, filter_cons.
  assert (forall x, filter (fun kv : string * string => kv.1 <> "connection") (append k x out) =
    filter (fun kv => kv.1 <> "connection") out ++ (if decide (k = "connection") then [] else [(k, x)])) as Happ.
  { intros x. unfold append. rewrite filter_app. f_equal. cbn. destruct (decide (k = "connection")) as [Hk|Hk];
      [rewrite decide_False by (intros Hn; by apply Hn)|rewrite decide_True by done]; done. }
  destruct (decide (crosses src dropped keep (k, v) = true)) as [Hx|Hx]; unfold crosses in Hx; simpl fst in Hx; unfold filter_entry.
  - apply andb_true_iff in Hx as [[Hd%negb_true_iff Hc%negb_true_iff]%andb_true_iff Hu]. rewrite Hd, Hc.
    apply bool_decide_eq_false in Hc.
    destruct (bool_decide (k = "upgrade")); [rewrite Hu|apply negb_true_iff in Hu; rewrite Hu];
      rewrite Happ, decide_False by done; by rewrite <- app_assoc.
  - apply not_true_is_false in Hx. destruct (bool_decide (k ∈ dropped)); [done|]. cbn [negb andb] in Hx.
    destruct (bool_decide (k = "connection")) eqn:Hc.
    + apply bool_decide_eq_true in Hc as ->. destruct (keep && negb (contains_key "connection" out)) eqn:E; [|done].
      apply andb_true_iff in E as [_ E%negb_true_iff]. unfold insert. rewrite remove_absent by done.
      rewrite Happ, decide_True by done. by rewrite app_nil_r.
    + cbn [negb andb] in Hx. destruct (bool_decide (k = "upgrade")); [by rewrite Hx|].
      apply negb_false_iff in Hx. by rewrite Hx.
Qed.

Lemma filter_entries_connection src dropped keep : "connection" ∉ dropped -> forall out l,
  get_all "connection" (foldl (filter_entry (connection_named src) dropped keep) out l) =
  get_all "connection" out ++ (if keep && negb (contains_key "connection" out) && contains_key "connection" l then ["Upgrade"] else []).
Proof.
  intros Hnd out l. revert out. induction l as [|[k v] l IH]; intros out.
  { rewrite andb_false_r. by rewrite app_nil_r. }
  cbn [foldl]. rewrite IH. destruct (decide (k = "connection")) as [->|Hc].
  - unfold filter_entry. rewrite (bool_decide_false _ Hnd), (bool_decide_true ("connection" = "connection")) by done.
    assert (contains_key "connection" (("connection", v) :: l) = true) as -> by (apply bool_decide_eq_true; by left).
    rewrite andb_true_r. destruct (keep && negb (contains_key "connection" out)) eqn:E.
    + rewrite get_all_insert, contains_key_insert. rewrite andb_false_r. cbn [andb]. rewrite app_nil_r.
      apply andb_true_iff in E as [_ E%negb_true_iff]. rewrite get_all_none; [done|]. intros w Hw.
      apply bool_decide_eq_false in E. apply E, list_elem_of_fmap. by exists ("connection", w).
    + by rewrite E.
  - assert (contains_key "connection" ((k, v) :: l) = contains_key "connection" l) as ->.
    { apply bool_decide_ext. rewrite fmap_cons, elem_of_cons. simpl. naive_solver. }
    assert (get_all "connection" (filter_entry (connection_named src) dropped keep out (k, v)) = get_all "connection" out /\
      contains_key "connection" (filter_entry (connection_named src) dropped keep out (k, v)) = contains_key "connection" out) as [-> ->]; [|done].
    unfold filter_entry. rewrite (bool_decide_false (k = "connection")) by done.
    assert (get_all "connection" (append k v out) = get_all "connection" out /\
      contains_key "connection" (append k v out) = contains_key "connection" out) as Ha.
    { unfold append. rewrite get_all_app. split.
      - cbn. rewrite bool_decide_false by done. by rewrite app_nil_r.
      - apply bool_decide_ext. rewrite fmap_app, elem_of_app. cbn. rewrite list_elem_of_singleton. naive_solver. }
    by repeat case_match.
Qed.

(** Exactly which headers cross the proxy, in their order: every entry but the
    daemon's credentials, what is dropped by name, what [Connection] lists, and
    [Upgrade] where none was asked for; [Connection] itself crosses once, as
    [Upgrade] and nothing else, and only for an upgrade. *)
Theorem headers_cross (src : HeaderMap) (dropped : list string) (keep : bool) (Hd : "connection" ∉ dropped) :
  filter (fun kv => kv.1 <> "connection") (filtered src dropped keep) = filter (fun kv => crosses src dropped keep kv = true) src /\
  get_all "connection" (filtered src dropped keep) = if keep && contains_key "connection" src then ["Upgrade"] else [].
Proof.
  unfold filtered. rewrite filter_entries_cross, filter_entries_connection by done. split; [done|]. cbn. by rewrite andb_true_r.
Qed.

Lemma elem_of_filtered src dropped keep k v : "connection" ∉ dropped -> (k, v) ∈ filtered src dropped keep ->
  (k = "connection" /\ v = "Upgrade") \/ (k <> "connection" /\ (k, v) ∈ src /\ crosses src dropped keep (k, v) = true).
Proof.
  intros Hd Hin. unfold filtered in Hin. destruct (decide (k = "connection")) as [->|Hk].
  - left. split; [done|]. apply elem_of_get_all in Hin. rewrite filter_entries_connection in Hin by done. cbn in Hin.
    destruct (_ && _); [by apply list_elem_of_singleton in Hin|by apply not_elem_of_nil in Hin].
  - right. split; [done|].
    assert ((k, v) ∈ filter (fun kv => kv.1 <> "connection") (foldl (filter_entry (connection_named src) dropped keep) [] src)) as Hf
      by by apply list_elem_of_filter.
    rewrite filter_entries_cross in Hf. cbn in Hf. apply list_elem_of_filter in Hf as [Hc Hs]. done.
Qed.
End crossing.

(** ** Who is let in *)

Section gate.
Context `{!Unicode, !HeaderText, !JsonAnswer, !UriText}.
Context (client : Upstream -> result string Response) (builder : string -> Uri -> option string).

(** What lets a request in: the daemon's own token, or the cookie of a session
    that lives at the instant it is looked up, under the scope it was made for,
    from the daemon's own origin. *)
Definition admitted (g : Gate) (now : nat -> N) (via : Via) (req : Inbound) (i : Sessions.Inner) : Prop :=
  match via with
  | Admin => Sessions.bearer (get "authorization" (ib_headers req) ≫= to_str) = Some (gt_token g)
  | Session scope =>
      Sessions.scope_shape_ok scope = true /\ own_origin g req = true /\
      exists id n e, id ∈ session_ids (ib_headers req) /\ Sessions.sessions i !! id = Some (scope, e) /\ (now n < e)%N
  end.

Lemma prune_sessions now i id x : Sessions.sessions (Sessions.prune now i) !! id = Some x -> Sessions.sessions i !! id = Some x /\ (now < x.2)%N.
Proof. unfold Sessions.prune. simpl. intros [Hl Hx]%map_lookup_filter_Some. done. Qed.

Lemma valid_for_live id scope now i i' : Sessions.is_valid_for id scope now i = (true, i') ->
  exists e, Sessions.sessions i !! id = Some (scope, e) /\ (now < e)%N.
Proof.
  unfold Sessions.is_valid_for. rewrite Sessions.find_lookup. intros [E _]%pair_equal_spec.
  destruct (Sessions.sessions (Sessions.prune now i) !! id) as [[s e]|] eqn:Hl; [|done]. simpl in E.
  rewrite Sessions.constant_time_eq_eq in E. apply bool_decide_eq_true in E as ->. exists e. by apply prune_sessions in Hl.
Qed.

Lemma any_valid_live now ids scope i i' : any_valid now ids scope i = (true, i') ->
  exists id n e, id ∈ ids /\ Sessions.sessions i !! id = Some (scope, e) /\ (now n < e)%N.
Proof.
  revert now i. induction ids as [|id ids IH]; intros now i; [done|]. cbn [any_valid].
  destruct (Sessions.is_valid_for id scope (now 0) i) as [[] i1] eqn:Hv.
  - intros _. apply valid_for_live in Hv as (e & He & Hlt). exists id, 0, e. split; [by left|done].
  - intros (id' & n & e & Hin & He & Hlt)%IH. exists id', (S n), e. split; [by right|]. split; [|done].
    unfold Sessions.is_valid_for in Hv. apply pair_equal_spec in Hv as [_ <-]. by apply prune_sessions in He as [He _].
Qed.

Lemma authenticate_admitted g now via req i i' : authenticate g now via req i = (Ok tt, i') -> admitted g now via req i.
Proof.
  destruct via as [|scope]; simpl.
  - unfold authenticate_admin. intros [E _]%pair_equal_spec. destruct (Sessions.bearer _) as [t|]; [|done].
    rewrite Sessions.constant_time_eq_eq in E. by case_bool_decide; [subst|].
  - unfold authenticate_session. destruct (Sessions.scope_shape_ok scope) eqn:Hs; [|done].
    destruct (any_valid _ _ _ _) as [[] i1] eqn:Hv; [|done]. destruct (own_origin g req) eqn:Ho; [|done].
    intros _. split; [done|]. split; [done|]. by apply any_valid_live with i1.
Qed.

Lemma resolve_ready g name plugin addr : resolve_plugin g name = Ready plugin addr ->
  from_str (E := NameError) name = Ok plugin /\ exists p, Registry.plugin plugin (gt_registry g) = Some p /\
    Manifest.pm_routes (Registry.pi_manifest p) = true /\ Registry.pi_ready p = true /\
    Registry.pi_listen p = Some (Registry.pa_listen addr) /\ Registry.pi_token p = Some (Registry.pa_token addr).
Proof.
  unfold resolve_plugin. destruct (from_str name) as [pl|e]; [|done].
  unfold Registry.ready_addr. destruct (Registry.plugin pl (gt_registry g)) as [p|] eqn:Hp; [|done].
  unfold Registry.plugin in Hp. rewrite Hp. cbn. destruct (Manifest.pm_routes _) eqn:Hr; [|done]. destruct (Registry.pi_ready p) eqn:Hy; [|done].
  cbn. destruct (Registry.pi_listen p) as [listen|] eqn:Hl; [|done]. cbn. destruct (Registry.pi_token p) as [token|] eqn:Ht; [|done].
  cbn. intros [= <- <-]. split; [done|]. exists p. split_and!; [exact Hp|done..].
Qed.

Lemma read_body_whole b bytes : read_body b = Ok bytes -> bytes = data (bd_frames b) /\ (len bytes <= MAX_BODY)%N.
Proof.
  unfold read_body, read_body_within. set (ceiling := saturating_mul_u64 MAX_BODY DRAIN_FACTOR).
  pose proof (read_spec b MAX_BODY ceiling true ltac:(vm_compute; done)) as Hr.
  destruct (_ <? _)%N; [done|]. destruct (match bd_upper b with Some n => _ | None => _ end).
  - destruct (read b MAX_BODY ceiling true).1; [|done..]. intros [= <-]. by destruct Hr as (_ & _ & -> & Hle).
  - unfold timeout. destruct (_ <=? _)%N; [|done]. destruct (read b MAX_BODY ceiling true).1; [|done..].
    intros [= <-]. by destruct Hr as (_ & _ & -> & Hle).
Qed.

Lemma upstream_uri_Ok base rest query uri : upstream_uri base rest query = Ok uri ->
  Forall (fun s => dot_segment s = false) (split_char "/"%char rest) /\ parse_uri (uri_text base rest query) = Ok uri.
Proof.
  unfold upstream_uri. destruct (existsb dot_segment _) eqn:E; [done|]. intros Hp. split; [|done].
  apply Forall_forall. intros s Hin. destruct (dot_segment s) eqn:Hs; [|done]. exfalso. rewrite <- not_true_iff_false in E. apply E.
  apply existsb_exists. exists s. by rewrite <- list_elem_of_In.
Qed.

(** What may be sent to a plugin: its own bearer and mount prefix in place of
    whatever the client sent under those names, no header the proxy keeps to
    itself, and a path under the plugin's routes. *)
Record sendable (addr : Registry.PluginAddr) (prefix : string) (req : Inbound) (up : Upstream) : Prop := {
  sb_bearer : exists v, header_value ("Bearer " +:+ Registry.pa_token addr) = Some v /\ get_all "authorization" (up_headers up) = [v];
  sb_prefix : exists v, header_value prefix = Some v /\ get_all FORWARDED_PREFIX (up_headers up) = [v];
  sb_headers k v : (k, v) ∈ up_headers up -> k <> "authorization" -> k <> FORWARDED_PREFIX ->
    k ∉ DROPPED /\ (k ∈ connection_named (ib_headers req) -> k = "connection" \/ k = "upgrade") /\
    ((k = "connection" /\ v = "Upgrade") \/ (k, v) ∈ ib_headers req);
  sb_path : Forall (fun s => dot_segment s = false) (split_char "/"%char (forwarded_rest (ib_path req)));
  sb_uri : parse_uri (uri_text (Registry.base addr) (forwarded_rest (ib_path req)) (ib_query req)) = Ok (up_uri up);
  sb_body : up_body up = data (bd_frames (ib_body req)) /\ (len (up_body up) <= MAX_BODY)%N;
  sb_method : up_method up = ib_method req;
}.

Lemma connection_kept : "connection" ∉ DROPPED.
Proof. by apply (bool_decide_eq_false ("connection" ∈ DROPPED)). Qed.

Lemma forward_sendable addr name prefix req up : fw_sent (forward client builder addr name prefix req) = Some up -> sendable addr prefix req up.
Proof.
  unfold forward. destruct (read_body (ib_body req)) as [bytes|[]] eqn:Hb; [|done..].
  apply read_body_whole in Hb. destruct (upstream_uri _ _ _) as [uri|e] eqn:Hu; [|done]. apply upstream_uri_Ok in Hu as [Hdots Hu].
  destruct (header_value prefix) as [pv|] eqn:Hp; [|done]. destruct (header_value ("Bearer " +:+ _)) as [bv|] eqn:Hv; [|done].
  destruct (builder _ _); [done|]. intros E.
  assert (up = {| up_method := ib_method req; up_uri := uri;
    up_headers := insert "authorization" bv (insert FORWARDED_PREFIX pv (forwarded_headers (ib_headers req))); up_body := bytes |}) as ->.
  { destruct (client _) as [resp|e]; [|by injection E as <-]. destruct (_ && _); by injection E as <-. }
  clear E. split; cbn [up_method up_uri up_headers up_body]; [| | |done..|done|done].
  - exists bv. split; [done|apply get_all_insert].
  - exists pv. split; [done|]. rewrite get_all_insert_ne by done. apply get_all_insert.
  - intros k v Hin Ha Hf. apply elem_of_insert in Hin as [[_ Hin]|[-> _]]; [|done]. apply elem_of_insert in Hin as [[_ Hin]|[-> _]]; [|done].
    apply elem_of_filtered in Hin; [|apply connection_kept]. destruct Hin as [[-> ->]|(Hk & Hin & Hc)].
    + split; [apply connection_kept|]. split; [by left|by left].
    + unfold crosses in Hc. apply andb_true_iff in Hc as [[Hd%negb_true_iff%bool_decide_eq_false _]%andb_true_iff Hu'].
      simpl in Hd. split; [done|]. split; [|by right]. intros Hn. simpl in Hu'. case_bool_decide; [by right|].
      apply negb_true_iff, bool_decide_eq_false in Hu'. done.
Qed.

(** Nothing reaches a plugin but what its mount lets through: whatever is sent
    was let in by the daemon's token or by a live session of that very scope on
    a request of the daemon's own origin, goes to a ready plugin that has
    routes, and carries that plugin's bearer and prefix, none of the daemon's
    credentials, no dot segment and no more than the body sent, within its
    limit. *)
Theorem mount_confined g now via name req i f i' up (Hp : proxied client builder g now via name req i = (f, i'))
    (Hup : fw_sent f = Some up) :
  admitted g now via req i /\
  exists plugin addr p, from_str (E := NameError) name = Ok plugin /\
    Registry.plugin plugin (gt_registry g) = Some p /\ Manifest.pm_routes (Registry.pi_manifest p) = true /\
    Registry.pi_ready p = true /\ Registry.pi_listen p = Some (Registry.pa_listen addr) /\
    Registry.pi_token p = Some (Registry.pa_token addr) /\
    sendable addr (via_prefix via (to_string plugin)) req up.
Proof.
  unfold proxied, resolve_mount in Hp. destruct (authenticate g now via req i) as [[[]|e] i1] eqn:Ha; cycle 1.
  { injection Hp as <- _. done. }
  apply authenticate_admitted in Ha. split; [done|]. destruct (resolve_plugin g name) as [plugin addr|plugin|e] eqn:Hr.
  - apply resolve_ready in Hr as (Hname & p & Hreg & Hroutes & Hready & Hlisten & Htoken). exists plugin, addr, p.
    injection Hp as <- _. simpl in Hup. apply forward_sendable in Hup. by split_and!.
  - injection Hp as <- _. done.
  - injection Hp as <- _. done.
Qed.

(** Every answer forbids a [Referer]; the two connections are joined only when
    the plugin switched protocols for a request that asked to, and what a plugin
    answers otherwise never looks like a switch to a client that did not ask. *)
Theorem joined_when_asked g now via name req i f i' (Hp : proxied client builder g now via name req i = (f, i')) :
  get_all "referrer-policy" (rs_headers (fw_response f)) = [REFERRER_POLICY] /\
  (fw_joined f = true -> is_upgrade (ib_headers req) = true /\ rs_status (fw_response f) = 101%N) /\
  (fw_joined f = false -> forall up resp, fw_sent f = Some up -> client up = Ok resp -> rs_status resp = 101%N ->
    is_upgrade (ib_headers req) = false /\ exists e, fw_response f = no_referrer (json_answer 502 e)).
Proof.
  unfold proxied in Hp. destruct (resolve_mount g now via name req i) as [m i1]. injection Hp as <- _. cbn [fw_response fw_joined fw_sent].
  split; [apply get_all_insert|]. destruct m as [plugin addr|plugin|e]; [|done..]. unfold forward.
  destruct (read_body _) as [bytes|[]]; [|done..]. destruct (upstream_uri _ _ _) as [uri|e]; [|done].
  destruct (header_value _); [|done]. destruct (header_value _); [|done]. destruct (builder _ _); [done|].
  destruct (client _) as [resp|e] eqn:Hc.
  - destruct (N.eqb_spec (rs_status resp) 101) as [Hs|Hs]; destruct (is_upgrade (ib_headers req)) eqn:Hu; cbn [andb negb fw_joined fw_sent fw_response].
    + split; [by intros _|done].
    + split; [done|]. intros _ up resp' [= <-] _ _. split; [done|]. by eexists.
    + split; [done|]. intros _ up resp' [= <-] Hc'. rewrite Hc in Hc'. by injection Hc' as <-.
    + split; [done|]. intros _ up resp' [= <-] Hc'. rewrite Hc in Hc'. by injection Hc' as <-.
  - cbn. split; [done|]. intros _ up resp' [= <-] Hc'. by rewrite Hc in Hc'.
Qed.
End gate.

(** ** The path *)

(** What follows the mount of a plugin is forwarded as it is, whichever mount the
    request came through. *)
Theorem rest_roundtrip via name rest (Hn : lacks "/"%char name = true)
    (Hs : match via with Session scope => lacks "/"%char scope = true | Admin => True end) :
  forwarded_rest (via_prefix via name +:+ "/" +:+ rest) = rest.
Proof.
  assert (forall a b, lacks "/"%char a = true -> split_once "/"%char (a +:+ "/" +:+ b) = Some (a, b)) as Hsplit
    by (intros a b Ha; by apply split_once_Some).
  unfold forwarded_rest. destruct via as [|scope]; unfold via_prefix.
  - rewrite app_assoc_string.
    assert (strip_prefix SCOPED_PREFIX (MOUNT_PREFIX +:+ (name +:+ "/" +:+ rest)) = None) as -> by done.
    rewrite strip_prefix_app. cbn [mbind option_bind]. by rewrite Hsplit.
  - rewrite !app_assoc_string, strip_prefix_app.
    change (scope +:+ "/plugins/" +:+ name +:+ "/" +:+ rest) with (scope +:+ "/" +:+ ("plugins/" +:+ (name +:+ "/" +:+ rest))).
    rewrite Hsplit by done. cbn [mbind option_bind]. rewrite strip_prefix_app. cbn [mbind option_bind]. by rewrite Hsplit.
Qed.

(** A dot in a path, as itself or percent-encoded in either case. *)
Definition dots : list string := ["."; "%2e"; "%2E"].

Lemma decode_dots_nil t : decode_dots t = EmptyString -> t = EmptyString.
Proof. destruct t as [|a [|b [|c r]]]; [done..|]. cbn. by case_bool_decide. Qed.

Lemma decode_dots_dot t r : decode_dots t = String "." r -> exists x t', x ∈ ["."; "%2e"] /\ t = x +:+ t' /\ decode_dots t' = r.
Proof.
  destruct t as [|a [|b [|c t]]]; [done| | |].
  - intros [= -> <-]. exists ".", EmptyString. split; [by left|done].
  - intros [= -> <-]. exists ".", (String b EmptyString). split; [by left|done].
  - cbn [decode_dots]. case_bool_decide as Hp.
    + intros [= <-]. exists "%2e", t. injection Hp as -> -> ->. split; [by right; left|done].
    + intros [= -> <-]. exists ".", (String b (String c t)). split; [by left|done].
Qed.

Lemma lower_dot s x t : to_ascii_lowercase s = x +:+ t -> x ∈ ["."; "%2e"] ->
  exists y s', y ∈ dots /\ s = y +:+ s' /\ to_ascii_lowercase s' = t.
Proof.
  assert (forall c, to_ascii_lowercase_byte c = "."%char -> c = "."%char) as Hdot by (intros [[][][][][][][][]]; by vm_compute).
  assert (forall c, to_ascii_lowercase_byte c = "%"%char -> c = "%"%char) as Hper by (intros [[][][][][][][][]]; by vm_compute).
  assert (forall c, to_ascii_lowercase_byte c = "2"%char -> c = "2"%char) as Htwo by (intros [[][][][][][][][]]; by vm_compute).
  assert (forall c, to_ascii_lowercase_byte c = "e"%char -> c = "e"%char \/ c = "E"%char) as He
    by (intros [[][][][][][][][]]; vm_compute; naive_solver).
  unfold to_ascii_lowercase. intros E [->|[->|[]%elem_of_nil]%elem_of_cons]%elem_of_cons.
  - destruct s as [|a s]; [done|]. injection E as ->%Hdot E. exists ".", s. split; [by left|done].
  - destruct s as [|a [|b [|c s]]]; try done. injection E as ->%Hper ->%Htwo Hc E. destruct (He _ Hc) as [->| ->].
    + exists "%2e", s. split; [by right; left|done].
    + exists "%2E", s. split; [by do 2 right; left|done].
Qed.

(** A segment is refused exactly when it reads as one or two dots. *)
Theorem dot_segments_refused s : dot_segment s = true <-> exists a b, a ∈ dots /\ b ∈ EmptyString :: dots /\ s = a +:+ b.
Proof.
  split.
  - unfold dot_segment. intros [E%bool_decide_eq_true|E%bool_decide_eq_true]%orb_true_iff.
    + apply decode_dots_dot in E as (x & t & Hx & Hl & ->%decode_dots_nil). apply (lower_dot s x EmptyString) in Hl as (y & s' & Hy & -> & Hs'); [|done].
      exists y, EmptyString. split; [done|]. split; [by left|]. f_equal. by destruct s'.
    + apply decode_dots_dot in E as (x & t & Hx & Hl & (x' & t' & Hx' & -> & ->%decode_dots_nil)%decode_dots_dot).
      apply (lower_dot s x _) in Hl as (y & s' & Hy & -> & Hs'); [|done].
      apply (lower_dot s' x' EmptyString) in Hs' as (y' & s'' & Hy' & -> & Hs''); [|done].
      exists y, y'. split; [done|]. split; [by right|]. f_equal. destruct s''; [apply app_nil_r_string|done].
  - intros (a & b & Ha & Hb & ->).
    assert (forallb (fun a => forallb (fun b => dot_segment (a +:+ b)) (EmptyString :: dots)) dots = true) as Hall by (vm_compute; reflexivity).
    rewrite forallb_forall in Hall. specialize (Hall a (proj1 (list_elem_of_In _ _) Ha)).
    rewrite forallb_forall in Hall. exact (Hall b (proj1 (list_elem_of_In _ _) Hb)).
Qed.

(** ** A concrete request *)

Section sample.
#[local] Instance mount_escaped : Unicode := fun _ => false.
#[local] Instance mount_headers : HeaderText := {| to_str v := Some v; header_value v := Some v |}.
#[local] Instance mount_answers : JsonAnswer := fun status message => mkResponse status [] message.
#[local] Instance mount_uris : UriText := {| Uri := string; parse_uri := Ok |}.

Definition mount_manifest : Manifest.PluginManifest :=
  let m := Registry.placeholder_manifest Registry.web in
  {| Manifest.pm_api_version := Manifest.pm_api_version m; Manifest.pm_kind := Manifest.pm_kind m;
     Manifest.pm_name := Manifest.pm_name m; Manifest.pm_version := "1.0.0"; Manifest.pm_protocol := Manifest.pm_protocol m;
     Manifest.pm_start := "web"; Manifest.pm_hooks := Manifest.pm_hooks m; Manifest.pm_needs := ∅;
     Manifest.pm_routes := true; Manifest.pm_sandbox := Manifest.pm_sandbox m |}.

(** A declared plugin that said hello. *)
Definition mount_gate : Gate := {|
  gt_token := "admin"; gt_origin := None;
  gt_registry := Registry.accept_hello Registry.web mount_manifest "https://web" "plugin-token"
    (Registry.declare [(Registry.web, Json.Null)] [] Registry.new_registry)
|}.

Definition mount_scope : string := "0123456789abcdef0123456789abcdef".
Definition mount_sessions : Sessions.Inner :=
  Sessions.mkInner ∅ ∅ {["cafe" := (mount_scope, secs 100)]}.

(** A browser's request that tries to pass for another. *)
Definition mount_request : Inbound := {|
  ib_method := "GET"; ib_path := "/v1/s/" +:+ mount_scope +:+ "/plugins/web/agents/x"; ib_query := Some "a=1";
  ib_authority := None;
  ib_headers := [("host", "localhost"); ("cookie", "other=1; balerix_session=cafe"); ("sec-fetch-site", "same-origin");
                 ("authorization", "Bearer stolen"); ("connection", "keep-alive, X-Secret"); ("x-secret", "1");
                 ("x-balerix-forwarded-prefix", "/evil"); ("accept", "*/*")];
  ib_body := whole "hello"
|}.

Definition mount_client : Upstream -> result string Response := fun _ => Ok (mkResponse 200 [] "page").

Definition mount_sent : option Upstream :=
  fw_sent (proxied mount_client (fun _ _ => None) mount_gate (fun _ => 0%N) (Session mount_scope) "web" mount_request mount_sessions).1.

Lemma mount_confined_witness :
  exists up, mount_sent = Some up /\ up_uri up = "https://web/v1/routes/agents/x?a=1" /\
    up_headers up = [("sec-fetch-site", "same-origin"); ("accept", "*/*");
                     ("x-balerix-forwarded-prefix", "/v1/s/" +:+ mount_scope +:+ "/plugins/web"); ("authorization", "Bearer plugin-token")] /\
    admitted mount_gate (fun _ => 0%N) (Session mount_scope) mount_request mount_sessions /\
    get_all "authorization" (up_headers up) = ["Bearer plugin-token"].
Proof.
  destruct mount_sent as [up|] eqn:Hs; [|by vm_compute in Hs]. exists up. split; [reflexivity|].
  pose proof Hs as Hv. vm_compute in Hv. injection Hv as Hv.
  destruct (mount_confined mount_client (fun _ _ => None) mount_gate (fun _ => 0%N) (Session mount_scope) "web" mount_request
    mount_sessions _ _ up (surjective_pairing _) Hs) as (Hadm & plugin & addr & p & _ & _ & _ & _ & _ & _ & Hsend).
  split; [rewrite <- Hv; reflexivity|]. split; [rewrite <- Hv; reflexivity|]. split; [exact Hadm|].
  destruct (sb_bearer _ _ _ _ Hsend) as (v & Hval & Hall). rewrite <- Hv. vm_compute. reflexivity.
Defined.

Lemma joined_when_asked_witness :
  let f := (proxied mount_client (fun _ _ => None) mount_gate (fun _ => 0%N) (Session mount_scope) "web" mount_request mount_sessions).1 in
  fw_joined f = false /\ get_all "referrer-policy" (rs_headers (fw_response f)) = [REFERRER_POLICY].
Proof.
  intros f. destruct (joined_when_asked mount_client (fun _ _ => None) mount_gate (fun _ => 0%N) (Session mount_scope) "web" mount_request
    mount_sessions f _ (surjective_pairing _)) as (Hr & _ & _). split; [vm_compute; reflexivity|exact Hr].
Defined.

Lemma headers_cross_witness :
  "connection" ∉ DROPPED /\ filter (fun kv => kv.1 <> "connection") (filtered (ib_headers mount_request) DROPPED false) =
    [("sec-fetch-site", "same-origin"); ("x-balerix-forwarded-prefix", "/evil"); ("accept", "*/*")].
Proof.
  split; [apply connection_kept|]. destruct (headers_cross (ib_headers mount_request) DROPPED false connection_kept) as [-> _].
  vm_compute. reflexivity.
Defined.

Lemma rest_roundtrip_witness :
  forwarded_rest (via_prefix (Session mount_scope) "web" +:+ "/" +:+ "a%2Fb/c") = "a%2Fb/c".
Proof. apply (rest_roundtrip (Session mount_scope) "web" "a%2Fb/c"); vm_compute; reflexivity. Defined.
End sample.
