(* ===== verification/Web.v ===== *)
(** The web plugin: the cache behind its pages ([plugins/web/src/state.rs]), the
    plugin's calls on it ([plugin.rs], [config.rs]), the activity poll and the
    review submission of [routes.rs], and the half of the review page's script
    there that follows an agent's events. Every method of the cache takes its
    one lock once, so a method is a step of the state; the epoch a new log draws
    is the caller's. Metrics, the rest of the pages and the terminals are left
    out. *)

From S2P Require Import Prelude Str BTree Bytes Text Status FleetRecord Json Rules Delivery Answer Sdk.
From S2P Require Parts PluginConfig Reader Review.

(** ** Limits *)

Definition EVENT_BUFFER : nat := N.to_nat 500.
Definition PAYLOAD_LIMIT : nat := N.to_nat 4096.
Definition TEXT_LIMIT : nat := N.to_nat (10 * 4000).

(** ** State *)

Record AgentRow := { ar_id : string; ar_phase : AgentPhase.t; ar_message : string }.

Record Entry := {
  en_seq : N;
  en_at : Timestamp;
  en_name : string;
  en_summary : string;
  en_payload : Value;
  en_payload_truncated : bool;
  en_text : option string;
  en_text_truncated : bool;
}.

Record Events := {
  ev_epoch : string;
  ev_phase : AgentPhase.t;
  ev_events : list Entry;
  ev_workspace : option Reader.WorkspaceVersion;
}.

Record EventLog := mkLog { el_epoch : string; el_next_seq : N; el_entries : list Entry }.
Definition new_log (epoch : string) : EventLog := mkLog epoch 0 [].

Record Inner := mkInner {
  in_enabled : gset string;
  in_fleets : list FleetRecord;
  in_events : gmap string EventLog;
}.
Definition new_cache : Inner := mkInner ∅ [] ∅.

(** ** What an event becomes *)

(** [&v[key]]: [Null] where there is none. *)
Definition at_key (v : Value) (key : string) : Value := default Null (Json.get v key).

Definition cut (s : string) (n : nat) : string := concat (take n (chars s)).

Definition summary_line (name : string) (payload : Value) : option string :=
  if bool_decide (name ∈ ["PreToolUse"; "PostToolUse"]) then
    let tool := as_str (at_key payload "tool_name") in
    let input := at_key payload "tool_input" in
    match tool with
    | Some t =>
        if bool_decide (t = "Bash") then union (String.append "Bash: " <$> as_str (at_key input "command")) tool
        else if bool_decide (t ∈ ["Edit"; "Write"; "Read"; "MultiEdit"]) then
          union ((fun p => t +:+ " " +:+ p) <$> as_str (at_key input "file_path")) tool
        else tool
    | None => None
    end
  else if bool_decide (name = "Notification") then as_str (at_key payload "message")
  else if bool_decide (name = "UserPromptSubmit") then
    (fun p => default EmptyString (head (lines p))) <$> as_str (at_key payload "prompt")
  else if bool_decide (name = "Stop") then Some "turn ended"
  else if bool_decide (name = "SubagentStop") then Some "subagent ended"
  else None.

Definition summarize (name : string) (payload : Value) : string := cut (default name (summary_line name payload)) 200.

Definition text_field (name : string) : option string :=
  if bool_decide (name = "Stop") then Some "last_assistant_message"
  else if bool_decide (name = "UserPromptSubmit") then Some "prompt"
  else None.

Definition dropped_note (dropped : nat) : string :=
  newline +:+ newline +:+ "… " +:+ pretty dropped +:+ " more " +:+ (if dropped =? 1 then "character" else "characters") +:+ " dropped".

(** The text of a turn, whether it was cut, and the rest of the payload. *)
Definition lift_text (name : string) (payload : Value) : option string * bool * Value :=
  match text_field name, payload with
  | Some field, VObject obj =>
      match obj !! field with
      | Some (VString text) =>
          let rest := VObject (delete field obj) in
          let total := length (chars text) in
          if total <=? TEXT_LIMIT then (Some text, false, rest)
          else (Some (cut text TEXT_LIMIT +:+ dropped_note (total - TEXT_LIMIT)), true, rest)
      | _ => (None, false, payload)
      end
  | _, _ => (None, false, payload)
  end.

Section web.
Context `{!JsonText}.

Definition cut_payload (payload : Value) : Value * bool :=
  let text := json_bytes payload in
  if String.length text <=? PAYLOAD_LIMIT then (payload, false)
  else
    (VObject (<["truncated" := VBool true]> {["head" := VString (Question.str_take (Parts.floor_boundary PAYLOAD_LIMIT text) text)]}), true).

(** ** The cache *)

(** [entry(agent).or_default()]. *)
Definition log_of (agent epoch : string) (i : Inner) : EventLog := default (new_log epoch) (in_events i !! agent).
Definition set_events (m : gmap string EventLog) (i : Inner) : Inner := mkInner (in_enabled i) (in_fleets i) m.

Definition set_enabled (agent : string) (enabled : bool) (epoch : string) (i : Inner) : Inner :=
  if enabled then
    mkInner ({[agent]} ∪ in_enabled i) (in_fleets i) (<[agent := log_of agent epoch i]> (in_events i))
  else mkInner (in_enabled i ∖ {[agent]}) (in_fleets i) (in_events i).

Definition remove (agent : string) (i : Inner) : Inner :=
  mkInner (in_enabled i ∖ {[agent]}) (in_fleets i) (delete agent (in_events i)).

Definition is_enabled (agent : string) (i : Inner) : bool := bool_decide (agent ∈ in_enabled i).
Definition set_fleets (fleets : list FleetRecord) (i : Inner) : Inner := mkInner (in_enabled i) fleets (in_events i).

(** The first fleet that knows an agent. *)
Definition status_in (fleets : list FleetRecord) (id : string) : option AgentStatus :=
  head (omap (fun f => agents (rec_status f) !! id) fleets).
Definition phase_in (fleets : list FleetRecord) (id : string) : AgentPhase.t :=
  match status_in fleets id with Some s => st_phase s | None => AgentPhase.Pending end.
Definition phase_of (agent : string) (i : Inner) : AgentPhase.t := phase_in (in_fleets i) agent.

Definition rows_of (enabled : gset string) (fleets : list FleetRecord) : list AgentRow :=
  (fun id => {| ar_id := id; ar_phase := phase_in fleets id;
                ar_message := match status_in fleets id with Some s => st_message s | None => EmptyString end |})
  <$> BTree.elems enabled.
Definition rows (i : Inner) : list AgentRow := rows_of (in_enabled i) (in_fleets i).

(** The entry made of an event, under its number. *)
Definition entry_of (seq : N) (at_ : Timestamp) (name summary : string) (payload : Value) : Entry :=
  let '(text, text_truncated, rest) := lift_text name payload in
  let '(payload, payload_truncated) := cut_payload rest in
  {| en_seq := seq; en_at := at_; en_name := name; en_summary := summary; en_payload := payload;
     en_payload_truncated := payload_truncated; en_text := text; en_text_truncated := text_truncated |}.

(** [push_back], then [pop_front] down to the buffer. *)
Definition push_log (at_ : Timestamp) (name summary : string) (payload : Value) (log : EventLog) : EventLog :=
  let seq := (el_next_seq log + 1)%N in
  let entries := el_entries log ++ [entry_of seq at_ name summary payload] in
  mkLog (el_epoch log) seq (drop (length entries - EVENT_BUFFER) entries).

Definition push_event (agent epoch : string) (at_ : Timestamp) (name summary : string) (payload : Value) (i : Inner)
    : option N * Inner :=
  if negb (is_enabled agent i) then (None, i)
  else
    let log := push_log at_ name summary payload (log_of agent epoch i) in
    (Some (el_next_seq log), set_events (<[agent := log]> (in_events i)) i).

Definition events_after (agent : string) (after : N) (i : Inner) : Events :=
  let log := in_events i !! agent in
  {| ev_epoch := match log with Some log => el_epoch log | None => EmptyString end;
     ev_phase := phase_of agent i;
     ev_events := match log with Some log => filter (fun e => (after < en_seq e)%N) (el_entries log) | None => [] end;
     ev_workspace := None |}.

(** ** The plugin's calls: [plugin.rs], [config.rs] *)

(** What serde reads of a config block: [enabled], or a path and a message. *)
Context (deserialize : Value -> result (string * string) bool).

Definition value_kind (v : Value) : string :=
  match v with
  | Null => "null" | VBool _ => "boolean" | VNumber _ => "number" | VString _ => "string" | VArray _ => "array" | VObject _ => "object"
  end.

Definition parse (config : Value) : result PluginConfig.ConfigError bool :=
  match config with
  | VObject _ =>
      map_err (fun '(path, inner) =>
        PluginConfig.invalid (if bool_decide (path = ".") then EmptyString else path)
          (before ", expected `" (before ", expected one of" inner))) (deserialize config)
  | _ => Err (PluginConfig.invalid EmptyString ("invalid type: " +:+ value_kind config +:+ ", expected a map"))
  end.

Definition activate (agent : string) (config : Value) (epoch : string) (i : Inner) : result string unit * Inner :=
  match parse config with
  | Err e => (Err (PluginConfig.config_error_display e), i)
  | Ok enabled => (Ok tt, set_enabled agent enabled epoch i)
  end.
Definition deactivate (agent : string) (i : Inner) : Inner := remove agent i.

(** Each event draws an epoch, should it need one. *)
Fixpoint observe (events : list (HookEvent * string)) (i : Inner) : Inner :=
  match events with
  | [] => i
  | (e, epoch) :: events =>
      observe events
        (push_event (he_agent e) epoch (he_received_at e) (he_name e) (summarize (he_name e) (he_payload e)) (he_payload e) i).2
  end.

(** ** Two handlers: [routes.rs] *)

Definition NO_SUCH_AGENT : N * string := (404%N, "no such agent").

Definition enabled_id (fleet crew agent : string) (i : Inner) : result (N * string) string :=
  let id := fleet +:+ "/" +:+ crew +:+ "/" +:+ agent in
  if is_enabled id i then Ok id else Err NO_SUCH_AGENT.

(** The poll, with the version the daemon gave in time. *)
Definition events_json (fleet crew agent : string) (after : N) (version : option Reader.WorkspaceVersion) (i : Inner)
    : result (N * string) Events :=
  id ← enabled_id fleet crew agent i;
  let events := events_after id after i in
  Ok {| ev_epoch := ev_epoch events; ev_phase := ev_phase events; ev_events := ev_events events; ev_workspace := version |}.

(** [post_review] up to its call of the daemon: the agent and the message. *)
Definition post_review (fleet crew agent : string) (review : Review.Review) (i : Inner) : result (N * string) (string * string) :=
  id ← enabled_id fleet crew agent i;
  _ ← map_err (pair 400%N) (Review.validate review);
  let message := Review.render_message review in
  if (Review.MAX_MESSAGE_BYTES <? len message)%N then
    Err (400%N, "message: longer than " +:+ pretty Review.MAX_MESSAGE_BYTES +:+ " bytes")
  else Ok (id, message).
Definition review_action (message : string) : PluginAction := SendText message true.

(** And after the daemon's answer. *)
Definition review_answered (id message : string) (n : nat) (now : Timestamp) (epoch : string) (r : result SdkError unit) (i : Inner)
    : result (N * string) unit * Inner :=
  match r with
  | Ok _ =>
      (Ok tt,
       (push_event id epoch now "review_sent" ("review sent (" +:+ pretty n +:+ " comment" +:+ (if n =? 1 then EmptyString else "s") +:+ ")")
          (VObject (<["message" := VString message]> {["comments" := VNumber (PosInt (N.of_nat n))]})) i).2)
  | Err e => (Err (502%N, sdk_error_display e), i)
  end.

(** ** The page *)

(** What the script keeps of the activity column: [lastSeq], [epoch], the
    entries it shows, and whether it is reading a log made again from the
    start. *)
Record Page := mkPage { pg_last : N; pg_epoch : option string; pg_shown : list Entry; pg_again : bool }.
Definition new_page : Page := mkPage 0 None [] false.

(** An answer is shown: what is newer than the last entry, in its order. *)
Definition show_entries (p : Page) (r : Events) : Page :=
  let fresh := filter (fun e => (pg_last p < en_seq e)%N) (ev_events r) in
  mkPage (match last fresh with Some e => en_seq e | None => pg_last p end) (Some (ev_epoch r)) (pg_shown p ++ fresh) false.

(** [pollEvents], at each of its one or two fetches: a changed epoch empties the
    column and asks for everything. *)
Definition poll_asks (p : Page) : N := if pg_again p then 0%N else pg_last p.
Definition poll_answered (r : Events) (p : Page) : Page :=
  if pg_again p then show_entries p r
  else
    match pg_epoch p with
    | Some e => if bool_decide (ev_epoch r = e) then show_entries p r else mkPage 0 (pg_epoch p) [] true
    | None => show_entries p r
    end.
(** A fetch that fails ends the poll where it is. *)
Definition poll_failed (p : Page) : Page := mkPage (pg_last p) (pg_epoch p) (pg_shown p) false.
Definition poll (agent : string) (i : Inner) (p : Page) : Page := poll_answered (events_after agent (poll_asks p) i) p.
End web.

(** ** What the cache promises *)

(** The same operations over logs that forget nothing: each agent's epoch and
    all that was pushed since it began. *)
Record Push := { pu_at : Timestamp; pu_name : string; pu_summary : string; pu_payload : Value }.
Record Ledger := mkLedger { ld_enabled : gset string; ld_fleets : list FleetRecord; ld_logs : gmap string (string * list Push) }.
Definition new_ledger : Ledger := mkLedger ∅ [] ∅.

Inductive CacheOp :=
| OpSetEnabled (agent : string) (enabled : bool) (epoch : string)
| OpRemove (agent : string)
| OpSetFleets (fleets : list FleetRecord)
| OpPush (agent epoch : string) (push : Push).

Section ledger.
Context `{!JsonText}.

Definition cache_step (i : Inner) (op : CacheOp) : Inner :=
  match op with
  | OpSetEnabled agent enabled epoch => set_enabled agent enabled epoch i
  | OpRemove agent => remove agent i
  | OpSetFleets fleets => set_fleets fleets i
  | OpPush agent epoch p => (push_event agent epoch (pu_at p) (pu_name p) (pu_summary p) (pu_payload p) i).2
  end.

Definition history_of (agent epoch : string) (l : Ledger) : string * list Push := default (epoch, []) (ld_logs l !! agent).

Definition ledger_step (l : Ledger) (op : CacheOp) : Ledger :=
  match op with
  | OpSetEnabled agent true epoch =>
      mkLedger ({[agent]} ∪ ld_enabled l) (ld_fleets l) (<[agent := history_of agent epoch l]> (ld_logs l))
  | OpSetEnabled agent false _ => mkLedger (ld_enabled l ∖ {[agent]}) (ld_fleets l) (ld_logs l)
  | OpRemove agent => mkLedger (ld_enabled l ∖ {[agent]}) (ld_fleets l) (delete agent (ld_logs l))
  | OpSetFleets fleets => mkLedger (ld_enabled l) fleets (ld_logs l)
  | OpPush agent epoch p =>
      if bool_decide (agent ∈ ld_enabled l) then
        let '(e, h) := history_of agent epoch l in
        mkLedger (ld_enabled l) (ld_fleets l) (<[agent := (e, h ++ [p])]> (ld_logs l))
      else l
  end.

(** The entries of a history, numbered from after [s]. *)
Fixpoint numbered (s : nat) (h : list Push) : list Entry :=
  match h with
  | [] => []
  | p :: h => entry_of (N.of_nat s + 1) (pu_at p) (pu_name p) (pu_summary p) (pu_payload p) :: numbered (S s) h
  end.
Definition retained (h : list Push) : list Entry := drop (length h - EVENT_BUFFER) (numbered 0 h).

Definition held (l : Ledger) : Inner :=
  mkInner (ld_enabled l) (ld_fleets l) ((fun x => mkLog x.1 (N.of_nat (length x.2)) (retained x.2)) <$> ld_logs l).

Lemma numbered_length s h : length (numbered s h) = length h.
Proof. revert s. induction h as [|p h IH]; intros s; [done|]. simpl. by rewrite IH. Qed.

Lemma numbered_app s h h' : numbered s (h ++ h') = numbered s h ++ numbered (s + length h) h'.
Proof.
  revert s. induction h as [|p h IH]; intros s; simpl; [by rewrite Nat.add_0_r|]. rewrite IH. do 3 f_equal. lia.
Qed.

Lemma numbered_drop k s h : drop k (numbered s h) = numbered (s + k) (drop k h).
Proof.
  revert s k. induction h as [|p h IH]; intros s [|k]; simpl; [done|done|by rewrite Nat.add_0_r|]. rewrite IH. f_equal. lia.
Qed.

Lemma entry_of_seq seq at_ name summary payload : en_seq (entry_of seq at_ name summary payload) = seq.
Proof. unfold entry_of. destruct (lift_text _ _) as [[text tt_] rest]. by destruct (cut_payload rest). Qed.

Lemma numbered_lookup s h k x : numbered s h !! k = Some x -> en_seq x = (N.of_nat (s + k) + 1)%N.
Proof.
  revert s k. induction h as [|p h IH]; intros s [|k]; try done; simpl.
  - intros [= <-]. rewrite entry_of_seq. f_equal. lia.
  - intros Hl%IH. rewrite Hl. f_equal. lia.
Qed.

Lemma numbered_after s h a : filter (fun e => (a < en_seq e)%N) (numbered s h) = drop (N.to_nat a - s) (numbered s h).
Proof.
  revert s. induction h as [|p h IH]; intros s; cbn [numbered]; [by rewrite drop_nil|]. rewrite filter_cons, IH, entry_of_seq.
  destruct (decide (a < N.of_nat s + 1)%N) as [Hlt|Hge].
  - replace (N.to_nat a - s) with 0 by lia. replace (N.to_nat a - S s) with 0 by lia. done.
  - replace (N.to_nat a - s) with (S (N.to_nat a - S s)) by lia. done.
Qed.

Lemma retained_after h a : filter (fun e => (a < en_seq e)%N) (retained h) = drop (Nat.max (N.to_nat a) (length h - EVENT_BUFFER)) (numbered 0 h).
Proof.
  unfold retained. rewrite numbered_drop, numbered_after, <- numbered_drop, drop_drop. f_equal. lia.
Qed.

Lemma push_log_held e h p : push_log (pu_at p) (pu_name p) (pu_summary p) (pu_payload p) (mkLog e (N.of_nat (length h)) (retained h)) =
  mkLog e (N.of_nat (length (h ++ [p]))) (retained (h ++ [p])).
Proof.
  unfold push_log. cbn [el_epoch el_next_seq el_entries]. f_equal; [rewrite length_app; simpl; lia|].
  unfold retained. rewrite numbered_app, (length_app h). cbn [numbered length]. rewrite Nat.add_0_l.
  set (x := entry_of _ _ _ _ _). set (n := numbered 0 h). assert (length n = length h) as Hn by apply numbered_length.
  rewrite <- Hn. rewrite <- (drop_app_le n [x]) by lia. rewrite length_drop, length_app, drop_drop. f_equal. cbn [length]. lia.
Qed.

Lemma step_held l op : cache_step (held l) op = held (ledger_step l op).
Proof.
  destruct op as [agent [] epoch|agent|fleets|agent epoch p]; cbn [cache_step ledger_step].
  - unfold set_enabled, held, log_of, history_of. cbn [in_enabled in_fleets in_events ld_enabled ld_fleets ld_logs]. f_equal.
    rewrite fmap_insert, lookup_fmap. f_equal. by destruct (ld_logs l !! agent).
  - done.
  - unfold remove, held. cbn [in_enabled in_fleets in_events ld_enabled ld_fleets ld_logs]. by rewrite fmap_delete.
  - done.
  - unfold push_event, is_enabled. cbn [held in_enabled]. destruct (bool_decide (agent ∈ ld_enabled l)); [|done]. cbn [negb snd].
    unfold log_of, history_of, set_events, held. cbn [in_enabled in_fleets in_events ld_enabled ld_fleets ld_logs]. rewrite lookup_fmap.
    destruct (ld_logs l !! agent) as [[e h]|]; cbn -[push_log retained]; f_equal; rewrite fmap_insert; f_equal.
    apply push_log_held.
Qed.

Definition answer (agent : string) (after : N) (l : Ledger) : Events :=
  match ld_logs l !! agent with
  | Some (epoch, h) =>
      {| ev_epoch := epoch; ev_phase := phase_in (ld_fleets l) agent;
         ev_events := drop (Nat.max (N.to_nat after) (length h - EVENT_BUFFER)) (numbered 0 h); ev_workspace := None |}
  | None => {| ev_epoch := EmptyString; ev_phase := phase_in (ld_fleets l) agent; ev_events := []; ev_workspace := None |}
  end.

Lemma events_after_held agent after l : events_after agent after (held l) = answer agent after l.
Proof.
  unfold events_after, answer. cbn [held in_events]. rewrite lookup_fmap.
  destruct (ld_logs l !! agent) as [[epoch h]|]; [|done]. cbn [fmap option_fmap option_map fst snd el_entries el_epoch].
  by rewrite retained_after.
Qed.

Lemma run_held ops l : foldl cache_step (held l) ops = held (foldl ledger_step l ops).
Proof. revert l. induction ops as [|op ops IH]; intros l; [done|]. cbn [foldl]. by rewrite step_held. Qed.

Lemma held_new : held new_ledger = new_cache.
Proof. unfold held. cbn [new_ledger ld_logs]. by rewrite fmap_empty. Qed.

(** The cache is a window on everything that happened: after any operations an
    agent's poll gets, in their order and under their numbers, exactly the
    events pushed after the one it names, but for those more than
    [EVENT_BUFFER] back; an event counts from when its log began, at the first
    activation that listed the agent. *)
Theorem cache_refines (ops : list CacheOp) (agent : string) (after : N) :
  let l := foldl ledger_step new_ledger ops in
  in_enabled (foldl cache_step new_cache ops) = ld_enabled l /\
  events_after agent after (foldl cache_step new_cache ops) = answer agent after l.
Proof. rewrite <- held_new, run_held. split; [done|apply events_after_held]. Qed.
End ledger.

(** ** What the page shows *)

Inductive WebStep := Cache (op : CacheOp) | Poll | PollFailed.

Section page.
Context `{!JsonText}.
(** The agent of the page. *)
Context (agent : string).

Definition web_step (x : Inner * Page) (s : WebStep) : Inner * Page :=
  match s with
  | Cache op => (cache_step x.1 op, x.2)
  | Poll => (x.1, poll agent x.1 x.2)
  | PollFailed => (x.1, poll_failed x.2)
  end.

(** A poll that is answered, with its second fetch. *)
Definition full_poll (i : Inner) (p : Page) : Page :=
  let p := poll agent i p in if pg_again p then poll agent i p else p.

(** The epoch an operation draws. *)
Definition draws (s : WebStep) : list string :=
  match s with Cache (OpSetEnabled _ _ epoch) | Cache (OpPush _ epoch _) => [epoch] | _ => [] end.

(** The page agrees with a history: what it shows is of it, in order, and it
    shows all of it up to its last entry that is still retained. *)
Record agrees (h : list Push) (p : Page) : Prop := {
  ag_last : N.to_nat (pg_last p) <= length h;
  ag_shown x : x ∈ pg_shown p -> exists k, numbered 0 h !! k = Some x;
  ag_all k x : k < N.to_nat (pg_last p) -> length h - EVENT_BUFFER <= k -> numbered 0 h !! k = Some x -> x ∈ pg_shown p;
}.

(** What the page shows is in order, up to its last entry. *)
Record ordered (p : Page) : Prop := {
  or_sorted : StronglySorted N.lt (en_seq <$> pg_shown p);
  or_last x : x ∈ pg_shown p -> (en_seq x <= pg_last p)%N;
  or_again : pg_again p = true -> pg_shown p = [] /\ pg_last p = 0%N;
  or_none : pg_epoch p = None -> pg_shown p = [] /\ pg_last p = 0%N;
}.

Definition page_ok (used : list string) (l : Ledger) (p : Page) : Prop :=
  ordered p /\ (forall e, pg_epoch p = Some e -> e = EmptyString \/ e ∈ used) /\
  (forall e h, ld_logs l !! agent = Some (e, h) -> e ∈ used /\ (pg_epoch p = Some e -> agrees h p)).

Lemma sorted_numbered s h : StronglySorted N.lt (en_seq <$> numbered s h) /\ Forall (fun e => (N.of_nat s < en_seq e)%N) (numbered s h).
Proof.
  revert s. induction h as [|p h IH]; intros s; [by repeat constructor|]. cbn [numbered fmap list_fmap].
  destruct (IH (S s)) as [Hs Ha]. split.
  - constructor; [done|]. rewrite entry_of_seq, Forall_fmap. eapply Forall_impl; [exact Ha|]. simpl. intros x. lia.
  - constructor; [rewrite entry_of_seq; lia|]. eapply Forall_impl; [exact Ha|]. simpl. intros x. lia.
Qed.

Lemma sorted_app {A} (R : A -> A -> Prop) l l' : StronglySorted R l -> StronglySorted R l' -> (forall x y, x ∈ l -> y ∈ l' -> R x y) ->
  StronglySorted R (l ++ l').
Proof.
  induction 1 as [|x l Hl IH Hx]; intros Hl' Hr; [done|]. simpl. constructor; [apply IH; [done|]; intros; apply Hr; [by right|done]|].
  apply Forall_app. split; [done|]. apply Forall_forall. intros y Hy. apply Hr; [by left|done].
Qed.

Lemma page_fresh h last : filter (fun e => (last < en_seq e)%N) (drop (Nat.max (N.to_nat last) (length h - EVENT_BUFFER)) (numbered 0 h)) =
  drop (Nat.max (N.to_nat last) (length h - EVENT_BUFFER)) (numbered 0 h).
Proof.
  rewrite numbered_drop, numbered_after. match goal with |- drop ?k _ = _ => replace k with 0 by lia end. done.
Qed.

(** A page that agrees up to its last entry, shown what is newer. *)
Lemma show_agrees h epoch phase p : ordered p -> agrees h p ->
  let r := {| ev_epoch := epoch; ev_phase := phase;
              ev_events := drop (Nat.max (N.to_nat (pg_last p)) (length h - EVENT_BUFFER)) (numbered 0 h); ev_workspace := None |} in
  let p' := show_entries p r in
  ordered p' /\ agrees h p' /\ pg_last p' = N.of_nat (length h) /\ pg_epoch p' = Some epoch /\ pg_again p' = false.
Proof.
  intros Ho Ha r p'. destruct Ha as [Hlast Hshown Hall]. set (from := Nat.max (N.to_nat (pg_last p)) (length h - EVENT_BUFFER)).
  assert (p' = mkPage (N.of_nat (length h)) (Some epoch) (pg_shown p ++ drop from (numbered 0 h)) false) as ->.
  { unfold p', show_entries, r. cbn [ev_events ev_epoch]. rewrite page_fresh. fold from. f_equal.
    destruct (decide (from < length h)) as [Hlt|Hge].
    - destruct (last (drop from (numbered 0 h))) as [x|] eqn:Hx.
      + rewrite last_lookup, lookup_drop in Hx. apply numbered_lookup in Hx. rewrite length_drop, numbered_length in Hx. lia.
      + apply last_None in Hx. apply (f_equal length) in Hx. rewrite length_drop, numbered_length in Hx. simpl in Hx. lia.
    - rewrite drop_ge by (rewrite numbered_length; lia). cbn. assert (0 < EVENT_BUFFER) by (unfold EVENT_BUFFER; lia). unfold from in Hge. lia. }
  assert (forall x, x ∈ drop from (numbered 0 h) -> exists k, from <= k /\ numbered 0 h !! k = Some x) as Hnew.
  { intros x [k Hk]%list_elem_of_lookup. rewrite lookup_drop in Hk. exists (from + k). split; [lia|done]. }
  split; [|split; [|done]].
  - destruct Ho as [Hs Hl _ _]. split; cbn [pg_shown pg_last pg_again pg_epoch]; [| |done|done].
    + rewrite fmap_app. apply sorted_app; [done| |].
      * rewrite numbered_drop. apply sorted_numbered.
      * intros a b (x & -> & Hx)%list_elem_of_fmap (y & -> & Hy)%list_elem_of_fmap. apply Hl in Hx.
        apply Hnew in Hy as (k & Hk & Hy). apply numbered_lookup in Hy. unfold from in Hk. lia.
    + intros x [Hx|Hx]%elem_of_app; [apply Hl in Hx; lia|]. apply Hnew in Hx as (k & Hk & Hx). pose proof Hx as Hlt.
      apply lookup_lt_Some in Hlt. rewrite numbered_length in Hlt. apply numbered_lookup in Hx. lia.
  - split; cbn [pg_shown pg_last].
    + lia.
    + intros x [Hx|Hx]%elem_of_app; [by apply Hshown|]. apply Hnew in Hx as (k & _ & Hx). by exists k.
    + intros k x Hk Hret Hx. apply elem_of_app. destruct (decide (k < N.to_nat (pg_last p))) as [Hlt|Hge]; [left; by apply (Hall k)|right].
      apply list_elem_of_lookup. exists (k - from). rewrite lookup_drop. replace (from + (k - from)) with k by (unfold from; lia). done.
Qed.

Lemma fresh_agrees h p : pg_shown p = [] -> pg_last p = 0%N -> agrees h p.
Proof. intros Hs Hl. split; rewrite ?Hs, ?Hl; [lia|by intros x []%elem_of_nil|intros; lia]. Qed.

Lemma show_nothing epoch phase p : ordered p ->
  ordered (show_entries p {| ev_epoch := epoch; ev_phase := phase; ev_events := []; ev_workspace := None |}).
Proof.
  intros [Hs Hl Ha Hn]. unfold show_entries. cbn. rewrite app_nil_r. by split.
Qed.

Lemma poll_ok used l p : EmptyString ∉ used -> page_ok used l p -> page_ok used l (poll agent (held l) p).
Proof.
  intros Hemp (Ho & Hep & Hl). unfold poll, poll_answered. rewrite events_after_held. unfold answer.
  destruct (ld_logs l !! agent) as [[e h]|] eqn:Hlog; cbn [ev_epoch].
  - destruct (Hl e h eq_refl) as [Hused Hag].
    assert (forall phase, agrees h p -> (pg_again p = true -> pg_last p = 0%N) -> page_ok used l (show_entries p {| ev_epoch := e; ev_phase := phase;
      ev_events := drop (Nat.max (N.to_nat (poll_asks p)) (length h - EVENT_BUFFER)) (numbered 0 h); ev_workspace := None |})) as Hshow.
    { intros phase Hagr Hz. assert (poll_asks p = pg_last p) as -> by (unfold poll_asks; destruct (pg_again p); [by rewrite Hz|done]).
      destruct (show_agrees h e phase p Ho Hagr) as (Ho' & Hag' & _ & He' & _). split; [done|]. split.
      - intros e' He''. rewrite He' in He''. injection He'' as <-. by right.
      - intros e' h' Hl'. rewrite Hlog in Hl'. by injection Hl' as <- <-. }
    destruct (pg_again p) eqn:Hag0.
    { destruct (or_again p Ho Hag0) as [Hs0 Hl0]. apply Hshow; [by apply fresh_agrees|done]. }
    destruct (pg_epoch p) as [e0|] eqn:He0.
    + case_bool_decide as Heq; [subst e0; by apply Hshow; [apply Hag|]|]. split; [|split].
      * split; cbn; [constructor|by intros x []%elem_of_nil|done|done].
      * intros e' [= <-]. by apply Hep.
      * intros e' h' Hl'. rewrite Hlog in Hl'. injection Hl' as <- <-. split; [done|]. intros _. by apply fresh_agrees.
    + destruct (or_none p Ho He0) as [Hs0 Hl0]. apply Hshow; [by apply fresh_agrees|done].
  - assert (forall phase, page_ok used l (show_entries p {| ev_epoch := EmptyString; ev_phase := phase; ev_events := []; ev_workspace := None |})) as Hshow.
    { intros phase. split; [by apply show_nothing|]. split; [intros e [= <-]; by left|]. intros e h Hl'. by rewrite Hlog in Hl'. }
    destruct (pg_again p); [apply Hshow|]. destruct (pg_epoch p) as [e0|] eqn:He0; [|apply Hshow]. case_bool_decide; [apply Hshow|].
    split; [|split].
    + split; cbn; [constructor|by intros x []%elem_of_nil|done|done].
    + intros e' [= <-]. by apply Hep.
    + intros e' h' Hl'. by rewrite Hlog in Hl'.
Qed.

Lemma poll_failed_ok used l p : page_ok used l p -> page_ok used l (poll_failed p).
Proof.
  intros ([Hs Hl Ha Hn] & Hep & Hlog). split; [by split|]. split; [done|]. intros e h Hl'. destruct (Hlog e h Hl') as [Hu Hag].
  split; [done|]. intros He. destruct (Hag He) as [H1' H2' H3']. by split.
Qed.

Lemma page_grows used used' l p : page_ok used l p -> (forall e, e ∈ used -> e ∈ used') -> page_ok used' l p.
Proof. intros (Ho & Hep & Hl) Hsub. split; [done|]. split; [naive_solver|]. intros e h Hlog. split; [apply Hsub; by eapply Hl|by eapply Hl]. Qed.

Lemma agrees_more h x p : agrees h p -> agrees (h ++ [x]) p.
Proof.
  intros [Hl Hs Ha]. split; rewrite ?length_app; cbn [length].
  - lia.
  - intros e He. destruct (Hs e He) as [k Hk]. exists k. rewrite numbered_app. by apply lookup_app_l_Some.
  - intros k e Hk Hr He. apply (Ha k e Hk); [lia|]. rewrite numbered_app in He. rewrite lookup_app_l in He; [done|]. rewrite numbered_length. lia.
Qed.

Lemma cache_ok used l p op : page_ok used l p -> (forall e, e ∈ draws (Cache op) -> e ∉ used /\ e <> EmptyString) ->
  page_ok (used ++ draws (Cache op)) (ledger_step l op) p.
Proof.
  intros Hok Hfresh.
  assert (forall e, e ∈ draws (Cache op) -> pg_epoch p <> Some e) as Hnot.
  { intros e He Hp. destruct (Hfresh e He) as [Hu Hne]. by destruct (proj1 (proj2 Hok) e Hp). }
  apply (page_grows used (used ++ draws (Cache op))) in Hok; [|intros e He; apply elem_of_app; by left].
  destruct Hok as (Ho & Hep & Hl). split; [done|]. split; [done|].
  destruct op as [a [] epoch|a|fleets|a epoch x]; cbn [ledger_step draws] in *; [|exact Hl| |exact Hl|].
  - intros e h. cbn [ld_logs]. destruct (decide (a = agent)) as [->|Hne]; [|rewrite lookup_insert_ne by done; apply Hl].
    rewrite lookup_insert_eq. unfold history_of. destruct (ld_logs l !! agent) as [[e0 h0]|] eqn:Hlog; cbn; intros [= <- <-]; [by apply Hl|].
    split; [apply elem_of_app; right; by left|]. intros He. by destruct (Hnot epoch); [left|].
  - intros e h. cbn [ld_logs]. intros [_ Hd]%lookup_delete_Some. by apply Hl.
  - case_bool_decide; [|exact Hl]. destruct (history_of a epoch l) as [e0 h0] eqn:Hh. intros e h. cbn [ld_logs].
    destruct (decide (a = agent)) as [->|Hne]; [|rewrite lookup_insert_ne by done; apply Hl].
    rewrite lookup_insert_eq. intros [= <- <-]. unfold history_of in Hh. destruct (ld_logs l !! agent) as [[e1 h1]|] eqn:Hlog; cbn in Hh; injection Hh as -> ->.
    + destruct (Hl e0 h0 eq_refl) as [Hu Hag]. split; [done|]. intros He. by apply agrees_more, Hag.
    + split; [apply elem_of_app; right; by left|]. intros He. by destruct (Hnot e0); [left|].
Qed.

Definition ledger_of (steps : list WebStep) : list CacheOp := omap (fun s => match s with Cache op => Some op | _ => None end) steps.

Lemma page_invariant steps : NoDup (steps ≫= draws) -> EmptyString ∉ steps ≫= draws ->
  exists p, foldl web_step (new_cache, new_page) steps = (held (foldl ledger_step new_ledger (ledger_of steps)), p) /\
    page_ok (steps ≫= draws) (foldl ledger_step new_ledger (ledger_of steps)) p.
Proof.
  induction steps as [|s steps IH] using rev_ind; intros Hnd Hemp.
  - exists new_page. split; [by rewrite <- held_new|]. split; [by split; cbn; [constructor|intros x []%elem_of_nil|..]|]. split; [done|]. done.
  - rewrite bind_app in *. cbn in *. rewrite app_nil_r in *. apply NoDup_app in Hnd as (Hnd & Hdis & _).
    rewrite elem_of_app in Hemp. destruct IH as (p & E & Hp); [done|naive_solver|].
    rewrite foldl_app, E. unfold ledger_of in *. rewrite omap_app, foldl_app. destruct s as [op| |]; cbn in *.
    + exists p. split; [by rewrite step_held|]. apply cache_ok; [done|]. intros e He. split; [naive_solver|]. intros ->. naive_solver.
    + rewrite app_nil_r. eexists. split; [done|]. apply poll_ok; [naive_solver|done].
    + rewrite app_nil_r. eexists. split; [done|]. by apply poll_failed_ok.
Qed.

Lemma full_poll_ok used l p : EmptyString ∉ used -> page_ok used l p -> forall e h, ld_logs l !! agent = Some (e, h) ->
  let p' := full_poll (held l) p in
  page_ok used l p' /\ pg_epoch p' = Some e /\ pg_last p' = N.of_nat (length h) /\ pg_again p' = false.
Proof.
  intros Hemp Hok e h Hlog p'.
  assert (forall p, page_ok used l p -> (pg_again p = true \/ pg_epoch p = None \/ pg_epoch p = Some e) ->
    let p' := poll agent (held l) p in pg_epoch p' = Some e /\ pg_last p' = N.of_nat (length h) /\ pg_again p' = false) as Hshow.
  { intros q (Ho & Hep & Hl) Hor. assert (agrees h q /\ poll_asks q = pg_last q) as [Hag Hask].
    { unfold poll_asks. destruct (pg_again q) eqn:Ha.
      - destruct (or_again q Ho Ha) as [? ->]. split; [by apply fresh_agrees; [|destruct (or_again q Ho Ha)]|done].
      - split; [|done]. destruct Hor as [?|[Hn|Hs]]; [done| |].
        + destruct (or_none q Ho Hn). by apply fresh_agrees.
        + by apply (Hl e h Hlog). }
    unfold poll, poll_answered. rewrite events_after_held. unfold answer. rewrite Hlog, Hask. cbn [ev_epoch].
    destruct (show_agrees h e (phase_in (ld_fleets l) agent) q Ho Hag) as (_ & _ & Hl' & He' & Ha').
    destruct (pg_again q); [done|]. destruct (pg_epoch q) as [e0|]; [|done]. destruct Hor as [?|[?|[= ->]]]; [done..|].
    by rewrite bool_decide_true. }
  unfold p', full_poll. pose proof (poll_ok used l p Hemp Hok) as Hok1. destruct (pg_again (poll agent (held l) p)) eqn:Hag.
  - split; [by apply poll_ok|]. apply Hshow; [done|by left].
  - split; [done|]. destruct (pg_again p) eqn:Ha; [by apply Hshow; [|left]|]. destruct (pg_epoch p) as [e0|] eqn:He; [|by apply Hshow; [|right; left]].
    destruct (decide (e0 = e)) as [->|Hne]; [by apply Hshow; [|right; right]|]. exfalso. revert Hag. unfold poll, poll_answered.
    rewrite events_after_held, Ha, He. unfold answer. rewrite Hlog. cbn [ev_epoch]. by rewrite bool_decide_false.
Qed.

(** The page follows the agent: however the cache changes, events arrive and
    polls fail between its polls, once a poll is answered it shows every event
    that is still retained, each under its number, in order and once, and
    nothing that is not of the log the agent has now. *)
Theorem page_follows (steps : list WebStep) (Hnd : NoDup (steps ≫= draws)) (Hemp : EmptyString ∉ steps ≫= draws)
    (log : EventLog) (Hlog : in_events (foldl web_step (new_cache, new_page) steps).1 !! agent = Some log) :
  let '(i, p) := foldl web_step (new_cache, new_page) steps in
  let p' := full_poll i p in
  pg_epoch p' = Some (el_epoch log) /\ StronglySorted N.lt (en_seq <$> pg_shown p') /\
  (forall x, x ∈ el_entries log -> x ∈ pg_shown p') /\
  exists h, ld_logs (foldl ledger_step new_ledger (ledger_of steps)) !! agent = Some (el_epoch log, h) /\
    forall x, x ∈ pg_shown p' -> x ∈ numbered 0 h.
Proof.
  destruct (page_invariant steps Hnd Hemp) as (p & E & Hok). rewrite E in *. cbn [fst held in_events] in Hlog.
  rewrite lookup_fmap in Hlog. destruct (ld_logs (foldl ledger_step new_ledger (ledger_of steps)) !! agent) as [[e h]|] eqn:Hl; [|done].
  injection Hlog as <-. cbn [el_epoch el_entries fst snd].
  destruct (full_poll_ok _ _ _ Hemp Hok e h Hl) as ((Ho & _ & Hag) & He & Hlast & _). specialize (Hag e h Hl) as [_ Hag].
  specialize (Hag He). split; [done|]. split; [apply Ho|]. split.
  - intros x [k Hk]%list_elem_of_lookup. unfold retained in Hk. rewrite lookup_drop in Hk. eapply (ag_all h _ Hag); [|apply Nat.le_add_r|exact Hk].
    rewrite Hlast. apply lookup_lt_Some in Hk. rewrite numbered_length in Hk. lia.
  - exists h. split; [done|]. intros x Hx. destruct (ag_shown h _ Hag x Hx) as [k Hk]. by apply list_elem_of_lookup_2 in Hk.
Qed.
End page.

(** ** Texts are kept, payloads bounded *)

Section kept.
Context `{!JsonText}.

Lemma chars_cut s n : length (chars s) <= n -> cut s n = s.
Proof. intros Hl. unfold cut. rewrite take_ge by done. apply concat_chars. Qed.

(** A turn's text is lifted out of its payload without a loss: put back, it is
    the payload, unless the text is over its limit, and then its first
    [TEXT_LIMIT] characters and the count of the others are kept; what is kept
    of a payload prints in [PAYLOAD_LIMIT] bytes, or says that it was cut and
    holds at most so many bytes of how the whole one begins. *)
Theorem entry_keeps seq at_ name summary payload :
  let e := entry_of seq at_ name summary payload in
  match en_text e with
  | None => (lift_text name payload).2 = payload
  | Some text => exists field obj whole, text_field name = Some field /\ payload = VObject obj /\ obj !! field = Some (VString whole) /\
      (lift_text name payload).2 = VObject (delete field obj) /\
      if en_text_truncated e then text = cut whole TEXT_LIMIT +:+ dropped_note (length (chars whole) - TEXT_LIMIT) /\ TEXT_LIMIT < length (chars whole)
      else text = whole
  end /\
  if en_payload_truncated e then
    exists head rest, en_payload e = VObject (<["truncated" := VBool true]> {["head" := VString head]}) /\
      json_bytes (lift_text name payload).2 = head +:+ rest /\ String.length head <= PAYLOAD_LIMIT
  else en_payload e = (lift_text name payload).2 /\ String.length (json_bytes (en_payload e)) <= PAYLOAD_LIMIT.
Proof.
  intros e. unfold e, entry_of. destruct (lift_text name payload) as [[text tt_] rest] eqn:Hl.
  assert (match cut_payload rest with (p, b) =>
    if b : bool then exists head r, p = VObject (<["truncated" := VBool true]> {["head" := VString head]}) /\
      json_bytes rest = head +:+ r /\ String.length head <= PAYLOAD_LIMIT
    else p = rest /\ String.length (json_bytes p) <= PAYLOAD_LIMIT end) as Hcut.
  { unfold cut_payload. destruct (Nat.leb_spec (String.length (json_bytes rest)) PAYLOAD_LIMIT) as [Hle|Hgt]; [done|].
    eexists _, _. split; [done|]. split; [symmetry; apply Parts.str_take_drop|]. rewrite Parts.length_str_take.
    pose proof (Parts.floor_le PAYLOAD_LIMIT (json_bytes rest)). lia. }
  destruct (cut_payload rest) as [p b]. cbn [en_text en_text_truncated en_payload_truncated en_payload snd]. split; [|exact Hcut]. clear Hcut.
  unfold lift_text in Hl. destruct (text_field name) as [field|] eqn:Hf; [|by injection Hl as <- <- <-].
  destruct payload as [| | | | |obj]; try by injection Hl as <- <- <-. destruct (obj !! field) as [[]|] eqn:Ho; try by injection Hl as <- <- <-.
  destruct (Nat.leb_spec (length (chars s)) TEXT_LIMIT); injection Hl as <- <- <-; by exists field, obj, s.
Qed.
End kept.

(** ** Reviews *)

(** A review that the page may send goes to an agent that is listed, passed the
    checks, and is a message the daemon's own limits accept; a refused one
    leaves the cache as it was, a sent one is the next entry of the agent's
    log unless the agent left the list meanwhile. *)
Theorem reviews_accepted `{!JsonText, !Unicode} fleet crew agent review i id message
    (Hp : post_review fleet crew agent review i = Ok (id, message)) :
  id = fleet +:+ "/" +:+ crew +:+ "/" +:+ agent /\ id ∈ in_enabled i /\ Review.validate review = Ok tt /\
  message = Review.render_message review /\ Rules.validate (review_action message) = Ok tt /\
  forall n now epoch r i', let '(answer, i2) := review_answered id message n now epoch r i' in
    (is_ok r = false -> i2 = i' /\ exists e, answer = Err (502%N, e)) /\
    (is_ok r = true -> answer = Ok tt /\ in_enabled i2 = in_enabled i' /\
       if is_enabled id i' then exists log x, in_events i2 !! id = Some log /\ last (el_entries log) = Some x /\
         en_name x = "review_sent" /\ en_seq x = el_next_seq log /\ el_next_seq log = (el_next_seq (log_of id epoch i') + 1)%N
       else i2 = i').
Proof.
  unfold post_review in Hp. apply bind_Ok in Hp as (id0 & Hid & Hp). unfold enabled_id in Hid.
  destruct (is_enabled (fleet +:+ "/" +:+ crew +:+ "/" +:+ agent) i) eqn:Hen; [|done]. injection Hid as <-.
  apply bind_Ok in Hp as ([] & Hv%map_err_Ok & Hp). destruct (N.ltb_spec Review.MAX_MESSAGE_BYTES (len (Review.render_message review))) as [|Hle]; [done|].
  injection Hp as <- <-. split; [done|]. split; [by apply (bool_decide_eq_true (_ ∈ in_enabled i))|]. split; [done|]. split; [done|]. split.
  - unfold review_action, Rules.validate. unfold len in Hle. unfold str_len, MAX_SEND_TEXT, Review.MAX_MESSAGE_BYTES in *.
    by rewrite (proj2 (N.ltb_ge _ _)).
  - intros n now epoch r i'. destruct r as [[]|e]; cbn [review_answered]; [|split; [intros _; split; [done|by eexists]|done]].
    split; [done|]. intros _. split; [done|]. unfold push_event. destruct (is_enabled _ i') eqn:Hen'; cbn [negb snd]; [|done].
    split; [done|]. cbn [set_events in_events]. rewrite lookup_insert_eq. eexists _, _. split; [done|]. cbn [push_log el_entries el_next_seq].
    split; [|split; [|split; [apply entry_of_seq|done]]].
    + assert (0 < EVENT_BUFFER) by (unfold EVENT_BUFFER; lia). rewrite drop_app_le by (rewrite length_app; cbn [length]; lia). apply last_snoc.
    + unfold entry_of. destruct (lift_text _ _) as [[]]. by destruct (cut_payload _).
Qed.

(** ** A concrete page *)

Section sample.
#[local] Instance web_json : JsonText := {| json_bytes _ := "{}"; json_parse _ := None |}.
#[local] Instance web_escaped : Unicode := fun _ => false.

Definition web_push (name : string) : Push := {| pu_at := 7%N; pu_name := name; pu_summary := name; pu_payload := VObject {["prompt" := VString "go on"]} |}.
Definition web_agent : string := "f/c/a".

(** The agent is activated again between two polls. *)
Definition web_steps : list WebStep :=
  [Cache (OpSetEnabled web_agent true "e1"); Cache (OpPush web_agent "e2" (web_push "SessionStart")); Poll;
   Cache (OpPush web_agent "e3" (web_push "Stop")); Cache (OpRemove web_agent); Cache (OpSetEnabled web_agent true "e4");
   Cache (OpPush web_agent "e5" (web_push "UserPromptSubmit")); PollFailed].

Lemma page_follows_witness :
  let '(i, p) := foldl (web_step web_agent) (new_cache, new_page) web_steps in
  en_name <$> pg_shown p = ["SessionStart"] /\ en_name <$> pg_shown (full_poll web_agent i p) = ["UserPromptSubmit"] /\
  pg_epoch (full_poll web_agent i p) = Some "e4".
Proof.
  assert (NoDup (web_steps ≫= draws)) as Hnd by (apply (bool_decide_unpack _); vm_compute; exact Logic.I).
  assert (EmptyString ∉ web_steps ≫= draws) as Hemp by (apply (bool_decide_unpack _); vm_compute; exact Logic.I).
  pose proof (page_follows web_agent web_steps Hnd Hemp) as Hfollows.
  destruct (foldl (web_step web_agent) (new_cache, new_page) web_steps) as [i p] eqn:E.
  destruct (in_events i !! web_agent) as [log|] eqn:Hlog.
  - destruct (Hfollows log Hlog) as (He & _). vm_compute in E. injection E as <- <-. split; [reflexivity|]. split; [vm_compute; reflexivity|].
    vm_compute in Hlog. injection Hlog as <-. exact He.
  - vm_compute in E. injection E as <- _. vm_compute in Hlog. discriminate Hlog.
Defined.

Definition web_review : Review.Review :=
  {| Review.rv_head := "0123456789"; Review.rv_base_ref := "main"; Review.rv_summary := "Looks good."; Review.rv_comments := [] |}.

Lemma reviews_accepted_witness :
  exists message, post_review "f" "c" "a" web_review (mkInner {[web_agent]} [] ∅) = Ok (web_agent, message) /\
    Rules.validate (review_action message) = Ok tt.
Proof.
  destruct (post_review "f" "c" "a" web_review (mkInner {[web_agent]} [] ∅)) as [[id message]|e] eqn:Hp; [|vm_compute in Hp; discriminate Hp].
  exists message. destruct (reviews_accepted "f" "c" "a" web_review _ id message Hp) as (-> & _ & _ & _ & Hv & _). split; [reflexivity|exact Hv].
Defined.
End sample.
