(* ===== verification/Declared.v ===== *)
(** The plugins of a daemon in Kubernetes mode
    ([crates/balerix-server/src/kube/declared.rs]): the operator's list, the
    hellos checked against its grants and kept in files, and readiness from the
    health poll, all of it written through to the registry. One lock is held
    over a whole operation, so each is a step of the list, the files and the
    registry. The digest of an entry and serde's reading of a hello file are
    parameters. The registry mirrors the list ([declared_ok]), so that a plugin
    is called, and calls, as its entry and its hello say
    ([declared_within_grants]). *)

From S2P Require Import Prelude Str BTree Names Json Status Manifest Registry Daemon.
From S2P Require Activation Sessions.

(** ** Data *)

Definition MISSED_POLLS : N := 3.
Definition MIN_TOKEN : nat := 32.

Record DeclareError := mkDeclareError { dx_index : nat; dx_field : string; dx_message : string }.

Record DeclaredPlugin := {
  dp_name : string;
  dp_grant : gset Capability;
  dp_config : Value;
  dp_fleet_defaults : Value;
  dp_token : string;
  dp_url : string;
  dp_revision : string;
}.

Inductive HelloState :=
| Waiting
| HelloRefused (message : string)
| Accepted (manifest : PluginManifest) (ready : bool) (failed : option string).

Record Entry := mkEntry {
  de_name : AgentName;
  de_plugin : DeclaredPlugin;
  de_hash : string;
  de_hello : HelloState;
  de_misses : N;
}.

Record HelloFile := { hf_entry : string; hf_manifest : PluginManifest }.

Record HelloRequest := {
  hr_name : string;
  hr_version : string;
  hr_protocol : N;
  hr_listen : string;
  hr_manifest : option PluginManifest;
  hr_revision : option string;
}.

Record PluginStatus := {
  ps_name : string;
  ps_version : string;
  ps_phase : AgentPhase.t;
  ps_listen : option string;
  ps_routes : bool;
  ps_message : string;
  ps_active_agents : N;
}.

(** The entries under their lock, the hello files by plugin, the registry. *)
Record Declared := mkDeclared {
  dl_entries : list Entry;
  dl_files : gmap string string;
  dl_registry : Registry;
}.
Definition set_entries (l : list Entry) (d : Declared) : Declared := mkDeclared l (dl_files d) (dl_registry d).
Definition set_files (m : gmap string string) (d : Declared) : Declared := mkDeclared (dl_entries d) m (dl_registry d).
Definition set_registry (r : Registry) (d : Declared) : Declared := mkDeclared (dl_entries d) (dl_files d) r.

Definition is_accepted (h : HelloState) : bool := match h with Accepted _ _ _ => true | _ => false end.

(** The entry of a name, and its replacement. *)
Definition named (name : AgentName) (e : Entry) : Prop := de_name e = name.
#[export] Instance named_dec name : forall e, Decision (named name e) := fun e => decide (de_name e = name).
Definition find_entry (name : AgentName) (l : list Entry) : option Entry := snd <$> list_find (named name) l.
Fixpoint replace_entry (e : Entry) (l : list Entry) : list Entry :=
  match l with
  | [] => []
  | x :: l => if decide (de_name x = de_name e) then e :: l else x :: replace_entry e l
  end.
Definition set_hello (h : HelloState) (misses : N) (e : Entry) : Entry := mkEntry (de_name e) (de_plugin e) (de_hash e) h misses.

(** [Capability]s in their order, and their wire labels. *)
Definition CAPABILITIES : list Capability := [CapFleets; CapActions; CapAttach; CapKv; CapWorkspace; CapManage].
Definition wire_label (c : Capability) : string :=
  match c with
  | CapFleets => "fleets" | CapActions => "actions" | CapAttach => "attach" | CapKv => "kv" | CapWorkspace => "workspace"
  | CapManage => "manage"
  end.

(** The SHA-256 of an entry's JSON; serde's bytes of a hello file and its
    reading. *)
Class HelloCodec := {
  entry_digest : DeclaredPlugin -> string;
  encode_hello : HelloFile -> result string string;
  decode_hello : string -> option HelloFile;
}.

Section declared.
Context `{!Unicode, !HelloCodec}.

Definition check_manifest (plugin : DeclaredPlugin) (m : PluginManifest) : result string unit :=
  _ ← map_err (fun e => match e with
                        | EManifest path message => "hello.manifest." +:+ path +:+ ": " +:+ message
                        | other => "hello.manifest: " +:+ manifest_error_text other
                        end) (validate_manifest_fields m);
  _ ← ensure (bool_decide (pm_name m = dp_name plugin))
        ("hello.manifest.name: " +:+ debug_str (pm_name m) +:+ " does not match the plugin " +:+ debug_str (dp_name plugin));
  match filter (fun c => c ∈ pm_needs m /\ c ∉ dp_grant plugin) CAPABILITIES with
  | cap :: _ => Err ("hello.manifest.needs: " +:+ wire_label cap +:+ " is not granted")
  | [] => Ok tt
  end.

(** ** The list *)

(** One entry against those before it and their names. *)
Definition check_entry (index : nat) (before : list DeclaredPlugin) (names : list AgentName) (p : DeclaredPlugin)
    : result DeclareError AgentName :=
  let err field message := mkDeclareError index field message in
  name ← map_err (fun e => err "name" (Activation.name_error_text e)) (from_str (E := NameError) (dp_name p));
  _ ← (match reserved_plugin_reason (dp_name p) with Some reason => Err (err "name" reason) | None => Ok tt end);
  _ ← ensure (negb (bool_decide (name ∈ names))) (err "name" "listed twice");
  _ ← ensure (negb (String.length (dp_token p) <? MIN_TOKEN)) (err "token" ("a token is at least " +:+ pretty MIN_TOKEN +:+ " characters"));
  _ ← ensure (negb (bool_decide (dp_token p ∈ dp_token <$> before))) (err "token" "listed twice");
  _ ← ensure (negb (is_empty (dp_revision p))) (err "revision" "required");
  _ ← ensure (starts_with (dp_url p) "https://") (err "url" "must be https://");
  Ok name.

Fixpoint check_list (before : list DeclaredPlugin) (names : list AgentName) (l : list DeclaredPlugin)
    : result DeclareError (list AgentName) :=
  match l with
  | [] => Ok names
  | p :: l =>
      name ← check_entry (length before) before names p;
      check_list (before ++ [p]) (names ++ [name]) l
  end.

(** A persisted hello counts for the very entry it was accepted for. *)
Definition restore (files : gmap string string) (plugin : DeclaredPlugin) (hash : string) : option PluginManifest :=
  bytes ← files !! dp_name plugin;
  file ← decode_hello bytes;
  if bool_decide (hf_entry file = hash) && is_ok (check_manifest plugin (hf_manifest file)) then Some (hf_manifest file) else None.

(** The first old entry of a name and a hash, out of the list. *)
Fixpoint take_entry (name : AgentName) (hash : string) (old : list Entry) : option (Entry * list Entry) :=
  match old with
  | [] => None
  | e :: old =>
      if bool_decide (de_name e = name) && bool_decide (de_hash e = hash) then Some (e, old)
      else '(x, old) ← take_entry name hash old; Some (x, e :: old)
  end.

(** The new entries, the hellos restored for them, and what is left of the old. *)
Fixpoint merge_entries (files : gmap string string) (l : list (AgentName * DeclaredPlugin)) (old : list Entry)
    : list Entry * list (AgentName * PluginManifest) * list Entry :=
  match l with
  | [] => ([], [], old)
  | (name, plugin) :: l =>
      let h := entry_digest plugin in
      match take_entry name h old with
      | Some (e, old) =>
          let '(entries, restored, old) := merge_entries files l old in
          (mkEntry name plugin h (de_hello e) (de_misses e) :: entries, restored, old)
      | None =>
          let '(entries, restored, old) := merge_entries files l old in
          match restore files plugin h with
          | Some m => (mkEntry name plugin h (Accepted m false None) 0 :: entries, (name, m) :: restored, old)
          | None => (mkEntry name plugin h Waiting 0 :: entries, restored, old)
          end
      end
  end.

(** A restored hello, in the registry: accepted, not ready. *)
Definition register (entries : list Entry) (r : Registry) (x : AgentName * PluginManifest) : Registry :=
  let '(name, m) := x in
  match find_entry name entries with
  | Some e => set_ready name false (accept_hello name m (dp_url (de_plugin e)) (dp_token (de_plugin e)) r)
  | None => r
  end.

(** Removing a file may fail, which nothing notices. *)
Definition remove_file (removes : string -> bool) (files : gmap string string) (name : AgentName) : gmap string string :=
  if removes (to_string name) then delete (to_string name) files else files.

Definition replace (removes : string -> bool) (l : list DeclaredPlugin) (d : Declared) : result DeclareError (list AgentName) * Declared :=
  match check_list [] [] l with
  | Err e => (Err e, d)
  | Ok names =>
      let '(entries, restored, old) := merge_entries (dl_files d) (zip names l) (dl_entries d) in
      let dropped := filter (fun n => n ∉ names) (de_name <$> old) in
      let files := foldl (remove_file removes) (dl_files d) dropped in
      let defaults := (fun e => (de_name e, dp_fleet_defaults (de_plugin e))) <$> entries in
      let keep := de_name <$> filter (fun e => is_accepted (de_hello e) = true) entries in
      let registry := foldl (register entries) (declare defaults keep (dl_registry d)) restored in
      (Ok dropped, mkDeclared entries files registry)
  end.

Definition plugin_for_token (token : string) (d : Declared) : option AgentName :=
  de_name <$> (snd <$> list_find (fun e => Sessions.constant_time_eq (dp_token (de_plugin e)) token = true) (dl_entries d)).
Definition is_listed (name : string) (d : Declared) : bool := existsb (fun e => bool_decide (to_string (de_name e) = name)) (dl_entries d).
Definition config (name : AgentName) (d : Declared) : option Value := (fun e => dp_config (de_plugin e)) <$> find_entry name (dl_entries d).

(** ** Hellos *)

(** [persist]: a failure is only logged. *)
Definition persist (written : bool) (name : string) (file : HelloFile) (files : gmap string string) : gmap string string :=
  match encode_hello file with
  | Ok bytes => if written then <[name := bytes]> files else files
  | Err _ => files
  end.

(** The checks of a hello: what is refused for good, or the manifest. *)
Definition check_hello (plugin : DeclaredPlugin) (req : HelloRequest) : result DaemonError (result string PluginManifest) :=
  if negb (hr_protocol req =? PLUGIN_PROTOCOL)%N then
    Ok (Err ("hello.protocol: this daemon speaks protocol " +:+ pretty PLUGIN_PROTOCOL +:+ ", got " +:+ pretty (hr_protocol req)))
  else
    match hr_revision req with
    | None => Ok (Err "hello.revision: required in kubernetes mode")
    | Some r =>
        if bool_decide (r = dp_revision plugin) then
          match hr_manifest req with
          | None => Ok (Err "hello.manifest: required in kubernetes mode")
          | Some m => Ok (_ ← check_manifest plugin m; Ok m)
          end
        else
          Err (DListPending ("hello.revision: this daemon holds " +:+ dp_revision plugin +:+ ", the plugin is " +:+ r
                             +:+ "; the list has not arrived yet"))
    end.

Definition hello (written : bool) (removes : string -> bool) (name : AgentName) (req : HelloRequest) (d : Declared)
    : result DaemonError Value * Declared :=
  match find_entry name (dl_entries d) with
  | None => (Err DUnauthorized, d)
  | Some e =>
      match check_hello (de_plugin e) req with
      | Err pending => (Err pending, d)
      | Ok (Err text) =>
          (Err (DInvalid text),
           mkDeclared (replace_entry (set_hello (HelloRefused text) 0 e) (dl_entries d)) (remove_file removes (dl_files d) name)
             (unhello name (dl_registry d)))
      | Ok (Ok manifest) =>
          let files := persist written (to_string name) {| hf_entry := de_hash e; hf_manifest := manifest |} (dl_files d) in
          (Ok (dp_config (de_plugin e)),
           mkDeclared (replace_entry (set_hello (Accepted manifest true None) 0 e) (dl_entries d)) files
             (accept_hello name manifest (dp_url (de_plugin e)) (dp_token (de_plugin e)) (dl_registry d)))
      end
  end.

(** ** Health *)

(** The result of a poll; [true] when the plugin just became ready again. *)
Definition health (name : AgentName) (ok : result string unit) (d : Declared) : bool * Declared :=
  match find_entry name (dl_entries d) with
  | None => (false, d)
  | Some e =>
      match de_hello e with
      | Accepted manifest ready failed =>
          match ok with
          | Ok _ =>
              if ready then (false, set_entries (replace_entry (set_hello (Accepted manifest ready failed) 0 e) (dl_entries d)) d)
              else
                (true,
                 mkDeclared (replace_entry (set_hello (Accepted manifest true None) 0 e) (dl_entries d)) (dl_files d)
                   (set_degraded name None (set_ready name true (dl_registry d))))
          | Err reason =>
              let misses := wrapping_add_u32 (de_misses e) 1 in
              if (MISSED_POLLS <=? misses)%N && ready then
                (false,
                 mkDeclared (replace_entry (set_hello (Accepted manifest false (Some ("health: " +:+ reason))) misses e) (dl_entries d))
                   (dl_files d) (set_degraded name (Some reason) (set_ready name false (dl_registry d))))
              else (false, set_entries (replace_entry (set_hello (Accepted manifest ready failed) misses e) (dl_entries d)) d)
          end
      | _ => (false, d)
      end
  end.

Definition pollable (d : Declared) : list (AgentName * PluginAddr) :=
  (fun e => (de_name e, {| pa_listen := dp_url (de_plugin e); pa_token := dp_token (de_plugin e) |}))
  <$> filter (fun e => is_accepted (de_hello e) = true) (dl_entries d).

Definition status_row (active : AgentName -> N) (e : Entry) : PluginStatus :=
  let '(phase, message, manifest) :=
    match de_hello e with
    | Waiting => (AgentPhase.Starting, EmptyString, None)
    | HelloRefused m => (AgentPhase.Failed, m, None)
    | Accepted manifest ready failed =>
        let '(phase, message) :=
          match ready, failed with
          | true, _ => (AgentPhase.Ready, EmptyString)
          | false, Some m => (AgentPhase.Failed, m)
          | false, None => (AgentPhase.Starting, EmptyString)
          end in
        (phase, message, Some manifest)
    end in
  {| ps_name := dp_name (de_plugin e);
     ps_version := match manifest with Some m => pm_version m | None => EmptyString end;
     ps_phase := phase; ps_listen := Some (dp_url (de_plugin e));
     ps_routes := match manifest with Some m => pm_routes m | None => false end;
     ps_message := message; ps_active_agents := active (de_name e) |}.
Definition list_plugins (active : AgentName -> N) (d : Declared) : list PluginStatus := status_row active <$> dl_entries d.
End declared.

(** ** What the list promises *)

Inductive DeclaredOp :=
| DReplace (removes : string -> bool) (l : list DeclaredPlugin)
| DHello (written : bool) (removes : string -> bool) (name : AgentName) (req : HelloRequest)
| DHealth (name : AgentName) (ok : result string unit)
| DRows (rows : gmap (AgentId * AgentName) ActivationRow)
| DRestart (files : gmap string string).

Definition new_declared (files : gmap string string) : Declared := mkDeclared [] files new_registry.

Section invariant.
Context `{!Unicode, !HelloCodec}.
Context (listed : DeclaredPlugin -> Prop).

(** The rows are the applies' to write; a restart finds the files whatever
    became of them. *)
Definition declared_step (d : Declared) (op : DeclaredOp) : Declared :=
  match op with
  | DReplace removes l => (replace removes l d).2
  | DHello written removes name req => (hello written removes name req d).2
  | DHealth name ok => (health name ok d).2
  | DRows rows => set_registry (set_rows rows (dl_registry d)) d
  | DRestart files => new_declared files
  end.

(** The entries an operation lists. *)
Definition lists (op : DeclaredOp) : list DeclaredPlugin := match op with DReplace _ l => l | _ => [] end.

Definition hello_ok (p : DeclaredPlugin) (h : HelloState) : Prop :=
  match h with Accepted m ready failed => check_manifest p m = Ok tt /\ (ready = true -> failed = None) | _ => True end.

Record entry_ok (e : Entry) : Prop := {
  eo_name : from_str (E := NameError) (dp_name (de_plugin e)) = Ok (de_name e);
  eo_token : MIN_TOKEN <= String.length (dp_token (de_plugin e));
  eo_url : starts_with (dp_url (de_plugin e)) "https://" = true;
  eo_hash : de_hash e = entry_digest (de_plugin e);
  eo_listed : listed (de_plugin e);
  eo_hello : hello_ok (de_plugin e) (de_hello e);
}.

(** What the registry holds of an entry. *)
Definition mirrors (e : Entry) (p : PluginInfo) : Prop :=
  pi_fleet_defaults p = dp_fleet_defaults (de_plugin e) /\
  match de_hello e with
  | Accepted m ready failed =>
      pi_manifest p = m /\ pi_listen p = Some (dp_url (de_plugin e)) /\ pi_token p = Some (dp_token (de_plugin e)) /\
      pi_ready p = ready /\ failed = String.append "health: " <$> pi_degraded p
  | _ => p = info_unhello (de_name e) p
  end.

Record declared_ok (d : Declared) : Prop := {
  do_names : NoDup (de_name <$> dl_entries d);
  do_tokens : NoDup ((fun e => dp_token (de_plugin e)) <$> dl_entries d);
  do_entries e : e ∈ dl_entries d -> entry_ok e /\ exists p, plugin (de_name e) (dl_registry d) = Some p /\ mirrors e p;
  do_plugins name : is_Some (plugin name (dl_registry d)) -> name ∈ de_name <$> dl_entries d;
}.

Lemma find_entry_Some name l e : find_entry name l = Some e -> e ∈ l /\ de_name e = name.
Proof.
  unfold find_entry. intros ([i x] & E & [= <-])%fmap_Some. apply list_find_Some in E as (Hl & Hn & _).
  split; [by eapply list_elem_of_lookup_2|done].
Qed.

Lemma find_entry_elem e l : NoDup (de_name <$> l) -> e ∈ l -> find_entry (de_name e) l = Some e.
Proof.
  intros Hnd Hin. unfold find_entry. destruct (list_find (named (de_name e)) l) as [[i x]|] eqn:E.
  - apply list_find_Some in E as (Hl & Hn & _). apply list_elem_of_lookup in Hin as [j Hj]. simpl. f_equal.
    assert (i = j) as ->; [|congruence]. eapply (NoDup_lookup (de_name <$> l)); [done|..]; rewrite list_lookup_fmap.
    + rewrite Hl. simpl. by rewrite Hn.
    + by rewrite Hj.
  - apply list_find_None in E. rewrite Forall_forall in E. by destruct (E e Hin).
Qed.

(** The checks of a new list, against those accepted before. *)
Lemma check_list_Ok l : forall before names names', check_list before names l = Ok names' ->
  NoDup names -> NoDup (dp_token <$> before) ->
  NoDup names' /\ NoDup (dp_token <$> before ++ l) /\ exists new, names' = names ++ new /\
    Forall2 (fun name p => from_str (E := NameError) (dp_name p) = Ok name /\ MIN_TOKEN <= String.length (dp_token p) /\
      starts_with (dp_url p) "https://" = true) new l.
Proof.
  induction l as [|p l IH]; intros before names names' Hc Hn Ht.
  - injection Hc as <-. rewrite app_nil_r. split_and!; [done|done|]. exists []. by rewrite app_nil_r.
  - cbn in Hc. apply bind_Ok in Hc as (name & Hp & Hc). unfold check_entry in Hp.
    apply bind_Ok in Hp as (n & Hname%map_err_Ok & Hp). apply bind_Ok in Hp as (? & _ & Hp).
    apply bind_Ok in Hp as (? & Hnew%ensure_Ok & Hp). apply bind_Ok in Hp as (? & Hlen%ensure_Ok & Hp).
    apply bind_Ok in Hp as (? & Htok%ensure_Ok & Hp). apply bind_Ok in Hp as (? & _ & Hp).
    apply bind_Ok in Hp as (? & Hurl%ensure_Ok & Hp). injection Hp as <-.
    apply negb_true_iff, bool_decide_eq_false in Hnew, Htok. apply negb_true_iff, Nat.ltb_ge in Hlen.
    apply IH in Hc as (Hn' & Ht' & new & -> & Hall).
    + split; [done|]. split; [by rewrite <- app_assoc in Ht'|]. exists (n :: new). split; [by rewrite <- app_assoc|].
      by constructor.
    + apply NoDup_app. split_and!; [done| |apply NoDup_singleton]. by intros y Hy ->%list_elem_of_singleton.
    + rewrite fmap_app. apply NoDup_app. split_and!; [done| |apply NoDup_singleton]. by intros y Hy ->%list_elem_of_singleton.
Qed.

Lemma take_entry_Some name hash old x old' : take_entry name hash old = Some (x, old') ->
  x ∈ old /\ de_name x = name /\ de_hash x = hash /\ forall e, e ∈ old' -> e ∈ old.
Proof.
  revert old'. induction old as [|e old IH]; intros old'; [done|]. cbn.
  destruct (_ && _) eqn:E.
  - apply andb_true_iff in E as [Hn%bool_decide_eq_true Hh%bool_decide_eq_true]. intros [= <- <-].
    split_and!; [by left|done|done|]. intros. by right.
  - destruct (take_entry name hash old) as [[y old1]|]; [|done]. cbn. intros [= <- <-].
    destruct (IH old1 eq_refl) as (? & ? & ? & Hsub). split_and!; [by right|done|done|].
    intros e' [->|?]%elem_of_cons; [by left|right; auto].
Qed.

(** Where the hello of a new entry comes from. *)
Definition hello_from (old : list Entry) (restored : list (AgentName * PluginManifest)) (e : Entry) : Prop :=
  (de_name e ∉ restored.*1 /\
    (de_hello e = Waiting \/ exists x, x ∈ old /\ de_name x = de_name e /\ de_hash x = de_hash e /\ de_hello x = de_hello e)) \/
  (exists m, de_hello e = Accepted m false None /\ check_manifest (de_plugin e) m = Ok tt /\ (de_name e, m) ∈ restored).

Lemma merge_entries_spec files l : forall old entries restored old', merge_entries files l old = (entries, restored, old') -> NoDup l.*1 ->
  Forall2 (fun x e => de_name e = x.1 /\ de_plugin e = x.2 /\ de_hash e = entry_digest x.2) l entries /\
  NoDup restored.*1 /\ (forall name, name ∈ restored.*1 -> name ∈ l.*1) /\
  forall e, e ∈ entries -> hello_from old restored e.
Proof.
  induction l as [|[name p] l IH]; intros old entries restored old' Hm Hnd.
  - injection Hm as <- <- <-. split_and!; [constructor|constructor|intros ? []%elem_of_nil|intros ? []%elem_of_nil].
  - cbn in Hnd. apply NoDup_cons in Hnd as [Hname Hnd]. cbn in Hm.
    destruct (take_entry name (entry_digest p) old) as [[x old1]|] eqn:Ht.
    + apply take_entry_Some in Ht as (Hin & Hxn & Hxh & Hsub).
      destruct (merge_entries files l old1) as [[es rs] o] eqn:E. injection Hm as <- <- <-.
      destruct (IH _ _ _ _ E Hnd) as (Hes & Hr & Hdom & Hall).
      split_and!; [by constructor|done|intros n Hn; right; auto|].
      intros e [->|He]%elem_of_cons.
      * left. cbn. split; [naive_solver|]. right. by exists x.
      * destruct (Hall e He) as [[Hno [?|(y & ? & ?)]]|?]; [left; auto|left; split; [done|]; right; exists y; auto|by right].
    + destruct (merge_entries files l old) as [[es rs] o] eqn:E.
      destruct (IH _ _ _ _ E Hnd) as (Hes & Hr & Hdom & Hall).
      destruct (restore files p (entry_digest p)) as [m|] eqn:Hres; injection Hm as <- <- <-.
      * split_and!; [by constructor|cbn; constructor; [naive_solver|done]|cbn; intros n [->|Hn]%elem_of_cons; [by left|right; auto]|].
        intros e [->|He]%elem_of_cons.
        -- right. exists m. cbn. split_and!; [done| |by left]. unfold restore in Hres.
           destruct (files !! dp_name p); [|done]. cbn in Hres. destruct (decode_hello _) as [f|]; [|done]. cbn in Hres.
           destruct (_ && is_ok (check_manifest p (hf_manifest f))) eqn:Hok; [|done]. injection Hres as <-.
           apply andb_true_iff in Hok as [_ Hok]. by destruct (check_manifest p (hf_manifest f)) as [[]|].
        -- assert (de_name e <> name) as Hne.
           { intros <-. apply Hname. apply list_elem_of_lookup in He as [i Hi]. apply (Forall2_lookup_r _ _ _ _ _ Hes) in Hi as ([n q] & Hl & -> & _).
             apply list_elem_of_fmap. exists (n, q). split; [done|]. by eapply list_elem_of_lookup_2. }
           destruct (Hall e He) as [[Hno ?]|(m' & ? & ? & ?)]; [left; split; [|done]; cbn; by apply not_elem_of_cons|].
           right. exists m'. split_and!; [done..|by right].
      * split_and!; [by constructor|done|intros n Hn; right; auto|].
        intros e [->|He]%elem_of_cons; [left; cbn; split; [naive_solver|by left]|auto].
Qed.

(** ** The registry follows *)

Lemma plugin_accept n name m url token r : plugin n (accept_hello name m url token r) =
  if decide (n = name) then greeted (Some m) url token <$> plugin n r else plugin n r.
Proof. unfold plugin, accept_hello. destruct (next_hello name r) as [g r'] eqn:E. injection E as _ <-. by rewrite lookup_with_plugin. Qed.

Lemma plugin_register entries n name m e r : find_entry name entries = Some e ->
  plugin n (register entries r (name, m)) =
  if decide (n = name) then (fun p => info_ready false (greeted (Some m) (dp_url (de_plugin e)) (dp_token (de_plugin e)) p)) <$> plugin n r
  else plugin n r.
Proof.
  intros Hf. cbn [register]. rewrite Hf. unfold plugin, set_ready. rewrite lookup_with_plugin.
  pose proof (plugin_accept n name m (dp_url (de_plugin e)) (dp_token (de_plugin e)) r) as Ha. unfold plugin in Ha. rewrite Ha.
  case_decide; [|done]. by destruct (reg_plugins r !! n).
Qed.

Lemma plugin_registered entries restored : forall r n, NoDup restored.*1 ->
  (forall name, name ∈ restored.*1 -> is_Some (find_entry name entries)) ->
  (n ∉ restored.*1 -> plugin n (foldl (register entries) r restored) = plugin n r) /\
  forall m e, (n, m) ∈ restored -> find_entry n entries = Some e ->
    plugin n (foldl (register entries) r restored) =
    (fun p => info_ready false (greeted (Some m) (dp_url (de_plugin e)) (dp_token (de_plugin e)) p)) <$> plugin n r.
Proof.
  induction restored as [|[name m0] restored IH]; intros r n Hnd Hf; [split; [done|by intros ? ? []%elem_of_nil]|].
  cbn in Hnd. apply NoDup_cons in Hnd as [Hnew Hnd].
  destruct (Hf name) as [e0 He0]; [by left|]. cbn [foldl].
  destruct (IH (register entries r (name, m0)) n Hnd) as [IH1 IH2]; [intros; apply Hf; by right|]. split.
  - intros [Hne Hn]%not_elem_of_cons. rewrite IH1 by done. rewrite (plugin_register _ _ _ _ _ _ He0). by rewrite decide_False.
  - intros m e [[= -> ->]|Hin]%elem_of_cons He.
    + rewrite IH1 by done. rewrite (plugin_register _ _ _ _ _ _ He). by rewrite decide_True.
    + rewrite (IH2 m e Hin He), (plugin_register _ _ _ _ _ _ He0). rewrite decide_False; [done|].
      intros ->. apply Hnew. by apply (list_elem_of_fmap_2 fst) in Hin.
Qed.

Definition defaults_of (e : Entry) : AgentName * Value := (de_name e, dp_fleet_defaults (de_plugin e)).

Lemma plugin_declare entries keep r : NoDup (de_name <$> entries) ->
  (forall e, e ∈ entries -> plugin (de_name e) (declare (defaults_of <$> entries) keep r) = Some (declared_info (reg_plugins r) keep (defaults_of e))) /\
  forall name, is_Some (plugin name (declare (defaults_of <$> entries) keep r)) -> name ∈ de_name <$> entries.
Proof.
  intros Hnd. unfold plugin, declare. cbn [reg_plugins]. rewrite <- list_fmap_compose.
  assert (NoDup ((fun e => ((defaults_of e).1, declared_info (reg_plugins r) keep (defaults_of e))) <$> entries).*1) as Hnd'.
  { by rewrite <- list_fmap_compose. }
  split.
  - intros e He. apply (lookup_collect _ _ _ Hnd'). by apply (list_elem_of_fmap_2 (fun e => ((defaults_of e).1, declared_info (reg_plugins r) keep (defaults_of e)))).
  - intros name [p Hp]. apply (lookup_collect _ _ _ Hnd') in Hp. apply list_elem_of_fmap in Hp as (e & [= -> _] & He). by apply list_elem_of_fmap_2.
Qed.

(** A digest names its entry. *)
Context (Hdigest : forall p q, listed p -> listed q -> entry_digest p = entry_digest q -> p = q).

Lemma replace_ok removes l d : (forall p, p ∈ l -> listed p) -> declared_ok d -> declared_ok (replace removes l d).2.
Proof.
  intros Hlisted Hd. unfold replace. destruct (check_list [] [] l) as [names|e] eqn:Hc; [|done].
  apply check_list_Ok in Hc as (Hn & Ht & new & -> & Hall); [|constructor..]. cbn [app] in *.
  pose proof (Forall2_length _ _ _ Hall) as Hlen.
  destruct (merge_entries (dl_files d) (zip new l) (dl_entries d)) as [[entries restored] old] eqn:Hm.
  assert ((zip new l).*1 = new) as Hfst by (apply fst_zip; lia). assert ((zip new l).*2 = l) as Hsnd by (apply snd_zip; lia).
  apply merge_entries_spec in Hm as (Hes & Hr & Hdom & Hfrom); [|by rewrite Hfst].
  assert (de_name <$> entries = new /\ de_plugin <$> entries = l) as [Hnames Hplugins].
  { rewrite <- Hfst at 1. rewrite <- Hsnd at 2. clear -Hes. induction Hes as [|x e k es (? & ? & _) _ [IH1 IH2]]; [done|]. cbn. split; by f_equal. }
  assert (NoDup (de_name <$> entries)) as Hnd by by rewrite Hnames.
  cbn [snd]. set (keep := de_name <$> filter _ entries). change (fun e => (de_name e, dp_fleet_defaults (de_plugin e))) with defaults_of.
  destruct (plugin_declare entries keep (dl_registry d) Hnd) as [Hdecl Hout].
  assert (forall name, name ∈ restored.*1 -> is_Some (find_entry name entries)) as Hfound.
  { intros name Hin%Hdom. rewrite Hfst, <- Hnames in Hin. apply list_elem_of_fmap in Hin as (e & -> & He). exists e. by apply find_entry_elem. }
  split; cbn [dl_entries dl_registry]; [done| | |].
  - assert ((fun e => dp_token (de_plugin e)) <$> entries = dp_token <$> l) as -> by (by rewrite <- Hplugins, <- list_fmap_compose). done.
  - intros e He. destruct (plugin_registered entries restored (declare (defaults_of <$> entries) keep (dl_registry d)) (de_name e) Hr Hfound) as [Hno Hyes].
    rewrite (Hdecl e He) in Hno, Hyes. pose proof (find_entry_elem e entries Hnd He) as Hfind.
    assert (de_name e ∈ keep <-> is_accepted (de_hello e) = true) as Hkeep.
    { unfold keep. split.
      - intros (x & Hx & [Ha Hin]%list_elem_of_filter)%list_elem_of_fmap. pose proof (find_entry_elem x entries Hnd Hin) as Hx'.
        rewrite <- Hx, Hfind in Hx'. by injection Hx' as ->.
      - intros Ha. apply list_elem_of_fmap_2, list_elem_of_filter. done. }
    pose proof He as [i Hi]%list_elem_of_lookup.
    assert (new !! i = Some (de_name e)) as Hni by (by rewrite <- Hnames, list_lookup_fmap, Hi).
    assert (l !! i = Some (de_plugin e)) as Hli by (by rewrite <- Hplugins, list_lookup_fmap, Hi).
    destruct (Forall2_lookup_lr _ _ _ _ _ _ Hall Hni Hli) as (Hname & Htok & Hurl).
    assert (de_hash e = entry_digest (de_plugin e)) as Hhash.
    { destruct (Forall2_lookup_r _ _ _ _ _ Hes Hi) as (x & _ & _ & -> & ->). done. }
    assert (hello_ok (de_plugin e) (de_hello e) /\ exists p,
      plugin (de_name e) (foldl (register entries) (declare (defaults_of <$> entries) keep (dl_registry d)) restored) = Some p /\ mirrors e p) as [Hok Hmir].
    { destruct (Hfrom e He) as [[Hnot Hold]|(m & Hacc & Hcheck & Hin)].
      - rewrite (Hno Hnot). destruct Hold as [Hw|(x & Hx & Hxn & Hxh & Hxe)].
        + rewrite Hw. split; [done|]. eexists. split; [done|]. unfold mirrors, declared_info, defaults_of. rewrite Hw.
          rewrite bool_decide_false; [done|]. rewrite Hkeep, Hw. done.
        + destruct (do_entries d Hd x Hx) as [Hxok (p & Hp & Hpdef & Hpm)].
          assert (de_plugin x = de_plugin e) as Hpl.
          { apply Hdigest; [apply (eo_listed x Hxok)|by apply Hlisted, (list_elem_of_lookup_2 l i)|by rewrite <- (eo_hash x Hxok), <- Hhash]. }
          split; [rewrite <- Hpl, <- Hxe; apply (eo_hello x Hxok)|]. eexists. split; [done|]. unfold mirrors, declared_info, defaults_of.
          rewrite Hxe, Hpl in Hpm. destruct (de_hello e) as [|msg|m ready failed] eqn:Hh.
          * by rewrite bool_decide_false by (by rewrite Hkeep).
          * by rewrite bool_decide_false by (by rewrite Hkeep).
          * rewrite bool_decide_true by (by rewrite Hkeep). unfold plugin in Hp. rewrite <- Hxn, Hp. done.
      - rewrite (Hyes m e Hin Hfind). rewrite Hacc. split; [done|]. eexists. split; [done|]. unfold mirrors. rewrite Hacc.
        split; [|done]. cbn [info_ready greeted pi_fleet_defaults]. unfold declared_info, defaults_of. by destruct (if bool_decide _ then _ else None). }
    split; [|done]. split; [done..|by apply Hlisted, (list_elem_of_lookup_2 l i)|done].
  - intros name [p Hp]. apply Hout. destruct (plugin_registered entries restored (declare (defaults_of <$> entries) keep (dl_registry d)) name Hr Hfound) as [Hno Hyes].
    destruct (decide (name ∈ restored.*1)) as [Hin|Hnin]; [|exists p; by rewrite <- Hno].
    pose proof Hin as [e He]%Hfound. apply list_elem_of_fmap in Hin as ([n m] & -> & Hin). cbn in He. rewrite (Hyes m e Hin He) in Hp.
    apply fmap_Some in Hp as (q & -> & _). by exists q.
Qed.

(** One entry's hello and its row of the registry change together. *)
Lemma entry_changes d e h misses f files : declared_ok d -> e ∈ dl_entries d -> hello_ok (de_plugin e) h ->
  (forall p, mirrors e p -> mirrors (set_hello h misses e) (f p)) ->
  forall r, (forall n, plugin n r = if decide (n = de_name e) then f <$> plugin n (dl_registry d) else plugin n (dl_registry d)) ->
  declared_ok (mkDeclared (replace_entry (set_hello h misses e) (dl_entries d)) files r).
Proof.
  intros [Hn Ht He Hp] Hin Hh Hf r Hr.
  assert (forall A (g : Entry -> A), (forall x, x ∈ dl_entries d -> de_name x = de_name e -> g (set_hello h misses e) = g x) ->
    g <$> replace_entry (set_hello h misses e) (dl_entries d) = g <$> dl_entries d) as Hmap.
  { intros A g. clear. induction (dl_entries d) as [|x l IH]; intros Hg; [done|]. cbn. case_decide as Hx.
    - cbn. f_equal. apply Hg; [by left|done].
    - cbn. f_equal. apply IH. intros; apply Hg; [by right|done]. }
  assert (forall x, x ∈ dl_entries d -> de_name x = de_name e -> x = e) as Hone.
  { intros x Hx Hxe. pose proof (find_entry_elem x _ Hn Hx) as H1'. rewrite Hxe, (find_entry_elem e _ Hn Hin) in H1'. by injection H1'. }
  assert (forall x, x ∈ replace_entry (set_hello h misses e) (dl_entries d) -> x = set_hello h misses e \/ x ∈ dl_entries d /\ de_name x <> de_name e) as Hold.
  { clear -Hn Hin. induction (dl_entries d) as [|y l IH]; [by intros x ?%elem_of_nil|]. cbn in *. apply NoDup_cons in Hn as [Hy Hn]. intros x.
    destruct (decide (de_name y = de_name e)) as [Hye|Hye].
    - intros [->|Hx]%elem_of_cons; [by left|]. right. split; [by right|]. intros Hxe. apply Hy. rewrite Hye, <- Hxe. by apply list_elem_of_fmap_2.
    - apply elem_of_cons in Hin as [->|Hin]; [done|]. intros [->|Hx]%elem_of_cons; [right; split; [by left|done]|].
      destruct (IH Hn Hin x Hx) as [?|[? ?]]; [by left|right; split; [by right|done]]. }
  split; cbn [dl_entries dl_registry].
  - rewrite Hmap; [done|]. intros x _ Hx. by rewrite Hx.
  - rewrite Hmap; [done|]. intros x Hx Hxe. by rewrite (Hone x Hx Hxe).
  - intros x [->|[Hx Hne]]%Hold.
    + destruct (He e Hin) as [[] (p & Hpl & Hm)]. split; [by split|]. exists (f p). cbn [de_name set_hello]. rewrite Hr, decide_True, Hpl by done.
      split; [done|by apply Hf].
    + rewrite Hr, decide_False by done. by apply He.
  - intros name. rewrite Hmap by (intros x _ Hx; by rewrite Hx). rewrite Hr. case_decide; [rewrite fmap_is_Some|]; apply Hp.
Qed.

Lemma hello_keeps written removes name req d : declared_ok d -> declared_ok (hello written removes name req d).2.
Proof.
  intros Hd. unfold hello. destruct (find_entry name (dl_entries d)) as [e|] eqn:He; [|done]. apply find_entry_Some in He as [He <-].
  destruct (check_hello (de_plugin e) req) as [[m|text]|pending] eqn:Hc; cbn [snd]; [| |done].
  - apply (entry_changes d e _ _ (greeted (Some m) (dp_url (de_plugin e)) (dp_token (de_plugin e)))); [done|done| | |].
    + split; [|done]. unfold check_hello in Hc. destruct (negb _); [done|]. destruct (hr_revision req) as [r|]; [|done]. case_bool_decide; [|done].
      destruct (hr_manifest req) as [m'|]; [|done]. injection Hc as Hc. by apply bind_Ok in Hc as ([] & ? & [= ->]).
    + by intros p [Hdef _].
    + intros n. apply plugin_accept.
  - apply (entry_changes d e _ _ (info_unhello (de_name e))); [done|done|done|by intros p [Hdef _]|].
    intros n. unfold plugin, unhello. apply lookup_with_plugin.
Qed.

Lemma health_keeps name ok d : declared_ok d -> declared_ok (health name ok d).2.
Proof.
  intros Hd. unfold health. destruct (find_entry name (dl_entries d)) as [e|] eqn:He; [|done]. apply find_entry_Some in He as [He <-].
  destruct (do_entries d Hd e He) as [Heok _]. pose proof (eo_hello e Heok) as Hh. destruct (de_hello e) as [| |m ready failed] eqn:Hs; [done..|]. cbn in Hh.
  assert (forall misses, declared_ok (set_entries (replace_entry (set_hello (Accepted m ready failed) misses e) (dl_entries d)) d)) as Hsame.
  { intros misses. apply (entry_changes d e _ _ id); [done|done|done| |].
    - intros p. unfold mirrors. rewrite Hs. done.
    - intros n. case_decide; [by destruct (plugin n (dl_registry d))|done]. }
  assert (forall b o n, plugin n (set_degraded (de_name e) o (set_ready (de_name e) b (dl_registry d))) =
    if decide (n = de_name e) then (fun p => info_degraded o (info_ready b p)) <$> plugin n (dl_registry d) else plugin n (dl_registry d)) as Hreg.
  { intros b o n. unfold plugin, set_degraded, set_ready. rewrite !lookup_with_plugin. case_decide; [|done]. by destruct (reg_plugins _ !! n). }
  destruct ok as [[]|reason].
  - destruct ready; [apply Hsame|]. apply (entry_changes d e _ _ (fun p => info_degraded None (info_ready true p))); [done|done|by split; [apply Hh|]| |apply Hreg].
    intros p. unfold mirrors. rewrite Hs. cbn. naive_solver.
  - destruct (_ && ready); [|apply Hsame]. apply (entry_changes d e _ _ (fun p => info_degraded (Some reason) (info_ready false p))); [done|done|by split; [apply Hh|]| |apply Hreg].
    intros p. unfold mirrors. rewrite Hs. cbn. naive_solver.
Qed.

Lemma new_ok files : declared_ok (new_declared files).
Proof. split; [constructor|constructor|intros e []%elem_of_nil|]. intros name [p Hp]. unfold plugin in Hp. cbn in Hp. by rewrite lookup_empty in Hp. Qed.

Lemma declared_step_ok op d : (forall p, p ∈ lists op -> listed p) -> declared_ok d -> declared_ok (declared_step d op).
Proof.
  intros Hl.
  destruct op as [removes l|written removes name req|name ok|rows|files]; cbn [declared_step];
    [by apply replace_ok|apply hello_keeps|apply health_keeps| |intros _; apply new_ok].
  intros []. by split.
Qed.

Lemma declared_run_ok ops files : (forall p, p ∈ ops ≫= lists -> listed p) -> declared_ok (foldl declared_step (new_declared files) ops).
Proof.
  induction ops as [|op ops IH] using rev_ind; [intros _; apply new_ok|]. rewrite bind_app, foldl_app. intros Hl.
  apply declared_step_ok; [|apply IH]; intros p Hp; apply Hl, elem_of_app; [right; cbn; by rewrite app_nil_r|by left].
Qed.
End invariant.

Section authority.
Context `{!Unicode, !HelloCodec}.

(** A plugin of the operator's list is called, and calls, as the operator and
    its own hello say, over every run of lists, hellos, health polls, applies
    and restarts that find any files at all: a plugin the registry would call
    is listed, said a hello that passes the checks against its entry and has
    not missed its polls since, and is called at its entry's address under its
    entry's token; what the registry lets a plugin do is within its grant; and
    a token is one listed plugin's. *)
Theorem declared_within_grants (files : gmap string string) (ops : list DeclaredOp)
    (Hdigest : forall p q, p ∈ ops ≫= lists -> q ∈ ops ≫= lists -> entry_digest p = entry_digest q -> p = q) :
  let d := foldl declared_step (new_declared files) ops in
  (forall name addr, ready_addr name (dl_registry d) = Some addr <->
    exists e m failed, e ∈ dl_entries d /\ de_name e = name /\ de_hello e = Accepted m true failed /\
      check_manifest (de_plugin e) m = Ok tt /\
      addr = {| pa_listen := dp_url (de_plugin e); pa_token := dp_token (de_plugin e) |}) /\
  (forall name cap, has name cap (dl_registry d) = true ->
    exists e, e ∈ dl_entries d /\ de_name e = name /\ cap ∈ dp_grant (de_plugin e)) /\
  (forall token name, plugin_for_token token d = Some name <-> exists e, e ∈ dl_entries d /\ de_name e = name /\ dp_token (de_plugin e) = token).
Proof.
  intros d. assert (declared_ok (fun p => p ∈ ops ≫= lists) d) as Hd by by apply declared_run_ok.
  split; [|split].
  - intros name addr. rewrite ready_addr_Some. split.
    + intros (p & Hp & Hr & Hl & Ht). assert (name ∈ de_name <$> dl_entries d) as (e & -> & He)%list_elem_of_fmap by (apply (do_plugins _ d Hd); by exists p).
      destruct (do_entries _ d Hd e He) as [Hok (q & Hq & _ & Hm)]. unfold plugin in Hq. rewrite Hp in Hq. injection Hq as <-.
      pose proof (eo_hello _ e Hok) as Hh. destruct (de_hello e) as [| |m ready failed] eqn:Hs; [by rewrite Hm in Hr..|].
      destruct Hm as (_ & Hl' & Ht' & Hr' & _). rewrite Hr in Hr'. subst ready. exists e, m, failed. split_and!; [done|done|done|apply Hh|].
      destruct addr. cbn in *. congruence.
    + intros (e & m & failed & He & <- & Hs & _ & ->). destruct (do_entries _ d Hd e He) as [_ (q & Hq & _ & Hm)]. rewrite Hs in Hm.
      exists q. naive_solver.
  - intros name cap. unfold has. destruct (reg_plugins (dl_registry d) !! name) as [p|] eqn:Hp; [|done]. intros Hcap%bool_decide_eq_true.
    assert (name ∈ de_name <$> dl_entries d) as (e & -> & He)%list_elem_of_fmap by (apply (do_plugins _ d Hd); by exists p).
    exists e. split; [done|]. split; [done|]. destruct (do_entries _ d Hd e He) as [Hok (q & Hq & _ & Hm)].
    unfold plugin in Hq. rewrite Hp in Hq. injection Hq as <-. pose proof (eo_hello _ e Hok) as Hh.
    destruct (de_hello e) as [| |m ready failed]; [by rewrite Hm in Hcap..|]. destruct Hm as (<- & _). destruct Hh as [Hc _].
    unfold check_manifest in Hc. apply bind_Ok in Hc as (? & _ & Hc). apply bind_Ok in Hc as (? & _ & Hc).
    destruct (filter _ CAPABILITIES) as [|c cs] eqn:Hf; [|done].
    destruct (decide (cap ∈ dp_grant (de_plugin e))) as [|Hno]; [done|exfalso]. apply (not_elem_of_nil cap). rewrite <- Hf.
    apply list_elem_of_filter. split; [done|]. unfold CAPABILITIES. destruct cap; set_solver.
  - intros token name. unfold plugin_for_token. split.
    + intros (e & ([i x] & E & [= ->])%fmap_Some & ->)%fmap_Some. apply list_find_Some in E as (Hl & Ht & _).
      rewrite Sessions.constant_time_eq_eq in Ht. apply bool_decide_eq_true in Ht. exists x. split_and!; [by eapply list_elem_of_lookup_2|done..].
    + intros (e & He & <- & <-). destruct (list_find _ (dl_entries d)) as [[i x]|] eqn:E.
      * apply list_find_Some in E as (Hl & Ht & _). rewrite Sessions.constant_time_eq_eq in Ht. apply bool_decide_eq_true in Ht. cbn. do 2 f_equal.
        apply list_elem_of_lookup in He as [j Hj]. assert (i = j) as ->; [|congruence].
        eapply (NoDup_lookup _ _ _ _ (do_tokens _ d Hd)); rewrite list_lookup_fmap; [by rewrite Hl|rewrite Hj; cbn; by rewrite Ht].
      * apply list_find_None in E. rewrite Forall_forall in E. destruct (E e He). rewrite Sessions.constant_time_eq_eq. by apply bool_decide_eq_true.
Qed.
End authority.

(** ** A concrete list *)

Section sample.
#[local] Instance declared_unicode : Unicode := fun _ => false.
(** Entries told apart by their revision. *)
#[local] Instance declared_codec : HelloCodec :=
  {| entry_digest := dp_revision; encode_hello f := Ok (hf_entry f); decode_hello _ := None |}.

Definition listed_web : DeclaredPlugin := {|
  dp_name := "web"; dp_grant := {[CapFleets]}; dp_config := Null; dp_fleet_defaults := Null;
  dp_token := "0123456789abcdef0123456789abcdef"; dp_url := "https://web"; dp_revision := "r1"
|}.
Definition said_web : PluginManifest :=
  let m := placeholder_manifest web in
  {| pm_api_version := pm_api_version m; pm_kind := pm_kind m; pm_name := pm_name m; pm_version := "1.0.0";
     pm_protocol := pm_protocol m; pm_start := "web"; pm_hooks := pm_hooks m; pm_needs := {[CapFleets]};
     pm_routes := true; pm_sandbox := pm_sandbox m |}.
Definition hello_web : HelloRequest := {|
  hr_name := "web"; hr_version := "1.0.0"; hr_protocol := PLUGIN_PROTOCOL; hr_listen := "ignored";
  hr_manifest := Some said_web; hr_revision := Some "r1"
|}.
Definition declared_ops : list DeclaredOp :=
  [DReplace (fun _ => true) [listed_web]; DHello true (fun _ => true) web hello_web; DHealth web (Err "down")].

Lemma declared_within_grants_witness :
  let d := foldl declared_step (new_declared ∅) declared_ops in
  ready_addr web (dl_registry d) = Some {| pa_listen := "https://web"; pa_token := dp_token listed_web |} /\
  exists e, e ∈ dl_entries d /\ de_name e = web /\ CapFleets ∈ dp_grant (de_plugin e).
Proof.
  intros d. split; [vm_compute; reflexivity|]. destruct (declared_within_grants ∅ declared_ops) as (_ & Hhas & _).
  - intros p q Hp%list_elem_of_singleton Hq%list_elem_of_singleton _. by rewrite Hp, Hq.
  - apply Hhas. vm_compute. reflexivity.
Defined.
End sample.
